(* ===== verification/_CoqProject ===== *)
-Q . S2P
Prelude.v
CString.v
MemBuffer.v
StrIntMap.v
HttpTables.v
FreeList.v
LinkedList.v
Queue.v
ThreadPool.v
TimerThread.v
Uri.v
UriSpec.v
Scanner.v
HttpMessage.v
HttpParser.v
HttpSafety.v
HttpResume.v
Sock.v
HttpMake.v
HttpIO.v
HttpRecv.v
HttpSend.v
HttpRead.v
XmlChars.v
IxmlNode.v
IxmlTree.v
IxmlDom.v
IxmlDocument.v
XmlParser.v
XmlPrint.v
IxmlBuild.v
XmlText.v
XmlDocs.v
XmlParse.v
XmlRound.v
UpnpString.v
GenaQueue.v
ServiceTable.v
Ssdp.v
HandleTable.v
SsdpDevice.v
SsdpCtrlpt.v
SsdpNames.v
SsdpSearch.v
SsdpPackets.v
SsdpDescription.v
SsdpAnswer.v
SsdpAnnounce.v
Gena.v
GenaInv.v
GenaState.v
GenaSteps.v
GenaTexts.v
GenaPost.v
GenaSystem.v
GenaKeys.v
GenaProps.v
GenaRequests.v
WebServer.v
WebRange.v
WebRequest.v
WebPath.v
