(* ===== verification/Prelude.v ===== *)
(** * Verification of pupnp: threads, buffers, URIs, HTTP messages, the DOM, eventing and discovery

    pupnp is a UPnP development kit in C.  This library models the components
    that carry its own logic and proves them correct.  [U/] below stands for
    [src/upnp/src/], [X/] for [src/ixml/src/].

    ** The program

    A UPnP stack keeps a pool of worker threads ([U/threadutil]) that run jobs;
    a timer thread, itself a persistent job of a pool, hands timed jobs to it;
    both keep their work in linked lists whose nodes come from free lists.
    Network threads receive HTTP messages piece by piece into memory buffers
    and feed them to a resumable parser ([U/genlib]); URIs are parsed and
    resolved on the way.  Descriptions and event bodies are XML documents, held
    as DOM trees by the ixml library.  A device keeps the services of its
    description, and the control points that subscribed to them, in a table of
    its handle; an event that it posts is queued at each subscription and sent
    by the threads of a pool.  A web server answers requests for documents: the
    description under an alias, files of a root directory, and files of virtual
    directories that the application registers.  SSDP is how they find each
    other: a device announces its description, with its embedded devices and
    services, by multicast, a control point searches by multicast, and every
    device answers what matches, after a random delay.

    ** The files

    - [Prelude]: machine integers, characters, lists indexed by [Z], the effect
      monad with its rules, the automation.  [CString]: the functions of the C
      library the code calls.
    - [MemBuffer]: [U/genlib/util/membuffer.c].  [StrIntMap]:
      [U/genlib/util/strintmap.c].  [HttpTables]: the tables of
      [U/genlib/net/http/httpparser.c] and [statcodes.c].
    - [FreeList], [LinkedList], [ThreadPool], [TimerThread]: the files of these
      names in [U/threadutil].  [Queue] is the interface (a class with its
      laws) between the lists and their two clients, and [JobPool] in
      [TimerThread] the one between the timer and the pool; the clients are
      verified against the interface, and the lists and the pool implement it.
    - [Uri]: [U/genlib/net/uri/uri.c].  [UriSpec]: a grammar of URIs, written as
      functions on the text, and that [parse_uri] implements it.
    - [Scanner], [HttpMessage], [HttpParser]: [U/genlib/net/http/httpparser.c],
      its scanner and pattern matcher, its messages, and the parser itself;
      [HttpSafety] and [HttpResume] prove the two theorems on the whole parser.
    - [Sock]: [U/genlib/net/sock.c].  [HttpMake], [HttpIO]:
      [U/genlib/net/http/httpreadwrite.c], the building of messages, and the
      connections on which they are sent and received.  [HttpRecv], [HttpSend]
      and [HttpRead] hold what is proved about receiving a message, sending one
      and reading the body of a response.
    - [IxmlNode]: [X/node.c], [X/nodeList.c] and the structures of
      [src/ixml/inc/ixml.h].  [IxmlTree]: the trees that the links of the nodes
      form, and the release of a tree.  [IxmlDom]: the edits and searches.
      [IxmlDocument]: [X/document.c], [X/element.c], [X/attr.c] and
      [X/namedNodeMap.c].
    - [XmlChars]: the characters, UTF-8 and character references of
      [X/ixmlparser.c].  [XmlParser]: the rest of it, with [X/ixmlmembuf.c] and
      the entry points of [X/ixml.c].  [XmlPrint]: the printers of [X/ixml.c].
    - [XmlDocs] says what a text of a document is, without reference to the
      code.  [IxmlBuild], [XmlText] and [XmlParse] prove that the parser builds
      the document of such a text: the nodes it creates and appends, the tokens
      it reads, its passes.  [XmlRound] adds the printer and states the
      theorems.

    - [UpnpString]: [U/api/UpnpString.c] and the request structure of
      [UpnpSubscriptionRequest.c].  [ServiceTable]:
      [U/genlib/service_table/service_table.c].  [HandleTable]: the handle table
      of [U/api/upnpapi.c].
    - [GenaQueue], [Gena], [GenaRequests]: [U/gena/gena_device.c], the queue of
      a subscription; the texts, the posting of events and the critical
      sections of the sending threads; the delivery over the network and the
      handlers of the requests, with [U/gena/gena_callback2.c].
      [GenaInv] is the invariant on events, [GenaState] and [GenaSteps] how the
      lookups and a sending thread keep it, [GenaTexts] the texts, [GenaPost] the
      two functions that post, [GenaSystem] the device with its clients and
      threads as a transition relation, [GenaKeys] its histories, and
      [GenaProps] the theorems.
    - [WebServer], [WebRange], [WebRequest]: [U/genlib/net/http/webserver.c], the
      table of content types, the alias and the virtual directories (those with
      their part of [U/api/upnpapi.c]); the headers that ask for a part of a
      document; and the processing of a request, from its path to the bytes
      sent or received.  [WebPath] proves which file a request can reach.
    - [Ssdp], [SsdpDevice], [SsdpCtrlpt]: [U/ssdp/ssdp_server.c] (the names in the
      headers, the messages that are accepted), the side of the device in
      [ssdp_device.c] with [AdvertiseAndReply] of [ssdp_server.c], and the side of
      the control point in [ssdp_ctrlpt.c].  [SsdpNames] proves that names are
      recovered from the text the other side composes; [SsdpSearch] is about the
      searches of a control point, [SsdpAnswer] about when a device answers one,
      [SsdpPackets] about the text of its packets, [SsdpDescription] about what is
      read from the description, and [SsdpAnnounce] puts these together.

    ** State and operations

    Every C function is a definition of the same name.  Structures are records
    with the fields of the structure; a function that changes its argument
    returns the changed record.  Memory a component owns is a store of blocks
    ([gmap]) indexed by address ([FreeList], [LinkedList], [IxmlNode]); memory
    of one owner is the value itself (the bytes of a [membuffer], the strings
    of a node).  Integers are [Z] with their wrap-around written out where the
    code can reach it ([to_int], [to_size], ...).

    A computation that allocates is in the monad [M] of [Prelude]: it takes the
    answers of the allocator from an oracle and ends in a value ([Ret]), at an
    assertion ([Abort]), in undefined behaviour ([UB]: a read or write outside
    a block, a use after free, a double free) or still [Running].
    [runs md m Q] says that [m] returns, with a value in [Q]: in mode [Total]
    whatever the allocator answers, in mode [Lucky] when it never fails; mode
    [Grow] allows one assertion to stop the program, the one in [membuffer_delete]
    on the result of shrinking a buffer, and mode [Safe] any assertion, or a loop
    not to end.  So a theorem with [runs Total] is total correctness with absence
    of undefined behaviour, memory exhaustion included.  A theorem with [runs
    Lucky] says nothing about failed allocations, and its comment says so.  Functions without allocation yield [option],
    [None] being undefined behaviour or a loop that did not end.

    A connection ([net] in [Sock]) is what the system answers to the coming
    calls, in order: the pieces the stream arrives in, the results of [select],
    [send] and [time], and the bytes that were sent.  The theorems quantify over
    it, so they hold for every way the network cuts and delays the stream.  [udp] in
    [SsdpDevice] is the same for the packets of SSDP: which sockets can be opened
    and which packets are taken, and what was sent, in order.

    The threads of a pool share its record under one mutex.  A function that
    waits on a condition variable gives the record to an environment, [wake],
    and goes on with what it gets back; the theorems quantify over it.  A worker
    is a state machine whose steps are its critical sections, and the pool with
    its workers and clients is a transition relation ([reach] in [ThreadPool]).
    The handle table is under a lock of its own; the functions of eventing are
    their critical sections on a shared state ([gena] in [Gena]), and the device
    is the relation [moves] of [GenaSystem]: the sections of its threads, of the
    application and of the request handlers in any order.  What eventing needs of
    the pool is the class [SendPool] with its laws.

    ** Loops and fuel

    A loop whose recursion is not structural has a number of passes as its
    argument, computed from the state where the loop is entered: the number of
    blocks of the store plus one for a walk along pointers, the number of bytes
    of the buffer plus one for the scanner and the parser, the number of queued
    jobs plus one for the loops of the pool.  Running out is not a result but
    [Running] or [None], so that every theorem that says a function returns
    also says that the bound is enough; the [_fuel] and
    [_runs] lemmas show it by a measure (nodes left, bytes left).

    ** The theorems

    - Parser.  [HttpSafety.parser_append_safe]: on every input, in every state
      with the invariant, the parser returns without undefined behaviour and
      keeps the invariant, also when allocations fail (up to one assertion).  [HttpResume.parser_append_incremental]: how the
      bytes are cut into pieces does not change the result.
      [Scanner.vfmatch_incremental], [Scanner.scanner_get_token_correct]: the
      layers below.
    - Connections.  [HttpRecv.http_RecvMessage_correct]: receiving ends, and what
      it answers is decided by the bytes that arrived as a whole and by what the
      next read meets (the end of the connection, a time-out, an error).
      [HttpSend.http_SendMessage_file]: the header and the document, whole or in
      chunks, are put on the wire, or a prefix of them when the connection fails;
      a virtual file that cannot be opened or positioned is an error.
      [HttpRead.http_ReadHttpResponse_correct]: successive reads hand out a body of
      known length, or one that ends with the connection, in order, no byte twice
      and none lost.  Chunked bodies are covered by the theorems on the parser only.
      [HttpMake.http_MakeMessage_correct]: the text each format stands for.
    - Threads.  [ThreadPool.pool_invariant]: the counters of a pool agree with
      its threads and its bounds hold in every reachable state, under any
      interleaving, and every job has one owner; the bound on the threads is the
      largest [maxThreads] the pool was ever given.  [worker_step_correct], [pool_operations_safe]: no
      operation goes wrong in such a state.  The other theorems give what each
      operation does: the order in which jobs are taken, aged, removed and
      freed at shutdown; the order of timed events, that an event runs
      exactly when it is due unless it was removed before, and that none leaks
      (the clock is read again on every pass of the timer's worker).
    - Eventing.  [GenaProps.eventing_invariant]: in every reachable state each
      event has one owner and each counter counts its events.  The reachable
      states are those in which posting finds memory for what it allocates; the
      threads of the pool go on without, and the pool may refuse jobs.
      [two_events_at_once] and [first_event_freed] show that posting without
      memory breaks the invariant.
      [GenaProps.eventing_safe]: the sections return, without a use after free
      or a double free (posting again when memory lasts, and unregistering when the
      service table was not released before).  [GenaProps.events_drained]: when the pool takes every job and
      memory lasts, the threads deliver or drop every event and end with empty
      queues.  [GenaProps.event_keys]: a subscriber is
      sent the keys 0, 1, 2, ... one event after the other.
      [UpnpString_correct]: the strings of the API keep their value and length.
    - DOM.  The edits keep all links of all documents right and do exactly the
      edit on the tree they claim ([IxmlDom]); the release of a tree frees each
      of its nodes once and nothing else ([IxmlTree.ixmlNode_free_correct]).
    - Web server.  [WebPath.process_request_file]: what is answered with a file
      is a regular file at the root directory followed by the normalised path of
      the request, below the root directory unless the decoded target has a question
      mark or a hash.  [WebRange.CreateHTTPRangeResponseHeader_correct]: the part that
      is sent is the one that was asked for, and lies in the document.
      [WebServer.search_extension_correct]: the content type of a file name.
    - SSDP.  The packets and their receivers are described without the code's own
      functions.  [SsdpAnnounce.AdvertiseAndReply_correct]: the packets that are
      sent are exactly those of the devices and services of the description that
      were announced or match the search, for versions of one digit.
      [SsdpAnswer.ssdp_handle_device_request_correct]: a search is answered once by
      every registered device of the address family, within the time it names, as
      long as the flag of that family says that there are devices.
      [SsdpNames.service_names_recovered]: the names survive the wire, for types
      without the marks the receiver looks for in other names.
      [SsdpSearch.SearchByTarget_correct]: a search is sent, registered, and ends
      with one call of the application.
      [SsdpSearch.CreateClientRequestPacket_correct]: the request stays in its array.
    - XML.  [XmlRound.ixmlParseBufferEx_correct]: a text that spells an element
      is parsed to a document with the nodes, attributes and text it spells, for texts
      without namespaces, comments and processing instructions and with any
      character references;
      [XmlRound.ixmlPrintDocument_correct]: what the printer writes;
      [XmlRound.print_parse_roundtrip]: printing and parsing gives the same
      document, if text comes last among its siblings.
    - Data structures.  Lists, free lists and buffers implement the abstract
      list operations, whatever the allocator answers; searches in tables
      agree with a linear scan when the table is sorted.
    - URIs.  [remove_dots] is the algorithm of RFC 3986, [parse_uri] returns
      exactly what the grammar of [UriSpec] says, resolution stays in its buffer
      and is the join of the two URLs up to the cases its theorem names, decoding
      is one pass.

    Where the code does not do what it means to, the theorem states what it
    does, and a named fact shows the case ([put_method_not_found],
    [appendChild_self], ...).

    ** Not modelled

    Making a socket (non-)blocking, TLS and the debug printers are input and output
    only.  The generated accessors ([U/api/Upnp*.c]), MD5 ([U/uuid/md5.c]) and the
    samples carry no logic of the stack's own.  Of eventing the side of a
    control point, of the API the registration of devices, of SSDP the making
    and binding of the sockets, and SOAP are left out: they move data between the
    modelled parts and the sockets.
    The web server is modelled without [UPNP_ENABLE_POST_WRITE], as it is built
    by default; the debug build's messages are left out. *)

From Stdlib Require Export ZArith Lia.
From stdpp Require Export prelude strings list gmap.

#[global] Open Scope Z_scope.

(** ** Machine integers

    [size_t] is a 64-bit unsigned integer, [int] a 32-bit signed one and
    [long] a 64-bit signed one, as on the LP64 platforms the library builds
    for.  Values are [Z]; the conversions below are where a value wraps. *)

Definition wrapU (w z : Z) : Z := z mod 2 ^ w.
Definition wrapS (w z : Z) : Z := (z + 2 ^ (w - 1)) mod 2 ^ w - 2 ^ (w - 1).

Definition to_size (z : Z) : Z := wrapU 64 z.
Definition to_uint (z : Z) : Z := wrapU 32 z.
Definition to_ushort (z : Z) : Z := wrapU 16 z.
Definition to_int (z : Z) : Z := wrapS 32 z.
Definition schar (z : Z) : Z := wrapS 8 z.
Definition uchar (z : Z) : Z := wrapU 8 z.

Definition SIZE_MAX : Z := 2 ^ 64 - 1.
Definition INT_MAX : Z := 2 ^ 31 - 1.
Definition LONG_MAX : Z := 2 ^ 63 - 1.
Definition LONG_MIN : Z := - 2 ^ 63.

Lemma wrapU_small w z : 0 <= z < 2 ^ w -> wrapU w z = z.
Proof. intros H. by apply Z.mod_small. Qed.

Lemma wrapU_range w z : 0 <= w -> 0 <= wrapU w z < 2 ^ w.
Proof. intros H. apply Z.mod_pos_bound, Z.pow_pos_nonneg; lia. Qed.

Lemma wrapS_small w z :
  0 < w -> - 2 ^ (w - 1) <= z < 2 ^ (w - 1) -> wrapS w z = z.
Proof.
  intros Hw H. unfold wrapS. replace w with (Z.succ (w - 1)) at 2 by lia.
  rewrite Z.pow_succ_r by lia. rewrite Z.mod_small; lia.
Qed.

Lemma to_size_small z : 0 <= z <= SIZE_MAX -> to_size z = z.
Proof. intros H. apply wrapU_small. unfold SIZE_MAX in H. lia. Qed.

Lemma to_int_small z : - 2 ^ 31 <= z <= INT_MAX -> to_int z = z.
Proof. intros H. apply wrapS_small; unfold INT_MAX in *; lia. Qed.

(** ** Characters and string literals

    A C [char] is the signed 8-bit value the code compares and passes to the
    character classifiers.  [$"x"] is the value of the literal ['x'] and
    [cs "..."] the characters of a string literal (without its NUL). *)

Definition char_of (a : Ascii.ascii) : Z := schar (Z.of_N (Ascii.N_of_ascii a)).

Fixpoint cs (s : string) : list Z :=
  match s with
  | EmptyString => []
  | String a s' => char_of a :: cs s'
  end.

Definition ch_of (s : string) : Z := default 0 (head (cs s)).

Notation "$ s" :=
  ltac:(let v := eval vm_compute in (ch_of s%string) in exact v)
  (at level 1, s at level 0, only parsing).

Arguments cs _%_string.

(** ** Lists indexed by [Z] *)

Definition zlen {A} (l : list A) : Z := Z.of_nat (length l).
Definition ztake {A} (n : Z) (l : list A) : list A := take (Z.to_nat n) l.
Definition zdrop {A} (n : Z) (l : list A) : list A := drop (Z.to_nat n) l.
Definition zslice {A} (off n : Z) (l : list A) : list A := ztake n (zdrop off l).

(** Reading character [i] of a NUL-terminated string whose characters are
    [l]: the terminator is read at index [zlen l]. *)
Definition rd (l : list Z) (i : Z) : Z :=
  if i <? 0 then 0 else default 0 (l !! Z.to_nat i).

Lemma zlen_nonneg {A} (l : list A) : 0 <= zlen l.
Proof. unfold zlen; lia. Qed.
Lemma zlen_nil {A} : zlen (@nil A) = 0.
Proof. done. Qed.
Lemma zlen_cons {A} (x : A) l : zlen (x :: l) = 1 + zlen l.
Proof. unfold zlen; simpl; lia. Qed.
Lemma zlen_app {A} (l k : list A) : zlen (l ++ k) = zlen l + zlen k.
Proof. unfold zlen; rewrite length_app; lia. Qed.
Lemma zlen_ztake {A} n (l : list A) :
  0 <= n <= zlen l -> zlen (ztake n l) = n.
Proof. unfold zlen, ztake; rewrite length_take; lia. Qed.
Lemma zlen_zdrop {A} n (l : list A) :
  0 <= n <= zlen l -> zlen (zdrop n l) = zlen l - n.
Proof. unfold zlen, zdrop; rewrite length_drop; lia. Qed.
Lemma zlen_zslice {A} o n (l : list A) :
  0 <= o -> 0 <= n -> o + n <= zlen l -> zlen (zslice o n l) = n.
Proof.
  intros. unfold zslice. rewrite zlen_ztake; [done|].
  rewrite zlen_zdrop; lia.
Qed.
Lemma ztake_all {A} n (l : list A) : zlen l <= n -> ztake n l = l.
Proof. intros. apply take_ge. unfold zlen in *; lia. Qed.
Lemma zdrop_all {A} n (l : list A) : zlen l <= n -> zdrop n l = [].
Proof. intros. apply drop_ge. unfold zlen in *; lia. Qed.
Lemma ztake_0 {A} (l : list A) : ztake 0 l = [].
Proof. done. Qed.
Lemma zdrop_0 {A} (l : list A) : zdrop 0 l = l.
Proof. done. Qed.
Lemma ztake_zdrop {A} n (l : list A) : ztake n l ++ zdrop n l = l.
Proof. apply take_drop. Qed.
Lemma ztake_app_le {A} n (l k : list A) :
  n <= zlen l -> ztake n (l ++ k) = ztake n l.
Proof. intros. apply take_app_le. unfold zlen in *; lia. Qed.
Lemma ztake_app_ge {A} n (l k : list A) :
  zlen l <= n -> ztake n (l ++ k) = l ++ ztake (n - zlen l) k.
Proof.
  intros. unfold ztake. rewrite take_app_ge by (unfold zlen in *; lia).
  do 2 f_equal. unfold zlen in *; lia.
Qed.
Lemma zdrop_app_le {A} n (l k : list A) :
  n <= zlen l -> zdrop n (l ++ k) = zdrop n l ++ k.
Proof. intros. apply drop_app_le. unfold zlen in *; lia. Qed.
Lemma zdrop_app_ge {A} n (l k : list A) :
  zlen l <= n -> zdrop n (l ++ k) = zdrop (n - zlen l) k.
Proof.
  intros. unfold zdrop. rewrite drop_app_ge by (unfold zlen in *; lia).
  do 2 f_equal. unfold zlen in *; lia.
Qed.
Lemma ztake_app_exact {A} n (l k : list A) :
  n = zlen l -> ztake n (l ++ k) = l.
Proof. intros ->. rewrite ztake_app_le, ztake_all; lia || done. Qed.
Lemma zdrop_app_exact {A} n (l k : list A) :
  n = zlen l -> zdrop n (l ++ k) = k.
Proof. intros ->. rewrite zdrop_app_ge, Z.sub_diag by lia. done. Qed.
Lemma ztake_ztake {A} m n (l : list A) :
  0 <= m <= n -> ztake m (ztake n l) = ztake m l.
Proof. intros. unfold ztake. rewrite take_take. f_equal; lia. Qed.
Lemma zdrop_zdrop {A} m n (l : list A) :
  0 <= m -> 0 <= n -> zdrop m (zdrop n l) = zdrop (n + m) l.
Proof. intros. unfold zdrop. rewrite drop_drop. f_equal; lia. Qed.
Lemma zdrop_ztake {A} m n (l : list A) :
  0 <= m -> zdrop m (ztake n l) = ztake (n - m) (zdrop m l).
Proof.
  intros. unfold ztake, zdrop. rewrite skipn_firstn_comm. f_equal; lia.
Qed.

Lemma rd_app_l l k i : i < zlen l -> rd (l ++ k) i = rd l i.
Proof.
  intros H. unfold rd. destruct (Z.ltb_spec i 0); [done|].
  rewrite lookup_app_l; [done|]. unfold zlen in H; lia.
Qed.
Lemma rd_app_r l k i : zlen l <= i -> rd (l ++ k) i = rd k (i - zlen l).
Proof.
  intros H. unfold rd, zlen in *.
  destruct (Z.ltb_spec i 0); [lia|].
  destruct (Z.ltb_spec (i - Z.of_nat (length l)) 0); [lia|].
  rewrite lookup_app_r by lia. do 2 f_equal. lia.
Qed.
Lemma rd_end l i : zlen l <= i -> rd l i = 0.
Proof.
  intros H. unfold rd. destruct (Z.ltb_spec i 0); [done|].
  rewrite lookup_ge_None_2; [done|]. unfold zlen in H; lia.
Qed.
Lemma rd_neg l i : i < 0 -> rd l i = 0.
Proof. intros H. unfold rd. by destruct (Z.ltb_spec i 0); [|lia]. Qed.
Lemma rd_cons_0 x l : rd (x :: l) 0 = x.
Proof. done. Qed.
Lemma rd_cons_S x l i : 0 < i -> rd (x :: l) i = rd l (i - 1).
Proof.
  intros H. change (x :: l) with ([x] ++ l). rewrite rd_app_r; [done|].
  unfold zlen; simpl; lia.
Qed.
Lemma rd_zdrop l n i : 0 <= n -> 0 <= i -> rd (zdrop n l) i = rd l (n + i).
Proof.
  intros. unfold rd, zdrop.
  destruct (Z.ltb_spec i 0); [lia|]. destruct (Z.ltb_spec (n + i) 0); [lia|].
  rewrite lookup_drop. do 2 f_equal. lia.
Qed.
Lemma rd_ztake l n i : i < n -> rd (ztake n l) i = rd l i.
Proof.
  intros. unfold rd, ztake. destruct (Z.ltb_spec i 0); [done|].
  rewrite lookup_take_lt by lia. done.
Qed.
Lemma rd_nonzero_lt l i : rd l i <> 0 -> 0 <= i < zlen l.
Proof.
  intros H. destruct (Z.lt_ge_cases i 0); [by rewrite rd_neg in H|].
  destruct (Z.lt_ge_cases i (zlen l)); [lia|]. by rewrite rd_end in H.
Qed.
Lemma zdrop_rd l i : 0 <= i < zlen l -> zdrop i l = rd l i :: zdrop (i + 1) l.
Proof.
  intros H. unfold zdrop, rd, zlen in *. destruct (Z.ltb_spec i 0); [lia|].
  destruct (lookup_lt_is_Some_2 l (Z.to_nat i)) as [x Hx]; [lia|].
  rewrite Hx; simpl. rewrite (drop_S _ x) by done. do 2 f_equal. lia.
Qed.
Lemma ztake_rd l i :
  0 <= i < zlen l -> ztake (i + 1) l = ztake i l ++ [rd l i].
Proof.
  intros H. unfold ztake, rd, zlen in *. destruct (Z.ltb_spec i 0); [lia|].
  destruct (lookup_lt_is_Some_2 l (Z.to_nat i)) as [x Hx]; [lia|].
  rewrite Hx; simpl. replace (Z.to_nat (i + 1)) with (S (Z.to_nat i)) by lia.
  by apply take_S_r.
Qed.

(** [find] respects pointwise equality of its test. *)
#[global] Instance find_proper {A} :
  Proper (pointwise_relation A eq ==> eq ==> eq) (@find A).
Proof. intros f g Hfg l ? <-. induction l as [|x l IH]; simpl; [done|]. by rewrite Hfg, IH. Qed.

Lemma find_split {A} (f : A -> bool) l x :
  find f l = Some x ->
  exists l1 l2, l = l1 ++ x :: l2 /\ f x = true /\ Forall (fun y => f y = false) l1.
Proof.
  induction l as [|y l IH]; simpl; [done|]. destruct (f y) eqn:E.
  - intros [= ->]. by exists [], l.
  - intros (l1 & l2 & -> & Hx & Hl)%IH. exists (y :: l1), l2.
    split; [done|]. split; [done|]. by constructor.
Qed.

Lemma find_app_cases {A} (f : A -> bool) l k :
  find f (l ++ k) = match find f l with Some x => Some x | None => find f k end.
Proof. induction l as [|x l IH]; simpl; [done|]. by destruct (f x). Qed.

Lemma find_fmap {A B} (g : A -> B) (f : B -> bool) l :
  find f (g <$> l) = g <$> find (fun x => f (g x)) l.
Proof. induction l as [|x l IH]; simpl; [done|]. by destruct (f (g x)). Qed.

(** ** Effects

    Code that calls the system is a computation over the outcomes of the
    coming calls that may fail, [malloc], [realloc] and thread creation
    ([true]: the call succeeds; an exhausted list stands for success).  It
    returns, stops at a failed [assert], has undefined behaviour, or has not
    returned: it waits for a condition that does not come true, or the fuel of
    a loop ran out. *)

Definition oracle : Type := list bool.

(** An [assert] that fails; the one of [membuffer_delete], that giving memory
    back succeeds, is told from the others. *)
Inductive assertion := Asserted | Shrunk.

Inductive outcome (A : Type) : Type :=
| Ret (a : A) (o : oracle)
| Abort (a : assertion)
| UB
| Running.
Arguments Ret {A} a o.
Arguments Abort {A} a.
Arguments UB {A}.
Arguments Running {A}.

Definition M (A : Type) : Type := oracle -> outcome A.

#[global] Instance M_ret : MRet M := fun A a o => Ret a o.
#[global] Instance M_bind : MBind M := fun A B k m o =>
  match m o with
  | Ret a o' => k a o' | Abort e => Abort e | UB => UB | Running => Running
  end.

Definition undefined {A} : M A := fun _ => UB.
Definition running {A} : M A := fun _ => Running.

(** A partial step; outside its domain the behaviour is undefined. *)
Definition liftO {A} (x : option A) : M A := fun o =>
  match x with Some a => Ret a o | None => UB end.

(** [assert(b)]. *)
Definition assertM (b : bool) : M unit := fun o => if b then Ret tt o else Abort Asserted.
Definition assert_shrunk (b : bool) : M unit := fun o => if b then Ret tt o else Abort Shrunk.

(** The outcome of the next call that may fail. *)
Definition malloc_ok : M bool := fun o =>
  match o with [] => Ret true [] | b :: o' => Ret b o' end.

(** How a statement quantifies over the environment.  [Total]: whatever the
    system answers, no assertion fails.  [Lucky]: the same when every
    such call succeeds.  [Grow]: whatever the system answers, the code returns
    or only the assertion of [membuffer_delete] fails.  [Safe]: whatever the
    system answers, and an assertion may fail or the code may not return.
    Undefined behaviour is excluded by all, and all but [Safe] say that the code
    returns, up to that assertion for [Grow]. *)
Inductive mode := Total | Lucky | Grow | Safe.

Definition good (md : mode) (o : oracle) : Prop :=
  match md with Lucky => o = [] | _ => True end.

Definition runs {A} (md : mode) (m : M A) (Q : A -> Prop) : Prop :=
  forall o, good md o ->
  match m o with
  | Ret a o' => Q a /\ good md o'
  | Abort Asserted | Running => md = Safe
  | Abort Shrunk => md = Grow \/ md = Safe
  | UB => False
  end.

Section Runs.
Context {A B : Type} (md : mode).

Lemma runs_ret (a : A) (Q : A -> Prop) : Q a -> runs md (mret a) Q.
Proof. intros H o Ho. by split. Qed.

Lemma runs_bind (m : M A) (k : A -> M B) Q :
  runs md m (fun a => runs md (k a) Q) -> runs md (m ≫= k) Q.
Proof.
  intros H o Ho. specialize (H o Ho). unfold mbind, M_bind.
  destruct (m o) as [a o'|[]| |]; [|done..].
  destruct H as [H Ho']. exact (H o' Ho').
Qed.

Lemma runs_bind_assoc {C} (m : M A) (k : A -> M B) (h : B -> M C) Q :
  runs md (a ← m; k a) (fun b => runs md (h b) Q) -> runs md (a ← m; b ← k a; h b) Q.
Proof.
  intros H o Ho. specialize (H o Ho). unfold mbind, M_bind in *.
  destruct (m o) as [a o'|[]| |]; [|done..]. destruct (k a o') as [b o2|[]| |]; [|done..].
  destruct H as [H Ho']. exact (H o2 Ho').
Qed.

Lemma runs_mono (m : M A) (Q R : A -> Prop) :
  runs md m Q -> (forall a, Q a -> R a) -> runs md m R.
Proof.
  intros H HQ o Ho. specialize (H o Ho).
  destruct (m o) as [a o'|[]| |]; [|done..]. destruct H; auto.
Qed.

Lemma runs_liftO (x : option A) (a : A) (Q : A -> Prop) :
  x = Some a -> Q a -> runs md (liftO x) Q.
Proof. intros -> H o Ho. by split. Qed.

Lemma runs_assert b (Q : unit -> Prop) :
  (b = true -> Q tt) -> (b = false -> md = Safe) -> runs md (assertM b) Q.
Proof. intros Ht Hf o Ho. unfold assertM. destruct b; auto. Qed.

Lemma runs_assert_shrunk b (Q : unit -> Prop) :
  (b = true -> Q tt) -> (b = false -> md = Grow \/ md = Safe) -> runs md (assert_shrunk b) Q.
Proof. intros Ht Hf o Ho. unfold assert_shrunk. destruct b; auto. Qed.

Lemma runs_assert_true b (Q : unit -> Prop) :
  b = true -> Q tt -> runs md (assertM b) Q.
Proof. intros -> H. by apply runs_assert. Qed.

Lemma runs_malloc (Q : bool -> Prop) :
  Q true -> (md <> Lucky -> Q false) -> runs md malloc_ok Q.
Proof.
  intros Ht Hf [|b o] Ho; simpl; [done|].
  destruct md; simpl in *; try done; destruct b; naive_solver.
Qed.
End Runs.

(** The result of a run in which every allocation succeeds. *)
Definition run {A} (m : M A) : option A :=
  match m [] with Ret a _ => Some a | _ => None end.

Lemma runs_run {A} (m : M A) Q :
  runs Lucky m Q -> exists a, run m = Some a /\ Q a.
Proof.
  intros H. specialize (H [] eq_refl). unfold run.
  destruct (m []) as [a o'|[]| |]; [|done|by destruct H|done..]. destruct H; eauto.
Qed.

(** [m] may return [a] when the environment answers as [md] allows. *)
Definition may {A} (md : mode) (m : M A) (a : A) : Prop := exists o o', good md o /\ m o = Ret a o'.

Lemma runs_may {A} md (m : M A) Q a : runs md m Q -> may md m a -> Q a.
Proof. intros H (o & o' & Ho & E). specialize (H o Ho). rewrite E in H. apply H. Qed.
Lemma run_may {A} md (m : M A) a : run m = Some a -> may md m a.
Proof.
  unfold run. intros E. exists []. destruct (m []) as [b o'| | |] eqn:Em; [|done..].
  injection E as ->. exists o'. split; [by destruct md|done].
Qed.

(** ** Automation *)

Create HintDb upnp discriminated.
#[export] Hint Resolve zlen_nonneg : upnp.
Create Rewrite HintDb zlist.
#[export] Hint Rewrite @zlen_nil @zlen_cons @zlen_app @ztake_0 @zdrop_0
  @app_nil_r @app_nil_l : zlist.
#[export] Hint Rewrite @zlen_ztake @zlen_zdrop @zlen_zslice using lia : zlist.

(** Turn boolean comparisons on [Z] in the context into propositions. *)
Ltac zbool :=
  repeat match goal with
  | H : (_ =? _) = true |- _ => apply Z.eqb_eq in H
  | H : (_ =? _) = false |- _ => apply Z.eqb_neq in H
  | H : (_ <? _) = true |- _ => apply Z.ltb_lt in H
  | H : (_ <? _) = false |- _ => apply Z.ltb_ge in H
  | H : (_ <=? _) = true |- _ => apply Z.leb_le in H
  | H : (_ <=? _) = false |- _ => apply Z.leb_gt in H
  | H : negb _ = true |- _ => apply negb_true_iff in H
  | H : negb _ = false |- _ => apply negb_false_iff in H
  | H : _ && _ = true |- _ => apply andb_true_iff in H as [? ?]
  | H : _ || _ = false |- _ => apply orb_false_iff in H as [? ?]
  end.

(** Arithmetic on lengths. *)
Ltac solve_zlen :=
  unfold zlen in *; rewrite ?length_app in *; simpl in *; rewrite ?length_app in *;
  simpl in *; lia.

(** Split every [if]/[match] of the goal and read off the conditions. *)
Ltac split_cases := repeat case_match; zbool; simplify_eq/=.

(** One step through a computation in [runs]. *)
Ltac mstep :=
  match goal with
  | |- runs _ (mret _) _ => apply runs_ret
  | |- runs _ (_ ≫= _) _ => apply runs_bind
  | |- runs _ malloc_ok _ => apply runs_malloc; [|intros ?]
  | |- runs _ (if ?b then _ else _) _ => destruct b eqn:?; zbool
  end.
Ltac msteps := repeat mstep.

(** Permutations of concatenations of the same lists. *)
Ltac perm_step :=
  match goal with
  | |- ?x ≡ₚ ?y => unify x y; reflexivity
  | |- ?x ++ _ ≡ₚ ?y ++ _ => unify x y; apply Permutation_app_head
  | |- _ => etrans; [apply Permutation_app_comm|]; rewrite <- ?app_assoc
  end.
Ltac solve_perm :=
  cbn [app];
  repeat match goal with
  | |- context [?x :: ?l] =>
      lazymatch l with [] => fail | _ => change (x :: l) with ([x] ++ l) end
  end;
  rewrite <- ?app_assoc, ?app_nil_r; solve [do 60 (try perm_step)].

(** ** What holds if a computation returns *)

Definition returns {A} (m : M A) (Q : A -> Prop) : Prop := forall o a o', m o = Ret a o' -> Q a.

Lemma returns_ret {A} (a : A) (Q : A -> Prop) : Q a -> returns (mret a) Q.
Proof. intros H o b o' [= <- _]. done. Qed.
Lemma returns_bind {A B} (m : M A) (k : A -> M B) Q :
  returns m (fun a => returns (k a) Q) -> returns (m ≫= k) Q.
Proof.
  intros H o b o' E. unfold mbind, M_bind in E. destruct (m o) as [a o1| | |] eqn:Em; [|done..].
  exact (H o a o1 Em o1 b o' E).
Qed.
Lemma returns_mono {A} (m : M A) (Q R : A -> Prop) :
  returns m Q -> (forall a, Q a -> R a) -> returns m R.
Proof. intros H HQ o a o' E. by eapply HQ, H. Qed.
Lemma returns_any {A} (m : M A) (Q : A -> Prop) : (forall a, Q a) -> returns m Q.
Proof. intros H o a o' _. apply H. Qed.
Lemma returns_liftO {A} (x : option A) (Q : A -> Prop) :
  (forall a, x = Some a -> Q a) -> returns (liftO x) Q.
Proof. intros H o a o' E. destruct x as [b|]; cbn in E; [|done]. injection E as <- _. by apply H. Qed.
Lemma returns_run {A} (m : M A) Q a : returns m Q -> run m = Some a -> Q a.
Proof.
  intros H E. unfold run in E. destruct (m []) as [b o| | |] eqn:Em; [|done..]. injection E as <-.
  exact (H [] b o Em).
Qed.

Lemma returns_may {A} md (m : M A) Q a : returns m Q -> may md m a -> Q a.
Proof. intros H (o & o' & _ & E). exact (H o a o' E). Qed.

Lemma runs_returns {A} (m : M A) (Q : A -> Prop) : runs Safe m Q -> returns m Q.
Proof. intros H o a o' E. specialize (H o I). rewrite E in H. apply H. Qed.

(** One step; what the system answers, and the texts, do not matter. *)
Ltac rstep :=
  lazymatch goal with
  | |- returns (mret _) _ => apply returns_ret
  | |- returns (_ ≫= _) _ => apply returns_bind
  | |- returns (liftO _) _ => apply returns_liftO; intros ? ?
  | |- returns malloc_ok _ => apply returns_any; intros []
  | |- returns running _ => by intros ? ? ? ?
  | |- returns (if ?b then _ else _) _ => destruct b
  end.
