(* ===== verification/CString.v ===== *)
(** The C standard library functions the modelled code calls on characters,
    NUL-terminated strings and memory blocks, as the C standard defines them
    ("C" locale).  A string argument is the list of characters from the
    pointer on; a NUL inside the list, or its end, terminates it. *)

From S2P Require Import Prelude.

(** ** <ctype.h> *)

Definition isdigit (c : Z) : bool := (48 <=? c) && (c <=? 57).
Definition isupper (c : Z) : bool := (65 <=? c) && (c <=? 90).
Definition islower (c : Z) : bool := (97 <=? c) && (c <=? 122).
Definition isalpha (c : Z) : bool := isupper c || islower c.
Definition isalnum (c : Z) : bool := isalpha c || isdigit c.
Definition isxdigit (c : Z) : bool :=
  isdigit c || ((65 <=? c) && (c <=? 70)) || ((97 <=? c) && (c <=? 102)).
Definition isspace (c : Z) : bool := (c =? 32) || ((9 <=? c) && (c <=? 13)).
Definition tolower (c : Z) : Z := if isupper c then c + 32 else c.
Definition toupper (c : Z) : Z := if islower c then c - 32 else c.

(** Value of a digit in some base up to 36; [None] for other characters. *)
Definition digit_val (c : Z) : option Z :=
  if isdigit c then Some (c - 48)
  else if isupper c then Some (c - 55)
  else if islower c then Some (c - 87)
  else None.

(** ** <string.h> *)

(** Reading character [i] of a string, its NUL included. *)
Definition rdt (s : list Z) (i : Z) : option Z :=
  if (0 <=? i) && (i <=? zlen s) then Some (rd s i) else None.

(** The C string that starts at the head of [l]. *)
Fixpoint c_str (l : list Z) : list Z :=
  match l with
  | [] => []
  | c :: l' => if c =? 0 then [] else c :: c_str l'
  end.

Definition strlen (l : list Z) : Z := zlen (c_str l).

(** [strchr(s, c) != NULL]; the terminating NUL is part of the string. *)
Definition strchr (s : list Z) (c : Z) : bool :=
  (c =? 0) || existsb (Z.eqb c) (c_str s).

Fixpoint strncmp_nat (n : nat) (a b : list Z) : Z :=
  match n with
  | O => 0
  | S n' =>
      let x := default 0 (head a) in
      let y := default 0 (head b) in
      if x =? y then if x =? 0 then 0 else strncmp_nat n' (tail a) (tail b)
      else uchar x - uchar y
  end.
Definition strncmp (a b : list Z) (n : Z) : Z := strncmp_nat (Z.to_nat n) a b.

(** [strncasecmp] compares the characters after [tolower]. *)
Definition strncasecmp (a b : list Z) (n : Z) : Z :=
  strncmp (tolower <$> a) (tolower <$> b) n.

(** [strcasecmp]: the comparison ends at the first NUL. *)
Definition strcasecmp (a b : list Z) : Z := strncasecmp (c_str a) (c_str b) (strlen a + 1).

Fixpoint memcmp_nat (n : nat) (a b : list Z) : Z :=
  match n with
  | O => 0
  | S n' =>
      let x := default 0 (head a) in
      let y := default 0 (head b) in
      if x =? y then memcmp_nat n' (tail a) (tail b) else uchar x - uchar y
  end.
Definition memcmp (a b : list Z) (n : Z) : Z := memcmp_nat (Z.to_nat n) a b.

(** [strstr]: offset of the first occurrence of the string [s] in [l]. *)
Fixpoint is_prefix (s l : list Z) : bool :=
  match s, l with
  | [], _ => true
  | x :: s', y :: l' => (x =? y) && is_prefix s' l'
  | _ :: _, [] => false
  end.
Fixpoint find_sub (s l : list Z) (i : Z) : option Z :=
  if is_prefix s l then Some i
  else match l with [] => None | _ :: l' => find_sub s l' (i + 1) end.
Definition strstr (l s : list Z) : option Z := find_sub (c_str s) (c_str l) 0.

(** [strrchr]: from the last [c] on. *)
Fixpoint strrchr (s : list Z) (c : Z) : option (list Z) :=
  match s with
  | [] => None
  | x :: s' =>
      match strrchr s' c with
      | Some t => Some t
      | None => if x =? c then Some s else None
      end
  end.

(** [strcat] and [sprintf] behind the text in a block of [cap] bytes. *)
Definition strcat (cap : Z) (buffer s : list Z) : option (list Z) :=
  if zlen buffer + zlen s + 1 <=? cap then Some (buffer ++ s) else None.

(** ** Blocks of memory

    [mem_slice b o n] reads [n] bytes at offset [o] of the block [b] and
    [mem_write b o d] overwrites the bytes from [o] on with [d]; an access
    outside the block is undefined behaviour. *)

Definition mem_slice (b : list Z) (o n : Z) : option (list Z) :=
  if (0 <=? o) && (0 <=? n) && (o + n <=? zlen b) then Some (zslice o n b)
  else None.

Definition mem_write (b : list Z) (o : Z) (d : list Z) : option (list Z) :=
  if (0 <=? o) && (o + zlen d <=? zlen b)
  then Some (ztake o b ++ d ++ zdrop (o + zlen d) b)
  else None.

Definition memmove (b : list Z) (dst src n : Z) : option (list Z) :=
  x ← mem_slice b src n; mem_write b dst x.

(** ** <stdlib.h> *)

(** The longest prefix of [l] made of digits of [base], with its value. *)
Fixpoint scan_digits (base : Z) (l : list Z) (acc : Z) (n : Z) : Z * Z :=
  match l with
  | [] => (acc, n)
  | c :: l' =>
      match digit_val c with
      | Some d => if d <? base then scan_digits base l' (acc * base + d) (n + 1)
                  else (acc, n)
      | None => (acc, n)
      end
  end.

Fixpoint skip_space (l : list Z) (n : Z) : list Z * Z :=
  match l with
  | c :: l' => if isspace c then skip_space l' (n + 1) else (l, n)
  | [] => (l, n)
  end.

(** Length of an optional ["0x"]/["0X"] prefix that a hexadecimal digit
    follows. *)
Definition hex_prefix (base : Z) (l : list Z) : Z :=
  if (base =? 16) && (rd l 0 =? 48) && (tolower (rd l 1) =? 120)
     && isxdigit (rd l 2)
  then 2 else 0.

Record strtol_result := { sl_num : Z; sl_end : Z; sl_erange : bool }.

(** [strtol(l, &end, base)] for [base] 10 or 16: value, offset of [end], and
    whether [errno] is [ERANGE]. *)
Definition strtol (l : list Z) (base : Z) : strtol_result :=
  let '(l1, n1) := skip_space l 0 in
  let neg := rd l1 0 =? 45 in
  let n2 := if neg || (rd l1 0 =? 43) then 1 else 0 in
  let l2 := zdrop n2 l1 in
  let n3 := hex_prefix base l2 in
  let '(v, n) := scan_digits base (zdrop n3 l2) 0 0 in
  if n =? 0 then {| sl_num := 0; sl_end := 0; sl_erange := false |}
  else
    let w := if neg then - v else v in
    {| sl_num := Z.max LONG_MIN (Z.min LONG_MAX w);
       sl_end := n1 + n2 + n3 + n;
       sl_erange := (w <? LONG_MIN) || (LONG_MAX <? w) |}.

Definition atoi (l : list Z) : Z := to_int (sl_num (strtol l 10)).

(** One [%d] conversion of [sscanf]: value and rest of the input. *)
Definition scan_d (l : list Z) : option (Z * list Z) :=
  let r := strtol l 10 in
  if sl_end r =? 0 then None
  else Some (to_int (sl_num r), zdrop (sl_end r) l).

(** One conversion of [sscanf] of a 64-bit integer; a value that does not fit
    is clamped as by [strtol]. *)
Definition scan_ld (l : list Z) : option (Z * list Z) :=
  let r := strtol l 10 in
  if sl_end r =? 0 then None else Some (sl_num r, zdrop (sl_end r) l).

(** ** <stdio.h> *)

Definition digit_char (d : Z) : Z := if d <? 10 then 48 + d else 87 + d.

(** The digits of a non-negative number, the last one first in the recursion;
    a 64-bit number has at most 64. *)
Fixpoint digits_from (fuel : nat) (base n : Z) (acc : list Z) : list Z :=
  match fuel with
  | O => acc
  | S fuel' =>
      let acc := digit_char (n mod base) :: acc in
      if n / base =? 0 then acc else digits_from fuel' base (n / base) acc
  end.

(** [%u] (base 10) and [%x] (base 16) and their variants, [%d]. *)
Definition utoa (base n : Z) : list Z := digits_from 64 base n [].
Definition itoa (n : Z) : list Z := if n <? 0 then $"-" :: utoa 10 (- n) else utoa 10 n.
(** [%02d]. *)
Definition itoa2 (n : Z) : list Z := if (0 <=? n) && (n <? 10) then $"0" :: itoa n else itoa n.

(** [snprintf] of the text [s] into [size] characters: its result and the
    string that is stored. *)
Definition snprintf (size : Z) (s : list Z) : Z * list Z := (zlen s, ztake (size - 1) s).

(** ** Lemmas *)

Lemma c_str_no_nul l : Forall (fun c => c <> 0) (c_str l).
Proof. induction l as [|c l IH]; simpl; [done|]. case_match; zbool; auto. Qed.

Lemma c_str_id l : Forall (fun c => c <> 0) l -> c_str l = l.
Proof.
  induction 1 as [|c l Hc _ IH]; simpl; [done|].
  destruct (Z.eqb_spec c 0); [done|]. by rewrite IH.
Qed.

Lemma zlen_c_str l : zlen (c_str l) <= zlen l.
Proof. induction l as [|c l IH]; simpl; [done|]. case_match; solve_zlen. Qed.

Lemma c_str_app_nul l k : c_str (c_str l ++ 0 :: k) = c_str l.
Proof.
  induction l as [|c l IH]; simpl; [done|].
  case_match; zbool; [done|]. simpl.
  destruct (Z.eqb_spec c 0); [done|]. by rewrite IH.
Qed.

Lemma mem_write_Some b o d :
  0 <= o -> o + zlen d <= zlen b ->
  mem_write b o d = Some (ztake o b ++ d ++ zdrop (o + zlen d) b).
Proof.
  intros. unfold mem_write.
  destruct (Z.leb_spec 0 o), (Z.leb_spec (o + zlen d) (zlen b)); lia || done.
Qed.

Lemma mem_slice_Some b o n :
  0 <= o -> 0 <= n -> o + n <= zlen b -> mem_slice b o n = Some (zslice o n b).
Proof.
  intros. unfold mem_slice.
  destruct (Z.leb_spec 0 o), (Z.leb_spec 0 n), (Z.leb_spec (o + n) (zlen b));
    lia || done.
Qed.

Lemma mem_write_zlen b o d b' : mem_write b o d = Some b' -> zlen b' = zlen b.
Proof.
  unfold mem_write. intros H. case_match; zbool; simplify_eq.
  pose proof (zlen_nonneg d). autorewrite with zlist. lia.
Qed.

Lemma memmove_Some b dst src n :
  0 <= dst -> 0 <= src -> 0 <= n -> src + n <= zlen b -> dst + n <= zlen b ->
  memmove b dst src n
  = Some (ztake dst b ++ zslice src n b ++ zdrop (dst + n) b).
Proof.
  intros. unfold memmove. rewrite mem_slice_Some by lia. simpl.
  rewrite mem_write_Some; rewrite ?zlen_zslice by lia; lia || done.
Qed.

Lemma rdt_Some s i : 0 <= i <= zlen s -> rdt s i = Some (rd s i).
Proof.
  intros [H1 H2]. unfold rdt. by rewrite (proj2 (Z.leb_le _ _) H1), (proj2 (Z.leb_le _ _) H2).
Qed.

(** The same accesses on a block given as a concatenation. *)
Lemma mem_slice_app a x t o n :
  o = zlen a -> n = zlen x -> mem_slice (a ++ x ++ t) o n = Some x.
Proof.
  intros -> ->. pose proof (zlen_nonneg a). pose proof (zlen_nonneg x).
  pose proof (zlen_nonneg t). rewrite mem_slice_Some.
  - unfold zslice. by rewrite zdrop_app_exact, ztake_app_exact.
  - lia.
  - lia.
  - autorewrite with zlist. lia.
Qed.

Lemma mem_write_app a x t o d :
  o = zlen a -> zlen d = zlen x ->
  mem_write (a ++ x ++ t) o d = Some (a ++ d ++ t).
Proof.
  intros -> Hd. pose proof (zlen_nonneg a). pose proof (zlen_nonneg x).
  pose proof (zlen_nonneg t). rewrite mem_write_Some.
  - rewrite ztake_app_exact by done. rewrite zdrop_app_ge by lia.
    rewrite zdrop_app_exact by lia. done.
  - lia.
  - autorewrite with zlist. lia.
Qed.

(** Opening a gap of [zlen g] bytes in front of [s]. *)
Lemma memmove_gap a s g t :
  exists x, zlen x = zlen g /\
  memmove (a ++ s ++ g ++ t) (zlen a + zlen g) (zlen a) (zlen s)
  = Some (a ++ x ++ s ++ t).
Proof.
  exists (ztake (zlen g) (s ++ g)). pose proof (zlen_nonneg s).
  pose proof (zlen_nonneg g).
  assert (Hx : zlen (ztake (zlen g) (s ++ g)) = zlen g).
  { apply zlen_ztake. autorewrite with zlist. lia. }
  split; [done|]. unfold memmove. rewrite mem_slice_app by done. simpl.
  replace (a ++ s ++ g ++ t)
    with ((a ++ ztake (zlen g) (s ++ g)) ++ zdrop (zlen g) (s ++ g) ++ t).
  - rewrite mem_write_app; [by rewrite <- app_assoc| |].
    + rewrite zlen_app. lia.
    + rewrite zlen_zdrop; autorewrite with zlist; lia.
  - rewrite <- !app_assoc. f_equal. rewrite (app_assoc (ztake _ _)).
    by rewrite ztake_zdrop, <- app_assoc.
Qed.

(** Closing the gap left by removing [x]. *)
Lemma memmove_close a x s t :
  exists t', zlen t' = zlen x + zlen t /\
  memmove (a ++ x ++ s ++ t) (zlen a) (zlen a + zlen x) (zlen s)
  = Some (a ++ s ++ t').
Proof.
  exists (zdrop (zlen s) (x ++ s) ++ t). pose proof (zlen_nonneg s).
  pose proof (zlen_nonneg x). split.
  { rewrite zlen_app, zlen_zdrop; autorewrite with zlist; lia. }
  unfold memmove.
  replace (a ++ x ++ s ++ t) with ((a ++ x) ++ s ++ t) at 1
    by (by rewrite <- app_assoc).
  rewrite mem_slice_app by (rewrite ?zlen_app; done). simpl.
  replace (a ++ x ++ s ++ t)
    with (a ++ ztake (zlen s) (x ++ s) ++ (zdrop (zlen s) (x ++ s) ++ t)).
  - rewrite mem_write_app; [done|done|].
    rewrite zlen_ztake; autorewrite with zlist; lia.
  - f_equal. by rewrite app_assoc, ztake_zdrop, <- app_assoc.
Qed.

Lemma is_prefix_spec s l : is_prefix s l = true <-> exists k, l = s ++ k.
Proof.
  revert l. induction s as [|x s IH]; intros [|y l]; simpl.
  - split; [by exists []|done].
  - split; [by eexists|done].
  - split; [done|by intros [k ?]].
  - rewrite andb_true_iff, Z.eqb_eq, IH. split.
    + intros [-> [k ->]]. by exists k.
    + intros [k ?]; simplify_eq. eauto.
Qed.

#[export] Hint Resolve c_str_no_nul : upnp.

(** ** Lemmas: printed numbers *)

Lemma digits_from_app fuel base n acc :
  digits_from fuel base n acc = digits_from fuel base n [] ++ acc.
Proof.
  revert n acc. induction fuel as [|fuel IH]; intros n acc; cbn; [done|].
  destruct (n / base =? 0); [done|]. rewrite (IH _ (_ :: acc)), (IH _ [_]), <- app_assoc. done.
Qed.

Lemma digits_from_length fuel base n acc :
  zlen acc <= zlen (digits_from fuel base n acc) <= zlen acc + Z.of_nat fuel.
Proof.
  revert n acc. induction fuel as [|fuel IH]; intros n acc; cbn [digits_from]; [lia|].
  set (d := digit_char _). destruct (n / base =? 0); [rewrite zlen_cons; lia|].
  specialize (IH (n / base) (d :: acc)). rewrite zlen_cons in IH. lia.
Qed.

Lemma zlen_itoa n : 0 < zlen (itoa n) <= 65.
Proof.
  assert (forall k, 0 < zlen (utoa 10 k) <= 64) as H.
  { intros k. unfold utoa. pose proof (digits_from_length 64 10 k []) as H.
    rewrite zlen_nil in H. split; [|lia]. cbn. destruct (k / 10 =? 0); [done|].
    pose proof (digits_from_length 63 10 (k / 10) [digit_char (k mod 10)]) as H2.
    change (zlen [digit_char (k mod 10)]) with 1 in H2. cbn in H2. lia. }
  unfold itoa. destruct (n <? 0); [|specialize (H n); lia].
  rewrite zlen_cons. specialize (H (- n)). lia.
Qed.

(** A number below [base ^ k] has at most [k] digits. *)
Lemma zlen_digits_small fuel base k n acc :
  1 < base -> 0 <= n < base ^ Z.of_nat k -> (0 < k)%nat ->
  zlen (digits_from fuel base n acc) <= zlen acc + Z.of_nat k.
Proof.
  intros Hb. revert k n acc.
  induction fuel as [|fuel IH]; intros k n acc Hn Hk; cbn [digits_from]; [lia|].
  set (d := digit_char _). destruct (Z.eqb_spec (n / base) 0); [rewrite zlen_cons; lia|].
  destruct k as [|[|k]]; [lia|change (Z.of_nat 1) with 1 in Hn; rewrite Z.pow_1_r in Hn; rewrite Z.div_small in n0; lia|].
  rewrite (Nat2Z.inj_succ (S k)), Z.pow_succ_r in Hn by lia.
  pose proof (Z.div_pos n base) as H0.
  pose proof (Z.div_lt_upper_bound n base (base ^ Z.of_nat (S k))) as H1.
  specialize (IH (S k) (n / base) (d :: acc)). rewrite zlen_cons in IH. lia.
Qed.

Lemma zlen_itoa_int n : 0 <= n <= INT_MAX -> zlen (itoa n) <= 10.
Proof.
  intros H. unfold itoa. rewrite (proj2 (Z.ltb_ge n 0)) by lia.
  pose proof (zlen_digits_small 64 10 10 n [] eq_refl ltac:(unfold INT_MAX in *; change (10 ^ Z.of_nat 10) with 10000000000; lia)).
  unfold utoa. rewrite zlen_nil in *. lia.
Qed.

Lemma digit_char_nonzero d : 0 <= d -> digit_char d <> 0.
Proof. unfold digit_char. destruct (Z.ltb_spec d 10); lia. Qed.

Lemma digits_from_nonzero fuel base n acc :
  0 < base -> Forall (fun c => c <> 0) acc -> Forall (fun c => c <> 0) (digits_from fuel base n acc).
Proof.
  intros Hb. revert n acc. induction fuel as [|fuel IH]; intros n acc Ha; cbn [digits_from]; [done|].
  assert (Forall (fun c => c <> 0) (digit_char (n mod base) :: acc)) as H.
  { constructor; [|done]. apply digit_char_nonzero. by apply Z.mod_pos_bound. }
  destruct (n / base =? 0); auto.
Qed.

Lemma itoa_nonzero n : Forall (fun c => c <> 0) (itoa n).
Proof.
  unfold itoa, utoa. destruct (n <? 0); [constructor; [done|]|]; by apply digits_from_nonzero.
Qed.

Lemma c_str_split l : l = c_str l \/ exists k, l = c_str l ++ 0 :: k.
Proof.
  induction l as [|c l IH]; cbn [c_str]; [by left|]. destruct (Z.eqb_spec c 0) as [->|].
  - right. by exists l.
  - destruct IH as [E|[k E]]; [left; by rewrite <- E|right]. exists k. cbn. by rewrite <- E.
Qed.
Lemma ztake_strlen s : ztake (strlen s) s = c_str s.
Proof.
  destruct (c_str_split s) as [E|[k E]]; unfold strlen; rewrite E at 2.
  - apply ztake_all. rewrite <- E. lia.
  - by apply ztake_app_exact.
Qed.

Lemma c_str_app a b : Forall (fun c => c <> 0) a -> c_str (a ++ b) = a ++ c_str b.
Proof.
  induction 1 as [|x a Hx _ IH]; cbn; [done|]. rewrite (proj2 (Z.eqb_neq x 0)) by done. by rewrite IH.
Qed.

(** ** Lemmas: scanned numbers *)

(** The digits of a number are digits. *)
Lemma utoa_digits n : Forall (fun c => isdigit c = true) (utoa 10 n).
Proof.
  unfold utoa. assert (forall fuel m acc, Forall (fun c => isdigit c = true) acc ->
    Forall (fun c => isdigit c = true) (digits_from fuel 10 m acc)) as H; [|by apply H].
  induction fuel as [|fuel IH]; intros m acc Ha; cbn [digits_from]; [done|].
  assert (Forall (fun c => isdigit c = true) (digit_char (m mod 10) :: acc)) as Hc.
  { constructor; [|done]. pose proof (Z.mod_pos_bound m 10 ltac:(lia)) as Hm.
    unfold digit_char, isdigit. rewrite (proj2 (Z.ltb_lt _ 10)) by lia.
    apply andb_true_iff. rewrite !Z.leb_le. lia. }
  destruct (m / 10 =? 0); auto.
Qed.

(** Reading the digits of [n] leaves the rest of the text. *)
Lemma scan_digits_from fuel n k :
  0 <= n < 10 ^ Z.of_nat fuel -> (0 < fuel)%nat ->
  scan_digits 10 (digits_from fuel 10 n [] ++ k) 0 0
  = scan_digits 10 k n (zlen (digits_from fuel 10 n [])).
Proof.
  revert n k. induction fuel as [|fuel IH]; intros n k Hn Hf; [lia|]. clear Hf.
  rewrite Nat2Z.inj_succ, Z.pow_succ_r in Hn by lia. cbn [digits_from].
  pose proof (Z.mod_pos_bound n 10 ltac:(lia)) as Hm.
  assert (forall j acc m, scan_digits 10 (digit_char (n mod 10) :: j) acc m
    = scan_digits 10 j (acc * 10 + n mod 10) (m + 1)) as Hd.
  { intros j acc m. cbn [scan_digits]. unfold digit_val, digit_char, isdigit.
    rewrite (proj2 (Z.ltb_lt (n mod 10) 10)) by lia.
    rewrite (proj2 (Z.leb_le 48 _)), (proj2 (Z.leb_le _ 57)) by lia. cbn [andb].
    replace (48 + n mod 10 - 48) with (n mod 10) by lia.
    by rewrite (proj2 (Z.ltb_lt (n mod 10) 10)) by lia. }
  destruct (Z.eqb_spec (n / 10) 0) as [E|E].
  - cbn [app]. rewrite Hd. f_equal. pose proof (Z.div_mod n 10). lia.
  - rewrite digits_from_app, <- app_assoc. cbn [app].
    assert (0 < fuel)%nat.
    { destruct (decide (fuel = 0%nat)) as [->|]; [|lia]. exfalso. apply E.
      change (Z.of_nat 0) with 0 in Hn. rewrite Z.pow_0_r in Hn. apply Z.div_small. lia. }
    rewrite IH by (try done; pose proof (Z.div_pos n 10); pose proof (Z.div_lt_upper_bound n 10 (10 ^ Z.of_nat fuel)); lia).
    rewrite Hd, zlen_app, zlen_cons, zlen_nil. pose proof (Z.div_mod n 10). f_equal; lia.
Qed.

(** A number that is followed by no digit is read back, behind blanks. *)
Lemma scan_ld_utoa blanks n k :
  0 <= n <= LONG_MAX -> Forall (fun c => isspace c = true) blanks ->
  match k with [] => True | c :: _ => isdigit c = false /\ digit_val c = None end ->
  scan_ld (blanks ++ utoa 10 n ++ k) = Some (n, k).
Proof.
  intros Hn Hb Hk.
  destruct (utoa 10 n) as [|d ds] eqn:Eu.
  { pose proof (zlen_itoa n) as Hz. unfold itoa in Hz.
    destruct (Z.ltb_spec n 0); [lia|]. rewrite Eu in Hz. by destruct Hz. }
  assert (isdigit d = true) as Hd
    by (pose proof (utoa_digits n) as H; rewrite Eu in H; by apply Forall_cons_1 in H as [? _]).
  assert (48 <= d <= 57) as Hd2 by (unfold isdigit in Hd; apply andb_true_iff in Hd; rewrite !Z.leb_le in Hd; lia).
  assert (skip_space (blanks ++ (d :: ds) ++ k) 0 = ((d :: ds) ++ k, zlen blanks)) as Hs.
  { assert (forall m, skip_space (blanks ++ (d :: ds) ++ k) m = ((d :: ds) ++ k, m + zlen blanks)) as H;
      [|apply H].
    induction Hb as [|c bl Hc _ IH]; intros m.
    - cbn [app skip_space]. replace (isspace d) with false; [rewrite zlen_nil; f_equal; lia|].
      symmetry. unfold isspace. apply orb_false_iff. split; [apply Z.eqb_neq; lia|].
      apply andb_false_iff. right. apply Z.leb_gt. lia.
    - cbn [app skip_space]. rewrite Hc, IH, zlen_cons. f_equal. lia. }
  unfold scan_ld, strtol. rewrite Hs. cbn [app].
  change (rd (d :: ds ++ k) 0) with d.
  rewrite (proj2 (Z.eqb_neq d 45)), (proj2 (Z.eqb_neq d 43)) by lia. cbn [orb].
  change (hex_prefix 10 _) with 0. rewrite !zdrop_0.
  assert (scan_digits 10 (d :: ds ++ k) 0 0 = (n, zlen (d :: ds))) as ->.
  { change (d :: ds ++ k) with ((d :: ds) ++ k). rewrite <- Eu. unfold utoa.
    rewrite scan_digits_from by (try done; unfold LONG_MAX in *;
      change (10 ^ Z.of_nat 64) with (10 ^ 64); pose proof (Z.pow_le_mono_l 2 10 63); 
      pose proof (Z.pow_le_mono_r 10 63 64); lia).
    destruct k as [|c k]; cbn; [done|]. by rewrite (proj2 Hk). }
  pose proof (zlen_nonneg blanks). pose proof (zlen_nonneg ds). rewrite zlen_cons.
  rewrite (proj2 (Z.eqb_neq (1 + zlen ds) 0)) by lia. cbn [sl_end sl_num].
  rewrite (proj2 (Z.eqb_neq (zlen blanks + 0 + 0 + (1 + zlen ds)) 0)) by lia.
  unfold LONG_MAX, LONG_MIN in *. rewrite Z.min_r, Z.max_r by lia. do 2 f_equal.
  change (d :: ds ++ k) with ((d :: ds) ++ k). rewrite app_assoc. apply zdrop_app_exact.
  rewrite zlen_app, zlen_cons. lia.
Qed.

(** [strstr] of one character. *)
Lemma find_char c a r i :
  Forall (fun x => x <> c) a -> find_sub [c] (a ++ c :: r) i = Some (i + zlen a).
Proof.
  intros Ha. revert i. induction Ha as [|x a Hx _ IH]; intros i; cbn [app find_sub is_prefix].
  - rewrite Z.eqb_refl. cbn. f_equal. rewrite zlen_nil. lia.
  - rewrite (proj2 (Z.eqb_neq c x)) by done. cbn [andb]. rewrite IH, zlen_cons. f_equal. lia.
Qed.
Lemma find_char_none c a i : Forall (fun x => x <> c) a -> find_sub [c] a i = None.
Proof.
  intros Ha. revert i. induction Ha as [|x a Hx _ IH]; intros i; cbn [find_sub is_prefix]; [done|].
  rewrite (proj2 (Z.eqb_neq c x)) by done. cbn [andb]. apply IH.
Qed.

(** ** Comparing strings of characters *)

Definition chars (s : list Z) : Prop := Forall (fun c => -128 <= c <= 127 /\ c <> 0) s.
#[global] Instance chars_dec s : Decision (chars s).
Proof. unfold chars. apply _. Defined.

Lemma uchar_inj x y : -128 <= x <= 127 -> -128 <= y <= 127 -> uchar x - uchar y = 0 -> x = y.
Proof.
  intros Hx Hy H. unfold uchar, wrapU in H. change (2 ^ 8) with 256 in H.
  pose proof (Z.div_mod x 256). pose proof (Z.div_mod y 256).
  assert (x / 256 = 0 \/ x / 256 = -1) by (destruct (Z.le_gt_cases 0 x);
    [left; apply Z.div_small; lia|right; symmetry; apply (Z.div_unique x 256 (-1) (x + 256)); lia]).
  assert (y / 256 = 0 \/ y / 256 = -1) by (destruct (Z.le_gt_cases 0 y);
    [left; apply Z.div_small; lia|right; symmetry; apply (Z.div_unique y 256 (-1) (y + 256)); lia]).
  lia.
Qed.

Lemma strncmp_take n a b :
  chars a -> chars b -> (n <= length a)%nat -> strncmp_nat n a b = 0 <-> take n a = take n b.
Proof.
  revert a b. induction n as [|n IH]; intros [|x a] b Ha Hb Hn; cbn [length] in Hn; try done; try lia.
  apply Forall_cons in Ha as [Hx Ha]. cbn [strncmp_nat head default tail]. destruct b as [|y b]; cbn.
  - rewrite (proj2 (Z.eqb_neq x 0)) by lia. split; [|done]. intros H%uchar_inj; lia.
  - apply Forall_cons in Hb as [Hy Hb]. destruct (Z.eqb_spec x y) as [->|Hne].
    + rewrite (proj2 (Z.eqb_neq y 0)) by lia. rewrite IH by (done || lia). split; [by intros ->|by intros [= ->]].
    + split; [intros H%uchar_inj; lia|by intros [= ? _]].
Qed.

Definition lower (s : list Z) : list Z := tolower <$> s.
Lemma lower_chars s : chars s -> chars (lower s).
Proof.
  intros Hs. apply Forall_fmap. eapply Forall_impl; [exact Hs|]. intros c Hc. unfold compose, tolower.
  destruct (isupper c) eqn:E; [|done]. unfold isupper in E. zbool. lia.
Qed.

(** The first characters, without case. *)
Lemma strncasecmp_prefix a b :
  chars a -> chars b -> strncasecmp a b (zlen a) = 0 <-> lower a `prefix_of` lower b.
Proof.
  intros Ha%lower_chars Hb%lower_chars. unfold strncasecmp, strncmp. fold (lower a) (lower b).
  unfold zlen. rewrite Nat2Z.id, <- (length_fmap tolower a). fold (lower a).
  rewrite strncmp_take, take_ge by done. split.
  - intros E. exists (drop (length (lower a)) (lower b)). rewrite E at 1. symmetry. apply take_drop.
  - intros [k ->]. by rewrite take_app_length.
Qed.
Lemma strncasecmp_app a k b :
  chars (a ++ k) -> chars b -> strncasecmp (a ++ k) b (zlen a) = 0 <-> lower a `prefix_of` lower b.
Proof.
  intros Ha Hb. rewrite <- strncasecmp_prefix by (done || by apply Forall_app in Ha as [??]).
  apply lower_chars in Ha as Hl. apply lower_chars in Hb as Hbl. unfold strncasecmp, strncmp.
  fold (lower (a ++ k)) (lower a) (lower b). unfold zlen. rewrite Nat2Z.id.
  assert (lower (a ++ k) = lower a ++ lower k) as E by apply fmap_app.
  assert (length a = length (lower a)) as El by (symmetry; apply length_fmap).
  apply Forall_app in Ha as [Ha _]. apply lower_chars in Ha.
  rewrite !strncmp_take by (done || (rewrite ?E, ?length_app; lia) || lia).
  rewrite E, El, take_app_length, (take_ge (lower a)) by done. done.
Qed.

(** The whole strings, without case. *)
Lemma strncmp_whole m a b :
  chars a -> chars b -> (length a < m)%nat -> strncmp_nat m a b = 0 <-> a = b.
Proof.
  revert m b. induction a as [|x a IH]; intros [|m] b Ha Hb Hm; cbn [length] in Hm; try lia.
  - destruct b as [|y b]; [done|]. apply Forall_cons in Hb as [Hy _].
    change (strncmp_nat (S m) [] (y :: b)) with (if 0 =? y then 0 else uchar 0 - uchar y).
    rewrite (proj2 (Z.eqb_neq 0 y)) by lia. split; [intros H%uchar_inj; lia|done].
  - apply Forall_cons in Ha as [Hx Ha].
    cbn [strncmp_nat head default tail]. destruct b as [|y b]; cbn.
    + rewrite (proj2 (Z.eqb_neq x 0)) by lia. split; [intros H%uchar_inj; lia|done].
    + apply Forall_cons in Hb as [Hy Hb]. destruct (Z.eqb_spec x y) as [->|Hne].
      * rewrite (proj2 (Z.eqb_neq y 0)) by lia. rewrite IH by (done || lia).
        split; [by intros ->|by intros [= ->]].
      * split; [intros H%uchar_inj; lia|by intros [= ? _]].
Qed.
Lemma strcasecmp_equal a b : chars a -> chars b -> strcasecmp a b = 0 <-> lower a = lower b.
Proof.
  intros Ha Hb. unfold strcasecmp, strncasecmp, strncmp, strlen.
  assert (forall s, chars s -> c_str s = s) as Hs.
  { intros s H. apply c_str_id. eapply Forall_impl; [exact H|]. cbn. tauto. }
  rewrite !Hs by done. fold (lower a) (lower b).
  rewrite <- (strncmp_whole (Z.to_nat (zlen a + 1)) (lower a)); [done|by apply lower_chars..|].
  unfold lower, zlen. rewrite length_fmap. lia.
Qed.
