(* ===== verification/MemBuffer.v ===== *)
(** Growable byte buffers: [upnp/src/genlib/util/membuffer.c].

    A [membuffer] owns one heap block ([buf], [None] for [NULL]) of
    [capacity + 1] bytes, of which the first [length] are the contents; a NUL
    follows them.  Every operation is modelled on the block itself, with
    [realloc] and [memmove] as the code calls them; bytes the C standard
    leaves indeterminate are the section variable [junk].  The theorems show
    that the operations implement list operations on the contents, whatever
    the allocator answers. *)

From S2P Require Import Prelude CString.

Definition UPNP_E_SUCCESS : Z := 0.
Definition UPNP_E_OUTOF_MEMORY : Z := -104.
Definition UPNP_E_OUTOF_BOUNDS : Z := -506.
Definition MEMBUF_DEF_SIZE_INC : Z := 5.

Record memptr := Memptr { mp_buf : list Z; mp_length : Z }.

Record membuffer := Membuffer {
  mb_buf : option (list Z);
  mb_length : Z;
  mb_capacity : Z;
  mb_size_inc : Z
}.

Section MemBuffer.
Context (junk : Z).

(** [realloc(b, n)]: the old bytes, then indeterminate ones. *)
Definition realloc_block (b : option (list Z)) (n : Z) : list Z :=
  resize (Z.to_nat n) junk (default [] b).

(** ** Operations *)

Definition str_alloc (s : list Z) (str_len : Z) : M (option (list Z)) :=
  ok ← malloc_ok;
  if ok : bool then
    b ← liftO (d ← mem_slice s 0 str_len;
               mem_write (realloc_block None (to_size (str_len + 1))) 0 d);
    b' ← liftO (mem_write b str_len [0]);
    mret (Some b')
  else mret None.

Definition membuffer_initialize (m : membuffer) : membuffer :=
  Membuffer None 0 0 (mb_size_inc m).

Definition membuffer_set_size (m : membuffer) (new_length : Z)
    : M (Z * membuffer) :=
  let save b alloc_len :=
    mret (0, Membuffer (Some b) (mb_length m) alloc_len (mb_size_inc m)) in
  let grow alloc_len :=
    _ ← assertM (new_length <=? alloc_len);
    ok1 ← malloc_ok;
    if ok1 : bool then
      save (realloc_block (mb_buf m) (to_size (alloc_len + 1))) alloc_len
    else
      (* try smaller size *)
      ok2 ← malloc_ok;
      if ok2 : bool then
        save (realloc_block (mb_buf m) (to_size (new_length + 1))) new_length
      else mret (UPNP_E_OUTOF_MEMORY, m) in
  if mb_length m <=? new_length then
    if new_length <=? mb_capacity m then mret (0, m)
    else
      let diff := to_size (new_length - mb_length m) in
      grow (to_size (Z.max (mb_size_inc m) diff + mb_capacity m))
  else if to_size (mb_capacity m - new_length) <=? mb_size_inc m then
    mret (0, m)
  else grow (to_size (new_length + mb_size_inc m)).

Definition membuffer_init : membuffer :=
  membuffer_initialize (Membuffer None 0 0 MEMBUF_DEF_SIZE_INC).

Definition membuffer_destroy (m : membuffer) : membuffer := membuffer_init.

(** Stores the result of a write through [m->buf]. *)
Definition with_block (m : membuffer) (f : list Z -> option (list Z))
    : M membuffer :=
  match mb_buf m with
  | Some b =>
      b' ← liftO (f b);
      mret (Membuffer (Some b') (mb_length m) (mb_capacity m) (mb_size_inc m))
  | None => undefined
  end.

Definition set_length (m : membuffer) (n : Z) : membuffer :=
  Membuffer (mb_buf m) n (mb_capacity m) (mb_size_inc m).

Definition membuffer_assign (m : membuffer) (buf : option (list Z)) (buf_len : Z)
    : M (Z * membuffer) :=
  match buf with
  | None => mret (0, membuffer_destroy m)
  | Some data =>
      '(return_code, m1) ← membuffer_set_size m buf_len;
      if negb (return_code =? 0) then mret (return_code, m1)
      else
        m2 ← (if negb (buf_len =? 0) then
                m' ← with_block m1 (fun b =>
                       d ← mem_slice data 0 buf_len; mem_write b 0 d);
                with_block m' (fun b => mem_write b buf_len [0])
              else mret m1);
        mret (0, set_length m2 buf_len)
  end.

Definition membuffer_assign_str (m : membuffer) (c_string : list Z)
    : M (Z * membuffer) :=
  membuffer_assign m (Some c_string) (strlen c_string).

Definition membuffer_insert (m : membuffer) (buf : option (list Z))
    (buf_len index : Z) : M (Z * membuffer) :=
  if mb_length m <? index then mret (UPNP_E_OUTOF_BOUNDS, m)
  else
    match buf with
    | None => mret (0, m)
    | Some data =>
        if buf_len =? 0 then mret (0, m)
        else
          '(return_code, m1) ←
            membuffer_set_size m (to_size (mb_length m + buf_len));
          if negb (return_code =? 0) then mret (return_code, m1)
          else
            m2 ← with_block m1 (fun b =>
                   memmove b (index + buf_len) index
                     (to_size (mb_length m1 - index)));
            m3 ← with_block m2 (fun b =>
                   d ← mem_slice data 0 buf_len; mem_write b index d);
            let m4 := set_length m3 (to_size (mb_length m3 + buf_len)) in
            m5 ← with_block m4 (fun b => mem_write b (mb_length m4) [0]);
            mret (0, m5)
    end.

Definition membuffer_append (m : membuffer) (buf : option (list Z)) (buf_len : Z)
    : M (Z * membuffer) :=
  membuffer_insert m buf buf_len (mb_length m).

Definition membuffer_append_str (m : membuffer) (c_string : list Z)
    : M (Z * membuffer) :=
  membuffer_insert m (Some c_string) (strlen c_string) (mb_length m).

Definition membuffer_delete (m : membuffer) (index num_bytes : Z)
    : M membuffer :=
  if mb_length m =? 0 then mret m
  else
    let '(num_bytes, copy_len) :=
      if mb_length m <? to_size (index + num_bytes) then
        (to_size (mb_length m - index), 0)
      else (num_bytes, to_size (mb_length m - to_size (index + num_bytes))) in
    m1 ← with_block m (fun b => memmove b index (index + num_bytes) copy_len);
    let new_length := to_size (mb_length m1 - num_bytes) in
    '(return_value, m2) ← membuffer_set_size m1 new_length;
    _ ← assert_shrunk (return_value =? 0);
    if negb (return_value =? 0) then mret m2
    else with_block (set_length m2 new_length)
           (fun b => mem_write b new_length [0]).

Definition membuffer_detach (m : membuffer) : option (list Z) * membuffer :=
  (mb_buf m, membuffer_initialize m).

Definition membuffer_attach (m : membuffer) (new_buf : list Z) (buf_len : Z)
    : membuffer :=
  let m' := membuffer_destroy m in
  Membuffer (Some new_buf) buf_len buf_len (mb_size_inc m').

(** ** Invariant and contents *)

(** The documented bound: "Total length/capacity should not exceed MAX_INT". *)
Definition MB_MAX : Z := INT_MAX.

(** The block has room for the contents, the slack and a NUL; the slack never
    exceeds [size_inc]. *)
Record mb_wf (m : membuffer) : Prop := {
  wf_length : 0 <= mb_length m <= MB_MAX;
  wf_capacity : mb_length m <= mb_capacity m <= mb_length m + mb_size_inc m;
  wf_inc : 0 <= mb_size_inc m <= INT_MAX;
  wf_block : match mb_buf m with
             | None => mb_capacity m = 0
             | Some b => zlen b = mb_capacity m + 1
             end
}.

Definition contents (m : membuffer) : list Z :=
  ztake (mb_length m) (default [] (mb_buf m)).

(** A NUL follows the contents. *)
Definition terminated (m : membuffer) : Prop :=
  exists b, mb_buf m = Some b /\ rd b (mb_length m) = 0.

(** What [membuffer_set_size] leaves: room for [n], the old bytes up to [n],
    and the bounded slack with respect to the coming length [n]. *)
Record resized (m : membuffer) (n : Z) (m' : membuffer) : Prop := {
  rs_length : mb_length m' = mb_length m;
  rs_inc : mb_size_inc m' = mb_size_inc m;
  rs_capacity : n <= mb_capacity m' <= n + mb_size_inc m;
  rs_block : match mb_buf m' with
             | None => mb_capacity m' = 0
             | Some b => zlen b = mb_capacity m' + 1
             end;
  rs_some : is_Some (mb_buf m) -> is_Some (mb_buf m');
  rs_bytes : forall k, 0 <= k <= mb_length m -> k <= n ->
             ztake k (default [] (mb_buf m')) = ztake k (default [] (mb_buf m))
}.

(** ** Lemmas *)

Lemma zlen_realloc b n : 0 <= n -> zlen (realloc_block b n) = n.
Proof. intros. unfold zlen, realloc_block. rewrite length_resize. lia. Qed.

Lemma ztake_realloc b n k :
  0 <= k <= zlen (default [] b) -> k <= n ->
  ztake k (realloc_block b n) = ztake k (default [] b).
Proof.
  intros Hk Hn. unfold ztake, realloc_block, zlen in *.
  rewrite take_resize_le by lia. apply resize_le. lia.
Qed.

Lemma zlen_block m :
  mb_wf m -> mb_length m <= zlen (default [] (mb_buf m)).
Proof.
  intros [Hl Hc Hi Hb]. destruct (mb_buf m); simpl in *; [lia|].
  rewrite zlen_nil. lia.
Qed.

Lemma zlen_contents m : mb_wf m -> zlen (contents m) = mb_length m.
Proof.
  intros Hw. pose proof (zlen_block m Hw). destruct Hw as [? _ _ _].
  apply zlen_ztake. lia.
Qed.

Lemma realloc_resized m n alloc_len :
  mb_wf m -> 0 <= n <= MB_MAX -> n <= alloc_len <= n + mb_size_inc m ->
  resized m n (Membuffer
    (Some (realloc_block (mb_buf m) (to_size (alloc_len + 1))))
    (mb_length m) alloc_len (mb_size_inc m)).
Proof.
  intros Hw Hn Ha. pose proof (zlen_block m Hw). destruct Hw as [? ? Hi ?].
  unfold MB_MAX, INT_MAX in *.
  rewrite to_size_small by (unfold SIZE_MAX; lia).
  split; simpl; try done.
  - rewrite zlen_realloc; lia.
  - intros k ? ?. apply ztake_realloc; lia.
Qed.

Lemma resized_self m n :
  mb_wf m -> n <= mb_capacity m <= n + mb_size_inc m -> resized m n m.
Proof. intros [] ?. by split. Qed.

Lemma set_size_runs md m n :
  mb_wf m -> 0 <= n <= MB_MAX ->
  runs md (membuffer_set_size m n) (fun '(r, m') =>
    (r = 0 /\ resized m n m') \/
    (md <> Lucky /\ r = UPNP_E_OUTOF_MEMORY /\ m' = m)).
Proof.
  intros Hw Hn. pose proof Hw as [Hl Hc Hi Hb].
  unfold MB_MAX, INT_MAX in *. unfold membuffer_set_size.
  assert (forall alloc_len, n <= alloc_len <= n + mb_size_inc m ->
    runs md (_ ← assertM (n <=? alloc_len);
      ok1 ← malloc_ok;
      if ok1 : bool then
        mret (0, Membuffer (Some (realloc_block (mb_buf m)
          (to_size (alloc_len + 1)))) (mb_length m) alloc_len (mb_size_inc m))
      else ok2 ← malloc_ok;
        if ok2 : bool then
          mret (0, Membuffer (Some (realloc_block (mb_buf m)
            (to_size (n + 1)))) (mb_length m) n (mb_size_inc m))
        else mret (UPNP_E_OUTOF_MEMORY, m)) (fun '(r, m') =>
      (r = 0 /\ resized m n m') \/
      (md <> Lucky /\ r = UPNP_E_OUTOF_MEMORY /\ m' = m))) as Hgrow.
  { intros a Ha. msteps. apply runs_assert_true; [apply Z.leb_le; lia|].
    msteps.
    - left. split; [done|]. by apply realloc_resized.
    - left. split; [done|].
      apply realloc_resized; [done|unfold MB_MAX, INT_MAX; lia|lia].
    - by right. }
  destruct (Z.leb_spec (mb_length m) n).
  - destruct (Z.leb_spec n (mb_capacity m)).
    + apply runs_ret. left. split; [done|]. apply resized_self; [done|lia].
    + rewrite (to_size_small (n - _)) by (unfold SIZE_MAX; lia).
      rewrite (to_size_small (Z.max _ _ + _)) by (unfold SIZE_MAX; lia).
      apply Hgrow. lia.
  - rewrite (to_size_small (_ - n)), (to_size_small (n + mb_size_inc m))
      by (unfold SIZE_MAX; lia).
    destruct (Z.leb_spec (mb_capacity m - n) (mb_size_inc m)).
    + apply runs_ret. left. split; [done|]. apply resized_self; [done|lia].
    + apply Hgrow. lia.
Qed.

(** A block big enough for [n] bytes starts with the contents. *)
Lemma resized_split m n m' :
  mb_wf m -> resized m n m' -> 0 <= n -> 0 < n \/ is_Some (mb_buf m) ->
  exists b, mb_buf m' = Some b /\ zlen b = mb_capacity m' + 1 /\
    ztake (Z.min n (mb_length m)) b = ztake (Z.min n (mb_length m)) (contents m).
Proof.
  intros Hw [H1 H2 H3 H4 H6 H5] Hn Hs. pose proof Hw as [Hl _ _ _].
  destruct (mb_buf m') as [b|]; [|destruct Hs as [?|Hs]; [lia|];
    by destruct (H6 Hs)].
  exists b. split; [done|]. split; [done|]. simpl in *.
  rewrite H5 by lia. unfold contents. by rewrite ztake_ztake by lia.
Qed.

Lemma with_block_runs md m f b b' (Q : membuffer -> Prop) :
  mb_buf m = Some b -> f b = Some b' ->
  Q (Membuffer (Some b') (mb_length m) (mb_capacity m) (mb_size_inc m)) ->
  runs md (with_block m f) Q.
Proof.
  intros Hb Hf HQ. unfold with_block. rewrite Hb, Hf. mstep.
  by eapply runs_liftO.
Qed.

(** The invariant and the contents, from the final block. *)
Lemma mb_wf_final b c n cap inc :
  zlen b = cap + 1 -> 0 <= n <= MB_MAX -> n <= cap <= n + inc ->
  0 <= inc <= INT_MAX -> ztake n b = c -> rd b n = 0 ->
  mb_wf (Membuffer (Some b) n cap inc) /\
  contents (Membuffer (Some b) n cap inc) = c /\
  terminated (Membuffer (Some b) n cap inc).
Proof. intros. split; [by split|]. split; [done|]. by exists b. Qed.

(** Outcome of an update that must yield contents [c]. *)
Definition updated (m : membuffer) (c : list Z) (m' : membuffer) : Prop :=
  mb_wf m' /\ contents m' = c /\ mb_size_inc m' = mb_size_inc m.

Lemma split_gap m b index n :
  mb_wf m -> ztake (mb_length m) b = contents m -> 0 <= index <= mb_length m ->
  0 <= n -> mb_length m + n < zlen b ->
  exists g z t, zlen g = n /\
    b = ztake index (contents m) ++ zdrop index (contents m) ++ g ++ z :: t.
Proof.
  intros Hw Hb Hi Hn Hlen. pose proof Hw as [Hl _ _ _].
  exists (zslice (mb_length m) n b), (rd b (mb_length m + n)),
    (zdrop (mb_length m + n + 1) b).
  split; [apply zlen_zslice; lia|].
  rewrite app_assoc, ztake_zdrop, <- Hb.
  rewrite <- (ztake_zdrop (mb_length m) b) at 1. f_equal.
  unfold zslice. rewrite <- (ztake_zdrop n (zdrop (mb_length m) b)) at 1. f_equal.
  rewrite zdrop_zdrop by lia. apply zdrop_rd. lia.
Qed.

Lemma insert_runs md m data index :
  mb_wf m -> 0 <= index <= mb_length m -> data <> [] ->
  mb_length m + zlen data <= MB_MAX ->
  runs md (membuffer_insert m (Some data) (zlen data) index) (fun '(r, m') =>
    (r = 0 /\ terminated m' /\
     updated m (ztake index (contents m) ++ data ++ zdrop index (contents m)) m')
    \/ (md <> Lucky /\ r = UPNP_E_OUTOF_MEMORY /\ m' = m)).
Proof.
  intros Hw Hi Hd Hmax. pose proof Hw as [Hl _ Hinc _].
  assert (0 < zlen data) by (destruct data; [done|rewrite zlen_cons;
    pose proof (zlen_nonneg data); lia]).
  unfold membuffer_insert, MB_MAX, INT_MAX in *.
  destruct (Z.ltb_spec (mb_length m) index); [lia|].
  destruct (Z.eqb_spec (zlen data) 0); [lia|].
  rewrite (to_size_small (_ + _)) by (unfold SIZE_MAX; lia).
  mstep. eapply runs_mono; [apply set_size_runs; [done|unfold MB_MAX, INT_MAX; lia]|].
  intros [r m1] [[-> Hr]|(? & -> & ->)]; simpl; [|apply runs_ret; by right].
  destruct (resized_split _ _ _ Hw Hr) as (b & Hb & Hbl & Hbt); [lia|by left; lia|].
  destruct Hr as [Hrl Hri Hrc _ _ _]. rewrite Z.min_r in Hbt by lia.
  rewrite (ztake_all _ (contents m)) in Hbt by (rewrite zlen_contents; done || lia).
  edestruct (split_gap m b index (zlen data)) as (g & z & t & Hg & Hb'); [done|done|lia..|].
  pose proof (zlen_contents m Hw) as Hc.
  set (c1 := ztake index (contents m)) in *.
  set (c2 := zdrop index (contents m)) in *.
  assert (Hc1 : zlen c1 = index) by (apply zlen_ztake; lia).
  assert (Hc2 : zlen c2 = mb_length m - index)
    by (unfold c2; rewrite zlen_zdrop; lia).
  destruct (memmove_gap c1 c2 g (z :: t)) as (x & Hx & Hmv).
  rewrite to_size_small by (unfold SIZE_MAX; lia).
  mstep. eapply with_block_runs; [exact Hb| |].
  { rewrite Hb', Hrl, <- Hc2, <- Hg, <- Hc1. exact Hmv. }
  mstep. eapply with_block_runs; [done| |]; simpl.
  { rewrite <- (app_nil_r data) at 1. rewrite (mem_slice_app [] data []) by done.
    simpl. apply mem_write_app; [done|lia]. }
  mstep. rewrite Hrl, to_size_small by (unfold SIZE_MAX; lia).
  eapply with_block_runs; [done| |]; simpl.
  { rewrite (app_assoc data), (app_assoc c1).
    apply (mem_write_app (c1 ++ data ++ c2) [z] t _ [0]); [|done].
    rewrite !zlen_app. lia. }
  apply runs_ret. left. split; [done|].
  destruct (mb_wf_final ((c1 ++ data ++ c2) ++ [0] ++ t)
    (c1 ++ data ++ c2) (mb_length m + zlen data) (mb_capacity m1)
    (mb_size_inc m1)) as (Hwf & Hcon & Hterm); [..|done].
  - rewrite <- Hbl, Hb', !zlen_app, !zlen_cons, zlen_nil. lia.
  - unfold MB_MAX, INT_MAX. lia.
  - lia.
  - unfold INT_MAX. lia.
  - apply ztake_app_exact. rewrite !zlen_app. lia.
  - rewrite rd_app_r; rewrite !zlen_app; [|lia].
    by replace (_ - _) with 0 by lia.
Qed.

(** The non-empty buffer, split around the bytes to delete. *)
Lemma split_del m index n :
  mb_wf m -> 0 <= index -> 0 <= n -> index + n <= mb_length m ->
  mb_length m <> 0 ->
  exists b x t, mb_buf m = Some b /\ zlen x = n /\ zlen b = mb_capacity m + 1 /\
    b = ztake index (contents m) ++ x ++ zdrop (index + n) (contents m) ++ t.
Proof.
  intros Hw Hi Hn Hl H0. pose proof (zlen_contents m Hw) as Hc.
  destruct Hw as [Hml Hmc Hmi Hmb]. unfold contents in *.
  destruct (mb_buf m) as [b|]; [|lia]. simpl in *.
  set (c := ztake (mb_length m) b) in *.
  exists b, (zslice index n c), (zdrop (mb_length m) b).
  split; [done|]. split; [apply zlen_zslice; lia|]. split; [done|].
  rewrite (app_assoc (zslice _ _ _)). rewrite app_assoc.
  assert (zslice index n c ++ zdrop (index + n) c = zdrop index c) as ->.
  { unfold zslice. rewrite <- zdrop_zdrop by lia. apply ztake_zdrop. }
  rewrite ztake_zdrop. unfold c. by rewrite ztake_zdrop.
Qed.

(** The end of [membuffer_delete]: giving memory back and terminating. *)
Lemma shrink_runs md m c rest :
  md <> Total -> mb_wf m -> is_Some (mb_buf m) -> contents m = c ++ rest ->
  runs md ('(return_value, m2) ← membuffer_set_size m (zlen c);
           _ ← assert_shrunk (return_value =? 0);
           if negb (return_value =? 0) then mret m2
           else with_block (set_length m2 (zlen c))
                  (fun b => mem_write b (zlen c) [0]))
    (fun m' => updated m c m' /\ terminated m').
Proof.
  intros Hmd Hw Hs Hc. pose proof (zlen_contents m Hw) as Hl.
  rewrite Hc, zlen_app in Hl. pose proof (zlen_nonneg c).
  pose proof (zlen_nonneg rest). pose proof Hw as [Hml _ Hinc _].
  mstep. eapply runs_mono; [apply set_size_runs; [done|lia]|].
  intros [r m2] [[-> Hr]|(? & -> & ->)]; simpl.
  2:{ mstep. apply runs_assert_shrunk; [done|]. intros _. destruct md; auto; done. }
  mstep. apply runs_assert_shrunk; [intros _|done].
  destruct (resized_split _ _ _ Hw Hr) as (b & Hb & Hbl & Hbt);
    [lia|by right|].
  destruct Hr as [Hrl Hri Hrc _ _ _]. simpl in *.
  rewrite Hc, Z.min_l, ztake_app_exact in Hbt by lia.
  eapply with_block_runs; [exact Hb| |].
  { apply mem_write_Some; [lia|]. rewrite zlen_cons, zlen_nil. lia. }
  simpl. rewrite Hbt.
  destruct (mb_wf_final (c ++ [0] ++ zdrop (zlen c + zlen [0]) b)
    c (zlen c) (mb_capacity m2) (mb_size_inc m2)) as (Hwf & Hcon & Ht);
    [..|by split; [split|]].
  - change (zlen [0]) with 1. rewrite !zlen_app, zlen_zdrop by lia.
    change (zlen [0]) with 1. lia.
  - lia.
  - lia.
  - lia.
  - by apply ztake_app_exact.
  - by rewrite rd_app_r, Z.sub_diag by lia.
Qed.

Lemma delete_runs md m index num :
  md <> Total -> mb_wf m -> 0 <= index <= mb_length m -> 0 <= num ->
  index + num <= SIZE_MAX ->
  runs md (membuffer_delete m index num) (fun m' =>
    updated m (ztake index (contents m) ++ zdrop (index + num) (contents m)) m' /\
    (mb_length m <> 0 -> terminated m')).
Proof.
  intros Hmd Hw Hi Hn Hmax. pose proof (zlen_contents m Hw) as Hc.
  pose proof Hw as [Hl Hcap Hinc Hblk]. unfold membuffer_delete.
  destruct (Z.eqb_spec (mb_length m) 0) as [E|E].
  { apply runs_ret. split; [|done]. split; [done|]. split; [|done].
    destruct (contents m); [|rewrite zlen_cons in Hc;
      pose proof (zlen_nonneg l); lia].
    unfold ztake, zdrop. by rewrite take_nil, drop_nil. }
  rewrite (to_size_small (index + num)) by lia.
  set (num' := Z.min num (mb_length m - index)).
  unfold MB_MAX, INT_MAX in *.
  replace (if mb_length m <? index + num then _ else _)
    with (num', mb_length m - index - num').
  2:{ destruct (Z.ltb_spec (mb_length m) (index + num)); f_equal;
      rewrite ?to_size_small by (unfold SIZE_MAX; lia); lia. }
  assert (zdrop (index + num) (contents m) = zdrop (index + num') (contents m))
    as ->.
  { destruct (Z.le_gt_cases num (mb_length m - index)).
    - by replace num' with num by lia.
    - rewrite !zdrop_all by lia. done. }
  destruct (split_del m index num') as (b & x & t & Hb & Hx & Hbl & Hb');
    [done|lia..|].
  set (c1 := ztake index (contents m)) in *.
  set (c2 := zdrop (index + num') (contents m)) in *.
  assert (Hc1 : zlen c1 = index) by (apply zlen_ztake; lia).
  assert (Hc2 : zlen c2 = mb_length m - index - num')
    by (unfold c2; rewrite zlen_zdrop; lia).
  destruct (memmove_close c1 x c2 t) as (t' & Ht' & Hmv).
  mstep. eapply with_block_runs; [exact Hb| |].
  { rewrite Hb', <- Hx, <- Hc1. rewrite <- Hx in Hc2.
    replace (_ - _ - _) with (zlen c2) by lia. exact Hmv. }
  simpl. rewrite to_size_small by (unfold SIZE_MAX; lia).
  set (m1 := Membuffer _ _ _ _).
  replace (mb_length m - num') with (zlen (c1 ++ c2)) by (rewrite zlen_app; lia).
  eapply runs_mono; [apply (shrink_runs md m1 (c1 ++ c2) (ztake num' t'))|].
  - done.
  - split; simpl; try done. rewrite <- Hbl, Hb', !zlen_app. lia.
  - eauto.
  - unfold contents; simpl. rewrite app_assoc, ztake_app_ge; rewrite zlen_app; [|lia].
    do 2 f_equal. lia.
  - intros m' [(H1 & H2 & H3) Ht2]. split; [split; [done|by split]|done].
Qed.

Lemma assign_runs md m data n :
  mb_wf m -> 0 <= n <= zlen data -> n <= MB_MAX ->
  runs md (membuffer_assign m (Some data) n) (fun '(r, m') =>
    (r = 0 /\ updated m (ztake n data) m' /\ (0 < n -> terminated m'))
    \/ (md <> Lucky /\ r = UPNP_E_OUTOF_MEMORY /\ m' = m)).
Proof.
  intros Hw Hn Hmax. pose proof Hw as [Hl _ Hinc _].
  unfold membuffer_assign. mstep.
  eapply runs_mono; [apply set_size_runs; [done|lia]|].
  intros [r m1] [[-> Hr]|(? & -> & ->)]; simpl; [|apply runs_ret; by right].
  destruct (Z.eqb_spec n 0) as [->|Hn0]; simpl.
  { mstep. apply runs_ret. apply runs_ret. left. split; [done|].
    destruct Hr as [Hrl Hri Hrc Hrb _ _]. split; [|lia].
    split; [split; simpl; lia || done|]. by rewrite ztake_0. }
  destruct (resized_split _ _ _ Hw Hr) as (b & Hb & Hbl & _); [lia|left; lia|].
  destruct Hr as [Hrl Hri Hrc _ _ _].
  mstep. mstep. eapply with_block_runs; [exact Hb| |].
  { rewrite mem_slice_Some by lia. simpl. unfold zslice. rewrite zdrop_0.
    apply mem_write_Some; rewrite ?zlen_ztake; lia. }
  rewrite ztake_0, app_nil_l, zlen_ztake by lia.
  eapply with_block_runs; [done| |].
  { simpl. rewrite <- (ztake_zdrop 1 (zdrop (0 + n) b)).
    apply mem_write_app; [by rewrite zlen_ztake by lia|].
    rewrite zlen_ztake; [done|]. rewrite zlen_zdrop; lia. }
  apply runs_ret. left. simpl. split; [done|].
  destruct (mb_wf_final (ztake n data ++ [0] ++ zdrop 1 (zdrop (0 + n) b))
    (ztake n data) n (mb_capacity m1) (mb_size_inc m1)) as (Hwf & Hcon & Ht);
    [..|done].
  - rewrite !zlen_app, !zlen_zdrop, zlen_ztake; change (zlen [0]) with 1;
      rewrite ?zlen_zdrop; lia.
  - lia.
  - lia.
  - lia.
  - apply ztake_app_exact. by rewrite zlen_ztake by lia.
  - rewrite rd_app_r; rewrite zlen_ztake by lia; [by rewrite Z.sub_diag|lia].
Qed.

(** Appending a list of pieces one after the other. *)
Fixpoint append_all (m : membuffer) (pieces : list (list Z)) : M (Z * membuffer) :=
  match pieces with
  | [] => mret (0, m)
  | p :: ps =>
      '(r, m') ← membuffer_append m (Some p) (zlen p);
      if negb (r =? 0) then mret (r, m') else append_all m' ps
  end.

Lemma append_runs md m data :
  mb_wf m -> mb_length m + zlen data <= MB_MAX ->
  runs md (membuffer_append m (Some data) (zlen data)) (fun '(r, m') =>
    (r = 0 /\ updated m (contents m ++ data) m') \/
    (md <> Lucky /\ r = UPNP_E_OUTOF_MEMORY /\ m' = m)).
Proof.
  intros Hw Hmax. pose proof Hw as [Hl _ _ _].
  pose proof (zlen_contents m Hw) as Hc.
  destruct (decide (data = [])) as [->|Hd].
  - unfold membuffer_append, membuffer_insert. rewrite Z.ltb_irrefl.
    simpl. apply runs_ret. left. split; [done|]. split; [done|].
    by rewrite app_nil_r.
  - eapply runs_mono; [apply insert_runs; [done|lia|done|done]|].
    intros [r m'] [(-> & _ & Hu)|H]; [left|by right]. split; [done|].
    by rewrite ztake_all, zdrop_all, app_nil_r in Hu by lia.
Qed.

(** Only the first [n] bytes of the data matter. *)
Lemma mem_slice_app_le d k n : n <= zlen d -> mem_slice (d ++ k) 0 n = mem_slice d 0 n.
Proof.
  intros Hn. unfold mem_slice. pose proof (zlen_nonneg k). rewrite zlen_app.
  rewrite (proj2 (Z.leb_le (0 + n) (zlen d))), (proj2 (Z.leb_le (0 + n) _)) by lia.
  unfold zslice. by rewrite zdrop_0, ztake_app_le, zdrop_0.
Qed.

Lemma mem_slice_ztake d n : 0 <= n <= zlen d -> mem_slice (ztake n d) 0 n = mem_slice d 0 n.
Proof.
  intros Hn. rewrite <- (ztake_zdrop n d) at 2. rewrite mem_slice_app_le; [done|].
  rewrite zlen_ztake; lia.
Qed.

Lemma insert_slice m d1 d2 n i o :
  mem_slice d1 0 n = mem_slice d2 0 n ->
  membuffer_insert m (Some d1) n i o = membuffer_insert m (Some d2) n i o.
Proof. intros H. unfold membuffer_insert. by rewrite H. Qed.

Lemma assign_slice m d1 d2 n o :
  mem_slice d1 0 n = mem_slice d2 0 n ->
  membuffer_assign m (Some d1) n o = membuffer_assign m (Some d2) n o.
Proof. intros H. unfold membuffer_assign. by rewrite H. Qed.

Lemma str_alloc_slice d1 d2 n o :
  mem_slice d1 0 n = mem_slice d2 0 n -> str_alloc d1 n o = str_alloc d2 n o.
Proof. intros H. unfold str_alloc. by rewrite H. Qed.

Lemma str_alloc_runs md s n :
  0 <= n <= zlen s -> n <= MB_MAX ->
  runs md (str_alloc s n) (fun r => r = Some (ztake n s ++ [0]) \/ (md <> Lucky /\ r = None)).
Proof.
  intros Hn Hm. unfold MB_MAX, INT_MAX in *. unfold str_alloc. mstep. mstep; cbv beta iota.
  2: { apply runs_ret. by right. }
  rewrite mem_slice_Some by lia. cbn [mbind option_bind]. unfold zslice. rewrite zdrop_0.
  rewrite to_size_small by (unfold SIZE_MAX; lia).
  pose proof (zlen_realloc None (n + 1) ltac:(lia)) as Hl.
  set (b := realloc_block None (n + 1)) in *.
  rewrite <- (ztake_zdrop n b). rewrite (mem_write_app [] (ztake n b) (zdrop n b) 0);
    [|done|rewrite !zlen_ztake; lia].
  mstep. eapply runs_liftO; [done|]. mstep.
  assert (exists x, zdrop n b = [x]) as [x ->].
  { destruct (zdrop n b) as [|x [|y l]] eqn:E; [exfalso|by exists x|exfalso];
      apply (f_equal zlen) in E; rewrite zlen_zdrop in E by lia; unfold zlen in E at 2;
      simpl in E; lia. }
  eapply runs_liftO.
  { cbn [app]. rewrite <- (app_nil_r [x]). apply (mem_write_app (ztake n s) [x] [] n [0]);
      [rewrite zlen_ztake; lia|done]. }
  apply runs_ret. by left.
Qed.

(** Appending the first [n] bytes of the data. *)
Lemma append_prefix_runs md m data n :
  mb_wf m -> 0 < n <= zlen data -> mb_length m + n <= MB_MAX ->
  runs md (membuffer_append m (Some data) n) (fun '(r, m') =>
    (r = 0 /\ terminated m' /\ updated m (contents m ++ ztake n data) m') \/
    (md <> Lucky /\ r = UPNP_E_OUTOF_MEMORY /\ m' = m)).
Proof.
  intros Hw Hn Hmax o Ho. unfold membuffer_append.
  rewrite (insert_slice m data (ztake n data)) by (by rewrite mem_slice_ztake by lia).
  assert (zlen (ztake n data) = n) as Hl by (apply zlen_ztake; lia).
  pose proof (zlen_contents m Hw) as Hc. pose proof Hw as [? _ _ _].
  pose proof (insert_runs md m (ztake n data) (mb_length m) Hw) as H.
  rewrite Hl, (ztake_all _ (contents m)), (zdrop_all _ (contents m)), app_nil_r in H by lia.
  apply H; [lia| |lia|done]. intros E. rewrite E in Hl. unfold zlen in Hl. simpl in Hl. lia.
Qed.

(** ** Properties *)

(** C33: [membuffer_insert] at a position of the buffer yields exactly the old
    contents with the new bytes in between, NUL-terminated and with the
    invariant kept, or reports [UPNP_E_OUTOF_MEMORY] (only when an allocation
    failed) and leaves the buffer as it was. *)
Theorem membuffer_insert_correct md m data index :
  mb_wf m -> 0 <= index <= mb_length m -> data <> [] ->
  mb_length m + zlen data <= MB_MAX ->
  runs md (membuffer_insert m (Some data) (zlen data) index) (fun '(r, m') =>
    (r = 0 /\ terminated m' /\
     updated m (ztake index (contents m) ++ data ++ zdrop index (contents m)) m')
    \/ (md <> Lucky /\ r = UPNP_E_OUTOF_MEMORY /\ m' = m)).
Proof. apply insert_runs. Qed.

(** [membuffer_delete] removes exactly the bytes asked for (up to the end
    of the contents) and keeps the invariant; it gets stuck on its assertion
    only when the shrinking [realloc] fails twice. *)
Theorem membuffer_delete_correct md m index num :
  md <> Total -> mb_wf m -> 0 <= index <= mb_length m -> 0 <= num ->
  index + num <= SIZE_MAX ->
  runs md (membuffer_delete m index num)
    (updated m (ztake index (contents m) ++ zdrop (index + num) (contents m))).
Proof. intros. eapply runs_mono; [by apply delete_runs|]. by intros ? [? _]. Qed.

(** [membuffer_assign] replaces the contents by the first [n] bytes of the
    data, NUL-terminated when there are any, or reports
    [UPNP_E_OUTOF_MEMORY] and leaves the buffer unchanged. *)
Theorem membuffer_assign_correct md m data n :
  mb_wf m -> 0 <= n <= zlen data -> n <= MB_MAX ->
  runs md (membuffer_assign m (Some data) n) (fun '(r, m') =>
    (r = 0 /\ updated m (ztake n data) m' /\ (0 < n -> terminated m'))
    \/ (md <> Lucky /\ r = UPNP_E_OUTOF_MEMORY /\ m' = m)).
Proof. apply assign_runs. Qed.

(** Building a message by appending its pieces yields their concatenation
    when the allocations succeed. *)
Theorem membuffer_append_all_concat m pieces :
  mb_wf m -> mb_length m + zlen (concat pieces) <= MB_MAX ->
  exists m', run (append_all m pieces) = Some (0, m') /\ mb_wf m' /\
    contents m' = contents m ++ concat pieces.
Proof.
  intros Hw Hmax.
  enough (runs Lucky (append_all m pieces) (fun '(r, m') =>
    r = 0 /\ mb_wf m' /\ contents m' = contents m ++ concat pieces)) as H.
  { apply runs_run in H as ([r m'] & ? & -> & ?). eauto. }
  revert m Hw Hmax. induction pieces as [|p ps IH]; intros m Hw Hmax; simpl in *.
  { apply runs_ret. by rewrite app_nil_r. }
  rewrite zlen_app in Hmax. pose proof (zlen_nonneg (concat ps)).
  pose proof (zlen_nonneg p).
  mstep. eapply runs_mono; [apply append_runs; [done|lia]|].
  intros [r m'] [(-> & Hw' & Hc & _)|[? _]]; [simpl|done].
  eapply runs_mono; [apply IH; [done|]|].
  - pose proof (zlen_contents m' Hw'). pose proof (zlen_contents m Hw).
    rewrite Hc, zlen_app in *. lia.
  - intros [r m2] (-> & ? & Hc2). split; [done|]. split; [done|].
    by rewrite Hc2, Hc, app_assoc.
Qed.
End MemBuffer.

(** ** Witnesses *)

(** A buffer holding "abcd". *)
Definition sample : membuffer :=
  Membuffer (Some (cs "abcd" ++ [0])) 4 4 MEMBUF_DEF_SIZE_INC.

Lemma sample_wf : mb_wf sample.
Proof. split; simpl; unfold MB_MAX, INT_MAX, MEMBUF_DEF_SIZE_INC; lia || done. Defined.

Example membuffer_insert_correct_witness :
  run (membuffer_insert 7 sample (Some (cs "XY")) 2 1)
  = Some (0, Membuffer (Some (cs "aXYbcd" ++ [0; 7; 7; 7])) 6 9 5) /\
  runs Total (membuffer_insert 7 sample (Some (cs "XY")) (zlen (cs "XY")) 1)
    (fun '(r, m') =>
      (r = 0 /\ terminated m' /\ updated sample (cs "aXYbcd") m') \/
      (Total <> Lucky /\ r = UPNP_E_OUTOF_MEMORY /\ m' = sample)).
Proof.
  split; [reflexivity|].
  apply (membuffer_insert_correct 7 Total sample (cs "XY") 1 sample_wf);
    simpl; unfold MB_MAX, INT_MAX; lia || done.
Defined.

Example membuffer_delete_correct_witness :
  run (membuffer_delete 7 sample 1 2)
  = Some (Membuffer (Some (cs "ad" ++ [0; $"d"; 0])) 2 4 5) /\
  runs Safe (membuffer_delete 7 sample 1 2) (updated sample (cs "ad")).
Proof.
  split; [reflexivity|].
  apply (membuffer_delete_correct 7 Safe sample 1 2);
    [done|apply sample_wf|simpl; lia|lia|unfold SIZE_MAX; lia].
Defined.

Example membuffer_assign_correct_witness :
  runs Total (membuffer_assign 7 sample (Some (cs "hello, world")) 5)
    (fun '(r, m') =>
      (r = 0 /\ updated sample (cs "hello") m' /\ (0 < 5 -> terminated m')) \/
      (Total <> Lucky /\ r = UPNP_E_OUTOF_MEMORY /\ m' = sample)).
Proof.
  apply (membuffer_assign_correct 7 Total sample (cs "hello, world") 5);
    [apply sample_wf|vm_compute; split; discriminate|unfold MB_MAX, INT_MAX; lia].
Defined.

Example membuffer_append_all_concat_witness :
  exists m', run (append_all 7 membuffer_init [cs "HTTP/1.1"; []; cs " 200 OK"])
             = Some (0, m') /\ mb_wf m' /\ contents m' = cs "HTTP/1.1 200 OK".
Proof.
  apply (membuffer_append_all_concat 7 membuffer_init
           [cs "HTTP/1.1"; []; cs " 200 OK"]).
  - split; simpl; unfold MB_MAX, INT_MAX, MEMBUF_DEF_SIZE_INC; lia || done.
  - vm_compute. discriminate.
Defined.
