(* ===== verification/StrIntMap.v ===== *)
(** String-to-integer tables: [upnp/src/genlib/util/strintmap.c] and the
    [memptr] comparisons of [membuffer.c] it searches with.

    The search is a binary search over a table that must be sorted by the
    comparison used.  [map_str_to_int_correct] shows that on a sorted table it
    finds exactly what a linear scan finds, in every mode. *)

From S2P Require Import Prelude CString MemBuffer.

Record str_int_entry := StrInt { name : list Z; id : Z }.

(** ** Operations *)

Definition memptr_cmp (m : memptr) (s : list Z) : Z :=
  let cmp := strncmp (mp_buf m) s (mp_length m) in
  if (cmp =? 0) && (mp_length m <? strlen s) then -1 else cmp.

Definition memptr_cmp_nocase (m : memptr) (s : list Z) : Z :=
  let cmp := strncasecmp (mp_buf m) s (mp_length m) in
  if (cmp =? 0) && (mp_length m <? strlen s) then -1 else cmp.

(** The [while (top <= bot)] loop; [None] when the fuel runs out or the table
    is read out of range. *)
Fixpoint search_loop (fuel : nat) (cmp : list Z -> Z) (table : list str_int_entry)
    (top bot : Z) : option Z :=
  match fuel with
  | O => None
  | S fuel' =>
      if top <=? bot then
        let mid := (top + bot) / 2 in
        e ← table !! Z.to_nat mid;
        if 0 <? cmp (name e) then search_loop fuel' cmp table (mid + 1) bot
        else if cmp (name e) <? 0 then search_loop fuel' cmp table top (mid - 1)
        else Some mid
      else Some (-1)
  end.

Definition map_str_to_int (nm : list Z) (name_len : Z)
    (table : list str_int_entry) (num_entries : Z) (case_sensitive : bool)
    : option Z :=
  let name_ptr := Memptr nm name_len in
  let cmp := if case_sensitive then memptr_cmp name_ptr
             else memptr_cmp_nocase name_ptr in
  search_loop (S (Z.to_nat num_entries)) cmp table 0 (num_entries - 1).

Fixpoint map_int_to_str_from (i : Z) (wanted : Z) (table : list str_int_entry)
    (num_entries : Z) : Z :=
  if num_entries <=? i then -1
  else match table with
       | [] => -1
       | e :: t => if id e =? wanted then i
                   else map_int_to_str_from (i + 1) wanted t num_entries
       end.

Definition map_int_to_str (wanted : Z) (table : list str_int_entry)
    (num_entries : Z) : Z := map_int_to_str_from 0 wanted table num_entries.

(** ** Reference definitions *)

(** Lexicographic comparison of two strings as sequences of bytes. *)
Fixpoint lexcmp (a b : list Z) : Z :=
  match a, b with
  | [], [] => 0
  | [], _ :: _ => -1
  | _ :: _, [] => 1
  | x :: a', y :: b' => if x =? y then lexcmp a' b' else uchar x - uchar y
  end.

Definition key (case_sensitive : bool) (s : list Z) : list Z :=
  if case_sensitive then s else tolower <$> s.

(** A string of non-NUL [char]s. *)
Definition text (s : list Z) : Prop := Forall (fun c => -128 <= c <= 127 /\ c <> 0) s.

Definition textb (s : list Z) : bool :=
  forallb (fun c => (-128 <=? c) && (c <=? 127) && negb (c =? 0)) s.

(** Each entry is below the next one. *)
Fixpoint sortedb (case_sensitive : bool) (table : list str_int_entry) : bool :=
  match table with
  | e :: ((e' :: _) as t) =>
      (lexcmp (key case_sensitive (name e)) (key case_sensitive (name e')) <? 0)
      && sortedb case_sensitive t
  | _ => true
  end.

(** First index whose name equals [s] in the mode of the search. *)
Fixpoint linear_find (case_sensitive : bool) (s : list Z)
    (table : list str_int_entry) (i : Z) : Z :=
  match table with
  | [] => -1
  | e :: t => if decide (key case_sensitive s = key case_sensitive (name e)) then i
              else linear_find case_sensitive s t (i + 1)
  end.

(** ** The comparison is the lexicographic order *)

Lemma textb_text s : textb s = true -> text s.
Proof.
  unfold textb, text. rewrite forallb_forall, Forall_forall. intros H c Hc.
  apply list_elem_of_In in Hc.
  specialize (H c Hc). zbool.
  repeat match goal with H : _ && _ = true |- _ => apply andb_true_iff in H as [] end.
  zbool. lia.
Qed.

Lemma text_tolower s : text s -> text (tolower <$> s).
Proof.
  unfold text. rewrite Forall_fmap. intros Hs. eapply Forall_impl; [exact Hs|].
  intros c [H H0].
  simpl. unfold tolower, isupper.
  destruct (Z.leb_spec 65 c), (Z.leb_spec c 90); simpl; lia.
Qed.

Lemma text_key cse s : text s -> text (key cse s).
Proof. destruct cse; [done|apply text_tolower]. Qed.

Lemma text_strlen s : text s -> strlen s = zlen s.
Proof.
  intros H. unfold strlen. rewrite c_str_id; [done|].
  eapply Forall_impl; [exact H|]. by intros c [].
Qed.

Lemma uchar_pos c : -128 <= c <= 127 -> c <> 0 -> 0 < uchar c.
Proof.
  intros H H0. unfold uchar, wrapU. change (2 ^ 8) with 256.
  destruct (Z.lt_ge_cases c 0).
  - rewrite <- (Z.mod_add c 1) by lia. rewrite Z.mod_small; lia.
  - rewrite Z.mod_small; lia.
Qed.

Lemma uchar_eq_inj x y :
  -128 <= x <= 127 -> -128 <= y <= 127 -> uchar x = uchar y -> x = y.
Proof.
  unfold uchar, wrapU. change (2 ^ 8) with 256. intros Hx Hy H.
  pose proof (Z.div_mod x 256 ltac:(lia)). pose proof (Z.div_mod y 256 ltac:(lia)).
  pose proof (Z.mod_pos_bound x 256 ltac:(lia)).
  pose proof (Z.mod_pos_bound y 256 ltac:(lia)).
  assert (x / 256 = -1 \/ x / 256 = 0) by lia.
  assert (y / 256 = -1 \/ y / 256 = 0) by lia. lia.
Qed.

Lemma strncmp_lex a k b :
  text a -> text b ->
  let r := strncmp_nat (length a) (a ++ k) b in
  Z.sgn (if (r =? 0) && (zlen a <? zlen b) then -1 else r)
  = Z.sgn (lexcmp a b).
Proof.
  intros Ha. revert b. induction Ha as [|x a [Hx Hx0] Ha IH]; intros b Hb; simpl.
  { destruct b as [|y b]; simpl; [done|].
    destruct (Z.ltb_spec (zlen (@nil Z)) (zlen (y :: b))); [done|].
    rewrite zlen_cons, zlen_nil in *. pose proof (zlen_nonneg b). lia. }
  destruct Hb as [|y b [Hy Hy0] Hb]; simpl.
  - destruct (Z.eqb_spec x 0); [done|]. change (uchar 0) with 0.
    pose proof (uchar_pos x Hx Hx0).
    destruct (Z.eqb_spec (uchar x - 0) 0); simpl; lia.
  - destruct (Z.eqb_spec x y) as [->|Hxy].
    + destruct (Z.eqb_spec y 0); [done|]. rewrite !zlen_cons, <- IH by done.
      by destruct (Z.ltb_spec (1 + zlen a) (1 + zlen b)),
        (Z.ltb_spec (zlen a) (zlen b)); try lia.
    + destruct (Z.eqb_spec (uchar x - uchar y) 0); [|done].
      destruct Hxy. apply uchar_eq_inj; lia.
Qed.

Lemma strcmp_lex a b :
  text a -> text b -> Z.sgn (strncmp_nat (S (length a)) a b) = Z.sgn (lexcmp a b).
Proof.
  intros Ha. revert b. induction Ha as [|x a [Hx Hx0] Ha IH]; intros b Hb;
    destruct Hb as [|y b [Hy Hy0] Hb]; cbn [strncmp_nat length lexcmp]; [done|..].
  - cbn [head default from_option Datatypes.id tail]. destruct (Z.eqb_spec 0 y); [done|]. change (uchar 0) with 0.
    pose proof (uchar_pos y Hy Hy0). lia.
  - cbn [head default from_option Datatypes.id tail]. destruct (Z.eqb_spec x 0); [done|]. change (uchar 0) with 0.
    pose proof (uchar_pos x Hx Hx0). lia.
  - cbn [head default from_option Datatypes.id tail]. destruct (Z.eqb_spec x y) as [->|Hxy]; [|done].
    destruct (Z.eqb_spec y 0); [done|]. by apply IH.
Qed.

Lemma lexcmp_refl a : lexcmp a a = 0.
Proof. induction a as [|x a IH]; simpl; [done|]. by rewrite Z.eqb_refl. Qed.

Lemma lexcmp_eq a b : text a -> text b -> lexcmp a b = 0 -> a = b.
Proof.
  intros Ha. revert b. induction Ha as [|x a [Hx _] Ha IH]; intros b Hb H;
    destruct Hb as [|y b [Hy _] Hb]; simpl in *; try done.
  destruct (Z.eqb_spec x y) as [->|Hxy]; [by rewrite (IH b)|].
  destruct Hxy. apply uchar_eq_inj; lia.
Qed.

Lemma lexcmp_antisym a b : Z.sgn (lexcmp b a) = - Z.sgn (lexcmp a b).
Proof.
  revert b. induction a as [|x a IH]; intros [|y b]; simpl; try done.
  rewrite Z.eqb_sym. destruct (Z.eqb_spec x y); [done|]. lia.
Qed.

Lemma lexcmp_trans a b c :
  lexcmp a b < 0 -> lexcmp b c < 0 -> lexcmp a c < 0.
Proof.
  revert b c. induction a as [|x a IH]; intros [|y b] [|z c]; simpl; try done.
  destruct (Z.eqb_spec x y), (Z.eqb_spec y z), (Z.eqb_spec x z);
    subst; eauto; try congruence; lia.
Qed.

Lemma memptr_cmp_key nm n s cse :
  0 <= n <= zlen nm -> text (ztake n nm) -> text s ->
  Z.sgn ((if cse : bool then memptr_cmp else memptr_cmp_nocase) (Memptr nm n) s)
  = Z.sgn (lexcmp (key cse (ztake n nm)) (key cse s)).
Proof.
  intros Hn Hnm Hs. set (a := ztake n nm) in *. set (k := zdrop n nm).
  assert (nm = a ++ k) as Hak by (symmetry; apply ztake_zdrop).
  assert (Hla : Z.to_nat n = length a).
  { assert (zlen a = n) by (apply zlen_ztake; lia). unfold zlen in *. lia. }
  assert (Hz : zlen a = n) by (apply zlen_ztake; lia).
  destruct cse; unfold memptr_cmp, memptr_cmp_nocase, strncasecmp, strncmp;
    simpl; rewrite Hla, Hak, (text_strlen s), <- Hz by done.
  - by apply strncmp_lex.
  - rewrite fmap_app, <- (length_fmap tolower a).
    replace (zlen a) with (zlen (tolower <$> a))
      by (unfold zlen; by rewrite length_fmap).
    replace (zlen s) with (zlen (tolower <$> s))
      by (unfold zlen; by rewrite length_fmap).
    by apply strncmp_lex; apply text_tolower.
Qed.

Lemma strcasecmp_key a b :
  text a -> text b -> Z.sgn (strcasecmp a b) = Z.sgn (lexcmp (key false a) (key false b)).
Proof.
  intros Ha Hb. unfold strcasecmp, strncasecmp, strncmp, key.
  assert (forall s, text s -> c_str s = s) as Hc.
  { intros s Hs. apply c_str_id. eapply Forall_impl; [exact Hs|]. by intros c []. }
  rewrite (text_strlen a), !Hc by done.
  replace (Z.to_nat (zlen a + 1)) with (S (length (tolower <$> a)))
    by (rewrite length_fmap; unfold zlen; lia).
  by apply strcmp_lex; apply text_tolower.
Qed.

(** ** The binary search *)

Lemma search_loop_spec (cmp : list Z -> Z) table :
  (forall i j e e', (i < j)%nat -> table !! i = Some e -> table !! j = Some e' ->
     0 <= cmp (name e') -> 0 < cmp (name e)) ->
  forall fuel top bot, 0 <= top -> bot < zlen table ->
  Z.max 0 (bot - top + 1) < Z.of_nat fuel ->
  (forall i e, table !! i = Some e -> Z.of_nat i < top -> 0 < cmp (name e)) ->
  (forall i e, table !! i = Some e -> bot < Z.of_nat i -> cmp (name e) < 0) ->
  exists r, search_loop fuel cmp table top bot = Some r /\
  ((r = -1 /\ forall i e, table !! i = Some e -> cmp (name e) <> 0) \/
   (0 <= r /\ exists e, table !! Z.to_nat r = Some e /\ cmp (name e) = 0)).
Proof.
  intros Hmono. induction fuel as [|fuel IH]; intros top bot H0 Hbot Hf Hlo Hhi;
    [lia|]. simpl.
  destruct (Z.leb_spec top bot) as [Hle|Hgt].
  2:{ exists (-1). split; [done|]. left. split; [done|]. intros i e He.
      destruct (Z.lt_ge_cases (Z.of_nat i) top); [specialize (Hlo i e)|
        specialize (Hhi i e)]; intuition lia. }
  set (mid := (top + bot) / 2).
  assert (Hmid : top <= mid <= bot).
  { unfold mid. split; [apply Z.div_le_lower_bound|apply Z.div_le_upper_bound]; lia. }
  clearbody mid.
  destruct (lookup_lt_is_Some_2 table (Z.to_nat mid)) as [e He].
  { unfold zlen in *. lia. }
  rewrite He. simpl.
  destruct (Z.ltb_spec 0 (cmp (name e))).
  - apply IH; [lia|lia|lia| |done]. intros i e' He' Hi.
    destruct (decide (i = Z.to_nat mid)) as [->|]; [by simplify_eq|].
    eapply Hmono; [|exact He'|exact He|lia]. lia.
  - destruct (Z.ltb_spec (cmp (name e)) 0).
    + apply IH; [lia|lia|lia|done|]. intros i e' He' Hi.
      destruct (decide (i = Z.to_nat mid)) as [->|]; [by simplify_eq|].
      apply Z.nle_gt. intros Hc.
      assert (0 < cmp (name e)) by (eapply (Hmono (Z.to_nat mid) i); eauto; lia).
      lia.
    + exists mid. split; [done|]. right. split; [lia|]. exists e. split; [done|]. lia.
Qed.

Lemma sortedb_lt cse table i j e e' :
  sortedb cse table = true -> (i < j)%nat ->
  table !! i = Some e -> table !! j = Some e' ->
  lexcmp (key cse (name e)) (key cse (name e')) < 0.
Proof.
  revert i j e e'. induction table as [|x t IH]; intros i j e e' Hs Hij Hi Hj;
    [done|].
  destruct j as [|j]; [lia|]. simpl in Hj.
  destruct t as [|y t]; [done|]. simpl in Hs.
  apply andb_true_iff in Hs as [Hxy Hs]. zbool.
  destruct i as [|i]; simpl in Hi; simplify_eq.
  - destruct j as [|j]; simpl in Hj; simplify_eq; [done|].
    eapply lexcmp_trans; [exact Hxy|]. apply (IH 0%nat (S j)); auto. lia.
  - apply (IH i j); auto. lia.
Qed.

Lemma linear_find_at cse s table i n e :
  table !! n = Some e -> key cse s = key cse (name e) ->
  (forall j e', (j < n)%nat -> table !! j = Some e' ->
     key cse s <> key cse (name e')) ->
  linear_find cse s table i = i + Z.of_nat n.
Proof.
  revert i n. induction table as [|x t IH]; intros i n Hn He Hbefore; [done|].
  simpl. destruct n as [|n]; simpl in Hn; simplify_eq.
  - rewrite decide_True by done. lia.
  - rewrite decide_False by (by apply (Hbefore 0%nat); [lia|]).
    rewrite (IH _ n); [lia|done|done|].
    intros j e' Hj Hl. by apply (Hbefore (S j)); [lia|].
Qed.

Lemma linear_find_none cse s table i :
  (forall j e, table !! j = Some e -> key cse s <> key cse (name e)) ->
  linear_find cse s table i = -1.
Proof.
  revert i. induction table as [|x t IH]; intros i H; simpl; [done|].
  rewrite decide_False by (by apply (H 0%nat)).
  apply IH. intros j e Hj. by apply (H (S j)).
Qed.

Definition table_ok (cse : bool) (table : list str_int_entry) : bool :=
  sortedb cse table && forallb (fun e => textb (name e)) table.

(** A binary search in a sorted table, with a comparison that orders [s]
    against the names, finds what a linear scan finds. *)
Lemma search_sorted (cmp : list Z -> Z) s table cse :
  table_ok cse table = true -> text s ->
  (forall t, text t -> Z.sgn (cmp t) = Z.sgn (lexcmp (key cse s) (key cse t))) ->
  search_loop (S (Z.to_nat (zlen table))) cmp table 0 (zlen table - 1)
  = Some (linear_find cse s table 0).
Proof.
  unfold table_ok. intros Hok Hnm Hcmp0. apply andb_true_iff in Hok as [Hs Ht].
  assert (Htext : forall i e, table !! i = Some e -> text (name e)).
  { intros i e He. apply textb_text. rewrite forallb_forall in Ht.
    apply Ht, list_elem_of_In, list_elem_of_lookup. eauto. }
  assert (Hcmp : forall i e, table !! i = Some e ->
    Z.sgn (cmp (name e)) = Z.sgn (lexcmp (key cse s) (key cse (name e)))) by eauto.
  assert (Heq : forall i e, table !! i = Some e ->
    cmp (name e) = 0 <-> key cse s = key cse (name e)).
  { intros i e He. specialize (Hcmp i e He). split; intros H.
    - apply lexcmp_eq; [by apply text_key|by eapply text_key, Htext|lia].
    - rewrite H, lexcmp_refl in Hcmp. lia. }
  assert (Hlt : forall i j e e', (i < j)%nat -> table !! i = Some e ->
    table !! j = Some e' -> 0 <= cmp (name e') -> 0 < cmp (name e)).
  { intros i j e e' Hij He He' H.
    pose proof (sortedb_lt _ _ _ _ _ _ Hs Hij He He') as Hee.
    pose proof (Hcmp i e He) as H1. pose proof (Hcmp j e' He') as H2.
    pose proof (lexcmp_antisym (key cse s) (key cse (name e))) as H3.
    pose proof (lexcmp_antisym (key cse s) (key cse (name e'))) as H4.
    destruct (Z.eq_dec (cmp (name e')) 0) as [H0|H0].
    - apply (Heq j e' He') in H0. rewrite <- H0 in Hee. lia.
    - assert (lexcmp (key cse (name e')) (key cse s) < 0) as Hb by lia.
      pose proof (lexcmp_trans _ _ _ Hee Hb). lia. }
  destruct (search_loop_spec cmp table Hlt (S (Z.to_nat (zlen table))) 0
    (zlen table - 1)) as (r & Hr & Hcase); try (pose proof (zlen_nonneg table); lia).
  { intros i e He ?. apply lookup_lt_Some in He. unfold zlen in *. lia. }
  rewrite Hr. f_equal. destruct Hcase as [[-> Hno]|(Hr0 & e & He & H0)].
  - symmetry. apply linear_find_none. intros j e He Hk.
    by apply (Hno j e He), (Heq j e He).
  - rewrite (linear_find_at cse s table 0 (Z.to_nat r) e); [lia|done|by apply (Heq _ _ He)|].
    intros j e' Hj He' Hk. apply (Heq j e' He') in Hk.
    pose proof (Hlt _ _ _ _ Hj He' He ltac:(lia)). lia.
Qed.

(** [map_str_to_int] on a sorted table: the search and the linear scan agree. *)
Lemma map_str_to_int_linear nm n table cse :
  table_ok cse table = true -> 0 <= n <= zlen nm -> text (ztake n nm) ->
  map_str_to_int nm n table (zlen table) cse
  = Some (linear_find cse (ztake n nm) table 0).
Proof.
  intros Hok Hn Hnm. unfold map_str_to_int. apply search_sorted; [done..|].
  intros t Ht. rewrite <- memptr_cmp_key by done. by destruct cse.
Qed.

(** ** Properties *)

(** On a table sorted by the comparison in use, the binary search
    [map_str_to_int] terminates, never reads outside the table, and returns
    the index a linear scan for an equal name returns ([-1] when there is
    none), with or without case. *)
Theorem map_str_to_int_correct nm n table cse :
  table_ok cse table = true -> 0 <= n <= zlen nm -> text (ztake n nm) ->
  map_str_to_int nm n table (zlen table) cse
  = Some (linear_find cse (ztake n nm) table 0).
Proof. apply map_str_to_int_linear. Qed.

Example map_str_to_int_correct_witness :
  map_str_to_int (cs "Host: x") 4 [StrInt (cs "EXT") 6; StrInt (cs "HOST") 7] 2 false
  = Some 1.
Proof.
  apply (map_str_to_int_correct (cs "Host: x") 4
    [StrInt (cs "EXT") 6; StrInt (cs "HOST") 7] false).
  - reflexivity.
  - vm_compute; split; discriminate.
  - apply textb_text. reflexivity.
Defined.
