(* ===== verification/HttpTables.v ===== *)
(** The tables of [upnp/src/genlib/net/http/httpparser.c] (methods, header
    names) and of [statcodes.c] (reason phrases), with their lookups.

    The header table is sorted for the case-insensitive search, so every
    header is found.  The method table is not sorted: "POST" and "PUT" follow
    "UNSUBSCRIBE", and [put_method_not_found] shows that the binary search
    never finds "PUT". *)

From S2P Require Import Prelude CString MemBuffer StrIntMap.

(** ** Identifiers *)

Definition HTTP_OK : Z := 200.

Definition HTTPMETHOD_PUT := 0.
Definition HTTPMETHOD_DELETE := 1.
Definition HTTPMETHOD_GET := 2.
Definition HTTPMETHOD_HEAD := 3.
Definition HTTPMETHOD_POST := 4.
Definition HTTPMETHOD_MPOST := 5.
Definition HTTPMETHOD_SUBSCRIBE := 6.
Definition HTTPMETHOD_UNSUBSCRIBE := 7.
Definition HTTPMETHOD_NOTIFY := 8.
Definition HTTPMETHOD_MSEARCH := 9.
Definition HTTPMETHOD_UNKNOWN := 10.
Definition SOAPMETHOD_POST := 11.
Definition HTTPMETHOD_SIMPLEGET := 12.

Definition HDR_UNKNOWN := -1.
Definition HDR_CACHE_CONTROL := 1.
Definition HDR_CALLBACK := 2.
Definition HDR_CONTENT_LENGTH := 3.
Definition HDR_CONTENT_TYPE := 4.
Definition HDR_DATE := 5.
Definition HDR_EXT := 6.
Definition HDR_HOST := 7.
Definition HDR_LOCATION := 11.
Definition HDR_MAN := 12.
Definition HDR_MX := 13.
Definition HDR_NT := 14.
Definition HDR_NTS := 15.
Definition HDR_SERVER := 16.
Definition HDR_SEQ := 17.
Definition HDR_SID := 18.
Definition HDR_SOAPACTION := 19.
Definition HDR_ST := 20.
Definition HDR_TIMEOUT := 21.
Definition HDR_TRANSFER_ENCODING := 22.
Definition HDR_USN := 23.
Definition HDR_USER_AGENT := 24.
Definition HDR_ACCEPT := 25.
Definition HDR_ACCEPT_ENCODING := 26.
Definition HDR_ACCEPT_CHARSET := 27.
Definition HDR_ACCEPT_LANGUAGE := 28.
Definition HDR_ACCEPT_RANGE := 29.
Definition HDR_CONTENT_ENCODING := 30.
Definition HDR_CONTENT_LANGUAGE := 31.
Definition HDR_CONTENT_LOCATION := 32.
Definition HDR_CONTENT_RANGE := 33.
Definition HDR_IF_RANGE := 34.
Definition HDR_RANGE := 35.
Definition HDR_TE := 36.

(** ** Tables *)

Definition NUM_HTTP_METHODS := 11.
Definition Http_Method_Table : list str_int_entry := [
  StrInt (cs "DELETE") HTTPMETHOD_DELETE;
  StrInt (cs "GET") HTTPMETHOD_GET;
  StrInt (cs "HEAD") HTTPMETHOD_HEAD;
  StrInt (cs "M-POST") HTTPMETHOD_MPOST;
  StrInt (cs "M-SEARCH") HTTPMETHOD_MSEARCH;
  StrInt (cs "NOTIFY") HTTPMETHOD_NOTIFY;
  StrInt (cs "POST") HTTPMETHOD_POST;
  StrInt (cs "SUBSCRIBE") HTTPMETHOD_SUBSCRIBE;
  StrInt (cs "UNSUBSCRIBE") HTTPMETHOD_UNSUBSCRIBE;
  StrInt (cs "POST") SOAPMETHOD_POST;
  StrInt (cs "PUT") HTTPMETHOD_PUT].

Definition NUM_HTTP_HEADER_NAMES := 33.
Definition Http_Header_Names : list str_int_entry := [
  StrInt (cs "ACCEPT") HDR_ACCEPT;
  StrInt (cs "ACCEPT-CHARSET") HDR_ACCEPT_CHARSET;
  StrInt (cs "ACCEPT-ENCODING") HDR_ACCEPT_ENCODING;
  StrInt (cs "ACCEPT-LANGUAGE") HDR_ACCEPT_LANGUAGE;
  StrInt (cs "ACCEPT-RANGES") HDR_ACCEPT_RANGE;
  StrInt (cs "CACHE-CONTROL") HDR_CACHE_CONTROL;
  StrInt (cs "CALLBACK") HDR_CALLBACK;
  StrInt (cs "CONTENT-ENCODING") HDR_CONTENT_ENCODING;
  StrInt (cs "CONTENT-LANGUAGE") HDR_CONTENT_LANGUAGE;
  StrInt (cs "CONTENT-LENGTH") HDR_CONTENT_LENGTH;
  StrInt (cs "CONTENT-LOCATION") HDR_CONTENT_LOCATION;
  StrInt (cs "CONTENT-RANGE") HDR_CONTENT_RANGE;
  StrInt (cs "CONTENT-TYPE") HDR_CONTENT_TYPE;
  StrInt (cs "DATE") HDR_DATE;
  StrInt (cs "EXT") HDR_EXT;
  StrInt (cs "HOST") HDR_HOST;
  StrInt (cs "IF-RANGE") HDR_IF_RANGE;
  StrInt (cs "LOCATION") HDR_LOCATION;
  StrInt (cs "MAN") HDR_MAN;
  StrInt (cs "MX") HDR_MX;
  StrInt (cs "NT") HDR_NT;
  StrInt (cs "NTS") HDR_NTS;
  StrInt (cs "RANGE") HDR_RANGE;
  StrInt (cs "SEQ") HDR_SEQ;
  StrInt (cs "SERVER") HDR_SERVER;
  StrInt (cs "SID") HDR_SID;
  StrInt (cs "SOAPACTION") HDR_SOAPACTION;
  StrInt (cs "ST") HDR_ST;
  StrInt (cs "TE") HDR_TE;
  StrInt (cs "TIMEOUT") HDR_TIMEOUT;
  StrInt (cs "TRANSFER-ENCODING") HDR_TRANSFER_ENCODING;
  StrInt (cs "USER-AGENT") HDR_USER_AGENT;
  StrInt (cs "USN") HDR_USN].

(** [method_to_str]; its assertion fails for a method without a name. *)
Definition method_to_str (method : Z) : M (option (list Z)) :=
  let index := map_int_to_str method Http_Method_Table NUM_HTTP_METHODS in
  _ ← assertM (negb (index =? -1));
  mret (if index =? -1 then None
        else name <$> Http_Method_Table !! Z.to_nat index).

(** ** Reason phrases: [statcodes.c]

    The phrases of a class are one literal with a NUL after each; a table
    entry points at the start of its phrase. *)

Definition NUM_1XX_CODES := 2.
Definition Http1xxStr : list Z :=
  cs "Continue" ++ [0] ++
  cs "Switching Protocols" ++ [0].
Definition NUM_2XX_CODES := 7.
Definition Http2xxStr : list Z :=
  cs "OK" ++ [0] ++
  cs "Created" ++ [0] ++
  cs "Accepted" ++ [0] ++
  cs "Non-Authoratative Information" ++ [0] ++
  cs "No Content" ++ [0] ++
  cs "Reset Content" ++ [0] ++
  cs "Partial Content" ++ [0].
Definition NUM_3XX_CODES := 8.
Definition Http3xxStr : list Z :=
  cs "Multiple Choices" ++ [0] ++
  cs "Moved Permanently" ++ [0] ++
  cs "Found" ++ [0] ++
  cs "See Other" ++ [0] ++
  cs "Not Modified" ++ [0] ++
  cs "Use Proxy" ++ [0] ++
  cs "" ++ [0] ++
  cs "Temporary Redirect" ++ [0].
Definition NUM_4XX_CODES := 18.
Definition Http4xxStr : list Z :=
  cs "Bad Request" ++ [0] ++
  cs "Unauthorized" ++ [0] ++
  cs "Payment Required" ++ [0] ++
  cs "Forbidden" ++ [0] ++
  cs "Not Found" ++ [0] ++
  cs "Method Not Allowed" ++ [0] ++
  cs "Not Acceptable" ++ [0] ++
  cs "Proxy Authentication Required" ++ [0] ++
  cs "Request Timeout" ++ [0] ++
  cs "Conflict" ++ [0] ++
  cs "Gone" ++ [0] ++
  cs "Length Required" ++ [0] ++
  cs "Precondition Failed" ++ [0] ++
  cs "Request Entity Too Large" ++ [0] ++
  cs "Request-URI Too Long" ++ [0] ++
  cs "Unsupported Media Type" ++ [0] ++
  cs "Requested Range Not Satisfiable" ++ [0] ++
  cs "Expectation Failed" ++ [0].
Definition NUM_5XX_CODES := 11.
Definition Http5xxStr : list Z :=
  cs "Internal Server Error" ++ [0] ++
  cs "Not Implemented" ++ [0] ++
  cs "Bad Gateway" ++ [0] ++
  cs "Service Unavailable" ++ [0] ++
  cs "Gateway Timeout" ++ [0] ++
  cs "HTTP Version Not Supported" ++ [0] ++
  cs "Variant Also Negotiates" ++ [0] ++
  cs "Insufficient Storage" ++ [0] ++
  cs "Loop Detected" ++ [0] ++
  cs "" ++ [0] ++
  cs "Not Extended" ++ [0].

Record statcodes := Statcodes {
  gInitialized : bool;
  HttpCodes : list (list (list Z))   (* Http1xxCodes ... Http5xxCodes *)
}.

Fixpoint init_table (encoded_str : list Z) (tbl_size : nat) : list (list Z) :=
  match tbl_size with
  | O => []
  | S n => encoded_str :: init_table (zdrop (strlen encoded_str + 1) encoded_str) n
  end.

Definition init_tables : statcodes := Statcodes true [
  init_table Http1xxStr (Z.to_nat NUM_1XX_CODES);
  init_table Http2xxStr (Z.to_nat NUM_2XX_CODES);
  init_table Http3xxStr (Z.to_nat NUM_3XX_CODES);
  init_table Http4xxStr (Z.to_nat NUM_4XX_CODES);
  init_table Http5xxStr (Z.to_nat NUM_5XX_CODES)].

(** Entry [index] of the table of class [k]. *)
Definition code_entry (st : statcodes) (k index : Z) : option (list Z) :=
  t ← HttpCodes st !! Z.to_nat (k - 1); t !! Z.to_nat index.

Definition http_get_code_text (st : statcodes) (statusCode : Z)
    : option (list Z) * statcodes :=
  let st := if gInitialized st then st else init_tables in
  let index := statusCode mod 100 in
  let table_num := statusCode / 100 in
  if (statusCode <? 100) || (600 <=? statusCode) then (None, st)
  else if (table_num =? 1) && (index <? NUM_1XX_CODES)
  then (code_entry st 1 index, st)
  else if (table_num =? 2) && (index <? NUM_2XX_CODES)
  then (code_entry st 2 index, st)
  else if (table_num =? 3) && (index <? NUM_3XX_CODES)
  then (code_entry st 3 index, st)
  else if (table_num =? 4) && (index <? NUM_4XX_CODES)
  then (code_entry st 4 index, st)
  else if (table_num =? 5) && (index <? NUM_5XX_CODES)
  then (code_entry st 5 index, st)
  else (None, st).

(** The status codes and their phrases, as one list. *)
Definition reason_phrases : list (Z * list Z) := [
  (100, cs "Continue");
  (101, cs "Switching Protocols");
  (200, cs "OK");
  (201, cs "Created");
  (202, cs "Accepted");
  (203, cs "Non-Authoratative Information");
  (204, cs "No Content");
  (205, cs "Reset Content");
  (206, cs "Partial Content");
  (300, cs "Multiple Choices");
  (301, cs "Moved Permanently");
  (302, cs "Found");
  (303, cs "See Other");
  (304, cs "Not Modified");
  (305, cs "Use Proxy");
  (306, cs "");
  (307, cs "Temporary Redirect");
  (400, cs "Bad Request");
  (401, cs "Unauthorized");
  (402, cs "Payment Required");
  (403, cs "Forbidden");
  (404, cs "Not Found");
  (405, cs "Method Not Allowed");
  (406, cs "Not Acceptable");
  (407, cs "Proxy Authentication Required");
  (408, cs "Request Timeout");
  (409, cs "Conflict");
  (410, cs "Gone");
  (411, cs "Length Required");
  (412, cs "Precondition Failed");
  (413, cs "Request Entity Too Large");
  (414, cs "Request-URI Too Long");
  (415, cs "Unsupported Media Type");
  (416, cs "Requested Range Not Satisfiable");
  (417, cs "Expectation Failed");
  (500, cs "Internal Server Error");
  (501, cs "Not Implemented");
  (502, cs "Bad Gateway");
  (503, cs "Service Unavailable");
  (504, cs "Gateway Timeout");
  (505, cs "HTTP Version Not Supported");
  (506, cs "Variant Also Negotiates");
  (507, cs "Insufficient Storage");
  (508, cs "Loop Detected");
  (509, cs "");
  (510, cs "Not Extended")].

(** ** Lemmas and properties *)

Lemma header_table_ok : table_ok false Http_Header_Names = true.
Proof. reflexivity. Qed.

Definition statcodes_ok (st : statcodes) : Prop :=
  gInitialized st = true -> st = init_tables.

(** The answer for one code, computed. *)
Definition code_text (c : Z) : option (list Z) :=
  c_str <$> (http_get_code_text init_tables c).1.

Definition phrase_of (c : Z) : option (list Z) :=
  snd <$> head (filter (fun p => p.1 = c) reason_phrases).

Lemma code_text_phrases : map code_text (seqZ 100 500) = map phrase_of (seqZ 100 500).
Proof. vm_compute. reflexivity. Qed.

Lemma phrase_of_out c : c < 100 \/ 600 <= c -> phrase_of c = None.
Proof.
  intros H. unfold phrase_of.
  assert (forall l, Forall (fun p => 100 <= p.1 < 600) l ->
    filter (fun p : Z * list Z => p.1 = c) l = []) as ->; [|done|].
  - induction 1 as [|p l Hp _ IH]; [done|].
    rewrite filter_cons_False; [done|]. simpl. lia.
  - apply Forall_forall. intros p Hp. apply list_elem_of_In in Hp.
    assert (forallb (fun p : Z * list Z => (100 <=? p.1) && (p.1 <? 600))
      reason_phrases = true) as Hall by reflexivity.
    rewrite forallb_forall in Hall. specialize (Hall p Hp). zbool. lia.
Qed.

Lemma code_text_spec st c :
  statcodes_ok st ->
  c_str <$> (http_get_code_text st c).1 = phrase_of c /\
  (http_get_code_text st c).2 = init_tables.
Proof.
  intros Hst.
  assert (http_get_code_text st c = http_get_code_text init_tables c) as ->.
  { unfold http_get_code_text. destruct (gInitialized st) eqn:E; [|done].
    by rewrite (Hst E). }
  split; [|unfold http_get_code_text; simpl; repeat case_match; done].
  destruct (decide (100 <= c < 600)) as [Hc|Hc].
  - pose proof code_text_phrases as H.
    apply (f_equal (fun l => l !! Z.to_nat (c - 100))) in H.
    rewrite !list_lookup_fmap, !lookup_seqZ_lt in H by lia.
    simpl in H. injection H as H. replace (100 + _) with c in H by lia. exact H.
  - rewrite phrase_of_out by lia. unfold http_get_code_text.
    destruct (Z.ltb_spec c 100), (Z.leb_spec 600 c); simpl; done || lia.
Qed.

Lemma phrase_of_bounds c ph :
  phrase_of c = Some ph -> 100 <= c < 600 /\ zlen ph <= 40 /\ c_str ph = ph.
Proof.
  unfold phrase_of. intros H.
  assert (Forall (fun p => 100 <= p.1 < 600 /\ zlen p.2 <= 40 /\ c_str p.2 = p.2) reason_phrases) as Hall.
  { repeat (constructor; [cbn -[zlen c_str]; split; [lia|]; split; [by vm_compute|by vm_compute]|]).
    constructor. }
  destruct (filter _ _) as [|[k q] l] eqn:E; simplify_eq/=.
  assert ((k, ph) ∈ filter (fun p => p.1 = c) reason_phrases) as Hin by (rewrite E; by left).
  apply list_elem_of_filter in Hin as [<- Hin]. rewrite Forall_forall in Hall. by apply (Hall (k, ph)).
Qed.

(** [http_get_code_text] returns, for every [int], the phrase of that code
    in the list of reason phrases and [NULL] for every other code; it fills
    the tables on the first call and leaves them filled. *)
Theorem http_get_code_text_correct st c :
  statcodes_ok st ->
  c_str <$> (http_get_code_text st c).1 = phrase_of c /\
  (http_get_code_text st c).2 = init_tables.
Proof. apply code_text_spec. Qed.

Example http_get_code_text_correct_witness :
  c_str <$> (http_get_code_text (Statcodes false []) 404).1
  = Some (cs "Not Found").
Proof.
  apply (http_get_code_text_correct (Statcodes false []) 404).
  discriminate.
Defined.

(** Header names are recognised without regard to case: the search over
    [Http_Header_Names] returns the index of the entry that equals the name
    ignoring case, and [-1] for a name that is not in the table. *)
Theorem header_lookup_correct nm n :
  0 <= n <= zlen nm -> text (ztake n nm) ->
  map_str_to_int nm n Http_Header_Names NUM_HTTP_HEADER_NAMES false
  = Some (linear_find false (ztake n nm) Http_Header_Names 0).
Proof.
  intros Hn Ht. apply (map_str_to_int_linear nm n Http_Header_Names false); auto.
Qed.

Example header_lookup_correct_witness :
  map_str_to_int (cs "transfer-Encoding: chunked") 17 Http_Header_Names 33 false
  = Some 30.
Proof.
  apply (header_lookup_correct (cs "transfer-Encoding: chunked") 17).
  - vm_compute; split; discriminate.
  - apply textb_text. reflexivity.
Defined.

(** The method table is not sorted, and a request with the method "PUT",
    which the table lists, is not recognised (the parser answers 501); every
    other method of the table is found with its own identifier. *)
Theorem put_method_not_found :
  table_ok true Http_Method_Table = false /\
  StrInt (cs "PUT") HTTPMETHOD_PUT ∈ Http_Method_Table /\
  map_str_to_int (cs "PUT /f HTTP/1.1") 3 Http_Method_Table NUM_HTTP_METHODS true
    = Some (-1) /\
  Forall (fun s => exists i, map_str_to_int (cs s) (zlen (cs s))
      Http_Method_Table NUM_HTTP_METHODS true = Some i /\
      name <$> Http_Method_Table !! Z.to_nat i = Some (cs s))
    ["DELETE"; "GET"; "HEAD"; "M-POST"; "M-SEARCH"; "NOTIFY"; "POST";
     "SUBSCRIBE"; "UNSUBSCRIBE"]%string.
Proof.
  split; [reflexivity|]. split; [repeat (left || right)|].
  split; [reflexivity|]. repeat constructor; eexists; split; reflexivity.
Qed.
