(* ===== verification/FreeList.v ===== *)
(** Free lists of fixed-size blocks: [upnp/src/threadutil/FreeList.c].

    Memory is a store of blocks of one C type (the payload [A]); a block is
    raw, carries the [FreeListNode] link the free list writes over it, or
    holds an object.  [malloc] yields an address outside the store and fails
    when the allocator says so; freeing an address that is not allocated, or
    following a link through a block that carries none, is undefined. *)

From S2P Require Import Prelude.

Abbreviation loc := positive.
(** A pointer; [None] is [NULL]. *)
Abbreviation ptr := (option loc).

Inductive cell (A : Type) : Type :=
| Raw
| FreeNode (next : ptr)
| Obj (a : A).
Arguments Raw {A}.
Arguments FreeNode {A} next.
Arguments Obj {A} a.

Abbreviation store A := (gmap loc (cell A)).

Record FreeList := MkFreeList {
  fl_head : ptr;
  fl_element_size : Z;
  fl_maxFreeListLength : Z;
  fl_freeListLength : Z
}.

Section FreeList.
Context {A : Type}.
Implicit Types (st : store A) (fl : FreeList) (fs : list loc).

(** ** malloc and free *)

Definition malloc st : M (ptr * store A) :=
  ok ← malloc_ok;
  if ok : bool then
    let l := fresh (dom st) in mret (Some l, <[l := Raw]> st)
  else mret (None, st).

Definition free st (p : ptr) : option (store A) :=
  match p with
  | None => Some st
  | Some l => match st !! l with Some _ => Some (delete l st) | None => None end
  end.

(** [p->next] of a [FreeListNode]. *)
Definition free_next st (l : loc) : option ptr :=
  match st !! l with Some (FreeNode n) => Some n | _ => None end.

(** ** Operations *)

Definition FreeListInit (elementSize maxFreeListLength : Z) : Z * FreeList :=
  (0, MkFreeList None elementSize maxFreeListLength 0).

Definition FreeListAlloc st fl : M (ptr * store A * FreeList) :=
  match fl_head fl with
  | Some ret =>
      next ← liftO (free_next st ret);
      mret (Some ret, <[ret := Raw]> st,
            MkFreeList next (fl_element_size fl) (fl_maxFreeListLength fl)
              (fl_freeListLength fl - 1))
  | None => '(ret, st') ← malloc st; mret (ret, st', fl)
  end.

Definition FreeListFree st fl (element : ptr) : option (Z * store A * FreeList) :=
  match element with
  | Some l =>
      if fl_freeListLength fl + 1 <? fl_maxFreeListLength fl then
        match st !! l with
        | Some _ =>
            Some (0, <[l := FreeNode (fl_head fl)]> st,
              MkFreeList (Some l) (fl_element_size fl) (fl_maxFreeListLength fl)
                (fl_freeListLength fl + 1))
        | None => None
        end
      else st' ← free st element; Some (0, st', fl)
  | None => st' ← free st element; Some (0, st', fl)
  end.

(** The [while (free_list->head)] loop; [None] when the fuel runs out. *)
Fixpoint destroy_loop (fuel : nat) st (head : ptr) : option (store A) :=
  match fuel with
  | O => None
  | S fuel' =>
      match head with
      | None => Some st
      | Some l =>
          temp ← free_next st l;
          st' ← free st (Some l);
          destroy_loop fuel' st' temp
      end
  end.

Definition FreeListDestroy st fl : option (Z * store A * FreeList) :=
  st' ← destroy_loop (S (size st)) st (fl_head fl);
  Some (0, st', MkFreeList None (fl_element_size fl) (fl_maxFreeListLength fl) 0).

(** ** Invariant *)

(** The blocks [fs] form the chain that starts at [p]. *)
Fixpoint chain st (p : ptr) fs : Prop :=
  match fs with
  | [] => p = None
  | l :: fs' =>
      p = Some l /\ exists next, st !! l = Some (FreeNode next) /\ chain st next fs'
  end.

Record fl_rep st fl fs : Prop := {
  fr_chain : chain st (fl_head fl) fs;
  fr_nodup : NoDup fs;
  fr_length : fl_freeListLength fl = zlen fs;
  fr_bound : zlen fs <= Z.max 0 (fl_maxFreeListLength fl - 1)
}.

(** ** Lemmas *)

Lemma chain_frame st st' p fs :
  chain st p fs -> (forall l, l ∈ fs -> st' !! l = st !! l) -> chain st' p fs.
Proof.
  revert p. induction fs as [|l fs IH]; intros p H Hl; simpl in *; [done|].
  destruct H as [-> (n & Hn & Hc)]. split; [done|]. exists n.
  split; [rewrite Hl; [done|by left]|]. apply IH; [done|].
  intros k Hk. apply Hl. by right.
Qed.

Lemma chain_free st p fs l : chain st p fs -> l ∈ fs ->
  exists n, st !! l = Some (FreeNode n).
Proof.
  revert p. induction fs as [|k fs IH]; intros p H Hl; simpl in *;
    [by apply elem_of_nil in Hl|].
  destruct H as [_ (n & Hn & Hc)]. apply elem_of_cons in Hl as [->|Hl]; eauto.
Qed.

(** A block that is not a free-list link may change, appear or go. *)
Lemma fl_rep_frame st st' fl fs :
  fl_rep st fl fs -> (forall l, l ∈ fs -> st' !! l = st !! l) -> fl_rep st' fl fs.
Proof. intros [Hc Hn Hl Hb] H. split; try done. by eapply chain_frame. Qed.

Lemma fl_rep_frame_insert st fl fs l c :
  fl_rep st fl fs -> l ∉ fs -> fl_rep (<[l := c]> st) fl fs.
Proof.
  intros H Hl. eapply fl_rep_frame; [done|]. intros k Hk.
  rewrite lookup_insert_ne; [done|]. congruence.
Qed.

Lemma fl_rep_not_free st fl fs l :
  fl_rep st fl fs -> (forall n, st !! l <> Some (FreeNode n)) -> l ∉ fs.
Proof. intros [Hc _ _ _] H Hl. destruct (chain_free _ _ _ _ Hc Hl). naive_solver. Qed.

Lemma FreeListInit_rep st es mx :
  fl_rep st (FreeListInit es mx).2 [].
Proof. split; simpl; [done|constructor|done|unfold zlen; simpl; lia]. Qed.

(** What an allocation yields: a block of the free list, or a new one. *)
Lemma alloc_runs md st fl fs :
  fl_rep st fl fs ->
  runs md (FreeListAlloc st fl) (fun '(p, st', fl') =>
    match p with
    | Some l => st' = <[l := Raw]> st /\
        exists fs', fl_rep st' fl' fs' /\ (l ∉ fs') /\
          (((exists n, st !! l = Some (FreeNode n)) /\ fs = (l :: fs')) \/
           (st !! l = None /\ fs = fs'))
    | None => md <> Lucky /\ st' = st /\ fl' = fl
    end).
Proof.
  intros Hr. pose proof Hr as [Hc Hn Hl Hb]. unfold FreeListAlloc.
  destruct fs as [|l fs]; simpl in Hc.
  - rewrite Hc. mstep. unfold malloc. msteps; [|done].
    assert (st !! fresh (dom st) = None) as Hfr
      by (apply not_elem_of_dom, is_fresh).
    split; [done|]. exists [].
    split; [by apply fl_rep_frame_insert; [|apply not_elem_of_nil]|].
    split; [by apply not_elem_of_nil|by right].
  - destruct Hc as [-> (n & Hn' & Hc)]. unfold free_next. rewrite Hn'.
    mstep. eapply runs_liftO; [done|]. apply runs_ret. split; [done|].
    apply NoDup_cons in Hn as [Hnl Hn]. exists fs. rewrite zlen_cons in *.
    split; [|split; [done|left; eauto]].
    split; simpl; [|done|lia|lia]. eapply chain_frame; [done|].
    intros k Hk. rewrite lookup_insert_ne; [done|]. congruence.
Qed.

Lemma free_spec st fl fs l c :
  fl_rep st fl fs -> st !! l = Some c -> l ∉ fs ->
  exists st' fl' fs', FreeListFree st fl (Some l) = Some (0, st', fl') /\
    fl_rep st' fl' fs' /\ (forall k, k <> l -> st' !! k = st !! k) /\
    (fs' = l :: fs \/ (fs' = fs /\ st' !! l = None)).
Proof.
  intros [Hc Hn Hl Hb] Hst Hnot. unfold FreeListFree.
  destruct (Z.ltb_spec (fl_freeListLength fl + 1) (fl_maxFreeListLength fl)).
  - rewrite Hst. eexists _, _, (l :: fs). split; [done|]. split; [|split; [|by left]].
    + split; simpl; [|by constructor|rewrite zlen_cons; lia|rewrite zlen_cons; lia].
      split; [done|]. eexists. rewrite lookup_insert_eq. split; [done|].
      eapply chain_frame; [done|]. intros k Hk. rewrite lookup_insert_ne; [done|].
      congruence.
    + intros k Hk. by rewrite lookup_insert_ne by congruence.
  - simpl. rewrite Hst. simpl. eexists _, _, fs. split; [done|].
    split; [|split].
    + apply (fl_rep_frame st); [by split|]. intros k Hk.
      rewrite lookup_delete_ne; [done|]. congruence.
    + intros k Hk. by rewrite lookup_delete_ne by congruence.
    + right. split; [done|]. apply lookup_delete_eq.
Qed.

Lemma destroy_loop_spec fuel st p fs :
  chain st p fs -> NoDup fs -> (length fs < fuel)%nat ->
  destroy_loop fuel st p = Some (foldl (fun s l => delete l s) st fs).
Proof.
  revert fuel st p. induction fs as [|l fs IH]; intros fuel st p Hc Hn Hf;
    (destruct fuel as [|fuel]; [simpl in Hf; lia|]); simpl in *.
  { by subst. }
  destruct Hc as [-> (n & Hl & Hc)]. unfold free_next. rewrite Hl. simpl.
  apply NoDup_cons in Hn as [Hnl Hn]. apply IH; [|done|lia].
  eapply chain_frame; [done|]. intros k Hk. rewrite lookup_delete_ne; [done|].
  congruence.
Qed.

Lemma chain_size st p fs : chain st p fs -> NoDup fs -> (length fs <= size st)%nat.
Proof.
  intros Hc Hn. rewrite <- size_dom, <- (size_list_to_set (C := gset loc)) by done.
  apply subseteq_size. intros l Hl. apply elem_of_list_to_set in Hl.
  apply elem_of_dom. destruct (chain_free _ _ _ _ Hc Hl). eauto.
Qed.

Lemma lookup_foldl_delete st fs l :
  foldl (fun s l => delete l s) st fs !! l
  = if decide (l ∈ fs) then None else st !! l.
Proof.
  revert st. induction fs as [|k fs IH]; intros st; cbn [foldl].
  - rewrite decide_False; [done|]. apply not_elem_of_nil.
  - rewrite IH. destruct (decide (l ∈ fs)).
    + rewrite decide_True; [done|]. by right.
    + destruct (decide (l = k)) as [->|].
      * rewrite lookup_delete_eq, decide_True; [done|]. by left.
      * rewrite lookup_delete_ne by congruence. rewrite decide_False; [done|].
        intros [?|?]%elem_of_cons; done.
Qed.

(** ** Objects allocated through a free list

    [own] are the live objects: distinct blocks, each holding its value, none
    of them cached by the free list.  Every block that is allocated is one of
    the two, so none has leaked. *)

Definition accounted st fs (own : list (loc * A)) : Prop :=
  forall l, is_Some (st !! l) -> l ∈ fs \/ l ∈ own.*1.

Definition objs_ok st fl (own : list (loc * A)) : Prop :=
  (exists fs, fl_rep st fl fs /\ accounted st fs own) /\ NoDup own.*1 /\
  Forall (fun i => st !! i.1 = Some (Obj i.2)) own.

#[export] Instance objs_ok_perm st fl :
  Proper ((≡ₚ) ==> iff) (objs_ok st fl).
Proof.
  intros l k H. unfold objs_ok, accounted. setoid_rewrite (elem_of_Permutation_proper _ _ _ (fmap_Permutation fst _ _ H)).
  by rewrite H.
Qed.

Lemma objs_ok_empty es mx : objs_ok ∅ (FreeListInit es mx).2 [].
Proof.
  split; [exists []; split; [apply FreeListInit_rep|]|split; constructor].
  intros l Hl. rewrite lookup_empty in Hl. by destruct Hl.
Qed.
(** With nothing on the free list, the store holds just the objects. *)
Lemma accounted_dom st own : dom st = list_to_set own.*1 -> accounted st [] own.
Proof.
  intros H l Hl. right. apply (elem_of_list_to_set (C := gset loc)). rewrite <- H.
  by apply elem_of_dom.
Qed.

Lemma objs_ok_live st fl own i :
  objs_ok st fl own -> i ∈ own -> st !! i.1 = Some (Obj i.2).
Proof. intros (_ & _ & H) Hi. rewrite Forall_forall in H. auto. Qed.

Lemma objs_alloc md st fl own a :
  objs_ok st fl own ->
  runs md (FreeListAlloc st fl) (fun '(p, st', fl') =>
    match p with
    | Some l => objs_ok (<[l := Obj a]> st') fl' ((l, a) :: own)
    | None => md <> Lucky /\ st' = st /\ fl' = fl
    end).
Proof.
  intros ((fs & Hf & Ha) & Hnd & Ho). eapply runs_mono; [by apply alloc_runs|].
  intros [[[l|] st'] fl']; [|done]. intros (-> & fs' & Hf' & Hl & Hcase).
  rewrite Forall_forall in Ho.
  assert (forall i, i ∈ own -> i.1 <> l) as Hne.
  { intros i Hi <-. apply Ho in Hi. destruct Hcase as [[[n Hn] _]|[Hn _]]; congruence. }
  split; [exists fs'; split; [by apply fl_rep_frame_insert|]|split].
  - intros k Hk. rewrite fmap_cons. destruct (decide (k = l)) as [->|Hkl]; [right; by left|].
    rewrite !lookup_insert_ne in Hk by congruence. destruct (Ha k Hk) as [Hk'|]; [|right; by right].
    destruct Hcase as [[_ ->]|[_ ->]]; [|by left].
    apply elem_of_cons in Hk' as [->|]; [done|by left].
  - rewrite fmap_cons. constructor; [|done]. intros (i & Hi & Hin)%list_elem_of_fmap.
    by eapply Hne.
  - apply Forall_cons. split; [simpl; by rewrite lookup_insert_eq|].
    apply Forall_forall. intros i Hi. pose proof (Hne i Hi).
    rewrite !lookup_insert_ne by congruence. auto.
Qed.

Lemma objs_free st fl own l a :
  objs_ok st fl ((l, a) :: own) ->
  exists st' fl', FreeListFree st fl (Some l) = Some (0, st', fl') /\
    objs_ok st' fl' own.
Proof.
  intros ((fs & Hf & Ha) & Hnd & Ho). rewrite fmap_cons in Hnd.
  apply NoDup_cons in Hnd as [Hl Hnd]. apply Forall_cons in Ho as [Hla Ho].
  simpl in *.
  destruct (free_spec st fl fs l (Obj a)) as (st' & fl' & fs' & E & Hf' & Hfr & Hcase);
    [done|done| |].
  { eapply fl_rep_not_free; [done|]. intros n. by rewrite Hla. }
  exists st', fl'. split; [done|]. split; [exists fs'; split; [done|]|split; [done|]].
  { intros k Hk. destruct (decide (k = l)) as [->|Hkl].
    - destruct Hcase as [->|[_ E']]; [left; by left|]. rewrite E' in Hk. by destruct Hk.
    - rewrite Hfr in Hk by done. destruct (Ha k Hk) as [Hk'|[->|Hk']%elem_of_cons]; [|done|by right].
      left. destruct Hcase as [->|[-> _]]; [by right|done]. }
  rewrite Forall_forall in *. intros i Hi. rewrite Hfr; [auto|]. intros <-.
  by apply Hl, list_elem_of_fmap_2.
Qed.

Lemma objs_destroy st fl own :
  objs_ok st fl own ->
  exists st' fl', FreeListDestroy st fl = Some (0, st', fl') /\
    objs_ok st' fl' own.
Proof.
  intros ((fs & Hf & Ha) & Hnd & Ho). pose proof Hf as [Hc Hn _ _]. unfold FreeListDestroy.
  rewrite (destroy_loop_spec _ _ _ fs Hc Hn)
    by (pose proof (chain_size _ _ _ Hc Hn); lia).
  eexists _, _. split; [done|]. split; [|split; [done|]].
  - exists []. split; [split; simpl; [done|constructor|done|rewrite zlen_nil; lia]|].
    intros k Hk. rewrite lookup_foldl_delete in Hk. destruct (decide (k ∈ fs)); [by destruct Hk|].
    right. by destruct (Ha k Hk).
  - rewrite Forall_forall in *. intros i Hi. rewrite lookup_foldl_delete, decide_False;
      [auto|]. eapply fl_rep_not_free; [done|]. intros n. by rewrite Ho.
Qed.

(** ** Properties *)

(** Destroying a free list terminates, returns every cached block to the
    system exactly once, touches no other block, and leaves the list empty. *)
Theorem FreeListDestroy_correct st fl fs :
  fl_rep st fl fs ->
  exists st' fl', FreeListDestroy st fl = Some (0, st', fl') /\
    fl_rep st' fl' [] /\
    forall l, st' !! l = if decide (l ∈ fs) then None else st !! l.
Proof.
  intros [Hc Hn Hl Hb]. unfold FreeListDestroy.
  rewrite (destroy_loop_spec _ _ _ fs Hc Hn)
    by (pose proof (chain_size _ _ _ Hc Hn); lia).
  simpl. eexists _, _. split; [done|]. split.
  - split; simpl; [done|constructor|done|rewrite zlen_nil; lia].
  - intros l. apply lookup_foldl_delete.
Qed.

(** Freeing a block and allocating again gives the very same block back
    while the list has room, and the free list never caches more than
    [maxFreeListLength - 1] blocks. *)
Theorem FreeList_reuse md st fl fs l c :
  fl_rep st fl fs -> st !! l = Some c -> l ∉ fs ->
  zlen fs + 1 < fl_maxFreeListLength fl ->
  exists st' fl', FreeListFree st fl (Some l) = Some (0, st', fl') /\
    zlen (l :: fs) <= fl_maxFreeListLength fl - 1 /\
    fl_rep st' fl' (l :: fs) /\
    runs md (FreeListAlloc st' fl') (fun '(p, st'', fl'') =>
      p = Some l /\ fl'' = fl /\ fl_rep st'' fl'' fs).
Proof.
  intros Hr Hst Hnot Hroom. pose proof Hr as [Hc Hn Hl Hb].
  unfold FreeListFree. rewrite Hl, (proj2 (Z.ltb_lt _ _) Hroom), Hst.
  eexists _, _. split; [done|]. rewrite zlen_cons. split; [lia|].
  assert (Hch : chain (<[l:=FreeNode (fl_head fl)]> st) (fl_head fl) fs).
  { eapply chain_frame; [done|]. intros k Hk. rewrite lookup_insert_ne; congruence. }
  split.
  - split; simpl; [|by constructor|rewrite zlen_cons; lia|rewrite zlen_cons; lia].
    split; [done|]. eexists. rewrite lookup_insert_eq. eauto.
  - unfold FreeListAlloc, free_next. simpl. rewrite lookup_insert_eq. mstep.
    eapply runs_liftO; [done|]. apply runs_ret. split; [done|].
    split; [destruct fl; simpl in *; f_equal; lia|].
    apply (fl_rep_frame st).
    + split; simpl; [done|done|lia|lia].
    + intros k Hk. by rewrite !lookup_insert_ne by congruence.
Qed.
End FreeList.

(** ** Witnesses *)

Example FreeListDestroy_correct_witness :
  let st : store Z := {[ 1%positive := FreeNode None; 2%positive := Obj 5;
                         3%positive := FreeNode (Some 1%positive) ]} in
  exists st' fl',
    FreeListDestroy st (MkFreeList (Some 3%positive) 8 10 2) = Some (0, st', fl') /\
    fl_rep st' fl' [] /\
    forall l, st' !! l
      = if decide (l ∈ [3%positive; 1%positive]) then None else st !! l.
Proof.
  simpl. apply (FreeListDestroy_correct _ _ [3%positive; 1%positive]).
  split.
  - split; [done|]. eexists. split; [reflexivity|].
    split; [done|]. eexists. split; reflexivity.
  - apply (bool_decide_unpack _). reflexivity.
  - reflexivity.
  - vm_compute. discriminate.
Defined.

Example FreeList_reuse_witness :
  let st : store Z := {[ 2%positive := Obj 5 ]} in
  exists st' fl',
    FreeListFree st (MkFreeList None 8 10 0) (Some 2%positive) = Some (0, st', fl') /\
    zlen [2%positive] <= 9 /\ fl_rep st' fl' [2%positive] /\
    runs Total (FreeListAlloc st' fl') (fun '(p, st'', fl'') =>
      p = Some 2%positive /\ fl'' = MkFreeList None 8 10 0 /\ fl_rep st'' fl'' []).
Proof.
  simpl. apply (FreeList_reuse Total _ (MkFreeList None 8 10 0) [] 2%positive (Obj 5)).
  - split; [done|constructor|done|vm_compute; discriminate].
  - reflexivity.
  - apply not_elem_of_nil.
  - reflexivity.
Defined.
