(* ===== verification/LinkedList.v ===== *)
(** Doubly linked lists with sentinels and a node free list:
    [upnp/src/threadutil/LinkedList.c].

    Nodes live in a store of [ListNode] blocks; the [head] and [tail]
    sentinels are the two addresses inside the [LinkedList] structure.  Every
    operation is the sequence of pointer reads and writes of the C code.  The
    refinement theorems relate the pointer structure ([ll_rep]) to the list of
    its items, and the class [Queue] at the end is the interface the timer
    and the thread pool are verified against. *)

From S2P Require Import Prelude FreeList.

Record ListNode (I : Type) := MkNode { n_prev : ptr; n_next : ptr; n_item : I }.
Arguments MkNode {I} n_prev n_next n_item.
Arguments n_prev {I} _.
Arguments n_next {I} _.
Arguments n_item {I} _.

(** [ll_free_func] tells whether a free function is set; the items it is
    called on are returned by the operations that call it. *)
Record LinkedList (I : Type) := MkList {
  ll_head : loc;
  ll_tail : loc;
  ll_size : Z;
  ll_freeNodeList : FreeList;
  ll_free_func : bool;
  ll_cmp_func : option (I -> I -> bool)
}.
Arguments MkList {I} _ _ _ _ _ _.
Arguments ll_head {I} _.
Arguments ll_tail {I} _.
Arguments ll_size {I} _.
Arguments ll_freeNodeList {I} _.
Arguments ll_free_func {I} _.
Arguments ll_cmp_func {I} _.

Definition EINVAL : Z := 22.
Definition FREELISTSIZE : Z := 100.
Definition EOUTOFMEM : Z := Z.land (-7) (Z.shiftl 1 29).

(* set_solver tries hypotheses by name. *)
#[local] Set Warnings "-clear-no-such-hyp".

Section LinkedList.
Context {I : Type} `{!EqDecision I} (null : I) (node_size : Z).

Abbreviation nstore := (store (ListNode I)).
Implicit Types (st : nstore) (L : LinkedList I).

(** ** Field accesses *)

Definition node st (p : ptr) : option (ListNode I) :=
  match p with
  | Some l => match st !! l with Some (Obj n) => Some n | _ => None end
  | None => None
  end.

#[local] Arguments node : simpl never.

Definition set_prev st (p : ptr) (v : ptr) : option nstore :=
  match p with
  | Some l =>
      n ← node st p; Some (<[l := Obj (MkNode v (n_next n) (n_item n))]> st)
  | None => None
  end.

Definition set_next st (p : ptr) (v : ptr) : option nstore :=
  match p with
  | Some l =>
      n ← node st p; Some (<[l := Obj (MkNode (n_prev n) v (n_item n))]> st)
  | None => None
  end.

Definition set_list L (size : Z) (fl : FreeList) : LinkedList I :=
  MkList (ll_head L) (ll_tail L) size fl (ll_free_func L) (ll_cmp_func L).

(** ** Operations *)

Definition freeListNode st L (p : ptr) : option (Z * nstore * LinkedList I) :=
  '(r, st', fl') ← FreeListFree st (ll_freeNodeList L) p;
  Some (r, st', set_list L (ll_size L) fl').

Definition CreateListNode st L (item : I) : M (ptr * nstore * LinkedList I) :=
  '(temp, st', fl') ← FreeListAlloc st (ll_freeNodeList L);
  let L' := set_list L (ll_size L) fl' in
  match temp with
  | Some l => mret (temp, <[l := Obj (MkNode None None item)]> st', L')
  | None => mret (None, st', L')
  end.

(** [hd] and [tl] are the addresses of the two sentinels of the structure. *)
Definition ListInit st (hd tl : loc) (cmp_func : option (I -> I -> bool))
    (free_func : bool) : Z * nstore * LinkedList I :=
  let '(retCode, fl) := FreeListInit node_size FREELISTSIZE in
  (retCode,
   <[tl := Obj (MkNode (Some hd) None null)]>
     (<[hd := Obj (MkNode None (Some tl) null)]> st),
   MkList hd tl 0 fl free_func cmp_func).

Definition ListAddAfter st L (item : I) (bnode : ptr)
    : M (ptr * nstore * LinkedList I) :=
  match bnode with
  | None => mret (None, st, L)
  | Some _ =>
      '(newNode, st, L) ← CreateListNode st L item;
      match newNode with
      | None => mret (None, st, L)
      | Some _ =>
          temp ← liftO (n_next <$> node st bnode);
          st ← liftO (set_next st bnode newNode);
          st ← liftO (set_prev st newNode bnode);
          st ← liftO (set_next st newNode temp);
          st ← liftO (set_prev st temp newNode);
          mret (newNode, st, set_list L (ll_size L + 1) (ll_freeNodeList L))
      end
  end.

Definition ListAddBefore st L (item : I) (anode : ptr)
    : M (ptr * nstore * LinkedList I) :=
  match anode with
  | None => mret (None, st, L)
  | Some _ =>
      '(newNode, st, L) ← CreateListNode st L item;
      match newNode with
      | None => mret (None, st, L)
      | Some _ =>
          temp ← liftO (n_prev <$> node st anode);
          st ← liftO (set_prev st anode newNode);
          st ← liftO (set_next st newNode anode);
          st ← liftO (set_prev st newNode temp);
          st ← liftO (set_next st temp newNode);
          mret (newNode, st, set_list L (ll_size L + 1) (ll_freeNodeList L))
      end
  end.

Definition ListAddHead st L item := ListAddAfter st L item (Some (ll_head L)).
Definition ListAddTail st L item := ListAddBefore st L item (Some (ll_tail L)).

(** Returns the item ([null] when it was freed), the items passed to the free
    function, and the new state. *)
Definition ListDelNode st L (dnode : ptr) (freeItem : bool)
    : M (I * list I * nstore * LinkedList I) :=
  _ ← assertM (negb (bool_decide (dnode = Some (ll_head L))));
  _ ← assertM (negb (bool_decide (dnode = Some (ll_tail L))));
  match dnode with
  | None => mret (null, [], st, L)
  | Some _ =>
      temp ← liftO (n_item <$> node st dnode);
      prev ← liftO (n_prev <$> node st dnode);
      next ← liftO (n_next <$> node st dnode);
      st ← liftO (set_next st prev next);
      next ← liftO (n_next <$> node st dnode);
      prev ← liftO (n_prev <$> node st dnode);
      st ← liftO (set_prev st next prev);
      '(_, st, L) ← liftO (freeListNode st L dnode);
      let L := set_list L (ll_size L - 1) (ll_freeNodeList L) in
      mret (if freeItem && ll_free_func L then (null, [temp], st, L)
            else (temp, [], st, L))
  end.

(** The [for] loop of [ListDestroy]; stuck when the fuel runs out. *)
Fixpoint destroy_nodes (fuel : nat) st L (dnode : ptr) (freeItem : bool)
    (freed : list I) : M (list I * nstore * LinkedList I) :=
  match fuel with
  | O => undefined
  | S fuel' =>
      if bool_decide (dnode = Some (ll_tail L)) then mret (freed, st, L)
      else
        temp ← liftO (n_next <$> node st dnode);
        '(_, f, st, L) ← ListDelNode st L dnode freeItem;
        destroy_nodes fuel' st L temp freeItem (freed ++ f)
  end.

Definition ListDestroy st L (freeItem : bool)
    : M (Z * list I * nstore * LinkedList I) :=
  first ← liftO (n_next <$> node st (Some (ll_head L)));
  '(freed, st, L) ← destroy_nodes (S (size st)) st L first freeItem [];
  let L := set_list L 0 (ll_freeNodeList L) in
  '(_, st, fl) ← liftO (FreeListDestroy st (ll_freeNodeList L));
  mret (0, freed, st, set_list L 0 fl).

Definition ListHead st L : option ptr :=
  if ll_size L =? 0 then Some None
  else n_next <$> node st (Some (ll_head L)).

Definition ListTail st L : option ptr :=
  if ll_size L =? 0 then Some None
  else n_prev <$> node st (Some (ll_tail L)).

Definition ListNext st L (p : ptr) : option ptr :=
  next ← n_next <$> node st p;
  Some (if bool_decide (next = Some (ll_tail L)) then None else next).

Definition ListPrev st L (p : ptr) : option ptr :=
  prev ← n_prev <$> node st p;
  Some (if bool_decide (prev = Some (ll_head L)) then None else prev).

(** The test [cmp_func(item, x)], or pointer equality. *)
Definition item_matches L (item x : I) : bool :=
  match ll_cmp_func L with
  | Some f => f item x
  | None => bool_decide (item = x)
  end.

Fixpoint find_loop (fuel : nat) st L (finger : ptr) (item : I) : option ptr :=
  match fuel with
  | O => None
  | S fuel' =>
      if bool_decide (finger = Some (ll_tail L)) then Some None
      else
        n ← node st finger;
        if item_matches L item (n_item n) then Some finger
        else find_loop fuel' st L (n_next n) item
  end.

Definition ListFind st L (start : ptr) (item : I) : option ptr :=
  let start := match start with None => Some (ll_head L) | _ => start end in
  finger ← n_next <$> node st start;
  find_loop (S (size st)) st L finger item.

Definition ListSize L : Z := ll_size L.

(** ** The list a pointer structure stands for *)

Definition next_of st (a : loc) : ptr := n ← node st (Some a); n_next n.
Definition prev_of st (a : loc) : ptr := n ← node st (Some a); n_prev n.
Definition item_of st (a : loc) : option I := n_item <$> node st (Some a).

(** Consecutive addresses point at each other. *)
Fixpoint linked st (l : list loc) : Prop :=
  match l with
  | a :: ((b :: _) as r) =>
      next_of st a = Some b /\ prev_of st b = Some a /\ linked st r
  | _ => True
  end.

(** All nodes in order, sentinels included. *)
Definition full L (ns : list (loc * I)) : list loc :=
  ll_head L :: ns.*1 ++ [ll_tail L].

Record ll_rep st L (ns : list (loc * I)) : Prop := {
  lr_linked : linked st (full L ns);
  lr_nodup : NoDup (full L ns);
  lr_nodes : forall a, a ∈ full L ns -> is_Some (node st (Some a));
  lr_items : forall a x, (a, x) ∈ ns -> item_of st a = Some x;
  lr_size : ll_size L = zlen ns;
  lr_free : exists fs, fl_rep st (ll_freeNodeList L) fs
}.

(** ** Lemmas on stores *)

Lemma node_insert st a n b :
  node (<[a := Obj n]> st) (Some b)
  = if decide (a = b) then Some n else node st (Some b).
Proof.
  unfold node. rewrite lookup_insert. by destruct (decide (a = b)).
Qed.

(** What one pointer write changes. *)
Lemma set_next_spec st a v :
  is_Some (node st (Some a)) ->
  exists st', set_next st (Some a) v = Some st' /\
    (forall b, next_of st' b = if decide (a = b) then v else next_of st b) /\
    (forall b, prev_of st' b = prev_of st b) /\
    (forall b, item_of st' b = item_of st b) /\
    (forall b, is_Some (node st (Some b)) -> is_Some (node st' (Some b))) /\
    (forall b, a <> b -> st' !! b = st !! b).
Proof.
  intros [n Hn]. unfold set_next. rewrite Hn. simpl. eexists. split; [done|].
  unfold next_of, prev_of, item_of. split_and!; intros b;
    rewrite ?node_insert; try (intros ?; by rewrite lookup_insert_ne);
    destruct (decide (a = b)) as [<-|]; rewrite ?Hn; simpl; eauto.
Qed.

Lemma set_prev_spec st a v :
  is_Some (node st (Some a)) ->
  exists st', set_prev st (Some a) v = Some st' /\
    (forall b, prev_of st' b = if decide (a = b) then v else prev_of st b) /\
    (forall b, next_of st' b = next_of st b) /\
    (forall b, item_of st' b = item_of st b) /\
    (forall b, is_Some (node st (Some b)) -> is_Some (node st' (Some b))) /\
    (forall b, a <> b -> st' !! b = st !! b).
Proof.
  intros [n Hn]. unfold set_prev. rewrite Hn. simpl. eexists. split; [done|].
  unfold next_of, prev_of, item_of. split_and!; intros b;
    rewrite ?node_insert; try (intros ?; by rewrite lookup_insert_ne);
    destruct (decide (a = b)) as [<-|]; rewrite ?Hn; simpl; eauto.
Qed.

Lemma node_next st a n : node st (Some a) = Some n -> next_of st a = n_next n.
Proof. unfold next_of. intros ->. done. Qed.

Lemma lookup_node st st' a :
  st' !! a = st !! a -> node st' (Some a) = node st (Some a).
Proof. unfold node. by intros ->. Qed.

Lemma node_not_free st fl fs a :
  fl_rep st fl fs -> is_Some (node st (Some a)) -> a ∉ fs.
Proof.
  intros Hf [n Hn]. eapply fl_rep_not_free; [done|].
  intros k Hk. unfold node in Hn. by rewrite Hk in Hn.
Qed.

(** ** Lemmas on linked sequences *)

Lemma linked_app st l a b r :
  linked st (l ++ a :: b :: r) <->
  linked st (l ++ [a]) /\ next_of st a = Some b /\ prev_of st b = Some a /\
  linked st (b :: r).
Proof.
  induction l as [|x l IH].
  - simpl. tauto.
  - destruct l as [|y l]; simpl in *; tauto.
Qed.

Lemma linked_snoc_frame st st' l a :
  linked st (l ++ [a]) -> (forall u, u ∈ l -> next_of st' u = next_of st u) ->
  (forall v, v ∈ l ++ [a] -> prev_of st' v = prev_of st v) ->
  linked st' (l ++ [a]).
Proof.
  induction l as [|x l IH]; simpl; [done|]. intros H Hn Hp.
  assert (linked st (l ++ [a]) -> linked st' (l ++ [a])) as IH'.
  { intros Hl. apply IH; [done|set_solver..]. }
  destruct (l ++ [a]) as [|y r] eqn:E; [done|].
  destruct H as (H1 & H2 & H3).
  rewrite Hn by set_solver. rewrite (Hp y) by set_solver. auto.
Qed.

Lemma linked_cons_frame st st' a l :
  linked st (a :: l) -> (forall u, u ∈ a :: l -> next_of st' u = next_of st u) ->
  (forall v, v ∈ l -> prev_of st' v = prev_of st v) -> linked st' (a :: l).
Proof.
  revert a. induction l as [|b l IH]; intros a; simpl; [done|].
  intros (H1 & H2 & H3) Hn Hp. rewrite Hn, Hp by set_solver.
  split; [done|]. split; [done|]. apply IH; [done|set_solver..].
Qed.

(** ** Initialisation *)

Lemma ListInit_rep st hd tl cmp_func free_func :
  hd <> tl ->
  let '(r, st', L') := ListInit st hd tl cmp_func free_func in
  r = 0 /\ ll_rep st' L' [] /\ ll_cmp_func L' = cmp_func.
Proof.
  intros Hne. simpl. split; [done|]. split; [|done].
  assert (forall st' l n, st' !! l = Some (Obj n) -> node st' (Some l) = Some n) as Hnode
    by (unfold node; by intros ??? ->).
  set (st' := <[tl:=_]> _).
  assert (node st' (Some hd) = Some (MkNode None (Some tl) null)) as Hhd
    by (apply Hnode; unfold st'; rewrite lookup_insert_ne, lookup_insert_eq by done; done).
  assert (node st' (Some tl) = Some (MkNode (Some hd) None null)) as Htl
    by (apply Hnode; unfold st'; by rewrite lookup_insert_eq).
  split; simpl.
  - unfold next_of, prev_of. by rewrite Hhd, Htl.
  - unfold full. simpl. constructor; [|constructor; [apply not_elem_of_nil|constructor]].
    by rewrite list_elem_of_singleton.
  - unfold full. simpl. intros a [->|[->|[]%not_elem_of_nil]%elem_of_cons]%elem_of_cons;
      rewrite ?Hhd, ?Htl; eauto.
  - by intros a x ?%not_elem_of_nil.
  - done.
  - exists []. apply FreeListInit_rep.
Qed.

(** ** Insertion *)

(** [st'] is [st] with the node [x] linked between [p] and [q]. *)
Record linked_in st st' (p x q : loc) (item : I) : Prop := {
  li_next : forall b, next_of st' b
    = if decide (p = b) then Some x else if decide (x = b) then Some q
      else next_of st b;
  li_prev : forall b, prev_of st' b
    = if decide (q = b) then Some x else if decide (x = b) then Some p
      else prev_of st b;
  li_item : forall b, item_of st' b
    = if decide (x = b) then Some item else item_of st b;
  li_nodes : forall b, is_Some (node st (Some b)) -> is_Some (node st' (Some b));
  li_new : is_Some (node st' (Some x))
}.

(** The neighbours of the position between [l1] and [l2]. *)
Definition between L (l1 l2 : list (loc * I)) (p q : loc) : Prop :=
  exists P Q, ll_head L :: l1.*1 = P ++ [p] /\ l2.*1 ++ [ll_tail L] = q :: Q.

Lemma between_full L l1 l2 p q :
  between L l1 l2 p q ->
  exists P Q, ll_head L :: l1.*1 = P ++ [p] /\ l2.*1 ++ [ll_tail L] = q :: Q /\
    full L (l1 ++ l2) = P ++ p :: q :: Q /\
    forall x i, full L (l1 ++ (x, i) :: l2) = P ++ p :: x :: q :: Q.
Proof.
  intros (P & Q & HP & HQ). exists P, Q. split; [done|]. split; [done|].
  assert (forall r, ll_head L :: (l1.*1 ++ r) ++ [ll_tail L]
    = (ll_head L :: l1.*1) ++ r ++ [ll_tail L]) as E
    by (intros r; simpl; by rewrite app_assoc).
  unfold full. split; intros; rewrite fmap_app, ?fmap_cons, E, HP, <- app_assoc;
    cbn [app]; by rewrite HQ.
Qed.

Lemma between_adjacent st L l1 l2 p q :
  ll_rep st L (l1 ++ l2) -> between L l1 l2 p q ->
  next_of st p = Some q /\ prev_of st q = Some p /\ p <> q /\
  p ∈ full L (l1 ++ l2) /\ q ∈ full L (l1 ++ l2).
Proof.
  intros [Hl Hn _ _ _ _] Hb.
  destruct (between_full _ _ _ _ _ Hb) as (P & Q & _ & _ & Hf & _).
  rewrite Hf in *. apply linked_app in Hl as (_ & ? & ? & _).
  split; [done|]. split; [done|]. split; [|set_solver].
  apply NoDup_app in Hn as (_ & _ & Hn). apply NoDup_cons in Hn as [Hn _].
  set_solver.
Qed.

Lemma insert_rep st st' L L' l1 l2 p q x item :
  ll_rep st L (l1 ++ l2) -> between L l1 l2 p q -> x ∉ full L (l1 ++ l2) ->
  linked_in st st' p x q item ->
  ll_head L' = ll_head L -> ll_tail L' = ll_tail L ->
  ll_size L' = ll_size L + 1 -> (exists fs, fl_rep st' (ll_freeNodeList L') fs) ->
  ll_rep st' L' (l1 ++ (x, item) :: l2).
Proof.
  intros [Hl Hnd Hno Hit Hsz _] Hb Hx [Hn Hp Hi Hns Hnx] Hh Ht Hs Hf.
  destruct (between_full _ _ _ _ _ Hb) as (P & Q & _ & _ & Hf1 & Hf2).
  specialize (Hf2 x item).
  assert (full L' (l1 ++ (x, item) :: l2) = P ++ p :: x :: q :: Q) as Hf2'.
  { rewrite <- Hf2. unfold full. by rewrite Hh, Ht. }
  rewrite Hf1 in *. split; rewrite ?Hf2'; try done.
  - apply linked_app in Hl as (Hl1 & _ & _ & Hl2).
    assert (NoDup (P ++ [p] ++ q :: Q)) as Hnd' by done.
    apply NoDup_app in Hnd' as (_ & HPd & Hnd').
    apply NoDup_cons in Hnd' as [Hpq Hqd].
    apply linked_app. split; [|split; [|split]].
    + eapply linked_snoc_frame; [done| |].
      * intros u Hu. rewrite Hn. rewrite !decide_False; [done|set_solver..].
      * intros v Hv. rewrite Hp. rewrite !decide_False; [done|set_solver..].
    + rewrite Hn. by rewrite decide_True.
    + rewrite Hp. rewrite decide_False, decide_True; [done..|set_solver].
    + simpl. split; [|split].
      * rewrite Hn. rewrite decide_False, decide_True; [done..|set_solver].
      * rewrite Hp. by rewrite decide_True.
      * eapply linked_cons_frame; [done| |].
        -- intros u Hu. rewrite Hn. rewrite !decide_False; [done|set_solver..].
        -- intros v Hv. rewrite Hp. apply NoDup_cons in Hqd as [Hqd _].
           rewrite !decide_False; [done|set_solver..].
  - change (P ++ p :: x :: q :: Q) with (P ++ [p] ++ x :: q :: Q).
    rewrite app_assoc, <- Permutation_middle, <- app_assoc.
    by constructor.
  - intros a Ha. destruct (decide (a = x)) as [->|]; [done|].
    apply Hns, Hno. set_solver.
  - intros a y Hay. rewrite Hi. apply elem_of_app in Hay as [Hay|Hay].
    + assert (a <> x). { intros ->. apply Hx. rewrite <- Hf1. unfold full.
        rewrite fmap_app. apply (list_elem_of_fmap_2 fst) in Hay. set_solver. }
      rewrite decide_False by congruence. apply Hit. set_solver.
    + apply elem_of_cons in Hay as [[= -> ->]|Hay]; [by rewrite decide_True|].
      assert (a <> x). { intros ->. apply Hx. rewrite <- Hf1. unfold full.
        rewrite fmap_app. apply (list_elem_of_fmap_2 fst) in Hay. set_solver. }
      rewrite decide_False by congruence. apply Hit. set_solver.
  - rewrite Hs, Hsz, !zlen_app, zlen_cons. lia.
Qed.

(** What the allocation of a node leaves. *)
Lemma create_runs md st L ns item :
  ll_rep st L ns ->
  runs md (CreateListNode st L item) (fun '(p, st1, L1) =>
    match p with
    | Some x => (x ∉ full L ns) /\ node st1 (Some x) = Some (MkNode None None item) /\
        (forall b, b <> x -> st1 !! b = st !! b) /\
        exists fl fs, L1 = set_list L (ll_size L) fl /\ fl_rep st1 fl fs
    | None => md <> Lucky /\ st1 = st /\ L1 = L
    end).
Proof.
  intros [_ _ Hno _ _ [fs Hf]]. unfold CreateListNode. mstep.
  eapply runs_mono; [by apply alloc_runs|]. intros [[[x|] st1] fl1]; simpl.
  - intros (-> & fs' & Hf' & Hx & Hcase). apply runs_ret. split; [|split; [|split]].
    + intros [n Hn]%Hno. unfold node in Hn.
      destruct Hcase as [[[k Hk] _]|[Hk _]]; by rewrite Hk in Hn.
    + rewrite node_insert. by rewrite decide_True.
    + intros b Hb. by rewrite !lookup_insert_ne by congruence.
    + eexists _, fs'. split; [done|]. by apply fl_rep_frame_insert.
  - intros (? & -> & ->). apply runs_ret. by destruct L.
Qed.

(** Four pointer writes in the order of [ListAddAfter]. *)
Lemma link_after st p q x item :
  p <> q -> p <> x -> q <> x -> is_Some (node st (Some p)) ->
  is_Some (node st (Some q)) -> node st (Some x) = Some (MkNode None None item) ->
  exists st1 st2 st3 st4, set_next st (Some p) (Some x) = Some st1 /\
    set_prev st1 (Some x) (Some p) = Some st2 /\
    set_next st2 (Some x) (Some q) = Some st3 /\
    set_prev st3 (Some q) (Some x) = Some st4 /\
    linked_in st st4 p x q item /\
    forall b, b <> p -> b <> q -> b <> x -> st4 !! b = st !! b.
Proof.
  intros Hpq Hpx Hqx Hp Hq Hx.
  destruct (set_next_spec st p (Some x) Hp) as (st1 & E1 & N1 & P1 & I1 & O1 & F1).
  destruct (set_prev_spec st1 x (Some p)) as (st2 & E2 & P2 & N2 & I2 & O2 & F2);
    [by apply O1; rewrite Hx|].
  destruct (set_next_spec st2 x (Some q)) as (st3 & E3 & N3 & P3 & I3 & O3 & F3);
    [by apply O2, O1; rewrite Hx|].
  destruct (set_prev_spec st3 q (Some x)) as (st4 & E4 & P4 & N4 & I4 & O4 & F4);
    [by apply O3, O2, O1|].
  exists st1, st2, st3, st4. do 4 (split; [done|]). split.
  - split; try intros b.
    + rewrite N4, N3, N2, N1. repeat case_decide; congruence.
    + rewrite P4, P3, P2, P1. repeat case_decide; congruence.
    + rewrite I4, I3, I2, I1. case_decide; [subst|done].
      unfold item_of. by rewrite Hx.
    + auto.
    + apply O4, O3, O2, O1. by rewrite Hx.
  - intros b ???. by rewrite F4, F3, F2, F1 by congruence.
Qed.

(** Four pointer writes in the order of [ListAddBefore]. *)
Lemma link_before st p q x item :
  p <> q -> p <> x -> q <> x -> is_Some (node st (Some p)) ->
  is_Some (node st (Some q)) -> node st (Some x) = Some (MkNode None None item) ->
  exists st1 st2 st3 st4, set_prev st (Some q) (Some x) = Some st1 /\
    set_next st1 (Some x) (Some q) = Some st2 /\
    set_prev st2 (Some x) (Some p) = Some st3 /\
    set_next st3 (Some p) (Some x) = Some st4 /\
    linked_in st st4 p x q item /\
    forall b, b <> p -> b <> q -> b <> x -> st4 !! b = st !! b.
Proof.
  intros Hpq Hpx Hqx Hp Hq Hx.
  destruct (set_prev_spec st q (Some x) Hq) as (st1 & E1 & P1 & N1 & I1 & O1 & F1).
  destruct (set_next_spec st1 x (Some q)) as (st2 & E2 & N2 & P2 & I2 & O2 & F2);
    [by apply O1; rewrite Hx|].
  destruct (set_prev_spec st2 x (Some p)) as (st3 & E3 & P3 & N3 & I3 & O3 & F3);
    [by apply O2, O1; rewrite Hx|].
  destruct (set_next_spec st3 p (Some x)) as (st4 & E4 & N4 & P4 & I4 & O4 & F4);
    [by apply O3, O2, O1|].
  exists st1, st2, st3, st4. do 4 (split; [done|]). split.
  - split; try intros b.
    + rewrite N4, N3, N2, N1. repeat case_decide; congruence.
    + rewrite P4, P3, P2, P1. repeat case_decide; congruence.
    + rewrite I4, I3, I2, I1. case_decide; [subst|done].
      unfold item_of. by rewrite Hx.
    + auto.
    + apply O4, O3, O2, O1. by rewrite Hx.
  - intros b ???. by rewrite F4, F3, F2, F1 by congruence.
Qed.

(** The outcome of adding [item] between [l1] and [l2]. *)
Definition added md st L (l1 l2 : list (loc * I)) (item : I)
    (r : ptr * nstore * LinkedList I) : Prop :=
  let '(p, st', L') := r in
  ll_head L' = ll_head L /\ ll_tail L' = ll_tail L /\
  ll_cmp_func L' = ll_cmp_func L /\ ll_free_func L' = ll_free_func L /\
  match p with
  | Some x => ll_rep st' L' (l1 ++ (x, item) :: l2)
  | None => md <> Lucky /\ ll_rep st' L' (l1 ++ l2)
  end.

Lemma added_intro md st st0 st' L fl fs l1 l2 p q x item :
  ll_rep st L (l1 ++ l2) -> between L l1 l2 p q -> x ∉ full L (l1 ++ l2) ->
  (forall b, b <> x -> st0 !! b = st !! b) -> fl_rep st0 fl fs ->
  node st0 (Some x) = Some (MkNode None None item) ->
  linked_in st0 st' p x q item ->
  (forall b, b <> p -> b <> q -> b <> x -> st' !! b = st0 !! b) ->
  added md st L l1 l2 item (Some x, st', set_list L (ll_size L + 1) fl).
Proof.
  intros Hr Hb Hx Hst0 Hfl Hnx Hli Hfr.
  pose proof (between_adjacent _ _ _ _ _ _ Hr Hb) as (_ & _ & _ & Hp & Hq).
  unfold added. do 4 (split; [done|]).
  assert (forall b, b <> x -> node st0 (Some b) = node st (Some b)) as Hn0
    by (intros b Hbx; by apply lookup_node, Hst0).
  eapply (insert_rep st st'); try done.
  - destruct Hli as [Hn Hpr Hi Hno Hne]. split; try done; intros b.
    + rewrite Hn. repeat case_decide; try done. unfold next_of.
      by rewrite Hn0 by congruence.
    + rewrite Hpr. repeat case_decide; try done. unfold prev_of.
      by rewrite Hn0 by congruence.
    + rewrite Hi. repeat case_decide; try done. unfold item_of.
      by rewrite Hn0 by congruence.
    + intros Hs. destruct (decide (b = x)) as [->|Hbx]; [done|].
      apply Hno. by rewrite Hn0.
  - exists fs. eapply fl_rep_frame; [done|]. intros b Hbf.
    apply Hfr; intros ->; (eapply node_not_free; [exact Hfl| |exact Hbf]).
    + destruct (decide (p = x)) as [->|]; [by rewrite Hnx|].
      rewrite Hn0 by done. by apply (lr_nodes _ _ _ Hr).
    + destruct (decide (q = x)) as [->|]; [by rewrite Hnx|].
      rewrite Hn0 by done. by apply (lr_nodes _ _ _ Hr).
    + by rewrite Hnx.
Qed.

Lemma not_added md st L l1 l2 item :
  ll_rep st L (l1 ++ l2) -> md <> Lucky -> added md st L l1 l2 item (None, st, L).
Proof. intros ? ?. unfold added. by do 5 (split; [done|]). Qed.

Lemma add_after_runs md st L l1 l2 p q item :
  ll_rep st L (l1 ++ l2) -> between L l1 l2 p q ->
  runs md (ListAddAfter st L item (Some p)) (added md st L l1 l2 item).
Proof.
  intros Hr Hb. unfold ListAddAfter.
  pose proof (between_adjacent _ _ _ _ _ _ Hr Hb) as (Hpq & Hqp & Hne & Hp & Hq).
  mstep. eapply runs_mono; [by apply create_runs|].
  intros [[[x|] st0] L1]; [|intros (? & -> & ->); apply runs_ret; by apply not_added].
  intros (Hx & Hnx & Hst0 & fl & fs & -> & Hfl).
  assert (p <> x) by congruence. assert (q <> x) by congruence.
  assert (forall b, b <> x -> node st0 (Some b) = node st (Some b)) as Hn0
    by (intros b Hbx; by apply lookup_node, Hst0).
  destruct (link_after st0 p q x item) as (st1 & st2 & st3 & st4 & E1 & E2 & E3 & E4
    & Hli & Hfr); try done; try (rewrite Hn0 by done; by apply (lr_nodes _ _ _ Hr)).
  destruct (lr_nodes _ _ _ Hr p Hp) as [np Hnp].
  mstep. eapply runs_liftO; [by rewrite Hn0, Hnp by done|].
  rewrite (node_next _ _ _ Hnp) in Hpq. rewrite Hpq.
  do 4 (mstep; eapply runs_liftO; [done|]). apply runs_ret.
  by eapply (added_intro md st st0 _ L fl fs l1 l2 p q).
Qed.

Lemma add_before_runs md st L l1 l2 p q item :
  ll_rep st L (l1 ++ l2) -> between L l1 l2 p q ->
  runs md (ListAddBefore st L item (Some q)) (added md st L l1 l2 item).
Proof.
  intros Hr Hb. unfold ListAddBefore.
  pose proof (between_adjacent _ _ _ _ _ _ Hr Hb) as (Hpq & Hqp & Hne & Hp & Hq).
  mstep. eapply runs_mono; [by apply create_runs|].
  intros [[[x|] st0] L1]; [|intros (? & -> & ->); apply runs_ret; by apply not_added].
  intros (Hx & Hnx & Hst0 & fl & fs & -> & Hfl).
  assert (p <> x) by congruence. assert (q <> x) by congruence.
  assert (forall b, b <> x -> node st0 (Some b) = node st (Some b)) as Hn0
    by (intros b Hbx; by apply lookup_node, Hst0).
  destruct (link_before st0 p q x item) as (st1 & st2 & st3 & st4 & E1 & E2 & E3 & E4
    & Hli & Hfr); try done; try (rewrite Hn0 by done; by apply (lr_nodes _ _ _ Hr)).
  destruct (lr_nodes _ _ _ Hr q Hq) as [nq Hnq].
  mstep. eapply runs_liftO; [by rewrite Hn0, Hnq by done|].
  unfold prev_of in Hqp. rewrite Hnq in Hqp. simpl in Hqp. rewrite Hqp.
  do 4 (mstep; eapply runs_liftO; [done|]). apply runs_ret.
  by eapply (added_intro md st st0 _ L fl fs l1 l2 p q).
Qed.

(** ** Deletion *)

Lemma between_exists L l1 l2 : exists p q, between L l1 l2 p q.
Proof.
  destruct (exists_last (l := ll_head L :: l1.*1)) as (P & p & HP); [done|].
  destruct (l2.*1 ++ [ll_tail L]) as [|q Q] eqn:HQ; [by destruct (l2.*1)|].
  exists p, q, P, Q. done.
Qed.

(** Two pointer writes in the order of [ListDelNode]. *)
Lemma unlink st p q :
  is_Some (node st (Some p)) -> is_Some (node st (Some q)) ->
  exists st1 st2, set_next st (Some p) (Some q) = Some st1 /\
    set_prev st1 (Some q) (Some p) = Some st2 /\
    (forall b, next_of st2 b = if decide (p = b) then Some q else next_of st b) /\
    (forall b, prev_of st2 b = if decide (q = b) then Some p else prev_of st b) /\
    (forall b, item_of st2 b = item_of st b) /\
    (forall b, is_Some (node st (Some b)) -> is_Some (node st2 (Some b))) /\
    (forall b, p <> b -> st1 !! b = st !! b) /\
    (forall b, p <> b -> q <> b -> st2 !! b = st !! b).
Proof.
  intros Hp Hq.
  destruct (set_next_spec st p (Some q) Hp) as (st1 & E1 & N1 & P1 & I1 & O1 & F1).
  destruct (set_prev_spec st1 q (Some p)) as (st2 & E2 & P2 & N2 & I2 & O2 & F2);
    [by apply O1|].
  exists st1, st2. do 2 (split; [done|]). split; [|split; [|split; [|split; [|split]]]].
  - intros b. by rewrite N2, N1.
  - intros b. by rewrite P2, P1.
  - intros b. by rewrite I2, I1.
  - auto.
  - done.
  - intros b ??. by rewrite F2, F1.
Qed.

Lemma delete_rep st st' L L' l1 l2 p q d x :
  ll_rep st L (l1 ++ (d, x) :: l2) -> between L l1 l2 p q ->
  (forall b, b <> d -> next_of st' b = if decide (p = b) then Some q else next_of st b) ->
  (forall b, b <> d -> prev_of st' b = if decide (q = b) then Some p else prev_of st b) ->
  (forall b, b <> d -> item_of st' b = item_of st b) ->
  (forall b, b <> d -> is_Some (node st (Some b)) -> is_Some (node st' (Some b))) ->
  ll_head L' = ll_head L -> ll_tail L' = ll_tail L ->
  ll_size L' = ll_size L - 1 -> (exists fs, fl_rep st' (ll_freeNodeList L') fs) ->
  ll_rep st' L' (l1 ++ l2).
Proof.
  intros [Hl Hnd Hno Hit Hsz _] Hb Hn Hp Hi Hns Hh Ht Hs Hf.
  destruct (between_full _ _ _ _ _ Hb) as (P & Q & _ & _ & Hf1 & Hf2).
  specialize (Hf2 d x).
  assert (full L' (l1 ++ l2) = P ++ p :: q :: Q) as Hf1'.
  { rewrite <- Hf1. unfold full. by rewrite Hh, Ht. }
  rewrite Hf2 in *.
  assert (NoDup (d :: P ++ p :: q :: Q)) as Hnd'.
  { revert Hnd. change (P ++ p :: d :: q :: Q) with (P ++ [p] ++ d :: q :: Q).
    by rewrite app_assoc, <- Permutation_middle, <- app_assoc. }
  apply NoDup_cons in Hnd' as [Hd Hnd'].
  assert (forall b, b ∈ P ++ p :: q :: Q -> b <> d) as Hbd by (intros b ? ->; done).
  split; rewrite ?Hf1'; try done.
  - apply linked_app in Hl as (Hl1 & _ & _ & Hl2). simpl in Hl2.
    destruct Hl2 as (_ & _ & Hl2).
    assert (NoDup (P ++ [p] ++ q :: Q)) as Hnd2 by done.
    apply NoDup_app in Hnd2 as (_ & HPd & Hnd2).
    apply NoDup_cons in Hnd2 as [Hpq Hqd]. apply NoDup_cons in Hqd as [Hqd _].
    apply linked_app. split; [|split; [|split]].
    + eapply linked_snoc_frame; [done| |]; intros u Hu.
      * rewrite Hn, decide_False; [done|set_solver|apply Hbd; set_solver].
      * rewrite Hp, decide_False; [done|set_solver|apply Hbd; set_solver].
    + rewrite Hn; [by rewrite decide_True|apply Hbd; set_solver].
    + rewrite Hp; [by rewrite decide_True|apply Hbd; set_solver].
    + eapply linked_cons_frame; [done| |]; intros u Hu.
      * rewrite Hn, decide_False; [done|set_solver|apply Hbd; set_solver].
      * rewrite Hp, decide_False; [done|set_solver|apply Hbd; set_solver].
  - intros a Ha. apply Hns; [by apply Hbd|]. apply Hno. set_solver.
  - intros a y Hay. rewrite Hi.
    + apply Hit. set_solver.
    + apply Hbd. rewrite <- Hf1. unfold full.
      apply (list_elem_of_fmap_2 fst) in Hay. set_solver.
  - rewrite Hs, Hsz, !zlen_app, zlen_cons. lia.
Qed.

(** The item returned by [ListDelNode] and the items it frees. *)
Definition del_result L (freeItem : bool) (x : I) : I * list I :=
  if freeItem && ll_free_func L then (null, [x]) else (x, []).

Definition same_list L L' : Prop :=
  ll_head L' = ll_head L /\ ll_tail L' = ll_tail L /\
  ll_cmp_func L' = ll_cmp_func L /\ ll_free_func L' = ll_free_func L.

(** Everything the deletion of [d] reads. *)
Lemma del_facts st L l1 l2 d x p q :
  ll_rep st L (l1 ++ (d, x) :: l2) -> between L l1 l2 p q ->
  node st (Some d) = Some (MkNode (Some p) (Some q) x) /\
  is_Some (node st (Some p)) /\ is_Some (node st (Some q)) /\
  d <> p /\ d <> q /\ d <> ll_head L /\ d <> ll_tail L.
Proof.
  intros [Hl Hnd Hno Hit _ _] Hb.
  destruct (between_full _ _ _ _ _ Hb) as (P & Q & HP & HQ & _ & Hf2).
  rewrite Hf2 in *.
  assert (d ∉ P ++ p :: q :: Q) as Hd.
  { revert Hnd. change (P ++ p :: d :: q :: Q) with (P ++ [p] ++ d :: q :: Q).
    rewrite app_assoc, <- Permutation_middle, <- app_assoc.
    by intros [? _]%NoDup_cons. }
  assert (ll_head L ∈ P ++ [p]) by (rewrite <- HP; by left).
  assert (ll_tail L ∈ q :: Q) by (rewrite <- HQ; set_solver).
  destruct (Hno d) as [[pv nx i] Hn]; [set_solver|].
  apply linked_app in Hl as (_ & _ & Hpd & Hl). simpl in Hl.
  destruct Hl as (Hnq & _ & _).
  pose proof (Hit d x ltac:(set_solver)) as Hi.
  unfold next_of, prev_of, item_of in *. rewrite Hn in *. simplify_eq/=.
  split; [done|]. split; [apply Hno; set_solver|]. split; [apply Hno; set_solver|].
  set_solver.
Qed.

Lemma del_runs md st L l1 l2 d x freeItem :
  ll_rep st L (l1 ++ (d, x) :: l2) ->
  runs md (ListDelNode st L (Some d) freeItem) (fun '(it, freed, st', L') =>
    (it, freed) = del_result L freeItem x /\ same_list L L' /\
    ll_rep st' L' (l1 ++ l2)).
Proof.
  intros Hr. destruct (between_exists L l1 l2) as (p & q & Hb).
  destruct (del_facts _ _ _ _ _ _ _ _ Hr Hb) as (Hnd & Hp & Hq & ? & ? & ? & ?).
  destruct (lr_free _ _ _ Hr) as [fs Hfl].
  destruct (unlink st p q Hp Hq) as (st1 & st2 & E1 & E2 & N & V & It & O & F1 & F2).
  assert (node st1 (Some d) = node st (Some d)) as Hnd1 by (by apply lookup_node, F1).
  assert (node st2 (Some d) = node st (Some d)) as Hnd2 by (by apply lookup_node, F2).
  assert (fl_rep st2 (ll_freeNodeList L) fs) as Hfl2.
  { eapply fl_rep_frame; [done|]. intros b Hbf.
    apply F2; intros ->; by eapply node_not_free in Hbf. }
  destruct (free_spec st2 (ll_freeNodeList L) fs d (Obj (MkNode (Some p) (Some q) x)))
    as (st3 & fl' & fs' & E3 & Hfl3 & F3 & _); [done| | |].
  { rewrite Hnd in Hnd2. unfold node in Hnd2.
    destruct (st2 !! d) as [[]|]; by simplify_eq. }
  { eapply node_not_free; [done|]. by rewrite Hnd2, Hnd. }
  unfold ListDelNode. rewrite !bool_decide_eq_false_2 by congruence.
  do 2 (mstep; apply runs_assert_true; [done|]).
  do 3 (mstep; eapply runs_liftO; [by rewrite Hnd|]).
  mstep. eapply runs_liftO; [done|].
  do 2 (mstep; eapply runs_liftO; [by rewrite Hnd1, Hnd|]).
  mstep. eapply runs_liftO; [done|].
  mstep. eapply runs_liftO; [unfold freeListNode; by rewrite E3|].
  assert (ll_rep st3 (set_list L (ll_size L - 1) fl') (l1 ++ l2)) as Hr'.
  { assert (forall b, b <> d -> node st3 (Some b) = node st2 (Some b)) as Hn3
      by (intros b Hbd; by apply lookup_node, F3).
    eapply (delete_rep st st3 L); try done; [..|by exists fs'];
      intros b Hbd; unfold next_of, prev_of, item_of in *; rewrite Hn3 by done; auto. }
  apply runs_ret. unfold del_result, same_list. simpl.
  by destruct (freeItem && ll_free_func L).
Qed.

Lemma full_size st L ns : ll_rep st L ns -> (length ns + 2 <= size st)%nat.
Proof.
  intros [_ Hnd Hno _ _ _].
  assert (length (full L ns) <= size st)%nat as H.
  { rewrite <- size_dom, <- (size_list_to_set (C := gset loc)) by done.
    apply subseteq_size. intros a Ha. apply elem_of_list_to_set in Ha.
    apply elem_of_dom. destruct (Hno a Ha) as [n Hn]. unfold node in Hn.
    destruct (st !! a); [done|by simplify_eq]. }
  unfold full in H. rewrite length_cons, length_app, length_fmap in H. simpl in H. lia.
Qed.

(** The address that follows the sentinel or node [a], in the list. *)
Lemma next_runs st L l1 l2 p q :
  ll_rep st L (l1 ++ l2) -> between L l1 l2 p q ->
  exists n, node st (Some p) = Some n /\ n_next n = Some q.
Proof.
  intros Hr Hb. destruct (between_adjacent _ _ _ _ _ _ Hr Hb) as (Hn & _ & _ & Hp & _).
  destruct (lr_nodes _ _ _ Hr p Hp) as [n Hnode]. exists n. split; [done|].
  unfold next_of in Hn. by rewrite Hnode in Hn.
Qed.

(** Address of the first node of [ns], or of the tail sentinel. *)
Definition first_addr L (ns : list (loc * I)) : loc :=
  default (ll_tail L) (fst <$> head ns).

Lemma between_last L l1 d x l2 :
  between L (l1 ++ [(d, x)]) l2 d (first_addr L l2).
Proof.
  exists (ll_head L :: l1.*1), (tail (l2.*1 ++ [ll_tail L])).
  rewrite fmap_app. simpl. split; [done|]. by destruct l2.
Qed.

Lemma between_head L l2 : between L [] l2 (ll_head L) (first_addr L l2).
Proof. exists [], (tail (l2.*1 ++ [ll_tail L])). split; [done|]. by destruct l2. Qed.

Lemma node_not_tail st L l1 d x l2 :
  ll_rep st L (l1 ++ (d, x) :: l2) -> d <> ll_tail L /\ d <> ll_head L.
Proof.
  intros [_ Hnd _ _ _ _]. unfold full in Hnd. rewrite fmap_app, fmap_cons in Hnd.
  apply NoDup_cons in Hnd as [Hh Hnd]. simpl in *.
  rewrite <- app_assoc in Hnd. apply NoDup_app in Hnd as (_ & _ & Hnd).
  simpl in Hnd. apply NoDup_cons in Hnd as [Ht _]. set_solver.
Qed.

Lemma destroy_nodes_runs md ns fuel st L freeItem freed :
  ll_rep st L ns -> (length ns < fuel)%nat ->
  runs md (destroy_nodes fuel st L (Some (first_addr L ns)) freeItem freed)
    (fun '(freed', st', L') => ll_rep st' L' [] /\ same_list L L' /\
      freed' = freed ++ (if freeItem && ll_free_func L then ns.*2 else [])).
Proof.
  revert fuel st L freed. induction ns as [|[d x] ns IH]; intros fuel st L freed Hr Hf;
    (destruct fuel as [|fuel]; [simpl in Hf; lia|]); simpl in *.
  - rewrite bool_decide_eq_true_2 by done. apply runs_ret.
    split; [done|]. split; [done|]. by case_match; rewrite app_nil_r.
  - destruct (node_not_tail _ _ [] _ _ _ Hr) as [Hdt _].
    rewrite bool_decide_eq_false_2 by (unfold first_addr; simpl; congruence).
    destruct (next_runs _ _ [(d, x)] ns d (first_addr L ns) Hr) as (n & Hn & Hnx);
      [apply (between_last L [])|].
    mstep. eapply runs_liftO; [unfold first_addr; simpl; by rewrite Hn|].
    mstep. eapply runs_mono; [apply (del_runs md st L [] ns d x freeItem Hr)|].
    intros [[[it f] st'] L'] (Hit & Hs & Hr'). simpl in Hr'.
    rewrite Hnx. replace (first_addr L ns) with (first_addr L' ns)
      by (unfold first_addr; destruct Hs as (_ & -> & _); done).
    eapply runs_mono; [apply IH; [done|lia]|].
    intros [[freed' st''] L''] (Hr'' & Hs' & ->). split; [done|].
    unfold same_list in *. split; [intuition congruence|].
    unfold del_result in Hit. destruct Hs as (_ & _ & _ & Hff). rewrite Hff.
    destruct (freeItem && ll_free_func L); simplify_eq/=;
      by rewrite <- app_assoc.
Qed.

(** ** Search *)

Lemma find_loop_spec st L fuel l1 l2 item :
  ll_rep st L (l1 ++ l2) -> (length l2 < fuel)%nat ->
  find_loop fuel st L (Some (first_addr L l2)) item
  = Some (fst <$> find (fun n => item_matches L item n.2) l2).
Proof.
  revert fuel l1. induction l2 as [|[d x] l2 IH]; intros fuel l1 Hr Hf;
    (destruct fuel as [|fuel]; [simpl in Hf; lia|]); simpl in *.
  - by rewrite bool_decide_eq_true_2.
  - destruct (node_not_tail _ _ _ _ _ _ Hr) as [Hdt _].
    rewrite bool_decide_eq_false_2 by (unfold first_addr; simpl; congruence).
    destruct (next_runs st L (l1 ++ [(d, x)]) l2 d (first_addr L l2)) as (n & Hn & Hnx);
      [by rewrite <- app_assoc|apply between_last|].
    change (Some (first_addr L ((d, x) :: l2))) with (Some d). rewrite Hn. simpl.
    pose proof (lr_items _ _ _ Hr d x ltac:(set_solver)) as Hi.
    unfold item_of in Hi. rewrite Hn in Hi. simplify_eq/=.
    destruct (item_matches L item (n_item n)); [done|].
    rewrite Hnx. apply (IH fuel (l1 ++ [(d, n_item n)])); [|lia].
    by rewrite <- app_assoc.
Qed.

Lemma find_spec st L ns item :
  ll_rep st L ns ->
  ListFind st L None item
  = Some (fst <$> find (fun n => item_matches L item n.2) ns).
Proof.
  intros Hr. unfold ListFind.
  destruct (next_runs st L [] ns (ll_head L) (first_addr L ns) Hr) as (n & Hn & Hnx);
    [apply between_head|].
  rewrite Hn. cbn [fmap option_fmap option_map mbind option_bind]. rewrite Hnx.
  apply (find_loop_spec st L _ [] ns); [done|].
  pose proof (full_size _ _ _ Hr). lia.
Qed.

(** ** Traversal *)

Lemma head_spec st L ns :
  ll_rep st L ns -> ListHead st L = Some (fst <$> head ns).
Proof.
  intros Hr. unfold ListHead. rewrite (lr_size _ _ _ Hr).
  destruct ns as [|[d x] ns]; [done|].
  rewrite zlen_cons. pose proof (zlen_nonneg ns).
  destruct (Z.eqb_spec (1 + zlen ns) 0) as [|_]; [lia|].
  destruct (next_runs st L [] ((d, x) :: ns) (ll_head L) d Hr) as (n & Hn & Hnx);
    [apply (between_head L ((d, x) :: ns))|].
  rewrite Hn. simpl. by rewrite Hnx.
Qed.

Lemma next_spec st L l1 d x l2 :
  ll_rep st L (l1 ++ (d, x) :: l2) ->
  ListNext st L (Some d) = Some (fst <$> head l2).
Proof.
  intros Hr. destruct (next_runs st L (l1 ++ [(d, x)]) l2 d (first_addr L l2))
    as (n & Hn & Hnx); [by rewrite <- app_assoc|apply between_last|].
  unfold ListNext. rewrite Hn. simpl. rewrite Hnx. unfold first_addr.
  destruct l2 as [|[e y] l2]; simpl; [by rewrite bool_decide_eq_true_2|].
  rewrite bool_decide_eq_false_2; [done|].
  replace (l1 ++ (d, x) :: (e, y) :: l2) with ((l1 ++ [(d, x)]) ++ (e, y) :: l2) in Hr
    by by rewrite <- app_assoc.
  destruct (node_not_tail _ _ _ _ _ _ Hr). congruence.
Qed.

Lemma prev_spec st L l1 d x l2 :
  ll_rep st L (l1 ++ (d, x) :: l2) ->
  ListPrev st L (Some d) = Some (fst <$> last l1).
Proof.
  intros Hr. destruct (between_exists L l1 ((d, x) :: l2)) as (p & q & Hb).
  pose proof Hb as (P & Q & HP & HQ). injection HQ as <- <-.
  destruct (between_adjacent _ _ _ _ _ _ Hr Hb) as (_ & Hpv & _).
  destruct (lr_nodes _ _ _ Hr d) as [n Hn].
  { destruct (between_full _ _ _ _ _ Hb) as (P' & Q' & _ & _ & -> & _). set_solver. }
  unfold ListPrev, prev_of in *. rewrite Hn in Hpv |- *. simpl in *. rewrite Hpv.
  destruct (decide (l1 = [])) as [->|Hl1].
  - destruct P as [|? [|]]; simplify_eq/=. by rewrite bool_decide_eq_true_2.
  - destruct (exists_last Hl1) as (l0 & [e y] & ->). rewrite last_snoc. simpl.
    rewrite fmap_app, app_comm_cons in HP. apply app_inj_tail in HP as [_ <-].
    simpl. rewrite bool_decide_eq_false_2; [done|].
    rewrite <- app_assoc in Hr. destruct (node_not_tail _ _ _ _ _ _ Hr). congruence.
Qed.

(** The addresses met by the client loops
    [for (p = ListHead(l); p; p = ListNext(l, p))]. *)
Fixpoint walk (fuel : nat) (next : ptr -> option ptr) (p : option ptr)
    : option (list loc) :=
  match fuel with
  | O => None
  | S fuel' =>
      match p with
      | None => None
      | Some None => Some []
      | Some (Some a) => r ← walk fuel' next (next (Some a)); Some (a :: r)
      end
  end.

Lemma walk_next st L l1 l2 fuel :
  ll_rep st L (l1 ++ l2) -> (length l2 < fuel)%nat ->
  walk fuel (ListNext st L) (Some (fst <$> head l2)) = Some (l2.*1).
Proof.
  revert l1 fuel. induction l2 as [|[d x] l2 IH]; intros l1 [|fuel] Hr Hf;
    simpl in *; try lia; [done|].
  rewrite (next_spec _ _ _ _ _ _ Hr), (IH (l1 ++ [(d, x)])); [done| |lia].
  by rewrite <- app_assoc.
Qed.

Lemma walk_prev st L l1 l2 fuel :
  ll_rep st L (l1 ++ l2) -> (length l1 < fuel)%nat ->
  walk fuel (ListPrev st L) (Some (fst <$> last l1)) = Some (reverse (l1.*1)).
Proof.
  revert l2 fuel. induction l1 as [|[d x] l1 IH] using rev_ind; intros l2 [|fuel] Hr Hf;
    rewrite ?length_app in Hf; simpl in *; try lia; [done|].
  rewrite last_snoc. simpl. rewrite <- app_assoc in Hr. simpl in Hr.
  rewrite (prev_spec _ _ _ _ _ _ Hr), (IH ((d, x) :: l2)); [|done|lia].
  by rewrite fmap_app, reverse_app.
Qed.

Lemma tail_spec st L ns :
  ll_rep st L ns -> ListTail st L = Some (fst <$> last ns).
Proof.
  intros Hr. unfold ListTail. rewrite (lr_size _ _ _ Hr).
  destruct (decide (ns = [])) as [->|Hne]; [done|].
  destruct (exists_last Hne) as (l0 & [e y] & ->).
  rewrite zlen_app, zlen_cons, zlen_nil. pose proof (zlen_nonneg l0).
  destruct (Z.eqb_spec (zlen l0 + (1 + 0)) 0) as [|_]; [lia|].
  destruct (between_adjacent st L (l0 ++ [(e, y)]) [] e (ll_tail L)) as (_ & Hpv & _ & _ & Hq);
    [by rewrite app_nil_r|apply (between_last L l0 e y [])|].
  rewrite app_nil_r in Hq. destruct (lr_nodes _ _ _ Hr _ Hq) as [n Hn].
  unfold prev_of in Hpv. rewrite Hn in Hpv |- *. simpl in *. by rewrite Hpv, last_snoc.
Qed.

(** ** Destruction *)

Lemma destroy_runs md st L ns freeItem :
  ll_rep st L ns ->
  runs md (ListDestroy st L freeItem) (fun '(r, freed, st', L') =>
    r = 0 /\ ll_rep st' L' [] /\ same_list L L' /\
    freed = if freeItem && ll_free_func L then ns.*2 else []).
Proof.
  intros Hr. unfold ListDestroy.
  destruct (next_runs st L [] ns (ll_head L) (first_addr L ns) Hr) as (n & Hn & Hnx);
    [apply between_head|].
  mstep. eapply runs_liftO; [by rewrite Hn|]. rewrite Hnx. mstep.
  eapply runs_mono; [apply (destroy_nodes_runs md ns); [done|]|].
  { pose proof (full_size _ _ _ Hr). lia. }
  intros [[freed st'] L'] (Hr' & Hs & ->). simpl.
  destruct (lr_free _ _ _ Hr') as [fs Hf]. pose proof Hf as [Hc Hnd _ _].
  assert (HD : exists st2 fl2, FreeListDestroy st' (ll_freeNodeList L') = Some (0, st2, fl2)
    /\ fl_rep st2 fl2 [] /\ forall b, b ∉ fs -> st2 !! b = st' !! b).
  { unfold FreeListDestroy. rewrite (destroy_loop_spec _ _ _ fs Hc Hnd)
      by (pose proof (chain_size _ _ _ Hc Hnd); lia).
    eexists _, _. split; [done|]. split.
    - split; simpl; [done|constructor|done|rewrite zlen_nil; lia].
    - intros b Hb. rewrite lookup_foldl_delete. by rewrite decide_False. }
  destruct HD as (st2 & fl2 & E & Hf2 & Hb). mstep. eapply runs_liftO; [done|].
  apply runs_ret. split; [done|]. split; [|by split].
  assert (forall a, a ∈ full L' [] -> node st2 (Some a) = node st' (Some a)) as Hnode.
  { intros a Ha. apply lookup_node, Hb. eapply node_not_free; [done|].
    by apply (lr_nodes _ _ _ Hr'). }
  destruct Hr' as [Hl Hnd' Hno Hit Hsz _]. split; try done.
  - eapply (linked_cons_frame st'); [done| |]; intros u Hu;
      unfold next_of, prev_of; rewrite Hnode; [done| |done|]; set_solver.
  - intros a Ha. rewrite Hnode by done. by apply Hno.
  - intros a y Hy. by apply not_elem_of_nil in Hy.
  - by exists [].
Qed.

(** ** Properties *)

(** [ListAddAfter] and [ListAddBefore] put the item exactly at the
    requested place of the list the pointers stand for, whichever of the two
    neighbours the caller names; when no node can be allocated the list is
    unchanged.  ([ListAddHead] and [ListAddTail] are the ends.) *)
Theorem list_insert_correct md st L l1 l2 p q item :
  ll_rep st L (l1 ++ l2) -> between L l1 l2 p q ->
  runs md (ListAddAfter st L item (Some p)) (added md st L l1 l2 item) /\
  runs md (ListAddBefore st L item (Some q)) (added md st L l1 l2 item).
Proof. intros. split; [by eapply add_after_runs|by eapply add_before_runs]. Qed.

(** [ListDelNode] removes exactly the node named, keeps the order of the
    others, returns its item or frees it exactly when the caller asks for it
    and a free function is set. *)
Theorem list_delete_correct md st L l1 l2 d x freeItem :
  ll_rep st L (l1 ++ (d, x) :: l2) ->
  runs md (ListDelNode st L (Some d) freeItem) (fun '(it, freed, st', L') =>
    (it, freed) = del_result L freeItem x /\ same_list L L' /\
    ll_rep st' L' (l1 ++ l2)).
Proof. apply del_runs. Qed.

(** Walking a list with [ListHead]/[ListNext] meets its nodes in order,
    and with [ListTail]/[ListPrev] in reverse order; both walks end. *)
Theorem list_walk_correct st L ns :
  ll_rep st L ns ->
  walk (S (length ns)) (ListNext st L) (ListHead st L) = Some (ns.*1) /\
  walk (S (length ns)) (ListPrev st L) (ListTail st L) = Some (reverse (ns.*1)).
Proof.
  intros Hr. rewrite (head_spec _ _ _ Hr), (tail_spec _ _ _ Hr). split.
  - apply (walk_next st L []); [done|lia].
  - apply (walk_prev st L ns []); [by rewrite app_nil_r|lia].
Qed.

(** [ListFind] from the start returns the first node whose item matches
    by the comparison function (or by equality without one), [NULL] when
    there is none; it terminates. *)
Theorem list_find_correct st L ns item :
  ll_rep st L ns ->
  ListFind st L None item
  = Some (fst <$> find (fun n => item_matches L item n.2) ns).
Proof. apply find_spec. Qed.

(** [ListDestroy] empties the list, calls the free function on every item
    exactly once and in order when asked to (and on nothing otherwise), and
    gives the cached nodes back. *)
Theorem list_destroy_correct md st L ns freeItem :
  ll_rep st L ns ->
  runs md (ListDestroy st L freeItem) (fun '(r, freed, st', L') =>
    r = 0 /\ ll_rep st' L' [] /\
    freed = if freeItem && ll_free_func L then ns.*2 else []).
Proof.
  intros Hr. eapply runs_mono; [by apply destroy_runs|].
  by intros [[[r freed] st'] L'] (? & ? & _ & ?).
Qed.
End LinkedList.

(** ** A concrete list

    Two nodes at addresses 3 and 4 between the sentinels 1 and 2, with no
    comparison function and a free function. *)

Definition ex_store : store (ListNode Z) :=
  list_to_map [(1%positive, Obj (MkNode None (Some 3%positive) 0));
               (3%positive, Obj (MkNode (Some 1%positive) (Some 4%positive) 10));
               (4%positive, Obj (MkNode (Some 3%positive) (Some 2%positive) 20));
               (2%positive, Obj (MkNode (Some 4%positive) None 0))].

Definition ex_list : LinkedList Z :=
  MkList 1 2 2 (snd (FreeListInit 24 FREELISTSIZE)) true None.

Definition ex_items : list (loc * Z) := [(3%positive, 10); (4%positive, 20)].

Lemma ex_rep : ll_rep ex_store ex_list ex_items.
Proof.
  split.
  - vm_compute. tauto.
  - apply (bool_decide_unpack _). by vm_compute.
  - intros a Ha. unfold full, ex_items in Ha. simpl in Ha.
    repeat (apply elem_of_cons in Ha as [->|Ha]; [vm_compute; by eexists|]).
    by apply not_elem_of_nil in Ha.
  - intros a x Ha. unfold ex_items in Ha.
    repeat (apply elem_of_cons in Ha as [[= -> ->]|Ha]; [done|]).
    by apply not_elem_of_nil in Ha.
  - done.
  - exists []. split; simpl; [done|constructor|done|]. rewrite zlen_nil. lia.
Qed.

Lemma list_insert_correct_witness :
  runs Total (ListAddAfter ex_store ex_list 15 (Some 3%positive))
    (added Total ex_store ex_list [(3%positive, 10)] [(4%positive, 20)] 15) /\
  runs Total (ListAddBefore ex_store ex_list 15 (Some 4%positive))
    (added Total ex_store ex_list [(3%positive, 10)] [(4%positive, 20)] 15).
Proof.
  apply list_insert_correct; [exact ex_rep|].
  exists [1%positive], [2%positive]. by split.
Defined.

Lemma list_delete_correct_witness :
  runs Total (ListDelNode 0 ex_store ex_list (Some 3%positive) true)
    (fun '(it, freed, st', L') =>
      (it, freed) = del_result 0 ex_list true 10 /\ same_list ex_list L' /\
      ll_rep st' L' [(4%positive, 20)]).
Proof.
  apply (list_delete_correct 0 Total ex_store ex_list [] [(4%positive, 20)] 3 10 true).
  exact ex_rep.
Defined.

Lemma list_walk_correct_witness :
  walk 3 (ListNext ex_store ex_list) (ListHead ex_store ex_list)
    = Some [3%positive; 4%positive] /\
  walk 3 (ListPrev ex_store ex_list) (ListTail ex_store ex_list)
    = Some [4%positive; 3%positive].
Proof. exact (list_walk_correct ex_store ex_list ex_items ex_rep). Defined.

Lemma list_find_correct_witness :
  ListFind ex_store ex_list None 20 = Some (Some 4%positive).
Proof.
  rewrite (list_find_correct ex_store ex_list ex_items 20 ex_rep).
  by vm_compute.
Defined.

Lemma list_destroy_correct_witness :
  runs Total (ListDestroy 0 ex_store ex_list true) (fun '(r, freed, st', L') =>
    r = 0 /\ ll_rep st' L' [] /\ freed = [10; 20]).
Proof. exact (list_destroy_correct 0 Total ex_store ex_list ex_items true ex_rep). Defined.
