(* ===== verification/Queue.v ===== *)
(** The interface between the lists of [LinkedList.c] and their clients.

    [Queue] names the list operations the timer ([TimerThread.c]) and the
    thread pool ([ThreadPool.c]) call; [QueueLaws] is what they rely on.  The
    clients are verified against any instance; the instance here is the
    pointer structure of [LinkedList], its laws the lemmas proved there. *)

From S2P Require Import Prelude FreeList LinkedList.

Class Queue (S I : Type) := {
  q_add_before : S -> I -> ptr -> M (ptr * S);
  q_add_tail : S -> I -> M (ptr * S);
  q_del : S -> ptr -> M (I * S);
  q_destroy : S -> M S;
  q_head : S -> option ptr;
  q_next : S -> ptr -> option ptr;
  q_find : S -> I -> option ptr;
  q_item : S -> ptr -> option I;
  q_size : S -> Z;
  q_rep : S -> list (loc * I) -> Prop
}.

(** [cmp item x] is the match test of [ListFind]. *)
Class QueueLaws (S I : Type) `{Queue S I} (cmp : I -> I -> bool) : Prop := {
  q_add_before_law md s l1 a y l2 x :
    q_rep s (l1 ++ (a, y) :: l2) ->
    runs md (q_add_before s x (Some a)) (fun '(p, s') =>
      match p with
      | Some b => q_rep s' (l1 ++ (b, x) :: (a, y) :: l2)
      | None => md <> Lucky /\ q_rep s' (l1 ++ (a, y) :: l2)
      end);
  q_add_tail_law md s l x :
    q_rep s l ->
    runs md (q_add_tail s x) (fun '(p, s') =>
      match p with
      | Some b => q_rep s' (l ++ [(b, x)])
      | None => md <> Lucky /\ q_rep s' l
      end);
  q_del_law md s l1 a x l2 :
    q_rep s (l1 ++ (a, x) :: l2) ->
    runs md (q_del s (Some a)) (fun '(y, s') => y = x /\ q_rep s' (l1 ++ l2));
  q_destroy_law md s l : q_rep s l -> runs md (q_destroy s) (fun s' => q_rep s' []);
  q_head_law s l : q_rep s l -> q_head s = Some (fst <$> head l);
  q_next_law s l1 a x l2 :
    q_rep s (l1 ++ (a, x) :: l2) -> q_next s (Some a) = Some (fst <$> head l2);
  q_find_law s l x :
    q_rep s l -> q_find s x = Some (fst <$> find (fun n => cmp x n.2) l);
  q_item_law s l1 a x l2 :
    q_rep s (l1 ++ (a, x) :: l2) -> q_item s (Some a) = Some x;
  q_size_law s l : q_rep s l -> q_size s = zlen l
}.

(** ** The lists of [LinkedList.c] *)

Section Instance.
Context {I : Type} `{!EqDecision I} (null : I) (cmp : I -> I -> bool).

(** The store of the nodes and the list structure. *)
Record qstate : Type := MkQ { q_store : store (ListNode I); q_list : LinkedList I }.

#[export] Instance list_queue : Queue qstate I := {|
  q_add_before s x p :=
    '(r, st, L) ← ListAddBefore (q_store s) (q_list s) x p; mret (r, MkQ st L);
  q_add_tail s x :=
    '(r, st, L) ← ListAddTail (q_store s) (q_list s) x; mret (r, MkQ st L);
  q_del s p :=
    '(i, _, st, L) ← ListDelNode null (q_store s) (q_list s) p false;
    mret (i, MkQ st L);
  q_destroy s :=
    '(_, _, st, L) ← ListDestroy null (q_store s) (q_list s) false;
    mret (MkQ st L);
  q_head s := ListHead (q_store s) (q_list s);
  q_next s p := ListNext (q_store s) (q_list s) p;
  q_find s x := ListFind (q_store s) (q_list s) None x;
  q_item s p := n_item <$> node (q_store s) p;
  q_size s := ListSize (q_list s);
  q_rep s l := ll_rep (q_store s) (q_list s) l /\
    forall a b, item_matches (q_list s) a b = cmp a b
|}.

Lemma same_matches (L L' : LinkedList I) :
  ll_cmp_func L' = ll_cmp_func L -> (forall a b, item_matches L a b = cmp a b) ->
  forall a b, item_matches L' a b = cmp a b.
Proof. unfold item_matches. by intros ->. Qed.

#[export] Instance list_queue_laws : QueueLaws qstate I cmp.
Proof.
  split; intros; destruct s as [st L]; simpl in *;
    repeat match goal with H : ll_rep _ _ _ /\ _ |- _ => destruct H as [Hr Hc] end.
  - mstep. eapply runs_mono.
    { apply (add_before_runs md st L l1 ((a, y) :: l2)
        (default (ll_head L) (fst <$> last l1)) a x Hr).
      destruct (decide (l1 = [])) as [->|Hl].
      - by exists [], (l2.*1 ++ [ll_tail L]).
      - destruct (exists_last Hl) as (l0 & [e z] & ->). unfold between. rewrite last_snoc, fmap_app.
        by exists (ll_head L :: l0.*1), (l2.*1 ++ [ll_tail L]). }
    intros [[[b|] st'] L'] (_ & _ & Hcf & _ & Hadd); apply runs_ret; simpl;
      [|destruct Hadd as [? Hadd]; split; [done|]];
      (split; [done|]; by eapply same_matches).
  - mstep. eapply runs_mono.
    { apply (add_before_runs md st L l [] (default (ll_head L) (fst <$> last l))
        (ll_tail L) x); [by rewrite app_nil_r|].
      destruct (decide (l = [])) as [->|Hl].
      - by exists [], [].
      - destruct (exists_last Hl) as (l0 & [e z] & ->). unfold between. rewrite last_snoc, fmap_app.
        by exists (ll_head L :: l0.*1), []. }
    intros [[[b|] st'] L'] (_ & _ & Hcf & _ & Hadd); apply runs_ret; simpl;
      [|rewrite app_nil_r in Hadd; destruct Hadd as [? Hadd]; split; [done|]];
      (split; [done|]; by eapply same_matches).
  - mstep. eapply runs_mono; [by apply (del_runs null md st L l1 l2 a x false)|].
    intros [[[y f] st'] L'] (Hd & (_ & _ & Hcf & _) & Hr'). apply runs_ret.
    unfold del_result in Hd. simplify_eq/=. split; [done|]. split; [done|].
    by eapply same_matches.
  - mstep. eapply runs_mono; [by apply (destroy_runs null md st L l false)|].
    intros [[[r f] st'] L'] (_ & Hr' & (_ & _ & Hcf & _) & _). apply runs_ret.
    split; [done|]. by eapply same_matches.
  - by apply head_spec.
  - by eapply next_spec.
  - rewrite (find_spec _ _ _ _ Hr). do 2 f_equal.
    apply find_proper; [|done]. intros n. apply Hc.
  - by apply (lr_items _ _ _ Hr a x ltac:(set_solver)).
  - by apply (lr_size _ _ _ Hr).
Qed.

(** ** Initial queues

    A list fresh from [ListInit], and the one left by [ListAddTail] of the
    given items. *)

Definition q_init : qstate :=
  let '(_, st, L) := ListInit null 24 ∅ 1%positive 2%positive (Some cmp) false in
  MkQ st L.

Definition q_of (xs : list I) : qstate :=
  foldl (fun s x => match run (q_add_tail s x) with Some (_, s') => s' | None => s end)
    q_init xs.

Lemma q_init_rep : q_rep q_init [].
Proof.
  destruct (ListInit_rep null 24 ∅ 1%positive 2%positive (Some cmp) false)
    as (_ & Hr & Hc); [done|].
  by split.
Qed.

Lemma q_of_rep xs : exists l, q_rep (q_of xs) l /\ l.*2 = xs.
Proof.
  induction xs as [|x xs IH] using rev_ind; [exists []; split; [apply q_init_rep|done]|].
  destruct IH as (l & Hl & E). unfold q_of. rewrite foldl_snoc. fold (q_of xs).
  destruct (runs_run _ _ (q_add_tail_law Lucky _ _ x Hl)) as ([[b|] s'] & -> & H).
  - exists (l ++ [(b, x)]). split; [done|]. by rewrite fmap_app, E.
  - by destruct H.
Qed.
End Instance.
