(* ===== verification/ThreadPool.v ===== *)
(** The thread pool: [upnp/src/threadutil/ThreadPool.c].

    The pool is a record of the C structure's fields together with the table
    of the threads that run [WorkerThread] on it.  Every function is the
    sequence of reads and writes it does under the pool's mutex; a worker is a
    state machine whose steps are its critical sections.  Waiting on a
    condition variable releases the mutex: [wake c tp] is the state in which
    the other threads leave the pool when they signal the end of the wait [c],
    and the theorems hold for every [wake] that keeps the invariant.

    [gettimeofday] and the calls of the scheduler are arguments.  The queues
    are any implementation of [Queue]; a queued item is the address of a job
    together with the job, which is not written while it is queued. *)

From S2P Require Import Prelude FreeList LinkedList Queue.
From Stdlib Require Import QArith.QArith_base.
#[local] Open Scope Z_scope.
#[local] Set Warnings "-clear-no-such-hyp".

(** ** Data *)

Record timeval := MkTimeval { tv_sec : Z; tv_usec : Z }.
Record timespec := MkTimespec { ts_sec : Z; ts_nsec : Z }.

Definition LOW_PRIORITY : Z := 0.
Definition MED_PRIORITY : Z := 1.
Definition HIGH_PRIORITY : Z := 2.
Definition DEFAULT_PRIORITY : Z := MED_PRIORITY.

Definition EAGAIN : Z := 11.
Definition EPERM : Z := 1.
Definition ETIMEDOUT : Z := 110.
Definition JOBFREELISTSIZE : Z := 100.
Definition INFINITE_THREADS : Z := -1.
Definition EMAXTHREADS : Z := Z.land (-8) (Z.shiftl 1 29).
Definition INVALID_POLICY : Z := Z.land (-9) (Z.shiftl 1 29).
Definition INVALID_JOB_ID : Z := Z.land (-2) (Z.shiftl 1 29).
Definition SCHED_OTHER : Z := 0.
Definition DEFAULT_MIN_THREADS : Z := 1.
Definition DEFAULT_MAX_THREADS : Z := 10.
Definition DEFAULT_STACK_SIZE : Z := 0.
Definition DEFAULT_JOBS_PER_THREAD : Z := 10.
Definition DEFAULT_STARVATION_TIME : Z := 500.
Definition DEFAULT_IDLE_TIME : Z := 10 * 1000.
Definition DEFAULT_FREE_ROUTINE : Z := 0.
Definition DEFAULT_MAX_JOBS_TOTAL : Z := 100.
Definition DEFAULT_POLICY : Z := SCHED_OTHER.

Record ThreadPoolAttr := MkAttr {
  at_minThreads : Z;
  at_maxThreads : Z;
  at_stackSize : Z;
  at_maxIdleTime : Z;
  at_jobsPerThread : Z;
  at_maxJobsTotal : Z;
  at_starvationTime : Z;
  at_schedPolicy : Z
}.

Definition set_at_minThreads (v : Z) (r : ThreadPoolAttr) : ThreadPoolAttr :=
  MkAttr v (at_maxThreads r) (at_stackSize r) (at_maxIdleTime r) (at_jobsPerThread r) (at_maxJobsTotal r) (at_starvationTime r) (at_schedPolicy r).
Definition set_at_maxThreads (v : Z) (r : ThreadPoolAttr) : ThreadPoolAttr :=
  MkAttr (at_minThreads r) v (at_stackSize r) (at_maxIdleTime r) (at_jobsPerThread r) (at_maxJobsTotal r) (at_starvationTime r) (at_schedPolicy r).
Definition set_at_stackSize (v : Z) (r : ThreadPoolAttr) : ThreadPoolAttr :=
  MkAttr (at_minThreads r) (at_maxThreads r) v (at_maxIdleTime r) (at_jobsPerThread r) (at_maxJobsTotal r) (at_starvationTime r) (at_schedPolicy r).
Definition set_at_maxIdleTime (v : Z) (r : ThreadPoolAttr) : ThreadPoolAttr :=
  MkAttr (at_minThreads r) (at_maxThreads r) (at_stackSize r) v (at_jobsPerThread r) (at_maxJobsTotal r) (at_starvationTime r) (at_schedPolicy r).
Definition set_at_jobsPerThread (v : Z) (r : ThreadPoolAttr) : ThreadPoolAttr :=
  MkAttr (at_minThreads r) (at_maxThreads r) (at_stackSize r) (at_maxIdleTime r) v (at_maxJobsTotal r) (at_starvationTime r) (at_schedPolicy r).
Definition set_at_maxJobsTotal (v : Z) (r : ThreadPoolAttr) : ThreadPoolAttr :=
  MkAttr (at_minThreads r) (at_maxThreads r) (at_stackSize r) (at_maxIdleTime r) (at_jobsPerThread r) v (at_starvationTime r) (at_schedPolicy r).
Definition set_at_starvationTime (v : Z) (r : ThreadPoolAttr) : ThreadPoolAttr :=
  MkAttr (at_minThreads r) (at_maxThreads r) (at_stackSize r) (at_maxIdleTime r) (at_jobsPerThread r) (at_maxJobsTotal r) v (at_schedPolicy r).
Definition set_at_schedPolicy (v : Z) (r : ThreadPoolAttr) : ThreadPoolAttr :=
  MkAttr (at_minThreads r) (at_maxThreads r) (at_stackSize r) (at_maxIdleTime r) (at_jobsPerThread r) (at_maxJobsTotal r) (at_starvationTime r) v.

(** The [double] totals only ever hold sums of whole milliseconds or seconds
    and are kept as integers; the averages are their exact quotients. *)
Record ThreadPoolStats := MkStats {
  st_totalTimeHQ : Z;
  st_totalJobsHQ : Z;
  st_avgWaitHQ : Q;
  st_totalTimeMQ : Z;
  st_totalJobsMQ : Z;
  st_avgWaitMQ : Q;
  st_totalTimeLQ : Z;
  st_totalJobsLQ : Z;
  st_avgWaitLQ : Q;
  st_totalWorkTime : Z;
  st_totalIdleTime : Z;
  st_workerThreads : Z;
  st_idleThreads : Z;
  st_persistentThreads : Z;
  st_totalThreads : Z;
  st_maxThreads : Z;
  st_currentJobsHQ : Z;
  st_currentJobsLQ : Z;
  st_currentJobsMQ : Z
}.

Definition set_st_totalTimeHQ (v : Z) (r : ThreadPoolStats) : ThreadPoolStats :=
  MkStats v (st_totalJobsHQ r) (st_avgWaitHQ r) (st_totalTimeMQ r) (st_totalJobsMQ r) (st_avgWaitMQ r) (st_totalTimeLQ r) (st_totalJobsLQ r) (st_avgWaitLQ r) (st_totalWorkTime r) (st_totalIdleTime r) (st_workerThreads r) (st_idleThreads r) (st_persistentThreads r) (st_totalThreads r) (st_maxThreads r) (st_currentJobsHQ r) (st_currentJobsLQ r) (st_currentJobsMQ r).
Definition set_st_totalJobsHQ (v : Z) (r : ThreadPoolStats) : ThreadPoolStats :=
  MkStats (st_totalTimeHQ r) v (st_avgWaitHQ r) (st_totalTimeMQ r) (st_totalJobsMQ r) (st_avgWaitMQ r) (st_totalTimeLQ r) (st_totalJobsLQ r) (st_avgWaitLQ r) (st_totalWorkTime r) (st_totalIdleTime r) (st_workerThreads r) (st_idleThreads r) (st_persistentThreads r) (st_totalThreads r) (st_maxThreads r) (st_currentJobsHQ r) (st_currentJobsLQ r) (st_currentJobsMQ r).
Definition set_st_totalTimeMQ (v : Z) (r : ThreadPoolStats) : ThreadPoolStats :=
  MkStats (st_totalTimeHQ r) (st_totalJobsHQ r) (st_avgWaitHQ r) v (st_totalJobsMQ r) (st_avgWaitMQ r) (st_totalTimeLQ r) (st_totalJobsLQ r) (st_avgWaitLQ r) (st_totalWorkTime r) (st_totalIdleTime r) (st_workerThreads r) (st_idleThreads r) (st_persistentThreads r) (st_totalThreads r) (st_maxThreads r) (st_currentJobsHQ r) (st_currentJobsLQ r) (st_currentJobsMQ r).
Definition set_st_totalJobsMQ (v : Z) (r : ThreadPoolStats) : ThreadPoolStats :=
  MkStats (st_totalTimeHQ r) (st_totalJobsHQ r) (st_avgWaitHQ r) (st_totalTimeMQ r) v (st_avgWaitMQ r) (st_totalTimeLQ r) (st_totalJobsLQ r) (st_avgWaitLQ r) (st_totalWorkTime r) (st_totalIdleTime r) (st_workerThreads r) (st_idleThreads r) (st_persistentThreads r) (st_totalThreads r) (st_maxThreads r) (st_currentJobsHQ r) (st_currentJobsLQ r) (st_currentJobsMQ r).
Definition set_st_totalTimeLQ (v : Z) (r : ThreadPoolStats) : ThreadPoolStats :=
  MkStats (st_totalTimeHQ r) (st_totalJobsHQ r) (st_avgWaitHQ r) (st_totalTimeMQ r) (st_totalJobsMQ r) (st_avgWaitMQ r) v (st_totalJobsLQ r) (st_avgWaitLQ r) (st_totalWorkTime r) (st_totalIdleTime r) (st_workerThreads r) (st_idleThreads r) (st_persistentThreads r) (st_totalThreads r) (st_maxThreads r) (st_currentJobsHQ r) (st_currentJobsLQ r) (st_currentJobsMQ r).
Definition set_st_totalJobsLQ (v : Z) (r : ThreadPoolStats) : ThreadPoolStats :=
  MkStats (st_totalTimeHQ r) (st_totalJobsHQ r) (st_avgWaitHQ r) (st_totalTimeMQ r) (st_totalJobsMQ r) (st_avgWaitMQ r) (st_totalTimeLQ r) v (st_avgWaitLQ r) (st_totalWorkTime r) (st_totalIdleTime r) (st_workerThreads r) (st_idleThreads r) (st_persistentThreads r) (st_totalThreads r) (st_maxThreads r) (st_currentJobsHQ r) (st_currentJobsLQ r) (st_currentJobsMQ r).
Definition set_st_totalWorkTime (v : Z) (r : ThreadPoolStats) : ThreadPoolStats :=
  MkStats (st_totalTimeHQ r) (st_totalJobsHQ r) (st_avgWaitHQ r) (st_totalTimeMQ r) (st_totalJobsMQ r) (st_avgWaitMQ r) (st_totalTimeLQ r) (st_totalJobsLQ r) (st_avgWaitLQ r) v (st_totalIdleTime r) (st_workerThreads r) (st_idleThreads r) (st_persistentThreads r) (st_totalThreads r) (st_maxThreads r) (st_currentJobsHQ r) (st_currentJobsLQ r) (st_currentJobsMQ r).
Definition set_st_totalIdleTime (v : Z) (r : ThreadPoolStats) : ThreadPoolStats :=
  MkStats (st_totalTimeHQ r) (st_totalJobsHQ r) (st_avgWaitHQ r) (st_totalTimeMQ r) (st_totalJobsMQ r) (st_avgWaitMQ r) (st_totalTimeLQ r) (st_totalJobsLQ r) (st_avgWaitLQ r) (st_totalWorkTime r) v (st_workerThreads r) (st_idleThreads r) (st_persistentThreads r) (st_totalThreads r) (st_maxThreads r) (st_currentJobsHQ r) (st_currentJobsLQ r) (st_currentJobsMQ r).
Definition set_st_workerThreads (v : Z) (r : ThreadPoolStats) : ThreadPoolStats :=
  MkStats (st_totalTimeHQ r) (st_totalJobsHQ r) (st_avgWaitHQ r) (st_totalTimeMQ r) (st_totalJobsMQ r) (st_avgWaitMQ r) (st_totalTimeLQ r) (st_totalJobsLQ r) (st_avgWaitLQ r) (st_totalWorkTime r) (st_totalIdleTime r) v (st_idleThreads r) (st_persistentThreads r) (st_totalThreads r) (st_maxThreads r) (st_currentJobsHQ r) (st_currentJobsLQ r) (st_currentJobsMQ r).
Definition set_st_idleThreads (v : Z) (r : ThreadPoolStats) : ThreadPoolStats :=
  MkStats (st_totalTimeHQ r) (st_totalJobsHQ r) (st_avgWaitHQ r) (st_totalTimeMQ r) (st_totalJobsMQ r) (st_avgWaitMQ r) (st_totalTimeLQ r) (st_totalJobsLQ r) (st_avgWaitLQ r) (st_totalWorkTime r) (st_totalIdleTime r) (st_workerThreads r) v (st_persistentThreads r) (st_totalThreads r) (st_maxThreads r) (st_currentJobsHQ r) (st_currentJobsLQ r) (st_currentJobsMQ r).
Definition set_st_maxThreads (v : Z) (r : ThreadPoolStats) : ThreadPoolStats :=
  MkStats (st_totalTimeHQ r) (st_totalJobsHQ r) (st_avgWaitHQ r) (st_totalTimeMQ r) (st_totalJobsMQ r) (st_avgWaitMQ r) (st_totalTimeLQ r) (st_totalJobsLQ r) (st_avgWaitLQ r) (st_totalWorkTime r) (st_totalIdleTime r) (st_workerThreads r) (st_idleThreads r) (st_persistentThreads r) (st_totalThreads r) v (st_currentJobsHQ r) (st_currentJobsLQ r) (st_currentJobsMQ r).

(** Functions and arguments are addresses, 0 for [NULL]. *)
Record ThreadPoolJob := MkJob {
  j_func : Z;
  j_arg : Z;
  j_free_func : Z;
  j_requestTime : timeval;
  j_priority : Z;
  j_jobId : Z
}.

Definition item : Type := loc * ThreadPoolJob.

(** A thread running [WorkerThread], by the critical section it will enter
    next: the one that counts it, the top of the main loop (with the job it
    has run, its local [persistent] and [start]), or the inner loop after its
    timed wait. *)
Inductive worker :=
| WStart
| WReady (job : option item) (persistent start : Z)
| WWait (persistent start : Z) (timeout : timespec).

Record ThreadPool (LQ : Type) := MkTP {
  tp_lastJobId : Z;
  tp_shutdown : Z;
  tp_totalThreads : Z;
  tp_pendingWorkerThreadStart : Z;
  tp_busyThreads : Z;
  tp_persistentThreads : Z;
  tp_jobs : store ThreadPoolJob;
  tp_jobFreeList : FreeList;
  tp_lowJobQ : LQ;
  tp_medJobQ : LQ;
  tp_highJobQ : LQ;
  tp_persistentJob : option item;
  tp_attr : ThreadPoolAttr;
  tp_stats : ThreadPoolStats;
  tp_workers : list worker
}.
Arguments MkTP {LQ}.
Arguments tp_lastJobId {LQ} _.
Arguments tp_shutdown {LQ} _.
Arguments tp_totalThreads {LQ} _.
Arguments tp_pendingWorkerThreadStart {LQ} _.
Arguments tp_busyThreads {LQ} _.
Arguments tp_persistentThreads {LQ} _.
Arguments tp_jobs {LQ} _.
Arguments tp_jobFreeList {LQ} _.
Arguments tp_lowJobQ {LQ} _.
Arguments tp_medJobQ {LQ} _.
Arguments tp_highJobQ {LQ} _.
Arguments tp_persistentJob {LQ} _.
Arguments tp_attr {LQ} _.
Arguments tp_stats {LQ} _.
Arguments tp_workers {LQ} _.

(** The waits of the API functions. *)
Inductive wait_cond := PendingStart | PersistentWaiting | ThreadsLeft.

(** [CmpThreadPoolJob], on two items. *)
Definition CmpThreadPoolJob (a b : item) : bool :=
  j_jobId a.2 =? j_jobId b.2.

(** ** Times *)

(** The conversions to [double] are exact and the quotient is truncated. *)
Definition DiffMillis (time1 time2 : timeval) : Z :=
  Z.quot ((tv_sec time1 - tv_sec time2) * 1000000
          + (tv_usec time1 - tv_usec time2)) 1000.

Definition SetRelTimeout (now : timeval) (relMillis : Z) : timespec :=
  let sec := Z.quot relMillis 1000 in
  let milliSeconds := Z.rem relMillis 1000 in
  MkTimespec (tv_sec now + sec) ((Z.quot (tv_usec now) 1000 + milliSeconds) * 1000000).

Definition StatsTime (now : timeval) : Z := tv_sec now.

(** ** Scheduling parameters *)

(** [sched_setscheduler] returns its result and [errno]. *)
Definition SetPolicyType (sched_get_priority_min : Z -> Z)
    (sched_setscheduler : Z -> Z -> Z * Z) (policy : Z) : Z :=
  let '(sched_result, errno) :=
    sched_setscheduler policy (sched_get_priority_min DEFAULT_POLICY) in
  if negb (sched_result =? -1) || (errno =? EPERM) then 0 else errno.

(** [currentPolicy] is what [pthread_getschedparam] reports. *)
Definition SetPriority (sched_get_priority_min sched_get_priority_max : Z -> Z)
    (pthread_setschedparam : Z -> Z -> Z * Z) (currentPolicy priority : Z) : Z :=
  let minPriority := sched_get_priority_min currentPolicy in
  let maxPriority := sched_get_priority_max currentPolicy in
  let midPriority := Z.quot (maxPriority - minPriority) 2 in
  let set actPriority :=
    let '(sched_result, errno) := pthread_setschedparam currentPolicy actPriority in
    if (sched_result =? 0) || (errno =? EPERM) then 0 else sched_result in
  if priority =? LOW_PRIORITY then set minPriority
  else if priority =? MED_PRIORITY then set midPriority
  else if priority =? HIGH_PRIORITY then set maxPriority
  else EINVAL.

(** ** Attributes and jobs

    The functions that fill in a structure return the status and the
    structure; [None] is a [NULL] argument. *)

Definition TPAttrInit (attr : option ThreadPoolAttr) : Z * option ThreadPoolAttr :=
  match attr with
  | None => (EINVAL, None)
  | Some _ =>
      (0, Some (MkAttr DEFAULT_MIN_THREADS DEFAULT_MAX_THREADS DEFAULT_STACK_SIZE
                  DEFAULT_IDLE_TIME DEFAULT_JOBS_PER_THREAD DEFAULT_MAX_JOBS_TOTAL
                  DEFAULT_STARVATION_TIME DEFAULT_POLICY))
  end.

Definition default_attr : ThreadPoolAttr :=
  MkAttr DEFAULT_MIN_THREADS DEFAULT_MAX_THREADS DEFAULT_STACK_SIZE
    DEFAULT_IDLE_TIME DEFAULT_JOBS_PER_THREAD DEFAULT_MAX_JOBS_TOTAL
    DEFAULT_STARVATION_TIME DEFAULT_POLICY.

Definition TPJobInit (job : option ThreadPoolJob) (func arg : Z)
    : Z * option ThreadPoolJob :=
  match job with
  | None => (EINVAL, None)
  | Some j =>
      if func =? 0 then (EINVAL, Some j)
      else (0, Some (MkJob func arg DEFAULT_FREE_ROUTINE (j_requestTime j)
                       DEFAULT_PRIORITY (j_jobId j)))
  end.

Definition TPJobSetPriority (job : option ThreadPoolJob) (priority : Z)
    : Z * option ThreadPoolJob :=
  match job with
  | None => (EINVAL, None)
  | Some j =>
      if (priority =? LOW_PRIORITY) || (priority =? MED_PRIORITY)
         || (priority =? HIGH_PRIORITY)
      then (0, Some (MkJob (j_func j) (j_arg j) (j_free_func j) (j_requestTime j)
                       priority (j_jobId j)))
      else (EINVAL, Some j)
  end.

Definition TPJobSetFreeFunction (job : option ThreadPoolJob) (func : Z)
    : Z * option ThreadPoolJob :=
  match job with
  | None => (EINVAL, None)
  | Some j => (0, Some (MkJob (j_func j) (j_arg j) func (j_requestTime j)
                          (j_priority j) (j_jobId j)))
  end.

(** The [TPAttrSet] functions: a NULL check and one assignment. *)
Definition attr_set (attr : option ThreadPoolAttr)
    (set : ThreadPoolAttr -> ThreadPoolAttr) : Z * option ThreadPoolAttr :=
  match attr with None => (EINVAL, None) | Some a => (0, Some (set a)) end.

Definition TPAttrSetMaxThreads attr v := attr_set attr (set_at_maxThreads v).
Definition TPAttrSetMinThreads attr v := attr_set attr (set_at_minThreads v).
Definition TPAttrSetStackSize attr v := attr_set attr (set_at_stackSize v).
Definition TPAttrSetIdleTime attr v := attr_set attr (set_at_maxIdleTime v).
Definition TPAttrSetJobsPerThread attr v := attr_set attr (set_at_jobsPerThread v).
Definition TPAttrSetStarvationTime attr v := attr_set attr (set_at_starvationTime v).
Definition TPAttrSetSchedPolicy attr v := attr_set attr (set_at_schedPolicy v).
Definition TPAttrSetMaxJobsTotal attr v := attr_set attr (set_at_maxJobsTotal v).

Definition StatsInit (s : ThreadPoolStats) : ThreadPoolStats :=
  MkStats 0 0 0%Q 0 0 0%Q 0 0 0%Q 0 0 0 0 0 0 0
    (st_currentJobsHQ s) (st_currentJobsLQ s) (st_currentJobsMQ s).

Section ThreadPool.
Context {LQ : Type} {QO : Queue LQ item} {QL : QueueLaws LQ item CmpThreadPoolJob}.

Abbreviation pool := (ThreadPool LQ).
Implicit Types (tp : pool).

Definition set_tp_lastJobId (v : Z) (r : ThreadPool LQ) : ThreadPool LQ :=
  MkTP v (tp_shutdown r) (tp_totalThreads r) (tp_pendingWorkerThreadStart r) (tp_busyThreads r) (tp_persistentThreads r) (tp_jobs r) (tp_jobFreeList r) (tp_lowJobQ r) (tp_medJobQ r) (tp_highJobQ r) (tp_persistentJob r) (tp_attr r) (tp_stats r) (tp_workers r).
Definition set_tp_shutdown (v : Z) (r : ThreadPool LQ) : ThreadPool LQ :=
  MkTP (tp_lastJobId r) v (tp_totalThreads r) (tp_pendingWorkerThreadStart r) (tp_busyThreads r) (tp_persistentThreads r) (tp_jobs r) (tp_jobFreeList r) (tp_lowJobQ r) (tp_medJobQ r) (tp_highJobQ r) (tp_persistentJob r) (tp_attr r) (tp_stats r) (tp_workers r).
Definition set_tp_totalThreads (v : Z) (r : ThreadPool LQ) : ThreadPool LQ :=
  MkTP (tp_lastJobId r) (tp_shutdown r) v (tp_pendingWorkerThreadStart r) (tp_busyThreads r) (tp_persistentThreads r) (tp_jobs r) (tp_jobFreeList r) (tp_lowJobQ r) (tp_medJobQ r) (tp_highJobQ r) (tp_persistentJob r) (tp_attr r) (tp_stats r) (tp_workers r).
Definition set_tp_pendingWorkerThreadStart (v : Z) (r : ThreadPool LQ) : ThreadPool LQ :=
  MkTP (tp_lastJobId r) (tp_shutdown r) (tp_totalThreads r) v (tp_busyThreads r) (tp_persistentThreads r) (tp_jobs r) (tp_jobFreeList r) (tp_lowJobQ r) (tp_medJobQ r) (tp_highJobQ r) (tp_persistentJob r) (tp_attr r) (tp_stats r) (tp_workers r).
Definition set_tp_busyThreads (v : Z) (r : ThreadPool LQ) : ThreadPool LQ :=
  MkTP (tp_lastJobId r) (tp_shutdown r) (tp_totalThreads r) (tp_pendingWorkerThreadStart r) v (tp_persistentThreads r) (tp_jobs r) (tp_jobFreeList r) (tp_lowJobQ r) (tp_medJobQ r) (tp_highJobQ r) (tp_persistentJob r) (tp_attr r) (tp_stats r) (tp_workers r).
Definition set_tp_persistentThreads (v : Z) (r : ThreadPool LQ) : ThreadPool LQ :=
  MkTP (tp_lastJobId r) (tp_shutdown r) (tp_totalThreads r) (tp_pendingWorkerThreadStart r) (tp_busyThreads r) v (tp_jobs r) (tp_jobFreeList r) (tp_lowJobQ r) (tp_medJobQ r) (tp_highJobQ r) (tp_persistentJob r) (tp_attr r) (tp_stats r) (tp_workers r).
Definition set_tp_jobs (v : store ThreadPoolJob) (r : ThreadPool LQ) : ThreadPool LQ :=
  MkTP (tp_lastJobId r) (tp_shutdown r) (tp_totalThreads r) (tp_pendingWorkerThreadStart r) (tp_busyThreads r) (tp_persistentThreads r) v (tp_jobFreeList r) (tp_lowJobQ r) (tp_medJobQ r) (tp_highJobQ r) (tp_persistentJob r) (tp_attr r) (tp_stats r) (tp_workers r).
Definition set_tp_jobFreeList (v : FreeList) (r : ThreadPool LQ) : ThreadPool LQ :=
  MkTP (tp_lastJobId r) (tp_shutdown r) (tp_totalThreads r) (tp_pendingWorkerThreadStart r) (tp_busyThreads r) (tp_persistentThreads r) (tp_jobs r) v (tp_lowJobQ r) (tp_medJobQ r) (tp_highJobQ r) (tp_persistentJob r) (tp_attr r) (tp_stats r) (tp_workers r).
Definition set_tp_lowJobQ (v : LQ) (r : ThreadPool LQ) : ThreadPool LQ :=
  MkTP (tp_lastJobId r) (tp_shutdown r) (tp_totalThreads r) (tp_pendingWorkerThreadStart r) (tp_busyThreads r) (tp_persistentThreads r) (tp_jobs r) (tp_jobFreeList r) v (tp_medJobQ r) (tp_highJobQ r) (tp_persistentJob r) (tp_attr r) (tp_stats r) (tp_workers r).
Definition set_tp_medJobQ (v : LQ) (r : ThreadPool LQ) : ThreadPool LQ :=
  MkTP (tp_lastJobId r) (tp_shutdown r) (tp_totalThreads r) (tp_pendingWorkerThreadStart r) (tp_busyThreads r) (tp_persistentThreads r) (tp_jobs r) (tp_jobFreeList r) (tp_lowJobQ r) v (tp_highJobQ r) (tp_persistentJob r) (tp_attr r) (tp_stats r) (tp_workers r).
Definition set_tp_highJobQ (v : LQ) (r : ThreadPool LQ) : ThreadPool LQ :=
  MkTP (tp_lastJobId r) (tp_shutdown r) (tp_totalThreads r) (tp_pendingWorkerThreadStart r) (tp_busyThreads r) (tp_persistentThreads r) (tp_jobs r) (tp_jobFreeList r) (tp_lowJobQ r) (tp_medJobQ r) v (tp_persistentJob r) (tp_attr r) (tp_stats r) (tp_workers r).
Definition set_tp_persistentJob (v : option item) (r : ThreadPool LQ) : ThreadPool LQ :=
  MkTP (tp_lastJobId r) (tp_shutdown r) (tp_totalThreads r) (tp_pendingWorkerThreadStart r) (tp_busyThreads r) (tp_persistentThreads r) (tp_jobs r) (tp_jobFreeList r) (tp_lowJobQ r) (tp_medJobQ r) (tp_highJobQ r) v (tp_attr r) (tp_stats r) (tp_workers r).
Definition set_tp_attr (v : ThreadPoolAttr) (r : ThreadPool LQ) : ThreadPool LQ :=
  MkTP (tp_lastJobId r) (tp_shutdown r) (tp_totalThreads r) (tp_pendingWorkerThreadStart r) (tp_busyThreads r) (tp_persistentThreads r) (tp_jobs r) (tp_jobFreeList r) (tp_lowJobQ r) (tp_medJobQ r) (tp_highJobQ r) (tp_persistentJob r) v (tp_stats r) (tp_workers r).
Definition set_tp_stats (v : ThreadPoolStats) (r : ThreadPool LQ) : ThreadPool LQ :=
  MkTP (tp_lastJobId r) (tp_shutdown r) (tp_totalThreads r) (tp_pendingWorkerThreadStart r) (tp_busyThreads r) (tp_persistentThreads r) (tp_jobs r) (tp_jobFreeList r) (tp_lowJobQ r) (tp_medJobQ r) (tp_highJobQ r) (tp_persistentJob r) (tp_attr r) v (tp_workers r).
Definition set_tp_workers (v : list worker) (r : ThreadPool LQ) : ThreadPool LQ :=
  MkTP (tp_lastJobId r) (tp_shutdown r) (tp_totalThreads r) (tp_pendingWorkerThreadStart r) (tp_busyThreads r) (tp_persistentThreads r) (tp_jobs r) (tp_jobFreeList r) (tp_lowJobQ r) (tp_medJobQ r) (tp_highJobQ r) (tp_persistentJob r) (tp_attr r) (tp_stats r) v.

Definition upd_stats (f : ThreadPoolStats -> ThreadPoolStats) tp : pool :=
  set_tp_stats (f (tp_stats tp)) tp.

(** ** Statistics *)

Definition StatsAccountLQ tp (diffTime : Z) : pool :=
  upd_stats (fun s => set_st_totalTimeLQ (st_totalTimeLQ s + diffTime)
    (set_st_totalJobsLQ (st_totalJobsLQ s + 1) s)) tp.
Definition StatsAccountMQ tp (diffTime : Z) : pool :=
  upd_stats (fun s => set_st_totalTimeMQ (st_totalTimeMQ s + diffTime)
    (set_st_totalJobsMQ (st_totalJobsMQ s + 1) s)) tp.
Definition StatsAccountHQ tp (diffTime : Z) : pool :=
  upd_stats (fun s => set_st_totalTimeHQ (st_totalTimeHQ s + diffTime)
    (set_st_totalJobsHQ (st_totalJobsHQ s + 1) s)) tp.

Definition CalcWaitTime (now : timeval) tp (p : Z) (job : ThreadPoolJob) : M pool :=
  let diff := DiffMillis now (j_requestTime job) in
  if p =? LOW_PRIORITY then mret (StatsAccountLQ tp diff)
  else if p =? MED_PRIORITY then mret (StatsAccountMQ tp diff)
  else if p =? HIGH_PRIORITY then mret (StatsAccountHQ tp diff)
  else _ ← assertM false; mret tp.

(** ** Jobs *)

Definition FreeThreadPoolJob tp (tpj : item) : M pool :=
  '(_, st, fl) ← liftO (FreeListFree (tp_jobs tp) (tp_jobFreeList tp) (Some tpj.1));
  mret (set_tp_jobs st (set_tp_jobFreeList fl tp)).

Definition CreateThreadPoolJob (now : timeval) (job : ThreadPoolJob) (id : Z) tp
    : M (option item * pool) :=
  '(newJob, st, fl) ← FreeListAlloc (tp_jobs tp) (tp_jobFreeList tp);
  match newJob with
  | Some l =>
      let j := MkJob (j_func job) (j_arg job) (j_free_func job) now
                 (j_priority job) id in
      mret (Some (l, j),
            set_tp_jobs (<[l := Obj j]> st) (set_tp_jobFreeList fl tp))
  | None => mret (None, set_tp_jobs st (set_tp_jobFreeList fl tp))
  end.

(** One pass of the loop of [BumpPriority] over the medium queue ... *)
Definition bump_med (now : timeval) tp : M (option pool) :=
  if q_size (tp_medJobQ tp) =? 0 then mret None
  else
    first ← liftO (q_head (tp_medJobQ tp));
    tempJob ← liftO (q_item (tp_medJobQ tp) first);
    let diffTime := DiffMillis now (j_requestTime tempJob.2) in
    if at_starvationTime (tp_attr tp) <=? diffTime then
      let tp := StatsAccountMQ tp diffTime in
      '(_, mq) ← q_del (tp_medJobQ tp) first;
      '(_, hq) ← q_add_tail (tp_highJobQ tp) tempJob;
      mret (Some (set_tp_medJobQ mq (set_tp_highJobQ hq tp)))
    else mret None.

(** ... and over the low one. *)
Definition bump_low (now : timeval) tp : M (option pool) :=
  if q_size (tp_lowJobQ tp) =? 0 then mret None
  else
    first ← liftO (q_head (tp_lowJobQ tp));
    tempJob ← liftO (q_item (tp_lowJobQ tp) first);
    let diffTime := DiffMillis now (j_requestTime tempJob.2) in
    if at_maxIdleTime (tp_attr tp) <=? diffTime then
      let tp := StatsAccountLQ tp diffTime in
      '(_, lq) ← q_del (tp_lowJobQ tp) first;
      '(_, mq) ← q_add_tail (tp_medJobQ tp) tempJob;
      mret (Some (set_tp_lowJobQ lq (set_tp_medJobQ mq tp)))
    else mret None.

Fixpoint bump_loop (fuel : nat) (now : timeval) tp : M pool :=
  match fuel with
  | O => running
  | S fuel' =>
      r ← bump_med now tp;
      match r with
      | Some tp' => bump_loop fuel' now tp'
      | None =>
          r ← bump_low now tp;
          match r with
          | Some tp' => bump_loop fuel' now tp'
          | None => mret tp
          end
      end
  end.

(** Each pass moves one job one queue up. *)
Definition BumpPriority (now : timeval) tp : M pool :=
  bump_loop (S (Z.to_nat (q_size (tp_medJobQ tp) + 2 * q_size (tp_lowJobQ tp))))
    now tp.

(** ** Worker threads *)

Definition worker_exit tp : pool :=
  set_tp_totalThreads (tp_totalThreads tp - 1) tp.

(** The first critical section of [WorkerThread]. *)
Definition worker_start (now : timeval) tp : pool * option worker :=
  (set_tp_pendingWorkerThreadStart 0
     (set_tp_totalThreads (tp_totalThreads tp + 1) tp),
   Some (WReady None (-1) (StatsTime now))).

(** The head of [q] is taken and accounted for at priority [p]; [put] stores
    the new queue. *)
Definition take_job (now : timeval) (q : LQ) (p : Z) (put : LQ -> pool -> pool) tp
    : M (pool * option item) :=
  head ← liftO (q_head q);
  match head with
  | None =>
      mret (upd_stats (fun s => set_st_workerThreads (st_workerThreads s - 1) s) tp, None)
  | Some _ =>
      job ← liftO (q_item q head);
      tp ← CalcWaitTime now tp p job.2;
      '(_, q') ← q_del q head;
      mret (put q' tp, Some job)
  end.

(** The highest priority job. *)
Definition pick_job (now : timeval) tp : M (pool * option item) :=
  if 0 <? q_size (tp_highJobQ tp) then
    take_job now (tp_highJobQ tp) HIGH_PRIORITY set_tp_highJobQ tp
  else if 0 <? q_size (tp_medJobQ tp) then
    take_job now (tp_medJobQ tp) MED_PRIORITY set_tp_medJobQ tp
  else if 0 <? q_size (tp_lowJobQ tp) then
    take_job now (tp_lowJobQ tp) LOW_PRIORITY set_tp_lowJobQ tp
  else
    mret (upd_stats (fun s => set_st_workerThreads (st_workerThreads s - 1) s) tp, None).

(** From the end of the inner loop to the [unlock] before the job is run:
    [None] when the thread exits. *)
Definition worker_pick (now : timeval) (start : Z) tp : M (pool * option worker) :=
  let tp := upd_stats (fun s => set_st_totalIdleTime
              (st_totalIdleTime s + (StatsTime now - start))
              (set_st_idleThreads (st_idleThreads s - 1) s)) tp in
  let start := StatsTime now in
  tp ← BumpPriority now tp;
  if negb (tp_shutdown tp =? 0) then mret (worker_exit tp, None)
  else
    '(tp, job, persistent) ←
      match tp_persistentJob tp with
      | Some j =>
          mret (set_tp_persistentThreads (tp_persistentThreads tp + 1)
                  (set_tp_persistentJob None tp), Some j, 1)
      | None =>
          let tp := upd_stats
            (fun s => set_st_workerThreads (st_workerThreads s + 1) s) tp in
          '(tp, j) ← pick_job now tp;
          mret (tp, j, 0)
      end;
    match job with
    | None => mret (worker_exit tp, None)
    | Some j =>
        mret (set_tp_busyThreads (tp_busyThreads tp + 1) tp,
              Some (WReady (Some j) persistent start))
    end.

Definition no_work tp : bool :=
  (q_size (tp_lowJobQ tp) =? 0) && (q_size (tp_medJobQ tp) =? 0)
  && (q_size (tp_highJobQ tp) =? 0)
  && (match tp_persistentJob tp with None => true | Some _ => false end)
  && (tp_shutdown tp =? 0).

(** One test of the inner loop and what follows it up to the next wait. *)
Definition worker_loop (retCode : Z) (now : timeval) (persistent start : Z) tp
    : M (pool * option worker) :=
  if no_work tp then
    if ((retCode =? ETIMEDOUT) && (at_minThreads (tp_attr tp) <? tp_totalThreads tp))
       || (negb (at_maxThreads (tp_attr tp) =? -1)
           && (at_maxThreads (tp_attr tp) <? tp_totalThreads tp))
    then
      mret (worker_exit (upd_stats
              (fun s => set_st_idleThreads (st_idleThreads s - 1) s) tp), None)
    else
      mret (tp, Some (WWait persistent start
                        (SetRelTimeout now (at_maxIdleTime (tp_attr tp)))))
  else worker_pick now start tp.

(** The top of the main loop, up to the inner loop. *)
Definition worker_top (now : timeval) (job : option item) (persistent start : Z) tp
    : M pool :=
  tp ← match job with
       | Some j => FreeThreadPoolJob (set_tp_busyThreads (tp_busyThreads tp - 1) tp) j
       | None => mret tp
       end;
  let tp := upd_stats (fun s => set_st_totalWorkTime
              (st_totalWorkTime s + (StatsTime now - start))
              (set_st_idleThreads (st_idleThreads s + 1) s)) tp in
  mret (if persistent =? 0 then
          upd_stats (fun s => set_st_workerThreads (st_workerThreads s - 1) s) tp
        else if persistent =? 1 then
          set_tp_persistentThreads (tp_persistentThreads tp - 1) tp
        else tp).

(** One critical section of a worker; [retCode] is the result of the wait it
    leaves, if any, [now0] and [now] the clock at the top of the main loop and
    after the inner loop. *)
Definition worker_section (retCode : Z) (now0 now : timeval) (w : worker) tp
    : M (pool * option worker) :=
  match w with
  | WStart => mret (worker_start now tp)
  | WReady job persistent start =>
      tp ← worker_top now0 job persistent start tp;
      worker_loop 0 now persistent (StatsTime now0) tp
  | WWait persistent start _ => worker_loop retCode now persistent start tp
  end.

(** The section of the [i]-th thread of the table. *)
Definition worker_step (i : nat) (retCode : Z) (now0 now : timeval) tp : M pool :=
  w ← liftO (tp_workers tp !! i);
  '(tp', w') ← worker_section retCode now0 now w tp;
  mret (set_tp_workers (option_list w' ++ delete i (tp_workers tp)) tp').

(** ** Operations of the pool *)

(** ** Invariant

    The pool [tp] run by the threads [ws]; [hl], [ml] and [ll] are the queued
    jobs, [leak] the jobs lost when a queue node could not be allocated, and
    [e] jobs owned by a caller. *)

Definition wsum (f : worker -> Z) (ws : list worker) : Z :=
  foldr (fun w n => f w + n) 0 ws.

Definition w_items (w : worker) : list item :=
  match w with WReady (Some j) _ _ => [j] | _ => [] end.
Definition w_pending (w : worker) : Z := match w with WStart => 1 | _ => 0 end.
Definition w_started (w : worker) : Z := match w with WStart => 0 | _ => 1 end.
Definition w_busy (w : worker) : Z :=
  match w with WReady (Some _) _ _ => 1 | _ => 0 end.
Definition w_persistent (w : worker) : Z :=
  match w with WReady _ p _ => if p =? 1 then 1 else 0 | _ => 0 end.

(** A thread has its job and its [persistent] flag from the same pass. *)
Definition w_ok (w : worker) : Prop :=
  match w with
  | WReady None p _ => p = -1
  | WReady (Some _) p _ => p = 0 \/ p = 1
  | _ => True
  end.

Definition all_jobs (hl ml ll : list (loc * item)) : list item :=
  hl.*2 ++ ml.*2 ++ ll.*2.

(** [limit] bounds the [maxThreads] of all attributes the pool is given over
    its life; a pool that may have any number of threads is bounded by
    [INFINITE_THREADS]. *)
Context (limit : Z).
Definition within (a : ThreadPoolAttr) : Prop :=
  limit = INFINITE_THREADS \/
  (at_maxThreads a <> INFINITE_THREADS /\ at_maxThreads a <= limit).

Record tp_rep (e : list item) tp (ws : list worker)
    (hl ml ll : list (loc * item)) (leak : list item) : Prop := {
  r_high : q_rep (tp_highJobQ tp) hl;
  r_med : q_rep (tp_medJobQ tp) ml;
  r_low : q_rep (tp_lowJobQ tp) ll;
  r_jobs : objs_ok (tp_jobs tp) (tp_jobFreeList tp)
             (e ++ leak ++ all_jobs hl ml ll ++ option_list (tp_persistentJob tp)
              ++ (ws ≫= w_items));
  r_ok : Forall w_ok ws;
  r_total : tp_totalThreads tp = wsum w_started ws;
  r_pending : tp_pendingWorkerThreadStart tp = wsum w_pending ws;
  r_pending_le : tp_pendingWorkerThreadStart tp <= 1;
  r_busy : tp_busyThreads tp = wsum w_busy ws;
  r_persistent : tp_persistentThreads tp = wsum w_persistent ws;
  r_max : limit = INFINITE_THREADS \/
          tp_totalThreads tp + tp_pendingWorkerThreadStart tp <= limit;
  r_attr : within (tp_attr tp)
}.

Definition tp_inv (e : list item) tp : Prop :=
  exists hl ml ll leak, tp_rep e tp (tp_workers tp) hl ml ll leak.

(** ** Lemmas on the parts of the pool *)

#[local] Instance wsum_perm f : Proper ((≡ₚ) ==> eq) (wsum f).
Proof. intros l k H. unfold wsum. induction H; simpl; lia. Qed.

Lemma wsum_nonneg f ws : (forall w, 0 <= f w) -> 0 <= wsum f ws.
Proof.
  intros Hf. induction ws as [|w ws IH]; simpl; [lia|]. pose proof (Hf w). lia.
Qed.

#[local] Instance tp_rep_perm e tp : 
  Proper ((≡ₚ) ==> eq ==> eq ==> eq ==> eq ==> iff) (tp_rep e tp).
Proof.
  intros ws ws' Hw hl ? <- ml ? <- ll ? <- leak ? <-.
  assert (forall a b, a ≡ₚ b ->
    tp_rep e tp a hl ml ll leak -> tp_rep e tp b hl ml ll leak) as H.
  { intros a b Hab [????????????]; split; try done; by rewrite <- Hab. }
  split; by apply H.
Qed.

Lemma q_size_pos q l : q_rep q l -> 0 <= q_size q.
Proof. intros H. rewrite (q_size_law _ _ H). apply zlen_nonneg. Qed.

(** What the head of a non-empty queue gives. *)
Lemma q_first q a x l :
  q_rep q ((a, x) :: l) ->
  q_head q = Some (Some a) /\ q_item q (Some a) = Some x /\ q_size q = 1 + zlen l.
Proof.
  intros H. split; [by rewrite (q_head_law _ _ H)|].
  split; [apply (q_item_law q [] a x l H)|].
  by rewrite (q_size_law _ _ H), zlen_cons.
Qed.

Lemma q_empty q : q_rep q [] -> q_size q = 0.
Proof. intros H. by rewrite (q_size_law _ _ H). Qed.

Lemma q_del_first md q a x l :
  q_rep q ((a, x) :: l) ->
  runs md (q_del q (Some a)) (fun '(y, q') => y = x /\ q_rep q' l).
Proof. apply (q_del_law md q []). Qed.

(** The memory of the jobs. *)
Definition set_mem (st : store ThreadPoolJob) (fl : FreeList) tp : pool :=
  set_tp_jobs st (set_tp_jobFreeList fl tp).

Lemma free_job_runs md tp own j :
  objs_ok (tp_jobs tp) (tp_jobFreeList tp) (j :: own) ->
  runs md (FreeThreadPoolJob tp j) (fun tp' =>
    exists st fl, tp' = set_mem st fl tp /\ objs_ok st fl own).
Proof.
  destruct j as [l j]. intros H.
  destruct (objs_free _ _ _ _ _ H) as (st & fl & E & H').
  unfold FreeThreadPoolJob. mstep. eapply runs_liftO; [done|].
  apply runs_ret. by exists st, fl.
Qed.

Definition stamped (now : timeval) (job : ThreadPoolJob) (id : Z) : ThreadPoolJob :=
  MkJob (j_func job) (j_arg job) (j_free_func job) now (j_priority job) id.

Lemma create_job_runs md now job id tp own :
  objs_ok (tp_jobs tp) (tp_jobFreeList tp) own ->
  runs md (CreateThreadPoolJob now job id tp) (fun '(temp, tp') =>
    match temp with
    | Some j => exists st fl, tp' = set_mem st fl tp /\
        j.2 = stamped now job id /\ objs_ok st fl (j :: own)
    | None => md <> Lucky /\ tp' = tp
    end).
Proof.
  intros H. unfold CreateThreadPoolJob. mstep.
  eapply runs_mono; [by apply (objs_alloc md _ _ own (stamped now job id))|].
  intros [[[l|] st] fl].
  - intros Ho. apply runs_ret. by exists (<[l:=Obj (stamped now job id)]> st), fl.
  - intros (? & -> & ->). apply runs_ret. split; [done|]. by destruct tp.
Qed.

(** The queues and the statistics. *)
Definition set_queues (hq mq lq : LQ) (s : ThreadPoolStats) tp : pool :=
  set_tp_highJobQ hq (set_tp_medJobQ mq (set_tp_lowJobQ lq (set_tp_stats s tp))).

Definition queues tp (hl ml ll : list (loc * item)) : Prop :=
  q_rep (tp_highJobQ tp) hl /\ q_rep (tp_medJobQ tp) ml /\ q_rep (tp_lowJobQ tp) ll.

(** [BumpPriority] may only lose jobs for which no queue node is left. *)
Definition moved md (jobs jobs' lost : list item) : Prop :=
  jobs ≡ₚ lost ++ jobs' /\ (md = Lucky -> jobs = jobs').

Definition med_waits now tp (ml : list (loc * item)) : Prop :=
  match ml with
  | n :: _ => at_starvationTime (tp_attr tp) <= DiffMillis now (j_requestTime n.2.2)
  | [] => False
  end.
Definition low_waits now tp (ll : list (loc * item)) : Prop :=
  match ll with
  | n :: _ => at_maxIdleTime (tp_attr tp) <= DiffMillis now (j_requestTime n.2.2)
  | [] => False
  end.

Lemma bump_med_runs md now tp hl ml ll :
  queues tp hl ml ll ->
  runs md (bump_med now tp) (fun r =>
    match r with
    | Some tp' => exists hq mq s hl' x ml',
        tp' = set_queues hq mq (tp_lowJobQ tp) s tp /\ ml = x :: ml' /\
        queues tp' hl' ml' ll /\
        (hl'.*2 = hl.*2 ++ [x.2] \/ (md <> Lucky /\ hl' = hl))
    | None => ~ med_waits now tp ml
    end).
Proof.
  intros (Hh & Hm & Hl). unfold bump_med. destruct ml as [|[a x] ml].
  { rewrite (q_empty _ Hm). apply runs_ret. by intros []. }
  destruct (q_first _ _ _ _ Hm) as (E1 & E2 & E3). pose proof (zlen_nonneg ml).
  destruct (Z.eqb_spec (q_size (tp_medJobQ tp)) 0); [lia|].
  mstep. eapply runs_liftO; [done|]. mstep. eapply runs_liftO; [done|].
  destruct (Z.leb_spec (at_starvationTime (tp_attr tp)) (DiffMillis now (j_requestTime x.2)));
    [|by apply runs_ret; simpl; lia].
  mstep. eapply runs_mono; [by eapply q_del_first|]. intros [y mq] [-> Hm'].
  mstep. eapply runs_mono; [by apply q_add_tail_law|]. intros [[b|] hq]; simpl.
  - intros Hh'. apply runs_ret.
    exists hq, mq, (tp_stats (StatsAccountMQ tp (DiffMillis now (j_requestTime x.2)))).
    exists (hl ++ [(b, x)]), (a, x), ml. split; [by destruct tp|].
    split; [done|]. split; [by split_and!|]. left. by rewrite fmap_app.
  - intros [? Hh']. apply runs_ret.
    exists hq, mq, (tp_stats (StatsAccountMQ tp (DiffMillis now (j_requestTime x.2)))).
    exists hl, (a, x), ml. split; [by destruct tp|].
    split; [done|]. split; [by split_and!|]. by right.
Qed.

Lemma bump_low_runs md now tp hl ml ll :
  queues tp hl ml ll ->
  runs md (bump_low now tp) (fun r =>
    match r with
    | Some tp' => exists mq lq s ml' x ll',
        tp' = set_queues (tp_highJobQ tp) mq lq s tp /\ ll = x :: ll' /\
        queues tp' hl ml' ll' /\
        (ml'.*2 = ml.*2 ++ [x.2] \/ (md <> Lucky /\ ml' = ml))
    | None => ~ low_waits now tp ll
    end).
Proof.
  intros (Hh & Hm & Hl). unfold bump_low. destruct ll as [|[a x] ll].
  { rewrite (q_empty _ Hl). apply runs_ret. by intros []. }
  destruct (q_first _ _ _ _ Hl) as (E1 & E2 & E3). pose proof (zlen_nonneg ll).
  destruct (Z.eqb_spec (q_size (tp_lowJobQ tp)) 0); [lia|].
  mstep. eapply runs_liftO; [done|]. mstep. eapply runs_liftO; [done|].
  destruct (Z.leb_spec (at_maxIdleTime (tp_attr tp)) (DiffMillis now (j_requestTime x.2)));
    [|by apply runs_ret; simpl; lia].
  mstep. eapply runs_mono; [by eapply q_del_first|]. intros [y lq] [-> Hl'].
  mstep. eapply runs_mono; [by apply q_add_tail_law|]. intros [[b|] mq]; simpl.
  - intros Hm'. apply runs_ret.
    exists mq, lq, (tp_stats (StatsAccountLQ tp (DiffMillis now (j_requestTime x.2)))).
    exists (ml ++ [(b, x)]), (a, x), ll. split; [by destruct tp|].
    split; [done|]. split; [by split_and!|]. left. by rewrite fmap_app.
  - intros [? Hm']. apply runs_ret.
    exists mq, lq, (tp_stats (StatsAccountLQ tp (DiffMillis now (j_requestTime x.2)))).
    exists ml, (a, x), ll. split; [by destruct tp|].
    split; [done|]. split; [by split_and!|]. by right.
Qed.

Lemma queues_set tp hq mq lq s hl ml ll :
  q_rep hq hl -> q_rep mq ml -> q_rep lq ll ->
  queues (set_queues hq mq lq s tp) hl ml ll.
Proof. by intros. Qed.

Lemma set_queues_twice hq mq lq s hq' mq' lq' s' tp :
  set_queues hq' mq' lq' s' (set_queues hq mq lq s tp) = set_queues hq' mq' lq' s' tp.
Proof. done. Qed.

(** What [BumpPriority] does: the first jobs of the medium and low queues have
    not waited too long any more, and the order of all jobs is kept. *)
Definition bumped md now tp (hl ml ll : list (loc * item)) tp' : Prop :=
  exists hq mq lq s hl' ml' ll' lost,
    tp' = set_queues hq mq lq s tp /\ queues tp' hl' ml' ll' /\
    moved md (all_jobs hl ml ll) (all_jobs hl' ml' ll') lost /\
    ~ med_waits now tp ml' /\ ~ low_waits now tp ll'.

Lemma bump_loop_runs md now fuel tp hl ml ll :
  queues tp hl ml ll -> (length ml + 2 * length ll < fuel)%nat ->
  runs md (bump_loop fuel now tp) (bumped md now tp hl ml ll).
Proof.
  revert tp hl ml ll. induction fuel as [|fuel IH]; intros tp hl ml ll Hq Hf; [lia|].
  cbn [bump_loop]. mstep. eapply runs_mono; [by apply bump_med_runs|].
  intros [tp1|].
  - intros (hq & mq & s & hl1 & x & ml1 & -> & -> & Hq1 & Hcase). simpl in Hf.
    eapply runs_mono; [apply (IH _ _ _ _ Hq1); lia|].
    intros tp' (hq' & mq' & lq' & s' & hl' & ml' & ll' & lost & -> & Hq' & [Hp Ho] & Hm & Hl).
    rewrite set_queues_twice in *.
    destruct Hcase as [E|[Hmd ->]].
    + exists hq', mq', lq', s', hl', ml', ll', lost. split; [done|]. split; [done|].
      assert (all_jobs hl (x :: ml1) ll = all_jobs hl1 ml1 ll) as ->
        by (unfold all_jobs; rewrite E, <- app_assoc; done).
      done.
    + exists hq', mq', lq', s', hl', ml', ll', (x.2 :: lost). split; [done|].
      split; [done|]. split; [|done]. split; [|done].
      unfold all_jobs in *. rewrite fmap_cons. cbn [app]. rewrite <- Hp.
      symmetry. apply Permutation_middle.
  - intros Hnm. mstep. eapply runs_mono; [by apply bump_low_runs|]. intros [tp1|].
    + intros (mq & lq & s & ml1 & x & ll1 & -> & -> & Hq1 & Hcase). simpl in Hf.
      assert (length ml1 <= S (length ml))%nat.
      { destruct Hcase as [E|[_ ->]]; [|lia]. apply (f_equal length) in E.
        rewrite length_app, !length_fmap in E. simpl in E. lia. }
      eapply runs_mono; [apply (IH _ _ _ _ Hq1); lia|].
      intros tp' (hq' & mq' & lq' & s' & hl' & ml' & ll' & lost & -> & Hq' & [Hp Ho] & Hm & Hl).
      rewrite set_queues_twice in *.
      destruct Hcase as [E|[Hmd ->]].
      * exists hq', mq', lq', s', hl', ml', ll', lost. split; [done|]. split; [done|].
        assert (all_jobs hl ml (x :: ll1) = all_jobs hl ml1 ll1) as ->
          by (unfold all_jobs; rewrite E, <- app_assoc; done).
        done.
      * exists hq', mq', lq', s', hl', ml', ll', (x.2 :: lost). split; [done|].
        split; [done|]. split; [|done]. split; [|done].
        unfold all_jobs in *. rewrite fmap_cons. cbn [app]. rewrite <- Hp.
        rewrite !app_assoc. symmetry. apply Permutation_middle.
    + intros Hnl. apply runs_ret.
      exists (tp_highJobQ tp), (tp_medJobQ tp), (tp_lowJobQ tp), (tp_stats tp), hl, ml, ll, [].
      split; [by destruct tp|]. by split.
Qed.

Lemma bump_runs md now tp hl ml ll :
  queues tp hl ml ll -> runs md (BumpPriority now tp) (bumped md now tp hl ml ll).
Proof.
  intros Hq. apply bump_loop_runs; [done|]. destruct Hq as (_ & Hm & Hl).
  rewrite (q_size_law _ _ Hm), (q_size_law _ _ Hl). unfold zlen. lia.
Qed.

Definition is_priority (p : Z) : Prop :=
  p = LOW_PRIORITY \/ p = MED_PRIORITY \/ p = HIGH_PRIORITY.

Lemma calc_wait_runs md now tp p job :
  is_priority p ->
  runs md (CalcWaitTime now tp p job) (fun tp' => exists s, tp' = set_tp_stats s tp).
Proof.
  intros Hp. unfold CalcWaitTime. destruct Hp as [->|[->| ->]]; simpl;
    apply runs_ret; by eexists.
Qed.

Lemma take_job_runs md now q p put tp a x l :
  q_rep q ((a, x) :: l) -> is_priority p ->
  runs md (take_job now q p put tp) (fun '(tp', r) =>
    r = Some x /\ exists q' s, tp' = put q' (set_tp_stats s tp) /\ q_rep q' l).
Proof.
  intros Hq Hp. destruct (q_first _ _ _ _ Hq) as (E1 & E2 & _).
  unfold take_job. mstep. eapply runs_liftO; [done|]. cbn beta iota.
  mstep. eapply runs_liftO; [done|].
  mstep. eapply runs_mono; [by apply calc_wait_runs|]. intros tp1 [s ->].
  mstep. eapply runs_mono; [by eapply q_del_first|]. intros [y q'] [-> Hq'].
  apply runs_ret. eauto.
Qed.

(** The first of all the queued jobs is taken, the others stay in order. *)
Definition picked tp (js : list item) tp' (r : option item) : Prop :=
  exists hq mq lq s hl ml ll,
    tp' = set_queues hq mq lq s tp /\ queues tp' hl ml ll /\
    r = head js /\ all_jobs hl ml ll = tail js.

Lemma pick_job_runs md now tp hl ml ll :
  queues tp hl ml ll ->
  runs md (pick_job now tp) (fun '(tp', r) => picked tp (all_jobs hl ml ll) tp' r).
Proof.
  intros (Hh & Hm & Hl). unfold pick_job.
  rewrite (q_size_law _ _ Hh), (q_size_law _ _ Hm), (q_size_law _ _ Hl).
  destruct hl as [|[a x] hl]; [destruct ml as [|[a x] ml]; [destruct ll as [|[a x] ll]|]|];
    rewrite ?zlen_nil, ?zlen_cons, ?Z.ltb_irrefl.
  - apply runs_ret. set (f := fun _ : ThreadPoolStats => _).
    exists (tp_highJobQ tp), (tp_medJobQ tp), (tp_lowJobQ tp), (f (tp_stats tp)), [], [], [].
    split; [by destruct tp|]. split; [by split_and!|done].
  - pose proof (zlen_nonneg ll). rewrite (proj2 (Z.ltb_lt _ _)) by lia.
    eapply runs_mono; [eapply take_job_runs; [done|by left]|].
    intros [tp' r] (-> & q' & s & -> & Hq').
    exists (tp_highJobQ tp), (tp_medJobQ tp), q', s, [], [], ll.
    split; [by destruct tp|]. split; [by split_and!|done].
  - pose proof (zlen_nonneg ml). rewrite (proj2 (Z.ltb_lt _ _)) by lia.
    eapply runs_mono; [eapply take_job_runs; [done|by right; left]|].
    intros [tp' r] (-> & q' & s & -> & Hq').
    exists (tp_highJobQ tp), q', (tp_lowJobQ tp), s, [], ml, ll.
    split; [by destruct tp|]. split; [by split_and!|done].
  - pose proof (zlen_nonneg hl). rewrite (proj2 (Z.ltb_lt _ _)) by lia.
    eapply runs_mono; [eapply take_job_runs; [done|by right; right]|].
    intros [tp' r] (-> & q' & s & -> & Hq').
    exists q', (tp_medJobQ tp), (tp_lowJobQ tp), s, hl, ml, ll.
    split; [by destruct tp|]. split; [by split_and!|done].
Qed.

(** ** The sections of a worker keep the invariant *)

(** Changing what the invariant does not read. *)
Lemma tp_rep_stats e tp ws hl ml ll leak f :
  tp_rep e tp ws hl ml ll leak -> tp_rep e (upd_stats f tp) ws hl ml ll leak.
Proof. by intros []. Qed.

Lemma tp_rep_queues tp e ws hl ml ll leak :
  tp_rep e tp ws hl ml ll leak -> queues tp hl ml ll.
Proof. by intros []. Qed.

Lemma tp_rep_wait e tp ws hl ml ll leak p s t p' s' t' :
  tp_rep e tp (WWait p s t :: ws) hl ml ll leak ->
  tp_rep e tp (WWait p' s' t' :: ws) hl ml ll leak.
Proof. intros [??? Hj Ho]. split; try done. by inversion Ho; constructor. Qed.

Lemma tp_rep_exit e tp ws hl ml ll leak p s t :
  tp_rep e tp (WWait p s t :: ws) hl ml ll leak ->
  tp_rep e (worker_exit tp) ws hl ml ll leak.
Proof.
  intros [??? Hj Ho Ht Hp Hpl Hb Hpe Hm]. apply Forall_cons in Ho as [_ Ho].
  split; try done; simpl in *; lia.
Qed.

Lemma tp_rep_bumped md e tp ws hl ml ll leak now tp' :
  tp_rep e tp ws hl ml ll leak -> bumped md now tp hl ml ll tp' ->
  tp_shutdown tp' = tp_shutdown tp /\ tp_persistentJob tp' = tp_persistentJob tp /\
  exists hl' ml' ll' leak', tp_rep e tp' ws hl' ml' ll' leak' /\
    (md = Lucky -> all_jobs hl ml ll = all_jobs hl' ml' ll').
Proof.
  intros [??? Hj Ho Ht Hp Hpl Hb Hpe Hm]
    (hq & mq & lq & s & hl' & ml' & ll' & lost & -> & (?&?&?) & [Hperm Hord] & _).
  split; [done|]. split; [done|].
  exists hl', ml', ll', (leak ++ lost). split; [|done]. split; try done.
  rewrite Hperm in Hj. by rewrite <- !app_assoc in *.
Qed.

(** The work a thread finds, in the order it is taken. *)
Definition work tp (hl ml ll : list (loc * item)) : list item :=
  option_list (tp_persistentJob tp) ++ all_jobs hl ml ll.

Definition job_kind tp : Z :=
  match tp_persistentJob tp with Some _ => 1 | None => 0 end.

(** The first job of the work is taken and the rest stays in order. *)
Definition took_first now tp hl ml ll tp' (w : option worker) hl' ml' ll' : Prop :=
  w = (fun j => WReady (Some j) (job_kind tp) (StatsTime now)) <$> head (work tp hl ml ll) /\
  work tp' hl' ml' ll' = tail (work tp hl ml ll).

Lemma pick_runs md e now start tp ws hl ml ll leak p s t :
  tp_rep e tp (WWait p s t :: ws) hl ml ll leak ->
  runs md (worker_pick now start tp) (fun '(tp', w) =>
    exists hl' ml' ll' leak',
      tp_rep e tp' (option_list w ++ ws) hl' ml' ll' leak' /\
      (md = Lucky -> tp_shutdown tp = 0 -> took_first now tp hl ml ll tp' w hl' ml' ll')).
Proof.
  intros Hr. unfold worker_pick.
  pose proof (fun f => tp_rep_stats _ _ _ _ _ _ _ f Hr) as Hr'.
  mstep. eapply runs_mono; [eapply bump_runs, tp_rep_queues, Hr'|].
  intros tp1 Hb. destruct (tp_rep_bumped _ _ _ _ _ _ _ _ _ _ (Hr' _) Hb)
    as (Esh & Epj & hl1 & ml1 & ll1 & leak1 & Hr1 & Eord). clear Hr Hr' Hb.
  simpl in Esh, Epj. rewrite Esh. destruct (Z.eqb_spec (tp_shutdown tp) 0) as [Es|Es]; simpl.
  2: { apply runs_ret. exists hl1, ml1, ll1, leak1. split; [by eapply tp_rep_exit|done]. }
  unfold took_first, work, job_kind. rewrite Epj. mstep.
  destruct (tp_persistentJob tp) as [j|].
  - apply runs_ret. apply runs_ret. exists hl1, ml1, ll1, leak1. split.
    + destruct Hr1 as [??? Hj Ho Ht Hp Hpl Hbu Hpe Hm]. apply Forall_cons in Ho as [_ Ho].
      rewrite Epj in Hj. split; try done; simpl in *; try lia. by constructor; [right|].
    + intros Emd _. split; [done|]. simpl. by rewrite Eord.
  - pose proof (fun f => tp_rep_stats _ _ _ _ _ _ _ f Hr1) as Hr'.
    mstep. eapply runs_mono; [eapply pick_job_runs, tp_rep_queues, Hr'|].
    intros [tp2 r] (hq & mq & lq & s' & hl2 & ml2 & ll2 & -> & (?&?&?) & -> & Hall).
    apply runs_ret.
    destruct (all_jobs hl1 ml1 ll1) as [|j js] eqn:E; apply runs_ret;
      exists hl2, ml2, ll2, leak1; destruct Hr1 as [??? Hj Ho Ht Hp Hpl Hbu Hpe Hm];
      apply Forall_cons in Ho as [_ Ho];
      simpl in Hj; rewrite E in Hj; rewrite Epj in Hj.
    + split; [|intros Emd _; simpl; by rewrite Eord, Hall, Epj].
      split; try done; simpl in *; try lia. by rewrite Hall, Epj.
    + split; [|intros Emd _; simpl; by rewrite Eord, Hall, Epj].
      split; try done; simpl in *; try lia; [|by constructor; [left|]].
      rewrite Hall, Epj. simpl. by rewrite <- (Permutation_middle js).
Qed.

Lemma w_pending_nonneg ws : 0 <= wsum w_pending ws.
Proof. apply wsum_nonneg. by intros []. Qed.

Lemma start_rep e now tp ws hl ml ll leak :
  tp_rep e tp (WStart :: ws) hl ml ll leak ->
  tp_rep e (worker_start now tp).1 (WReady None (-1) (StatsTime now) :: ws) hl ml ll leak.
Proof.
  intros [??? Hj Ho Ht Hp Hpl Hb Hpe Hm]. apply Forall_cons in Ho as [_ Ho].
  pose proof (w_pending_nonneg ws).
  split; try done; simpl in *; try lia. by constructor.
Qed.

Lemma top_runs md e now tp ws hl ml ll leak job p s t :
  tp_rep e tp (WReady job p s :: ws) hl ml ll leak ->
  runs md (worker_top now job p s tp) (fun tp' =>
    tp_rep e tp' (WWait p s t :: ws) hl ml ll leak).
Proof.
  intros [??? Hj Ho Ht Hp Hpl Hb Hpe Hm]. unfold worker_top. mstep.
  apply Forall_cons in Ho as [Hok Ho]. simpl in *.
  destruct job as [j|].
  - eapply runs_mono; [apply (free_job_runs md _ (e ++ leak ++ all_jobs hl ml ll
      ++ option_list (tp_persistentJob tp) ++ (ws ≫= w_items)))|].
    { refine (proj2 (objs_ok_perm _ _ _ _ _) Hj). simpl. rewrite !app_assoc.
      apply Permutation_middle. }
    intros tp' (st & fl & -> & Hj'). mstep.
    destruct Hok as [-> | ->]; split; try done; simpl in *; try lia; by constructor.
  - apply runs_ret. mstep. subst p. split; try done; simpl in *; try lia; by constructor.
Qed.

Lemma loop_runs md e rc now tp ws hl ml ll leak p s t :
  tp_rep e tp (WWait p s t :: ws) hl ml ll leak ->
  runs md (worker_loop rc now p s tp) (fun '(tp', w) =>
    exists hl' ml' ll' leak',
      tp_rep e tp' (option_list w ++ ws) hl' ml' ll' leak').
Proof.
  intros Hr. unfold worker_loop. destruct (no_work tp).
  2: { eapply runs_mono; [by eapply pick_runs|].
       intros [tp' w] (hl' & ml' & ll' & lk' & Hr' & _). by exists hl', ml', ll', lk'. }
  destruct (_ || _); apply runs_ret; exists hl, ml, ll, leak.
  - by eapply tp_rep_exit, tp_rep_stats.
  - by eapply tp_rep_wait.
Qed.

Lemma section_runs md e rc now0 now w tp ws hl ml ll leak :
  tp_rep e tp (w :: ws) hl ml ll leak ->
  runs md (worker_section rc now0 now w tp) (fun '(tp', w') =>
    exists hl' ml' ll' leak',
      tp_rep e tp' (option_list w' ++ ws) hl' ml' ll' leak').
Proof.
  intros Hr. destruct w as [|job p s|p s t]; simpl.
  - apply runs_ret. exists hl, ml, ll, leak. by apply start_rep.
  - mstep. eapply runs_mono; [apply (top_runs _ _ _ _ _ _ _ _ _ _ _ _ (MkTimespec 0 0) Hr)|].
    intros tp' Hr'. eapply loop_runs, (tp_rep_wait _ _ _ _ _ _ _ _ _ _ _ _ (MkTimespec 0 0)).
    exact Hr'.
  - by eapply loop_runs.
Qed.

Lemma tp_rep_workers e tp ws ws' hl ml ll leak :
  tp_rep e tp ws hl ml ll leak -> tp_rep e (set_tp_workers ws' tp) ws hl ml ll leak.
Proof. by intros []. Qed.

Lemma worker_step_runs md e i rc now0 now tp :
  tp_inv e tp -> is_Some (tp_workers tp !! i) ->
  runs md (worker_step i rc now0 now tp) (tp_inv e).
Proof.
  intros (hl & ml & ll & leak & Hr) [w Hw]. unfold worker_step.
  mstep. eapply runs_liftO; [done|].
  rewrite (delete_Permutation _ _ _ Hw) in Hr.
  mstep. eapply runs_mono; [by eapply section_runs|].
  intros [tp' w'] (hl' & ml' & ll' & leak' & Hr'). mstep.
  exists hl', ml', ll', leak'. by apply (tp_rep_workers e tp').
Qed.

Section API.
Context (wake : wait_cond -> pool -> pool).
(** What [pthread_create] returns when it fails, and the scheduler. *)
Context (create_error : Z) (sched_get_priority_min : Z -> Z)
  (sched_setscheduler : Z -> Z -> Z * Z).

Definition waiting (c : wait_cond) tp : bool :=
  match c with
  | PendingStart => negb (tp_pendingWorkerThreadStart tp =? 0)
  | PersistentWaiting => match tp_persistentJob tp with Some _ => true | None => false end
  | ThreadsLeft => 0 <? tp_totalThreads tp
  end.

(** [while (c) ithread_cond_wait(...)]. *)
Definition wait_while (c : wait_cond) tp : M pool :=
  if waiting c tp then
    let tp' := wake c tp in
    if waiting c tp' then running else mret tp'
  else mret tp.

Definition ithread_create tp : M (Z * pool) :=
  ok ← malloc_ok;
  mret (if ok : bool then (0, set_tp_workers (WStart :: tp_workers tp) tp)
        else (create_error, tp)).

Definition CreateWorker tp : M (Z * pool) :=
  tp ← wait_while PendingStart tp;
  if negb (at_maxThreads (tp_attr tp) =? INFINITE_THREADS)
     && (at_maxThreads (tp_attr tp) <? tp_totalThreads tp + 1)
  then mret (EMAXTHREADS, tp)
  else
    '(rc, tp) ← ithread_create tp;
    tp ← (if rc =? 0 then
            wait_while PendingStart (set_tp_pendingWorkerThreadStart 1 tp)
          else mret tp);
    mret (rc,
      if st_maxThreads (tp_stats tp) <? tp_totalThreads tp then
        upd_stats (set_st_maxThreads (tp_totalThreads tp)) tp
      else tp).

Definition queued tp : Z :=
  q_size (tp_highJobQ tp) + q_size (tp_lowJobQ tp) + q_size (tp_medJobQ tp).

Fixpoint add_worker_loop (fuel : nat) (jobs threads : Z) tp : M pool :=
  match fuel with
  | O => running
  | S fuel' =>
      if (threads =? 0)
         || (at_jobsPerThread (tp_attr tp) <=? Z.quot jobs threads)
         || (tp_totalThreads tp =? tp_busyThreads tp)
      then
        '(rc, tp) ← CreateWorker tp;
        if negb (rc =? 0) then mret tp
        else add_worker_loop fuel' jobs (threads + 1) tp
      else mret tp
  end.

(** Enough passes for a pool of [maxThreads] threads, and to outnumber the
    jobs when the number of threads is not limited. *)
Definition add_worker_fuel tp : nat :=
  S (S (Z.to_nat (at_maxThreads (tp_attr tp)) + Z.to_nat (queued tp))).

Definition AddWorker tp : M pool :=
  add_worker_loop (add_worker_fuel tp) (queued tp)
    (tp_totalThreads tp - tp_persistentThreads tp) tp.

(** [tp->lastJobId++], wrapping around after 2^31 jobs. *)
Definition bump_lastJobId tp : pool :=
  set_tp_lastJobId (to_int (tp_lastJobId tp + 1)) tp.

(** Whether [ListAddTail] returned a node. *)
Definition add_rc (p : ptr) : Z :=
  match p with Some _ => 0 | None => EOUTOFMEM end.

(** The identifier stored through [jobId] comes second. *)
Definition ThreadPoolAdd (now : timeval) tp (job : option ThreadPoolJob)
    : M (Z * option Z * pool) :=
  match job with
  | None => mret (EINVAL, None, tp)
  | Some job =>
      if at_maxJobsTotal (tp_attr tp) <=? queued tp then mret (EOUTOFMEM, None, tp)
      else
        '(temp, tp) ← CreateThreadPoolJob now job (tp_lastJobId tp) tp;
        match temp with
        | None => mret (EOUTOFMEM, Some INVALID_JOB_ID, tp)
        | Some temp =>
            '(rc, tp) ←
              (if j_priority job =? HIGH_PRIORITY then
                 '(p, q) ← q_add_tail (tp_highJobQ tp) temp;
                 mret (add_rc p, set_tp_highJobQ q tp)
               else if j_priority job =? MED_PRIORITY then
                 '(p, q) ← q_add_tail (tp_medJobQ tp) temp;
                 mret (add_rc p, set_tp_medJobQ q tp)
               else
                 '(p, q) ← q_add_tail (tp_lowJobQ tp) temp;
                 mret (add_rc p, set_tp_lowJobQ q tp));
            tp ← AddWorker tp;
            tp ← (if rc =? 0 then mret tp else FreeThreadPoolJob tp temp);
            mret (rc, Some (tp_lastJobId tp), bump_lastJobId tp)
        end
  end.

(** The rest of [ThreadPoolAddPersistent], once a thread can take the job. *)
Definition add_persistent (now : timeval) (job : ThreadPoolJob) tp
    : M (Z * option Z * pool) :=
  '(temp, tp) ← CreateThreadPoolJob now job (tp_lastJobId tp) tp;
  match temp with
  | None => mret (EOUTOFMEM, Some INVALID_JOB_ID, tp)
  | Some temp =>
      tp ← wait_while PersistentWaiting (set_tp_persistentJob (Some temp) tp);
      mret (0, Some (tp_lastJobId tp), bump_lastJobId tp)
  end.

Definition ThreadPoolAddPersistent (now : timeval) tp (job : option ThreadPoolJob)
    : M (Z * option Z * pool) :=
  match job with
  | None => mret (EINVAL, None, tp)
  | Some job =>
      if tp_totalThreads tp <? at_maxThreads (tp_attr tp) then
        '(_, tp) ← CreateWorker tp;
        add_persistent now job tp
      else if tp_totalThreads tp - tp_persistentThreads tp - 1 =? 0 then
        mret (EMAXTHREADS, Some INVALID_JOB_ID, tp)
      else add_persistent now job tp
  end.

(** Look for [jobId] in one queue; [put] stores the new queue. *)
Definition remove_from (q : LQ) (put : LQ -> pool -> pool) (dummy : item) tp
    : M (option (ThreadPoolJob * pool)) :=
  tempNode ← liftO (q_find q dummy);
  match tempNode with
  | None => mret None
  | Some _ =>
      temp ← liftO (q_item q tempNode);
      '(_, q') ← q_del q tempNode;
      tp ← FreeThreadPoolJob (put q' tp) temp;
      mret (Some (temp.2, tp))
  end.

(** A job of which only [jobId] is set, at the address of a local variable. *)
Definition dummy_job (jobId : Z) : item :=
  (1%positive, MkJob 0 0 0 (MkTimeval 0 0) 0 jobId).

(** The job stored through [out] comes second. *)
Definition ThreadPoolRemove tp (jobId : Z) : M (Z * option ThreadPoolJob * pool) :=
  let dummy := dummy_job jobId in
  r ← remove_from (tp_highJobQ tp) set_tp_highJobQ dummy tp;
  match r with
  | Some (out, tp) => mret (0, Some out, tp)
  | None =>
  r ← remove_from (tp_medJobQ tp) set_tp_medJobQ dummy tp;
  match r with
  | Some (out, tp) => mret (0, Some out, tp)
  | None =>
  r ← remove_from (tp_lowJobQ tp) set_tp_lowJobQ dummy tp;
  match r with
  | Some (out, tp) => mret (0, Some out, tp)
  | None =>
      match tp_persistentJob tp with
      | Some j =>
          if j_jobId j.2 =? jobId then
            tp ← FreeThreadPoolJob tp j;
            mret (0, Some j.2, set_tp_persistentJob None tp)
          else mret (INVALID_JOB_ID, None, tp)
      | None => mret (INVALID_JOB_ID, None, tp)
      end
  end
  end
  end.

Definition ThreadPoolGetAttr tp : Z * ThreadPoolAttr := (0, tp_attr tp).

(** The calls [temp->free_func(temp->arg)] a job causes when it is dropped. *)
Definition free_call (j : ThreadPoolJob) : list (Z * Z) :=
  if j_free_func j =? 0 then [] else [(j_free_func j, j_arg j)].

(** The loop that drops the jobs of one queue; the first component is whether
    the function returns early with [EINVAL]. *)
Fixpoint drain (fuel : nat) (get : pool -> LQ) (put : LQ -> pool -> pool)
    (calls : list (Z * Z)) tp : M (bool * list (Z * Z) * pool) :=
  match fuel with
  | O => running
  | S fuel' =>
      if q_size (get tp) =? 0 then mret (false, calls, tp)
      else
        head ← liftO (q_head (get tp));
        match head with
        | None => mret (true, calls, tp)
        | Some _ =>
            temp ← liftO (q_item (get tp) head);
            tp ← FreeThreadPoolJob tp temp;
            '(_, q) ← q_del (get tp) head;
            drain fuel' get put (calls ++ free_call temp.2) (put q tp)
        end
  end.

Definition drain_queue (get : pool -> LQ) (put : LQ -> pool -> pool)
    (calls : list (Z * Z)) tp : M (bool * list (Z * Z) * pool) :=
  '(early, calls, tp) ← drain (S (Z.to_nat (q_size (get tp)))) get put calls tp;
  if early : bool then mret (true, calls, tp)
  else q ← q_destroy (get tp); mret (false, calls, put q tp).

(** Returns the status, the calls to free functions in order, and the pool. *)
Definition ThreadPoolShutdown tp : M (Z * list (Z * Z) * pool) :=
  '(early, calls, tp) ← drain_queue tp_highJobQ set_tp_highJobQ [] tp;
  if early : bool then mret (EINVAL, calls, tp) else
  '(early, calls, tp) ← drain_queue tp_medJobQ set_tp_medJobQ calls tp;
  if early : bool then mret (EINVAL, calls, tp) else
  '(early, calls, tp) ← drain_queue tp_lowJobQ set_tp_lowJobQ calls tp;
  if early : bool then mret (EINVAL, calls, tp) else
  '(calls, tp) ←
    match tp_persistentJob tp with
    | Some temp =>
        tp ← FreeThreadPoolJob tp temp;
        mret (calls ++ free_call temp.2, set_tp_persistentJob None tp)
    | None => mret (calls, tp)
    end;
  tp ← wait_while ThreadsLeft (set_tp_shutdown 1 tp);
  '(_, st, fl) ← liftO (FreeListDestroy (tp_jobs tp) (tp_jobFreeList tp));
  mret (0, calls, set_tp_jobs st (set_tp_jobFreeList fl tp)).

(** [for (; i < tp->attr.minThreads; i++)], until a worker cannot be
    created. *)
Fixpoint create_workers (fuel : nat) (i : Z) tp : M (Z * pool) :=
  match fuel with
  | O => running
  | S fuel' =>
      if i <? at_minThreads (tp_attr tp) then
        '(retCode, tp) ← CreateWorker tp;
        if negb (retCode =? 0) then mret (retCode, tp)
        else create_workers fuel' (i + 1) tp
      else mret (0, tp)
  end.

Definition create_min_workers tp : M (Z * pool) :=
  create_workers (S (Z.to_nat (at_minThreads (tp_attr tp) - tp_totalThreads tp)))
    (tp_totalThreads tp) tp.

Definition ThreadPoolSetAttr tp (attr : option ThreadPoolAttr)
    : M (Z * list (Z * Z) * pool) :=
  let temp := default default_attr attr in
  if negb (SetPolicyType sched_get_priority_min sched_setscheduler
             (at_schedPolicy temp) =? 0)
  then mret (INVALID_POLICY, [], tp)
  else
    let tp := set_tp_attr temp tp in
    '(retCode, tp) ← create_min_workers tp;
    if negb (retCode =? 0) then
      '(_, calls, tp) ← ThreadPoolShutdown tp; mret (retCode, calls, tp)
    else mret (retCode, [], tp).

(** [sync_rc] is the sum of the results of the mutex and condition variable
    initialisations, [q1]-[q3] freshly initialised lists and [tp] the memory
    the structure is in. *)
Definition ThreadPoolInit (sync_rc : Z) (q1 q2 q3 : LQ) (elementSize : Z) tp
    (attr : option ThreadPoolAttr) : M (Z * list (Z * Z) * pool) :=
  if negb (sync_rc =? 0) then mret (EAGAIN, [], tp)
  else
    let tp := set_tp_attr (default default_attr attr) tp in
    if negb (SetPolicyType sched_get_priority_min sched_setscheduler
               (at_schedPolicy (tp_attr tp)) =? 0)
    then mret (INVALID_POLICY, [], tp)
    else
      let '(_, fl) := FreeListInit elementSize JOBFREELISTSIZE in
      let tp := MkTP 0 0 0 0 0 0 (tp_jobs tp) fl q3 q2 q1 None (tp_attr tp)
                  (StatsInit (tp_stats tp)) (tp_workers tp) in
      '(retCode, tp) ← create_min_workers tp;
      if negb (retCode =? 0) then
        '(_, calls, tp) ← ThreadPoolShutdown tp; mret (retCode, calls, tp)
      else mret (retCode, [], tp).

Definition average (total count : Z) : Q :=
  if 0 <? count then Qmake total (Z.to_pos count) else 0%Q.

Definition ThreadPoolGetStats tp : Z * ThreadPoolStats :=
  let s := tp_stats tp in
  (0, MkStats (st_totalTimeHQ s) (st_totalJobsHQ s)
        (average (st_totalTimeHQ s) (st_totalJobsHQ s))
        (st_totalTimeMQ s) (st_totalJobsMQ s)
        (average (st_totalTimeMQ s) (st_totalJobsMQ s))
        (st_totalTimeLQ s) (st_totalJobsLQ s)
        (average (st_totalTimeLQ s) (st_totalJobsLQ s))
        (st_totalWorkTime s) (st_totalIdleTime s) (st_workerThreads s)
        (st_idleThreads s) (tp_persistentThreads tp) (tp_totalThreads tp)
        (st_maxThreads s) (to_int (q_size (tp_highJobQ tp)))
        (to_int (q_size (tp_lowJobQ tp))) (to_int (q_size (tp_medJobQ tp)))).

(** ** The operations keep the invariant

    Whatever the other threads do while an operation waits, as long as they
    keep the invariant themselves. *)

Section Rely.
Hypothesis wake_inv : forall c e tp, tp_inv e tp -> tp_inv e (wake c tp).
Hypothesis create_fails : create_error <> 0.

(** The wait is known to end, or [md] does not ask for it. *)
Definition ends (md : mode) (c : wait_cond) : Prop :=
  md = Safe \/ forall e tp, tp_inv e tp -> waiting c (wake c tp) = false.

Lemma wait_runs md c e tp :
  ends md c -> tp_inv e tp ->
  runs md (wait_while c tp) (fun tp' => tp_inv e tp' /\ waiting c tp' = false).
Proof.
  intros He Hi. unfold wait_while. destruct (waiting c tp) eqn:E; [|by apply runs_ret].
  destruct (waiting c (wake c tp)) eqn:E'.
  - destruct He as [->|He]; [by intros o _|]. by rewrite (He e tp Hi) in E'.
  - apply runs_ret. split; [|done]. by apply wake_inv.
Qed.

Lemma ends_safe c : ends Safe c.
Proof. by left. Qed.

Lemma inv_stats e tp f : tp_inv e tp -> tp_inv e (upd_stats f tp).
Proof. intros (hl & ml & ll & lk & H). exists hl, ml, ll, lk. by apply tp_rep_stats. Qed.

(** A new thread, below the limit. *)
Lemma inv_new_worker e tp :
  tp_inv e tp -> waiting PendingStart tp = false ->
  negb (at_maxThreads (tp_attr tp) =? INFINITE_THREADS)
    && (at_maxThreads (tp_attr tp) <? tp_totalThreads tp + 1) = false ->
  tp_inv e (set_tp_pendingWorkerThreadStart 1
              (set_tp_workers (WStart :: tp_workers tp) tp)).
Proof.
  intros (hl & ml & ll & lk & []) Hw Emax. exists hl, ml, ll, lk. simpl in Hw.
  zbool. apply andb_false_iff in Emax.
  split; try done; simpl in *; try lia; [by constructor|].
  destruct r_attr0 as [|[Hfin Hle]]; [by left|right].
  destruct Emax as [Emax|Emax]; zbool; [done|lia].
Qed.

Lemma create_worker_inv e tp :
  tp_inv e tp -> runs Safe (CreateWorker tp) (fun '(rc, tp') => tp_inv e tp').
Proof.
  intros Hi. unfold CreateWorker. mstep.
  eapply runs_mono; [by apply wait_runs; [apply ends_safe|]|]. clear tp Hi. intros tp [Hi Hw].
  destruct (negb _ && _) eqn:Emax; [by apply runs_ret|].
  mstep. unfold ithread_create. mstep. mstep; mstep.
  - simpl. mstep. eapply runs_mono.
    { apply (wait_runs _ PendingStart e); [apply ends_safe|by apply inv_new_worker]. }
    intros tp' [Hi' _]. apply runs_ret. case_match; [by apply inv_stats|done].
  - apply Z.eqb_neq in create_fails. rewrite create_fails. mstep. mstep.
    apply runs_ret. case_match; [by apply inv_stats|done].
Qed.

Lemma add_worker_loop_inv fuel jobs threads e tp :
  tp_inv e tp -> runs Safe (add_worker_loop fuel jobs threads tp) (tp_inv e).
Proof.
  revert threads tp. induction fuel as [|fuel IH]; intros threads tp Hi; simpl;
    [by intros o _|].
  destruct (_ || _); [|by apply runs_ret].
  mstep. eapply runs_mono; [by apply create_worker_inv|]. intros [rc tp'] Hi'.
  destruct (negb _); [by apply runs_ret|by apply IH].
Qed.

Lemma create_workers_inv fuel i e tp :
  tp_inv e tp ->
  runs Safe (create_workers fuel i tp) (fun '(rc, tp') => tp_inv e tp').
Proof.
  revert i tp. induction fuel as [|fuel IH]; intros i tp Hi; simpl;
    [by intros o _|].
  destruct (_ <? _); [|by apply runs_ret].
  mstep. eapply runs_mono; [by apply create_worker_inv|]. intros [rc tp'] Hi'.
  destruct (negb _); [by apply runs_ret|by apply IH].
Qed.

(** Jobs that enter and leave the memory of the pool. *)
Lemma inv_create md e now job id tp :
  tp_inv e tp ->
  runs md (CreateThreadPoolJob now job id tp) (fun '(temp, tp') =>
    match temp with
    | Some j => tp_inv (j :: e) tp'
    | None => tp_inv e tp'
    end).
Proof.
  intros (hl & ml & ll & lk & [??? Hj]).
  eapply runs_mono; [by apply create_job_runs|]. intros [[j|] tp'].
  - intros (st & fl & -> & _ & Hj'). exists hl, ml, ll, lk. by split.
  - intros [_ ->]. exists hl, ml, ll, lk. by split.
Qed.

Lemma inv_free md e j tp :
  tp_inv (j :: e) tp -> runs md (FreeThreadPoolJob tp j) (tp_inv e).
Proof.
  intros (hl & ml & ll & lk & [??? Hj]).
  eapply runs_mono; [by apply free_job_runs|].
  intros tp' (st & fl & -> & Hj'). exists hl, ml, ll, lk. by split.
Qed.

Lemma inv_bump e tp : tp_inv e tp -> tp_inv e (bump_lastJobId tp).
Proof. intros (hl & ml & ll & lk & []). exists hl, ml, ll, lk. by split. Qed.

Lemma perm_snoc_mid {A} (a b c : list A) x : a ++ (b ++ [x]) ++ c ≡ₚ x :: a ++ b ++ c.
Proof. rewrite (Permutation_app_comm b [x]). symmetry. apply Permutation_middle. Qed.

(** Appending [temp], owned by the caller, to one of the queues. *)
Lemma inv_enqueue md e temp l q put :
  q_rep q l ->
  (forall q' l', q_rep q' l' -> l'.*2 = l.*2 ++ [temp] -> tp_inv e (put q')) ->
  (forall q', q_rep q' l -> tp_inv (temp :: e) (put q')) ->
  runs md ('(p, q') ← q_add_tail q temp; mret (add_rc p, put q')) (fun '(rc, tp') =>
    if rc =? 0 then tp_inv e tp' else tp_inv (temp :: e) tp').
Proof.
  intros Hq Hok Hno. mstep. eapply runs_mono; [by apply q_add_tail_law|].
  intros [[b|] q']; simpl.
  - intros Hq'. apply runs_ret. eapply Hok; [done|]. by rewrite fmap_app.
  - intros [_ Hq']. apply runs_ret. by apply Hno.
Qed.

Lemma add_inv now job e tp :
  tp_inv e tp ->
  runs Safe (ThreadPoolAdd now tp job) (fun '(rc, id, tp') => tp_inv e tp').
Proof.
  intros Hi. unfold ThreadPoolAdd. destruct job as [job|]; [|by apply runs_ret].
  destruct (_ <=? _); [by apply runs_ret|]. mstep.
  eapply runs_mono; [by apply inv_create|]. intros [[temp|] tp1] Hi1; [|by apply runs_ret].
  mstep. apply (runs_mono _ _ (fun '(rc, tp') =>
    if rc =? 0 then tp_inv e tp' else tp_inv (temp :: e) tp')).
  - destruct Hi1 as (hl & ml & ll & lk & [Hh Hm Hl Hj]).
    assert (forall hl' ml' ll', all_jobs hl' ml' ll' ≡ₚ temp :: all_jobs hl ml ll ->
      objs_ok (tp_jobs tp1) (tp_jobFreeList tp1) (e ++ lk ++ all_jobs hl' ml' ll'
        ++ option_list (tp_persistentJob tp1) ++ (tp_workers tp1 ≫= w_items))) as Hmv.
    { intros hl' ml' ll' E. rewrite E. refine (proj2 (objs_ok_perm _ _ _ _ _) Hj).
      simpl. rewrite !app_assoc. symmetry. rewrite <- !app_assoc.
      rewrite (Permutation_middle e). apply Permutation_app_head.
      by rewrite (Permutation_middle lk). }
    destruct (j_priority job =? HIGH_PRIORITY); [|destruct (j_priority job =? MED_PRIORITY)].
    + eapply (inv_enqueue _ _ _ hl); [done| |].
      * intros q' l' Hq' E. exists l', ml, ll, lk. split; try done. apply Hmv.
        unfold all_jobs. rewrite E. apply (perm_snoc_mid []).
      * intros q' Hq'. exists hl, ml, ll, lk. by split.
    + eapply (inv_enqueue _ _ _ ml); [done| |].
      * intros q' l' Hq' E. exists hl, l', ll, lk. split; try done. apply Hmv.
        unfold all_jobs. rewrite E. apply perm_snoc_mid.
      * intros q' Hq'. exists hl, ml, ll, lk. by split.
    + eapply (inv_enqueue _ _ _ ll); [done| |].
      * intros q' l' Hq' E. exists hl, ml, l', lk. split; try done. apply Hmv.
        unfold all_jobs. rewrite E. by rewrite !app_assoc, <- Permutation_cons_append.
      * intros q' Hq'. exists hl, ml, ll, lk. by split.
  - intros [rc tp2] Hi2. mstep.
    eapply runs_mono; [apply (add_worker_loop_inv _ _ _ (if rc =? 0 then e else temp :: e));
      by destruct (rc =? 0)|].
    intros tp3 Hi3. mstep. apply (runs_mono _ _ (tp_inv e)).
    + destruct (rc =? 0); [by apply runs_ret|by apply inv_free].
    + intros tp4 Hi4. apply runs_ret. by apply inv_bump.
Qed.

(** A persistent job that was still waiting is overwritten and lost. *)
Lemma add_persistent_inv now job e tp :
  tp_inv e tp ->
  runs Safe (add_persistent now job tp) (fun '(rc, id, tp') => tp_inv e tp').
Proof.
  intros (hl & ml & ll & lk & [Hh Hm Hl Hj]). unfold add_persistent. mstep.
  eapply runs_mono; [by apply create_job_runs|]. intros [[temp|] tp'].
  - intros (st & fl & -> & _ & Hj'). mstep. eapply runs_mono.
    { apply (wait_runs _ _ e); [apply ends_safe|]. exists hl, ml, ll, (lk ++ option_list (tp_persistentJob tp)).
      split; try done. simpl. refine (proj2 (objs_ok_perm _ _ _ _ _) Hj').
      simpl. solve_perm. }
    intros tp2 [Hi2 _]. apply runs_ret. by apply inv_bump.
  - intros [_ ->]. apply runs_ret. exists hl, ml, ll, lk. by split.
Qed.

Lemma add_persistent_op_inv now job e tp :
  tp_inv e tp ->
  runs Safe (ThreadPoolAddPersistent now tp job) (fun '(rc, id, tp') => tp_inv e tp').
Proof.
  intros Hi. unfold ThreadPoolAddPersistent. destruct job as [job|]; [|by apply runs_ret].
  destruct (_ <? _).
  - mstep. eapply runs_mono; [by apply create_worker_inv|]. intros [rc tp'] Hi'.
    by apply add_persistent_inv.
  - destruct (_ =? _); [by apply runs_ret|by apply add_persistent_inv].
Qed.

(** [FreeThreadPoolJob] and the queues, for one queue of jobs [l]. *)
Definition keeps_mem (put : LQ -> pool -> pool) : Prop :=
  forall q st fl tp, put q (set_mem st fl tp) = set_mem st fl (put q tp) /\
    tp_jobs (put q tp) = tp_jobs tp /\ tp_jobFreeList (put q tp) = tp_jobFreeList tp.

Lemma remove_from_runs md q put jobId tp (l : list (loc * item)) (own : list item) :
  q_rep q l -> keeps_mem put ->
  objs_ok (tp_jobs tp) (tp_jobFreeList tp) (l.*2 ++ own) ->
  runs md (remove_from q put (dummy_job jobId) tp) (fun r =>
    match find (fun n : loc * item => jobId =? j_jobId n.2.2) l with
    | None => r = None
    | Some n => exists l1 l2 q' st fl, l = l1 ++ n :: l2 /\ q_rep q' (l1 ++ l2) /\
        r = Some (n.2.2, set_mem st fl (put q' tp)) /\
        objs_ok st fl ((l1 ++ l2).*2 ++ own)
    end).
Proof.
  intros Hq Hput Hj. unfold remove_from. mstep.
  eapply runs_liftO; [by apply q_find_law|]. unfold CmpThreadPoolJob. simpl.
  destruct (find _ l) as [[a x]|] eqn:E; [|by apply runs_ret].
  apply find_split in E as (l1 & l2 & -> & _ & _). simpl.
  mstep. eapply runs_liftO; [by eapply q_item_law|].
  mstep. eapply runs_mono; [by apply q_del_law|]. intros [y q'] [-> Hq'].
  destruct (Hput q' (tp_jobs tp) (tp_jobFreeList tp) tp) as (_ & Ej & Ef).
  mstep. eapply runs_mono; [apply (free_job_runs md _ ((l1 ++ l2).*2 ++ own))|].
  { rewrite Ej, Ef. refine (proj2 (objs_ok_perm _ _ _ _ _) Hj).
    rewrite !fmap_app, fmap_cons. simpl. solve_perm. }
  intros tp' (st & fl & -> & Hj'). apply runs_ret.
  exists l1, l2, q', st, fl. by split_and!.
Qed.

(** All jobs a client can still remove, in the order they are looked up. *)
Definition removable tp (hl ml ll : list (loc * item)) : list item :=
  all_jobs hl ml ll ++ option_list (tp_persistentJob tp).

(** The result of [ThreadPoolRemove]. *)
Definition removed e tp ws hl ml ll leak (jobId : Z)
    (r : Z * option ThreadPoolJob * pool) : Prop :=
  let '(rc, out, tp') := r in
  match find (fun j : item => jobId =? j_jobId j.2) (removable tp hl ml ll) with
  | None => rc = INVALID_JOB_ID /\ out = None /\ tp' = tp
  | Some j => rc = 0 /\ out = Some j.2 /\
      exists hl' ml' ll' js1 js2, tp_rep e tp' ws hl' ml' ll' leak /\
        tp_workers tp' = tp_workers tp /\
        removable tp hl ml ll = js1 ++ j :: js2 /\
        removable tp' hl' ml' ll' = js1 ++ js2
  end.

(** One of the three queues, between the jobs [pre] and [post]. *)
Lemma remove_at md e tp ws hl ml ll leak jobId q put l pre post :
  tp_rep e tp ws hl ml ll leak -> q_rep q l -> keeps_mem put ->
  removable tp hl ml ll = pre ++ l.*2 ++ post ->
  find (fun j : item => jobId =? j_jobId j.2) pre = None ->
  (forall q' l' st fl, q_rep q' l' ->
    objs_ok st fl (e ++ leak ++ (pre ++ l'.*2 ++ post) ++ (ws ≫= w_items)) ->
    let tp' := set_mem st fl (put q' tp) in
    exists hl' ml' ll', tp_rep e tp' ws hl' ml' ll' leak /\
      tp_workers tp' = tp_workers tp /\
      removable tp' hl' ml' ll' = pre ++ l'.*2 ++ post) ->
  runs md (remove_from q put (dummy_job jobId) tp) (fun r =>
    match r with
    | Some (out, tp') => removed e tp ws hl ml ll leak jobId (0, Some out, tp')
    | None => find (fun j : item => jobId =? j_jobId j.2) (pre ++ l.*2) = None
    end).
Proof.
  intros [_ _ _ Hj] Hq Hput Hrm Hpre Hback. eapply runs_mono.
  { apply (remove_from_runs md q put jobId tp l (e ++ leak ++ pre ++ post ++ (ws ≫= w_items)));
      [done..|]. refine (proj2 (objs_ok_perm _ _ _ _ _) Hj). etrans;
      [|do 2 apply Permutation_app_head; rewrite app_assoc; unfold removable in Hrm;
        rewrite Hrm; reflexivity]. solve_perm. }
  intros r Hr. unfold removed. rewrite Hrm, !find_app_cases, Hpre, find_fmap.
  destruct (find _ l) as [[a x]|]; simpl; [|by subst r; simpl].
  destruct Hr as (l1 & l2 & q' & st & fl & -> & Hq' & -> & Hj').
  split; [done|]. split; [done|].
  destruct (Hback q' (l1 ++ l2) st fl Hq') as (hl' & ml' & ll' & Hr' & Hw & Hrm').
  { refine (proj2 (objs_ok_perm _ _ _ _ _) Hj'). solve_perm. }
  exists hl', ml', ll', (pre ++ l1.*2), (l2.*2 ++ post).
  split; [done|]. split; [done|]. rewrite Hrm', !fmap_app, fmap_cons. simpl.
  by rewrite <- !app_assoc.
Qed.

Lemma remove_runs md e tp ws hl ml ll leak jobId :
  tp_rep e tp ws hl ml ll leak ->
  runs md (ThreadPoolRemove tp jobId) (removed e tp ws hl ml ll leak jobId).
Proof.
  intros Hr. pose proof Hr as [Hh Hm Hl Hj]. unfold ThreadPoolRemove. mstep.
  assert (removable tp hl ml ll = hl.*2 ++ ml.*2 ++ ll.*2 ++ option_list (tp_persistentJob tp)) as Hrm
    by (unfold removable, all_jobs; by rewrite <- !app_assoc).
  eapply runs_mono; [apply (remove_at md e tp ws hl ml ll leak jobId _ _ hl []
    (ml.*2 ++ ll.*2 ++ option_list (tp_persistentJob tp))); try done|].
  { intros q' l' st fl Hq' Hj'. exists l', ml, ll. split; [split; try done; simpl|].
    - refine (proj2 (objs_ok_perm _ _ _ _ _) Hj'). unfold all_jobs. solve_perm.
    - split; [done|]. unfold removable, all_jobs. by rewrite <- !app_assoc. }
  intros [[out tp']|]; [intros Hrem; by apply runs_ret|]. intros F1. mstep.
  eapply runs_mono; [apply (remove_at md e tp ws hl ml ll leak jobId _ _ ml (hl.*2)
    (ll.*2 ++ option_list (tp_persistentJob tp))); try done|].
  { intros q' l' st fl Hq' Hj'. exists hl, l', ll. split; [split; try done; simpl|].
    - refine (proj2 (objs_ok_perm _ _ _ _ _) Hj'). unfold all_jobs. solve_perm.
    - split; [done|]. unfold removable, all_jobs. by rewrite <- !app_assoc. }
  intros [[out tp']|]; [intros Hrem; by apply runs_ret|]. intros F2. mstep.
  eapply runs_mono; [apply (remove_at md e tp ws hl ml ll leak jobId _ _ ll
    (hl.*2 ++ ml.*2) (option_list (tp_persistentJob tp))); try done|].
  { by rewrite Hrm, <- !app_assoc. }
  { intros q' l' st fl Hq' Hj'. exists hl, ml, l'. split; [split; try done; simpl|].
    - refine (proj2 (objs_ok_perm _ _ _ _ _) Hj'). unfold all_jobs. solve_perm.
    - split; [done|]. unfold removable, all_jobs. by rewrite <- !app_assoc. }
  intros [[out tp']|]; [intros Hrem; by apply runs_ret|]. intros F3.
  assert (find (fun j : item => jobId =? j_jobId j.2) (removable tp hl ml ll)
    = find (fun j : item => jobId =? j_jobId j.2) (option_list (tp_persistentJob tp))) as F.
  { rewrite Hrm, !app_assoc, find_app_cases. rewrite <- app_assoc in F3.
    by rewrite <- (app_assoc (hl.*2)), F3. }
  unfold removed.
  destruct (tp_persistentJob tp) as [j|] eqn:Epj; simpl in F;
    [|apply runs_ret; by rewrite F].
  rewrite (Z.eqb_sym (j_jobId j.2)). destruct (jobId =? j_jobId j.2);
    [|apply runs_ret; by rewrite F].
  mstep. eapply runs_mono; [apply (free_job_runs md tp (e ++ leak ++ all_jobs hl ml ll
    ++ (ws ≫= w_items)))|].
  { refine (proj2 (objs_ok_perm _ _ _ _ _) Hj). cbn [option_list]. solve_perm. }
  intros tp' (st & fl & -> & Hj'). apply runs_ret. rewrite F.
  split; [done|]. split; [done|]. exists hl, ml, ll, (all_jobs hl ml ll), [].
  split; [by split|]. split; [done|]. unfold removable. by rewrite Epj.
Qed.

(** A queue of the pool and how it is stored back. *)
Record is_slot (get : pool -> LQ) (put : LQ -> pool -> pool) : Prop := {
  sl_get : forall q tp, get (put q tp) = q;
  sl_get_mem : forall st fl tp, get (set_mem st fl tp) = get tp;
  sl_same : forall tp, put (get tp) tp = tp;
  sl_twice : forall q q' tp, put q (put q' tp) = put q tp;
  sl_mem : keeps_mem put
}.

Lemma slot_high : is_slot tp_highJobQ set_tp_highJobQ.
Proof. split; try done. by intros []. Qed.
Lemma slot_med : is_slot tp_medJobQ set_tp_medJobQ.
Proof. split; try done. by intros []. Qed.
Lemma slot_low : is_slot tp_lowJobQ set_tp_lowJobQ.
Proof. split; try done. by intros []. Qed.

Definition free_calls (js : list item) : list (Z * Z) := js ≫= fun j => free_call j.2.

(** The queue was emptied and its jobs freed, the others are [own]. *)
Definition drained (put : LQ -> pool -> pool) (calls : list (Z * Z)) (js own : list item)
    tp (r : bool * list (Z * Z) * pool) : Prop :=
  let '(early, calls', tp') := r in
  early = false /\ calls' = calls ++ free_calls js /\
  exists st fl q, tp' = set_mem st fl (put q tp) /\ q_rep q [] /\ objs_ok st fl own.

Lemma drain_runs md fuel get put calls tp (l : list (loc * item)) (own : list item) :
  is_slot get put -> q_rep (get tp) l -> (length l < fuel)%nat ->
  objs_ok (tp_jobs tp) (tp_jobFreeList tp) (l.*2 ++ own) ->
  runs md (drain fuel get put calls tp) (drained put calls l.*2 own tp).
Proof.
  intros [Hg Hgm Hs Ht Hk].
  revert calls tp l. induction fuel as [|fuel IH]; intros calls tp l Hq Hf Hj; [lia|].
  simpl. rewrite (q_size_law _ _ Hq). destruct l as [|[a x] l].
  - rewrite zlen_nil. apply runs_ret. split; [done|]. split; [by rewrite app_nil_r|].
    exists (tp_jobs tp), (tp_jobFreeList tp), (get tp). rewrite Hs. by destruct tp.
  - destruct (q_first _ _ _ _ Hq) as (E1 & E2 & _). rewrite zlen_cons.
    pose proof (zlen_nonneg l). destruct (Z.eqb_spec (1 + zlen l) 0); [lia|].
    mstep. eapply runs_liftO; [done|]. cbn beta iota.
    mstep. eapply runs_liftO; [done|].
    mstep. eapply runs_mono; [by apply (free_job_runs md tp (l.*2 ++ own))|].
    intros tp1 (st & fl & -> & Hj1). rewrite Hgm.
    mstep. eapply runs_mono; [by eapply q_del_first|]. intros [y q] [-> Hq'].
    destruct (Hk q st fl tp) as (Ec & _ & _).
    eapply runs_mono; [apply (IH _ _ l)|].
    + by rewrite Hg.
    + simpl in Hf. lia.
    + by rewrite Ec.
    + intros [[early calls'] tp'] (-> & -> & st' & fl' & q' & -> & Hq'' & Hj').
      split; [done|]. split; [unfold free_calls; simpl; by rewrite <- app_assoc|].
      exists st', fl', q'. destruct (Hk q st fl tp) as (Ec1 & _).
      destruct (Hk q' st fl (put q tp)) as (Ec2 & _).
      by rewrite Ec1, Ec2, Ht.
Qed.

Lemma drain_queue_runs md get put calls tp (l : list (loc * item)) (own : list item) :
  is_slot get put -> q_rep (get tp) l ->
  objs_ok (tp_jobs tp) (tp_jobFreeList tp) (l.*2 ++ own) ->
  runs md (drain_queue get put calls tp) (drained put calls l.*2 own tp).
Proof.
  intros Hsl Hq Hj. unfold drain_queue. mstep.
  eapply runs_mono; [apply (drain_runs md _ _ _ _ _ l own); try done|].
  { rewrite (q_size_law _ _ Hq). unfold zlen. lia. }
  intros [[early calls'] tp'] (-> & -> & st & fl & q & -> & Hq' & Hj').
  destruct Hsl as [Hg Hgm Hs Ht Hk]. mstep.
  eapply runs_mono; [apply (q_destroy_law md _ []); by rewrite Hgm, Hg|].
  intros q2 Hq2. apply runs_ret. split; [done|]. split; [done|].
  exists st, fl, q2. destruct (Hk q2 st fl (put q tp)) as (-> & _). by rewrite Ht.
Qed.

Lemma no_persistent tp : tp_persistentJob tp = None -> set_tp_persistentJob None tp = tp.
Proof. destruct tp. simpl. by intros ->. Qed.

Lemma shutdown_runs md e tp hl ml ll leak :
  ends md ThreadsLeft -> tp_rep e tp (tp_workers tp) hl ml ll leak ->
  runs md (ThreadPoolShutdown tp) (fun '(rc, calls, tp') =>
    rc = 0 /\ calls = free_calls (removable tp hl ml ll) /\
    tp_inv e tp' /\ tp_totalThreads tp' <= 0).
Proof.
  intros He [Hh Hm Hl Hj]. unfold ThreadPoolShutdown, free_calls.
  set (rest := e ++ leak ++ (tp_workers tp ≫= w_items)).
  mstep. eapply runs_mono; [apply (drain_queue_runs md _ _ _ tp hl
    (ml.*2 ++ ll.*2 ++ option_list (tp_persistentJob tp) ++ rest) slot_high Hh)|].
  { refine (proj2 (objs_ok_perm _ _ _ _ _) Hj). unfold all_jobs, rest. solve_perm. }
  intros [[early calls] tp1] (-> & -> & st1 & fl1 & q1 & -> & Hq1 & Hj1).
  mstep. eapply runs_mono; [apply (drain_queue_runs md _ _ _ (set_mem st1 fl1 (set_tp_highJobQ q1 tp)) ml
    (ll.*2 ++ option_list (tp_persistentJob tp) ++ rest) slot_med Hm Hj1)|].
  intros [[early calls] tp2] (-> & -> & st2 & fl2 & q2 & -> & Hq2 & Hj2).
  set (tp2 := set_mem st2 fl2 _).
  mstep. eapply runs_mono; [apply (drain_queue_runs md _ _ _ tp2 ll
    (option_list (tp_persistentJob tp) ++ rest) slot_low Hl Hj2)|].
  intros [[early calls] tp3] (-> & -> & st3 & fl3 & q3 & -> & Hq3 & Hj3).
  set (tp3 := set_mem st3 fl3 _). mstep.
  apply (runs_mono _ _ (fun '(calls, tp4) => exists st fl,
    calls = free_calls (removable tp hl ml ll) /\
    tp4 = set_mem st fl (set_tp_persistentJob None tp3) /\ objs_ok st fl rest)).
  { unfold removable, all_jobs, free_calls. rewrite !bind_app. simpl in *.
    destruct (tp_persistentJob tp) as [j|] eqn:Epj.
    - mstep. eapply runs_mono; [by apply (free_job_runs md tp3 rest)|].
      intros tp4 (st & fl & -> & Hj4). apply runs_ret. exists st, fl.
      split; [simpl; by rewrite app_nil_r, <- !app_assoc|done].
    - apply runs_ret. exists st3, fl3. rewrite (no_persistent tp3 Epj).
      split; [simpl; by rewrite app_nil_r, <- !app_assoc|done]. }
  intros [calls tp4] (st4 & fl4 & -> & -> & Hj4). mstep.
  eapply runs_mono; [apply (wait_runs _ _ e _ He)|].
  { exists [], [], [], leak. by split. }
  intros tp5 [(hl5 & ml5 & ll5 & lk5 & [?? ? Hj5]) Hw].
  destruct (objs_destroy _ _ _ Hj5) as (st' & fl' & E & Hj').
  mstep. eapply runs_liftO; [done|]. apply runs_ret.
  split; [done|]. split; [done|]. simpl in *. zbool. split; [|done].
  exists hl5, ml5, ll5, lk5. by split.
Qed.

Lemma setattr_inv attr e tp :
  tp_inv e tp -> within (default default_attr attr) ->
  runs Safe (ThreadPoolSetAttr tp attr) (fun '(rc, calls, tp') => tp_inv e tp').
Proof.
  intros Hi Hfit. unfold ThreadPoolSetAttr. destruct (negb _); [by apply runs_ret|].
  mstep. eapply runs_mono; [apply (create_workers_inv _ _ e)|].
  { destruct Hi as (hl & ml & ll & lk & []). exists hl, ml, ll, lk. by split. }
  intros [rc tp'] Hi'. destruct (negb _); [|by apply runs_ret].
  destruct Hi' as (hl & ml & ll & lk & Hr). mstep.
  eapply runs_mono; [eapply shutdown_runs; [apply ends_safe|done]|].
  intros [[rc' calls] tp2] (_ & _ & Hi2 & _). by apply runs_ret.
Qed.
End Rely.
End API.

(** ** Without interference

    [quiet] lets the other threads do nothing while an operation waits, but for
    the thread being created, which enters its first critical section. *)

Section Quiet.
Context (now : timeval) (create_error : Z) (create_fails : create_error <> 0).

Definition new_worker : worker := WReady None (-1) (StatsTime now).

Definition quiet (c : wait_cond) tp : pool :=
  match c, tp_workers tp with
  | PendingStart, WStart :: ws => set_tp_workers (new_worker :: ws) (worker_start now tp).1
  | _, _ => tp
  end.

(** [n] new threads. *)
Definition more (n : nat) (s : ThreadPoolStats) tp : pool :=
  set_tp_totalThreads (tp_totalThreads tp + Z.of_nat n)
    (set_tp_workers (replicate n new_worker ++ tp_workers tp) (set_tp_stats s tp)).

Definition at_limit tp : bool :=
  negb (at_maxThreads (tp_attr tp) =? INFINITE_THREADS)
  && (at_maxThreads (tp_attr tp) <? tp_totalThreads tp + 1).

Lemma more_more n m s s' tp : more n s (more m s' tp) = more (n + m) s tp.
Proof.
  destruct tp. cbv -[replicate app Z.add Z.of_nat new_worker Nat.add].
  rewrite replicate_add, <- app_assoc. f_equal. lia.
Qed.

Lemma create_worker_quiet md tp :
  tp_pendingWorkerThreadStart tp = 0 ->
  runs md (CreateWorker quiet create_error tp) (fun '(rc, tp') =>
    if at_limit tp then rc = EMAXTHREADS /\ tp' = tp
    else exists s, (rc = 0 /\ tp' = more 1 s tp) \/
      (md <> Lucky /\ rc = create_error /\ tp' = more 0 s tp)).
Proof.
  intros Hp. unfold CreateWorker, wait_while, waiting. rewrite Hp. simpl.
  mstep. mstep. fold (at_limit tp). destruct (at_limit tp); [by apply runs_ret|].
  mstep. unfold ithread_create. mstep. mstep; mstep.
  - simpl. mstep. mstep. apply runs_ret.
    exists (if st_maxThreads (tp_stats tp) <? tp_totalThreads tp + 1
            then set_st_maxThreads (tp_totalThreads tp + 1) (tp_stats tp)
            else tp_stats tp).
    left. split; [done|]. destruct tp; simpl in *. subst.
    by destruct (_ <? _).
  - apply Z.eqb_neq in create_fails as Hc. rewrite Hc. mstep. mstep. apply runs_ret.
    exists (if st_maxThreads (tp_stats tp) <? tp_totalThreads tp
            then set_st_maxThreads (tp_totalThreads tp) (tp_stats tp)
            else tp_stats tp).
    right. split; [done|]. split; [done|]. destruct tp; simpl in *. subst.
    unfold more. simpl. rewrite Z.add_0_r. by destruct (_ <? _).
Qed.

(** Enough threads for [jobs] queued jobs, or no more can be created. *)
Definition enough md (jobs : Z) tp : Prop :=
  (let threads := tp_totalThreads tp - tp_persistentThreads tp in
   threads <> 0 /\ Z.quot jobs threads < at_jobsPerThread (tp_attr tp) /\
   tp_totalThreads tp <> tp_busyThreads tp)
  \/ at_limit tp = true \/ md <> Lucky.

(** The passes that are left. *)
Definition passes (jobs threads : Z) tp : Z :=
  if at_maxThreads (tp_attr tp) =? INFINITE_THREADS
  then Z.max (jobs + 1 - threads) (if tp_totalThreads tp =? tp_busyThreads tp then 1 else 0)
  else at_maxThreads (tp_attr tp) - tp_totalThreads tp.

Lemma add_worker_loop_quiet md fuel jobs tp :
  tp_pendingWorkerThreadStart tp = 0 -> 0 <= jobs ->
  (at_maxThreads (tp_attr tp) = INFINITE_THREADS -> 1 <= at_jobsPerThread (tp_attr tp)) ->
  0 <= tp_totalThreads tp - tp_persistentThreads tp ->
  tp_busyThreads tp <= tp_totalThreads tp ->
  passes jobs (tp_totalThreads tp - tp_persistentThreads tp) tp < Z.of_nat fuel ->
  (0 < fuel)%nat ->
  runs md (add_worker_loop quiet create_error fuel jobs
             (tp_totalThreads tp - tp_persistentThreads tp) tp)
    (fun tp' => exists n s, tp' = more n s tp /\ enough md jobs tp').
Proof.
  revert tp. induction fuel as [|fuel IH]; intros tp Hp Hjobs Hj Ht Hb Hf Hf0; [lia|].
  simpl. destruct (_ || _) eqn:Econd.
  - mstep. eapply runs_mono; [by apply create_worker_quiet|]. intros [rc tp1].
    destruct (at_limit tp) eqn:Elim.
    + intros [-> ->]. apply runs_ret. exists 0%nat, (tp_stats tp).
      split; [destruct tp; unfold more; simpl; by rewrite Z.add_0_r|]. by right; left.
    + intros [s [[-> ->]|(Hmd & -> & ->)]].
      * simpl. replace (tp_totalThreads tp - tp_persistentThreads tp + 1) with
          (tp_totalThreads (more 1 s tp) - tp_persistentThreads (more 1 s tp))
          by (simpl; lia).
        assert (passes jobs (tp_totalThreads (more 1 s tp) - tp_persistentThreads tp)
                  (more 1 s tp) < Z.of_nat fuel /\ (0 < fuel)%nat) as [Hf' Hf0'].
        { revert Hf Elim Econd. unfold passes, at_limit, INFINITE_THREADS. simpl.
          change (Z.of_nat 1) with 1. clear IH Hf0.
          destruct (Z.eqb_spec (at_maxThreads (tp_attr tp)) (-1)) as [E|E]; intros.
          - specialize (Hj E).
            destruct (Z.eqb_spec (tp_totalThreads tp + 1) (tp_busyThreads tp)); [lia|].
            destruct (Z.eqb_spec (tp_totalThreads tp) (tp_busyThreads tp)); [lia|].
            rewrite orb_false_r in Econd. apply orb_true_iff in Econd as [?|Hq]; zbool; [lia|].
            assert (tp_totalThreads tp - tp_persistentThreads tp <= jobs); [|lia].
            destruct (Z.le_gt_cases (tp_totalThreads tp - tp_persistentThreads tp) jobs);
              [done|]. rewrite Z.quot_small in Hq by lia. lia.
          - simpl in Elim. zbool. lia. }
        eapply runs_mono; [apply IH; simpl; try done; lia|].
        intros tp' (n & s' & -> & He). exists (n + 1)%nat, s'.
        by rewrite more_more in *.
      * apply Z.eqb_neq in create_fails as ->. apply runs_ret. exists 0%nat, s.
        split; [done|]. by right; right.
  - apply runs_ret. exists 0%nat, (tp_stats tp).
    split; [destruct tp; unfold more; simpl; by rewrite Z.add_0_r|]. left.
    zbool. done.
Qed.

Lemma wsum_le f g ws : (forall w, f w <= g w) -> wsum f ws <= wsum g ws.
Proof.
  intros Hle. induction ws as [|w ws IH]; simpl; [lia|]. pose proof (Hle w). lia.
Qed.

Lemma rep_bounds e tp ws hl ml ll leak :
  tp_rep e tp ws hl ml ll leak ->
  tp_busyThreads tp <= tp_totalThreads tp /\
  0 <= tp_totalThreads tp - tp_persistentThreads tp /\ 0 <= tp_totalThreads tp.
Proof.
  intros []. rewrite r_total0, r_busy0, r_persistent0.
  split; [|split; [|by apply wsum_nonneg; intros []]; cut (wsum w_persistent ws <= wsum w_started ws); [lia|]]; apply wsum_le.
  - by intros [|[] ? ?|].
  - intros [|? p ?|]; simpl; try lia. by destruct (p =? 1).
Qed.

(** The lists of the queues after [x] was appended to the one of its
    priority. *)
Definition enqueued (x : item) (hl ml ll hl' ml' ll' : list (loc * item)) : Prop :=
  if j_priority x.2 =? HIGH_PRIORITY then hl'.*2 = hl.*2 ++ [x] /\ ml' = ml /\ ll' = ll
  else if j_priority x.2 =? MED_PRIORITY then
    hl' = hl /\ ml'.*2 = ml.*2 ++ [x] /\ ll' = ll
  else hl' = hl /\ ml' = ml /\ ll'.*2 = ll.*2 ++ [x].

Lemma queued_zlen tp hl ml ll :
  queues tp hl ml ll -> queued tp = zlen (all_jobs hl ml ll).
Proof.
  intros (Hh & Hm & Hl). unfold queued, all_jobs.
  rewrite (q_size_law _ _ Hh), (q_size_law _ _ Hm), (q_size_law _ _ Hl), !zlen_app.
  unfold zlen. rewrite !length_fmap. lia.
Qed.

(** The [switch] of [ThreadPoolAdd], for one queue. *)
Lemma enqueue_runs md q l temp put :
  q_rep q l ->
  runs md ('(p, q') ← q_add_tail q temp; mret (add_rc p, put q') : M (Z * pool))
    (fun '(rc, tp') => exists q' l', tp' = put q' /\ q_rep q' l' /\
      ((rc = 0 /\ l'.*2 = l.*2 ++ [temp]) \/
       (md <> Lucky /\ rc = EOUTOFMEM /\ l' = l))).
Proof.
  intros Hq. mstep. eapply runs_mono; [by apply q_add_tail_law|].
  intros [[b|] q']; simpl.
  - intros Hq'. apply runs_ret. exists q', (l ++ [(b, temp)]).
    split; [done|]. split; [done|]. left. by rewrite fmap_app.
  - intros [? Hq']. apply runs_ret. exists q', l. by split_and!; [..|right].
Qed.

(** The outcome of [ThreadPoolAdd] on a pool with room and no interference. *)
Definition job_added md (at_ : timeval) (job : ThreadPoolJob) tp hl ml ll
    (r : Z * option Z * pool) : Prop :=
  let '(rc, id, tp') := r in
  exists hl' ml' ll', queues tp' hl' ml' ll' /\
    ((rc = 0 /\ id = Some (tp_lastJobId tp) /\
      tp_lastJobId tp' = to_int (tp_lastJobId tp + 1) /\
      (exists l, enqueued (l, stamped at_ job (tp_lastJobId tp)) hl ml ll hl' ml' ll') /\
      enough md (zlen (all_jobs hl' ml' ll')) tp') \/
     (md <> Lucky /\ rc = EOUTOFMEM /\ hl' = hl /\ ml' = ml /\ ll' = ll)).

Lemma add_quiet md at_ job e tp hl ml ll leak :
  tp_rep e tp (tp_workers tp) hl ml ll leak ->
  tp_pendingWorkerThreadStart tp = 0 ->
  zlen (all_jobs hl ml ll) < at_maxJobsTotal (tp_attr tp) ->
  (at_maxThreads (tp_attr tp) = INFINITE_THREADS -> 1 <= at_jobsPerThread (tp_attr tp)) ->
  runs md (ThreadPoolAdd quiet create_error at_ tp (Some job))
    (job_added md at_ job tp hl ml ll).
Proof.
  intros Hr Hp Hroom Hinf. destruct (rep_bounds _ _ _ _ _ _ _ Hr) as (Hb & Ht & Ht0).
  pose proof (tp_rep_queues _ _ _ _ _ _ _ Hr) as Hq. destruct Hr as [_ _ _ Hj _ _ _ _ _ _ _].
  pose proof Hq as (Hh & Hm & Hl). unfold ThreadPoolAdd.
  rewrite (queued_zlen _ _ _ _ Hq), (proj2 (Z.leb_gt _ _)) by lia.
  mstep. eapply runs_mono; [by apply create_job_runs|].
  intros [[temp|] tp1]; [|intros [? ->]; apply runs_ret; exists hl, ml, ll; by split; [|right]].
  intros (st & fl & -> & Htemp & Hj1). mstep.
  assert (j_priority job = j_priority temp.2) as -> by (by rewrite Htemp).
  apply (runs_mono _ _ (fun '(rc, tp2) => exists hq mq lq hl' ml' ll',
    tp2 = set_mem st fl (set_queues hq mq lq (tp_stats tp) tp) /\
    q_rep hq hl' /\ q_rep mq ml' /\ q_rep lq ll' /\
    ((rc = 0 /\ enqueued temp hl ml ll hl' ml' ll') \/
     (md <> Lucky /\ rc = EOUTOFMEM /\ hl' = hl /\ ml' = ml /\ ll' = ll)))).
  { unfold enqueued. destruct (j_priority temp.2 =? HIGH_PRIORITY);
      [|destruct (j_priority temp.2 =? MED_PRIORITY)].
    - eapply runs_mono; [by apply enqueue_runs|]. intros [rc tp2] (q' & l' & -> & Hq' & Hc).
      exists q', (tp_medJobQ tp), (tp_lowJobQ tp), l', ml, ll.
      split; [by destruct tp|]. do 3 (split; [done|]). naive_solver.
    - eapply runs_mono; [by apply enqueue_runs|]. intros [rc tp2] (q' & l' & -> & Hq' & Hc).
      exists (tp_highJobQ tp), q', (tp_lowJobQ tp), hl, l', ll.
      split; [by destruct tp|]. do 3 (split; [done|]). naive_solver.
    - eapply runs_mono; [by apply enqueue_runs|]. intros [rc tp2] (q' & l' & -> & Hq' & Hc).
      exists (tp_highJobQ tp), (tp_medJobQ tp), q', hl, ml, l'.
      split; [by destruct tp|]. do 3 (split; [done|]). naive_solver. }
  intros [rc tp2] (hq & mq & lq & hl' & ml' & ll' & -> & Hh' & Hm' & Hl' & Hcase).
  set (tp2 := set_mem st fl _).
  assert (queued tp2 = zlen (all_jobs hl' ml' ll')) as Eq by (by apply queued_zlen).
  mstep. unfold AddWorker. eapply runs_mono.
  { apply add_worker_loop_quiet; simpl; try done; [rewrite Eq; apply zlen_nonneg| |].
    - unfold passes, add_worker_fuel. simpl. rewrite Eq.
      pose proof (zlen_nonneg (all_jobs hl' ml' ll')). destruct (_ =? _); [|lia].
      destruct (_ =? _); lia.
    - unfold add_worker_fuel. lia. }
  intros tp3 (n & s & -> & Hen). rewrite Eq in Hen. mstep.
  destruct Hcase as [[-> Henq]|(Hmd & -> & -> & -> & ->)]; simpl.
  - apply runs_ret. apply runs_ret. exists hl', ml', ll'. split; [done|]. left.
    split; [done|]. split; [done|]. split; [done|]. split; [|done].
    exists temp.1. by rewrite <- Htemp, <- surjective_pairing.
  - eapply runs_mono; [by apply free_job_runs|]. intros tp4 (st' & fl' & -> & _).
    apply runs_ret. exists hl, ml, ll. split; [done|]. by right.
Qed.
End Quiet.

(** ** All interleavings *)

Section Reach.
Context (create_error : Z) (create_fails : create_error <> 0).
Context (sched_get_priority_min : Z -> Z) (sched_setscheduler : Z -> Z -> Z * Z).

(** [reach tp tp']: the threads of the pool and its clients can take it from
    [tp] to [tp'].  While an operation waits, the others run. *)
Inductive reach : pool -> pool -> Prop :=
| reach_refl tp : reach tp tp
| reach_trans tp1 tp2 tp3 : reach tp1 tp2 -> reach tp2 tp3 -> reach tp1 tp3
| reach_worker i rc now0 now tp o tp' o' :
    worker_step i rc now0 now tp o = Ret tp' o' -> reach tp tp'
| reach_add wake now job tp o rc id tp' o' :
    (forall c t, reach t (wake c t)) ->
    ThreadPoolAdd wake create_error now tp job o = Ret (rc, id, tp') o' -> reach tp tp'
| reach_add_persistent wake now job tp o rc id tp' o' :
    (forall c t, reach t (wake c t)) ->
    ThreadPoolAddPersistent wake create_error now tp job o = Ret (rc, id, tp') o' ->
    reach tp tp'
| reach_remove jobId tp o rc out tp' o' :
    ThreadPoolRemove tp jobId o = Ret (rc, out, tp') o' -> reach tp tp'
| reach_setattr wake attr tp o rc calls tp' o' :
    (forall c t, reach t (wake c t)) ->
    within (default default_attr attr) ->
    ThreadPoolSetAttr wake create_error sched_get_priority_min sched_setscheduler
      tp attr o = Ret (rc, calls, tp') o' -> reach tp tp'
| reach_shutdown wake tp o rc calls tp' o' :
    (forall c t, reach t (wake c t)) ->
    ThreadPoolShutdown wake tp o = Ret (rc, calls, tp') o' -> reach tp tp'.

Lemma runs_safe {A} (m : M A) Q o a o' :
  runs Safe m Q -> m o = Ret a o' -> Q a.
Proof. intros H E. specialize (H o I). rewrite E in H. by destruct H. Qed.

Lemma remove_inv md e jobId tp :
  tp_inv e tp -> runs md (ThreadPoolRemove tp jobId) (fun '(rc, out, tp') => tp_inv e tp').
Proof.
  intros (hl & ml & ll & lk & Hr). eapply runs_mono; [by eapply remove_runs|].
  intros [[rc out] tp'] Hrem. unfold removed in Hrem.
  destruct (find _ _).
  - destruct Hrem as (_ & _ & hl' & ml' & ll' & js1 & js2 & Hr' & Hw & _).
    exists hl', ml', ll', lk. by rewrite Hw.
  - destruct Hrem as (_ & _ & ->). by exists hl, ml, ll, lk.
Qed.

Lemma shutdown_inv wake e tp :
  (forall c e tp, tp_inv e tp -> tp_inv e (wake c tp)) -> tp_inv e tp ->
  runs Safe (ThreadPoolShutdown wake tp) (fun '(rc, calls, tp') => tp_inv e tp').
Proof.
  intros Hw (hl & ml & ll & lk & Hr).
  eapply runs_mono; [eapply shutdown_runs; [exact Hw|by left|exact Hr]|].
  by intros [[rc calls] tp'] (_ & _ & Hi & _).
Qed.

Lemma reach_keeps tp tp' : reach tp tp' -> forall e, tp_inv e tp -> tp_inv e tp'.
Proof.
  induction 1 as [| |i rc now0 now tp o tp' o' E|wake now job tp o rc id tp' o' _ IH E
    |wake now job tp o rc id tp' o' _ IH E|jobId tp o rc out tp' o' E
    |wake attr tp o rc calls tp' o' _ IH Hfit E|wake tp o rc calls tp' o' _ IH E];
    intros e Hi; auto.
  - destruct (tp_workers tp !! i) as [w|] eqn:Ew.
    + by eapply (runs_safe _ _ _ _ _ (worker_step_runs Safe e i rc now0 now tp Hi ltac:(eauto)) E).
    + unfold worker_step in E. rewrite Ew in E. discriminate.
  - by eapply (runs_safe _ _ _ _ _ (add_inv wake create_error ltac:(eauto) create_fails _ _ _ _ Hi) E).
  - by eapply (runs_safe _ _ _ _ _
      (add_persistent_op_inv wake create_error ltac:(eauto) create_fails _ _ _ _ Hi) E).
  - by eapply (runs_safe _ _ _ _ _ (remove_inv Safe e jobId tp Hi) E).
  - by eapply (runs_safe _ _ _ _ _ (setattr_inv wake create_error _ _ ltac:(eauto)
      create_fails _ _ _ Hi Hfit) E).
  - by eapply (runs_safe _ _ _ _ _ (shutdown_inv wake e tp ltac:(eauto) Hi) E).
Qed.
End Reach.

(** ** Properties *)

Section Properties.
Context (create_error : Z) (sched_get_priority_min : Z -> Z)
  (sched_setscheduler : Z -> Z -> Z * Z).


(** C15: each critical section of a worker runs to its end from every state of
    the invariant, without undefined behaviour (in particular no job is used
    after it was freed or freed twice) and without failing an assertion,
    whatever the allocator answers, and it keeps the invariant. *)
Theorem worker_step_correct md e i rc now0 now tp :
  tp_inv e tp -> is_Some (tp_workers tp !! i) ->
  runs md (worker_step i rc now0 now tp) (tp_inv e).
Proof. apply worker_step_runs. Qed.

(** C16: The operations of the pool have no undefined behaviour under any
    interference that keeps the invariant, and keep it: adding a job or a
    persistent job, removing one, setting attributes, whose [maxThreads] may be
    below the number of running threads but not above the bound [limit] of the
    invariant, if that is finite, and shutting down. *)
Theorem pool_operations_safe wake e now job jobId attr tp :
  create_error <> 0 -> (forall c e tp, tp_inv e tp -> tp_inv e (wake c tp)) ->
  tp_inv e tp -> within (default default_attr attr) ->
  runs Safe (ThreadPoolAdd wake create_error now tp job)
    (fun '(_, _, tp') => tp_inv e tp') /\
  runs Safe (ThreadPoolAddPersistent wake create_error now tp job)
    (fun '(_, _, tp') => tp_inv e tp') /\
  runs Total (ThreadPoolRemove tp jobId) (fun '(_, _, tp') => tp_inv e tp') /\
  runs Safe (ThreadPoolSetAttr wake create_error sched_get_priority_min
               sched_setscheduler tp attr) (fun '(_, _, tp') => tp_inv e tp') /\
  runs Safe (ThreadPoolShutdown wake tp) (fun '(_, _, tp') => tp_inv e tp').
Proof.
  intros Hc Hw Hi Hfit. split; [by apply add_inv|]. split; [by apply add_persistent_op_inv|].
  split; [by apply remove_inv|]. split; [by apply setattr_inv|by apply shutdown_inv].
Qed.


(** [BumpPriority] terminates; afterwards the first medium job has waited
    less than [starvationTime] and the first low job less than [maxIdleTime];
    the jobs of the three queues, read from high to low, are the same in the
    same order (jobs are lost only when no list node can be allocated). *)
Theorem BumpPriority_correct md now tp hl ml ll :
  queues tp hl ml ll ->
  runs md (BumpPriority now tp) (fun tp' => exists hl' ml' ll' lost,
    queues tp' hl' ml' ll' /\
    all_jobs hl ml ll ≡ₚ lost ++ all_jobs hl' ml' ll' /\
    (md = Lucky -> all_jobs hl' ml' ll' = all_jobs hl ml ll) /\
    ~ med_waits now tp ml' /\ ~ low_waits now tp ll').
Proof.
  intros Hq. eapply runs_mono; [by apply bump_runs|].
  intros tp' (hq & mq & lq & s & hl' & ml' & ll' & lost & -> & ? & [Hp Ho] & ? & ?).
  exists hl', ml', ll', lost. split; [done|]. split; [done|]. split; [|done].
  intros E. by rewrite Ho.
Qed.


(** [ThreadPoolAdd] refuses a job when [maxJobsTotal] jobs are queued, and
    leaves the pool as it is, whatever the other threads do. *)
Theorem ThreadPoolAdd_full md wake now job tp hl ml ll :
  queues tp hl ml ll -> at_maxJobsTotal (tp_attr tp) <= zlen (all_jobs hl ml ll) ->
  runs md (ThreadPoolAdd wake create_error now tp (Some job)) (fun r =>
    r = (EOUTOFMEM, None, tp)).
Proof.
  intros Hq Hfull. unfold ThreadPoolAdd. rewrite (queued_zlen _ _ _ _ Hq).
  rewrite (proj2 (Z.leb_le _ _) Hfull). by apply runs_ret.
Qed.

(** [ThreadPoolRemove] removes the first job with the given identifier,
    looking at the high, medium and low queues and the persistent slot in this
    order, hands it to the caller and keeps all others in their order; without
    such a job it changes nothing and returns [INVALID_JOB_ID]. *)
Theorem ThreadPoolRemove_correct md e tp hl ml ll leak jobId :
  tp_rep e tp (tp_workers tp) hl ml ll leak ->
  runs md (ThreadPoolRemove tp jobId)
    (removed e tp (tp_workers tp) hl ml ll leak jobId).
Proof. apply remove_runs. Qed.

(** C35: [ThreadPoolShutdown] calls the free function of every job that was
    still queued, high, medium, low, persistent, exactly once and in this
    order, and returns when the other threads let the last worker end, with no
    thread left and no undefined behaviour. *)
Theorem ThreadPoolShutdown_correct wake e tp hl ml ll leak :
  (forall c e tp, tp_inv e tp -> tp_inv e (wake c tp)) ->
  (forall e tp, tp_inv e tp -> tp_totalThreads (wake ThreadsLeft tp) <= 0) ->
  tp_rep e tp (tp_workers tp) hl ml ll leak ->
  runs Total (ThreadPoolShutdown wake tp) (fun '(rc, calls, tp') =>
    rc = 0 /\ calls = free_calls (removable tp hl ml ll) /\
    tp_inv e tp' /\ tp_totalThreads tp' <= 0).
Proof.
  intros Hw He Hr. apply (shutdown_runs wake Hw Total e tp hl ml ll leak); [|done].
  right. intros e' tp' Hi. simpl. apply Z.ltb_ge. by eapply He.
Qed.

(** The time [SetRelTimeout] computes is [relMillis] milliseconds in the
    future (down to the millisecond), but its nanoseconds are in the range
    [pthread_cond_timedwait] accepts only when no carry into the seconds is
    needed. *)
Theorem SetRelTimeout_correct now relMillis :
  0 <= tv_usec now < 1000000 -> 0 <= relMillis ->
  let t := SetRelTimeout now relMillis in
  ts_sec t * 1000 + ts_nsec t / 1000000
    = tv_sec now * 1000 + tv_usec now / 1000 + relMillis /\
  (ts_nsec t < 1000000000 <-> tv_usec now / 1000 + relMillis mod 1000 < 1000).
Proof.
  intros Hu Hr. unfold SetRelTimeout. simpl.
  rewrite !Z.quot_div_nonneg, Z.rem_mod_nonneg by lia. rewrite Z.div_mul by lia.
  pose proof (Z.div_mod relMillis 1000). lia.
Qed.

(** A pool initialised with sensible attributes and fresh lists satisfies
    the invariant, whatever the new threads do meanwhile. *)
Theorem ThreadPoolInit_establishes wake sync_rc q1 q2 q3 es tp attr :
  create_error <> 0 -> (forall c e tp, tp_inv e tp -> tp_inv e (wake c tp)) ->
  q_rep q1 [] -> q_rep q2 [] -> q_rep q3 [] -> tp_workers tp = [] -> tp_jobs tp = ∅ ->
  within (default default_attr attr) -> (limit = INFINITE_THREADS \/ 0 <= limit) ->
  runs Safe (ThreadPoolInit wake create_error sched_get_priority_min sched_setscheduler
               sync_rc q1 q2 q3 es tp attr) (fun '(rc, calls, tp') =>
    rc = 0 -> tp_inv [] tp').
Proof.
  intros Hc Hw H1 H2 H3 Hws Hj Hmax H0. unfold ThreadPoolInit.
  destruct (Z.eqb_spec sync_rc 0); simpl; [|by apply runs_ret].
  destruct (negb _); [by apply runs_ret|]. mstep.
  eapply runs_mono; [apply (create_workers_inv wake create_error Hw Hc _ _ [])|].
  { exists [], [], [], []. simpl. rewrite Hws. split; try done; simpl. rewrite Hj. apply objs_ok_empty. }
  intros [rc tp'] Hi. destruct (negb _); [|by apply runs_ret]. mstep.
  eapply runs_mono; [by apply (shutdown_inv wake [])|].
  intros [[rc' calls] tp2] Hi2. by apply runs_ret.
Qed.
End Properties.
End ThreadPool.

(** ** A concrete pool

    Default attributes, one waiting thread, a medium and a low job. *)

#[export] Instance timeval_eq_dec : EqDecision timeval.
Proof. solve_decision. Defined.
#[export] Instance job_eq_dec : EqDecision ThreadPoolJob.
Proof. solve_decision. Defined.

Definition null_item : item := (1%positive, MkJob 0 0 0 (MkTimeval 0 0) 0 0).

Abbreviation job_list := (@qstate item).
#[export] Instance job_queue : Queue job_list item :=
  list_queue null_item CmpThreadPoolJob.
#[export] Instance job_queue_laws : QueueLaws job_list item CmpThreadPoolJob :=
  list_queue_laws null_item CmpThreadPoolJob.

Definition ex_now : timeval := MkTimeval 1000 0.
Definition ex_med : item := (1%positive, MkJob 7 70 8 ex_now MED_PRIORITY 0).
Definition ex_low : item := (2%positive, MkJob 7 71 8 ex_now LOW_PRIORITY 1).
Definition ex_jobs (js : list item) : job_list := q_of null_item CmpThreadPoolJob js.
Definition ex_stats : ThreadPoolStats :=
  MkStats 0 0 0%Q 0 0 0%Q 0 0 0%Q 0 0 0 1 0 1 1 0 0 0.

Definition ex_pool : ThreadPool job_list :=
  MkTP 2 0 1 0 0 0
    (<[1%positive := Obj ex_med.2]> (<[2%positive := Obj ex_low.2]> ∅))
    (FreeListInit 48 JOBFREELISTSIZE).2
    (ex_jobs [ex_low]) (ex_jobs [ex_med]) (ex_jobs []) None
    default_attr ex_stats [WWait (-1) 1000 (MkTimespec 1010 0)].

Definition ex_limit : Z := DEFAULT_MAX_THREADS.

Lemma ex_pool_rep : exists hl ml ll,
  tp_rep ex_limit [] ex_pool (tp_workers ex_pool) hl ml ll [] /\
  all_jobs hl ml ll = [ex_med; ex_low].
Proof.
  destruct (q_of_rep null_item CmpThreadPoolJob []) as (hl & Hh & Eh).
  destruct (q_of_rep null_item CmpThreadPoolJob [ex_med]) as (ml & Hm & Em).
  destruct (q_of_rep null_item CmpThreadPoolJob [ex_low]) as (ll & Hl & El).
  exists hl, ml, ll. unfold all_jobs. rewrite Eh, Em, El. split; [|done].
  split; try done.
  - unfold all_jobs. rewrite Eh, Em, El. split; [|split].
    + exists []. split; [apply FreeListInit_rep|]. apply accounted_dom. apply (bool_decide_unpack _). by vm_compute.
    + apply (bool_decide_unpack _). by vm_compute.
    + repeat constructor.
  - by repeat constructor.
  - by right.
  - by right.
Qed.

Lemma ex_pool_inv : tp_inv ex_limit [] ex_pool.
Proof. destruct ex_pool_rep as (hl & ml & ll & Hr & _). by exists hl, ml, ll, []. Qed.

(** Threads that end when the pool is shut down. *)
Definition all_end (c : wait_cond) (tp : ThreadPool job_list) : ThreadPool job_list :=
  match c with
  | ThreadsLeft =>
      set_tp_totalThreads 0 (set_tp_busyThreads 0 (set_tp_persistentThreads 0
        (set_tp_pendingWorkerThreadStart 0 (set_tp_workers [] tp))))
  | _ => tp
  end.

Lemma all_end_inv c e tp : tp_inv ex_limit e tp -> tp_inv ex_limit e (all_end c tp).
Proof.
  intros Hi. destruct c; [done..|].
  destruct Hi as (hl & ml & ll & lk & Hr).
  destruct (rep_bounds _ _ _ _ _ _ _ _ Hr) as (_ & _ & Ht).
  pose proof (w_pending_nonneg (tp_workers tp)).
  destruct Hr as [??? Hj Ho Hto Hp Hpl Hb Hpe Hm].
  exists hl, ml, ll, (lk ++ (tp_workers tp ≫= w_items)). split; try done; simpl.
  - refine (proj2 (objs_ok_perm _ _ _ _ _) Hj). simpl. solve_perm.
  - lia.
Qed.

(** One thread, and the attributes now allow none. *)
Definition ex_low_attr : ThreadPoolAttr := set_at_minThreads 0 (set_at_maxThreads 0 default_attr).


Lemma worker_step_correct_witness :
  runs Total (worker_step 0 0 ex_now ex_now ex_pool) (tp_inv ex_limit []).
Proof. apply worker_step_correct; [exact ex_pool_inv|by eexists]. Defined.

Lemma pool_operations_safe_witness :
  runs Safe (ThreadPoolAdd all_end 11 ex_now ex_pool (Some ex_med.2))
    (fun '(_, _, tp') => tp_inv ex_limit [] tp').
Proof.
  refine (proj1 (pool_operations_safe ex_limit 11 (fun _ => 0) (fun _ _ => (0, 0)) all_end []
    ex_now (Some ex_med.2) 0 None ex_pool _ _ _ _)).
  - done.
  - exact all_end_inv.
  - exact ex_pool_inv.
  - by right.
Defined.


Lemma BumpPriority_correct_witness :
  runs Lucky (BumpPriority (MkTimeval 1001 0) ex_pool) (fun tp' => exists hl ml ll,
    all_jobs hl ml ll = [ex_med; ex_low] /\ ~ med_waits (MkTimeval 1001 0) ex_pool ml).
Proof.
  destruct ex_pool_rep as (hl & ml & ll & [Hh Hm Hl _ _ _ _ _ _ _ _ _] & E).
  eapply runs_mono; [apply (BumpPriority_correct Lucky (MkTimeval 1001 0) ex_pool hl ml ll);
    by split|].
  intros tp' (hl' & ml' & ll' & lost & _ & _ & Ho & Hmw & _). exists hl', ml', ll'.
  split; [rewrite Ho; [exact E|reflexivity]|exact Hmw].
Defined.


Lemma ThreadPoolAdd_full_witness :
  let tp := set_tp_attr (set_at_maxJobsTotal 2 default_attr) ex_pool in
  runs Total (ThreadPoolAdd all_end 11 ex_now tp (Some ex_med.2)) (fun r =>
    r = (EOUTOFMEM, None, tp)).
Proof.
  destruct ex_pool_rep as (hl & ml & ll & [Hh Hm Hl _ _ _ _ _ _ _ _ _] & E). intros tp.
  refine (ThreadPoolAdd_full 11 Total all_end ex_now ex_med.2 tp hl ml ll _ _).
  - by split.
  - by rewrite E.
Defined.

Lemma ThreadPoolRemove_correct_witness :
  runs Total (ThreadPoolRemove ex_pool 1) (fun '(rc, out, tp') =>
    rc = 0 /\ out = Some ex_low.2).
Proof.
  destruct ex_pool_rep as (hl & ml & ll & Hr & E).
  eapply runs_mono; [apply (ThreadPoolRemove_correct ex_limit Total [] ex_pool hl ml ll [] 1 Hr)|].
  intros [[rc out] tp']. unfold removed, removable. rewrite E. simpl.
  intros (Hrc & Hout & _). by split.
Defined.

Lemma ThreadPoolShutdown_correct_witness :
  runs Total (ThreadPoolShutdown all_end ex_pool) (fun '(rc, calls, tp') =>
    rc = 0 /\ calls = [(8, 70); (8, 71)] /\ tp_totalThreads tp' <= 0).
Proof.
  destruct ex_pool_rep as (hl & ml & ll & Hr & E).
  eapply runs_mono; [apply (ThreadPoolShutdown_correct ex_limit all_end [] ex_pool hl ml ll [])|].
  - exact all_end_inv.
  - by intros e tp _.
  - exact Hr.
  - intros [[rc calls] tp'] (Hrc & Hc & _ & Ht). split; [exact Hrc|]. split; [|exact Ht].
    rewrite Hc. unfold removable. by rewrite E.
Defined.

Lemma SetRelTimeout_correct_witness :
  let t := SetRelTimeout (MkTimeval 5 999999) 999 in
  ts_sec t * 1000 + ts_nsec t / 1000000 = 6998 /\ ~ ts_nsec t < 1000000000.
Proof.
  destruct (SetRelTimeout_correct (MkTimeval 5 999999) 999) as [H1 H2];
    [by split|done|]. split; [exact H1|]. by rewrite H2.
Defined.

Definition raw_pool : ThreadPool job_list :=
  MkTP 0 0 0 0 0 0 ∅ (FreeListInit 48 JOBFREELISTSIZE).2 (ex_jobs []) (ex_jobs []) (ex_jobs [])
    None default_attr ex_stats [].

Lemma ThreadPoolInit_establishes_witness :
  runs Safe (ThreadPoolInit all_end 11 (fun _ => 0) (fun _ _ => (0, 0)) 0 (ex_jobs [])
               (ex_jobs []) (ex_jobs []) 48 raw_pool None)
    (fun '(rc, calls, tp') => rc = 0 -> tp_inv ex_limit [] tp').
Proof.
  pose proof (q_init_rep null_item CmpThreadPoolJob) as Hq.
  apply (ThreadPoolInit_establishes ex_limit); try done; [exact all_end_inv|by right..].
Defined.
