(* ===== verification/TimerThread.v ===== *)
(** The timer: [upnp/src/threadutil/TimerThread.c].

    Events are allocated through the timer's free list; the event queue holds
    their addresses, ordered by the time of the event.  The thread pool the
    events are handed to is any instance of [JobPool]; the instance at the end
    is the pool of [ThreadPool]. *)

From stdpp Require Import sorting.
From S2P Require Import Prelude FreeList LinkedList Queue ThreadPool.
#[local] Open Scope Z_scope.
#[local] Set Warnings "-clear-no-such-hyp".

(** ** The pool, as the timer uses it *)

Class JobPool (P : Type) := {
  pool_add : P -> ThreadPoolJob -> M (Z * P);
  pool_add_persistent : P -> ThreadPoolJob -> M (Z * P);
  pool_ok : P -> Prop
}.

(** Adding a job keeps the pool usable and has no undefined behaviour; [md]
    says whether it is also known to return. *)
Class JobPoolLaws (P : Type) `{JobPool P} (md : mode) : Prop := {
  pool_add_law p j : pool_ok p -> runs md (pool_add p j) (fun '(_, p') => pool_ok p');
  pool_add_persistent_law p j :
    pool_ok p -> runs md (pool_add_persistent p j) (fun '(_, p') => pool_ok p')
}.

(** ** Data *)

Inductive TimeoutType := ABS_SEC | REL_SEC.

Definition SHORT_TERM : Z := 0.
Definition PERSISTENT : Z := 1.
Definition INVALID_EVENT_ID : Z := Z.land (-10) (Z.shiftl 1 29).

Record TimerEvent := MkEvent {
  te_job : ThreadPoolJob;
  te_eventTime : Z;
  te_persistent : Z;
  te_id : Z
}.

Record TimerThread (LQ P : Type) := MkTimer {
  tm_lastEventId : Z;
  tm_eventQ : LQ;
  tm_shutdown : Z;
  tm_events : store TimerEvent;
  tm_freeEvents : FreeList;
  tm_tp : P
}.
Arguments MkTimer {LQ P}.
Arguments tm_lastEventId {LQ P} _.
Arguments tm_eventQ {LQ P} _.
Arguments tm_shutdown {LQ P} _.
Arguments tm_events {LQ P} _.
Arguments tm_freeEvents {LQ P} _.
Arguments tm_tp {LQ P} _.

(** What one pass of the worker ends in: it ends, it waits (until a time or
    for good), or it has handed the first event to the pool, with the pool's
    status and the calls to the job's free function this caused. *)
Inductive pass :=
| Ended
| WaitUntil (time : Z)
| WaitForEvent
| Dispatched (job : ThreadPoolJob) (rc : Z) (calls : list (Z * Z)).

(** Queued items are pointers to events and are never compared. *)
Definition same_ptr (a b : ptr) : bool := bool_decide (a = b).

Section TimerThread.
Context {LQ : Type} {QO : Queue LQ ptr} {QL : QueueLaws LQ ptr same_ptr}.
Context {P : Type} {PO : JobPool P}.

Abbreviation timer := (TimerThread LQ P).
Implicit Types (tm : timer).

Definition set_tm_eventQ q tm : timer :=
  MkTimer (tm_lastEventId tm) q (tm_shutdown tm) (tm_events tm) (tm_freeEvents tm) (tm_tp tm).
Definition set_tm_mem st fl tm : timer :=
  MkTimer (tm_lastEventId tm) (tm_eventQ tm) (tm_shutdown tm) st fl (tm_tp tm).
Definition set_tm_shutdown v tm : timer :=
  MkTimer (tm_lastEventId tm) (tm_eventQ tm) v (tm_events tm) (tm_freeEvents tm) (tm_tp tm).
Definition set_tm_lastEventId v tm : timer :=
  MkTimer v (tm_eventQ tm) (tm_shutdown tm) (tm_events tm) (tm_freeEvents tm) (tm_tp tm).
Definition set_tm_tp p tm : timer :=
  MkTimer (tm_lastEventId tm) (tm_eventQ tm) (tm_shutdown tm) (tm_events tm)
    (tm_freeEvents tm) p.

(** ** Operations *)

(** Reading [( *event )]. *)
Definition event tm (e : ptr) : option TimerEvent :=
  match e with
  | Some l => match tm_events tm !! l with Some (Obj v) => Some v | _ => None end
  | None => None
  end.

Definition FreeTimerEvent tm (e : ptr) : M timer :=
  '(_, st, fl) ← liftO (FreeListFree (tm_events tm) (tm_freeEvents tm) e);
  mret (set_tm_mem st fl tm).

(** [now] is what [time] returns. *)
Definition CalculateEventTime (now timeout : Z) (type : TimeoutType) : Z * Z :=
  match type with
  | ABS_SEC => (0, timeout)
  | REL_SEC => (0, wrapS 64 (timeout + now))
  end.

Definition CreateTimerEvent tm (job : ThreadPoolJob) (persistent eventTime id : Z)
    : M (ptr * timer) :=
  '(temp, st, fl) ← FreeListAlloc (tm_events tm) (tm_freeEvents tm);
  match temp with
  | None => mret (None, set_tm_mem st fl tm)
  | Some l =>
      mret (Some l, set_tm_mem (<[l := Obj (MkEvent job eventTime persistent id)]> st) fl tm)
  end.

(** The call [job.free_func(job.arg)] when the worker drops a job the pool
    refused. *)
Definition refused_call (j : ThreadPoolJob) : list (Z * Z) :=
  if negb (j_arg j =? 0) && negb (j_free_func j =? 0)
  then [(j_free_func j, j_arg j)] else [].

(** One pass of the loop of [TimerThreadWorker]; [now] is what [time]
    returns. *)
Definition worker_pass (now : Z) tm : M (timer * pass) :=
  if negb (tm_shutdown tm =? 0) then mret (set_tm_shutdown 0 tm, Ended)
  else if 0 <? q_size (tm_eventQ tm) then
    head ← liftO (q_head (tm_eventQ tm));
    match head with
    | None => mret (tm, Ended)
    | Some _ =>
        nextEvent ← liftO (q_item (tm_eventQ tm) head);
        ev ← liftO (event tm nextEvent);
        if te_eventTime ev <=? now then
          '(rc, p) ← (if negb (te_persistent ev =? 0)
                      then pool_add_persistent (tm_tp tm) (te_job ev)
                      else pool_add (tm_tp tm) (te_job ev));
          let calls := if negb (rc =? 0) then refused_call (te_job ev) else [] in
          '(_, q) ← q_del (tm_eventQ tm) head;
          tm ← FreeTimerEvent (set_tm_eventQ q (set_tm_tp p tm)) nextEvent;
          mret (tm, Dispatched (te_job ev) rc calls)
        else mret (tm, WaitUntil (te_eventTime ev))
    end
  else mret (tm, WaitForEvent).

(** The passes up to the next wait, with the events handed to the pool;
    [times] are what [time] returns in one pass after the other. *)
Fixpoint worker_run (times : list Z) tm (out : list (ThreadPoolJob * Z))
    : M (timer * list (ThreadPoolJob * Z) * pass) :=
  match times with
  | [] => running
  | now :: times' =>
      '(tm, p) ← worker_pass now tm;
      match p with
      | Dispatched j rc _ => worker_run times' tm (out ++ [(j, rc)])
      | _ => mret (tm, out, p)
      end
  end.

(** The loop that looks for the place of the new event: the status and whether
    a place was found. *)
Fixpoint schedule_loop (fuel : nat) tm (timeout : Z) (newEvent tempNode : ptr)
    : M (option Z * timer) :=
  match fuel with
  | O => running
  | S fuel' =>
      match tempNode with
      | None => mret (None, tm)
      | Some _ =>
          item ← liftO (q_item (tm_eventQ tm) tempNode);
          temp ← liftO (event tm item);
          if timeout <=? te_eventTime temp then
            '(n, q) ← q_add_before (tm_eventQ tm) newEvent tempNode;
            mret (Some (add_rc n), set_tm_eventQ q tm)
          else
            next ← liftO (q_next (tm_eventQ tm) tempNode);
            schedule_loop fuel' tm timeout newEvent next
      end
  end.

(** The identifier stored through [id] comes second.  [lastEventId++] wraps
    around after 2^31 events. *)
Definition TimerThreadSchedule (now : Z) tm (timeout : Z) (type : TimeoutType)
    (job : option ThreadPoolJob) (duration : Z) : M (Z * Z * timer) :=
  _ ← assertM (match job with Some _ => true | None => false end);
  match job with
  | None => mret (EINVAL, 0, tm)
  | Some job =>
      let '(_, timeout) := CalculateEventTime now timeout type in
      '(newEvent, tm) ← CreateTimerEvent tm job duration timeout (tm_lastEventId tm);
      match newEvent with
      | None => mret (EOUTOFMEM, INVALID_EVENT_ID, tm)
      | Some _ =>
          tempNode ← liftO (q_head (tm_eventQ tm));
          '(r, tm) ← schedule_loop (S (Z.to_nat (q_size (tm_eventQ tm)))) tm timeout
                       newEvent tempNode;
          '(rc, tm) ←
            match r with
            | Some rc => mret (rc, tm)
            | None =>
                '(n, q) ← q_add_tail (tm_eventQ tm) newEvent;
                mret (add_rc n, set_tm_eventQ q tm)
            end;
          tm ← (if rc =? 0 then mret tm else FreeTimerEvent tm newEvent);
          mret (rc, tm_lastEventId tm,
                set_tm_lastEventId (to_int (tm_lastEventId tm + 1)) tm)
      end
  end.

Fixpoint remove_loop (fuel : nat) tm (id : Z) (tempNode : ptr)
    : M (Z * option ThreadPoolJob * timer) :=
  match fuel with
  | O => running
  | S fuel' =>
      match tempNode with
      | None => mret (INVALID_EVENT_ID, None, tm)
      | Some _ =>
          item ← liftO (q_item (tm_eventQ tm) tempNode);
          temp ← liftO (event tm item);
          if te_id temp =? id then
            '(_, q) ← q_del (tm_eventQ tm) tempNode;
            tm ← FreeTimerEvent (set_tm_eventQ q tm) item;
            mret (0, Some (te_job temp), tm)
          else
            next ← liftO (q_next (tm_eventQ tm) tempNode);
            remove_loop fuel' tm id next
      end
  end.

(** The job stored through [out] comes second. *)
Definition TimerThreadRemove tm (id : Z) : M (Z * option ThreadPoolJob * timer) :=
  tempNode ← liftO (q_head (tm_eventQ tm));
  remove_loop (S (Z.to_nat (q_size (tm_eventQ tm)))) tm id tempNode.

Fixpoint shutdown_loop (fuel : nat) tm (calls : list (Z * Z)) (tempNode : ptr)
    : M (list (Z * Z) * timer) :=
  match fuel with
  | O => running
  | S fuel' =>
      match tempNode with
      | None => mret (calls, tm)
      | Some _ =>
          item ← liftO (q_item (tm_eventQ tm) tempNode);
          tempNode2 ← liftO (q_next (tm_eventQ tm) tempNode);
          '(_, q) ← q_del (tm_eventQ tm) tempNode;
          temp ← liftO (event tm item);
          tm ← FreeTimerEvent (set_tm_eventQ q tm) item;
          shutdown_loop fuel' tm (calls ++ free_call (te_job temp)) tempNode2
      end
  end.

(** [wake tm] is the state in which the worker leaves the timer when it ends
    the wait.  Returns the status and the calls to free functions. *)
Definition TimerThreadShutdown (wake : timer -> timer) tm
    : M (Z * list (Z * Z) * timer) :=
  let tm := set_tm_shutdown 1 tm in
  tempNode ← liftO (q_head (tm_eventQ tm));
  '(calls, tm) ← shutdown_loop (S (Z.to_nat (q_size (tm_eventQ tm)))) tm [] tempNode;
  q ← q_destroy (tm_eventQ tm);
  '(_, st, fl) ← liftO (FreeListDestroy (tm_events tm) (tm_freeEvents tm));
  let tm := wake (set_tm_mem st fl (set_tm_eventQ q tm)) in
  if tm_shutdown tm =? 0 then mret (0, calls, tm) else running.

(** [sync_rc] sums the results of the mutex and condition variable
    initialisations, [q] is a freshly initialised list, [worker_func] and
    [self] are the addresses of [TimerThreadWorker] and of the timer. *)
Definition TimerThreadInit (sync_rc : Z) (q : LQ) (es worker_func self : Z) (p : P)
    (job : ThreadPoolJob) (mem : store TimerEvent) : M (Z * timer) :=
  _ ← assertM (sync_rc =? 0);
  let '(_, fl) := FreeListInit es 100 in
  let tm := MkTimer 0 q 0 mem fl p in
  let '(_, w) := TPJobInit (Some job) worker_func self in
  let '(_, w) := TPJobSetPriority w HIGH_PRIORITY in
  '(rc, p) ← pool_add_persistent p (default job w);
  let tm := set_tm_tp p tm in
  if negb (rc =? 0) then
    '(_, st, fl) ← liftO (FreeListDestroy (tm_events tm) (tm_freeEvents tm));
    q ← q_destroy (tm_eventQ tm);
    mret (rc, set_tm_mem st fl (set_tm_eventQ q tm))
  else mret (rc, tm).

(** ** Invariant

    [evs] are the queue nodes with the addresses and values of their events,
    in the order of the queue; [own] are events that others hold.  Each block
    that was allocated for an event is one of these or on the free list. *)

Abbreviation entry := (loc * (loc * TimerEvent))%type.

Definition q_entry (n : entry) : loc * ptr := (n.1, Some n.2.1).
Definition etime (n : entry) : Z := te_eventTime n.2.2.
Definition eid (n : entry) : Z := te_id n.2.2.

Definition earlier (a b : entry) : Prop := etime a <= etime b.

Record tm_rep (own : list (loc * TimerEvent)) tm (evs : list entry) : Prop := {
  tr_queue : q_rep (tm_eventQ tm) (q_entry <$> evs);
  tr_events : objs_ok (tm_events tm) (tm_freeEvents tm) (own ++ evs.*2);
  tr_sorted : StronglySorted earlier evs
}.

(** Identifiers are distinct, and smaller than the next one. *)
Definition ids_ok tm (evs : list entry) : Prop :=
  NoDup (eid <$> evs) /\ Forall (fun n => eid n < tm_lastEventId tm) evs /\
  0 <= tm_lastEventId tm.

(** ** Lemmas *)

Lemma q_at q l1 n l2 :
  q_rep q (q_entry <$> l1 ++ n :: l2) ->
  q_item q (Some n.1) = Some (Some n.2.1) /\ q_next q (Some n.1) = Some (fst <$> head l2).
Proof.
  rewrite fmap_app, fmap_cons. intros Hq. split; [by eapply q_item_law|].
  rewrite (q_next_law _ _ _ _ _ Hq). by destruct l2.
Qed.

Lemma q_del_at md q l1 n l2 :
  q_rep q (q_entry <$> l1 ++ n :: l2) ->
  runs md (q_del q (Some n.1)) (fun '(y, q') =>
    y = Some n.2.1 /\ q_rep q' (q_entry <$> l1 ++ l2)).
Proof. rewrite !fmap_app, fmap_cons. apply q_del_law. Qed.

Lemma q_head_at q l : q_rep q (q_entry <$> l) -> q_head q = Some (fst <$> head l).
Proof. intros Hq. rewrite (q_head_law _ _ Hq). by destruct l. Qed.

Lemma q_size_at q l : q_rep q (q_entry <$> l) -> q_size q = zlen l.
Proof. intros Hq. rewrite (q_size_law _ _ Hq). unfold zlen. by rewrite length_fmap. Qed.

Lemma event_live tm own e :
  objs_ok (tm_events tm) (tm_freeEvents tm) own -> e ∈ own ->
  event tm (Some e.1) = Some e.2.
Proof. intros Ho He. unfold event. by rewrite (objs_ok_live _ _ _ _ Ho He). Qed.

Lemma free_event_runs md tm own e :
  objs_ok (tm_events tm) (tm_freeEvents tm) (e :: own) ->
  runs md (FreeTimerEvent tm (Some e.1)) (fun tm' =>
    exists st fl, tm' = set_tm_mem st fl tm /\ objs_ok st fl own).
Proof.
  destruct e as [l e]. intros Ho. destruct (objs_free _ _ _ _ _ Ho) as (st & fl & E & Ho').
  unfold FreeTimerEvent. mstep. eapply runs_liftO; [done|]. apply runs_ret. eauto.
Qed.

Lemma create_event_runs md tm job persistent time id own :
  objs_ok (tm_events tm) (tm_freeEvents tm) own ->
  runs md (CreateTimerEvent tm job persistent time id) (fun '(p, tm') =>
    match p with
    | Some l => exists st fl, tm' = set_tm_mem st fl tm /\
        objs_ok st fl ((l, MkEvent job time persistent id) :: own)
    | None => md <> Lucky /\ tm' = tm
    end).
Proof.
  intros Ho. unfold CreateTimerEvent. mstep.
  eapply runs_mono; [by apply (objs_alloc md _ _ own (MkEvent job time persistent id))|].
  intros [[[l|] st] fl].
  - intros Ho'. apply runs_ret. eauto.
  - intros (? & -> & ->). apply runs_ret. split; [done|]. by destruct tm.
Qed.

(** ** Scheduling *)

(** Where an event of time [t] goes in [evs]: behind the earlier ones, in
    front of those of the same time. *)
Definition splits_at (t : Z) (evs l1 l2 : list entry) : Prop :=
  evs = l1 ++ l2 /\ Forall (fun n => etime n < t) l1 /\ Forall (fun n => t <= etime n) l2.

(** The queue after the event at [a] was added to it. *)
Definition inserted md (q : LQ) (a : loc) (rc : Z) (l1 l2 : list entry) : Prop :=
  (rc = 0 /\ exists b, q_rep q ((q_entry <$> l1) ++ (b, Some a) :: (q_entry <$> l2))) \/
  (md <> Lucky /\ rc = EOUTOFMEM /\ q_rep q (q_entry <$> l1 ++ l2)).

Lemma sorted_later n l : StronglySorted earlier (n :: l) -> Forall (earlier n) l.
Proof. by inversion 1. Qed.

Lemma schedule_loop_runs md own fuel tm t a l1 l2 :
  tm_rep own tm (l1 ++ l2) -> Forall (fun n => etime n < t) l1 ->
  (length l2 < fuel)%nat ->
  runs md (schedule_loop fuel tm t (Some a) (fst <$> head l2)) (fun '(r, tm') =>
    match r with
    | None => tm' = tm /\ Forall (fun n => etime n < t) (l1 ++ l2)
    | Some rc => exists q k1 k2, tm' = set_tm_eventQ q tm /\
        splits_at t (l1 ++ l2) k1 k2 /\ inserted md q a rc k1 k2
    end).
Proof.
  revert l1 l2. induction fuel as [|fuel IH]; intros l1 l2 Hr Hl1 Hf; [lia|].
  destruct l2 as [|n l2]; simpl.
  { apply runs_ret. by rewrite app_nil_r. }
  destruct Hr as [Hq Ho Hs]. destruct (q_at _ _ _ _ Hq) as [Eitem Enext].
  mstep. eapply runs_liftO; [done|]. mstep.
  eapply runs_liftO; [apply (event_live _ _ n.2 Ho); set_solver|].
  destruct (Z.leb_spec t (te_eventTime n.2.2)).
  - mstep. rewrite fmap_app, fmap_cons in Hq.
    eapply runs_mono; [by eapply q_add_before_law|].
    assert (splits_at t (l1 ++ n :: l2) l1 (n :: l2)) as Hsp.
    { split; [done|]. split; [done|]. apply StronglySorted_app_1_r in Hs.
      constructor; [done|]. eapply Forall_impl; [by apply sorted_later|].
      unfold earlier, etime. intros; simpl in *; lia. }
    intros [[b|] q]; [intros Hq'|intros [? Hq']]; apply runs_ret;
      exists q, l1, (n :: l2); (split; [done|]; split; [done|]); [left; eauto|right].
    by rewrite fmap_app, fmap_cons.
  - mstep. eapply runs_liftO; [done|]. simpl in Hf.
    rewrite (cons_middle n l1 l2), app_assoc. apply IH; [|apply Forall_app; by repeat constructor|lia].
    rewrite <- app_assoc. by split.
Qed.

(** A queue with the event [x] at its place in [evs]. *)
Lemma timer_insert_rep own tm evs t l1 l2 b a ev q st fl :
  StronglySorted earlier evs -> splits_at t evs l1 l2 -> te_eventTime ev = t ->
  objs_ok st fl ((a, ev) :: own ++ evs.*2) ->
  q_rep q ((q_entry <$> l1) ++ (b, Some a) :: (q_entry <$> l2)) ->
  tm_rep own (set_tm_eventQ q (set_tm_mem st fl tm)) (l1 ++ (b, (a, ev)) :: l2).
Proof.
  intros Hs (-> & H1 & H2) Ht Ho Hq. split; simpl.
  - by rewrite fmap_app, fmap_cons.
  - refine (proj2 (objs_ok_perm _ _ _ _ _) Ho). rewrite !fmap_app, fmap_cons.
    simpl. solve_perm.
  - rewrite Forall_forall in H1, H2. apply StronglySorted_app in Hs as (H12 & Hs1 & Hs2).
    apply StronglySorted_app. split; [|split; [done|]].
    + intros x y Hx [->|Hy]%elem_of_cons; [|auto].
      unfold earlier, etime at 2. simpl. specialize (H1 x Hx). lia.
    + apply StronglySorted_cons. split; [|done]. apply Forall_forall. intros y Hy.
      unfold earlier, etime at 1. simpl. specialize (H2 y Hy). simpl in *. lia.
Qed.

Lemma tm_rep_id own tm evs v :
  tm_rep own tm evs -> tm_rep own (set_tm_lastEventId v tm) evs.
Proof. by intros []. Qed.

(** The outcome of scheduling the event [ev]. *)
Definition scheduled md own tm evs (ev : TimerEvent) (r : Z * Z * timer) : Prop :=
  let '(rc, id, tm') := r in
  (rc = 0 /\ id = tm_lastEventId tm /\
   tm_lastEventId tm' = to_int (tm_lastEventId tm + 1) /\
   exists l1 l2 a b, splits_at (te_eventTime ev) evs l1 l2 /\
     tm_rep own tm' (l1 ++ (a, (b, ev)) :: l2)) \/
  (md <> Lucky /\ rc = EOUTOFMEM /\ tm_rep own tm' evs).

Lemma schedule_runs md own now tm evs timeout type job duration :
  tm_rep own tm evs ->
  runs md (TimerThreadSchedule now tm timeout type (Some job) duration)
    (scheduled md own tm evs
      (MkEvent job (CalculateEventTime now timeout type).2 duration (tm_lastEventId tm))).
Proof.
  intros [Hq Ho Hs]. unfold TimerThreadSchedule.
  mstep. apply runs_assert_true; [done|].
  destruct (CalculateEventTime now timeout type) as [z t]. simpl.
  set (ev := MkEvent _ _ _ _). mstep. eapply runs_mono; [by apply create_event_runs|].
  intros [[a|] tm1]; [|intros [? ->]; apply runs_ret; by right; split_and!].
  intros (st & fl & -> & Ho1). fold ev in Ho1. mstep.
  eapply runs_liftO; [by eapply q_head_at|]. cbv beta.
  mstep. eapply runs_mono.
  { apply (schedule_loop_runs md ((a, ev) :: own) (S (Z.to_nat (q_size (tm_eventQ tm))))
      (set_tm_mem st fl tm) t a [] evs); [by split|done|].
    rewrite (q_size_at _ _ Hq). unfold zlen. lia. }
  intros [r tm2] Hr. mstep.
  apply (runs_mono _ _ (fun '(rc, tm3) => exists q k1 k2,
    tm3 = set_tm_eventQ q (set_tm_mem st fl tm) /\
    splits_at t evs k1 k2 /\ inserted md q a rc k1 k2)).
  { destruct r as [rc|].
    - destruct Hr as (q & k1 & k2 & -> & Hsp & Hins). apply runs_ret. eauto 10.
    - destruct Hr as [-> Hall]. mstep. simpl.
      eapply runs_mono; [by apply q_add_tail_law|].
      assert (splits_at t evs evs []) as Hsp by (split; [by rewrite app_nil_r|by split]).
      intros [[b|] q]; [intros Hq'|intros [? Hq']]; apply runs_ret; exists q, evs, [].
      + split; [done|]. split; [done|]. left. eauto.
      + split; [done|]. split; [done|]. right. by rewrite app_nil_r. }
  intros [rc tm3] (q & k1 & k2 & -> & Hsp & Hins). mstep.
  destruct Hins as [[-> [b Hq']]|(Hmd & -> & Hq')]; simpl.
  - mstep. apply runs_ret. left. split; [done|]. split; [done|]. split; [done|].
    exists k1, k2, b, a. split; [done|]. by apply tm_rep_id, (timer_insert_rep own tm evs t).
  - eapply runs_mono; [by apply (free_event_runs md _ (own ++ evs.*2) (a, ev))|].
    intros tm4 (st' & fl' & -> & Ho4). apply runs_ret. right. split; [done|].
    split; [done|]. apply tm_rep_id. destruct Hsp as (-> & _). by split.
Qed.

Lemma scheduled_ids md own tm evs ev tm' l1 l2 a b :
  ids_ok tm evs -> tm_lastEventId tm < INT_MAX -> te_id ev = tm_lastEventId tm ->
  tm_lastEventId tm' = to_int (tm_lastEventId tm + 1) ->
  splits_at md evs l1 l2 -> tm_rep own tm' (l1 ++ (a, (b, ev)) :: l2) ->
  ids_ok tm' (l1 ++ (a, (b, ev)) :: l2).
Proof.
  intros (Hnd & Hlt & H0) Hmax Hid Hl (-> & _) _. rewrite to_int_small in Hl by lia.
  unfold ids_ok. rewrite Hl. rewrite !fmap_app in *. rewrite fmap_cons.
  rewrite !Forall_app, Forall_cons in *. destruct Hlt as [Hl1 Hl2].
  rewrite !Forall_forall in *. unfold eid in *. split; [|split; [|lia]].
  - rewrite <- Permutation_middle. constructor; [|done]. simpl. rewrite Hid.
    intros [(x & Hx & Hin)%list_elem_of_fmap|(x & Hx & Hin)%list_elem_of_fmap]%elem_of_app;
      [specialize (Hl1 x Hin)|specialize (Hl2 x Hin)]; lia.
  - simpl. split; [|split; [lia|]]; intros x Hin;
      [specialize (Hl1 x Hin)|specialize (Hl2 x Hin)]; simpl in *; lia.
Qed.

(** ** Removing *)

(** The event of an entry is live while the entry is unlinked, and freed. *)
Lemma free_entry_runs md own tm l1 n l2 q p :
  tm_rep own tm (l1 ++ n :: l2) -> q_rep q (q_entry <$> l1 ++ l2) ->
  runs md (FreeTimerEvent (set_tm_eventQ q (set_tm_tp p tm)) (Some n.2.1)) (fun tm' =>
    exists st fl, tm' = set_tm_mem st fl (set_tm_eventQ q (set_tm_tp p tm)) /\
      tm_rep own tm' (l1 ++ l2)).
Proof.
  intros [Hq Ho Hs] Hq'.
  eapply runs_mono; [apply (free_event_runs md _ (own ++ (l1 ++ l2).*2) n.2)|].
  - refine (proj2 (objs_ok_perm _ _ _ _ _) Ho). rewrite !fmap_app, fmap_cons.
    destruct n as [? n]. simpl. solve_perm.
  - intros tm' (st & fl & -> & Ho'). exists st, fl. split; [done|]. split; try done.
    apply StronglySorted_app in Hs as (H12 & Hs1 & Hs2).
    apply StronglySorted_cons in Hs2 as [_ Hs2].
    apply StronglySorted_app. split; [|done]. intros x y Hx Hy. apply H12; [done|by right].
Qed.

Lemma set_tp_same q tm : set_tm_eventQ q (set_tm_tp (tm_tp tm) tm) = set_tm_eventQ q tm.
Proof. done. Qed.

(** The outcome of [TimerThreadRemove]. *)
Definition timer_removed own tm evs (id : Z) (r : Z * option ThreadPoolJob * timer) : Prop :=
  let '(rc, out, tm') := r in
  match find (fun n => eid n =? id) evs with
  | None => rc = INVALID_EVENT_ID /\ out = None /\ tm' = tm
  | Some n => rc = 0 /\ out = Some (te_job n.2.2) /\
      exists l1 l2, evs = l1 ++ n :: l2 /\ find (fun n => eid n =? id) l1 = None /\
        tm_lastEventId tm' = tm_lastEventId tm /\ tm_rep own tm' (l1 ++ l2)
  end.

Lemma remove_loop_runs md own fuel tm id l1 l2 :
  tm_rep own tm (l1 ++ l2) -> find (fun n => eid n =? id) l1 = None ->
  (length l2 < fuel)%nat ->
  runs md (remove_loop fuel tm id (fst <$> head l2))
    (timer_removed own tm (l1 ++ l2) id).
Proof.
  revert l1 l2. induction fuel as [|fuel IH]; intros l1 l2 Hr Hl1 Hf; [lia|].
  destruct l2 as [|n l2]; simpl.
  { apply runs_ret. unfold timer_removed. by rewrite app_nil_r, Hl1. }
  pose proof Hr as [Hq Ho Hs]. destruct (q_at _ _ _ _ Hq) as [Eitem Enext].
  mstep. eapply runs_liftO; [done|]. mstep.
  eapply runs_liftO; [apply (event_live _ _ n.2 Ho); set_solver|].
  fold (eid n). destruct (eid n =? id) eqn:Eid.
  - mstep. eapply runs_mono; [by apply q_del_at|]. intros [y q] [_ Hq'].
    mstep. rewrite <- set_tp_same. eapply runs_mono; [by apply (free_entry_runs md own tm l1 n l2)|].
    intros tm' (st & fl & -> & Hr'). apply runs_ret. unfold timer_removed.
    rewrite find_app_cases, Hl1. simpl. rewrite Eid. eauto 10.
  - mstep. eapply runs_liftO; [done|]. simpl in Hf.
    rewrite (cons_middle n l1 l2), app_assoc. apply IH; [by rewrite <- app_assoc| |lia].
    rewrite find_app_cases, Hl1. simpl. by rewrite Eid.
Qed.

Lemma timer_remove_runs md own tm evs id :
  tm_rep own tm evs ->
  runs md (TimerThreadRemove tm id) (timer_removed own tm evs id).
Proof.
  intros Hr. pose proof Hr as [Hq _ _]. unfold TimerThreadRemove. mstep.
  eapply runs_liftO; [by eapply q_head_at|]. cbv beta.
  apply (remove_loop_runs md own _ tm id [] evs); [done|done|].
  rewrite (q_size_at _ _ Hq). unfold zlen. lia.
Qed.

(** ** Shutdown *)

Definition event_calls (evs : list entry) : list (Z * Z) :=
  evs ≫= fun n => free_call (te_job n.2.2).

Lemma shutdown_loop_runs md own fuel tm calls evs :
  tm_rep own tm evs -> (length evs < fuel)%nat ->
  runs md (shutdown_loop fuel tm calls (fst <$> head evs)) (fun '(calls', tm') =>
    calls' = calls ++ event_calls evs /\ tm_rep own tm' [] /\
    tm_shutdown tm' = tm_shutdown tm).
Proof.
  revert tm calls evs. induction fuel as [|fuel IH]; intros tm calls evs Hr Hf; [lia|].
  destruct evs as [|n evs]; simpl.
  { apply runs_ret. by rewrite app_nil_r. }
  pose proof Hr as [Hq Ho Hs]. destruct (q_at _ [] _ _ Hq) as [Eitem Enext].
  mstep. eapply runs_liftO; [done|]. mstep. eapply runs_liftO; [done|].
  mstep. eapply runs_mono; [apply (q_del_at md _ [] n evs Hq)|]. intros [y q] [_ Hq'].
  mstep. eapply runs_liftO; [apply (event_live tm _ n.2 Ho); set_solver|].
  mstep. rewrite <- set_tp_same.
  eapply runs_mono; [by apply (free_entry_runs md own tm [] n evs)|].
  intros tm' (st & fl & -> & Hr'). simpl in Hf.
  eapply runs_mono; [by apply IH; [|lia]|]. intros [calls' tm'] (-> & Hr3 & Hsh).
  split; [|done]. unfold event_calls. simpl. by rewrite <- app_assoc.
Qed.

Lemma timer_shutdown_runs wake own tm evs :
  tm_rep own tm evs -> (forall t, tm_rep own t [] -> tm_rep own (wake t) []) ->
  (forall t, tm_rep own t [] -> tm_shutdown (wake t) = 0) ->
  runs Total (TimerThreadShutdown wake tm) (fun '(rc, calls, tm') =>
    rc = 0 /\ calls = event_calls evs /\ tm_rep own tm' []).
Proof.
  intros [Hq Ho Hs] Hw He. unfold TimerThreadShutdown. mstep.
  eapply runs_liftO; [by eapply q_head_at|]. cbv beta. mstep.
  eapply runs_mono.
  { apply (shutdown_loop_runs Total own (S (Z.to_nat (q_size (tm_eventQ tm))))
      (set_tm_shutdown 1 tm) [] evs); [by split|].
    rewrite (q_size_at _ _ Hq). unfold zlen. lia. }
  intros [calls tm1] (-> & [Hq1 Ho1 _] & _). mstep.
  eapply runs_mono; [by eapply q_destroy_law|]. intros q Hq2.
  destruct (objs_destroy _ _ _ Ho1) as (st & fl & E & Ho2).
  mstep. eapply runs_liftO; [done|].
  assert (tm_rep own (set_tm_mem st fl (set_tm_eventQ q tm1)) []) as Hr2
    by (split; [done..|constructor]).
  cbv beta iota zeta. rewrite (He _ Hr2). simpl. apply runs_ret. split; [done|]. split; [done|]. by apply Hw.
Qed.

(** ** The worker *)

(** Due events of a sorted queue come first. *)
Definition due (now : Z) (n : entry) : bool := etime n <=? now.

(** The outcome of one pass with an empty [calls] while the pool accepts. *)
Definition passed own (now : Z) tm evs (r : timer * pass) : Prop :=
  let '(tm', p) := r in
  pool_ok (tm_tp tm') /\ tm_lastEventId tm' = tm_lastEventId tm /\
  if negb (tm_shutdown tm =? 0) then p = Ended /\ tm' = set_tm_shutdown 0 tm
  else tm_shutdown tm' = 0 /\
  match evs with
  | [] => p = WaitForEvent /\ tm' = tm
  | n :: evs' =>
      if due now n then
        exists rc, p = Dispatched (te_job n.2.2) rc
                        (if negb (rc =? 0) then refused_call (te_job n.2.2) else []) /\
          tm_rep own tm' evs'
      else p = WaitUntil (etime n) /\ tm' = tm
  end.

Lemma pass_runs md `{!JobPoolLaws P md} own now tm evs :
  tm_rep own tm evs -> pool_ok (tm_tp tm) ->
  runs md (worker_pass now tm) (passed own now tm evs).
Proof.
  intros Hr Hp. pose proof Hr as [Hq Ho Hs]. unfold worker_pass, passed.
  destruct (Z.eqb_spec (tm_shutdown tm) 0) as [Hsh|]; simpl; [|by apply runs_ret].
  rewrite (q_size_at _ _ Hq). destruct evs as [|n evs].
  { by apply runs_ret. }
  rewrite zlen_cons. pose proof (zlen_nonneg evs).
  rewrite (proj2 (Z.ltb_lt _ _)) by lia. destruct (q_at _ [] _ _ Hq) as [Eitem _].
  mstep. eapply runs_liftO; [by eapply q_head_at|]. simpl.
  mstep. eapply runs_liftO; [done|]. mstep.
  eapply runs_liftO; [apply (event_live _ _ n.2 Ho); set_solver|].
  unfold due. fold (etime n). destruct (etime n <=? now); [|by apply runs_ret].
  mstep. apply (runs_mono _ _ (fun '(_, p') => pool_ok p')).
  { destruct (negb _); [by apply pool_add_persistent_law|by apply pool_add_law]. }
  intros [rc p] Hp'. mstep. eapply runs_mono; [by apply (q_del_at md _ [] n evs)|].
  intros [y q] [_ Hq'].
  mstep. eapply runs_mono; [by apply (free_entry_runs md own tm [] n evs q p)|].
  intros tm' (st & fl & -> & Hr'). apply runs_ret. split; [done|]. split; [done|].
  split; [done|]. by exists rc.
Qed.

Lemma due_prefix n now evs :
  StronglySorted earlier (n :: evs) -> due now n = false ->
  filter (fun n => due now n = true) (n :: evs) = [] /\
  filter (fun n => due now n = false) (n :: evs) = n :: evs.
Proof.
  intros Hs Hd.
  assert (Forall (fun n => due now n = false) (n :: evs)) as H.
  { constructor; [done|]. eapply Forall_impl; [by apply sorted_later|].
    unfold due, earlier in *. intros m Hm. simpl in Hm. zbool. apply Z.leb_gt. lia. }
  clear Hs Hd. induction H as [|m l Hm Hl [IH1 IH2]]; [done|].
  rewrite !filter_cons, Hm. simpl. by rewrite IH1, IH2.
Qed.

(** The events [l1] are handed to the pool, each due at the time read in its
    pass, and the worker then waits for the first of [l2], which was not due
    when it was looked at. *)
Definition ran (times : list Z) evs l1 l2 (p : pass) : Prop :=
  evs = l1 ++ l2 /\
  Forall2 (fun n now => etime n <= now) l1 (take (length l1) times) /\
  match l2 with
  | [] => p = WaitForEvent
  | n :: _ => p = WaitUntil (etime n) /\ exists now, times !! length l1 = Some now /\ now < etime n
  end.

Lemma run_runs md `{!JobPoolLaws P md} own times tm evs out :
  (length evs < length times)%nat -> tm_rep own tm evs -> pool_ok (tm_tp tm) -> tm_shutdown tm = 0 ->
  runs md (worker_run times tm out) (fun '(tm', out', p) => exists l1 l2,
    ran times evs l1 l2 p /\
    out'.*1 = out.*1 ++ ((fun n => te_job n.2.2) <$> l1) /\ tm_rep own tm' l2).
Proof.
  revert tm evs out. induction times as [|now times IH]; intros tm evs out Hf Hr Hp Hsh;
    [cbn in Hf; lia|]. cbn [worker_run]. mstep. eapply runs_mono; [by apply pass_runs|].
  intros [tm' p]. unfold passed. rewrite Hsh. cbn [Z.eqb negb].
  intros (Hp' & _ & Hsh' & Hcase). destruct evs as [|n evs].
  { destruct Hcase as [-> ->]. apply runs_ret. exists [], []. rewrite app_nil_r.
    split; [|done]. split; [done|]. split; [constructor|done]. }
  destruct (due now n) eqn:Ed.
  - destruct Hcase as (rc & -> & Hr'). cbn in Hf.
    eapply runs_mono; [by apply (IH _ evs); [lia|..]|].
    intros [[tm2 out2] p2] (l1 & l2 & (-> & Hdue & Hw) & E1 & E2). exists (n :: l1), l2.
    split; [|split; [by rewrite E1, fmap_app, <- (app_assoc (out.*1)); cbn|done]].
    split; [done|]. split; [|done]. cbn. constructor; [|done]. unfold due in Ed. by zbool.
  - destruct Hcase as [-> ->]. apply runs_ret. exists [], (n :: evs). rewrite app_nil_r.
    split; [|done]. split; [done|]. split; [constructor|]. split; [done|]. exists now. split; [done|].
    unfold due in Ed. by zbool.
Qed.

(** A clock that stands still: the due events are a prefix of the queue. *)
Lemma ran_at now times evs l1 l2 p :
  StronglySorted earlier evs -> ran times evs l1 l2 p -> Forall (eq now) times ->
  l1 = filter (fun n => due now n = true) evs /\ l2 = filter (fun n => due now n = false) evs.
Proof.
  intros Hs (-> & Hd & Hw) Hn. rewrite !filter_app.
  assert (Forall (fun n => due now n = true) l1) as H1.
  { apply (Forall_take _ (length l1)) in Hn. clear Hs Hw.
    induction Hd as [|n t l ts Ht _ IH]; constructor.
    - apply Forall_cons in Hn as [-> _]. by apply Z.leb_le.
    - apply IH. by apply Forall_cons in Hn as [_ Hn]. }
  assert (filter (fun n => due now n = true) l1 = l1 /\ filter (fun n => due now n = false) l1 = []) as [-> ->].
  { clear -H1. induction H1 as [|n l Hn _ [IH1 IH2]]; [done|].
    rewrite !filter_cons, Hn. cbn. by rewrite IH1, IH2. }
  destruct l2 as [|n l2]; [by rewrite app_nil_r|]. destruct Hw as [_ (t & Ht & Hlt)].
  apply StronglySorted_app in Hs as (_ & _ & Hs).
  assert (due now n = false) as Hdn.
  { rewrite Forall_lookup in Hn. rewrite <- (Hn _ _ Ht) in Hlt. by apply Z.leb_gt. }
  destruct (due_prefix n now l2 Hs Hdn) as [-> ->]. by rewrite app_nil_r.
Qed.

(** The first match splits a list in one way only. *)
Lemma first_split {A} (f : A -> bool) l1 l2 k1 k2 n m :
  l1 ++ n :: l2 = k1 ++ m :: k2 -> find f l1 = None -> find f k1 = None ->
  f n = true -> f m = true -> l1 = k1 /\ l2 = k2.
Proof.
  revert k1. induction l1 as [|x l1 IH]; intros [|y k1] E Hl Hk Hn Hm; simplify_eq/=.
  - done.
  - by rewrite Hn in Hk.
  - by rewrite Hm in Hl.
  - destruct (f y); [done|]. destruct (IH k1) as [-> ->]; done.
Qed.

(** ** Properties *)

(** C30: [TimerThreadSchedule] puts the new event, stamped with its absolute
    time and the next identifier, behind all earlier events and in front of
    those of the same time or later, so that the queue stays sorted; the event
    is the only block allocated for it.  Without memory, for the event or for
    the node of the queue, the call fails with [EOUTOFMEM], the queue is
    unchanged and the event does not leak: in both cases every block that is
    allocated for an event is one of the queue, one that others hold, or on the
    free list. *)
Theorem TimerThreadSchedule_correct md own now tm evs timeout type job duration :
  tm_rep own tm evs ->
  runs md (TimerThreadSchedule now tm timeout type (Some job) duration)
    (scheduled md own tm evs
      (MkEvent job (CalculateEventTime now timeout type).2 duration (tm_lastEventId tm))).
Proof. apply schedule_runs. Qed.

(** [TimerThreadRemove] removes the first event with the given identifier
    and hands its job back, freeing the event; without one nothing changes. *)
Theorem TimerThreadRemove_correct md own tm evs id :
  tm_rep own tm evs ->
  runs md (TimerThreadRemove tm id) (timer_removed own tm evs id).
Proof. apply timer_remove_runs. Qed.

(** The identifier [TimerThreadSchedule] returns cancels exactly that
    event: removing it gives the job back and leaves the queue as it was,
    and identifiers stay distinct (before they wrap around). *)
Theorem timer_schedule_remove own now tm evs timeout type job duration :
  tm_rep own tm evs -> ids_ok tm evs -> tm_lastEventId tm < INT_MAX ->
  runs Lucky ('(rc, id, tm) ← TimerThreadSchedule now tm timeout type (Some job) duration;
              '(rc', out, tm) ← TimerThreadRemove tm id;
              mret (rc, rc', out, tm)) (fun '(rc, rc', out, tm') =>
    rc = 0 /\ rc' = 0 /\ out = Some job /\ tm_rep own tm' evs /\ ids_ok tm' evs).
Proof.
  intros Hr (Hnd & Hlt & H0) Hmax. mstep. eapply runs_mono; [by apply schedule_runs|].
  intros [[rc id] tm1] [(-> & -> & Hid & l1 & l2 & a & b & (-> & _) & Hr1)|(? & _)]; [|done].
  mstep. eapply runs_mono; [by eapply timer_remove_runs|].
  intros [[rc' out] tm2]. unfold timer_removed.
  apply Forall_app in Hlt as [Hl1 Hl2]. rewrite find_app_cases. simpl.
  assert (find (fun n => eid n =? tm_lastEventId tm) l1 = None) as Hnone.
  { destruct (find _ l1) as [n|] eqn:E; [|done]. apply find_split in E as (k1 & k2 & -> & E & _).
    apply Forall_app in Hl1 as [_ Hl1]. apply Forall_cons in Hl1 as [Hl1 _]. lia. }
  rewrite Hnone. unfold eid at 1. simpl. rewrite Z.eqb_refl.
  intros (-> & -> & k1 & k2 & E & Hk1 & Hid2 & Hr2). apply runs_ret. simpl.
  split; [done|]. split; [done|]. split; [done|].
  assert (l1 = k1 /\ l2 = k2) as [<- <-].
  { apply (first_split _ _ _ _ _ _ _ E Hnone Hk1); unfold eid; simpl; apply Z.eqb_refl. }
  split; [done|]. split; [done|]. rewrite Hid2, Hid, to_int_small by lia.
  split; [|lia]. apply Forall_app; split; [eapply Forall_impl; [exact Hl1|]
    |eapply Forall_impl; [exact Hl2|]]; simpl; lia.
Qed.

(** C31: Woken up, the worker reads the clock before each event.  It hands
    events to the pool in the order of their times, each once, as long as the
    first is due at the time just read, removes them, keeps the others and
    waits for the first of these, which was not due when it was looked at.  If
    the clock shows [now] all along, the events handed over are exactly those
    that are due at [now].  It gets there as soon as the pool returns from each
    job. *)
Theorem timer_worker_correct md `{!JobPoolLaws P md} own times tm evs :
  tm_rep own tm evs -> pool_ok (tm_tp tm) -> tm_shutdown tm = 0 ->
  (length evs < length times)%nat ->
  runs md (worker_run times tm []) (fun '(tm', out, p) =>
    (exists l1 l2,
      evs = l1 ++ l2 /\
      Forall2 (fun n now => etime n <= now) l1 (take (length l1) times) /\
      out.*1 = ((fun n => te_job n.2.2) <$> l1) /\ tm_rep own tm' l2 /\
      match l2 with
      | [] => p = WaitForEvent
      | n :: _ => p = WaitUntil (etime n) /\
          exists now, times !! length l1 = Some now /\ now < etime n
      end) /\
    forall now, Forall (eq now) times ->
      out.*1 = ((fun n => te_job n.2.2) <$> filter (fun n => due now n = true) evs) /\
      tm_rep own tm' (filter (fun n => due now n = false) evs) /\
      p = match head (filter (fun n => due now n = false) evs) with
          | None => WaitForEvent | Some n => WaitUntil (etime n) end).
Proof.
  intros Hr Hp Hs Hf. pose proof Hr as [_ _ Hsort].
  eapply runs_mono; [by apply (run_runs md own times tm evs [])|].
  intros [[tm' out] p] (l1 & l2 & Hran & Eo & Hr'). cbn in Eo. split.
  - destruct Hran as (E & Hd & Hw). by exists l1, l2.
  - intros now Hn. destruct (ran_at now times evs l1 l2 p Hsort Hran Hn) as [<- <-].
    split_and!; [done..|]. destruct Hran as (_ & _ & Hw). destruct l2; [done|]. by destruct Hw.
Qed.

(** one pass of the worker with a due event hands its job to the pool and,
    if the pool refuses it, calls the job's free function exactly when both
    the function and its argument are set; during a shutdown the worker
    acknowledges and ends. *)
Theorem timer_pass_correct md `{!JobPoolLaws P md} own now tm evs :
  tm_rep own tm evs -> pool_ok (tm_tp tm) ->
  runs md (worker_pass now tm) (passed own now tm evs).
Proof. apply pass_runs. done. Qed.

(** [TimerThreadShutdown] frees every pending event once, calling the free
    function of each job that has one, in the order of the queue, and returns
    once the worker has acknowledged; no event is left. *)
Theorem TimerThreadShutdown_correct wake own tm evs :
  tm_rep own tm evs -> (forall t, tm_rep own t [] -> tm_rep own (wake t) []) ->
  (forall t, tm_rep own t [] -> tm_shutdown (wake t) = 0) ->
  runs Total (TimerThreadShutdown wake tm) (fun '(rc, calls, tm') =>
    rc = 0 /\ calls = event_calls evs /\ tm_rep own tm' []).
Proof. apply timer_shutdown_runs. Qed.

(** an initialised timer has an empty, sorted queue and has handed its
    worker to the pool; if the pool refuses it the memory is given back. *)
Theorem TimerThreadInit_correct md `{!JobPoolLaws P md} q es worker_func self p job :
  q_rep q [] -> pool_ok p -> worker_func <> 0 ->
  runs md (TimerThreadInit 0 q es worker_func self p job ∅) (fun '(rc, tm) =>
    tm_rep [] tm [] /\ ids_ok tm [] /\ pool_ok (tm_tp tm) /\ tm_shutdown tm = 0).
Proof.
  intros Hq Hp Hf. unfold TimerThreadInit. mstep. apply runs_assert_true; [done|].
  simpl. apply Z.eqb_neq in Hf. rewrite Hf. simpl. mstep.
  eapply runs_mono; [by apply pool_add_persistent_law|]. intros [rc p'] Hp'.
  assert (ids_ok (MkTimer 0 q 0 ∅ (FreeListInit es 100).2 p') []) as Hids
    by (split; [constructor|]; split; [constructor|done]).
  destruct (negb _).
  - destruct (objs_destroy (A := TimerEvent) ∅ (FreeListInit es 100).2 [])
      as (st & fl & E & Ho'); [apply objs_ok_empty|].
    mstep. eapply runs_liftO; [done|].
    cbv beta iota. mstep. eapply runs_mono; [by eapply q_destroy_law|]. intros q' Hq'. apply runs_ret.
    split; [|done]. split; [done..|constructor].
  - apply runs_ret. split; [|done]. split; [done| |constructor].
    apply objs_ok_empty.
Qed.
End TimerThread.

(** ** The pools *)

(** The thread pool, under any interference that keeps its invariant. *)
Section ThreadPoolInstance.
Context {LQ : Type} {QO : Queue LQ item} {QL : QueueLaws LQ item CmpThreadPoolJob}.
Context (wake : wait_cond -> ThreadPool LQ -> ThreadPool LQ) (create_error : Z)
  (now : timeval) (limit : Z).

#[local] Instance thread_pool : JobPool (ThreadPool LQ) := {|
  pool_add tp j :=
    '(rc, _, tp) ← ThreadPoolAdd wake create_error now tp (Some j); mret (rc, tp);
  pool_add_persistent tp j :=
    '(rc, _, tp) ← ThreadPoolAddPersistent wake create_error now tp (Some j);
    mret (rc, tp);
  pool_ok tp := tp_inv limit [] tp
|}.

Lemma thread_pool_laws :
  create_error <> 0 -> (forall c e tp, tp_inv limit e tp -> tp_inv limit e (wake c tp)) ->
  JobPoolLaws (ThreadPool LQ) Safe.
Proof.
  intros Hc Hw. split; intros p j Hp;
    cbn [pool_add pool_add_persistent pool_ok thread_pool] in *; mstep.
  - eapply runs_mono; [by apply (add_inv limit wake create_error Hw Hc)|].
    intros [[rc id] tp] Hi. by apply runs_ret.
  - eapply runs_mono; [by apply (add_persistent_op_inv limit wake create_error Hw Hc)|].
    intros [[rc id] tp] Hi. by apply runs_ret.
Qed.
End ThreadPoolInstance.

(** A pool that records its jobs and refuses those of function 0. *)
Definition recorder : Type := list ThreadPoolJob.

#[export] Instance recorder_pool : JobPool recorder := {|
  pool_add p j := if j_func j =? 0 then mret (EOUTOFMEM, p) else mret (0, p ++ [j]);
  pool_add_persistent p j := mret (0, p ++ [j]);
  pool_ok _ := True
|}.

#[export] Instance recorder_laws md : JobPoolLaws recorder md.
Proof.
  split; intros p j _; simpl; [destruct (_ =? _)|]; by apply runs_ret.
Qed.

(** ** A concrete timer: two events, at times 100 and 200. *)

#[export] Instance ptr_queue : Queue (@qstate ptr) ptr := list_queue None same_ptr.
#[export] Instance ptr_queue_laws : QueueLaws (@qstate ptr) ptr same_ptr :=
  list_queue_laws None same_ptr.

Definition ex_job (n : Z) : ThreadPoolJob := MkJob n 9 8 (MkTimeval 0 0) MED_PRIORITY 0.
Definition ex_ev1 : loc * TimerEvent := (1%positive, MkEvent (ex_job 5) 100 SHORT_TERM 0).
Definition ex_ev2 : loc * TimerEvent := (2%positive, MkEvent (ex_job 6) 200 PERSISTENT 1).

Definition ex_timer : TimerThread (@qstate ptr) recorder :=
  MkTimer 2 (q_of None same_ptr [Some 1%positive; Some 2%positive]) 0
    (<[1%positive := Obj ex_ev1.2]> (<[2%positive := Obj ex_ev2.2]> ∅))
    (FreeListInit 80 100).2 [].

Lemma ex_timer_rep : exists a b, tm_rep [] ex_timer [(a, ex_ev1); (b, ex_ev2)].
Proof.
  destruct (q_of_rep None same_ptr [Some 1%positive; Some 2%positive]) as (l & Hq & E).
  destruct l as [|[a x] [|[b y] [|]]]; simplify_eq/=. exists a, b. split.
  - exact Hq.
  - split; [exists []; split; [apply FreeListInit_rep|]|split].
    + apply accounted_dom. apply (bool_decide_unpack _). by vm_compute.
    + apply (bool_decide_unpack _). by vm_compute.
    + repeat constructor.
  - repeat constructor. unfold earlier, etime. simpl. lia.
Qed.

Lemma TimerThreadSchedule_correct_witness :
  exists evs, runs Total
    (TimerThreadSchedule 50 ex_timer 100 REL_SEC (Some (ex_job 7)) SHORT_TERM)
    (scheduled Total [] ex_timer evs (MkEvent (ex_job 7) 150 SHORT_TERM 2)).
Proof.
  destruct ex_timer_rep as (a & b & Hr). exists [(a, ex_ev1); (b, ex_ev2)].
  exact (TimerThreadSchedule_correct Total [] 50 ex_timer _ 100 REL_SEC (ex_job 7)
    SHORT_TERM Hr).
Defined.

Lemma TimerThreadRemove_correct_witness :
  runs Total (TimerThreadRemove ex_timer 1) (fun '(rc, out, tm) =>
    rc = 0 /\ out = Some (ex_job 6)).
Proof.
  destruct ex_timer_rep as (a & b & Hr).
  eapply runs_mono; [exact (TimerThreadRemove_correct Total [] ex_timer _ 1 Hr)|].
  intros [[rc out] tm]. unfold timer_removed. simpl. intros (Hrc & Hout & _). by split.
Defined.

Lemma ex_timer_ids a b : ids_ok ex_timer [(a, ex_ev1); (b, ex_ev2)].
Proof.
  split; [|split; [|done]].
  - apply (bool_decide_unpack _). by vm_compute.
  - by repeat constructor.
Qed.

Lemma timer_schedule_remove_witness :
  exists evs, runs Lucky
    ('(rc, id, tm) ← TimerThreadSchedule 50 ex_timer 150 ABS_SEC (Some (ex_job 7)) SHORT_TERM;
     '(rc', out, tm) ← TimerThreadRemove tm id;
     mret (rc, rc', out, tm)) (fun '(rc, rc', out, tm') =>
    rc = 0 /\ rc' = 0 /\ out = Some (ex_job 7) /\ tm_rep [] tm' evs /\ ids_ok tm' evs).
Proof.
  destruct ex_timer_rep as (a & b & Hr). exists [(a, ex_ev1); (b, ex_ev2)].
  apply (timer_schedule_remove [] 50 ex_timer _ 150 ABS_SEC (ex_job 7) SHORT_TERM Hr);
    [apply ex_timer_ids|reflexivity].
Defined.

Lemma timer_worker_correct_witness :
  runs Total (worker_run [150; 200; 200] ex_timer []) (fun '(tm', out, p) =>
    out.*1 = [ex_job 5; ex_job 6] /\ p = WaitForEvent) /\
  runs Total (worker_run [150; 150; 150] ex_timer []) (fun '(tm', out, p) =>
    out.*1 = [ex_job 5] /\ p = WaitUntil 200).
Proof.
  destruct ex_timer_rep as (a & b & Hr). split.
  - eapply runs_mono; [apply (timer_worker_correct Total [] [150; 200; 200] ex_timer _ Hr); [done..|simpl; lia]|].
    intros [[tm' out] p] [(l1 & l2 & E & Hd & -> & _ & Hw) _].
    destruct l1 as [|n [|m [|? ?]]]; cbn in E; simplify_eq; try done.
    all: destruct Hw as (_ & t & [= <-] & Ht); by vm_compute in Ht.
  - eapply runs_mono; [apply (timer_worker_correct Total [] [150; 150; 150] ex_timer _ Hr); [done..|simpl; lia]|].
    intros [[tm' out] p] [_ H]. destruct (H 150) as (Hout & _ & Hp); [by repeat constructor|]. by split.
Defined.

Lemma timer_pass_correct_witness :
  exists evs, runs Total (worker_pass 100 ex_timer) (passed [] 100 ex_timer evs).
Proof.
  destruct ex_timer_rep as (a & b & Hr). exists [(a, ex_ev1); (b, ex_ev2)].
  by apply (timer_pass_correct Total [] 100 ex_timer).
Defined.

Lemma TimerThreadShutdown_correct_witness :
  runs Total (TimerThreadShutdown (set_tm_shutdown 0) ex_timer) (fun '(rc, calls, tm') =>
    rc = 0 /\ calls = [(8, 9); (8, 9)] /\ tm_rep [] tm' []).
Proof.
  destruct ex_timer_rep as (a & b & Hr).
  apply (TimerThreadShutdown_correct (set_tm_shutdown 0) [] ex_timer _ Hr).
  - by intros t [].
  - done.
Defined.

Lemma TimerThreadInit_correct_witness :
  runs Total (TimerThreadInit 0 (q_init None same_ptr) 80 77 3 ([] : recorder)
                (ex_job 0) ∅) (fun '(rc, tm) =>
    tm_rep [] tm [] /\ ids_ok tm [] /\ pool_ok (tm_tp tm) /\ tm_shutdown tm = 0).
Proof.
  apply (TimerThreadInit_correct Total (q_init None same_ptr)); [|done..].
  apply q_init_rep.
Defined.
