(* ===== verification/Uri.v ===== *)
(** URIs: [upnp/src/genlib/net/uri/uri.c].

    An input string is the list of its characters; the terminating NUL is read
    at its end and nothing beyond it may be read.  Buffers modified in place
    are lists of bytes with partial accesses.  The resolver calls
    ([getaddrinfo], [inet_pton]) and the interface index are parameters. *)

From S2P Require Import Prelude CString MemBuffer.

(** ** Data *)

Definition HTTP_SUCCESS : Z := 1.
Definition UPNP_E_INVALID_URL : Z := -108.
Definition MARK : list Z := cs "-_.!~*'()".
Definition RESERVED : list Z := cs ";/?:@&=+$,{}".

Definition AF_UNSPEC : Z := 0.
Definition AF_INET : Z := 2.
Definition AF_INET6 : Z := 10.

Inductive pathType := ABS_PATH | REL_PATH | OPAQUE_PART.
Inductive uriType := ABSOLUTE | RELATIVE.

(** [buff] is an address, 0 for [NULL]. *)
Record token := MkToken { tk_buff : Z; tk_size : Z }.
(** The fields of [struct sockaddr_storage] the code uses. *)
Record sockaddr := MkSockaddr {
  ss_family : Z; sin_port : Z; sin_addr : list Z; sin6_scope_id : Z
}.
Record hostport_type := MkHostport { hp_text : token; hp_IPaddress : sockaddr }.
Record uri_type := MkUri {
  u_type : uriType;
  u_scheme : token;
  u_path_type : pathType;
  u_pathquery : token;
  u_fragment : token;
  u_hostport : hostport_type
}.
Record URL_list := MkURLs { ul_size : Z; ul_URLs : list Z; ul_base : Z;
  ul_parsedURLs : list uri_type }.

Definition no_addr : sockaddr := MkSockaddr 0 0 [] 0.
Definition no_hostport : hostport_type := MkHostport (MkToken 0 0) no_addr.

(** Reading and writing byte [i] of a buffer. *)
Definition peek (b : list Z) (i : Z) : option Z :=
  if 0 <=? i then b !! Z.to_nat i else None.
Definition poke (b : list Z) (i v : Z) : option (list Z) := mem_write b i [v].

(** ** Character classes *)

Definition is_reserved (c : Z) : bool := strchr RESERVED c.
Definition is_mark (c : Z) : bool := strchr MARK c.
Definition is_unreserved (c : Z) : bool := isalnum c || is_mark c.

(** Characters are read one after the other, as [&&] does. *)
Definition is_escaped (inp : list Z) (i : Z) : option bool :=
  c0 ← rdt inp i;
  if c0 =? $"%" then
    c1 ← rdt inp (i + 1);
    if isxdigit c1 then c2 ← rdt inp (i + 2); Some (isxdigit c2) else Some false
  else Some false.

(** ** Escapes *)

(** [sscanf] with ["%2x"] on two characters. *)
Definition scan_2x (c1 c2 : Z) : option Z :=
  d1 ← digit_val c1; d2 ← digit_val c2; Some (16 * d1 + d2).

(** [for (; j < max; i++, j++)]. *)
Fixpoint shift_loop (fuel : nat) (b : list Z) (i j max tempChar : Z) : option (list Z) :=
  match fuel with
  | O => None
  | S fuel' =>
      if j <? max then
        b ← poke b j tempChar;
        tempChar ← (if i <? max then peek b i else Some 0);
        shift_loop fuel' b (i + 1) (j + 1) max tempChar
      else Some b
  end.

(** Result, buffer and new [*max]. *)
Definition replace_escaped (b : list Z) (index max : Z) : option (Z * list Z * Z) :=
  c0 ← peek b index;
  if c0 =? $"%" then
    c1 ← peek b (index + 1);
    if isxdigit c1 then
      c2 ← peek b (index + 2);
      if isxdigit c2 then
        match scan_2x c1 c2 with
        | None => Some (0, b, max)
        | Some tempInt =>
            b ← shift_loop (S (Z.to_nat (max - index))) b (index + 3) index max
                  (schar tempInt);
            Some (1, b, to_size (max - 2))
        end
      else Some (0, b, max)
    else Some (0, b, max)
  else Some (0, b, max).

Fixpoint remove_escaped_loop (fuel : nat) (b : list Z) (i size : Z)
    : option (list Z * Z) :=
  match fuel with
  | O => None
  | S fuel' =>
      if i <? size then
        '(_, b, size) ← replace_escaped b i size;
        remove_escaped_loop fuel' b (i + 1) size
      else Some (b, size)
  end.

Definition remove_escaped_chars (b : list Z) (size : Z) : option (Z * list Z * Z) :=
  '(b, size) ← remove_escaped_loop (S (Z.to_nat size)) b 0 size;
  Some (UPNP_E_SUCCESS, b, size).

(** ** Tokens *)

(** The loop of [parse_uric] over [in = inp + off]. *)
Fixpoint uric_loop (fuel : nat) (inp : list Z) (off i max : Z) : option Z :=
  match fuel with
  | O => None
  | S fuel' =>
      if i <? max then
        c ← rdt inp (off + i);
        ok ← (if is_unreserved c || is_reserved c then Some true
              else if i + 2 <? max then is_escaped inp (off + i)
              else Some false);
        if ok : bool then uric_loop fuel' inp off (i + 1) max else Some i
      else Some i
  end.

(** [base] is the address of [inp]; at most the characters of the string and
    its NUL are read. *)
Definition parse_uric (base : Z) (inp : list Z) (off max : Z) : option (Z * token) :=
  i ← uric_loop (S (S (length inp))) inp off 0 max;
  Some (i, MkToken (base + off) i).

Definition copy_token (t : token) (in_base out_base : Z) : token :=
  MkToken (out_base + (tk_buff t - in_base)) (tk_size t).

Definition token_string_casecmp (text1 : list Z) (in1 : token) (in2 : list Z) : Z :=
  if negb (tk_size in1 =? strlen in2) then 1
  else strncasecmp text1 in2 (tk_size in1).

Definition token_cmp (text1 : list Z) (in1 : token) (text2 : list Z) (in2 : token) : Z :=
  if negb (tk_size in1 =? tk_size in2) then 1
  else memcmp text1 text2 (tk_size in1).

Definition copy_uri (in_base out_base : Z) (u : uri_type) : uri_type :=
  let cp t := copy_token t in_base out_base in
  MkUri (u_type u) (cp (u_scheme u)) (u_path_type u) (cp (u_pathquery u))
    (cp (u_fragment u))
    (MkHostport (cp (hp_text (u_hostport u))) (hp_IPaddress (u_hostport u))).

(** [out_base] is the address of the new string.  When an allocation fails the
    list is left with size 0. *)
Definition copy_URL_list (l : URL_list) (out_base : Z) : M (Z * URL_list) :=
  ok1 ← malloc_ok;
  ok2 ← malloc_ok;
  if negb ok1 || negb ok2 then mret (UPNP_E_OUTOF_MEMORY, MkURLs 0 [] 0 [])
  else
    mret (HTTP_SUCCESS,
      MkURLs (ul_size l) (c_str (ul_URLs l)) out_base
        (copy_uri (ul_base l) out_base <$> ztake (ul_size l) (ul_parsedURLs l))).

(** The blocks are released; the pointers to them stay in the list. *)
Definition free_URL_list (l : URL_list) : URL_list :=
  MkURLs 0 (ul_URLs l) (ul_base l) (ul_parsedURLs l).

(** [isalpha] first, then the loop up to [':']. *)
Fixpoint scheme_loop (fuel : nat) (inp : list Z) (i max : Z) : option (option Z) :=
  match fuel with
  | O => None
  | S fuel' =>
      if i <? max then
        c ← rdt inp i;
        if c =? $":" then Some (Some i)
        else if isalnum c || (c =? $"+") || (c =? $"-") || (c =? $".")
        then scheme_loop fuel' inp (i + 1) max
        else Some None
      else Some None
  end.

Definition parse_scheme (base : Z) (inp : list Z) (max : Z) : option (Z * token) :=
  let none := (0, MkToken 0 0) in
  if max =? 0 then Some none
  else
    c ← rdt inp 0;
    if negb (isalpha c) then Some none
    else
      r ← scheme_loop (S (S (length inp))) inp 1 max;
      Some (match r with None => none | Some i => (i, MkToken base i) end).

(** ** Host and port *)

(** Number of leading characters in a class. *)
Fixpoint span (p : Z -> bool) (l : list Z) : Z :=
  match l with
  | c :: l' => if p c then 1 + span p l' else 0
  | [] => 0
  end.

(** Offset of the last dot among the first [n] characters. *)
Fixpoint last_dot (l : list Z) (i : Z) (n : nat) (d : option Z) : option Z :=
  match n, l with
  | S n', c :: l' => last_dot l' (i + 1) n' (if c =? $"." then Some i else d)
  | _, _ => d
  end.

Definition htons (port : Z) : Z :=
  Z.lor (Z.shiftl (Z.land port 255) 8) (Z.shiftr port 8).

Definition is_host_char (c : Z) : bool :=
  negb (c =? $":") && negb (c =? $"/") && (isalnum c || (c =? $".") || (c =? $"-")).

Section Resolver.
(** [getaddrinfo] yields the addresses of a host, [None] on failure;
    [inet_pton] the bytes of a numeric address, [None] when it is malformed. *)
Context (getaddrinfo : list Z -> option (list sockaddr))
  (inet_pton : Z -> list Z -> option (list Z)) (gIF_INDEX : Z).

(** First address of family [AF_INET] or [AF_INET6]. *)
Definition usable (a : sockaddr) : bool :=
  (ss_family a =? AF_INET) || (ss_family a =? AF_INET6).

(** The part of [parse_hostport] after the host: [w] is the work buffer, [c]
    the position, [srvname] the host, [addr] the address found so far. *)
Definition finish_hostport (inbuff : Z) (w : list Z) (c : Z) (srvname : list Z)
    (af : Z) (has_port : bool) (addr : sockaddr) (defaultPort : Z)
    : Z * hostport_type :=
  let bad := (UPNP_E_INVALID_URL, MkHostport (MkToken 0 0) addr) in
  let c' := if has_port then c + span isdigit (zdrop c w) else c in
  let port := if has_port then to_ushort (atoi (zdrop c w)) else defaultPort in
  if has_port && (port =? 0) then bad
  else
    let res :=
      if af =? AF_INET then
        a ← inet_pton AF_INET srvname;
        Some (MkSockaddr AF_INET (htons port) a (sin6_scope_id addr))
      else if af =? AF_INET6 then
        a ← inet_pton AF_INET6 srvname;
        Some (MkSockaddr AF_INET6 (htons port) a gIF_INDEX)
      else
        Some (MkSockaddr (ss_family addr) (htons port) (sin_addr addr)
                (sin6_scope_id addr)) in
    match res with
    | None => bad
    | Some a => (to_int c', MkHostport (MkToken inbuff c') a)
    end.

(** [inp] is the string from the host on, at address [inbuff]. *)
Definition parse_hostport (inbuff : Z) (inp : list Z) (defaultPort : Z)
    : option (Z * hostport_type) :=
  let s := ztake 255 (c_str inp) in
  let w := s ++ replicate (256 - length s) 0 in
  let bad := (UPNP_E_INVALID_URL, no_hostport) in
  if rd w 0 =? $"[" then
    let c := 1 + span (fun c => negb (c =? 0) && negb (c =? $"]")) (zdrop 1 w) in
    if rd w c =? 0 then Some bad
    else
      w ← poke w c 0;
      let srvname := c_str (zdrop 1 w) in
      let has_port := rd w (c + 1) =? $":" in
      let c := if has_port then c + 2 else c + 1 in
      Some (finish_hostport inbuff w c srvname AF_INET6 has_port no_addr defaultPort)
  else
    let c := span is_host_char w in
    let dot := last_dot w 0 (Z.to_nat c) None in
    let has_port := rd w c =? $":" in
    w ← poke w c 0;
    let srvname := c_str w in
    let c := if has_port then c + 1 else c in
    let numeric := match dot with Some d => isdigit (rd w (d + 1)) | None => false end in
    if numeric : bool then
      Some (finish_hostport inbuff w c srvname AF_INET has_port no_addr defaultPort)
    else
      match getaddrinfo srvname with
      | None => Some bad
      | Some res =>
          match find usable res with
          | None => Some bad
          | Some a => Some (finish_hostport inbuff w c srvname AF_UNSPEC has_port a
                              defaultPort)
          end
      end.

(** ** URIs *)

(** The authority, if ["//"] follows: status, [begin_path] and host and port. *)
Definition parse_authority (base : Z) (inp : list Z) (max begin_hostport : Z)
    (scheme : token) : option (Z * Z * hostport_type) :=
  slashes ← (if begin_hostport + 1 <? max then
               c0 ← rdt inp begin_hostport;
               if c0 =? $"/" then
                 c1 ← rdt inp (begin_hostport + 1); Some (c1 =? $"/")
               else Some false
             else Some false);
  if slashes : bool then
    let begin_hostport := begin_hostport + 2 in
    let defaultPort :=
      if token_string_casecmp (zdrop (tk_buff scheme - base) inp) scheme (cs "https") =? 0
      then 443 else 80 in
    '(r, hp) ← parse_hostport (base + begin_hostport) (zdrop begin_hostport inp)
                 defaultPort;
    if 0 <=? r then Some (HTTP_SUCCESS, to_int (r + to_int begin_hostport), hp)
    else Some (r, 0, hp)
  else Some (HTTP_SUCCESS, to_int begin_hostport, no_hostport).

(** Path with query, then fragment: tokens, and whether the path starts with
    a slash. *)
Definition parse_path (base : Z) (inp : list Z) (max begin_path : Z)
    : option (token * token * bool) :=
  '(n, pathquery) ← parse_uric base inp begin_path (to_size (max - begin_path));
  let begin_fragment := n + begin_path in
  abs ← (if negb (tk_size pathquery =? 0) then
           c ← rdt inp begin_path; Some (c =? $"/")
         else Some false);
  hash ← (if begin_fragment <? max then
            c ← rdt inp begin_fragment; Some (c =? $"#")
          else Some false);
  fragment ← (if hash : bool then
                '(_, f) ← parse_uric base inp (begin_fragment + 1)
                            (to_size (max - (begin_fragment + 1)));
                Some f
              else Some (MkToken 0 0));
  Some (pathquery, fragment, abs).

(** [inp] is the string at address [base]; the first component is the status. *)
Definition parse_uri (base : Z) (inp : list Z) (max : Z) : option (Z * uri_type) :=
  '(n, scheme) ← parse_scheme base inp max;
  let '(type, path_type, begin_hostport) :=
    if negb (n =? 0) then (ABSOLUTE, OPAQUE_PART, n + 1)
    else (RELATIVE, REL_PATH, 0) in
  let nil := MkToken 0 0 in
  '(status, begin_path, hostport) ←
    parse_authority base inp max begin_hostport scheme;
  if negb (status =? HTTP_SUCCESS) then
    Some (status, MkUri type scheme path_type nil nil hostport)
  else
    '(pathquery, fragment, abs) ← parse_path base inp max begin_path;
    Some (HTTP_SUCCESS,
      MkUri type scheme (if abs : bool then ABS_PATH else path_type) pathquery
        fragment hostport).

(** ** Dot segments *)

Definition is_end_path (c : Z) : bool := (c =? $"?") || (c =? $"#") || (c =? 0).

(** [strncmp(b + i, lit, strlen(lit)) == 0]. *)
Definition starts (l lit : list Z) : bool := strncmp l lit (zlen lit) =? 0.

(** [while (buf < out) if ( *--out == '/') break]. *)
Fixpoint trim_loop (fuel : nat) (b : list Z) (out : Z) : Z :=
  match fuel with
  | O => out
  | S fuel' =>
      if 0 <? out then
        if rd b (out - 1) =? $"/" then out - 1 else trim_loop fuel' b (out - 1)
      else out
  end.

(** [while (go(in)) *out++ = *in++]. *)
Fixpoint copy_loop (fuel : nat) (go : list Z -> Z -> bool) (b : list Z) (i o : Z)
    : option (list Z * Z * Z) :=
  match fuel with
  | O => None
  | S fuel' =>
      if go b i then
        b' ← poke b o (rd b i);
        copy_loop fuel' go b' (i + 1) (o + 1)
      else Some (b, i, o)
  end.

(** One pass of the loop of [remove_dots]: the buffer, [in] and [out]. *)
Definition dots_pass (b : list Z) (i o size : Z) : option (list Z * Z * Z) :=
  let l := zdrop i b in
  if starts l (cs "./") then Some (b, i + 2, o)
  else if starts l (cs "../") then Some (b, i + 3, o)
  else if starts l (cs "/./") then Some (b, i + 2, o)
  else if starts l (cs "/.") && is_end_path (rd b (i + 2)) then
    b ← poke b (i + 1) ($"/"); Some (b, i + 1, o)
  else if starts l (cs "/../")
          || (starts l (cs "/..") && is_end_path (rd b (i + 3))) then
    '(b, i) ← (if is_end_path (rd b (i + 3)) then
                 b ← poke b (i + 2) ($"/"); Some (b, i + 2)
               else Some (b, i + 3));
    Some (b, i, trim_loop (Z.to_nat o) b o)
  else if starts l (cs ".") && is_end_path (rd b (i + 1)) then Some (b, i + 1, o)
  else if starts l (cs "..") && is_end_path (rd b (i + 2)) then Some (b, i + 2, o)
  else
    '(b, i, o) ← (if rd b i =? $"/" then
                    b ← poke b o (rd b i); Some (b, i + 1, o + 1)
                  else Some (b, i, o));
    copy_loop (S (Z.to_nat (size - i)))
      (fun b i => (i <? size) && negb (rd b i =? $"/") && negb (is_end_path (rd b i)))
      b i o.

Fixpoint dots_loop (fuel : nat) (b : list Z) (i o size : Z) : M (list Z * Z * Z) :=
  match fuel with
  | O => running
  | S fuel' =>
      if is_end_path (rd b i) then mret (b, i, o)
      else
        _ ← assertM ((0 <=? o) && (o <=? i) && (i <? size));
        '(b, i, o) ← liftO (dots_pass b i o size);
        dots_loop fuel' b i o size
  end.

(** [b] are the [size] characters of the buffer; a NUL follows them. *)
Definition remove_dots (b : list Z) (size : Z) : M (Z * list Z) :=
  '(b, i, o) ← dots_loop (S (Z.to_nat size)) b 0 0 size;
  '(b, i, o) ← liftO (copy_loop (S (Z.to_nat (size - i))) (fun _ i => i <? size) b i o);
  b ← liftO (if o <? size then poke b o 0 else Some b);
  mret (UPNP_E_SUCCESS, b).

(** ** Resolution *)

(** [snprintf(out_finger, len, ...)] of the text [piece], and the check. *)
Definition emit (acc : list Z) (len : Z) (piece : list Z) : option (list Z * Z) :=
  if to_int len <=? zlen piece then None
  else Some (acc ++ piece, len - zlen piece).

(** The text ["%.*s"] prints for a token of the string [s] at [base]. *)
Definition token_text (s : list Z) (base : Z) (t : token) : list Z :=
  c_str (zslice (tk_buff t - base) (tk_size t) s).

(** How much of the base path is kept; [rel0] is the first character of the
    relative path. *)
Fixpoint prefix_loop (bq : list Z) (rel0 i prefix : Z) : Z :=
  match bq with
  | [] => prefix
  | c :: bq' =>
      if c =? $"/" then prefix_loop bq' rel0 (i + 1) (i + 1)
      else if c =? $"?" then (if rel0 =? $"?" then i else prefix)
      else prefix_loop bq' rel0 (i + 1) prefix
  end.

(** The path of the result, printed behind [len] free bytes. *)
Definition resolve_path (base_s rel_s : list Z) (base rel : uri_type) (len : Z)
    : option (list Z * Z) :=
  let text := token_text in
  match u_path_type rel with
  | ABS_PATH => emit [] len (c_str rel_s)
  | _ =>
      if tk_size (u_pathquery base) =? 0 then emit [] len ($"/" :: c_str rel_s)
      else
        '(acc, len) ←
          (if tk_size (u_pathquery rel) =? 0 then
             emit [] len (text base_s 0 (u_pathquery base))
           else if len <? tk_size (u_pathquery base) then None
           else
             let bq := zslice (tk_buff (u_pathquery base)) (tk_size (u_pathquery base)) base_s in
             let prefix := prefix_loop bq (rd rel_s (tk_buff (u_pathquery rel))) 0 1 in
             emit (ztake prefix bq) (len - prefix) (text rel_s 0 (u_pathquery rel)));
        if 0 <? tk_size (u_fragment rel) then
          emit acc len ($"#" :: text rel_s 0 (u_fragment rel))
        else if 0 <? tk_size (u_fragment base) then
          emit acc len ($"#" :: text base_s 0 (u_fragment base))
        else emit acc len []
  end.

Definition strdup (s : list Z) : M (option (list Z)) :=
  ok ← malloc_ok; mret (if ok : bool then Some (c_str s) else None).

(** [None] is [NULL].  Both strings are taken to be at address 0. *)
Definition resolve_rel_url (base_url rel_url : option (list Z)) : M (option (list Z)) :=
  match base_url, rel_url with
  | None, None => mret None
  | None, Some rel_s => strdup rel_s
  | Some _, None => undefined
  | Some base_s, Some rel_s =>
      let len_rel := strlen rel_s in
      '(rc, rel) ← liftO (parse_uri 0 rel_s len_rel);
      if negb (rc =? HTTP_SUCCESS) then mret None else
      match u_type rel with
      | ABSOLUTE => strdup rel_s
      | RELATIVE =>
          let len_base := strlen base_s in
          '(rc, base) ← liftO (parse_uri 0 base_s len_base);
          if negb (rc =? HTTP_SUCCESS)
             || (match u_type base with ABSOLUTE => false | RELATIVE => true end)
          then mret None
          else if len_rel =? 0 then strdup base_s
          else
            let len := len_base + len_rel + 2 in
            ok ← malloc_ok;
            if negb ok then mret None else
            match emit [] len (token_text base_s 0 (u_scheme base) ++ [$":"]) with
            | None => mret None
            | Some (out, len) =>
                if 0 <? tk_size (hp_text (u_hostport rel)) then
                  mret (fst <$> emit out len (c_str rel_s))
                else
                  match (if 0 <? tk_size (hp_text (u_hostport base)) then
                           emit out len (cs "//" ++ token_text base_s 0
                                                      (hp_text (u_hostport base)))
                         else Some (out, len)) with
                  | None => mret None
                  | Some (out, len) =>
                      match resolve_path base_s rel_s base rel len with
                      | None => mret None
                      | Some (path, _) =>
                          '(_, path) ← remove_dots path (zlen path);
                          mret (Some (out ++ c_str path))
                      end
                  end
            end
      end
  end.
End Resolver.


(** ** Escapes: lemmas *)

(** The reference decoder: one pass over the text. *)
Definition escape_value (c1 c2 : Z) : Z := schar (default 0 (scan_2x c1 c2)).

Fixpoint decode (l : list Z) : list Z :=
  match l with
  | [] => []
  | c :: l1 =>
      match l1 with
      | c1 :: c2 :: l2 =>
          if (c =? $"%") && isxdigit c1 && isxdigit c2
          then escape_value c1 c2 :: decode l2
          else c :: decode l1
      | _ => c :: decode l1
      end
  end.

Lemma decode_cons c l1 :
  decode (c :: l1) =
  match l1 with
  | c1 :: c2 :: l2 =>
      if (c =? $"%") && isxdigit c1 && isxdigit c2
      then escape_value c1 c2 :: decode l2 else c :: decode l1
  | _ => c :: decode l1
  end.
Proof. done. Qed.

Lemma peek_app_at (a b : list Z) i x : i = zlen a -> peek (a ++ x :: b) i = Some x.
Proof.
  intros ->. unfold peek, zlen. rewrite (proj2 (Z.leb_le _ _)) by lia.
  rewrite Nat2Z.id, lookup_app_r by lia. by rewrite Nat.sub_diag.
Qed.

Lemma poke_app_at (a b : list Z) i x v :
  i = zlen a -> poke (a ++ x :: b) i v = Some (a ++ v :: b).
Proof. intros ->. apply (mem_write_app a [x] b _ [v]); done. Qed.

Lemma shift_loop_spec r a x y z t tail i j max fuel :
  j = zlen a -> i = j + 3 -> max = j + 3 + zlen r -> (length r + 3 < fuel)%nat ->
  shift_loop fuel (a ++ x :: y :: z :: r ++ tail) i j max t
  = Some (a ++ t :: r ++ 0 :: 0 :: tail).
Proof.
  revert a x y z t i j max fuel. induction r as [|c r IH]; intros a x y z t i j max fuel
    Hj Hi Hm Hf; (destruct fuel as [|fuel]; [lia|]); simpl in Hf; cbn [shift_loop].
  - rewrite zlen_nil in Hm. rewrite (proj2 (Z.ltb_lt j max)) by lia.
    rewrite poke_app_at by done. cbn [mbind option_bind].
    rewrite (proj2 (Z.ltb_ge i max)) by lia. cbn [mbind option_bind].
    destruct fuel as [|fuel]; [lia|]. cbn [shift_loop].
    rewrite (proj2 (Z.ltb_lt (j + 1) max)) by lia.
    rewrite (cons_middle t a), app_assoc, poke_app_at by (rewrite zlen_app; unfold zlen in *; simpl; lia).
    cbn [mbind option_bind]. rewrite (proj2 (Z.ltb_ge (i + 1) max)) by lia.
    cbn [mbind option_bind]. destruct fuel as [|fuel]; [lia|]. cbn [shift_loop].
    rewrite (proj2 (Z.ltb_lt (j + 1 + 1) max)) by lia.
    rewrite (cons_middle 0 (a ++ [t])), (app_assoc (a ++ [t])), poke_app_at
      by (rewrite !zlen_app; unfold zlen in *; simpl; lia).
    cbn [mbind option_bind]. rewrite (proj2 (Z.ltb_ge (i + 1 + 1) max)) by lia.
    cbn [mbind option_bind]. destruct fuel as [|fuel]; [lia|]. cbn [shift_loop].
    rewrite (proj2 (Z.ltb_ge (j + 1 + 1 + 1) max)) by lia.
    by rewrite <- !app_assoc.
  - rewrite zlen_cons in Hm. pose proof (zlen_nonneg r).
    rewrite (proj2 (Z.ltb_lt j max)) by lia.
    rewrite poke_app_at by done. cbn [mbind option_bind].
    rewrite (proj2 (Z.ltb_lt i max)) by lia.
    replace (a ++ t :: y :: z :: (c :: r) ++ tail)
      with ((a ++ [t; y; z]) ++ c :: r ++ tail) by (by rewrite <- app_assoc).
    rewrite peek_app_at by (rewrite zlen_app; unfold zlen in *; simpl; lia).
    cbn [mbind option_bind].
    replace ((a ++ [t; y; z]) ++ c :: r ++ tail)
      with ((a ++ [t]) ++ y :: z :: c :: r ++ tail) by (by rewrite <- !app_assoc).
    rewrite IH; [by rewrite <- app_assoc|..]; rewrite ?zlen_app; unfold zlen in *; simpl; lia.
Qed.

Lemma isxdigit_val c : isxdigit c = true -> exists d, digit_val c = Some d.
Proof.
  unfold digit_val. intros H. destruct (isdigit c) eqn:E1; [eauto|].
  destruct (isupper c) eqn:E2; [eauto|]. destruct (islower c) eqn:E3; [eauto|].
  unfold isxdigit, isdigit, isupper, islower in *. lia.
Qed.

(** One step of the loop: [d] is decoded, [c :: r] is left, [z] follows. *)
Lemma replace_escaped_spec d c r z :
  zlen d + 1 + zlen r <= SIZE_MAX ->
  replace_escaped (d ++ c :: r ++ 0 :: z) (zlen d) (zlen d + 1 + zlen r)
  = match r with
    | c1 :: c2 :: r2 =>
        if (c =? $"%") && isxdigit c1 && isxdigit c2 then
          Some (1, d ++ escape_value c1 c2 :: r2 ++ 0 :: 0 :: 0 :: z,
                zlen d + 1 + zlen r2)
        else Some (0, d ++ c :: r ++ 0 :: z, zlen d + 1 + zlen r)
    | _ => Some (0, d ++ c :: r ++ 0 :: z, zlen d + 1 + zlen r)
    end.
Proof.
  intros Hmax. unfold replace_escaped. rewrite (peek_app_at d _ (zlen d)) by done.
  cbn [mbind option_bind]. pose proof (zlen_nonneg d).
  assert (forall l m x, peek (d ++ c :: l ++ x :: m) (zlen d + 1 + zlen l) = Some x) as Hpk.
  { intros l m x. pose proof (peek_app_at (d ++ c :: l) m (zlen d + 1 + zlen l) x) as Hp.
    rewrite <- app_assoc in Hp. apply Hp. rewrite zlen_app, zlen_cons. lia. }
  destruct (c =? $"%"); [|by destruct r as [|? [|]]].
  destruct r as [|c1 r].
  { pose proof (Hpk [] z 0) as H1.
  replace (zlen d + 1 + zlen []) with (zlen d + 1) in H1 by (rewrite zlen_nil; lia).
    simpl in H1 |- *. by rewrite H1. }
  pose proof (Hpk [] (r ++ 0 :: z) c1) as H1.
  replace (zlen d + 1 + zlen []) with (zlen d + 1) in H1 by (rewrite zlen_nil; lia).
  cbn [app] in H1 |- *. rewrite H1. cbn [mbind option_bind].
  destruct (isxdigit c1) eqn:E1; [|by destruct r].
  destruct r as [|c2 r2].
  { pose proof (Hpk [c1] z 0) as H2. replace (zlen d + 2) with (zlen d + 1 + zlen [c1]) by (unfold zlen; simpl; lia).
    cbn [app] in H2 |- *. by rewrite H2. }
  pose proof (Hpk [c1] (r2 ++ 0 :: z) c2) as H2.
  replace (zlen d + 2) with (zlen d + 1 + zlen [c1]) by (unfold zlen; simpl; lia). cbn [app] in H2 |- *.
  rewrite H2. cbn [mbind option_bind]. destruct (isxdigit c2) eqn:E2; [|done].
  destruct (isxdigit_val _ E1) as [d1 D1]. destruct (isxdigit_val _ E2) as [d2 D2].
  unfold escape_value, scan_2x. rewrite D1, D2. cbn [mbind option_bind default from_option].
  rewrite !zlen_cons in *. pose proof (zlen_nonneg r2).
  rewrite (shift_loop_spec r2 d c c1 c2 _ (0 :: z) (zlen d + 3) (zlen d)); try lia.
  - cbn [mbind option_bind]. rewrite to_size_small by lia. do 2 f_equal. lia.
  - unfold zlen. lia.
Qed.

Lemma remove_escaped_loop_spec n r d z fuel :
  (length r <= n)%nat -> (length r < fuel)%nat -> zlen d + zlen r <= SIZE_MAX ->
  exists k, remove_escaped_loop fuel (d ++ r ++ 0 :: z) (zlen d) (zlen d + zlen r)
    = Some (d ++ decode r ++ replicate k 0 ++ 0 :: z, zlen d + zlen (decode r)) /\
    zlen r = zlen (decode r) + Z.of_nat k.
Proof.
  revert r d z fuel. induction n as [|n IH]; intros r d z fuel Hn Hf Hmax;
    (destruct fuel as [|fuel]; [lia|]); (destruct r as [|c r]; [|simpl in Hn; try lia]);
    cbn [remove_escaped_loop].
  1, 2: rewrite (proj2 (Z.ltb_ge _ _)) by (rewrite zlen_nil; lia); by exists 0%nat.
  rewrite zlen_cons in *. pose proof (zlen_nonneg r). simpl in Hf.
  rewrite (proj2 (Z.ltb_lt _ _)) by lia. rewrite Z.add_assoc. cbn [app].
  rewrite replace_escaped_spec by lia.
  assert (forall v l z', (length l <= n)%nat -> (length l < fuel)%nat -> zlen l <= zlen r ->
    exists k, remove_escaped_loop fuel (d ++ v :: l ++ 0 :: z') (zlen d + 1) (zlen d + 1 + zlen l)
      = Some (d ++ (v :: decode l) ++ replicate k 0 ++ 0 :: z', zlen d + zlen (v :: decode l)) /\
      zlen l = zlen (decode l) + Z.of_nat k) as IH'.
  { intros v l z' H1 H2 H3. destruct (IH l (d ++ [v]) z' fuel H1 H2) as (k & E & Hk);
      [rewrite zlen_app, zlen_cons, zlen_nil; lia|].
    exists k. split; [|done].
    replace (zlen (d ++ [v])) with (zlen d + 1) in E
      by (rewrite zlen_app, zlen_cons, zlen_nil; lia).
    rewrite <- !app_assoc in E. cbn [app] in E. rewrite E, zlen_cons. cbn [app].
    do 2 f_equal. lia. }
  destruct r as [|c1 [|c2 r2]].
  - cbn [mbind option_bind]. destruct (IH' c [] z) as (k & E & Hk); [simpl; lia..|].
    exists k. split; [exact E|]. simpl in *. unfold zlen in *. simpl in *. lia.
  - cbn [mbind option_bind]. destruct (IH' c [c1] z) as (k & E & Hk); [simpl in *; lia..|].
    exists k. split; [exact E|]. simpl in *. unfold zlen in *. simpl in *. lia.
  - rewrite decode_cons. destruct ((c =? $"%") && isxdigit c1 && isxdigit c2).
    + cbn [mbind option_bind].
      destruct (IH' (escape_value c1 c2) r2 (0 :: 0 :: z)) as (k & E & Hk);
        [simpl in *; unfold zlen in *; simpl in *; lia..|].
      exists (k + 2)%nat. rewrite E. split.
      * rewrite replicate_add. do 3 f_equal. by rewrite <- app_assoc.
      * rewrite !zlen_cons. lia.
    + cbn [mbind option_bind]. destruct (IH' c (c1 :: c2 :: r2) z) as (k & E & Hk);
        [simpl in *; lia..|].
      exists k. split; [exact E|]. rewrite (zlen_cons c). lia.
Qed.

(** ** Properties of the decoder *)

(** [remove_escaped_chars] decodes every ["%XX"] of the text once, in
    place and in one pass (what a decoded character starts is not decoded
    again), shortens the size accordingly and fills the rest with NULs; it
    never writes behind the text. *)
Theorem remove_escaped_chars_correct s z :
  zlen s <= SIZE_MAX ->
  exists k, remove_escaped_chars (s ++ 0 :: z) (zlen s)
    = Some (UPNP_E_SUCCESS, decode s ++ replicate k 0 ++ 0 :: z, zlen (decode s)) /\
    zlen s = zlen (decode s) + Z.of_nat k.
Proof.
  intros Hs. destruct (remove_escaped_loop_spec (length s) s [] z (S (Z.to_nat (zlen s))))
    as (k & E & Hk); [lia|unfold zlen; lia|rewrite zlen_nil; lia|].
  exists k. split; [|done]. unfold remove_escaped_chars.
  change (zlen (@nil Z)) with 0 in E. rewrite !Z.add_0_l in E. cbn [app] in E. by rewrite E.
Qed.

Lemma remove_escaped_chars_correct_witness :
  exists k, remove_escaped_chars (cs "a%2541 %41%4" ++ [0; 9]) 12
    = Some (UPNP_E_SUCCESS, cs "a%41 A%4" ++ replicate k 0 ++ [0; 9], 8).
Proof.
  destruct (remove_escaped_chars_correct (cs "a%2541 %41%4") [9]) as (k & E & Hk).
  - vm_compute. discriminate.
  - exists k. exact E.
Defined.

(** ** Dot segments: reference definitions *)

(** The output without its last segment and the slash in front of it. *)
Definition drop_last (out : list Z) : list Z :=
  snd (foldl (fun '(seg, kept) c =>
                if c =? $"/" then ([c], kept ++ seg) else (seg ++ [c], kept))
         ([], []) out).

Fixpoint until_slash (l : list Z) : list Z * list Z :=
  match l with
  | [] => ([], [])
  | c :: l' =>
      if c =? $"/" then ([], l) else let '(a, r) := until_slash l' in (c :: a, r)
  end.

Definition first_segment (inp : list Z) : list Z * list Z :=
  match inp with
  | [] => ([], [])
  | c :: l =>
      if c =? $"/" then let '(a, r) := until_slash l in (c :: a, r)
      else until_slash inp
  end.

(** One step of the algorithm of RFC 3986, section 5.2.4: output and input
    buffer. *)
Definition rds_step (out inp : list Z) : list Z * list Z :=
  if is_prefix (cs "./") inp then (out, zdrop 2 inp)
  else if is_prefix (cs "../") inp then (out, zdrop 3 inp)
  else if is_prefix (cs "/./") inp then (out, zdrop 2 inp)
  else if bool_decide (inp = cs "/.") then (out, cs "/")
  else if is_prefix (cs "/../") inp then (drop_last out, zdrop 3 inp)
  else if bool_decide (inp = cs "/..") then (drop_last out, cs "/")
  else if bool_decide (inp = cs ".") || bool_decide (inp = cs "..") then (out, [])
  else let '(a, r) := first_segment inp in (out ++ a, r).

Fixpoint rds_loop (fuel : nat) (out inp : list Z) : list Z :=
  match fuel, inp with
  | S fuel', _ :: _ => let '(out, inp) := rds_step out inp in rds_loop fuel' out inp
  | _, _ => out
  end.
Definition remove_dot_segments (path : list Z) : list Z :=
  rds_loop (length path) [] path.

(** ** Dot segments: lemmas *)

Definition is_char (c : Z) : Prop := -128 <= c < 128.
Definition no_end (c : Z) : Prop := is_end_path c = false.
Definition no_slash (c : Z) : Prop := c <> $"/".

(** What follows the path: the query, the fragment, or nothing. *)
Definition tail_ok (t : list Z) : Prop :=
  match t with [] => True | c :: _ => is_end_path c = true end.

Lemma is_end_path_0 : is_end_path 0 = true.
Proof. done. Qed.

Lemma rd_at a x b i : i = zlen a -> rd (a ++ x :: b) i = x.
Proof. intros ->. rewrite rd_app_r, Z.sub_diag by lia. done. Qed.

Lemma schar_eq x y : is_char x -> is_char y -> uchar x = uchar y -> x = y.
Proof.
  unfold is_char, uchar, wrapU. change (2 ^ 8) with 256. intros Hx Hy H.
  Z.to_euclidean_division_equations. lia.
Qed.

Lemma starts_prefix lit l :
  Forall is_char l -> Forall (fun c => is_char c /\ c <> 0) lit ->
  starts l lit = is_prefix lit l.
Proof.
  unfold starts, strncmp, zlen. rewrite Nat2Z.id. intros Hl Hlit. revert l Hl.
  induction Hlit as [|x lit [Hx Hx0] _ IH]; intros l Hl; simpl; [by destruct l|].
  destruct Hl as [|y l Hy Hl]; simpl.
  - destruct (Z.eqb_spec 0 x); [done|]. apply Z.eqb_neq. intros E. apply Hx0.
    change (match x with 0 => true | _ => false end) with (0 =? x) in E.
    rewrite (proj2 (Z.eqb_neq 0 x)) in E by done. apply schar_eq; [done|done|]. lia.
  - rewrite (Z.eqb_sym y x). destruct (Z.eqb_spec x y) as [->|Hxy].
    + destruct (Z.eqb_spec y 0); [done|]. by apply IH.
    + apply Z.eqb_neq. intros E. apply Hxy. apply schar_eq; [done..|]. lia.
Qed.

Lemma is_prefix_tail lit inp t :
  Forall no_end lit -> tail_ok t -> is_prefix lit (inp ++ t) = is_prefix lit inp.
Proof.
  intros Hlit Ht. revert inp. induction Hlit as [|x lit Hx _ IH]; intros [|y inp]; simpl.
  - done.
  - done.
  - destruct t as [|z t]; [done|]. simpl in Ht.
    destruct (Z.eqb_spec x z) as [->|]; [|done]. unfold no_end in Hx. congruence.
  - by rewrite IH.
Qed.

(** The test for a terminating literal. *)
Lemma ends_at lit inp t :
  Forall no_end inp -> tail_ok t ->
  is_prefix lit inp && is_end_path (rd (inp ++ t) (zlen lit)) = bool_decide (inp = lit).
Proof.
  intros Hi Ht. destruct (is_prefix lit inp) eqn:E; simpl.
  - apply is_prefix_spec in E as [k ->]. rewrite <- app_assoc, rd_app_r, Z.sub_diag by lia.
    destruct k as [|c k]; simpl.
    + rewrite app_nil_r. rewrite bool_decide_true by done.
      destruct t; [done|exact Ht].
    + rewrite rd_cons_0. apply Forall_app in Hi as [_ Hk]. apply Forall_cons_1 in Hk as [Hc _].
      rewrite Hc. rewrite bool_decide_false; [done|]. intros H.
      apply (f_equal length) in H. rewrite length_app in H. simpl in H. lia.
  - symmetry. apply bool_decide_eq_false_2. intros ->.
    assert (is_prefix lit lit = true); [|congruence].
    apply is_prefix_spec. exists []. by rewrite app_nil_r.
Qed.

Lemma until_slash_spec l a r :
  until_slash l = (a, r) ->
  l = a ++ r /\ Forall no_slash a /\ (r = [] \/ exists r', r = $"/" :: r').
Proof.
  revert a r. induction l as [|c l IH]; intros a r; simpl.
  - intros [= <- <-]. auto.
  - destruct (Z.eqb_spec c 47) as [->|Hc].
    + intros [= <- <-]. split; [done|]. split; [constructor|]. right. eauto.
    + destruct (until_slash l) as [a' r'] eqn:E. intros [= <- <-].
      destruct (IH _ _ eq_refl) as (-> & Ha & Hr). split; [done|]. split; [|done].
      by constructor.
Qed.

Lemma foldl_no_slash s seg kept :
  Forall no_slash s ->
  foldl (fun '(seg, kept) c => if c =? 47 then ([c], kept ++ seg) else (seg ++ [c], kept))
    (seg, kept) s = (seg ++ s, kept).
Proof.
  intros Hs. revert seg. induction Hs as [|c s Hc _ IH]; intros seg; simpl.
  - by rewrite app_nil_r.
  - destruct (Z.eqb_spec c 47); [done|]. by rewrite IH, <- app_assoc.
Qed.

Lemma drop_last_no_slash s : Forall no_slash s -> drop_last s = [].
Proof. intros Hs. unfold drop_last. by rewrite foldl_no_slash. Qed.

Lemma foldl_split p seg kept a k :
  foldl (fun '(seg, kept) c => if c =? 47 then ([c], kept ++ seg) else (seg ++ [c], kept))
    (seg, kept) p = (a, k) -> k ++ a = kept ++ seg ++ p.
Proof.
  revert seg kept. induction p as [|c p IH]; intros seg kept; simpl.
  - intros [= <- <-]. by rewrite app_nil_r.
  - destruct (c =? 47); intros H; apply IH in H; rewrite H; by rewrite <- ?app_assoc.
Qed.

Lemma drop_last_app p s :
  Forall no_slash s -> drop_last (p ++ $"/" :: s) = p.
Proof.
  intros Hs. unfold drop_last. rewrite foldl_app.
  destruct (foldl _ ([], []) p) as [a k] eqn:E. simpl. rewrite foldl_no_slash by done. simpl.
  by rewrite (foldl_split p [] [] a k E).
Qed.

Lemma slash_cases l :
  Forall no_slash l \/ exists p s, l = p ++ $"/" :: s /\ Forall no_slash s.
Proof.
  induction l as [|c l IH] using rev_ind; [by left|].
  destruct (decide (c = 47)) as [->|Hc].
  - right. exists l, []. auto.
  - destruct IH as [H|(p & s & -> & Hs)].
    + left. apply Forall_app; auto.
    + right. exists p, (s ++ [c]). rewrite <- app_assoc. split; [done|].
      apply Forall_app; auto.
Qed.

Lemma trim_loop_skip p s x fuel :
  Forall no_slash s ->
  trim_loop (length s + fuel) (p ++ s ++ x) (zlen (p ++ s))
  = trim_loop fuel (p ++ s ++ x) (zlen p).
Proof.
  intros Hs. revert x. induction s as [|c s IH] using rev_ind; intros x;
    [by rewrite app_nil_r|].
  apply Forall_app in Hs as [Hs Hc]. apply Forall_cons_1 in Hc as [Hc _].
  pose proof (zlen_nonneg p). pose proof (zlen_nonneg s).
  replace (length (s ++ [c]) + fuel)%nat with (S (length s + fuel))
    by (rewrite length_app; simpl; lia).
  cbn [trim_loop]. rewrite (proj2 (Z.ltb_lt _ _)) by solve_zlen.
  replace (zlen (p ++ s ++ [c]) - 1) with (zlen (p ++ s))
    by solve_zlen.
  rewrite <- (app_assoc s [c] x). cbn [app].
  rewrite (app_assoc p s (c :: x)) at 1. rewrite rd_at by done.
  destruct (Z.eqb_spec c 47); [done|]. by apply IH.
Qed.

Lemma trim_loop_spec out x :
  trim_loop (length out) (out ++ x) (zlen out) = zlen (drop_last out).
Proof.
  destruct (slash_cases out) as [Hs|(p & s & -> & Hs)].
  - rewrite drop_last_no_slash by done.
    pose proof (trim_loop_skip [] out x 0 Hs) as H. rewrite Nat.add_0_r in H. exact H.
  - rewrite drop_last_app by done. rewrite <- app_assoc, length_app. simpl.
    pose proof (trim_loop_skip (p ++ [47]) s x (length p + 1)) as H.
    rewrite <- !app_assoc in H. simpl in H.
    replace (length p + S (length s))%nat with (length s + (length p + 1))%nat by lia.
    rewrite H by done. pose proof (zlen_nonneg p).
    replace (length p + 1)%nat with (S (length p)) by lia. cbn [trim_loop].
    replace (zlen (p ++ [47])) with (zlen p + 1) by solve_zlen.
    rewrite (proj2 (Z.ltb_lt _ _)) by lia. by rewrite rd_at, Z.add_simpl_r by lia.
Qed.

Lemma drop_last_prefix out : exists r, out = drop_last out ++ r.
Proof.
  destruct (slash_cases out) as [Hs|(p & s & -> & Hs)].
  - rewrite drop_last_no_slash by done. eauto.
  - rewrite drop_last_app by done. eauto.
Qed.

(** Moving the next character over the gap between output and input. *)
Lemma poke_gap out gap x r :
  exists gap', length gap' = length gap /\
  poke (out ++ gap ++ x :: r) (zlen out) x = Some ((out ++ [x]) ++ gap' ++ r).
Proof.
  destruct gap as [|g gap].
  - exists []. split; [done|]. cbn [app]. rewrite poke_app_at by done.
    by rewrite <- app_assoc.
  - exists (gap ++ [x]). split; [rewrite length_app; simpl; lia|]. cbn [app].
    rewrite poke_app_at by done. by rewrite <- !app_assoc.
Qed.

Lemma rd_input out gap inp k :
  0 <= k -> rd (out ++ gap ++ inp) (zlen out + zlen gap + k) = rd inp k.
Proof.
  intros Hk. pose proof (zlen_nonneg gap).
  rewrite !rd_app_r by lia. f_equal. lia.
Qed.

Lemma rd_input_0 out gap inp :
  rd (out ++ gap ++ inp) (zlen out + zlen gap) = rd inp 0.
Proof. pose proof (rd_input out gap inp 0) as H. rewrite Z.add_0_r in H. by apply H. Qed.

Lemma copy_loop_spec go p size a out gap r fuel :
  (forall b i, go b i = (i <? size) && p (rd b i)) ->
  Forall (fun c => p c = true) a ->
  match r with [] => True | c :: _ => p c = false end ->
  size = zlen (out ++ gap ++ a ++ r) -> (length a < fuel)%nat ->
  exists gap', length gap' = length gap /\
  copy_loop fuel go (out ++ gap ++ a ++ r) (zlen out + zlen gap) (zlen out)
  = Some ((out ++ a) ++ gap' ++ r, zlen (out ++ a) + zlen gap', zlen (out ++ a)).
Proof.
  intros Hgo Ha Hr. revert out gap fuel.
  induction Ha as [|c a Hc Ha IH]; intros out gap fuel Hsize Hf;
    (destruct fuel as [|fuel]; [simpl in Hf; lia|]); cbn [copy_loop]; rewrite Hgo.
  - exists gap. split; [done|]. rewrite app_nil_r. cbn [app] in *.
    replace ((_ <? size) && _) with false; [done|]. symmetry. apply andb_false_iff.
    destruct r as [|c r].
    + left. apply Z.ltb_ge. rewrite app_nil_r, zlen_app in Hsize. lia.
    + right. by rewrite rd_input_0.
  - pose proof (zlen_nonneg a). pose proof (zlen_nonneg r).
    replace ((_ <? size) && _) with true.
    2: { symmetry. apply andb_true_iff. split.
         - apply Z.ltb_lt. solve_zlen.
         - by rewrite rd_input_0. }
    rewrite rd_input_0. cbn [app]. rewrite rd_cons_0.
    destruct (poke_gap out gap c (a ++ r)) as (gap' & Hg & ->). cbn [mbind option_bind].
    destruct (IH (out ++ [c]) gap' fuel) as (gap2 & Hg2 & E).
    + rewrite Hsize. solve_zlen.
    + simpl in Hf. lia.
    + exists gap2. split; [congruence|]. rewrite <- (app_assoc out [c] (gap' ++ _)) in E.
      replace (zlen out + zlen gap + 1) with (zlen (out ++ [c]) + zlen gap') by solve_zlen.
      replace (zlen out + 1) with (zlen (out ++ [c])) by solve_zlen.
      rewrite <- (app_assoc out [c] (gap' ++ a ++ r)), E.
      by rewrite <- (app_assoc out [c] a).
Qed.

Lemma lit_ok lit :
  forallb (fun c => (0 <? c) && (c <? 128) && negb (is_end_path c)) lit = true ->
  Forall (fun c => is_char c /\ c <> 0) lit /\ Forall no_end lit.
Proof.
  induction lit as [|c lit IH]; simpl; [by split|]. intros H. zbool.
  destruct IH; [done|]. unfold is_char, no_end. split; constructor; auto; lia.
Qed.

Lemma prefix_inv lit l : is_prefix lit l = true -> exists k, l = lit ++ k.
Proof. apply is_prefix_spec. Qed.

(** Moving the first segment. *)
Lemma segment_copy inp t a r size j out1 gap1 :
  Forall no_end inp -> tail_ok t -> inp = a ++ r -> Forall no_slash a -> (r = [] \/ exists r', r = $"/" :: r') ->
  size = zlen (out1 ++ gap1 ++ a ++ r ++ t) -> j = zlen out1 + zlen gap1 ->
  exists gap', length gap' = length gap1 /\
  copy_loop (S (Z.to_nat (size - j)))
    (fun b i => (i <? size) && negb (rd b i =? $"/") && negb (is_end_path (rd b i)))
    (out1 ++ gap1 ++ a ++ r ++ t) j (zlen out1)
  = Some ((out1 ++ a) ++ gap' ++ r ++ t, zlen (out1 ++ a) + zlen gap', zlen (out1 ++ a)).
Proof.
  intros Hinp Ht Hi Ha Hr Hs ->.
  eapply (copy_loop_spec _ (fun c => negb (c =? 47) && negb (is_end_path c))).
  - intros b' k. by rewrite andb_assoc.
  - rewrite Hi in Hinp. apply Forall_app in Hinp as [He _].
    eapply Forall_impl; [apply Forall_and; split; [exact Ha|exact He]|].
    intros c [H1 H2]. unfold no_slash, no_end in *. cbv beta.
    rewrite H2. destruct (Z.eqb_spec c 47); done.
  - destruct Hr as [->|[r' ->]]; cbn [app]; [|done]. destruct t as [|c t']; [done|].
    simpl in Ht. by rewrite Ht, andb_false_r.
  - done.
  - solve_zlen.
Qed.

(** The inputs the special cases of the algorithm handle. *)
Definition special (inp : list Z) : bool :=
  is_prefix (cs "./") inp || is_prefix (cs "../") inp || is_prefix (cs "/./") inp
  || bool_decide (inp = cs "/.") || is_prefix (cs "/../") inp
  || bool_decide (inp = cs "/..") || bool_decide (inp = cs ".")
  || bool_decide (inp = cs "..").

(** The state of the loop: output, gap, input, tail. *)
Section DotsPass.
Context (out gap inp t : list Z).
Hypothesis Hinp : Forall no_end inp.
Hypothesis Ht : tail_ok t.
Hypothesis Hchar : Forall is_char (inp ++ t).
Let b := out ++ gap ++ inp ++ t.
Let i := zlen out + zlen gap.

Lemma input_starts lit :
  forallb (fun c => (0 <? c) && (c <? 128) && negb (is_end_path c)) lit = true ->
  starts (zdrop i b) lit = is_prefix lit inp.
Proof.
  intros [H1 H2]%lit_ok. unfold b, i. rewrite (app_assoc out gap), zdrop_app_exact
    by (by rewrite zlen_app).
  rewrite starts_prefix by done.
  by apply is_prefix_tail.
Qed.

Lemma input_ends lit n :
  n = zlen lit ->
  is_prefix lit inp && is_end_path (rd b (i + n)) = bool_decide (inp = lit).
Proof.
  intros ->. unfold b, i. rewrite rd_input by apply zlen_nonneg. by apply ends_at.
Qed.

Lemma input_ends_not lit n :
  n = zlen lit -> is_prefix lit inp = true -> inp <> lit ->
  is_end_path (rd b (i + n)) = false.
Proof.
  intros Hn Hp Hl. pose proof (input_ends lit n Hn) as H. rewrite Hp in H. simpl in H.
  rewrite H. by apply bool_decide_eq_false_2.
Qed.

(** The input advances over [a]; the output is cut back to a prefix. *)
Definition pass_result (s : list Z * list Z) (r : list Z * Z * Z) : Prop :=
  exists gap', length (s.1 ++ gap' ++ s.2) = length (out ++ gap ++ inp) /\
  r = (s.1 ++ gap' ++ s.2 ++ t, zlen s.1 + zlen gap', zlen s.1).

Lemma pass_advance a inp' n :
  inp = a ++ inp' -> n = zlen a -> pass_result (out, inp') (b, i + n, zlen out).
Proof.
  intros Hi ->. exists (gap ++ a). unfold b, i. cbn [fst snd]. rewrite Hi. split.
  - by rewrite <- !app_assoc.
  - rewrite <- !app_assoc. f_equal. f_equal. solve_zlen.
Qed.

Lemma pass_trim out1 r inp' b' j :
  out = out1 ++ r -> pass_result (out, inp') (b', j, zlen out) ->
  pass_result (out1, inp') (b', j, zlen out1).
Proof.
  intros Ho (gap' & Hl & [= -> ->]). cbn [fst snd] in *. exists (r ++ gap'). rewrite Ho in *.
  split; cbn [fst snd].
  - by rewrite <- !app_assoc in *.
  - rewrite <- !app_assoc. f_equal. f_equal. solve_zlen.
Qed.

Lemma poke_input k x y inp' :
  inp = x ++ y :: inp' -> k = zlen x ->
  forall v, poke b (i + k) v = Some (out ++ (gap ++ x) ++ v :: inp' ++ t).
Proof.
  intros Hi -> v. unfold b, i. rewrite Hi.
  replace (out ++ gap ++ (x ++ y :: inp') ++ t)
    with ((out ++ gap ++ x) ++ y :: inp' ++ t) by (by rewrite <- !app_assoc).
  rewrite poke_app_at by solve_zlen. by rewrite <- !app_assoc.
Qed.

Lemma trim_out fuel x :
  fuel = length out -> trim_loop fuel (out ++ x) (zlen out) = zlen (drop_last out).
Proof. intros ->. apply trim_loop_spec. Qed.

Lemma pass_poke x y v n :
  inp = x ++ [y] -> n = zlen x ->
  pass_result (out, [v]) (out ++ (gap ++ x) ++ v :: [] ++ t, i + n, zlen out).
Proof.
  intros Hi ->. exists (gap ++ x). unfold i. cbn [fst snd]. rewrite Hi. split.
  - rewrite !length_app. simpl. lia.
  - cbn [app]. f_equal. f_equal. solve_zlen.
Qed.

Lemma dots_pass_literal size :
  inp <> [] ->
  special inp = true ->
  exists r, dots_pass b i (zlen out) size = Some r /\ pass_result (rds_step out inp) r.
Proof.
  unfold special. intros Hne Hlit. unfold dots_pass, rds_step. rewrite !input_starts by reflexivity.
  rewrite !input_ends by reflexivity.
  destruct (is_prefix (cs "./") inp) eqn:E1.
  { apply prefix_inv in E1 as [k Hk]. eexists. split; [done|].
    apply (pass_advance (cs "./")); [by rewrite Hk|done]. }
  destruct (is_prefix (cs "../") inp) eqn:E2.
  { apply prefix_inv in E2 as [k Hk]. eexists. split; [done|].
    apply (pass_advance (cs "../")); [by rewrite Hk|done]. }
  destruct (is_prefix (cs "/./") inp) eqn:E3.
  { apply prefix_inv in E3 as [k Hk]. eexists. split; [done|].
    apply (pass_advance (cs "/.")); [by rewrite Hk|done]. }
  case_bool_decide as E4.
  { rewrite (poke_input 1 [47] 46 [] E4) by done. eexists. split; [done|].
    by apply (pass_poke [47] 46). }
  destruct (drop_last_prefix out) as [q Hq].
  destruct (is_prefix (cs "/../") inp) eqn:E5.
  { apply prefix_inv in E5 as [k Hk]. cbn [orb].
    rewrite (input_ends_not (cs "/..") 3) by (done || rewrite Hk; done).
    cbn [mbind option_bind]. eexists. split; [done|].
    unfold b at 2. rewrite trim_out by solve_zlen.
    apply (pass_trim _ q); [done|]. apply (pass_advance (cs "/..")); [by rewrite Hk|done]. }
  cbn [orb]. case_bool_decide as E6.
  { rewrite (poke_input 2 [47; 46] 46 [] E6) by done.
    assert (is_end_path (rd b (i + 3)) = true) as ->.
    { pose proof (input_ends (cs "/..") 3 eq_refl) as H. rewrite (bool_decide_true _ E6) in H.
      by apply andb_true_iff in H as [_ H]. }
    cbn [mbind option_bind]. eexists. split; [done|].
    rewrite trim_out by solve_zlen.
    apply (pass_trim _ q); [done|]. by apply (pass_poke [47; 46] 46). }
  case_bool_decide as E7; cbn [orb].
  { eexists. split; [done|]. apply (pass_advance (cs ".")); [done|done]. }
  case_bool_decide as E8; [|done].
  eexists. split; [done|]. apply (pass_advance (cs "..")); [done|done].
Qed.

Lemma dots_pass_segment size :
  inp <> [] -> size = zlen b ->
  special inp = false ->
  exists r, dots_pass b i (zlen out) size = Some r /\ pass_result (rds_step out inp) r.
Proof.
  unfold special. intros Hne Hsize Hlit. unfold dots_pass, rds_step.
  rewrite !input_starts by reflexivity. rewrite !input_ends by reflexivity.
  zbool. repeat match goal with H : ?x = false |- context [?x] => rewrite H end. cbn [orb].
  destruct (first_segment inp) as [a r] eqn:Ef. unfold first_segment in Ef.
  unfold b, i in *. rewrite rd_input_0. destruct inp as [|c l] eqn:Hi; [done|].
  cbn [app]. rewrite rd_cons_0. destruct (Z.eqb_spec c 47) as [->|Hc].
  - destruct (until_slash l) as [a' r'] eqn:Eu. injection Ef as <- <-.
    destruct (until_slash_spec _ _ _ Eu) as (Hl & Ha & Hr).
    destruct (poke_gap out gap 47 (l ++ t)) as (g1 & Hg1 & ->). cbn [mbind option_bind].
    assert (Hinp' : Forall no_end l) by (by apply Forall_cons_1 in Hinp as [_ ?]).
    rewrite Hl, <- (app_assoc a').
    destruct (segment_copy l t a' r' size (zlen out + zlen gap + 1) (out ++ [47]) g1)
      as (g2 & Hg2 & E); [done|done|done|done|done|rewrite Hsize, Hl; solve_zlen|solve_zlen|].
    replace (zlen out + 1) with (zlen (out ++ [47])) by solve_zlen.
    rewrite E. eexists. split; [done|]. exists g2. cbn [fst snd].
    rewrite <- (app_assoc out [47] a'). cbn [app]. split; [|done].
    rewrite Hi, Hl. rewrite !length_app. simpl. rewrite !length_app. lia.
  - destruct (until_slash_spec _ _ _ Ef) as (Hl & Ha & Hr). cbn [mbind option_bind].
    change (c :: l ++ t) with ((c :: l) ++ t). rewrite Hl, <- (app_assoc a).
    destruct (segment_copy (c :: l) t a r size (zlen out + zlen gap) out gap)
      as (g2 & Hg2 & E); [done|done|done|done|done|rewrite Hsize; cbn [app]; rewrite app_comm_cons, Hl; solve_zlen|done|].
    rewrite E. eexists. split; [done|]. exists g2. cbn [fst snd]. split; [|done].
    rewrite Hi, Hl. rewrite !length_app. lia.
Qed.

Lemma dots_pass_spec size :
  inp <> [] -> size = zlen b ->
  exists r, dots_pass b i (zlen out) size = Some r /\ pass_result (rds_step out inp) r.
Proof.
  intros Hne Hs. destruct (special inp) eqn:E.
  - by apply dots_pass_literal.
  - by apply dots_pass_segment.
Qed.
End DotsPass.

Lemma drop_last_Forall (P : Z -> Prop) out : Forall P out -> Forall P (drop_last out).
Proof.
  destruct (drop_last_prefix out) as [r Hr]. rewrite Hr at 1. by intros [? _]%Forall_app.
Qed.

Lemma first_segment_spec inp a r :
  inp <> [] -> first_segment inp = (a, r) -> inp = a ++ r /\ (length r < length inp)%nat.
Proof.
  destruct inp as [|c l]; [done|]. intros _. unfold first_segment.
  destruct (Z.eqb_spec c 47) as [->|Hc].
  - destruct (until_slash l) as [a' r'] eqn:E. intros [= <- <-].
    destruct (until_slash_spec _ _ _ E) as (-> & _). split; [done|].
    simpl. rewrite length_app. lia.
  - simpl. destruct (Z.eqb_spec c 47); [done|].
    destruct (until_slash l) as [a' r'] eqn:E. intros [= <- <-].
    destruct (until_slash_spec _ _ _ E) as (-> & _). split; [done|].
    simpl. rewrite length_app. lia.
Qed.

Lemma rds_step_inv out inp out' inp' :
  inp <> [] -> rds_step out inp = (out', inp') ->
  (length inp' < length inp)%nat /\
  (forall P : Z -> Prop, P ($"/") -> Forall P inp ->
     Forall P inp' /\ (Forall P out -> Forall P out')).
Proof.
  intros Hne. unfold rds_step.
  assert (forall n : Z, 0 < n -> (length (zdrop n inp) < length inp)%nat) as Hd.
  { intros n Hn. unfold zdrop. rewrite length_drop. destruct inp; [done|]. simpl. lia. }
  assert (forall (P : Z -> Prop) n, Forall P inp -> Forall P (zdrop n inp)) as Hf
    by (intros P n; apply Forall_drop).
  pose proof (fun P => drop_last_Forall P out).
  repeat case_match; intros [= <- <-]; (split; [|intros P Hs Hi]); auto;
    try (apply Hd; lia).
  all: repeat match goal with
    | H : bool_decide _ = true |- _ => apply bool_decide_eq_true in H as ->
    end; simpl; auto.
  - destruct inp; [done|]. simpl. lia.
  - edestruct first_segment_spec as [_ ?]; eauto.
  - edestruct first_segment_spec as [Hi' _]; [done..|]. rewrite Hi' in Hi.
    apply Forall_app in Hi as [??]. split; [done|]. intros Ho. by apply Forall_app.
Qed.

Lemma dots_loop_spec n out gap inp t size fuel f :
  (length inp <= n)%nat -> (length inp < fuel)%nat -> (length inp <= f)%nat ->
  Forall no_end inp -> Forall no_end out -> tail_ok t -> Forall is_char (inp ++ t) ->
  size = zlen (out ++ gap ++ inp ++ t) ->
  exists gap', let out' := rds_loop f out inp in
  (forall o, dots_loop fuel (out ++ gap ++ inp ++ t) (zlen out + zlen gap) (zlen out) size o
     = Ret (out' ++ gap' ++ t, zlen out' + zlen gap', zlen out') o) /\
  Forall no_end out' /\ zlen (out' ++ gap' ++ t) = size.
Proof.
  revert out gap inp fuel f. induction n as [|n IH]; intros out gap inp fuel f Hn Hf Hf2
    Hinp Hout Ht Hc Hs; (destruct fuel as [|fuel]; [lia|]); cbn [dots_loop];
    (destruct inp as [|c l] eqn:Hi; [|try (simpl in Hn; lia)]).
  1, 2: exists gap; rewrite rd_input_0; cbn [app] in *;
    replace (is_end_path (rd t 0)) with true by (destruct t; [done|by rewrite rd_cons_0]);
    by destruct f.
  rewrite <- Hi in *. rewrite rd_input_0.
  assert (Hne : inp <> []) by (by rewrite Hi).
  replace (is_end_path (rd (inp ++ t) 0)) with false.
  2: { rewrite Hi in *. cbn [app]. rewrite rd_cons_0. by apply Forall_cons_1 in Hinp as [-> _]. }
  unfold assertM at 1. replace (_ && _ && _) with true.
  2: { symmetry. rewrite !andb_true_iff. rewrite Hi in Hs. pose proof (zlen_nonneg t).
       repeat split; zbool; apply Z.leb_le || apply Z.ltb_lt; solve_zlen. }
  destruct (dots_pass_spec out gap inp t Hinp Ht Hc size Hne Hs) as (r & Hr & gap' & Hl & ->).
  destruct (rds_step out inp) as [out1 inp1] eqn:E. cbn [fst snd] in *.
  destruct (rds_step_inv _ _ _ _ Hne E) as [Hlen Hinv].
  destruct (Hinv no_end eq_refl Hinp) as [Hinp1 Hout1].
  apply Forall_app in Hc as [Hc1 Hc2].
  destruct (Hinv is_char ltac:(done) Hc1) as [Hc3 _].
  destruct (IH out1 gap' inp1 fuel (pred f)) as (gap2 & E2 & Hno & Hz);
    [lia|lia|lia|done|auto|done|by apply Forall_app|rewrite Hs; solve_zlen|].
  destruct f as [|f]; [rewrite Hi in Hf2; simpl in Hf2; lia|]. cbn [pred] in *.
  exists gap2. rewrite Hi. cbn [rds_loop]. rewrite <- Hi, E. split; [|done].
  intros o. unfold mbind, M_bind. rewrite Hr. cbn [liftO]. apply E2.
Qed.

Lemma no_end_nonzero l : Forall no_end l -> Forall (fun c => c <> 0) l.
Proof. intros H. eapply Forall_impl; [exact H|]. by intros c Hc ->. Qed.

Lemma remove_dots_spec p t :
  Forall no_end p -> tail_ok t -> Forall is_char (p ++ t) ->
  exists b, (forall o, remove_dots (p ++ t) (zlen (p ++ t)) o = Ret (UPNP_E_SUCCESS, b) o) /\
    zlen b = zlen (p ++ t) /\
    (exists r, b = remove_dot_segments p ++ t ++ r /\ c_str r = []) /\
    Forall no_end (remove_dot_segments p).
Proof.
  intros Hp Ht Hc. pose proof (zlen_nonneg p). pose proof (zlen_nonneg t).
  destruct (dots_loop_spec (length p) [] [] p t (zlen (p ++ t)) (S (Z.to_nat (zlen (p ++ t))))
    (length p)) as (gap & E & Hout & Hz); [lia|solve_zlen|lia|done|constructor|done..|].
  cbn [app] in E. change (zlen [] + zlen []) with 0 in E. change (zlen []) with 0 in E.
  unfold remove_dots, remove_dot_segments in *. set (out := rds_loop _ _ _) in *.
  destruct (copy_loop_spec (fun _ i => i <? zlen (p ++ t)) (fun _ => true) (zlen (p ++ t))
    t out gap [] (S (Z.to_nat (zlen (p ++ t) - (zlen out + zlen gap))))) as (g2 & Hg & E2).
  { intros b i. by rewrite andb_true_r. }
  { by apply Forall_true. }
  { done. }
  { rewrite <- Hz, app_nil_r. done. }
  { rewrite <- Hz. solve_zlen. }
  rewrite !app_nil_r in E2.
  assert (forall o, liftO (if zlen (out ++ t) <? zlen (p ++ t)
    then poke ((out ++ t) ++ g2) (zlen (out ++ t)) 0 else Some ((out ++ t) ++ g2)) o
    = Ret ((out ++ t) ++ match g2 with [] => [] | _ :: g => 0 :: g end) o) as E3.
  { intros o. destruct g2 as [|g g2].
    - rewrite (proj2 (Z.ltb_ge _ _)); [done|]. rewrite <- Hz. solve_zlen.
    - rewrite (proj2 (Z.ltb_lt _ _)); [by rewrite poke_app_at|]. rewrite <- Hz. solve_zlen. }
  exists ((out ++ t) ++ match g2 with [] => [] | _ :: g => 0 :: g end). split; [|split; [|split]].
  - intros o. unfold mbind, M_bind. rewrite E. cbv beta iota. rewrite E2. cbn [liftO].
    cbv beta iota. by rewrite E3.
  - rewrite <- Hz. destruct g2; solve_zlen.
  - eexists. rewrite <- app_assoc. split; [done|]. by destruct g2.
  - done.
Qed.

(** ** Dot segments: whole paths *)

(** The path made of a list of segments, each behind a slash. *)
Definition join (segs : list (list Z)) : list Z := segs ≫= (fun s => $"/" :: s).

(** The segments of the result, on the stack [st]: ["."] stays, [".."] goes
    up; at the end both leave an empty segment. *)
Fixpoint normalize (st segs : list (list Z)) : list (list Z) :=
  match segs with
  | [] => st
  | s :: segs' =>
      let up := if bool_decide (s = cs "..") then take (length st - 1) st else st in
      if bool_decide (s = cs ".") || bool_decide (s = cs "..") then
        match segs' with [] => up ++ [[]] | _ => normalize up segs' end
      else normalize (st ++ [s]) segs'
  end.
Definition dot_free (s : list Z) : Prop := s <> cs "." /\ s <> cs "..".

Lemma join_app a b : join (a ++ b) = join a ++ join b.
Proof. apply bind_app. Qed.

Lemma no_slash_split (s u k1 k2 : list Z) :
  Forall no_slash s -> Forall no_slash u ->
  (k1 = [] \/ exists k, k1 = $"/" :: k) -> (k2 = [] \/ exists k, k2 = $"/" :: k) ->
  s ++ k1 = u ++ k2 -> s = u /\ k1 = k2.
Proof.
  intros Hs. revert u. induction Hs as [|c s Hc _ IH]; intros [|d u] Hu H1 H2 E; simpl in E.
  - done.
  - apply Forall_cons_1 in Hu as [Hd _]. unfold no_slash in Hd.
    destruct H1 as [->|[k ->]]; simplify_eq.
  - destruct H2 as [->|[k ->]]; unfold no_slash in Hc; simplify_eq.
  - injection E as -> E. apply Forall_cons_1 in Hu as [_ Hu].
    by destruct (IH u Hu H1 H2 E) as [-> ->].
Qed.

Lemma join_head segs : join segs = [] \/ exists k, join segs = $"/" :: k.
Proof. destruct segs as [|s segs]; [by left|right]. by eexists. Qed.

Lemma drop_last_join st :
  Forall (Forall no_slash) st -> drop_last (join st) = join (take (length st - 1) st).
Proof.
  intros Hst. destruct st as [|s st _] using rev_ind; [done|].
  apply Forall_app in Hst as [_ Hs]. apply Forall_cons_1 in Hs as [Hs _].
  rewrite length_app, take_app_le by (simpl; lia). simpl.
  rewrite Nat.add_sub, firstn_all, join_app. unfold join at 2. simpl. rewrite app_nil_r.
  by apply drop_last_app.
Qed.

Lemma until_slash_join s segs :
  Forall no_slash s -> until_slash (s ++ join segs) = (s, join segs).
Proof.
  intros Hs. destruct (until_slash (s ++ join segs)) as [a r] eqn:E.
  destruct (until_slash_spec _ _ _ E) as (H & Ha & Hr).
  by destruct (no_slash_split s a (join segs) r Hs Ha (join_head segs) Hr H) as [-> ->].
Qed.

(** A step on an ordinary segment moves it. *)
Lemma rds_step_segment out s segs :
  Forall no_slash s -> dot_free s ->
  rds_step out ($"/" :: s ++ join segs) = (out ++ $"/" :: s, join segs).
Proof.
  intros Hs [H1 H2]. unfold rds_step.
  assert (forall u, Forall no_slash u -> s <> u ->
    is_prefix ($"/" :: u ++ [$"/"]) ($"/" :: s ++ join segs) = false /\
    bool_decide ($"/" :: s ++ join segs = $"/" :: u) = false) as Hu.
  { intros u Hu Hne. split.
    - apply not_true_is_false. intros [k Hk]%is_prefix_spec. injection Hk as Hk.
      rewrite <- app_assoc in Hk. apply Hne.
      by apply (no_slash_split s u (join segs) (47 :: k) Hs Hu (join_head _) ltac:(eauto)).
    - apply bool_decide_eq_false_2. intros Hk. injection Hk as Hk.
      rewrite <- (app_nil_r u) in Hk. apply Hne.
      by apply (no_slash_split s u (join segs) [] Hs Hu (join_head _) ltac:(eauto)). }
  destruct (Hu (cs ".")) as [P1 E1]; [repeat constructor; done|done|].
  destruct (Hu (cs "..")) as [P2 E2]; [repeat constructor; done|done|].
  change (cs "/./") with ($"/" :: cs "." ++ [$"/"]). rewrite P1.
  change (cs "/.") with ($"/" :: cs "."). rewrite E1.
  change (cs "/../") with ($"/" :: cs ".." ++ [$"/"]). rewrite P2.
  change (cs "/..") with ($"/" :: cs ".."). rewrite E2.
  cbn [is_prefix cs]. rewrite !bool_decide_false by done.
  unfold first_segment. rewrite Z.eqb_refl. by rewrite until_slash_join.
Qed.

Lemma rds_loop_join segs st f :
  Forall (Forall no_slash) segs -> Forall (Forall no_slash) st ->
  (length (join segs) <= f)%nat ->
  rds_loop f (join st) (join segs) = join (normalize st segs).
Proof.
  intros Hsegs. revert st f. induction Hsegs as [|s segs Hs Hsegs IH]; intros st f Hst Hf.
  { by destruct f. }
  assert (Forall (Forall no_slash) (take (length st - 1) st)) as Hup by by apply Forall_take.
  change (join (s :: segs)) with (47 :: s ++ join segs) in *.
  simpl in Hf. rewrite length_app in Hf.
  destruct f as [|f]; [lia|]. cbn [rds_loop normalize].
  assert (forall l, Forall (Forall no_slash) l -> (0 < f)%nat -> 
    rds_loop f (join l) [47] = join (l ++ [[]])) as Hlast.
  { intros l _ Hf0. destruct f as [|f]; [lia|]. cbn [rds_loop].
    rewrite (rds_step_segment _ [] [] ltac:(constructor) ltac:(by split)).
    rewrite join_app. by destruct f. }
  destruct (decide (s = cs ".")) as [->|Hd1].
  - rewrite (bool_decide_false (cs "." = cs "..")) by done.
    rewrite (bool_decide_true (cs "." = cs ".")) by done. cbn [orb]. simpl in Hf.
    destruct segs as [|s2 segs].
    + apply Hlast; [done|lia].
    + apply IH; [done|lia].
  - rewrite (bool_decide_false (s = cs ".")) by done. cbn [orb].
    destruct (decide (s = cs "..")) as [->|Hd2].
    + rewrite bool_decide_true by done. simpl in Hf.
      assert (rds_step (join st) (47 :: cs ".." ++ join segs)
        = (join (take (length st - 1) st), match segs with [] => [47] | _ => join segs end)) as ->.
      { rewrite <- drop_last_join by done. by destruct segs. }
      destruct segs as [|s2 segs]; [apply Hlast; [done|lia]|apply IH; [done|lia]].
    + rewrite bool_decide_false by done. rewrite rds_step_segment by done.
      rewrite <- (IH (st ++ [s]) f); [|apply Forall_app; auto|lia].
      rewrite join_app. f_equal. unfold join at 3. simpl. by rewrite app_nil_r.
Qed.

Lemma normalize_dot_free st segs :
  Forall dot_free st -> Forall dot_free (normalize st segs).
Proof.
  revert st. induction segs as [|s segs IH]; intros st Hst; [done|]. cbn [normalize].
  assert (Forall dot_free (if bool_decide (s = cs "..") then take (length st - 1) st else st))
    as Hup by (case_match; [by apply Forall_take|done]).
  destruct (bool_decide (s = cs ".") || bool_decide (s = cs "..")) eqn:E.
  - destruct segs as [|s2 segs]; [|by apply IH].
    apply Forall_app. split; [done|]. repeat constructor; done.
  - apply orb_false_iff in E as [E1%bool_decide_eq_false E2%bool_decide_eq_false].
    apply IH. apply Forall_app. split; [done|]. by repeat constructor.
Qed.

(** ** Properties of dot-segment removal *)

(** C37: [remove_dots] on a path [p] with its query and fragment [t] is the
    "Remove Dot Segments" algorithm of RFC 3986, section 5.2.4, on [p]: it
    terminates, never fails an assertion and never leaves the buffer, keeps
    the buffer's size, and leaves the rewritten path followed by [t]. *)
Theorem remove_dots_correct p t :
  Forall no_end p -> tail_ok t -> Forall is_char (p ++ t) ->
  runs Total (remove_dots (p ++ t) (zlen (p ++ t))) (fun '(rc, b) =>
    rc = UPNP_E_SUCCESS /\ zlen b = zlen (p ++ t) /\
    c_str b = remove_dot_segments p ++ c_str t).
Proof.
  intros Hp Ht Hc. destruct (remove_dots_spec p t Hp Ht Hc) as (b & E & Hz & (r & -> & Hr) & Hn).
  intros o _. rewrite E. split; [|done]. split; [done|]. split; [done|].
  rewrite c_str_app by (by apply no_end_nonzero). f_equal.
  clear - Hr. induction t as [|c t IH]; [done|]. simpl. by rewrite IH.
Qed.

(** On an absolute path made of the segments [segs], [remove_dots] leaves
    the path of the normalised segments: no segment of the result is ["."] or
    [".."], and the result never climbs above the root. *)
Theorem remove_dots_absolute segs t :
  Forall (Forall no_slash) segs -> Forall no_end (join segs) -> tail_ok t ->
  Forall is_char (join segs ++ t) ->
  Forall dot_free (normalize [] segs) /\
  runs Total (remove_dots (join segs ++ t) (zlen (join segs ++ t))) (fun '(rc, b) =>
    rc = UPNP_E_SUCCESS /\ c_str b = join (normalize [] segs) ++ c_str t).
Proof.
  intros Hs Hp Ht Hc. split; [by apply normalize_dot_free|].
  destruct (remove_dots_spec _ t Hp Ht Hc) as (b & E & _ & (r & -> & Hr) & Hn).
  intros o _. rewrite E. split; [|done]. split; [done|].
  rewrite c_str_app by (by apply no_end_nonzero).
  unfold remove_dot_segments. change (@nil Z) with (join []) at 1.
  rewrite rds_loop_join by (done || constructor). f_equal.
  clear - Hr. induction t as [|c t IH]; [done|]. simpl. by rewrite IH.
Qed.

Lemma remove_dots_correct_witness :
  runs Total (remove_dots (cs "mid/content=5/../6" ++ cs "?a/../b") 25) (fun '(rc, b) =>
    rc = UPNP_E_SUCCESS /\ zlen b = 25 /\
    c_str b = remove_dot_segments (cs "mid/content=5/../6") ++ cs "?a/../b").
Proof.
  apply (remove_dots_correct (cs "mid/content=5/../6") (cs "?a/../b"));
    [repeat constructor|done|repeat constructor; done].
Defined.

Lemma remove_dots_absolute_witness :
  Forall dot_free (normalize [] [cs "a"; cs "b"; cs ".."; cs "c"; cs "."]) /\
  runs Total (remove_dots (cs "/a/b/../c/." ++ cs "#f") 13) (fun '(rc, b) =>
    rc = UPNP_E_SUCCESS /\ c_str b = cs "/a/c/" ++ cs "#f").
Proof.
  apply (remove_dots_absolute [cs "a"; cs "b"; cs ".."; cs "c"; cs "."] (cs "#f"));
    [repeat constructor; done|repeat constructor|done|repeat constructor; done].
Defined.

(** ** Parsing: lemmas *)

Lemma span_nonneg p l : 0 <= span p l.
Proof. induction l as [|c l IH]; simpl; [lia|]. destruct (p c); lia. Qed.

(** [span] stops where the class ends. *)
Lemma span_bound p l n :
  0 <= n -> (forall j, n <= j -> p (rd l j) = false) -> span p l <= n.
Proof.
  revert n. induction l as [|c l IH]; intros n Hn Hp; simpl; [lia|].
  destruct (p c) eqn:E; [|lia]. destruct (decide (n = 0)) as [->|Hn0].
  - specialize (Hp 0 ltac:(lia)). rewrite rd_cons_0 in Hp. congruence.
  - assert (span p l <= n - 1); [|lia]. apply IH; [lia|]. intros j Hj.
    specialize (Hp (j + 1) ltac:(lia)). rewrite rd_cons_S in Hp by lia.
    by rewrite Z.add_simpl_r in Hp.
Qed.

Lemma poke_Some b i v : 0 <= i < zlen b -> poke b i v = Some (ztake i b ++ v :: zdrop (i + 1) b).
Proof.
  intros H. unfold poke. rewrite mem_write_Some; [done|lia|].
  rewrite zlen_cons, zlen_nil. lia.
Qed.

Lemma rd_poke b i v b' j :
  0 <= i < zlen b -> poke b i v = Some b' -> rd b' j = if j =? i then v else rd b j.
Proof.
  intros H. rewrite poke_Some by done. intros [= <-].
  assert (zlen (ztake i b) = i) as Hz by (apply zlen_ztake; lia).
  destruct (Z.eqb_spec j i) as [->|Hj]; [by rewrite rd_at|].
  destruct (Z.lt_ge_cases j i).
  - rewrite rd_app_l by lia. by apply rd_ztake.
  - rewrite rd_app_r, Hz, rd_cons_S, rd_zdrop by lia. f_equal. lia.
Qed.

Lemma is_digit_0 : isdigit 0 = false. Proof. done. Qed.
Lemma is_host_char_0 : is_host_char 0 = false. Proof. done. Qed.

Section HostPort.
Context (getaddrinfo : list Z -> option (list sockaddr))
  (inet_pton : Z -> list Z -> option (list Z)) (gIF_INDEX : Z).
Abbreviation finish := (finish_hostport inet_pton gIF_INDEX).
Abbreviation hostport := (parse_hostport getaddrinfo inet_pton gIF_INDEX).

(** The work buffer: at most 255 characters, then NULs. *)
Definition work_ok (n : Z) (w : list Z) : Prop :=
  zlen w = 256 /\ 0 <= n <= 255 /\ forall j, n <= j -> rd w j = 0.

Lemma work_poke n w c w' :
  work_ok n w -> 0 <= c <= n -> poke w c 0 = Some w' -> work_ok n w'.
Proof.
  intros (Hl & Hn & Hz) Hc Hp. split; [by rewrite (mem_write_zlen _ _ _ _ Hp)|].
  split; [done|]. intros j Hj. rewrite (rd_poke w c 0 w' j) by (done || lia).
  case_match; [done|]. by apply Hz.
Qed.

Lemma finish_spec inbuff n w c srvname af has_port addr port r hp :
  work_ok n w -> 0 <= c <= n ->
  finish inbuff w c srvname af has_port addr port = (r, hp) ->
  0 <= r -> r <= n /\ hp_text hp = MkToken inbuff r.
Proof.
  intros (Hl & Hn & Hz) Hc. unfold finish_hostport.
  set (c' := if has_port then c + _ else c). assert (0 <= c' <= n) as Hc'.
  { unfold c'. destruct has_port; [|lia]. pose proof (span_nonneg isdigit (zdrop c w)).
    assert (span isdigit (zdrop c w) <= n - c); [|lia].
    apply span_bound; [lia|]. intros j Hj. rewrite rd_zdrop by lia.
    rewrite Hz by lia. apply is_digit_0. }
  destruct (has_port && _); [by intros [= <- <-]|].
  destruct (if af =? AF_INET then _ else _); [|by intros [= <- <-]].
  intros [= <- <-] _. rewrite to_int_small by (unfold INT_MAX; lia).
  split; [lia|done].
Qed.

Lemma parse_hostport_spec inbuff inp port :
  exists r hp, hostport inbuff inp port = Some (r, hp) /\
    (0 <= r -> r <= zlen inp /\ hp_text hp = MkToken inbuff r).
Proof.
  unfold parse_hostport.
  set (s := ztake 255 (c_str inp)). set (w := s ++ _). pose proof (zlen_nonneg s).
  assert (zlen s <= zlen inp /\ zlen s <= 255) as [Hs1 Hs2].
  { pose proof (zlen_c_str inp). unfold s, ztake, zlen in *. rewrite length_take. lia. }
  assert (work_ok (zlen s) w) as Hw.
  { split; [unfold w, zlen in *; rewrite length_app, length_replicate; lia|].
    split; [lia|]. intros j Hj. unfold w. rewrite rd_app_r by done. unfold rd.
    destruct (_ <? 0) eqn:?; [done|]. zbool.
    destruct (_ !! _) as [x|] eqn:E; [|done]. simpl.
    by apply lookup_replicate in E as [-> _]. }
  assert (Hbad : forall hp, exists r h, Some (UPNP_E_INVALID_URL, hp) = Some (r, h) /\
    (0 <= r -> r <= zlen inp /\ hp_text h = MkToken inbuff r)).
  { intros hp. do 2 eexists. split; [done|]. done. }
  assert (Hfin : forall w' c srv af hasp addr, work_ok (zlen s) w' -> 0 <= c <= zlen s ->
    exists r h, Some (finish inbuff w' c srv af hasp addr port) = Some (r, h) /\
      (0 <= r -> r <= zlen inp /\ hp_text h = MkToken inbuff r)).
  { intros w' c srv af hasp addr H1 H2. destruct (finish _ _ _ _ _ _ _ _) as [r h] eqn:E.
    exists r, h. split; [done|]. intros Hr.
    destruct (finish_spec _ _ _ _ _ _ _ _ _ _ _ H1 H2 E Hr). split; [lia|done]. }
  destruct (rd w 0 =? $"[") eqn:E0.
  - set (c := 1 + span _ _). destruct (Z.eqb_spec (rd w c) 0) as [|Hc0]; [apply Hbad|].
    assert (1 <= c < zlen s) as Hc.
    { pose proof (span_nonneg (fun c => negb (c =? 0) && negb (c =? 93)) (zdrop 1 w)).
      split; [unfold c; lia|]. destruct (Z.lt_ge_cases c (zlen s)); [done|].
      destruct Hw as (_ & _ & Hz). by rewrite Hz in Hc0. }
    destruct (poke w c 0) as [w'|] eqn:Ep.
    2: { rewrite poke_Some in Ep; [done|]. destruct Hw; lia. }
    cbn [mbind option_bind]. assert (0 <= c <= zlen s) as Hc' by lia.
    pose proof (work_poke _ _ _ _ Hw Hc' Ep) as Hw'. apply Hfin; [done|]. destruct (Z.eqb_spec (rd w' (c + 1)) 58) as [Hp|]; [|lia].
    destruct Hw' as (_ & _ & Hz). destruct (Z.lt_ge_cases (c + 1) (zlen s)); [lia|].
    rewrite Hz in Hp by lia. done.
  - set (c := span _ _). assert (0 <= c <= zlen s) as Hc.
    { split; [apply span_nonneg|]. apply span_bound; [lia|]. intros j Hj.
      destruct Hw as (_ & _ & Hz). rewrite Hz by done. apply is_host_char_0. }
    destruct (poke w c 0) as [w'|] eqn:Ep.
    2: { rewrite poke_Some in Ep; [done|]. destruct Hw; lia. }
    cbn [mbind option_bind]. pose proof (work_poke _ _ _ _ Hw Hc Ep) as Hw'.
    assert (0 <= (if rd w c =? $":" then c + 1 else c) <= zlen s).
    { destruct (Z.eqb_spec (rd w c) 58) as [Hp|]; [|lia].
      destruct Hw as (_ & _ & Hz). destruct (Z.lt_ge_cases c (zlen s)); [lia|].
      rewrite Hz in Hp by lia. done. }
    set (numeric := match last_dot _ _ _ _ with Some _ => _ | None => _ end).
    destruct numeric; [by apply Hfin|]. destruct (getaddrinfo _) as [res|]; [|apply Hbad].
    destruct (find usable res); [by apply Hfin|apply Hbad].
Qed.
End HostPort.

(** A character of a path, query or fragment, at offset [j] of the [max]
    characters from [off] on. *)
Definition uric_at (inp : list Z) (off max j : Z) : bool :=
  let c := rd inp (off + j) in
  (is_unreserved c || is_reserved c)
  || ((j + 2 <? max) && (c =? $"%") && isxdigit (rd inp (off + j + 1))
      && isxdigit (rd inp (off + j + 2))).

Lemma is_escaped_spec inp i :
  0 <= i -> i + 2 <= zlen inp ->
  is_escaped inp i
  = Some ((rd inp i =? $"%") && isxdigit (rd inp (i + 1)) && isxdigit (rd inp (i + 2))).
Proof.
  intros H1 H2. unfold is_escaped. rewrite !rdt_Some by lia. cbn [mbind option_bind].
  destruct (rd inp i =? 37); [|done]. by destruct (isxdigit (rd inp (i + 1))).
Qed.

Lemma uric_loop_spec inp off max i fuel :
  0 <= off -> 0 <= i <= max -> off + max <= zlen inp -> max - i < Z.of_nat fuel ->
  exists k, uric_loop fuel inp off i max = Some k /\ i <= k <= max /\
    (forall j, i <= j < k -> uric_at inp off max j = true) /\
    (k < max -> uric_at inp off max k = false).
Proof.
  intros Ho. revert i. induction fuel as [|fuel IH]; intros i Hi Hm Hf; [lia|].
  cbn [uric_loop]. destruct (Z.ltb_spec i max).
  2: { exists i. split; [done|]. split; [lia|]. split; lia. }
  rewrite rdt_Some by lia. cbn [mbind option_bind].
  assert ((if is_unreserved (rd inp (off + i)) || is_reserved (rd inp (off + i))
           then Some true
           else if i + 2 <? max then is_escaped inp (off + i) else Some false)
          = Some (uric_at inp off max i)) as ->.
  { unfold uric_at. destruct (is_unreserved _ || is_reserved _); [done|].
    destruct (Z.ltb_spec (i + 2) max); [|done]. by rewrite is_escaped_spec by lia. }
  destruct (uric_at inp off max i) eqn:E.
  - destruct (IH (i + 1)) as (k & E2 & Hk & H1 & H2); [lia..|].
    exists k. split; [done|]. split; [lia|]. split; [|done].
    intros j Hj. destruct (decide (j = i)) as [->|]; [done|]. apply H1. lia.
  - exists i. split; [done|]. split; [lia|]. split; [lia|done].
Qed.

Lemma parse_uric_spec base inp off :
  0 <= off <= zlen inp ->
  exists k, parse_uric base inp off (zlen inp - off) = Some (k, MkToken (base + off) k) /\
    0 <= k <= zlen inp - off /\
    (forall j, 0 <= j < k -> uric_at inp off (zlen inp - off) j = true) /\
    (k < zlen inp - off -> uric_at inp off (zlen inp - off) k = false).
Proof.
  intros Ho. unfold parse_uric.
  destruct (uric_loop_spec inp off (zlen inp - off) 0 (S (S (length inp))))
    as (k & -> & Hk & H1 & H2); [lia|lia|lia|unfold zlen; lia|].
  by exists k.
Qed.

Definition is_scheme_char (c : Z) : bool :=
  isalnum c || (c =? $"+") || (c =? $"-") || (c =? $".").

Lemma scheme_loop_spec inp i max fuel :
  0 <= i -> max <= zlen inp -> max - i < Z.of_nat fuel -> (0 < fuel)%nat ->
  exists r, scheme_loop fuel inp i max = Some r /\
    forall k, r = Some k -> i <= k < max /\ rd inp k = $":" /\
      forall j, i <= j < k -> is_scheme_char (rd inp j) = true.
Proof.
  revert i. induction fuel as [|fuel IH]; intros i Hi Hm Hf Hf0; [lia|].
  cbn [scheme_loop]. destruct (Z.ltb_spec i max); [|by exists None].
  rewrite rdt_Some by lia. cbn [mbind option_bind].
  destruct (Z.eqb_spec (rd inp i) 58) as [Hc|Hc].
  { exists (Some i). split; [done|]. intros k [= <-]. split; [lia|]. split; [done|]. lia. }
  fold (is_scheme_char (rd inp i)). destruct (is_scheme_char (rd inp i)) eqn:E; [|by exists None].
  destruct (IH (i + 1)) as (r & E2 & Hr); [lia..|]. exists r. split; [done|].
  intros k ->. destruct (Hr k eq_refl) as (Hk & Hcol & Hj). split; [lia|]. split; [done|].
  intros j Hji. destruct (decide (j = i)) as [->|]; [done|]. apply Hj. lia.
Qed.

(** The text of a token of the string at [base]. *)
Definition txt (base : Z) (s : list Z) (t : token) : list Z :=
  zslice (tk_buff t - base) (tk_size t) s.

Lemma parse_scheme_spec base inp :
  exists n t, parse_scheme base inp (zlen inp) = Some (n, t) /\
    ((n = 0 /\ t = MkToken 0 0) \/
     (0 < n < zlen inp /\ t = MkToken base n /\ rd inp n = $":" /\
      isalpha (rd inp 0) = true /\
      forall j, 0 <= j < n -> is_scheme_char (rd inp j) = true)).
Proof.
  unfold parse_scheme. destruct (Z.eqb_spec (zlen inp) 0); [do 2 eexists; by auto|].
  pose proof (zlen_nonneg inp). rewrite rdt_Some by lia. cbn [mbind option_bind].
  destruct (isalpha (rd inp 0)) eqn:Ea; [|do 2 eexists; by auto].
  cbn [negb]. destruct (scheme_loop_spec inp 1 (zlen inp) (S (S (length inp))))
    as ([k|] & -> & Hr); [lia|lia|unfold zlen; lia|lia|..].
  - destruct (Hr k eq_refl) as (Hk & Hc & Hj). cbn [mbind option_bind].
    exists k, (MkToken base k). split; [done|]. right. split; [lia|]. split; [done|].
    split; [done|]. split; [done|]. intros j Hji. destruct (decide (j = 0)) as [->|].
    + unfold is_scheme_char, isalnum. by rewrite Ea.
    + apply Hj. lia.
  - do 2 eexists. split; [done|]. by left.
Qed.

(** A token is empty or lies within the string. *)
Definition token_wf (base : Z) (s : list Z) (t : token) : Prop :=
  zlen (txt base s t) = tk_size t /\
  (t = MkToken 0 0 \/ base <= tk_buff t /\ tk_buff t + tk_size t <= base + zlen s).

(** What a successful parse of [s] says: the pieces, their tokens, and the
    rest that is no part of a URI. *)
Record uri_parsed (base : Z) (s : list Z) (u : uri_type) : Prop := {
  up_pieces : exists sch auth frag rest,
    s = sch ++ auth ++ txt base s (u_pathquery u) ++ frag ++ rest /\
    ((sch = [] /\ u_scheme u = MkToken 0 0 /\ u_type u = RELATIVE) \/
     (sch = txt base s (u_scheme u) ++ [$":"] /\ 0 < tk_size (u_scheme u) /\
      u_type u = ABSOLUTE)) /\
    ((auth = [] /\ u_hostport u = no_hostport) \/
     auth = cs "//" ++ txt base s (hp_text (u_hostport u))) /\
    ((frag = [] /\ u_fragment u = MkToken 0 0) \/
     frag = $"#" :: txt base s (u_fragment u));
  up_path_type : u_path_type u = ABS_PATH <->
    exists p, txt base s (u_pathquery u) = $"/" :: p;
  up_tokens : Forall (token_wf base s)
    [u_scheme u; hp_text (u_hostport u); u_pathquery u; u_fragment u]
}.

Lemma txt_at base s i k :
  0 <= i -> 0 <= k -> zdrop i s = txt base s (MkToken (base + i) k) ++ zdrop (i + k) s.
Proof.
  intros Hi Hk. unfold txt, zslice. cbn [tk_buff tk_size].
  replace (base + i - base) with i by lia. rewrite <- zdrop_zdrop by lia.
  by rewrite ztake_zdrop.
Qed.

Lemma token_ok base s i k :
  0 <= i -> 0 <= k -> i + k <= zlen s -> token_wf base s (MkToken (base + i) k).
Proof.
  intros Hi Hk Hz. split; cbn [tk_buff tk_size]; [|right; lia].
  unfold txt. cbn [tk_buff tk_size]. apply zlen_zslice; lia.
Qed.
Lemma token_ok_nil base s : token_wf base s (MkToken 0 0).
Proof. by split; [|left]. Qed.

Lemma parse_path_spec base s b :
  zlen s <= SIZE_MAX -> 0 <= b <= zlen s ->
  exists pq f abs, parse_path base s (zlen s) b = Some (pq, f, abs) /\
    (exists frag rest, zdrop b s = txt base s pq ++ frag ++ rest /\
       ((frag = [] /\ f = MkToken 0 0) \/ frag = $"#" :: txt base s f)) /\
    (abs = true <-> exists p, txt base s pq = $"/" :: p) /\
    Forall (token_wf base s) [pq; f].
Proof.
  intros Hmax Hb. unfold parse_path. rewrite to_size_small by lia.
  destruct (parse_uric_spec base s b Hb) as (k & -> & Hk & _). cbn [mbind option_bind tk_size].
  assert ((if negb (k =? 0) then c ← rdt s b; Some (c =? $"/") else Some false)
    = Some (negb (k =? 0) && (rd s b =? $"/"))) as ->.
  { destruct (Z.eqb_spec k 0); [done|]. by rewrite rdt_Some by lia. }
  cbn [mbind option_bind].
  assert ((if k + b <? zlen s then c ← rdt s (k + b); Some (c =? $"#") else Some false)
    = Some ((k + b <? zlen s) && (rd s (k + b) =? $"#"))) as ->.
  { destruct (Z.ltb_spec (k + b) (zlen s)); [|done]. by rewrite rdt_Some by lia. }
  cbn [mbind option_bind].
  assert (negb (k =? 0) && (rd s b =? $"/") = true <->
    exists p, txt base s (MkToken (base + b) k) = $"/" :: p) as Habs.
  { unfold txt, zslice. cbn [tk_buff tk_size]. replace (base + b - base) with b by lia.
    destruct (Z.eqb_spec k 0) as [->|Hk0]; cbn [negb andb].
    - rewrite ztake_0. split; [done|]. by intros [p ?].
    - rewrite (zdrop_rd s b) by lia. unfold ztake.
      destruct (Z.to_nat k) as [|k'] eqn:E; [lia|]. cbn [take].
      split; [intros ->%Z.eqb_eq; eauto|]. intros [p [= -> _]]. done. }
  pose proof (txt_at base s b k) as Hpq. rewrite Hpq by lia. clear Hpq.
  destruct ((k + b <? zlen s) && (rd s (k + b) =? $"#")) eqn:Eh.
  - zbool. rewrite to_size_small by lia.
    destruct (parse_uric_spec base s (k + b + 1)) as (k2 & -> & Hk2 & _); [lia|].
    cbn [mbind option_bind]. do 3 eexists. split; [done|]. split; [|split; [done|]].
    + exists ($"#" :: txt base s (MkToken (base + (k + b + 1)) k2)).
      eexists. split; [f_equal|by right]. replace (b + k) with (k + b) by lia.
      rewrite zdrop_rd by lia. replace (rd s (k + b)) with ($"#") by done. cbn [app].
      f_equal. rewrite <- txt_at by lia. done.
    + constructor; [apply token_ok; lia|]. constructor; [|done]. apply token_ok; lia.
  - do 3 eexists. split; [done|]. split; [|split; [done|]].
    + exists []. eexists. split; [done|by left].
    + constructor; [apply token_ok; lia|]. constructor; [|done]. apply token_ok_nil.
Qed.

Section ParseUri.
Context (getaddrinfo : list Z -> option (list sockaddr))
  (inet_pton : Z -> list Z -> option (list Z)) (gIF_INDEX : Z).

Lemma parse_authority_spec base s b scheme :
  zlen s <= INT_MAX -> 0 <= b <= zlen s ->
  exists rc bp hp,
    parse_authority getaddrinfo inet_pton gIF_INDEX base s (zlen s) b scheme
    = Some (rc, bp, hp) /\
    (rc = HTTP_SUCCESS -> b <= bp <= zlen s /\ token_wf base s (hp_text hp) /\
       exists auth, zdrop b s = auth ++ zdrop bp s /\
       ((auth = [] /\ hp = no_hostport) \/ auth = cs "//" ++ txt base s (hp_text hp))).
Proof.
  intros Hmax Hb. unfold parse_authority.
  assert ((if b + 1 <? zlen s then
             c0 ← rdt s b;
             if c0 =? $"/" then c1 ← rdt s (b + 1); Some (c1 =? $"/") else Some false
           else Some false)
    = Some ((b + 1 <? zlen s) && (rd s b =? $"/") && (rd s (b + 1) =? $"/"))) as ->.
  { destruct (Z.ltb_spec (b + 1) (zlen s)); [|done]. rewrite !rdt_Some by lia.
    cbn [mbind option_bind]. by destruct (rd s b =? 47). }
  cbn [mbind option_bind].
  destruct ((b + 1 <? zlen s) && _ && _) eqn:E; zbool.
  - match goal with |- context [parse_hostport _ _ _ ?x ?y ?z] =>
      destruct (parse_hostport_spec getaddrinfo inet_pton gIF_INDEX x y z)
        as (r & hp & -> & Hr) end.
    rewrite zlen_zdrop in Hr by lia. cbn [mbind option_bind].
    destruct (Z.leb_spec 0 r) as [Hr0|Hr0].
    + destruct (Hr Hr0) as [Hle Ht]. do 3 eexists. split; [done|]. intros _.
      rewrite (to_int_small (b + 2)), to_int_small by (unfold INT_MAX in *; lia).
      split; [lia|]. rewrite Ht. split; [apply token_ok; lia|].
      exists (cs "//" ++ txt base s (MkToken (base + (b + 2)) r)). split; [|by right].
      rewrite (zdrop_rd s b), (zdrop_rd s (b + 1)) by lia.
      replace (b + 1 + 1) with (b + 2) by lia. rewrite (txt_at base s (b + 2) r) by lia.
      replace (r + (b + 2)) with (b + 2 + r) by lia.
      replace (rd s b) with ($"/") by done. by replace (rd s (b + 1)) with ($"/") by done.
    + do 3 eexists. split; [done|]. intros ->. by unfold HTTP_SUCCESS in Hr0.
  - do 3 eexists. split; [done|]. intros _. rewrite to_int_small by (unfold INT_MAX in *; lia).
    split; [lia|]. split; [apply token_ok_nil|]. exists []. split; [done|by left].
Qed.

Lemma parse_uri_spec base s :
  zlen s <= INT_MAX ->
  exists rc u,
    parse_uri getaddrinfo inet_pton gIF_INDEX base s (zlen s) = Some (rc, u) /\
    (rc = HTTP_SUCCESS -> uri_parsed base s u).
Proof.
  intros Hmax. unfold parse_uri. pose proof (zlen_nonneg s).
  destruct (parse_scheme_spec base s) as (n & scheme & -> & Hsch). cbn [mbind option_bind].
  set (b := if negb (n =? 0) then n + 1 else 0).
  replace (if negb (n =? 0) then (ABSOLUTE, OPAQUE_PART, n + 1) else (RELATIVE, REL_PATH, 0))
    with (if negb (n =? 0) then ABSOLUTE else RELATIVE,
          if negb (n =? 0) then OPAQUE_PART else REL_PATH, b)
    by (unfold b; by destruct (negb (n =? 0))).
  assert (0 <= b <= zlen s /\ token_wf base s scheme /\ exists sch, s = sch ++ zdrop b s /\
    ((sch = [] /\ scheme = MkToken 0 0 /\ n = 0) \/
     (sch = txt base s scheme ++ [$":"] /\ 0 < tk_size scheme /\ n <> 0)))
    as (Hb & Hwf & sch & Hs & Hcase).
  { destruct Hsch as [[-> ->]|(Hn & -> & Hc & _)]; subst b.
    - split; [simpl; lia|]. split; [apply token_ok_nil|]. exists []. auto.
    - destruct (Z.eqb_spec n 0); [lia|]. cbn [negb]. split; [lia|].
      pose proof (token_ok base s 0 n) as Ht. rewrite Z.add_0_r in Ht.
      split; [apply Ht; lia|]. exists (txt base s (MkToken base n) ++ [$":"]).
      split; [|by right; cbn; split_and!; [|lia|]].
      pose proof (txt_at base s 0 n) as Hd. rewrite zdrop_0, Z.add_0_r, Z.add_0_l in Hd.
      rewrite (Hd ltac:(lia) ltac:(lia)) at 1. rewrite (zdrop_rd s n), Hc by lia. by rewrite <- app_assoc. }
  destruct (parse_authority_spec base s b scheme Hmax Hb) as (rc & bp & hp & -> & Hrc).
  cbn [mbind option_bind]. destruct (Z.eqb_spec rc HTTP_SUCCESS) as [->|Hne].
  2: { do 2 eexists. split; [done|]. done. }
  cbn [negb]. destruct (Hrc eq_refl) as (Hbp & Hhp & auth & Hauth & Hauthc).
  destruct (parse_path_spec base s bp) as (pq & f & abs & -> & Hpath & Habs & Hwfs);
    [unfold INT_MAX, SIZE_MAX in *; lia|lia|].
  cbn [mbind option_bind]. do 2 eexists. split; [done|]. intros _.
  destruct Hpath as (frag & rest & Hpq & Hfrag). split; cbn.
  - exists sch, auth, frag, rest. split; [by rewrite <- Hpq, <- Hauth|].
    split; [|by split].
    destruct Hcase as [(-> & -> & ->)|(-> & Hsz & Hn0)]; [by left|right].
    split; [done|]. split; [done|]. by destruct (Z.eqb_spec n 0).
  - rewrite <- Habs. destruct abs; [done|]. destruct (negb (n =? 0)); by split.
  - repeat (constructor; [done|]). done.
Qed.
End ParseUri.

(** ** Resolution: reference definitions *)

(** The path, and what follows it. *)
Definition path_of (l : list Z) : list Z := ztake (span (fun c => negb (is_end_path c)) l) l.
Definition tail_of (l : list Z) : list Z := zdrop (span (fun c => negb (is_end_path c)) l) l.

(** The text in front of the first [c]. *)
Fixpoint before (c : Z) (l : list Z) : list Z :=
  match l with
  | [] => []
  | x :: l' => if decide (x = c) then [] else x :: before c l'
  end.

(** A path up to and with its last slash. *)
Fixpoint directory (path : list Z) : list Z :=
  match path with
  | [] => []
  | x :: path' => if decide ($"/" ∈ path) then x :: directory path' else []
  end.

(** What a relative reference whose path and query are [rq] keeps of the path
    and query [bq] of the base: the directory of its path, or its first
    character if it has no slash; the whole path if both have a query and the
    reference has no path. *)
Definition kept (bq rq : list Z) : list Z :=
  let path := before ($"?") bq in
  if decide (head rq = Some ($"?") /\ $"?" ∈ bq) then path
  else if decide ($"/" ∈ path) then directory path
  else take 1 bq.

(** What is put behind the authority, before dot segments are removed. *)
Definition merge_paths (base_s rel_s : list Z) (base rel : uri_type) : list Z :=
  let bq := txt 0 base_s (u_pathquery base) in
  let rq := txt 0 rel_s (u_pathquery rel) in
  match u_path_type rel with
  | ABS_PATH => rel_s
  | _ =>
      if bool_decide (bq = []) then $"/" :: rel_s
      else
        (if bool_decide (rq = []) then bq else kept bq rq ++ rq)
        ++ (if 0 <? tk_size (u_fragment rel) then $"#" :: txt 0 rel_s (u_fragment rel)
            else if 0 <? tk_size (u_fragment base) then $"#" :: txt 0 base_s (u_fragment base)
            else [])
  end.

(** The resolved URL. *)
Definition resolved (base_s rel_s : list Z) (base rel : uri_type) : list Z :=
  let p := merge_paths base_s rel_s base rel in
  txt 0 base_s (u_scheme base) ++ [$":"] ++
  (if 0 <? tk_size (hp_text (u_hostport rel)) then rel_s
   else (if 0 <? tk_size (hp_text (u_hostport base))
         then cs "//" ++ txt 0 base_s (hp_text (u_hostport base)) else [])
        ++ remove_dot_segments (path_of p) ++ tail_of p).

(** ** Resolution: lemmas *)

Lemma path_tail l : path_of l ++ tail_of l = l.
Proof. apply ztake_zdrop. Qed.

Lemma path_of_no_end l : Forall no_end (path_of l).
Proof.
  unfold path_of. induction l as [|c l IH]; [constructor|]. simpl.
  destruct (is_end_path c) eqn:E; cbn [negb]; [constructor|].
  pose proof (span_nonneg (fun c => negb (is_end_path c)) l). unfold ztake in *.
  rewrite Z2Nat.inj_add by lia. by constructor.
Qed.

Lemma tail_of_ok l : tail_ok (tail_of l).
Proof.
  unfold tail_of. induction l as [|c l IH]; [done|]. simpl.
  destruct (is_end_path c) eqn:E; cbn [negb]; [done|].
  pose proof (span_nonneg (fun c => negb (is_end_path c)) l). unfold zdrop in *.
  by rewrite Z2Nat.inj_add by lia.
Qed.

Lemma emit_Some acc len piece :
  zlen piece < len <= INT_MAX -> emit acc len piece = Some (acc ++ piece, len - zlen piece).
Proof.
  intros H. unfold emit. pose proof (zlen_nonneg piece).
  rewrite to_int_small by (unfold INT_MAX in *; lia).
  by rewrite (proj2 (Z.leb_gt _ _)) by lia.
Qed.

Lemma token_text_txt s base t :
  Forall (fun c => c <> 0) s -> token_text s base t = txt base s t.
Proof. intros Hs. apply c_str_id. by apply Forall_take, Forall_drop. Qed.

Lemma prefix_loop_bound bq rel0 i p :
  0 < p -> 0 <= i -> 0 <= prefix_loop bq rel0 i p <= Z.max p (i + zlen bq).
Proof.
  revert i p. induction bq as [|c bq IH]; intros i p Hp Hi; simpl.
  - change (zlen (@nil Z)) with 0. lia.
  - rewrite zlen_cons. pose proof (zlen_nonneg bq).
    destruct (c =? 47); [specialize (IH (i + 1) (i + 1)); lia|].
    destruct (c =? 63); [case_match; lia|]. specialize (IH (i + 1) p). lia.
Qed.

(** The loop of the code finds what is kept. *)
Lemma directory_cons c l :
  directory (c :: l) = if decide ($"/" ∈ l) then c :: directory l
                       else if decide (c = $"/") then [c] else [].
Proof.
  cbn [directory]. destruct (decide ($"/" ∈ l)) as [H|H].
  - rewrite decide_True by (by right). done.
  - destruct (decide (c = $"/")) as [->|Hc].
    + rewrite decide_True by left. f_equal. destruct l as [|d l]; [done|]. cbn. by rewrite decide_False.
    + rewrite decide_False; [done|]. rewrite not_elem_of_cons. by split; [apply not_eq_sym|].
Qed.

Lemma prefix_loop_spec bq rel0 i p :
  prefix_loop bq rel0 i p =
  if decide (rel0 = $"?" /\ $"?" ∈ bq) then i + zlen (before ($"?") bq)
  else if decide ($"/" ∈ before ($"?") bq) then i + zlen (directory (before ($"?") bq))
  else p.
Proof.
  revert i p. induction bq as [|c bq IH]; intros i p.
  - cbn. rewrite !decide_False; [done|by intros ?%elem_of_nil|by intros [_ ?%elem_of_nil]].
  - cbn [prefix_loop before]. destruct (Z.eqb_spec c 47) as [->|H47].
    + rewrite (decide_False (P := 47 = _)) by done. rewrite IH. rewrite directory_cons.
      destruct (decide (rel0 = $"?" /\ $"?" ∈ bq)) as [[-> Hq]|Hq].
      * rewrite (decide_True (P := _ /\ _)) by (split; [done|by right]). rewrite zlen_cons. lia.
      * rewrite (decide_False (P := rel0 = _ /\ _)).
        2:{ intros [-> [?|?]%elem_of_cons]; [done|]. by apply Hq. }
        rewrite (decide_True (P := _ ∈ 47 :: _)) by left.
        destruct (decide _); [rewrite zlen_cons; lia|]. by rewrite decide_True.
    + destruct (Z.eqb_spec c 63) as [->|H63].
      * rewrite (decide_True (P := 63 = _)) by done. rewrite (decide_False (P := _ ∈ [])) by (by intros ?%elem_of_nil).
        destruct (Z.eqb_spec rel0 63) as [->|Hr].
        -- rewrite (decide_True (P := _ /\ _)) by (split; [done|by left]). rewrite zlen_nil. lia.
        -- rewrite (decide_False (P := rel0 = _ /\ _)); [done|]. by intros [? _].
      * rewrite (decide_False (P := c = _)) by done. rewrite IH. rewrite directory_cons.
        destruct (decide (rel0 = $"?" /\ $"?" ∈ bq)) as [[-> Hq]|Hq].
        -- rewrite (decide_True (P := _ /\ _)) by (split; [done|by right]). rewrite zlen_cons. lia.
        -- rewrite (decide_False (P := rel0 = _ /\ _)).
           2:{ intros [-> [?|?]%elem_of_cons]; [done|]. by apply Hq. }
           destruct (decide ($"/" ∈ before ($"?") bq)) as [H|H].
           ++ rewrite decide_True by (by right). rewrite zlen_cons. lia.
           ++ rewrite decide_False; [done|]. rewrite not_elem_of_cons. by split; [apply not_eq_sym|].
Qed.

Lemma before_prefix c l : before c l `prefix_of` l.
Proof.
  induction l as [|x l IH]; [done|]. cbn. destruct (decide (x = c)); [apply prefix_nil|by apply prefix_cons].
Qed.
Lemma directory_prefix l : directory l `prefix_of` l.
Proof. induction l as [|x l IH]; [done|]. cbn. destruct (decide _); [by apply prefix_cons|apply prefix_nil]. Qed.

Lemma kept_prefix_of bq rq : kept bq rq `prefix_of` bq.
Proof.
  unfold kept. destruct (decide _); [apply before_prefix|]. destruct (decide _).
  - etrans; [apply directory_prefix|apply before_prefix].
  - exists (drop 1 bq). by rewrite take_drop.
Qed.

Lemma prefix_ztake (k l : list Z) : k `prefix_of` l -> ztake (zlen k) l = k.
Proof. intros [r ->]. by apply ztake_app_exact. Qed.

Lemma kept_prefix bq rq : bq <> [] -> rq <> [] -> ztake (prefix_loop bq (rd rq 0) 0 1) bq = kept bq rq.
Proof.
  intros Hb Hr. rewrite prefix_loop_spec. unfold kept.
  assert (rd rq 0 = $"?" <-> head rq = Some ($"?")) as Hh.
  { destruct rq as [|c rq]; [done|]. rewrite rd_cons_0. cbn. split; [by intros ->|by intros [= ->]]. }
  destruct (decide (rd rq 0 = $"?" /\ $"?" ∈ bq)) as [[H1 H2]|H].
  - rewrite (decide_True (P := head rq = _ /\ _)) by (split; [by apply Hh|done]).
    rewrite Z.add_0_l. apply prefix_ztake, before_prefix.
  - rewrite (decide_False (P := head rq = _ /\ _)) by (by rewrite <- Hh).
    destruct (decide _); [|done]. rewrite Z.add_0_l. apply prefix_ztake.
    etrans; [apply directory_prefix|apply before_prefix].
Qed.

(** Room for the pieces of a parsed URI. *)
Definition opt_size (extra : Z) (t : token) : Z :=
  if 0 <? tk_size t then extra + tk_size t else 0.

Lemma opt_size_nonneg e t : 0 <= e -> 0 <= opt_size e t.
Proof. intros He. unfold opt_size. destruct (Z.ltb_spec 0 (tk_size t)); lia. Qed.

Lemma uri_lengths s u :
  uri_parsed 0 s u ->
  (if u_type u is ABSOLUTE then tk_size (u_scheme u) + 1 else 0)
  + opt_size 2 (hp_text (u_hostport u)) + tk_size (u_pathquery u)
  + opt_size 1 (u_fragment u) <= zlen s /\
  0 <= tk_size (u_scheme u) /\ 0 <= tk_size (u_pathquery u) /\
  zlen (txt 0 s (u_scheme u)) = tk_size (u_scheme u) /\
  zlen (txt 0 s (hp_text (u_hostport u))) = tk_size (hp_text (u_hostport u)) /\
  zlen (txt 0 s (u_pathquery u)) = tk_size (u_pathquery u) /\
  zlen (txt 0 s (u_fragment u)) = tk_size (u_fragment u).
Proof.
  intros [(sch & auth & frag & rest & Hs & Hsch & Hauth & Hfrag) _ Hwf].
  apply Forall_cons_1 in Hwf as [[H1 _] Hwf]. apply Forall_cons_1 in Hwf as [[H2 _] Hwf].
  apply Forall_cons_1 in Hwf as [[H3 _] Hwf]. apply Forall_cons_1 in Hwf as [[H4 _] _].
  apply (f_equal zlen) in Hs. rewrite !zlen_app, H3 in Hs.
  pose proof (zlen_nonneg (txt 0 s (u_scheme u))).
  pose proof (zlen_nonneg (txt 0 s (u_pathquery u))). pose proof (zlen_nonneg rest).
  pose proof (zlen_nonneg auth). pose proof (zlen_nonneg frag).
  pose proof (zlen_nonneg (txt 0 s (hp_text (u_hostport u)))).
  pose proof (zlen_nonneg (txt 0 s (u_fragment u))).
  split; [|split_and!; done || lia].
  assert (opt_size 2 (hp_text (u_hostport u)) <= zlen auth).
  { unfold opt_size. destruct Hauth as [[-> ->]| ->]; [done|].
    rewrite zlen_app, H2. change (zlen (cs "//")) with 2. case_match; zbool; lia. }
  assert (opt_size 1 (u_fragment u) <= zlen frag).
  { unfold opt_size. destruct Hfrag as [[-> ->]| ->]; [done|].
    rewrite zlen_cons, H4. case_match; zbool; lia. }
  destruct Hsch as [(-> & _ & ->)|(-> & _ & ->)]; rewrite ?zlen_app, ?H1 in Hs.
  - change (zlen (@nil Z)) with 0 in Hs. lia.
  - change (zlen [ $":"]) with 1 in Hs. lia.
Qed.

Lemma emit_frag acc len base_s rel_s base rel :
  zlen (txt 0 rel_s (u_fragment rel)) = tk_size (u_fragment rel) ->
  zlen (txt 0 base_s (u_fragment base)) = tk_size (u_fragment base) ->
  opt_size 1 (u_fragment rel) < len -> opt_size 1 (u_fragment base) < len -> len <= INT_MAX ->
  exists len',
    (if 0 <? tk_size (u_fragment rel) then
       emit acc len ($"#" :: txt 0 rel_s (u_fragment rel))
     else if 0 <? tk_size (u_fragment base) then
       emit acc len ($"#" :: txt 0 base_s (u_fragment base))
     else emit acc len [])
    = Some (acc ++ (if 0 <? tk_size (u_fragment rel) then $"#" :: txt 0 rel_s (u_fragment rel)
                    else if 0 <? tk_size (u_fragment base)
                         then $"#" :: txt 0 base_s (u_fragment base) else []), len').
Proof.
  intros H1 H2 L1 L2 L3. unfold opt_size in *.
  destruct (0 <? tk_size (u_fragment rel)); [|destruct (0 <? tk_size (u_fragment base))].
  - eexists. apply emit_Some. rewrite zlen_cons. lia.
  - eexists. apply emit_Some. rewrite zlen_cons. lia.
  - eexists. apply emit_Some. change (zlen (@nil Z)) with 0. lia.
Qed.

Lemma bool_decide_nil (l : list Z) n : zlen l = n -> bool_decide (l = []) = (n =? 0).
Proof. intros <-. by destruct l. Qed.

Lemma first_char base s t :
  0 < tk_size t -> token_wf base s t -> rd (txt base s t) 0 = rd s (tk_buff t - base).
Proof.
  intros Ht [_ [->|Hb]]; [done|]. unfold txt, zslice.
  rewrite rd_ztake, rd_zdrop by lia. f_equal. lia.
Qed.

Lemma resolve_path_spec base_s rel_s base rel len :
  Forall (fun c => c <> 0) base_s -> Forall (fun c => c <> 0) rel_s ->
  uri_parsed 0 base_s base -> uri_parsed 0 rel_s rel ->
  tk_size (u_pathquery base) + opt_size 1 (u_fragment base) + zlen rel_s + 1 < len <= INT_MAX ->
  exists len', resolve_path base_s rel_s base rel len
    = Some (merge_paths base_s rel_s base rel, len').
Proof.
  intros Hb Hr Ub Ur [L1 L2].
  destruct (uri_lengths _ _ Ub) as (Lb & Sb1 & Sb2 & _ & _ & Eb1 & Eb2).
  destruct (uri_lengths _ _ Ur) as (Lr & Sr1 & Sr2 & _ & Er0 & Er1 & Er2).
  pose proof (up_tokens _ _ _ Ur) as Wr. do 2 apply Forall_cons_1 in Wr as [_ Wr].
  apply Forall_cons_1 in Wr as [Wr _].
  assert (tk_size (u_pathquery rel) + opt_size 1 (u_fragment rel) <= zlen rel_s) as Lr'.
  { pose proof (opt_size_nonneg 2 (hp_text (u_hostport rel)) ltac:(lia)). revert Lr. destruct (u_type rel); lia. }
  pose proof (opt_size_nonneg 1 (u_fragment rel) ltac:(lia)).
  pose proof (opt_size_nonneg 1 (u_fragment base) ltac:(lia)).
  unfold resolve_path, merge_paths. rewrite (c_str_id rel_s) by done.
  rewrite !token_text_txt by done.
  rewrite (bool_decide_nil _ _ Eb1), (bool_decide_nil _ _ Er1).
  assert (Habs : exists len', emit [] len rel_s = Some (rel_s, len'))
    by (eexists; apply (emit_Some []); lia).
  assert (Hslash : exists len', emit [] len ($"/" :: rel_s) = Some ($"/" :: rel_s, len'))
    by (eexists; apply (emit_Some []); rewrite zlen_cons; lia).
  destruct (u_path_type rel); [done|..].
  all: destruct (Z.eqb_spec (tk_size (u_pathquery base)) 0); [done|].
  all: destruct (Z.eqb_spec (tk_size (u_pathquery rel)) 0); cbn [mbind option_bind].
  1, 3: rewrite emit_Some by lia; cbn [mbind option_bind];
    apply (emit_frag _ _ base_s rel_s base rel); done || lia.
  all: rewrite (proj2 (Z.ltb_ge len _)) by lia.
  all: assert (rd rel_s (tk_buff (u_pathquery rel)) = rd (txt 0 rel_s (u_pathquery rel)) 0)
    as -> by (rewrite first_char by (done || lia); by rewrite Z.sub_0_r).
  all: assert (zslice (tk_buff (u_pathquery base)) (tk_size (u_pathquery base)) base_s
    = txt 0 base_s (u_pathquery base)) as -> by (unfold txt; by rewrite Z.sub_0_r).
  all: set (bq := txt 0 base_s _) in *; set (rq := txt 0 rel_s (u_pathquery rel)) in *.
  all: pose proof (prefix_loop_bound bq (rd rq 0) 0 1 ltac:(lia) ltac:(lia)) as Hp.
  all: rewrite emit_Some by lia; cbn [mbind option_bind].
  all: rewrite (kept_prefix bq rq) by (intros ->; unfold zlen in *; cbn in *; lia).
  all: apply (emit_frag _ _ base_s rel_s base rel); done || lia.
Qed.

Lemma txt_Forall (P : Z -> Prop) base s t : Forall P s -> Forall P (txt base s t).
Proof. intros H. by apply Forall_take, Forall_drop. Qed.

Lemma merge_paths_Forall (P : Z -> Prop) base_s rel_s base rel :
  P ($"/") -> P ($"#") -> Forall P base_s -> Forall P rel_s ->
  Forall P (merge_paths base_s rel_s base rel).
Proof.
  intros P1 P2 Hb Hr. unfold merge_paths.
  pose proof (txt_Forall P 0 base_s) as Tb. pose proof (txt_Forall P 0 rel_s) as Tr.
  assert (forall a b : list Z, Forall P a -> Forall P b -> Forall P (a ++ b)) as Happ
    by (intros; by apply Forall_app).
  assert (forall a b : list Z, Forall P a -> Forall P (kept a b)) as Htake.
  { intros a b H. destruct (kept_prefix_of a b) as [r E]. rewrite E in H. by apply Forall_app in H as [? _]. }
  destruct (u_path_type rel); [done|..]; repeat case_match; auto 6.
Qed.

Definition url_char (c : Z) : Prop := is_char c /\ c <> 0.

Lemma url_chars l : Forall url_char l -> Forall is_char l /\ Forall (fun c => c <> 0) l.
Proof. apply Forall_and. Qed.

(** What [remove_dots] leaves of a merged path. *)
Lemma remove_dots_merged p :
  Forall url_char p ->
  exists b, (forall o, remove_dots p (zlen p) o = Ret (UPNP_E_SUCCESS, b) o) /\
    c_str b = remove_dot_segments (path_of p) ++ tail_of p.
Proof.
  intros [Hc Hz]%url_chars.
  destruct (remove_dots_spec (path_of p) (tail_of p)) as (b & E & _ & (r & -> & Hr) & Hn);
    rewrite ?path_tail in *; [apply path_of_no_end|apply tail_of_ok|done|].
  eexists. split; [exact E|]. rewrite c_str_app by (by apply no_end_nonzero). f_equal.
  rewrite c_str_app by (by apply Forall_drop). by rewrite Hr, app_nil_r.
Qed.

(** ** Properties of parsing and resolution *)

(** C39: For a relative URL that is not empty and an absolute base, both of
    them parsed without error and without NULs, [resolve_rel_url] never runs
    out of the space it allocated: unless the allocation fails it returns the
    scheme of the base and, if the URL has an authority, the URL itself;
    otherwise the authority of the base, the merged path without its dot
    segments, and what follows the path.  The merged path is the URL itself if
    its path is absolute, a slash and the URL if the base has no path and
    query, the path and query of the base if the URL has none, and else those
    of the URL behind the directory of the base path.  Where this differs from
    RFC 2396 it is said: if both have a query and the URL has no path, the whole
    base path is kept; a base path without a slash keeps its first character;
    and a URL without a fragment inherits that of the base, unless its own path
    is absolute or the base has no path. *)
Theorem resolve_rel_url_correct getaddrinfo inet_pton gIF_INDEX base_s rel_s base rel :
  Forall url_char base_s -> Forall url_char rel_s -> rel_s <> [] ->
  zlen base_s + zlen rel_s + 2 <= INT_MAX ->
  parse_uri getaddrinfo inet_pton gIF_INDEX 0 rel_s (zlen rel_s) = Some (HTTP_SUCCESS, rel) ->
  parse_uri getaddrinfo inet_pton gIF_INDEX 0 base_s (zlen base_s) = Some (HTTP_SUCCESS, base) ->
  u_type rel = RELATIVE -> u_type base = ABSOLUTE ->
  forall o,
    resolve_rel_url getaddrinfo inet_pton gIF_INDEX (Some base_s) (Some rel_s) o
    = (ok ← malloc_ok; mret (if ok : bool then Some (resolved base_s rel_s base rel) else None)) o.
Proof.
  intros Hb Hr Hne Hlen Pr Pb Tr Tb o. pose proof (zlen_nonneg base_s).
  destruct (url_chars _ Hb) as [Hb1 Hb2]. destruct (url_chars _ Hr) as [Hr1 Hr2].
  assert (uri_parsed 0 rel_s rel) as Ur.
  { destruct (parse_uri_spec getaddrinfo inet_pton gIF_INDEX 0 rel_s) as (rc & u & E & Hu);
      [lia|]. rewrite Pr in E. injection E as <- <-. auto. }
  assert (uri_parsed 0 base_s base) as Ub.
  { pose proof (zlen_nonneg rel_s).
    destruct (parse_uri_spec getaddrinfo inet_pton gIF_INDEX 0 base_s) as (rc & u & E & Hu);
      [lia|]. rewrite Pb in E. injection E as <- <-. auto. }
  destruct (uri_lengths _ _ Ub) as (Lb & Sb1 & Sb2 & Eb & Eh & _ & _). rewrite Tb in Lb.
  pose proof (opt_size_nonneg 1 (u_fragment base) ltac:(lia)).
  assert (0 < zlen rel_s) as Hz by (destruct rel_s; [done|]; rewrite zlen_cons;
    pose proof (zlen_nonneg rel_s); lia).
  unfold resolve_rel_url, strlen. rewrite !c_str_id by done.
  rewrite Pr, Pb. unfold mbind, M_bind. cbn [liftO]. cbv beta iota.
  rewrite Z.eqb_refl, Tr, Tb. cbn [negb orb]. rewrite (proj2 (Z.eqb_neq (zlen rel_s) 0)) by lia.
  destruct (malloc_ok o) as [[] o'| | |]; [|done..]. cbn [negb].
  rewrite !token_text_txt by done. unfold resolved.
  pose proof (opt_size_nonneg 2 (hp_text (u_hostport base)) ltac:(lia)).
  assert (zlen (txt 0 base_s (u_scheme base) ++ [ $":"]) = tk_size (u_scheme base) + 1) as Es
    by (rewrite zlen_app, Eb; done).
  rewrite emit_Some, Es by (rewrite ?Es; lia). cbn [app].
  destruct (0 <? tk_size (hp_text (u_hostport rel))).
  { rewrite emit_Some by lia. cbn [fmap option_fmap option_map fst]. by rewrite <- app_assoc. }
  set (auth := if 0 <? tk_size (hp_text (u_hostport base))
    then cs "//" ++ txt 0 base_s (hp_text (u_hostport base)) else []).
  match goal with |- context [if 0 <? _ then emit ?a ?l ?p else Some _] =>
    assert ((if 0 <? tk_size (hp_text (u_hostport base)) then emit a l p else Some (a, l))
      = Some (a ++ auth, l - opt_size 2 (hp_text (u_hostport base)))) as -> end.
  { unfold auth, opt_size in *. destruct (0 <? tk_size (hp_text (u_hostport base))).
    - rewrite emit_Some; rewrite zlen_app, Eh; change (zlen (cs "//")) with 2; [done|lia].
    - by rewrite app_nil_r, Z.sub_0_r. }
  destruct (resolve_path_spec base_s rel_s base rel
    (zlen base_s + zlen rel_s + 2 - (tk_size (u_scheme base) + 1)
     - opt_size 2 (hp_text (u_hostport base)))) as (len' & ->); [done..|lia|].
  destruct (remove_dots_merged (merge_paths base_s rel_s base rel)) as (b & E & Hcs).
  { by apply merge_paths_Forall. }
  rewrite E, Hcs. by rewrite <- !app_assoc.
Qed.

Definition no_dns (host : list Z) : option (list sockaddr) := None.
Definition any_pton (af : Z) (host : list Z) : option (list Z) := Some host.

Definition parsed (s : list Z) : uri_type :=
  default (MkUri RELATIVE (MkToken 0 0) REL_PATH (MkToken 0 0) (MkToken 0 0) no_hostport)
    (snd <$> parse_uri no_dns any_pton 0 0 s (zlen s)).

Lemma resolve_rel_url_correct_witness :
  resolve_rel_url no_dns any_pton 0 (Some (cs "http://10.0.0.1/a/b?q")) (Some (cs "../c#f"))
    [true; false] = Ret (Some (cs "http://10.0.0.1/c#f")) [false].
Proof.
  rewrite (resolve_rel_url_correct no_dns any_pton 0 _ _
    (parsed (cs "http://10.0.0.1/a/b?q")) (parsed (cs "../c#f")));
    [reflexivity|repeat constructor; done|repeat constructor; done|done
    |vm_compute; discriminate|reflexivity..].
Defined.
