(* ===== verification/UriSpec.v ===== *)
(** What [parse_uri] of [upnp/src/genlib/net/uri/uri.c] returns, written as a
    grammar over the text, without positions: scheme, host and port, path with
    query, fragment.  [Uri] models the code, with its buffers and offsets. *)

From S2P Require Import Prelude CString MemBuffer Uri.

(** ** Reference definitions *)

(** The longest prefix in a class, and the rest. *)
Fixpoint split_while (p : Z -> bool) (l : list Z) : list Z * list Z :=
  match l with
  | [] => ([], [])
  | c :: l' => if p c then let '(a, r) := split_while p l' in (c :: a, r) else ([], l)
  end.

(** Letters, digits, the reserved characters and the marks of RFC 2396, and
    the NUL. *)
Definition uri_char (c : Z) : bool :=
  isalnum c || (c =? 0) || bool_decide (c ∈ cs ";/?:@&=+$,{}-_.!~*'()").
Definition escape (l : list Z) : bool :=
  match l with c :: x :: y :: _ => (c =? $"%") && isxdigit x && isxdigit y | _ => false end.

(** The longest prefix of such characters and escapes. *)
Fixpoint split_uric (l : list Z) : list Z * list Z :=
  match l with
  | [] => ([], [])
  | c :: l' => if uri_char c || escape l then let '(a, r) := split_uric l' in (c :: a, r) else ([], l)
  end.

(** The scheme in front of a colon, none if the text does not start with a
    letter and then has other characters than those of schemes. *)
Definition scheme_of (s : list Z) : list Z * list Z :=
  let '(a, r) := split_while (fun c => isalnum c || bool_decide (c ∈ cs "+-.")) s in
  match a, r with
  | c :: _, d :: r' => if isalpha c && (d =? $":") then (a, r') else ([], s)
  | _, _ => ([], s)
  end.

(** What follows a host: its text, with the colon, and the port. *)
Definition port_of (default_port : Z) (r : list Z) : option (list Z * Z) :=
  match r with
  | c :: r' =>
      if c =? $":" then
        let port := to_ushort (atoi r') in
        if port =? 0 then None else Some (c :: (split_while isdigit r').1, port)
      else Some ([], default_port)
  | [] => Some ([], default_port)
  end.

(** A digit follows the last dot. *)
Definition numeric (h : list Z) : bool :=
  let '(l, r) := split_while (fun c => negb (c =? $".")) (reverse h) in
  match r, last l with _ :: _, Some c => isdigit c | _, _ => false end.

Section Spec.
Context (getaddrinfo : list Z -> option (list sockaddr))
  (inet_pton : Z -> list Z -> option (list Z)) (gIF_INDEX : Z).

(** Host and port at the start of [a]: their text and the address.  At most
    255 characters are looked at. *)
Definition spec_host (default_port : Z) (a : list Z) : option (list Z * sockaddr) :=
  let w := ztake 255 (c_str a) in
  if bool_decide (head w = Some ($"[")) then
    let '(ad, r) := split_while (fun c => negb (c =? $"]")) (tail w) in
    match r with
    | [] => None
    | _ :: r =>
        '(pt, port) ← port_of default_port r;
        bytes ← inet_pton AF_INET6 ad;
        Some (cs "[" ++ ad ++ cs "]" ++ pt, MkSockaddr AF_INET6 (htons port) bytes gIF_INDEX)
    end
  else
    let '(h, r) := split_while (fun c => isalnum c || (c =? $".") || (c =? $"-")) w in
    if numeric h then
      '(pt, port) ← port_of default_port r;
      bytes ← inet_pton AF_INET h;
      Some (h ++ pt, MkSockaddr AF_INET (htons port) bytes 0)
    else
      addrs ← getaddrinfo h;
      a ← find (fun a => bool_decide (ss_family a = AF_INET \/ ss_family a = AF_INET6)) addrs;
      '(pt, port) ← port_of default_port r;
      Some (h ++ pt, MkSockaddr (ss_family a) (htons port) (sin_addr a) (sin6_scope_id a)).

(** The parts of the string [s] at address [base]; the address of a rest of
    [s] is known by its length. *)
Definition uri_of (base : Z) (s : list Z) : option uri_type :=
  let addr r := base + (zlen s - zlen r) in
  let '(sch, r) := scheme_of s in
  let default_port := if bool_decide (lower sch = cs "https") then 443 else 80 in
  '(hp, r) ←
    (if bool_decide (take 2 r = cs "//") then
       '(t, ad) ← spec_host default_port (drop 2 r);
       Some (MkHostport (MkToken (addr (drop 2 r)) (zlen t)) ad, zdrop (zlen t) (drop 2 r))
     else Some (no_hostport, r));
  let '(pq, r2) := split_uric r in
  Some (MkUri
    (if bool_decide (sch = []) then RELATIVE else ABSOLUTE)
    (if bool_decide (sch = []) then MkToken 0 0 else MkToken base (zlen sch))
    (if bool_decide (head pq = Some ($"/")) then ABS_PATH
     else if bool_decide (sch = []) then REL_PATH else OPAQUE_PART)
    (MkToken (addr r) (zlen pq))
    (match r2 with
     | c :: f => if c =? $"#" then MkToken (addr f) (zlen (split_uric f).1) else MkToken 0 0
     | [] => MkToken 0 0
     end)
    hp).
End Spec.

(** ** Lemmas: classes *)

Lemma split_while_app p l : (split_while p l).1 ++ (split_while p l).2 = l.
Proof.
  induction l as [|c l IH]; [done|]. cbn. destruct (p c); [|done].
  destruct (split_while p l) as [a r]. cbn in *. by rewrite IH.
Qed.
Lemma split_while_class p l : Forall (fun c => p c = true) (split_while p l).1.
Proof.
  induction l as [|c l IH]; [constructor|]. cbn. destruct (p c) eqn:E; [|constructor].
  destruct (split_while p l) as [a r]. by constructor.
Qed.
Lemma split_while_stop p l : match (split_while p l).2 with [] => True | c :: _ => p c = false end.
Proof.
  induction l as [|c l IH]; [done|]. cbn. destruct (p c) eqn:E; [|done].
  by destruct (split_while p l) as [a r].
Qed.

(** [span] counts the prefix, whatever follows after a character that is not in
    the class. *)
Lemma span_split_while p l k :
  p 0 = false -> (k = [] \/ exists k', k = 0 :: k') ->
  span p (l ++ k) = zlen (split_while p l).1.
Proof.
  intros H0 Hk. induction l as [|c l IH].
  - destruct Hk as [->|[k' ->]]; [done|]. cbn. by rewrite H0.
  - cbn. destruct (p c); [|done]. destruct (split_while p l) as [a r]. cbn in *.
    rewrite IH, zlen_cons. done.
Qed.
Lemma split_while_ext p q l : (forall c, c ∈ l -> p c = q c) -> split_while p l = split_while q l.
Proof.
  induction l as [|c l IH]; intros H; [done|]. cbn. rewrite (H c) by (by left).
  rewrite IH; [done|]. intros d Hd. apply H. by right.
Qed.

Definition zeros (k : list Z) : Prop := exists n, k = replicate n 0.

Lemma rd_zeros k i : zeros k -> rd k i = 0.
Proof.
  intros [n ->]. unfold rd. destruct (_ <? 0); [done|]. destruct (_ !! _) as [x|] eqn:E; [|done].
  by apply lookup_replicate in E as [-> _].
Qed.

(** A number ends at the NUL. *)
Lemma skip_space_zeros l k n :
  zeros k -> Forall (fun c => c <> 0) l ->
  exists l' k', skip_space (l ++ k) n = (l' ++ k', (skip_space l n).2) /\
    (skip_space l n).1 = l' /\ zeros k' /\ Forall (fun c => c <> 0) l'.
Proof.
  intros Hk Hl. revert n. induction Hl as [|c l Hc Hl IH]; intros n.
  - exists [], k. split_and!; [|done|done|constructor]. destruct Hk as [[|m] ->]; done.
  - cbn. destruct (isspace c); [apply IH|]. exists (c :: l), k. split_and!; [done..|by constructor].
Qed.
Lemma scan_digits_zeros b l k acc n :
  zeros k -> scan_digits b (l ++ k) acc n = scan_digits b l acc n.
Proof.
  intros Hk. revert acc n. induction l as [|c l IH]; intros acc n.
  - destruct Hk as [[|m] ->]; done.
  - cbn. destruct (digit_val c); [|done]. by destruct (_ <? _).
Qed.
Lemma atoi_zeros l k : zeros k -> Forall (fun c => c <> 0) l -> atoi (l ++ k) = atoi l.
Proof.
  intros Hk Hl. unfold atoi, strtol. destruct (skip_space_zeros l k 0 Hk Hl) as (l' & k' & -> & El & Hk' & Hl').
  destruct (skip_space l 0) as [l1 n1]. cbn [fst snd] in *. subst l1.
  assert (rd (l' ++ k') 0 = rd l' 0) as E0.
  { destruct l' as [|c l']; [|by rewrite !rd_cons_0]. cbn [app]. by rewrite rd_zeros. }
  rewrite E0. unfold hex_prefix. change (10 =? 16) with false. cbn [andb]. rewrite !zdrop_0.
  set (n2 := if _ || _ then 1 else 0).
  assert (exists k2, zeros k2 /\ zdrop n2 (l' ++ k') = zdrop n2 l' ++ k2) as (k2 & Hk2 & ->).
  { destruct l' as [|c l'].
    - assert (n2 = 0) as -> by by unfold n2. exists k'. by rewrite !zdrop_0.
    - exists k'. split; [done|]. unfold n2. destruct (_ || _); [done|by rewrite !zdrop_0]. }
  by rewrite scan_digits_zeros.
Qed.

(** ** Lemmas: host and port *)

Lemma last_dot_snoc h c k i d :
  last_dot (h ++ c :: k) i (S (length h)) d =
  if c =? $"." then Some (i + zlen h) else last_dot (h ++ c :: k) i (length h) d.
Proof.
  revert i d. induction h as [|x h IH]; intros i d.
  - cbn. rewrite Z.add_0_r. destruct (c =? 46); by destruct k.
  - change (last_dot ((x :: h) ++ c :: k) i (S (length (x :: h))) d)
      with (last_dot (h ++ c :: k) (i + 1) (S (length h)) (if x =? $"." then Some i else d)).
    rewrite IH, zlen_cons. change (last_dot ((x :: h) ++ c :: k) i (length (x :: h)) d)
      with (last_dot (h ++ c :: k) (i + 1) (length h) (if x =? $"." then Some i else d)).
    destruct (c =? $"."); [|done]. f_equal. lia.
Qed.
Lemma last_dot_app h k i d n : (n <= length h)%nat -> last_dot (h ++ k) i n d = last_dot h i n d.
Proof.
  revert i d n. induction h as [|x h IH]; intros i d [|n] Hn; cbn in *; try lia.
  - by destruct k.
  - done.
  - apply IH. lia.
Qed.

(** Where the last dot of [h] is. *)
Lemma last_dot_spec h k d :
  last_dot (h ++ k) 0 (length h) None = Some d ->
  exists x y, h = x ++ $"." :: y /\ $"." ∉ y /\ d = zlen x.
Proof.
  rewrite last_dot_app by done. induction h as [|c h IH] using rev_ind; [done|].
  rewrite length_app. cbn [length]. rewrite Nat.add_1_r, last_dot_snoc.
  destruct (Z.eqb_spec c 46) as [->|Hc].
  - intros [= <-]. exists h, []. split; [done|]. split; [by intros ?%elem_of_nil|]. lia.
  - rewrite last_dot_app by done. intros H. destruct (IH H) as (x & y & -> & Hy & ->).
    exists x, (y ++ [c]). split; [by rewrite <- app_assoc|]. split; [|done].
    rewrite not_elem_of_app, list_elem_of_singleton. split; [done|congruence].
Qed.
Lemma last_dot_none h k : last_dot (h ++ k) 0 (length h) None = None -> $"." ∉ h.
Proof.
  rewrite last_dot_app by done. induction h as [|c h IH] using rev_ind; [by intros _ ?%elem_of_nil|].
  rewrite length_app. cbn [length]. rewrite Nat.add_1_r, last_dot_snoc.
  destruct (Z.eqb_spec c 46) as [->|Hc]; [done|]. rewrite last_dot_app by done. intros H.
  rewrite not_elem_of_app, list_elem_of_singleton. split; [by apply IH|congruence].
Qed.

Lemma split_while_all p l : Forall (fun c => p c = true) l -> split_while p l = (l, []).
Proof. induction 1 as [|c l Hc _ IH]; [done|]. cbn. by rewrite Hc, IH. Qed.
Lemma split_while_at p l c k :
  Forall (fun c => p c = true) l -> p c = false -> split_while p (l ++ c :: k) = (l, c :: k).
Proof. induction 1 as [|d l Hd _ IH]; intros Hc; cbn; [by rewrite Hc|]. by rewrite Hd, IH. Qed.

Lemma not_dots l : $"." ∉ l -> Forall (fun c => negb (c =? $".") = true) (reverse l).
Proof.
  intros H. rewrite Forall_forall. intros c Hc. rewrite elem_of_reverse in Hc. apply negb_true_iff, Z.eqb_neq. congruence.
Qed.

(** The test of the code is [numeric]. *)
Lemma numeric_spec h k :
  match last_dot (h ++ 0 :: k) 0 (length h) None with
  | Some d => isdigit (rd (h ++ 0 :: k) (d + 1))
  | None => false
  end = numeric h.
Proof.
  unfold numeric. destruct (last_dot _ _ _ _) as [d|] eqn:E.
  - apply last_dot_spec in E as (x & y & -> & Hy & ->).
    rewrite reverse_app, reverse_cons, <- (app_assoc (reverse y)). cbn [app].
    rewrite (split_while_at _ (reverse y) ($".") (reverse x)) by (by apply not_dots || done).
    rewrite <- app_assoc. cbn [app]. rewrite rd_app_r by lia.
    replace (zlen x + 1 - zlen x) with 1 by lia. rewrite rd_cons_S by lia. change (1 - 1) with 0.
    destruct y as [|c y]; cbn [app]; [by rewrite rd_cons_0|]. rewrite rd_cons_0, reverse_cons, last_snoc. done.
  - apply last_dot_none in E. by rewrite (split_while_all _ (reverse h)) by by apply not_dots.
Qed.

Lemma poke_app x c k : poke (x ++ c :: k) (zlen x) 0 = Some (x ++ 0 :: k).
Proof. by rewrite (poke_app_at x k) by done. Qed.

Section Host.
Context (getaddrinfo : list Z -> option (list sockaddr))
  (inet_pton : Z -> list Z -> option (list Z)) (gIF_INDEX : Z).
Abbreviation finish := (finish_hostport inet_pton gIF_INDEX).
Abbreviation host_at := (spec_host getaddrinfo inet_pton gIF_INDEX).

(** The address that [finish_hostport] stores. *)
Definition stored (af port : Z) (srvname : list Z) (addr : sockaddr) : option sockaddr :=
  if af =? AF_INET then
    a ← inet_pton AF_INET srvname; Some (MkSockaddr AF_INET (htons port) a (sin6_scope_id addr))
  else if af =? AF_INET6 then
    a ← inet_pton AF_INET6 srvname; Some (MkSockaddr AF_INET6 (htons port) a gIF_INDEX)
  else
    Some (MkSockaddr (ss_family addr) (htons port) (sin_addr addr) (sin6_scope_id addr)).

Definition fits_result (inbuff : Z) (x : Z * hostport_type) (r : option (list Z * sockaddr)) : Prop :=
  match r with
  | Some (t, a) => x = (zlen t, MkHostport (MkToken inbuff (zlen t)) a)
  | None => x.1 = UPNP_E_INVALID_URL
  end.

(** [x] is in front of the colon, [r] from the colon on. *)
Lemma finish_eq inbuff w x r k srvname af addr default_port :
  zeros k -> Forall (fun c => c <> 0) r -> zlen x + zlen r <= 255 ->
  let has_port := rd r 0 =? $":" in
  (has_port = true -> zdrop (zlen x + 1) w = tail r ++ k) ->
  fits_result inbuff
    (finish inbuff w (if has_port then zlen x + 1 else zlen x) srvname af has_port addr default_port)
    ('(pt, port) ← port_of default_port r; a ← stored af port srvname addr; Some (x ++ pt, a)).
Proof.
  intros Hk Hr Hlen has_port Hw. unfold finish_hostport, port_of. pose proof (zlen_nonneg x).
  destruct r as [|c r].
  - unfold has_port. cbn [rd]. change (rd [] 0 =? $":") with false. cbn [andb mbind option_bind].
    fold (stored af default_port srvname addr). destruct (stored _ _ _ _) as [a|]; [|done]. cbn.
    rewrite app_nil_r, to_int_small by (unfold INT_MAX in *; change (zlen (@nil Z)) with 0 in *; lia). done.
  - unfold has_port in *. rewrite rd_cons_0 in *. rewrite zlen_cons in Hlen. pose proof (zlen_nonneg r).
    destruct (Z.eqb_spec c 58) as [->|Hc]; cbn [andb].
    + rewrite Hw by done. cbn [tail]. apply Forall_cons_1 in Hr as [_ Hr].
      rewrite (atoi_zeros r k Hk Hr). destruct (to_ushort (atoi r) =? 0); [done|]. cbn [mbind option_bind].
      fold (stored af (to_ushort (atoi r)) srvname addr). destruct (stored _ _ _ _) as [a|]; [|done].
      rewrite (span_split_while isdigit r k) by (done || (destruct Hk as [[|n] ->]; [by left|right; by eexists])).
      pose proof (split_while_app isdigit r) as E. apply (f_equal zlen) in E. rewrite zlen_app in E.
      pose proof (zlen_nonneg (split_while isdigit r).1). pose proof (zlen_nonneg (split_while isdigit r).2).
      cbn. rewrite to_int_small by (unfold INT_MAX; lia). rewrite zlen_app, zlen_cons.
      replace (zlen x + 1 + zlen (split_while isdigit r).1) with (zlen x + (1 + zlen (split_while isdigit r).1)) by lia.
      done.
    + cbn [mbind option_bind]. fold (stored af default_port srvname addr).
      destruct (stored _ _ _ _) as [a|]; [|done]. cbn.
      rewrite app_nil_r, to_int_small by (unfold INT_MAX; lia). done.
Qed.

Lemma rd_front l k : zeros k -> rd (l ++ k) 0 = rd l 0.
Proof. intros Hk. destruct l as [|c l]; cbn [app]; [by rewrite rd_zeros|by rewrite !rd_cons_0]. Qed.

(** A name or a numeric address in front of [r]. *)
Lemma hostport_named inbuff h r k default_port :
  zeros k -> k <> [] -> Forall (fun c => c <> 0) (h ++ r) -> zlen (h ++ r) <= 255 ->
  exists x,
    (let w := h ++ r ++ k in
     let c := zlen h in
     let dot := last_dot w 0 (Z.to_nat c) None in
     let has_port := rd w c =? $":" in
     w ← poke w c 0;
     let srvname := c_str w in
     let c := if has_port then c + 1 else c in
     let is_num := match dot with Some d => isdigit (rd w (d + 1)) | None => false end in
     if is_num : bool then
       Some (finish inbuff w c srvname AF_INET has_port no_addr default_port)
     else
       match getaddrinfo srvname with
       | None => Some (UPNP_E_INVALID_URL, no_hostport)
       | Some res =>
           match find usable res with
           | None => Some (UPNP_E_INVALID_URL, no_hostport)
           | Some a => Some (finish inbuff w c srvname AF_UNSPEC has_port a default_port)
           end
       end) = Some x /\
    fits_result inbuff x
      (if numeric h then
         '(pt, port) ← port_of default_port r; bytes ← inet_pton AF_INET h;
         Some (h ++ pt, MkSockaddr AF_INET (htons port) bytes 0)
       else
         addrs ← getaddrinfo h;
         a ← find (fun a => bool_decide (ss_family a = AF_INET \/ ss_family a = AF_INET6)) addrs;
         '(pt, port) ← port_of default_port r;
         Some (h ++ pt, MkSockaddr (ss_family a) (htons port) (sin_addr a) (sin6_scope_id a))).
Proof.
  intros Hk Hk0 Hn Hlen. cbn zeta. apply Forall_app in Hn as [Hh Hr]. rewrite zlen_app in Hlen.
  assert (exists c k', r ++ k = c :: k') as (c & k' & Ek).
  { destruct r; [destruct k; [done|by do 2 eexists]|by do 2 eexists]. }
  assert (rd (h ++ r ++ k) (zlen h) = rd r 0) as -> by (rewrite rd_app_r, Z.sub_diag by lia; by apply rd_front).
  rewrite Ek, poke_app. cbn [mbind option_bind].
  replace (last_dot (h ++ c :: k') 0 (Z.to_nat (zlen h)) None)
    with (last_dot (h ++ 0 :: k') 0 (length h) None)
    by (unfold zlen; rewrite Nat2Z.id, !last_dot_app by lia; done).
  rewrite numeric_spec. rewrite (c_str_app h (0 :: k')) by done. cbn [c_str Z.eqb]. rewrite app_nil_r.
  assert (forall af addr, fits_result inbuff
    (finish inbuff (h ++ 0 :: k') (if rd r 0 =? 58 then zlen h + 1 else zlen h) h af (rd r 0 =? 58) addr default_port)
    ('(pt, port) ← port_of default_port r; a ← stored af port h addr; Some (h ++ pt, a))) as Hfin.
  { intros af addr. apply (finish_eq inbuff (h ++ 0 :: k') h r k); try done. intros Hc%Z.eqb_eq.
    change (h ++ 0 :: k') with (h ++ [0] ++ k'). rewrite app_assoc, zdrop_app_exact.
    2:{ rewrite zlen_app. done. }
    destruct r as [|d r]; [done|]. cbn in Ek. by injection Ek as -> <-. }
  destruct (numeric h).
  - eexists. split; [done|]. specialize (Hfin AF_INET no_addr).
    destruct (port_of default_port r) as [[pt port]|]; [|exact Hfin]. cbn [mbind option_bind] in *.
    unfold stored in Hfin. cbn [Z.eqb] in Hfin. change (AF_INET =? AF_INET) with true in Hfin.
    destruct (inet_pton AF_INET h); exact Hfin.
  - destruct (getaddrinfo h) as [res|]; [|by eexists]. cbn [mbind option_bind].
    assert (find usable res = find (fun a => bool_decide (ss_family a = AF_INET \/ ss_family a = AF_INET6)) res) as ->.
    { assert (forall a, usable a = bool_decide (ss_family a = AF_INET \/ ss_family a = AF_INET6)) as H.
      { intros a. unfold usable. destruct (Z.eqb_spec (ss_family a) AF_INET), (Z.eqb_spec (ss_family a) AF_INET6);
          cbn [orb]; symmetry; [apply bool_decide_eq_true..|apply bool_decide_eq_false]; tauto. }
      clear -H. induction res as [|a res IH]; [done|]. cbn. by rewrite H, IH. }
    destruct (find _ res) as [a|]; [|by eexists]. cbn [mbind option_bind].
    eexists. split; [done|]. apply (Hfin AF_UNSPEC a).
Qed.

Lemma span_bracket ad r k :
  Forall (fun c => c <> 0) ad -> $"]" ∉ ad -> (r = [] \/ exists r', r = $"]" :: r') -> zeros k -> k <> [] ->
  span (fun c => negb (c =? 0) && negb (c =? $"]")) (ad ++ r ++ k) = zlen ad.
Proof.
  intros Hz Hb Hr Hk Hk0. induction Hz as [|c ad Hc _ IH].
  - destruct Hr as [->|[r' ->]]; [|done]. cbn [app]. destruct Hk as [[|n] ->]; done.
  - apply not_elem_of_cons in Hb as [Hcb Hb]. cbn. rewrite (proj2 (Z.eqb_neq c 0)) by done.
    rewrite (proj2 (Z.eqb_neq c 93)) by congruence. cbn [negb andb]. rewrite IH by done. by rewrite zlen_cons.
Qed.

(** A bracketed address. *)
Lemma hostport_bracket inbuff l k default_port :
  zeros k -> k <> [] -> Forall (fun c => c <> 0) l -> 1 + zlen l <= 255 ->
  exists x,
    (let w := ($"[" :: l) ++ k in
     let c := 1 + span (fun c => negb (c =? 0) && negb (c =? $"]")) (zdrop 1 w) in
     if rd w c =? 0 then Some (UPNP_E_INVALID_URL, no_hostport)
     else
       w ← poke w c 0;
       let srvname := c_str (zdrop 1 w) in
       let has_port := rd w (c + 1) =? $":" in
       let c := if has_port then c + 2 else c + 1 in
       Some (finish inbuff w c srvname AF_INET6 has_port no_addr default_port)) = Some x /\
    fits_result inbuff x
      (let '(ad, r) := split_while (fun c => negb (c =? $"]")) l in
       match r with
       | [] => None
       | _ :: r =>
           '(pt, port) ← port_of default_port r;
           bytes ← inet_pton AF_INET6 ad;
           Some (cs "[" ++ ad ++ cs "]" ++ pt, MkSockaddr AF_INET6 (htons port) bytes gIF_INDEX)
       end).
Proof.
  intros Hk Hk0 Hn Hlen. cbn zeta.
  pose proof (split_while_app (fun c => negb (c =? $"]")) l) as El.
  pose proof (split_while_class (fun c => negb (c =? $"]")) l) as Hc.
  pose proof (split_while_stop (fun c => negb (c =? $"]")) l) as Hs.
  destruct (split_while _ l) as [ad r]. cbn [fst snd] in *. subst l. apply Forall_app in Hn as [Had Hr].
  change (zdrop 1 (($"[" :: ad ++ r) ++ k)) with ((ad ++ r) ++ k). rewrite <- app_assoc.
  rewrite (span_bracket ad r k); [|done| |by destruct r as [|d r]; [left|right; apply negb_false_iff, Z.eqb_eq in Hs as ->; eexists]|done..].
  2:{ intros Hin. rewrite Forall_forall in Hc. specialize (Hc _ Hin). done. }
  change (($"[" :: ad ++ r) ++ k) with ($"[" :: (ad ++ r) ++ k). rewrite <- (app_assoc ad).
  pose proof (zlen_nonneg ad) as Hz.
  rewrite rd_cons_S, Z.add_simpl_l by lia. rewrite rd_app_r, Z.sub_diag, rd_front by (done || lia).
  destruct r as [|d r].
  { by eexists. }
  apply negb_false_iff, Z.eqb_eq in Hs as ->. rewrite rd_cons_0. cbn [Z.eqb].
  change ($"[" :: ad ++ ($"]" :: r) ++ k) with (($"[" :: ad) ++ $"]" :: r ++ k).
  replace (1 + zlen ad) with (zlen ($"[" :: ad)) by by rewrite zlen_cons.
  rewrite poke_app. cbn [mbind option_bind].
  change (zdrop 1 (($"[" :: ad) ++ 0 :: r ++ k)) with (ad ++ 0 :: r ++ k).
  rewrite (c_str_app ad) by done. cbn [c_str Z.eqb]. rewrite app_nil_r.
  assert (zlen ($"[" :: ad ++ [0]) = zlen ($"[" :: ad) + 1) as Ez.
  { change ($"[" :: ad ++ [0]) with (($"[" :: ad) ++ [0]). by rewrite zlen_app. }
  assert (($"[" :: ad) ++ 0 :: r ++ k = ($"[" :: ad ++ [0]) ++ r ++ k) as Ew by (cbn; by rewrite <- app_assoc).
  rewrite Ew, <- Ez. rewrite rd_app_r, Z.sub_diag, rd_front by (done || lia).
  replace (zlen ($"[" :: ad) + 2) with (zlen ($"[" :: ad ++ [0]) + 1) by lia.
  eexists. split; [done|].
  pose proof (finish_eq inbuff (($"[" :: ad ++ [0]) ++ r ++ k) (($"[" :: ad ++ [ $"]"])) r k ad AF_INET6 no_addr default_port)
    as H.
  assert (zlen ($"[" :: ad ++ [ $"]"]) = zlen ($"[" :: ad ++ [0])) as Ez2 by (unfold zlen; cbn; by rewrite !length_app).
  rewrite Ez2 in H. apply Forall_cons_1 in Hr as [_ Hr].
  assert (zlen ($"[" :: ad ++ [0]) + zlen r <= 255).
  { rewrite Ez, zlen_cons. rewrite zlen_app, zlen_cons in Hlen. lia. }
  specialize (H Hk Hr ltac:(lia)). cbn zeta in H.
  assert (forall o : option (list Z * Z),
    ('(pt, port) ← o; a ← stored AF_INET6 port ad no_addr; Some (($"[" :: ad ++ [ $"]"]) ++ pt, a))
    = ('(pt, port) ← o; bytes ← inet_pton AF_INET6 ad;
       Some (cs "[" ++ ad ++ cs "]" ++ pt, MkSockaddr AF_INET6 (htons port) bytes gIF_INDEX))) as Eo.
  { intros [[pt port]|]; [|done]. cbn [mbind option_bind]. unfold stored. cbn [Z.eqb].
    change (AF_INET6 =? AF_INET) with false. change (AF_INET6 =? AF_INET6) with true.
    cbn [mbind option_bind]. destruct (inet_pton AF_INET6 ad); [|done]. cbn [mbind option_bind].
    do 2 f_equal. cbn. by rewrite <- app_assoc. }
  rewrite Eo in H. apply H. intros Hp%Z.eqb_eq.
  change (zlen ($"[" :: ad ++ [0]) + 1) with (zlen ($"[" :: ad ++ [0]) + zlen [ $":"]).
  destruct r as [|c r]; [done|]. rewrite rd_cons_0 in Hp. subst c. rewrite <- zlen_app.
  rewrite (app_assoc _ (_ :: r)). cbn [tail].
  change ($":" :: r) with ([ $":"] ++ r). rewrite !app_assoc, <- (app_assoc _ r), zdrop_app_exact by done. done.
Qed.

(** The code finds the host and port of the grammar. *)
Lemma hostport_eq inbuff inp default_port :
  exists x, parse_hostport getaddrinfo inet_pton gIF_INDEX inbuff inp default_port = Some x /\
    fits_result inbuff x (host_at default_port inp).
Proof.
  unfold parse_hostport, spec_host. set (w := ztake 255 (c_str inp)).
  set (k := replicate (256 - length w) 0).
  assert (zlen w <= 255) as Hlen by (unfold w, zlen, ztake; rewrite length_take; lia).
  assert (Forall (fun c => c <> 0) w) as Hn by apply Forall_take, c_str_no_nul.
  assert (zeros k) as Hk by by eexists.
  assert (k <> []) as Hk0.
  { unfold k, zlen in *. destruct (256 - length w)%nat eqn:E; [lia|done]. }
  destruct (decide (head w = Some ($"["))) as [Hh|Hh].
  - rewrite (bool_decide_eq_true_2 _ Hh). destruct w as [|c l]; [done|]. injection Hh as ->.
    cbn [app]. rewrite rd_cons_0. cbn [Z.eqb]. change (91 =? 91) with true.
    cbn [tail]. apply Forall_cons_1 in Hn as [_ Hn]. rewrite zlen_cons in Hlen.
    exact (hostport_bracket inbuff l k default_port Hk Hk0 Hn Hlen).
  - rewrite (bool_decide_eq_false_2 _ Hh).
    rewrite rd_front by done. assert ((rd w 0 =? $"[") = false) as ->.
    { apply Z.eqb_neq. destruct w as [|c l]; [done|]. rewrite rd_cons_0. intros ->. done. }
    assert (split_while is_host_char w = split_while (fun c => isalnum c || (c =? $".") || (c =? $"-")) w) as Es.
    { apply split_while_ext. intros c _. unfold is_host_char.
      destruct (Z.eqb_spec c 58) as [->|]; [done|]. destruct (Z.eqb_spec c 47) as [->|]; [done|].
      done. }
    rewrite <- Es. pose proof (split_while_app is_host_char w) as El.
    rewrite (span_split_while is_host_char w k)
      by (done || (destruct k as [|z k']; [done|right; destruct Hk as [[|m] E]; [done|injection E as -> _; by eexists]])).
    destruct (split_while is_host_char w) as [h r]. cbn [fst snd] in *.
    rewrite <- El in *. rewrite <- app_assoc. by apply hostport_named.
Qed.

Lemma host_of_prefix default_port a t ad : host_at default_port a = Some (t, ad) -> t `prefix_of` a.
Proof.
  intros H. assert (t `prefix_of` ztake 255 (c_str a)) as Hp.
  2:{ etrans; [exact Hp|]. etrans; [by exists (zdrop 255 (c_str a)); rewrite ztake_zdrop|].
      clear. induction a as [|c a IH]; [done|]. cbn. destruct (c =? 0); [apply prefix_nil|by apply prefix_cons]. }
  revert H. unfold spec_host. set (w := ztake 255 (c_str a)).
  assert (forall r pt port, port_of default_port r = Some (pt, port) -> pt `prefix_of` r) as Hport.
  { intros [|c r] pt port; cbn; [by intros [= <- _]|]. destruct (c =? 58); [|intros [= <- _]; apply prefix_nil].
    destruct (_ =? 0); [done|]. intros [= <- _]. apply prefix_cons.
    exists (split_while isdigit r).2. by rewrite split_while_app. }
  destruct (bool_decide (head w = Some ($"["))) eqn:Eh.
  - apply bool_decide_eq_true in Eh. destruct w as [|c l]; [done|]. injection Eh as ->. cbn [tail].
    pose proof (split_while_app (fun c => negb (c =? $"]")) l) as El.
    pose proof (split_while_stop (fun c => negb (c =? $"]")) l) as Hs.
    destruct (split_while _ l) as [x [|d r]]; [done|]. cbn [fst snd] in *. apply negb_false_iff, Z.eqb_eq in Hs as ->.
    destruct (port_of default_port r) as [[pt port]|] eqn:Ep; [|done]. cbn [mbind option_bind].
    destruct (inet_pton AF_INET6 x); [|done]. intros [= <- _]. rewrite <- El.
    apply Hport in Ep as [z ->]. exists z. cbn. by rewrite <- !app_assoc.
  - pose proof (split_while_app (fun c => isalnum c || (c =? $".") || (c =? $"-")) w) as El.
    destruct (split_while _ w) as [h r]. cbn [fst snd] in El. rewrite <- El.
    assert (forall pt port, port_of default_port r = Some (pt, port) -> h ++ pt `prefix_of` h ++ r) as Hp.
    { intros pt port Ep%Hport. by apply prefix_app. }
    destruct (numeric h).
    + destruct (port_of default_port r) as [[pt port]|] eqn:Ep; [|done]. cbn [mbind option_bind].
      destruct (inet_pton AF_INET h); [|done]. intros [= <- _]. by eapply Hp.
    + destruct (getaddrinfo h); [|done]. cbn [mbind option_bind]. destruct (find _ _); [|done].
      cbn [mbind option_bind]. destruct (port_of default_port r) as [[pt port]|] eqn:Ep; [|done].
      intros [= <- _]. by eapply Hp.
Qed.
End Host.

(** ** Lemmas: paths *)

Lemma existsb_elem c l : existsb (Z.eqb c) l = bool_decide (c ∈ l).
Proof.
  induction l as [|d l IH]; [done|]. cbn. rewrite IH. destruct (Z.eqb_spec c d) as [->|Hc]; cbn [orb].
  - symmetry. apply bool_decide_eq_true. by left.
  - apply bool_decide_ext. rewrite elem_of_cons. tauto.
Qed.
Lemma uri_char_code c : is_unreserved c || is_reserved c = uri_char c.
Proof.
  unfold is_unreserved, is_mark, is_reserved, strchr, uri_char.
  change (c_str MARK) with (cs "-_.!~*'()"). change (c_str RESERVED) with (cs ";/?:@&=+$,{}").
  rewrite !existsb_elem. change (cs ";/?:@&=+$,{}-_.!~*'()") with (cs ";/?:@&=+$,{}" ++ cs "-_.!~*'()").
  assert (bool_decide (c ∈ cs ";/?:@&=+$,{}" ++ cs "-_.!~*'()")
          = bool_decide (c ∈ cs ";/?:@&=+$,{}") || bool_decide (c ∈ cs "-_.!~*'()")) as ->.
  { rewrite <- bool_decide_or. apply bool_decide_ext. by rewrite elem_of_app. }
  destruct (isalnum c), (c =? 0), (bool_decide (c ∈ cs "-_.!~*'()")), (bool_decide (c ∈ cs ";/?:@&=+$,{}")); done.
Qed.

Lemma zdrop_cons (c : Z) l n : 0 < n -> zdrop n (c :: l) = zdrop (n - 1) l.
Proof.
  intros Hn. unfold zdrop. by replace (Z.to_nat n) with (S (Z.to_nat (n - 1))) by lia.
Qed.

Definition uric_head (l : list Z) : bool :=
  match l with c :: _ => uri_char c || escape l | [] => false end.

Lemma uric_at_head s off j :
  0 <= off -> 0 <= j < zlen s - off -> uric_at s off (zlen s - off) j = uric_head (zdrop (off + j) s).
Proof.
  intros Ho Hj. unfold uric_at. rewrite uri_char_code. rewrite (zdrop_rd s (off + j)) by lia. cbn [uric_head].
  f_equal. unfold escape.
  destruct (Z.ltb_spec (j + 2) (zlen s - off)) as [Hlt|Hge].
  - rewrite (zdrop_rd s (off + j + 1)), (zdrop_rd s (off + j + 1 + 1)) by lia.
    replace (off + j + 1 + 1) with (off + j + 2) by lia. done.
  - cbn [andb]. assert (zlen (zdrop (off + j + 1) s) <= 1) as H by (rewrite zlen_zdrop by lia; lia).
    destruct (zdrop (off + j + 1) s) as [|x [|y l]]; [done..|].
    rewrite !zlen_cons in H. pose proof (zlen_nonneg l). lia.
Qed.

Lemma split_uric_app l : (split_uric l).1 ++ (split_uric l).2 = l.
Proof.
  induction l as [|c l IH]; [done|]. cbn [split_uric]. destruct (_ || _); [|done].
  destruct (split_uric l) as [a r]. cbn in *. by rewrite IH.
Qed.

Lemma split_uric_length l k :
  0 <= k <= zlen l -> (forall j, 0 <= j < k -> uric_head (zdrop j l) = true) ->
  (k < zlen l -> uric_head (zdrop k l) = false) -> zlen (split_uric l).1 = k.
Proof.
  revert k. induction l as [|c l IH]; intros k Hk H1 H2.
  - cbn [split_uric fst]. change (zlen (@nil Z)) with 0 in *. lia.
  - rewrite zlen_cons in *. pose proof (zlen_nonneg l). cbn [split_uric]. fold (uric_head (c :: l)).
    destruct (decide (k = 0)) as [->|Hk0].
    + specialize (H2 ltac:(lia)). rewrite zdrop_0 in H2. by rewrite H2.
    + pose proof (H1 0 ltac:(lia)) as H0. rewrite zdrop_0 in H0. rewrite H0.
      specialize (IH (k - 1) ltac:(lia)). destruct (split_uric l) as [a r]. cbn [fst] in *. rewrite zlen_cons, IH; [lia| |].
      * intros j Hj. specialize (H1 (j + 1) ltac:(lia)). by rewrite zdrop_cons, Z.add_simpl_r in H1 by lia.
      * intros Hlt. specialize (H2 ltac:(lia)). by rewrite zdrop_cons in H2 by lia.
Qed.

Lemma parse_uric_eq base s off :
  0 <= off <= zlen s ->
  let n := zlen (split_uric (zdrop off s)).1 in
  parse_uric base s off (zlen s - off) = Some (n, MkToken (base + off) n) /\
  (split_uric (zdrop off s)).2 = zdrop (off + n) s /\ 0 <= n <= zlen s - off.
Proof.
  intros Ho n. destruct (parse_uric_spec base s off Ho) as (k & -> & Hk & H1 & H2).
  assert (n = k) as <-.
  { apply split_uric_length; [rewrite zlen_zdrop by lia; lia| |].
    - intros j Hj. rewrite zdrop_zdrop by lia. rewrite <- uric_at_head by lia. by apply H1.
    - intros Hlt. rewrite zlen_zdrop in Hlt by lia. rewrite zdrop_zdrop by lia. rewrite <- uric_at_head by lia. by apply H2. }
  split; [done|]. split; [|done].
  pose proof (split_uric_app (zdrop off s)) as E.
  assert (zdrop (off + n) s = zdrop n (zdrop off s)) as -> by (rewrite zdrop_zdrop; done || lia).
  rewrite <- E at 2. symmetry. by apply zdrop_app_exact.
Qed.

(** ** Lemmas: schemes *)

Abbreviation scheme_char := (fun c => isalnum c || bool_decide (c ∈ cs "+-.")).

Lemma scheme_char_code c : isalnum c || (c =? $"+") || (c =? $"-") || (c =? $".") = scheme_char c.
Proof.
  cbn beta. rewrite <- existsb_elem. change (cs "+-.") with [ $"+"; $"-"; $"."]. cbn [existsb].
  by rewrite orb_false_r, !orb_assoc.
Qed.

Lemma scheme_loop_eq inp i fuel :
  0 <= i <= zlen inp -> zlen inp - i < Z.of_nat fuel ->
  scheme_loop fuel inp i (zlen inp) =
  Some (match split_while scheme_char (zdrop i inp) with
        | (a, c :: _) => if c =? $":" then Some (i + zlen a) else None
        | _ => None
        end).
Proof.
  revert i. induction fuel as [|fuel IH]; intros i Hi Hf; [lia|].
  cbn [scheme_loop]. destruct (Z.ltb_spec i (zlen inp)).
  2: { by rewrite zdrop_all by lia. }
  rewrite rdt_Some by lia. cbn [mbind option_bind]. rewrite (zdrop_rd inp i) by lia.
  cbn [split_while]. rewrite <- scheme_char_code.
  destruct (Z.eqb_spec (rd inp i) 58) as [E|E].
  { rewrite E. cbn. by rewrite Z.add_0_r. }
  destruct (isalnum (rd inp i) || _ || _ || _).
  - rewrite IH by lia. destruct (split_while _ _) as [a [|c r]]; [done|].
    destruct (c =? 58); [|done]. rewrite zlen_cons. do 2 f_equal. lia.
  - by rewrite (proj2 (Z.eqb_neq _ 58)).
Qed.

Lemma parse_scheme_eq base s sch r :
  scheme_of s = (sch, r) ->
  parse_scheme base s (zlen s) = Some (zlen sch, if bool_decide (sch = []) then MkToken 0 0 else MkToken base (zlen sch)) /\
  r = zdrop (if bool_decide (sch = []) then 0 else zlen sch + 1) s /\
  (sch <> [] -> s = sch ++ $":" :: r).
Proof.
  intros H. unfold parse_scheme. destruct s as [|c s].
  { injection H as <- <-. done. }
  rewrite zlen_cons. pose proof (zlen_nonneg s). rewrite (proj2 (Z.eqb_neq (1 + _) 0)) by lia.
  rewrite rdt_Some by (rewrite ?zlen_cons; lia). rewrite rd_cons_0. cbn [mbind option_bind].
  assert (forall x : list Z, x = [] -> bool_decide (x = []) = true) as Hnil by (intros x ->; done).
  unfold scheme_of in H. cbn [split_while] in H. unfold isalnum in H at 1.
  destruct (isalpha c) eqn:Ea; cbn [negb orb] in *.
  2: { assert (sch = [] /\ r = c :: s) as [-> ->]; [|by rewrite zdrop_0].
       destruct (isdigit c || _); [|by injection H as <- <-].
       destruct (split_while _ s) as [a [|d r']]; rewrite ?Ea in H; by injection H as <- <-. }
  pose proof (scheme_loop_eq (c :: s) 1 (S (S (length (c :: s))))) as E. rewrite zlen_cons in E.
  rewrite E by (unfold zlen; cbn [length]; lia). clear E. rewrite zdrop_cons, zdrop_0 by lia.
  pose proof (split_while_app scheme_char s) as Es.
  destruct (split_while _ s) as [a [|d r']]; cbn [mbind option_bind fst snd] in *.
  { injection H as <- <-. by rewrite zdrop_0. }
  rewrite Ea in H. cbn [andb] in H. destruct (Z.eqb_spec d 58) as [->|Hd].
  - injection H as <- <-. cbn [mbind option_bind]. rewrite zlen_cons. change (bool_decide (c :: a = [])) with false.
    split; [done|]. split.
    + rewrite <- Es. pose proof (zlen_nonneg a). rewrite zdrop_cons by lia.
      replace (1 + zlen a + 1 - 1) with (zlen (a ++ [ $":"])) by (rewrite zlen_app; change (zlen [ $":"]) with 1; lia).
      change (58 :: r') with ([ $":"] ++ r'). rewrite app_assoc. symmetry. by apply zdrop_app_exact.
    + intros _. rewrite <- Es. done.
  - injection H as <- <-. by rewrite zdrop_0.
Qed.

Lemma strncmp_nat_take n a b : strncmp_nat n a b = strncmp_nat n (take n a) (take n b).
Proof.
  revert a b. induction n as [|n IH]; intros a b; [done|]. cbn [strncmp_nat].
  destruct a as [|x a], b as [|y b]; cbn [take head tail default from_option].
  - by rewrite (IH [] []), !take_nil.
  - by rewrite (IH [] b), take_nil.
  - by rewrite (IH a []), take_nil.
  - by rewrite (IH a b).
Qed.

(** The scheme of HTTPS, whose default port differs. *)
Lemma https_code base s sch r :
  scheme_of s = (sch, r) ->
  let t := if bool_decide (sch = []) then MkToken 0 0 else MkToken base (zlen sch) in
  (token_string_casecmp (zdrop (tk_buff t - base) s) t (cs "https") =? 0)
  = bool_decide (lower sch = cs "https").
Proof.
  intros H t. destruct (parse_scheme_eq base s sch r H) as (_ & _ & Hs).
  unfold token_string_casecmp. change (strlen (cs "https")) with 5. unfold t. clear t.
  destruct (decide (sch = [])) as [->|Hne].
  { rewrite bool_decide_eq_true_2 by done. cbn. done. }
  rewrite bool_decide_eq_false_2 by done. cbn [tk_buff tk_size]. rewrite Z.sub_diag, zdrop_0.
  assert (chars sch) as Hc.
  { specialize (Hs Hne). revert H. unfold scheme_of.
    pose proof (split_while_class scheme_char s) as Hcl. destruct (split_while _ s) as [a [|d r']];
      cbn [fst] in Hcl; (destruct a as [|c a]; [by intros [= <- _]|]); [by intros [= <- _]|].
    destruct (_ && _); [|by intros [= <- _]]. intros [= <- _].
    eapply Forall_impl; [exact Hcl|]. intros x. cbn beta. rewrite <- scheme_char_code.
    unfold isalnum, isalpha, isdigit, isupper, islower. intros Hx. lia. }
  apply Bool.eq_iff_eq_true. rewrite bool_decide_eq_true, Z.eqb_eq.
  destruct (Z.eqb_spec (zlen sch) 5) as [E5|E5]; cbn [negb].
  - rewrite (Hs Hne). unfold strncasecmp, strncmp. rewrite strncmp_nat_take, E5.
    rewrite <- !fmap_take. unfold zlen in E5.
    assert (take (Z.to_nat 5) (sch ++ $":" :: r) = sch) as -> by (apply take_app_length'; lia).
    change (take (Z.to_nat 5) (cs "https")) with (cs "https").
    fold (lower sch) (lower (cs "https")). change (lower (cs "https")) with (cs "https").
    rewrite strncmp_take; [|by apply lower_chars|apply (bool_decide_unpack _); by vm_compute|unfold lower; rewrite length_fmap; lia].
    rewrite !take_ge; [done|cbn; lia|unfold lower; rewrite length_fmap; lia].
  - split; [done|]. intros El. apply (f_equal length) in El. unfold lower in El. rewrite length_fmap in El.
    unfold zlen in E5. cbn in El. lia.
Qed.


Section ParseUri.
Context (getaddrinfo : list Z -> option (list sockaddr))
  (inet_pton : Z -> list Z -> option (list Z)) (gIF_INDEX : Z).

Lemma zdrop_split b (s : list Z) : 0 <= b <= zlen s -> zlen s - zlen (zdrop b s) = b.
Proof. intros H. rewrite zlen_zdrop by lia. lia. Qed.

(** From the scheme on: the rest [zdrop b s] of the text. *)
Lemma parse_authority_eq base s b sch r0 :
  zlen s <= INT_MAX -> 0 <= b <= zlen s -> scheme_of s = (sch, r0) ->
  let scheme := if bool_decide (sch = []) then MkToken 0 0 else MkToken base (zlen sch) in
  let default_port := if bool_decide (lower sch = cs "https") then 443 else 80 in
  let r := zdrop b s in
  exists rc bp hp,
    parse_authority getaddrinfo inet_pton gIF_INDEX base s (zlen s) b scheme = Some (rc, bp, hp) /\
    match (if bool_decide (take 2 r = cs "//") then
             '(t, ad) ← spec_host getaddrinfo inet_pton gIF_INDEX default_port (drop 2 r);
             Some (MkHostport (MkToken (base + (zlen s - zlen (drop 2 r))) (zlen t)) ad, zdrop (zlen t) (drop 2 r))
           else Some (no_hostport, r)) with
    | Some (hp', r') => rc = HTTP_SUCCESS /\ hp = hp' /\ r' = zdrop bp s /\ b <= bp <= zlen s
    | None => rc = UPNP_E_INVALID_URL
    end.
Proof.
  intros Hmax Hb Hsch scheme default_port r. unfold parse_authority.
  assert ((if b + 1 <? zlen s then
             c0 ← rdt s b;
             if c0 =? $"/" then c1 ← rdt s (b + 1); Some (c1 =? $"/") else Some false
           else Some false) = Some (bool_decide (take 2 r = cs "//"))) as ->.
  { unfold r. destruct (Z.ltb_spec (b + 1) (zlen s)).
    - rewrite !rdt_Some by lia. cbn [mbind option_bind]. rewrite (zdrop_rd s b), (zdrop_rd s (b + 1)) by lia.
      cbn [take]. change (cs "//") with [47; 47].
      destruct (Z.eqb_spec (rd s b) 47) as [->|H0].
      + f_equal. destruct (Z.eqb_spec (rd s (b + 1)) 47) as [->|H1]; symmetry;
          [by apply bool_decide_eq_true|apply bool_decide_eq_false]. congruence.
      + f_equal. symmetry. apply bool_decide_eq_false. congruence.
    - f_equal. symmetry. apply bool_decide_eq_false. intros E. apply (f_equal length) in E.
      rewrite length_take in E. change (length (cs "//")) with 2%nat in E.
      pose proof (zdrop_split b s Hb). unfold zlen in *. lia. }
  cbn [mbind option_bind].
  destruct (bool_decide (take 2 r = cs "//")) eqn:Eb.
  2: { do 3 eexists. split; [done|]. rewrite to_int_small by (unfold INT_MAX in *; lia). split_and!; done || lia. }
  apply bool_decide_eq_true in Eb.
  assert (b + 2 <= zlen s) as Hb2.
  { pose proof (zdrop_split b s Hb). apply (f_equal length) in Eb. rewrite length_take in Eb.
    change (length (cs "//")) with 2%nat in Eb. unfold r, zlen in *. lia. }
  assert (drop 2 r = zdrop (b + 2) s) as ->.
  { unfold r. change (drop 2 (zdrop b s)) with (zdrop 2 (zdrop b s)). by rewrite zdrop_zdrop by lia. }
  pose proof (https_code base s sch r0 Hsch) as Hport. fold scheme in Hport. cbn zeta in Hport.
  rewrite Hport. fold default_port.
  destruct (hostport_eq getaddrinfo inet_pton gIF_INDEX (base + (b + 2)) (zdrop (b + 2) s) default_port)
    as ([rr hp] & -> & Hf). cbn [mbind option_bind].
  destruct (spec_host _ _ _ _ _) as [[t ad]|] eqn:Eh; cbn [mbind option_bind fits_result] in *.
  - injection Hf as -> ->. apply host_of_prefix in Eh as [k Ek]. apply (f_equal zlen) in Ek.
    rewrite zlen_app, zlen_zdrop in Ek by lia. pose proof (zlen_nonneg t). pose proof (zlen_nonneg k).
    rewrite (proj2 (Z.leb_le 0 (zlen t))) by lia. do 3 eexists. split; [done|].
    rewrite (to_int_small (b + 2)), to_int_small by (unfold INT_MAX in *; lia).
    rewrite (zdrop_split (b + 2) s) by lia. split; [done|]. split; [done|]. split; [|lia].
    rewrite zdrop_zdrop by lia. f_equal. lia.
  - cbn [fst] in Hf. subst rr. do 3 eexists. split; [done|]. done.
Qed.

Lemma parse_path_eq base s b :
  zlen s <= INT_MAX -> 0 <= b <= zlen s ->
  let '(pq, r2) := split_uric (zdrop b s) in
  parse_path base s (zlen s) b =
  Some (MkToken (base + b) (zlen pq),
        match r2 with
        | c :: f => if c =? $"#" then MkToken (base + (zlen s - zlen f)) (zlen (split_uric f).1) else MkToken 0 0
        | [] => MkToken 0 0
        end,
        bool_decide (head pq = Some ($"/"))).
Proof.
  intros Hmax Hb. unfold parse_path. rewrite to_size_small by (unfold INT_MAX, SIZE_MAX in *; lia).
  destruct (parse_uric_eq base s b Hb) as (-> & Er & Hn). pose proof (split_uric_app (zdrop b s)) as Ea.
  destruct (split_uric (zdrop b s)) as [pq r2]. cbn [fst snd] in *. cbn [mbind option_bind tk_size].
  assert ((if negb (zlen pq =? 0) then c ← rdt s b; Some (c =? $"/") else Some false)
    = Some (bool_decide (head pq = Some ($"/")))) as ->.
  { destruct pq as [|c pq]; [done|]. pose proof (zlen_nonneg pq). rewrite zlen_cons in *.
    rewrite (proj2 (Z.eqb_neq _ 0)) by lia. cbn [negb]. rewrite rdt_Some by lia. cbn [mbind option_bind].
    rewrite (zdrop_rd s b) in Ea by lia. injection Ea as -> _. f_equal. cbn [head].
    destruct (Z.eqb_spec (rd s b) 47) as [->|Hc]; symmetry; [by apply bool_decide_eq_true|].
    apply bool_decide_eq_false. congruence. }
  cbn [mbind option_bind]. subst r2.
  destruct (Z.ltb_spec (zlen pq + b) (zlen s)) as [Hlt|Hge].
  - rewrite rdt_Some by lia. cbn [mbind option_bind]. rewrite (zdrop_rd s (b + zlen pq)) by lia.
    replace (zlen pq + b) with (b + zlen pq) by lia.
    destruct (rd s (b + zlen pq) =? 35); [|done].
    rewrite to_size_small by (unfold INT_MAX, SIZE_MAX in *; lia).
    destruct (parse_uric_eq base s (b + zlen pq + 1)) as (-> & _); [lia|]. cbn [mbind option_bind].
    rewrite (zdrop_split (b + zlen pq + 1) s) by lia. done.
  - rewrite (zdrop_all (b + zlen pq)) by lia. done.
Qed.

(** ** Properties *)

End ParseUri.

