(* ===== verification/Scanner.v ===== *)
(** The scanner and the pattern matcher of
    [upnp/src/genlib/net/http/httpparser.c].

    The scanner works on the bytes [buf] of a message buffer, of which the
    last one is followed by a NUL; a [memptr] into them is an offset and a
    length.  A function yields [None] when it would read elsewhere, or when the
    fuel of a loop runs out; the theorems show that neither happens. *)

From S2P Require Import Prelude CString MemBuffer StrIntMap Uri.

(** ** Data *)

Inductive token_type_t :=
| TT_IDENTIFIER | TT_WHITESPACE | TT_CRLF | TT_CTRL | TT_SEPARATOR | TT_QUOTEDSTRING.
#[export] Instance token_type_eq_dec : EqDecision token_type_t.
Proof. solve_decision. Defined.

Inductive parse_status_t :=
| PARSE_SUCCESS | PARSE_INCOMPLETE | PARSE_INCOMPLETE_ENTITY | PARSE_FAILURE
| PARSE_OK | PARSE_NO_MATCH | PARSE_CONTINUE_1.
#[export] Instance parse_status_eq_dec : EqDecision parse_status_t.
Proof. solve_decision. Defined.

(** A [memptr] into the scanned buffer. *)
Record bufptr := Bufptr { bp_off : Z; bp_length : Z }.

(** What [scanner_get_token] yields: a token, its type and the new cursor, or
    a status other than [PARSE_OK]; the cursor then stays and the outputs are
    not read. *)
Inductive scanned :=
| Token (t : bufptr) (ty : token_type_t) (cursor : Z)
| NoToken (s : parse_status_t).

(** An output of [vfmatch] through its arguments. *)
Inductive arg :=
| AStr (t : bufptr)
| AInt (n : Z)
| AUri (u : uri_type).

(** ** Characters *)

Definition TOKCHAR_CR : Z := 13.
Definition TOKCHAR_LF : Z := 10.

Definition is_separator_char (c : Z) : bool :=
  strchr (cs " " ++ [9] ++ cs "()<>@,;:\" ++ [34] ++ cs "/[]?={}") c.
Definition is_identifier_char (c : Z) : bool :=
  (32 <=? c) && (c <=? 126) && negb (is_separator_char c).
Definition is_control_char (c : Z) : bool := ((0 <=? c) && (c <=? 31)) || (c =? 127).
(** The assertion that [c] is no double quote holds at the only call. *)
Definition is_qdtext_char (c : Z) : bool :=
  ((32 <=? c) && negb (c =? 127)) || (c <? 0) || (c =? TOKCHAR_CR)
  || (c =? TOKCHAR_LF) || (c =? 9).
Definition is_ws_char (c : Z) : bool := (c =? 32) || (c =? 9).

(** The loop over quoted text behind the opening quote; [n] characters of the
    token were read. *)
Fixpoint quoted_loop (l : list Z) (n : Z) : parse_status_t * Z :=
  match l with
  | [] => (PARSE_INCOMPLETE, n)
  | c :: l' =>
      if c =? 34 then (PARSE_OK, n + 1)
      else if c =? $"\" then
        match l' with
        | [] => (PARSE_INCOMPLETE, n + 1)
        | _ :: l'' => quoted_loop l'' (n + 2)
        end
      else if is_qdtext_char c then quoted_loop l' (n + 1)
      else (PARSE_FAILURE, n + 1)
  end.

(** [strtol] on a token of the text [l], with the checks of the callers. *)
Definition token_to_long (l : list Z) (len base : Z) : bool * Z :=
  let r := strtol l base in
  (negb ((sl_num r <? 0) || negb (sl_end r =? len)
         || (((sl_num r =? LONG_MIN) || (sl_num r =? LONG_MAX)) && sl_erange r)),
   sl_num r).

Section Scanner.
Context (getaddrinfo : list Z -> option (list sockaddr))
  (inet_pton : Z -> list Z -> option (list Z)) (gIF_INDEX : Z).
(** The buffer, and the flag of the scanner. *)
Context (buf : list Z) (entire_msg_loaded : bool).

(** ** Tokens *)

Definition scanner_get_token (cursor : Z) : option scanned :=
  let take ty n := Some (Token (Bufptr cursor n) ty (cursor + n)) in
  let scan p ty l :=
    let n := 1 + span p l in
    if negb entire_msg_loaded && (cursor + n =? zlen buf)
    then Some (NoToken PARSE_INCOMPLETE) else take ty n in
  if (cursor <? 0) || (zlen buf <? cursor) then None
  else
    match zdrop cursor buf with
    | [] => Some (NoToken PARSE_INCOMPLETE)
    | c :: l =>
        if is_identifier_char c then scan is_identifier_char TT_IDENTIFIER l
        else if is_ws_char c then scan is_ws_char TT_WHITESPACE l
        else if c =? TOKCHAR_CR then
          match l with
          | [] => Some (NoToken PARSE_INCOMPLETE)
          | d :: _ => if negb (d =? TOKCHAR_LF) then take TT_CTRL 1 else take TT_CRLF 2
          end
        else if c =? TOKCHAR_LF then take TT_CRLF 1
        else if c =? 34 then
          match quoted_loop l 1 with
          | (PARSE_OK, n) => take TT_QUOTEDSTRING n
          | (s, _) => Some (NoToken s)
          end
        else if is_separator_char c then take TT_SEPARATOR 1
        else if is_control_char c then take TT_CTRL 1
        else Some (NoToken PARSE_FAILURE)
    end.

Definition loop_fuel : nat := S (length buf).

(** Status and cursor. *)
Fixpoint skip_blank_loop (fuel : nat) (cursor : Z) : option (parse_status_t * Z) :=
  match fuel with
  | O => None
  | S fuel' =>
      r ← scanner_get_token cursor;
      match r with
      | Token t (TT_WHITESPACE | TT_CRLF) cursor' => skip_blank_loop fuel' cursor'
      | Token t _ cursor' => Some (PARSE_OK, cursor' - bp_length t)
      | NoToken s => Some (s, cursor)
      end
  end.
Definition skip_blank_lines (cursor : Z) : option (parse_status_t * Z) :=
  skip_blank_loop loop_fuel cursor.

Fixpoint skip_lws_loop (fuel : nat) (cursor : Z) : option (parse_status_t * Z) :=
  match fuel with
  | O => None
  | S fuel' =>
      r ← scanner_get_token cursor;
      match r with
      | NoToken s => Some (s, cursor)
      | Token _ TT_CRLF cursor1 =>
          r ← scanner_get_token cursor1;
          match r with
          | Token _ TT_WHITESPACE cursor2 => skip_lws_loop fuel' cursor2
          | Token _ _ _ => Some (PARSE_OK, cursor)
          | NoToken s => Some (s, cursor)
          end
      | Token _ TT_WHITESPACE cursor1 => skip_lws_loop fuel' cursor1
      | Token _ _ _ => Some (PARSE_OK, cursor)
      end
  end.
Definition skip_lws (cursor : Z) : option (parse_status_t * Z) :=
  '(status, cursor) ← skip_lws_loop loop_fuel cursor;
  Some (if bool_decide (status = PARSE_INCOMPLETE) && entire_msg_loaded then PARSE_OK
        else status, cursor).

(** Status, cursor and length of the string. *)
Fixpoint non_ws_loop (fuel : nat) (cursor len : Z) : option (parse_status_t * Z * Z) :=
  match fuel with
  | O => None
  | S fuel' =>
      r ← scanner_get_token cursor;
      match r with
      | Token t (TT_WHITESPACE | TT_CRLF) cursor' =>
          Some (PARSE_OK, cursor' - bp_length t, len)
      | Token t _ cursor' => non_ws_loop fuel' cursor' (len + bp_length t)
      | NoToken s => Some (s, cursor, len)
      end
  end.
Definition match_non_ws_string (cursor : Z) : option (parse_status_t * Z * bufptr) :=
  '(status, cursor', len) ← non_ws_loop loop_fuel cursor 0;
  let str := Bufptr cursor len in
  Some (match status with
        | PARSE_OK => (if len =? 0 then PARSE_NO_MATCH else PARSE_OK, cursor', str)
        | PARSE_INCOMPLETE =>
            if entire_msg_loaded
            then (if len =? 0 then PARSE_NO_MATCH else PARSE_OK, cursor', str)
            else (PARSE_INCOMPLETE, cursor, str)
        | s => (s, cursor, str)
        end).

(** [crlf] is the position of the CRLF seen last, if it may end the value. *)
Fixpoint raw_loop (fuel : nat) (cursor : Z) (crlf : option Z) (len : Z)
    : option (parse_status_t * Z * Z) :=
  match fuel with
  | O => None
  | S fuel' =>
      r ← scanner_get_token cursor;
      match r, crlf with
      | NoToken s, _ => Some (s, cursor, len)
      | Token t TT_CRLF cursor', None =>
          raw_loop fuel' cursor' (Some (cursor' - bp_length t)) (len + bp_length t)
      | Token t _ cursor', None => raw_loop fuel' cursor' None (len + bp_length t)
      | Token t TT_WHITESPACE cursor', Some _ =>
          raw_loop fuel' cursor' None (len + bp_length t)
      | Token _ _ _, Some pos_at_crlf => Some (PARSE_OK, pos_at_crlf, len)
      end
  end.
Definition is_trimmed (c : Z) : bool :=
  (c =? 32) || (c =? 9) || (c =? TOKCHAR_CR) || (c =? TOKCHAR_LF).
Fixpoint trim_right (fuel : nat) (off len : Z) : Z :=
  match fuel with
  | O => len
  | S fuel' =>
      if 0 <? len then
        if is_trimmed (rd buf (off + len - 1)) then trim_right fuel' off (len - 1) else len
      else len
  end.
Definition match_raw_value (cursor : Z) : option (parse_status_t * Z * bufptr) :=
  '(status, cursor', len) ← raw_loop loop_fuel cursor None 0;
  Some (match status with
        | PARSE_OK => (PARSE_OK, cursor', Bufptr cursor (trim_right (Z.to_nat len) cursor len))
        | s => (s, cursor, Bufptr cursor len)
        end).

(** The value is stored whenever the token is an identifier. *)
Definition match_int (cursor base : Z) : option (parse_status_t * Z * option Z) :=
  r ← scanner_get_token cursor;
  Some (match r with
        | NoToken s => (s, cursor, None)
        | Token t TT_IDENTIFIER cursor' =>
            let '(ok, num) := token_to_long (zdrop (bp_off t) buf) (bp_length t) base in
            if ok : bool then (PARSE_OK, cursor', Some (to_int num))
            else (PARSE_NO_MATCH, cursor, Some (to_int num))
        | Token _ _ _ => (PARSE_NO_MATCH, cursor, None)
        end).

Fixpoint until_crlf_loop (fuel : nat) (cursor : Z) : option (parse_status_t * Z) :=
  match fuel with
  | O => None
  | S fuel' =>
      r ← scanner_get_token cursor;
      match r with
      | Token t TT_CRLF cursor' => Some (PARSE_OK, cursor' - bp_length t)
      | Token _ _ cursor' => until_crlf_loop fuel' cursor'
      | NoToken s => Some (s, cursor)
      end
  end.
Definition read_until_crlf (cursor : Z) : option (parse_status_t * Z * bufptr) :=
  '(status, cursor') ← until_crlf_loop loop_fuel cursor;
  Some (status, cursor', Bufptr cursor (cursor' - cursor)).

Definition match_char (cursor c : Z) (case_sensitive : bool) : parse_status_t * Z :=
  if zlen buf <=? cursor then (PARSE_INCOMPLETE, cursor)
  else
    let scan_char := rd buf cursor in
    let same := if case_sensitive then c =? scan_char
                else tolower c =? tolower scan_char in
    (if same then PARSE_OK else PARSE_NO_MATCH, cursor + 1).

(** A token that must have one of the types. *)
Definition match_type (cursor : Z) (ty : token_type_t)
    : option (parse_status_t * Z * list bufptr) :=
  r ← scanner_get_token cursor;
  Some (match r with
        | NoToken s => (s, cursor, [])
        | Token t ty' cursor' =>
            (if decide (ty' = ty) then PARSE_OK else PARSE_NO_MATCH, cursor', [t])
        end).

(** ** Patterns *)

(** The directive [%c]: status, cursor, case sensitivity and outputs. *)
Definition match_directive (c cursor : Z) (case_sensitive : bool)
    : M (parse_status_t * Z * bool * list arg) :=
  let out r := '(status, cursor, t) ← liftO r;
               mret (status, cursor, case_sensitive, [AStr t]) in
  let typed ty := '(status, cursor, ts) ← liftO (match_type cursor ty);
                  mret (status, cursor, case_sensitive, AStr <$> ts) in
  let int base := '(status, cursor, n) ← liftO (match_int cursor base);
                  mret (status, cursor, case_sensitive,
                        match n with Some n => [AInt n] | None => [] end) in
  if c =? $"R" then out (match_raw_value cursor)
  else if c =? $"s" then typed TT_IDENTIFIER
  else if c =? $"c" then
    '(status, cursor, _) ← liftO (match_type cursor TT_CRLF);
    mret (status, cursor, case_sensitive, [])
  else if c =? $"d" then int 10
  else if c =? $"x" then int 16
  else if c =? $"S" then out (match_non_ws_string cursor)
  else if c =? $"U" then
    '(status, cursor, t) ← liftO (match_non_ws_string cursor);
    if decide (status = PARSE_OK) then
      '(stat, u) ← liftO (parse_uri getaddrinfo inet_pton gIF_INDEX (bp_off t)
                            (zdrop (bp_off t) buf) (bp_length t));
      mret (if stat =? HTTP_SUCCESS then PARSE_OK else PARSE_NO_MATCH, cursor,
            case_sensitive, [AUri u])
    else mret (status, cursor, case_sensitive, [])
  else if c =? $"L" then out (read_until_crlf cursor)
  else if (c =? $" ") || (c =? $"%") then
    let '(status, cursor) := match_char cursor c case_sensitive in
    mret (status, cursor, case_sensitive, [])
  else if c =? $"n" then mret (PARSE_OK, cursor, true, [])
  else if c =? $"i" then mret (PARSE_OK, cursor, false, [])
  else if c =? $"q" then typed TT_QUOTEDSTRING
  else if c =? $"w" then
    r ← liftO (scanner_get_token cursor);
    mret (match r with
          | NoToken s => (s, cursor, case_sensitive, [])
          | Token t TT_WHITESPACE cursor' => (PARSE_OK, cursor', case_sensitive, [])
          | Token t _ cursor' => (PARSE_OK, cursor' - bp_length t, case_sensitive, [])
          end)
  else if c =? $"P" then mret (PARSE_OK, cursor, case_sensitive, [AInt (to_int cursor)])
  else if c =? $"0" then
    mret (if (cursor =? zlen buf) && (rd buf cursor =? 0) then PARSE_OK else PARSE_NO_MATCH,
          cursor, case_sensitive, [])
  else
    _ ← assertM false;
    mret (PARSE_OK, cursor, case_sensitive, []).

(** Any other character of a pattern. *)
Definition match_literal (c cursor : Z) (case_sensitive : bool)
    : option (parse_status_t * Z) :=
  if c =? $" " then skip_lws cursor
  else if c =? 9 then
    '(status, cursor, _) ← match_type cursor TT_WHITESPACE; Some (status, cursor)
  else Some (match_char cursor c case_sensitive).

Fixpoint vfmatch_loop (fmt : list Z) (cursor : Z) (case_sensitive : bool) (outs : list arg)
    : M (parse_status_t * Z * list arg) :=
  match fmt with
  | [] => mret (PARSE_OK, cursor, outs)
  | c :: fmt' =>
      if c =? $"%" then
        match fmt' with
        | [] => _ ← assertM false; mret (PARSE_OK, cursor, outs)
        | d :: fmt'' =>
            '(status, cursor, case_sensitive, out) ← match_directive d cursor case_sensitive;
            if decide (status = PARSE_OK)
            then vfmatch_loop fmt'' cursor case_sensitive (outs ++ out)
            else mret (status, cursor, outs ++ out)
        end
      else
        '(status, cursor) ← liftO (match_literal c cursor case_sensitive);
        if decide (status = PARSE_OK)
        then vfmatch_loop fmt' cursor case_sensitive outs
        else mret (status, cursor, outs)
  end.

Definition vfmatch (fmt : list Z) (cursor : Z) : M (parse_status_t * Z * list arg) :=
  '(status, cursor', outs) ← vfmatch_loop fmt cursor true [];
  mret (status, if decide (status = PARSE_OK) then cursor' else cursor, outs).
End Scanner.

(** [matchstr]: a buffer of its own over the first [slen] characters. *)
Definition matchstr getaddrinfo inet_pton gIF_INDEX (str : list Z) (slen : Z) (fmt : list Z)
    : M (parse_status_t * list arg) :=
  '(status, _, outs) ←
    vfmatch getaddrinfo inet_pton gIF_INDEX (ztake slen str) true fmt 0;
  mret (status, outs).

(** ** Reference: tokens as text *)

(** The text of a quoted string behind its opening quote. *)
Inductive quoted : list Z -> Prop :=
| quoted_end : quoted [34]
| quoted_escape c l : quoted l -> quoted ($"\" :: c :: l)
| quoted_char c l :
    c <> 34 -> c <> $"\" -> is_qdtext_char c = true -> quoted l -> quoted (c :: l).

(** [s] is a token of type [ty] in front of [rest]. *)
Definition lexeme (ty : token_type_t) (s rest : list Z) : Prop :=
  match ty with
  | TT_IDENTIFIER =>
      s <> [] /\ Forall (fun c => is_identifier_char c = true) s /\
      (forall c, head rest = Some c -> is_identifier_char c = false)
  | TT_WHITESPACE =>
      s <> [] /\ Forall (fun c => is_ws_char c = true) s /\
      (forall c, head rest = Some c -> is_ws_char c = false)
  | TT_CRLF => s = [TOKCHAR_CR; TOKCHAR_LF] \/ s = [TOKCHAR_LF]
  | TT_CTRL => exists c, s = [c] /\ is_control_char c = true
  | TT_SEPARATOR => exists c, s = [c] /\ is_separator_char c = true
  | TT_QUOTEDSTRING => exists q, s = 34 :: q /\ quoted q
  end.

(** ** Lemmas: tokens *)

Lemma span_split p l :
  exists s rest, l = s ++ rest /\ span p l = zlen s /\ Forall (fun c => p c = true) s /\
    (forall c, head rest = Some c -> p c = false).
Proof.
  induction l as [|c l IH]; simpl; [exists [], []; by repeat split|].
  destruct (p c) eqn:E.
  - destruct IH as (s & rest & -> & Hs & Hp & Hr). exists (c :: s), rest.
    rewrite zlen_cons, Hs. split; [done|]. split; [lia|]. split; [by constructor|done].
  - exists [], (c :: l). split; [done|]. split; [done|]. split; [constructor|].
    by intros d [= <-].
Qed.

Lemma span_app p l more : span p l < zlen l -> span p (l ++ more) = span p l.
Proof.
  induction l as [|c l IH]; simpl; [unfold zlen; simpl; lia|].
  rewrite zlen_cons. destruct (p c); [|done]. intros H. rewrite IH; lia.
Qed.

Lemma quoted_loop_spec k l n s m :
  (length l <= k)%nat -> quoted_loop l n = (s, m) ->
  n <= m <= n + zlen l /\
  (s = PARSE_INCOMPLETE \/
   (forall more, quoted_loop (l ++ more) n = (s, m)) /\
   (s = PARSE_FAILURE \/
    s = PARSE_OK /\ exists q rest, l = q ++ rest /\ m = n + zlen q /\ quoted q)).
Proof.
  revert l n. induction k as [|k IH]; intros l n Hk;
    (destruct l as [|c l]; [intros [= <- <-]; split; [unfold zlen; simpl; lia|auto]|]);
    [simpl in Hk; lia|].
  simpl in Hk. cbn [quoted_loop]. rewrite zlen_cons. pose proof (zlen_nonneg l).
  destruct (Z.eqb_spec c 34) as [->|H1].
  { intros [= <- <-]. split; [lia|]. right. split; [done|]. right. split; [done|].
    exists [34], l. split; [done|]. split; [done|constructor]. }
  destruct (Z.eqb_spec c 92) as [->|H2].
  { destruct l as [|d l]; [intros [= <- <-]; split; [lia|auto]|].
    intros Hq. rewrite zlen_cons in *. simpl in Hk.
    destruct (IH l (n + 2) ltac:(lia) Hq) as (Hm & Hc). split; [lia|].
    destruct Hc as [->|[Hmore Hc]]; [auto|right]. split; [exact Hmore|].
    destruct Hc as [->|(-> & q & rest & -> & -> & Hqq)]; [auto|right]. split; [done|].
    exists (92 :: d :: q), rest. split; [done|]. rewrite !zlen_cons. split; [lia|].
    by constructor. }
  destruct (is_qdtext_char c) eqn:E3.
  - intros Hq. destruct (IH l (n + 1) ltac:(lia) Hq) as (Hm & Hc). split; [lia|].
    destruct Hc as [->|[Hmore Hc]]; [auto|right]. split.
    { intros more. cbn [app quoted_loop]. rewrite E3.
      rewrite (proj2 (Z.eqb_neq c 34)), (proj2 (Z.eqb_neq c 92)) by done. apply Hmore. }
    destruct Hc as [->|(-> & q & rest & -> & -> & Hqq)]; [auto|right]. split; [done|].
    exists (c :: q), rest. split; [done|]. rewrite zlen_cons. split; [lia|].
    by constructor.
  - intros [= <- <-]. split; [lia|]. right. split; [|auto].
    intros more. cbn [app quoted_loop]. rewrite E3.
    by rewrite (proj2 (Z.eqb_neq c 34)), (proj2 (Z.eqb_neq c 92)) by done.
Qed.

(** What a call at [cursor] yields. *)
Definition token_result (buf : list Z) (cursor : Z) (r : scanned) : Prop :=
  match r with
  | Token t ty cursor' =>
      bp_off t = cursor /\ 0 < bp_length t /\ cursor' = cursor + bp_length t /\
      cursor' <= zlen buf /\
      lexeme ty (zslice cursor (bp_length t) buf) (zdrop cursor' buf)
  | NoToken s => s = PARSE_INCOMPLETE \/ s = PARSE_FAILURE
  end.

Lemma scan_result buf cursor s rest ty :
  0 <= cursor -> zdrop cursor buf = s ++ rest -> s <> [] -> lexeme ty s rest ->
  token_result buf cursor (Token (Bufptr cursor (zlen s)) ty (cursor + zlen s)).
Proof.
  intros Hc Hd Hs Hl. cbn.
  assert (0 < zlen s) by (destruct s; [done|unfold zlen; simpl; lia]).
  assert (zlen buf = cursor + zlen s + zlen rest) as Hz.
  { apply (f_equal zlen) in Hd. rewrite zlen_app in Hd. pose proof (zlen_nonneg rest).
    destruct (Z.le_gt_cases cursor (zlen buf)).
    - rewrite zlen_zdrop in Hd by lia. lia.
    - rewrite zdrop_all in Hd by lia. unfold zlen in *. simpl in Hd. lia. }
  pose proof (zlen_nonneg rest).
  split; [done|]. split; [done|]. split; [done|]. split; [lia|].
  unfold zslice. rewrite Hd, ztake_app_exact by done.
  rewrite <- zdrop_zdrop by lia. by rewrite Hd, zdrop_app_exact.
Qed.

Section ScannerLemmas.
Context (buf : list Z).

Lemma scanner_get_token_spec loaded cursor :
  0 <= cursor <= zlen buf ->
  exists r, scanner_get_token buf loaded cursor = Some r /\ token_result buf cursor r.
Proof.
  intros Hc. unfold scanner_get_token.
  rewrite (proj2 (Z.ltb_ge cursor 0)), (proj2 (Z.ltb_ge (zlen buf) cursor)) by lia.
  cbn [orb]. destruct (zdrop cursor buf) as [|c l] eqn:Hd; [eexists; split; [done|]; by left|].
  assert (Hone : forall ty, lexeme ty [c] l ->
    token_result buf cursor (Token (Bufptr cursor 1) ty (cursor + 1))).
  { intros ty Hl. apply (scan_result buf cursor [c] l ty); done || lia. }
  assert (Hscan : forall p ty, p c = true ->
    (forall s rest, s <> [] -> Forall (fun c => p c = true) s ->
       (forall c, head rest = Some c -> p c = false) -> lexeme ty s rest) ->
    exists r, (if negb loaded && (cursor + (1 + span p l) =? zlen buf)
      then Some (NoToken PARSE_INCOMPLETE)
      else Some (Token (Bufptr cursor (1 + span p l)) ty (cursor + (1 + span p l))))
      = Some r /\ token_result buf cursor r).
  { intros p ty Hpc Hl. destruct (negb loaded && _); [eexists; split; [done|]; by left|].
    eexists. split; [done|]. destruct (span_split p l) as (s & rest & -> & -> & Hs & Hr).
    rewrite <- zlen_cons with (x := c). apply (scan_result buf cursor (c :: s) rest); [lia|done|done|].
    apply Hl; [done|by constructor|done]. }
  destruct (is_identifier_char c) eqn:E1; [apply Hscan; [done|by intros; split_and!]|].
  destruct (is_ws_char c) eqn:E2; [apply Hscan; [done|by intros; split_and!]|].
  destruct (Z.eqb_spec c TOKCHAR_CR) as [->|].
  { destruct l as [|d l]; [eexists; split; [done|]; by left|].
    destruct (Z.eqb_spec d TOKCHAR_LF) as [->|]; cbn [negb]; eexists; (split; [done|]).
    - apply (scan_result buf cursor [TOKCHAR_CR; TOKCHAR_LF] l); [lia|done|done|by left].
    - apply Hone. by eexists. }
  destruct (Z.eqb_spec c TOKCHAR_LF) as [->|].
  { eexists. split; [done|]. apply Hone. by right. }
  destruct (Z.eqb_spec c 34) as [->|].
  { destruct (quoted_loop l 1) as [s m] eqn:Eq.
    destruct (quoted_loop_spec (length l) l 1 s m ltac:(lia) Eq) as (Hm & Hq).
    destruct Hq as [->|[_ [->|(-> & q & rest & -> & -> & Hq)]]].
    - eexists. split; [done|]. by left.
    - eexists. split; [done|]. by right.
    - eexists. split; [done|]. rewrite <- zlen_cons with (x := 34).
      apply (scan_result buf cursor (34 :: q) rest); try done; [lia|]. by exists q. }
  destruct (is_separator_char c) eqn:E3; [eexists; split; [done|]; apply Hone; by exists c|].
  destruct (is_control_char c) eqn:E4; [eexists; split; [done|]; apply Hone; by exists c|].
  eexists. split; [done|]. by right.
Qed.

(** More data does not change a token or a failure. *)
Lemma scanner_get_token_more cursor r more loaded :
  0 <= cursor <= zlen buf ->
  scanner_get_token buf false cursor = Some r -> r <> NoToken PARSE_INCOMPLETE ->
  scanner_get_token (buf ++ more) loaded cursor = Some r.
Proof.
  intros Hc. unfold scanner_get_token. pose proof (zlen_nonneg more).
  rewrite zlen_app, !(proj2 (Z.ltb_ge cursor 0)), (proj2 (Z.ltb_ge (zlen buf) cursor)),
    (proj2 (Z.ltb_ge (zlen buf + zlen more) cursor)) by lia.
  cbn [orb]. rewrite zdrop_app_le by lia.
  destruct (zdrop cursor buf) as [|c l] eqn:Hd; [by intros [= <-]|]. cbn [app].
  assert (zlen l = zlen buf - cursor - 1) as Hl.
  { apply (f_equal zlen) in Hd. rewrite zlen_zdrop, zlen_cons in Hd by lia. lia. }
  assert (Hscan : forall p ty,
    (if negb false && (cursor + (1 + span p l) =? zlen buf)
      then Some (NoToken PARSE_INCOMPLETE)
      else Some (Token (Bufptr cursor (1 + span p l)) ty (cursor + (1 + span p l))))
      = Some r -> r <> NoToken PARSE_INCOMPLETE ->
    (if negb loaded && (cursor + (1 + span p (l ++ more)) =? zlen buf + zlen more)
      then Some (NoToken PARSE_INCOMPLETE)
      else Some (Token (Bufptr cursor (1 + span p (l ++ more))) ty
                  (cursor + (1 + span p (l ++ more))))) = Some r).
  { intros p ty. cbn [negb andb]. destruct (Z.eqb_spec (cursor + (1 + span p l)) (zlen buf));
      [by intros [= <-]|]. intros Hr _.
    assert (span p l < zlen l) as Hs.
    { destruct (span_split p l) as (s & rest & El & Es & _).
      apply (f_equal zlen) in El. rewrite zlen_app in El. pose proof (zlen_nonneg rest). lia. }
    rewrite span_app by done. rewrite (proj2 (Z.eqb_neq _ (_ + _))) by lia.
    by rewrite andb_false_r. }
  destruct (is_identifier_char c); [by apply Hscan|].
  destruct (is_ws_char c); [by apply Hscan|].
  destruct (c =? TOKCHAR_CR); [destruct l; [by intros [= <-]|done]|].
  destruct (c =? TOKCHAR_LF); [done|].
  destruct (c =? 34); [|done].
  destruct (quoted_loop l 1) as [s m] eqn:Eq.
  destruct (quoted_loop_spec (length l) l 1 s m ltac:(lia) Eq) as (_ & [->|[Hm Hq]]);
    [by intros [= <-]|]. rewrite Hm. done.
Qed.
End ScannerLemmas.

(** ** Lemmas: scanning functions

    Each of them returns with a cursor inside the buffer ([in_bounds]); and
    what it returns is the same when more data is there, unless it is that the
    input is incomplete ([same_with_more]). *)

Definition in_bounds (buf : list Z) (cursor : Z) (r : option (parse_status_t * Z)) : Prop :=
  exists s cursor', r = Some (s, cursor') /\ cursor <= cursor' <= zlen buf.

Definition same_with_more {A} (r1 r2 : option (parse_status_t * A)) : Prop :=
  forall s x, r1 = Some (s, x) -> s <> PARSE_INCOMPLETE -> r2 = Some (s, x).

(** The next token of the goal's scan, in the buffer and in a longer one. *)
Ltac next_token buf loaded c :=
  let r := fresh "r" in
  let E := fresh "E" in
  let H := fresh "Htok" in
  let t := fresh "t" in
  let ty := fresh "ty" in
  let c1 := fresh "c" in
  let st := fresh "st" in
  let L := fresh "Hlex" in
  destruct (scanner_get_token_spec buf loaded c) as (r & E & H); [lia|];
  rewrite E; cbn [mbind option_bind];
  destruct r as [t ty c1|st]; [destruct H as (? & ? & -> & ? & L)|].

Ltac next_token_more buf c more loaded :=
  let r := fresh "r" in
  let E := fresh "E" in
  let H := fresh "Htok" in
  let t := fresh "t" in
  let ty := fresh "ty" in
  let c1 := fresh "c" in
  let st := fresh "st" in
  destruct (scanner_get_token_spec buf false c) as (r & E & H); [lia|];
  rewrite E; cbn [mbind option_bind];
  let go _ := (rewrite (scanner_get_token_more buf c _ more loaded ltac:(lia) E ltac:(done));
               cbn [mbind option_bind]) in
  destruct r as [t ty c1|st];
  [destruct H as (? & ? & -> & ? & _); go ()
  |destruct H as [-> | ->]; [try by intros [= <- <-]|go ()]].

Section Scanning.
Context (buf more : list Z) (loaded : bool).
Abbreviation longer := (buf ++ more).

Lemma fuel_ok c : 0 <= c -> zlen buf - c < Z.of_nat (loop_fuel buf).
Proof. unfold loop_fuel, zlen. lia. Qed.
Lemma fuel_more : (loop_fuel buf <= loop_fuel longer)%nat.
Proof. unfold loop_fuel. rewrite length_app. lia. Qed.

Lemma skip_blank_loop_spec fuel c :
  0 <= c <= zlen buf -> zlen buf - c < Z.of_nat fuel ->
  in_bounds buf c (skip_blank_loop buf loaded fuel c).
Proof.
  revert c. induction fuel as [|fuel IH]; intros c Hc Hf; [lia|].
  cbn [skip_blank_loop]. next_token buf loaded c.
  - assert (exists s c', skip_blank_loop buf loaded fuel (c + bp_length t) = Some (s, c') /\
      c + bp_length t <= c' <= zlen buf) as (s & c' & E2 & ?) by (apply IH; lia).
    destruct ty; eexists _, _; (split; [eassumption || done|lia]).
  - eexists _, _. split; [done|lia].
Qed.

Lemma skip_blank_loop_more fuel fuel' c :
  0 <= c <= zlen buf -> (fuel <= fuel')%nat ->
  same_with_more (skip_blank_loop buf false fuel c) (skip_blank_loop longer loaded fuel' c).
Proof.
  revert fuel' c. induction fuel as [|fuel IH]; intros fuel' c Hc Hf s x; [done|].
  destruct fuel' as [|fuel']; [lia|]. cbn [skip_blank_loop].
  next_token_more buf c more loaded; [|done].
  destruct ty; try done; apply IH; lia.
Qed.

Lemma skip_lws_loop_spec fuel c :
  0 <= c <= zlen buf -> zlen buf - c < Z.of_nat fuel ->
  in_bounds buf c (skip_lws_loop buf loaded fuel c).
Proof.
  revert c. induction fuel as [|fuel IH]; intros c Hc Hf; [lia|].
  cbn [skip_lws_loop]. next_token buf loaded c; [|by eexists _, _; split; [done|lia]].
  assert (forall c1, c < c1 <= zlen buf -> in_bounds buf c (skip_lws_loop buf loaded fuel c1))
    as Hgo.
  { intros c1 Hc1. destruct (IH c1) as (s & c' & E2 & ?); [lia..|]. eexists _, _.
    split; [exact E2|lia]. }
  assert (forall s, in_bounds buf c (Some (s, c))) as Hstay by (intros s; eexists _, _; split; [done|lia]).
  destruct ty; auto; [apply Hgo; lia|].
  next_token buf loaded (c + bp_length t); [|done].
  destruct ty; auto. apply Hgo. lia.
Qed.

Lemma skip_lws_loop_more fuel fuel' c :
  0 <= c <= zlen buf -> (fuel <= fuel')%nat ->
  same_with_more (skip_lws_loop buf false fuel c) (skip_lws_loop longer loaded fuel' c).
Proof.
  revert fuel' c. induction fuel as [|fuel IH]; intros fuel' c Hc Hf s x; [done|].
  destruct fuel' as [|fuel']; [lia|]. cbn [skip_lws_loop].
  next_token_more buf c more loaded; [|done].
  destruct ty; try done; [apply IH; lia|].
  next_token_more buf (c + bp_length t) more loaded; [|done].
  destruct ty; try done. apply IH; lia.
Qed.

Lemma non_ws_loop_spec fuel c len :
  0 <= c <= zlen buf -> zlen buf - c < Z.of_nat fuel ->
  exists s c' n, non_ws_loop buf loaded fuel c len = Some (s, c', n) /\ c <= c' <= zlen buf /\
    n = len + (c' - c).
Proof.
  revert c len. induction fuel as [|fuel IH]; intros c len Hc Hf; [lia|].
  cbn [non_ws_loop]. next_token buf loaded c; [|by eexists _, _, _; split; [done|lia]].
  destruct (IH (c + bp_length t) (len + bp_length t)) as (s & c' & n & E2 & ? & ?); [lia..|].
  destruct ty; eexists _, _, _; (split; [eassumption || done|lia]).
Qed.

Lemma non_ws_loop_more fuel fuel' c len s c' n :
  0 <= c <= zlen buf -> (fuel <= fuel')%nat ->
  non_ws_loop buf false fuel c len = Some (s, c', n) -> s <> PARSE_INCOMPLETE ->
  non_ws_loop longer loaded fuel' c len = Some (s, c', n).
Proof.
  revert fuel' c len. induction fuel as [|fuel IH]; intros fuel' c len Hc Hf; [done|].
  destruct fuel' as [|fuel']; [lia|]. cbn [non_ws_loop].
  next_token_more buf c more loaded; [|done].
  destruct ty; try done; apply IH; lia.
Qed.

(** All characters from [i] up to [j] are white space or line ends. *)
Definition blank (i j : Z) : Prop := forall k, i <= k < j -> is_trimmed (rd buf k) = true.

Lemma rd_slice c n k : 0 <= c -> c + n <= zlen buf -> c <= k < c + n ->
  rd buf k = rd (zslice c n buf) (k - c).
Proof.
  intros Hc Hn Hk. unfold zslice. rewrite rd_ztake, rd_zdrop by lia. f_equal. lia.
Qed.

Lemma crlf_blank c n rest :
  0 <= c -> c + n <= zlen buf -> lexeme TT_CRLF (zslice c n buf) rest -> blank c (c + n).
Proof.
  intros Hc Hn Hl k Hk. rewrite (rd_slice c n) by lia.
  assert (zlen (zslice c n buf) = n) as Hz by (apply zlen_zslice; lia).
  destruct Hl as [E|E]; rewrite E in *; unfold zlen in Hz; simpl in Hz.
  - assert (k - c = 0 \/ k - c = 1) as [-> | ->] by lia; done.
  - by replace (k - c) with 0 by lia.
Qed.

Lemma raw_loop_spec start fuel c p :
  0 <= start <= c -> c <= zlen buf -> zlen buf - c < Z.of_nat fuel ->
  match p with None => True | Some q => start <= q < c /\ blank q c end ->
  exists s c' n, raw_loop buf loaded fuel c p (c - start) = Some (s, c', n) /\
    start <= c' <= zlen buf /\ 0 <= n <= zlen buf - start /\
    (s = PARSE_OK -> c' < start + n /\ blank c' (start + n)).
Proof.
  revert c p. induction fuel as [|fuel IH]; intros c p Hs Hc Hf Hp; [lia|].
  cbn [raw_loop]. next_token buf loaded c.
  2: { eexists _, _, _. split; [done|]. split; [lia|]. split; [lia|].
       intros ->. by destruct Htok. }
  assert (forall q, match q with None => True | Some q => start <= q < c + bp_length t /\
      blank q (c + bp_length t) end ->
    exists s c' m, raw_loop buf loaded fuel (c + bp_length t) q (c - start + bp_length t)
        = Some (s, c', m) /\ start <= c' <= zlen buf /\ 0 <= m <= zlen buf - start /\
      (s = PARSE_OK -> c' < start + m /\ blank c' (start + m))) as Hgo.
  { intros q Hq. replace (c - start + bp_length t) with (c + bp_length t - start) by lia.
    apply IH; lia || done. }
  destruct p as [q|]; destruct ty; try (by apply Hgo).
  1-5: eexists _, _, _; (split; [done|]); (split; [lia|]); (split; [lia|]); intros _;
    replace (start + (c - start)) with c by lia; lia || (split; [lia|]; apply Hp).
  apply Hgo. split; [lia|]. replace (c + bp_length t - bp_length t) with c by lia.
  by eapply crlf_blank; [lia|lia|].
Qed.

Lemma raw_loop_more fuel fuel' c p len s c' n :
  0 <= c <= zlen buf -> (fuel <= fuel')%nat ->
  raw_loop buf false fuel c p len = Some (s, c', n) -> s <> PARSE_INCOMPLETE ->
  raw_loop longer loaded fuel' c p len = Some (s, c', n).
Proof.
  revert fuel' c p len. induction fuel as [|fuel IH]; intros fuel' c p len Hc Hf; [done|].
  destruct fuel' as [|fuel']; [lia|]. cbn [raw_loop].
  next_token_more buf c more loaded; [|done].
  destruct ty, p; try done; apply IH; lia.
Qed.

Lemma until_crlf_loop_spec fuel c :
  0 <= c <= zlen buf -> zlen buf - c < Z.of_nat fuel ->
  in_bounds buf c (until_crlf_loop buf loaded fuel c).
Proof.
  revert c. induction fuel as [|fuel IH]; intros c Hc Hf; [lia|].
  cbn [until_crlf_loop]. next_token buf loaded c; [|by eexists _, _; split; [done|lia]].
  assert (exists s c', until_crlf_loop buf loaded fuel (c + bp_length t) = Some (s, c') /\
    c + bp_length t <= c' <= zlen buf) as (s & c' & E2 & ?) by (apply IH; lia).
  destruct ty; eexists _, _; (split; [eassumption || done|lia]).
Qed.

Lemma until_crlf_loop_ok fuel c c' :
  0 <= c <= zlen buf -> until_crlf_loop buf loaded fuel c = Some (PARSE_OK, c') ->
  c' < zlen buf /\ (rd buf c' = TOKCHAR_CR \/ rd buf c' = TOKCHAR_LF).
Proof.
  revert c. induction fuel as [|fuel IH]; intros c Hc; [done|]. cbn [until_crlf_loop].
  next_token buf loaded c; [|by intros [= -> <-]; destruct Htok].
  destruct ty; try (apply IH; lia). intros [= <-].
  replace (c + bp_length t - bp_length t) with c by lia. split; [lia|].
  rewrite (rd_slice c (bp_length t)), Z.sub_diag by lia.
  by destruct Hlex as [-> | ->]; [left|right].
Qed.

Lemma until_crlf_loop_more fuel fuel' c :
  0 <= c <= zlen buf -> (fuel <= fuel')%nat ->
  same_with_more (until_crlf_loop buf false fuel c) (until_crlf_loop longer loaded fuel' c).
Proof.
  revert fuel' c. induction fuel as [|fuel IH]; intros fuel' c Hc Hf s x; [done|].
  destruct fuel' as [|fuel']; [lia|]. cbn [until_crlf_loop].
  next_token_more buf c more loaded; [|done].
  destruct ty; try done; apply IH; lia.
Qed.
End Scanning.

(** ** Lemmas: numbers *)

Lemma scan_digits_stop base a d r1 r2 acc n :
  digit_val d = None ->
  scan_digits base (a ++ d :: r1) acc n = scan_digits base (a ++ d :: r2) acc n.
Proof.
  intros Hd. revert acc n. induction a as [|c a IH]; intros acc n; simpl; [by rewrite Hd|].
  destruct (digit_val c); [|done]. by destruct (_ <? _).
Qed.

Lemma alnum_identifier c : isalnum c = true -> is_identifier_char c = true.
Proof.
  intros H. assert (0 <= c < 128) as Hc
    by (unfold isalnum, isalpha, isupper, islower, isdigit in H; lia).
  assert (forallb (fun c => implb (isalnum c) (is_identifier_char c)) (seqZ 0 128) = true)
    as Hall by (vm_compute; done).
  rewrite forallb_forall in Hall. specialize (Hall c).
  rewrite H in Hall. apply Hall. apply list_elem_of_In, elem_of_seqZ. lia.
Qed.

Lemma identifier_stop d : is_identifier_char d = false ->
  digit_val d = None /\ isxdigit d = false /\ tolower d <> 120 /\ d <> 48 /\ d <> 45 /\ d <> 43.
Proof.
  intros H. assert (forall c, is_identifier_char c = true -> d <> c) as Hne by (intros c Hc ->; congruence).
  assert (isalnum d = false) as Hal.
  { destruct (isalnum d) eqn:E; [|done]. exfalso.
    by rewrite (alnum_identifier d E) in H. }
  unfold isalnum, isalpha in Hal. apply orb_false_iff in Hal as [[Hu Hl]%orb_false_iff Hd].
  split; [unfold digit_val; by rewrite Hd, Hu, Hl|].
  split; [unfold isxdigit, isupper, islower, isdigit in *; lia|].
  split; [unfold tolower; rewrite Hu; intros ->; done|].
  split; [by apply Hne|]. split; by apply Hne.
Qed.

Lemma identifier_no_space c : is_identifier_char c = true -> isspace c = false.
Proof.
  unfold is_identifier_char, isspace. intros H.
  destruct (Z.eqb_spec c 32) as [->|]; [done|]. lia.
Qed.

(** [strtol] on an identifier does not depend on what follows it. *)
Lemma strtol_stop s d r1 r2 base :
  s <> [] -> Forall (fun c => is_identifier_char c = true) s ->
  is_identifier_char d = false ->
  strtol (s ++ d :: r1) base = strtol (s ++ d :: r2) base.
Proof.
  intros Hs Hid Hd. destruct (identifier_stop d Hd) as (D1 & D2 & D3 & D4 & D5 & D6).
  destruct s as [|c s]; [done|]. apply Forall_cons_1 in Hid as [Hc _].
  unfold strtol. cbn [app skip_space]. rewrite (identifier_no_space c Hc).
  rewrite !rd_cons_0. set (n2 := if (c =? 45) || (c =? 43) then 1 else 0).
  set (t := if (c =? 45) || (c =? 43) then s else c :: s).
  assert (forall r, zdrop n2 (c :: s ++ d :: r) = t ++ d :: r) as Ht
    by (intros r; unfold n2, t; by destruct ((c =? 45) || (c =? 43))).
  rewrite !Ht. clearbody n2 t.
  assert (hex_prefix base (t ++ d :: r1) = hex_prefix base (t ++ d :: r2) /\
    hex_prefix base (t ++ d :: r2) <= zlen t /\ 0 <= hex_prefix base (t ++ d :: r2)) as (-> & Hx & Hx0).
  { unfold hex_prefix. destruct t as [|x [|y [|z t]]]; cbn [app].
    - rewrite !rd_cons_0, (proj2 (Z.eqb_neq d 48)) by done. rewrite !andb_false_r. by split.
    - change (rd (x :: d :: ?r) 1) with d. rewrite (proj2 (Z.eqb_neq (tolower d) 120)) by done.
      rewrite !andb_false_r. by split.
    - change (rd (x :: y :: d :: ?r) 2) with d. rewrite D2, !andb_false_r. by split.
    - split; [done|]. unfold zlen. simpl. case_match; lia. }
  assert (forall r, zdrop (hex_prefix base (t ++ d :: r2)) (t ++ d :: r)
    = zdrop (hex_prefix base (t ++ d :: r2)) t ++ d :: r) as Hz
    by (intros r; by apply zdrop_app_le).
  rewrite !Hz. by rewrite (scan_digits_stop base _ d r1 r2).
Qed.

(** ** Lemmas: matchers *)

Section Matchers.
Context (buf more : list Z) (loaded : bool).
Abbreviation longer := (buf ++ more).

Definition bounded {O} (c : Z) (P : Z -> O -> Prop) (r : option (parse_status_t * Z * O))
    : Prop :=
  exists s c' o, r = Some (s, c', o) /\ c <= c' <= zlen buf /\ (s = PARSE_OK -> P c' o).
Definition stable {O} (r1 r2 : option (parse_status_t * Z * O)) : Prop :=
  forall s c' o, r1 = Some (s, c', o) -> s <> PARSE_INCOMPLETE -> r2 = Some (s, c', o).

Lemma skip_blank_lines_spec c :
  0 <= c <= zlen buf -> in_bounds buf c (skip_blank_lines buf loaded c).
Proof. intros Hc. apply skip_blank_loop_spec; [lia|]. apply fuel_ok. lia. Qed.
Lemma skip_blank_lines_more c :
  0 <= c <= zlen buf ->
  same_with_more (skip_blank_lines buf false c) (skip_blank_lines longer loaded c).
Proof. intros Hc. apply skip_blank_loop_more; [lia|]. apply fuel_more. Qed.

Lemma skip_lws_spec c : 0 <= c <= zlen buf -> in_bounds buf c (skip_lws buf loaded c).
Proof.
  intros Hc. unfold skip_lws.
  destruct (skip_lws_loop_spec buf loaded (loop_fuel buf) c) as (s & c' & -> & ?);
    [lia|apply fuel_ok; lia|]. cbn. by eexists _, _.
Qed.
Lemma skip_lws_more c :
  0 <= c <= zlen buf -> same_with_more (skip_lws buf false c) (skip_lws longer loaded c).
Proof.
  intros Hc s x. unfold skip_lws.
  destruct (skip_lws_loop buf false (loop_fuel buf) c) as [[s' c']|] eqn:E; [|done].
  cbn [mbind option_bind]. rewrite andb_false_r. intros [= -> <-] Hs.
  rewrite (skip_lws_loop_more buf more loaded _ _ c Hc (fuel_more buf more) _ _ E Hs).
  cbn [mbind option_bind]. by rewrite (bool_decide_false _ Hs).
Qed.

Lemma match_non_ws_string_spec c :
  0 <= c <= zlen buf -> bounded c (fun c' t => bp_off t = c /\ 0 <= bp_length t /\
    c + bp_length t <= c') (match_non_ws_string buf loaded c).
Proof.
  intros Hc. unfold match_non_ws_string.
  destruct (non_ws_loop_spec buf loaded (loop_fuel buf) c 0) as (s & c' & n & -> & ? & ->);
    [lia|apply fuel_ok; lia|]. cbn.
  destruct s, loaded; eexists _, _, _; (split; [done|]); (split; [lia|]);
    solve [intros [=] | intros _; cbn; lia].
Qed.
Lemma match_non_ws_string_more c :
  0 <= c <= zlen buf ->
  stable (match_non_ws_string buf false c) (match_non_ws_string longer loaded c).
Proof.
  intros Hc s c' o. unfold match_non_ws_string.
  destruct (non_ws_loop buf false (loop_fuel buf) c 0) as [[[s' d] n]|] eqn:E; [|done].
  cbn [mbind option_bind]. intros H Hs. assert (s' <> PARSE_INCOMPLETE) as Hs'.
  { intros ->. by injection H as <- _ _. }
  rewrite (non_ws_loop_more buf more loaded _ _ c 0 _ _ _ Hc (fuel_more buf more) E Hs').
  by destruct s'.
Qed.

Lemma trim_right_more b m fuel off len :
  0 <= off -> off + len <= zlen b ->
  trim_right (b ++ m) fuel off len = trim_right b fuel off len.
Proof.
  revert len. induction fuel as [|fuel IH]; intros len Ho Hl; [done|]. cbn [trim_right].
  destruct (Z.ltb_spec 0 len); [|done]. rewrite rd_app_l by lia.
  destruct (is_trimmed _); [|done]. apply IH; lia.
Qed.

Lemma trim_right_nonneg fuel off len : 0 <= len -> 0 <= trim_right buf fuel off len.
Proof.
  revert len. induction fuel as [|fuel IH]; intros len Hl; [done|]. cbn [trim_right].
  destruct (Z.ltb_spec 0 len); [|done]. destruct (is_trimmed _); [|done]. apply IH. lia.
Qed.
Lemma trim_right_blank fuel off len m :
  0 <= m <= len -> len <= Z.of_nat fuel ->
  (forall k, off + m <= k < off + len -> is_trimmed (rd buf k) = true) ->
  trim_right buf fuel off len <= m.
Proof.
  revert len. induction fuel as [|fuel IH]; intros len Hm Hf Hb; [simpl; lia|]. cbn [trim_right].
  destruct (Z.ltb_spec 0 len); [|lia]. destruct (decide (len = m)) as [->|].
  - destruct (is_trimmed _); [|done]. etrans; [|apply Z.le_refl].
    assert (forall f l, l <= m -> trim_right buf f off l <= m) as Hle.
    { clear. intros f. induction f as [|f IH]; intros l Hl; [done|]. cbn [trim_right].
      destruct (0 <? l); [|done]. destruct (is_trimmed _); [|done]. apply IH. lia. }
    apply Hle. lia.
  - rewrite Hb by lia. apply IH; [lia|lia|]. intros k Hk. apply Hb. lia.
Qed.

Lemma match_raw_value_spec c :
  0 <= c <= zlen buf -> bounded c (fun c' t => bp_off t = c /\ 0 <= bp_length t /\
    c + bp_length t <= c') (match_raw_value buf loaded c).
Proof.
  intros Hc. unfold match_raw_value.
  destruct (raw_loop_spec buf loaded c (loop_fuel buf) c None) as (s & c' & n & E & ? & Hn & Hok);
    [lia|lia|apply fuel_ok; lia|done|]. rewrite Z.sub_diag in E. rewrite E. cbn.
  destruct s; try (eexists _, _, _; split; [done|split; [lia|done]]).
  eexists _, _, _. split; [done|]. split; [lia|]. intros _. cbn.
  destruct (Hok eq_refl) as [Hlt Hb]. split; [done|].
  split; [apply trim_right_nonneg; lia|].
  pose proof (trim_right_blank (Z.to_nat n) c n (c' - c)) as Ht.
  assert (trim_right buf (Z.to_nat n) c n <= c' - c); [|lia]. apply Ht; [lia|lia|].
  intros k Hk. apply Hb. lia.
Qed.
Lemma match_raw_value_more c :
  0 <= c <= zlen buf ->
  stable (match_raw_value buf false c) (match_raw_value longer loaded c).
Proof.
  intros Hc s c' o. unfold match_raw_value.
  destruct (raw_loop_spec buf false c (loop_fuel buf) c None) as (s' & d & n & E & ? & Hn & _);
    [lia|lia|apply fuel_ok; lia|done|]. rewrite Z.sub_diag in E. rewrite E.
  cbn [mbind option_bind]. intros H1 Hs. assert (s' <> PARSE_INCOMPLETE) as Hs'.
  { intros ->. by injection H1 as <- _ _. }
  rewrite (raw_loop_more buf more loaded _ _ c None 0 _ _ _ Hc (fuel_more buf more) E Hs').
  cbn [mbind option_bind]. destruct s'; try done. by rewrite trim_right_more by lia.
Qed.

Lemma read_until_crlf_spec c :
  0 <= c <= zlen buf -> bounded c (fun c' t => bp_off t = c /\ 0 <= bp_length t /\
    c' = c + bp_length t /\ c' < zlen buf /\
    (rd buf c' = TOKCHAR_CR \/ rd buf c' = TOKCHAR_LF)) (read_until_crlf buf loaded c).
Proof.
  intros Hc. unfold read_until_crlf.
  destruct (until_crlf_loop_spec buf loaded (loop_fuel buf) c) as (s & c' & E & ?);
    [lia|apply fuel_ok; lia|]. rewrite E. eexists _, _, _. split; [done|]. split; [done|].
  intros ->. cbn. destruct (until_crlf_loop_ok buf loaded _ c c' ltac:(lia) E).
  split; [done|]. split; [lia|]. split; [lia|]. done.
Qed.
Lemma read_until_crlf_more c :
  0 <= c <= zlen buf ->
  stable (read_until_crlf buf false c) (read_until_crlf longer loaded c).
Proof.
  intros Hc s c' o. unfold read_until_crlf.
  destruct (until_crlf_loop buf false (loop_fuel buf) c) as [[s' d]|] eqn:E; [|done].
  cbn [mbind option_bind]. intros [= -> <- <-] Hs.
  by rewrite (until_crlf_loop_more buf more loaded _ _ c Hc (fuel_more buf more) _ _ E Hs).
Qed.

Lemma match_type_spec c ty : 0 <= c <= zlen buf -> bounded c (fun c' ts => exists t,
    ts = [t] /\ bp_off t = c /\ 0 < bp_length t /\ c' = c + bp_length t)
    (match_type buf loaded c ty).
Proof.
  intros Hc. unfold match_type. next_token buf loaded c; eexists _, _, _; (split; [done|]).
  - split; [lia|]. intros _. by exists t.
  - split; [lia|]. intros ->. by destruct Htok.
Qed.
Lemma match_type_more c ty :
  0 <= c <= zlen buf -> stable (match_type buf false c ty) (match_type longer loaded c ty).
Proof.
  intros Hc s c' o. unfold match_type. next_token_more buf c more loaded; done.
Qed.

Lemma match_char_more c ch cse s c' :
  match_char buf c ch cse = (s, c') -> s <> PARSE_INCOMPLETE ->
  match_char longer c ch cse = (s, c').
Proof.
  unfold match_char. pose proof (zlen_nonneg more). destruct (Z.leb_spec (zlen buf) c);
    [by intros [= <- <-]|]. rewrite zlen_app, (proj2 (Z.leb_gt _ c)) by lia.
  by rewrite rd_app_l by lia.
Qed.
Lemma match_char_bounds c ch cse :
  0 <= c <= zlen buf -> c <= (match_char buf c ch cse).2 <= zlen buf.
Proof.
  intros Hc. unfold match_char. destruct (Z.leb_spec (zlen buf) c); simpl; lia.
Qed.

(** Behind an identifier of a buffer that is not complete comes a character
    that is part of no identifier. *)
Lemma identifier_ends c t c' :
  0 <= c <= zlen buf ->
  scanner_get_token buf false c = Some (Token t TT_IDENTIFIER c') ->
  exists s d r, zdrop (bp_off t) buf = s ++ d :: r /\ zlen s = bp_length t /\ s <> [] /\
    Forall (fun c => is_identifier_char c = true) s /\ is_identifier_char d = false.
Proof.
  intros Hc E.
  pose proof (scanner_get_token_more buf c _ [65] false Hc E ltac:(done)) as E2.
  destruct (scanner_get_token_spec buf false c Hc) as (r1 & E' & Hr). rewrite E in E'.
  injection E' as <-. destruct Hr as (Ho & Hl & -> & Hz & Hne & Hid & _).
  destruct (scanner_get_token_spec (buf ++ [65]) false c) as (r2 & E3 & Hr);
    [rewrite zlen_app; pose proof (zlen_nonneg [65]); lia|].
  rewrite E2 in E3. injection E3 as <-. destruct Hr as (_ & _ & _ & _ & _ & _ & Hnext).
  rewrite Ho. exists (zslice c (bp_length t) buf).
  rewrite zdrop_app_le in Hnext by lia.
  assert (zdrop c buf = zslice c (bp_length t) buf ++ zdrop (c + bp_length t) buf) as Hd.
  { unfold zslice. rewrite <- zdrop_zdrop by lia. by rewrite ztake_zdrop. }
  destruct (zdrop (c + bp_length t) buf) as [|d r]; [by specialize (Hnext 65 eq_refl)|].
  exists d, r. split; [done|]. split; [apply zlen_zslice; lia|]. split; [done|].
  split; [done|]. by apply Hnext.
Qed.

Lemma match_int_spec c base : 0 <= c <= zlen buf -> bounded c (fun c' n => c < c' /\ is_Some n) (match_int buf loaded c base).
Proof.
  intros Hc. unfold match_int. next_token buf loaded c.
  - destruct ty; try (eexists _, _, _; split; [done|]; split; [lia|done]).
    destruct (token_to_long _ _ _) as [[] num]; eexists _, _, _; (split; [done|]);
      (split; [lia|]); [|done]. split; [lia|eauto].
  - eexists _, _, _. split; [done|]. split; [lia|]. intros ->. by destruct Htok.
Qed.
Lemma match_int_more c base :
  0 <= c <= zlen buf ->
  stable (match_int buf false c base) (match_int longer loaded c base).
Proof.
  intros Hc s c' o. unfold match_int. next_token_more buf c more loaded; [|done].
  destruct ty; try done.
  destruct (identifier_ends c t _ Hc E) as (x & d & r & Hd & _ & Hne & Hid & Hn).
  rewrite zdrop_app_le by lia. rewrite Hd, <- app_assoc. cbn [app].
  unfold token_to_long. rewrite (strtol_stop x d (r ++ more) r base) by done. done.
Qed.
End Matchers.

(** ** Lemmas: patterns *)

(** A pattern of the directives the parser uses on a growing message: known
    ones, without [%U] and [%0]. *)
Definition plain_directive (c : Z) : bool :=
  existsb (Z.eqb c) (cs "RscdxSL %niqwP").
Fixpoint plain_fmt (fmt : list Z) : bool :=
  match fmt with
  | [] => true
  | c :: fmt' =>
      if c =? $"%" then
        match fmt' with [] => false | d :: fmt'' => plain_directive d && plain_fmt fmt'' end
      else plain_fmt fmt'
  end.

(** What a directive and a literal that match have consumed and put out. *)
Definition directive_post (buf : list Z) (d c c' : Z) (outs : list arg) : Prop :=
  if (d =? $"R") || (d =? $"S") then
    exists t, outs = [AStr t] /\ bp_off t = c /\ 0 <= bp_length t /\ c + bp_length t <= c'
  else if (d =? $"s") || (d =? $"q") then
    exists t, outs = [AStr t] /\ bp_off t = c /\ 0 < bp_length t /\ c' = c + bp_length t
  else if d =? $"c" then outs = [] /\ c < c'
  else if (d =? $"d") || (d =? $"x") then exists n, outs = [AInt n] /\ c < c'
  else if d =? $"L" then
    exists t, outs = [AStr t] /\ bp_off t = c /\ 0 <= bp_length t /\ c' = c + bp_length t /\
      c' < zlen buf /\ (rd buf c' = TOKCHAR_CR \/ rd buf c' = TOKCHAR_LF)
  else if d =? $"P" then True
  else outs = [].

Definition literal_post (ch c c' : Z) : Prop :=
  if ch =? $" " then True else c < c'.

(** A match of the pattern from [c] to [c']. *)
Fixpoint matched (buf fmt : list Z) (c c' : Z) (outs : list arg) : Prop :=
  match fmt with
  | [] => c' = c /\ outs = []
  | x :: fmt' =>
      if x =? $"%" then
        match fmt' with
        | [] => False
        | d :: fmt'' => exists c1 o1 o2, outs = o1 ++ o2 /\ c <= c1 <= zlen buf /\
            directive_post buf d c c1 o1 /\ matched buf fmt'' c1 c' o2
        end
      else exists c1, c <= c1 <= zlen buf /\ literal_post x c c1 /\ matched buf fmt' c1 c' outs
  end.

Section Patterns.
Context (getaddrinfo : list Z -> option (list sockaddr))
  (inet_pton : Z -> list Z -> option (list Z)) (gIF_INDEX : Z).
Abbreviation directive := (match_directive getaddrinfo inet_pton gIF_INDEX).
Abbreviation vloop := (vfmatch_loop getaddrinfo inet_pton gIF_INDEX).

Lemma plain_directive_inv d :
  plain_directive d = true ->
  In d [ $"R"; $"s"; $"c"; $"d"; $"x"; $"S"; $"L"; $" "; $"%"; $"n"; $"i"; $"q"; $"w"; $"P"].
Proof. unfold plain_directive. intros (x & Hx & ->%Z.eqb_eq)%existsb_exists. done. Qed.

Ltac directive_run H :=
  let s := fresh "s" in let c' := fresh "c'" in let o := fresh "o" in
  let E := fresh in let B := fresh in let P := fresh "P" in
  destruct H as (s & c' & o & E & B & P);
  eexists _, _, _, _; split;
    [intros ?; unfold mbind, M_bind; rewrite E; reflexivity|split; [exact B|intros ->]];
  specialize (P eq_refl); unfold directive_post; cbn [Z.eqb Pos.eqb orb].

Lemma match_directive_spec buf loaded d c cse :
  plain_directive d = true -> 0 <= c <= zlen buf ->
  exists s c' cse' outs,
    (forall o, directive buf loaded d c cse o = Ret (s, c', cse', outs) o) /\
    c <= c' <= zlen buf /\ (s = PARSE_OK -> directive_post buf d c c' outs).
Proof.
  intros Hd%plain_directive_inv Hc. unfold match_directive.
  pose proof (match_char_bounds buf c d cse Hc).
  repeat destruct Hd as [<-|Hd]; [..|done]; cbn [Z.eqb Pos.eqb orb].
  - directive_run (match_raw_value_spec buf loaded c Hc). by exists o.
  - directive_run (match_type_spec buf loaded c TT_IDENTIFIER Hc).
    destruct P as (t & -> & ?). by exists t.
  - directive_run (match_type_spec buf loaded c TT_CRLF Hc).
    destruct P as (t & -> & ?). split; [done|lia].
  - directive_run (match_int_spec buf loaded c 10 Hc). destruct P as [? [n ->]]. by exists n.
  - directive_run (match_int_spec buf loaded c 16 Hc). destruct P as [? [n ->]]. by exists n.
  - directive_run (match_non_ws_string_spec buf loaded c Hc). by exists o.
  - directive_run (read_until_crlf_spec buf loaded c Hc). by exists o.
  - destruct (match_char buf c _ cse) as [s c']. by eexists _, _, _, _.
  - destruct (match_char buf c _ cse) as [s c']. by eexists _, _, _, _.
  - eexists _, _, _, _. split; [done|]. by split; [lia|].
  - eexists _, _, _, _. split; [done|]. by split; [lia|].
  - directive_run (match_type_spec buf loaded c TT_QUOTEDSTRING Hc).
    destruct P as (t & -> & ?). by exists t.
  - destruct (scanner_get_token_spec buf loaded c Hc) as (r & E & Hr).
    destruct r as [t ty c1|st]; [destruct Hr as (_ & ? & -> & ? & _); destruct ty|];
      (eexists _, _, _, _; split;
        [intros ?; unfold mbind, M_bind; rewrite E; reflexivity|split; [lia|done]]).
  - eexists _, _, _, _. split; [done|]. by split; [lia|].
Qed.

Ltac directive_more H :=
  unfold mbind, M_bind;
  match goal with |- context [liftO ?x] => destruct x as [[[? ?] ?]|] eqn:?E end;
  cbn [liftO]; [|intros; discriminate]; intros [= <- <- <- <- <-] ?Hs;
  match goal with E : _ = Some _ |- _ => rewrite (H _ _ _ E) by assumption; reflexivity end.

Lemma match_directive_more buf more loaded d c cse s c' cse' outs o o' :
  plain_directive d = true -> 0 <= c <= zlen buf ->
  directive buf false d c cse o = Ret (s, c', cse', outs) o' -> s <> PARSE_INCOMPLETE ->
  directive (buf ++ more) loaded d c cse o = Ret (s, c', cse', outs) o'.
Proof.
  intros Hd%plain_directive_inv Hc. unfold match_directive.
  repeat destruct Hd as [<-|Hd]; [..|done]; cbn [Z.eqb Pos.eqb orb].
  - directive_more (match_raw_value_more buf more loaded c Hc).
  - directive_more (match_type_more buf more loaded c TT_IDENTIFIER Hc).
  - directive_more (match_type_more buf more loaded c TT_CRLF Hc).
  - directive_more (match_int_more buf more loaded c 10 Hc).
  - directive_more (match_int_more buf more loaded c 16 Hc).
  - directive_more (match_non_ws_string_more buf more loaded c Hc).
  - directive_more (read_until_crlf_more buf more loaded c Hc).
  - destruct (match_char buf c _ cse) as [s1 c1] eqn:E. intros [= <- <- <- <- <-] Hs.
    by rewrite (match_char_more buf more c _ cse _ _ E Hs).
  - destruct (match_char buf c _ cse) as [s1 c1] eqn:E. intros [= <- <- <- <- <-] Hs.
    by rewrite (match_char_more buf more c _ cse _ _ E Hs).
  - done.
  - done.
  - directive_more (match_type_more buf more loaded c TT_QUOTEDSTRING Hc).
  - unfold mbind, M_bind. destruct (scanner_get_token buf false c) as [r|] eqn:E; [|done].
    cbn [liftO]. intros H Hs.
    rewrite (scanner_get_token_more buf c r more loaded Hc E); [done|].
    intros ->. by injection H as <- _ _ _ _.
  - done.
Qed.

Lemma match_literal_spec buf loaded ch c cse :
  0 <= c <= zlen buf ->
  exists s c', match_literal buf loaded ch c cse = Some (s, c') /\ c <= c' <= zlen buf /\
    (s = PARSE_OK -> literal_post ch c c').
Proof.
  intros Hc. unfold match_literal, literal_post.
  destruct (ch =? 32).
  { destruct (skip_lws_spec buf loaded c Hc) as (s & c' & -> & ?). by exists s, c'. }
  destruct (ch =? 9).
  - destruct (match_type_spec buf loaded c TT_WHITESPACE Hc) as (s & c' & o & -> & B & P).
    eexists _, _. split; [done|]. split; [done|]. intros Hs.
    destruct (P Hs) as (t & _ & _ & ? & ->). lia.
  - unfold match_char. destruct (Z.leb_spec (zlen buf) c); eexists _, _; (split; [done|]).
    + by split; [lia|].
    + split; [lia|]. intros _. lia.
Qed.

Lemma match_literal_more buf more loaded ch c cse :
  0 <= c <= zlen buf ->
  same_with_more (match_literal buf false ch c cse)
    (match_literal (buf ++ more) loaded ch c cse).
Proof.
  intros Hc. unfold match_literal.
  destruct (ch =? 32); [by apply skip_lws_more|]. destruct (ch =? 9).
  - intros s x. destruct (match_type buf false c TT_WHITESPACE) as [[[s' c'] o]|] eqn:E; [|done].
    cbn [mbind option_bind]. intros [= -> <-] Hs.
    by rewrite (match_type_more buf more loaded c _ Hc _ _ _ E Hs).
  - intros s x [= E] Hs. f_equal. by apply match_char_more.
Qed.

Lemma vfmatch_loop_spec buf loaded n fmt c cse outs :
  (length fmt <= n)%nat -> plain_fmt fmt = true -> 0 <= c <= zlen buf ->
  exists s c' outs', (forall o, vloop buf loaded fmt c cse outs o = Ret (s, c', outs ++ outs') o) /\
    c <= c' <= zlen buf /\ (s = PARSE_OK -> matched buf fmt c c' outs').
Proof.
  revert fmt c cse outs. induction n as [|n IH]; intros [|x fmt] c cse outs Hn Hf Hc;
    try (simpl in Hn; lia).
  1, 2: exists PARSE_OK, c, []; rewrite app_nil_r; split; [done|]; by split; [lia|].
  simpl in Hn. cbn [plain_fmt vfmatch_loop matched] in *. destruct (x =? 37).
  - destruct fmt as [|d fmt]; [done|]. apply andb_true_iff in Hf as [Hd Hf].
    destruct (match_directive_spec buf loaded d c cse Hd Hc)
      as (s & c1 & cse1 & out & E & Hc1 & Hp).
    unfold mbind, M_bind. destruct (decide (s = PARSE_OK)) as [->|Hs].
    + destruct (IH fmt c1 cse1 (outs ++ out)) as (s2 & c2 & o2 & E2 & ? & Hm);
        [simpl in Hn; lia|done|lia|].
      exists s2, c2, (out ++ o2). split; [|split; [lia|]].
      * intros o. rewrite E. rewrite decide_True by done. by rewrite E2, app_assoc.
      * intros Hs2. exists c1, out, o2. auto.
    + exists s, c1, out. split; [|by split]. intros o. rewrite E. by rewrite decide_False by done.
  - destruct (match_literal_spec buf loaded x c cse Hc) as (s & c1 & E & Hc1 & Hp).
    unfold mbind, M_bind. rewrite E. cbn [liftO].
    destruct (decide (s = PARSE_OK)) as [->|Hs].
    + destruct (IH fmt c1 cse outs) as (s2 & c2 & o2 & E2 & ? & Hm); [lia|done|lia|].
      exists s2, c2, o2. split; [exact E2|]. split; [lia|]. intros Hs2. exists c1. auto.
    + exists s, c1, []. rewrite app_nil_r. by split.
Qed.

Lemma vfmatch_loop_more buf more loaded n fmt c cse outs s c' outs' o o' :
  (length fmt <= n)%nat -> plain_fmt fmt = true -> 0 <= c <= zlen buf ->
  vloop buf false fmt c cse outs o = Ret (s, c', outs') o' -> s <> PARSE_INCOMPLETE ->
  vloop (buf ++ more) loaded fmt c cse outs o = Ret (s, c', outs') o'.
Proof.
  revert fmt c cse outs o. induction n as [|n IH]; intros [|x fmt] c cse outs o Hn Hf Hc;
    try (simpl in Hn; lia); try done.
  simpl in Hn. cbn [plain_fmt vfmatch_loop] in *. destruct (x =? 37).
  - destruct fmt as [|d fmt]; [done|]. apply andb_true_iff in Hf as [Hd Hf].
    destruct (match_directive_spec buf false d c cse Hd Hc) as (s1 & c1 & cse1 & out & E & Hc1 & _).
    unfold mbind, M_bind. rewrite E. intros H Hs.
    assert (s1 <> PARSE_INCOMPLETE) as Hs1.
    { intros ->. by injection H as <- _ _ _. }
    rewrite (match_directive_more buf more loaded d c cse _ _ _ _ o o Hd Hc (E o) Hs1).
    destruct (decide (s1 = PARSE_OK)); [|done].
    apply IH; [simpl in Hn; lia|done|lia|done|done].
  - destruct (match_literal_spec buf false x c cse Hc) as (s1 & c1 & E & Hc1 & _).
    unfold mbind, M_bind. rewrite E. cbn [liftO]. intros H Hs.
    assert (s1 <> PARSE_INCOMPLETE) as Hs1.
    { intros ->. by injection H as <- _ _ _. }
    rewrite (match_literal_more buf more loaded x c cse Hc _ _ E Hs1). cbn [liftO].
    destruct (decide (s1 = PARSE_OK)); [|done]. apply IH; [lia|done|lia|done|done].
Qed.

Lemma vfmatch_spec buf loaded fmt cursor :
  plain_fmt fmt = true -> 0 <= cursor <= zlen buf ->
  exists s cursor' outs,
    (forall o, vfmatch getaddrinfo inet_pton gIF_INDEX buf loaded fmt cursor o
               = Ret (s, cursor', outs) o) /\
    cursor <= cursor' <= zlen buf /\ (s <> PARSE_OK -> cursor' = cursor) /\
    (s = PARSE_OK -> matched buf fmt cursor cursor' outs) /\
    (loaded = false -> s <> PARSE_INCOMPLETE -> forall more loaded' o,
       vfmatch getaddrinfo inet_pton gIF_INDEX (buf ++ more) loaded' fmt cursor o
       = Ret (s, cursor', outs) o).
Proof.
  intros Hf Hc.
  destruct (vfmatch_loop_spec buf loaded (length fmt) fmt cursor true [])
    as (s & c' & outs & E & Hb & Hm); [lia|done|done|].
  exists s, (if decide (s = PARSE_OK) then c' else cursor), outs. unfold vfmatch, mbind, M_bind.
  split; [intros o; by rewrite E|]. split; [case_decide; lia|].
  split; [intros Hs; by rewrite decide_False by done|].
  split; [intros Hs; rewrite decide_True by done; auto|].
  intros -> Hs more loaded' o.
  by rewrite (vfmatch_loop_more buf more loaded' (length fmt) fmt cursor true [] _ _ _ o o
    ltac:(lia) Hf Hc (E o) Hs).
Qed.
End Patterns.

(** ** Lemmas: statuses of a match *)

Section Statuses.
Context (getaddrinfo : list Z -> option (list sockaddr))
  (inet_pton : Z -> list Z -> option (list Z)) (gIF_INDEX : Z).
Context (buf : list Z) (loaded : bool).

Definition scan_status (s : parse_status_t) : Prop :=
  s = PARSE_OK \/ s = PARSE_INCOMPLETE \/ s = PARSE_FAILURE \/ s = PARSE_NO_MATCH.

Lemma token_status c s : scanner_get_token buf loaded c = Some (NoToken s) -> scan_status s.
Proof.
  intros H. destruct (decide (0 <= c <= zlen buf)) as [Hc|Hc].
  - destruct (scanner_get_token_spec buf loaded c Hc) as (r & E & Hr).
    rewrite E in H. injection H as ->. unfold scan_status. destruct Hr; auto.
  - unfold scanner_get_token in H. destruct ((c <? 0) || _) eqn:E; [done|]. zbool. lia.
Qed.

Ltac status_cases :=
  repeat (case_match || simplify_option_eq); simplify_eq; eauto using token_status;
  unfold scan_status; auto.

Lemma skip_blank_lines_status c s c' :
  skip_blank_lines buf loaded c = Some (s, c') -> scan_status s.
Proof.
  unfold skip_blank_lines. generalize (loop_fuel buf). intros fuel. revert c.
  induction fuel as [|fuel IH]; intros c H; [done|]. cbn in H. status_cases.
Qed.
Lemma skip_lws_loop_status fuel c s c' :
  skip_lws_loop buf loaded fuel c = Some (s, c') -> scan_status s.
Proof. revert c. induction fuel as [|fuel IH]; intros c H; [done|]. cbn in H. status_cases. Qed.
Lemma non_ws_loop_status fuel c n s c' m :
  non_ws_loop buf loaded fuel c n = Some (s, c', m) -> scan_status s.
Proof. revert c n. induction fuel as [|fuel IH]; intros c n H; [done|]. cbn in H. status_cases. Qed.
Lemma raw_loop_status fuel c q n s c' m :
  raw_loop buf loaded fuel c q n = Some (s, c', m) -> scan_status s.
Proof.
  revert c q n. induction fuel as [|fuel IH]; intros c q n H; [done|]. cbn in H. status_cases.
Qed.
Lemma until_crlf_loop_status fuel c s c' :
  until_crlf_loop buf loaded fuel c = Some (s, c') -> scan_status s.
Proof. revert c. induction fuel as [|fuel IH]; intros c H; [done|]. cbn in H. status_cases. Qed.
(** A computation that leaves a scan status, whatever it does else. *)
Definition statuses {A} (f : A -> parse_status_t) (m : M A) : Prop :=
  forall o a o', m o = Ret a o' -> scan_status (f a).

Lemma statuses_ret {A} (f : A -> parse_status_t) a : scan_status (f a) -> statuses f (mret a).
Proof. by intros H o x o' [= <- _]. Qed.
Lemma statuses_bind {A B} (f : B -> parse_status_t) (m : M A) (k : A -> M B) :
  (forall o a o', m o = Ret a o' -> statuses f (k a)) -> statuses f (m ≫= k).
Proof.
  intros H o b o'. unfold mbind, M_bind. destruct (m o) as [a o1| | |] eqn:E; try done.
  exact (H _ _ _ E o1 b o').
Qed.
Lemma statuses_lift {A B} (f : B -> parse_status_t) (r : option A) (k : A -> M B) :
  (forall a, r = Some a -> statuses f (k a)) -> statuses f (liftO r ≫= k).
Proof.
  intros H. apply statuses_bind. intros o a o'. unfold liftO. destruct r; [|done].
  intros [= -> _]. by apply H.
Qed.
Lemma statuses_undefined {B} (f : B -> parse_status_t) b (k : unit -> M B) :
  (b = true -> statuses f (k tt)) -> statuses f (assertM b ≫= k).
Proof.
  intros H. apply statuses_bind. unfold assertM. intros o [] o'. destruct b; [auto|done].
Qed.

Ltac status_step :=
  first [apply statuses_ret; cbn | apply statuses_lift; intros ? ?
        | apply statuses_undefined; intros ?].

Lemma match_type_status c ty s c' ts :
  match_type buf loaded c ty = Some (s, c', ts) -> scan_status s.
Proof. unfold match_type. intros H. status_cases. Qed.
Lemma match_non_ws_string_status c s c' t :
  match_non_ws_string buf loaded c = Some (s, c', t) -> scan_status s.
Proof.
  unfold match_non_ws_string. intros H.
  destruct (non_ws_loop _ _ _ _ _) as [[[s1 c1] n1]|] eqn:E; [|done].
  apply non_ws_loop_status in E. cbn in H. repeat case_match; simplify_eq; unfold scan_status in *; auto.
Qed.

Lemma match_raw_value_status c s c' t :
  match_raw_value buf loaded c = Some (s, c', t) -> scan_status s.
Proof.
  unfold match_raw_value. intros H. destruct (raw_loop _ _ _ _ _ _) as [[[s1 c1] n1]|] eqn:E;
    [|done]. apply raw_loop_status in E. cbn in H. case_match; by simplify_eq.
Qed.
Lemma match_int_status c base s c' n :
  match_int buf loaded c base = Some (s, c', n) -> scan_status s.
Proof. unfold match_int. intros H. status_cases. Qed.
Lemma read_until_crlf_status c s c' t :
  read_until_crlf buf loaded c = Some (s, c', t) -> scan_status s.
Proof.
  unfold read_until_crlf. intros H. destruct (until_crlf_loop _ _ _ _) as [[s1 c1]|] eqn:E;
    [|done]. apply until_crlf_loop_status in E. by simplify_eq/=.
Qed.
Lemma match_char_status c ch cse : scan_status (match_char buf c ch cse).1.
Proof. unfold match_char. repeat case_match; unfold scan_status; cbn; auto. Qed.
Lemma skip_lws_status c s c' : skip_lws buf loaded c = Some (s, c') -> scan_status s.
Proof.
  unfold skip_lws. intros H. destruct (skip_lws_loop _ _ _ _) as [[s1 c1]|] eqn:E; [|done].
  apply skip_lws_loop_status in E. cbn in H. case_match; simplify_eq; [|done].
  unfold scan_status; auto.
Qed.

Hint Resolve match_type_status match_non_ws_string_status match_raw_value_status
  match_int_status read_until_crlf_status token_status : core.

Lemma match_directive_status d c cse :
  statuses (fun r => r.1.1.1)
    (match_directive getaddrinfo inet_pton gIF_INDEX buf loaded d c cse).
Proof.
  pose proof (match_char_status c d cse) as Hchar.
  unfold match_directive. repeat case_match; repeat (status_step || case_match);
    simplify_eq/=; eauto; unfold scan_status; auto.
Qed.

Lemma vfmatch_status fmt c o s c' outs o' :
  vfmatch getaddrinfo inet_pton gIF_INDEX buf loaded fmt c o = Ret (s, c', outs) o' ->
  scan_status s.
Proof.
  assert (forall n fmt c cse outs, (length fmt <= n)%nat -> statuses (fun r => r.1.1)
    (vfmatch_loop getaddrinfo inet_pton gIF_INDEX buf loaded fmt c cse outs)) as H.
  { clear. induction n as [|n IH]; intros [|x fmt] c cse outs Hn; cbn [length] in Hn; try lia;
      try (apply statuses_ret; by left).
    cbn [vfmatch_loop]. case_match.
    - destruct fmt as [|d fmt]; [status_step; status_step; by left|]. cbn [length] in Hn.
      apply statuses_bind. intros o [[[s c1] cse1] out] o' E.
      pose proof (match_directive_status _ _ _ _ _ _ E) as Hs. cbn in Hs.
      case_match; [apply IH; lia|by apply statuses_ret].
    - apply statuses_lift. intros [s c1] E. case_match; [apply IH; lia|]. apply statuses_ret. cbn.
      unfold match_literal in E. destruct (x =? 32); [by eapply skip_lws_status|].
      destruct (x =? 9).
      + destruct (match_type _ _ _ _) as [[[s1 c2] ts]|] eqn:Et; [|done]. simplify_eq/=. eauto.
      + pose proof (match_char_status c x cse) as Hc. injection E as E. by rewrite E in Hc. }
  unfold vfmatch. intros E.
  pose proof (H _ fmt c true [] (le_n _)) as Hl. unfold mbind, M_bind in E.
  destruct (vfmatch_loop _ _ _ _ _ _ _ _ _ _) as [[[s1 c1] o1] o2| | |] eqn:E1; try done.
  apply Hl in E1. unfold mret, M_ret in E. by injection E as <- _ _ _.
Qed.
End Statuses.

(** ** Properties *)

(** [scanner_get_token] reads only the bytes of the buffer and consumes
    what it returns: a token starts at the cursor, is not empty, ends inside
    the buffer, where the cursor is left, and is text of the reported type;
    identifiers and white space are as long as possible. *)
Theorem scanner_get_token_correct buf loaded cursor :
  0 <= cursor <= zlen buf ->
  exists r, scanner_get_token buf loaded cursor = Some r /\
    match r with
    | Token t ty cursor' =>
        bp_off t = cursor /\ 0 < bp_length t /\ cursor' = cursor + bp_length t /\
        cursor' <= zlen buf /\
        lexeme ty (zslice cursor (bp_length t) buf) (zdrop cursor' buf)
    | NoToken s => s = PARSE_INCOMPLETE \/ s = PARSE_FAILURE
    end.
Proof. apply scanner_get_token_spec. Qed.

(** C40: matching against a pattern of the message parser terminates, reads
    only the bytes of the buffer, leaves the cursor where it was unless the
    pattern matches, and never moves it back or out of the buffer; and its
    answer is final: unless it is [PARSE_INCOMPLETE], a buffer that holds more
    data gives the same status, cursor and outputs. *)
Theorem vfmatch_incremental getaddrinfo inet_pton gIF_INDEX buf fmt cursor :
  plain_fmt fmt = true -> 0 <= cursor <= zlen buf ->
  exists s cursor' outs,
    (forall o, vfmatch getaddrinfo inet_pton gIF_INDEX buf false fmt cursor o
               = Ret (s, cursor', outs) o) /\
    cursor <= cursor' <= zlen buf /\ (s <> PARSE_OK -> cursor' = cursor) /\
    (s = PARSE_OK -> matched buf fmt cursor cursor' outs) /\
    (s <> PARSE_INCOMPLETE -> forall more loaded o,
       vfmatch getaddrinfo inet_pton gIF_INDEX (buf ++ more) loaded fmt cursor o
       = Ret (s, cursor', outs) o).
Proof.
  intros Hf Hc. destruct (vfmatch_spec getaddrinfo inet_pton gIF_INDEX buf false fmt cursor Hf Hc)
    as (s & c' & outs & H1 & H2 & H3 & H4 & H5). exists s, c', outs.
  repeat (split; [assumption|]). by apply H5.
Qed.

Lemma scanner_get_token_correct_witness :
  0 <= 4 <= zlen (cs "GET /x") /\
  exists r, scanner_get_token (cs "GET /x") false 4 = Some r /\
    r = Token (Bufptr 4 1) TT_SEPARATOR 5.
Proof.
  split; [vm_compute; split; discriminate|].
  destruct (scanner_get_token_correct (cs "GET /x") false 4) as (r & E & _);
    [vm_compute; split; discriminate|].
  exists r. split; [exact E|]. vm_compute in E. by injection E as <-.
Defined.

Lemma vfmatch_incremental_witness :
  exists s c outs,
    (forall o, vfmatch no_dns any_pton 0 (cs "a: b" ++ [13; 10; 65; 58]) false (cs "%s : %R%c") 0 o
       = Ret (s, c, outs) o) /\ s = PARSE_OK /\ c = 6.
Proof.
  destruct (vfmatch_incremental no_dns any_pton 0 (cs "a: b" ++ [13; 10; 65; 58])
    (cs "%s : %R%c") 0) as (s & c & outs & E & _);
    [reflexivity|vm_compute; split; discriminate|].
  exists s, c, outs. split; [exact E|]. specialize (E []). vm_compute in E.
  injection E as <- <- <-. split; reflexivity.
Defined.
