(* ===== verification/HttpMessage.v ===== *)
(** HTTP messages: the data of [upnp/src/inc/httpparser.h] and the message
    functions of [upnp/src/genlib/net/http/httpparser.c].

    The header list holds the headers in order; [LinkedList.v] shows that the
    linked list the code keeps them in is such a list.  [entity] is an offset
    into the message buffer and a length. *)

From S2P Require Import Prelude CString MemBuffer StrIntMap HttpTables Uri Scanner.

(** ** Data *)

(** [name] points to the block of [name_buf]. *)
Record http_header_t := Header {
  h_name_id : Z;
  h_value : membuffer;
  h_name_buf : membuffer
}.
Definition h_name (h : http_header_t) : memptr :=
  Memptr (default [] (mb_buf (h_name_buf h))) (mb_length (h_name_buf h)).
Definition set_h_value (v : membuffer) (h : http_header_t) : http_header_t :=
  Header (h_name_id h) v (h_name_buf h).

Inductive parser_pos_t :=
| POS_REQUEST_LINE | POS_RESPONSE_LINE | POS_HEADERS | POS_ENTITY | POS_COMPLETE.
#[export] Instance parser_pos_eq_dec : EqDecision parser_pos_t.
Proof. solve_decision. Defined.

Definition ENTREAD_DETERMINE_READ_METHOD : Z := 1.
Definition ENTREAD_USING_CLEN : Z := 2.
Definition ENTREAD_USING_CHUNKED : Z := 3.
Definition ENTREAD_UNTIL_CLOSE : Z := 4.
Definition ENTREAD_CHUNKY_BODY : Z := 5.
Definition ENTREAD_CHUNKY_HEADERS : Z := 6.

Record http_message_t := Message {
  m_initialized : bool;
  m_method : Z;
  m_uri : uri_type;
  m_request_method : Z;
  m_status_code : Z;
  m_status_msg : membuffer;
  m_amount_discarded : Z;
  m_is_request : bool;
  m_major_version : Z;
  m_minor_version : Z;
  m_headers : list http_header_t;
  m_entity : bufptr;
  m_msg_buf : membuffer;
  m_urlbuf : option (list Z)
}.

Definition set_initialized (v : bool) (r : http_message_t) : http_message_t :=
  Message v (m_method r) (m_uri r) (m_request_method r) (m_status_code r)
    (m_status_msg r) (m_amount_discarded r) (m_is_request r) (m_major_version r)
    (m_minor_version r) (m_headers r) (m_entity r) (m_msg_buf r) (m_urlbuf r).
Definition set_method (v : Z) (r : http_message_t) : http_message_t :=
  Message (m_initialized r) v (m_uri r) (m_request_method r) (m_status_code r)
    (m_status_msg r) (m_amount_discarded r) (m_is_request r) (m_major_version r)
    (m_minor_version r) (m_headers r) (m_entity r) (m_msg_buf r) (m_urlbuf r).
Definition set_uri (v : uri_type) (r : http_message_t) : http_message_t :=
  Message (m_initialized r) (m_method r) v (m_request_method r) (m_status_code r)
    (m_status_msg r) (m_amount_discarded r) (m_is_request r) (m_major_version r)
    (m_minor_version r) (m_headers r) (m_entity r) (m_msg_buf r) (m_urlbuf r).
Definition set_request_method (v : Z) (r : http_message_t) : http_message_t :=
  Message (m_initialized r) (m_method r) (m_uri r) v (m_status_code r)
    (m_status_msg r) (m_amount_discarded r) (m_is_request r) (m_major_version r)
    (m_minor_version r) (m_headers r) (m_entity r) (m_msg_buf r) (m_urlbuf r).
Definition set_status_code (v : Z) (r : http_message_t) : http_message_t :=
  Message (m_initialized r) (m_method r) (m_uri r) (m_request_method r) v
    (m_status_msg r) (m_amount_discarded r) (m_is_request r) (m_major_version r)
    (m_minor_version r) (m_headers r) (m_entity r) (m_msg_buf r) (m_urlbuf r).
Definition set_status_msg (v : membuffer) (r : http_message_t) : http_message_t :=
  Message (m_initialized r) (m_method r) (m_uri r) (m_request_method r)
    (m_status_code r) v (m_amount_discarded r) (m_is_request r) (m_major_version r)
    (m_minor_version r) (m_headers r) (m_entity r) (m_msg_buf r) (m_urlbuf r).
Definition set_amount_discarded (v : Z) (r : http_message_t) : http_message_t :=
  Message (m_initialized r) (m_method r) (m_uri r) (m_request_method r)
    (m_status_code r) (m_status_msg r) v (m_is_request r) (m_major_version r)
    (m_minor_version r) (m_headers r) (m_entity r) (m_msg_buf r) (m_urlbuf r).
Definition set_is_request (v : bool) (r : http_message_t) : http_message_t :=
  Message (m_initialized r) (m_method r) (m_uri r) (m_request_method r)
    (m_status_code r) (m_status_msg r) (m_amount_discarded r) v (m_major_version r)
    (m_minor_version r) (m_headers r) (m_entity r) (m_msg_buf r) (m_urlbuf r).
Definition set_major_version (v : Z) (r : http_message_t) : http_message_t :=
  Message (m_initialized r) (m_method r) (m_uri r) (m_request_method r)
    (m_status_code r) (m_status_msg r) (m_amount_discarded r) (m_is_request r) v
    (m_minor_version r) (m_headers r) (m_entity r) (m_msg_buf r) (m_urlbuf r).
Definition set_minor_version (v : Z) (r : http_message_t) : http_message_t :=
  Message (m_initialized r) (m_method r) (m_uri r) (m_request_method r)
    (m_status_code r) (m_status_msg r) (m_amount_discarded r) (m_is_request r)
    (m_major_version r) v (m_headers r) (m_entity r) (m_msg_buf r) (m_urlbuf r).
Definition set_headers (v : list http_header_t) (r : http_message_t) : http_message_t :=
  Message (m_initialized r) (m_method r) (m_uri r) (m_request_method r)
    (m_status_code r) (m_status_msg r) (m_amount_discarded r) (m_is_request r)
    (m_major_version r) (m_minor_version r) v (m_entity r) (m_msg_buf r) (m_urlbuf r).
Definition set_entity (v : bufptr) (r : http_message_t) : http_message_t :=
  Message (m_initialized r) (m_method r) (m_uri r) (m_request_method r)
    (m_status_code r) (m_status_msg r) (m_amount_discarded r) (m_is_request r)
    (m_major_version r) (m_minor_version r) (m_headers r) v (m_msg_buf r) (m_urlbuf r).
Definition set_msg_buf (v : membuffer) (r : http_message_t) : http_message_t :=
  Message (m_initialized r) (m_method r) (m_uri r) (m_request_method r)
    (m_status_code r) (m_status_msg r) (m_amount_discarded r) (m_is_request r)
    (m_major_version r) (m_minor_version r) (m_headers r) (m_entity r) v (m_urlbuf r).
Definition set_urlbuf (v : option (list Z)) (r : http_message_t) : http_message_t :=
  Message (m_initialized r) (m_method r) (m_uri r) (m_request_method r)
    (m_status_code r) (m_status_msg r) (m_amount_discarded r) (m_is_request r)
    (m_major_version r) (m_minor_version r) (m_headers r) (m_entity r) (m_msg_buf r) v.

(** [scanner_t] is part of the parser: its buffer is the message buffer. *)
Record http_parser_t := Parser {
  p_msg : http_message_t;
  p_http_error_code : Z;
  p_valid_ssdp_notify_hack : bool;
  p_position : parser_pos_t;
  p_ent_position : Z;
  p_content_length : Z;
  p_chunk_size : Z;
  p_entity_start_position : Z;
  p_cursor : Z;
  p_entire_msg_loaded : bool
}.

Definition set_msg (v : http_message_t) (r : http_parser_t) : http_parser_t :=
  Parser v (p_http_error_code r) (p_valid_ssdp_notify_hack r) (p_position r)
    (p_ent_position r) (p_content_length r) (p_chunk_size r)
    (p_entity_start_position r) (p_cursor r) (p_entire_msg_loaded r).
Definition set_http_error_code (v : Z) (r : http_parser_t) : http_parser_t :=
  Parser (p_msg r) v (p_valid_ssdp_notify_hack r) (p_position r) (p_ent_position r)
    (p_content_length r) (p_chunk_size r) (p_entity_start_position r) (p_cursor r)
    (p_entire_msg_loaded r).
Definition set_valid_ssdp_notify_hack (v : bool) (r : http_parser_t) : http_parser_t :=
  Parser (p_msg r) (p_http_error_code r) v (p_position r) (p_ent_position r)
    (p_content_length r) (p_chunk_size r) (p_entity_start_position r) (p_cursor r)
    (p_entire_msg_loaded r).
Definition set_position (v : parser_pos_t) (r : http_parser_t) : http_parser_t :=
  Parser (p_msg r) (p_http_error_code r) (p_valid_ssdp_notify_hack r) v
    (p_ent_position r) (p_content_length r) (p_chunk_size r)
    (p_entity_start_position r) (p_cursor r) (p_entire_msg_loaded r).
Definition set_ent_position (v : Z) (r : http_parser_t) : http_parser_t :=
  Parser (p_msg r) (p_http_error_code r) (p_valid_ssdp_notify_hack r) (p_position r) v
    (p_content_length r) (p_chunk_size r) (p_entity_start_position r) (p_cursor r)
    (p_entire_msg_loaded r).
Definition set_content_length (v : Z) (r : http_parser_t) : http_parser_t :=
  Parser (p_msg r) (p_http_error_code r) (p_valid_ssdp_notify_hack r) (p_position r)
    (p_ent_position r) v (p_chunk_size r) (p_entity_start_position r) (p_cursor r)
    (p_entire_msg_loaded r).
Definition set_chunk_size (v : Z) (r : http_parser_t) : http_parser_t :=
  Parser (p_msg r) (p_http_error_code r) (p_valid_ssdp_notify_hack r) (p_position r)
    (p_ent_position r) (p_content_length r) v (p_entity_start_position r) (p_cursor r)
    (p_entire_msg_loaded r).
Definition set_entity_start_position (v : Z) (r : http_parser_t) : http_parser_t :=
  Parser (p_msg r) (p_http_error_code r) (p_valid_ssdp_notify_hack r) (p_position r)
    (p_ent_position r) (p_content_length r) (p_chunk_size r) v (p_cursor r)
    (p_entire_msg_loaded r).
Definition set_cursor (v : Z) (r : http_parser_t) : http_parser_t :=
  Parser (p_msg r) (p_http_error_code r) (p_valid_ssdp_notify_hack r) (p_position r)
    (p_ent_position r) (p_content_length r) (p_chunk_size r)
    (p_entity_start_position r) v (p_entire_msg_loaded r).
Definition set_entire_msg_loaded (v : bool) (r : http_parser_t) : http_parser_t :=
  Parser (p_msg r) (p_http_error_code r) (p_valid_ssdp_notify_hack r) (p_position r)
    (p_ent_position r) (p_content_length r) (p_chunk_size r)
    (p_entity_start_position r) (p_cursor r) v.

(** Changing the message of a parser. *)
Definition on_msg (f : http_message_t -> http_message_t) (p : http_parser_t) : http_parser_t :=
  set_msg (f (p_msg p)) p.

(** The bytes that are scanned. *)
Definition p_buf (p : http_parser_t) : list Z := contents (m_msg_buf (p_msg p)).

(** ** Messages *)

Definition no_uri : uri_type :=
  MkUri ABSOLUTE (MkToken 0 0) ABS_PATH (MkToken 0 0) (MkToken 0 0) no_hostport.

(** The fields [httpmsg_init] leaves alone are those of [r]. *)
Definition httpmsg_init (r : http_message_t) : http_message_t :=
  set_initialized true (set_entity (Bufptr 0 0) (set_headers []
    (set_msg_buf membuffer_init (set_status_msg membuffer_init r)))).

(** [ListDestroy] frees every header with [httpheader_free]. *)
Definition httpmsg_destroy (r : http_message_t) : http_message_t :=
  if m_initialized r then
    set_headers [] (set_msg_buf (membuffer_destroy (m_msg_buf r))
      (set_status_msg (membuffer_destroy (m_status_msg r)) (set_initialized false r)))
  else r.

(** Position in the list and header. *)
Fixpoint find_header (test : http_header_t -> bool) (l : list http_header_t) (i : nat)
    : option (nat * http_header_t) :=
  match l with
  | [] => None
  | h :: l' => if test h then Some (i, h) else find_header test l' (S i)
  end.

Definition httpmsg_compare (param1 param2 : http_header_t) : bool :=
  h_name_id param1 =? h_name_id param2.

Definition httpmsg_find_hdr_str (r : http_message_t) (header_name : list Z)
    : option (nat * http_header_t) :=
  find_header (fun h => memptr_cmp_nocase (h_name h) header_name =? 0) (m_headers r) 0.

Definition httpmsg_find_hdr (r : http_message_t) (header_name_id : Z)
    : option (nat * http_header_t) :=
  find_header (httpmsg_compare (Header header_name_id membuffer_init membuffer_init))
    (m_headers r) 0.

(** ** Raw values *)

(** [None] when the byte behind the value is not in the block. *)
Definition raw_to_int (value : memptr) (base : Z) : option Z :=
  if mp_length value =? 0 then Some (-1)
  else
    let '(ok, num) := token_to_long (mp_buf value) (mp_length value) base in
    Some (if ok : bool then to_int num else -1).

(** The lower-case copy of the string at the start of the block [b]. *)
Fixpoint lower_string (b : list Z) : option (list Z) :=
  match b with
  | [] => None
  | c :: b' => if c =? 0 then Some b else (fun r => tolower c :: r) <$> lower_string b'
  end.

(** Index of [str] in the value, and the block of the value. *)
Definition raw_find_str (value : memptr) (str : list Z) : option (Z * list Z) :=
  c ← peek (mp_buf value) (mp_length value);
  b ← lower_string (mp_buf value);
  b0 ← mem_write b (mp_length value) [0];
  let ptr := strstr b0 str in
  b1 ← mem_write b0 (mp_length value) [c];
  Some (match ptr with None => -1 | Some i => to_int i end, b1).
