(* ===== verification/HttpParser.v ===== *)
(** The HTTP message parser of [upnp/src/genlib/net/http/httpparser.c].

    The parser is fed pieces of a message with [parser_append]; it keeps the
    bytes in the message buffer, a cursor, and the part of the message it is
    in, and is entered again when more bytes are there.  Each [parser_parse_*]
    function yields its status and the changed parser. *)

From S2P Require Import Prelude CString MemBuffer StrIntMap HttpTables Uri Scanner HttpMessage.

Definition HTTP_BAD_REQUEST : Z := 400.
Definition HTTP_LENGTH_REQUIRED : Z := 411.
Definition HTTP_INTERNAL_SERVER_ERROR : Z := 500.
Definition HTTP_NOT_IMPLEMENTED : Z := 501.
Definition HTTP_HTTP_VERSION_NOT_SUPPORTED : Z := 505.

(** ** Text of numbers *)

(** [sscanf] with ["%d . %d"] or, with [n = 3], ["%d . %d %d"]: the values
    converted; a dot is expected after the first one. *)
Fixpoint scan_ints (l : list Z) (n : nat) (dot : bool) : list Z :=
  match n with
  | O => []
  | S n' =>
      match scan_d l with
      | None => []
      | Some (v, l1) =>
          v :: (if dot then
                  match (skip_space l1 0).1 with
                  | c :: l2 => if c =? $"." then scan_ints (skip_space l2 0).1 n' false else []
                  | [] => []
                  end
                else scan_ints (skip_space l1 0).1 n' false)
      end
  end.

(** Number [i] converted, or the old value. *)
Definition converted (l : list Z) (i : nat) (old : Z) : Z := default old (l !! i).

(** One round of the loop over the three numbers of a status line; [None] when
    there is no digit left before the end of the buffer. *)
Definition skip_int (l : list Z) : option (list Z) :=
  match zdrop (span (fun c => negb (isdigit c)) l) l with
  | [] => None
  | l1 => Some (zdrop (span isdigit l1) l1)
  end.

(** The [while] that removes excessive leading slashes: the offset and length
    that are left. *)
Fixpoint strip_slashes (l : list Z) (t : bufptr) : bufptr :=
  match l with
  | c :: ((d :: _) as l') =>
      if (2 <=? bp_length t) && (c =? $"/") && (d =? $"/")
      then strip_slashes l' (Bufptr (bp_off t + 1) (bp_length t - 1)) else t
  | _ => t
  end.

(** ** State changes *)

Definition set_error (code : Z) (p : http_parser_t) : http_parser_t := set_http_error_code code p.
Definition fail {A} (p : A) : M (parse_status_t * A) := mret (PARSE_FAILURE, p).

(** The fields [memset] clears. *)
Definition cleared_message : http_message_t :=
  Message false 0 no_uri 0 0 (Membuffer None 0 0 0) 0 false 0 0 [] (Bufptr 0 0)
    (Membuffer None 0 0 0) None.

Definition parser_init : http_parser_t :=
  Parser (httpmsg_init cleared_message) HTTP_BAD_REQUEST false POS_REQUEST_LINE
    ENTREAD_DETERMINE_READ_METHOD 0 0 0 0 false.

Definition parser_request_init : http_parser_t :=
  set_position POS_REQUEST_LINE (on_msg (set_is_request true) parser_init).

Definition parser_response_init (request_method : Z) : http_parser_t :=
  set_position POS_RESPONSE_LINE
    (on_msg (fun r => set_amount_discarded 0
               (set_request_method request_method (set_is_request false r))) parser_init).

Section HttpParser.
Context (junk : Z).
Context (getaddrinfo : list Z -> option (list sockaddr))
  (inet_pton : Z -> list Z -> option (list Z)) (gIF_INDEX : Z).

(** [match(&parser->scanner, fmt, ...)]. *)
Definition match_msg (p : http_parser_t) (fmt : list Z)
    : M (parse_status_t * http_parser_t * list arg) :=
  '(status, cursor, outs) ←
    vfmatch getaddrinfo inet_pton gIF_INDEX (p_buf p) (p_entire_msg_loaded p) fmt (p_cursor p);
  mret (status, set_cursor cursor p, outs).

(** The bytes from a [memptr] on. *)
Definition at_ptr (p : http_parser_t) (t : bufptr) : list Z := zdrop (bp_off t) (p_buf p).
Definition text_of (p : http_parser_t) (t : bufptr) : list Z :=
  ztake (bp_length t) (at_ptr p t).

Definition FMT_SIMPLE : list Z := cs "%s" ++ [9] ++ cs "%S%w%c".
Definition FMT_REQUEST : list Z :=
  cs "%s" ++ [9] ++ cs "%S" ++ [9] ++ cs "%ihttp%w/%w%L%c".
Definition FMT_RESPONSE : list Z := cs "%ihttp%w/%w%L%c".
Definition FMT_HEADER : list Z := cs " : %R%c".
Definition FMT_CHUNK : list Z := cs "%x%L%c".
Definition FMT_CRLF : list Z := cs "%c".

(** ** Request and status line *)

(** Storing the URL: [None] when memory is exhausted. *)
Definition store_url (p : http_parser_t) (url_str : bufptr)
    : M (option (bool * http_parser_t)) :=
  let url_str := strip_slashes (at_ptr p url_str) url_str in
  urlbuf ← str_alloc junk (at_ptr p url_str) (bp_length url_str);
  let p := on_msg (set_urlbuf urlbuf) p in
  match urlbuf with
  | None => mret None
  | Some b =>
      '(rc, u) ← liftO (parse_uri getaddrinfo inet_pton gIF_INDEX 0
                          (ztake (bp_length url_str) b) (bp_length url_str));
      mret (Some (rc =? HTTP_SUCCESS, on_msg (set_uri u) p))
  end.

Definition method_index (p : http_parser_t) (method_str : bufptr) : option Z :=
  map_str_to_int (at_ptr p method_str) (bp_length method_str) Http_Method_Table
    NUM_HTTP_METHODS true.
Definition method_id (index : Z) : option Z := id <$> Http_Method_Table !! Z.to_nat index.

(** [GET] of HTTP 0.9. *)
Definition parse_simple_get (p : http_parser_t) (method_str url_str : bufptr)
    : M (parse_status_t * http_parser_t) :=
  index ← liftO (method_index p method_str);
  if index <? 0 then fail (set_error HTTP_NOT_IMPLEMENTED p)
  else
    mid ← liftO (method_id index);
    if negb (mid =? HTTPMETHOD_GET) then fail (set_error HTTP_BAD_REQUEST p)
    else
      let p := on_msg (set_method HTTPMETHOD_SIMPLEGET) p in
      r ← store_url p url_str;
      match r with
      | None => fail (set_error HTTP_INTERNAL_SERVER_ERROR (on_msg (set_urlbuf None) p))
      | Some (false, p) => fail p
      | Some (true, p) => mret (PARSE_SUCCESS, set_position POS_COMPLETE p)
      end.

(** The request line behind its match. *)
Definition parse_request (p : http_parser_t) (method_str url_str version_str : bufptr)
    : M (parse_status_t * http_parser_t) :=
  r ← store_url p url_str;
  match r with
  | None => fail (set_error HTTP_INTERNAL_SERVER_ERROR (on_msg (set_urlbuf None) p))
  | Some (false, p) => fail p
  | Some (true, p) =>
      index ← liftO (method_index p method_str);
      if index <? 0 then fail (set_error HTTP_NOT_IMPLEMENTED p)
      else
        mid ← liftO (method_id index);
        let nums := scan_ints (c_str (text_of p version_str)) 2 true in
        let major := converted nums 0 (m_major_version (p_msg p)) in
        let minor := converted nums 1 (m_minor_version (p_msg p)) in
        let p := on_msg (fun r => set_minor_version minor (set_major_version major r)) p in
        if negb (zlen nums =? 2) || (major <? 0)
           || ((major =? 1) && (minor <? 1) && (mid =? HTTPMETHOD_MSEARCH))
        then fail (set_error HTTP_HTTP_VERSION_NOT_SUPPORTED p)
        else mret (PARSE_OK, set_position POS_HEADERS (on_msg (set_method mid) p))
  end.

Definition parser_parse_requestline (p : http_parser_t) : M (parse_status_t * http_parser_t) :=
  _ ← assertM (bool_decide (p_position p = POS_REQUEST_LINE));
  '(status, cursor) ← liftO (skip_blank_lines (p_buf p) (p_entire_msg_loaded p) (p_cursor p));
  let p := set_cursor cursor p in
  if negb (bool_decide (status = PARSE_OK)) then mret (status, p)
  else
    '(status, p, outs) ← match_msg p FMT_SIMPLE;
    match status, outs with
    | PARSE_OK, [AStr method_str; AStr url_str] => parse_simple_get p method_str url_str
    | PARSE_OK, _ => undefined
    | _, _ =>
        '(status, p, outs) ← match_msg p FMT_REQUEST;
        match status, outs with
        | PARSE_OK, [AStr method_str; AStr url_str; AStr version_str] =>
            parse_request p method_str url_str version_str
        | PARSE_OK, _ => undefined
        | s, _ => mret (s, p)
        end
    end.

(** The status line behind its match. *)
Definition parse_response (p : http_parser_t) (line : bufptr)
    : M (parse_status_t * http_parser_t) :=
  let nums := scan_ints (c_str (text_of p line)) 3 true in
  let r := p_msg p in
  let major := converted nums 0 (m_major_version r) in
  let minor := converted nums 1 (m_minor_version r) in
  let status_code := converted nums 2 (m_status_code r) in
  let p := on_msg (fun r => set_status_code status_code
                     (set_minor_version minor (set_major_version major r))) p in
  if negb (zlen nums =? 3) || (major <? 0) || (minor <? 0) || (status_code <? 0) then fail p
  else
    l ← liftO (l ← skip_int (at_ptr p line); l ← skip_int l; skip_int l);
    if negb (is_ws_char (rd l 0)) then fail p
    else
      let l := zdrop (span is_ws_char l) l in
      let n := to_size (bp_length line - (zlen (at_ptr p line) - zlen l)) in
      '(rc, b) ← membuffer_assign junk (m_status_msg (p_msg p)) (Some l) n;
      let p := on_msg (set_status_msg b) p in
      if negb (rc =? 0) then fail (set_error HTTP_INTERNAL_SERVER_ERROR p)
      else mret (PARSE_OK, set_position POS_HEADERS p).

Definition parser_parse_responseline (p : http_parser_t)
    : M (parse_status_t * http_parser_t) :=
  _ ← assertM (bool_decide (p_position p = POS_RESPONSE_LINE));
  '(status, cursor) ← liftO (skip_blank_lines (p_buf p) (p_entire_msg_loaded p) (p_cursor p));
  let p := set_cursor cursor p in
  if negb (bool_decide (status = PARSE_OK)) then mret (status, p)
  else
    '(status, p, outs) ← match_msg p FMT_RESPONSE;
    match status, outs with
    | PARSE_OK, [AStr line] => parse_response p line
    | PARSE_OK, _ => undefined
    | s, _ => mret (s, p)
    end.

(** ** Headers *)

(** The header a name stands for: its identifier and the header of that name
    that is already there. *)
Definition find_orig (p : http_parser_t) (token : bufptr)
    : option (http_parser_t * Z * option (nat * http_header_t)) :=
  index ← map_str_to_int (at_ptr p token) (bp_length token) Http_Header_Names
            NUM_HTTP_HEADER_NAMES false;
  if negb (index =? -1) then
    header_id ← id <$> Http_Header_Names !! Z.to_nat index;
    let p := if header_id =? HDR_SOAPACTION then on_msg (set_method SOAPMETHOD_POST) p else p in
    Some (p, header_id, httpmsg_find_hdr (p_msg p) header_id)
  else Some (p, HDR_UNKNOWN, httpmsg_find_hdr_str (p_msg p) (c_str (text_of p token))).

(** A new header; [None] when memory is exhausted.  An empty value is stored
    as one NUL. *)
Definition new_header (header_id : Z) (name value : list Z) (name_len value_len : Z)
    : M (option http_header_t) :=
  ok ← malloc_ok;
  if negb ok then mret None
  else
    let '(value, value_len) := if value_len =? 0 then ([0], 1) else (value, value_len) in
    '(rc, name_buf) ← membuffer_assign junk membuffer_init (Some name) name_len;
    if negb (rc =? 0) then mret None
    else
      '(rc, v) ← membuffer_assign junk membuffer_init (Some value) value_len;
      if negb (rc =? 0) then mret None
      else
        ok ← malloc_ok;
        mret (if ok : bool then Some (Header header_id v name_buf) else None).

Definition set_headers_at (i : nat) (h : http_header_t) (r : http_message_t) : http_message_t :=
  set_headers (<[i := h]> (m_headers r)) r.

(** Adding the header [token] with [hdr_value]: whether it could be stored. *)
Definition add_header (p : http_parser_t) (token hdr_value : bufptr)
    : M (bool * http_parser_t) :=
  '(p, header_id, orig) ← liftO (find_orig p token);
  match orig with
  | None =>
      h ← new_header header_id (at_ptr p token) (at_ptr p hdr_value) (bp_length token)
            (bp_length hdr_value);
      mret (match h with
            | None => (false, set_error HTTP_INTERNAL_SERVER_ERROR p)
            | Some h => (true, on_msg (fun r => set_headers (m_headers r ++ [h]) r) p)
            end)
  | Some (i, h) =>
      if 0 <? bp_length hdr_value then
        '(ret, v) ← membuffer_append_str junk (h_value h) (cs ", ");
        '(ret2, v) ← membuffer_append junk v (Some (at_ptr p hdr_value)) (bp_length hdr_value);
        let p := on_msg (set_headers_at i (set_h_value v h)) p in
        if (ret =? UPNP_E_OUTOF_MEMORY) || (ret2 =? UPNP_E_OUTOF_MEMORY)
        then mret (false, set_error HTTP_INTERNAL_SERVER_ERROR p)
        else mret (true, p)
      else mret (true, p)
  end.

Fixpoint headers_loop (fuel : nat) (p : http_parser_t) : M (parse_status_t * http_parser_t) :=
  match fuel with
  | O => running
  | S fuel' =>
      let save_pos := p_cursor p in
      r ← liftO (scanner_get_token (p_buf p) (p_entire_msg_loaded p) save_pos);
      match r with
      | NoToken s => mret (s, p)
      | Token _ TT_CRLF cursor =>
          let p := set_cursor cursor p in
          if m_is_request (p_msg p) && (m_method (p_msg p) =? HTTPMETHOD_POST)
          then mret (PARSE_SUCCESS, set_position POS_COMPLETE p)
          else mret (PARSE_OK, set_position POS_ENTITY p)
      | Token token TT_IDENTIFIER cursor =>
          '(status, p, outs) ← match_msg (set_cursor cursor p) FMT_HEADER;
          match status, outs with
          | PARSE_OK, [AStr hdr_value] =>
              '(stored, p) ← add_header p token hdr_value;
              if stored : bool then headers_loop fuel' p else fail p
          | PARSE_OK, _ => undefined
          | s, _ => mret (s, set_cursor save_pos p)
          end
      | Token _ _ cursor => fail (set_cursor cursor p)
      end
  end.

Definition parser_parse_headers (p : http_parser_t) : M (parse_status_t * http_parser_t) :=
  _ ← assertM (bool_decide (p_position p = POS_HEADERS)
               || (p_ent_position p =? ENTREAD_CHUNKY_HEADERS));
  headers_loop (S (length (p_buf p))) p.

(** ** Entity *)

Definition set_entity_length (n : Z) (r : http_message_t) : http_message_t :=
  set_entity (Bufptr (bp_off (m_entity r)) n) r.
Definition set_entity_buf (off : Z) (r : http_message_t) : http_message_t :=
  set_entity (Bufptr off (bp_length (m_entity r))) r.
Definition msg_length (p : http_parser_t) : Z := mb_length (m_msg_buf (p_msg p)).
Definition entity_length (p : http_parser_t) : Z := bp_length (m_entity (p_msg p)).

Definition parser_parse_entity_using_clen (p : http_parser_t)
    : M (parse_status_t * http_parser_t) :=
  _ ← assertM (p_ent_position p =? ENTREAD_USING_CLEN);
  let start := p_entity_start_position p in
  let discarded := m_amount_discarded (p_msg p) in
  let len := to_size (msg_length p - start + discarded) in
  let p := on_msg (set_entity_length len) p in
  if len <? p_content_length p then mret (PARSE_INCOMPLETE, p)
  else
    p ← (if p_content_length p <? len then
           b ← with_block (m_msg_buf (p_msg p)) (fun b =>
                 poke b (to_size (start + p_content_length p - discarded)) 0);
           mret (on_msg (set_msg_buf b) p)
         else mret p);
    mret (PARSE_SUCCESS,
      set_position POS_COMPLETE
        (on_msg (fun r => set_entity_buf start (set_entity_length (p_content_length p) r)) p)).

(** [membuffer_delete] on the message buffer, and the cursor set back. *)
Definition delete_msg (p : http_parser_t) (save_pos : Z) : M http_parser_t :=
  b ← membuffer_delete junk (m_msg_buf (p_msg p)) save_pos (to_size (p_cursor p - save_pos));
  mret (set_cursor save_pos (on_msg (set_msg_buf b) p)).

Definition parser_parse_chunky_body (p : http_parser_t) : M (parse_status_t * http_parser_t) :=
  if p_chunk_size p <=? to_size (msg_length p - p_cursor p) then
    let save_pos := to_size (p_cursor p + p_chunk_size p) in
    '(status, p, _) ← match_msg (set_cursor save_pos p) FMT_CRLF;
    if negb (bool_decide (status = PARSE_OK)) then
      mret (status, set_cursor (to_size (p_cursor p - p_chunk_size p)) p)
    else
      p ← delete_msg p save_pos;
      let p := on_msg (set_entity_length (to_size (entity_length p + p_chunk_size p))) p in
      mret (PARSE_CONTINUE_1, set_ent_position ENTREAD_USING_CHUNKED p)
  else mret (PARSE_INCOMPLETE, p).

Definition parser_parse_chunky_headers (p : http_parser_t)
    : M (parse_status_t * http_parser_t) :=
  let save_pos := p_cursor p in
  '(status, p) ← parser_parse_headers p;
  if bool_decide (status = PARSE_OK) then
    p ← delete_msg (set_position POS_COMPLETE p) save_pos;
    mret (PARSE_SUCCESS, on_msg (set_entity_buf (p_entity_start_position p)) p)
  else mret (status, p).

(** ["%x"] stores an [int] at the address of the [size_t]: its low four
    bytes. *)
Definition store_int (old v : Z) : Z := Z.shiftl (Z.shiftr old 32) 32 + to_uint v.

Definition parser_parse_chunky_entity (p : http_parser_t)
    : M (parse_status_t * http_parser_t) :=
  _ ← assertM (p_ent_position p =? ENTREAD_USING_CHUNKED);
  let save_pos := p_cursor p in
  '(status, p, outs) ← match_msg p FMT_CHUNK;
  let p := match outs with
           | AInt v :: _ => set_chunk_size (store_int (p_chunk_size p) v) p
           | _ => p
           end in
  if negb (bool_decide (status = PARSE_OK)) then mret (status, set_cursor save_pos p)
  else
    p ← delete_msg p save_pos;
    mret (PARSE_CONTINUE_1,
      if p_chunk_size p =? 0 then
        set_ent_position ENTREAD_CHUNKY_HEADERS
          (on_msg (set_entity_length (to_size (p_cursor p - p_entity_start_position p
                                               + m_amount_discarded (p_msg p)))) p)
      else set_ent_position ENTREAD_CHUNKY_BODY p).

Definition parser_parse_entity_until_close (p : http_parser_t)
    : M (parse_status_t * http_parser_t) :=
  _ ← assertM (p_ent_position p =? ENTREAD_UNTIL_CLOSE);
  let cursor := msg_length p in
  let start := p_entity_start_position p in
  mret (PARSE_INCOMPLETE_ENTITY,
    set_cursor cursor
      (on_msg (fun r => set_entity
         (Bufptr start (to_size (cursor - start + m_amount_discarded r))) r) p)).

(** Methods and status codes whose messages have no body. *)
Definition request_without_body (method : Z) : bool :=
  (method =? HTTPMETHOD_HEAD) || (method =? HTTPMETHOD_GET)
  || (method =? HTTPMETHOD_SUBSCRIBE) || (method =? HTTPMETHOD_UNSUBSCRIBE)
  || (method =? HTTPMETHOD_MSEARCH).
Definition response_without_body (response_code request_method : Z) : bool :=
  (response_code =? 204) || (response_code =? 304)
  || ((100 <=? response_code) && (response_code <=? 199))
  || (request_method =? HTTPMETHOD_HEAD) || (request_method =? HTTPMETHOD_MSEARCH)
  || (request_method =? HTTPMETHOD_SUBSCRIBE) || (request_method =? HTTPMETHOD_UNSUBSCRIBE)
  || (request_method =? HTTPMETHOD_NOTIFY).

Definition value_ptr (h : http_header_t) : memptr :=
  Memptr (default [] (mb_buf (h_value h))) (mb_length (h_value h)).

(** Whether the message is chunked; [raw_find_str] turns the value of the
    header into lower case. *)
Definition find_chunked (p : http_parser_t) : option (bool * http_parser_t) :=
  match httpmsg_find_hdr (p_msg p) HDR_TRANSFER_ENCODING with
  | None => Some (false, p)
  | Some (i, h) =>
      '(n, b) ← raw_find_str (value_ptr h) (cs "chunked");
      let v := h_value h in
      let v := Membuffer (Some b) (mb_length v) (mb_capacity v) (mb_size_inc v) in
      Some (0 <=? n, on_msg (set_headers_at i (set_h_value v h)) p)
  end.

Definition parser_get_entity_read_method (p : http_parser_t)
    : M (parse_status_t * http_parser_t) :=
  _ ← assertM (p_ent_position p =? ENTREAD_DETERMINE_READ_METHOD);
  let p := set_entity_start_position (p_cursor p)
             (on_msg (set_entity (Bufptr (p_cursor p) 0)) p) in
  let hmsg := p_msg p in
  if (if m_is_request hmsg then request_without_body (m_method hmsg)
      else response_without_body (m_status_code hmsg) (m_request_method hmsg))
  then mret (PARSE_SUCCESS, set_position POS_COMPLETE p)
  else
    '(chunked, p) ← liftO (find_chunked p);
    if chunked : bool then mret (PARSE_CONTINUE_1, set_ent_position ENTREAD_USING_CHUNKED p)
    else
      match httpmsg_find_hdr (p_msg p) HDR_CONTENT_LENGTH with
      | Some (_, h) =>
          n ← liftO (raw_to_int (value_ptr h) 10);
          mret (PARSE_CONTINUE_1,
            set_ent_position ENTREAD_USING_CLEN (set_content_length (to_uint n) p))
      | None =>
          if m_is_request hmsg then
            let p := if m_method hmsg =? HTTPMETHOD_NOTIFY
                     then set_valid_ssdp_notify_hack true p else p in
            fail (set_error HTTP_LENGTH_REQUIRED p)
          else mret (PARSE_CONTINUE_1, set_ent_position ENTREAD_UNTIL_CLOSE p)
      end.

(** One round of the loop of [parser_parse_entity]. *)
Definition entity_step (p : http_parser_t) : M (parse_status_t * http_parser_t) :=
  let e := p_ent_position p in
  if e =? ENTREAD_USING_CLEN then parser_parse_entity_using_clen p
  else if e =? ENTREAD_USING_CHUNKED then parser_parse_chunky_entity p
  else if e =? ENTREAD_CHUNKY_BODY then parser_parse_chunky_body p
  else if e =? ENTREAD_CHUNKY_HEADERS then parser_parse_chunky_headers p
  else if e =? ENTREAD_UNTIL_CLOSE then parser_parse_entity_until_close p
  else if e =? ENTREAD_DETERMINE_READ_METHOD then parser_get_entity_read_method p
  else _ ← assertM false; fail p.

Fixpoint entity_loop (fuel : nat) (p : http_parser_t) : M (parse_status_t * http_parser_t) :=
  match fuel with
  | O => running
  | S fuel' =>
      '(status, p) ← entity_step p;
      if bool_decide (status = PARSE_CONTINUE_1) then entity_loop fuel' p
      else mret (status, p)
  end.

(** Every second round at least deletes bytes of the buffer. *)
Definition entity_fuel (p : http_parser_t) : nat := 2 * length (p_buf p) + 4.
Definition parser_parse_entity (p : http_parser_t) : M (parse_status_t * http_parser_t) :=
  _ ← assertM (bool_decide (p_position p = POS_ENTITY));
  entity_loop (entity_fuel p) p.

(** ** The parser *)

(** One round of the loop of [parser_parse]. *)
Definition parse_step (p : http_parser_t) : M (parse_status_t * http_parser_t) :=
  match p_position p with
  | POS_ENTITY => parser_parse_entity p
  | POS_HEADERS => parser_parse_headers p
  | POS_REQUEST_LINE => parser_parse_requestline p
  | POS_RESPONSE_LINE => parser_parse_responseline p
  | POS_COMPLETE => _ ← assertM false; fail p
  end.

(** At most the line, the headers and the entity are parsed in one call. *)
Fixpoint parse_loop (fuel : nat) (p : http_parser_t) : M (parse_status_t * http_parser_t) :=
  match fuel with
  | O => running
  | S fuel' =>
      '(status, p) ← parse_step p;
      if bool_decide (status = PARSE_OK) then parse_loop fuel' p else mret (status, p)
  end.
Definition parser_parse (p : http_parser_t) : M (parse_status_t * http_parser_t) :=
  parse_loop 4 p.

Definition parser_append (p : http_parser_t) (buf : list Z) (buf_length : Z)
    : M (parse_status_t * http_parser_t) :=
  '(ret_code, b) ← membuffer_append junk (m_msg_buf (p_msg p)) (Some buf) buf_length;
  let p := on_msg (set_msg_buf b) p in
  if negb (ret_code =? 0) then fail (set_error HTTP_INTERNAL_SERVER_ERROR p)
  else parser_parse p.
End HttpParser.
