(* ===== verification/HttpSafety.v ===== *)
(** Safety of the HTTP message parser: an invariant of [http_parser_t] that
    every operation of [HttpParser.v] keeps, whatever the bytes received and
    whatever the allocator answers.

    [parser_inv] is what the code relies on between two calls: the cursor lies
    in the message buffer, stored header values are terminated, and the entity
    starts before the cursor.  Under it no function reads or writes outside a
    block, and every loop ends. *)

From S2P Require Import Prelude CString MemBuffer StrIntMap HttpTables Uri Scanner HttpMessage HttpParser.

(** ** The invariant *)

(** A stored header; its value is at most [n] bytes long. *)
Record header_ok (n : Z) (h : http_header_t) : Prop := {
  ho_value : mb_wf (h_value h);
  ho_term : terminated (h_value h);
  ho_length : 0 < mb_length (h_value h) <= n;
  ho_name : mb_wf (h_name_buf h)
}.

(** What the stored values were read from lies before this position. *)
Definition header_bound (p : http_parser_t) : Z :=
  match p_position p with
  | POS_COMPLETE => MB_MAX
  | POS_ENTITY =>
      if (p_ent_position p =? ENTREAD_DETERMINE_READ_METHOD)
         || (p_ent_position p =? ENTREAD_CHUNKY_HEADERS)
      then p_cursor p else p_entity_start_position p
  | _ => p_cursor p
  end.

Definition in_entity (p : http_parser_t) : Prop :=
  p_position p = POS_ENTITY /\ p_ent_position p <> ENTREAD_DETERMINE_READ_METHOD.

Record parser_inv (p : http_parser_t) : Prop := {
  pi_buf : mb_wf (m_msg_buf (p_msg p));
  pi_cursor : 0 <= p_cursor p <= mb_length (m_msg_buf (p_msg p));
  pi_loaded : p_entire_msg_loaded p = false;
  pi_discarded : m_amount_discarded (p_msg p) = 0;
  pi_status_msg : mb_wf (m_status_msg (p_msg p));
  pi_headers : Forall (header_ok (header_bound p)) (m_headers (p_msg p));
  pi_method : 1 <= p_ent_position p <= 6;
  pi_clen : 0 <= p_content_length p <= SIZE_MAX;
  pi_chunk : 0 <= p_chunk_size p <= SIZE_MAX;
  pi_entity : in_entity p ->
    0 <= p_entity_start_position p <= p_cursor p /\
    bp_off (m_entity (p_msg p)) = p_entity_start_position p;
  pi_trailer : in_entity p -> p_ent_position p = ENTREAD_CHUNKY_HEADERS ->
    p_entity_start_position p + bp_length (m_entity (p_msg p)) <= p_cursor p;
  pi_before : p_position p <> POS_ENTITY -> p_position p <> POS_COMPLETE ->
    p_ent_position p = ENTREAD_DETERMINE_READ_METHOD
}.

(** A [memptr] that lies in the first [n] bytes of the buffer. *)
Definition within (n : Z) (t : bufptr) : Prop :=
  0 <= bp_off t /\ 0 <= bp_length t /\ bp_off t + bp_length t <= n.

(** ** Lemmas: data *)

Lemma header_ok_mono n k h : n <= k -> header_ok n h -> header_ok k h.
Proof. intros Hn [? ? ? ?]. split; done || lia. Qed.
Lemma headers_ok_mono n k l : n <= k -> Forall (header_ok n) l -> Forall (header_ok k) l.
Proof. intros Hn Hl. apply (Forall_impl _ _ _ Hl). intros h. by apply header_ok_mono. Qed.

Lemma zlen_p_buf p : parser_inv p -> zlen (p_buf p) = mb_length (m_msg_buf (p_msg p)).
Proof. intros []. by apply zlen_contents. Qed.

Lemma set_cursor_same p : set_cursor (p_cursor p) p = p.
Proof. by destruct p. Qed.

Lemma parser_init_inv : parser_inv parser_init.
Proof.
  assert (mb_wf membuffer_init) by (split; cbn; unfold MB_MAX, INT_MAX; lia || done).
  split; cbn; try done; unfold SIZE_MAX; lia || (by intros []) || by constructor.
Qed.

Lemma find_header_Some test l i j h :
  find_header test l i = Some (j, h) -> l !! (j - i)%nat = Some h /\ (i <= j)%nat.
Proof.
  revert i. induction l as [|x l IH]; intros i; simpl; [done|]. destruct (test x).
  - intros [= -> ->]. by rewrite Nat.sub_diag.
  - intros [H Hi]%IH. split; [|lia]. by replace (j - i)%nat with (S (j - S i)) by lia.
Qed.

(** The header found is one of the list. *)
Lemma find_header_lookup test l j h : find_header test l 0 = Some (j, h) -> l !! j = Some h.
Proof. intros [H _]%find_header_Some. by rewrite Nat.sub_0_r in H. Qed.

Lemma lower_string_Some b i :
  0 <= i < zlen b -> rd b i = 0 -> exists b', lower_string b = Some b' /\ zlen b' = zlen b.
Proof.
  revert i. induction b as [|c b IH]; intros i Hi Hr; [solve_zlen|]. cbn [lower_string].
  destruct (Z.eqb_spec c 0) as [->|Hc]; [by eexists|].
  destruct (Z.eq_dec i 0) as [->|]; [done|]. rewrite rd_cons_S in Hr by lia.
  destruct (IH (i - 1)) as (b' & -> & Hb'); [rewrite zlen_cons in Hi; lia|done|].
  eexists. split; [done|]. by rewrite !zlen_cons, Hb'.
Qed.

Lemma peek_Some b i : 0 <= i < zlen b -> peek b i = Some (rd b i).
Proof.
  intros Hi. unfold peek, rd, zlen in *.
  rewrite (proj2 (Z.ltb_ge i 0)), (proj2 (Z.leb_le 0 i)) by lia.
  destruct (lookup_lt_is_Some_2 b (Z.to_nat i)) as [x ->]; [lia|done].
Qed.

(** The index of a search result and the lower-case value. *)
Lemma raw_find_str_ok n h str :
  header_ok n h ->
  exists i b, raw_find_str (value_ptr h) str = Some (i, b) /\
    header_ok n (set_h_value (Membuffer (Some b) (mb_length (h_value h))
      (mb_capacity (h_value h)) (mb_size_inc (h_value h))) h).
Proof.
  intros [[Hl Hc Hi Hb] (b & Eb & Ht) Hn Hname]. unfold raw_find_str, value_ptr.
  rewrite Eb in Hb |- *. cbn [mp_buf mp_length]. change (default [] (Some b)) with b. set (len := mb_length (h_value h)) in *.
  rewrite peek_Some, Ht by lia. cbn [mbind option_bind].
  destruct (lower_string_Some b len) as (b1 & -> & Hb1); [lia|done|]. cbn [mbind option_bind].
  assert (forall d, zlen d = zlen b -> exists d', mem_write d len [0] = Some d' /\
    zlen d' = zlen b /\ rd d' len = 0) as Hw.
  { intros d Hd. destruct (mem_write d len [0]) as [d'|] eqn:E.
    - exists d'. split; [done|]. split; [by rewrite (mem_write_zlen _ _ _ _ E)|].
      rewrite (rd_poke d len 0 d' len) by (done || lia). by rewrite Z.eqb_refl.
    - rewrite mem_write_Some in E; [done|lia|]. change (zlen [0]) with 1. lia. }
  destruct (Hw b1) as (b2 & -> & Hb2 & _); [lia|]. cbn [mbind option_bind].
  destruct (Hw b2) as (b3 & -> & Hb3 & Hr); [lia|]. cbn [mbind option_bind].
  do 2 eexists. split; [done|]. split; cbn; [|by exists b3|lia|done].
  split; cbn; lia || done.
Qed.

(** ** Lemmas: what the patterns put out *)

Ltac matched_inv H :=
  match type of H with matched _ ?f _ _ _ =>
    let v := eval vm_compute in f in change f with v in H
  end;
  cbn -[Z.le Z.lt] in H; unfold directive_post, literal_post in H; cbn -[Z.le Z.lt] in H;
  repeat match type of H with
  | exists _, _ => let x := fresh "x" in destruct H as [x H]
  | _ /\ _ => let H1 := fresh "Hm" in destruct H as [H1 H]
  end;
  repeat match goal with
  | X : exists _, _ |- _ => let x := fresh "x" in destruct X as [x X]
  | X : _ /\ _ |- _ => destruct X
  end; subst; cbn [app].

Lemma matched_simple buf c c' outs :
  0 <= c -> c' <= zlen buf -> matched buf FMT_SIMPLE c c' outs ->
  exists m u, outs = [AStr m; AStr u] /\ within (zlen buf) m /\ within (zlen buf) u.
Proof. intros H0 H1 H. matched_inv H. eexists _, _. split; [done|]. unfold within. lia. Qed.

Lemma matched_request buf c c' outs :
  0 <= c -> c' <= zlen buf -> matched buf FMT_REQUEST c c' outs ->
  exists m u v, outs = [AStr m; AStr u; AStr v] /\ within (zlen buf) m /\
    within (zlen buf) u /\ within (zlen buf) v.
Proof. intros H0 H1 H. matched_inv H. eexists _, _, _. split; [done|]. unfold within. lia. Qed.

Lemma matched_response buf c c' outs :
  0 <= c -> matched buf FMT_RESPONSE c c' outs ->
  exists line, outs = [AStr line] /\ 0 <= bp_off line /\ 0 <= bp_length line /\
    bp_off line + bp_length line < zlen buf /\
    (rd buf (bp_off line + bp_length line) = TOKCHAR_CR \/
     rd buf (bp_off line + bp_length line) = TOKCHAR_LF).
Proof. intros H0 H. matched_inv H. eexists. split; [done|]. split_and!; lia || done. Qed.

(** A header line holds at least a colon and its end besides the value. *)
Lemma matched_header buf c c' outs :
  0 <= c -> matched buf FMT_HEADER c c' outs ->
  exists v, outs = [AStr v] /\ 0 <= bp_off v /\ 0 <= bp_length v /\
    c < bp_off v /\ bp_off v + bp_length v < c' <= zlen buf.
Proof. intros H0 H. matched_inv H. eexists. split; [done|]. lia. Qed.

Lemma matched_crlf buf c c' outs : matched buf FMT_CRLF c c' outs -> c < c' <= zlen buf.
Proof. intros H. matched_inv H. lia. Qed.

Lemma matched_chunk buf c c' outs :
  matched buf FMT_CHUNK c c' outs -> c < c' <= zlen buf /\ exists n l, outs = AInt n :: l.
Proof. intros H. matched_inv H. split; [lia|]. by eexists _, _. Qed.

(** ** Lemmas: state changes that keep the invariant *)

Lemma header_bound_max p : parser_inv p -> header_bound p <= MB_MAX.
Proof.
  intros [[? _ _ _] ? _ _ _ _ _ _ _ He _ _]. unfold header_bound.
  destruct (p_position p) eqn:E; try lia.
  destruct (Z.eqb_spec (p_ent_position p) ENTREAD_DETERMINE_READ_METHOD) as [|Hne]; [cbn; lia|].
  specialize (He (conj E Hne)). destruct (_ || _); lia.
Qed.

(** A change of the message that leaves buffer, headers and entity alone. *)
Lemma inv_on_msg f p :
  parser_inv p -> m_msg_buf (f (p_msg p)) = m_msg_buf (p_msg p) ->
  m_amount_discarded (f (p_msg p)) = m_amount_discarded (p_msg p) ->
  mb_wf (m_status_msg (f (p_msg p))) ->
  Forall (header_ok (header_bound p)) (m_headers (f (p_msg p))) ->
  m_entity (f (p_msg p)) = m_entity (p_msg p) -> parser_inv (on_msg f p).
Proof.
  intros [] E1 E2 E3 E4 E5. unfold in_entity in *.
  split; cbn; unfold in_entity; cbn; rewrite ?E1, ?E2, ?E5; auto.
Qed.

Definition harmless (f : http_message_t -> http_message_t) : Prop :=
  forall r, m_msg_buf (f r) = m_msg_buf r /\ m_amount_discarded (f r) = m_amount_discarded r /\
    m_status_msg (f r) = m_status_msg r /\ m_headers (f r) = m_headers r /\
    m_entity (f r) = m_entity r.
Lemma inv_harmless f p : harmless f -> parser_inv p -> parser_inv (on_msg f p).
Proof.
  intros Hf Hp. destruct (Hf (p_msg p)) as (E1 & E2 & E3 & E4 & E5).
  apply inv_on_msg; rewrite ?E3, ?E4; try done; apply Hp.
Qed.

Lemma inv_set_error code p : parser_inv p -> parser_inv (set_error code p).
Proof. intros []. by split. Qed.

Lemma inv_complete p : parser_inv p -> parser_inv (set_position POS_COMPLETE p).
Proof.
  intros Hp. pose proof (header_bound_max p Hp). destruct Hp. split; cbn; try done.
  - by eapply headers_ok_mono.
  - by intros [].
  - by intros [].
Qed.

(** Moving on while no entity is read. *)
Lemma inv_position pos p :
  parser_inv p -> p_ent_position p = ENTREAD_DETERMINE_READ_METHOD ->
  p_position p <> POS_COMPLETE -> pos <> POS_COMPLETE -> parser_inv (set_position pos p).
Proof.
  intros [] He Hc Hpos. unfold header_bound in *. rewrite He in *. split; cbn; try done.
  - unfold header_bound. cbn. rewrite He. by destruct pos, (p_position p).
  - by rewrite He.
  - unfold in_entity. cbn. rewrite He. by intros [].
  - unfold in_entity. cbn. rewrite He. by intros [].
Qed.

Lemma inv_cursor c p :
  parser_inv p -> p_cursor p <= c <= zlen (p_buf p) -> parser_inv (set_cursor c p).
Proof.
  intros Hp Hc. rewrite zlen_p_buf in Hc by done. destruct Hp.
  split; cbn; try done; try lia.
  - eapply headers_ok_mono; [|done]. unfold header_bound. cbn.
    destruct (p_position p); try lia. destruct (_ || _); lia.
  - intros H. specialize (pi_entity0 H). lia.
  - intros H1 H2. specialize (pi_trailer0 H1 H2). lia.
Qed.

(** ** Lemmas: memory *)

Lemma strip_slashes_cons c d l t :
  strip_slashes (c :: d :: l) t
  = if (2 <=? bp_length t) && (c =? $"/") && (d =? $"/")
    then strip_slashes (d :: l) (Bufptr (bp_off t + 1) (bp_length t - 1)) else t.
Proof. done. Qed.

Lemma strip_slashes_spec l t :
  0 <= bp_length t -> exists k, 0 <= k <= bp_length t /\
    strip_slashes l t = Bufptr (bp_off t + k) (bp_length t - k).
Proof.
  revert t. induction l as [|c l IH]; intros [off len] Hl; cbn in Hl.
  { exists 0. split; [cbn; lia|]. cbn. f_equal; lia. }
  assert (exists k, 0 <= k <= len /\ Bufptr off len = Bufptr (off + k) (len - k)) as H0.
  { exists 0. split; [lia|]. f_equal; lia. }
  destruct l as [|d l]; [done|]. rewrite strip_slashes_cons. cbn [bp_length bp_off].
  destruct ((2 <=? len) && _ && _) eqn:E; [|done]. zbool.
  destruct (IH (Bufptr (off + 1) (len - 1))) as (k & Hk & ->); cbn in *; [lia|].
  exists (k + 1). split; [lia|]. f_equal; lia.
Qed.

Lemma at_ptr_zlen p t :
  within (zlen (p_buf p)) t -> zlen (at_ptr p t) = zlen (p_buf p) - bp_off t.
Proof. intros (? & ? & ?). apply zlen_zdrop. lia. Qed.
Lemma text_of_zlen p t : within (zlen (p_buf p)) t -> zlen (text_of p t) = bp_length t.
Proof.
  intros H. apply zlen_ztake. rewrite at_ptr_zlen by done. destruct H as (? & ? & ?). lia.
Qed.

(** The binary search never leaves the table. *)
Lemma search_loop_total cmp table fuel top bot :
  0 <= top -> bot < zlen table -> Z.max 0 (bot - top + 1) < Z.of_nat fuel ->
  exists i, search_loop fuel cmp table top bot = Some i /\ (i = -1 \/ top <= i <= bot).
Proof.
  revert top bot. induction fuel as [|fuel IH]; intros top bot Ht Hb Hf; [lia|].
  cbn [search_loop]. destruct (Z.leb_spec top bot); [|by eexists; auto].
  set (mid := (top + bot) / 2). assert (top <= mid <= bot) as Hm.
  { unfold mid. split; [apply Z.div_le_lower_bound|apply Z.div_le_upper_bound]; lia. }
  destruct (lookup_lt_is_Some_2 table (Z.to_nat mid)) as [e ->]; [unfold zlen in *; lia|].
  cbn [mbind option_bind]. destruct (0 <? cmp (name e)).
  - destruct (IH (mid + 1) bot) as (i & -> & Hi); [lia..|]. exists i. split; [done|]. lia.
  - destruct (cmp (name e) <? 0); [|by eexists; split; [done|]; right].
    destruct (IH top (mid - 1)) as (i & -> & Hi); [lia..|]. exists i. split; [done|]. lia.
Qed.

Lemma map_str_to_int_total nm n table cse :
  exists i, map_str_to_int nm n table (zlen table) cse = Some i /\
    (i = -1 \/ 0 <= i < zlen table).
Proof.
  unfold map_str_to_int. pose proof (zlen_nonneg table).
  destruct (search_loop_total ((if cse then memptr_cmp else memptr_cmp_nocase) (Memptr nm n))
    table (S (Z.to_nat (zlen table))) 0 (zlen table - 1)) as (i & E & Hi); [lia..|].
  exists i. split; [by destruct cse|lia].
Qed.

(** The name of an index that was found. *)
Lemma table_lookup {A} (f : str_int_entry -> A) table i :
  0 <= i < zlen table -> exists x, f <$> table !! Z.to_nat i = Some x.
Proof.
  intros Hi. destruct (lookup_lt_is_Some_2 table (Z.to_nat i)) as [e ->];
    [unfold zlen in *; lia|by eexists].
Qed.

Lemma method_index_total p t :
  exists i, method_index p t = Some i /\ (i < 0 \/ exists id, method_id i = Some id).
Proof.
  unfold method_index, method_id. change NUM_HTTP_METHODS with (zlen Http_Method_Table).
  destruct (map_str_to_int_total (at_ptr p t) (bp_length t) Http_Method_Table true)
    as (i & -> & Hi). exists i. split; [done|].
  destruct Hi as [->|Hi]; [by left|right]. by apply table_lookup.
Qed.

(** ** Lemmas: numbers of the status line *)

Definition digits (l : list Z) : Prop := Forall (fun c => isdigit c = true) l.
Definition no_digits (l : list Z) : Prop := Forall (fun c => isdigit c = false) l.
Definition stops (p : Z -> bool) (l : list Z) : Prop := forall c, head l = Some c -> p c = false.

Lemma span_parts p a b :
  Forall (fun c => p c = true) a -> stops p b -> span p (a ++ b) = zlen a.
Proof.
  intros Ha Hb. induction Ha as [|x a Hx _ IH]; cbn [app span].
  - destruct b as [|y b]; [done|]. cbn. by rewrite (Hb y eq_refl).
  - rewrite Hx, IH, zlen_cons. lia.
Qed.

Lemma skip_int_parts a b c :
  no_digits a -> digits b -> b <> [] -> stops isdigit c -> skip_int (a ++ b ++ c) = Some c.
Proof.
  intros Ha Hb Hne Hc. unfold skip_int.
  assert (stops (fun c => negb (isdigit c)) (b ++ c)) as Hs.
  { destruct Hb as [|x b Hx Hb]; [done|]. intros y [= <-]. by rewrite Hx. }
  rewrite span_parts; [|by eapply Forall_impl; [exact Ha|]; intros x ->|done].
  rewrite zdrop_app_exact by done. destruct (b ++ c) as [|x k] eqn:E; [by destruct b|].
  by rewrite <- E, span_parts, zdrop_app_exact.
Qed.

Lemma skip_space_span l n : skip_space l n = (zdrop (span isspace l) l, n + span isspace l).
Proof.
  revert n. induction l as [|c l IH]; intros n; cbn [skip_space span]; [by rewrite Z.add_0_r|].
  destruct (isspace c); [|by rewrite zdrop_0, Z.add_0_r]. rewrite IH.
  pose proof (span_nonneg isspace l). f_equal; [|lia].
  change (c :: l) with ([c] ++ l). rewrite zdrop_app_ge by solve_zlen.
  f_equal. change (zlen [c]) with 1. lia.
Qed.

Lemma scan_digits_span l acc n : (scan_digits 10 l acc n).2 = n + span isdigit l.
Proof.
  revert acc n. induction l as [|c l IH]; intros acc n; cbn [scan_digits span]; [cbn; lia|].
  unfold digit_val. destruct (isdigit c) eqn:E.
  - rewrite (proj2 (Z.ltb_lt (c - 48) 10)) by (unfold isdigit in E; lia). rewrite IH. lia.
  - destruct (isupper c) eqn:U.
    { rewrite (proj2 (Z.ltb_ge (c - 55) 10)) by (unfold isupper in U; lia). cbn. lia. }
    destruct (islower c) eqn:V; [|cbn; lia].
    rewrite (proj2 (Z.ltb_ge (c - 87) 10)) by (unfold islower in V; lia). cbn. lia.
Qed.

(** What a conversion has read: characters that are no digits, then digits. *)
Lemma scan_d_parts l v rest :
  scan_d l = Some (v, rest) ->
  exists a b, l = a ++ b ++ rest /\ no_digits a /\ digits b /\ b <> [] /\ stops isdigit rest.
Proof.
  unfold scan_d, strtol. rewrite skip_space_span.
  destruct (span_split isspace l) as (sp & l1 & -> & Es & Hsp & _).
  rewrite Es, zdrop_app_exact by done. set (neg := rd l1 0 =? 45).
  set (n2 := if neg || (rd l1 0 =? 43) then 1 else 0).
  assert (exists sg l2, l1 = sg ++ l2 /\ zlen sg = n2 /\ no_digits sg /\ zdrop n2 l1 = l2)
    as (sg & l2 & -> & Hl & Hsg & Hd).
  { unfold n2, neg. destruct l1 as [|c l1].
    - exists [], []. split_and!; done || constructor.
    - rewrite rd_cons_0. destruct ((c =? 45) || (c =? 43)) eqn:E.
      + exists [c], l1. split; [done|]. split; [done|]. split; [|done].
        constructor; [|done]. unfold isdigit. lia.
      + exists [], (c :: l1). split_and!; done || constructor. }
  rewrite Hd. clearbody n2 neg. change (hex_prefix 10 l2) with 0. rewrite zdrop_0.
  pose proof (scan_digits_span l2 0 0) as Hn. destruct (scan_digits 10 l2 0 0) as [w n].
  cbn [snd] in Hn. destruct (span_split isdigit l2) as (b & r & -> & Eb & Hb & Hr).
  destruct (Z.eqb_spec n 0); [done|]. cbn [sl_end sl_num].
  destruct (Z.eqb_spec (0 + zlen sp + n2 + 0 + n) 0); [done|]. intros [= _ <-].
  replace (0 + zlen sp + n2 + 0 + n) with (zlen ((sp ++ sg) ++ b)) by (rewrite !zlen_app; lia).
  exists (sp ++ sg), b. rewrite <- !app_assoc, !(app_assoc sp), (app_assoc (sp ++ sg)).
  rewrite zdrop_app_exact by done.
  split; [by rewrite <- app_assoc|]. split.
  - apply Forall_app. split; [|done]. eapply Forall_impl; [exact Hsp|]. intros x.
    unfold isspace, isdigit. lia.
  - split; [done|]. split; [|done]. intros ->. by change (zlen []) with 0 in Eb; lia.
Qed.

Lemma no_digits_app a b : no_digits a -> no_digits b -> no_digits (a ++ b).
Proof. intros. by apply Forall_app. Qed.

Lemma space_no_digits l : exists a, l = a ++ (skip_space l 0).1 /\ no_digits a.
Proof.
  rewrite skip_space_span. destruct (span_split isspace l) as (s & r & -> & E & H & _).
  exists s. cbn [fst]. rewrite E, zdrop_app_exact by done. split; [done|].
  eapply Forall_impl; [exact H|]. intros x. unfold isspace, isdigit. lia.
Qed.

Fixpoint skip_ints (n : nat) (l : list Z) : option (list Z) :=
  match n with O => Some l | S n' => l1 ← skip_int l; skip_ints n' l1 end.

(** Every number that [sscanf] converts is skipped by a round of the loop, in
    the text and in what holds more behind it. *)
Lemma scan_ints_skip n pre l dot :
  zlen (scan_ints l n dot) = Z.of_nat n -> no_digits pre ->
  exists r, zlen r <= zlen pre + zlen l /\
    forall tail, stops isdigit tail -> skip_ints n (pre ++ l ++ tail) = Some (r ++ tail).
Proof.
  revert pre l dot. induction n as [|n IH]; intros pre l dot Hn Hpre.
  { exists (pre ++ l). rewrite zlen_app. split; [lia|]. intros tail _. by rewrite <- app_assoc. }
  cbn [scan_ints] in Hn. destruct (scan_d l) as [[v rest]|] eqn:E; [|solve_zlen].
  apply scan_d_parts in E as (a & b & -> & Ha & Hb & Hne & Hstop).
  pose proof (zlen_nonneg a). pose proof (zlen_nonneg b). pose proof (zlen_nonneg pre).
  rewrite zlen_cons in Hn. rewrite !zlen_app.
  enough (exists r, zlen r <= zlen rest /\
    forall tail, stops isdigit tail -> skip_ints n (rest ++ tail) = Some (r ++ tail)) as (r & Hr & Er).
  { exists r. split; [lia|]. intros tail Htail. cbn [skip_ints].
    rewrite <- !app_assoc, (app_assoc pre), skip_int_parts; [by apply Er|by apply no_digits_app|done|done|].
    destruct rest; done. }
  assert (forall pre2 l2 d, rest = pre2 ++ l2 -> no_digits pre2 ->
    zlen (scan_ints l2 n d) = Z.of_nat n -> exists r, zlen r <= zlen rest /\
    forall tail, stops isdigit tail -> skip_ints n (rest ++ tail) = Some (r ++ tail)) as Hgo.
  { intros pre2 l2 d -> Hp2 Hl. destruct (IH pre2 l2 d) as (r & Hr & Er); [done..|].
    exists r. rewrite zlen_app. split; [done|]. intros tail Ht. rewrite <- app_assoc. by apply Er. }
  assert (n = 0%nat -> exists r, zlen r <= zlen rest /\
    forall tail, stops isdigit tail -> skip_ints n (rest ++ tail) = Some (r ++ tail)) as Hz
    by (intros ->; by exists rest).
  destruct (space_no_digits rest) as (s1 & E1 & Hs1). destruct dot.
  - destruct (skip_space rest 0).1 as [|c k] eqn:Ek.
    + change (zlen []) with 0 in Hn. apply Hz. lia.
    + destruct (Z.eqb_spec c $".") as [->|]; [|change (zlen []) with 0 in Hn; apply Hz; lia].
      destruct (space_no_digits k) as (s2 & E2 & Hs2).
      apply (Hgo (s1 ++ [ $"."] ++ s2) (skip_space k 0).1 false).
      * rewrite <- !app_assoc. cbn [app]. by rewrite <- E2.
      * apply no_digits_app; [done|]. by constructor.
      * lia.
  - apply (Hgo s1 _ false E1 Hs1). lia.
Qed.

(** A status line is followed by its end; the text up to a NUL or that end. *)
Lemma line_split p line :
  within (zlen (p_buf p)) line -> bp_off line + bp_length line < zlen (p_buf p) ->
  rd (p_buf p) (bp_off line + bp_length line) = TOKCHAR_CR \/
  rd (p_buf p) (bp_off line + bp_length line) = TOKCHAR_LF ->
  exists d rest, at_ptr p line = c_str (text_of p line) ++ d :: rest /\
    isdigit d = false /\ is_ws_char d = false /\
    zlen (c_str (text_of p line)) <= bp_length line
      <= zlen (c_str (text_of p line)) + zlen rest.
Proof.
  intros Hw Hlt Hend. pose proof (text_of_zlen p line Hw) as Ht.
  pose proof (at_ptr_zlen p line Hw) as Ha. destruct Hw as (H1 & H2 & H3).
  set (e := rd (p_buf p) _) in Hend.
  assert (at_ptr p line = text_of p line ++ e :: zdrop (bp_length line + 1) (at_ptr p line)) as E.
  { unfold text_of. rewrite <- (ztake_zdrop (bp_length line) (at_ptr p line)) at 1. f_equal.
    rewrite zdrop_rd by lia. f_equal. unfold at_ptr. by rewrite rd_zdrop. }
  pose proof (zlen_nonneg (zdrop (bp_length line + 1) (at_ptr p line))) as Hr.
  destruct (c_str_split (text_of p line)) as [Ec|[k Ec]].
  - rewrite <- Ec. exists e, (zdrop (bp_length line + 1) (at_ptr p line)).
    split; [exact E|]. split; [by destruct Hend as [-> | ->]|].
    split; [by destruct Hend as [-> | ->]|]. lia.
  - exists 0, (k ++ e :: zdrop (bp_length line + 1) (at_ptr p line)).
    rewrite Ec, <- app_assoc in E. split; [exact E|]. split; [done|]. split; [done|].
    apply (f_equal zlen) in Ec. rewrite zlen_app, zlen_cons in Ec. rewrite zlen_app, zlen_cons.
    pose proof (zlen_nonneg k). lia.
Qed.

Lemma skip_status l : (l1 ← skip_int l; l2 ← skip_int l1; skip_int l2) = skip_ints 3 l.
Proof.
  cbn [skip_ints]. destruct (skip_int l) as [l1|]; [|done]. cbn [mbind option_bind].
  destruct (skip_int l1) as [l2|]; [|done]. cbn [mbind option_bind].
  by destruct (skip_int l2).
Qed.

Lemma drop_ws r d rest :
  is_ws_char d = false ->
  exists r2, zdrop (span is_ws_char (r ++ d :: rest)) (r ++ d :: rest) = r2 ++ d :: rest /\
    zlen r2 <= zlen r /\
    forall rest2, zdrop (span is_ws_char (r ++ d :: rest2)) (r ++ d :: rest2) = r2 ++ d :: rest2.
Proof.
  intros Hd. destruct (span_split is_ws_char r) as (s & r2 & -> & _ & Hs & Hr).
  assert (forall rest2, zdrop (span is_ws_char ((s ++ r2) ++ d :: rest2)) ((s ++ r2) ++ d :: rest2)
    = r2 ++ d :: rest2) as H.
  { intros rest2. rewrite <- app_assoc, span_parts, zdrop_app_exact; [done|done|done|].
    destruct r2; [by intros c [= <-]|done]. }
  exists r2. split; [apply H|]. split; [rewrite zlen_app; pose proof (zlen_nonneg s); lia|].
  apply H.
Qed.

(** ** The request and status line *)

Section Safety.
Context (md : mode) (junk : Z) (getaddrinfo : list Z -> option (list sockaddr))
  (inet_pton : Z -> list Z -> option (list Z)) (gIF_INDEX : Z).
Abbreviation match_msg := (match_msg getaddrinfo inet_pton gIF_INDEX).
Abbreviation store_url := (store_url junk getaddrinfo inet_pton gIF_INDEX).
Abbreviation requestline := (parser_parse_requestline junk getaddrinfo inet_pton gIF_INDEX).
Abbreviation responseline := (parser_parse_responseline junk getaddrinfo inet_pton gIF_INDEX).
Abbreviation parse_headers := (parser_parse_headers junk getaddrinfo inet_pton gIF_INDEX).
Abbreviation hloop := (headers_loop junk getaddrinfo inet_pton gIF_INDEX).

Lemma runs_match p fmt (Q : parse_status_t * http_parser_t * list arg -> Prop) :
  plain_fmt fmt = true -> 0 <= p_cursor p <= zlen (p_buf p) ->
  (forall s c outs, scan_status s -> p_cursor p <= c <= zlen (p_buf p) ->
     (s <> PARSE_OK -> c = p_cursor p) ->
     (s = PARSE_OK -> matched (p_buf p) fmt (p_cursor p) c outs) ->
     Q (s, set_cursor c p, outs)) ->
  runs md (match_msg p fmt) Q.
Proof.
  intros Hf Hc HQ.
  destruct (vfmatch_spec getaddrinfo inet_pton gIF_INDEX (p_buf p) (p_entire_msg_loaded p) fmt
    (p_cursor p) Hf Hc) as (s & c & outs & E & Hb & Hn & Hm & _).
  unfold HttpParser.match_msg. mstep. intros o Ho. rewrite E. split; [|done].
  mstep. apply HQ; try done. eapply vfmatch_status, (E []).
Qed.

(** The status is not that of another round, and the invariant holds. *)
Definition line_post (pos : parser_pos_t) (r : parse_status_t * http_parser_t) : Prop :=
  parser_inv r.2 /\ r.1 <> PARSE_CONTINUE_1 /\ r.1 <> PARSE_INCOMPLETE_ENTITY /\
  (r.1 = PARSE_OK -> p_position r.2 = POS_HEADERS) /\
  (r.1 = PARSE_INCOMPLETE -> p_position r.2 = pos).

Lemma line_post_scan pos s p :
  scan_status s -> s <> PARSE_OK -> parser_inv p -> p_position p = pos -> line_post pos (s, p).
Proof. intros Hs Hok Hp Hpos. split; [done|]. cbn. destruct Hs as [?|[->|[->| ->]]]; done. Qed.
Lemma line_post_fail pos p : parser_inv p -> line_post pos (PARSE_FAILURE, p).
Proof. intros Hp. split; [done|]. done. Qed.
Lemma runs_fail pos p : parser_inv p -> runs md (fail p) (line_post pos).
Proof. intros Hp. apply runs_ret. by apply line_post_fail. Qed.

Lemma store_url_runs p t :
  parser_inv p -> within (zlen (p_buf p)) t ->
  runs md (store_url p t) (fun r =>
    match r with
    | None => md <> Lucky
    | Some (_, p1) => parser_inv p1 /\ p_position p1 = p_position p /\ p_buf p1 = p_buf p /\
        p_ent_position p1 = p_ent_position p
    end).
Proof.
  intros Hp (H1 & H2 & H3). unfold HttpParser.store_url.
  destruct (strip_slashes_spec (at_ptr p t) t H2) as (k & Hk & ->). cbn [bp_length].
  pose proof (zlen_p_buf p Hp) as Hb. pose proof (pi_buf p Hp) as [Hl _ _ _].
  unfold at_ptr. cbn [bp_off].
  assert (zlen (zdrop (bp_off t + k) (p_buf p)) = zlen (p_buf p) - (bp_off t + k)) as Hz
    by (apply zlen_zdrop; lia).
  mstep. eapply runs_mono; [apply str_alloc_runs; [rewrite Hz; lia|lia]|].
  intros r [->|[Hmd ->]]; cbv beta iota; [|by apply runs_ret].
  rewrite ztake_app_exact by (rewrite zlen_ztake; lia).
  set (url := ztake (bp_length t - k) _).
  assert (zlen url = bp_length t - k) as Hu by (apply zlen_ztake; lia).
  destruct (parse_uri_spec getaddrinfo inet_pton gIF_INDEX 0 url) as (rc & u & E & _).
  { unfold MB_MAX in Hl. lia. }
  rewrite Hu in E. mstep. eapply runs_liftO; [exact E|]. apply runs_ret.
  split; [|done]. apply inv_harmless; [done|]. by apply inv_harmless.
Qed.

Lemma simple_get_runs p m u :
  parser_inv p -> within (zlen (p_buf p)) u ->
  runs md (parse_simple_get junk getaddrinfo inet_pton gIF_INDEX p m u)
    (line_post POS_REQUEST_LINE).
Proof.
  intros Hp Hu. unfold parse_simple_get.
  destruct (method_index_total p m) as (i & -> & Hi). mstep. eapply runs_liftO; [done|].
  mstep; [by apply runs_fail, inv_set_error|]. destruct Hi as [?|[mid ->]]; [lia|].
  mstep. eapply runs_liftO; [done|]. mstep; [by apply runs_fail, inv_set_error|].
  mstep. set (p1 := on_msg _ p). assert (parser_inv p1) as Hp1 by (by apply inv_harmless).
  eapply runs_mono; [by apply store_url_runs|]. intros [[[] p2]|].
  - intros (Hp2 & _). apply runs_ret. split; [by apply inv_complete|]. done.
  - intros (Hp2 & _). by apply runs_fail.
  - intros _. by apply runs_fail, inv_set_error, inv_harmless.
Qed.

Lemma request_runs p m u v :
  parser_inv p -> p_position p = POS_REQUEST_LINE -> within (zlen (p_buf p)) u ->
  runs md (parse_request junk getaddrinfo inet_pton gIF_INDEX p m u v)
    (line_post POS_REQUEST_LINE).
Proof.
  intros Hp Hpos Hu. assert (p_ent_position p = ENTREAD_DETERMINE_READ_METHOD) as Hent
    by (apply Hp; rewrite Hpos; done).
  unfold parse_request. mstep. eapply runs_mono; [by apply store_url_runs|].
  intros [[[] p2]|]; [|intros (Hp2 & _); by apply runs_fail|
    intros _; by apply runs_fail, inv_set_error, inv_harmless].
  intros (Hp2 & Hpos2 & _ & Hent2).
  destruct (method_index_total p2 m) as (i & -> & Hi). mstep. eapply runs_liftO; [done|].
  mstep; [by apply runs_fail, inv_set_error|]. destruct Hi as [?|[mid ->]]; [lia|].
  mstep. eapply runs_liftO; [done|].
  set (p3 := on_msg (fun r => set_minor_version _ _) p2).
  assert (parser_inv p3) as Hp3 by (by apply inv_harmless).
  mstep; [by apply runs_fail, inv_set_error|]. apply runs_ret. split; [|done].
  apply inv_position; [by apply inv_harmless|cbn; congruence|cbn; congruence|done].
Qed.

Lemma requestline_runs p :
  parser_inv p -> p_position p = POS_REQUEST_LINE ->
  runs md (requestline p) (line_post POS_REQUEST_LINE).
Proof.
  intros Hp Hpos. pose proof (zlen_p_buf p Hp) as Hz. pose proof (pi_cursor p Hp) as Hc.
  unfold parser_parse_requestline. mstep. apply runs_assert_true; [by apply bool_decide_true|].
  destruct (skip_blank_lines_spec (p_buf p) (p_entire_msg_loaded p) (p_cursor p))
    as (s & c & E & Hb); [lia|]. pose proof (skip_blank_lines_status _ _ _ _ _ E) as Hst.
  rewrite E. mstep. eapply runs_liftO; [done|]. cbv beta iota.
  pose proof (inv_cursor c p Hp Hb) as Hp1. set (p1 := set_cursor c p) in *.
  case_bool_decide as Hs; cbn [negb]; [|by apply runs_ret, line_post_scan].
  mstep. apply runs_match; [done|change (0 <= c <= zlen (p_buf p)); lia|].
  intros s1 c1 o1 Hst1 Hb1 _ Hm1. change (c <= c1 <= zlen (p_buf p)) in Hb1.
  set (p2 := set_cursor c1 p1) in *. assert (parser_inv p2) as Hp2 by (by apply inv_cursor).
  destruct (decide (s1 = PARSE_OK)) as [->|Hs1].
  { destruct (matched_simple (p_buf p) c c1 o1) as (m & u & -> & Hm & Hu);
      [lia|lia|by apply Hm1|]. by apply simple_get_runs. }
  enough (runs md ('(status, p, outs) ← match_msg p2 FMT_REQUEST;
    match status, outs with
    | PARSE_OK, [AStr method_str; AStr url_str; AStr version_str] =>
        parse_request junk getaddrinfo inet_pton gIF_INDEX p method_str url_str version_str
    | PARSE_OK, _ => undefined
    | s, _ => mret (s, p)
    end) (line_post POS_REQUEST_LINE)) by (by destruct s1).
  mstep. apply runs_match; [done|change (0 <= c1 <= zlen (p_buf p)); lia|].
  intros s3 c3 o3 Hst3 Hb3 _ Hm3. change (c1 <= c3 <= zlen (p_buf p)) in Hb3.
  assert (parser_inv (set_cursor c3 p2)) as Hp3 by (by apply inv_cursor).
  destruct (decide (s3 = PARSE_OK)) as [->|Hs3].
  - destruct (matched_request (p_buf p) c1 c3 o3) as (m & u & v & -> & Hm & Hu & Hv);
      [lia|lia|by apply Hm3|]. by apply request_runs.
  - assert (line_post POS_REQUEST_LINE (s3, set_cursor c3 p2)) by (by apply line_post_scan).
    by destruct s3; try apply runs_ret.
Qed.

Lemma response_runs p line :
  parser_inv p -> p_position p = POS_RESPONSE_LINE ->
  within (zlen (p_buf p)) line -> bp_off line + bp_length line < zlen (p_buf p) ->
  rd (p_buf p) (bp_off line + bp_length line) = TOKCHAR_CR \/
  rd (p_buf p) (bp_off line + bp_length line) = TOKCHAR_LF ->
  runs md (parse_response junk p line) (line_post POS_RESPONSE_LINE).
Proof.
  intros Hp Hpos Hw Hlt Hend. assert (p_ent_position p = ENTREAD_DETERMINE_READ_METHOD) as Hent
    by (apply Hp; rewrite Hpos; done).
  destruct (line_split p line Hw Hlt Hend) as (d & rest & El & Hd1 & Hd2 & Hlen).
  unfold parse_response. set (p1 := on_msg (fun r => set_status_code _ _) p).
  assert (parser_inv p1) as Hp1 by (by apply inv_harmless).
  change (at_ptr p1 line) with (at_ptr p line). rewrite skip_status, El.
  mstep; [by apply runs_fail|].
  match goal with H : zlen (scan_ints _ _ _) = 3 |- _ =>
    destruct (scan_ints_skip 3 [] _ true H) as (r & Hr & Er); [constructor|] end.
  cbn [app] in Er. rewrite Er by (by intros c [= <-]). mstep. eapply runs_liftO; [done|].
  mstep; [by apply runs_fail|].
  destruct (drop_ws r d rest Hd2) as (r2 & -> & Hr2 & _).
  change (zlen []) with 0 in Hr. pose proof (zlen_nonneg r2).
  pose proof (zlen_p_buf p Hp) as Hb. pose proof (pi_buf p Hp) as [Hl _ _ _].
  destruct Hw as (Hw1 & Hw2 & Hw3). rewrite !zlen_app, !zlen_cons.
  unfold MB_MAX, INT_MAX in *. rewrite to_size_small by (unfold SIZE_MAX; lia).
  mstep. eapply runs_mono.
  { apply assign_runs; [by apply Hp1|rewrite zlen_app, zlen_cons; lia|unfold MB_MAX, INT_MAX; lia]. }
  intros [rc b] Hasg. assert (parser_inv (on_msg (set_status_msg b) p1)) as Hp2.
  { apply inv_on_msg; try apply Hp1; try done.
    destruct Hasg as [(_ & [Hu _] & _)|(_ & _ & ->)]; [exact Hu|apply Hp1]. }
  mstep; [by apply runs_fail, inv_set_error|].
  apply runs_ret. split; [|done]. apply inv_position; cbn; congruence || done.
Qed.

Lemma responseline_runs p :
  parser_inv p -> p_position p = POS_RESPONSE_LINE ->
  runs md (responseline p) (line_post POS_RESPONSE_LINE).
Proof.
  intros Hp Hpos. pose proof (zlen_p_buf p Hp) as Hz. pose proof (pi_cursor p Hp) as Hc.
  unfold parser_parse_responseline. mstep. apply runs_assert_true; [by apply bool_decide_true|].
  destruct (skip_blank_lines_spec (p_buf p) (p_entire_msg_loaded p) (p_cursor p))
    as (s & c & E & Hb); [lia|]. pose proof (skip_blank_lines_status _ _ _ _ _ E) as Hst.
  rewrite E. mstep. eapply runs_liftO; [done|]. cbv beta iota.
  pose proof (inv_cursor c p Hp Hb) as Hp1. set (p1 := set_cursor c p) in *.
  case_bool_decide as Hs; cbn [negb]; [|by apply runs_ret, line_post_scan].
  mstep. apply runs_match; [done|change (0 <= c <= zlen (p_buf p)); lia|].
  intros s1 c1 o1 Hst1 Hb1 _ Hm1. change (c <= c1 <= zlen (p_buf p)) in Hb1.
  assert (parser_inv (set_cursor c1 p1)) as Hp2 by (by apply inv_cursor).
  destruct (decide (s1 = PARSE_OK)) as [->|Hs1].
  - destruct (matched_response (p_buf p) c c1 o1) as (line & -> & H1 & H2 & H3 & H4);
      [lia|by apply Hm1|]. apply response_runs; try done.
    split; [done|]. split; [done|]. change (bp_off line + bp_length line <= zlen (p_buf p)). lia.
  - assert (line_post POS_RESPONSE_LINE (s1, set_cursor c1 p1)) by (by apply line_post_scan).
    by destruct s1; try apply runs_ret.
Qed.

(** ** Headers *)

(** What reading headers leaves alone. *)
Record headers_frame (p p1 : http_parser_t) : Prop := {
  hf_buf : m_msg_buf (p_msg p1) = m_msg_buf (p_msg p);
  hf_entity : m_entity (p_msg p1) = m_entity (p_msg p);
  hf_ent : p_ent_position p1 = p_ent_position p;
  hf_start : p_entity_start_position p1 = p_entity_start_position p;
  hf_cursor : p_cursor p <= p_cursor p1
}.

Lemma frame_refl p : headers_frame p p.
Proof. by split. Qed.
Lemma frame_trans p q r : headers_frame p q -> headers_frame q r -> headers_frame p r.
Proof. intros [A1 A2 A3 A4 A5] [B1 B2 B3 B4 B5]. split; congruence || lia. Qed.
Lemma frame_buf p p1 : headers_frame p p1 -> p_buf p1 = p_buf p.
Proof. intros [E _ _ _ _]. unfold p_buf. by rewrite E. Qed.

(** The parser reads headers: those of the message, or the trailer. *)
Definition reads_headers (p : http_parser_t) : Prop :=
  p_position p = POS_HEADERS \/
  (p_position p = POS_ENTITY /\ p_ent_position p = ENTREAD_CHUNKY_HEADERS).

Lemma reads_headers_bound p : reads_headers p -> header_bound p = p_cursor p.
Proof. unfold header_bound. by intros [->|[-> ->]]. Qed.

Lemma find_orig_total p t :
  exists p1 id orig, find_orig p t = Some (p1, id, orig) /\
    (p1 = p \/ p1 = on_msg (set_method SOAPMETHOD_POST) p) /\
    match orig with Some (i, h) => m_headers (p_msg p) !! i = Some h | None => True end.
Proof.
  unfold find_orig. change NUM_HTTP_HEADER_NAMES with (zlen Http_Header_Names).
  destruct (map_str_to_int_total (at_ptr p t) (bp_length t) Http_Header_Names false)
    as (i & -> & Hi). cbn [mbind option_bind]. destruct (Z.eqb_spec i (-1)) as [->|Hne].
  - cbn [negb]. do 3 eexists. split; [done|]. split; [by left|].
    destruct (httpmsg_find_hdr_str _ _) as [[j h]|] eqn:E; [|done]. by apply find_header_lookup in E.
  - destruct Hi as [?|Hi]; [done|]. cbn [negb].
    destruct (table_lookup id Http_Header_Names i Hi) as [hid E]. rewrite E.
    cbn [mbind option_bind]. do 3 eexists. split; [done|]. split; [case_match; auto|].
    destruct (httpmsg_find_hdr _ _) as [[j h]|] eqn:Ef; [|done]. apply find_header_lookup in Ef.
    by destruct (hid =? HDR_SOAPACTION).
Qed.

Lemma new_header_runs hid name value name_len value_len :
  0 < name_len <= zlen name -> 0 <= value_len <= zlen value ->
  name_len <= MB_MAX -> value_len <= MB_MAX ->
  runs md (new_header junk hid name value name_len value_len) (fun r =>
    match r with None => md <> Lucky | Some h => header_ok (Z.max 1 value_len) h end).
Proof.
  intros Hn Hv Hn2 Hv2. unfold new_header.
  assert (mb_wf membuffer_init) as H0 by (split; cbn; unfold MB_MAX, INT_MAX; lia || done).
  mstep. mstep; cbn [negb]; [|by apply runs_ret].
  set (vl := if value_len =? 0 then ([0], 1) else (value, value_len)).
  assert (exists d n, vl = (d, n) /\ 0 < n <= zlen d /\ n = Z.max 1 value_len) as (d & n & -> & Hd & ->).
  { unfold vl. destruct (Z.eqb_spec value_len 0) as [->|]; do 2 eexists; (split; [done|]).
    - change (zlen [0]) with 1. lia.
    - lia. }
  cbv beta iota. assert (1 <= MB_MAX) as H1 by (unfold MB_MAX, INT_MAX; lia).
  mstep. eapply runs_mono; [apply assign_runs; [done|lia|lia]|].
  intros [rc nb] [(-> & [Hw _] & _)|(Hmd & -> & _)]; cbv beta iota; [|by apply runs_ret].
  change (negb (0 =? 0)) with false. cbv iota.
  mstep. eapply runs_mono; [apply assign_runs; [done|lia|lia]|].
  intros [rc vb] [(-> & (Hvw & Hvc & _) & Ht)|(Hmd & -> & _)]; cbv beta iota; [|by apply runs_ret].
  change (negb (0 =? 0)) with false. cbv iota. mstep. mstep; apply runs_ret; [|done].
  split; cbn; try done.
  - apply Ht. lia.
  - rewrite <- zlen_contents, Hvc, zlen_ztake by (done || lia). lia.
Qed.

(** A header that is added fits in what was read since the cursor stood at
    [p_cursor p - 3 - bp_length v]. *)
Lemma add_header_runs p t v :
  parser_inv p -> reads_headers p ->
  Forall (header_ok (p_cursor p - 3 - bp_length v)) (m_headers (p_msg p)) ->
  within (zlen (p_buf p)) t -> 0 < bp_length t -> within (zlen (p_buf p)) v ->
  3 + bp_length v <= p_cursor p ->
  runs md (add_header junk p t v) (fun '(stored, p1) =>
    parser_inv p1 /\ headers_frame p p1 /\ p_position p1 = p_position p /\
    p_cursor p1 = p_cursor p).
Proof.
  intros Hp Hr Hh Ht Ht0 Hv Hc. unfold add_header.
  pose proof (zlen_p_buf p Hp) as Hb. pose proof (pi_buf p Hp) as [Hl _ _ _].
  pose proof (reads_headers_bound p Hr) as Hbd.
  pose proof (pi_cursor p Hp) as Hcur.
  destruct (find_orig_total p t) as (p1 & hid & orig & E & Hp1 & Ho).
  rewrite E. mstep. eapply runs_liftO; [done|]. cbv beta iota.
  assert (parser_inv p1 /\ headers_frame p p1 /\ p_position p1 = p_position p /\
    p_cursor p1 = p_cursor p /\ m_headers (p_msg p1) = m_headers (p_msg p) /\
    header_bound p1 = header_bound p) as (Hi1 & Hf1 & Hpos1 & Hcur1 & Hh1 & Hb1).
  { destruct Hp1 as [->| ->]; [done|]. split; [by apply inv_harmless|]. done. }
  pose proof (at_ptr_zlen p t Ht) as Zt. pose proof (at_ptr_zlen p v Hv) as Zv.
  assert (forall q, at_ptr p1 q = at_ptr p q) as Hat
    by (intros q; unfold at_ptr; by rewrite (frame_buf _ _ Hf1)).
  rewrite !Hat. destruct Ht as (T1 & T2 & T3). destruct Hv as (V1 & V2 & V3).
  destruct orig as [[i h]|].
  - pose proof (Forall_lookup_1 _ _ _ _ Hh Ho) as Hok. pose proof Hok as [W1 W2 W3 W4].
    destruct (Z.ltb_spec 0 (bp_length v)); [|by apply runs_ret].
    change (membuffer_append_str junk (h_value h) (cs ", "))
      with (membuffer_append junk (h_value h) (Some (cs ", ")) (zlen (cs ", "))).
    mstep. eapply runs_mono; [apply append_prefix_runs; [done|by vm_compute|]|].
    { change (zlen (cs ", ")) with 2. lia. }
    intros [r1 v1] Hv1.
    assert (mb_wf v1 /\ terminated v1 /\ 0 < mb_length v1 <= p_cursor p - 1 - bp_length v)
      as (X1 & X2 & X3).
    { destruct Hv1 as [(_ & Hterm & Hw & Hcon & _)|(_ & _ & ->)]; [|split; [done|split; [done|lia]]].
      split; [done|]. split; [done|]. apply (f_equal zlen) in Hcon.
      rewrite zlen_app, !zlen_contents in Hcon by done.
      change (zlen (ztake (zlen (cs ", ")) (cs ", "))) with 2 in Hcon. lia. }
    mstep. eapply runs_mono; [apply append_prefix_runs; [done|lia|lia]|].
    intros [r2 v2] Hv2.
    assert (header_ok (p_cursor p) (set_h_value v2 h)) as Hok2.
    { destruct Hv2 as [(_ & Hterm & Hw & Hcon & _)|(_ & _ & ->)]; [|split; cbn; done || lia].
      apply (f_equal zlen) in Hcon.
      rewrite zlen_app, !zlen_contents, zlen_ztake in Hcon by (done || lia).
      split; cbn; done || lia. }
    set (p2 := on_msg (set_headers_at i (set_h_value v2 h)) p1).
    assert (parser_inv p2) as Hp2.
    { apply inv_on_msg; try apply Hi1; try done. cbn. rewrite Hh1, Hb1, Hbd.
      apply Forall_insert; [|done]. eapply headers_ok_mono; [|exact Hh]. lia. }
    assert (headers_frame p p2) by (eapply frame_trans; [exact Hf1|by split]).
    mstep; apply runs_ret; [|done]. split; [by apply inv_set_error|]. split; [|done].
    eapply frame_trans; [done|by split].
  - mstep. eapply runs_mono; [apply new_header_runs; lia|].
    intros [h|] Hh2; apply runs_ret.
    + split; [|split; [eapply frame_trans; [exact Hf1|by split]|done]].
      apply inv_on_msg; try apply Hi1; try done. cbn. rewrite Hh1, Hb1, Hbd.
      apply Forall_app. split; [eapply headers_ok_mono; [|exact Hh]; lia|].
      constructor; [|done]. eapply header_ok_mono; [|exact Hh2]. lia.
    + split; [by apply inv_set_error|]. split; [|done].
      eapply frame_trans; [exact Hf1|by split].
Qed.

Definition headers_post (p : http_parser_t) (r : parse_status_t * http_parser_t) : Prop :=
  parser_inv r.2 /\ headers_frame p r.2 /\
  r.1 <> PARSE_CONTINUE_1 /\ r.1 <> PARSE_INCOMPLETE_ENTITY /\
  (r.1 = PARSE_OK -> p_position r.2 = POS_ENTITY) /\
  (r.1 = PARSE_INCOMPLETE -> p_position r.2 = p_position p).

Lemma headers_post_trans p q r :
  headers_frame p q -> p_position q = p_position p -> headers_post q r -> headers_post p r.
Proof.
  intros Hf E (H1 & H2 & H3 & H4 & H5 & H6). split; [done|].
  split; [by eapply frame_trans|]. rewrite E in H6. done.
Qed.

(** The empty line: the headers are complete. *)
Lemma headers_end p :
  parser_inv p -> reads_headers p -> parser_inv (set_position POS_ENTITY p).
Proof.
  intros Hp [Hr|[Hr He]].
  - apply inv_position; try done; [apply Hp; by rewrite Hr|by rewrite Hr].
  - replace (set_position POS_ENTITY p) with p; [done|]. destruct p; cbn in *. by rewrite Hr.
Qed.

(** One round of [headers_loop], with [PARSE_CONTINUE_1] for another one. *)
Definition header_step (p : http_parser_t) : M (parse_status_t * http_parser_t) :=
  let save_pos := p_cursor p in
  r ← liftO (scanner_get_token (p_buf p) (p_entire_msg_loaded p) save_pos);
  match r with
  | NoToken s => mret (s, p)
  | Token _ TT_CRLF cursor =>
      let p := set_cursor cursor p in
      if m_is_request (p_msg p) && (m_method (p_msg p) =? HTTPMETHOD_POST)
      then mret (PARSE_SUCCESS, set_position POS_COMPLETE p)
      else mret (PARSE_OK, set_position POS_ENTITY p)
  | Token token TT_IDENTIFIER cursor =>
      '(status, p, outs) ← match_msg (set_cursor cursor p) FMT_HEADER;
      match status, outs with
      | PARSE_OK, [AStr hdr_value] =>
          '(stored, p) ← add_header junk p token hdr_value;
          if stored : bool then mret (PARSE_CONTINUE_1, p) else fail p
      | PARSE_OK, _ => undefined
      | s, _ => mret (s, set_cursor save_pos p)
      end
  | Token _ _ cursor => fail (set_cursor cursor p)
  end.

Lemma headers_loop_S n p o :
  hloop (S n) p o
  = ('(s, p1) ← header_step p;
     if bool_decide (s = PARSE_CONTINUE_1) then hloop n p1 else mret (s, p1)) o.
Proof.
  cbn [headers_loop]. unfold header_step, mbind, M_bind, fail.
  destruct (scanner_get_token _ _ _) as [r|] eqn:E; [cbn [liftO]|done].
  destruct r as [t ty c|s].
  2: { apply token_status in E. by destruct E as [->|[->|[->| ->]]]. }
  destruct ty; try done; [|by destruct (_ && _)].
  destruct (match_msg _ _ o) as [[[s q] outs] o1| | |] eqn:Em; try done.
  assert (scan_status s) as Hs.
  { unfold HttpParser.match_msg, mbind, M_bind in Em.
    destruct (vfmatch _ _ _ _ _ _ _ _) as [[[s1 c1] o2] o3| | |] eqn:Ev; try done.
    injection Em as <- _ _ _. by apply vfmatch_status in Ev. }
  destruct Hs as [->|[->|[->| ->]]]; try done.
  destruct outs as [|[v| |] [|]]; try done.
  by destruct (add_header _ _ _ _ o1) as [[[] p2] o2| | |].
Qed.

Definition header_post (p : http_parser_t) (r : parse_status_t * http_parser_t) : Prop :=
  parser_inv r.2 /\ headers_frame p r.2 /\ r.1 <> PARSE_INCOMPLETE_ENTITY /\
  (r.1 = PARSE_OK -> p_position r.2 = POS_ENTITY) /\
  (r.1 = PARSE_INCOMPLETE \/ r.1 = PARSE_CONTINUE_1 -> p_position r.2 = p_position p) /\
  (r.1 = PARSE_CONTINUE_1 -> p_cursor p < p_cursor r.2).

Lemma header_post_stop p s q :
  parser_inv q -> headers_frame p q -> p_position q = p_position p ->
  scan_status s -> s <> PARSE_OK -> header_post p (s, q).
Proof.
  intros H1 H2 H3 Hs Hne. split; [done|]. split; [done|]. cbn.
  by destruct Hs as [?|[->|[->| ->]]].
Qed.

(** A round that has read the name [t] of a header. *)
Lemma header_value_runs p t :
  parser_inv p -> reads_headers p -> bp_off t = p_cursor p -> 0 < bp_length t ->
  p_cursor p + bp_length t <= zlen (p_buf p) ->
  runs md ('(status, p1, outs) ← match_msg (set_cursor (p_cursor p + bp_length t) p) FMT_HEADER;
    match status, outs with
    | PARSE_OK, [AStr hdr_value] =>
        '(stored, p1) ← add_header junk p1 t hdr_value;
        if stored : bool then mret (PARSE_CONTINUE_1, p1) else fail p1
    | PARSE_OK, _ => undefined
    | s, _ => mret (s, set_cursor (p_cursor p) p1)
    end) (header_post p).
Proof.
  intros Hp Hr Ht1 Ht2 Ht3. pose proof (zlen_p_buf p Hp) as Hz. pose proof (pi_cursor p Hp) as Hc.
  mstep. apply runs_match; [done|change (0 <= p_cursor p + bp_length t <= zlen (p_buf p)); lia|].
  intros s c o Hst Hb Hne Hm. change (p_cursor p + bp_length t <= c <= zlen (p_buf p)) in Hb.
  set (p2 := set_cursor c (set_cursor (p_cursor p + bp_length t) p)).
  assert (headers_frame p p2) as Hf2 by (split; cbn; done || lia).
  destruct (decide (s = PARSE_OK)) as [->|Hs].
  - destruct (matched_header (p_buf p) (p_cursor p + bp_length t) c o) as
      (v & -> & V1 & V2 & V3 & V4); [lia|by apply Hm|].
    mstep. eapply runs_mono; [apply (add_header_runs p2 t v)|].
    + apply (inv_cursor c p); [done|lia].
    + exact Hr.
    + eapply headers_ok_mono; [|exact (pi_headers p Hp)].
      rewrite (reads_headers_bound p Hr). cbn. lia.
    + unfold within. change (p_buf p2) with (p_buf p). lia.
    + done.
    + unfold within. change (p_buf p2) with (p_buf p). lia.
    + change (3 + bp_length v <= c). lia.
    + intros [stored p3] (Hp3 & Hf3 & Hpos3 & Hc3).
      assert (headers_frame p p3) as Hf4 by (by eapply frame_trans).
      destruct stored; apply runs_ret.
      * split; [done|]. split; [done|]. split; [done|]. split; [done|]. split; [by intros _|].
        intros _. cbn [snd]. rewrite Hc3. change (p_cursor p < c). lia.
      * apply header_post_stop; try done. unfold scan_status; auto.
  - assert (runs md (mret (s, set_cursor (p_cursor p) p2)) (header_post p)) as Hstop.
    { apply runs_ret. replace (set_cursor (p_cursor p) p2) with p by (by destruct p).
      by apply header_post_stop. }
    by destruct s.
Qed.

Lemma header_step_runs p :
  parser_inv p -> reads_headers p -> runs md (header_step p) (header_post p).
Proof.
  intros Hp Hr. pose proof (zlen_p_buf p Hp) as Hz. pose proof (pi_cursor p Hp) as Hc.
  unfold header_step. mstep.
  destruct (scanner_get_token_spec (p_buf p) (p_entire_msg_loaded p) (p_cursor p))
    as (r & E & Htok); [lia|]. eapply runs_liftO; [done|].
  destruct r as [t ty c|s].
  2: { apply runs_ret. destruct Htok as [->| ->]; apply header_post_stop; try done;
         solve [apply frame_refl|unfold scan_status; auto]. }
  destruct Htok as (Ht1 & Ht2 & -> & Ht3 & _).
  assert (parser_inv (set_cursor (p_cursor p + bp_length t) p)) as Hp1
    by (apply inv_cursor; [done|lia]).
  assert (headers_frame p (set_cursor (p_cursor p + bp_length t) p)) as Hf1
    by (split; cbn; done || lia).
  assert (runs md (fail (set_cursor (p_cursor p + bp_length t) p)) (header_post p)) as Hfail.
  { apply runs_ret. apply header_post_stop; try done. unfold scan_status; auto. }
  destruct ty; try exact Hfail; [by apply header_value_runs|].
  assert (headers_frame p (set_position POS_COMPLETE (set_cursor (p_cursor p + bp_length t) p)))
    by (destruct Hf1; by split).
  assert (headers_frame p (set_position POS_ENTITY (set_cursor (p_cursor p + bp_length t) p)))
    by (destruct Hf1; by split).
  mstep; apply runs_ret; (split; [|split; [done|]]); [by apply inv_complete| |by apply headers_end|];
    (split; [done|]); (split; [done|]); (split; [by intros [?|?]|done]).
Qed.

Lemma runs_ext {A} (m1 m2 : M A) (Q : A -> Prop) :
  (forall o, m1 o = m2 o) -> runs md m2 Q -> runs md m1 Q.
Proof. intros H Hr o Ho. rewrite H. by apply Hr. Qed.

Lemma headers_loop_runs fuel p :
  parser_inv p -> reads_headers p -> zlen (p_buf p) - p_cursor p < Z.of_nat fuel ->
  runs md (hloop fuel p) (headers_post p).
Proof.
  revert p. induction fuel as [|fuel IH]; intros p Hp Hr Hf.
  { pose proof (zlen_p_buf p Hp). destruct (pi_cursor p Hp). lia. }
  eapply runs_ext; [apply headers_loop_S|]. mstep.
  eapply runs_mono; [by apply header_step_runs|].
  intros [s p1] (H1 & H2 & H3 & H4 & H5 & H6). cbn [fst snd] in *. case_bool_decide as Hs.
  - specialize (H6 Hs). specialize (H5 (or_intror Hs)).
    eapply runs_mono; [apply IH; [done| |]|].
    + unfold reads_headers. rewrite H5, (hf_ent _ _ H2). exact Hr.
    + rewrite (frame_buf _ _ H2). lia.
    + intros r. by apply headers_post_trans.
  - apply runs_ret. split; [done|]. split; [done|]. split; [done|]. split; [done|].
    split; [done|]. intros Hi. apply H5. by left.
Qed.

Lemma parse_headers_runs p :
  parser_inv p -> reads_headers p -> runs md (parse_headers p) (headers_post p).
Proof.
  intros Hp Hr. unfold parser_parse_headers. mstep. apply runs_assert_true.
  { apply orb_true_iff. destruct Hr as [->|[_ ->]]; [left|by right]. by apply bool_decide_true. }
  apply headers_loop_runs; [done|done|]. destruct (pi_cursor p Hp). unfold zlen. lia.
Qed.

(** ** The entity *)

(** Rounds of the entity loop shrink the message buffer, but for the first. *)
Definition entity_measure (p : http_parser_t) : nat :=
  length (p_buf p) + if p_ent_position p =? ENTREAD_DETERMINE_READ_METHOD then 1 else 0.

Definition entity_post (p : http_parser_t) (r : parse_status_t * http_parser_t) : Prop :=
  parser_inv r.2 /\ r.1 <> PARSE_OK /\
  (r.1 = PARSE_INCOMPLETE \/ r.1 = PARSE_INCOMPLETE_ENTITY ->
     p_position r.2 = POS_ENTITY /\ p_ent_position r.2 = p_ent_position p /\
     p_buf r.2 = p_buf p /\
     (r.1 = PARSE_INCOMPLETE_ENTITY -> p_ent_position p = ENTREAD_UNTIL_CLOSE)) /\
  (r.1 = PARSE_CONTINUE_1 -> p_position r.2 = POS_ENTITY /\
     (entity_measure r.2 < entity_measure p)%nat).

Lemma entity_post_stop p s q :
  parser_inv q -> p_position q = POS_ENTITY -> p_ent_position q = p_ent_position p ->
  p_buf q = p_buf p -> scan_status s -> s <> PARSE_OK -> entity_post p (s, q).
Proof.
  intros H1 H2 H3 H4 Hs Hne. split; [done|]. split; [done|]. cbn.
  by destruct Hs as [?|[->|[->| ->]]].
Qed.

Lemma entity_post_fail p q : parser_inv q -> entity_post p (PARSE_FAILURE, q).
Proof. intros H1. split; [done|]. split; [done|]. cbn. split; [|done]. by intros [?|?]. Qed.

Lemma entity_post_success p q : parser_inv q -> entity_post p (PARSE_SUCCESS, q).
Proof. intros H1. split; [done|]. split; [done|]. cbn. split; [|done]. by intros [?|?]. Qed.

(** The entity may be changed when its start stays, unless the trailer is read. *)
Lemma inv_entity f p :
  parser_inv p -> p_ent_position p <> ENTREAD_CHUNKY_HEADERS ->
  (forall r, m_msg_buf (f r) = m_msg_buf r /\ m_amount_discarded (f r) = m_amount_discarded r /\
     m_status_msg (f r) = m_status_msg r /\ m_headers (f r) = m_headers r) ->
  (in_entity p -> bp_off (m_entity (f (p_msg p))) = p_entity_start_position p) ->
  parser_inv (on_msg f p).
Proof.
  intros Hp Hne Hf He. destruct (Hf (p_msg p)) as (E1 & E2 & E3 & E4). destruct Hp.
  split; cbn; rewrite ?E1, ?E2, ?E3, ?E4; try done.
  intros H. destruct (pi_entity0 H) as [? _]. split; [done|]. by apply He.
Qed.

Lemma inv_ent_position e p :
  parser_inv p -> in_entity p -> p_ent_position p <> ENTREAD_CHUNKY_HEADERS -> 1 < e <= 6 ->
  (e = ENTREAD_CHUNKY_HEADERS ->
   p_entity_start_position p + bp_length (m_entity (p_msg p)) <= p_cursor p) ->
  parser_inv (set_ent_position e p).
Proof.
  intros Hp Hin Hne He Ht. pose proof Hin as [Hpos Hdet]. destruct Hp.
  destruct (pi_entity0 Hin) as [Hs Ho].
  split; cbn; try done; try lia.
  - eapply headers_ok_mono; [|done]. unfold header_bound. cbn. rewrite Hpos.
    rewrite (proj2 (Z.eqb_neq (p_ent_position p) _)) by done.
    rewrite (proj2 (Z.eqb_neq (p_ent_position p) _)) by done. cbn [orb].
    destruct (_ || _); lia.
Qed.

Lemma poke_buf_runs p i (Q : http_parser_t -> Prop) :
  mb_wf (m_msg_buf (p_msg p)) -> 0 <= i < msg_length p ->
  (forall b, mb_wf b -> mb_length b = msg_length p ->
     contents b = <[Z.to_nat i := 0]> (p_buf p) -> Q (on_msg (set_msg_buf b) p)) ->
  runs md (b ← with_block (m_msg_buf (p_msg p)) (fun b => poke b i 0);
           mret (on_msg (set_msg_buf b) p)) Q.
Proof.
  intros Hw Hi HQ. pose proof Hw as [Hl Hc Hinc Hb].
  unfold msg_length, p_buf in *. set (m := m_msg_buf (p_msg p)) in *.
  destruct (mb_buf m) as [b|] eqn:E; [|lia]. mstep.
  eapply with_block_runs; [exact E|apply poke_Some; lia|]. apply runs_ret.
  set (b' := ztake i b ++ 0 :: zdrop (i + 1) b).
  assert (b' = <[Z.to_nat i := 0]> b) as Hb'.
  { unfold b', ztake, zdrop, zlen in *. rewrite insert_take_drop by lia.
    replace (Z.to_nat (i + 1)) with (S (Z.to_nat i)) by lia. done. }
  apply HQ; cbn; [|done|].
  - split; cbn; try done. rewrite Hb'. unfold zlen in *. by rewrite length_insert.
  - unfold contents. cbn. rewrite E. cbn. rewrite Hb'. unfold ztake. rewrite <- take_insert_lt by lia. done.
Qed.

Lemma clen_runs p :
  parser_inv p -> p_position p = POS_ENTITY -> p_ent_position p = ENTREAD_USING_CLEN ->
  runs md (parser_parse_entity_using_clen p) (entity_post p).
Proof.
  intros Hp Hpos He. assert (in_entity p) as Hin by (split; [done|by rewrite He]).
  assert (p_ent_position p <> ENTREAD_CHUNKY_HEADERS) as Hne by (by rewrite He).
  pose proof (pi_entity p Hp Hin) as [Hs Ho]. pose proof (pi_cursor p Hp) as Hc.
  pose proof (pi_buf p Hp) as [Hl _ _ _]. pose proof (pi_clen p Hp) as Hcl.
  unfold parser_parse_entity_using_clen. mstep. apply runs_assert_true; [by rewrite He|].
  rewrite (pi_discarded p Hp), Z.add_0_r, Z.sub_0_r. fold (msg_length p) in Hc, Hl.
  unfold MB_MAX, INT_MAX in *. rewrite to_size_small by (unfold SIZE_MAX; lia).
  set (p1 := on_msg (set_entity_length _) p).
  assert (parser_inv p1) as Hp1 by (by apply inv_entity).
  assert (forall q, parser_inv q -> p_ent_position q = ENTREAD_USING_CLEN ->
    p_entity_start_position q = p_entity_start_position p -> p_position q = POS_ENTITY ->
    runs md (mret (PARSE_SUCCESS, set_position POS_COMPLETE
      (on_msg (fun r => set_entity_buf (p_entity_start_position p)
                 (set_entity_length (p_content_length q) r)) q))) (entity_post p)) as Hend.
  { intros q Hq Hqe Hqs Hqp. apply runs_ret, entity_post_success, inv_complete.
    apply inv_entity; [done|by rewrite Hqe|done|]. intros _. by rewrite Hqs. }
  mstep; [by apply runs_ret, entity_post_stop; try done; right; left|].
  mstep. mstep; [|apply runs_ret; by apply Hend].
  change (p_content_length p1) with (p_content_length p) in *.
  rewrite to_size_small by (unfold SIZE_MAX; lia).
  apply poke_buf_runs; [apply Hp1|change (msg_length p1) with (msg_length p); lia|].
  intros b Hb1 Hb2 Hb3. apply Hend; try done. destruct Hp1.
  split; cbn; try done. by rewrite Hb2.
Qed.

Lemma until_close_runs p :
  parser_inv p -> p_position p = POS_ENTITY -> p_ent_position p = ENTREAD_UNTIL_CLOSE ->
  runs md (parser_parse_entity_until_close p) (entity_post p).
Proof.
  intros Hp Hpos He. assert (in_entity p) as Hin by (split; [done|by rewrite He]).
  unfold parser_parse_entity_until_close. mstep. apply runs_assert_true; [by rewrite He|].
  apply runs_ret. split; [|done]. apply inv_cursor; [|].
  - apply inv_entity; try done. by rewrite He.
  - pose proof (pi_cursor p Hp). change (p_cursor p <= msg_length p <= zlen (p_buf p)).
    unfold msg_length. rewrite zlen_p_buf by done. lia.
Qed.

Lemma find_chunked_total p :
  parser_inv p ->
  exists c p1, find_chunked p = Some (c, p1) /\ parser_inv p1 /\
    (p1 = p \/ exists i h, p1 = on_msg (set_headers_at i h) p).
Proof.
  intros Hp. unfold find_chunked.
  destruct (httpmsg_find_hdr (p_msg p) HDR_TRANSFER_ENCODING) as [[i h]|] eqn:E;
    [|do 2 eexists; split; [done|]; split; [done|by left]].
  apply find_header_lookup in E.
  pose proof (Forall_lookup_1 _ _ _ _ (pi_headers p Hp) E) as Hok.
  destruct (raw_find_str_ok _ h (cs "chunked") Hok) as (n & b & -> & Hok2).
  cbn [mbind option_bind]. do 2 eexists. split; [done|]. split; [|right; by eexists _, _].
  apply inv_on_msg; try apply Hp; try done. cbn. apply Forall_insert; [apply Hp|done].
Qed.

Lemma raw_to_int_total v base : exists n, raw_to_int v base = Some n.
Proof. unfold raw_to_int. destruct (_ =? 0); [by eexists|]. case_match. by eexists. Qed.

Lemma read_method_runs p :
  parser_inv p -> p_position p = POS_ENTITY ->
  p_ent_position p = ENTREAD_DETERMINE_READ_METHOD ->
  runs md (parser_get_entity_read_method p) (entity_post p).
Proof.
  intros Hp Hpos He. unfold parser_get_entity_read_method. mstep.
  apply runs_assert_true; [by rewrite He|].
  set (p1 := set_entity_start_position _ _).
  assert (parser_inv p1) as Hp1.
  { destruct Hp. split; cbn; try done; unfold in_entity; cbn; rewrite ?He; try by intros [].
    unfold header_bound in *. cbn. by rewrite Hpos, He in *. }
  mstep; [by apply runs_ret, entity_post_success, inv_complete|].
  destruct (find_chunked_total p1 Hp1) as (c & p2 & E & Hp2 & Hcase). rewrite E.
  mstep. eapply runs_liftO; [done|]. cbv beta iota.
  assert (p_position p2 = POS_ENTITY /\ p_ent_position p2 = ENTREAD_DETERMINE_READ_METHOD /\
    p_entity_start_position p2 = p_cursor p2 /\ bp_off (m_entity (p_msg p2)) = p_cursor p2 /\
    p_buf p2 = p_buf p) as (F1 & F2 & F3 & F4 & F5)
    by (destruct Hcase as [->|(? & ? & ->)]; unfold p1; cbn; by rewrite Hpos, He).
  assert (forall e x, 1 < e < 6 -> 0 <= x <= SIZE_MAX -> entity_post p (PARSE_CONTINUE_1,
    set_ent_position e (set_content_length x p2))) as Hgo.
  { intros e x He1 Hx. split; cbn.
    - destruct Hp2. split; cbn; try done; try lia.
      + unfold header_bound in *. rewrite F1, F2 in *. cbn in pi_headers0 |- *. rewrite F1.
        rewrite F3. destruct ((e =? _) || _); exact pi_headers0.
      + intros _ ->. unfold ENTREAD_CHUNKY_HEADERS in *. lia.
    - split; [done|]. split; [by intros [?|?]|]. intros _. split; [done|].
      unfold entity_measure. cbn. rewrite He, (proj2 (Z.eqb_neq e _)) by (unfold ENTREAD_DETERMINE_READ_METHOD; lia).
      change (p_buf (set_ent_position e (set_content_length x p2))) with (p_buf p2).
      rewrite F5. cbn. lia. }
  assert (forall e, 1 < e < 6 -> entity_post p (PARSE_CONTINUE_1, set_ent_position e p2)) as Hgo2.
  { intros e He1. specialize (Hgo e (p_content_length p2) He1 (pi_clen _ Hp2)).
    by replace (set_content_length (p_content_length p2) p2) with p2 in Hgo by (by destruct p2). }
  mstep; [apply runs_ret, Hgo2; unfold ENTREAD_USING_CHUNKED; lia|].
  destruct (httpmsg_find_hdr _ _) as [[i h]|].
  - destruct (raw_to_int_total (value_ptr h) 10) as [n ->]. mstep. eapply runs_liftO; [done|].
    apply runs_ret, Hgo; [unfold ENTREAD_USING_CLEN; lia|].
    pose proof (wrapU_range 32 n). unfold to_uint, SIZE_MAX. lia.
  - mstep; [|apply runs_ret, Hgo2; unfold ENTREAD_UNTIL_CLOSE; lia].
    apply runs_ret, entity_post_fail, inv_set_error. case_match; [|done]. destruct Hp2. by split.
Qed.

Section Chunks.
(** The shrinking [realloc] of [membuffer_delete] is asserted to succeed. *)
Context (Hmd : md <> Total).

Lemma delete_msg_runs p save (Q : http_parser_t -> Prop) :
  parser_inv p -> 0 <= save <= p_cursor p ->
  (forall b, mb_wf b -> contents b = ztake save (p_buf p) ++ zdrop (p_cursor p) (p_buf p) ->
     Q (set_cursor save (on_msg (set_msg_buf b) p))) ->
  runs md (delete_msg junk p save) Q.
Proof.
  intros Hp Hs HQ. pose proof (pi_cursor p Hp) as Hc. pose proof (pi_buf p Hp) as [Hl _ _ _].
  unfold delete_msg. rewrite to_size_small by (unfold MB_MAX, INT_MAX, SIZE_MAX in *; lia).
  mstep. eapply runs_mono.
  { apply delete_runs; [done|apply Hp|lia|lia|].
    unfold MB_MAX, INT_MAX, SIZE_MAX in *. lia. }
  intros b [(Hw & Hcon & _) _]. apply runs_ret, HQ; [done|].
  replace (save + (p_cursor p - save)) with (p_cursor p) in Hcon by lia. done.
Qed.

Lemma deleted_length p save b :
  parser_inv p -> 0 <= save <= p_cursor p -> mb_wf b ->
  contents b = ztake save (p_buf p) ++ zdrop (p_cursor p) (p_buf p) ->
  mb_length b = msg_length p - (p_cursor p - save).
Proof.
  intros Hp Hs Hw Hc. pose proof (pi_cursor p Hp) as Hcur. pose proof (zlen_p_buf p Hp) as Hz.
  apply (f_equal zlen) in Hc.
  rewrite zlen_contents, zlen_app, zlen_ztake, zlen_zdrop in Hc by (done || lia).
  unfold msg_length. lia.
Qed.

(** Deleting the last [p_cursor p - save] bytes read, inside the entity. *)
Lemma inv_deleted p save b :
  parser_inv p -> in_entity p -> p_ent_position p <> ENTREAD_CHUNKY_HEADERS ->
  p_entity_start_position p <= save <= p_cursor p -> mb_wf b ->
  contents b = ztake save (p_buf p) ++ zdrop (p_cursor p) (p_buf p) ->
  parser_inv (set_cursor save (on_msg (set_msg_buf b) p)).
Proof.
  intros Hp Hin Hne Hs Hw Hc. pose proof (pi_entity p Hp Hin) as [Hst Ho].
  assert (0 <= save <= p_cursor p) as Hs2 by lia.
  pose proof (deleted_length p save b Hp Hs2 Hw Hc) as Hl. unfold msg_length in Hl.
  pose proof Hin as [Hpos Hdet]. destruct Hp. split; cbn; try done; try lia.
  unfold header_bound in *. cbn. rewrite Hpos in *.
  rewrite (proj2 (Z.eqb_neq (p_ent_position p) _) Hdet) in *.
  by rewrite (proj2 (Z.eqb_neq (p_ent_position p) _) Hne) in *.
Qed.

(** A round that has deleted something goes on. *)
Lemma entity_post_continue p q :
  parser_inv q -> p_position q = POS_ENTITY ->
  p_ent_position q <> ENTREAD_DETERMINE_READ_METHOD -> zlen (p_buf q) < zlen (p_buf p) ->
  entity_post p (PARSE_CONTINUE_1, q).
Proof.
  intros Hq Hpos He Hl. split; [done|]. split; [done|]. split; [by intros [?|?]|].
  intros _. split; [done|]. unfold entity_measure. cbn [snd].
  rewrite (proj2 (Z.eqb_neq _ _) He). unfold zlen in Hl. lia.
Qed.

Lemma inv_chunk_size v p :
  0 <= v <= SIZE_MAX -> parser_inv p -> parser_inv (set_chunk_size v p).
Proof. intros Hv []. by split. Qed.

Lemma store_int_range old v : 0 <= old <= SIZE_MAX -> 0 <= store_int old v <= SIZE_MAX.
Proof.
  intros Ho. unfold store_int, SIZE_MAX in *. rewrite Z.shiftr_div_pow2, Z.shiftl_mul_pow2 by lia.
  pose proof (wrapU_range 32 v ltac:(lia)). unfold to_uint.
  assert (0 <= old / 2 ^ 32 < 2 ^ 32); [|lia].
  split; [apply Z.div_pos; lia|apply Z.div_lt_upper_bound; lia].
Qed.

Lemma chunky_body_runs p :
  parser_inv p -> p_position p = POS_ENTITY -> p_ent_position p = ENTREAD_CHUNKY_BODY ->
  runs md (parser_parse_chunky_body junk getaddrinfo inet_pton gIF_INDEX p) (entity_post p).
Proof.
  intros Hp Hpos He. assert (in_entity p) as Hin by (split; [done|by rewrite He]).
  pose proof (pi_entity p Hp Hin) as [Hs Ho]. pose proof (pi_cursor p Hp) as Hc.
  pose proof (pi_buf p Hp) as [Hl _ _ _]. pose proof (pi_chunk p Hp) as Hch.
  pose proof (zlen_p_buf p Hp) as Hz. unfold parser_parse_chunky_body, msg_length.
  unfold MB_MAX, INT_MAX in Hl.
  rewrite (to_size_small (_ - p_cursor p)) by (unfold SIZE_MAX; lia).
  mstep; [|by apply runs_ret, entity_post_stop; try done; right; left].
  rewrite (to_size_small (p_cursor p + _)) by (unfold SIZE_MAX; lia).
  set (save := p_cursor p + p_chunk_size p). mstep.
  apply runs_match; [done|change (0 <= save <= zlen (p_buf p)); lia|].
  intros s c o Hst Hb Hne Hm. change (save <= c <= zlen (p_buf p)) in Hb.
  case_bool_decide as Hok; cbn [negb].
  - subst s. pose proof (matched_crlf (p_buf p) save c o (Hm eq_refl)) as Hc2.
    set (p1 := set_cursor c (set_cursor save p)).
    assert (parser_inv p1) as Hp1 by (apply (inv_cursor c p); [done|lia]).
    mstep. apply delete_msg_runs; [done|change (0 <= save <= c); lia|]. intros b Hw Hcon.
    assert (0 <= save <= p_cursor p1) as Hs1 by (change (0 <= save <= c); lia).
    pose proof (deleted_length p1 save b Hp1 Hs1 Hw Hcon) as Hdl.
    assert (parser_inv (set_cursor save (on_msg (set_msg_buf b) p1))) as Hp2.
    { apply inv_deleted; [done|done|by cbn; rewrite He|cbn; lia|done|done]. }
    set (p2 := set_cursor save (on_msg (set_msg_buf b) p1)) in *.
    apply runs_ret. apply entity_post_continue; [|done|done|].
    + apply inv_ent_position; [|split; [done|by cbn; rewrite He]|by cbn; rewrite He|done|done].
      apply inv_entity; [done|by cbn; rewrite He|done|]. intros _. exact Ho.
    + change (zlen (contents b) < zlen (p_buf p)). rewrite zlen_contents by done.
      change (p_cursor p1) with c in Hdl. change (msg_length p1) with (msg_length p) in Hdl.
      unfold msg_length in Hdl. lia.
  - apply runs_ret. rewrite (Hne Hok). cbn [p_cursor set_cursor].
    change (p_chunk_size (set_cursor save (set_cursor save p))) with (p_chunk_size p).
    replace (save - p_chunk_size p) with (p_cursor p) by lia.
    rewrite to_size_small by (unfold SIZE_MAX; lia).
    replace (set_cursor (p_cursor p) _) with p by (by destruct p).
    by apply entity_post_stop.
Qed.

Lemma chunky_entity_runs p :
  parser_inv p -> p_position p = POS_ENTITY -> p_ent_position p = ENTREAD_USING_CHUNKED ->
  runs md (parser_parse_chunky_entity junk getaddrinfo inet_pton gIF_INDEX p) (entity_post p).
Proof.
  intros Hp Hpos He. assert (in_entity p) as Hin by (split; [done|by rewrite He]).
  pose proof (pi_entity p Hp Hin) as [Hs Ho]. pose proof (pi_cursor p Hp) as Hc.
  pose proof (pi_buf p Hp) as [Hl _ _ _]. pose proof (zlen_p_buf p Hp) as Hz.
  unfold parser_parse_chunky_entity. mstep. apply runs_assert_true; [by rewrite He|].
  mstep. apply runs_match; [done|lia|]. intros s c o Hst Hb Hne Hm.
  set (p1 := match o with AInt v :: _ => _ | _ => _ end).
  assert (exists v, 0 <= v <= SIZE_MAX /\ p1 = set_chunk_size v (set_cursor c p)) as (v & Hv & ->).
  { pose proof (pi_chunk p Hp) as Hch.
    assert (exists v, 0 <= v <= SIZE_MAX /\ set_cursor c p = set_chunk_size v (set_cursor c p))
      by (exists (p_chunk_size p); split; [done|by destruct p]).
    destruct o as [|[] o]; try done. exists (store_int (p_chunk_size p) n).
    split; [by apply store_int_range|done]. }
  set (p1 := set_chunk_size v (set_cursor c p)).
  assert (parser_inv p1) as Hp1 by (apply inv_chunk_size; [done|by apply inv_cursor]).
  case_bool_decide as Hok; cbn [negb].
  - subst s. destruct (matched_chunk (p_buf p) (p_cursor p) c o (Hm eq_refl)) as [Hc2 _].
    mstep. apply delete_msg_runs; [done|change (0 <= p_cursor p <= c); lia|]. intros b Hw Hcon.
    assert (0 <= p_cursor p <= p_cursor p1) as Hs1 by (change (0 <= p_cursor p <= c); lia).
    pose proof (deleted_length p1 (p_cursor p) b Hp1 Hs1 Hw Hcon) as Hdl.
    change (p_cursor p1) with c in Hdl. change (msg_length p1) with (msg_length p) in Hdl.
    set (p2 := set_cursor (p_cursor p) (on_msg (set_msg_buf b) p1)).
    assert (parser_inv p2) as Hp2.
    { apply inv_deleted; [done|done|by cbn; rewrite He| |done|done].
      change (p_entity_start_position p <= p_cursor p <= c). lia. }
    assert (p_ent_position p2 = ENTREAD_USING_CHUNKED) as He2 by done.
    assert (zlen (contents b) < zlen (p_buf p)) as Hsmall
      by (rewrite zlen_contents by done; unfold msg_length in Hdl; lia).
    assert (forall e q, 1 < e <= 6 -> parser_inv q -> p_position q = POS_ENTITY ->
      p_ent_position q = ENTREAD_USING_CHUNKED -> p_buf q = contents b ->
      (e = ENTREAD_CHUNKY_HEADERS ->
        p_entity_start_position q + bp_length (m_entity (p_msg q)) <= p_cursor q) ->
      entity_post p (PARSE_CONTINUE_1, set_ent_position e q)) as Hgo.
    { intros e q He1 Hq Hqp Hqe Hqb Ht. apply entity_post_continue.
      - apply inv_ent_position; [done|split; [done|by rewrite Hqe]|by rewrite Hqe|done|done].
      - done.
      - cbn. unfold ENTREAD_DETERMINE_READ_METHOD. lia.
      - change (p_buf (set_ent_position e q)) with (p_buf q). by rewrite Hqb. }
    apply runs_ret. change (p_chunk_size p2) with v. destruct (v =? 0).
    + apply Hgo; try done.
      * apply inv_entity; [done|by rewrite He2|done|]. intros _. exact Ho.
      * intros _. cbn -[to_size]. rewrite (pi_discarded p Hp), Z.add_0_r.
        unfold MB_MAX, INT_MAX in Hl. rewrite to_size_small by (unfold SIZE_MAX; lia). lia.
    + apply Hgo; done.
  - apply runs_ret. apply entity_post_stop; try done.
    apply (inv_cursor (p_cursor p) p1); [done|]. change (c <= p_cursor p <= zlen (p_buf p)).
    rewrite (Hne Hok). lia.
Qed.

Lemma chunky_headers_runs p :
  parser_inv p -> p_position p = POS_ENTITY -> p_ent_position p = ENTREAD_CHUNKY_HEADERS ->
  runs md (parser_parse_chunky_headers junk getaddrinfo inet_pton gIF_INDEX p) (entity_post p).
Proof.
  intros Hp Hpos He. unfold parser_parse_chunky_headers. mstep.
  eapply runs_mono; [apply parse_headers_runs; [done|by right]|].
  intros [s p1] (Hp1 & Hf & H1 & H2 & H3 & H4). cbn [fst snd] in *.
  pose proof (pi_cursor p Hp) as Hc. pose proof (hf_cursor _ _ Hf) as Hc1.
  case_bool_decide as Hs.
  - mstep. set (p2 := set_position POS_COMPLETE p1).
    assert (parser_inv p2) as Hp2 by (by apply inv_complete).
    apply delete_msg_runs; [done|change (0 <= p_cursor p <= p_cursor p1); lia|].
    intros b Hw Hcon. apply runs_ret, entity_post_success.
    assert (0 <= p_cursor p <= p_cursor p2) as Hs2 by (change (0 <= p_cursor p <= p_cursor p1); lia).
    pose proof (deleted_length p2 (p_cursor p) b Hp2 Hs2 Hw Hcon) as Hdl.
    pose proof (pi_cursor p1 Hp1). change (p_cursor p2) with (p_cursor p1) in Hdl.
    change (msg_length p2) with (mb_length (m_msg_buf (p_msg p1))) in Hdl.
    destruct Hp2. split; cbn; try done; try lia; by intros [].
  - apply runs_ret. split; [done|]. split; [done|]. cbn. split; [|done].
    intros [->| ->]; [|done]. by rewrite H4, (hf_ent _ _ Hf), (frame_buf _ _ Hf).
Qed.

Lemma entity_step_runs p :
  parser_inv p -> p_position p = POS_ENTITY ->
  runs md (entity_step junk getaddrinfo inet_pton gIF_INDEX p) (entity_post p).
Proof.
  intros Hp Hpos. pose proof (pi_method p Hp) as Hm. unfold entity_step.
  mstep; [by apply clen_runs|]. mstep; [by apply chunky_entity_runs|].
  mstep; [by apply chunky_body_runs|]. mstep; [by apply chunky_headers_runs|].
  mstep; [by apply until_close_runs|]. mstep; [by apply read_method_runs|].
  unfold ENTREAD_USING_CLEN, ENTREAD_USING_CHUNKED, ENTREAD_CHUNKY_BODY, ENTREAD_CHUNKY_HEADERS,
    ENTREAD_UNTIL_CLOSE, ENTREAD_DETERMINE_READ_METHOD in *. lia.
Qed.

(** The loop over the rounds returns, and never asks for another round. *)
Definition until_close (r : parse_status_t * http_parser_t) : Prop :=
  r.1 = PARSE_INCOMPLETE_ENTITY ->
  p_position r.2 = POS_ENTITY /\ p_ent_position r.2 = ENTREAD_UNTIL_CLOSE.
Definition parse_post (r : parse_status_t * http_parser_t) : Prop :=
  parser_inv r.2 /\ r.1 <> PARSE_OK /\ r.1 <> PARSE_CONTINUE_1 /\
  (r.1 = PARSE_INCOMPLETE \/ r.1 = PARSE_INCOMPLETE_ENTITY -> p_position r.2 <> POS_COMPLETE) /\
  until_close r.

Lemma entity_loop_runs fuel p :
  parser_inv p -> p_position p = POS_ENTITY -> (entity_measure p < fuel)%nat ->
  runs md (entity_loop junk getaddrinfo inet_pton gIF_INDEX fuel p) parse_post.
Proof.
  revert p. induction fuel as [|fuel IH]; intros p Hp Hpos Hf; [lia|].
  cbn [entity_loop]. mstep. eapply runs_mono; [by apply entity_step_runs|].
  intros [s p1] (H1 & H2 & H3 & H4). cbn [fst snd] in *. case_bool_decide as Hs.
  - destruct (H4 Hs) as [Hpos1 Hm]. apply IH; [done|done|lia].
  - apply runs_ret. split; [done|]. split; [done|]. split; [done|]. cbn. split.
    + intros Hi. by destruct (H3 Hi) as [-> _].
    + intros Hs2. cbn in Hs2. destruct (H3 (or_intror Hs2)) as (H5 & H6 & _ & H7).
      rewrite <- (H7 Hs2). by split.
Qed.

Lemma parse_entity_runs p :
  parser_inv p -> p_position p = POS_ENTITY ->
  runs md (parser_parse_entity junk getaddrinfo inet_pton gIF_INDEX p) parse_post.
Proof.
  intros Hp Hpos. unfold parser_parse_entity. mstep.
  apply runs_assert_true; [by apply bool_decide_true|]. apply entity_loop_runs; try done.
  unfold entity_measure, entity_fuel. case_match; lia.
Qed.

(** ** The parser *)

Definition position_rank (p : http_parser_t) : nat :=
  match p_position p with
  | POS_REQUEST_LINE | POS_RESPONSE_LINE => 2 | POS_HEADERS => 1 | _ => 0
  end.

Lemma parse_step_runs p :
  parser_inv p -> p_position p <> POS_COMPLETE ->
  runs md (parse_step junk getaddrinfo inet_pton gIF_INDEX p) (fun r =>
    parser_inv r.2 /\ r.1 <> PARSE_CONTINUE_1 /\
    (r.1 = PARSE_INCOMPLETE \/ r.1 = PARSE_INCOMPLETE_ENTITY -> p_position r.2 <> POS_COMPLETE) /\
    (r.1 = PARSE_OK -> p_position r.2 <> POS_COMPLETE /\ (position_rank r.2 < position_rank p)%nat) /\
    until_close r).
Proof.
  intros Hp Hpos. unfold parse_step, position_rank. destruct (p_position p) eqn:E.
  - eapply runs_mono; [by apply requestline_runs|]. intros [s p1] (H1 & H2 & H3 & H4 & H5).
    cbn in *. split; [done|]. split; [done|]. split; [intros [Hs|Hs]; by rewrite ?(H5 Hs)|].
    split; [intros Hs; rewrite (H4 Hs); split; [done|lia]|by intros ?].
  - eapply runs_mono; [by apply responseline_runs|]. intros [s p1] (H1 & H2 & H3 & H4 & H5).
    cbn in *. split; [done|]. split; [done|]. split; [intros [Hs|Hs]; by rewrite ?(H5 Hs)|].
    split; [intros Hs; rewrite (H4 Hs); split; [done|lia]|by intros ?].
  - eapply runs_mono; [apply parse_headers_runs; [done|by left]|].
    intros [s p1] (H1 & _ & H2 & H3 & H4 & H5). cbn in *. split; [done|]. split; [done|].
    split; [intros [Hs|Hs]; [rewrite (H5 Hs), E|]; done|].
    split; [intros Hs; rewrite (H4 Hs); split; [done|lia]|by intros ?].
  - eapply runs_mono; [by apply parse_entity_runs|]. intros [s p1] (H1 & H2 & H3 & H4 & H5).
    cbn in *. by split_and!.
  - done.
Qed.

Lemma parse_loop_runs fuel p :
  parser_inv p -> p_position p <> POS_COMPLETE -> (position_rank p < fuel)%nat ->
  runs md (parse_loop junk getaddrinfo inet_pton gIF_INDEX fuel p) parse_post.
Proof.
  revert p. induction fuel as [|fuel IH]; intros p Hp Hpos Hf; [lia|].
  cbn [parse_loop]. mstep. eapply runs_mono; [by apply parse_step_runs|].
  intros [s p1] (H1 & H2 & H3 & H4 & H5). cbn [fst snd] in *. case_bool_decide as Hs.
  - destruct (H4 Hs) as [Hpos1 Hm]. apply IH; [done|done|lia].
  - by apply runs_ret.
Qed.

Lemma parser_parse_runs p :
  parser_inv p -> p_position p <> POS_COMPLETE ->
  runs md (parser_parse junk getaddrinfo inet_pton gIF_INDEX p) parse_post.
Proof.
  intros Hp Hpos. apply parse_loop_runs; [done|done|]. unfold position_rank. case_match; lia.
Qed.

Lemma parser_append_runs p data :
  parser_inv p -> p_position p <> POS_COMPLETE -> msg_length p + zlen data <= MB_MAX ->
  runs md (parser_append junk getaddrinfo inet_pton gIF_INDEX p data (zlen data)) parse_post.
Proof.
  intros Hp Hpos Hmax. unfold parser_append. mstep.
  eapply runs_mono; [apply append_runs; [apply Hp|exact Hmax]|].
  pose proof (zlen_nonneg data) as Hz. intros [rc b] Hb.
  assert (parser_inv (on_msg (set_msg_buf b) p)) as Hp1.
  { destruct Hb as [(_ & Hw & Hc & _)|(_ & _ & ->)]; destruct Hp; split; cbn; try done.
    apply (f_equal zlen) in Hc. rewrite zlen_app, !zlen_contents in Hc by done. lia. }
  mstep; [|by apply parser_parse_runs]. apply runs_ret. split; [by apply inv_set_error|].
  split; [done|]. split; [done|]. by split; [intros [?|?]|intros ?].
Qed.
End Chunks.
End Safety.

(** ** Properties *)

(** C6: The parser is safe on every input: in a state with the invariant (a
    fresh parser has it) that is not complete, appending any bytes that keep
    the message within [INT_MAX] bytes and parsing on neither reads nor writes
    outside a block and overflows no length.  With memory available it fails no
    assertion and returns; whatever the allocator answers, it returns or fails
    the one assertion of [membuffer_delete] that giving memory back succeeds,
    and no other.  When it returns, the status is a definite one and the
    invariant holds again; it asks for more data only in a state from which it
    can be continued. *)
Theorem parser_append_safe junk getaddrinfo inet_pton gIF_INDEX p data :
  parser_inv p -> p_position p <> POS_COMPLETE ->
  msg_length p + zlen data <= MB_MAX ->
  forall md, md = Lucky \/ md = Grow ->
  runs md (parser_append junk getaddrinfo inet_pton gIF_INDEX p data (zlen data))
    (fun '(s, p') => parser_inv p' /\ s <> PARSE_OK /\ s <> PARSE_CONTINUE_1 /\
       (s = PARSE_INCOMPLETE \/ s = PARSE_INCOMPLETE_ENTITY -> p_position p' <> POS_COMPLETE)).
Proof.
  intros Hp Hpos Hmax md Hmd. eapply runs_mono; [apply parser_append_runs; [|done..]|].
  - by destruct Hmd as [-> | ->].
  - intros [s p'] (? & ? & ? & ? & _). by split_and!.
Qed.

Lemma parser_append_safe_witness :
  parser_inv parser_request_init /\
  runs Grow (parser_append 0 no_dns any_pton 0 parser_request_init (cs "GET /a HTTP/1.1") 15)
    (fun '(s, p') => parser_inv p' /\ s <> PARSE_OK /\ s <> PARSE_CONTINUE_1 /\
       (s = PARSE_INCOMPLETE \/ s = PARSE_INCOMPLETE_ENTITY -> p_position p' <> POS_COMPLETE)).
Proof.
  assert (parser_inv parser_request_init) as H
    by (apply inv_position; [by apply inv_harmless, parser_init_inv|done..]).
  split; [exact H|].
  apply (parser_append_safe 0 no_dns any_pton 0 parser_request_init (cs "GET /a HTTP/1.1"));
    [exact H|discriminate|vm_compute; discriminate|by right].
Defined.
