(* ===== verification/HttpResume.v ===== *)
(** Resumption of the HTTP message parser: the result does not depend on how
    the bytes of a message are cut into the pieces that arrive.

    [resumes f p] says of a parsing function that what it decides on the bytes
    that are there it decides in the same way when more bytes follow, and that
    when it asks for more, calling it again from the state it left is the same
    as calling it once on all bytes.  The property is proved for the functions
    of [HttpParser.v] one by one, lifted over the two loops that iterate them,
    and yields the theorem on [parser_append]. *)

From S2P Require Import Prelude CString MemBuffer StrIntMap HttpTables Uri Scanner HttpMessage HttpParser HttpSafety.

(** ** Definitions *)

(** The parser with another message buffer, and buffers that hold more. *)
Definition with_buf (b : membuffer) (p : http_parser_t) : http_parser_t :=
  on_msg (set_msg_buf b) p.
Definition ext (more : list Z) (b : membuffer) (p : http_parser_t) : Prop :=
  mb_wf b /\ contents b = p_buf p ++ more.

Definition incomplete (s : parse_status_t) : Prop :=
  s = PARSE_INCOMPLETE \/ s = PARSE_INCOMPLETE_ENTITY.
Definition goes_on (s : parse_status_t) : Prop := s = PARSE_OK \/ s = PARSE_CONTINUE_1.

(** The bytes of the entity. *)
Definition entity_text (p : http_parser_t) : list Z :=
  zslice (bp_off (m_entity (p_msg p))) (bp_length (m_entity (p_msg p))) (p_buf p).

(** What a caller sees of a parser: all but the block of the message buffer
    and the cursor, and the text of the entity. *)
Definition view (p : http_parser_t) : http_parser_t * list Z :=
  (set_cursor 0 (with_buf membuffer_init p), entity_text p).

Abbreviation result := (outcome (parse_status_t * http_parser_t)).

(** Two results with the same status and the same view. *)
Definition same_view (r1 r2 : result) : Prop :=
  exists s p1 p2, r1 = Ret (s, p1) [] /\ r2 = Ret (s, p2) [] /\ view p1 = view p2.

(** The same result; a final one may differ in what is not seen. *)
Definition agree (r1 r2 : result) : Prop :=
  r1 = r2 \/ exists s p1 p2, r1 = Ret (s, p1) [] /\ r2 = Ret (s, p2) [] /\
    ~ goes_on s /\ view p1 = view p2.

Definition resumes (f : http_parser_t -> M (parse_status_t * http_parser_t))
    (p : http_parser_t) : Prop :=
  forall more b, ext more b p ->
  exists s p1, f p [] = Ret (s, p1) [] /\
    (goes_on s \/ more = [] -> exists b1,
       f (with_buf b p) [] = Ret (s, with_buf b1 p1) [] /\ ext more b1 p1) /\
    (incomplete s -> exists b1,
       ext more b1 p1 /\ agree (f (with_buf b p) []) (f (with_buf b1 p1) [])).

(** ** Lemmas: buffers that hold more *)

Lemma p_buf_with b p : p_buf (with_buf b p) = contents b.
Proof. done. Qed.

Lemma ext_zlen more b p :
  parser_inv p -> ext more b p -> mb_length b = msg_length p + zlen more.
Proof.
  intros Hp [Hw Hc]. apply (f_equal zlen) in Hc.
  rewrite zlen_app, zlen_contents, zlen_p_buf in Hc by done. done.
Qed.

Lemma inv_with_buf more b p : parser_inv p -> ext more b p -> parser_inv (with_buf b p).
Proof.
  intros Hp He. pose proof (ext_zlen _ _ _ Hp He) as Hl. pose proof (zlen_nonneg more).
  destruct He as [Hw _]. destruct Hp. unfold msg_length in Hl. split; cbn; try done. lia.
Qed.

Lemma ext_self p : parser_inv p -> ext [] (m_msg_buf (p_msg p)) p.
Proof. intros Hp. split; [apply Hp|]. by rewrite app_nil_r. Qed.
Lemma with_buf_self p : with_buf (m_msg_buf (p_msg p)) p = p.
Proof. by destruct p as [[]]. Qed.

Lemma set_cursor_with b p : set_cursor (p_cursor p) (with_buf b p) = with_buf b p.
Proof. by destruct p. Qed.

(** The same contents give the same view. *)
Lemma view_ext b p : parser_inv p -> ext [] b p -> view (with_buf b p) = view p.
Proof.
  intros Hp [_ Hc]. unfold view, entity_text. rewrite p_buf_with, Hc, app_nil_r. done.
Qed.

Lemma at_ptr_more more b p t :
  ext more b p -> within (zlen (p_buf p)) t -> at_ptr (with_buf b p) t = at_ptr p t ++ more.
Proof.
  intros [_ Hc] (H1 & H2 & H3). unfold at_ptr. rewrite p_buf_with, Hc, zdrop_app_le by lia. done.
Qed.
Lemma text_of_more more b p t :
  ext more b p -> within (zlen (p_buf p)) t -> text_of (with_buf b p) t = text_of p t.
Proof.
  intros He Hw. unfold text_of. rewrite (at_ptr_more more) by done.
  apply ztake_app_le. rewrite at_ptr_zlen by done. destruct Hw as (H1 & H2 & H3). lia.
Qed.

(** ** Lemmas: iterated steps *)

Section Rounds.
Context (step : http_parser_t -> M (parse_status_t * http_parser_t)) (go : parse_status_t).
Context (I : http_parser_t -> Prop) (measure : http_parser_t -> nat).

Fixpoint rounds (fuel : nat) (p : http_parser_t) : M (parse_status_t * http_parser_t) :=
  match fuel with
  | O => running
  | S fuel' =>
      '(status, p) ← step p;
      if bool_decide (status = go) then rounds fuel' p else mret (status, p)
  end.

Context (Hgo : goes_on go)
  (I_inv : forall p, I p -> parser_inv p)
  (I_ext : forall more b p, I p -> ext more b p -> I (with_buf b p))
  (step_next : forall p s p1, I p -> step p [] = Ret (s, p1) [] ->
     (s = go -> I p1 /\ (measure p1 < measure p)%nat) /\ (incomplete s -> I p1))
  (step_resumes : forall p, I p -> resumes step p).

Lemma step_total p : I p -> exists s p1, step p [] = Ret (s, p1) [].
Proof.
  intros Hp. destruct (step_resumes p Hp [] _ (ext_self p (I_inv p Hp))) as (s & p1 & E & _).
  by exists s, p1.
Qed.

Lemma rounds_fuel n m p :
  I p -> (measure p < n)%nat -> (measure p < m)%nat -> rounds n p [] = rounds m p [].
Proof.
  revert m p. induction n as [|n IH]; intros m p Hp Hn Hm; [lia|]. destruct m as [|m]; [lia|].
  cbn [rounds]. unfold mbind, M_bind. destruct (step_total p Hp) as (s & p1 & E). rewrite E.
  case_bool_decide as Hs; [|done]. destruct (proj1 (step_next p s p1 Hp E) Hs).
  apply IH; [done|lia|lia].
Qed.

(** One more round than needed. *)
Lemma rounds_step n p s p1 :
  I p -> (measure p < n)%nat -> step p [] = Ret (s, p1) [] ->
  rounds n p [] = if bool_decide (s = go) then rounds n p1 [] else Ret (s, p1) [].
Proof.
  intros Hp Hn E. rewrite (rounds_fuel n (S n) p) by (done || lia). cbn [rounds].
  unfold mbind, M_bind. rewrite E. by case_bool_decide.
Qed.

Lemma agree_rounds n p q :
  I p -> I q -> (measure p < n)%nat -> (measure q < n)%nat ->
  agree (step p []) (step q []) -> agree (rounds n p []) (rounds n q []).
Proof.
  intros Hp Hq Hn1 Hn2 Ha.
  destruct (step_total p Hp) as (s & p1 & Ep). destruct (step_total q Hq) as (s2 & q1 & Eq).
  rewrite (rounds_step n p s p1), (rounds_step n q s2 q1) by done. rewrite Ep, Eq in Ha.
  destruct Ha as [[= <- <-]|(s3 & p3 & q3 & [= -> ->] & [= -> ->] & Hs & Hv)]; [by left|].
  rewrite bool_decide_false by (by intros ->). right. by exists s3, p3, q3.
Qed.

(** A run that asks for more stops in a state of the loop. *)
Lemma rounds_incomplete n p s p1 :
  I p -> rounds n p [] = Ret (s, p1) [] -> incomplete s -> I p1.
Proof.
  revert p. induction n as [|n IH]; intros p Hp E Hi; [done|]. cbn [rounds] in E.
  unfold mbind, M_bind in E. destruct (step_total p Hp) as (s2 & p2 & E2). rewrite E2 in E.
  destruct (step_next p s2 p2 Hp E2) as [H1 H2]. case_bool_decide as Hs.
  - destruct (H1 Hs) as [H3 _]. by apply (IH p2).
  - injection E as <- <-. by apply H2.
Qed.

Lemma rounds_resumes fuel (Hfuel : forall p, I p -> (measure p < fuel p)%nat) p :
  I p -> resumes (fun p => rounds (fuel p) p) p.
Proof.
  intros Hp. remember (measure p) as k eqn:Ek. assert (measure p <= k)%nat as Hk by lia. clear Ek.
  revert p Hp Hk. induction k as [k IH] using (well_founded_induction lt_wf).
  intros p Hp Hk more b He. pose proof (I_ext more b p Hp He) as Hpb.
  destruct (step_resumes p Hp more b He) as (s & p1 & E & Hsame & Hinc).
  destruct (step_next p s p1 Hp E) as [Hnext Hstop].
  rewrite (rounds_step _ p s p1) by auto.
  case_bool_decide as Hs.
  - destruct (Hnext Hs) as [Hp1 Hm1]. subst s.
    destruct (Hsame (or_introl Hgo)) as (b1 & Eb & He1).
    destruct (step_next _ _ _ Hpb Eb) as [Hnextb _]. destruct (Hnextb eq_refl) as [Hpb1 Hmb1].
    rewrite (rounds_step _ _ _ _ Hpb (Hfuel _ Hpb) Eb), bool_decide_true by done.
    destruct (IH (measure p1) ltac:(lia) p1 Hp1 ltac:(lia) more b1 He1) as (s2 & p2 & E2 & H2 & H3).
    cbv beta in *. pose proof (Hfuel _ Hp). pose proof (Hfuel _ Hp1). pose proof (Hfuel _ Hpb).
    pose proof (Hfuel _ Hpb1).
    rewrite (rounds_fuel (fuel p) (fuel p1)) by (done || lia).
    rewrite (rounds_fuel (fuel (with_buf b p)) (fuel (with_buf b1 p1))) by (done || lia).
    exists s2, p2. auto.
  - exists s, p1. split; [done|]. split.
    + intros H. destruct (Hsame H) as (b1 & Eb & He1). exists b1. split; [|done].
      rewrite (rounds_step _ _ _ _ Hpb (Hfuel _ Hpb) Eb). by rewrite bool_decide_false.
    + intros Hi. destruct (Hinc Hi) as (b1 & He1 & Ha). exists b1. split; [done|].
      assert (I (with_buf b1 p1)) as Hq by (apply (I_ext more); auto).
      set (n := (fuel (with_buf b p) + fuel (with_buf b1 p1))%nat).
      pose proof (Hfuel _ Hpb). pose proof (Hfuel _ Hq).
      rewrite (rounds_fuel (fuel (with_buf b p)) n), (rounds_fuel (fuel (with_buf b1 p1)) n)
        by (done || lia).
      apply agree_rounds; done || lia.
Qed.
End Rounds.

(** ** Lemmas: what more bytes do not change *)

Definition tmap {A B} (g : A -> B) (r : outcome A) : outcome B :=
  match r with Ret a o => Ret (g a) o | Abort e => Abort e | UB => UB | Running => Running end.

Lemma tmap_bind {A B C D} (g : A -> B) (h : C -> D) (m1 : M A) (m2 : M B) k1 k2 o :
  m2 o = tmap g (m1 o) ->
  (forall a o1, m1 o = Ret a o1 -> k2 (g a) o1 = tmap h (k1 a o1)) ->
  (m2 ≫= k2) o = tmap h ((m1 ≫= k1) o).
Proof.
  intros Hm Hk. unfold mbind, M_bind. rewrite Hm.
  destruct (m1 o) as [a o1| | |]; cbn; [by apply Hk|done..].
Qed.

Lemma tmap_liftO {A C D} (h : C -> D) (x : option A) k1 k2 o :
  (forall a, x = Some a -> k2 a o = tmap h (k1 a o)) ->
  (liftO x ≫= k2) o = tmap h ((liftO x ≫= k1) o).
Proof. intros Hk. unfold mbind, M_bind, liftO. destruct x; [by apply Hk|done]. Qed.

Lemma strncmp_nat_app n a k b : (n <= length a)%nat -> strncmp_nat n (a ++ k) b = strncmp_nat n a b.
Proof.
  revert a b. induction n as [|n IH]; intros [|x a] b Hn; cbn in Hn; try done; try lia.
  cbn. case_match; [|done]. case_match; [done|]. apply IH. lia.
Qed.

Lemma memptr_cmp_app cse l k n s :
  n <= zlen l ->
  (if cse : bool then memptr_cmp else memptr_cmp_nocase) (Memptr (l ++ k) n) s
  = (if cse then memptr_cmp else memptr_cmp_nocase) (Memptr l n) s.
Proof.
  intros Hn. unfold memptr_cmp, memptr_cmp_nocase, strncasecmp, strncmp. unfold zlen in Hn.
  destruct cse; cbn [mp_buf mp_length]; rewrite ?fmap_app, strncmp_nat_app;
    rewrite ?length_fmap; done || lia.
Qed.

Lemma search_loop_ext cmp1 cmp2 table fuel top bot :
  (forall s, cmp1 s = cmp2 s) ->
  search_loop fuel cmp1 table top bot = search_loop fuel cmp2 table top bot.
Proof.
  intros H. revert top bot. induction fuel as [|fuel IH]; intros top bot; [done|].
  cbn [search_loop]. case_match; [|done]. destruct (table !! _) as [e|]; [|done].
  cbn [mbind option_bind]. by rewrite !H, !IH.
Qed.

Lemma map_str_to_int_app l k n table num cse :
  n <= zlen l -> map_str_to_int (l ++ k) n table num cse = map_str_to_int l n table num cse.
Proof.
  intros Hn. unfold map_str_to_int. apply search_loop_ext. intros s.
  pose proof (memptr_cmp_app cse l k n s Hn). by destruct cse.
Qed.

Lemma strip_slashes_app l k t :
  bp_length t <= zlen l -> strip_slashes (l ++ k) t = strip_slashes l t.
Proof.
  revert t. induction l as [|c l IH]; intros t Hl.
  - change (zlen []) with 0 in Hl. cbn [app]. destruct k as [|c [|d k]]; [done|done|].
    rewrite strip_slashes_cons. by rewrite (proj2 (Z.leb_gt 2 _)) by lia.
  - rewrite zlen_cons in Hl. destruct l as [|d l].
    + change (zlen []) with 0 in Hl. cbn [app]. destruct k as [|d k]; [done|].
      rewrite strip_slashes_cons. by rewrite (proj2 (Z.leb_gt 2 _)) by lia.
    + cbn [app]. rewrite !strip_slashes_cons. case_match; [|done]. apply (IH (Bufptr _ _)). cbn. lia.
Qed.

(** ** Lemmas: scanning *)

Section ScanResume.
Context (buf more : list Z) (loaded : bool).

Lemma skip_blank_fuel n m c :
  0 <= c <= zlen buf -> zlen buf - c < Z.of_nat n -> zlen buf - c < Z.of_nat m ->
  skip_blank_loop buf loaded n c = skip_blank_loop buf loaded m c.
Proof.
  revert m c. induction n as [|n IH]; intros m c Hc Hn Hm; [lia|]. destruct m as [|m]; [lia|].
  cbn [skip_blank_loop]. next_token buf loaded c; [|done].
  destruct ty; try done; apply IH; lia.
Qed.
End ScanResume.

Lemma skip_blank_loop_resume buf more loaded n m1 m2 c s c' :
  0 <= c <= zlen buf -> skip_blank_loop buf false n c = Some (s, c') ->
  zlen (buf ++ more) - c < Z.of_nat m1 -> zlen (buf ++ more) - c' < Z.of_nat m2 -> c' <= zlen buf ->
  skip_blank_loop (buf ++ more) loaded m1 c = skip_blank_loop (buf ++ more) loaded m2 c'.
Proof.
  pose proof (zlen_app buf more) as Hl. pose proof (zlen_nonneg more).
  revert m1 c. induction n as [|n IH]; intros m1 c Hc E Hm1 Hm2 Hc'; [done|].
  cbn [skip_blank_loop] in E.
  destruct (scanner_get_token_spec buf false c) as (r & Et & Htok); [lia|].
  rewrite Et in E. cbn [mbind option_bind] in E.
  assert (c' = c -> skip_blank_loop (buf ++ more) loaded m1 c
    = skip_blank_loop (buf ++ more) loaded m2 c') as Hsame.
  { intros ->. apply skip_blank_fuel; lia. }
  destruct r as [t ty c1|st]; [|injection E as <- <-; by apply Hsame].
  destruct Htok as (T1 & T2 & -> & T3 & _).
  destruct ty; try (injection E as <- <-; apply Hsame; lia).
  all: destruct m1 as [|m1]; [lia|]; cbn [skip_blank_loop];
    rewrite (scanner_get_token_more buf c _ more loaded Hc Et ltac:(done));
    cbn [mbind option_bind]; apply IH; done || lia.
Qed.

(** Skipping again from where it stopped is the same as skipping once. *)
Lemma skip_blank_resume buf more loaded c s c' :
  0 <= c <= zlen buf -> skip_blank_lines buf false c = Some (s, c') ->
  skip_blank_lines (buf ++ more) loaded c = skip_blank_lines (buf ++ more) loaded c'.
Proof.
  intros Hc E. destruct (skip_blank_lines_spec buf false c Hc) as (s2 & c2 & E2 & Hb).
  rewrite E in E2. injection E2 as <- <-. unfold skip_blank_lines in *.
  eapply skip_blank_loop_resume; [exact Hc|exact E| | |lia]; apply fuel_ok; lia.
Qed.

(** A match step by step. *)
Section Steps.
Context (getaddrinfo : list Z -> option (list sockaddr))
  (inet_pton : Z -> list Z -> option (list Z)) (gIF_INDEX : Z).
Abbreviation directive := (match_directive getaddrinfo inet_pton gIF_INDEX).
Abbreviation vloop := (vfmatch_loop getaddrinfo inet_pton gIF_INDEX).

Lemma vloop_directive buf loaded d fmt c cse outs o s c1 cse1 out :
  directive buf loaded d c cse o = Ret (s, c1, cse1, out) o ->
  vloop buf loaded (37 :: d :: fmt) c cse outs o
  = if decide (s = PARSE_OK) then vloop buf loaded fmt c1 cse1 (outs ++ out) o
    else Ret (s, c1, outs ++ out) o.
Proof. intros E. cbn [vfmatch_loop Z.eqb Pos.eqb]. unfold mbind, M_bind. rewrite E. by case_decide. Qed.

Lemma vloop_literal buf loaded x fmt c cse outs o s c1 :
  x <> 37 -> match_literal buf loaded x c cse = Some (s, c1) ->
  vloop buf loaded (x :: fmt) c cse outs o
  = if decide (s = PARSE_OK) then vloop buf loaded fmt c1 cse outs o else Ret (s, c1, outs) o.
Proof.
  intros Hx E. cbn [vfmatch_loop]. rewrite (proj2 (Z.eqb_neq x 37)) by done.
  unfold mbind, M_bind. rewrite E. cbn [liftO]. by case_decide.
Qed.

Lemma vloop_directive_ok buf loaded d fmt c cse outs o c' outs' o' :
  plain_directive d = true -> 0 <= c <= zlen buf ->
  vloop buf loaded (37 :: d :: fmt) c cse outs o = Ret (PARSE_OK, c', outs') o' ->
  exists c1 cse1 out, (forall o, directive buf loaded d c cse o = Ret (PARSE_OK, c1, cse1, out) o) /\
    c <= c1 <= zlen buf /\
    vloop buf loaded fmt c1 cse1 (outs ++ out) o = Ret (PARSE_OK, c', outs') o'.
Proof.
  intros Hd Hc. destruct (match_directive_spec getaddrinfo inet_pton gIF_INDEX buf loaded d c cse Hd Hc)
    as (s & c1 & cse1 & out & E & Hb & _).
  rewrite (vloop_directive _ _ _ _ _ _ _ _ _ _ _ _ (E o)). case_decide as Hs.
  - subst s. intros H. by exists c1, cse1, out.
  - by intros [= -> _ _ _].
Qed.

Lemma vloop_literal_ok buf loaded x fmt c cse outs o c' outs' o' :
  x <> 37 -> 0 <= c <= zlen buf ->
  vloop buf loaded (x :: fmt) c cse outs o = Ret (PARSE_OK, c', outs') o' ->
  exists c1, match_literal buf loaded x c cse = Some (PARSE_OK, c1) /\ c <= c1 <= zlen buf /\
    vloop buf loaded fmt c1 cse outs o = Ret (PARSE_OK, c', outs') o'.
Proof.
  intros Hx Hc. destruct (match_literal_spec buf loaded x c cse Hc) as (s & c1 & E & Hb & _).
  rewrite (vloop_literal _ _ _ _ _ _ _ _ _ _ Hx E). case_decide as Hs.
  - subst s. intros H. by exists c1.
  - by intros [= -> _ _ _].
Qed.

(** The same step in the longer buffer. *)
Lemma vloop_directive_longer buf more loaded d fmt c cse outs o c1 cse1 out :
  plain_directive d = true -> 0 <= c <= zlen buf ->
  (forall o, directive buf false d c cse o = Ret (PARSE_OK, c1, cse1, out) o) ->
  vloop (buf ++ more) loaded (37 :: d :: fmt) c cse outs o
  = vloop (buf ++ more) loaded fmt c1 cse1 (outs ++ out) o.
Proof.
  intros Hd Hc E. rewrite (vloop_directive _ _ _ _ _ _ _ _ PARSE_OK c1 cse1 out); [done|].
  by apply (match_directive_more _ _ _ buf more loaded d c cse _ _ _ _ o o Hd Hc (E o)).
Qed.

Lemma vloop_literal_longer buf more loaded x fmt c cse outs o c1 :
  x <> 37 -> 0 <= c <= zlen buf -> match_literal buf false x c cse = Some (PARSE_OK, c1) ->
  vloop (buf ++ more) loaded (x :: fmt) c cse outs o = vloop (buf ++ more) loaded fmt c1 cse outs o.
Proof.
  intros Hx Hc E. rewrite (vloop_literal _ _ _ _ _ _ _ _ PARSE_OK c1); [done|done|].
  by apply (match_literal_more buf more loaded x c cse Hc _ _ E).
Qed.

(** The letter of the version does not start a line end. *)
Lemma no_crlf_at buf loaded c :
  0 <= c < zlen buf -> is_identifier_char (rd buf c) = true ->
  exists s c' ts, match_type buf loaded c TT_CRLF = Some (s, c', ts) /\ s <> PARSE_OK.
Proof.
  intros Hc Hid. unfold match_type, scanner_get_token.
  rewrite (proj2 (Z.ltb_ge c 0)), (proj2 (Z.ltb_ge (zlen buf) c)) by lia. cbn [orb].
  rewrite zdrop_rd, Hid by lia. destruct (negb loaded && _); cbn [mbind option_bind].
  - by do 3 eexists.
  - do 3 eexists. split; [done|]. by rewrite decide_False.
Qed.

(** Where a request line matches, the line of HTTP 0.9 does not, however many
    bytes follow. *)
Lemma request_not_simple buf more loaded c c' outs :
  0 <= c <= zlen buf ->
  vfmatch getaddrinfo inet_pton gIF_INDEX buf false FMT_REQUEST c [] = Ret (PARSE_OK, c', outs) [] ->
  exists s c2 outs2,
    vfmatch getaddrinfo inet_pton gIF_INDEX (buf ++ more) loaded FMT_SIMPLE c []
    = Ret (s, c2, outs2) [] /\ s <> PARSE_OK.
Proof.
  intros Hc. unfold vfmatch, mbind, M_bind.
  change FMT_REQUEST with (37 :: $"s" :: 9 :: 37 :: $"S" :: 9 :: 37 :: $"i" :: $"h" :: cs "ttp%w/%w%L%c").
  change FMT_SIMPLE with (37 :: $"s" :: 9 :: 37 :: $"S" :: 37 :: $"w" :: 37 :: $"c" :: []).
  destruct (vloop buf false _ _ _ _ _) as [[[s c1'] outs1] o1| | |] eqn:E; try done.
  intros [= -> _ _ ->].
  pose proof (zlen_nonneg more) as Hm. pose proof (zlen_app buf more) as Hl.
  apply vloop_directive_ok in E as (c1 & cse1 & out1 & D1 & B1 & E); [|done|done].
  apply vloop_literal_ok in E as (c2 & L2 & B2 & E); [|done|lia].
  apply vloop_directive_ok in E as (c3 & cse3 & out3 & D3 & B3 & E); [|done|lia].
  apply vloop_literal_ok in E as (c4 & L4 & B4 & E); [|done|lia].
  apply vloop_directive_ok in E as (c5 & cse5 & out5 & D5 & B5 & E); [|done|lia].
  apply vloop_literal_ok in E as (c6 & L6 & B6 & _); [|done|lia].
  rewrite (vloop_directive_longer buf more loaded _ _ c true _ _ c1 cse1 out1) by done || lia.
  rewrite (vloop_literal_longer buf more loaded _ _ c1 cse1 _ _ c2) by done || lia.
  rewrite (vloop_directive_longer buf more loaded _ _ c2 cse1 _ _ c3 cse3 out3) by done || lia.
  assert (exists t, scanner_get_token buf false c3 = Some (Token t TT_WHITESPACE c4)) as [t Et].
  { unfold match_literal, match_type in L4. cbn [Z.eqb Pos.eqb] in L4.
    destruct (scanner_get_token_spec buf false c3) as ([t ty c0|s0] & E0 & Ht); [lia|..];
      rewrite E0 in L4; cbn [mbind option_bind] in L4.
    - destruct (decide (ty = TT_WHITESPACE)) as [->|]; [|done]. injection L4 as <-. by exists t.
    - injection L4 as -> _. by destruct Ht. }
  rewrite (vloop_directive _ _ _ _ _ _ _ _ PARSE_OK c4 cse3 []); [|].
  2: { unfold match_directive. cbn [Z.eqb Pos.eqb orb]. unfold mbind, M_bind.
       by rewrite (scanner_get_token_more buf c3 _ more loaded ltac:(lia) Et ltac:(done)). }
  rewrite decide_True by done.
  assert (c5 = c4 /\ cse5 = false) as [-> ->] by (specialize (D5 []); by injection D5 as <- <- _).
  unfold match_literal, match_char in L6. cbn [Z.eqb Pos.eqb] in L6.
  destruct (Z.leb_spec (zlen buf) c4) as [|Hlt]; [done|].
  destruct (Z.eqb_spec (tolower 104) (tolower (rd buf c4))) as [Hh|]; [|done].
  destruct (no_crlf_at (buf ++ more) loaded c4) as (s & c7 & ts & Ec & Hs); [lia| |].
  { rewrite rd_app_l by lia. set (x := rd buf c4) in *. unfold tolower in Hh.
    change (isupper 104) with false in Hh. destruct (isupper x) eqn:U; [|by rewrite <- Hh].
    by replace x with 72 by lia. }
  rewrite (vloop_directive _ _ _ _ _ _ _ _ s c7 cse3 []); [|].
  2: { unfold match_directive. cbn [Z.eqb Pos.eqb orb]. unfold mbind, M_bind. by rewrite Ec. }
  rewrite decide_False by done. do 3 eexists. split; [done|done].
Qed.
End Steps.

Section Resume.
Context (junk : Z) (getaddrinfo : list Z -> option (list sockaddr))
  (inet_pton : Z -> list Z -> option (list Z)) (gIF_INDEX : Z).
Abbreviation match_msg := (match_msg getaddrinfo inet_pton gIF_INDEX).
Abbreviation store_url := (store_url junk getaddrinfo inet_pton gIF_INDEX).

(** A match that is decided, and a match of the same bytes, are the same. *)
Lemma match_more p fmt :
  plain_fmt fmt = true -> parser_inv p ->
  exists s c outs, (forall o, match_msg p fmt o = Ret (s, set_cursor c p, outs) o) /\
    p_cursor p <= c <= zlen (p_buf p) /\ (s <> PARSE_OK -> c = p_cursor p) /\
    (s = PARSE_OK -> matched (p_buf p) fmt (p_cursor p) c outs) /\ scan_status s /\
    (forall more b, ext more b p -> s <> PARSE_INCOMPLETE \/ more = [] ->
     forall o, match_msg (with_buf b p) fmt o = Ret (s, set_cursor c (with_buf b p), outs) o).
Proof.
  intros Hf Hp. pose proof (pi_cursor p Hp) as Hcur.
  destruct (vfmatch_spec getaddrinfo inet_pton gIF_INDEX (p_buf p) (p_entire_msg_loaded p) fmt
    (p_cursor p) Hf) as (s & c & outs & E & Hb & Hn & Hm & Hmore); [by rewrite zlen_p_buf|].
  exists s, c, outs. unfold HttpParser.match_msg, mbind, M_bind.
  split; [intros o; by rewrite E|]. split; [done|]. split; [done|]. split; [done|].
  split; [eapply vfmatch_status, (E [])|].
  intros more b [Hw Hc] Hs o. rewrite p_buf_with, Hc. change (p_entire_msg_loaded (with_buf b p))
    with (p_entire_msg_loaded p). change (p_cursor (with_buf b p)) with (p_cursor p).
  destruct Hs as [Hs| ->]; [|rewrite app_nil_r; by rewrite E].
  by rewrite (Hmore (pi_loaded p Hp) Hs).
Qed.

(** ** Request line *)

Definition lift_url (b : membuffer) (r : option (bool * http_parser_t))
    : option (bool * http_parser_t) := (fun x => (x.1, with_buf b x.2)) <$> r.
Definition lift (b : membuffer) (r : parse_status_t * http_parser_t)
    : parse_status_t * http_parser_t := (r.1, with_buf b r.2).

Lemma method_index_more more b p t :
  ext more b p -> within (zlen (p_buf p)) t -> method_index (with_buf b p) t = method_index p t.
Proof.
  intros He Hw. unfold method_index. rewrite (at_ptr_more more) by done.
  apply map_str_to_int_app. rewrite at_ptr_zlen by done. destruct Hw as (H1 & H2 & H3). lia.
Qed.

Lemma store_url_more more b p t o :
  ext more b p -> within (zlen (p_buf p)) t ->
  store_url (with_buf b p) t o = tmap (lift_url b) (store_url p t o).
Proof.
  intros He Hw. unfold HttpParser.store_url. pose proof (at_ptr_zlen p t Hw) as Hz.
  pose proof Hw as (H1 & H2 & H3).
  rewrite (at_ptr_more more), strip_slashes_app by (done || lia).
  destruct (strip_slashes_spec (at_ptr p t) t H2) as (k & Hk & ->). cbn [bp_length].
  set (u := Bufptr (bp_off t + k) (bp_length t - k)).
  assert (within (zlen (p_buf p)) u) as Hu by (unfold within, u; cbn; lia).
  rewrite (at_ptr_more more) by done.
  eapply (tmap_bind (fun x => x)).
  { rewrite (str_alloc_slice junk _ (at_ptr p u)).
    - by destruct (str_alloc _ _ _ o).
    - apply mem_slice_app_le. rewrite at_ptr_zlen by done. cbn. lia. }
  intros [url|] o1 _; [|done]. apply tmap_liftO. by intros [rc uri] _.
Qed.

Lemma store_url_buf p t o ok p1 o1 :
  store_url p t o = Ret (Some (ok, p1)) o1 -> m_msg_buf (p_msg p1) = m_msg_buf (p_msg p).
Proof.
  unfold HttpParser.store_url, mbind, M_bind.
  destruct (str_alloc _ _ _ o) as [[url|] o2| | |]; try done.
  destruct (parse_uri _ _ _ _ _ _) as [[rc u]|]; [|done]. cbn. by intros [= _ <- _].
Qed.

Lemma simple_get_more more b p m u o :
  ext more b p -> within (zlen (p_buf p)) m -> within (zlen (p_buf p)) u ->
  parse_simple_get junk getaddrinfo inet_pton gIF_INDEX (with_buf b p) m u o
  = tmap (lift b) (parse_simple_get junk getaddrinfo inet_pton gIF_INDEX p m u o).
Proof.
  intros He Hm Hu. unfold parse_simple_get. rewrite (method_index_more more) by done.
  apply tmap_liftO. intros i _. case_match; [done|]. apply tmap_liftO. intros mid _.
  case_match; [done|].
  eapply (tmap_bind (lift_url b));
    [exact (store_url_more more b (on_msg (set_method HTTPMETHOD_SIMPLEGET) p) u o He Hu)|].
  by intros [[[] p1]|] o1 _.
Qed.

Lemma request_more more b p m u v o :
  ext more b p -> within (zlen (p_buf p)) m -> within (zlen (p_buf p)) u ->
  within (zlen (p_buf p)) v ->
  parse_request junk getaddrinfo inet_pton gIF_INDEX (with_buf b p) m u v o
  = tmap (lift b) (parse_request junk getaddrinfo inet_pton gIF_INDEX p m u v o).
Proof.
  intros He Hm Hu Hv. unfold parse_request.
  eapply (tmap_bind (lift_url b)); [exact (store_url_more more b _ u o He Hu)|].
  intros [[[] p1]|] o1 Es; [|done|done]. apply store_url_buf in Es.
  assert (p_buf p1 = p_buf p) as Eb by (unfold p_buf; by rewrite Es).
  assert (ext more b p1) as He1 by (unfold ext; by rewrite Eb).
  rewrite <- Eb in Hm, Hv. cbn [lift_url fmap option_fmap option_map fst snd].
  rewrite (method_index_more more) by done. apply tmap_liftO. intros i _. case_match; [done|].
  apply tmap_liftO. intros mid _. rewrite (text_of_more more) by done.
  change (m_major_version (p_msg (with_buf b p1))) with (m_major_version (p_msg p1)).
  change (m_minor_version (p_msg (with_buf b p1))) with (m_minor_version (p_msg p1)).
  match goal with |- (if ?c then _ else _) _ = _ => by destruct c end.
Qed.

Lemma simple_get_status p m u o s p1 o1 :
  parse_simple_get junk getaddrinfo inet_pton gIF_INDEX p m u o = Ret (s, p1) o1 ->
  ~ incomplete s /\ ~ goes_on s /\ m_msg_buf (p_msg p1) = m_msg_buf (p_msg p).
Proof.
  unfold parse_simple_get, mbind, M_bind, fail.
  destruct (method_index p m) as [i|]; [cbn [liftO]|done]. case_match.
  { intros [= <- <- _]. by split; [intros [?|?]|split; [intros [?|?]|]]. }
  destruct (method_id i) as [mid|]; [cbn [liftO]|done]. case_match.
  { intros [= <- <- _]. by split; [intros [?|?]|split; [intros [?|?]|]]. }
  destruct (store_url _ u o) as [[[[] p2]|] o2| | |] eqn:E; try done;
    try (apply store_url_buf in E); intros [= <- <- _];
    by split; [intros [?|?]|split; [intros [?|?]|]].
Qed.

Lemma request_status p m u v o s p1 o1 :
  parse_request junk getaddrinfo inet_pton gIF_INDEX p m u v o = Ret (s, p1) o1 ->
  ~ incomplete s /\ m_msg_buf (p_msg p1) = m_msg_buf (p_msg p).
Proof.
  unfold parse_request, mbind, M_bind, fail.
  destruct (store_url _ u o) as [[[[] p2]|] o2| | |] eqn:E; try done;
    try (apply store_url_buf in E); [| |];
    try (intros [= <- <- _]; by split; [intros [?|?]|]).
  destruct (method_index p2 m) as [i|]; [cbn [liftO]|done]. case_match.
  { intros [= <- <- _]. by split; [intros [?|?]|]. }
  destruct (method_id i) as [mid|]; [cbn [liftO]|done].
  match goal with |- (if ?c then _ else _) _ = _ -> _ => destruct c end;
    intros [= <- <- _]; by split; [intros [?|?]|].
Qed.

(** A function that leaves the message buffer alone, and then does the same
    with another buffer. *)
Definition keeps_buf (f : http_parser_t -> M (parse_status_t * http_parser_t))
    (p : http_parser_t) (s : parse_status_t) (p1 : http_parser_t) : Prop :=
  m_msg_buf (p_msg p1) = m_msg_buf (p_msg p) /\
  forall more b, ext more b p ->
    (goes_on s \/ more = [] -> f (with_buf b p) [] = Ret (s, with_buf b p1) []) /\
    (incomplete s -> f (with_buf b p) [] = f (with_buf b p1) []).

Lemma resumes_intro f p (Q : parse_status_t * http_parser_t -> Prop) :
  runs Lucky (f p) Q ->
  (forall s p1, f p [] = Ret (s, p1) [] -> Q (s, p1) -> keeps_buf f p s p1) -> resumes f p.
Proof.
  intros Hr H more b He. specialize (Hr [] eq_refl).
  destruct (f p []) as [[s p1] o|[]| |] eqn:E; try done; [|by destruct Hr]. destruct Hr as [HQ Ho]. cbn in Ho. subst o.
  destruct (H s p1 eq_refl HQ) as [Hb Hm]. destruct (Hm more b He) as [H1 H2].
  assert (ext more b p1) as He1 by (unfold ext, p_buf in *; by rewrite Hb).
  exists s, p1. split; [done|]. split.
  - intros Hs. exists b. by rewrite (H1 Hs).
  - intros Hs. exists b. split; [done|]. left. by apply H2.
Qed.

Abbreviation requestline := (parser_parse_requestline junk getaddrinfo inet_pton gIF_INDEX).

Lemma requestline_again more b p s c :
  parser_inv p -> ext more b p ->
  skip_blank_lines (p_buf p) (p_entire_msg_loaded p) (p_cursor p) = Some (s, c) ->
  forall o, requestline (with_buf b p) o = requestline (with_buf b (set_cursor c p)) o.
Proof.
  intros Hp [_ Hc] Hs o. pose proof (pi_cursor p Hp) as Hcur.
  rewrite (pi_loaded p Hp) in Hs. rewrite <- zlen_p_buf in Hcur by done.
  unfold parser_parse_requestline, mbind, M_bind. rewrite !p_buf_with, Hc.
  change (p_cursor (with_buf b (set_cursor c p))) with c.
  change (p_cursor (with_buf b p)) with (p_cursor p).
  by rewrite (skip_blank_resume (p_buf p) more _ (p_cursor p) s c Hcur Hs).
Qed.

(** The blank lines in front of the first line. *)
Lemma skip_more more b p s c :
  parser_inv p -> ext more b p ->
  skip_blank_lines (p_buf p) (p_entire_msg_loaded p) (p_cursor p) = Some (s, c) ->
  s <> PARSE_INCOMPLETE \/ more = [] ->
  skip_blank_lines (p_buf (with_buf b p)) (p_entire_msg_loaded (with_buf b p))
    (p_cursor (with_buf b p)) = Some (s, c).
Proof.
  intros Hp [_ Hc] E Hs. pose proof (pi_cursor p Hp) as Hcur.
  rewrite <- zlen_p_buf in Hcur by done. rewrite p_buf_with, Hc.
  change (p_entire_msg_loaded (with_buf b p)) with (p_entire_msg_loaded p).
  change (p_cursor (with_buf b p)) with (p_cursor p).
  destruct Hs as [Hs| ->]; [|by rewrite app_nil_r]. rewrite (pi_loaded p Hp) in E.
  by apply (skip_blank_lines_more (p_buf p) more _ _ Hcur).
Qed.

Lemma goes_on_complete s (more : list Z) :
  goes_on s \/ more = [] -> s <> PARSE_INCOMPLETE \/ more = [].
Proof. intros [[->| ->]|?]; auto. Qed.

Lemma request_not_simple_msg more b p c outs :
  parser_inv p -> ext more b p -> match_msg p FMT_REQUEST [] = Ret (PARSE_OK, set_cursor c p, outs) [] ->
  exists s o, match_msg (with_buf b p) FMT_SIMPLE [] = Ret (s, with_buf b p, o) [] /\ s <> PARSE_OK.
Proof.
  intros Hp [Hw Hc] E. pose proof (pi_cursor p Hp) as Hcur. rewrite <- zlen_p_buf in Hcur by done.
  unfold HttpParser.match_msg, mbind, M_bind in E.
  destruct (vfmatch _ _ _ _ _ _ _ _) as [[[s1 c1] o1] o2| | |] eqn:Ev; try done.
  injection E as -> _ _ ->. rewrite (pi_loaded p Hp) in Ev.
  destruct (request_not_simple getaddrinfo inet_pton gIF_INDEX (p_buf p) more
    (p_entire_msg_loaded p) (p_cursor p) _ _ Hcur Ev) as (s & c2 & o & E2 & Hs).
  exists s, o. split; [|done]. unfold HttpParser.match_msg, mbind, M_bind.
  rewrite p_buf_with, Hc. change (p_entire_msg_loaded (with_buf b p)) with (p_entire_msg_loaded p).
  change (p_cursor (with_buf b p)) with (p_cursor p). rewrite E2.
  assert (c2 = p_cursor p) as ->.
  { destruct (vfmatch_spec getaddrinfo inet_pton gIF_INDEX (p_buf p ++ more) (p_entire_msg_loaded p)
      FMT_SIMPLE (p_cursor p)) as (s3 & c3 & o3 & E3 & _ & H3 & _);
      [done|rewrite zlen_app; pose proof (zlen_nonneg more); lia|].
    specialize (E3 []). rewrite E2 in E3. injection E3 as <- <- _. by apply H3. }
  by rewrite set_cursor_with.
Qed.

(** What follows the two matches of a request line. *)
Definition request_cont (r : parse_status_t * http_parser_t * list arg)
    : M (parse_status_t * http_parser_t) :=
  let '(status, p, outs) := r in
  match status, outs with
  | PARSE_OK, [AStr method_str; AStr url_str; AStr version_str] =>
      parse_request junk getaddrinfo inet_pton gIF_INDEX p method_str url_str version_str
  | PARSE_OK, _ => undefined
  | s, _ => mret (s, p)
  end.
Definition simple_cont (r : parse_status_t * http_parser_t * list arg)
    : M (parse_status_t * http_parser_t) :=
  let '(status, p, outs) := r in
  match status, outs with
  | PARSE_OK, [AStr method_str; AStr url_str] =>
      parse_simple_get junk getaddrinfo inet_pton gIF_INDEX p method_str url_str
  | PARSE_OK, _ => undefined
  | _, _ => match_msg p FMT_REQUEST ≫= request_cont
  end.

Lemma simple_cont_stop s p outs : s <> PARSE_OK ->
  simple_cont (s, p, outs) = (match_msg p FMT_REQUEST ≫= request_cont).
Proof. by destruct s. Qed.
Lemma request_cont_stop s p outs : s <> PARSE_OK -> request_cont (s, p, outs) = mret (s, p).
Proof. by destruct s. Qed.
Lemma bind_ret_at {A B} (m : M A) (k : A -> M B) o a o1 :
  m o = Ret a o1 -> (m ≫= k) o = k a o1.
Proof. intros E. unfold mbind, M_bind. by rewrite E. Qed.

Lemma requestline_unfold p o s c :
  p_position p = POS_REQUEST_LINE ->
  skip_blank_lines (p_buf p) (p_entire_msg_loaded p) (p_cursor p) = Some (s, c) ->
  requestline p o
  = if decide (s = PARSE_OK) then (match_msg (set_cursor c p) FMT_SIMPLE ≫= simple_cont) o
    else Ret (s, set_cursor c p) o.
Proof.
  intros Hpos E. unfold parser_parse_requestline.
  rewrite (bind_ret_at _ _ _ tt o) by (unfold assertM; by rewrite bool_decide_true).
  rewrite (bind_ret_at _ _ _ (s, c) o) by (by rewrite E). cbv beta iota zeta.
  case_decide as Hs; [rewrite bool_decide_true by done|rewrite bool_decide_false by done]; done.
Qed.

Lemma requestline_cases p s p1 :
  parser_inv p -> p_position p = POS_REQUEST_LINE -> requestline p [] = Ret (s, p1) [] ->
  keeps_buf requestline p s p1.
Proof.
  intros Hp Hpos E. pose proof (pi_cursor p Hp) as Hcur. rewrite <- zlen_p_buf in Hcur by done.
  destruct (skip_blank_lines_spec (p_buf p) (p_entire_msg_loaded p) (p_cursor p) Hcur)
    as (s0 & c & Es & Hb). rewrite (requestline_unfold p [] s0 c Hpos Es) in E.
  assert (parser_inv (set_cursor c p)) as Hp0 by (by apply inv_cursor).
  set (p0 := set_cursor c p) in *.
  assert (p1 = p0 -> forall more b, ext more b p ->
    requestline (with_buf b p) [] = requestline (with_buf b p1) []) as Hagain.
  { intros -> more b He. by apply (requestline_again more b p s0 c). }
  assert (forall more b, ext more b p -> s0 <> PARSE_INCOMPLETE \/ more = [] ->
    requestline (with_buf b p) []
    = if decide (s0 = PARSE_OK) then (match_msg (with_buf b p0) FMT_SIMPLE ≫= simple_cont) []
      else Ret (s0, with_buf b p0) []) as Hlong.
  { intros more b He Hs0.
    by rewrite (requestline_unfold (with_buf b p) [] s0 c Hpos (skip_more more b p s0 c Hp He Es Hs0)). }
  case_decide as Hs0.
  2: { injection E as <- <-. split; [done|]. intros more b He. split; [|intros _; by apply (Hagain eq_refl more)].
       intros Hs. apply goes_on_complete in Hs. by rewrite (Hlong more b He Hs). }
  subst s0.
  destruct (match_more p0 FMT_SIMPLE) as (s1 & c1 & o1 & E1 & B1 & N1 & M1 & S1 & L1); [done|done|].
  rewrite (bind_ret_at _ _ _ _ _ (E1 [])) in E.
  destruct (decide (s1 = PARSE_OK)) as [->|Hs1].
  - destruct (matched_simple (p_buf p) c c1 o1) as (m & u & -> & Hm & Hu);
      [lia|by apply B1|by apply M1|].
    cbn [simple_cont] in E. destruct (simple_get_status _ _ _ _ _ _ _ E) as (I1 & I2 & I3).
    split; [exact I3|]. intros more b He. split; [|by intros ?].
    intros Hs. rewrite (Hlong more b He) by (by left). rewrite (bind_ret_at _ _ _ _ _ (L1 more b He ltac:(by left) [])).
    cbn [simple_cont].
    pose proof (simple_get_more more b (set_cursor c1 p0) m u [] He Hm Hu) as Hmore.
    rewrite E in Hmore. exact Hmore.
  - specialize (N1 Hs1). rewrite simple_cont_stop in E by done.
    replace (set_cursor c1 p0) with p0 in E by (rewrite N1; by rewrite set_cursor_same).
    destruct (match_more p0 FMT_REQUEST) as (s3 & c3 & o3 & E3 & B3 & N3 & M3 & S3 & L3); [done|done|].
    rewrite (bind_ret_at _ _ _ _ _ (E3 [])) in E.
    assert (forall more b, ext more b p -> s3 = PARSE_OK \/ more = [] ->
      requestline (with_buf b p) [] = request_cont (s3, set_cursor c3 (with_buf b p0), o3) [])
      as Hlong2.
    { intros more b He Hs3. rewrite (Hlong more b He) by (by left).
      assert (exists s5 o5, match_msg (with_buf b p0) FMT_SIMPLE []
        = Ret (s5, with_buf b p0, o5) [] /\ s5 <> PARSE_OK) as (s5 & o5 & E5 & H5).
      { destruct Hs3 as [->| ->].
        - by apply (request_not_simple_msg more b p0 _ _ Hp0 He (E3 [])).
        - exists s1, o1. split; [|done]. rewrite (L1 [] b He) by (by right). rewrite N1.
          by rewrite set_cursor_with. }
      rewrite (bind_ret_at _ _ _ _ _ E5), simple_cont_stop by done.
      rewrite (bind_ret_at _ _ _ _ _ (L3 more b He
        ltac:(destruct Hs3 as [->|]; [by left|by right]) [])). done. }
    destruct (decide (s3 = PARSE_OK)) as [->|Hs3].
    + destruct (matched_request (p_buf p) c c3 o3) as (m & u & v & -> & Hm & Hu & Hv);
        [lia|by apply B3|by apply M3|].
      cbn [request_cont] in E. destruct (request_status _ _ _ _ _ _ _ _ E) as (I1 & I3).
      split; [exact I3|]. intros more b He. split; [|by intros ?]. intros _.
      rewrite (Hlong2 more b He) by (by left). cbn [request_cont].
      pose proof (request_more more b (set_cursor c3 p0) m u v [] He Hm Hu Hv) as Hmore.
      rewrite E in Hmore. exact Hmore.
    + rewrite request_cont_stop in E by done. specialize (N3 Hs3).
      replace (set_cursor c3 p0) with p0 in E by (rewrite N3; by rewrite set_cursor_same).
      injection E as <- <-. split; [done|]. intros more b He.
      split; [|intros _; by apply (Hagain eq_refl more)].
      intros [Hgo|Hmore]; [by destruct Hgo as [->| ->]; destruct S3 as [?|[?|[?|?]]]|].
      rewrite (Hlong2 more b He) by (by right). rewrite request_cont_stop by done.
      rewrite N3. by rewrite set_cursor_with.
Qed.

Lemma requestline_resumes p :
  parser_inv p -> p_position p = POS_REQUEST_LINE -> resumes requestline p.
Proof.
  intros Hp Hpos.
  eapply resumes_intro; [by apply (requestline_runs Lucky junk getaddrinfo inet_pton gIF_INDEX)|].
  intros s p1 E _. by apply requestline_cases.
Qed.

(** ** Status line *)

Abbreviation responseline := (parser_parse_responseline junk getaddrinfo inet_pton gIF_INDEX).

Lemma response_more more b p line o :
  parser_inv p -> ext more b p -> within (zlen (p_buf p)) line -> bp_off line + bp_length line < zlen (p_buf p) ->
  rd (p_buf p) (bp_off line + bp_length line) = TOKCHAR_CR \/
  rd (p_buf p) (bp_off line + bp_length line) = TOKCHAR_LF ->
  parse_response junk (with_buf b p) line o = tmap (lift b) (parse_response junk p line o).
Proof.
  intros Hp He Hw Hlt Hend. pose proof (zlen_p_buf p Hp) as Hz.
  pose proof (pi_buf p Hp) as [Hl _ _ _]. unfold MB_MAX, INT_MAX in Hl.
  destruct (line_split p line Hw Hlt Hend) as (d & rest & El & Hd1 & Hd2 & Hlen).
  unfold parse_response. rewrite (text_of_more more) by done.
  change (m_major_version (p_msg (with_buf b p))) with (m_major_version (p_msg p)).
  change (m_minor_version (p_msg (with_buf b p))) with (m_minor_version (p_msg p)).
  change (m_status_code (p_msg (with_buf b p))) with (m_status_code (p_msg p)).
  set (nums := scan_ints _ 3 true). set (p1 := on_msg (fun r => set_status_code _ _) p).
  change (on_msg (fun r => set_status_code _ _) (with_buf b p)) with (with_buf b p1).
  destruct (negb (zlen nums =? 3) || _ || _ || _) eqn:Hok; [done|]. zbool.
  assert (ext more b p1) as He1 by done.
  rewrite (at_ptr_more more) by done. change (at_ptr p1 line) with (at_ptr p line).
  rewrite !skip_status, El, <- app_assoc. cbn [app].
  destruct (scan_ints_skip 3 [] _ true ltac:(eassumption)) as (r & Hr & Er); [constructor|].
  cbn [app] in Er. rewrite !Er by (by intros c [= <-]).
  rewrite (bind_ret_at (liftO (Some _)) _ o _ o eq_refl).
  rewrite (bind_ret_at (liftO (Some _)) _ o _ o eq_refl).
  replace (rd (r ++ d :: rest ++ more) 0) with (rd (r ++ d :: rest) 0) by (by destruct r).
  destruct (negb (is_ws_char _)); [done|].
  destruct (drop_ws r d rest Hd2) as (r2 & E2 & Hr2 & Hall). rewrite E2, (Hall (rest ++ more)).
  replace (zlen (c_str (text_of p line) ++ d :: rest ++ more) - zlen (r2 ++ d :: rest ++ more))
    with (zlen (c_str (text_of p line) ++ d :: rest) - zlen (r2 ++ d :: rest)) by solve_zlen.
  eapply (tmap_bind (fun x => x)).
  - change (m_status_msg (p_msg (with_buf b p1))) with (m_status_msg (p_msg p1)).
    rewrite (assign_slice _ _ (r2 ++ d :: rest ++ more) (r2 ++ d :: rest)).
    + by destruct (membuffer_assign _ _ _ _ o).
    + replace (r2 ++ d :: rest ++ more) with ((r2 ++ d :: rest) ++ more)
        by (by rewrite <- app_assoc).
      apply mem_slice_app_le. pose proof (zlen_nonneg r2).
      destruct Hw as (Hw1 & Hw2 & Hw3). change (zlen []) with 0 in Hr.
      rewrite to_size_small; rewrite ?zlen_app, ?zlen_cons; unfold SIZE_MAX; lia.
  - intros [rc sb] o1 _. by destruct (negb (rc =? 0)).
Qed.

Lemma response_status p line o s p1 o1 :
  parse_response junk p line o = Ret (s, p1) o1 ->
  ~ incomplete s /\ m_msg_buf (p_msg p1) = m_msg_buf (p_msg p).
Proof.
  unfold parse_response, fail.
  match goal with |- (if ?c then _ else _) _ = _ -> _ => destruct c end.
  { intros [= <- <- _]. by split; [intros [?|?]|]. }
  unfold mbind at 1, M_bind at 1. destruct (liftO _ o) as [l o2| | |]; try done.
  destruct (negb (is_ws_char _)); [intros [= <- <- _]; by split; [intros [?|?]|]|].
  unfold mbind, M_bind. destruct (membuffer_assign _ _ _ _ o2) as [[rc sb] o3| | |]; try done.
  destruct (negb (rc =? 0)); intros [= <- <- _]; by split; [intros [?|?]|].
Qed.

Definition response_cont (r : parse_status_t * http_parser_t * list arg)
    : M (parse_status_t * http_parser_t) :=
  let '(status, p, outs) := r in
  match status, outs with
  | PARSE_OK, [AStr line] => parse_response junk p line
  | PARSE_OK, _ => undefined
  | s, _ => mret (s, p)
  end.

Lemma response_cont_stop s p outs : s <> PARSE_OK -> response_cont (s, p, outs) = mret (s, p).
Proof. by destruct s. Qed.

Lemma responseline_unfold p o s c :
  p_position p = POS_RESPONSE_LINE ->
  skip_blank_lines (p_buf p) (p_entire_msg_loaded p) (p_cursor p) = Some (s, c) ->
  responseline p o
  = if decide (s = PARSE_OK) then (match_msg (set_cursor c p) FMT_RESPONSE ≫= response_cont) o
    else Ret (s, set_cursor c p) o.
Proof.
  intros Hpos E. unfold parser_parse_responseline.
  rewrite (bind_ret_at _ _ _ tt o) by (unfold assertM; by rewrite bool_decide_true).
  rewrite (bind_ret_at _ _ _ (s, c) o) by (by rewrite E). cbv beta iota zeta.
  case_decide as Hs; [rewrite bool_decide_true by done|rewrite bool_decide_false by done]; done.
Qed.

Lemma responseline_again more b p s c :
  parser_inv p -> ext more b p ->
  skip_blank_lines (p_buf p) (p_entire_msg_loaded p) (p_cursor p) = Some (s, c) ->
  forall o, responseline (with_buf b p) o = responseline (with_buf b (set_cursor c p)) o.
Proof.
  intros Hp [_ Hc] Hs o. pose proof (pi_cursor p Hp) as Hcur.
  rewrite (pi_loaded p Hp) in Hs. rewrite <- zlen_p_buf in Hcur by done.
  unfold parser_parse_responseline, mbind, M_bind. rewrite !p_buf_with, Hc.
  change (p_cursor (with_buf b (set_cursor c p))) with c.
  change (p_cursor (with_buf b p)) with (p_cursor p).
  by rewrite (skip_blank_resume (p_buf p) more _ (p_cursor p) s c Hcur Hs).
Qed.

Lemma responseline_cases p s p1 :
  parser_inv p -> p_position p = POS_RESPONSE_LINE -> responseline p [] = Ret (s, p1) [] ->
  keeps_buf responseline p s p1.
Proof.
  intros Hp Hpos E. pose proof (pi_cursor p Hp) as Hcur. rewrite <- zlen_p_buf in Hcur by done.
  destruct (skip_blank_lines_spec (p_buf p) (p_entire_msg_loaded p) (p_cursor p) Hcur)
    as (s0 & c & Es & Hb). rewrite (responseline_unfold p [] s0 c Hpos Es) in E.
  assert (parser_inv (set_cursor c p)) as Hp0 by (by apply inv_cursor).
  set (p0 := set_cursor c p) in *.
  assert (p1 = p0 -> forall more b, ext more b p ->
    responseline (with_buf b p) [] = responseline (with_buf b p1) []) as Hagain.
  { intros -> more b He. by apply (responseline_again more b p s0 c). }
  assert (forall more b, ext more b p -> s0 <> PARSE_INCOMPLETE \/ more = [] ->
    responseline (with_buf b p) []
    = if decide (s0 = PARSE_OK) then (match_msg (with_buf b p0) FMT_RESPONSE ≫= response_cont) []
      else Ret (s0, with_buf b p0) []) as Hlong.
  { intros more b He Hs0.
    by rewrite (responseline_unfold (with_buf b p) [] s0 c Hpos (skip_more more b p s0 c Hp He Es Hs0)). }
  case_decide as Hs0.
  2: { injection E as <- <-. split; [done|]. intros more b He. split; [|intros _; by apply (Hagain eq_refl more)].
       intros Hs. apply goes_on_complete in Hs. by rewrite (Hlong more b He Hs). }
  subst s0.
  destruct (match_more p0 FMT_RESPONSE) as (s1 & c1 & o1 & E1 & B1 & N1 & M1 & S1 & L1); [done|done|].
  rewrite (bind_ret_at _ _ _ _ _ (E1 [])) in E.
  destruct (decide (s1 = PARSE_OK)) as [->|Hs1].
  - destruct (matched_response (p_buf p) c c1 o1) as (line & -> & H1 & H2 & H3 & H4);
      [lia|by apply M1|].
    cbn [response_cont] in E. destruct (response_status _ _ _ _ _ _ E) as (I1 & I3).
    split; [exact I3|]. intros more b He. split; [|by intros ?].
    intros Hs. rewrite (Hlong more b He) by (by left).
    rewrite (bind_ret_at _ _ _ _ _ (L1 more b He ltac:(by left) [])). cbn [response_cont].
    pose proof (response_more more b (set_cursor c1 p0) line []) as Hmore.
    rewrite E in Hmore. apply Hmore; try done; [by apply inv_cursor|].
    split; [done|]. split; [done|]. change (bp_off line + bp_length line <= zlen (p_buf p)). lia.
  - rewrite response_cont_stop in E by done. specialize (N1 Hs1).
    replace (set_cursor c1 p0) with p0 in E by (rewrite N1; by rewrite set_cursor_same).
    injection E as <- <-. split; [done|]. intros more b He.
    split; [|intros _; by apply (Hagain eq_refl more)]. intros Hs.
    apply goes_on_complete in Hs. rewrite (Hlong more b He) by (by left).
    rewrite (bind_ret_at _ _ _ _ _ (L1 more b He Hs [])), response_cont_stop by done.
    rewrite N1. by rewrite set_cursor_with.
Qed.

Lemma responseline_resumes p :
  parser_inv p -> p_position p = POS_RESPONSE_LINE -> resumes responseline p.
Proof.
  intros Hp Hpos.
  eapply resumes_intro; [by apply (responseline_runs Lucky junk getaddrinfo inet_pton gIF_INDEX)|].
  intros s p1 E _. by apply responseline_cases.
Qed.

(** ** Headers *)

Abbreviation step := (header_step junk getaddrinfo inet_pton gIF_INDEX).
Abbreviation parse_headers := (parser_parse_headers junk getaddrinfo inet_pton gIF_INDEX).

Lemma find_orig_more more b p t :
  ext more b p -> within (zlen (p_buf p)) t ->
  find_orig (with_buf b p) t
  = (fun r => (with_buf b r.1.1, r.1.2, r.2)) <$> find_orig p t.
Proof.
  intros He Hw. unfold find_orig. rewrite (at_ptr_more more), (text_of_more more) by done.
  rewrite map_str_to_int_app by (rewrite at_ptr_zlen by done; destruct Hw as (H1 & H2 & H3); lia).
  destruct (map_str_to_int _ _ _ _ _) as [i|]; [|done]. cbn [mbind option_bind].
  destruct (negb (i =? -1)); [|done]. destruct (_ !! _) as [e|]; [|done]. cbn.
  by destruct (_ =? HDR_SOAPACTION).
Qed.

Lemma new_header_slice hid n1 n2 v1 v2 nl vl o :
  mem_slice n1 0 nl = mem_slice n2 0 nl -> mem_slice v1 0 vl = mem_slice v2 0 vl ->
  new_header junk hid n1 v1 nl vl o = new_header junk hid n2 v2 nl vl o.
Proof.
  intros Hn Hv. unfold new_header, mbind, M_bind.
  destruct (malloc_ok o) as [[] o1| | |]; try done. cbn [negb].
  destruct (vl =? 0); rewrite (assign_slice _ _ n1 n2) by done;
    destruct (membuffer_assign _ _ _ _ o1) as [[rc b] o2| | |]; try done;
    destruct (negb (rc =? 0)); try done. by rewrite (assign_slice _ _ v1 v2).
Qed.

Lemma add_header_more more b p t v o :
  ext more b p -> within (zlen (p_buf p)) t -> within (zlen (p_buf p)) v ->
  add_header junk (with_buf b p) t v o
  = tmap (fun r => (r.1, with_buf b r.2)) (add_header junk p t v o).
Proof.
  intros He Ht Hv. unfold add_header. rewrite (find_orig_more more) by done.
  destruct (find_orig_total p t) as (p1 & hid & orig & E & Hp1 & _). rewrite E.
  cbn [fmap option_fmap option_map fst snd].
  rewrite !(bind_ret_at (liftO (Some _)) _ o _ o eq_refl).
  assert (p_buf p1 = p_buf p) as Eb by (by destruct Hp1 as [->| ->]).
  assert (ext more b p1) as He1 by (unfold ext; by rewrite Eb).
  rewrite <- Eb in Ht, Hv. rewrite !(at_ptr_more more b p1) by done.
  assert (forall q, within (zlen (p_buf p1)) q ->
    mem_slice (at_ptr p1 q ++ more) 0 (bp_length q) = mem_slice (at_ptr p1 q) 0 (bp_length q)) as Hsl.
  { intros q Hq. apply mem_slice_app_le. rewrite at_ptr_zlen by done.
    destruct Hq as (H1 & H2 & H3). lia. }
  destruct orig as [[i h]|].
  - destruct (0 <? bp_length v); [|done].
    eapply (tmap_bind (fun x => x)); [by destruct (membuffer_append_str _ _ _ o)|].
    intros [r1 v1] o1 _. eapply (tmap_bind (fun x => x)).
    { unfold membuffer_append. rewrite (insert_slice _ _ _ (at_ptr p1 v)) by auto.
      by destruct (membuffer_insert _ _ _ _ _ o1). }
    intros [r2 v2] o2 _. by destruct ((r1 =? _) || _).
  - eapply (tmap_bind (fun x => x)).
    { rewrite (new_header_slice _ _ (at_ptr p1 t) _ (at_ptr p1 v)) by auto.
      by destruct (new_header _ _ _ _ _ _ o). }
    by intros [h|] o1 _.
Qed.

Lemma token_more more b p r :
  parser_inv p -> ext more b p ->
  scanner_get_token (p_buf p) (p_entire_msg_loaded p) (p_cursor p) = Some r ->
  r <> NoToken PARSE_INCOMPLETE \/ more = [] ->
  scanner_get_token (p_buf (with_buf b p)) (p_entire_msg_loaded (with_buf b p))
    (p_cursor (with_buf b p)) = Some r.
Proof.
  intros Hp [_ Hc] E Hs. pose proof (pi_cursor p Hp) as Hcur.
  rewrite <- zlen_p_buf in Hcur by done. rewrite p_buf_with, Hc.
  change (p_entire_msg_loaded (with_buf b p)) with (p_entire_msg_loaded p).
  change (p_cursor (with_buf b p)) with (p_cursor p).
  destruct Hs as [Hs| ->]; [|by rewrite app_nil_r]. rewrite (pi_loaded p Hp) in E.
  by apply (scanner_get_token_more (p_buf p)).
Qed.

Definition header_cont (save : Z) (t : bufptr) (r : parse_status_t * http_parser_t * list arg)
    : M (parse_status_t * http_parser_t) :=
  let '(status, p, outs) := r in
  match status, outs with
  | PARSE_OK, [AStr hdr_value] =>
      '(stored, p) ← add_header junk p t hdr_value;
      if stored : bool then mret (PARSE_CONTINUE_1, p) else fail p
  | PARSE_OK, _ => undefined
  | s, _ => mret (s, set_cursor save p)
  end.

Lemma header_cont_stop save t s p outs :
  s <> PARSE_OK -> header_cont save t (s, p, outs) = mret (s, set_cursor save p).
Proof. by destruct s. Qed.

Lemma header_cont_more more b save t p v o :
  ext more b p -> within (zlen (p_buf p)) t -> within (zlen (p_buf p)) v ->
  header_cont save t (PARSE_OK, with_buf b p, [AStr v]) o
  = tmap (lift b) (header_cont save t (PARSE_OK, p, [AStr v]) o).
Proof.
  intros He Ht Hv. cbn [header_cont]. eapply tmap_bind; [by apply (add_header_more more)|].
  by intros [[] p1] o1 _.
Qed.

(** What a round does after its token. *)
Definition header_token (p : http_parser_t) (r : scanned) : M (parse_status_t * http_parser_t) :=
  match r with
  | NoToken s => mret (s, p)
  | Token _ TT_CRLF cursor =>
      if m_is_request (p_msg p) && (m_method (p_msg p) =? HTTPMETHOD_POST)
      then mret (PARSE_SUCCESS, set_position POS_COMPLETE (set_cursor cursor p))
      else mret (PARSE_OK, set_position POS_ENTITY (set_cursor cursor p))
  | Token token TT_IDENTIFIER cursor =>
      match_msg (set_cursor cursor p) FMT_HEADER ≫= header_cont (p_cursor p) token
  | Token _ _ cursor => fail (set_cursor cursor p)
  end.

Lemma header_step_unfold p r o :
  scanner_get_token (p_buf p) (p_entire_msg_loaded p) (p_cursor p) = Some r ->
  step p o = header_token p r o.
Proof.
  intros E. unfold header_step. rewrite (bind_ret_at _ _ _ r o) by (by rewrite E).
  by destruct r as [t [] c|s].
Qed.

Lemma header_step_resumes p : parser_inv p -> reads_headers p -> resumes step p.
Proof.
  intros Hp Hr.
  eapply resumes_intro; [by apply (header_step_runs Lucky junk getaddrinfo inet_pton gIF_INDEX)|].
  intros s p1 E (_ & Hf & _). split; [apply (hf_buf _ _ Hf)|]. cbn [snd] in Hf.
  pose proof (pi_cursor p Hp) as Hcur. rewrite <- zlen_p_buf in Hcur by done.
  destruct (scanner_get_token_spec (p_buf p) (p_entire_msg_loaded p) (p_cursor p) Hcur)
    as (r & Et & Htok). rewrite (header_step_unfold p r [] Et) in E.
  intros more b He. pose proof (token_more more b p r Hp He Et) as Hmore.
  pose proof (fun H => header_step_unfold (with_buf b p) r [] (Hmore H)) as Hlong. clear Hmore.
  destruct r as [t ty c|s0].
  2: { injection E as <- <-. split; [|done]. intros Hs. rewrite Hlong; [done|].
       apply goes_on_complete in Hs as [Hs|Hs]; [left; congruence|by right]. }
  destruct Htok as (Ht1 & Ht2 & -> & Ht3 & _). specialize (Hlong ltac:(by left)).
  rewrite Hlong. clear Hlong.
  destruct ty; cbn [header_token] in *;
    try (injection E as <- <-; split; [done|by intros [?|?]]).
  - assert (parser_inv (set_cursor (p_cursor p + bp_length t) p)) as Hp0
      by (apply inv_cursor; [done|lia]).
    set (p0 := set_cursor (p_cursor p + bp_length t) p) in *.
    destruct (match_more p0 FMT_HEADER) as (s1 & c1 & o1 & E1 & B1 & N1 & M1 & S1 & L1);
      [done|done|]. rewrite (bind_ret_at _ _ _ _ _ (E1 [])) in E.
    destruct (decide (s1 = PARSE_OK)) as [->|Hs1].
    + destruct (matched_header (p_buf p) (p_cursor p + bp_length t) c1 o1) as
        (v & -> & V1 & V2 & V3 & V4); [lia|by apply M1|].
      assert (within (zlen (p_buf p)) t) as Ht by (unfold within; lia).
      assert (within (zlen (p_buf p)) v) as Hv by (unfold within; lia).
      pose proof (header_cont_more more b (p_cursor p) t (set_cursor c1 p0) v [] He Ht Hv) as Hm.
      rewrite E in Hm. change (with_buf b (set_cursor c1 p0)) with (set_cursor c1 (with_buf b p0)) in Hm.
      split.
      * intros _. by rewrite (bind_ret_at _ _ _ _ _ (L1 more b He ltac:(by left) [])).
      * cbn [header_cont] in E. unfold mbind, M_bind in E.
        destruct (add_header _ _ _ _ _) as [[[] p3] o3| | |]; try done;
          injection E as <- _ _; by intros [?|?].
    + rewrite header_cont_stop in E by done. injection E as <- <-. split.
      * intros Hs. apply goes_on_complete in Hs.
        rewrite (bind_ret_at _ _ _ _ _ (L1 more b He Hs [])). by rewrite header_cont_stop.
      * intros _. rewrite (N1 Hs1). replace (set_cursor (p_cursor p) _) with p by (by destruct p).
        by rewrite (header_step_unfold (with_buf b p) _ [] (token_more more b p _ Hp He Et ltac:(by left))).
  - change (p_msg (with_buf b p)) with (set_msg_buf b (p_msg p)).
    change (m_is_request (set_msg_buf b (p_msg p))) with (m_is_request (p_msg p)).
    change (m_method (set_msg_buf b (p_msg p))) with (m_method (p_msg p)).
    destruct (_ && _); injection E as <- <-; (split; [done|by intros [?|?]]).
Qed.

(** The run in which memory is available. *)
Lemma runs_lucky {A} (m : M A) (Q : A -> Prop) a :
  runs Lucky m Q -> m [] = Ret a [] -> Q a.
Proof. intros H E. specialize (H [] eq_refl). rewrite E in H. apply H. Qed.

Lemma resumes_ext (I : http_parser_t -> Prop) f g p :
  (forall q, I q -> f q [] = g q []) -> I p ->
  (forall more b q, I q -> ext more b q -> I (with_buf b q)) ->
  (forall s p1, f p [] = Ret (s, p1) [] -> incomplete s -> I p1) ->
  resumes g p -> resumes f p.
Proof.
  intros Heq Hp Hext Hstop H more b He. destruct (H more b He) as (s & p1 & E & H1 & H2).
  rewrite <- Heq in E by done. exists s, p1. split; [done|].
  rewrite (Heq (with_buf b p)) by eauto. split; [done|].
  intros Hi. destruct (H2 Hi) as (b1 & He1 & Ha). exists b1. split; [done|].
  rewrite (Heq (with_buf b1 p1)) by eauto. done.
Qed.

Definition headers_state (p : http_parser_t) : Prop := parser_inv p /\ reads_headers p.
Definition headers_measure (p : http_parser_t) : nat := Z.to_nat (zlen (p_buf p) - p_cursor p).

Lemma headers_loop_rounds fuel p o :
  headers_loop junk getaddrinfo inet_pton gIF_INDEX fuel p o = rounds step PARSE_CONTINUE_1 fuel p o.
Proof.
  revert p o. induction fuel as [|fuel IH]; intros p o; [done|].
  rewrite headers_loop_S. cbn [rounds]. unfold mbind, M_bind.
  destruct (step p o) as [[s p1] o1| | |]; try done. case_bool_decide; [apply IH|done].
Qed.

Lemma headers_state_ext more b p :
  headers_state p -> ext more b p -> headers_state (with_buf b p).
Proof. intros [Hp Hr] He. split; [by eapply inv_with_buf|exact Hr]. Qed.

Lemma headers_step_next p s p1 :
  headers_state p -> step p [] = Ret (s, p1) [] ->
  (s = PARSE_CONTINUE_1 -> headers_state p1 /\ (headers_measure p1 < headers_measure p)%nat) /\
  (incomplete s -> headers_state p1).
Proof.
  intros [Hp Hr] E.
  destruct (runs_lucky _ _ _ (header_step_runs Lucky junk getaddrinfo inet_pton gIF_INDEX p Hp Hr) E)
    as (H1 & H2 & H3 & H4 & H5 & H6). cbn [fst snd] in *.
  assert (p_position p1 = p_position p -> headers_state p1) as Hst.
  { intros Hpos. split; [done|]. unfold reads_headers. by rewrite Hpos, (hf_ent _ _ H2). }
  split.
  - intros Hs. split; [apply Hst, H5; by right|]. specialize (H6 Hs). unfold headers_measure.
    pose proof (pi_cursor p1 H1) as Hc. rewrite <- zlen_p_buf in Hc by done.
    rewrite (frame_buf _ _ H2) in *. lia.
  - intros [->| ->]; [apply Hst, H5; by left|done].
Qed.

Lemma parse_headers_resumes p :
  parser_inv p -> reads_headers p -> resumes parse_headers p.
Proof.
  intros Hp Hr.
  apply (resumes_ext headers_state _ (fun p => rounds step PARSE_CONTINUE_1 (S (length (p_buf p))) p)).
  - intros q [Hq Hrq]. unfold parser_parse_headers. rewrite (bind_ret_at _ _ _ tt []).
    + apply headers_loop_rounds.
    + unfold assertM. replace (_ || _) with true; [done|]. symmetry. apply orb_true_iff.
      destruct Hrq as [->|[_ ->]]; [left|by right]. by apply bool_decide_true.
  - by split.
  - apply headers_state_ext.
  - intros s p1 E Hi.
    destruct (runs_lucky _ _ _ (parse_headers_runs Lucky junk getaddrinfo inet_pton gIF_INDEX p Hp Hr) E)
      as (H1 & H2 & H3 & H4 & H5 & H6). cbn [fst snd] in *. split; [done|].
    destruct Hi as [->| ->]; [|done]. unfold reads_headers. by rewrite (H6 eq_refl), (hf_ent _ _ H2).
  - apply (rounds_resumes step PARSE_CONTINUE_1 headers_state headers_measure); try done.
    + by right.
    + by intros q [Hq _].
    + apply headers_state_ext.
    + apply headers_step_next.
    + intros q [Hq Hrq]. by apply header_step_resumes.
    + intros q [Hq _]. unfold headers_measure, zlen. pose proof (pi_cursor q Hq). lia.
Qed.

(** ** Entity *)

Lemma msg_length_ext b p : parser_inv p -> ext [] b p -> msg_length (with_buf b p) = msg_length p.
Proof.
  intros Hp He. change (msg_length (with_buf b p)) with (mb_length b).
  rewrite (ext_zlen [] b p Hp He). change (zlen []) with 0. lia.
Qed.

(** A buffer with the same contents and one byte overwritten. *)
Lemma poke_buf_ret p i :
  parser_inv p -> 0 <= i < msg_length p -> exists b,
  (b ← with_block (m_msg_buf (p_msg p)) (fun b => poke b i 0); mret (on_msg (set_msg_buf b) p)) []
  = Ret (with_buf b p) [] /\ mb_wf b /\ contents b = <[Z.to_nat i := 0]> (p_buf p).
Proof.
  intros Hp Hi.
  pose proof (poke_buf_runs Lucky p i (fun q => exists b, q = with_buf b p /\ mb_wf b /\
    contents b = <[Z.to_nat i := 0]> (p_buf p)) (pi_buf p Hp) Hi) as H.
  specialize (H ltac:(intros b H1 H2 H3; by exists b) [] eq_refl).
  match type of H with match ?x with _ => _ end => destruct x as [q o|[]| |]; try done; try by destruct H end.
  destruct H as [(b & -> & H1 & H2) Ho].
  exists b. cbn in Ho. by subst o.
Qed.

Abbreviation clen := parser_parse_entity_using_clen.

(** What the function computes, with the length of the data that is there. *)
Lemma clen_unfold p :
  parser_inv p -> p_position p = POS_ENTITY -> p_ent_position p = ENTREAD_USING_CLEN ->
  exists b, clen p []
  = (if msg_length p - p_entity_start_position p <? p_content_length p
     then Ret (PARSE_INCOMPLETE, on_msg (set_entity_length
                 (msg_length p - p_entity_start_position p)) p) []
     else Ret (PARSE_SUCCESS, set_position POS_COMPLETE (on_msg (fun r =>
                 set_entity_buf (p_entity_start_position p)
                   (set_entity_length (p_content_length p) r)) (with_buf b p))) []) /\
  (p_content_length p <= msg_length p - p_entity_start_position p ->
   mb_wf b /\ contents b
   = if p_content_length p <? msg_length p - p_entity_start_position p
     then <[Z.to_nat (p_entity_start_position p + p_content_length p) := 0]> (p_buf p)
     else p_buf p).
Proof.
  intros Hp Hpos He. assert (in_entity p) as Hin by (split; [done|by rewrite He]).
  pose proof (pi_entity p Hp Hin) as [Hs Ho]. pose proof (pi_cursor p Hp) as Hc.
  pose proof (pi_buf p Hp) as Hw. pose proof Hw as [Hl _ _ _]. pose proof (pi_clen p Hp) as Hcl.
  unfold parser_parse_entity_using_clen. unfold MB_MAX, INT_MAX in *.
  fold (msg_length p) in Hc, Hl.
  rewrite (pi_discarded p Hp), Z.add_0_r, Z.sub_0_r, (to_size_small (msg_length p - _))
    by (unfold SIZE_MAX; lia).
  set (len := msg_length p - p_entity_start_position p).
  set (p1 := on_msg (set_entity_length len) p).
  change (p_content_length p1) with (p_content_length p).
  change (m_msg_buf (p_msg p1)) with (m_msg_buf (p_msg p)).
  assert (parser_inv p1) as Hp1 by (apply inv_entity; [done|by rewrite He|done|done]).
  rewrite (bind_ret_at _ _ _ tt []) by (unfold assertM; by rewrite He).
  destruct (Z.ltb_spec len (p_content_length p)) as [Hlt|Hge].
  { exists (m_msg_buf (p_msg p)). split; [done|lia]. }
  destruct (Z.ltb_spec (p_content_length p) len) as [Hgt|Heq].
  - rewrite to_size_small by (unfold SIZE_MAX; lia).
    destruct (poke_buf_ret p1 (p_entity_start_position p + p_content_length p)) as (b & E & Hb & Hcb);
      [done|change (msg_length p1) with (msg_length p); lia|].
    change (m_msg_buf (p_msg p1)) with (m_msg_buf (p_msg p)) in E.
    exists b. by rewrite (bind_ret_at _ _ _ _ _ E).
  - exists (m_msg_buf (p_msg p)). split; [|done]. rewrite (bind_ret_at (mret p1) _ [] p1 []) by done.
    by rewrite (with_buf_self p).
Qed.

Lemma clen_resumes p :
  parser_inv p -> p_position p = POS_ENTITY -> p_ent_position p = ENTREAD_USING_CLEN ->
  resumes clen p.
Proof.
  intros Hp Hpos He more b Hext.
  destruct (clen_unfold p Hp Hpos He) as (b1 & E & Hb1). rewrite E.
  assert (parser_inv (with_buf b p)) as Hpb by (by eapply inv_with_buf).
  destruct (Z.ltb_spec (msg_length p - p_entity_start_position p) (p_content_length p)) as [Hlt|Hge];
    do 2 eexists; (split; [done|]); split.
  - intros [[?|?]| ->]; [done..|]. exists b. split; [|done].
    destruct (clen_unfold (with_buf b p) Hpb Hpos He) as (b2 & E2 & _). rewrite E2.
    rewrite (msg_length_ext b p Hp Hext).
    change (p_content_length (with_buf b p)) with (p_content_length p).
    change (p_entity_start_position (with_buf b p)) with (p_entity_start_position p).
    by rewrite (proj2 (Z.ltb_lt _ _) Hlt).
  - intros _. exists b. split; [done|]. left. done.
  - intros [[?|?]| ->]; [done..|].
    destruct (clen_unfold (with_buf b p) Hpb Hpos He) as (b2 & E2 & Hb2). rewrite E2.
    rewrite (msg_length_ext b p Hp Hext) in *.
    change (p_content_length (with_buf b p)) with (p_content_length p) in *.
    change (p_entity_start_position (with_buf b p)) with (p_entity_start_position p) in *.
    rewrite (proj2 (Z.ltb_ge _ _) Hge). exists b2. split; [done|].
    destruct (Hb1 ltac:(lia)) as [_ C1]. destruct (Hb2 ltac:(lia)) as [W2 C2].
    split; [done|]. rewrite app_nil_r, C2. destruct Hext as [_ Hc]. rewrite app_nil_r in Hc.
    rewrite p_buf_with, Hc, <- C1. done.
  - by intros [?|?].
Qed.

Lemma until_close_resumes p :
  parser_inv p -> p_position p = POS_ENTITY -> p_ent_position p = ENTREAD_UNTIL_CLOSE ->
  resumes parser_parse_entity_until_close p.
Proof.
  intros Hp Hpos He more b Hext. unfold parser_parse_entity_until_close.
  assert (forall q k, p_ent_position q = ENTREAD_UNTIL_CLOSE ->
    (assertM (p_ent_position q =? ENTREAD_UNTIL_CLOSE) ≫= k) []
    = (k tt : M (parse_status_t * http_parser_t)) []) as Ha
    by (intros q k Hq; unfold mbind, M_bind, assertM; by rewrite Hq).
  rewrite !Ha by done. do 2 eexists. split; [done|]. split.
  - intros [[?|?]| ->]; [done..|]. exists b. split; [|done].
    pose proof (msg_length_ext b p Hp Hext) as E. by rewrite E.
  - intros _. exists b. split; [done|]. left. by rewrite !Ha.
Qed.

Abbreviation read_method := parser_get_entity_read_method.

(** The read method does not depend on the bytes behind the headers. *)
Lemma read_method_with b p o :
  read_method (with_buf b p) o = tmap (lift b) (read_method p o).
Proof.
  unfold parser_get_entity_read_method.
  change (p_ent_position (with_buf b p)) with (p_ent_position p).
  eapply (tmap_bind (fun x => x)); [by destruct (assertM _ o)|]. intros [] o1 _. cbv zeta.
  change (p_cursor (with_buf b p)) with (p_cursor p).
  set (p1 := set_entity_start_position (p_cursor p) (on_msg _ p)).
  change (set_entity_start_position (p_cursor p) (on_msg _ (with_buf b p))) with (with_buf b p1).
  change (m_is_request (p_msg (with_buf b p1))) with (m_is_request (p_msg p1)).
  change (m_method (p_msg (with_buf b p1))) with (m_method (p_msg p1)).
  change (m_status_code (p_msg (with_buf b p1))) with (m_status_code (p_msg p1)).
  change (m_request_method (p_msg (with_buf b p1))) with (m_request_method (p_msg p1)).
  destruct (if m_is_request (p_msg p1) then _ else _); [done|].
  assert (find_chunked (with_buf b p1) = (fun r => (r.1, with_buf b r.2)) <$> find_chunked p1) as Ef.
  { unfold find_chunked.
    change (httpmsg_find_hdr (p_msg (with_buf b p1))) with (httpmsg_find_hdr (p_msg p1)).
    destruct (httpmsg_find_hdr _ _) as [[i h]|]; [|done].
    by destruct (raw_find_str _ _) as [[n b0]|]. }
  rewrite Ef. destruct (find_chunked p1) as [[c p2]|]; [|done].
  cbn [fmap option_fmap option_map fst snd].
  rewrite !(bind_ret_at (liftO (Some _)) _ o1 _ o1 eq_refl). destruct c; [done|].
  change (httpmsg_find_hdr (p_msg (with_buf b p2))) with (httpmsg_find_hdr (p_msg p2)).
  destruct (httpmsg_find_hdr _ _) as [[i h]|].
  - by apply tmap_liftO.
  - destruct (m_is_request _); [|done]. by destruct (m_method _ =? _).
Qed.

Lemma read_method_status p s p1 o o1 :
  read_method p o = Ret (s, p1) o1 -> ~ incomplete s /\ m_msg_buf (p_msg p1) = m_msg_buf (p_msg p).
Proof.
  unfold parser_get_entity_read_method, fail, mbind, M_bind.
  destruct (assertM _ o) as [[] o2| | |]; try done.
  destruct (if m_is_request _ then _ else _); [intros [= <- <- _]; by split; [intros [?|?]|]|].
  destruct (find_chunked _) as [[c p2]|] eqn:E; [cbn [liftO]|done].
  assert (m_msg_buf (p_msg p2) = m_msg_buf (p_msg p)) as Hb.
  { unfold find_chunked in E. destruct (httpmsg_find_hdr _ _) as [[i h]|]; [|by injection E as <- <-].
    destruct (raw_find_str _ _) as [[n b0]|]; [|done]. cbn [mbind option_bind] in E. by injection E as <- <-. }
  destruct c; [intros [= <- <- _]; by split; [intros [?|?]|]|].
  destruct (httpmsg_find_hdr _ _) as [[i h]|].
  - destruct (raw_to_int _ _); [cbn [liftO]|done]. intros [= <- <- _]; by split; [intros [?|?]|].
  - destruct (m_is_request _); intros [= <- <- _]; (split; [by intros [?|?]|]); [|done].
    by destruct (m_method _ =? _).
Qed.

Lemma read_method_resumes p :
  parser_inv p -> p_position p = POS_ENTITY ->
  p_ent_position p = ENTREAD_DETERMINE_READ_METHOD -> resumes read_method p.
Proof.
  intros Hp Hpos He. eapply resumes_intro; [by apply (read_method_runs Lucky)|].
  intros s p1 E _. destruct (read_method_status _ _ _ _ _ E) as [Hs Hb]. split; [done|].
  intros more b _. split; [|done]. intros _. by rewrite read_method_with, E.
Qed.

(** Deleting a part that was read, in both buffers. *)
Lemma delete_more more b p save :
  parser_inv p -> ext more b p -> 0 <= save <= p_cursor p ->
  exists b1 b2,
    delete_msg junk p save [] = Ret (set_cursor save (with_buf b1 p)) [] /\
    delete_msg junk (with_buf b p) save [] = Ret (set_cursor save (with_buf b2 p)) [] /\
    mb_wf b1 /\ contents b1 = ztake save (p_buf p) ++ zdrop (p_cursor p) (p_buf p) /\
    mb_wf b2 /\ contents b2 = contents b1 ++ more.
Proof.
  intros Hp He Hs. pose proof (inv_with_buf _ _ _ Hp He) as Hpb.
  pose proof (zlen_p_buf p Hp) as Hz. pose proof (pi_cursor p Hp) as Hc.
  assert (forall q, parser_inv q -> 0 <= save <= p_cursor q -> exists b1,
    delete_msg junk q save [] = Ret (set_cursor save (with_buf b1 q)) [] /\ mb_wf b1 /\
    contents b1 = ztake save (p_buf q) ++ zdrop (p_cursor q) (p_buf q)) as H.
  { intros q Hq Hsq.
    pose proof (delete_msg_runs Lucky junk ltac:(done) q save (fun r => exists b1,
      r = set_cursor save (with_buf b1 q) /\ mb_wf b1 /\
      contents b1 = ztake save (p_buf q) ++ zdrop (p_cursor q) (p_buf q)) Hq Hsq) as H.
    specialize (H ltac:(intros b1 H1 H2; by exists b1) [] eq_refl).
    destruct (delete_msg junk q save []) as [r o|[]| |]; try done; [|by destruct H].
    destruct H as [(b1 & -> & H1 & H2) Ho]. cbn in Ho. subst o. by exists b1. }
  destruct (H p Hp Hs) as (b1 & E1 & W1 & C1). destruct (H _ Hpb Hs) as (b2 & E2 & W2 & C2).
  exists b1, b2. split; [done|]. split; [exact E2|]. split; [done|]. split; [done|].
  split; [done|]. rewrite C2, C1, p_buf_with. destruct He as [_ ->].
  change (p_cursor (with_buf b p)) with (p_cursor p).
  rewrite ztake_app_le, zdrop_app_le by lia. by rewrite app_assoc.
Qed.

Abbreviation chunky_body := (parser_parse_chunky_body junk getaddrinfo inet_pton gIF_INDEX).
Abbreviation chunky_entity := (parser_parse_chunky_entity junk getaddrinfo inet_pton gIF_INDEX).
Abbreviation chunky_headers := (parser_parse_chunky_headers junk getaddrinfo inet_pton gIF_INDEX).

(** Nothing was changed while the data is not there. *)
Lemma resumes_stay f p s :
  parser_inv p -> f p [] = Ret (s, p) [] -> ~ goes_on s ->
  (forall b, ext [] b p -> f (with_buf b p) [] = Ret (s, with_buf b p) []) -> resumes f p.
Proof.
  intros Hp E Hs H0 more b He. exists s, p. split; [done|]. split.
  - intros [?| ->]; [done|]. exists b. auto.
  - intros _. exists b. split; [done|]. by left.
Qed.

Lemma chunky_body_resumes p :
  parser_inv p -> p_position p = POS_ENTITY -> p_ent_position p = ENTREAD_CHUNKY_BODY ->
  resumes chunky_body p.
Proof.
  intros Hp Hpos He. assert (in_entity p) as Hin by (split; [done|by rewrite He]).
  pose proof (pi_cursor p Hp) as Hc. pose proof (pi_buf p Hp) as [Hl _ _ _].
  pose proof (pi_chunk p Hp) as Hch. pose proof (zlen_p_buf p Hp) as Hz.
  fold (msg_length p) in *. unfold MB_MAX, INT_MAX in Hl.
  destruct (Z.leb_spec (p_chunk_size p) (msg_length p - p_cursor p)) as [Hle|Hgt].
  2: { assert (forall b, ext [] b p -> chunky_body (with_buf b p) []
         = Ret (PARSE_INCOMPLETE, with_buf b p) []) as H0.
       { intros b Hb. unfold parser_parse_chunky_body. rewrite (msg_length_ext b p Hp Hb).
         change (p_cursor (with_buf b p)) with (p_cursor p).
         change (p_chunk_size (with_buf b p)) with (p_chunk_size p).
         rewrite to_size_small by (unfold SIZE_MAX; lia).
         by rewrite (proj2 (Z.leb_gt _ _) Hgt). }
       apply (resumes_stay _ _ PARSE_INCOMPLETE); [done| |by intros [?|?]|done].
       pose proof (H0 _ (ext_self p Hp)) as E. by rewrite with_buf_self in E. }
  set (save := p_cursor p + p_chunk_size p).
  assert (forall q, parser_inv q -> p_cursor q = p_cursor p -> p_chunk_size q = p_chunk_size p ->
    msg_length p <= msg_length q -> chunky_body q []
    = ('(status, q1, _) ← match_msg (set_cursor save q) FMT_CRLF;
       if negb (bool_decide (status = PARSE_OK)) then
         mret (status, set_cursor (to_size (p_cursor q1 - p_chunk_size q1)) q1)
       else
         q1 ← delete_msg junk q1 save;
         mret (PARSE_CONTINUE_1, set_ent_position ENTREAD_USING_CHUNKED
           (on_msg (set_entity_length (to_size (entity_length q1 + p_chunk_size q1))) q1))) []) as Hunf.
  { intros q Hq E1 E2 Hmq. pose proof (pi_buf q Hq) as [Hlq _ _ _]. fold (msg_length q) in Hlq.
    unfold MB_MAX, INT_MAX in Hlq. unfold parser_parse_chunky_body. rewrite E1, E2.
    rewrite (to_size_small (msg_length q - p_cursor p)) by (unfold SIZE_MAX; lia).
    rewrite (proj2 (Z.leb_le _ _)) by lia.
    by rewrite (to_size_small (p_cursor p + _)) by (unfold SIZE_MAX; lia). }
  assert (parser_inv (set_cursor save p)) as Hp0 by (apply inv_cursor; [done|lia]).
  set (p0 := set_cursor save p) in *.
  destruct (match_more p0 FMT_CRLF) as (s1 & c1 & o1 & E1 & B1 & N1 & M1 & S1 & L1); [done|done|].
  change (p_cursor p0) with save in *. change (p_buf p0) with (p_buf p) in *.
  destruct (decide (s1 = PARSE_OK)) as [->|Hs1].
  - intros more b Hb. pose proof (inv_with_buf _ _ _ Hp Hb) as Hpb.
    pose proof (ext_zlen _ _ _ Hp Hb) as Hlb. pose proof (zlen_nonneg more).
    change (mb_length b) with (msg_length (with_buf b p)) in Hlb.
    rewrite (Hunf p), (Hunf (with_buf b p)) by (done || lia).
    rewrite (bind_ret_at _ _ _ _ _ (E1 [])), (bind_ret_at _ _ _ _ _ (L1 more b Hb ltac:(by left) [])).
    rewrite bool_decide_true by done. cbn [negb].
    assert (parser_inv (set_cursor c1 p0)) as Hp1 by (apply (inv_cursor c1 p0); done).
    destruct (delete_more more b (set_cursor c1 p0) save Hp1 Hb) as
      (b1 & b2 & D1 & D2 & W1 & C1 & W2 & C2); [change (0 <= save <= c1); lia|].
    rewrite (bind_ret_at _ _ _ _ _ D1), (bind_ret_at _ _ _ _ _ D2).
    do 2 eexists. split; [done|]. split; [|by intros [?|?]]. intros _. by exists b2.
  - specialize (N1 Hs1).
    assert (forall q, parser_inv q -> p_cursor q = p_cursor p -> p_chunk_size q = p_chunk_size p ->
      msg_length p <= msg_length q ->
      match_msg (set_cursor save q) FMT_CRLF [] = Ret (s1, set_cursor c1 (set_cursor save q), o1) [] ->
      chunky_body q [] = Ret (s1, q) []) as Hstop.
    { intros q Hq Ec Es Hmq Em. rewrite (Hunf q) by done. rewrite (bind_ret_at _ _ _ _ _ Em).
      rewrite bool_decide_false by done. cbn [negb]. rewrite N1.
      change (p_chunk_size (set_cursor save (set_cursor save q))) with (p_chunk_size q). rewrite Es.
      change (p_cursor (set_cursor save (set_cursor save q))) with save.
      replace (save - p_chunk_size p) with (p_cursor q) by lia.
      rewrite to_size_small by (rewrite Ec; unfold SIZE_MAX; lia).
      by replace (set_cursor (p_cursor q) _) with q by (by destruct q). }
    apply (resumes_stay _ _ s1); [done|apply Hstop; done || lia| |].
    + intros Hg. by destruct Hg as [->| ->]; destruct S1 as [?|[?|[?|?]]].
    + intros b Hb. apply Hstop; [by eapply inv_with_buf|done|done|rewrite (msg_length_ext b p Hp Hb); lia|].
      apply (L1 [] b Hb). by right.
Qed.

Lemma store_int_twice old v w : 0 <= old -> store_int (store_int old v) w = store_int old w.
Proof.
  intros Ho. unfold store_int. pose proof (wrapU_range 32 v ltac:(lia)) as Hv. unfold to_uint.
  replace (Z.shiftr (Z.shiftl (Z.shiftr old 32) 32 + wrapU 32 v) 32) with (Z.shiftr old 32); [done|].
  rewrite (Z.shiftr_div_pow2 (_ + _)), Z.shiftl_mul_pow2 by lia.
  rewrite Z.div_add_l, (Z.div_small (wrapU 32 v)) by lia. lia.
Qed.

(** The chunk size a match stores. *)
Definition chunk_out (old : Z) (outs : list arg) : Z :=
  match outs with AInt v :: _ => store_int old v | _ => old end.

Lemma chunk_out_range old outs :
  0 <= old <= SIZE_MAX -> 0 <= chunk_out old outs <= SIZE_MAX.
Proof. intros Ho. destruct outs as [|[] ]; try exact Ho. by apply store_int_range. Qed.

Lemma vloop_outs buf loaded fmt c cse outs o s c' outs' :
  plain_fmt fmt = true -> 0 <= c <= zlen buf ->
  vfmatch_loop getaddrinfo inet_pton gIF_INDEX buf loaded fmt c cse outs o = Ret (s, c', outs') o ->
  exists o2, outs' = outs ++ o2.
Proof.
  intros Hf Hc E.
  destruct (vfmatch_loop_spec getaddrinfo inet_pton gIF_INDEX buf loaded (length fmt) fmt c cse outs)
    as (s2 & c2 & o2 & E2 & _); [lia|done|done|].
  rewrite E2 in E. injection E as _ _ <-. by exists o2.
Qed.

(** When the size is stored before the data ends, it is final. *)
Lemma chunk_vfmatch_outs buf more loaded c c1 c2 s2 outs outs2 :
  0 <= c <= zlen buf ->
  vfmatch getaddrinfo inet_pton gIF_INDEX buf false FMT_CHUNK c []
    = Ret (PARSE_INCOMPLETE, c1, outs) [] ->
  vfmatch getaddrinfo inet_pton gIF_INDEX (buf ++ more) loaded FMT_CHUNK c [] = Ret (s2, c2, outs2) [] ->
  outs = [] \/ exists v l l2, outs = AInt v :: l /\ outs2 = AInt v :: l2.
Proof.
  intros Hc. unfold vfmatch, mbind, M_bind.
  change FMT_CHUNK with (37 :: $"x" :: cs "%L%c").
  pose proof (zlen_nonneg more). pose proof (zlen_app buf more).
  destruct (match_directive_spec getaddrinfo inet_pton gIF_INDEX buf false ($"x") c true eq_refl Hc)
    as (s & c3 & cse & out & E & Hb & Hout).
  rewrite (vloop_directive _ _ _ _ _ _ _ _ _ _ _ _ _ _ _ (E [])). cbn [app]. case_decide as Hs.
  - subst s. destruct (Hout eq_refl) as (v & -> & _).
    rewrite (vloop_directive_longer _ _ _ buf more loaded _ _ c true _ _ c3 cse [AInt v]) by done.
    cbn [app].
    destruct (vfmatch_loop _ _ _ buf _ _ _ _ _ _) as [[[s4 c4] o4] x4| | |] eqn:E4; try done.
    destruct (vfmatch_loop _ _ _ (buf ++ more) _ _ _ _ _ _) as [[[s5 c5] o5] x5| | |] eqn:E5; try done.
    intros [= -> _ <- ->] [= -> _ <- ->].
    apply vloop_outs in E4 as [l ->]; [|done|lia]. apply vloop_outs in E5 as [l2 ->]; [|done|lia].
    right. by exists v, l, l2.
  - intros [= -> _ <-] _. left. specialize (E []).
    unfold match_directive in E. cbn [Z.eqb Pos.eqb orb] in E. unfold mbind, M_bind in E.
    destruct (match_int buf false c 16) as [[[s4 c4] n]|] eqn:Em; [|done].
    cbn [liftO] in E. injection E as -> _ _ <-. unfold match_int in Em.
    destruct (scanner_get_token _ _ _) as [[t ty ?|?]|]; try done; cbn [mbind option_bind] in Em.
    + destruct ty; try done. by destruct (token_to_long _ _ _) as [[] ?].
    + injection Em as _ _ <-. done.
Qed.

Lemma match_msg_vfmatch p fmt s c outs :
  match_msg p fmt [] = Ret (s, set_cursor c p, outs) [] <->
  vfmatch getaddrinfo inet_pton gIF_INDEX (p_buf p) (p_entire_msg_loaded p) fmt (p_cursor p) []
  = Ret (s, c, outs) [].
Proof.
  unfold HttpParser.match_msg, mbind, M_bind.
  destruct (vfmatch _ _ _ _ _ _ _ _) as [[[s1 c1] o1] o2| | |]; try done. cbn. split.
  - intros [= -> E -> ->]. by rewrite E.
  - by intros [= -> -> -> ->].
Qed.

Definition chunk_next (q : http_parser_t) : parse_status_t * http_parser_t :=
  (PARSE_CONTINUE_1,
   if p_chunk_size q =? 0 then
     set_ent_position ENTREAD_CHUNKY_HEADERS
       (on_msg (set_entity_length (to_size (p_cursor q - p_entity_start_position q
                                            + m_amount_discarded (p_msg q)))) q)
   else set_ent_position ENTREAD_CHUNKY_BODY q).

Lemma chunky_entity_unfold q s c outs :
  p_ent_position q = ENTREAD_USING_CHUNKED ->
  match_msg q FMT_CHUNK [] = Ret (s, set_cursor c q, outs) [] ->
  chunky_entity q []
  = if decide (s = PARSE_OK) then
      (q2 ← delete_msg junk (set_chunk_size (chunk_out (p_chunk_size q) outs) (set_cursor c q))
              (p_cursor q);
       mret (chunk_next q2)) []
    else Ret (s, set_cursor (p_cursor q)
                   (set_chunk_size (chunk_out (p_chunk_size q) outs) (set_cursor c q))) [].
Proof.
  intros He E. unfold parser_parse_chunky_entity.
  rewrite (bind_ret_at _ _ _ tt []) by (unfold assertM; by rewrite He).
  rewrite (bind_ret_at _ _ _ _ _ E). cbv beta iota zeta.
  replace (match outs with AInt v :: _ => _ | _ => set_cursor c q end)
    with (set_chunk_size (chunk_out (p_chunk_size q) outs) (set_cursor c q))
    by (destruct q; by destruct outs as [|[]]).
  case_decide as Hs; [rewrite bool_decide_true by done|rewrite bool_decide_false by done]; done.
Qed.

Lemma chunky_entity_resumes p :
  parser_inv p -> p_position p = POS_ENTITY -> p_ent_position p = ENTREAD_USING_CHUNKED ->
  resumes chunky_entity p.
Proof.
  intros Hp Hpos He more b Hb. pose proof (inv_with_buf _ _ _ Hp Hb) as Hpb.
  pose proof (pi_chunk p Hp) as Hch. pose proof (pi_cursor p Hp) as Hcur.
  rewrite <- zlen_p_buf in Hcur by done.
  destruct (match_more p FMT_CHUNK) as (s1 & c1 & o1 & E1 & B1 & N1 & M1 & S1 & L1); [done|done|].
  rewrite (chunky_entity_unfold p s1 c1 o1 He (E1 [])).
  assert (s1 <> PARSE_INCOMPLETE \/ more = [] ->
    chunky_entity (with_buf b p) [] = if decide (s1 = PARSE_OK) then
      (q2 ← delete_msg junk (set_chunk_size (chunk_out (p_chunk_size p) o1)
              (set_cursor c1 (with_buf b p))) (p_cursor p); mret (chunk_next q2)) []
    else Ret (s1, set_cursor (p_cursor p)
           (set_chunk_size (chunk_out (p_chunk_size p) o1) (set_cursor c1 (with_buf b p)))) [])
    as Hlong by (intros Hs; exact (chunky_entity_unfold (with_buf b p) s1 c1 o1 He (L1 more b Hb Hs []))).
  assert (parser_inv (set_chunk_size (chunk_out (p_chunk_size p) o1) (set_cursor c1 p))) as Hp1.
  { apply inv_chunk_size; [by apply chunk_out_range|by apply inv_cursor]. }
  set (p1 := set_chunk_size (chunk_out (p_chunk_size p) o1) (set_cursor c1 p)) in *.
  case_decide as Hs.
  - rewrite (Hlong ltac:(left; by rewrite Hs)).
    destruct (delete_more more b p1 (p_cursor p) Hp1 Hb) as (b1 & b2 & D1 & D2 & W1 & C1 & W2 & C2);
      [change (0 <= p_cursor p <= c1); lia|].
    change (set_chunk_size (chunk_out (p_chunk_size p) o1) (set_cursor c1 (with_buf b p)))
      with (with_buf b p1).
    rewrite (bind_ret_at _ _ _ _ _ D1), (bind_ret_at _ _ _ _ _ D2).
    do 2 eexists. split; [done|]. split; [|by intros [?|?]]. intros _. exists b2. split.
    + unfold chunk_next.
      change (p_chunk_size (set_cursor (p_cursor p) (with_buf b2 p1))) with (p_chunk_size p1).
      change (p_chunk_size (set_cursor (p_cursor p) (with_buf b1 p1))) with (p_chunk_size p1).
      by destruct (p_chunk_size p1 =? 0).
    + split; [done|]. rewrite C2. f_equal. unfold chunk_next.
      change (p_chunk_size (set_cursor (p_cursor p) (with_buf b1 p1))) with (p_chunk_size p1).
      by destruct (p_chunk_size p1 =? 0).
  - do 2 eexists. split; [done|]. split.
    + intros Hg. apply goes_on_complete in Hg. exists b. by rewrite (Hlong Hg).
    + intros Hi. assert (s1 = PARSE_INCOMPLETE) as ->.
      { destruct Hi as [?| ->]; [done|]. by destruct S1 as [?|[?|[?|?]]]. }
      exists b. split; [done|]. left.
      destruct (match_more (with_buf b p) FMT_CHUNK) as (s2 & c2 & o2 & E2 & _); [done|done|].
      set (p2 := with_buf b (set_cursor (p_cursor p) p1)).
      assert (match_msg p2 FMT_CHUNK [] = Ret (s2, set_cursor c2 p2, o2) []) as E3.
      { apply match_msg_vfmatch. exact (proj1 (match_msg_vfmatch _ _ _ _ _) (E2 [])). }
      rewrite (chunky_entity_unfold (with_buf b p) s2 c2 o2 He (E2 [])).
      rewrite (chunky_entity_unfold p2 s2 c2 o2 He E3).
      assert (chunk_out (p_chunk_size p2) o2 = chunk_out (p_chunk_size p) o2) as Eo.
      { change (p_chunk_size p2) with (chunk_out (p_chunk_size p) o1).
        destruct Hb as [_ Hc].
        pose proof (proj1 (match_msg_vfmatch _ _ _ _ _) (E1 [])) as V1.
        pose proof (proj1 (match_msg_vfmatch _ _ _ _ _) (E2 [])) as V2.
        rewrite (pi_loaded p Hp) in V1. rewrite p_buf_with, Hc in V2.
        destruct (chunk_vfmatch_outs (p_buf p) more _ (p_cursor p) _ _ _ _ _ Hcur V1 V2)
          as [->|(v & l & l2 & -> & ->)]; [done|]. cbn [chunk_out]. apply store_int_twice. lia. }
      rewrite Eo. done.
Qed.

(** The end of the trailer: everything from [save] on is deleted. *)
Definition trailer_end (save : Z) (r : parse_status_t * http_parser_t)
    : M (parse_status_t * http_parser_t) :=
  let '(status, p) := r in
  if bool_decide (status = PARSE_OK) then
    p ← delete_msg junk (set_position POS_COMPLETE p) save;
    mret (PARSE_SUCCESS, on_msg (set_entity_buf (p_entity_start_position p)) p)
  else mret (status, p).

Lemma trailer_end_stop save s p : s <> PARSE_OK -> trailer_end save (s, p) = mret (s, p).
Proof. intros Hs. cbn. by rewrite bool_decide_false. Qed.

(** Bytes behind the entity do not show. *)
Lemma zslice_prefix {A} o n k (l r : list A) :
  0 <= o -> o + n <= k -> k <= zlen l -> zslice o n (ztake k l ++ r) = zslice o n l.
Proof.
  intros Ho Hn Hk. unfold zslice, ztake, zdrop, zlen in *.
  destruct (Z.le_gt_cases n 0) as [Hn0|Hn0].
  { replace (Z.to_nat n) with 0%nat by lia. done. }
  rewrite drop_app_le by (rewrite length_take; lia).
  rewrite take_app_le by (rewrite length_drop, length_take; lia).
  rewrite skipn_firstn_comm, take_take. f_equal. lia.
Qed.

(** Where the deletion starts behind the entity does not show either. *)
Lemma trailer_end_view p save1 save2 :
  parser_inv p -> 0 <= p_entity_start_position p ->
  p_entity_start_position p + bp_length (m_entity (p_msg p)) <= save1 ->
  p_entity_start_position p + bp_length (m_entity (p_msg p)) <= save2 ->
  0 <= save1 <= p_cursor p -> 0 <= save2 <= p_cursor p ->
  agree (trailer_end save1 (PARSE_OK, p) []) (trailer_end save2 (PARSE_OK, p) []).
Proof.
  intros Hp H0 H1 H2 H3 H4. cbn [trailer_end]. rewrite bool_decide_true by done.
  assert (parser_inv (set_position POS_COMPLETE p)) as Hc by (by apply inv_complete).
  pose proof (pi_cursor p Hp) as Hcur. rewrite <- zlen_p_buf in Hcur by done.
  destruct (delete_more [] _ _ save1 Hc (ext_self _ Hc) H3) as (b1 & _ & D1 & _ & _ & C1 & _).
  destruct (delete_more [] _ _ save2 Hc (ext_self _ Hc) H4) as (b2 & _ & D2 & _ & _ & C2 & _).
  rewrite (bind_ret_at _ _ _ _ _ D1), (bind_ret_at _ _ _ _ _ D2).
  right. do 3 eexists. split; [done|]. split; [done|]. split; [by intros [?|?]|].
  unfold view. f_equal.
  set (start := p_entity_start_position p). set (len := bp_length (m_entity (p_msg p))).
  unfold entity_text. change (zslice start len (contents b1) = zslice start len (contents b2)).
  change (p_buf (set_position POS_COMPLETE p)) with (p_buf p) in *.
  rewrite C1, C2, !zslice_prefix by (done || lia). done.
Qed.

Lemma trailer_end_more more b save s p :
  parser_inv p -> ext more b p -> 0 <= save <= p_cursor p -> exists s2 p2 b2,
  trailer_end save (s, p) [] = Ret (s2, p2) [] /\
  trailer_end save (s, with_buf b p) [] = Ret (s2, with_buf b2 p2) [] /\ ext more b2 p2.
Proof.
  intros Hp He Hs. destruct (decide (s = PARSE_OK)) as [->|Hne].
  2: { rewrite !trailer_end_stop by done. by exists s, p, b. }
  cbn [trailer_end]. rewrite bool_decide_true by done.
  assert (parser_inv (set_position POS_COMPLETE p)) as Hc by (by apply inv_complete).
  destruct (delete_more more b _ save Hc He Hs) as (b1 & b2 & D1 & D2 & W1 & C1 & W2 & C2).
  change (set_position POS_COMPLETE (with_buf b p)) with (with_buf b (set_position POS_COMPLETE p)).
  rewrite (bind_ret_at _ _ _ _ _ D1), (bind_ret_at _ _ _ _ _ D2).
  do 3 eexists. split; [done|]. split; [done|]. by split.
Qed.

Lemma chunky_headers_unfold q s p1 :
  parse_headers q [] = Ret (s, p1) [] ->
  chunky_headers q [] = trailer_end (p_cursor q) (s, p1) [].
Proof. intros E. unfold parser_parse_chunky_headers. by rewrite (bind_ret_at _ _ _ _ _ E). Qed.

Lemma chunky_headers_resumes p :
  parser_inv p -> p_position p = POS_ENTITY -> p_ent_position p = ENTREAD_CHUNKY_HEADERS ->
  resumes chunky_headers p.
Proof.
  intros Hp Hpos He more b Hb. pose proof (inv_with_buf _ _ _ Hp Hb) as Hpb.
  assert (reads_headers p) as Hr by (by right).
  assert (in_entity p) as Hin by (split; [done|by rewrite He]).
  pose proof (pi_entity p Hp Hin) as [Hs0 _]. pose proof (pi_trailer p Hp Hin He) as Ht.
  destruct (parse_headers_resumes p Hp Hr more b Hb) as (s & p1 & E & Hsame & Hinc).
  destruct (runs_lucky _ _ _ (parse_headers_runs Lucky junk getaddrinfo inet_pton gIF_INDEX p Hp Hr) E)
    as (Hp1 & Hf & Hn1 & Hn2 & Hn3 & Hn4). cbn [fst snd] in *.
  pose proof (hf_cursor _ _ Hf) as Hcur.
  destruct (trailer_end_more [] _ (p_cursor p) s p1 Hp1 (ext_self p1 Hp1)) as (s2 & p2 & _ & T & _);
    [lia|].
  exists s2, p2. split; [by rewrite (chunky_headers_unfold _ _ _ E)|]. split.
  - intros Hg. assert (goes_on s \/ more = []) as Hg1.
    { destruct Hg as [Hg| ->]; [left|by right].
      destruct (decide (s = PARSE_OK)) as [->|Hne]; [by left|].
      rewrite trailer_end_stop in T by done. by injection T as -> _. }
    destruct (Hsame Hg1) as (b1 & Eb & Hb1). rewrite (chunky_headers_unfold _ _ _ Eb).
    destruct (trailer_end_more more b1 (p_cursor p) s p1 Hp1 Hb1) as (s3 & p3 & b3 & T1 & T2 & T3);
      [lia|]. rewrite T in T1. injection T1 as <- <-. by exists b3.
  - intros Hi. assert (s <> PARSE_OK) as Hne.
    { intros ->. cbn [trailer_end] in T. rewrite bool_decide_true in T by done.
      unfold mbind, M_bind in T. destruct (delete_msg _ _ _ _) as [q o| | |]; try done.
      injection T as <- _ _. by destruct Hi. }
    rewrite trailer_end_stop in T by done. injection T as -> ->.
    destruct (Hinc Hi) as (b1 & Hb1 & Ha). exists b1. split; [done|].
    pose proof (inv_with_buf _ _ _ Hp1 Hb1) as Hq1.
    assert (reads_headers (with_buf b1 p2)) as Hrq.
    { unfold reads_headers. change (p_position (with_buf b1 p2)) with (p_position p2).
      change (p_ent_position (with_buf b1 p2)) with (p_ent_position p2).
      destruct Hi as [->| ->]; [|done]. by rewrite (Hn4 eq_refl), (hf_ent _ _ Hf). }
    assert (exists s3 q3, parse_headers (with_buf b1 p2) [] = Ret (s3, q3) [] /\
      headers_post (with_buf b1 p2) (s3, q3)) as (s3 & q3 & E3 & Hq3 & Hf3 & _).
    { pose proof (parse_headers_runs Lucky junk getaddrinfo inet_pton gIF_INDEX _ Hq1 Hrq [] eq_refl) as H.
      destruct (parse_headers (with_buf b1 p2) []) as [[s3 q3] o3|[]| |]; try done; [|by destruct H].
      destruct H as [H Ho]. cbn in Ho. subst o3. by exists s3, q3. }
    cbn [fst snd] in *. rewrite (chunky_headers_unfold _ _ _ E3).
    destruct Ha as [Ha|(s4 & q4 & q5 & E4 & E5 & Hs4 & Hv)].
    + rewrite E3 in Ha. rewrite (chunky_headers_unfold _ _ _ Ha).
      change (p_cursor (with_buf b p)) with (p_cursor p).
      change (p_cursor (with_buf b1 p2)) with (p_cursor p2).
      destruct (decide (s3 = PARSE_OK)) as [->|Hs3]; [|rewrite !trailer_end_stop by done; by left].
      destruct Hf, Hf3. change (p_cursor (with_buf b1 p2)) with (p_cursor p2) in *.
      change (p_entity_start_position (with_buf b1 p2)) with (p_entity_start_position p2) in *.
      change (m_entity (p_msg (with_buf b1 p2))) with (m_entity (p_msg p2)) in *.
      assert (p_entity_start_position q3 = p_entity_start_position p) by congruence.
      assert (m_entity (p_msg q3) = m_entity (p_msg p)) as Hent by congruence.
      apply trailer_end_view; rewrite ?Hent; done || lia.
    + rewrite E3 in E5. injection E5 as -> ->. rewrite (chunky_headers_unfold _ _ _ E4).
      rewrite !trailer_end_stop by (intros ->; by apply Hs4; left). right. by exists s4, q4, q5.
Qed.

Abbreviation estep := (entity_step junk getaddrinfo inet_pton gIF_INDEX).

Definition entity_state (p : http_parser_t) : Prop := parser_inv p /\ p_position p = POS_ENTITY.

Lemma entity_state_ext more b p : entity_state p -> ext more b p -> entity_state (with_buf b p).
Proof. intros [Hp Hpos] He. split; [by eapply inv_with_buf|exact Hpos]. Qed.

Lemma entity_step_post p s p1 :
  entity_state p -> estep p [] = Ret (s, p1) [] -> entity_post p (s, p1).
Proof.
  intros [Hp Hpos] E.
  exact (runs_lucky _ _ _ (entity_step_runs Lucky junk getaddrinfo inet_pton gIF_INDEX ltac:(done)
    p Hp Hpos) E).
Qed.

Lemma entity_step_resumes p : entity_state p -> resumes estep p.
Proof.
  intros Hst. pose proof Hst as [Hp Hpos]. pose proof (pi_method p Hp) as Hm.
  assert (forall e f, p_ent_position p = e ->
    (forall q, p_ent_position q = e -> estep q [] = f q []) -> resumes f p -> resumes estep p) as Hgo.
  { intros e f He Hf Hr.
    apply (resumes_ext (fun q => entity_state q /\ p_ent_position q = e) _ f); try done.
    - intros q [_ Hq]. by apply Hf.
    - intros more b q [Hq Hqe] Hb. split; [by eapply entity_state_ext|exact Hqe].
    - intros s p1 E Hi. destruct (entity_step_post p s p1 Hst E) as (H1 & _ & H2 & _).
      destruct (H2 Hi) as (H3 & H4 & _). cbn [fst snd] in *. split; [by split|congruence]. }
  assert (p_ent_position p = ENTREAD_DETERMINE_READ_METHOD \/ p_ent_position p = ENTREAD_USING_CLEN \/
    p_ent_position p = ENTREAD_USING_CHUNKED \/ p_ent_position p = ENTREAD_UNTIL_CLOSE \/
    p_ent_position p = ENTREAD_CHUNKY_BODY \/ p_ent_position p = ENTREAD_CHUNKY_HEADERS) as Hc.
  { unfold ENTREAD_USING_CLEN, ENTREAD_USING_CHUNKED, ENTREAD_CHUNKY_BODY, ENTREAD_CHUNKY_HEADERS,
      ENTREAD_UNTIL_CLOSE, ENTREAD_DETERMINE_READ_METHOD in *. lia. }
  destruct Hc as [He|[He|[He|[He|[He|He]]]]].
  - apply (Hgo _ read_method He); [|by apply read_method_resumes].
    intros q Hq. unfold entity_step. by rewrite Hq.
  - apply (Hgo _ clen He); [|by apply clen_resumes]. intros q Hq. unfold entity_step. by rewrite Hq.
  - apply (Hgo _ chunky_entity He); [|by apply chunky_entity_resumes].
    intros q Hq. unfold entity_step. by rewrite Hq.
  - apply (Hgo _ parser_parse_entity_until_close He); [|by apply until_close_resumes].
    intros q Hq. unfold entity_step. by rewrite Hq.
  - apply (Hgo _ chunky_body He); [|by apply chunky_body_resumes].
    intros q Hq. unfold entity_step. by rewrite Hq.
  - apply (Hgo _ chunky_headers He); [|by apply chunky_headers_resumes].
    intros q Hq. unfold entity_step. by rewrite Hq.
Qed.

Lemma entity_loop_rounds fuel p o :
  entity_loop junk getaddrinfo inet_pton gIF_INDEX fuel p o = rounds estep PARSE_CONTINUE_1 fuel p o.
Proof. done. Qed.

Lemma entity_step_next p s p1 :
  entity_state p -> estep p [] = Ret (s, p1) [] ->
  (s = PARSE_CONTINUE_1 -> entity_state p1 /\ (entity_measure p1 < entity_measure p)%nat) /\
  (incomplete s -> entity_state p1).
Proof.
  intros Hq E. destruct (entity_step_post p s p1 Hq E) as (H1 & _ & H2 & H3).
  cbn [fst snd] in *. split.
  - intros Hs. destruct (H3 Hs) as [H4 H5]. split; [by split|done].
  - intros Hi. destruct (H2 Hi) as [H4 _]. by split.
Qed.

Abbreviation parse_entity := (parser_parse_entity junk getaddrinfo inet_pton gIF_INDEX).

Lemma parse_entity_rounds q :
  entity_state q -> parse_entity q [] = rounds estep PARSE_CONTINUE_1 (entity_fuel q) q [].
Proof.
  intros [Hq Hqp]. unfold parser_parse_entity. rewrite (bind_ret_at _ _ _ tt []).
  - apply entity_loop_rounds.
  - unfold assertM. by rewrite bool_decide_true.
Qed.

Lemma parse_entity_incomplete p s p1 :
  entity_state p -> parse_entity p [] = Ret (s, p1) [] -> incomplete s -> entity_state p1.
Proof.
  intros Hp E Hi. rewrite parse_entity_rounds in E by done.
  eapply (rounds_incomplete estep PARSE_CONTINUE_1 entity_state entity_measure);
    [..|exact E|exact Hi];
    [by intros q [? _]|apply entity_step_next|apply entity_step_resumes|done].
Qed.

Lemma parse_entity_resumes p : entity_state p -> resumes parse_entity p.
Proof.
  intros Hp.
  apply (resumes_ext entity_state _ (fun p => rounds estep PARSE_CONTINUE_1 (entity_fuel p) p)).
  - apply parse_entity_rounds.
  - done.
  - apply entity_state_ext.
  - intros s p1. by apply parse_entity_incomplete.
  - apply (rounds_resumes estep PARSE_CONTINUE_1 entity_state entity_measure); try done.
    + by right.
    + by intros q [Hq _].
    + apply entity_state_ext.
    + apply entity_step_next.
    + apply entity_step_resumes.
    + intros q _. unfold entity_measure, entity_fuel. case_match; lia.
Qed.

(** ** The parser *)

Abbreviation pstep := (parse_step junk getaddrinfo inet_pton gIF_INDEX).
Abbreviation parse := (parser_parse junk getaddrinfo inet_pton gIF_INDEX).
Abbreviation append := (parser_append junk getaddrinfo inet_pton gIF_INDEX).

Definition parse_state (p : http_parser_t) : Prop :=
  parser_inv p /\ p_position p <> POS_COMPLETE.

Lemma parse_state_ext more b p : parse_state p -> ext more b p -> parse_state (with_buf b p).
Proof. intros [Hp Hpos] He. split; [by eapply inv_with_buf|exact Hpos]. Qed.

Lemma parse_step_next p s p1 :
  parse_state p -> pstep p [] = Ret (s, p1) [] ->
  (s = PARSE_OK -> parse_state p1 /\ (position_rank p1 < position_rank p)%nat) /\
  (incomplete s -> parse_state p1).
Proof.
  intros [Hp Hpos] E.
  destruct (runs_lucky _ _ _ (parse_step_runs Lucky junk getaddrinfo inet_pton gIF_INDEX ltac:(done)
    p Hp Hpos) E) as (H1 & H2 & H3 & H4 & _). cbn [fst snd] in *. split.
  - intros Hs. destruct (H4 Hs) as [H5 H6]. split; [by split|done].
  - intros Hi. split; [done|]. by apply H3.
Qed.

Lemma parse_step_resumes p : parse_state p -> resumes pstep p.
Proof.
  intros [Hp Hpos].
  assert (forall pos f, p_position p = pos ->
    (forall q, p_position q = pos -> pstep q [] = f q []) ->
    (forall s p1, f p [] = Ret (s, p1) [] -> incomplete s -> p_position p1 = pos) ->
    resumes f p -> resumes pstep p) as Hgo.
  { intros pos f He Hf Hi Hr.
    apply (resumes_ext (fun q => p_position q = pos) _ f); try done.
    intros s p1 E. rewrite Hf in E by done. by apply Hi. }
  destruct (p_position p) eqn:E; [| | | |done].
  - apply (Hgo _ requestline eq_refl); [by intros q Hq; unfold parse_step; rewrite Hq| |
      by apply requestline_resumes].
    intros s p1 E1 Hi. destruct (runs_lucky _ _ _ (requestline_runs Lucky junk getaddrinfo inet_pton
      gIF_INDEX p Hp E) E1) as (_ & _ & H1 & _ & H2). destruct Hi; auto. done.
  - apply (Hgo _ responseline eq_refl); [by intros q Hq; unfold parse_step; rewrite Hq| |
      by apply responseline_resumes].
    intros s p1 E1 Hi. destruct (runs_lucky _ _ _ (responseline_runs Lucky junk getaddrinfo inet_pton
      gIF_INDEX p Hp E) E1) as (_ & _ & H1 & _ & H2). destruct Hi; auto. done.
  - assert (reads_headers p) as Hr by (by left).
    apply (Hgo _ parse_headers eq_refl); [by intros q Hq; unfold parse_step; rewrite Hq| |
      by apply parse_headers_resumes].
    intros s p1 E1 Hi. destruct (runs_lucky _ _ _ (parse_headers_runs Lucky junk getaddrinfo inet_pton
      gIF_INDEX p Hp Hr) E1) as (_ & _ & _ & H1 & _ & H2). cbn [fst snd] in *.
    destruct Hi as [Hi| ->]; [by rewrite (H2 Hi)|done].
  - apply (Hgo _ parse_entity eq_refl); [by intros q Hq; unfold parse_step; rewrite Hq| |
      by apply parse_entity_resumes].
    intros s p1 E1 Hi. by destruct (parse_entity_incomplete p s p1 (conj Hp E) E1 Hi).
Qed.

Lemma parser_parse_resumes p : parse_state p -> resumes parse p.
Proof.
  intros Hp.
  apply (rounds_resumes pstep PARSE_OK parse_state position_rank) with (fuel := fun _ => 4%nat); try done.
  - by left.
  - by intros q [? _].
  - apply parse_state_ext.
  - apply parse_step_next.
  - apply parse_step_resumes.
  - intros q _. unfold position_rank. case_match; lia.
Qed.

(** Parsing never makes the buffer longer. *)
Lemma entity_step_shrinks n p s p1 :
  entity_state p /\ zlen (p_buf p) <= n -> estep p [] = Ret (s, p1) [] ->
  (s = PARSE_CONTINUE_1 -> (entity_state p1 /\ zlen (p_buf p1) <= n) /\
     (entity_measure p1 < entity_measure p)%nat) /\
  (incomplete s -> entity_state p1 /\ zlen (p_buf p1) <= n).
Proof.
  intros [Hq Hn] E. destruct (entity_step_next p s p1 Hq E) as [N1 N2].
  destruct (entity_step_post p s p1 Hq E) as (_ & _ & H2 & _). cbn [fst snd] in *. split.
  - intros Hs. destruct (N1 Hs) as [Hst Hm]. split; [split; [done|]|done].
    unfold entity_measure in Hm. unfold zlen in *. repeat case_match; lia.
  - intros Hi. destruct (H2 Hi) as (_ & _ & -> & _). auto.
Qed.

Lemma parse_entity_shrinks p s p1 :
  entity_state p -> parse_entity p [] = Ret (s, p1) [] -> incomplete s ->
  zlen (p_buf p1) <= zlen (p_buf p).
Proof.
  intros Hp E Hi. rewrite parse_entity_rounds in E by done.
  eapply (rounds_incomplete estep PARSE_CONTINUE_1
    (fun q => entity_state q /\ zlen (p_buf q) <= zlen (p_buf p)) entity_measure);
    [..|exact E|exact Hi];
    [by intros q [[? _] _]|apply entity_step_shrinks|by intros q [? _]; apply entity_step_resumes|done].
Qed.

Lemma parse_step_shrinks p s p1 :
  parse_state p -> pstep p [] = Ret (s, p1) [] -> s = PARSE_OK \/ incomplete s ->
  zlen (p_buf p1) <= zlen (p_buf p).
Proof.
  intros [Hp Hpos] E Hs. unfold parse_step in E. destruct (p_position p) eqn:Ep; [| | | |done].
  - destruct (requestline_cases p s p1 Hp Ep E) as [Hb _]. unfold p_buf. by rewrite Hb.
  - destruct (responseline_cases p s p1 Hp Ep E) as [Hb _]. unfold p_buf. by rewrite Hb.
  - assert (reads_headers p) as Hr by (by left).
    destruct (runs_lucky _ _ _ (parse_headers_runs Lucky junk getaddrinfo inet_pton
      gIF_INDEX p Hp Hr) E) as (_ & Hf & _). cbn [snd] in Hf.
    by rewrite (frame_buf _ _ Hf).
  - destruct Hs as [->|Hs]; [|by apply (parse_entity_shrinks p s p1)].
    by destruct (runs_lucky _ _ _ (parse_entity_runs Lucky junk getaddrinfo inet_pton
      gIF_INDEX ltac:(done) p Hp Ep) E) as (_ & H & _).
Qed.

Lemma parse_shrinks p s p1 :
  parse_state p -> parse p [] = Ret (s, p1) [] -> incomplete s ->
  parse_state p1 /\ zlen (p_buf p1) <= zlen (p_buf p).
Proof.
  intros Hp E Hi. change (rounds pstep PARSE_OK 4 p [] = Ret (s, p1) []) in E.
  eapply (rounds_incomplete pstep PARSE_OK
    (fun q => parse_state q /\ zlen (p_buf q) <= zlen (p_buf p)) position_rank);
    [..|exact E|exact Hi]; [by intros q [[? _] _]| |by intros q [? _]; apply parse_step_resumes|done].
  intros q s2 q1 [Hq Hn] E2. destruct (parse_step_next q s2 q1 Hq E2) as [N1 N2].
  pose proof (parse_step_shrinks q s2 q1 Hq E2) as Hsh. split.
  - intros H. destruct (N1 H) as [H1 H2]. specialize (Hsh (or_introl H)). split; [|done].
    split; [done|lia].
  - intros H. specialize (Hsh (or_intror H)). split; [by apply N2|lia].
Qed.

Lemma append_unfold p data :
  parse_state p -> msg_length p + zlen data <= MB_MAX -> exists b,
  append p data (zlen data) [] = parse (with_buf b p) [] /\ ext data b p.
Proof.
  intros [Hp _] Hmax.
  pose proof (append_runs junk Lucky (m_msg_buf (p_msg p)) data (pi_buf p Hp) Hmax [] eq_refl) as H.
  unfold parser_append. unfold mbind, M_bind.
  destruct (membuffer_append _ _ _ _ []) as [[rc b] o|[]| |]; try done; [|by destruct H].
  destruct H as [[(-> & Hw & Hc & _)|[? _]] Ho]; [|done]. cbn in Ho. subst o.
  exists b. split; [done|]. by split.
Qed.

(** Two pieces at once, or one after the other. *)
Lemma append_pieces p a c s p1 :
  parse_state p -> msg_length p + zlen a + zlen c <= MB_MAX ->
  append p a (zlen a) [] = Ret (s, p1) [] -> incomplete s ->
  msg_length p1 + zlen c <= MB_MAX ->
  same_view (append p (a ++ c) (zlen (a ++ c)) []) (append p1 c (zlen c) []).
Proof.
  intros Hp Hmax E Hi Hmax1. pose proof (zlen_nonneg a). pose proof (zlen_nonneg c).
  destruct (append_unfold p a Hp ltac:(lia)) as (ba & Ea & Ha). rewrite Ea in E.
  destruct (append_unfold p (a ++ c) Hp ltac:(rewrite zlen_app; lia)) as (b2 & E2 & [W2 C2]).
  rewrite E2. pose proof (parse_state_ext _ _ _ Hp Ha) as Hpa.
  assert (ext c b2 (with_buf ba p)) as Hb2.
  { split; [done|]. destruct Ha as [_ Ha]. by rewrite p_buf_with, Ha, C2, <- app_assoc. }
  destruct (parser_parse_resumes _ Hpa c b2 Hb2) as (s2 & p2 & E3 & _ & Hinc).
  rewrite E in E3. injection E3 as <- <-.
  destruct (Hinc Hi) as (b1 & Hb1 & Hag).
  change (with_buf b2 (with_buf ba p)) with (with_buf b2 p) in Hag.
  assert (parse_state p1) as Hp1.
  { destruct Hpa as [Hpa Hpos]. destruct (runs_lucky _ _ _ (parser_parse_runs Lucky junk getaddrinfo
      inet_pton gIF_INDEX ltac:(done) _ Hpa Hpos) E) as (H1 & _ & _ & H2). split; [done|by apply H2]. }
  destruct (append_unfold p1 c Hp1 Hmax1) as (b3 & E4 & [W3 C3]). rewrite E4.
  pose proof (parse_state_ext _ _ _ Hp1 Hb1) as Hq1.
  assert (ext [] b3 (with_buf b1 p1)) as Hb3.
  { split; [done|]. destruct Hb1 as [_ Hb1]. by rewrite p_buf_with, Hb1, C3, app_nil_r. }
  destruct (parser_parse_resumes _ Hq1 [] b3 Hb3) as (s5 & p5 & E5 & Hsame & _).
  destruct (Hsame (or_intror eq_refl)) as (b6 & E6 & Hb6).
  change (with_buf b3 (with_buf b1 p1)) with (with_buf b3 p1) in E6. rewrite E6.
  assert (parser_inv p5) as Hp5.
  { destruct Hq1 as [Hq1 Hpos]. by destruct (runs_lucky _ _ _ (parser_parse_runs Lucky junk getaddrinfo
      inet_pton gIF_INDEX ltac:(done) _ Hq1 Hpos) E5) as (H1 & _). }
  pose proof (view_ext b6 p5 Hp5 Hb6) as Hv.
  destruct Hag as [Hag|(s7 & p7 & p8 & E7 & E8 & _ & Hv7)].
  - rewrite Hag, E5. by exists s5, p5, (with_buf b6 p5).
  - rewrite E5 in E8. injection E8 as -> ->. rewrite E7. exists s7, p7, (with_buf b6 p8).
    split; [done|]. split; [done|]. by rewrite Hv, Hv7.
Qed.

(** Feeding pieces while the parser asks for more. *)
Inductive fed : http_parser_t -> list (list Z) -> http_parser_t -> Prop :=
| fed_nil p : fed p [] p
| fed_cons p x xs s p1 q :
    append p x (zlen x) [] = Ret (s, p1) [] -> incomplete s -> fed p1 xs q -> fed p (x :: xs) q.

Lemma append_shrinks p x s p1 :
  parse_state p -> msg_length p + zlen x <= MB_MAX ->
  append p x (zlen x) [] = Ret (s, p1) [] -> incomplete s ->
  parse_state p1 /\ msg_length p1 <= msg_length p + zlen x.
Proof.
  intros Hp Hmax E Hi. destruct (append_unfold p x Hp Hmax) as (b & Eb & Hb). rewrite Eb in E.
  pose proof (parse_state_ext _ _ _ Hp Hb) as Hpb.
  destruct (parse_shrinks _ s p1 Hpb E Hi) as [Hp1 Hl]. split; [done|].
  pose proof (ext_zlen _ _ _ (proj1 Hp) Hb) as Hlb.
  rewrite (zlen_p_buf p1), (zlen_p_buf (with_buf b p)) in Hl by (apply Hp1 || apply Hpb).
  fold (msg_length p1) in Hl. change (m_msg_buf (p_msg (with_buf b p))) with b in Hl. lia.
Qed.

Lemma same_view_trans r1 r2 r3 : same_view r1 r2 -> same_view r2 r3 -> same_view r1 r3.
Proof.
  intros (s & p1 & p2 & -> & -> & V1) (s' & p2' & p3 & [= <- <-] & -> & V2).
  exists s, p1, p3. split; [done|]. split; [done|]. congruence.
Qed.

Lemma append_total p x :
  parse_state p -> msg_length p + zlen x <= MB_MAX ->
  same_view (append p x (zlen x) []) (append p x (zlen x) []).
Proof.
  intros [Hp Hpos] Hmax.
  pose proof (parser_append_runs Lucky junk getaddrinfo inet_pton gIF_INDEX ltac:(done) p x Hp Hpos
    Hmax [] eq_refl) as H.
  destruct (append p x (zlen x) []) as [[s p1] o|[]| |]; try done; [|by destruct H]. destruct H as [_ Ho].
  cbn in Ho. subst o. by exists s, p1, p1.
Qed.

Lemma fed_same_view p xs q c :
  fed p xs q -> parse_state p -> msg_length p + zlen (concat xs ++ c) <= MB_MAX ->
  same_view (append p (concat xs ++ c) (zlen (concat xs ++ c)) []) (append q c (zlen c) []).
Proof.
  induction 1 as [p|p x xs s p1 q E Hi _ IH]; intros Hp Hmax; cbn [concat] in *.
  - by apply append_total.
  - rewrite <- app_assoc in *. rewrite zlen_app in Hmax.
    pose proof (zlen_nonneg (concat xs ++ c)).
    destruct (append_shrinks p x s p1 Hp ltac:(lia) E Hi) as [Hp1 Hl].
    eapply same_view_trans; [|apply IH; [done|lia]].
    apply (append_pieces p x (concat xs ++ c) s p1); done || lia.
Qed.
End Resume.

(** ** Properties *)

(** C1: the parser is incremental: however a message is cut into pieces, if
    the parser asks for more data after each of the pieces [xs], then what it
    reports on the next piece [c] is what it reports when all the bytes arrive
    at once: the same status, method, URI, versions, status code, headers,
    read method, and text of the entity, with chunks decoded. *)
Theorem parser_append_incremental junk getaddrinfo inet_pton gIF_INDEX p xs q c :
  parser_inv p -> p_position p <> POS_COMPLETE ->
  msg_length p + zlen (concat xs ++ c) <= MB_MAX ->
  fed junk getaddrinfo inet_pton gIF_INDEX p xs q ->
  same_view
    (parser_append junk getaddrinfo inet_pton gIF_INDEX p (concat xs ++ c) (zlen (concat xs ++ c)) [])
    (parser_append junk getaddrinfo inet_pton gIF_INDEX q c (zlen c) []).
Proof. intros Hp Hpos Hmax Hf. by apply fed_same_view. Qed.

Lemma parser_append_incremental_witness :
  exists q, fed 0 no_dns any_pton 0 parser_request_init
    [cs "NOTIFY /e HTTP/1.1" ++ [13]; [10] ++ cs "Host: h" ++ [13; 10];
     cs "Content-Length: 2" ++ [13; 10; 13; 10] ++ cs "o"] q /\
  let data := concat [cs "NOTIFY /e HTTP/1.1" ++ [13]; [10] ++ cs "Host: h" ++ [13; 10];
     cs "Content-Length: 2" ++ [13; 10; 13; 10] ++ cs "o"] ++ cs "k" in
  same_view (parser_append 0 no_dns any_pton 0 parser_request_init data (zlen data) [])
    (parser_append 0 no_dns any_pton 0 q (cs "k") (zlen (cs "k")) []).
Proof.
  assert (exists q, fed 0 no_dns any_pton 0 parser_request_init
    [cs "NOTIFY /e HTTP/1.1" ++ [13]; [10] ++ cs "Host: h" ++ [13; 10];
     cs "Content-Length: 2" ++ [13; 10; 13; 10] ++ cs "o"] q) as [q Hq].
  { eexists. eapply fed_cons; [vm_compute; reflexivity|by left|].
    eapply fed_cons; [vm_compute; reflexivity|by left|].
    eapply fed_cons; [vm_compute; reflexivity|by left|]. apply fed_nil. }
  exists q. split; [exact Hq|].
  apply (parser_append_incremental 0 no_dns any_pton 0 parser_request_init _ q (cs "k"));
    [|discriminate|vm_compute; discriminate|exact Hq].
  apply inv_position; [|reflexivity|discriminate|discriminate].
  apply inv_harmless; [|exact parser_init_inv]. repeat split.
Defined.
