(* ===== verification/Sock.v ===== *)
(** Sockets: [upnp/src/genlib/net/sock.c].

    A connection is what the system answers to the calls the code makes on it:
    the outcomes of the coming [select], [recv] and [send] calls, in order, the
    values of the coming calls of [time], and the bytes that were sent.  An
    exhausted list stands for success: [select] reports the socket ready,
    [recv] that the peer has closed, [send] takes all it is given.  A call that
    blocks for ever has no answer and is not represented. *)

From S2P Require Import Prelude CString MemBuffer Uri.

Definition UPNP_E_TIMEDOUT : Z := -207.
Definition UPNP_E_SOCKET_ERROR : Z := -208.
Definition INVALID_SOCKET : Z := -1.

(** ** Data *)

Inductive selected := Ready | TimedOut | Interrupted | SelectFailed.
(** [Bytes []]: the peer has closed the connection. *)
Inductive received := Bytes (d : list Z) | RecvFailed.

Record SOCKINFO := MkSock { so_socket : Z; so_foreign_sockaddr : sockaddr }.

Record net := MkNet {
  nt_select : list selected;
  nt_in : list received;
  nt_send : list Z;
  nt_clock : list Z;
  nt_out : list Z
}.

Definition set_select (l : list selected) (nt : net) : net :=
  MkNet l (nt_in nt) (nt_send nt) (nt_clock nt) (nt_out nt).
Definition set_in (l : list received) (nt : net) : net :=
  MkNet (nt_select nt) l (nt_send nt) (nt_clock nt) (nt_out nt).
Definition set_sent (answers out : list Z) (nt : net) : net :=
  MkNet (nt_select nt) (nt_in nt) answers (nt_clock nt) out.
Definition set_clock (l : list Z) (nt : net) : net :=
  MkNet (nt_select nt) (nt_in nt) (nt_send nt) l (nt_out nt).

(** ** System calls *)

(** [time(NULL)]. *)
Definition time (nt : net) : Z * net :=
  (default 0 (head (nt_clock nt)), set_clock (tail (nt_clock nt)) nt).

(** [recv] delivers at most [bufsize] bytes; the others stay in the stream. *)
Definition recv (nt : net) (bufsize : Z) : Z * list Z * net :=
  match nt_in nt with
  | [] => (0, [], nt)
  | RecvFailed :: l => (-1, [], set_in l nt)
  | Bytes d :: l =>
      let got := ztake bufsize d in
      (zlen got, got,
       set_in (if zlen d <=? bufsize then l else Bytes (zdrop bufsize d) :: l) nt)
  end.

(** [IN6_IS_ADDR_LINKLOCAL]: fe80::/10. *)
Definition is_linklocal (a : list Z) : bool :=
  (rd a 0 =? 254) && (Z.land (rd a 1) 192 =? 128).

(** ** Operations *)

(** The loop that calls [select] again when a signal has interrupted it. *)
Fixpoint select_loop (answers : list selected) : selected * list selected :=
  match answers with
  | [] => (Ready, [])
  | Interrupted :: answers' => select_loop answers'
  | r :: answers' => (r, answers')
  end.

(** [while (byte_left != 0)]: [d] is what is left; the result says whether
    everything was written. *)
Fixpoint send_loop (answers : list Z) (d out : list Z) : bool * list Z * list Z :=
  match d with
  | [] => (true, answers, out)
  | _ =>
      match answers with
      | [] => (true, [], out ++ d)
      | n :: answers' =>
          if n <? 0 then (false, answers', out)
          else send_loop answers' (zdrop n d) (out ++ ztake n d)
      end
  end.

(** The result, the bytes read, the time left and the connection.  [buffer]
    holds the bytes to be sent. *)
Definition sock_read_write (nt : net) (buffer : list Z) (bufsize timeoutSecs : Z)
    (bRead : bool) : Z * list Z * Z * net :=
  let '(start_time, nt) := time nt in
  let '(ready, answers) := select_loop (nt_select nt) in
  let nt := set_select answers nt in
  let finish numBytes got nt :=
    if timeoutSecs =? 0 then (to_int numBytes, got, timeoutSecs, nt)
    else
      let '(now, nt) := time nt in
      (to_int numBytes, got, to_int (timeoutSecs - to_int (now - start_time)), nt) in
  match ready with
  | TimedOut => (UPNP_E_TIMEDOUT, [], timeoutSecs, nt)
  | SelectFailed | Interrupted => (UPNP_E_SOCKET_ERROR, [], timeoutSecs, nt)
  | Ready =>
      if bRead then
        let '(numBytes, got, nt) := recv nt bufsize in
        if numBytes <? 0 then (UPNP_E_SOCKET_ERROR, [], timeoutSecs, nt)
        else finish numBytes got nt
      else
        let '(ok, answers, out) := send_loop (nt_send nt) (ztake bufsize buffer) (nt_out nt) in
        let nt := set_sent answers out nt in
        if ok : bool then finish bufsize [] nt else (-1, [], timeoutSecs, nt)
  end.

Definition sock_read (nt : net) (bufsize timeoutSecs : Z) : Z * list Z * Z * net :=
  sock_read_write nt [] bufsize timeoutSecs true.

Definition sock_write (nt : net) (buffer : list Z) (bufsize timeoutSecs : Z)
    : Z * Z * net :=
  let '(rc, _, timeoutSecs, nt) := sock_read_write nt buffer bufsize timeoutSecs false in
  (rc, timeoutSecs, nt).

Definition sock_init (sockfd : Z) : Z * SOCKINFO :=
  (UPNP_E_SUCCESS, MkSock sockfd no_addr).

Definition sock_init_with_ip (sockfd : Z) (foreign_sockaddr : sockaddr) : Z * SOCKINFO :=
  let '(ret, info) := sock_init sockfd in
  if negb (ret =? UPNP_E_SUCCESS) then (ret, info)
  else (UPNP_E_SUCCESS, MkSock (so_socket info) foreign_sockaddr).

(** [close_rc] is the answer of [close]. *)
Definition sock_close (close_rc sock : Z) : Z :=
  if sock =? INVALID_SOCKET then -1 else close_rc.

(** The answer of [shutdown] is only logged. *)
Definition sock_destroy (close_rc : Z) (info : SOCKINFO) : Z * SOCKINFO :=
  if so_socket info =? INVALID_SOCKET then (UPNP_E_SUCCESS, info)
  else
    (if sock_close close_rc (so_socket info) =? -1 then UPNP_E_SOCKET_ERROR else UPNP_E_SUCCESS,
     MkSock INVALID_SOCKET (so_foreign_sockaddr info)).

(** ** What a connection delivers *)

(** The bytes that are still to be received. *)
Definition incoming (nt : net) : list Z :=
  concat ((fun r => match r with Bytes d => d | RecvFailed => [] end) <$> nt_in nt).

(** A measure of the receives that are left. *)
Definition recv_fuel (nt : net) : nat := S (length (nt_in nt) + length (incoming nt)).

(** ** What the next read meets *)

(** [select] answers [r] in the end, after signals. *)
Definition polls (l : list selected) (r : selected) (l' : list selected) : Prop :=
  exists k, (l = replicate k Interrupted ++ r :: l' /\ r <> Interrupted) \/
    (l = replicate k Interrupted /\ r = Ready /\ l' = []).

Definition peer_closed (nt : net) : Prop :=
  (exists l', polls (nt_select nt) Ready l') /\
  (nt_in nt = [] \/ exists l, nt_in nt = Bytes [] :: l).
Definition times_out (nt : net) : Prop := exists l', polls (nt_select nt) TimedOut l'.
Definition socket_fails (nt : net) : Prop :=
  (exists l', polls (nt_select nt) SelectFailed l') \/
  ((exists l', polls (nt_select nt) Ready l') /\ exists l, nt_in nt = RecvFailed :: l).

(** A piece [got] of the stream is delivered. *)
Definition delivers (nt : net) (got : list Z) (nt' : net) : Prop :=
  exists rest l, polls (nt_select nt) Ready (nt_select nt') /\
    nt_in nt = Bytes (got ++ rest) :: l /\ got <> [] /\
    nt_in nt' = (if rest is [] then l else Bytes rest :: l) /\ nt_out nt' = nt_out nt.

(** The connection delivers [data], in pieces, and is then in the state
    [nt']. *)
Inductive pieces : net -> list Z -> net -> Prop :=
| no_piece nt : pieces nt [] nt
| one_more nt got nt1 data nt' : delivers nt got nt1 -> pieces nt1 data nt' -> pieces nt (got ++ data) nt'.

(** ** Lemmas *)

Lemma select_loop_polls l r l' : select_loop l = (r, l') -> polls l r l'.
Proof.
  revert r l'. induction l as [|a l IH]; cbn; intros r l' E.
  - injection E as <- <-. exists 0%nat. by right.
  - destruct a; try (injection E as <- <-; exists 0%nat; by left).
    destruct (IH _ _ E) as (k & [[-> Hr]|(-> & -> & ->)]); exists (S k); [by left|by right].
Qed.

Lemma select_loop_answer l r l' : select_loop l = (r, l') -> r <> Interrupted.
Proof.
  revert r l'. induction l as [|[] l IH]; cbn; intros r l' E; simplify_eq; try done. by eapply IH.
Qed.

(** A read returns the next bytes of the stream and takes them off it, or
    nothing; a positive result comes with progress. *)
Lemma sock_read_spec nt bufsize timeoutSecs rc got t nt' :
  0 < bufsize -> zlen (incoming nt) <= INT_MAX ->
  sock_read nt bufsize timeoutSecs = (rc, got, t, nt') ->
  incoming nt = got ++ incoming nt' /\ nt_out nt' = nt_out nt /\
  nt_send nt' = nt_send nt /\
  (0 < rc -> rc = zlen got /\ (recv_fuel nt' < recv_fuel nt)%nat) /\
  (rc <= 0 -> got = []) /\
  (rc < 0 -> rc = UPNP_E_TIMEDOUT \/ rc = UPNP_E_SOCKET_ERROR).
Proof.
  intros Hb Hmax. unfold sock_read, sock_read_write, time.
  destruct (select_loop _) as [r l] eqn:Es. unfold recv.
  set (nt0 := set_select _ _).
  assert (incoming nt0 = incoming nt /\ nt_in nt0 = nt_in nt /\ nt_out nt0 = nt_out nt /\
    nt_send nt0 = nt_send nt) as (I1 & I2 & I3 & I4) by done.
  clearbody nt0. intros E. apply select_loop_answer in Es.
  destruct r; [|simplify_eq; split_and!; auto; unfold UPNP_E_TIMEDOUT, UPNP_E_SOCKET_ERROR in *; lia..].
  destruct (nt_in nt0) as [|[d|] ins] eqn:Ein.
  - change (0 <? 0) with false in E. cbn iota in E.
    destruct (timeoutSecs =? 0); simplify_eq/=; rewrite (to_int_small 0) by (unfold INT_MAX; lia);
      split_and!; done || lia.
  - assert (0 <= zlen (ztake bufsize d) <= INT_MAX) as Hl.
    { rewrite <- I1 in Hmax. unfold incoming in Hmax. rewrite Ein in Hmax. cbn in Hmax.
      unfold zlen, ztake in *. rewrite length_app in Hmax. rewrite length_take. lia. }
    rewrite (proj2 (Z.ltb_ge (zlen (ztake bufsize d)) 0)) in E by lia.
    assert (exists nt2, nt2 = set_in (if zlen d <=? bufsize then ins else Bytes (zdrop bufsize d) :: ins) nt0
      /\ incoming nt' = incoming nt2 /\ nt_in nt' = nt_in nt2 /\ nt_out nt' = nt_out nt0 /\
      nt_send nt' = nt_send nt0 /\ rc = zlen (ztake bufsize d) /\ got = ztake bufsize d)
      as (nt2 & E2 & J1 & J2 & J3 & J4 & -> & ->).
    { eexists. split; [done|]. rewrite (to_int_small (zlen (ztake bufsize d))) in E by lia.
      destruct (timeoutSecs =? 0); by simplify_eq. }
    rewrite J1, J3, J4. unfold recv_fuel. rewrite J1, J2, <- I1, <- I2, <- Ein.
    assert (incoming nt0 = ztake bufsize d ++ incoming nt2 /\
      (0 < zlen (ztake bufsize d) -> (S (length (nt_in nt2) + length (incoming nt2)) <
        S (length (nt_in nt0) + length (incoming nt0)))%nat)) as [K1 K2].
    { unfold incoming. rewrite E2, Ein. destruct (Z.leb_spec (zlen d) bufsize); cbn.
      - rewrite ztake_all by done. split; [done|]. rewrite length_app. lia.
      - rewrite app_assoc, ztake_zdrop. split; [done|].
        rewrite !length_app. unfold zlen, ztake, zdrop. rewrite length_take, length_drop. lia. }
    rewrite K1. split; [done|]. split; [done|]. split; [done|].
    split; [intros Hp; split; [done|]; rewrite K1 in K2; by apply K2|]. split; [|lia].
    intros H. unfold zlen in *. destruct (ztake bufsize d); [done|]. cbn in *. lia.
  - change (-1 <? 0) with true in E. cbn iota in E. simplify_eq/=.
    assert (incoming nt0 = incoming (set_in ins nt0)) as K by (unfold incoming; by rewrite Ein).
    rewrite <- I1, K. split_and!; auto. unfold UPNP_E_SOCKET_ERROR. lia.
Qed.

(** A read answers by what it meets. *)
Lemma sock_read_meets nt bufsize timeoutSecs rc got t nt' :
  0 < bufsize -> zlen (incoming nt) <= INT_MAX ->
  sock_read nt bufsize timeoutSecs = (rc, got, t, nt') ->
  (0 < rc /\ delivers nt got nt') \/ (rc = 0 /\ peer_closed nt) \/
  (rc = UPNP_E_TIMEDOUT /\ times_out nt) \/ (rc = UPNP_E_SOCKET_ERROR /\ socket_fails nt).
Proof.
  intros Hb Hmax. unfold sock_read, sock_read_write, time, recv.
  destruct (select_loop _) as [r l] eqn:Es. apply select_loop_polls in Es.
  cbn [nt_in set_select set_clock nt_select] in *.
  destruct r; [|intros E; simplify_eq; right; right..].
  2: { left. split; [done|]. by exists l. }
  2: { destruct Es as (k & [[_ ?]|(_ & ? & _)]); done. }
  2: { right. split; [done|]. left. by exists l. }
  destruct (nt_in nt) as [|[d|] ins] eqn:Ein.
  - change (0 <? 0) with false. cbn iota. rewrite (to_int_small 0) by (unfold INT_MAX; lia).
    intros E. right. left. split; [by destruct (timeoutSecs =? 0); simplify_eq|].
    split; [by exists l|by left].
  - assert (0 <= zlen (ztake bufsize d) <= INT_MAX) as Hl.
    { unfold incoming in Hmax. rewrite Ein in Hmax. cbn in Hmax.
      unfold zlen, ztake in *. rewrite length_app in Hmax. rewrite length_take. lia. }
    rewrite (proj2 (Z.ltb_ge (zlen (ztake bufsize d)) 0)) by lia. rewrite (to_int_small (zlen _)) by lia.
    intros E. assert (rc = zlen (ztake bufsize d) /\ got = ztake bufsize d /\ nt_select nt' = l /\
      nt_in nt' = (if zlen d <=? bufsize then ins else Bytes (zdrop bufsize d) :: ins) /\ nt_out nt' = nt_out nt)
      as (-> & -> & J1 & J2 & J3) by (destruct (timeoutSecs =? 0); by simplify_eq).
    destruct d as [|c d].
    + right. left. unfold ztake. rewrite take_nil. split; [done|]. split; [by exists l|right; by exists ins].
    + left. assert (ztake bufsize (c :: d) <> []) as Hne.
      { unfold ztake. destruct (Z.to_nat bufsize) eqn:E2; [lia|done]. }
      split; [destruct (ztake bufsize (c :: d)); [done|]; rewrite zlen_cons; pose proof (zlen_nonneg l0); lia|].
      exists (zdrop bufsize (c :: d)), ins. rewrite J1, J2, J3, ztake_zdrop. split_and!; [done..| |done].
      destruct (Z.leb_spec (zlen (c :: d)) bufsize) as [H|H]; [by rewrite zdrop_all|].
      pose proof (zlen_zdrop bufsize (c :: d) ltac:(lia)) as Hz.
      destruct (zdrop bufsize (c :: d)); [change (zlen (@nil Z)) with 0 in Hz; lia|done].
  - change (-1 <? 0) with true. cbn iota. intros E. simplify_eq. right. right. right.
    split; [done|]. right. split; [by exists l|by exists ins].
Qed.

Lemma send_loop_spec answers d out ok answers' out' :
  send_loop answers d out = (ok, answers', out') ->
  exists sent rest, d = sent ++ rest /\ out' = out ++ sent /\ (ok = true -> rest = []).
Proof.
  revert d out. induction answers as [|n answers IH]; intros d out E; cbn in E.
  - destruct d as [|c d]; simplify_eq; [exists [], []|exists (c :: d), []];
      cbn; by rewrite ?app_nil_r.
  - destruct d as [|c d]; [simplify_eq; exists [], []; cbn; by rewrite app_nil_r|].
    destruct (n <? 0); [simplify_eq; exists [], (c :: d); cbn; by rewrite app_nil_r|].
    apply IH in E as (sent & rest & Hd & -> & Hr).
    exists (ztake n (c :: d) ++ sent), rest.
    rewrite <- app_assoc, <- Hd, ztake_zdrop, <- app_assoc. by split_and!.
Qed.

(** Writing sends a prefix of the buffer, all of it when the result is not
    negative, and leaves what is to be received alone. *)
Lemma sock_write_spec nt buffer timeoutSecs rc t nt' :
  zlen buffer <= INT_MAX ->
  sock_write nt buffer (zlen buffer) timeoutSecs = (rc, t, nt') ->
  nt_in nt' = nt_in nt /\ exists sent rest,
    buffer = sent ++ rest /\ nt_out nt' = nt_out nt ++ sent /\
    (0 <= rc -> rc = zlen buffer /\ rest = []) /\ - INT_MAX <= rc.
Proof.
  intros Hb. pose proof (zlen_nonneg buffer) as H0.
  unfold sock_write, sock_read_write, time. destruct (select_loop _) as [r l] eqn:Es.
  set (nt0 := set_select _ _). rewrite ztake_all by lia.
  assert (nt_in nt0 = nt_in nt /\ nt_out nt0 = nt_out nt) as [I1 I2] by done. clearbody nt0.
  intros E. destruct r; [|simplify_eq; split; [done|]; exists [], buffer;
    rewrite app_nil_r; split_and!; unfold UPNP_E_TIMEDOUT, UPNP_E_SOCKET_ERROR, INT_MAX; lia || done..].
  destruct (send_loop _ _ _) as [[ok answers] out] eqn:El.
  apply send_loop_spec in El as (sent & rest & Hd & Ho & Hr).
  destruct ok.
  - assert (rc = zlen buffer /\ nt_in nt' = nt_in nt /\ nt_out nt' = out) as (-> & J1 & J2).
    { rewrite (to_int_small (zlen buffer)) in E by lia.
      destruct (timeoutSecs =? 0); by simplify_eq. }
    split; [done|]. exists sent, rest. rewrite J2, Ho, I2. split_and!; auto; unfold INT_MAX; lia.
  - simplify_eq/=. split; [done|]. exists sent, rest. rewrite I2. split_and!; unfold INT_MAX; lia || done.
Qed.
