(* ===== verification/HttpMake.v ===== *)
(** Building HTTP messages: [http_MakeMessage] and its callers in
    [upnp/src/genlib/net/http/httpreadwrite.c].

    The variable arguments of a call are a list of tagged values; fetching one
    with another type than it was passed with is undefined.  A [char *] is the
    bytes from the pointer on. *)

From S2P Require Import Prelude CString MemBuffer StrIntMap HttpTables Uri.

Definition UPNP_E_INVALID_PARAM : Z := -101.
Definition UPNP_USING_CHUNKED : Z := -3.
Definition UPNP_UNTIL_CLOSE : Z := -4.
Definition WEB_SERVER_CONTENT_LANGUAGE : list Z := cs "".
(** A line break, as a literal. *)
Definition EOL : list Z := [13; 10].

(** ** Data *)

Record SendInstruction := MkInstr {
  IsVirtualFile : bool;
  IsChunkActive : bool;
  IsRangeActive : bool;
  IsTrailers : bool;
  RangeHeader : list Z;
  AcceptLanguageHeader : list Z;
  RangeOffset : Z;
  ReadSendSize : Z;
  RecvWriteSize : Z
}.

(** The fields of a [struct tm] the code reads. *)
Record tm := MkTm {
  tm_sec : Z; tm_min : Z; tm_hour : Z; tm_mday : Z; tm_mon : Z; tm_year : Z; tm_wday : Z
}.

Inductive arg :=
| AStr (s : option (list Z))
| ASize (n : Z)
| AInt (n : Z)
| AOff (n : Z)
| ATime (t : option Z)
| AUri (text : list Z) (u : uri_type)
| AInstr (i : SendInstruction)
| AExtra (l : option (list (option (list Z)))).

(** What handling one format character leads to: the next one, or the error
    handler with this code (0 for none). *)
Inductive made := Next (buf : membuffer) (args : list arg) | Failed (code : Z).

(** ** URLs *)

(** A URL after [http_FixUrl]; [fx_path] is the literal its path was replaced
    with.  The tokens of [fx_url] are offsets into the text of the URL. *)
Record fixed := MkFixed { fx_url : uri_type; fx_path : option (list Z) }.

Definition set_pathquery (t : token) (u : uri_type) : uri_type :=
  MkUri (u_type u) (u_scheme u) (u_path_type u) t (u_fragment u) (u_hostport u).

Definition http_FixUrl (text : list Z) (url : uri_type) : Z * fixed :=
  let same := MkFixed url None in
  if negb (token_string_casecmp (zdrop (tk_buff (u_scheme url)) text) (u_scheme url)
             (cs "http") =? 0)
  then (UPNP_E_INVALID_URL, same)
  else if tk_size (hp_text (u_hostport url)) =? 0 then (UPNP_E_INVALID_URL, same)
  else if tk_size (u_pathquery url) =? 0 then
    (UPNP_E_SUCCESS, MkFixed (set_pathquery (MkToken 0 1) url) (Some (cs "/")))
  else (UPNP_E_SUCCESS, same).

(** The pointer and size of the path and query, and of the host and port. *)
Definition path_ptr (text : list Z) (f : fixed) : memptr :=
  let t := u_pathquery (fx_url f) in
  Memptr (zdrop (tk_buff t) (default text (fx_path f))) (tk_size t).
Definition host_ptr (text : list Z) (f : fixed) : memptr :=
  let t := hp_text (u_hostport (fx_url f)) in
  Memptr (zdrop (tk_buff t) text) (tk_size t).

(** Offset and length of the host in a URL string. *)
Definition get_hoststr (url_str : list Z) : Z * option (Z * Z) :=
  match strstr url_str (cs "//") with
  | None => (UPNP_E_INVALID_URL, None)
  | Some i =>
      let start := i + 2 in
      let rest := zdrop start (c_str url_str) in
      let hostlen := span (fun c => negb (c =? $"/")) rest in
      (UPNP_E_SUCCESS, Some (start, hostlen))
  end.

Section HttpMake.
Context (junk : Z).
Context (getaddrinfo : list Z -> option (list sockaddr))
  (inet_pton : Z -> list Z -> option (list Z)) (gIF_INDEX : Z).
(** The system's name and release ([uname]), the version of the library, the
    broken-down time of a [time_t], the current time, and the state of the
    table of status codes. *)
Context (sysname release UPNP_VERSION_STRING : list Z).
Context (gmtime : Z -> option tm) (now : Z) (codes : statcodes).

Definition http_FixStrUrl (urlstr : list Z) (urlstrlen : Z) : option (Z * fixed) :=
  '(rc, url) ← parse_uri getaddrinfo inet_pton gIF_INDEX 0 urlstr urlstrlen;
  if negb (rc =? HTTP_SUCCESS) then Some (UPNP_E_INVALID_URL, MkFixed url None)
  else Some (http_FixUrl urlstr url).

(** The string stored in a buffer of [infoSize] characters. *)
Definition get_sdk_info (infoSize : Z) : list Z :=
  snd (snprintf infoSize
    (sysname ++ cs "/" ++ release ++ cs ", UPnP/1.0, Portable SDK for UPnP " ++
     cs "devices/" ++ UPNP_VERSION_STRING ++ EOL)).

(** ** [http_MakeMessage] *)

Definition TEMPBUF : Z := 200.
Definition weekday_str : list Z :=
  cs "Sun" ++ [0] ++ cs "Mon" ++ [0] ++ cs "Tue" ++ [0] ++ cs "Wed" ++ [0] ++
  cs "Thu" ++ [0] ++ cs "Fri" ++ [0] ++ cs "Sat" ++ [0].
Definition month_str : list Z :=
  cs "Jan" ++ [0] ++ cs "Feb" ++ [0] ++ cs "Mar" ++ [0] ++ cs "Apr" ++ [0] ++
  cs "May" ++ [0] ++ cs "Jun" ++ [0] ++ cs "Jul" ++ [0] ++ cs "Aug" ++ [0] ++
  cs "Sep" ++ [0] ++ cs "Oct" ++ [0] ++ cs "Nov" ++ [0] ++ cs "Dec" ++ [0].
(** The string at an offset of a literal. *)
Definition name_at (lit : list Z) (off : Z) : option (list Z) :=
  if (0 <=? off) && (off <? zlen lit) then Some (c_str (zdrop off lit)) else None.

Definition date_text (start_str end_str : list Z) (d : tm) : option (list Z) :=
  wday ← name_at weekday_str (tm_wday d * 4);
  mon ← name_at month_str (tm_mon d * 4);
  Some (start_str ++ wday ++ cs ", " ++ itoa2 (tm_mday d) ++ cs " " ++ mon ++ cs " " ++
        itoa (tm_year d + 1900) ++ cs " " ++ itoa2 (tm_hour d) ++ cs ":" ++
        itoa2 (tm_min d) ++ cs ":" ++ itoa2 (tm_sec d) ++ cs " GMT" ++ end_str).

(** [va_arg] with the type of a constructor. *)
Definition va_str (args : list arg) : option (option (list Z) * list arg) :=
  match args with AStr s :: args' => Some (s, args') | _ => None end.
Definition va_size (args : list arg) : option (Z * list arg) :=
  match args with ASize n :: args' => Some (n, args') | _ => None end.
Definition va_int (args : list arg) : option (Z * list arg) :=
  match args with AInt n :: args' => Some (n, args') | _ => None end.
Definition va_off (args : list arg) : option (Z * list arg) :=
  match args with AOff n :: args' => Some (n, args') | _ => None end.
Definition va_time (args : list arg) : option (option Z * list arg) :=
  match args with ATime t :: args' => Some (t, args') | _ => None end.
Definition va_uri (args : list arg) : option (list Z * uri_type * list arg) :=
  match args with AUri text u :: args' => Some (text, u, args') | _ => None end.
Definition va_instr (args : list arg) : option (SendInstruction * list arg) :=
  match args with AInstr i :: args' => Some (i, args') | _ => None end.
Definition va_extra (args : list arg) : option (option (list (option (list Z))) * list arg) :=
  match args with AExtra l :: args' => Some (l, args') | _ => None end.

(** Append [n] bytes and go on, or go to the error handler. *)
Definition put_bytes (buf : membuffer) (s : list Z) (n : Z) (args : list arg) : M made :=
  '(rc, buf) ← membuffer_append junk buf (Some s) n;
  mret (if rc =? 0 then Next buf args else Failed 0).
Definition put_text (buf : membuffer) (s : list Z) (args : list arg) : M made :=
  put_bytes buf s (strlen s) args.
(** Text formatted by [snprintf] into [tempbuf]. *)
Definition put_temp (buf : membuffer) (s : list Z) (args : list arg) : M made :=
  let '(rc, tempbuf) := snprintf TEMPBUF s in
  if TEMPBUF <=? rc then mret (Failed 0) else put_text buf tempbuf args.

Definition then_put (m : M made) (k : membuffer -> M made) : M made :=
  r ← m; match r with Next buf _ => k buf | Failed c => mret (Failed c) end.

(** The extra headers ['E'], each with its line break. *)
Fixpoint put_extra (buf : membuffer) (l : list (option (list Z))) (args : list arg) : M made :=
  match l with
  | [] => mret (Next buf args)
  | None :: l' => put_extra buf l' args
  | Some resp :: l' =>
      then_put (put_text buf resp args) (fun buf =>
      then_put (put_bytes buf EOL 2 args) (fun buf => put_extra buf l' args))
  end.

Section Make.
Context (http_major_version http_minor_version : Z).
(** [http_MakeMessage] itself, which the format characters below call. *)
Context (make : membuffer -> list Z -> list arg -> M (Z * membuffer)).

Definition nested (buf : membuffer) (fmt : list Z) (fmt_args args : list arg) : M made :=
  '(rc, buf) ← make buf fmt fmt_args;
  mret (if rc =? 0 then Next buf args else Failed 0).

Definition lit_arg (s : string) : arg := AStr (Some (cs s)).

Definition make_char (c : Z) (buf : membuffer) (args : list arg) : M made :=
  if c =? $"E" then
    '(head, args) ← liftO (va_extra args);
    match head with None => mret (Next buf args) | Some l => put_extra buf l args end
  else if c =? $"s" then
    '(s, args) ← liftO (va_str args);
    _ ← assertM (bool_decide (s <> None));
    s ← liftO s; put_text buf s args
  else if c =? $"K" then put_text buf (cs "TRANSFER-ENCODING: chunked" ++ EOL) args
  else if c =? $"G" then
    '(i, args) ← liftO (va_instr args); put_text buf (RangeHeader i) args
  else if c =? $"b" then
    '(s, args) ← liftO (va_str args);
    s ← liftO s;
    '(length, args) ← liftO (va_size args);
    put_bytes buf s length args
  else if c =? $"c" then put_bytes buf EOL 2 args
  else if c =? $"d" then
    '(num, args) ← liftO (va_int args); put_temp buf (utoa 10 (to_size num)) args
  else if c =? $"h" then
    '(bignum, args) ← liftO (va_off args); put_temp buf (itoa bignum) args
  else if (c =? $"t") || (c =? $"D") then
    '(loc_time, args) ← (if c =? $"D" then mret (Some now, args) else liftO (va_time args));
    _ ← assertM (bool_decide (loc_time <> None));
    loc_time ← liftO loc_time;
    match gmtime loc_time with
    | None => mret (Failed 0)
    | Some date =>
        s ← liftO (if c =? $"D" then date_text (cs "DATE: ") EOL date else date_text [] [] date);
        put_temp buf s args
    end
  else if c =? $"L" then
    '(i, args) ← liftO (va_instr args);
    if negb (bool_decide (c_str (AcceptLanguageHeader i) = []))
       && negb (bool_decide (WEB_SERVER_CONTENT_LANGUAGE = []))
    then nested buf (cs "ssc") [lit_arg "CONTENT-LANGUAGE: ";
                                AStr (Some WEB_SERVER_CONTENT_LANGUAGE)] args
    else mret (Next buf args)
  else if c =? $"C" then
    if (1 <? http_major_version) || ((http_major_version =? 1) && (http_minor_version =? 1))
    then put_text buf (cs "CONNECTION: close" ++ EOL) args
    else mret (Next buf args)
  else if c =? $"N" then
    '(bignum, args) ← liftO (va_off args);
    _ ← assertM (0 <=? bignum);
    then_put (nested buf (cs "shc") [lit_arg "CONTENT-LENGTH: "; AOff bignum] args) (fun buf =>
    nested buf (cs "sc") [lit_arg "Accept-Ranges: bytes"] args)
  else if (c =? $"S") || (c =? $"U") then
    nested buf (cs "ss")
      [lit_arg (if c =? $"S" then "SERVER: " else "USER-AGENT: ");
       AStr (Some (get_sdk_info TEMPBUF))] args
  else if c =? $"X" then
    '(s, args) ← liftO (va_str args);
    _ ← assertM (bool_decide (s <> None));
    s ← liftO s;
    then_put (put_text buf (cs "X-User-Agent: ") args) (fun buf => put_text buf s args)
  else if c =? $"R" then
    '(status_code, args) ← liftO (va_int args);
    _ ← assertM (0 <? status_code);
    let '(rc, tempbuf) := snprintf TEMPBUF
      (cs "HTTP/" ++ itoa http_major_version ++ cs "." ++ itoa http_minor_version ++ cs " " ++
       itoa status_code ++ cs " ") in
    let status_msg := fst (http_get_code_text codes status_code) in
    if TEMPBUF <=? rc then mret (Failed 0)
    else nested buf (cs "ssc") [AStr (Some tempbuf); AStr status_msg] args
  else if c =? $"B" then
    '(status_code, args) ← liftO (va_int args);
    status_msg ← liftO (fst (http_get_code_text codes status_code));
    let '(rc, tempbuf) := snprintf TEMPBUF
      (cs "<html><body><h1>" ++ itoa status_code ++ cs " " ++ c_str status_msg ++
       cs "</h1></body></html>") in
    if TEMPBUF <=? rc then mret (Failed 0)
    else
      nested buf (cs "NTcs") [AOff (strlen tempbuf); lit_arg "text/html"; AStr (Some tempbuf)] args
  else if c =? $"Q" then
    '(method, args) ← liftO (va_int args);
    method_str ← method_to_str method;
    '(url_str, args) ← liftO (va_str args);
    '(num, args) ← liftO (va_size args);
    nested buf (cs "ssbsdsdc")
      [AStr method_str; lit_arg " "; AStr url_str; ASize num; lit_arg " HTTP/";
       AInt http_major_version; lit_arg "."; AInt http_minor_version] args
  else if c =? $"q" then
    '(method, args) ← liftO (va_int args);
    '(text, uri_ptr, args) ← liftO (va_uri args);
    let '(rc, url) := http_FixUrl text uri_ptr in
    if negb (rc =? 0) then mret (Failed UPNP_E_INVALID_URL)
    else
      let path := path_ptr text url in
      let host := host_ptr text url in
      nested buf (cs "Qsbc")
        [AInt method; AStr (Some (mp_buf path)); ASize (mp_length path); lit_arg "HOST: ";
         AStr (Some (mp_buf host)); ASize (mp_length host)] args
  else if c =? $"T" then
    '(temp_str, args) ← liftO (va_str args);
    nested buf (cs "ssc") [lit_arg "CONTENT-TYPE: "; AStr temp_str] args
  else _ ← assertM false; mret (Next buf args).

(** [while ((c = *fmt++))], with the error handler. *)
Fixpoint make_loop (buf : membuffer) (fmt : list Z) (args : list arg) : M (Z * membuffer) :=
  match fmt with
  | [] => mret (0, buf)
  | c :: fmt' =>
      r ← make_char c buf args;
      match r with
      | Next buf args => make_loop buf fmt' args
      | Failed code =>
          mret (if code =? 0 then UPNP_E_OUTOF_MEMORY else code, membuffer_destroy buf)
      end
  end.
End Make.

(** The formats inside a format nest at most two deep (['q'] contains ['Q'],
    ['B'] contains ['N']), so three levels are enough. *)
Fixpoint make_depth (depth : nat) (major minor : Z) (buf : membuffer) (fmt : list Z)
    (args : list arg) : M (Z * membuffer) :=
  match depth with
  | O => running
  | S depth' => make_loop major minor (make_depth depth' major minor) buf fmt args
  end.

Definition http_MakeMessage (buf : membuffer) (major minor : Z) (fmt : string)
    (args : list arg) : M (Z * membuffer) :=
  make_depth 4 major minor buf (cs fmt) args.

Definition http_CalcResponseVersion (request_major_vers request_minor_vers : Z) : Z * Z :=
  if (1 <? request_major_vers) || ((request_major_vers =? 1) && (1 <=? request_minor_vers))
  then (1, 1) else (request_major_vers, request_minor_vers).

(** ** Requests *)

(** The part of a URL that names the host. *)
Definition host_of (url_str : list Z) (h : Z * Z) : list arg :=
  [AStr (Some (zdrop h.1 url_str)); ASize h.2].

(** [headers] are the request's own headers, [None] for the default ones.  The
    result has the request and the URL. *)
Definition MakeGenericMessage (method : Z) (url_str : list Z) (contentLength : Z)
    (contentType headers : option (list Z)) : M (Z * membuffer * fixed) :=
  '(ret_code, url) ← liftO (http_FixStrUrl url_str (strlen url_str));
  if negb (ret_code =? UPNP_E_SUCCESS) then mret (ret_code, membuffer_init, url)
  else
  let path := path_ptr url_str url in
  '(ret_code, request) ← http_MakeMessage membuffer_init 1 1 "Q"
    [AInt method; AStr (Some (mp_buf path)); ASize (mp_length path)];
  '(ret_code, request, stop) ←
    (if negb (ret_code =? 0) then mret (ret_code, request, false)
     else match headers with
     | Some s =>
         '(rc, request) ← http_MakeMessage request 1 1 "s" [AStr (Some s)];
         mret (rc, request, false)
     | None =>
         let '(rc, host) := get_hoststr url_str in
         match host with
         | None => mret (rc, request, true)
         | Some h =>
             '(rc, request) ← http_MakeMessage request 1 1 "sbcDCU"
               (lit_arg "HOST: " :: host_of url_str h);
             mret (rc, request, false)
         end
     end);
  if stop : bool then mret (ret_code, request, url)
  else
  '(ret_code, request) ←
    (match contentType with
     | Some ct =>
         if ret_code =? 0 then http_MakeMessage request 1 1 "T" [AStr (Some ct)]
         else mret (ret_code, request)
     | None => mret (ret_code, request)
     end);
  '(ret_code, request) ←
    (if negb (ret_code =? 0) then mret (ret_code, request)
     else if 0 <=? contentLength then http_MakeMessage request 1 1 "Nc" [AOff contentLength]
     else if contentLength =? UPNP_USING_CHUNKED then http_MakeMessage request 1 1 "Kc" []
     else if contentLength =? UPNP_UNTIL_CLOSE then http_MakeMessage request 1 1 "c" []
     else mret (UPNP_E_INVALID_PARAM, request));
  mret (if negb (ret_code =? 0) then (ret_code, membuffer_destroy request, url)
        else (UPNP_E_SUCCESS, request, url)).

(** [request] is the buffer the caller passes; it is left alone when the URL is
    refused. *)
Definition MakeGetMessageEx (url_str : list Z) (request : membuffer)
    (pRangeSpecifier : SendInstruction) : M (Z * membuffer * fixed) :=
  '(ret_code, url) ← liftO (http_FixStrUrl url_str (strlen url_str));
  if negb (ret_code =? UPNP_E_SUCCESS) then mret (ret_code, request, url)
  else
  let '(ret_code, host) := get_hoststr url_str in
  match host with
  | None => mret (ret_code, membuffer_init, url)
  | Some h =>
      let path := path_ptr url_str url in
      '(ret_code, request) ← http_MakeMessage membuffer_init 1 1 "QsbcGDCUc"
        ([AInt HTTPMETHOD_GET; AStr (Some (mp_buf path)); ASize (mp_length path);
          lit_arg "HOST: "] ++ host_of url_str h ++ [AInstr pRangeSpecifier]);
      mret (if negb (ret_code =? 0) then (ret_code, membuffer_destroy request, url)
            else (ret_code, request, url))
  end.

(** ** Specification

    The text a format stands for, written without the functions above: what each
    character adds, and the arguments it leaves.  [None] where the code stops at
    an assertion, reads a wrong argument or reports an error. *)

Definition line (s : list Z) : list Z := s ++ EOL.

(** The names of the methods. *)
Definition method_names : list (Z * list Z) := [
  (HTTPMETHOD_DELETE, cs "DELETE"); (HTTPMETHOD_GET, cs "GET"); (HTTPMETHOD_HEAD, cs "HEAD");
  (HTTPMETHOD_MPOST, cs "M-POST"); (HTTPMETHOD_MSEARCH, cs "M-SEARCH"); (HTTPMETHOD_NOTIFY, cs "NOTIFY");
  (HTTPMETHOD_POST, cs "POST"); (HTTPMETHOD_SUBSCRIBE, cs "SUBSCRIBE");
  (HTTPMETHOD_UNSUBSCRIBE, cs "UNSUBSCRIBE"); (HTTPMETHOD_PUT, cs "PUT")].
Definition method_name (method : Z) : option (list Z) :=
  snd <$> head (filter (fun p => p.1 = method) method_names).
Definition version_text (major minor : Z) : list Z := cs "HTTP/" ++ itoa major ++ cs "." ++ itoa minor.
Definition request_line (major minor : Z) (method path : list Z) : list Z :=
  line (method ++ cs " " ++ path ++ cs " " ++ version_text major minor).
Definition length_lines (n : Z) : list Z :=
  line (cs "CONTENT-LENGTH: " ++ itoa n) ++ line (cs "Accept-Ranges: bytes").
Definition body_text (code : Z) (ph : list Z) : list Z :=
  cs "<html><body><h1>" ++ itoa code ++ cs " " ++ ph ++ cs "</h1></body></html>".

(** Dates in the format of RFC 1123: "Sun, 06 Nov 1994 08:49:37 GMT". *)
Definition day_names : list (list Z) := cs <$> ["Sun"; "Mon"; "Tue"; "Wed"; "Thu"; "Fri"; "Sat"].
Definition month_names : list (list Z) :=
  cs <$> ["Jan"; "Feb"; "Mar"; "Apr"; "May"; "Jun"; "Jul"; "Aug"; "Sep"; "Oct"; "Nov"; "Dec"].
Definition two_digits (n : Z) : option (list Z) :=
  if (0 <=? n) && (n <=? 99) then Some [48 + n / 10; 48 + n mod 10] else None.
Definition rfc1123 (d : tm) : option (list Z) :=
  if (tm_wday d <? 0) || (tm_mon d <? 0) then None
  else
    wday ← day_names !! Z.to_nat (tm_wday d); mon ← month_names !! Z.to_nat (tm_mon d);
    mday ← two_digits (tm_mday d); hour ← two_digits (tm_hour d);
    min ← two_digits (tm_min d); sec ← two_digits (tm_sec d);
    Some (wday ++ cs ", " ++ mday ++ cs " " ++ mon ++ cs " " ++ itoa (1900 + tm_year d) ++ cs " " ++
          hour ++ cs ":" ++ min ++ cs ":" ++ sec ++ cs " GMT").
Definition date_line : option (list Z) :=
  d ← gmtime now; t ← rfc1123 d; Some (line (cs "DATE: " ++ t)).

(** The name of the library, as far as it fits into 199 characters. *)
Definition product : list Z :=
  c_str (ztake 199 (sysname ++ cs "/" ++ release ++
    line (cs ", UPnP/1.0, Portable SDK for UPnP devices/" ++ UPNP_VERSION_STRING))).

(** The part of a text that a token is, if it lies in it. *)
Definition slice (text : list Z) (t : token) : option (list Z) :=
  if (0 <=? tk_buff t) && (0 <=? tk_size t) && (tk_buff t + tk_size t <=? zlen text)
  then Some (ztake (tk_size t) (zdrop (tk_buff t) text)) else None.
(** The path of an http URL ("/" when it has none) and its host. *)
Definition target (text : list Z) (u : uri_type) : option (list Z * list Z) :=
  scheme ← slice text (u_scheme u); host ← slice text (hp_text (u_hostport u));
  path ← slice text (u_pathquery u);
  if bool_decide (lower scheme = cs "http") && negb (bool_decide (host = []))
  then Some (if bool_decide (path = []) then cs "/" else path, host) else None.

(** The extra headers: each of the strings on a line. *)
Definition extra_lines (l : list (option (list Z))) : list Z :=
  concat ((fun s => line (c_str s)) <$> omap (fun s => s) l).

Definition char_text (major minor c : Z) (args : list arg) : option (list Z * list arg) :=
  if c =? $"c" then Some (EOL, args)
  else if c =? $"K" then Some (line (cs "TRANSFER-ENCODING: chunked"), args)
  else if c =? $"C" then
    Some (if (1 <? major) || ((major =? 1) && (minor =? 1)) then line (cs "CONNECTION: close")
          else [], args)
  else if c =? $"D" then
    d ← date_line; Some (d, args)
  else if c =? $"S" then Some (cs "SERVER: " ++ product, args)
  else if c =? $"U" then Some (cs "USER-AGENT: " ++ product, args)
  else
  match args with
  | AStr (Some s) :: args' =>
      if c =? $"s" then Some (c_str s, args')
      else if c =? $"X" then Some (cs "X-User-Agent: " ++ c_str s, args')
      else if c =? $"T" then Some (line (cs "CONTENT-TYPE: " ++ c_str s), args')
      else
        match args' with
        | ASize n :: args' =>
            if (c =? $"b") && (0 <=? n) && (n <=? zlen s) then Some (ztake n s, args') else None
        | _ => None
        end
  | AInt n :: args' =>
      if c =? $"d" then if (0 <=? n) && (n <=? INT_MAX) then Some (itoa n, args') else None
      else if c =? $"R" then
        if (0 <? n) && (n <=? INT_MAX) then
          ph ← phrase_of n;
          Some (line (version_text major minor ++ cs " " ++ itoa n ++ cs " " ++ ph), args')
        else None
      else if c =? $"B" then
        ph ← phrase_of n;
        let body := body_text n ph in
        Some (length_lines (zlen body) ++ line (cs "CONTENT-TYPE: text/html") ++ EOL ++ body, args')
      else
        match args' with
        | AStr (Some s) :: ASize k :: args' =>
            if (c =? $"Q") && (0 <=? k) && (k <=? zlen s) then
              m ← method_name n; Some (request_line major minor m (ztake k s), args')
            else None
        | AUri text u :: args' =>
            if c =? $"q" then
              m ← method_name n; '(path, host) ← target text u;
              Some (request_line major minor m path ++ line (cs "HOST: " ++ host), args')
            else None
        | _ => None
        end
  | AOff n :: args' =>
      if c =? $"h" then Some (itoa n, args')
      else if c =? $"N" then if 0 <=? n then Some (length_lines n, args') else None
      else None
  | ATime (Some t) :: args' =>
      if c =? $"t" then d ← gmtime t; s ← rfc1123 d; Some (s, args') else None
  | AExtra l :: args' =>
      if c =? $"E" then Some (match l with Some l => extra_lines l | None => [] end, args') else None
  | AInstr i :: args' =>
      if c =? $"G" then Some (c_str (RangeHeader i), args')
      else if c =? $"L" then Some ([], args')
      else None
  | _ => None
  end.

Fixpoint message_text (major minor : Z) (fmt : list Z) (args : list arg) : option (list Z) :=
  match fmt with
  | [] => Some []
  | c :: fmt' =>
      '(t, args) ← char_text major minor c args;
      ts ← message_text major minor fmt' args;
      Some (t ++ ts)
  end.

(** ** Lemmas *)

(** A buffer that holds something ends in a NUL. *)
Definition ended (buf : membuffer) : Prop := mb_length buf <> 0 -> terminated buf.
Definition extended (buf : membuffer) (t : list Z) (buf' : membuffer) : Prop :=
  updated buf (contents buf ++ t) buf' /\ (ended buf -> ended buf').

(** What appending [t] to [buf] may end in. *)
Definition made_ok (md : mode) (buf : membuffer) (t : list Z) (args : list arg) (r : made) : Prop :=
  match r with
  | Next buf' args' => args' = args /\ extended buf t buf'
  | Failed c => md <> Lucky /\ c = 0
  end.
Definition message_ok (md : mode) (buf : membuffer) (t : list Z) (r : Z * membuffer) : Prop :=
  (r.1 = 0 /\ extended buf t r.2) \/
  (md <> Lucky /\ r.1 = UPNP_E_OUTOF_MEMORY /\ r.2 = membuffer_init).

Definition fits (buf : membuffer) (t : list Z) : Prop :=
  mb_wf buf /\ mb_length buf + zlen t <= MB_MAX.

Lemma extended_length buf t buf' : mb_wf buf -> extended buf t buf' ->
  mb_length buf' = mb_length buf + zlen t.
Proof.
  intros Hw ((Hw' & Hc & _) & _). rewrite <- (zlen_contents buf'), Hc, zlen_app by done.
  by rewrite (zlen_contents buf).
Qed.

Lemma fits_app buf t u : fits buf (t ++ u) -> fits buf t.
Proof. intros [? H]. rewrite zlen_app in H. pose proof (zlen_nonneg u). split; [done|lia]. Qed.

Lemma fits_next buf t u buf' :
  fits buf (t ++ u) -> extended buf t buf' -> fits buf' u.
Proof.
  intros [Hw H] Hu. rewrite zlen_app in H. pose proof (extended_length _ _ _ Hw Hu).
  destruct Hu as [[Hw' _] _]. split; [done|lia].
Qed.

Lemma extended_app buf t u b1 b2 : extended buf t b1 -> extended b1 u b2 -> extended buf (t ++ u) b2.
Proof.
  intros [(H1 & E1 & I1) T1] [(H2 & E2 & I2) T2]. split; [|auto]. split; [done|].
  rewrite E2, E1, I2, <- app_assoc. by split.
Qed.
Lemma extended_refl buf : mb_wf buf -> extended buf [] buf.
Proof. intros Hw. split; [|done]. rewrite app_nil_r. by split. Qed.

(** The dates of the code. *)
Lemma two_digits_spec n t : two_digits n = Some t -> itoa2 n = t /\ zlen t = 2 /\ Forall (fun c => c <> 0) t.
Proof.
  unfold two_digits. destruct (_ && _) eqn:E; [|done]. zbool. intros [= <-]. split; [|split; [done|]].
  - assert (forallb (fun k => bool_decide (itoa2 k = [48 + k / 10; 48 + k mod 10])) (seqZ 0 100) = true) as Hall
      by (vm_compute; reflexivity).
    rewrite forallb_forall in Hall. apply (bool_decide_eq_true_1 _). apply Hall, list_elem_of_In, elem_of_seqZ. lia.
  - pose proof (Z.div_pos n 10). pose proof (Z.mod_pos_bound n 10). repeat constructor; lia.
Qed.
Lemma date_text_spec d s e text :
  rfc1123 d = Some text ->
  date_text s e d = Some (s ++ text ++ e) /\ Forall (fun c => c <> 0) text /\ zlen text <= 100.
Proof.
  unfold rfc1123. intros H. destruct (_ || _) eqn:E; [done|].
  assert (0 <= tm_wday d /\ 0 <= tm_mon d) as [Wd Md] by (zbool; lia).
  apply bind_Some in H as (wday & Hw & H). apply bind_Some in H as (mon & Hm & H).
  apply bind_Some in H as (mday & H1 & H). apply bind_Some in H as (hour & H2 & H).
  apply bind_Some in H as (min & H3 & H). apply bind_Some in H as (sec & H4 & H). apply (inj Some) in H as <-.
  apply two_digits_spec in H1 as (E1 & L1 & N1). apply two_digits_spec in H2 as (E2 & L2 & N2).
  apply two_digits_spec in H3 as (E3 & L3 & N3). apply two_digits_spec in H4 as (E4 & L4 & N4).
  assert (name_at weekday_str (tm_wday d * 4) = Some wday /\ Forall (fun c => c <> 0) wday /\ zlen wday = 3)
    as (Ew & Nw & Lw).
  { clear -Hw Wd. destruct d as [? ? ? ? ? ? wd]. cbn [tm_wday] in *.
    assert (wd = Z.of_nat (Z.to_nat wd)) as E0 by lia. revert Hw. rewrite E0, Nat2Z.id.
    generalize (Z.to_nat wd) as k. clear. intros k Hk.
    do 7 (destruct k as [|k]; [injection Hk as <-; split; [by vm_compute|split; [by repeat constructor|done]]|]).
    done. }
  assert (name_at month_str (tm_mon d * 4) = Some mon /\ Forall (fun c => c <> 0) mon /\ zlen mon = 3)
    as (Em & Nm & Lm).
  { clear -Hm Md. destruct d as [? ? ? ? mo ? ?]. cbn [tm_mon] in *.
    assert (mo = Z.of_nat (Z.to_nat mo)) as E0 by lia. revert Hm. rewrite E0, Nat2Z.id.
    generalize (Z.to_nat mo) as k. clear. intros k Hk.
    do 12 (destruct k as [|k]; [injection Hk as <-; split; [by vm_compute|split; [by repeat constructor|done]]|]).
    done. }
  split; [|split].
  - unfold date_text. rewrite Ew. cbn [mbind option_bind]. rewrite Em. cbn [mbind option_bind].
    rewrite E1, E2, E3, E4, (Z.add_comm (tm_year d)), <- !app_assoc. done.
  - repeat apply Forall_app_2; try done; try apply itoa_nonzero; by repeat constructor.
  - rewrite !zlen_app. pose proof (zlen_itoa (1900 + tm_year d)). rewrite Lw, Lm, L1, L2, L3, L4.
    repeat match goal with |- context [zlen (cs ?x)] =>
      let v := eval vm_compute in (zlen (cs x)) in change (zlen (cs x)) with v end. lia.
Qed.

Lemma date_line_no_nul d : date_line = Some d -> Forall (fun c => c <> 0) d.
Proof.
  unfold date_line. intros H. apply bind_Some in H as (t & _ & H). apply bind_Some in H as (text & Ht & H).
  apply (inj Some) in H as <-. destruct (date_text_spec t [] [] text Ht) as (_ & Hn & _).
  unfold line. repeat apply Forall_app_2; try done; by repeat constructor.
Qed.

(** The name of the library. *)
Lemma sdk_info_product : c_str (get_sdk_info TEMPBUF) = product.
Proof. unfold get_sdk_info, product, snprintf, line. cbn [snd]. change (TEMPBUF - 1) with 199. do 2 f_equal. Qed.

(** The names of the methods. *)
Lemma method_name_spec m nm :
  method_name m = Some nm ->
  let index := map_int_to_str m Http_Method_Table NUM_HTTP_METHODS in
  (index =? -1) = false /\ name <$> Http_Method_Table !! Z.to_nat index = Some nm /\ c_str nm = nm.
Proof.
  unfold method_name. intros Hm.
  assert (Forall (fun p : Z * list Z =>
    let index := map_int_to_str p.1 Http_Method_Table NUM_HTTP_METHODS in
    (index =? -1) = false /\ name <$> Http_Method_Table !! Z.to_nat index = Some p.2 /\ c_str p.2 = p.2)
    method_names) as Hall by (repeat (constructor; [vm_compute; done|]); constructor).
  destruct (filter _ method_names) as [|p l] eqn:E; [done|]. injection Hm as <-.
  assert (p ∈ filter (fun p : Z * list Z => p.1 = m) method_names) as Hp by (rewrite E; by left).
  apply list_elem_of_filter in Hp as [<- Hp]. rewrite Forall_forall in Hall. by apply Hall.
Qed.

(** The path and the host of a URL. *)
Lemma slice_spec text t s :
  slice text t = Some s ->
  0 <= tk_buff t /\ 0 <= tk_size t <= zlen (zdrop (tk_buff t) text) /\
  ztake (tk_size t) (zdrop (tk_buff t) text) = s /\ zlen s = tk_size t.
Proof.
  unfold slice. destruct (_ && _) eqn:E; [|done]. zbool. intros [= <-].
  assert (zlen (zdrop (tk_buff t) text) = zlen text - tk_buff t) as El by (apply zlen_zdrop; lia).
  rewrite El, zlen_ztake by (rewrite El; lia). split_and!; [done|done|lia|done|done].
Qed.
Lemma strncmp_same n a b : take n a = take n b -> strncmp_nat n a b = 0.
Proof.
  revert a b. induction n as [|n IH]; intros [|x a] [|y b] E; cbn [take] in E; try done.
  injection E as -> E. cbn. rewrite Z.eqb_refl. destruct (y =? 0); [done|by apply IH].
Qed.
Lemma target_spec text u path host :
  target text u = Some (path, host) ->
  exists url, http_FixUrl text u = (0, url) /\
    path = ztake (mp_length (path_ptr text url)) (mp_buf (path_ptr text url)) /\
    host = ztake (mp_length (host_ptr text url)) (mp_buf (host_ptr text url)) /\
    0 <= mp_length (path_ptr text url) <= zlen (mp_buf (path_ptr text url)) /\
    0 <= mp_length (host_ptr text url) <= zlen (mp_buf (host_ptr text url)).
Proof.
  unfold target. intros H. apply bind_Some in H as (scheme & H1 & H).
  apply bind_Some in H as (h & H2 & H). apply bind_Some in H as (pth & H3 & H).
  apply slice_spec in H1 as (_ & _ & Es & Ls). apply slice_spec in H2 as (Hb & Hn & Eh & Lh).
  apply slice_spec in H3 as (Pb & Pn & Ep & Lp).
  destruct (_ && _) eqn:E; [|done]. apply andb_true_iff in E as [E1%bool_decide_eq_true E2].
  injection H as <- <-.
  assert (tk_size (u_scheme u) = 4) as E4.
  { rewrite <- Ls. change 4 with (zlen (cs "http")). rewrite <- E1. unfold zlen, lower. by rewrite length_fmap. }
  assert (tk_size (hp_text (u_hostport u)) <> 0) as Hh0.
  { rewrite <- Lh. destruct h; [done|]. rewrite zlen_cons. pose proof (zlen_nonneg h). lia. }
  assert (token_string_casecmp (zdrop (tk_buff (u_scheme u)) text) (u_scheme u) (cs "http") = 0) as Hs.
  { unfold token_string_casecmp, strncasecmp, strncmp. rewrite E4. cbn [Z.eqb negb]. rewrite strncmp_same; [done|].
    rewrite <- Es, E4 in E1. unfold lower, ztake in E1. rewrite fmap_take in E1.
    change (Z.to_nat 4) with 4%nat in *. rewrite E1. by vm_compute. }
  unfold http_FixUrl. rewrite Hs. cbn [Z.eqb negb]. rewrite (proj2 (Z.eqb_neq _ _)) by done.
  unfold path_ptr, host_ptr. destruct (Z.eqb_spec (tk_size (u_pathquery u)) 0) as [E0|E0].
  - eexists. split; [done|]. cbn. assert (pth = []) as ->.
    { destruct pth; [done|]. rewrite zlen_cons in Lp. pose proof (zlen_nonneg pth). lia. }
    by rewrite bool_decide_true.
  - eexists. split; [done|]. cbn. rewrite bool_decide_false; [done|]. intros ->. by rewrite <- Lp in E0.
Qed.

Section Proofs.
Context (md : mode).

(** [m] appends [t] to any buffer with room for it and leaves [args]. *)
Definition puts (m : membuffer -> M made) (t : list Z) (args : list arg) : Prop :=
  forall buf, fits buf t -> runs md (m buf) (made_ok md buf t args).
Definition makes (m : membuffer -> M (Z * membuffer)) (t : list Z) : Prop :=
  forall buf, fits buf t -> runs md (m buf) (message_ok md buf t).

Lemma put_bytes_puts s n args :
  0 <= n <= zlen s -> puts (fun buf => put_bytes buf s n args) (ztake n s) args.
Proof.
  intros Hn buf [Hw Hf]. unfold put_bytes. mstep. rewrite zlen_ztake in Hf by done.
  destruct (decide (n = 0)) as [->|Hz].
  - unfold membuffer_append, membuffer_insert. rewrite Z.ltb_irrefl. apply runs_ret. apply runs_ret.
    split; [done|]. rewrite ztake_0. by apply extended_refl.
  - eapply runs_mono; [apply append_prefix_runs; [done|lia|done]|].
    intros [rc b] [(-> & Ht & Hu)|(Hmd & -> & ->)]; cbn; apply runs_ret; [|by split].
    split; [done|]. split; [done|]. by intros _ _.
Qed.

Lemma put_text_puts s args : puts (fun buf => put_text buf s args) (c_str s) args.
Proof.
  rewrite <- ztake_strlen. apply put_bytes_puts. split; [apply zlen_nonneg|apply zlen_c_str].
Qed.

Lemma put_temp_puts s args :
  zlen s < TEMPBUF -> puts (fun buf => put_temp buf s args) (c_str s) args.
Proof.
  intros Hs buf Hf. unfold put_temp, snprintf. rewrite (proj2 (Z.leb_gt TEMPBUF _)) by done.
  rewrite ztake_all by lia. by apply put_text_puts.
Qed.

Lemma then_puts m k t u args args' :
  puts m t args' -> puts k u args ->
  puts (fun buf => then_put (m buf) k) (t ++ u) args.
Proof.
  intros Hm Hk buf Hf. unfold then_put. mstep.
  eapply runs_mono; [apply Hm; by eapply fits_app|].
  intros [b args2|c] H; [|by apply runs_ret]. destruct H as [-> Hu].
  eapply runs_mono; [apply Hk; by eapply fits_next|].
  intros [b2 args2|c] H2; [|done]. destruct H2 as [-> Hu2]. split; [done|]. by eapply extended_app.
Qed.

Lemma nested_puts make fmt fargs args t :
  makes (fun buf => make buf fmt fargs) t -> puts (fun buf => nested make buf fmt fargs args) t args.
Proof.
  intros Hm buf Hf. unfold nested. mstep. eapply runs_mono; [by apply Hm|].
  intros [rc b] [[Hr Hu]|(Hmd & Hr & _)]; cbn in Hr; subst rc; apply runs_ret; cbn; by split.
Qed.

Lemma make_loop_nil major minor make args :
  makes (fun buf => make_loop major minor make buf [] args) [].
Proof.
  intros buf [Hw _]. cbn. apply runs_ret. left. split; [done|]. by apply extended_refl.
Qed.

Lemma make_loop_cons major minor make c fmt args args' t u :
  puts (fun buf => make_char major minor make c buf args) t args' ->
  makes (fun buf => make_loop major minor make buf fmt args') u ->
  makes (fun buf => make_loop major minor make buf (c :: fmt) args) (t ++ u).
Proof.
  intros Hc Hl buf Hf. cbn [make_loop]. mstep.
  eapply runs_mono; [apply Hc; by eapply fits_app|].
  intros [b args2|code] H.
  - destruct H as [-> Hu]. eapply runs_mono; [apply Hl; by eapply fits_next|].
    intros [rc b2] [[Hr Hu2]|H2]; [left|by right]. split; [done|]. by eapply extended_app.
  - destruct H as [Hmd ->]. apply runs_ret. right. by split_and!.
Qed.

Lemma puts_nothing args : puts (fun buf => mret (Next buf args)) [] args.
Proof. intros buf [Hw _]. apply runs_ret. split; [done|]. by apply extended_refl. Qed.

Lemma puts_eq m t u args : puts m t args -> t = u -> puts m u args.
Proof. by intros ? <-. Qed.
Lemma makes_eq m t u : makes m t -> t = u -> makes m u.
Proof. by intros ? <-. Qed.

(** Evaluate the tests of a format character; fetch an argument. *)
Ltac char :=
  unfold make_char;
  repeat match goal with
  | |- context [Z.eqb (Zpos ?a) (Zpos ?b)] =>
      let v := eval vm_compute in (Z.eqb (Zpos a) (Zpos b)) in
      change (Z.eqb (Zpos a) (Zpos b)) with v
  end; cbv beta iota; cbn [orb].
Ltac va := mstep; (eapply runs_liftO; [reflexivity|]); cbv beta iota.
Ltac va_assert := mstep; (apply runs_assert_true; [reflexivity|]).

(** The characters that do not call [http_MakeMessage] again. *)
Section Chars.
Context (major minor : Z) (make : membuffer -> list Z -> list arg -> M (Z * membuffer)).

Lemma char_s s args :
  puts (fun buf => make_char major minor make $"s" buf (AStr (Some s) :: args)) (c_str s) args.
Proof. char. intros buf Hf. va. va_assert. va. by apply put_text_puts. Qed.
Lemma char_b s n args :
  0 <= n <= zlen s ->
  puts (fun buf => make_char major minor make $"b" buf (AStr (Some s) :: ASize n :: args))
    (ztake n s) args.
Proof. intros Hn. char. intros buf Hf. do 3 va. by apply put_bytes_puts. Qed.
Lemma char_c args : puts (fun buf => make_char major minor make $"c" buf args) EOL args.
Proof. char. apply (put_bytes_puts EOL 2). by vm_compute. Qed.

Lemma put_number n args : puts (fun buf => put_temp buf (itoa n) args) (itoa n) args.
Proof.
  eapply puts_eq; [apply put_temp_puts|].
  - pose proof (zlen_itoa n). unfold TEMPBUF. lia.
  - apply c_str_id, itoa_nonzero.
Qed.
Lemma char_d n args :
  0 <= n <= INT_MAX ->
  puts (fun buf => make_char major minor make $"d" buf (AInt n :: args)) (itoa n) args.
Proof.
  intros Hn. char. intros buf Hf. va.
  rewrite to_size_small by (unfold SIZE_MAX, INT_MAX in *; lia).
  assert (utoa 10 n = itoa n) as -> by (unfold itoa; by rewrite (proj2 (Z.ltb_ge n 0)) by lia).
  by apply put_number.
Qed.
Lemma char_h n args :
  puts (fun buf => make_char major minor make $"h" buf (AOff n :: args)) (itoa n) args.
Proof. char. intros buf Hf. va. by apply put_number. Qed.
Lemma char_K args :
  puts (fun buf => make_char major minor make $"K" buf args) (line (cs "TRANSFER-ENCODING: chunked")) args.
Proof. char. apply put_text_puts. Qed.
Lemma char_C args :
  puts (fun buf => make_char major minor make $"C" buf args)
    (if (1 <? major) || ((major =? 1) && (minor =? 1)) then line (cs "CONNECTION: close") else []) args.
Proof. char. destruct (_ || _); [apply put_text_puts|apply puts_nothing]. Qed.
Lemma char_G i args :
  puts (fun buf => make_char major minor make $"G" buf (AInstr i :: args)) (c_str (RangeHeader i)) args.
Proof. char. intros buf Hf. va. by apply put_text_puts. Qed.
Lemma char_L i args :
  puts (fun buf => make_char major minor make $"L" buf (AInstr i :: args)) [] args.
Proof.
  char. intros buf Hf. va. rewrite (bool_decide_true (WEB_SERVER_CONTENT_LANGUAGE = [])) by done.
  rewrite andb_false_r. by apply puts_nothing.
Qed.
Lemma char_X s args :
  puts (fun buf => make_char major minor make $"X" buf (AStr (Some s) :: args))
    (cs "X-User-Agent: " ++ c_str s) args.
Proof.
  char. intros buf Hf. va. va_assert. va.
  by apply (then_puts (fun buf => put_text buf (cs "X-User-Agent: ") args)
    (fun buf => put_text buf s args) (cs "X-User-Agent: ") (c_str s) args args);
    [apply put_text_puts..|].
Qed.
Lemma put_date d s e text args :
  rfc1123 d = Some text -> zlen s + zlen e <= 20 -> Forall (fun c => c <> 0) s -> Forall (fun c => c <> 0) e ->
  exists full, date_text s e d = Some full /\
    puts (fun buf => put_temp buf full args) (s ++ text ++ e) args.
Proof.
  intros Hd Hl Hs He. destruct (date_text_spec d s e text Hd) as (E & Hn & Hz). eexists. split; [exact E|].
  eapply puts_eq; [apply put_temp_puts|].
  - unfold TEMPBUF. rewrite !zlen_app. lia.
  - apply c_str_id. by repeat apply Forall_app_2.
Qed.
Lemma char_D d args :
  date_line = Some d -> puts (fun buf => make_char major minor make $"D" buf args) d args.
Proof.
  intros Hd. unfold date_line in Hd. apply bind_Some in Hd as (t & Hg & Hd).
  apply bind_Some in Hd as (text & Ht & Hd). apply (inj Some) in Hd as <-.
  destruct (put_date t (cs "DATE: ") EOL text args Ht) as (full & E & Hp);
    [by vm_compute|by repeat constructor|by repeat constructor|].
  char. intros buf Hf. mstep. apply runs_ret. cbv beta iota. va_assert. va. rewrite Hg.
  mstep. eapply runs_liftO; [exact E|]. unfold line in Hf |- *. rewrite <- app_assoc in Hf |- *. by apply Hp.
Qed.
Lemma char_t t d text args :
  gmtime t = Some d -> rfc1123 d = Some text ->
  puts (fun buf => make_char major minor make $"t" buf (ATime (Some t) :: args)) text args.
Proof.
  intros Hg Ht. destruct (put_date d [] [] text args Ht) as (full & E & Hp); [done|constructor|constructor|].
  rewrite app_nil_r in Hp. char. intros buf Hf. va. va_assert. va. rewrite Hg.
  mstep. eapply runs_liftO; [exact E|]. by apply Hp.
Qed.
Lemma put_extra_puts l args : puts (fun buf => put_extra buf l args) (extra_lines l) args.
Proof.
  induction l as [|[s|] l IH]; cbn [put_extra]; [apply puts_nothing| |exact IH].
  unfold extra_lines. cbn [omap list_omap fmap list_fmap concat]. unfold line at 1. rewrite <- app_assoc.
  apply (then_puts (fun buf => put_text buf s args)
    (fun buf => then_put (put_bytes buf EOL 2 args) (fun buf => put_extra buf l args)) _ _ args args);
    [apply put_text_puts|].
  apply (then_puts (fun buf => put_bytes buf EOL 2 args) (fun buf => put_extra buf l args) _ _ args args);
    [apply (put_bytes_puts EOL 2); by vm_compute|exact IH].
Qed.
Lemma char_E l args :
  puts (fun buf => make_char major minor make $"E" buf (AExtra l :: args))
    (match l with Some l => extra_lines l | None => [] end) args.
Proof.
  char. intros buf Hf. va. destruct l as [l|]; [by apply put_extra_puts|by apply puts_nothing].
Qed.
End Chars.

(** A text of literals and numbers fits [tempbuf]. *)
Ltac short :=
  unfold TEMPBUF, body_text; rewrite ?zlen_app;
  repeat match goal with |- context [zlen (cs ?s)] =>
    let v := eval vm_compute in (zlen (cs s)) in change (zlen (cs s)) with v end;
  repeat match goal with |- context [zlen (itoa ?n)] =>
    lazymatch goal with
    | _ : zlen (itoa n) <= _ |- _ => fail
    | _ => pose proof (zlen_itoa_int n ltac:(unfold INT_MAX in *; lia))
    end end; lia.
Ltac nonzero :=
  repeat first [assumption|apply itoa_nonzero|apply List.Forall_nil
               |apply List.Forall_cons; [discriminate|]|apply Forall_app_2].

(** The characters that do, with at least one more level below. *)
#[local] Opaque itoa get_sdk_info c_str.
Section Nested.
Context (major minor : Z) (depth : nat).
Context (Hmajor : 0 <= major <= INT_MAX) (Hminor : 0 <= minor <= INT_MAX).
Local Abbreviation made_by d := (make_char major minor (make_depth d major minor)).

(** Runs a format of the characters s, c, h, b and d. *)
Ltac chars :=
  lazymatch goal with |- makes (fun buf => make_depth _ _ _ buf (cs ?f) _) _ =>
    let v := eval vm_compute in (cs f) in change (cs f) with v end;
  cbn [make_depth]; eapply makes_eq;
  [repeat (eapply make_loop_cons;
     [lazymatch goal with |- puts (fun buf => make_char _ _ _ ?c _ _) _ _ =>
        lazymatch c with
        | 115 => apply char_s | 99 => apply char_c | 104 => apply char_h
        | 98 => apply char_b; assumption | 100 => apply char_d; assumption
        end end|]);
   apply make_loop_nil
  |unfold line; rewrite ?app_nil_r, <- ?app_assoc].

Lemma make_ssc a b :
  makes (fun buf => make_depth (S depth) major minor buf (cs "ssc") [AStr (Some a); AStr (Some b)])
    (line (c_str a ++ c_str b)).
Proof. by chars. Qed.
Lemma make_ss a b :
  makes (fun buf => make_depth (S depth) major minor buf (cs "ss") [AStr (Some a); AStr (Some b)])
    (c_str a ++ c_str b).
Proof. by chars. Qed.
Lemma make_sc a :
  makes (fun buf => make_depth (S depth) major minor buf (cs "sc") [AStr (Some a)]) (line (c_str a)).
Proof. by chars. Qed.
Lemma make_shc a n :
  makes (fun buf => make_depth (S depth) major minor buf (cs "shc") [AStr (Some a); AOff n])
    (line (c_str a ++ itoa n)).
Proof. by chars. Qed.
Lemma make_request m s n :
  0 <= n <= zlen s -> c_str m = m ->
  makes (fun buf => make_depth (S depth) major minor buf (cs "ssbsdsdc")
      [AStr (Some m); lit_arg " "; AStr (Some s); ASize n; lit_arg " HTTP/"; AInt major;
       lit_arg "."; AInt minor])
    (request_line major minor m (ztake n s)).
Proof.
  intros Hn Hm. unfold lit_arg. chars. unfold request_line, version_text, line.
  rewrite Hm, <- !app_assoc, !c_str_id by (repeat first [apply List.Forall_nil|apply List.Forall_cons]; done). reflexivity.
Qed.

Lemma char_T s args :
  puts (fun buf => made_by (S depth) $"T" buf (AStr (Some s) :: args))
    (line (cs "CONTENT-TYPE: " ++ c_str s)) args.
Proof.
  char. intros buf Hf. va. unfold lit_arg.
  by apply (nested_puts _ _ _ _ _ (make_ssc (cs "CONTENT-TYPE: ") s)).
Qed.
Lemma char_S args :
  puts (fun buf => made_by (S depth) $"S" buf args) (cs "SERVER: " ++ product) args.
Proof. rewrite <- sdk_info_product. char. apply (nested_puts _ _ _ _ _ (make_ss (cs "SERVER: ") (get_sdk_info TEMPBUF))). Qed.
Lemma char_U args :
  puts (fun buf => made_by (S depth) $"U" buf args) (cs "USER-AGENT: " ++ product) args.
Proof. rewrite <- sdk_info_product. char. apply (nested_puts _ _ _ _ _ (make_ss (cs "USER-AGENT: ") (get_sdk_info TEMPBUF))). Qed.
Lemma char_N n args :
  0 <= n -> puts (fun buf => made_by (S depth) $"N" buf (AOff n :: args)) (length_lines n) args.
Proof.
  intros Hn. char. intros buf Hf. va. mstep. apply runs_assert_true; [by apply Z.leb_le|].
  by apply (then_puts (fun buf => nested _ buf (cs "shc") [lit_arg "CONTENT-LENGTH: "; AOff n] args)
    (fun buf => nested _ buf (cs "sc") [lit_arg "Accept-Ranges: bytes"] args) _ _ args args);
    [apply nested_puts, make_shc|apply nested_puts, make_sc|].
Qed.
Lemma char_Q m s n args name :
  method_name m = Some name -> 0 <= n <= zlen s ->
  puts (fun buf => made_by (S depth) $"Q" buf (AInt m :: AStr (Some s) :: ASize n :: args))
    (request_line major minor name (ztake n s)) args.
Proof.
  intros Hm Hn. destruct (method_name_spec m name Hm) as (E & En & Hc).
  char. intros buf Hf. va. unfold method_to_str. rewrite E. mstep. mstep.
  apply runs_assert_true; [done|]. apply runs_ret. rewrite En. do 2 va.
  by apply (nested_puts _ _ _ _ _ (make_request name s n Hn Hc)).
Qed.

Lemma char_R n ph args :
  (gInitialized codes = true -> codes = init_tables) ->
  phrase_of n = Some ph ->
  puts (fun buf => made_by (S depth) $"R" buf (AInt n :: args))
    (line (version_text major minor ++ cs " " ++ itoa n ++ cs " " ++ ph)) args.
Proof.
  intros Hcodes Hp. destruct (phrase_of_bounds n ph Hp) as (Hn & _ & _).
  destruct (code_text_spec codes n Hcodes) as [Ht _].
  char. intros buf Hf. va. mstep. apply runs_assert_true; [apply Z.ltb_lt; lia|].
  unfold snprintf. destruct (http_get_code_text codes n) as [[msg|] st]; cbn in Ht; cbn [fst];
    rewrite Hp in Ht; [|done]. injection Ht as Ht.
  match goal with |- context [TEMPBUF <=? zlen ?x] => assert (zlen x < TEMPBUF) as Hs by short end.
  rewrite (proj2 (Z.leb_gt _ _)) by exact Hs. rewrite ztake_all by lia.
  eapply (puts_eq (fun buf => nested _ buf _ _ args)); [apply nested_puts, make_ssc| |done].
  rewrite Ht, c_str_id by nonzero. unfold version_text. by rewrite <- !app_assoc.
Qed.
End Nested.

(** ['B'] and ['q'] need two levels below. *)
Section Twice.
Context (major minor : Z) (depth : nat).
Context (Hmajor : 0 <= major <= INT_MAX) (Hminor : 0 <= minor <= INT_MAX).
Local Abbreviation made_by d := (make_char major minor (make_depth d major minor)).

Lemma make_NTcs n a b :
  0 <= n ->
  makes (fun buf => make_depth (S (S depth)) major minor buf (cs "NTcs")
           [AOff n; AStr (Some a); AStr (Some b)])
    (length_lines n ++ line (cs "CONTENT-TYPE: " ++ c_str a) ++ EOL ++ c_str b).
Proof.
  intros Hn. let v := eval vm_compute in (cs "NTcs") in change (cs "NTcs") with v.
  change (make_depth (S (S depth)) major minor)
    with (make_loop major minor (make_depth (S depth) major minor)).
  eapply makes_eq.
  - eapply make_loop_cons; [by apply char_N|]. eapply make_loop_cons; [apply char_T|].
    eapply make_loop_cons; [apply char_c|]. eapply make_loop_cons; [apply char_s|]. apply make_loop_nil.
  - by rewrite app_nil_r.
Qed.
Lemma make_Qsbc m name s n a b k :
  method_name m = Some name -> 0 <= n <= zlen s -> 0 <= k <= zlen b ->
  makes (fun buf => make_depth (S (S depth)) major minor buf (cs "Qsbc")
           [AInt m; AStr (Some s); ASize n; AStr (Some a); AStr (Some b); ASize k])
    (request_line major minor name (ztake n s) ++ line (c_str a ++ ztake k b)).
Proof.
  intros Hm Hn Hk. let v := eval vm_compute in (cs "Qsbc") in change (cs "Qsbc") with v.
  change (make_depth (S (S depth)) major minor)
    with (make_loop major minor (make_depth (S depth) major minor)).
  eapply makes_eq.
  - eapply make_loop_cons; [by apply char_Q|]. eapply make_loop_cons; [apply char_s|].
    eapply make_loop_cons; [by apply char_b|]. eapply make_loop_cons; [apply char_c|]. apply make_loop_nil.
  - unfold line. by rewrite app_nil_r, <- app_assoc.
Qed.

Lemma char_B n ph args :
  (gInitialized codes = true -> codes = init_tables) ->
  phrase_of n = Some ph ->
  puts (fun buf => made_by (S (S depth)) $"B" buf (AInt n :: args))
    (length_lines (zlen (body_text n ph)) ++ line (cs "CONTENT-TYPE: text/html") ++ EOL ++
     body_text n ph) args.
Proof.
  intros Hcodes Hp. destruct (phrase_of_bounds n ph Hp) as (Hn & Hl & Hc).
  destruct (code_text_spec codes n Hcodes) as [Ht _].
  char. intros buf Hf. va.
  destruct (http_get_code_text codes n) as [[msg|] st]; cbn in Ht; cbn [fst];
    rewrite Hp in Ht; [|done]. injection Ht as Ht. va. unfold snprintf. rewrite Ht.
  fold (body_text n ph). assert (zlen (body_text n ph) < TEMPBUF) as Hs by short.
  rewrite (proj2 (Z.leb_gt _ _)) by exact Hs. rewrite ztake_all by lia.
  assert (c_str (body_text n ph) = body_text n ph) as E.
  { apply c_str_id. unfold body_text. pose proof (c_str_no_nul ph) as H. rewrite Hc in H. nonzero. }
  unfold strlen. rewrite E.
  eapply (puts_eq (fun buf => nested _ buf _ _ args));
    [apply nested_puts, make_NTcs, zlen_nonneg| |done].
  by rewrite E.
Qed.
Lemma char_q m name text u path host args :
  method_name m = Some name -> target text u = Some (path, host) ->
  puts (fun buf => made_by (S (S depth)) $"q" buf (AInt m :: AUri text u :: args))
    (request_line major minor name path ++ line (cs "HOST: " ++ host)) args.
Proof.
  intros Hm Ht. destruct (target_spec text u path host Ht) as (url & Hu & -> & -> & Hp & Hh).
  char. intros buf Hf. do 2 va. rewrite Hu. cbn [negb Z.eqb].
  by apply (nested_puts _ _ _ _ _ (make_Qsbc m name _ _ (cs "HOST: ") _ _ Hm Hp Hh)).
Qed.
End Twice.

Lemma char_text_puts major minor c args t args' :
  0 <= major <= INT_MAX -> 0 <= minor <= INT_MAX ->
  (gInitialized codes = true -> codes = init_tables) ->
  char_text major minor c args = Some (t, args') ->
  puts (fun buf => make_char major minor (make_depth 3 major minor) c buf args) t args'.
Proof.
  intros Hmajor Hminor Hcodes. unfold char_text.
  repeat match goal with
  | |- (if c =? ?k then _ else _) = _ -> _ => destruct (Z.eqb_spec c k) as [->|]
  end.
  - intros [= <- <-]. apply char_c.
  - intros [= <- <-]. apply char_K.
  - intros [= <- <-]. apply char_C.
  - destruct date_line as [d|] eqn:Hd; cbn [mbind option_bind]; [|done]. intros [= <- <-]. by apply char_D.
  - intros [= <- <-]. by apply char_S.
  - intros [= <- <-]. by apply char_U.
  - destruct args as [|[[s|]|k|k|k|[k|]|text u|i|l] args]; try done.
    all: repeat match goal with
    | |- (if ?c =? ?k then _ else _) = _ -> _ => destruct (Z.eqb_spec c k) as [->|]
    end; try done.
    + intros [= <- <-]. apply char_s.
    + intros [= <- <-]. apply char_X.
    + intros [= <- <-]. by apply char_T.
    + destruct args as [|[| | | | | | |] args]; try done.
      destruct (_ && _) eqn:E; [|done]. zbool. subst c. intros [= <- <-]. by apply char_b.
    + destruct (_ && _) eqn:E; [|done]. zbool. intros [= <- <-]. by apply char_d.
    + destruct (_ && _) eqn:E; [|done]. destruct (phrase_of k) as [ph|] eqn:Hp; [|done].
      intros [= <- <-]. by apply char_R.
    + destruct (phrase_of k) as [ph|] eqn:Hp; [|done]. intros [= <- <-]. by apply char_B.
    + destruct args as [|[[s|]| | | | |text u| |] args]; try done.
      * destruct args as [|[| | | | | | |] args]; try done.
        destruct (_ && _) eqn:E; [|done]. zbool. subst c.
        destruct (method_name k) as [name|] eqn:Hm; [|done]. intros [= <- <-].
        by apply char_Q.
      * destruct (Z.eqb_spec c $"q") as [->|]; [|done].
        destruct (method_name k) as [name|] eqn:Hm; [|done]. cbn [mbind option_bind].
        destruct (target text u) as [[path host]|] eqn:Ht; [|done]. intros [= <- <-]. by apply char_q.
    + intros [= <- <-]. apply char_h.
    + destruct (Z.leb_spec 0 k); [|done]. intros [= <- <-]. by apply char_N.
    + destruct (gmtime k) as [d|] eqn:Hg; [|done]. cbn [mbind option_bind].
      destruct (rfc1123 d) as [text|] eqn:Ht; [|done]. intros [= <- <-]. by eapply char_t.
    + intros [= <- <-]. apply char_G.
    + intros [= <- <-]. apply char_L.
    + intros [= <- <-]. apply char_E.
Qed.

Lemma message_makes major minor fmt args t :
  0 <= major <= INT_MAX -> 0 <= minor <= INT_MAX ->
  (gInitialized codes = true -> codes = init_tables) ->
  message_text major minor fmt args = Some t ->
  makes (fun buf => make_depth 4 major minor buf fmt args) t.
Proof.
  intros Hmajor Hminor Hcodes. change (make_depth 4 major minor)
    with (make_loop major minor (make_depth 3 major minor)).
  revert args t. induction fmt as [|c fmt IH]; intros args t; cbn [message_text].
  - intros [= <-]. apply make_loop_nil.
  - destruct (char_text major minor c args) as [[t1 args1]|] eqn:Ec; [|done].
    cbn [mbind option_bind]. destruct (message_text _ _ fmt args1) as [ts|] eqn:Et; [|done].
    intros [= <-]. eapply make_loop_cons; [by apply char_text_puts|by apply IH].
Qed.
End Proofs.
End HttpMake.

(** ** Properties *)

(** C29: [http_MakeMessage] appends exactly the text its format and arguments
    stand for (start lines, headers, dates, numbers, nested formats and their
    lengths) to a buffer that has room for it: no temporary buffer is too
    short, no nested call goes wrong; when an allocation fails it reports
    [UPNP_E_OUTOF_MEMORY] and leaves the buffer empty. *)
Theorem http_MakeMessage_correct md junk sysname release version gmtime now codes buf major minor
    fmt args t :
  0 <= major <= INT_MAX -> 0 <= minor <= INT_MAX ->
  (gInitialized codes = true -> codes = init_tables) ->
  message_text sysname release version gmtime now major minor (cs fmt) args = Some t ->
  mb_wf buf -> mb_length buf + zlen t <= MB_MAX ->
  runs md (http_MakeMessage junk sysname release version gmtime now codes buf major minor fmt args)
    (fun '(rc, buf') =>
      (rc = 0 /\ mb_wf buf' /\ contents buf' = contents buf ++ t) \/
      (md <> Lucky /\ rc = UPNP_E_OUTOF_MEMORY /\ buf' = membuffer_init)).
Proof.
  intros Hmajor Hminor Hcodes Ht Hw Hl. eapply runs_mono; [by apply message_makes|].
  intros [rc b] [(Hr & (Hw' & Hc & _) & _)|(Hmd & Hr & Hb)]; cbn in *; subst; [left|right]; by split_and!.
Qed.

(** The response to a request for a missing page, and its text. *)
Definition ex_tm : tm := MkTm 5 4 3 2 0 124 2.
Definition ex_404 : list Z :=
  cs "HTTP/1.1 404 Not Found" ++ EOL ++ cs "CONTENT-LENGTH: 48" ++ EOL ++ cs "Accept-Ranges: bytes" ++ EOL ++
  cs "CONTENT-TYPE: text/html" ++ EOL ++ EOL ++ cs "<html><body><h1>404 Not Found</h1></body></html>".

Lemma http_MakeMessage_correct_witness :
  runs Total (http_MakeMessage 0 [] [] [] (fun _ => Some ex_tm) 0 (Statcodes false [])
                membuffer_init 1 1 "RB" [AInt 404; AInt 404])
    (fun '(rc, buf') =>
      (rc = 0 /\ mb_wf buf' /\ contents buf' = contents membuffer_init ++ ex_404) \/
      (Total <> Lucky /\ rc = UPNP_E_OUTOF_MEMORY /\ buf' = membuffer_init)).
Proof.
  apply (http_MakeMessage_correct Total 0 [] [] [] (fun _ => Some ex_tm) 0 (Statcodes false [])
    membuffer_init 1 1 "RB" [AInt 404; AInt 404] ex_404).
  - by vm_compute.
  - by vm_compute.
  - discriminate.
  - reflexivity.
  - split; cbn; unfold MB_MAX, INT_MAX; lia || done.
  - by vm_compute.
Defined.
