(* ===== verification/HttpIO.v ===== *)
(** Sending and receiving HTTP messages: [upnp/src/genlib/net/http/httpreadwrite.c].

    A connection is a [net] of [Sock.v]; the bytes received are parsed by the
    parser of [HttpParser.v].  Files are their contents; the callbacks of a
    virtual directory are parameters. *)

From S2P Require Import Prelude CString MemBuffer HttpTables Uri Scanner HttpMessage HttpParser Sock HttpMake.

Definition UPNP_E_BAD_RESPONSE : Z := -113.
Definition UPNP_E_BAD_HTTPMSG : Z := -119.
Definition UPNP_E_SOCKET_WRITE : Z := -201.
Definition UPNP_E_SOCKET_CONNECT : Z := -204.
Definition UPNP_E_OUTOF_SOCKET : Z := -205.
Definition UPNP_E_CANCELED : Z := -210.
Definition UPNP_E_FILE_READ_ERROR : Z := -503.
Definition UPNP_E_INTERNAL_ERROR : Z := -911.
Definition HTTP_REQ_ENTITY_TOO_LARGE : Z := 413.
Definition HTTP_DEFAULT_TIMEOUT : Z := 30.
Definition LINE_SIZE : Z := 180.
Definition CHUNK_HEADER_SIZE : Z := 10.
Definition CHUNK_TAIL_SIZE : Z := 10.
Definition WEB_SERVER_BUF_SIZE : Z := 1024 * 1024.
(** The last chunk of a chunked message. *)
Definition ZCRLF : list Z := cs "0" ++ EOL ++ EOL.

(** ** Connecting *)

(** What the system answers while a connection is opened: the descriptor of
    [socket], the results of making it non-blocking, of [connect] (and whether
    [errno] is then [EINPROGRESS]), of [select], of [getsockopt] with the
    delayed error, of making it blocking and of [close]; and the connection. *)
Record opening := MkOpening {
  op_socket : Z;
  op_no_blocking : Z;
  op_connect : Z;
  op_in_progress : bool;
  op_select : Z;
  op_getsockopt : Z;
  op_valopt : Z;
  op_blocking : Z;
  op_close : Z;
  op_net : net
}.

Definition Check_Connect_And_Wait_Connection (e : opening) (connect_res : Z) : Z :=
  if connect_res <? 0 then
    if op_in_progress e then
      if op_select e <? 0 then -1
      else if op_select e =? 0 then -1
      else if op_getsockopt e <? 0 then -1
      else if negb (op_valopt e =? 0) then -1
      else 0
    else 0
  else 0.

Definition private_connect (e : opening) : Z :=
  let ret := op_no_blocking e in
  if negb (ret =? -1) then
    let ret := Check_Connect_And_Wait_Connection e (op_connect e) in
    if negb (ret =? -1) then op_blocking e else ret
  else ret.

(** The descriptor, and the fixed URL. *)
Definition http_Connect (e : opening) (text : list Z) (destination_url : uri_type) : Z * fixed :=
  let '(_, url) := http_FixUrl text destination_url in
  if op_socket e =? INVALID_SOCKET then (UPNP_E_OUTOF_SOCKET, url)
  else if private_connect e =? -1 then (UPNP_E_SOCKET_CONNECT, url)
  else (op_socket e, url).

Section HttpIO.
Context (junk : Z).
Context (getaddrinfo : list Z -> option (list sockaddr))
  (inet_pton : Z -> list Z -> option (list Z)) (gIF_INDEX : Z).
Context (sysname release UPNP_VERSION_STRING : list Z).
Context (gmtime : Z -> option tm) (now : Z) (codes : statcodes).
Context (g_maxContentLength : Z).
(** The contents of the file of a name, and a virtual directory, whose files
    are values of [V]: the result of [read] and the bytes it stored. *)
Context (files : list Z -> option (list Z)) {V : Type} (vd_open : list Z -> option V)
  (vd_seek : V -> Z -> Z * V) (vd_read : V -> Z -> Z * list Z * V) (virtual_fuel : nat).

Local Abbreviation append := (parser_append junk getaddrinfo inet_pton gIF_INDEX).
Local Abbreviation make := (http_MakeMessage junk sysname release UPNP_VERSION_STRING gmtime now codes).
Local Abbreviation fix_str := (http_FixStrUrl getaddrinfo inet_pton gIF_INDEX).

(** ** Receiving *)

Definition recv_init (request_method : Z) : http_parser_t :=
  if request_method =? HTTPMETHOD_UNKNOWN then parser_request_init
  else parser_response_init request_method.

(** The result, the parser, [*http_error_code], the time left and the
    connection. *)
Definition recv_result : Type := Z * http_parser_t * Z * Z * net.

(** [while (1)]; every pass takes bytes off the stream or ends it. *)
Fixpoint recv_loop (fuel : nat) (nt : net) (parser : http_parser_t)
    (num_read buf_len timeout_secs : Z) (ok_on_close : bool) : M recv_result :=
  match fuel with
  | O => running
  | S fuel' =>
      let error := HTTP_INTERNAL_SERVER_ERROR in
      (* Double the bet if needed *)
      let buf_len' := if buf_len <=? num_read then 2 * buf_len else buf_len in
      ok ← (if buf_len <=? num_read then malloc_ok else mret true);
      if negb ok then mret (UPNP_E_OUTOF_MEMORY, parser, error, timeout_secs, nt)
      else
      let '(num_read, buf, timeout_secs, nt) := sock_read nt buf_len' timeout_secs in
      if 0 <? num_read then
        '(status, parser) ← append parser buf num_read;
        match status with
        | PARSE_SUCCESS =>
            mret (if (0 <? g_maxContentLength) && (to_uint g_maxContentLength <? p_content_length parser)
                  then (UPNP_E_OUTOF_BOUNDS, parser, HTTP_REQ_ENTITY_TOO_LARGE, timeout_secs, nt)
                  else (0, parser, error, timeout_secs, nt))
        | PARSE_FAILURE | PARSE_NO_MATCH =>
            mret (UPNP_E_BAD_HTTPMSG, parser, p_http_error_code parser, timeout_secs, nt)
        | PARSE_INCOMPLETE_ENTITY =>
            recv_loop fuel' nt parser num_read buf_len' timeout_secs true
        | PARSE_CONTINUE_1 => mret (0, parser, error, timeout_secs, nt)
        | _ => recv_loop fuel' nt parser num_read buf_len' timeout_secs ok_on_close
        end
      else if num_read =? 0 then
        mret (if ok_on_close : bool then (0, parser, error, timeout_secs, nt)
              else (UPNP_E_BAD_HTTPMSG, parser, HTTP_BAD_REQUEST, timeout_secs, nt))
      else mret (num_read, parser, p_http_error_code parser, timeout_secs, nt)
  end.

(** [parser] is what the caller passes; it is left alone when the buffer
    cannot be allocated. *)
Definition http_RecvMessage (nt : net) (parser : http_parser_t) (request_method timeout_secs : Z)
    : M recv_result :=
  ok ← malloc_ok;
  if negb ok then
    mret (UPNP_E_OUTOF_MEMORY, parser, HTTP_INTERNAL_SERVER_ERROR, timeout_secs, nt)
  else recv_loop (recv_fuel nt) nt (recv_init request_method) 0 1024 timeout_secs false.

(** ** Sending *)

(** An open file: what is left of a local one, or a file of the virtual
    directory. *)
Inductive stream := Local (rest : list Z) | Virtual (v : V).

(** [fread] or the [read] callback: the result as a [size_t], the bytes now at
    the start of the buffer, and the file. *)
Definition read_stream (src : stream) (n : Z) : Z * list Z * stream :=
  match src with
  | Local rest => let got := ztake n rest in (zlen got, got, Local (zdrop n rest))
  | Virtual v => let '(nr, got, v) := vd_read v n in (to_size nr, got, Virtual v)
  end.

Definition stream_fuel (src : stream) : nat :=
  match src with Local rest => S (S (length rest)) | Virtual _ => virtual_fuel end.

(** The header of a chunk of [num_read] bytes: the result of [snprintf] and the
    text. *)
Definition Chunk_Header (num_read : Z) : Z * list Z :=
  snprintf CHUNK_HEADER_SIZE (utoa 16 num_read ++ EOL).

(** [return], the time left and the connection. *)
Definition send_result : Type := Z * Z * net.

(** [while (amount_to_be_read)]; every pass reads, and ends the loop or leaves
    less to be read.  More bytes than the buffer has, or than were stored in
    it, must not be touched. *)
Fixpoint file_loop (fuel : nat) (nt : net) (TimeOut : Z) (Instr : SendInstruction)
    (Data_Buf_Size amount_to_be_read : Z) (Fp : stream) : M send_result :=
  match fuel with
  | O => running
  | S fuel' =>
      if amount_to_be_read =? 0 then mret (0, TimeOut, nt)
      else
      let n := if Data_Buf_Size <=? amount_to_be_read then Data_Buf_Size
               else to_size amount_to_be_read in
      let '(num_read, file_buf, Fp) := read_stream Fp n in
      let amount_to_be_read :=
        if ReadSendSize Instr <? 0 then Data_Buf_Size else amount_to_be_read - num_read in
      if num_read =? 0 then
        if IsChunkActive Instr then
          let '(_, TimeOut, nt) := sock_write nt ZCRLF (zlen ZCRLF) TimeOut in
          mret (0, TimeOut, nt)
        else mret (UPNP_E_FILE_READ_ERROR, TimeOut, nt)
      else
      _ ← liftO (if (num_read <=? Data_Buf_Size) && (num_read <=? zlen file_buf)
                 then Some tt else None);
      if IsChunkActive Instr then
        let '(rc, header) := Chunk_Header num_read in
        if CHUNK_HEADER_SIZE <=? rc then mret (UPNP_E_INTERNAL_ERROR, TimeOut, nt)
        else
        let size := num_read + zlen header + 2 in
        let '(nw, TimeOut, nt) :=
          sock_write nt (header ++ ztake num_read file_buf ++ EOL) size TimeOut in
        if (nw <=? 0) || negb (to_size nw =? size) then mret (0, TimeOut, nt)
        else file_loop fuel' nt TimeOut Instr Data_Buf_Size amount_to_be_read Fp
      else
        let '(nw, TimeOut, nt) := sock_write nt (ztake num_read file_buf) num_read TimeOut in
        if (nw <=? 0) || negb (to_size nw =? num_read) then mret (0, TimeOut, nt)
        else file_loop fuel' nt TimeOut Instr Data_Buf_Size amount_to_be_read Fp
  end.

(** The branch of ['f']: [None] for a file that cannot be opened or
    positioned. *)
Definition open_file (Instr : option SendInstruction) (filename : list Z) : option stream :=
  let virtual := match Instr with Some i => IsVirtualFile i | None => false end in
  Fp ← (if virtual then Virtual <$> vd_open filename else Local <$> files filename);
  match Instr with
  | Some i =>
      if IsRangeActive i then
        match Fp with
        | Virtual v =>
            let '(rc, v) := vd_seek v (RangeOffset i) in
            if negb (rc =? 0) then None else Some (Virtual v)
        | Local rest =>
            (* [fseeko] from the start of the file *)
            if RangeOffset i <? 0 then None else Some (Local (zdrop (RangeOffset i) rest))
        end
      else Some Fp
  | None => Some Fp
  end.

(** [while ((c = *fmt++))]; [Instr] is the instruction of the first ['I']. *)
Fixpoint send_loop_fmt (fmt : list Z) (args : list arg) (nt : net) (TimeOut : Z)
    (Instr : option SendInstruction) (Data_Buf_Size amount_to_be_read : Z) : M send_result :=
  match fmt with
  | [] => mret (0, TimeOut, nt)
  | c :: fmt' =>
      if (c =? $"I") && bool_decide (Instr = None) then
        match args with
        | AInstr i :: args' =>
            let amount := if 0 <=? ReadSendSize i then ReadSendSize i else Data_Buf_Size in
            let size := if amount <? WEB_SERVER_BUF_SIZE then amount else Data_Buf_Size in
            ok ← malloc_ok;
            if negb ok then mret (UPNP_E_OUTOF_MEMORY, TimeOut, nt)
            else send_loop_fmt fmt' args' nt TimeOut (Some i) size amount
        | _ => liftO None
        end
      else if c =? $"f" then
        '(s, _) ← liftO (va_str args);
        filename ← liftO s;
        match open_file Instr (c_str filename) with
        | None => mret (UPNP_E_FILE_READ_ERROR, TimeOut, nt)
        | Some Fp =>
            match Instr with
            | Some i =>
                file_loop (stream_fuel Fp) nt TimeOut i Data_Buf_Size amount_to_be_read Fp
            | None =>
                (* [amount_to_be_read] is zero *)
                mret (0, TimeOut, nt)
            end
        end
      else if c =? $"b" then
        '(s, args) ← liftO (va_str args);
        '(buf_length, args) ← liftO (va_size args);
        if 0 <? buf_length then
          buf ← liftO s;
          d ← liftO (mem_slice buf 0 buf_length);
          let '(nw, TimeOut, nt) := sock_write nt d buf_length TimeOut in
          if negb (to_size nw =? buf_length) then mret (0, TimeOut, nt)
          else send_loop_fmt fmt' args nt TimeOut Instr Data_Buf_Size amount_to_be_read
        else send_loop_fmt fmt' args nt TimeOut Instr Data_Buf_Size amount_to_be_read
      else send_loop_fmt fmt' args nt TimeOut Instr Data_Buf_Size amount_to_be_read
  end.

Definition http_SendMessage (nt : net) (TimeOut : Z) (fmt : list Z) (args : list arg)
    : M send_result :=
  send_loop_fmt fmt args nt TimeOut None WEB_SERVER_BUF_SIZE 0.

(** ** Requests *)

(** [e] opens the connection to [destination]. *)
Definition http_RequestAndResponse (e : opening) (request : list Z) (request_length : Z)
    (req_method timeout_secs : Z) (response : http_parser_t) : M (Z * http_parser_t * net) :=
  let failed ret_code nt := mret (ret_code, parser_response_init req_method, nt) in
  if op_socket e =? INVALID_SOCKET then failed UPNP_E_SOCKET_ERROR (op_net e)
  else
  let '(rc, info) := sock_init (op_socket e) in
  if negb (rc =? UPNP_E_SUCCESS) then failed UPNP_E_SOCKET_ERROR (op_net e)
  else if private_connect e =? -1 then failed UPNP_E_SOCKET_CONNECT (op_net e)
  else
  '(ret_code, timeout_secs, nt) ← http_SendMessage (op_net e) timeout_secs (cs "b")
    [AStr (Some request); ASize request_length];
  if negb (ret_code =? 0) then failed ret_code nt
  else
  '(ret_code, response, _, _, nt) ← http_RecvMessage nt response req_method timeout_secs;
  mret (ret_code, response, nt).

(** What [http_Download] stores: [*document] ([None] when it is left alone,
    [Some None] for [NULL]), [*doc_length] and [content_type]. *)
Record download := MkDownload {
  dl_document : option (option (list Z));
  dl_doc_length : option Z;
  dl_content_type : option (list Z)
}.
Definition nothing_downloaded : download := MkDownload None None None.

(** [memmove] of the entity to the start of the detached block, and the block
    cut to its size. *)
Definition move_entity (msg_start : option (list Z)) (entity : bufptr) : option (list Z) :=
  block ← msg_start; mem_slice block (bp_off entity) (bp_length entity + 1).

(** [response] is the local variable of the function; [want_type] tells whether
    [content_type] is given. *)
Definition http_Download (url_str : list Z) (timeout_secs : Z) (e : opening)
    (response : http_parser_t) (want_type : bool) : M (Z * download * net) :=
  '(ret_code, url) ← liftO (fix_str url_str (strlen url_str));
  if negb (ret_code =? UPNP_E_SUCCESS) then mret (ret_code, nothing_downloaded, op_net e)
  else
  let '(ret_code, host) := get_hoststr url_str in
  match host with
  | None => mret (ret_code, nothing_downloaded, op_net e)
  | Some h =>
      let path := path_ptr url_str url in
      '(ret_code, request) ← make membuffer_init 1 1 "QsbcDCUc"
        ([AInt HTTPMETHOD_GET; AStr (Some (mp_buf path)); ASize (mp_length path);
          lit_arg "HOST: "] ++ host_of url_str h);
      if negb (ret_code =? 0) then mret (ret_code, nothing_downloaded, op_net e)
      else
      request_buf ← liftO (mb_buf request);
      '(ret_code, response, nt) ← http_RequestAndResponse e request_buf (mb_length request)
        HTTPMETHOD_GET timeout_secs response;
      if negb (ret_code =? 0) then mret (ret_code, nothing_downloaded, nt)
      else
      let msg := p_msg response in
      let content_type :=
        if want_type : bool then
          match httpmsg_find_hdr msg HDR_CONTENT_TYPE with
          | None => Some []
          | Some (_, hd) =>
              let ctype := value_ptr hd in
              Some (ztake (Z.min (mp_length ctype) (LINE_SIZE - 1)) (mp_buf ctype))
          end
        else None in
      let entity := m_entity msg in
      let doc_length := bp_length entity in
      document ←
        (if doc_length =? 0 then mret (Some None)
         else if m_status_code msg =? HTTP_OK then
           d ← liftO (move_entity (membuffer_detach (m_msg_buf msg)).1 entity);
           _ ← assertM (doc_length <? msg_length response);
           mret (Some (Some d))
         else mret None);
      mret (if m_status_code msg =? HTTP_OK then 0 else m_status_code msg,
            MkDownload document (Some doc_length) content_type, nt)
  end.

(** ** Connection handles *)

Record http_connection_handle_t := Handle {
  h_net : net;
  h_contentLength : Z;
  h_response : http_parser_t;
  h_requestStarted : bool;
  h_cancel : bool
}.
Definition on_response (f : http_parser_t -> http_parser_t) (h : http_connection_handle_t) :=
  Handle (h_net h) (h_contentLength h) (f (h_response h)) (h_requestStarted h) (h_cancel h).
Definition set_net (nt : net) (h : http_connection_handle_t) :=
  Handle nt (h_contentLength h) (h_response h) (h_requestStarted h) (h_cancel h).
Definition set_requestStarted (b : bool) (h : http_connection_handle_t) :=
  Handle (h_net h) (h_contentLength h) (h_response h) b (h_cancel h).
Definition set_cancel (b : bool) (h : http_connection_handle_t) :=
  Handle (h_net h) (h_contentLength h) (h_response h) (h_requestStarted h) b.

(** A parser whose fields are all zero. *)
Definition zeroed_parser : http_parser_t :=
  Parser cleared_message 0 false POS_REQUEST_LINE 0 0 0 0 0 false.

(** One of the two loops of [ReadResponseLineAndHeaders]: [parse] is called
    again after every read until it is [finished].  An error is a status or the
    code of a failed read. *)
Fixpoint read_until (parse : http_parser_t -> M (parse_status_t * http_parser_t))
    (finished : http_parser_t -> bool) (fuel : nat) (nt : net) (parser : http_parser_t)
    (timeout_secs http_error_code : Z)
    : M ((parse_status_t + Z) * http_parser_t * Z * Z * net) :=
  match fuel with
  | O => running
  | S fuel' =>
      let '(num_read, buf, timeout_secs, nt) := sock_read nt 2048 timeout_secs in
      if 0 <? num_read then
        '(ret_code, b) ← membuffer_append junk (m_msg_buf (p_msg parser)) (Some buf) num_read;
        let parser := on_msg (set_msg_buf b) parser in
        if negb (ret_code =? 0) then
          mret (inl PARSE_FAILURE, set_error HTTP_INTERNAL_SERVER_ERROR parser, timeout_secs,
                http_error_code, nt)
        else
          '(status, parser) ← parse parser;
          if bool_decide (status = PARSE_OK) && finished parser then
            mret (inl PARSE_OK, parser, timeout_secs, http_error_code, nt)
          else if bool_decide (status = PARSE_INCOMPLETE) then
            read_until parse finished fuel' nt parser timeout_secs http_error_code
          else mret (inl status, parser, timeout_secs, http_error_code, nt)
      else if num_read =? 0 then
        mret (inr UPNP_E_BAD_HTTPMSG, parser, timeout_secs, HTTP_BAD_REQUEST, nt)
      else mret (inr num_read, parser, timeout_secs, p_http_error_code parser, nt)
  end.

(** The first attempt and the loop. *)
Definition read_part (parse : http_parser_t -> M (parse_status_t * http_parser_t))
    (finished : http_parser_t -> bool) (nt : net) (parser : http_parser_t)
    (timeout_secs http_error_code : Z)
    : M ((parse_status_t + Z) * http_parser_t * Z * Z * net) :=
  '(status, parser) ← parse parser;
  if bool_decide (status = PARSE_OK) && finished parser then
    mret (inl PARSE_OK, parser, timeout_secs, http_error_code, nt)
  else if bool_decide (status = PARSE_INCOMPLETE) then
    read_until parse finished (recv_fuel nt) nt parser timeout_secs http_error_code
  else mret (inl status, parser, timeout_secs, http_error_code, nt).

Local Abbreviation parse_responseline :=
  (parser_parse_responseline junk getaddrinfo inet_pton gIF_INDEX).
Local Abbreviation parse_headers := (parser_parse_headers junk getaddrinfo inet_pton gIF_INDEX).

Definition ReadResponseLineAndHeaders (nt : net) (parser : http_parser_t)
    (timeout_secs http_error_code : Z)
    : M ((parse_status_t + Z) * http_parser_t * Z * Z * net) :=
  '(r, parser, timeout_secs, http_error_code, nt) ←
    read_part parse_responseline (fun _ => true) nt parser timeout_secs http_error_code;
  match r with
  | inl PARSE_OK =>
      read_part parse_headers (fun p => bool_decide (p_position p = POS_ENTITY))
        nt parser timeout_secs http_error_code
  | _ => mret (r, parser, timeout_secs, http_error_code, nt)
  end.

(** [Handle] is a pointer: [None] stands for [NULL]. *)
Definition http_HttpGetProgress (Handle : option http_connection_handle_t)
    (want_length want_total : bool) : Z * Z * Z :=
  match Handle with
  | Some h =>
      if negb want_length || negb want_total then (UPNP_E_INVALID_PARAM, 0, 0)
      else (UPNP_E_SUCCESS, entity_length (h_response h), p_content_length (h_response h))
  | None => (UPNP_E_INVALID_PARAM, 0, 0)
  end.

Definition http_CancelHttpGet (Handle : option http_connection_handle_t)
    : Z * option http_connection_handle_t :=
  match Handle with
  | None => (UPNP_E_INVALID_PARAM, None)
  | Some h => (UPNP_E_SUCCESS, Some (set_cancel true h))
  end.

(** The result and [*Handle].  The fields that are not set have the value
    [malloc] left there: [stale] and [canceled]. *)
Definition http_OpenHttpConnection (url_str : option (list Z)) (want_handle : bool) (e : opening)
    (stale : Z) (canceled : bool) : M (Z * option http_connection_handle_t) :=
  match url_str with
  | Some url_str =>
      if negb want_handle then mret (UPNP_E_INVALID_PARAM, None)
      else
      '(ret_code, _) ← liftO (fix_str url_str (strlen url_str));
      if negb (ret_code =? UPNP_E_SUCCESS) then mret (ret_code, None)
      else
      ok ← malloc_ok;
      if negb ok then mret (UPNP_E_OUTOF_MEMORY, None)
      else
      let handle := Handle (op_net e) stale zeroed_parser false canceled in
      if op_socket e =? INVALID_SOCKET then mret (UPNP_E_SOCKET_ERROR, Some handle)
      else
      let '(rc, _) := sock_init (op_socket e) in
      if negb (rc =? UPNP_E_SUCCESS) then mret (UPNP_E_SOCKET_ERROR, Some handle)
      else
      let ret_code := private_connect e in
      if ret_code =? -1 then mret (UPNP_E_SOCKET_CONNECT, Some handle)
      else mret (ret_code, Some handle)
  | None => mret (UPNP_E_INVALID_PARAM, None)
  end.

Definition http_MakeHttpRequest (method : Z) (url_str : option (list Z))
    (Handle : option http_connection_handle_t) (headers contentType : option (list Z))
    (contentLength timeout : Z) : M (Z * option http_connection_handle_t) :=
  match url_str, Handle with
  | Some url_str, Some h =>
      let h := set_cancel false (set_requestStarted true h) in
      '(ret_code, request, _) ←
        MakeGenericMessage junk getaddrinfo inet_pton gIF_INDEX sysname release
          UPNP_VERSION_STRING gmtime now codes method url_str contentLength contentType headers;
      if negb (ret_code =? UPNP_E_SUCCESS) then mret (ret_code, Some h)
      else
      '(ret_code, _, nt) ← http_SendMessage (h_net h) timeout (cs "b")
        [AStr (mb_buf request); ASize (mb_length request)];
      mret (ret_code,
        Some (on_response (fun _ => parser_response_init method) (set_net nt h)))
  | _, _ => mret (UPNP_E_INVALID_PARAM, Handle)
  end.

(** The result, [*size] and the handle; [buf] holds at least [size] bytes. *)
Definition http_WriteHttpRequest (Handle : option http_connection_handle_t)
    (buf : option (list Z)) (size : option Z) (timeout : Z)
    : M (Z * option Z * option http_connection_handle_t) :=
  match Handle, buf, size with
  | Some h, Some buf, Some n =>
      d ← liftO (mem_slice buf 0 n);
      if h_contentLength h =? UPNP_USING_CHUNKED then
        ok ← (if n =? 0 then mret true else malloc_ok);
        if negb ok then mret (UPNP_E_OUTOF_MEMORY, size, Handle)
        else
          let tempbuf := if n =? 0 then [] else utoa 16 n ++ EOL ++ d ++ EOL in
          let '(numWritten, _, nt) := sock_write (h_net h) tempbuf (zlen tempbuf) timeout in
          mret (if numWritten <? 0 then (numWritten, Some 0, Some (set_net nt h))
                else (UPNP_E_SUCCESS, Some numWritten, Some (set_net nt h)))
      else
        let '(numWritten, _, nt) := sock_write (h_net h) d n timeout in
        mret (if numWritten <? 0 then (numWritten, Some 0, Some (set_net nt h))
              else (UPNP_E_SUCCESS, Some numWritten, Some (set_net nt h)))
  | _, _, _ =>
      mret (UPNP_E_INVALID_PARAM, match size with Some _ => Some 0 | None => None end, Handle)
  end.

Definition http_EndHttpRequest (Handle : option http_connection_handle_t) (timeout : Z)
    : Z * option http_connection_handle_t :=
  match Handle with
  | None => (UPNP_E_INVALID_PARAM, None)
  | Some h =>
      if negb (h_requestStarted h) then (UPNP_E_SUCCESS, Handle)
      else
      let h := set_requestStarted false h in
      let '(retc, nt) :=
        if h_contentLength h =? UPNP_USING_CHUNKED then
          let '(retc, _, nt) := sock_write (h_net h) ZCRLF (zlen ZCRLF) timeout in (retc, nt)
        else (0, h_net h) in
      (if 0 <=? retc then UPNP_E_SUCCESS else UPNP_E_SOCKET_WRITE, Some (set_net nt h))
  end.

(** The type of the contents and their length, as the caller is told. *)
Definition content_type_of (p : http_parser_t) : option (list Z) :=
  match httpmsg_find_hdr (p_msg p) HDR_CONTENT_TYPE with
  | None => None
  | Some (_, hd) => Some (mp_buf (value_ptr hd))
  end.
Definition content_length_of (p : http_parser_t) : option Z :=
  if bool_decide (p_position p = POS_COMPLETE) then Some 0
  else if p_ent_position p =? ENTREAD_USING_CHUNKED then Some UPNP_USING_CHUNKED
  else if p_ent_position p =? ENTREAD_USING_CLEN then Some (to_int (p_content_length p))
  else if p_ent_position p =? ENTREAD_UNTIL_CLOSE then Some UPNP_UNTIL_CLOSE
  else None.

(** The result, the type and the length of the contents ([None]: not set), and
    the status. *)
Definition http_GetHttpResponse (h : http_connection_handle_t) (timeout : Z)
    : M (Z * option (list Z) * option Z * Z * http_connection_handle_t) :=
  let failed response nt :=
    mret (UPNP_E_BAD_RESPONSE, None, None, 0,
      on_response (fun _ => set_msg (httpmsg_destroy (p_msg response)) response) (set_net nt h)) in
  '(r, response, _, _, nt) ← ReadResponseLineAndHeaders (h_net h) (h_response h) timeout 0;
  match r with
  | inl PARSE_OK =>
      '(status, response) ← parser_get_entity_read_method response;
      match status with
      | PARSE_CONTINUE_1 | PARSE_SUCCESS =>
          mret (UPNP_E_SUCCESS, content_type_of response, content_length_of response,
                m_status_code (p_msg response), on_response (fun _ => response) (set_net nt h))
      | _ => failed response nt
      end
  | _ => failed response nt
  end.

Local Abbreviation parse_entity := (parser_parse_entity junk getaddrinfo inet_pton gIF_INDEX).

(** What a parse of the entity means for the reader: [None] for an error, or
    whether the end of the connection ends the entity. *)
Definition entity_status (status : parse_status_t) (ok_on_close : bool) : option bool :=
  match status with
  | PARSE_INCOMPLETE_ENTITY => Some true
  | PARSE_SUCCESS | PARSE_CONTINUE_1 | PARSE_INCOMPLETE => Some ok_on_close
  | _ => None
  end.

Definition needs_more (h : http_connection_handle_t) (size : Z) : bool :=
  let p := h_response h in
  (entity_length p <? to_size (m_amount_discarded (p_msg p) + size))
  && negb (h_cancel h) && negb (bool_decide (p_position p = POS_COMPLETE)).

(** The loop that reads more if necessary; [inl] is the error to return. *)
Fixpoint entity_read_loop (fuel : nat) (h : http_connection_handle_t) (size timeout : Z)
    (ok_on_close : bool) : M ((Z + unit) * http_connection_handle_t) :=
  match fuel with
  | O => running
  | S fuel' =>
      if negb (needs_more h size) then mret (inr tt, h)
      else
      let '(num_read, tempbuf, timeout, nt) := sock_read (h_net h) 2048 timeout in
      let h := set_net nt h in
      if 0 <? num_read then
        '(ret_code, b) ← membuffer_append junk (m_msg_buf (p_msg (h_response h)))
          (Some tempbuf) num_read;
        let h := on_response (on_msg (set_msg_buf b)) h in
        if negb (ret_code =? 0) then
          mret (inl 3 (* PARSE_FAILURE *),
                on_response (set_error HTTP_INTERNAL_SERVER_ERROR) h)
        else
          '(status, p) ← parse_entity (h_response h);
          let h := on_response (fun _ => p) h in
          match entity_status status ok_on_close with
          | None => mret (inl UPNP_E_BAD_RESPONSE, h)
          | Some ok_on_close => entity_read_loop fuel' h size timeout ok_on_close
          end
      else if num_read =? 0 then
        if ok_on_close then
          entity_read_loop fuel' (on_response (set_position POS_COMPLETE) h) size timeout ok_on_close
        else mret (inl UPNP_E_BAD_HTTPMSG, on_response (set_error HTTP_BAD_REQUEST) h)
      else mret (inl num_read, h)
  end.

(** The bytes that are handed to the caller are taken out of the message. *)
Definition take_entity (p : http_parser_t) (size : Z) : M (list Z * http_parser_t) :=
  let size :=
    if entity_length p <? to_size (m_amount_discarded (p_msg p) + size)
    then to_size (entity_length p - m_amount_discarded (p_msg p)) else size in
  if 0 <? size then
    block ← liftO (mb_buf (m_msg_buf (p_msg p)));
    d ← liftO (mem_slice block (p_entity_start_position p) size);
    b ← membuffer_delete junk (m_msg_buf (p_msg p)) (p_entity_start_position p) size;
    mret (d, set_cursor (to_size (p_cursor p - size))
               (on_msg (fun r => set_amount_discarded (to_size (m_amount_discarded r + size))
                                   (set_msg_buf b r)) p))
  else mret ([], p).

(** The body of [http_ReadHttpResponse] for pointers that are not [NULL]: the
    result, [*size] ([None]: left alone), the bytes stored in [buf], and the
    handle. *)
Definition read_response (h : http_connection_handle_t) (size timeout : Z)
    : M (Z * option Z * list Z * http_connection_handle_t) :=
  '(status, p) ←
    (if bool_decide (p_position (h_response h) = POS_COMPLETE)
     then mret (PARSE_SUCCESS, h_response h) else parse_entity (h_response h));
  let h := on_response (fun _ => p) h in
  match entity_status status false with
  | None => mret (UPNP_E_BAD_RESPONSE, Some 0, [], h)
  | Some ok_on_close =>
      '(r, h) ← entity_read_loop (2 + recv_fuel (h_net h)) h size timeout ok_on_close;
      match r with
      | inl code => mret (code, Some 0, [], h)
      | inr _ =>
          if h_cancel h then mret (UPNP_E_CANCELED, None, [], h)
          else
          '(d, p) ← take_entity (h_response h) size;
          mret (UPNP_E_SUCCESS, Some (zlen d), d, on_response (fun _ => p) h)
      end
  end.

Definition http_ReadHttpResponse (Handle : option http_connection_handle_t) (buf_given : bool)
    (size : option Z) (timeout : Z)
    : M (Z * option Z * list Z * option http_connection_handle_t) :=
  match Handle, size with
  | Some h, Some n =>
      if (0 <? n) && negb buf_given then mret (UPNP_E_INVALID_PARAM, Some 0, [], Handle)
      else
        '(rc, size, d, h) ← read_response h n timeout;
        mret (rc, size, d, Some h)
  | _, _ =>
      mret (UPNP_E_INVALID_PARAM, match size with Some _ => Some 0 | None => None end, [], Handle)
  end.

(** The handle is freed; the socket is the one of [info]. *)
Definition http_CloseHttpConnection (Handle : option http_connection_handle_t) (close_rc : Z)
    (info : SOCKINFO) : Z * SOCKINFO :=
  match Handle with
  | None => (UPNP_E_INVALID_PARAM, info)
  | Some _ => (UPNP_E_SUCCESS, (sock_destroy close_rc info).2)
  end.

(** The result, [*Handle], and the type, length and status; [rangeBuf] only has
    a range. *)
Definition range_instr (lowRange highRange : Z) : SendInstruction :=
  MkInstr false false false false
    (snprintf 200 (cs "Range: bytes=" ++ itoa lowRange ++ cs "-" ++ itoa highRange ++ EOL)).2
    [] 0 0 0.

Definition http_OpenHttpGetEx (url_str : option (list Z)) (want_results : bool) (e : opening)
    (lowRange highRange timeout : Z)
    : M (Z * option http_connection_handle_t * option (list Z) * option Z * Z) :=
  let stop errCode := mret (errCode, None, None, Some 0, 0) in
  match url_str with
  | Some url_str =>
      if negb want_results then mret (UPNP_E_INVALID_PARAM, None, None, None, 0)
      else if highRange <? lowRange then stop UPNP_E_INTERNAL_ERROR
      else
      '(errCode, request, _) ←
        MakeGetMessageEx junk getaddrinfo inet_pton gIF_INDEX sysname release
          UPNP_VERSION_STRING gmtime now codes url_str membuffer_init
          (range_instr lowRange highRange);
      if negb (errCode =? UPNP_E_SUCCESS) then stop errCode
      else
      ok ← malloc_ok;
      if negb ok then stop UPNP_E_OUTOF_MEMORY
      else if op_socket e =? INVALID_SOCKET then stop UPNP_E_SOCKET_ERROR
      else
      let '(rc, _) := sock_init (op_socket e) in
      if negb (rc =? UPNP_E_SUCCESS) then stop UPNP_E_SOCKET_ERROR
      else if private_connect e =? -1 then stop UPNP_E_SOCKET_CONNECT
      else
      '(errCode, timeout, nt) ← http_SendMessage (op_net e) timeout (cs "b")
        [AStr (mb_buf request); ASize (mb_length request)];
      if negb (errCode =? UPNP_E_SUCCESS) then stop errCode
      else
      '(r, response, _, _, nt) ←
        ReadResponseLineAndHeaders nt (parser_response_init HTTPMETHOD_GET) timeout 0;
      match r with
      | inl PARSE_OK =>
          '(status, response) ← parser_get_entity_read_method response;
          match status with
          | PARSE_CONTINUE_1 | PARSE_SUCCESS =>
              mret (UPNP_E_SUCCESS, Some (Handle nt 0 response false false),
                    content_type_of response, 
                    Some (default 0 (content_length_of response)),
                    m_status_code (p_msg response))
          | _ => stop UPNP_E_BAD_RESPONSE
          end
      | _ => stop UPNP_E_BAD_RESPONSE
      end
  | None => mret (UPNP_E_INVALID_PARAM, None, None, None, 0)
  end.

Definition http_SendStatusResponse (nt : net) (http_status_code request_major_version
    request_minor_version : Z) : M (Z * net) :=
  let '(response_major, response_minor) :=
    http_CalcResponseVersion request_major_version request_minor_version in
  let membuf := Membuffer (mb_buf membuffer_init) (mb_length membuffer_init)
                  (mb_capacity membuffer_init) 70 in
  '(ret, membuf) ← make membuf response_major response_minor "RSCB"
    [AInt http_status_code; AInt http_status_code];
  if ret =? 0 then
    '(ret, _, nt) ← http_SendMessage nt HTTP_DEFAULT_TIMEOUT (cs "b")
      [AStr (mb_buf membuf); ASize (mb_length membuf)];
    mret (ret, nt)
  else mret (ret, nt).

End HttpIO.
