(* ===== verification/HttpRecv.v ===== *)
(** Receiving a message over a connection: [http_RecvMessage] of [HttpIO.v] with
    the parser of [HttpResume.v].  What it answers depends on the bytes that
    arrive and not on how the network cuts them into pieces. *)

From S2P Require Import Prelude CString MemBuffer HttpTables Uri Scanner HttpMessage HttpParser HttpSafety HttpResume Sock HttpMake HttpIO.

Section HttpRecv.
Context (junk : Z).
Context (getaddrinfo : list Z -> option (list sockaddr))
  (inet_pton : Z -> list Z -> option (list Z)) (gIF_INDEX : Z).
Context (g_maxContentLength : Z).

Local Abbreviation append := (parser_append junk getaddrinfo inet_pton gIF_INDEX).
Local Abbreviation fed := (fed junk getaddrinfo inet_pton gIF_INDEX).
Local Abbreviation loop := (recv_loop junk getaddrinfo inet_pton gIF_INDEX g_maxContentLength).

(** ** What is received *)

(** The parser reports [s] for all of [data] at once, and [p] is in the state it
    is then in, up to its buffer. *)
Definition parsed (request_method : Z) (data : list Z) (s : parse_status_t) (p : http_parser_t) : Prop :=
  exists q, append (recv_init request_method) data (zlen data) [] = Ret (s, q) [] /\ view p = view q.

Definition too_large (p : http_parser_t) : bool :=
  (0 <? g_maxContentLength) && (to_uint g_maxContentLength <? p_content_length p).

(** The answer when the parser has reported [s] for what was read; if it asks
    for more, it is what the next read meets on the connection [nt] that
    decides. *)
Definition answers (nt : net) (s : parse_status_t) (p : http_parser_t) (rc code : Z) : Prop :=
  let failed := code = p_http_error_code p /\
    ((rc = UPNP_E_TIMEDOUT /\ times_out nt) \/ (rc = UPNP_E_SOCKET_ERROR /\ socket_fails nt)) in
  match s with
  | PARSE_SUCCESS =>
      if too_large p then rc = UPNP_E_OUTOF_BOUNDS /\ code = HTTP_REQ_ENTITY_TOO_LARGE else rc = 0
  | PARSE_FAILURE | PARSE_NO_MATCH => rc = UPNP_E_BAD_HTTPMSG /\ code = p_http_error_code p
  | PARSE_INCOMPLETE_ENTITY => (rc = 0 /\ peer_closed nt) \/ failed
  | PARSE_INCOMPLETE => (rc = UPNP_E_BAD_HTTPMSG /\ code = HTTP_BAD_REQUEST /\ peer_closed nt) \/ failed
  | PARSE_OK | PARSE_CONTINUE_1 => False
  end.

Definition received_ok (request_method : Z) (nt : net) (r : recv_result) : Prop :=
  let '(rc, p, code, _, nt') := r in
  exists data nt1, pieces nt data nt1 /\
    incoming nt = data ++ incoming nt' /\ nt_out nt' = nt_out nt /\
    ((exists s, parsed request_method data s p /\ answers nt1 s p rc code) \/
     (data = [] /\ p = recv_init request_method /\ answers nt1 PARSE_INCOMPLETE p rc code)).

(** ** Lemmas *)

Lemma recv_init_state m : parse_state (recv_init m) /\ msg_length (recv_init m) = 0.
Proof.
  assert (harmless (fun r => set_request_method m (set_is_request false r))) as Hh by done.
  assert (harmless (set_is_request true)) as Hh2 by done.
  unfold recv_init. destruct (m =? _); (split; [split; [|done]|done]).
  - apply inv_position; [|done..]. exact (inv_harmless _ _ Hh2 parser_init_inv).
  - apply inv_position; [|done..]. exact (inv_harmless _ _ Hh parser_init_inv).
Qed.

Lemma fed_snoc p xs q c s q1 :
  fed p xs q -> append q c (zlen c) [] = Ret (s, q1) [] -> incomplete s -> fed p (xs ++ [c]) q1.
Proof.
  induction 1 as [p|p x xs s1 p1 q E Hi _ IH]; intros E1 Hi1.
  - econstructor; [done|done|]. constructor.
  - cbn. econstructor; [done|done|]. by apply IH.
Qed.

(** A parser that reads until the connection is closed goes on doing so. *)
Lemma append_until_close q c s q1 :
  parse_state q -> p_position q = POS_ENTITY -> p_ent_position q = ENTREAD_UNTIL_CLOSE ->
  msg_length q + zlen c <= MB_MAX ->
  append q c (zlen c) [] = Ret (s, q1) [] -> s = PARSE_INCOMPLETE_ENTITY.
Proof.
  intros Hq Hpos He Hmax E. destruct (append_unfold junk getaddrinfo inet_pton gIF_INDEX q c Hq Hmax)
    as (b & Eb & _). rewrite Eb in E.
  unfold parser_parse in E. cbn [parse_loop] in E. unfold parse_step in E.
  change (p_position (with_buf b q)) with (p_position q) in E. rewrite Hpos in E.
  unfold parser_parse_entity in E. change (p_position (with_buf b q)) with (p_position q) in E.
  rewrite Hpos in E. unfold entity_fuel in E. rewrite Nat.add_comm in E. cbn [Nat.add entity_loop] in E.
  unfold entity_step, parser_parse_entity_until_close in E.
  change (p_ent_position (with_buf b q)) with (p_ent_position q) in E. rewrite He in E.
  by injection E as <- _.
Qed.

(** The parser [q] of the loop after [data]. *)
Definition reading (m : Z) (data : list Z) (q : http_parser_t) (ok_on_close : bool) : Prop :=
  exists xs, concat xs = data /\ fed (recv_init m) xs q /\ parse_state q /\
    msg_length q <= zlen data /\
    ((data = [] /\ q = recv_init m /\ ok_on_close = false) \/
     exists s, parsed m data s q /\ incomplete s /\
       (if ok_on_close
        then s = PARSE_INCOMPLETE_ENTITY /\ p_position q = POS_ENTITY /\
             p_ent_position q = ENTREAD_UNTIL_CLOSE
        else s = PARSE_INCOMPLETE)).

Lemma reading_init m : reading m [] (recv_init m) false.
Proof.
  destruct (recv_init_state m) as [H1 H2]. exists []. split; [done|]. split; [constructor|].
  split; [done|]. split; [|by left]. rewrite H2. done.
Qed.

(** One piece more. *)
Lemma reading_append m data q okc c :
  reading m data q okc -> zlen (data ++ c) <= MB_MAX ->
  runs Lucky (append q c (zlen c)) (fun '(s, q1) =>
    parsed m (data ++ c) s q1 /\ s <> PARSE_OK /\ s <> PARSE_CONTINUE_1 /\
    (incomplete s -> reading m (data ++ c) q1 (okc || bool_decide (s = PARSE_INCOMPLETE_ENTITY)))).
Proof.
  intros (xs & <- & Hfed & Hq & Hlen & Hst) Hmax o Ho.
  pose proof (zlen_app (concat xs) c) as Hz. pose proof (zlen_nonneg c).
  destruct (recv_init_state m) as [Hi0 Hl0].
  pose proof (fed_same_view junk getaddrinfo inet_pton gIF_INDEX _ _ _ c Hfed Hi0
    ltac:(rewrite Hl0; lia)) as (s & p1 & q1 & E1 & E2 & Hv).
  pose proof (parser_append_runs Lucky junk getaddrinfo inet_pton gIF_INDEX ltac:(done) q c
    (proj1 Hq) (proj2 Hq) ltac:(lia)) as Hpost.
  apply (runs_lucky _ _ _ Hpost) in E2 as Hp. destruct Hp as (_ & Hs1 & Hs2 & _ & Huc).
  cbn in Ho. subst o. rewrite E2. cbn [fst snd] in *. split; [|done].
  assert (parsed m (concat xs ++ c) s q1) as Hpar by (exists p1; by rewrite Hv).
  split; [done|]. split; [done|]. split; [done|]. intros Hi.
  destruct (append_shrinks junk getaddrinfo inet_pton gIF_INDEX q c s q1 Hq ltac:(lia) E2 Hi)
    as [Hq1 Hl1].
  exists (xs ++ [c]). rewrite concat_app. cbn [concat]. rewrite app_nil_r.
  split; [done|]. split; [by eapply fed_snoc|]. split; [done|]. split; [lia|].
  right. exists s. split; [done|]. split; [done|].
  destruct okc; cbn [orb].
  - destruct Hst as [(_ & _ & ?)|(s0 & _ & _ & _ & Hpos & He)]; [done|].
    assert (s = PARSE_INCOMPLETE_ENTITY) as ->
      by (apply (append_until_close q c s q1); done || lia).
    by destruct (Huc eq_refl).
  - case_bool_decide as Hs; [subst s; by destruct (Huc eq_refl)|]. by destruct Hi as [Hi|Hi].
Qed.

(** The answer after [data] and what is read of [nt]. *)
Definition received_from (m : Z) (data : list Z) (nt : net) (r : recv_result) : Prop :=
  let '(rc, p, code, _, nt') := r in
  exists more nt1, pieces nt more nt1 /\ incoming nt = more ++ incoming nt' /\ nt_out nt' = nt_out nt /\
    ((exists s, parsed m (data ++ more) s p /\ answers nt1 s p rc code) \/
     (data ++ more = [] /\ p = recv_init m /\ answers nt1 PARSE_INCOMPLETE p rc code)).

Lemma received_more m data got nt nt1 r :
  delivers nt got nt1 -> incoming nt = got ++ incoming nt1 -> nt_out nt1 = nt_out nt ->
  received_from m (data ++ got) nt1 r -> received_from m data nt r.
Proof.
  destruct r as [[[[rc p] code] t] nt']. intros Hd Hi Ho (more & nt2 & Hp & H1 & H2 & H3).
  exists (got ++ more), nt2. rewrite Hi, H1, H2, Ho. rewrite <- app_assoc in H3.
  split; [by eapply one_more|]. split; [by rewrite app_assoc|]. by split.
Qed.

(** The answer when nothing more is read. *)
Lemma received_end m data nt nt1 q okc rc code t :
  reading m data q okc -> incoming nt = incoming nt1 -> nt_out nt1 = nt_out nt ->
  (code = p_http_error_code q /\
    ((rc = UPNP_E_TIMEDOUT /\ times_out nt) \/ (rc = UPNP_E_SOCKET_ERROR /\ socket_fails nt)) \/
   (peer_closed nt /\ if okc then rc = 0 else rc = UPNP_E_BAD_HTTPMSG /\ code = HTTP_BAD_REQUEST)) ->
  received_from m data nt (rc, q, code, t, nt1).
Proof.
  intros (xs & _ & _ & _ & _ & Hst) Hin Hout Hrc. exists [], nt. rewrite app_nil_r.
  split; [constructor|]. split; [done|]. split; [done|].
  destruct Hst as [(-> & -> & ->)|(s & Hp & _ & Hs)].
  - right. split; [done|]. split; [done|]. cbn. tauto.
  - left. exists s. split; [done|]. destruct okc; [destruct Hs as [-> _]|subst s]; cbn; tauto.
Qed.

(** The loop ends for one of the reasons of [answers]. *)
Lemma recv_loop_runs fuel m data nt q n len timeout okc :
  reading m data q okc -> zlen (data ++ incoming nt) <= MB_MAX -> 0 < len ->
  (recv_fuel nt <= fuel)%nat ->
  runs Lucky (loop fuel nt q n len timeout okc) (received_from m data nt).
Proof.
  revert data nt q n len timeout okc.
  induction fuel as [|fuel IH]; intros data nt q n len timeout okc Hr Hmax Hlen Hf;
    [unfold recv_fuel in Hf; lia|].
  cbn [recv_loop]. set (len' := if len <=? n then 2 * len else len).
  assert (0 < len') as Hlen' by (unfold len'; case_match; lia).
  assert (runs Lucky (if len <=? n then malloc_ok else mret true) (fun b => b = true)) as Hm
    by (destruct (len <=? n); [by apply runs_malloc|by apply runs_ret]).
  apply runs_bind. eapply runs_mono; [exact Hm|]. intros ? ->. cbn [negb].
  pose proof (zlen_app data (incoming nt)) as Hz. pose proof (zlen_nonneg data).
  destruct (sock_read nt len' timeout) as [[[rc got] t] nt1] eqn:Er.
  destruct (sock_read_spec nt len' timeout rc got t nt1 Hlen'
    ltac:(unfold MB_MAX in *; lia) Er)
    as (Hin & Hout & _ & Hpos & Hneg & _).
  pose proof (sock_read_meets nt len' timeout rc got t nt1 Hlen' ltac:(unfold MB_MAX in *; lia) Er) as Hmeets.
  unfold UPNP_E_TIMEDOUT, UPNP_E_SOCKET_ERROR in Hmeets.
  destruct (0 <? rc) eqn:Hrc; zbool.
  - assert (delivers nt got nt1) as Hdel by (destruct Hmeets as [[_ ?]|[[? _]|[[? _]|[? _]]]]; done || lia).
    destruct (Hpos Hrc) as [-> Hfuel]. rewrite Hin, app_assoc in Hmax.
    pose proof (zlen_app (data ++ got) (incoming nt1)) as Hz1. pose proof (zlen_nonneg (incoming nt1)).
    apply runs_bind. eapply runs_mono; [apply (reading_append m data q okc got Hr); lia|].
    intros [s p1] (Hpar & Hs1 & Hs2 & Hnext).
    assert (incomplete s -> runs Lucky (loop fuel nt1 p1 (zlen got) len' t
      (okc || bool_decide (s = PARSE_INCOMPLETE_ENTITY))) (received_from m data nt)) as Hgo.
    { intros Hi. eapply runs_mono; [apply (IH (data ++ got)); [by apply Hnext|done|done|lia]|].
      intros r. by apply (received_more _ _ got). }
    assert (forall rc code, answers nt1 s p1 rc code ->
      runs Lucky (mret (rc, p1, code, t, nt1)) (received_from m data nt)) as Hend.
    { intros rc code Ha. apply runs_ret. exists got, nt1.
      split; [rewrite <- (app_nil_r got); eapply one_more; [exact Hdel|constructor]|].
      split; [done|]. split; [done|]. left. by exists s. }
    destruct s; try done.
    + cbv beta iota. unfold answers, too_large in Hend.
      destruct (_ && _); apply Hend; done.
    + specialize (Hgo (or_introl eq_refl)).
      rewrite bool_decide_false, orb_false_r in Hgo by done. exact Hgo.
    + specialize (Hgo (or_intror eq_refl)).
      rewrite bool_decide_true, orb_true_r in Hgo by done. exact Hgo.
    + by apply Hend.
    + by apply Hend.
  - rewrite (Hneg Hrc) in Hin. cbn [app] in Hin. destruct (rc =? 0) eqn:H0; zbool.
    + assert (peer_closed nt) as Hc by (destruct Hmeets as [[? _]|[[_ ?]|[[? _]|[? _]]]]; done || lia).
      apply runs_ret. by destruct okc; apply (received_end _ _ _ _ _ _ _ _ _ Hr Hin Hout); right.
    + apply runs_ret. apply (received_end _ _ _ _ _ _ _ _ _ Hr Hin Hout). left. split; [done|].
      destruct Hmeets as [[? _]|[[? _]|[?|?]]]; [lia|lia|by left|by right].
Qed.

End HttpRecv.

(** A response in two pieces whose body ends with the connection. *)
Definition a_response : list Z := cs "HTTP/1.1 200 OK" ++ EOL ++ EOL ++ cs "abc".

Definition two_pieces : net :=
  MkNet [] [Bytes (ztake 9 a_response); Bytes (zdrop 9 a_response)] [] [] [].

