(* ===== verification/HttpSend.v ===== *)
(** What [http_SendMessage] of [HttpIO.v] puts on the wire. *)

From S2P Require Import Prelude CString MemBuffer Uri Sock HttpMake HttpIO.

(** ** Connections that do not fail *)

(** No coming call reports an error; writes may be short. *)
Definition healthy (nt : net) : Prop :=
  Forall (fun r => r = Ready \/ r = Interrupted) (nt_select nt) /\
  Forall (fun n => 0 <= n) (nt_send nt).

Lemma select_loop_healthy l r l' :
  Forall (fun r => r = Ready \/ r = Interrupted) l -> select_loop l = (r, l') ->
  r = Ready /\ Forall (fun r => r = Ready \/ r = Interrupted) l'.
Proof.
  induction 1 as [|x l [->| ->] Hl IH]; cbn; intros E; simplify_eq; [by split..|auto].
Qed.

Lemma send_loop_healthy answers d out ok answers' out' :
  Forall (fun n => 0 <= n) answers -> send_loop answers d out = (ok, answers', out') ->
  ok = true /\ Forall (fun n => 0 <= n) answers'.
Proof.
  intros H. revert d out. induction H as [|n l Hn Hl IH]; intros d out E; cbn in E.
  - destruct d; by simplify_eq.
  - destruct d; [simplify_eq; split; [done|by constructor]|].
    rewrite (proj2 (Z.ltb_ge n 0)) in E by lia. by eapply IH.
Qed.

Lemma sock_write_healthy nt buffer timeoutSecs rc t nt' :
  zlen buffer <= INT_MAX -> healthy nt ->
  sock_write nt buffer (zlen buffer) timeoutSecs = (rc, t, nt') ->
  rc = zlen buffer /\ healthy nt'.
Proof.
  intros Hb [Hs Hw]. pose proof (zlen_nonneg buffer).
  unfold sock_write, sock_read_write, time. destruct (select_loop _) as [r l] eqn:Es.
  change (nt_select (set_clock _ nt)) with (nt_select nt) in Es.
  apply (select_loop_healthy _ _ _ Hs) in Es as [-> Hl].
  change (nt_send (set_select _ _)) with (nt_send nt).
  destruct (send_loop _ _ _) as [[ok answers] out] eqn:El.
  apply (send_loop_healthy _ _ _ _ _ _ Hw) in El as [-> Ha].
  rewrite (to_int_small (zlen buffer)) by lia.
  destruct (timeoutSecs =? 0); intros E; simplify_eq/=; by split.
Qed.

Section HttpSend.
Context (files : list Z -> option (list Z)) {V : Type} (vd_open : list Z -> option V)
  (vd_seek : V -> Z -> Z * V) (vd_read : V -> Z -> Z * list Z * V) (virtual_fuel : nat).

(** ** The virtual directory

    What the callbacks promise: the value of an open file determines the bytes
    that reading it delivers before a read returns none, which is the end of the
    file or a failure, and seeking leaves such a value or fails. *)
Class VirtualDir (holds : V -> list Z -> Prop) : Prop := {
  vd_open_ok name v : vd_open name = Some v -> exists d, holds v d;
  vd_seek_ok v off v' : (exists d, holds v d) -> vd_seek v off = (0, v') -> exists d, holds v' d;
  vd_read_ok v d n : holds v d -> 0 < n ->
    exists got rest v', vd_read v n = (zlen got, got, v') /\ zlen got <= n /\
      d = got ++ rest /\ holds v' rest /\ (got = [] -> d = []);
  vd_fuel v d : holds v d -> (length d + 2 <= virtual_fuel)%nat
}.
Context (holds : V -> list Z -> Prop) `{!VirtualDir holds}.

Local Abbreviation loop := (file_loop vd_read).
Local Abbreviation read := (read_stream vd_read).
Local Abbreviation send := (http_SendMessage files vd_open vd_seek vd_read virtual_fuel).

(** ** Specification *)

Definition chunk (d : list Z) : list Z := utoa 16 (zlen d) ++ EOL ++ d ++ EOL.
Definition encode (i : SendInstruction) (d : list Z) : list Z :=
  if IsChunkActive i then chunk d else d.

(** The part of the contents that is to be sent when [amount] bytes are asked
    for, and what follows when the file ends before that. *)
Definition wanted (i : SendInstruction) (amount : Z) (d : list Z) : list Z :=
  if ReadSendSize i <? 0 then d else ztake amount d.
Definition ended (i : SendInstruction) (amount : Z) (d : list Z) : bool :=
  (ReadSendSize i <? 0) || (zlen d <? amount).
Definition last_chunk (i : SendInstruction) (amount : Z) (d : list Z) : list Z :=
  if IsChunkActive i && ended i amount d then ZCRLF else [].
Definition send_status (i : SendInstruction) (amount : Z) (d : list Z) : Z :=
  if negb (IsChunkActive i) && ended i amount d then UPNP_E_FILE_READ_ERROR else 0.

(** What is sent of a file: pieces of at most [size] bytes, up to the first
    failure of the connection. *)
Definition sends (i : SendInstruction) (size amount : Z) (d : list Z) (nt : net)
    (r : send_result) : Prop :=
  let '(rc, _, nt') := r in
  exists pieces unread sent rest,
    Forall (fun g => 0 < zlen g <= size) pieces /\
    concat pieces ++ unread = wanted i amount d /\
    nt_in nt' = nt_in nt /\ nt_out nt' = nt_out nt ++ sent /\
    concat (encode i <$> pieces) ++ (if bool_decide (unread = []) then last_chunk i amount d else [])
      = sent ++ rest /\
    (rc = 0 \/ rc = send_status i amount d) /\
    (healthy nt -> unread = [] /\ rest = [] /\ rc = send_status i amount d /\ healthy nt').

(** The document a response is about: a local file from the start of the range,
    or what a virtual file delivers when it has been opened and positioned. *)
Definition opens (i : SendInstruction) (filename : list Z) (d : list Z) : Prop :=
  if IsVirtualFile i then
    exists v, vd_open filename = Some v /\
      if IsRangeActive i then exists v', vd_seek v (RangeOffset i) = (0, v') /\ holds v' d
      else holds v d
  else exists contents, files filename = Some contents /\
    d = if IsRangeActive i then zdrop (RangeOffset i) contents else contents.

(** There is no such file, or the callback cannot go to the start of the
    range. *)
Definition cannot_open (i : SendInstruction) (filename : list Z) : Prop :=
  if IsVirtualFile i then
    vd_open filename = None \/
    (IsRangeActive i = true /\ exists v, vd_open filename = Some v /\ (vd_seek v (RangeOffset i)).1 <> 0)
  else files filename = None.

(** The header is written, and then what [Q] says; or the connection fails. *)
Definition sends_after (header : list Z) (Q : net -> send_result -> Prop) (nt : net)
    (r : send_result) : Prop :=
  let '(rc, _, nt') := r in
  (exists sent rest, header = sent ++ rest /\ nt_out nt' = nt_out nt ++ sent /\
     nt_in nt' = nt_in nt /\ rc = 0 /\ ~ healthy nt) \/
  (exists nt1, nt_out nt1 = nt_out nt ++ header /\ nt_in nt1 = nt_in nt /\
     (healthy nt -> healthy nt1) /\ Q nt1 r).

Definition sends_file (i : SendInstruction) (filename : list Z) (nt : net) (r : send_result) : Prop :=
  (exists d, opens i filename d /\ sends i WEB_SERVER_BUF_SIZE (ReadSendSize i) d nt r) \/
  (cannot_open i filename /\ r.1.1 = UPNP_E_FILE_READ_ERROR /\ r.2 = nt).

(** ** Lemmas *)

Definition stream_holds (src : stream) (d : list Z) : Prop :=
  match src with Local rest => rest = d | Virtual v => holds v d end.

Lemma read_stream_spec src d n :
  stream_holds src d -> 0 < n <= INT_MAX -> exists got rest src',
    read src n = (zlen got, got, src') /\ zlen got <= n /\ d = got ++ rest /\
    stream_holds src' rest /\ (got = [] -> d = []).
Proof.
  intros H Hn. destruct src as [l|v]; cbn in *.
  - subst l. exists (ztake n d), (zdrop n d), (Local (zdrop n d)).
    assert (zlen (ztake n d) <= n) by (unfold zlen, ztake; rewrite length_take; lia). rewrite ztake_zdrop. split_and!; try done.
    intros E. destruct d as [|c d]; [done|]. exfalso.
    assert (zlen (ztake n (c :: d)) = 0) as E2 by by rewrite E.
    destruct (Z.leb_spec n (zlen (c :: d))).
    + rewrite zlen_ztake in E2 by lia. lia.
    + rewrite ztake_all in E2 by lia. rewrite zlen_cons in E2. pose proof (zlen_nonneg d). lia.
  - destruct (vd_read_ok v d n H ltac:(lia)) as (got & rest & v' & E & Hg & Hd & Hv & He).
    exists got, rest, (Virtual v'). rewrite E. pose proof (zlen_nonneg got).
    rewrite to_size_small by (unfold SIZE_MAX, INT_MAX in *; lia). by split_and!.
Qed.

Lemma stream_holds_fuel src d :
  stream_holds src d -> (length d + 2 <= stream_fuel virtual_fuel src)%nat.
Proof. destruct src as [l|v]; cbn; [intros ->; lia|by apply vd_fuel]. Qed.

Lemma Chunk_Header_ok n :
  0 <= n <= WEB_SERVER_BUF_SIZE ->
  Chunk_Header n = (zlen (utoa 16 n ++ EOL), utoa 16 n ++ EOL) /\
  zlen (utoa 16 n ++ EOL) < CHUNK_HEADER_SIZE.
Proof.
  intros Hn. unfold Chunk_Header, snprintf.
  assert (zlen (utoa 16 n ++ EOL) < CHUNK_HEADER_SIZE) as H.
  { pose proof (zlen_digits_small 64 16 6 n [] eq_refl ltac:(unfold WEB_SERVER_BUF_SIZE in *;
      change (16 ^ Z.of_nat 6) with 16777216; lia) ltac:(lia)) as H.
    rewrite zlen_app. unfold utoa, CHUNK_HEADER_SIZE. change (zlen EOL) with 2.
    rewrite zlen_nil in H. lia. }
  split; [|done]. rewrite ztake_all by lia. done.
Qed.

(** The amount that is left after a piece. *)
Definition left_over (i : SendInstruction) (size amount : Z) (got : list Z) : Z :=
  if ReadSendSize i <? 0 then size else amount - zlen got.

Lemma after_piece i size amount got rest :
  zlen got <= amount ->
  let amount' := left_over i size amount got in
  wanted i amount (got ++ rest) = got ++ wanted i amount' rest /\
  last_chunk i amount (got ++ rest) = last_chunk i amount' rest /\
  send_status i amount (got ++ rest) = send_status i amount' rest.
Proof.
  intros Hg. unfold left_over, last_chunk, send_status, ended, wanted.
  destruct (ReadSendSize i <? 0); [done|]. cbn [orb].
  assert ((zlen (got ++ rest) <? amount) = (zlen rest <? amount - zlen got)) as ->.
  { rewrite zlen_app. apply eq_bool_prop_intro. rewrite !Is_true_true, !Z.ltb_lt. lia. }
  split; [|done]. by rewrite ztake_app_ge.
Qed.

Lemma encode_small i got : zlen got <= WEB_SERVER_BUF_SIZE -> zlen (encode i got) <= INT_MAX.
Proof.
  intros Hg. pose proof (Chunk_Header_ok (zlen got) (conj (zlen_nonneg _) Hg)) as [_ H].
  unfold encode, chunk, WEB_SERVER_BUF_SIZE, INT_MAX, CHUNK_HEADER_SIZE in *. destruct (IsChunkActive i); [|lia].
  rewrite !zlen_app in *. change (zlen EOL) with 2 in *. lia.
Qed.

Lemma encode_pos i got : 0 < zlen got -> 0 < zlen (encode i got).
Proof.
  intros Hg. unfold encode, chunk. destruct (IsChunkActive i); [|done].
  rewrite !zlen_app. change (zlen EOL) with 2. pose proof (zlen_nonneg (utoa 16 (zlen got))). lia.
Qed.

(** One piece is written, and the loop goes on or the connection has failed. *)
Lemma piece_runs md i size amount got rest nt t (k : send_result -> M send_result) :
  0 < zlen got <= size -> size <= WEB_SERVER_BUF_SIZE -> zlen got <= amount ->
  (forall t1 nt1, runs md (k (0, t1, nt1)) (sends i size (left_over i size amount got) rest nt1)) ->
  runs md (let '(nw, t1, nt1) := sock_write nt (encode i got) (zlen (encode i got)) t in
           if (nw <=? 0) || negb (to_size nw =? zlen (encode i got)) then mret (0, t1, nt1)
           else k (0, t1, nt1)) (sends i size amount (got ++ rest) nt).
Proof.
  intros Hg Hsize Ha Hk. destruct (after_piece i size amount got rest Ha) as (Ew & El & Es).
  pose proof (encode_small i got ltac:(lia)) as Hmax. pose proof (encode_pos i got ltac:(lia)) as H0.
  destruct (sock_write nt (encode i got) (zlen (encode i got)) t) as [[nw t1] nt1] eqn:E.
  destruct (sock_write_spec _ _ _ _ _ _ Hmax E) as (Hin & sent & unsent & Hd & Hout & Hpos & Hneg).
  assert (healthy nt -> nw = zlen (encode i got) /\ healthy nt1) as Hh
    by (intros Hh; by eapply sock_write_healthy).
  assert (nw < 0 \/ 0 <= nw) as [Hnw|Hnw] by lia.
  - rewrite (proj2 (Z.leb_le nw 0)) by lia. cbn [orb]. apply runs_ret.
    exists [got], (wanted i (left_over i size amount got) rest), sent,
      (unsent ++ if bool_decide (wanted i (left_over i size amount got) rest = [])
                 then last_chunk i amount (got ++ rest) else []).
    split; [apply List.Forall_cons; [done|apply List.Forall_nil]|]. cbn [concat fmap list_fmap]. rewrite !app_nil_r.
    split; [done|]. split; [done|]. split; [done|]. split; [by rewrite Hd, app_assoc|].
    split; [by left|]. intros H. destruct (Hh H). lia.
  - destruct (Hpos Hnw) as [-> ->]. rewrite app_nil_r in Hd. subst sent.
    rewrite (proj2 (Z.leb_gt (zlen (encode i got)) 0)) by lia.
    rewrite to_size_small by (unfold SIZE_MAX, INT_MAX in *; lia). rewrite Z.eqb_refl. cbn [negb orb].
    eapply runs_mono; [apply Hk|].
    intros [[rc t2] nt2] (pieces & unread & sent & unsent & H1 & H2 & H3 & H4 & H5 & H6 & H7).
    exists (got :: pieces), unread, (encode i got ++ sent), unsent.
    split; [by apply List.Forall_cons|]. cbn [concat fmap list_fmap]. rewrite <- !app_assoc, H2, El, Es, Ew.
    split; [done|]. split; [congruence|]. split; [by rewrite H4, Hout, app_assoc|].
    split; [by rewrite H5|]. split; [done|]. intros H. apply H7. by apply Hh.
Qed.

(** The end of the file. *)
Lemma eof_runs md i size amount nt t :
  0 < amount ->
  runs md (if IsChunkActive i
           then let '(_, t1, nt1) := sock_write nt ZCRLF (zlen ZCRLF) t in mret (0, t1, nt1)
           else mret (UPNP_E_FILE_READ_ERROR, t, nt)) (sends i size amount [] nt).
Proof.
  intros Ha. assert (ended i amount [] = true) as He.
  { unfold ended. apply orb_true_iff. right. by apply Z.ltb_lt. }
  assert (wanted i amount [] = []) as Hw
    by (unfold wanted; destruct (_ <? _); [done|]; apply ztake_all; rewrite zlen_nil; lia).
  assert (last_chunk i amount [] = if IsChunkActive i then ZCRLF else []) as Hl
    by (unfold last_chunk; rewrite He; by destruct (IsChunkActive i)).
  assert (send_status i amount [] = if IsChunkActive i then 0 else UPNP_E_FILE_READ_ERROR) as Hs
    by (unfold send_status; rewrite He; by destruct (IsChunkActive i)).
  destruct (IsChunkActive i).
  - destruct (sock_write nt ZCRLF (zlen ZCRLF) t) as [[nw t1] nt1] eqn:E.
    assert (zlen ZCRLF <= INT_MAX) as Hmax by by vm_compute.
    destruct (sock_write_spec _ _ _ _ _ _ Hmax E) as (Hin & sent & unsent & Hd & Hout & Hpos & _).
    apply runs_ret. exists [], [], sent, unsent. split; [apply List.Forall_nil|].
    rewrite Hw, Hl, Hs. split; [done|]. split; [done|]. split; [done|]. split; [done|].
    split; [by left|]. intros Hh. destruct (sock_write_healthy _ _ _ _ _ _ Hmax Hh E) as [-> H1].
    destruct (Hpos ltac:(by vm_compute)) as [_ ->]. by split_and!.
  - apply runs_ret. exists [], [], [], []. split; [apply List.Forall_nil|].
    rewrite Hw, Hl, Hs, !app_nil_r. by split_and!; auto.
Qed.

Lemma file_loop_runs md fuel nt t i size amount src d :
  stream_holds src d -> (length d + 2 <= fuel)%nat -> 0 <= amount ->
  (0 < amount -> 0 < size <= WEB_SERVER_BUF_SIZE) -> (ReadSendSize i < 0 -> 0 < amount) ->
  runs md (loop fuel nt t i size amount src) (sends i size amount d nt).
Proof.
  revert nt t amount src d. induction fuel as [|fuel IH];
    intros nt t amount src d Hd Hf Ha Hsize Hneg; [lia|]. cbn [file_loop].
  destruct (Z.eqb_spec amount 0) as [->|Hne].
  { apply runs_ret. exists [], [], [], []. cbn. unfold last_chunk, send_status, ended, wanted.
    rewrite (proj2 (Z.ltb_ge (ReadSendSize i) 0)) by lia.
    pose proof (zlen_nonneg d). rewrite (proj2 (Z.ltb_ge (zlen d) 0)) by lia.
    cbn [orb]. rewrite !andb_false_r, !app_nil_r. by split_and!; auto. }
  specialize (Hsize ltac:(lia)). unfold WEB_SERVER_BUF_SIZE in Hsize.
  set (n := if size <=? amount then size else to_size amount).
  assert (0 < n <= size /\ n <= amount) as [Hn Hna].
  { unfold n. destruct (Z.leb_spec size amount); [lia|].
    rewrite to_size_small by (unfold SIZE_MAX; lia). lia. }
  destruct (read_stream_spec src d n Hd ltac:(unfold INT_MAX; lia))
    as (got & rest & src' & -> & Hg & -> & Hrest & Hnil).
  fold (left_over i size amount got).
  destruct (Z.eqb_spec (zlen got) 0) as [Hz|Hz].
  { destruct got as [|c got]; [|rewrite zlen_cons in Hz; pose proof (zlen_nonneg got); lia]. rewrite (Hnil eq_refl). apply eof_runs. lia. }
  assert (zlen got <= size) as Hgs by lia. pose proof (zlen_nonneg got).
  mstep. eapply runs_liftO.
  { by rewrite (proj2 (Z.leb_le _ _) Hgs), (proj2 (Z.leb_le _ _) (Z.le_refl (zlen got))). }
  cbv beta iota. rewrite ztake_all by lia.
  assert (forall t1 nt1, runs md (loop fuel nt1 t1 i size (left_over i size amount got) src')
    (sends i size (left_over i size amount got) rest nt1)) as Hk.
  { intros t1 nt1. rewrite length_app in Hf. apply IH; try done; [unfold zlen in *; lia|..];
      unfold left_over; destruct (Z.ltb_spec (ReadSendSize i) 0); lia. }
  pose proof (piece_runs md i size amount got rest nt t
    (fun r => let '(_, t1, nt1) := r in loop fuel nt1 t1 i size (left_over i size amount got) src')
    ltac:(lia) ltac:(unfold WEB_SERVER_BUF_SIZE; lia) ltac:(lia) Hk) as Hgoal.
  unfold encode, chunk in Hgoal. destruct (IsChunkActive i); [|exact Hgoal].
  destruct (Chunk_Header_ok (zlen got)) as [-> Hl]; [unfold WEB_SERVER_BUF_SIZE; lia|].
  rewrite (proj2 (Z.leb_gt _ _) Hl).
  assert (zlen got + zlen (utoa 16 (zlen got) ++ EOL) + 2
    = zlen (utoa 16 (zlen got) ++ EOL ++ got ++ EOL)) as -> by (rewrite !zlen_app; change (zlen EOL) with 2; lia).
  rewrite <- app_assoc. exact Hgoal.
Qed.

Lemma sends_weaken i size amount amount' d nt r :
  size <= WEB_SERVER_BUF_SIZE -> ReadSendSize i < 0 \/ amount = amount' ->
  sends i size amount d nt r -> sends i WEB_SERVER_BUF_SIZE amount' d nt r.
Proof.
  intros Hs Ha. destruct r as [[rc t] nt']. intros (pieces & unread & sent & rest & H1 & H).
  exists pieces, unread, sent, rest.
  split; [eapply Forall_impl; [exact H1|]; cbn; intros g Hg; lia|].
  unfold last_chunk, send_status, ended, wanted in *.
  destruct Ha as [Ha| ->]; [|exact H]. rewrite (proj2 (Z.ltb_lt _ _) Ha) in *. exact H.
Qed.

Lemma open_file_spec i filename :
  0 <= RangeOffset i ->
  match open_file files vd_open vd_seek (Some i) filename with
  | Some src => exists d, opens i filename d /\ stream_holds src d
  | None => cannot_open i filename
  end.
Proof.
  intros Ho. unfold open_file, opens, cannot_open. destruct (IsVirtualFile i).
  - destruct (vd_open filename) as [v|] eqn:Ev; cbn; [|by left]. pose proof (vd_open_ok _ _ Ev) as Hv.
    destruct (IsRangeActive i); [|destruct Hv as [d Hv]; exists d; split; [by exists v|done]].
    destruct (vd_seek v (RangeOffset i)) as [rc v'] eqn:Es.
    destruct (Z.eqb_spec rc 0) as [->|Hrc]; cbn.
    + destruct (vd_seek_ok _ _ _ Hv Es) as [d Hd]. exists d. split; [|done]. eauto.
    + right. split; [done|]. exists v. by rewrite Es.
  - destruct (files filename) as [d|]; [|done]. cbn.
    destruct (IsRangeActive i); [|exists d; split; [by exists d|done]].
    rewrite (proj2 (Z.ltb_ge _ _) Ho). exists (zdrop (RangeOffset i) d). split; [by exists d|done].
Qed.

(** Writing a buffer, with what comes after it. *)
Lemma buffer_runs md header nt t (k : Z -> net -> M send_result) Q :
  0 < zlen header <= INT_MAX -> (forall t1 nt1, runs md (k t1 nt1) (Q nt1)) ->
  runs md (let '(nw, t1, nt1) := sock_write nt header (zlen header) t in
           if negb (to_size nw =? zlen header) then mret (0, t1, nt1) else k t1 nt1)
    (sends_after header Q nt).
Proof.
  intros Hh Hk. destruct (sock_write nt header (zlen header) t) as [[nw t1] nt1] eqn:E.
  destruct (sock_write_spec _ _ _ _ _ _ (proj2 Hh) E)
    as (Hin & sent & rest & Hd & Hout & Hpos & Hneg).
  assert (healthy nt -> nw = zlen header /\ healthy nt1) as Hw
    by (intros H; apply (sock_write_healthy _ _ _ _ _ _ (proj2 Hh) H E)).
  assert (nw < 0 \/ 0 <= nw) as [Hnw|Hnw] by lia.
  - assert (to_size nw = nw + 2 ^ 64) as ->.
    { unfold to_size, wrapU. rewrite <- (Z_mod_plus_full nw 1), Z.mod_small; unfold INT_MAX in *; lia. }
    rewrite (proj2 (Z.eqb_neq _ _)) by (unfold INT_MAX in *; lia). apply runs_ret. left.
    exists sent, rest. split_and!; try done. intros H. destruct (Hw H). lia.
  - destruct (Hpos Hnw) as [-> ->]. rewrite app_nil_r in Hd. subst sent.
    rewrite to_size_small by (unfold SIZE_MAX, INT_MAX in *; lia). rewrite Z.eqb_refl. cbn [negb].
    eapply runs_mono; [apply Hk|]. intros [[rc t2] nt2] HQ. right. exists nt1.
    split_and!; try done. intros H. by apply Hw.
Qed.

(** The format characters. *)
Local Abbreviation fmt_loop := (send_loop_fmt files vd_open vd_seek vd_read virtual_fuel).

Lemma send_b_runs md fmt buf args nt t i size amount Q :
  0 < zlen buf <= INT_MAX ->
  (forall t1 nt1, runs md (fmt_loop fmt args nt1 t1 i size amount) (Q nt1)) ->
  runs md (fmt_loop ($"b" :: fmt) (AStr (Some buf) :: ASize (zlen buf) :: args) nt t i size amount)
    (sends_after buf Q nt).
Proof.
  intros Hb Hk. cbn [send_loop_fmt].
  change (($"b" =? $"I") && _) with false. change ($"b" =? $"f") with false.
  change ($"b" =? $"b") with true. cbv iota.
  mstep. eapply runs_liftO; [done|]. cbv beta iota. mstep. eapply runs_liftO; [done|]. cbv beta iota.
  rewrite (proj2 (Z.ltb_lt _ _) (proj1 Hb)). mstep. eapply runs_liftO; [done|]. mstep.
  eapply runs_liftO.
  { rewrite mem_slice_Some by lia. unfold zslice. by rewrite zdrop_0, ztake_all by lia. }
  by apply (buffer_runs md buf nt t (fun t1 nt1 => fmt_loop fmt args nt1 t1 i size amount)).
Qed.

Lemma send_f_runs md fmt name args nt t i size amount :
  0 <= RangeOffset i -> 0 <= amount -> (0 < amount -> 0 < size <= WEB_SERVER_BUF_SIZE) ->
  (ReadSendSize i < 0 -> 0 < amount) ->
  runs md (fmt_loop ($"f" :: fmt) (AStr (Some name) :: args) nt t (Some i) size amount)
    (fun r => (exists d, opens i (c_str name) d /\ sends i size amount d nt r) \/
       (cannot_open i (c_str name) /\ r.1.1 = UPNP_E_FILE_READ_ERROR /\ r.2 = nt)).
Proof.
  intros Ho Ha Hs Hn. cbn [send_loop_fmt].
  change (($"f" =? $"I") && _) with false. change ($"f" =? $"f") with true. cbv iota.
  mstep. eapply runs_liftO; [done|]. cbv beta iota. mstep. eapply runs_liftO; [done|].
  pose proof (open_file_spec i (c_str name) Ho) as H.
  destruct (open_file files vd_open vd_seek (Some i) (c_str name)) as [src|].
  - destruct H as (d & Ho' & Hd). eapply runs_mono; [|intros r Hr; left; exists d; by split].
    apply file_loop_runs; try done. by apply stream_holds_fuel.
  - apply runs_ret. by right.
Qed.

Definition first_amount (i : SendInstruction) : Z :=
  if 0 <=? ReadSendSize i then ReadSendSize i else WEB_SERVER_BUF_SIZE.

Lemma send_I_runs md fmt args nt t i Q :
  runs md (fmt_loop fmt args nt t (Some i) (Z.min (first_amount i) WEB_SERVER_BUF_SIZE)
    (first_amount i)) Q ->
  runs md (fmt_loop ($"I" :: fmt) (AInstr i :: args) nt t None WEB_SERVER_BUF_SIZE 0)
    (fun r => Q r \/ (md <> Lucky /\ r = (UPNP_E_OUTOF_MEMORY, t, nt))).
Proof.
  intros H. cbn [send_loop_fmt]. rewrite bool_decide_true by done.
  change (($"I" =? $"I") && true) with true. cbv beta iota zeta. fold (first_amount i).
  apply runs_bind, runs_malloc; [|intros Hm; apply runs_ret; by right]. cbn [negb].
  eapply runs_mono; [|by left].
  destruct (Z.ltb_spec (first_amount i) WEB_SERVER_BUF_SIZE);
    [by rewrite Z.min_l in H by lia|by rewrite Z.min_r in H by lia].
Qed.

(** C28: [http_SendMessage] with the format of a response that carries a file
    puts the header on the wire and then the document, a local file or what the
    callbacks of a virtual directory deliver, from the start of the range to its
    end or to the size that was asked for.  A file that cannot be opened, and a
    virtual one whose seek callback fails, gives [UPNP_E_FILE_READ_ERROR] and
    nothing is sent after the header.  The document is sent as it is or in
    chunks; it ends where a read returns no byte.  When it ends before the size
    that was asked for, or no size was asked for, a chunked answer is closed by
    the last chunk and the result is 0, and one that is not chunked has the
    result [UPNP_E_FILE_READ_ERROR]; when the size is reached, the result is 0
    and there is no last chunk.  If the connection fails, what was sent is a
    prefix of that and the result may be 0; if it does not fail, everything is
    sent.  The read callback is assumed to report a failure by 0 bytes: a
    negative result is undefined behaviour.  When the buffer cannot be
    allocated, nothing is sent. *)
Theorem http_SendMessage_file md nt t i header filename :
  0 < zlen header <= INT_MAX -> 0 <= RangeOffset i ->
  runs md (send nt t (cs "Ibf")
    [AInstr i; AStr (Some header); ASize (zlen header); AStr (Some filename)]) (fun r =>
    sends_after header (sends_file i (c_str filename)) nt r \/
    (md <> Lucky /\ r = (UPNP_E_OUTOF_MEMORY, t, nt))).
Proof.
  intros Hh Ho. unfold http_SendMessage.
  assert (0 <= first_amount i /\ (ReadSendSize i < 0 -> 0 < first_amount i)) as [Ha Hn].
  { unfold first_amount, WEB_SERVER_BUF_SIZE. destruct (Z.leb_spec 0 (ReadSendSize i)); lia. }
  change (cs "Ibf") with [$"I"; $"b"; $"f"]. apply send_I_runs, send_b_runs; [done|].
  intros t1 nt1. eapply runs_mono.
  { apply send_f_runs; [done..| |done]. unfold WEB_SERVER_BUF_SIZE. lia. }
  intros r [(d & Hd & H)|H]; [left; exists d; split; [done|]|by right].
  eapply sends_weaken; [|..|exact H]; [lia|].
  unfold first_amount. destruct (Z.leb_spec 0 (ReadSendSize i)); [by right|left; lia].
Qed.

End HttpSend.

(** A local file sent in chunks; the range drops its first two bytes. *)
Definition chunked : SendInstruction := MkInstr false true true false [] [] 2 (-1) 0.
Definition one_file (name : list Z) : option (list Z) :=
  if bool_decide (name = cs "/f") then Some (cs "0123456789abcdefgh") else None.

(** A virtual directory with one file, whose value is what is left of it; it
    refuses to seek behind the end. *)
Definition v_open (name : list Z) : option (list Z) :=
  if bool_decide (name = cs "/v") then Some (cs "virtual") else None.
Definition v_seek (v : list Z) (off : Z) : Z * list Z :=
  if off <=? zlen v then (0, zdrop off v) else (-1, v).
Definition v_read (v : list Z) (n : Z) : Z * list Z * list Z :=
  (zlen (ztake n v), ztake n v, zdrop n v).

Definition v_holds (v d : list Z) : Prop := v = d /\ (length v <= 7)%nat.

#[local] Instance one_virtual : VirtualDir v_open v_seek v_read 9 v_holds.
Proof.
  split.
  - intros name v. unfold v_open. case_bool_decide; [|done]. intros [= <-].
    exists (cs "virtual"). split; [done|]. by vm_compute.
  - intros v off v' (d & _ & Hl). unfold v_seek. case_match; intros [= <-]. exists (zdrop off v).
    split; [done|]. unfold zdrop. rewrite length_drop. lia.
  - intros v d n [-> Hl] Hn. unfold v_read. exists (ztake n d), (zdrop n d), (zdrop n d).
    split; [done|]. split; [unfold zlen, ztake; rewrite length_take; lia|].
    split; [by rewrite ztake_zdrop|]. split; [split; [done|]; unfold zdrop; rewrite length_drop; lia|].
    destruct d; [done|]. unfold ztake. destruct (Z.to_nat n) eqn:E; [lia|done].
  - intros v d [-> Hl]. lia.
Qed.

Definition virtual_from (off : Z) : SendInstruction := MkInstr true false true false [] [] off 3 0.

Lemma http_SendMessage_file_witness :
  let nt := MkNet [Interrupted] [] [3; 1] [] [] in
  let header := cs "HTTP/1.1 200 OK" ++ EOL ++ EOL in
  let send i name := http_SendMessage one_file v_open v_seek v_read 9
    nt 30 (cs "Ibf") [AInstr i; AStr (Some header); ASize (zlen header); AStr (Some name)] in
  let sent i name := ('(rc, _, nt') ← send i name; mret (rc, nt_out nt')) [] in
  (0 < zlen header <= INT_MAX /\ 0 <= RangeOffset chunked /\ 0 <= RangeOffset (virtual_from 8)) /\
  runs Lucky (send chunked (cs "/f")) (fun r =>
    sends_after header (sends_file one_file v_open v_seek v_holds chunked (c_str (cs "/f"))) nt r \/
    (Lucky <> Lucky /\ r = (UPNP_E_OUTOF_MEMORY, 30, nt))) /\
  runs Lucky (send (virtual_from 8) (cs "/v")) (fun r =>
    sends_after header (sends_file one_file v_open v_seek v_holds (virtual_from 8) (c_str (cs "/v"))) nt r \/
    (Lucky <> Lucky /\ r = (UPNP_E_OUTOF_MEMORY, 30, nt))) /\
  sent chunked (cs "/f") =
    Ret (0, header ++ cs "10" ++ EOL ++ cs "23456789abcdefgh" ++ EOL ++ cs "0" ++ EOL ++ EOL) [] /\
  sent (virtual_from 2) (cs "/v") = Ret (0, header ++ cs "rtu") [] /\
  sent (virtual_from 5) (cs "/v") = Ret (UPNP_E_FILE_READ_ERROR, header ++ cs "al") [] /\
  sent (virtual_from 8) (cs "/v") = Ret (UPNP_E_FILE_READ_ERROR, header) [].
Proof.
  intros nt header send sent.
  assert (0 < zlen header <= INT_MAX /\ 0 <= RangeOffset chunked /\ 0 <= RangeOffset (virtual_from 8)) as H
    by (vm_compute; split; [split; [reflexivity|discriminate]|split; discriminate]).
  split; [exact H|]. destruct H as (H1 & H2 & H3).
  split; [exact (http_SendMessage_file one_file v_open v_seek v_read 9 v_holds Lucky nt 30 chunked
    header (cs "/f") H1 H2)|].
  split; [exact (http_SendMessage_file one_file v_open v_seek v_read 9 v_holds Lucky nt 30 (virtual_from 8)
    header (cs "/v") H1 H3)|].
  repeat split; vm_compute; reflexivity.
Defined.

(** The example in the header file of [http_SendMessage], a buffer and a file
    without an instruction: the file is not sent. *)
Lemma bf_sends_no_file :
  ('(rc, _, nt') ← http_SendMessage one_file (fun _ => None) (fun (v : unit) n => (0, v))
     (fun v n => (0, [], v)) 0 (MkNet [] [] [] [] []) 30 (cs "bf")
     [AStr (Some (cs "head")); ASize 4; AStr (Some (cs "/f"))];
   mret (rc, nt_out nt')) [] = Ret (0, cs "head") [].
Proof. vm_compute. reflexivity. Qed.

(** A chunked file of known size ends without the last chunk. *)
Lemma sized_chunks_not_closed :
  ('(rc, _, nt') ← http_SendMessage one_file (fun _ => None) (fun (v : unit) n => (0, v))
     (fun v n => (0, [], v)) 0 (MkNet [] [] [] [] []) 30 (cs "Ibf")
     [AInstr (MkInstr false true false false [] [] 0 4 0); AStr (Some (cs "head")); ASize 4;
      AStr (Some (cs "/f"))];
   mret (rc, nt_out nt')) [] = Ret (0, cs "head4" ++ EOL ++ cs "0123" ++ EOL) [].
Proof. vm_compute. reflexivity. Qed.

(** A failed write is not reported. *)
Lemma failed_write_not_reported :
  ('(rc, _, nt') ← http_SendMessage one_file (fun _ => None) (fun (v : unit) n => (0, v))
     (fun v n => (0, [], v)) 0 (MkNet [] [] [-1] [] []) 30 (cs "b")
     [AStr (Some (cs "head")); ASize 4];
   mret (rc, nt_out nt')) [] = Ret (0, []) [].
Proof. vm_compute. reflexivity. Qed.

(** A virtual read that fails with -1: the bytes to be sent are more than there
    are. *)
Lemma negative_read_undefined :
  http_SendMessage (V := unit) one_file (fun _ => Some tt) (fun v n => (0, v)) (fun v n => (-1, [], v)) 9
     (MkNet [] [] [] [] []) 30 (cs "Ibf")
     [AInstr (MkInstr true false false false [] [] 0 4 0); AStr (Some (cs "head")); ASize 4;
      AStr (Some (cs "/v"))] [] = UB.
Proof. vm_compute. reflexivity. Qed.
