(* ===== verification/HttpRead.v ===== *)
(** Reading the body of a response through a connection handle:
    [http_ReadHttpResponse] of [HttpIO.v] hands out the bytes of the body in
    order, none twice and none lost, for a body of a given length and for one
    that ends with the connection; chunked bodies are not covered here. *)

From S2P Require Import Prelude CString MemBuffer Uri Scanner HttpMessage HttpParser HttpSafety HttpResume Sock HttpMake HttpIO.

Section HttpRead.
Context (junk : Z).
Context (getaddrinfo : list Z -> option (list sockaddr))
  (inet_pton : Z -> list Z -> option (list Z)) (gIF_INDEX : Z).

Local Abbreviation parse_entity := (parser_parse_entity junk getaddrinfo inet_pton gIF_INDEX).
Local Abbreviation read := (read_response junk getaddrinfo inet_pton gIF_INDEX).
Local Abbreviation read_loop := (entity_read_loop junk getaddrinfo inet_pton gIF_INDEX).

(** ** The state of a body that is being read *)

Definition discarded (p : http_parser_t) : Z := m_amount_discarded (p_msg p).
Definition body_start (p : http_parser_t) : Z := p_entity_start_position p.
Definition complete (p : http_parser_t) : Prop := p_position p = POS_COMPLETE.

(** The bytes of the body that have arrived and have not been handed out. *)
Definition held (p : http_parser_t) : list Z :=
  if bool_decide (complete p)
  then zslice (body_start p) (entity_length p - discarded p) (p_buf p)
  else zdrop (body_start p) (p_buf p).

Record body_state (p : http_parser_t) : Prop := {
  bs_buf : mb_wf (m_msg_buf (p_msg p));
  bs_start : 0 <= body_start p <= msg_length p;
  bs_discarded : 0 <= discarded p;
  bs_small : discarded p + msg_length p <= MB_MAX;
  bs_clen : 0 <= p_content_length p <= SIZE_MAX;
  bs_method : p_ent_position p = ENTREAD_USING_CLEN \/ p_ent_position p = ENTREAD_UNTIL_CLOSE;
  bs_within : p_ent_position p = ENTREAD_USING_CLEN ->
    discarded p <= p_content_length p;
  bs_position : p_position p = POS_ENTITY \/
    (complete p /\ discarded p <= entity_length p /\
     body_start p + (entity_length p - discarded p) <= msg_length p /\
     (p_ent_position p = ENTREAD_USING_CLEN -> entity_length p = p_content_length p) /\
     (p_ent_position p = ENTREAD_UNTIL_CLOSE -> p_cursor p = msg_length p))
}.

Lemma body_zlen p : body_state p -> zlen (p_buf p) = msg_length p.
Proof. intros []. by apply zlen_contents. Qed.

(** ** Lemmas *)

Lemma held_open p : p_position p = POS_ENTITY -> held p = zdrop (body_start p) (p_buf p).
Proof. intros H. unfold held. by rewrite bool_decide_false by (unfold complete; congruence). Qed.

Lemma held_complete p :
  complete p -> held p = zslice (body_start p) (entity_length p - discarded p) (p_buf p).
Proof. intros H. unfold held. by rewrite bool_decide_true. Qed.

Lemma zlen_held_open p :
  body_state p -> p_position p = POS_ENTITY -> zlen (held p) = msg_length p - body_start p.
Proof.
  intros Hb Hpos. rewrite held_open by done. pose proof (body_zlen p Hb). destruct Hb.
  rewrite zlen_zdrop; lia.
Qed.

Lemma zlen_held_complete p :
  body_state p -> complete p -> zlen (held p) = entity_length p - discarded p.
Proof.
  intros Hb Hc. rewrite held_complete by done. pose proof (body_zlen p Hb).
  destruct Hb as [_ ? ? _ _ _ _ [Hp|(_ & ? & ? & _)]]; [unfold complete in Hc; congruence|].
  rewrite zlen_zslice; lia.
Qed.

(** What parsing does to it: the entity is all that has arrived, and a body of
    known length may be complete. *)
Definition parsed_body (p : http_parser_t) (r : parse_status_t * http_parser_t) : Prop :=
  let '(s, q) := r in
  body_state q /\ discarded q = discarded p /\ p_ent_position q = p_ent_position p /\
  p_content_length q = p_content_length p /\ msg_length q = msg_length p /\
  (exists excess, held p = held q ++ excess /\
     (excess <> [] -> complete q /\ p_ent_position q = ENTREAD_USING_CLEN)) /\
  (entity_length q = discarded q + zlen (held q) /\
   (p_ent_position q = ENTREAD_USING_CLEN -> entity_length q <= p_content_length q)) /\
  (p_ent_position q = ENTREAD_UNTIL_CLOSE -> p_cursor q = msg_length q) /\
  (p_ent_position q = ENTREAD_USING_CLEN -> p_cursor q = p_cursor p) /\
  match s with
  | PARSE_SUCCESS => complete q /\ p_ent_position q = ENTREAD_USING_CLEN
  | PARSE_INCOMPLETE => ~ complete q /\ p_ent_position q = ENTREAD_USING_CLEN
  | PARSE_INCOMPLETE_ENTITY => ~ complete q /\ p_ent_position q = ENTREAD_UNTIL_CLOSE
  | _ => False
  end.

Lemma parse_entity_one p md (f : http_parser_t -> M (parse_status_t * http_parser_t)) Q :
  p_position p = POS_ENTITY ->
  entity_step junk getaddrinfo inet_pton gIF_INDEX p = f p ->
  runs md (f p) (fun r => r.1 <> PARSE_CONTINUE_1 /\ Q r) -> runs md (parse_entity p) Q.
Proof.
  intros Hpos Hf H. unfold parser_parse_entity. mstep.
  apply runs_assert_true; [by apply bool_decide_true|]. unfold entity_fuel.
  rewrite Nat.add_comm. cbn [Nat.add entity_loop]. rewrite Hf. mstep.
  eapply runs_mono; [exact H|]. intros [s q] [Hs Hq]. cbn in Hs.
  rewrite bool_decide_false by done. by apply runs_ret.
Qed.

Lemma parse_until_close p md :
  body_state p -> p_position p = POS_ENTITY -> p_ent_position p = ENTREAD_UNTIL_CLOSE ->
  runs md (parse_entity p) (parsed_body p).
Proof.
  intros Hb Hpos He. eapply (parse_entity_one p md parser_parse_entity_until_close); [done| |].
  - unfold entity_step. by rewrite He.
  - unfold parser_parse_entity_until_close. rewrite He. mstep. apply runs_assert_true; [done|].
    apply runs_ret. split; [done|].
    set (q := set_cursor _ _). destruct (Hb) as [H1 H2 H3 H4 H5 H6 H7 _].
    assert (body_state q) as Hq by (split; try done; by left).
    assert (held p = held q) as Hh by (by rewrite !held_open).
    split; [done|]. split; [done|]. split; [done|]. split; [done|]. split; [done|].
    split; [exists []; by rewrite app_nil_r|].
    assert (p_ent_position q <> ENTREAD_USING_CLEN) as Hnc
      by (change (p_ent_position q) with (p_ent_position p); by rewrite He).
    split; [split; [|done]|split; [done|split; [done|by split; [unfold complete; cbn; congruence|]]]].
    rewrite (zlen_held_open q Hq Hpos). unfold entity_length, q. cbn.
    change (p_entity_start_position p) with (body_start p). fold (discarded p).
    unfold MB_MAX, INT_MAX in *. rewrite to_size_small by (unfold SIZE_MAX; lia).
    change (msg_length (set_cursor _ _)) with (msg_length p).
    change (body_start (set_cursor _ _)) with (body_start p).
    change (discarded (set_cursor _ _)) with (discarded p). lia.
Qed.

Lemma parse_using_clen p md :
  body_state p -> p_position p = POS_ENTITY -> p_ent_position p = ENTREAD_USING_CLEN ->
  runs md (parse_entity p) (parsed_body p).
Proof.
  intros Hb Hpos He. eapply (parse_entity_one p md parser_parse_entity_using_clen); [done| |].
  - unfold entity_step. by rewrite He.
  - unfold parser_parse_entity_using_clen. rewrite He. mstep. apply runs_assert_true; [done|].
    change (p_entity_start_position p) with (body_start p). fold (discarded p).
    pose proof Hb as [H1 H2 H3 H4 H5 H6 H7 _]. pose proof (zlen_held_open p Hb Hpos) as Hz.
    unfold MB_MAX, INT_MAX in *.
    rewrite to_size_small by (unfold SIZE_MAX; lia).
    set (len := msg_length p - body_start p + discarded p). cbv zeta.
    set (p1 := on_msg (set_entity_length len) p).
    change (p_content_length p1) with (p_content_length p).
    assert (body_state p1) as Hb1 by (split; try done; by left).
    destruct (Z.ltb_spec len (p_content_length p)) as [Hlt|Hge].
    + apply runs_ret. split; [done|]. split; [done|].
      assert (held p = held p1) as Hh by (by rewrite !held_open).
      split; [done|]. split; [done|]. split; [done|]. split; [done|].
      split; [exists []; by rewrite app_nil_r|].
      assert (p_ent_position p1 <> ENTREAD_UNTIL_CLOSE) as Hnu
        by (change (p_ent_position p1) with (p_ent_position p); by rewrite He).
      split; [|split; [done|split; [done|by split; [unfold complete; cbn; congruence|]]]].
      split; [|intros _; change (entity_length p1) with len; change (p_content_length p1) with (p_content_length p); lia].
      rewrite <- Hh. change (entity_length p1) with len. change (discarded p1) with (discarded p).
      unfold len. lia.
    + assert (forall b, mb_wf b -> mb_length b = msg_length p ->
        ztake (body_start p + p_content_length p - discarded p) (contents b)
        = ztake (body_start p + p_content_length p - discarded p) (p_buf p) ->
        let q := set_position POS_COMPLETE
          (on_msg (fun r => set_entity_buf (body_start p) (set_entity_length (p_content_length p) r))
             (on_msg (set_msg_buf b) p1)) in
        parsed_body p (PARSE_SUCCESS, q)) as Hend.
      { intros b Hw Hl Ht q.
        assert (p_ent_position q <> ENTREAD_UNTIL_CLOSE) as Hnu
          by (change (p_ent_position q) with (p_ent_position p); by rewrite He).
        assert (msg_length q = msg_length p) as Hm by exact Hl.
        assert (body_state q) as Hq.
        { split; try done; [by rewrite Hm|by rewrite Hm|].
          right. split; [done|]. split; [exact (H7 He)|]. split; [|split; [done|by intros ?%Hnu]].
          rewrite Hm. change (body_start q) with (body_start p).
          change (entity_length q) with (p_content_length p). change (discarded q) with (discarded p). lia. }
        split; [done|]. split; [done|]. split; [done|]. split; [done|]. split; [done|].
        split; [|split; [|split; [by intros ?%Hnu|done]]].
        - exists (zdrop (p_content_length p - discarded p) (held p)). split; [|done].
          rewrite (held_complete q), (held_open p) by done.
          change (body_start q) with (body_start p). change (discarded q) with (discarded p).
          change (entity_length q) with (p_content_length p). change (p_buf q) with (contents b).
          specialize (H7 He). unfold zslice.
          assert (forall l : list Z, ztake (p_content_length p - discarded p) (zdrop (body_start p) l)
            = zdrop (body_start p) (ztake (body_start p + p_content_length p - discarded p) l)) as Hc
            by (intros l; rewrite zdrop_ztake by lia; f_equal; lia).
          by rewrite Hc, Ht, <- Hc, ztake_zdrop.
        - split; [|intros _; by change (entity_length q) with (p_content_length q)].
          rewrite zlen_held_complete by done. change (entity_length q) with (p_content_length p). lia. }
      destruct (Z.ltb_spec (p_content_length p) len) as [Hlt|Heq].
      * rewrite to_size_small by (specialize (H7 He); unfold SIZE_MAX; lia). mstep.
        apply poke_buf_runs; [done|change (msg_length p1) with (msg_length p); specialize (H7 He); lia|].
        intros b Hw Hl Hc. apply runs_ret. split; [done|]. apply Hend; [done|done|].
        rewrite Hc. specialize (H7 He). unfold ztake. by rewrite take_insert_ge by lia.
      * mstep. apply runs_ret. cbv beta iota. apply runs_ret. split; [done|].
        replace p1 with (on_msg (set_msg_buf (m_msg_buf (p_msg p))) p1) by by destruct p as [[] ?].
        by apply Hend.
Qed.

Lemma parse_body p md :
  body_state p -> p_position p = POS_ENTITY -> runs md (parse_entity p) (parsed_body p).
Proof.
  intros Hb Hpos. destruct (bs_method p Hb); [by apply parse_using_clen|by apply parse_until_close].
Qed.

(** After a parse. *)
Definition ready (p : http_parser_t) : Prop :=
  body_state p /\ entity_length p = discarded p + zlen (held p) /\
  (p_ent_position p = ENTREAD_USING_CLEN -> entity_length p <= p_content_length p) /\
  (p_ent_position p = ENTREAD_UNTIL_CLOSE -> p_cursor p = msg_length p).

(** [q] comes from [p] by reading [got]. *)
Definition reads (p q : http_parser_t) (got : list Z) : Prop :=
  discarded q = discarded p /\ p_ent_position q = p_ent_position p /\
  p_content_length q = p_content_length p /\
  (p_ent_position q = ENTREAD_USING_CLEN -> p_cursor q = p_cursor p) /\
  exists excess, held p ++ got = held q ++ excess /\
    (excess <> [] -> complete q /\ p_ent_position q = ENTREAD_USING_CLEN).

Lemma parsed_reads p r : parsed_body p r -> ready r.2 /\ reads p r.2 [].
Proof.
  destruct r as [s q]. intros (H1 & H2 & H3 & H4 & _ & H5 & [H6 H7] & H8 & H9 & _).
  split; [by split_and!|]. do 4 (split; [done|]). by rewrite app_nil_r.
Qed.

(** More bytes in the buffer. *)
Lemma append_body p b d :
  body_state p -> p_position p = POS_ENTITY -> discarded p + msg_length p + zlen d <= MB_MAX ->
  mb_wf b -> contents b = p_buf p ++ d ->
  let q := on_msg (set_msg_buf b) p in
  body_state q /\ p_position q = POS_ENTITY /\ held q = held p ++ d /\
  msg_length q = msg_length p + zlen d.
Proof.
  intros Hb Hpos Hmax Hw Hc q.
  assert (msg_length q = msg_length p + zlen d) as Hl.
  { rewrite <- (body_zlen p Hb). change (msg_length q) with (mb_length b).
    by rewrite <- (zlen_contents b Hw), Hc, zlen_app. }
  pose proof (zlen_nonneg d). pose proof (body_zlen p Hb).
  destruct Hb as [H1 H2 H3 H4 H5 H6 H7 _].
  split.
  - split; try done; [rewrite Hl|rewrite Hl|by left]; change (body_start q) with (body_start p);
      change (discarded q) with (discarded p); lia.
  - split; [done|]. split; [|done]. rewrite !held_open by done.
    change (body_start q) with (body_start p). change (p_buf q) with (contents b).
    rewrite Hc, zdrop_app_le by lia. done.
Qed.

Definition until_close_mode (p : http_parser_t) : bool := p_ent_position p =? ENTREAD_UNTIL_CLOSE.

(** The loop stops at once for a complete body. *)
Lemma read_loop_complete md fuel h size timeout okc Q :
  complete (h_response h) -> Q (inr tt, h) ->
  runs md (read_loop (S fuel) h size timeout okc) Q.
Proof.
  intros Hc HQ. cbn [entity_read_loop]. unfold needs_more.
  rewrite (bool_decide_true (p_position _ = _)) by done. rewrite andb_false_r. by apply runs_ret.
Qed.

(** The connection ends the body. *)
Lemma close_body p :
  ready p -> p_position p = POS_ENTITY -> p_ent_position p = ENTREAD_UNTIL_CLOSE ->
  let q := set_position POS_COMPLETE p in ready q /\ complete q /\ reads p q [].
Proof.
  intros (Hb & He & _ & Hcur) Hpos Hm q. pose proof (zlen_held_open p Hb Hpos) as Hz.
  pose proof (body_zlen p Hb). pose proof Hb as [H1 H2 H3 H4 H5 H6 H7 _].
  assert (complete q) as Hc by done.
  assert (body_state q) as Hq.
  { split; try done. right. split; [done|]. change (entity_length q) with (entity_length p).
    change (discarded q) with (discarded p). change (body_start q) with (body_start p).
    change (msg_length q) with (msg_length p). split; [lia|]. split; [lia|].
    change (p_ent_position q) with (p_ent_position p). split; [by rewrite Hm|exact Hcur]. }
  assert (held q = held p) as Hh.
  { rewrite (held_complete q), (held_open p) by done.
    change (entity_length q) with (entity_length p).
    change (discarded q) with (discarded p). change (body_start q) with (body_start p).
    change (p_buf q) with (p_buf p). unfold zslice. apply ztake_all. rewrite zlen_zdrop; lia. }
  split; [split; [done|]; split; [by rewrite Hh|]; change (p_ent_position q) with (p_ent_position p);
    split; [by rewrite Hm|exact Hcur]|]. split; [done|].
  do 4 (split; [done|]). exists []. by rewrite Hh, app_nil_r.
Qed.

Lemma reads_trans p q r a b :
  ~ complete q -> reads p q a -> reads q r b -> reads p r (a ++ b).
Proof.
  intros Hc (H1 & H2 & H3 & H3' & e1 & H4 & H5) (K1 & K2 & K3 & K3' & e2 & K4 & K5).
  do 3 (split; [congruence|]). split; [intros Hm; rewrite K3' by done; apply H3'; congruence|]. exists e2.
  destruct e1 as [|x e1]; [|by destruct (H5 ltac:(done))]. rewrite app_nil_r in H4.
  by rewrite app_assoc, H4.
Qed.

(** Why a read that must wait for more bytes fails, by what it meets next on
    the connection [nt]. *)
Definition read_fails (nt : net) (q : http_parser_t) (rc : Z) : Prop :=
  (rc = UPNP_E_TIMEDOUT /\ times_out nt) \/ (rc = UPNP_E_SOCKET_ERROR /\ socket_fails nt) \/
  (rc = UPNP_E_BAD_HTTPMSG /\ p_ent_position q = ENTREAD_USING_CLEN /\ peer_closed nt).

(** A body that ends with the connection is complete when the peer has closed
    it. *)
Definition ends_by_close (nt : net) (p q : http_parser_t) : Prop :=
  complete q -> ~ complete p -> p_ent_position q = ENTREAD_UNTIL_CLOSE -> peer_closed nt.

Definition loop_post (h : http_connection_handle_t) (size : Z)
    (r : (Z + unit) * http_connection_handle_t) : Prop :=
  let '(res, h') := r in
  let q := h_response h' in
  exists got nt1, pieces (h_net h) got nt1 /\ ends_by_close nt1 (h_response h) q /\
    incoming (h_net h) = got ++ incoming (h_net h') /\
    nt_out (h_net h') = nt_out (h_net h) /\ h_cancel h' = h_cancel h /\
    h_contentLength h' = h_contentLength h /\ h_requestStarted h' = h_requestStarted h /\
    reads (h_response h) q got /\ body_state q /\
    match res with
    | inr _ => ready q /\ (size <= zlen (held q) \/ complete q \/ h_cancel h = true)
    | inl rc => ~ complete q /\ read_fails nt1 q rc
    end.

Lemma loop_post_step h h2 got size r :
  (forall data nt', pieces (h_net h2) data nt' -> pieces (h_net h) (got ++ data) nt') ->
  incoming (h_net h) = got ++ incoming (h_net h2) -> nt_out (h_net h2) = nt_out (h_net h) ->
  h_cancel h2 = h_cancel h -> h_contentLength h2 = h_contentLength h ->
  h_requestStarted h2 = h_requestStarted h ->
  reads (h_response h) (h_response h2) got -> ~ complete (h_response h2) ->
  loop_post h2 size r -> loop_post h size r.
Proof.
  destruct r as [res h'].
  intros Hp Hi Ho Hc Hcl Hs Hr Hn (got' & nt1 & Hp1 & He & H1 & H2 & H3 & H4 & H5 & H6 & H7 & H8).
  exists (got ++ got'), nt1. split; [by apply Hp|]. split; [intros Hcq _; by apply He|].
  split; [by rewrite Hi, H1, app_assoc|]. split; [congruence|].
  split; [congruence|]. split; [congruence|]. split; [congruence|].
  split; [by eapply reads_trans|]. split; [done|]. destruct res; [done|]. by rewrite <- Hc.
Qed.

Lemma loop_post_end h h2 got nt1 size :
  pieces (h_net h) got nt1 -> ends_by_close nt1 (h_response h) (h_response h2) ->
  incoming (h_net h) = got ++ incoming (h_net h2) -> nt_out (h_net h2) = nt_out (h_net h) ->
  h_cancel h2 = h_cancel h -> h_contentLength h2 = h_contentLength h ->
  h_requestStarted h2 = h_requestStarted h ->
  reads (h_response h) (h_response h2) got -> ready (h_response h2) -> complete (h_response h2) ->
  loop_post h size (inr tt, h2).
Proof.
  intros ? ? ? ? ? ? ? Hr Hy Hc. exists got, nt1. do 8 (split; [done|]). split; [apply Hy|]. split; [done|].
  right. by left.
Qed.

Lemma read_loop_runs fuel h size timeout :
  ready (h_response h) -> p_position (h_response h) = POS_ENTITY ->
  discarded (h_response h) + msg_length (h_response h) + zlen (incoming (h_net h)) <= MB_MAX ->
  0 <= size <= INT_MAX -> (S (recv_fuel (h_net h)) < fuel)%nat ->
  runs Lucky (read_loop fuel h size timeout (until_close_mode (h_response h))) (loop_post h size).
Proof.
  revert h timeout. induction fuel as [|fuel IH]; intros h timeout Hr Hpos Hmax Hsize Hf; [lia|].
  cbn [entity_read_loop]. destruct (needs_more h size) eqn:Hn; cbn [negb].
  - destruct (sock_read (h_net h) 2048 timeout) as [[[n got] t] nt1] eqn:Er.
    pose proof Hr as (Hb & He & _). pose proof (bs_discarded _ Hb). pose proof (bs_start _ Hb).
    destruct (sock_read_spec (h_net h) 2048 timeout n got t nt1 ltac:(lia)
      ltac:(unfold MB_MAX in *; lia) Er) as (Hin & Hout & _ & Hgot & Hnil & _).
    pose proof (sock_read_meets (h_net h) 2048 timeout n got t nt1 ltac:(lia)
      ltac:(unfold MB_MAX in *; lia) Er) as Hmeets.
    destruct (Z.ltb_spec 0 n) as [Hn0|Hn0].
    + destruct Hmeets as [[_ Hdel]|[[? _]|[[? _]|[? _]]]]; [|by subst n..].
      destruct (Hgot Hn0) as [-> Hfuel]. rewrite Hin, zlen_app in Hmax.
      pose proof (zlen_nonneg (incoming nt1)). pose proof (zlen_nonneg got).
      apply runs_bind. eapply runs_mono; [apply append_runs; [apply Hb|]|].
      { change (mb_length _) with (msg_length (h_response h)). lia. }
      intros [rc b] [(-> & Hw & Hc & _)|[? _]]; [|done]. cbn [negb Z.eqb].
      destruct (append_body (h_response h) b got Hb Hpos ltac:(lia) Hw Hc) as (Hb1 & Hpos1 & Hh1 & Hl1).
      apply runs_bind. eapply runs_mono; [by apply parse_body|].
      intros [s p2] Hp. set (h2 := on_response (fun _ => p2) _).
      change (h_response (on_response (on_msg (set_msg_buf b)) (set_net nt1 h)))
        with (on_msg (set_msg_buf b) (h_response h)) in Hp.
      destruct (parsed_reads _ _ Hp) as [Hr2 Hrd]. cbn [snd] in Hr2, Hrd.
      assert (reads (h_response h) p2 got) as Hrd2.
      { destruct Hrd as (K1 & K2 & K3 & K3' & e & K4 & K5). do 4 (split; [done|]). exists e.
        by rewrite <- Hh1, <- (app_nil_r (held _)). }
      assert (discarded p2 + msg_length p2 + zlen (incoming nt1) <= MB_MAX) as Hmax2.
      { destruct Hp as (_ & -> & _ & _ & -> & _). rewrite Hl1.
        change (discarded (on_msg _ _)) with (discarded (h_response h)). lia. }
      assert (~ complete p2 -> p_position p2 = POS_ENTITY) as Hpos2
        by (destruct (bs_position _ (proj1 Hr2)) as [?|[? _]]; [done|by intros []]).
      assert (~ complete p2 -> runs Lucky (read_loop fuel h2 size t (until_close_mode p2))
        (loop_post h size)) as Hgo.
      { intros Hnc. eapply runs_mono; [apply (IH h2); try done; [by apply Hpos2|cbn; lia]|].
        intros r. apply (loop_post_step h h2 got); try done. intros data nt'. by apply one_more. }
      assert (until_close_mode p2 = until_close_mode (h_response h)) as Hu
        by (unfold until_close_mode; by rewrite (proj1 (proj2 Hrd2))).
      assert (pieces (h_net h) got nt1) as Hpc
        by (rewrite <- (app_nil_r got); eapply one_more; [exact Hdel|constructor]).
      destruct Hp as (_ & _ & _ & _ & _ & _ & _ & _ & _ & Hs). destruct s; cbn [entity_status]; try done.
      * destruct fuel as [|fuel']; [lia|]. apply read_loop_complete; [apply Hs|].
        apply (loop_post_end h h2 got nt1); try done; [|apply Hs].
        intros _ _ Hm. destruct Hs as [_ Hs]. change (h_response h2) with p2 in Hm.
        by rewrite Hs in Hm.
      * rewrite <- Hu. apply Hgo, Hs.
      * destruct Hs as [Hs Hm].
        replace true with (until_close_mode p2); [by apply Hgo|]. unfold until_close_mode. by rewrite Hm.
    + specialize (Hnil Hn0) as ->. cbn [app] in Hin.
      assert (reads (h_response h) (h_response h) []) as Hself
        by (do 4 (split; [done|]); exists []; by split).
      assert (~ complete (h_response h)) as Hnc by (unfold complete; congruence).
      destruct (Z.eqb_spec n 0) as [->|Hne].
      * destruct (until_close_mode (h_response h)) eqn:Hu; unfold until_close_mode in Hu; zbool.
        -- destruct (close_body _ Hr Hpos Hu) as (K1 & K2 & K3).
           destruct fuel as [|fuel']; [lia|]. apply read_loop_complete; [done|].
           apply (loop_post_end h _ [] (h_net h)); try done; [constructor|intros _ _ _].
           by destruct Hmeets as [[? _]|[[_ ?]|[[? _]|[? _]]]].
        -- apply runs_ret. exists [], (h_net h). split; [constructor|]. split; [by intros ?%Hnc|].
           do 6 (split; [done|]). split; [by destruct Hb|]. split; [done|]. right. right.
           split; [done|]. split; [by destruct (bs_method _ Hb)|].
           by destruct Hmeets as [[? _]|[[_ ?]|[[? _]|[? _]]]].
      * apply runs_ret. exists [], (h_net h). split; [constructor|]. split; [by intros ?%Hnc|].
        do 8 (split; [done|]). destruct Hmeets as [[? _]|[[? _]|[?|?]]]; [lia|done|by left|right; by left].
  - apply runs_ret. exists [], (h_net h). split; [constructor|]. split; [by intros ?|].
    do 5 (split; [done|]). split; [do 4 (split; [done|]); exists []; by split|]. split; [apply Hr|]. split; [done|].
    destruct Hr as (Hb & He & _). pose proof (bs_discarded _ Hb). pose proof (zlen_nonneg (incoming (h_net h))).
    pose proof (bs_start _ Hb). unfold needs_more in Hn. unfold MB_MAX, INT_MAX in *.
    fold (discarded (h_response h)) in Hn. rewrite to_size_small in Hn by (unfold SIZE_MAX; lia).
    apply andb_false_iff in Hn as [Hn|Hn]; [apply andb_false_iff in Hn as [Hn|Hn]|].
    + zbool. left. lia.
    + right. right. by destruct (h_cancel h).
    + right. left. by apply negb_false_iff, bool_decide_eq_true in Hn.
Qed.

(** The scanner stays at the same byte of the stream when the [n] bytes before
    it are taken out of the buffer. *)
Definition moved_back (p q : http_parser_t) (n : Z) : Prop :=
  to_size (p_cursor q + n) = to_size (p_cursor p).

(** The bytes that are handed out are taken from the front. *)
Lemma take_entity_runs p size :
  ready p -> 0 <= size <= INT_MAX -> size <= zlen (held p) \/ complete p ->
  runs Lucky (take_entity junk p size) (fun '(d, q) =>
    body_state q /\ held p = d ++ held q /\ discarded q = discarded p + zlen d /\
    p_ent_position q = p_ent_position p /\ p_content_length q = p_content_length p /\
    (complete q <-> complete p) /\ zlen d <= size /\ moved_back p q (zlen d) /\
    (p_ent_position q = ENTREAD_UNTIL_CLOSE -> p_cursor q = msg_length q) /\
    (zlen d < size -> complete q /\ held q = [])).
Proof.
  intros (Hb & He & Hcl & Hcur) Hsize Henough. unfold take_entity.
  fold (discarded p). change (p_entity_start_position p) with (body_start p).
  pose proof (zlen_nonneg (held p)). pose proof Hb as [H1 H2 H3 H4 H5 H6 H7 H8].
  unfold MB_MAX, INT_MAX in *. rewrite to_size_small by (unfold SIZE_MAX; lia).
  assert (zlen (held p) <= msg_length p - body_start p) as Hin.
  { destruct H8 as [Hp|(Hc & _ & Hw & _)]; [rewrite zlen_held_open; done || lia|].
    rewrite zlen_held_complete; done || lia. }
  set (n := Z.min size (zlen (held p))).
  assert ((if entity_length p <? discarded p + size then to_size (entity_length p - discarded p) else size) = n) as ->.
  { unfold n. destruct (Z.ltb_spec (entity_length p) (discarded p + size)); [|lia].
    rewrite to_size_small by (unfold SIZE_MAX; lia). lia. }
  destruct (Z.ltb_spec 0 n) as [Hn|Hn].
  - assert (zlen (p_buf p) = msg_length p) as Hbl by by apply body_zlen.
    assert (ztake n (held p) = zslice (body_start p) n (p_buf p)) as Hd.
    { destruct H8 as [Hp|(Hc & _)]; [by rewrite held_open|]. rewrite held_complete by done.
      pose proof (zlen_held_complete p Hb Hc). unfold zslice. apply ztake_ztake. lia. }
    destruct (mb_buf (m_msg_buf (p_msg p))) as [block|] eqn:Ebl;
      [|unfold p_buf, contents in Hbl; rewrite Ebl in Hbl; cbn in Hbl; unfold ztake in Hbl;
        rewrite take_nil, zlen_nil in Hbl; lia].
    assert (msg_length p <= zlen block) as Hblk.
    { unfold p_buf, contents in Hbl. rewrite Ebl in Hbl. cbn in Hbl. rewrite <- Hbl.
      unfold zlen, ztake. rewrite length_take. lia. }
    mstep. eapply runs_liftO; [done|]. mstep.
    eapply runs_liftO; [apply mem_slice_Some; lia|].
    assert (zslice (body_start p) n block = ztake n (held p)) as ->.
    { rewrite Hd. unfold p_buf, contents. rewrite Ebl. cbn [default]. fold (msg_length p).
      unfold zslice. rewrite zdrop_ztake by lia. by rewrite ztake_ztake by lia. }
    mstep. eapply runs_mono.
    { apply delete_runs; [done|done| |lia|unfold SIZE_MAX; lia].
      fold (msg_length p). lia. }
    intros b [(Hw & Hc & _) _]. fold (p_buf p) in Hc. apply runs_ret. set (q := set_cursor _ _).
    assert (msg_length q = msg_length p - n) as Hl.
    { change (msg_length q) with (mb_length b). rewrite <- (zlen_contents b Hw), Hc, zlen_app.
      rewrite zlen_ztake, zlen_zdrop by lia. lia. }
    assert (discarded q = discarded p + n) as Hdq.
    { change (discarded q) with (to_size (discarded p + n)). apply to_size_small. unfold SIZE_MAX. lia. }
    assert (zlen (ztake n (held p)) = n) as Hzn by (rewrite zlen_ztake; lia).
    assert (held q = zdrop n (held p)) as Hh.
    { assert (zdrop (body_start p) (contents b) = zdrop n (zdrop (body_start p) (p_buf p))) as Hz.
      { rewrite Hc, zdrop_app_exact by (rewrite zlen_ztake; lia). by rewrite zdrop_zdrop by lia. }
      destruct H8 as [Hp|(Hcp & _)].
      - rewrite (held_open q), (held_open p) by done. exact Hz.
      - rewrite (held_complete q), (held_complete p) by done. unfold zslice.
        change (p_buf q) with (contents b). change (body_start q) with (body_start p). rewrite Hz.
        change (entity_length q) with (entity_length p). rewrite Hdq, zdrop_ztake by lia. f_equal. lia. }
    assert (moved_back p q n) as Hback.
    { unfold moved_back. change (p_cursor q) with (to_size (p_cursor p - n)).
      unfold to_size, wrapU. rewrite Zplus_mod_idemp_l. f_equal. lia. }
    assert (p_ent_position q = ENTREAD_UNTIL_CLOSE -> p_cursor q = msg_length q) as Hcq.
    { intros Hm. change (p_cursor q) with (to_size (p_cursor p - n)). rewrite Hl, Hcur by done.
      apply to_size_small. unfold SIZE_MAX. lia. }
    assert (body_state q) as Hq.
    { split; try done.
      - change (body_start q) with (body_start p). lia.
      - lia.
      - unfold MB_MAX, INT_MAX. lia.
      - intros Hm. change (p_content_length q) with (p_content_length p). specialize (Hcl Hm). lia.
      - destruct H8 as [Hp|(Hcp & K1 & K2 & K3 & K4)]; [by left|right].
        pose proof (zlen_held_complete p Hb Hcp). change (entity_length q) with (entity_length p).
        change (body_start q) with (body_start p). rewrite Hdq, Hl. split; [done|]. split; [lia|].
        split; [lia|]. split; [exact K3|]. rewrite <- Hl. exact Hcq. }
    split; [done|]. split; [by rewrite Hh, ztake_zdrop|]. split; [by rewrite Hzn|].
    do 3 (split; [done|]). rewrite Hzn. split; [lia|]. split; [done|]. split; [done|]. intros Hlt.
    destruct Henough as [?|Hcp]; [lia|]. split; [exact Hcp|]. rewrite Hh. apply zdrop_all. lia.
  - apply runs_ret. unfold n in Hn. rewrite zlen_nil. split; [done|]. split; [done|]. split; [lia|].
    do 3 (split; [done|]). split; [lia|]. split; [unfold moved_back; by rewrite Z.add_0_r|].
    split; [done|]. intros Hlt.
    destruct Henough as [?|Hcp]; [lia|]. split; [done|]. destruct (held p) as [|c l]; [done|]. rewrite zlen_cons in *.
    pose proof (zlen_nonneg l). lia.
Qed.

(** ** The contract of a read *)

(** [h'] is [h] after a read of at most [size] bytes that has stored [d]. *)
Definition read_ok (h : http_connection_handle_t) (size : Z)
    (r : Z * option Z * list Z * http_connection_handle_t) : Prop :=
  let '(rc, n, d, h') := r in
  let p := h_response h in let q := h_response h' in
  exists got nt1, pieces (h_net h) got nt1 /\ ends_by_close nt1 p q /\ incoming (h_net h) = got ++ incoming (h_net h') /\
    nt_out (h_net h') = nt_out (h_net h) /\ h_cancel h' = h_cancel h /\ body_state q /\
    (exists excess, held p ++ got = d ++ held q ++ excess /\
       (excess <> [] -> complete q /\ p_ent_position q = ENTREAD_USING_CLEN)) /\
    ((rc = UPNP_E_SUCCESS /\ n = Some (zlen d) /\ discarded q = discarded p + zlen d /\
      zlen d <= size /\ (zlen d < size -> complete q /\ held q = []) /\
      (p_ent_position q = ENTREAD_USING_CLEN -> moved_back p q (zlen d)) /\
      (p_ent_position q = ENTREAD_UNTIL_CLOSE -> p_cursor q = msg_length q) /\
      (complete q -> p_ent_position q = ENTREAD_USING_CLEN ->
         discarded q + zlen (held q) = p_content_length p)) \/
     (d = [] /\ discarded q = discarded p /\
       ((~ complete q /\ read_fails nt1 q rc) \/ (rc = UPNP_E_CANCELED /\ h_cancel h = true)))).

(** The first parse of a call. *)
Definition reparsed (p q : http_parser_t) : Prop :=
  ready q /\ (complete q -> complete p \/ p_ent_position q = ENTREAD_USING_CLEN) /\ reads p q [] /\
  discarded q + msg_length q = discarded p + msg_length p.

Lemma first_parse h :
  body_state (h_response h) ->
  runs Lucky (if bool_decide (p_position (h_response h) = POS_COMPLETE)
              then mret (PARSE_SUCCESS, h_response h) else parse_entity (h_response h))
    (fun '(s, q) => reparsed (h_response h) q /\
       entity_status s false = Some (negb (bool_decide (complete q)) && until_close_mode q)).
Proof.
  intros Hb. set (p := h_response h) in *. case_bool_decide as Hc.
  - apply runs_ret. rewrite bool_decide_true by done. split; [|done]. split; [|split; [by left|split; [|done]]].
    + destruct (bs_position p Hb) as [?|(_ & K1 & K2 & K3 & K4)]; [congruence|].
      split; [done|]. rewrite zlen_held_complete by done. split; [lia|].
      split; [intros Hm; rewrite K3 by done; lia|done].
    + do 4 (split; [done|]). exists []. by split.
  - destruct (bs_position p Hb) as [Hpos|[? _]]; [|done].
    eapply runs_mono; [by apply parse_body|]. intros [s q] Hp.
    destruct (parsed_reads _ _ Hp) as [Hr Hrd]. cbn in Hr, Hrd.
    destruct Hp as (_ & Hd & Hm & _ & Hl & _ & _ & _ & _ & Hs).
    split; [split; [done|]; split; [|split; [done|by rewrite Hd, Hl]]|].
    { intros Hq. right. by destruct s, Hs. }
    unfold until_close_mode. destruct s; try done; cbn [entity_status].
    + by rewrite bool_decide_true by apply Hs.
    + destruct Hs as [_ ->]. by rewrite andb_false_r.
    + destruct Hs as [Hs ->]. by rewrite bool_decide_false.
Qed.

Lemma read_loop_any h q size timeout :
  reparsed (h_response h) q ->
  discarded (h_response h) + msg_length (h_response h) + zlen (incoming (h_net h)) <= MB_MAX ->
  0 <= size <= INT_MAX ->
  runs Lucky (read_loop (2 + recv_fuel (h_net h)) (on_response (fun _ => q) h) size timeout
    (negb (bool_decide (complete q)) && until_close_mode q)) (loop_post h size).
Proof.
  intros (Hr & Hce & Hrd & Hl) Hmax Hsize. case_bool_decide as Hc; cbn [negb andb].
  - apply read_loop_complete; [done|]. apply (loop_post_end h _ [] (h_net h)); try done; [constructor|].
    intros _ Hn Hm. destruct (Hce Hc) as [?|Hm2]; [done|]. change (h_response _) with q in Hm. by rewrite Hm2 in Hm.
  - eapply runs_mono.
    { apply (read_loop_runs (2 + recv_fuel (h_net h)) (on_response (fun _ => q) h)); try done;
        [|change (discarded _) with (discarded q); change (msg_length _) with (msg_length q);
          change (h_net _) with (h_net h); lia|change (h_net _) with (h_net h); lia].
      by destruct (bs_position _ (proj1 Hr)) as [?|[? _]]. }
    intros r. by apply (loop_post_step h _ []).
Qed.

(** C27: reading a body of known length or a body that ends with the connection
    (not a chunked one) through a connection handle, when memory is available
    and no more than [INT_MAX] bytes are received, hands out the bytes of the
    body in order: what a call stores, followed by what is left in the buffer,
    is what was left there before followed by what has been received meanwhile,
    up to bytes behind the end of a body of known length.  The scanner is moved
    back by the bytes that are taken out, so that it stays at the same byte of
    the stream.  A call that stores fewer bytes than asked for has reached the
    end of the body; a body of known length ends exactly there, and one without
    a length when the peer has closed the connection.  A call fails only
    when it has been canceled or when it needs more bytes and the next read
    times out, fails, or meets the end of the connection in the middle of a body
    of known length, each with its own error; it then stores nothing, all that
    has been received is still in the buffer, and the next call goes on where
    the last one stopped. *)
Theorem http_ReadHttpResponse_correct h size timeout :
  body_state (h_response h) ->
  discarded (h_response h) + msg_length (h_response h) + zlen (incoming (h_net h)) <= MB_MAX ->
  0 <= size <= INT_MAX ->
  runs Lucky (http_ReadHttpResponse junk getaddrinfo inet_pton gIF_INDEX (Some h) true (Some size)
    timeout) (fun '(rc, n, d, h') => exists h1, h' = Some h1 /\ read_ok h size (rc, n, d, h1)).
Proof.
  intros Hb Hmax Hsize. unfold http_ReadHttpResponse. rewrite andb_false_r.
  apply runs_bind. eapply runs_mono with (Q := read_ok h size);
    [|intros [[[rc n] d] h1] H; apply runs_ret; by exists h1].
  unfold read_response. apply runs_bind. eapply runs_mono; [by apply first_parse|].
  intros [s q] [Hq Hs]. rewrite Hs. apply runs_bind. eapply runs_mono; [by apply (read_loop_any h q)|].
  intros [res h1]
    (got & nt1 & Hpc & Hec & H1 & H2 & H3 & _ & _ & (R1 & R2 & R3 & R0 & ex & R4 & R5) & H6 & H7).
  destruct res as [code|[]].
  - apply runs_ret. exists got, nt1. do 6 (split; [done|]). split; [by exists ex|].
    right. split; [done|]. split; [done|]. by left.
  - destruct H7 as [Hr Hen]. destruct (h_cancel h1) eqn:Ec.
    { apply runs_ret. exists got, nt1. do 6 (split; [congruence || done|]). split; [by exists ex|].
      right. split; [done|]. split; [done|]. right. split; congruence. }
    apply runs_bind. eapply runs_mono; [apply take_entity_runs; [done|done|]|].
    { destruct Hen as [?|[?|?]]; [by left|by right|congruence]. }
    intros [d q1] (K1 & K2 & K3 & K4 & K5 & K6 & K7 & K9 & K10 & K8). apply runs_ret.
    exists got, nt1. split; [done|].
    split; [cbn; unfold ends_by_close in *; rewrite K4, K6; exact Hec|].
    do 2 (split; [done|]). split; [cbn; congruence|]. split; [done|].
    split; [exists ex; rewrite R4, K2, <- app_assoc; split; [done|]; intros He;
            destruct (R5 He); split; [by apply K6|cbn; congruence]|].
    left. do 2 (split; [done|]). split; [cbn; lia|]. split; [done|]. split; [done|].
    split; [cbn; intros Hm; unfold moved_back in *; rewrite K9, R0 by congruence; done|].
    split; [exact K10|].
    cbn. intros Hc Hm. pose proof (bs_position _ K1) as [?|(_ & P1 & P2 & P3 & _)];
      [unfold complete in Hc; congruence|].
    rewrite (zlen_held_complete q1 K1 Hc), P3 by done. lia.
Qed.
End HttpRead.

(** A body of five bytes, two of them in the buffer. *)
Definition a_body : http_parser_t :=
  Parser (Message true 0 no_uri 0 200 membuffer_init 0 false 1 1 [] (Bufptr 0 0)
      (Membuffer (Some (cs "ab" ++ [0; 0; 0; 0])) 2 5 5) None)
    HTTP_BAD_REQUEST false POS_ENTITY ENTREAD_USING_CLEN 5 0 0 0 false.
Definition a_handle : http_connection_handle_t :=
  Handle (MkNet [] [Bytes (cs "c"); Bytes (cs "deX")] [] [] []) 0 a_body true false.

Lemma http_ReadHttpResponse_correct_witness :
  (body_state (h_response a_handle) /\
   discarded (h_response a_handle) + msg_length (h_response a_handle)
     + zlen (incoming (h_net a_handle)) <= MB_MAX /\ 0 <= 4 <= INT_MAX) /\
  runs Lucky (http_ReadHttpResponse 0 no_dns any_pton 0 (Some a_handle) true (Some 4) 30)
    (fun '(rc, n, d, h') => exists h1, h' = Some h1 /\ read_ok a_handle 4 (rc, n, d, h1)) /\
  ('(_, _, d1, h) ← http_ReadHttpResponse 0 no_dns any_pton 0 (Some a_handle) true (Some 4) 30;
   '(_, _, d2, _) ← http_ReadHttpResponse 0 no_dns any_pton 0 h true (Some 4) 30;
   mret (d1, d2)) [] = Ret (cs "abcd", cs "e") [].
Proof.
  assert (body_state (h_response a_handle) /\
    discarded (h_response a_handle) + msg_length (h_response a_handle)
      + zlen (incoming (h_net a_handle)) <= MB_MAX /\ 0 <= 4 <= INT_MAX) as H.
  { split; [|by vm_compute].
    constructor; first [by left|by vm_compute|constructor; by vm_compute]. }
  split; [exact H|]. split; [|vm_compute; reflexivity]. destruct H as (H1 & H2 & H3).
  exact (http_ReadHttpResponse_correct 0 no_dns any_pton 0 a_handle 4 30 H1 H2 H3).
Defined.
