(* ===== verification/XmlChars.v ===== *)
(** The characters of XML in [ixml/src/ixmlparser.c]: the tables of name
    characters, the UTF-8 coding, and the reading of one character or entity.

    A pointer into the text is the list of the characters from it to the
    terminating NUL; reading behind the NUL is undefined ([None]). *)

From S2P Require Import Prelude CString.

(** ** Tables *)

Definition Letter : list (Z * Z) :=
  [(0x003A, 0x003A); (0x0041, 0x005A); (0x005F, 0x005F); (0x0061, 0x007A);
   (0x00C0, 0x00D6); (0x00D8, 0x00F6); (0x00F8, 0x00FF); (0x0100, 0x0131);
   (0x0134, 0x013E); (0x0141, 0x0148); (0x014A, 0x017E); (0x0180, 0x01C3);
   (0x01CD, 0x01F0); (0x01F4, 0x01F5); (0x01FA, 0x0217); (0x0250, 0x02A8);
   (0x02BB, 0x02C1); (0x0386, 0x0386); (0x0388, 0x038A); (0x038C, 0x038C);
   (0x038E, 0x03A1); (0x03A3, 0x03CE); (0x03D0, 0x03D6); (0x03DA, 0x03DA);
   (0x03DC, 0x03DC); (0x03DE, 0x03DE); (0x03E0, 0x03E0); (0x03E2, 0x03F3);
   (0x0401, 0x040C); (0x040E, 0x044F); (0x0451, 0x045C); (0x045E, 0x0481);
   (0x0490, 0x04C4); (0x04C7, 0x04C8); (0x04CB, 0x04CC); (0x04D0, 0x04EB);
   (0x04EE, 0x04F5); (0x04F8, 0x04F9); (0x0531, 0x0556); (0x0559, 0x0559);
   (0x0561, 0x0586); (0x05D0, 0x05EA); (0x05F0, 0x05F2); (0x0621, 0x063A);
   (0x0641, 0x064A); (0x0671, 0x06B7); (0x06BA, 0x06BE); (0x06C0, 0x06CE);
   (0x06D0, 0x06D3); (0x06D5, 0x06D5); (0x06E5, 0x06E6); (0x0905, 0x0939);
   (0x093D, 0x093D); (0x0958, 0x0961); (0x0985, 0x098C); (0x098F, 0x0990);
   (0x0993, 0x09A8); (0x09AA, 0x09B0); (0x09B2, 0x09B2); (0x09B6, 0x09B9);
   (0x09DC, 0x09DD); (0x09DF, 0x09E1); (0x09F0, 0x09F1); (0x0A05, 0x0A0A);
   (0x0A0F, 0x0A10); (0x0A13, 0x0A28); (0x0A2A, 0x0A30); (0x0A32, 0x0A33);
   (0x0A35, 0x0A36); (0x0A38, 0x0A39); (0x0A59, 0x0A5C); (0x0A5E, 0x0A5E);
   (0x0A72, 0x0A74); (0x0A85, 0x0A8B); (0x0A8D, 0x0A8D); (0x0A8F, 0x0A91);
   (0x0A93, 0x0AA8); (0x0AAA, 0x0AB0); (0x0AB2, 0x0AB3); (0x0AB5, 0x0AB9);
   (0x0ABD, 0x0ABD); (0x0AE0, 0x0AE0); (0x0B05, 0x0B0C); (0x0B0F, 0x0B10);
   (0x0B13, 0x0B28); (0x0B2A, 0x0B30); (0x0B32, 0x0B33); (0x0B36, 0x0B39);
   (0x0B3D, 0x0B3D); (0x0B5C, 0x0B5D); (0x0B5F, 0x0B61); (0x0B85, 0x0B8A);
   (0x0B8E, 0x0B90); (0x0B92, 0x0B95); (0x0B99, 0x0B9A); (0x0B9C, 0x0B9C);
   (0x0B9E, 0x0B9F); (0x0BA3, 0x0BA4); (0x0BA8, 0x0BAA); (0x0BAE, 0x0BB5);
   (0x0BB7, 0x0BB9); (0x0C05, 0x0C0C); (0x0C0E, 0x0C10); (0x0C12, 0x0C28);
   (0x0C2A, 0x0C33); (0x0C35, 0x0C39); (0x0C60, 0x0C61); (0x0C85, 0x0C8C);
   (0x0C8E, 0x0C90); (0x0C92, 0x0CA8); (0x0CAA, 0x0CB3); (0x0CB5, 0x0CB9);
   (0x0CDE, 0x0CDE); (0x0CE0, 0x0CE1); (0x0D05, 0x0D0C); (0x0D0E, 0x0D10);
   (0x0D12, 0x0D28); (0x0D2A, 0x0D39); (0x0D60, 0x0D61); (0x0E01, 0x0E2E);
   (0x0E30, 0x0E30); (0x0E32, 0x0E33); (0x0E40, 0x0E45); (0x0E81, 0x0E82);
   (0x0E84, 0x0E84); (0x0E87, 0x0E88); (0x0E8A, 0x0E8A); (0x0E8D, 0x0E8D);
   (0x0E94, 0x0E97); (0x0E99, 0x0E9F); (0x0EA1, 0x0EA3); (0x0EA5, 0x0EA5);
   (0x0EA7, 0x0EA7); (0x0EAA, 0x0EAB); (0x0EAD, 0x0EAE); (0x0EB0, 0x0EB0);
   (0x0EB2, 0x0EB3); (0x0EBD, 0x0EBD); (0x0EC0, 0x0EC4); (0x0F40, 0x0F47);
   (0x0F49, 0x0F69); (0x10A0, 0x10C5); (0x10D0, 0x10F6); (0x1100, 0x1100);
   (0x1102, 0x1103); (0x1105, 0x1107); (0x1109, 0x1109); (0x110B, 0x110C);
   (0x110E, 0x1112); (0x113C, 0x113C); (0x113E, 0x113E); (0x1140, 0x1140);
   (0x114C, 0x114C); (0x114E, 0x114E); (0x1150, 0x1150); (0x1154, 0x1155);
   (0x1159, 0x1159); (0x115F, 0x1161); (0x1163, 0x1163); (0x1165, 0x1165);
   (0x1167, 0x1167); (0x1169, 0x1169); (0x116D, 0x116E); (0x1172, 0x1173);
   (0x1175, 0x1175); (0x119E, 0x119E); (0x11A8, 0x11A8); (0x11AB, 0x11AB);
   (0x11AE, 0x11AF); (0x11B7, 0x11B8); (0x11BA, 0x11BA); (0x11BC, 0x11C2);
   (0x11EB, 0x11EB); (0x11F0, 0x11F0); (0x11F9, 0x11F9); (0x1E00, 0x1E9B);
   (0x1EA0, 0x1EF9); (0x1F00, 0x1F15); (0x1F18, 0x1F1D); (0x1F20, 0x1F45);
   (0x1F48, 0x1F4D); (0x1F50, 0x1F57); (0x1F59, 0x1F59); (0x1F5B, 0x1F5B);
   (0x1F5D, 0x1F5D); (0x1F5F, 0x1F7D); (0x1F80, 0x1FB4); (0x1FB6, 0x1FBC);
   (0x1FBE, 0x1FBE); (0x1FC2, 0x1FC4); (0x1FC6, 0x1FCC); (0x1FD0, 0x1FD3);
   (0x1FD6, 0x1FDB); (0x1FE0, 0x1FEC); (0x1FF2, 0x1FF4); (0x1FF6, 0x1FFC);
   (0x2126, 0x2126); (0x212A, 0x212B); (0x212E, 0x212E); (0x2180, 0x2182);
   (0x3007, 0x3007); (0x3021, 0x3029); (0x3041, 0x3094); (0x30A1, 0x30FA);
   (0x3105, 0x312C); (0x4E00, 0x9FA5); (0xAC00, 0xD7A3)].

Definition NameChar : list (Z * Z) :=
  [(0x002D, 0x002D); (0x002E, 0x002E); (0x0030, 0x0039); (0x00B7, 0x00B7);
   (0x02D0, 0x02D0); (0x02D1, 0x02D1); (0x0300, 0x0345); (0x0360, 0x0361);
   (0x0387, 0x0387); (0x0483, 0x0486); (0x0591, 0x05A1); (0x05A3, 0x05B9);
   (0x05BB, 0x05BD); (0x05BF, 0x05BF); (0x05C1, 0x05C2); (0x05C4, 0x05C4);
   (0x0640, 0x0640); (0x064B, 0x0652); (0x0660, 0x0669); (0x0670, 0x0670);
   (0x06D6, 0x06DC); (0x06DD, 0x06DF); (0x06E0, 0x06E4); (0x06E7, 0x06E8);
   (0x06EA, 0x06ED); (0x06F0, 0x06F9); (0x0901, 0x0903); (0x093C, 0x093C);
   (0x093E, 0x094C); (0x094D, 0x094D); (0x0951, 0x0954); (0x0962, 0x0963);
   (0x0966, 0x096F); (0x0981, 0x0983); (0x09BC, 0x09BC); (0x09BE, 0x09BE);
   (0x09BF, 0x09BF); (0x09C0, 0x09C4); (0x09C7, 0x09C8); (0x09CB, 0x09CD);
   (0x09D7, 0x09D7); (0x09E2, 0x09E3); (0x09E6, 0x09EF); (0x0A02, 0x0A02);
   (0x0A3C, 0x0A3C); (0x0A3E, 0x0A3E); (0x0A3F, 0x0A3F); (0x0A40, 0x0A42);
   (0x0A47, 0x0A48); (0x0A4B, 0x0A4D); (0x0A66, 0x0A6F); (0x0A70, 0x0A71);
   (0x0A81, 0x0A83); (0x0ABC, 0x0ABC); (0x0ABE, 0x0AC5); (0x0AC7, 0x0AC9);
   (0x0ACB, 0x0ACD); (0x0AE6, 0x0AEF); (0x0B01, 0x0B03); (0x0B3C, 0x0B3C);
   (0x0B3E, 0x0B43); (0x0B47, 0x0B48); (0x0B4B, 0x0B4D); (0x0B56, 0x0B57);
   (0x0B66, 0x0B6F); (0x0B82, 0x0B83); (0x0BBE, 0x0BC2); (0x0BC6, 0x0BC8);
   (0x0BCA, 0x0BCD); (0x0BD7, 0x0BD7); (0x0BE7, 0x0BEF); (0x0C01, 0x0C03);
   (0x0C3E, 0x0C44); (0x0C46, 0x0C48); (0x0C4A, 0x0C4D); (0x0C55, 0x0C56);
   (0x0C66, 0x0C6F); (0x0C82, 0x0C83); (0x0CBE, 0x0CC4); (0x0CC6, 0x0CC8);
   (0x0CCA, 0x0CCD); (0x0CD5, 0x0CD6); (0x0CE6, 0x0CEF); (0x0D02, 0x0D03);
   (0x0D3E, 0x0D43); (0x0D46, 0x0D48); (0x0D4A, 0x0D4D); (0x0D57, 0x0D57);
   (0x0D66, 0x0D6F); (0x0E31, 0x0E31); (0x0E34, 0x0E3A); (0x0E46, 0x0E46);
   (0x0E47, 0x0E4E); (0x0E50, 0x0E59); (0x0EB1, 0x0EB1); (0x0EB4, 0x0EB9);
   (0x0EBB, 0x0EBC); (0x0EC6, 0x0EC6); (0x0EC8, 0x0ECD); (0x0ED0, 0x0ED9);
   (0x0F18, 0x0F19); (0x0F20, 0x0F29); (0x0F35, 0x0F35); (0x0F37, 0x0F37);
   (0x0F39, 0x0F39); (0x0F3E, 0x0F3E); (0x0F3F, 0x0F3F); (0x0F71, 0x0F84);
   (0x0F86, 0x0F8B); (0x0F90, 0x0F95); (0x0F97, 0x0F97); (0x0F99, 0x0FAD);
   (0x0FB1, 0x0FB7); (0x0FB9, 0x0FB9); (0x20D0, 0x20DC); (0x20E1, 0x20E1);
   (0x3005, 0x3005); (0x302A, 0x302F); (0x3031, 0x3035); (0x3099, 0x3099);
   (0x309A, 0x309A); (0x309D, 0x309E); (0x30FC, 0x30FE)].

Fixpoint table_search (fuel : nat) (c : Z) (tbl : list (Z * Z)) (t b : Z) : option bool :=
  match fuel with
  | O => None
  | S fuel' =>
      if t <=? b then
        let m := (t + b) / 2 in
        '(l, h) ← tbl !! Z.to_nat m;
        if c <? l then table_search fuel' c tbl t (m - 1)
        else if h <? c then table_search fuel' c tbl (m + 1) b
        else Some true
      else Some false
  end.
Definition Parser_isCharInTable (c : Z) (tbl : list (Z * Z)) (sz : Z) : option bool :=
  table_search (S (length tbl)) c tbl 0 (sz - 1).

Definition Parser_isNameChar (c : Z) (bNameChar : bool) : option bool :=
  b ← Parser_isCharInTable c Letter (zlen Letter);
  if b : bool then Some true
  else if bNameChar then Parser_isCharInTable c NameChar (zlen NameChar)
  else Some false.

Definition Parser_isXmlChar (c : Z) : bool :=
  (c =? 0x9) || (c =? 0xA) || (c =? 0xD) || ((0x20 <=? c) && (c <=? 0xD7FF))
  || ((0xE000 <=? c) && (c <=? 0xFFFD)) || ((0x10000 <=? c) && (c <=? 0x10FFFF)).

(** ** UTF-8 *)

(** [(s[i] & 0xc0) == 0x80] for the positions [i] from [i] on, [n] of them,
    tested from left to right as [&&] does. *)
Fixpoint continues (s : list Z) (i : Z) (n : nat) : option bool :=
  match n with
  | O => Some true
  | S n' =>
      c ← rdt s i;
      if Z.land (uchar c) 0xc0 =? 0x80 then continues s (i + 1) n' else Some false
  end.

(** [s[i] & 0x3f] shifted into its place. *)
Definition low6 (s : list Z) (i sh : Z) : Z :=
  Z.shiftl (Z.land (uchar (rd s i)) 0x3f) sh.

(** One form of the encoding: the test on the first byte, then on the [n] bytes
    behind it. *)
Definition utf8_form (s : list Z) (mask lead : Z) (n : nat) : option bool :=
  c ← rdt s 0;
  if Z.land (uchar c) mask =? lead then continues s 1 n else Some false.

(** The value and the number of octets.  [g_error_char] replaces an invalid
    character unless it is 0. *)
Definition Parser_UTF8ToInt (g_error_char : Z) (s : list Z) : option (Z * Z) :=
  ch ← rdt s 0;
  let c := uchar ch in
  if c <=? 127 then Some (c, 1)
  else
  b ← utf8_form s 0xE0 0xC0 1;
  if b : bool then Some (Z.lor (Z.shiftl (Z.land c 0x1f) 6) (low6 s 1 0), 2)
  else
  b ← utf8_form s 0xF0 0xE0 2;
  if b : bool then
    Some (Z.lor (Z.lor (Z.shiftl (Z.land c 0x0f) 12) (low6 s 1 6)) (low6 s 2 0), 3)
  else
  b ← utf8_form s 0xf8 0xf0 3;
  if b : bool then
    Some (Z.lor (Z.lor (Z.lor (Z.shiftl (Z.land c 0x07) 18) (low6 s 1 12)) (low6 s 2 6))
            (low6 s 3 0), 4)
  else
  b ← utf8_form s 0xfc 0xf8 4;
  if b : bool then
    Some (Z.lor (Z.lor (Z.lor (Z.lor (Z.shiftl (Z.land c 0x03) 24) (low6 s 1 18))
            (low6 s 2 12)) (low6 s 3 6)) (low6 s 4 0), 5)
  else
  b ← utf8_form s 0xfe 0xfc 5;
  if b : bool then
    Some (Z.lor (Z.lor (Z.lor (Z.lor (Z.lor (Z.shiftl (Z.land c 0x01) 30) (low6 s 1 24))
            (low6 s 2 18)) (low6 s 3 12)) (low6 s 4 6)) (low6 s 5 0), 6)
  else if negb (g_error_char =? 0) then Some (g_error_char, 1)
  else Some (-1, 0).

(** [(char)(0x80 | ((c >> sh) & 0x3f))]. *)
Definition tail6 (c sh : Z) : Z := schar (Z.lor 0x80 (Z.land (Z.shiftr c sh) 0x3f)).
Definition lead_byte (mark c sh : Z) : Z := schar (Z.lor mark (Z.shiftr c sh)).

(** The length, and the string written: what stands before its NUL. *)
Definition Parser_intToUTF8 (c : Z) : Z * list Z :=
  if c <? 0 then (0, [])
  else if c <=? 127 then (1, [schar c])
  else if c <=? 0x07FF then (2, [lead_byte 0xC0 c 6; tail6 c 0])
  else if c <=? 0xFFFF then (3, [lead_byte 0xE0 c 12; tail6 c 6; tail6 c 0])
  else if c <=? 0x1FFFFF then
    (4, [lead_byte 0xF0 c 18; tail6 c 12; tail6 c 6; tail6 c 0])
  else if c <=? 0x3FFFFFF then
    (5, [lead_byte 0xF8 c 24; tail6 c 18; tail6 c 12; tail6 c 6; tail6 c 0])
  else if c <=? 0x7FFFFFFF then
    (6, [lead_byte 0xFC c 30; tail6 c 24; tail6 c 18; tail6 c 12; tail6 c 6; tail6 c 0])
  else (0, []).

(** ** Characters and entities *)

(** The double quote. *)
Definition DQUOTE : Z := 34.
Definition QUOT : list Z := Eval vm_compute in cs "&quot;".
Definition LT : list Z := Eval vm_compute in cs "&lt;".
Definition GT : list Z := Eval vm_compute in cs "&gt;".
Definition APOS : list Z := Eval vm_compute in cs "&apos;".
Definition AMP : list Z := Eval vm_compute in cs "&amp;".
Definition ESC_HEX : list Z := Eval vm_compute in cs "&#x".
Definition ESC_DEC : list Z := Eval vm_compute in cs "&#".
Definition DEC_NUMBERS : list Z := Eval vm_compute in cs "0123456789".
Definition HEX_NUMBERS : list Z := Eval vm_compute in cs "0123456789ABCDEFabcdef".

(** An [int] result; signed overflow is undefined. *)
Definition as_int (z : Z) : option Z :=
  if (- 2 ^ 31 <=? z) && (z <=? INT_MAX) then Some z else None.

Definition hex_value (c : Z) : Z :=
  if c <=? $"9" then c - $"0"
  else if c <=? $"F" then c - $"A" + 10
  else c - $"a" + 10.

(** [while (strchr(digits, *pnum) != 0)]: [strchr] finds the terminating NUL
    too, so at the end of the text the loop goes on behind it.  The result is
    the sum and the pointer, as the number of characters passed and the rest. *)
Fixpoint number_loop (digits : list Z) (base : Z) (value : Z -> Z)
    (pnum : list Z) (n sum : Z) : option (Z * Z * list Z) :=
  match pnum with
  | [] => None
  | c :: pnum' =>
      if strchr digits c then
        sum ← as_int (sum * base + value c);
        number_loop digits base value pnum' (n + 1) sum
      else Some (sum, n, pnum)
  end.

(** [strncasecmp(src, key, strlen(key)) == 0]. *)
Definition starts_with_case (src key : list Z) : bool :=
  strncasecmp src key (strlen key) =? 0.

Section GetChar.
Context (g_error_char : Z).

Definition fail_entity : Z * Z :=
  if negb (g_error_char =? 0) then ($"&", 1) else (-1, 0).

Definition numeric_entity (src key digits : list Z) (base : Z) (value : Z -> Z)
    : option (Z * Z) :=
  '(sum, n, pnum) ← number_loop digits base value (zdrop (strlen key) src) (strlen key) 0;
  if negb (rd pnum 0 =? $";") || negb (Parser_isXmlChar sum) then Some fail_entity
  else Some (sum, n + 1).

(** The character and the number of bytes it takes ([*cLen]). *)
Definition Parser_getChar (src : list Z) : option (Z * Z) :=
  ch ← rdt src 0;
  if negb (ch =? $"&") then
    if (0 <? ch) && Parser_isXmlChar ch then Some (ch, 1)
    else
      '(i, cLen) ← Parser_UTF8ToInt g_error_char src;
      if negb (Parser_isXmlChar i) then
        Some (if negb (g_error_char =? 0) then g_error_char else -1, cLen)
      else Some (i, cLen)
  else if starts_with_case src QUOT then Some (DQUOTE, strlen QUOT)
  else if starts_with_case src LT then Some ($"<", strlen LT)
  else if starts_with_case src GT then Some ($">", strlen GT)
  else if starts_with_case src APOS then Some ($"'", strlen APOS)
  else if starts_with_case src AMP then Some ($"&", strlen AMP)
  else if starts_with_case src ESC_HEX then numeric_entity src ESC_HEX HEX_NUMBERS 16 hex_value
  else if starts_with_case src ESC_DEC then
    numeric_entity src ESC_DEC DEC_NUMBERS 10 (fun c => c - $"0")
  else Some fail_entity.

End GetChar.

(** ** Names *)

Fixpoint valid_rest (name : list Z) : option bool :=
  match name with
  | [] => Some true
  | c :: name' =>
      b ← Parser_isNameChar c true;
      if b : bool then valid_rest name' else Some false
  end.
Definition Parser_isValidXmlName (name : list Z) : option bool :=
  let pstr := c_str name in
  b ← Parser_isNameChar (rd pstr 0) false;
  if b : bool then valid_rest (tail pstr) else Some true.

(** ** Tables are searched like lists *)

Definition in_range (c : Z) (r : Z * Z) : bool := (r.1 <=? c) && (c <=? r.2).
Definition in_table (c : Z) (tbl : list (Z * Z)) : bool := existsb (in_range c) tbl.

(** The ranges are ordered and do not overlap. *)
Fixpoint ordered (lo : Z) (tbl : list (Z * Z)) : bool :=
  match tbl with
  | [] => true
  | (l, h) :: tbl' => (lo <? l) && (l <=? h) && ordered h tbl'
  end.

Lemma ordered_at lo tbl k l h :
  ordered lo tbl = true -> tbl !! k = Some (l, h) -> lo < l <= h.
Proof.
  revert lo k. induction tbl as [|[l' h'] tbl IH]; [done|]. intros lo k.
  cbn [ordered]. rewrite !andb_true_iff. intros [[H1 H2] H3]. zbool.
  destruct k as [|k]; cbn; intros Hk; [simplify_eq; lia|].
  specialize (IH _ _ H3 Hk). lia.
Qed.
Lemma ordered_lt lo tbl i j l h l' h' :
  ordered lo tbl = true -> (i < j)%nat -> tbl !! i = Some (l, h) ->
  tbl !! j = Some (l', h') -> h < l'.
Proof.
  revert lo i j. induction tbl as [|[a b] tbl IH]; [done|]. intros lo i j.
  cbn [ordered]. rewrite !andb_true_iff. intros [[H1 H2] H3] Hij Hi Hj.
  destruct j as [|j]; [lia|]. cbn in Hj. destruct i as [|i]; cbn in Hi.
  - simplify_eq. pose proof (ordered_at _ _ _ _ _ H3 Hj). lia.
  - eapply (IH _ i j); eauto. lia.
Qed.

Lemma in_table_at c tbl k l h :
  tbl !! k = Some (l, h) -> l <= c <= h -> in_table c tbl = true.
Proof.
  intros Hk Hc. apply existsb_exists. exists (l, h).
  split; [by apply list_elem_of_In, list_elem_of_lookup_2 with k|].
  unfold in_range; cbn. lia.
Qed.
Lemma in_table_range c tbl :
  in_table c tbl = true -> exists k l h, tbl !! k = Some (l, h) /\ l <= c <= h.
Proof.
  intros ([l h] & Hin%list_elem_of_In & Hr)%existsb_exists.
  apply list_elem_of_lookup_1 in Hin as [k Hk]. exists k, l, h. split; [done|].
  unfold in_range in Hr; cbn in Hr. lia.
Qed.

(** The loop looks at what lies between [t] and [b]. *)
Lemma table_search_spec lo tbl c fuel t b :
  ordered lo tbl = true -> 0 <= t <= b + 1 -> b < zlen tbl -> b - t + 1 < Z.of_nat fuel ->
  (forall k l h, tbl !! k = Some (l, h) -> l <= c <= h -> t <= Z.of_nat k <= b) ->
  table_search fuel c tbl t b = Some (in_table c tbl).
Proof.
  intros Ho. revert t b. induction fuel as [|fuel IH]; intros t b Ht Hb Hf Hin; [lia|].
  cbn [table_search]. destruct (Z.leb_spec t b) as [Htb|Htb].
  - pose proof (Z.div_lt_upper_bound (t + b) 2 (b + 1) ltac:(lia) ltac:(lia)).
    pose proof (Z.div_le_lower_bound (t + b) 2 t ltac:(lia) ltac:(lia)).
    set (m := (t + b) / 2) in *.
    destruct (lookup_lt_is_Some_2 tbl (Z.to_nat m)) as [[l h] Hm]; [unfold zlen in Hb; lia|].
    rewrite Hm. cbn [mbind option_bind].
    pose proof (ordered_at _ _ _ _ _ Ho Hm) as Hlh.
    destruct (Z.ltb_spec c l); [|destruct (Z.ltb_spec h c)].
    + apply IH; [lia..|]. intros k l' h' Hk Hc. specialize (Hin _ _ _ Hk Hc).
      destruct (decide (Z.to_nat m <= k)%nat) as [Hle|]; [|lia].
      destruct (decide (k = Z.to_nat m)) as [->|]; [simplify_eq; lia|].
      pose proof (ordered_lt _ _ (Z.to_nat m) k _ _ _ _ Ho ltac:(lia) Hm Hk). lia.
    + apply IH; [lia..|]. intros k l' h' Hk Hc. specialize (Hin _ _ _ Hk Hc).
      destruct (decide (k <= Z.to_nat m)%nat) as [Hle|]; [|lia].
      destruct (decide (k = Z.to_nat m)) as [->|]; [simplify_eq; lia|].
      pose proof (ordered_lt _ _ k (Z.to_nat m) _ _ _ _ Ho ltac:(lia) Hk Hm). lia.
    + by rewrite (in_table_at c tbl _ _ _ Hm) by lia.
  - destruct (in_table c tbl) eqn:E; [|done].
    apply in_table_range in E as (k & l & h & Hk & Hc). specialize (Hin _ _ _ Hk Hc). lia.
Qed.

Lemma char_in_table tbl c :
  ordered (-1) tbl = true -> Parser_isCharInTable c tbl (zlen tbl) = Some (in_table c tbl).
Proof.
  intros Ho. pose proof (zlen_nonneg tbl). apply (table_search_spec (-1)); [done|lia|lia| |].
  - unfold zlen. lia.
  - intros k l h Hk _. apply lookup_lt_Some in Hk. unfold zlen. lia.
Qed.

Definition name_char (bNameChar : bool) (c : Z) : bool :=
  in_table c Letter || (bNameChar && in_table c NameChar).
Lemma is_name_char c b : Parser_isNameChar c b = Some (name_char b c).
Proof.
  unfold Parser_isNameChar, name_char.
  rewrite !char_in_table by (vm_compute; reflexivity). cbn [mbind option_bind].
  by destruct (in_table c Letter), b.
Qed.

(** ** UTF-8 *)

Lemma uchar_schar b : 0 <= b < 256 -> uchar (schar b) = b.
Proof.
  intros H. unfold uchar, schar, wrapU, wrapS. change (2 ^ (8 - 1)) with 128.
  rewrite Zminus_mod_idemp_l. replace (b + 128 - 128) with b by lia. by apply Z.mod_small.
Qed.

(** A property of the numbers below a bound, by checking them all. *)
Lemma check_below (n : nat) (P : Z -> bool) z :
  forallb P (Z.of_nat <$> seq 0 n) = true -> 0 <= z < Z.of_nat n -> P z = true.
Proof.
  rewrite forallb_forall. intros H Hz. apply H, list_elem_of_In, list_elem_of_fmap.
  exists (Z.to_nat z). split; [lia|]. apply elem_of_seq. lia.
Qed.

Lemma shiftr_below c sh k : 0 <= sh -> 0 <= k -> 0 <= c < 2 ^ (sh + k) ->
  0 <= Z.shiftr c sh < 2 ^ k.
Proof.
  intros Hs Hk Hc. rewrite Z.shiftr_div_pow2 by lia. rewrite Z.pow_add_r in Hc by lia.
  pose proof (Z.pow_pos_nonneg 2 sh ltac:(lia) ltac:(lia)).
  split; [apply Z.div_pos; lia|]. apply Z.div_lt_upper_bound; lia.
Qed.
Lemma land_63 c : 0 <= Z.land c 0x3f < 64.
Proof. change 0x3f with (Z.ones 6). rewrite Z.land_ones by lia. by apply Z.mod_pos_bound. Qed.

(** Two groups of bits put together. *)
Lemma glue c s s' : 0 <= s -> s' = s + 6 ->
  Z.lor (Z.shiftl (Z.shiftr c s') s') (Z.shiftl (Z.land (Z.shiftr c s) 0x3f) s)
  = Z.shiftl (Z.shiftr c s) s.
Proof.
  intros Hs ->. change 0x3f with (Z.ones 6). apply Z.bits_inj'. intros n Hn.
  rewrite Z.lor_spec, !Z.shiftl_spec by lia.
  destruct (decide (n < s)) as [H1|H1].
  { by rewrite !(Z.testbit_neg_r _ (n - _)) by lia. }
  rewrite Z.land_spec, (Z.shiftr_spec c s) by lia. replace (n - s + s) with n by lia.
  destruct (decide (n < s + 6)) as [H2|H2].
  - rewrite Z.testbit_neg_r, Z.ones_spec_low by lia. by rewrite andb_true_r.
  - rewrite Z.shiftr_spec, Z.ones_spec_high by lia. replace (n - (s + 6) + (s + 6)) with n by lia.
    by rewrite andb_false_r, orb_false_r.
Qed.

Definition tail_test (y : Z) : bool :=
  let b := Z.lor 0x80 y in
  (0 <=? b) && (b <? 256) && (Z.land b 0xc0 =? 0x80) && (Z.land b 0x3f =? y).
Lemma tail_byte c sh :
  Z.land (uchar (tail6 c sh)) 0xc0 = 0x80
  /\ Z.land (uchar (tail6 c sh)) 0x3f = Z.land (Z.shiftr c sh) 0x3f.
Proof.
  unfold tail6. pose proof (land_63 (Z.shiftr c sh)) as Hy.
  set (y := Z.land (Z.shiftr c sh) 0x3f) in *.
  pose proof (check_below 64 tail_test y ltac:(vm_compute; reflexivity) Hy) as Ht.
  unfold tail_test in Ht. rewrite !andb_true_iff in Ht. destruct Ht as [[[H1 H2] H3] H4].
  zbool. by rewrite uchar_schar by lia.
Qed.

(** The lead byte of the form with [n] bytes behind it: the value it carries
    and the tests it passes. *)
Definition masks : list (Z * Z) :=
  [(0xE0, 0xC0); (0xF0, 0xE0); (0xf8, 0xf0); (0xfc, 0xf8); (0xfe, 0xfc)].
Definition lead_test (mark low : Z) (n : nat) (y : Z) : bool :=
  let b := Z.lor mark y in
  (127 <? b) && (b <? 256) && (Z.land b low =? y)
  && bool_decide ((fun '(m, l) => Z.land b m =? l) <$> take n masks
                  = replicate (n - 1) false ++ [true]).
Lemma lead_byte_ok mark low n k c sh :
  forallb (lead_test mark low n) (Z.of_nat <$> seq 0 k) = true ->
  0 <= Z.shiftr c sh < Z.of_nat k ->
  let b := uchar (lead_byte mark c sh) in
  127 < b /\ Z.land b low = Z.shiftr c sh
  /\ (fun '(m, l) => Z.land b m =? l) <$> take n masks = replicate (n - 1) false ++ [true].
Proof.
  intros Hf Hy. pose proof (check_below _ _ _ Hf Hy) as Ht. unfold lead_byte.
  set (y := Z.shiftr c sh) in *. unfold lead_test in Ht. rewrite !andb_true_iff in Ht.
  destruct Ht as [[[H1 H2] H3] H4%bool_decide_eq_true]. zbool.
  rewrite uchar_schar by lia. done.
Qed.

Lemma continues_app a x t i n :
  zlen a = i -> length x = n -> Forall (fun c => Z.land (uchar c) 0xc0 = 0x80) x ->
  continues (a ++ x ++ t) i n = Some true.
Proof.
  intros Ha <- Hx. revert a i Ha. induction Hx as [|c x Hc Hx IH]; intros a i Ha; [done|].
  cbn [continues length app]. pose proof (zlen_nonneg a). pose proof (zlen_nonneg (x ++ t)).
  rewrite rdt_Some by (rewrite zlen_app, zlen_cons; lia).
  rewrite rd_app_r by lia. replace (i - zlen a) with 0 by lia. rewrite rd_cons_0.
  cbn [mbind option_bind]. rewrite Hc. cbn [Z.eqb Pos.eqb].
  specialize (IH (a ++ [c]) (i + 1)). rewrite <- app_assoc in IH. apply IH.
  rewrite zlen_app. change (zlen [c]) with 1. lia.
Qed.

Lemma utf8_form_cons b s m l n :
  utf8_form (b :: s) m l n
  = if Z.land (uchar b) m =? l then continues (b :: s) 1 n else Some false.
Proof.
  unfold utf8_form. rewrite rdt_Some by (rewrite zlen_cons; pose proof (zlen_nonneg s); lia).
  done.
Qed.

Lemma low6_at s i c sh :
  rd s i = tail6 c sh -> low6 s i sh = Z.shiftl (Z.land (Z.shiftr c sh) 0x3f) sh.
Proof. intros H. unfold low6. by rewrite H, (proj2 (tail_byte c sh)). Qed.

(** One form: [n] bytes of which the first has the mark and the bits from [sh] on. *)
Lemma cons_eq_inv {A} (x y : A) l k : x :: l = y :: k -> x = y /\ l = k.
Proof. by intros [= -> ->]. Qed.

Ltac eval_pow :=
  match goal with |- context [2 ^ ?e] => let v := eval vm_compute in (2 ^ e) in change (2 ^ e) with v end.
Ltac utf8_case mark low n k sh :=
  let H127 := fresh in let Hlow := fresh in let Hm := fresh in let Hc := fresh in
  match goal with
  | |- Parser_UTF8ToInt _ ((lead_byte _ ?c _ :: ?x) ++ ?t) = _ =>
      destruct (lead_byte_ok mark low n k c sh ltac:(vm_compute; reflexivity))
        as (H127 & Hlow & Hm); [apply (shiftr_below c sh (Z.log2 (Z.of_nat k))); [done|done|]; eval_pow; lia|];
      assert (Hc : continues (lead_byte mark c sh :: x ++ t) 1 n = Some true)
        by (apply (continues_app [_]); [done|done|]; repeat (apply List.Forall_cons; [apply tail_byte|]); apply List.Forall_nil)
  end;
  cbn [fmap list_fmap take masks replicate app Nat.sub] in Hm; cbn [app] in Hc;
  unfold Parser_UTF8ToInt; cbn [app];
  rewrite rdt_Some by (rewrite zlen_cons; match goal with |- context [zlen ?l] =>
    pose proof (zlen_nonneg l) end; lia);
  rewrite rd_cons_0; cbn [mbind option_bind]; rewrite (proj2 (Z.leb_gt _ _)) by lia;
  rewrite !utf8_form_cons; repeat (apply cons_eq_inv in Hm as [? Hm]);
  repeat match goal with H : (Z.land _ _ =? _) = _ |- _ => rewrite H; clear H end;
  cbn [mbind option_bind]; rewrite Hc, Hlow; cbn [mbind option_bind];
  match goal with |- Some (_, _) = Some (?c, _) => rewrite !(low6_at _ _ c) by reflexivity end;
  rewrite !glue by lia; rewrite Z.shiftr_0_r, Z.shiftl_0_r; done.

(** What the encoder writes the decoder reads. *)
Lemma utf8_read g c t :
  0 <= c <= 0x7FFFFFFF ->
  Parser_UTF8ToInt g ((Parser_intToUTF8 c).2 ++ t) = Some (c, (Parser_intToUTF8 c).1).
Proof.
  intros Hc. unfold Parser_intToUTF8. rewrite (proj2 (Z.ltb_ge _ _)) by lia.
  destruct (Z.leb_spec c 127); cbn [fst snd].
  { unfold Parser_UTF8ToInt. rewrite rdt_Some by (cbn [app]; rewrite zlen_cons;
      pose proof (zlen_nonneg t); lia).
    cbn [app]. rewrite rd_cons_0. cbn [mbind option_bind]. rewrite uchar_schar by lia.
    by rewrite (proj2 (Z.leb_le _ _)) by lia. }
  destruct (Z.leb_spec c 0x07FF); [|destruct (Z.leb_spec c 0xFFFF);
    [|destruct (Z.leb_spec c 0x1FFFFF); [|destruct (Z.leb_spec c 0x3FFFFFF);
    [|rewrite (proj2 (Z.leb_le c 0x7FFFFFFF)) by lia]]]]; cbn [fst snd].
  - utf8_case 0xC0 0x1f (1%nat) (32%nat) 6.
  - utf8_case 0xE0 0x0f (2%nat) (16%nat) 12.
  - utf8_case 0xF0 0x07 (3%nat) (8%nat) 18.
  - utf8_case 0xF8 0x03 (4%nat) (4%nat) 24.
  - utf8_case 0xFC 0x01 (5%nat) (2%nat) 30.
Qed.
