(* ===== verification/IxmlNode.v ===== *)
(** DOM nodes: [ixml/src/node.c], with the structures of [ixml/inc/ixml.h] and
    the node helpers of [ixml/src/ixmlparser.c].

    Nodes live in a store; a pointer is an address or [NULL].  The structures
    derived from [IXML_Node] are a node with the fields they add in [n_ext], so
    that a cast is the identity.  A string field owns the string it points to:
    it is [NULL], a string, or dangling after [free]; using a dangling string
    or freeing it again is undefined.  (A caller that passes a node its own
    string is not modelled.)  [IXML_HAVE_SCRIPTSUPPORT] is off. *)

From S2P Require Import Prelude CString FreeList.

(** ** Data *)

Inductive DOMString :=
| DNull
| DStr (s : list Z)
| DFreed.

Inductive IXML_NODE_TYPE :=
| eINVALID_NODE | eELEMENT_NODE | eATTRIBUTE_NODE | eTEXT_NODE
| eCDATA_SECTION_NODE | eENTITY_REFERENCE_NODE | eENTITY_NODE
| ePROCESSING_INSTRUCTION_NODE | eCOMMENT_NODE | eDOCUMENT_NODE
| eDOCUMENT_TYPE_NODE | eDOCUMENT_FRAGMENT_NODE | eNOTATION_NODE.

#[global] Instance IXML_NODE_TYPE_eq_dec : EqDecision IXML_NODE_TYPE.
Proof. solve_decision. Defined.
#[global] Instance DOMString_eq_dec : EqDecision DOMString.
Proof. solve_decision. Defined.

Definition IXML_SUCCESS : Z := 0.
Definition IXML_HIERARCHY_REQUEST_ERR : Z := 3.
Definition IXML_WRONG_DOCUMENT_ERR : Z := 4.
Definition IXML_INVALID_CHARACTER_ERR : Z := 5.
Definition IXML_NOT_FOUND_ERR : Z := 8.
Definition IXML_NOT_SUPPORTED_ERR : Z := 9.
Definition IXML_INUSE_ATTRIBUTE_ERR : Z := 10.
Definition IXML_SYNTAX_ERR : Z := 12.
Definition IXML_NAMESPACE_ERR : Z := 14.
Definition IXML_INSUFFICIENT_MEMORY : Z := 102.
Definition IXML_INVALID_PARAMETER : Z := 105.
Definition IXML_FAILED : Z := 106.

Definition DOCUMENTNODENAME : list Z := Eval vm_compute in cs "#document".
Definition TEXTNODENAME : list Z := Eval vm_compute in cs "#text".
Definition CDATANODENAME : list Z := Eval vm_compute in cs "#cdata-section".

(** The fields a derived structure adds to [IXML_Node]. *)
Inductive IXML_ext :=
| XNode
| XElement (tagName : DOMString)
| XAttr (specified : Z) (ownerElement : ptr).

Record IXML_Node := MkNode {
  n_nodeName : DOMString;
  n_nodeValue : DOMString;
  n_nodeType : IXML_NODE_TYPE;
  n_namespaceURI : DOMString;
  n_prefix : DOMString;
  n_localName : DOMString;
  n_readOnly : Z;
  n_parentNode : ptr;
  n_firstChild : ptr;
  n_prevSibling : ptr;
  n_nextSibling : ptr;
  n_firstAttr : ptr;
  n_ownerDocument : ptr;
  n_ext : IXML_ext
}.

Definition set_nodeName (v : DOMString) (n : IXML_Node) : IXML_Node :=
  MkNode v (n_nodeValue n) (n_nodeType n) (n_namespaceURI n) (n_prefix n)
    (n_localName n) (n_readOnly n) (n_parentNode n) (n_firstChild n) (n_prevSibling n)
    (n_nextSibling n) (n_firstAttr n) (n_ownerDocument n) (n_ext n).
Definition set_nodeValue (v : DOMString) (n : IXML_Node) : IXML_Node :=
  MkNode (n_nodeName n) v (n_nodeType n) (n_namespaceURI n) (n_prefix n) (n_localName n)
    (n_readOnly n) (n_parentNode n) (n_firstChild n) (n_prevSibling n) (n_nextSibling n)
    (n_firstAttr n) (n_ownerDocument n) (n_ext n).
Definition set_nodeType (v : IXML_NODE_TYPE) (n : IXML_Node) : IXML_Node :=
  MkNode (n_nodeName n) (n_nodeValue n) v (n_namespaceURI n) (n_prefix n)
    (n_localName n) (n_readOnly n) (n_parentNode n) (n_firstChild n) (n_prevSibling n)
    (n_nextSibling n) (n_firstAttr n) (n_ownerDocument n) (n_ext n).
Definition set_namespaceURI (v : DOMString) (n : IXML_Node) : IXML_Node :=
  MkNode (n_nodeName n) (n_nodeValue n) (n_nodeType n) v (n_prefix n) (n_localName n)
    (n_readOnly n) (n_parentNode n) (n_firstChild n) (n_prevSibling n) (n_nextSibling n)
    (n_firstAttr n) (n_ownerDocument n) (n_ext n).
Definition set_prefix (v : DOMString) (n : IXML_Node) : IXML_Node :=
  MkNode (n_nodeName n) (n_nodeValue n) (n_nodeType n) (n_namespaceURI n) v
    (n_localName n) (n_readOnly n) (n_parentNode n) (n_firstChild n) (n_prevSibling n)
    (n_nextSibling n) (n_firstAttr n) (n_ownerDocument n) (n_ext n).
Definition set_localName (v : DOMString) (n : IXML_Node) : IXML_Node :=
  MkNode (n_nodeName n) (n_nodeValue n) (n_nodeType n) (n_namespaceURI n) (n_prefix n) v
    (n_readOnly n) (n_parentNode n) (n_firstChild n) (n_prevSibling n) (n_nextSibling n)
    (n_firstAttr n) (n_ownerDocument n) (n_ext n).
Definition set_readOnly (v : Z) (n : IXML_Node) : IXML_Node :=
  MkNode (n_nodeName n) (n_nodeValue n) (n_nodeType n) (n_namespaceURI n) (n_prefix n)
    (n_localName n) v (n_parentNode n) (n_firstChild n) (n_prevSibling n)
    (n_nextSibling n) (n_firstAttr n) (n_ownerDocument n) (n_ext n).
Definition set_parentNode (v : ptr) (n : IXML_Node) : IXML_Node :=
  MkNode (n_nodeName n) (n_nodeValue n) (n_nodeType n) (n_namespaceURI n) (n_prefix n)
    (n_localName n) (n_readOnly n) v (n_firstChild n) (n_prevSibling n)
    (n_nextSibling n) (n_firstAttr n) (n_ownerDocument n) (n_ext n).
Definition set_firstChild (v : ptr) (n : IXML_Node) : IXML_Node :=
  MkNode (n_nodeName n) (n_nodeValue n) (n_nodeType n) (n_namespaceURI n) (n_prefix n)
    (n_localName n) (n_readOnly n) (n_parentNode n) v (n_prevSibling n)
    (n_nextSibling n) (n_firstAttr n) (n_ownerDocument n) (n_ext n).
Definition set_prevSibling (v : ptr) (n : IXML_Node) : IXML_Node :=
  MkNode (n_nodeName n) (n_nodeValue n) (n_nodeType n) (n_namespaceURI n) (n_prefix n)
    (n_localName n) (n_readOnly n) (n_parentNode n) (n_firstChild n) v (n_nextSibling n)
    (n_firstAttr n) (n_ownerDocument n) (n_ext n).
Definition set_nextSibling (v : ptr) (n : IXML_Node) : IXML_Node :=
  MkNode (n_nodeName n) (n_nodeValue n) (n_nodeType n) (n_namespaceURI n) (n_prefix n)
    (n_localName n) (n_readOnly n) (n_parentNode n) (n_firstChild n) (n_prevSibling n) v
    (n_firstAttr n) (n_ownerDocument n) (n_ext n).
Definition set_firstAttr (v : ptr) (n : IXML_Node) : IXML_Node :=
  MkNode (n_nodeName n) (n_nodeValue n) (n_nodeType n) (n_namespaceURI n) (n_prefix n)
    (n_localName n) (n_readOnly n) (n_parentNode n) (n_firstChild n) (n_prevSibling n)
    (n_nextSibling n) v (n_ownerDocument n) (n_ext n).
Definition set_ownerDocument (v : ptr) (n : IXML_Node) : IXML_Node :=
  MkNode (n_nodeName n) (n_nodeValue n) (n_nodeType n) (n_namespaceURI n) (n_prefix n)
    (n_localName n) (n_readOnly n) (n_parentNode n) (n_firstChild n) (n_prevSibling n)
    (n_nextSibling n) (n_firstAttr n) v (n_ext n).
Definition set_ext (v : IXML_ext) (n : IXML_Node) : IXML_Node :=
  MkNode (n_nodeName n) (n_nodeValue n) (n_nodeType n) (n_namespaceURI n) (n_prefix n)
    (n_localName n) (n_readOnly n) (n_parentNode n) (n_firstChild n) (n_prevSibling n)
    (n_nextSibling n) (n_firstAttr n) (n_ownerDocument n) v.

(** [memset(p, 0, ...)]. *)
Definition zero_node (x : IXML_ext) : IXML_Node :=
  MkNode DNull DNull eINVALID_NODE DNull DNull DNull 0 None None None None None None x.

(** ** Memory *)

(** A block is a node, or [None] before it is initialised. *)
Abbreviation nodes := (gmap loc (option IXML_Node)).
Implicit Types (st : nodes) (p nodeptr newChild refChild : ptr).

Definition rdn st p : option IXML_Node := l ← p; mjoin (st !! l).
Definition wrn st p (f : IXML_Node -> IXML_Node) : option nodes :=
  l ← p; n ← mjoin (st !! l); Some (<[l := Some (f n)]> st).

Definition malloc_node st : M (ptr * nodes) :=
  ok ← malloc_ok;
  if ok : bool then
    let l := fresh (dom st) in mret (Some l, <[l := None]> st)
  else mret (None, st).
Definition free_node st p : option nodes :=
  match p with
  | None => Some st
  | Some l => match st !! l with Some _ => Some (delete l st) | None => None end
  end.
Definition init_node (x : IXML_ext) st p : option nodes :=
  l ← p; _ ← st !! l; Some (<[l := Some (zero_node x)]> st).

(** Reading through, duplicating and freeing a string. *)
Definition str_of (d : DOMString) : option (list Z) :=
  match d with DStr s => Some (c_str s) | _ => None end.
Definition strdup (s : list Z) : M DOMString :=
  ok ← malloc_ok; mret (if ok : bool then DStr (c_str s) else DNull).
Definition strdup_of (d : DOMString) : M DOMString :=
  s ← liftO (str_of d); strdup s.
Definition free_str (d : DOMString) : option unit :=
  match d with DFreed => None | _ => Some tt end.
Definition is_null (d : DOMString) : bool := bool_decide (d = DNull).
Definition strcmp_eq (a b : list Z) : bool := bool_decide (c_str a = c_str b).

(** ** Freeing *)

Definition ixmlNode_init st p : M nodes :=
  _ ← assertM (bool_decide (p <> None)); liftO (init_node XNode st p).
Definition ixmlCDATASection_init st p : option nodes := init_node XNode st p.

Definition ixmlNode_freeSingleNode st nodeptr : option nodes :=
  match nodeptr with
  | None => Some st
  | Some _ =>
      n ← rdn st nodeptr;
      _ ← free_str (n_nodeName n); _ ← free_str (n_nodeValue n);
      _ ← free_str (n_namespaceURI n); _ ← free_str (n_prefix n);
      _ ← free_str (n_localName n);
      _ ← match n_nodeType n with
          | eELEMENT_NODE =>
              match n_ext n with XElement tagName => free_str tagName | _ => None end
          | _ => Some tt
          end;
      free_node st nodeptr
  end.

(** [while (curr) { prev = curr; curr = curr->next; }] for a link [next]. *)
Fixpoint last_along (next : IXML_Node -> ptr) (fuel : nat) st (prev curr : ptr) : M ptr :=
  match fuel with
  | O => running
  | S fuel' =>
      match curr with
      | None => mret prev
      | Some _ => n ← liftO (rdn st curr); last_along next fuel' st curr (next n)
      end
  end.

(** The inner loop of [ixmlNode_free]: down the first children, then along the
    siblings, until a node without children is the last sibling. *)
Fixpoint descend (fuel : nat) st (prev_child next_child : ptr) : M ptr :=
  match fuel with
  | O => running
  | S fuel' =>
      prev_child ← last_along n_firstChild (S (size st)) st prev_child next_child;
      prev_child ← last_along n_nextSibling (S (size st)) st prev_child prev_child;
      n ← liftO (rdn st prev_child);
      match n_firstChild n with
      | None => mret prev_child
      | next_child => descend fuel' st prev_child next_child
      end
  end.

Fixpoint free_attrs (fuel : nat) st (curr_attr : ptr) : M nodes :=
  match fuel with
  | O => running
  | S fuel' =>
      match curr_attr with
      | None => mret st
      | Some _ =>
          n ← liftO (rdn st curr_attr);
          st ← liftO (ixmlNode_freeSingleNode st curr_attr);
          free_attrs fuel' st (n_nextSibling n)
      end
  end.

(** One round of the outer loop: [None] when [nodeptr] itself was freed. *)
Fixpoint free_loop (fuel : nat) st nodeptr (prev_child next_child : ptr) : M nodes :=
  match fuel with
  | O => running
  | S fuel' =>
      curr_child ← descend (S (size st)) st prev_child next_child;
      n ← liftO (rdn st curr_child);
      st ← free_attrs (S (size st)) st (n_firstAttr n);
      st ← liftO (wrn st curr_child (set_firstAttr None));
      if bool_decide (curr_child = nodeptr) then
        liftO (ixmlNode_freeSingleNode st curr_child)
      else
        n ← liftO (rdn st curr_child);
        '(next_child, st) ← liftO (
          match n_prevSibling n with
          | Some q => st ← wrn st (Some q) (set_nextSibling None); Some (Some q, st)
          | None =>
              st ← wrn st (n_parentNode n) (set_firstChild None);
              Some (n_parentNode n, st)
          end);
        st ← liftO (ixmlNode_freeSingleNode st curr_child);
        free_loop fuel' st nodeptr curr_child next_child
  end.

Definition ixmlNode_free st nodeptr : M nodes :=
  match nodeptr with
  | None => mret st
  | Some _ =>
      n ← liftO (rdn st nodeptr);
      free_loop (S (size st)) st nodeptr nodeptr (n_firstChild n)
  end.
Definition ixmlCDATASection_free st nodeptr : M nodes := ixmlNode_free st nodeptr.
Definition ixmlElement_free st nodeptr : M nodes := ixmlNode_free st nodeptr.
Definition ixmlAttr_free st nodeptr : M nodes := ixmlNode_free st nodeptr.
Definition ixmlDocument_free st nodeptr : M nodes := ixmlNode_free st nodeptr.

(** ** Accessors *)

(** A getter: [dflt] on [NULL]. *)
Definition get {A} (dflt : A) (f : IXML_Node -> A) st nodeptr : option A :=
  match nodeptr with None => Some dflt | Some _ => f <$> rdn st nodeptr end.

Definition ixmlNode_getNodeName := get DNull n_nodeName.
Definition ixmlNode_getLocalName := get DNull n_localName.
Definition ixmlNode_getNamespaceURI := get DNull n_namespaceURI.
Definition ixmlNode_getPrefix := get DNull n_prefix.
Definition ixmlNode_getNodeValue := get DNull n_nodeValue.
Definition ixmlNode_getNodeType := get eINVALID_NODE n_nodeType.
Definition ixmlNode_getParentNode := get None n_parentNode.
Definition ixmlNode_getFirstChild := get None n_firstChild.
Definition ixmlNode_getPreviousSibling := get None n_prevSibling.
Definition ixmlNode_getNextSibling := get None n_nextSibling.
Definition ixmlNode_getOwnerDocument := get None n_ownerDocument.
Definition ixmlNode_hasChildNodes := get false (fun n => bool_decide (n_firstChild n <> None)).
Definition ixmlNode_hasAttributes := get false (fun n =>
  bool_decide (n_nodeType n = eELEMENT_NODE) && bool_decide (n_firstAttr n <> None)).

Definition ixmlNode_getLastChild st nodeptr : M ptr :=
  match nodeptr with
  | None => mret None
  | Some _ =>
      n ← liftO (rdn st nodeptr);
      last_along n_nextSibling (S (size st)) st nodeptr (n_firstChild n)
  end.

(** Replace the string field [f] by a copy of [v]; the result is 0 when the
    allocation failed.  The old string is freed first. *)
Definition replace_str (f : IXML_Node -> DOMString) (set : DOMString -> IXML_Node -> IXML_Node)
    st nodeptr (v : DOMString) : M (Z * nodes) :=
  n ← liftO (rdn st nodeptr);
  _ ← liftO (free_str (f n));
  st ← liftO (wrn st nodeptr (set DNull));
  match v with
  | DNull => mret (IXML_SUCCESS, st)
  | _ =>
      d ← strdup_of v;
      st ← liftO (wrn st nodeptr (set d));
      mret (if is_null d then IXML_INSUFFICIENT_MEMORY else IXML_SUCCESS, st)
  end.

Definition ixmlNode_setNamespaceURI st nodeptr v : M (Z * nodes) :=
  match nodeptr with
  | None => mret (IXML_INVALID_PARAMETER, st)
  | _ => replace_str n_namespaceURI set_namespaceURI st nodeptr v
  end.
Definition ixmlNode_setPrefix st nodeptr v : M (Z * nodes) :=
  match nodeptr with
  | None => mret (IXML_INVALID_PARAMETER, st)
  | _ => replace_str n_prefix set_prefix st nodeptr v
  end.
Definition ixmlNode_setLocalName st nodeptr v : M (Z * nodes) :=
  _ ← assertM (bool_decide (nodeptr <> None));
  replace_str n_localName set_localName st nodeptr v.
Definition ixmlNode_setNodeValue st nodeptr v : M (Z * nodes) :=
  match nodeptr with
  | None => mret (IXML_INVALID_PARAMETER, st)
  | _ => replace_str n_nodeValue set_nodeValue st nodeptr v
  end.

(** [strchr(s, ':')]: the parts before and behind the first colon. *)
Fixpoint split_colon (s : list Z) : option (list Z * list Z) :=
  match s with
  | [] => None
  | c :: s' =>
      if c =? $":" then Some ([], s') else '(p, l) ← split_colon s'; Some (c :: p, l)
  end.

(** On the contents of a node: the parser calls it on a local variable. *)
Definition Parser_setNodePrefixAndLocalName (n : IXML_Node) : M (Z * IXML_Node) :=
  name ← liftO (str_of (n_nodeName n));
  match split_colon name with
  | None =>
      d ← strdup name;
      mret (if is_null d then IXML_INSUFFICIENT_MEMORY else IXML_SUCCESS,
            set_localName d (set_prefix DNull n))
  | Some (pStrPrefix, pLocalName) =>
      p ← strdup pStrPrefix;
      if is_null p then mret (IXML_INSUFFICIENT_MEMORY, set_prefix p n)
      else
        d ← strdup pLocalName;
        if is_null d then
          mret (IXML_INSUFFICIENT_MEMORY, set_prefix DNull (set_localName d n))
        else mret (IXML_SUCCESS, set_localName d (set_prefix p n))
  end.

Definition ixmlNode_setNodeName st node (qualifiedName : DOMString) : M (Z * nodes) :=
  _ ← assertM (bool_decide (node <> None));
  n ← liftO (rdn st node);
  _ ← liftO (free_str (n_nodeName n));
  st ← liftO (wrn st node (set_nodeName DNull));
  match qualifiedName with
  | DNull => mret (IXML_SUCCESS, st)
  | _ =>
      d ← strdup_of qualifiedName;
      st ← liftO (wrn st node (set_nodeName d));
      if is_null d then mret (IXML_INSUFFICIENT_MEMORY, st)
      else
        n ← liftO (rdn st node);
        '(rc, n) ← Parser_setNodePrefixAndLocalName n;
        st ← liftO (wrn st node (fun _ => n));
        if rc =? IXML_SUCCESS then mret (rc, st)
        else st ← liftO (wrn st node (set_nodeName DFreed)); mret (rc, st)
  end.

(** The nodes are compared by their strings and types unless they are the same;
    [strcmp] is undefined on [NULL]. *)
Fixpoint same_strings (l : list (DOMString * DOMString)) : option bool :=
  match l with
  | [] => Some true
  | (a, b) :: l' =>
      x ← str_of a; y ← str_of b;
      if strcmp_eq x y then same_strings l' else Some false
  end.
Definition ixmlNode_compare st srcNode destNode : M bool :=
  _ ← assertM (bool_decide (srcNode <> None) && bool_decide (destNode <> None));
  if bool_decide (srcNode = destNode) then mret true
  else
    liftO (
      s ← rdn st srcNode;
      d ← rdn st destNode;
      b ← same_strings [(n_nodeName s, n_nodeName d); (n_nodeValue s, n_nodeValue d)];
      if b && bool_decide (n_nodeType s = n_nodeType d) then
        same_strings [(n_namespaceURI s, n_namespaceURI d); (n_prefix s, n_prefix d);
                      (n_localName s, n_localName d)]
      else Some false).

(** Copies from the contents [src] of a node. *)
Definition ixmlNode_setNodeProperties st destNode (src : IXML_Node) : M (Z * nodes) :=
  _ ← assertM (bool_decide (destNode <> None));
  let fail st :=
    n ← liftO (rdn st destNode);
    _ ← liftO (free_str (n_nodeName n));
    _ ← liftO (free_str (n_nodeValue n));
    _ ← liftO (free_str (n_localName n));
    st ← liftO (wrn st destNode (fun n =>
           set_localName DNull (set_nodeValue DNull (set_nodeName DNull n))));
    mret (IXML_INSUFFICIENT_MEMORY, st) in
  '(rc, st) ← ixmlNode_setNodeValue st destNode (n_nodeValue src);
  if negb (rc =? IXML_SUCCESS) then fail st
  else
  '(rc, st) ← ixmlNode_setLocalName st destNode (n_localName src);
  if negb (rc =? IXML_SUCCESS) then fail st
  else
  '(rc, st) ← ixmlNode_setPrefix st destNode (n_prefix src);
  if negb (rc =? IXML_SUCCESS) then fail st
  else
    st ← liftO (wrn st destNode (set_nodeType (n_nodeType src)));
    mret (IXML_SUCCESS, st).

(** Frees the strings of a node that is not in the store. *)
Definition Parser_freeNodeContent (n : IXML_Node) : option unit :=
  _ ← free_str (n_nodeName n); _ ← free_str (n_nodeValue n);
  _ ← free_str (n_namespaceURI n); _ ← free_str (n_prefix n); free_str (n_localName n).

(** ** The tree *)

Fixpoint is_ancestor (fuel : nat) st (ancestorNode toFind : ptr) : M bool :=
  match fuel with
  | O => running
  | S fuel' =>
      match ancestorNode, toFind with
      | Some _, Some _ =>
          t ← liftO (rdn st toFind);
          if bool_decide (n_parentNode t = ancestorNode) then mret true
          else
            a ← liftO (rdn st ancestorNode);
            found ← is_ancestor fuel' st (n_firstChild a) toFind;
            if found : bool then mret true
            else is_ancestor fuel' st (n_nextSibling a) toFind
      | _, _ => mret false
      end
  end.
Definition ixmlNode_isAncestor st ancestorNode toFind : M bool :=
  is_ancestor (S (size st)) st ancestorNode toFind.

Definition ixmlNode_isParent st nodeptr toFind : M bool :=
  _ ← assertM (bool_decide (nodeptr <> None) && bool_decide (toFind <> None));
  t ← liftO (rdn st toFind);
  mret (bool_decide (n_parentNode t = nodeptr)).

Definition allow_types (parent child : IXML_NODE_TYPE) : bool :=
  match parent with
  | eATTRIBUTE_NODE | eTEXT_NODE | eCDATA_SECTION_NODE => false
  | eELEMENT_NODE => match child with eATTRIBUTE_NODE | eDOCUMENT_NODE => false | _ => true end
  | eDOCUMENT_NODE => match child with eELEMENT_NODE => true | _ => false end
  | _ => true
  end.
Definition ixmlNode_allowChildren st nodeptr newChild : M bool :=
  _ ← assertM (bool_decide (nodeptr <> None) && bool_decide (newChild <> None));
  n ← liftO (rdn st nodeptr);
  c ← liftO (rdn st newChild);
  mret (allow_types (n_nodeType n) (n_nodeType c)).

(** The link updates of [ixmlNode_removeChild]. *)
Definition unlink_child st nodeptr oldChild : option nodes :=
  c ← rdn st oldChild;
  st ← match n_prevSibling c with
       | Some q => wrn st (Some q) (set_nextSibling (n_nextSibling c))
       | None => Some st
       end;
  n ← rdn st nodeptr;
  c ← rdn st oldChild;
  st ← (if bool_decide (n_firstChild n = oldChild)
        then wrn st nodeptr (set_firstChild (n_nextSibling c)) else Some st);
  c ← rdn st oldChild;
  st ← match n_nextSibling c with
       | Some q => wrn st (Some q) (set_prevSibling (n_prevSibling c))
       | None => Some st
       end;
  wrn st oldChild (fun c =>
    set_parentNode None (set_prevSibling None (set_nextSibling None c))).

(** [returnNode] tells whether the caller asks for the removed node; the node
    is returned to it, or freed. *)
Definition ixmlNode_removeChild st nodeptr oldChild (returnNode : bool)
    : M (Z * ptr * nodes) :=
  match nodeptr, oldChild with
  | Some _, Some _ =>
      isp ← ixmlNode_isParent st nodeptr oldChild;
      if negb isp then mret (IXML_NOT_FOUND_ERR, None, st)
      else
        st ← liftO (unlink_child st nodeptr oldChild);
        if returnNode then mret (IXML_SUCCESS, oldChild, st)
        else st ← ixmlNode_free st oldChild; mret (IXML_SUCCESS, None, st)
  | _, _ => mret (IXML_INVALID_PARAMETER, None, st)
  end.

(** The link updates of [ixmlNode_appendChild]. *)
Definition link_last st nodeptr newChild : M nodes :=
  n ← liftO (rdn st nodeptr);
  st ← liftO (wrn st newChild (fun c =>
         set_ownerDocument (n_ownerDocument n) (set_parentNode nodeptr c)));
  n ← liftO (rdn st nodeptr);
  match n_firstChild n with
  | None => liftO (wrn st nodeptr (set_firstChild newChild))
  | first =>
      f ← liftO (rdn st first);
      prev ← last_along n_nextSibling (S (size st)) st first (n_nextSibling f);
      st ← liftO (wrn st prev (set_nextSibling newChild));
      liftO (wrn st newChild (set_prevSibling prev))
  end.

Definition ixmlNode_appendChild st nodeptr newChild : M (Z * nodes) :=
  match nodeptr, newChild with
  | Some _, Some _ =>
      n ← liftO (rdn st nodeptr);
      c ← liftO (rdn st newChild);
      if bool_decide (n_ownerDocument c <> None)
         && bool_decide (n_ownerDocument n <> n_ownerDocument c)
      then mret (IXML_WRONG_DOCUMENT_ERR, st)
      else
      anc ← ixmlNode_isAncestor st newChild nodeptr;
      if anc : bool then mret (IXML_HIERARCHY_REQUEST_ERR, st)
      else
      allow ← ixmlNode_allowChildren st nodeptr newChild;
      if negb allow then mret (IXML_HIERARCHY_REQUEST_ERR, st)
      else
      isp ← ixmlNode_isParent st nodeptr newChild;
      st ← (if isp : bool then
              '(_, _, st) ← ixmlNode_removeChild st nodeptr newChild true; mret st
            else mret st);
      st ← link_last st nodeptr newChild;
      mret (IXML_SUCCESS, st)
  | _, _ => mret (IXML_INVALID_PARAMETER, st)
  end.

(** The link updates of [ixmlNode_insertBefore]. *)
Definition link_before st nodeptr newChild refChild : option nodes :=
  st ← wrn st newChild (set_nextSibling refChild);
  r ← rdn st refChild;
  st ← match n_prevSibling r with
       | Some q =>
           st ← wrn st (Some q) (set_nextSibling newChild);
           wrn st newChild (set_prevSibling (Some q))
       | None => Some st
       end;
  st ← wrn st refChild (set_prevSibling newChild);
  c ← rdn st newChild;
  st ← (if bool_decide (n_prevSibling c = None)
        then wrn st nodeptr (set_firstChild newChild) else Some st);
  wrn st newChild (set_parentNode nodeptr).

Definition ixmlNode_insertBefore st nodeptr newChild refChild : M (Z * nodes) :=
  match nodeptr, newChild with
  | Some _, Some _ =>
      allow ← ixmlNode_allowChildren st nodeptr newChild;
      if negb allow then mret (IXML_HIERARCHY_REQUEST_ERR, st)
      else
      anc ← ixmlNode_isAncestor st newChild nodeptr;
      if anc : bool then mret (IXML_HIERARCHY_REQUEST_ERR, st)
      else
      n ← liftO (rdn st nodeptr);
      c ← liftO (rdn st newChild);
      if bool_decide (n_ownerDocument n <> n_ownerDocument c)
      then mret (IXML_WRONG_DOCUMENT_ERR, st)
      else
      isr ← ixmlNode_isParent st nodeptr refChild;
      if negb isr then mret (IXML_NOT_FOUND_ERR, st)
      else
      match refChild with
      | None => ixmlNode_appendChild st nodeptr newChild
      | Some _ =>
          isp ← ixmlNode_isParent st nodeptr newChild;
          st ← (if isp : bool then
                  '(_, _, st) ← ixmlNode_removeChild st nodeptr newChild true;
                  liftO (wrn st newChild (fun c => set_prevSibling None (set_nextSibling None c)))
                else mret st);
          st ← liftO (link_before st nodeptr newChild refChild);
          mret (IXML_SUCCESS, st)
      end
  | _, _ => mret (IXML_INVALID_PARAMETER, st)
  end.

Definition ixmlNode_replaceChild st nodeptr newChild oldChild (returnNode : bool)
    : M (Z * ptr * nodes) :=
  match nodeptr, newChild, oldChild with
  | Some _, Some _, Some _ =>
      anc ← ixmlNode_isAncestor st newChild nodeptr;
      if anc : bool then mret (IXML_HIERARCHY_REQUEST_ERR, None, st)
      else
      allow ← ixmlNode_allowChildren st nodeptr newChild;
      if negb allow then mret (IXML_HIERARCHY_REQUEST_ERR, None, st)
      else
      n ← liftO (rdn st nodeptr);
      c ← liftO (rdn st newChild);
      if bool_decide (n_ownerDocument n <> n_ownerDocument c)
      then mret (IXML_WRONG_DOCUMENT_ERR, None, st)
      else
      isp ← ixmlNode_isParent st nodeptr oldChild;
      if negb isp then mret (IXML_NOT_FOUND_ERR, None, st)
      else
        '(ret, st) ← ixmlNode_insertBefore st nodeptr newChild oldChild;
        if negb (ret =? IXML_SUCCESS) then mret (ret, None, st)
        else ixmlNode_removeChild st nodeptr oldChild returnNode
  | _, _, _ => mret (IXML_INVALID_PARAMETER, None, st)
  end.

(** ** Cloning *)

(** The fields are copied one after the other; when one fails the new node is
    freed. *)
Fixpoint copy_fields st (node : ptr) (fields : list (nodes -> ptr -> M (Z * nodes)))
    : M (bool * nodes) :=
  match fields with
  | [] => mret (true, st)
  | f :: fields' =>
      '(rc, st) ← f st node;
      if rc =? IXML_SUCCESS then copy_fields st node fields'
      else st ← ixmlNode_free st node; mret (false, st)
  end.

Definition new_node (x : IXML_ext) (t : IXML_NODE_TYPE) st
    (fields : list (nodes -> ptr -> M (Z * nodes))) : M (ptr * nodes) :=
  '(node, st) ← malloc_node st;
  match node with
  | None => mret (None, st)
  | Some _ =>
      st ← liftO (init_node x st node);
      '(ok, st) ← copy_fields st node fields;
      if ok : bool then st ← liftO (wrn st node (set_nodeType t)); mret (node, st)
      else mret (None, st)
  end.

Definition ixmlElement_setTagName st element (tagName : DOMString) : M (Z * nodes) :=
  _ ← assertM (bool_decide (element <> None) && negb (is_null tagName));
  n ← liftO (rdn st element);
  match n_ext n with
  | XElement old =>
      _ ← liftO (free_str old);
      d ← strdup_of tagName;
      st ← liftO (wrn st element (set_ext (XElement d)));
      mret (if is_null d then IXML_INSUFFICIENT_MEMORY else IXML_SUCCESS, st)
  | _ => undefined
  end.

Definition ixmlNode_cloneTextNode st nodeptr : M (ptr * nodes) :=
  s ← liftO (rdn st nodeptr);
  new_node XNode eTEXT_NODE st
    [fun st p => ixmlNode_setNodeName st p (n_nodeName s);
     fun st p => ixmlNode_setNodeValue st p (n_nodeValue s)].
Definition ixmlNode_cloneCDATASect st nodeptr : M (ptr * nodes) :=
  s ← liftO (rdn st nodeptr);
  new_node XNode eCDATA_SECTION_NODE st
    [fun st p => ixmlNode_setNodeName st p (n_nodeName s);
     fun st p => ixmlNode_setNodeValue st p (n_nodeValue s)].

Definition copy_names (s : IXML_Node) : list (nodes -> ptr -> M (Z * nodes)) :=
  [fun st p => ixmlNode_setNodeName st p (n_nodeName s);
   fun st p => ixmlNode_setNodeValue st p (n_nodeValue s);
   fun st p => ixmlNode_setNamespaceURI st p (n_namespaceURI s);
   fun st p => ixmlNode_setPrefix st p (n_prefix s);
   fun st p => ixmlNode_setLocalName st p (n_localName s)].

Definition ixmlNode_cloneElement st nodeptr : M (ptr * nodes) :=
  s ← liftO (rdn st nodeptr);
  match n_ext s with
  | XElement tagName =>
      new_node (XElement DNull) eELEMENT_NODE st
        ((fun st p => ixmlElement_setTagName st p tagName) :: copy_names s)
  | _ => undefined
  end.
Definition ixmlNode_cloneAttr st nodeptr : M (ptr * nodes) :=
  s ← liftO (rdn st nodeptr);
  new_node (XAttr 0 None) eATTRIBUTE_NODE st (copy_names s).
Definition ixmlNode_newDoc st : M (ptr * nodes) :=
  new_node XNode eDOCUMENT_NODE st
    [fun st p => ixmlNode_setNodeName st p (DStr DOCUMENTNODENAME)].

Definition set_specified (v : Z) (n : IXML_Node) : IXML_Node :=
  match n_ext n with XAttr _ o => set_ext (XAttr v o) n | _ => n end.
Definition ixmlNode_cloneAttrDirect st nodeptr : M (ptr * nodes) :=
  '(newAttr, st) ← ixmlNode_cloneAttr st nodeptr;
  match newAttr with
  | Some _ => st ← liftO (wrn st newAttr (set_specified 1)); mret (newAttr, st)
  | None => mret (None, st)
  end.

(** The loop that gives the siblings from [p] on the parent [parentNode]. *)
Fixpoint set_parents (fuel : nat) st (parentNode p : ptr) : M nodes :=
  match fuel with
  | O => running
  | S fuel' =>
      match p with
      | None => mret st
      | Some _ =>
          st ← liftO (wrn st p (set_parentNode parentNode));
          n ← liftO (rdn st p);
          set_parents fuel' st parentNode (n_nextSibling n)
      end
  end.
Definition ixmlNode_setSiblingNodesParent st nodeptr : M nodes :=
  n ← liftO (rdn st nodeptr);
  set_parents (S (size st)) st (n_parentNode n) (n_nextSibling n).

(** [p->prevSibling = node] when [p] is not [NULL]. *)
Definition link_back st p node : option nodes :=
  match p with None => Some st | Some _ => wrn st p (set_prevSibling node) end.

Fixpoint clone_tree_recursive (fuel : nat) st nodeptr (deep : bool) : M (ptr * nodes) :=
  match fuel with
  | O => running
  | S fuel' =>
      match nodeptr with
      | None => mret (None, st)
      | Some _ =>
          s ← liftO (rdn st nodeptr);
          match n_nodeType s with
          | eELEMENT_NODE =>
              '(newElement, st) ← ixmlNode_cloneElement st nodeptr;
              match newElement with
              | None => mret (None, st)
              | Some _ =>
                  '(attr, st) ← clone_tree_recursive fuel' st (n_firstAttr s) deep;
                  st ← liftO (wrn st newElement (set_firstAttr attr));
                  if deep then
                    '(child, st) ← clone_tree_recursive fuel' st (n_firstChild s) deep;
                    st ← liftO (wrn st newElement (set_firstChild child));
                    st ← match child with
                         | None => mret st
                         | Some _ =>
                             st ← liftO (wrn st child (set_parentNode newElement));
                             ixmlNode_setSiblingNodesParent st child
                         end;
                    '(nextSib, st) ← clone_tree_recursive fuel' st (n_nextSibling s) deep;
                    st ← liftO (wrn st newElement (set_nextSibling nextSib));
                    st ← liftO (link_back st nextSib newElement);
                    mret (newElement, st)
                  else mret (newElement, st)
              end
          | eATTRIBUTE_NODE =>
              '(newAttr, st) ← ixmlNode_cloneAttr st nodeptr;
              match newAttr with
              | None => mret (None, st)
              | Some _ =>
                  '(nextSib, st) ← clone_tree_recursive fuel' st (n_nextSibling s) deep;
                  st ← liftO (wrn st newAttr (set_nextSibling nextSib));
                  st ← liftO (link_back st nextSib newAttr);
                  mret (newAttr, st)
              end
          | eTEXT_NODE => ixmlNode_cloneTextNode st nodeptr
          | eCDATA_SECTION_NODE => ixmlNode_cloneCDATASect st nodeptr
          | eDOCUMENT_NODE =>
              '(newDoc, st) ← ixmlNode_newDoc st;
              match newDoc with
              | None => mret (None, st)
              | Some _ =>
                  if deep then
                    '(child, st) ← clone_tree_recursive fuel' st (n_firstChild s) deep;
                    st ← liftO (wrn st newDoc (set_firstChild child));
                    st ← liftO (match child with
                                | None => Some st
                                | Some _ => wrn st child (set_parentNode newDoc)
                                end);
                    mret (newDoc, st)
                  else mret (newDoc, st)
              end
          | _ => mret (None, st)
          end
      end
  end.
Definition ixmlNode_cloneNodeTreeRecursive st nodeptr deep : M (ptr * nodes) :=
  clone_tree_recursive (S (size st)) st nodeptr deep.

Definition ixmlNode_cloneNodeTree st nodeptr (deep : bool) : M (ptr * nodes) :=
  _ ← assertM (bool_decide (nodeptr <> None));
  s ← liftO (rdn st nodeptr);
  '(newNode, st) ←
    match n_nodeType s with
    | eELEMENT_NODE =>
        '(newElement, st) ← ixmlNode_cloneElement st nodeptr;
        match newElement with
        | None => mret (None, st)
        | Some _ =>
            '(attr, st) ← ixmlNode_cloneNodeTreeRecursive st (n_firstAttr s) deep;
            st ← liftO (wrn st newElement (set_firstAttr attr));
            if deep then
              '(child, st) ← ixmlNode_cloneNodeTreeRecursive st (n_firstChild s) deep;
              st ← liftO (wrn st newElement (set_firstChild child));
              st ← set_parents (S (size st)) st newElement child;
              st ← liftO (wrn st newElement (set_nextSibling None));
              mret (newElement, st)
            else mret (newElement, st)
        end
    | eATTRIBUTE_NODE | eTEXT_NODE | eCDATA_SECTION_NODE | eDOCUMENT_NODE =>
        ixmlNode_cloneNodeTreeRecursive st nodeptr deep
    | _ => mret (None, st)
    end;
  match newNode with
  | None => mret (None, st)
  | Some _ => st ← liftO (wrn st newNode (set_parentNode None)); mret (newNode, st)
  end.

Definition ixmlNode_cloneNode st nodeptr (deep : bool) : M (ptr * nodes) :=
  match nodeptr with
  | None => mret (None, st)
  | Some _ =>
      n ← liftO (rdn st nodeptr);
      match n_nodeType n with
      | eATTRIBUTE_NODE => ixmlNode_cloneAttrDirect st nodeptr
      | _ => ixmlNode_cloneNodeTree st nodeptr deep
      end
  end.

(** ** Node lists: [ixml/src/nodeList.c]

    A node list is the list of its items; [NULL] is the empty list. *)

Abbreviation IXML_NodeList := (list ptr).

Definition ixmlNodeList_addToNodeList (nList : IXML_NodeList) (add : ptr)
    : M (Z * IXML_NodeList) :=
  _ ← assertM (bool_decide (add <> None));
  ok ← match nList with [] => malloc_ok | _ => mret true end;
  if negb ok then mret (IXML_INSUFFICIENT_MEMORY, nList)
  else
    match nList with
    | [] => mret (IXML_SUCCESS, [add])
    | None :: rest => mret (IXML_SUCCESS, add :: rest)
    | _ =>
        ok ← malloc_ok;
        if ok : bool then mret (IXML_SUCCESS, nList ++ [add])
        else mret (IXML_INSUFFICIENT_MEMORY, nList)
    end.

(** The body of [ixmlNamedNodeMap_addToNamedNodeMap] is that of
    [ixmlNodeList_addToNodeList]. *)
Definition ixmlNamedNodeMap_addToNamedNodeMap (nnMap : IXML_NodeList) (add : ptr)
    : M (Z * IXML_NodeList) :=
  match add with
  | None => mret (IXML_SUCCESS, nnMap)
  | Some _ => ixmlNodeList_addToNodeList nnMap add
  end.

Definition ixmlNodeList_length (nList : IXML_NodeList) : Z := zlen nList.

(** [index] and the length are [unsigned long]: [length - 1] wraps on [NULL],
    which was tested before. *)
Definition ixmlNodeList_item (nList : IXML_NodeList) (index : Z) : ptr :=
  match nList with
  | [] => None
  | _ =>
      if ixmlNodeList_length nList - 1 <? index then None
      else mjoin (nList !! Z.to_nat index)
  end.

(** The list of the siblings from [p] on; [NULL] when an allocation fails. *)
Fixpoint collect_siblings (addTo : IXML_NodeList -> ptr -> M (Z * IXML_NodeList))
    (fuel : nat) st p (l : IXML_NodeList) : M IXML_NodeList :=
  match fuel with
  | O => running
  | S fuel' =>
      match p with
      | None => mret l
      | Some _ =>
          '(rc, l) ← addTo l p;
          if rc =? IXML_SUCCESS then
            n ← liftO (rdn st p);
            collect_siblings addTo fuel' st (n_nextSibling n) l
          else mret []
      end
  end.

Definition ixmlNode_getChildNodes st nodeptr : M IXML_NodeList :=
  match nodeptr with
  | None => mret []
  | Some _ =>
      ok ← malloc_ok;
      if ok : bool then
        n ← liftO (rdn st nodeptr);
        collect_siblings ixmlNodeList_addToNodeList (S (size st)) st (n_firstChild n) [None]
      else mret []
  end.

Definition ixmlNode_getAttributes st nodeptr : M IXML_NodeList :=
  match nodeptr with
  | None => mret []
  | Some _ =>
      n ← liftO (rdn st nodeptr);
      match n_nodeType n with
      | eELEMENT_NODE =>
          ok ← malloc_ok;
          if ok : bool then
            collect_siblings ixmlNamedNodeMap_addToNamedNodeMap (S (size st)) st
              (n_firstAttr n) [None]
          else mret []
      | _ => mret []
      end
  end.

(** ** Searching *)

(** [strcmp(a, b) == 0 || strcmp(a, star) == 0]. *)
Definition name_matches (tagname name : list Z) : bool :=
  strcmp_eq tagname name || strcmp_eq tagname (cs "*").

(** Add the node to the list when it is an element and [test] holds. *)
Definition tag_test (tagname : list Z) (n : IXML_Node) : option bool :=
  name ← str_of (n_nodeName n); Some (name_matches tagname name).
Definition ns_test (namespaceURI localName : list Z) (n : IXML_Node) : option bool :=
  if negb (is_null (n_localName n)) && negb (is_null (n_namespaceURI n)) then
    name ← str_of (n_localName n);
    nsURI ← str_of (n_namespaceURI n);
    Some (name_matches namespaceURI nsURI && name_matches localName name)
  else Some false.
Definition add_match (test : IXML_Node -> option bool) st p (l : IXML_NodeList)
    : M IXML_NodeList :=
  n ← liftO (rdn st p);
  if bool_decide (n_nodeType n = eELEMENT_NODE) then
    b ← liftO (test n);
    if b : bool then '(_, l) ← ixmlNodeList_addToNodeList l p; mret l else mret l
  else mret l.

Fixpoint get_elements (test : IXML_Node -> option bool) (fuel : nat) st p (l : IXML_NodeList)
    : M IXML_NodeList :=
  match fuel with
  | O => running
  | S fuel' =>
      match p with
      | None => mret l
      | Some _ =>
          l ← add_match test st p l;
          n ← liftO (rdn st p);
          l ← get_elements test fuel' st (n_firstChild n) l;
          get_elements test fuel' st (n_nextSibling n) l
      end
  end.
Definition ixmlNode_getElementsByTagNameRecursive st p (tagname : list Z) l :=
  get_elements (tag_test tagname) (S (size st)) st p l.
Definition ixmlNode_getElementsByTagNameNSRecursive st p (namespaceURI localName : list Z) l :=
  get_elements (ns_test namespaceURI localName) (S (size st)) st p l.

Definition ixmlNode_getElementsByTagName st p (tagname : list Z) l : M IXML_NodeList :=
  _ ← assertM (bool_decide (p <> None));
  l ← add_match (tag_test tagname) st p l;
  n ← liftO (rdn st p);
  ixmlNode_getElementsByTagNameRecursive st (n_firstChild n) tagname l.
Definition ixmlNode_getElementsByTagNameNS st p (namespaceURI localName : list Z) l
    : M IXML_NodeList :=
  _ ← assertM (bool_decide (p <> None));
  l ← add_match (ns_test namespaceURI localName) st p l;
  n ← liftO (rdn st p);
  ixmlNode_getElementsByTagNameNSRecursive st (n_firstChild n) namespaceURI localName l.

