(* ===== verification/IxmlTree.v ===== *)
(** The tree that DOM nodes form, and the operations of [IxmlNode.v] on it.

    The links [firstChild] and [nextSibling] make the nodes a binary tree, and
    the recursive functions of [node.c] recurse over it in that form: a [tree]
    is a node with its attributes, the tree of its children and the tree of
    its following siblings.  [tree_at] says that the store holds a tree, with
    all links, [dom_inv] that it holds several documents and detached subtrees
    side by side. *)

From S2P Require Import Prelude CString FreeList IxmlNode.

Inductive tree :=
| Leaf
| Node (l : loc) (attrs : list loc) (kids next : tree).

#[global] Instance tree_eq_dec : EqDecision tree.
Proof. solve_decision. Defined.

(** The nodes in document order, and all blocks. *)
Fixpoint nlocs (t : tree) : list loc :=
  match t with Leaf => [] | Node l _ ks nx => l :: nlocs ks ++ nlocs nx end.
Fixpoint locs (t : tree) : list loc :=
  match t with Leaf => [] | Node l a ks nx => l :: a ++ locs ks ++ locs nx end.

Inductive subtree (s : tree) : tree -> Prop :=
| sub_refl : subtree s s
| sub_kids l a ks nx : subtree s ks -> subtree s (Node l a ks nx)
| sub_next l a ks nx : subtree s nx -> subtree s (Node l a ks nx).

(** No string of the node dangles, and an element has a tag name. *)
Definition node_ok (n : IXML_Node) : Prop :=
  Forall (fun d => d <> DFreed)
    [n_nodeName n; n_nodeValue n; n_namespaceURI n; n_prefix n; n_localName n] /\
  match n_nodeType n, n_ext n with
  | eELEMENT_NODE, XElement tagName => tagName <> DFreed
  | eELEMENT_NODE, _ => False
  | _, _ => True
  end.

Fixpoint attrs_at (st : nodes) (p : ptr) (a : list loc) : Prop :=
  match a with
  | [] => p = None
  | l :: a' => p = Some l /\ exists n, st !! l = Some (Some n) /\ node_ok n /\
                 attrs_at st (n_nextSibling n) a'
  end.

Fixpoint tree_at (st : nodes) (par prev p : ptr) (t : tree) : Prop :=
  match t with
  | Leaf => p = None
  | Node l a ks nx =>
      p = Some l /\ exists n, st !! l = Some (Some n) /\ node_ok n /\
      n_parentNode n = par /\ n_prevSibling n = prev /\ attrs_at st (n_firstAttr n) a /\
      tree_at st (Some l) None (n_firstChild n) ks /\
      tree_at st par (Some l) (n_nextSibling n) nx
  end.

(** A detached tree: a document, or a node that has no parent. *)
Definition root_at (st : nodes) (t : tree) : Prop :=
  match t with
  | Node l _ _ Leaf => tree_at st None None (Some l) t
  | _ => False
  end.

Definition dom_inv (st : nodes) (ts : list tree) : Prop :=
  Forall (root_at st) ts /\ NoDup (concat (locs <$> ts)).

(** The store without some blocks. *)
Definition minus (st : nodes) (ls : list loc) : nodes :=
  filter (fun '(k, _) => k ∉ ls) st.

(** ** Trees as lists and as stores *)

Lemma nlocs_locs t l : l ∈ nlocs t -> l ∈ locs t.
Proof.
  induction t as [|x a ks IH1 nx IH2]; [done|]. cbn.
  rewrite !elem_of_cons, !elem_of_app. intuition.
Qed.

Lemma minus_lookup st ls l : minus st ls !! l = if decide (l ∈ ls) then None else st !! l.
Proof.
  unfold minus. destruct (decide (l ∈ ls)) as [H|H].
  - apply map_lookup_filter_None. right. intros x _ Hx. by apply Hx.
  - destruct (st !! l) as [x|] eqn:E.
    + by apply map_lookup_filter_Some.
    + apply map_lookup_filter_None. by left.
Qed.
Lemma minus_in st ls l : l ∈ ls -> minus st ls !! l = None.
Proof. intros H. rewrite minus_lookup. by case_decide. Qed.
Lemma minus_out st ls l : l ∉ ls -> minus st ls !! l = st !! l.
Proof. intros H. rewrite minus_lookup. by case_decide. Qed.

Lemma attrs_at_frame st st' p a :
  attrs_at st p a -> (forall l, l ∈ a -> st' !! l = st !! l) -> attrs_at st' p a.
Proof.
  revert p. induction a as [|l a IH]; cbn; [done|]. intros p (-> & n & Hl & Hn & Ha) H.
  split; [done|]. exists n. rewrite H by set_solver. split; [done|]. split; [done|].
  apply IH; [done|]. set_solver.
Qed.

Lemma tree_at_frame st st' t par prev p :
  tree_at st par prev p t -> (forall l, l ∈ locs t -> st' !! l = st !! l) ->
  tree_at st' par prev p t.
Proof.
  revert par prev p. induction t as [|l a ks IH1 nx IH2]; cbn; [done|].
  intros par prev p (-> & n & Hl & Hn & Hp & Hq & Ha & Hk & Hx) H.
  split; [done|]. exists n. rewrite H by set_solver. do 4 (split; [done|]).
  split; [apply (attrs_at_frame st); [done|]; set_solver|].
  split; [apply IH1; [done|]; set_solver|apply IH2; [done|]; set_solver].
Qed.

Lemma attrs_at_live st p a l : attrs_at st p a -> l ∈ a -> is_Some (st !! l).
Proof.
  revert p. induction a as [|x a IH]; cbn; [set_solver|].
  intros p (-> & n & Hx & _ & Ha) [->|H]%elem_of_cons; eauto.
Qed.
Lemma tree_at_live st par prev p t l :
  tree_at st par prev p t -> l ∈ locs t -> is_Some (st !! l).
Proof.
  revert par prev p. induction t as [|x a ks IH1 nx IH2]; cbn; [set_solver|].
  intros par prev p (-> & n & Hx & _ & _ & _ & Ha & Hk & Hn).
  rewrite elem_of_cons, !elem_of_app. intros [->|[H|[H|H]]]; eauto using attrs_at_live.
Qed.

Lemma tree_at_size st par prev p t :
  tree_at st par prev p t -> NoDup (locs t) -> (length (locs t) <= size st)%nat.
Proof.
  intros Ht Hnd. rewrite <- (size_list_to_set (C := gset loc)) by done.
  rewrite <- (size_dom (D := gset loc)). apply subseteq_size. intros l Hl.
  apply elem_of_dom. eapply tree_at_live; [done|]. by apply elem_of_list_to_set in Hl.
Qed.
Lemma attrs_at_size st p a :
  attrs_at st p a -> NoDup a -> (length a <= size st)%nat.
Proof.
  intros Ht Hnd. rewrite <- (size_list_to_set (C := gset loc)) by done.
  rewrite <- (size_dom (D := gset loc)). apply subseteq_size. intros l Hl.
  apply elem_of_dom. eapply attrs_at_live; [done|]. by apply elem_of_list_to_set in Hl.
Qed.

Lemma length_nlocs t : (length (nlocs t) <= length (locs t))%nat.
Proof. induction t; cbn; rewrite ?length_app; lia. Qed.

(** A part of a tree in the store. *)
Lemma tree_at_subtree st s t par prev p :
  tree_at st par prev p t -> subtree s t ->
  exists par' prev' p', tree_at st par' prev' p' s.
Proof.
  intros Ht Hs. revert par prev p Ht. induction Hs as [|l a ks nx _ IH|l a ks nx _ IH];
    intros par prev p Ht; [by exists par, prev, p| |];
    destruct Ht as (-> & n & _ & _ & _ & _ & _ & Hk & Hx); eauto.
Qed.

Lemma subtree_trans r s t : subtree r s -> subtree s t -> subtree r t.
Proof. intros H. induction 1; eauto using subtree. Qed.

Lemma subtree_locs s t : subtree s t -> locs s ⊆ locs t.
Proof. induction 1; cbn; set_solver. Qed.
Lemma subtree_nlocs s t : subtree s t -> nlocs s ⊆ nlocs t.
Proof. induction 1; cbn; set_solver. Qed.

Lemma subtree_node x t :
  x ∈ nlocs t -> exists a ks nx, subtree (Node x a ks nx) t.
Proof.
  induction t as [|l a ks IH1 nx IH2]; cbn; [set_solver|].
  rewrite elem_of_cons, elem_of_app. intros [->|[H|H]].
  - eauto using subtree.
  - destruct (IH1 H) as (? & ? & ? & ?). eauto using subtree.
  - destruct (IH2 H) as (? & ? & ? & ?). eauto using subtree.
Qed.

Lemma rdn_at st l n : st !! l = Some (Some n) -> rdn st (Some l) = Some n.
Proof. intros H. unfold rdn. cbn. by rewrite H. Qed.
Lemma wrn_at st l n f :
  st !! l = Some (Some n) -> wrn st (Some l) f = Some (<[l := Some (f n)]> st).
Proof. intros H. unfold wrn. cbn. by rewrite H. Qed.
Lemma wrn_None st f : wrn st None f = None.
Proof. done. Qed.

(** One memory access in [runs]. *)
Ltac rd_step := eapply runs_bind, runs_liftO; [apply rdn_at; eassumption|].
Ltac wr_step := eapply runs_bind, runs_liftO; [apply wrn_at; eassumption|].

(** ** Walks *)

Section Runs.
Context (md : mode).

Lemma along_kids st t fuel par prev p q :
  tree_at st par prev p t -> (length (nlocs t) < fuel)%nat ->
  runs md (last_along n_firstChild fuel st q p) (fun r =>
    match t with
    | Leaf => r = q
    | _ => exists y a nx par' prev', r = Some y /\
        tree_at st par' prev' r (Node y a Leaf nx) /\ subtree (Node y a Leaf nx) t
    end).
Proof.
  revert fuel par prev p q. induction t as [|l a ks IH nx _]; intros fuel par prev p q Ht Hf.
  - cbn in Ht. subst p. destruct fuel; [cbn in Hf; lia|]. cbn. by mstep.
  - pose proof Ht as (-> & n & Hl & _ & _ & _ & _ & Hk & _).
    destruct fuel as [|fuel]; [cbn in Hf; lia|]. cbn [last_along]. rd_step.
    cbn [nlocs] in Hf. cbn in Hf. rewrite length_app in Hf.
    eapply runs_mono; [apply (IH fuel _ _ _ _ Hk); lia|].
    intros r Hr. destruct ks as [|l2 a2 k2 n2].
    + subst r. exists l, a, nx, par, prev. split; [done|]. split; [done|]. constructor.
    + destruct Hr as (y & b & nx' & par' & prev' & -> & Hy & Hs).
      exists y, b, nx', par', prev'. split; [done|]. split; [done|]. by constructor.
Qed.

Lemma along_next st t fuel par prev p q :
  tree_at st par prev p t -> (length (nlocs t) < fuel)%nat ->
  runs md (last_along n_nextSibling fuel st q p) (fun r =>
    match t with
    | Leaf => r = q
    | _ => exists y a ks par' prev', r = Some y /\
        tree_at st par' prev' r (Node y a ks Leaf) /\ subtree (Node y a ks Leaf) t
    end).
Proof.
  revert fuel par prev p q. induction t as [|l a ks _ nx IH]; intros fuel par prev p q Ht Hf.
  - cbn in Ht. subst p. destruct fuel; [cbn in Hf; lia|]. cbn. by mstep.
  - pose proof Ht as (-> & n & Hl & _ & _ & _ & _ & _ & Hx).
    destruct fuel as [|fuel]; [cbn in Hf; lia|]. cbn [last_along]. rd_step.
    cbn [nlocs] in Hf. cbn in Hf. rewrite length_app in Hf.
    eapply runs_mono; [apply (IH fuel _ _ _ _ Hx); lia|].
    intros r Hr. destruct nx as [|l2 a2 k2 n2].
    + subst r. exists l, a, ks, par, prev. split; [done|]. split; [done|]. constructor.
    + destruct Hr as (y & b & ks' & par' & prev' & -> & Hy & Hs).
      exists y, b, ks', par', prev'. split; [done|]. split; [done|]. by constructor.
Qed.

Lemma subtree_size s t :
  subtree s t -> (length (nlocs s) <= length (nlocs t))%nat.
Proof. induction 1; cbn; rewrite ?length_app; lia. Qed.

Lemma subtree_locs_size s t :
  subtree s t -> (length (locs s) <= length (locs t))%nat.
Proof. induction 1; cbn; rewrite ?length_app; lia. Qed.

(** The inner loop of [ixmlNode_free] ends at a node without children and
    following siblings.  It starts at [next_child], or at [prev_child] when
    that is [NULL]. *)
Lemma descend_runs st t fuel par prev c pc nc l a ks nx :
  tree_at st par prev c t -> t = Node l a ks nx -> (length (locs t) <= size st)%nat ->
  nc = c \/ (nc = None /\ pc = c /\ ks = Leaf) ->
  (length (nlocs t) <= fuel)%nat ->
  runs md (descend fuel st pc nc) (fun r =>
    exists y b par' prev', r = Some y /\ tree_at st par' prev' r (Node y b Leaf Leaf) /\
      subtree (Node y b Leaf Leaf) t).
Proof.
  revert t par prev c pc nc l a ks nx. induction fuel as [|fuel IH];
    intros t par prev c pc nc l a ks nx Ht -> Hsz Hc Hf; [cbn in Hf; lia|]. cbn [descend].
  pose proof (length_nlocs (Node l a ks nx)) as Hn.
  (* down the first children *)
  mstep. apply (runs_mono _ _ (fun r => exists y b nx' par' prev', r = Some y /\
      tree_at st par' prev' r (Node y b Leaf nx') /\
      subtree (Node y b Leaf nx') (Node l a ks nx))).
  { destruct Hc as [->|(-> & -> & ->)].
    - by apply (along_kids st (Node l a ks nx) _ par prev); [|lia].
    - destruct Ht as [-> Ht]. cbn. mstep. exists l, a, nx, par, prev.
      split; [done|]. split; [by split|constructor]. }
  intros r (y & b & nx' & par' & prev' & -> & Hy & Hs). mstep.
  pose proof (subtree_size _ _ Hs) as Hs1.
  (* along the siblings *)
  eapply runs_mono; [apply (along_next st (Node y b Leaf nx') _ _ _ _ _ Hy); lia|].
  cbn beta iota. intros r (z & e & ks' & par2 & prev2 & -> & Hz & Hs2).
  pose proof (subtree_trans _ _ _ Hs2 Hs) as Hs3.
  pose proof Hz as (_ & n & Hnz & _ & _ & _ & _ & Hk & _). rd_step.
  destruct ks' as [|k2 a2 ks2 nx2].
  - cbn in Hk. rewrite Hk. mstep. exists z, e, par2, prev2. done.
  - destruct (n_firstChild n) as [k3|] eqn:Ek; [|by destruct Hk].
    assert (subtree (Node k2 a2 ks2 nx2) (Node l a ks nx)) as Hs4
      by (eapply subtree_trans; [|exact Hs3]; by do 2 constructor).
    eapply runs_mono.
    + eapply IH; [exact Hk|reflexivity| |by left|].
      * etrans; [by apply subtree_locs_size|done].
      * pose proof (subtree_size _ _ Hs3) as H. set (K := Node k2 a2 ks2 nx2) in *.
        change (nlocs (Node z e K Leaf)) with (z :: nlocs K ++ []) in H.
        rewrite app_nil_r in H. cbn [length] in H. lia.
    + intros r (w & g & par4 & prev4 & -> & Hw & Hs5).
      exists w, g, par4, prev4. split; [done|]. split; [done|]. by eapply subtree_trans.
Qed.
End Runs.

(** ** Freeing *)

(** Remove the node [y], which has no children and no following sibling. *)
Fixpoint rm_leaf (y : loc) (t : tree) : tree :=
  match t with
  | Leaf => Leaf
  | Node l a ks nx => if decide (l = y) then Leaf else Node l a (rm_leaf y ks) (rm_leaf y nx)
  end.

Lemma rm_leaf_out y t : y ∉ locs t -> rm_leaf y t = t.
Proof.
  induction t as [|l a ks IH1 nx IH2]; [done|]. cbn.
  rewrite not_elem_of_cons, !not_elem_of_app. intros (H1 & H2 & H3 & H4).
  rewrite decide_False by done. by rewrite IH1, IH2.
Qed.

Lemma locs_node_NoDup l a ks nx :
  NoDup (locs (Node l a ks nx)) ->
  (l ∉ a) /\ (l ∉ locs ks) /\ (l ∉ locs nx) /\ NoDup (locs ks) /\ NoDup (locs nx) /\
  (forall x, x ∈ a -> x ∉ locs ks) /\ (forall x, x ∈ a -> x ∉ locs nx) /\
  (forall x, x ∈ locs ks -> x ∉ locs nx) /\ NoDup a.
Proof.
  cbn. rewrite NoDup_cons, !NoDup_app, !elem_of_app. intros (H1 & H2 & H3 & H4 & H5 & H6).
  do 3 (split; [tauto|]). do 2 (split; [done|]). split; [|split; [|done]];
    intros x Hx Hy; apply (H3 x Hx), elem_of_app; tauto.
Qed.

(** Membership in the blocks of a node. *)
Ltac in_locs :=
  cbn [locs nlocs] in *;
  repeat match goal with
    | |- context [_ ∈ _ :: _] => rewrite elem_of_cons
    | |- context [_ ∈ _ ++ _] => rewrite elem_of_app
    | H : context [_ ∈ _ :: _] |- _ => rewrite elem_of_cons in H
    | H : context [_ ∈ _ ++ _] |- _ => rewrite elem_of_app in H
    end; tauto.

Lemma rm_leaf_perm y b t :
  NoDup (locs t) -> subtree (Node y b Leaf Leaf) t ->
  locs t ≡ₚ (y :: b) ++ locs (rm_leaf y t).
Proof.
  intros Hnd Hs. induction t as [|l a ks IH1 nx IH2]; [by inversion Hs|].
  destruct (locs_node_NoDup _ _ _ _ Hnd) as (_ & H2 & H3 & H5 & H6 & _ & _ & H8 & _).
  assert (forall s, subtree (Node y b Leaf Leaf) s -> y ∈ locs s) as Hy.
  { intros s Hs'. apply (subtree_locs _ _ Hs'). by left. }
  cbn [rm_leaf]. inversion Hs as [E|l' a' ks' nx' Hk|l' a' ks' nx' Hx]; subst.
  - rewrite decide_True by done. cbn. by rewrite !app_nil_r.
  - rewrite decide_False by (intros ->; by apply H2, Hy).
    rewrite (rm_leaf_out y nx) by (by apply H8, Hy). cbn [locs].
    rewrite (IH1 H5 Hk). solve_perm.
  - rewrite decide_False by (intros ->; by apply H3, Hy).
    rewrite (rm_leaf_out y ks) by (intros H; by apply (H8 y), Hy). cbn [locs].
    rewrite (IH2 H6 Hx). solve_perm.
Qed.

(** The link that points to a node: its field in the previous sibling, or in
    the parent. *)
Definition up_node (n : IXML_Node) : ptr :=
  match n_prevSibling n with Some q => Some q | None => n_parentNode n end.
Definition cut_link (n : IXML_Node) : IXML_Node -> IXML_Node :=
  match n_prevSibling n with Some _ => set_nextSibling None | None => set_firstChild None end.

(** A node whose link to [ks] or to [nx] changed. *)
Lemma node_at_frame st st' l a ks nx par prev n n' :
  st !! l = Some (Some n) -> st' !! l = Some (Some n') -> node_ok n' ->
  n_parentNode n' = par -> n_prevSibling n' = prev -> n_firstAttr n' = n_firstAttr n ->
  attrs_at st (n_firstAttr n) a -> (forall x, x ∈ a -> st' !! x = st !! x) ->
  tree_at st' (Some l) None (n_firstChild n') ks ->
  tree_at st' par (Some l) (n_nextSibling n') nx ->
  tree_at st' par prev (Some l) (Node l a ks nx).
Proof.
  intros Hl Hl' Hn Hp Hq Hf Ha Hfr Hk Hx. split; [done|]. exists n'. rewrite Hf.
  do 4 (split; [done|]). split; [by apply (attrs_at_frame st)|done].
Qed.

Lemma rm_leaf_root y t st par prev :
  tree_at st par prev (Some y) t -> rm_leaf y t = Leaf.
Proof. destruct t; [done|]. intros [[= ->] _]. cbn. by rewrite decide_True. Qed.

Lemma unlink_leaf st y b t par prev p :
  tree_at st par prev p t -> NoDup (locs t) -> subtree (Node y b Leaf Leaf) t -> p <> Some y ->
  exists n u nu, st !! y = Some (Some n) /\ up_node n = Some u /\
    u ∈ nlocs (rm_leaf y t) /\ st !! u = Some (Some nu) /\
    forall st', (forall l, l ∈ locs (rm_leaf y t) -> l <> u -> st' !! l = st !! l) ->
      st' !! u = Some (Some (cut_link n nu)) -> tree_at st' par prev p (rm_leaf y t).
Proof.
  revert par prev p. induction t as [|l a ks IH1 nx IH2]; intros par prev p Ht Hnd Hs Hp;
    [by inversion Hs|].
  pose proof (locs_node_NoDup _ _ _ _ Hnd) as (H1 & H2 & H3 & H5 & H6 & H7 & H7' & H8 & _).
  destruct Ht as (-> & n & Hl & Hn & Hpar & Hprev & Ha & Hk & Hx).
  assert (l <> y) as Hly by congruence.
  assert (forall s, subtree (Node y b Leaf Leaf) s -> y ∈ locs s) as Hy.
  { intros s Hs'. apply (subtree_locs _ _ Hs'). by left. }
  cbn [rm_leaf]. rewrite decide_False by done.
  inversion Hs as [E|l' a' ks' nx' Hsk|l' a' ks' nx' Hsx]; subst; [done| |].
  - rewrite (rm_leaf_out y nx) by (by apply H8, Hy).
    destruct (decide (n_firstChild n = Some y)) as [E|E].
    + rewrite E in Hk. rewrite (rm_leaf_root y ks _ _ _ Hk).
      destruct ks as [|k ka kk kn]; [done|].
      destruct Hk as ([= <-] & nk & Hnk & _ & Hkp & Hkq & _).
      exists nk, l, n. split; [done|]. unfold up_node, cut_link. rewrite Hkq, Hkp.
      split; [done|]. split; [by left|]. split; [done|]. intros st' Hf Hu.
      apply (node_at_frame st st' l a Leaf nx _ _ n (set_firstChild None n)); try done.
      * intros x Hx2. apply Hf; [in_locs|congruence].
      * apply (tree_at_frame st); [done|]. intros x Hx2. apply Hf; [in_locs|congruence].
    + destruct (IH1 _ _ _ Hk H5 Hsk E) as (ny & u & nu & Hny & Hup & Hu & Hnu & Hst).
      assert (u ∈ locs ks) as Huk.
      { rewrite (rm_leaf_perm y b ks) by done. apply elem_of_app. right. by apply nlocs_locs. }
      exists ny, u, nu. do 2 (split; [done|]). split; [in_locs|]. split; [done|].
      intros st' Hf Hu2. apply (node_at_frame st st' l a _ nx _ _ n n); try done.
      * rewrite Hf; [done|in_locs|congruence].
      * intros x Hx2. apply Hf; [in_locs|]. intros ->. by apply (H7 u).
      * apply Hst; [|done]. intros x Hx2 Hxu. apply Hf; [in_locs|done].
      * apply (tree_at_frame st); [done|]. intros x Hx2. apply Hf; [in_locs|].
        intros ->. by apply (H8 u).
  - rewrite (rm_leaf_out y ks) by (intros H; by apply (H8 y), Hy).
    destruct (decide (n_nextSibling n = Some y)) as [E|E].
    + rewrite E in Hx. rewrite (rm_leaf_root y nx _ _ _ Hx).
      destruct nx as [|k ka kk kn]; [done|].
      destruct Hx as ([= <-] & nk & Hnk & _ & Hkp & Hkq & _).
      exists nk, l, n. split; [done|]. unfold up_node, cut_link. rewrite Hkq.
      split; [done|]. split; [by left|]. split; [done|]. intros st' Hf Hu.
      apply (node_at_frame st st' l a ks Leaf _ _ n (set_nextSibling None n)); try done.
      * intros x Hx2. apply Hf; [in_locs|congruence].
      * apply (tree_at_frame st); [done|]. intros x Hx2. apply Hf; [in_locs|congruence].
    + destruct (IH2 _ _ _ Hx H6 Hsx E) as (ny & u & nu & Hny & Hup & Hu & Hnu & Hst).
      assert (u ∈ locs nx) as Hux.
      { rewrite (rm_leaf_perm y b nx) by done. apply elem_of_app. right. by apply nlocs_locs. }
      exists ny, u, nu. do 2 (split; [done|]). split; [in_locs|]. split; [done|].
      intros st' Hf Hu2. apply (node_at_frame st st' l a ks _ _ _ n n); try done.
      * rewrite Hf; [done|in_locs|congruence].
      * intros x Hx2. apply Hf; [in_locs|]. intros ->. by apply (H7' u).
      * apply (tree_at_frame st); [done|]. intros x Hx2. apply Hf; [in_locs|].
        intros ->. by apply (H8 u).
      * apply Hst; [|done]. intros x Hx2 Hxu. apply Hf; [in_locs|done].
Qed.

Lemma free_single_at st l n :
  st !! l = Some (Some n) -> node_ok n ->
  ixmlNode_freeSingleNode st (Some l) = Some (delete l st).
Proof.
  intros Hl [Hs He]. unfold ixmlNode_freeSingleNode. rewrite (rdn_at _ _ _ Hl). cbn.
  rewrite !Forall_cons in Hs. destruct Hs as (H1 & H2 & H3 & H4 & H5 & _).
  assert (forall d, d <> DFreed -> free_str d = Some tt) as Hd by by intros [].
  rewrite !Hd by done. cbn. rewrite Hl.
  destruct (n_nodeType n); try done. destruct (n_ext n); try done. cbn. by rewrite Hd.
Qed.

#[global] Instance minus_perm st : Proper (Permutation ==> eq) (minus st).
Proof.
  intros l1 l2 H. apply map_eq. intros i. rewrite !minus_lookup.
  apply decide_ext. by rewrite H.
Qed.

(** Equal lookups in stores without some blocks. *)
Ltac solve_minus :=
  repeat case_decide; subst; try done; exfalso;
  repeat match goal with
         | H : context [_ ∈ _ ++ _] |- _ => rewrite elem_of_app in H
         | H : context [_ ∈ _ :: _] |- _ => rewrite elem_of_cons in H
         end; intuition congruence.

Lemma minus_delete st l ls : minus (delete l st) ls = minus st (l :: ls).
Proof.
  apply map_eq. intros i. rewrite !minus_lookup, lookup_delete. solve_minus.
Qed.
Lemma minus_nil st : minus st [] = st.
Proof. apply map_eq. intros i. rewrite minus_lookup. by rewrite decide_False by set_solver. Qed.

Lemma free_attrs_runs md st a fuel p :
  attrs_at st p a -> NoDup a -> (length a < fuel)%nat ->
  runs md (free_attrs fuel st p) (fun st' => st' = minus st a).
Proof.
  revert st fuel p. induction a as [|l a IH]; intros st fuel p Ha Hnd Hf.
  - cbn in Ha. subst p. destruct fuel; [cbn in Hf; lia|]. cbn. mstep. by rewrite minus_nil.
  - destruct Ha as (-> & n & Hl & Hn & Ha). apply NoDup_cons in Hnd as [Hla Hnd].
    destruct fuel as [|fuel]; [cbn in Hf; lia|]. cbn [free_attrs]. rd_step.
    eapply runs_bind, runs_liftO; [by apply (free_single_at _ _ n)|].
    eapply runs_mono; [apply IH; [|done|cbn in Hf; lia]|].
    + apply (attrs_at_frame st); [done|]. intros x Hx. apply lookup_delete_ne. by intros ->.
    + intros st' ->. apply minus_delete.
Qed.

(** What one round of the outer loop leaves: the leaf [y] and its attributes
    are gone, and the link to it is cut. *)
Lemma round_store st y b u n nu :
  st !! y = Some (Some n) -> st !! u = Some (Some nu) -> y <> u ->
  (y ∉ b) -> (u ∉ b) ->
  let st2 := <[y := Some (set_firstAttr None n)]> (minus st b) in
  let st3 := delete y (<[u := Some (cut_link n nu)]> st2) in
  (forall l, l <> y -> l <> u -> (l ∉ b) -> st3 !! l = st !! l) /\
  st3 !! u = Some (Some (cut_link n nu)) /\
  forall ls, u ∈ ls -> minus st3 ls = minus st ((y :: b) ++ ls).
Proof.
  intros Hy Hu Hyu Hyb Hub st2 st3. unfold st3, st2. split; [|split].
  - intros l H1 H2 H3. rewrite lookup_delete_ne, !lookup_insert_ne by done.
    by apply minus_out.
  - rewrite lookup_delete_ne, lookup_insert by done. by rewrite decide_True.
  - intros ls Hls. apply map_eq. intros i. rewrite !minus_lookup.
    destruct (decide (i ∈ ls)) as [Hi|Hi].
    { rewrite decide_True; [done|]. apply elem_of_app. by right. }
    destruct (decide (i = y)) as [->|Hiy].
    { rewrite lookup_delete, !decide_True; [done|by left|done]. }
    rewrite lookup_delete_ne, !lookup_insert_ne by (congruence || done).
    rewrite minus_lookup. solve_minus.
Qed.

Lemma locs_fuel t fuel st par prev p :
  tree_at st par prev p t -> NoDup (locs t) -> fuel = S (size st) ->
  (length (nlocs t) < fuel)%nat.
Proof.
  intros Ht Hnd ->. pose proof (tree_at_size _ _ _ _ _ Ht Hnd).
  pose proof (length_nlocs t). lia.
Qed.

(** Where a round starts: at a node of the tree, or at its root when that has
    no children. *)
Definition starts (t : tree) (r : loc) (pc nc : ptr) : Prop :=
  (exists x, nc = Some x /\ x ∈ nlocs t) \/
  (nc = None /\ pc = Some r /\ exists a nx, t = Node r a Leaf nx).

Lemma round_leaf md st t par prev r pc nc :
  tree_at st par prev (Some r) t -> NoDup (locs t) -> starts t r pc nc ->
  runs md (descend (S (size st)) st pc nc) (fun q =>
    exists y b n, q = Some y /\ subtree (Node y b Leaf Leaf) t /\
      st !! y = Some (Some n) /\ node_ok n /\ attrs_at st (n_firstAttr n) b).
Proof.
  intros Ht Hnd Hs. pose proof (tree_at_size _ _ _ _ _ Ht Hnd) as Hsz.
  pose proof (locs_fuel _ _ _ _ _ _ Ht Hnd eq_refl) as Hf.
  assert (exists s par' prev' c l a ks nx, tree_at st par' prev' c s /\ subtree s t /\
    s = Node l a ks nx /\ (nc = c \/ (nc = None /\ pc = c /\ ks = Leaf)))
    as (s & par' & prev' & c & l & a & ks & nx & Hst & Hsub & Es & Hc).
  { destruct Hs as [(x & -> & Hx)|(-> & -> & a & nx & ->)].
    - destruct (subtree_node _ _ Hx) as (a & ks & nx & Hsub).
      destruct (tree_at_subtree _ _ _ _ _ _ Ht Hsub) as (par' & prev' & p' & Hst).
      pose proof Hst as [-> _]. do 8 eexists. split; [exact Hst|]. split; [done|].
      split; [done|]. by left.
    - do 8 eexists. split; [exact Ht|]. split; [constructor|]. split; [done|]. by right. }
  eapply runs_mono.
  - eapply (descend_runs md st s _ _ _ _ _ _ _ _ _ _ Hst Es); [|done|].
    + etrans; [by apply subtree_locs_size|done].
    + etrans; [by apply subtree_size|lia].
  - intros q (y & b & par2 & prev2 & -> & (_ & n & Hy & Hn & _ & _ & Ha & _) & Hys).
    exists y, b, n. split; [done|]. split; [by eapply subtree_trans|done].
Qed.

Lemma cut_step st y u n nu b :
  st !! u = Some (Some nu) -> y <> u -> (u ∉ b) -> up_node n = Some u ->
  match n_prevSibling (set_firstAttr None n) with
  | Some q =>
      st' ← wrn (<[y := Some (set_firstAttr None n)]> (minus st b)) (Some q) (set_nextSibling None);
      Some (Some q, st')
  | None =>
      st' ← wrn (<[y := Some (set_firstAttr None n)]> (minus st b))
        (n_parentNode (set_firstAttr None n)) (set_firstChild None);
      Some (n_parentNode (set_firstAttr None n), st')
  end = Some (Some u, <[u := Some (cut_link n nu)]>
                        (<[y := Some (set_firstAttr None n)]> (minus st b))).
Proof.
  intros Hu Hyu Hub. unfold up_node, cut_link.
  cbn [n_prevSibling n_parentNode set_firstAttr].
  assert (forall f, wrn (<[y := Some (set_firstAttr None n)]> (minus st b)) (Some u) f =
    Some (<[u := Some (f nu)]> (<[y := Some (set_firstAttr None n)]> (minus st b)))) as Hw.
  { intros f. apply wrn_at. by rewrite lookup_insert_ne, minus_out. }
  destruct (n_prevSibling n) as [q|]; [intros [= ->]|intros ->]; by rewrite Hw.
Qed.

Lemma free_loop_runs md fuel st t par prev r pc nc :
  tree_at st par prev (Some r) t -> NoDup (locs t) -> starts t r pc nc ->
  (length (locs t) <= fuel)%nat ->
  runs md (free_loop fuel st (Some r) pc nc) (fun st' => st' = minus st (locs t)).
Proof.
  revert st t pc nc. induction fuel as [|fuel IH]; intros st t pc nc Ht Hnd Hs Hf.
  { destruct t; [done|]. cbn in Hf. lia. }
  cbn [free_loop]. mstep. eapply runs_mono; [by eapply round_leaf|].
  intros q (y & b & n & -> & Hys & Hy & Hn & Hb).
  pose proof (rm_leaf_perm _ _ _ Hnd Hys) as Hperm.
  pose proof Hnd as Hnd'. rewrite Hperm in Hnd'. cbn in Hnd'.
  apply NoDup_cons in Hnd' as [Hy2 Hnd']. apply NoDup_app in Hnd' as (Hbnd & Hb2 & Hnd').
  assert (y ∉ b) as Hyb by (intros H; apply Hy2, elem_of_app; by left).
  rd_step. mstep.
  eapply runs_mono; [apply (free_attrs_runs md st b); [done|done|]|].
  { pose proof (attrs_at_size _ _ _ Hb Hbnd). lia. }
  intros st1 ->. eapply runs_bind, runs_liftO.
  { apply wrn_at. rewrite minus_out by done. exact Hy. }
  case_bool_decide as Hr.
  - injection Hr as ->. eapply runs_liftO.
    { eapply free_single_at; [apply lookup_insert_eq|done]. }
    rewrite Hperm, (rm_leaf_root r t st par prev Ht). cbn [locs].
    rewrite app_nil_r. apply map_eq. intros i.
    rewrite lookup_delete, lookup_insert, !minus_lookup. solve_minus.
  - assert (Some r <> Some y) as Hry by congruence.
    destruct (unlink_leaf _ _ _ _ _ _ _ Ht Hnd Hys Hry)
      as (n' & u & nu & Hy' & Hup & Hu & Hnu & Hst).
    rewrite Hy in Hy'. injection Hy' as <-. pose proof (nlocs_locs _ _ Hu) as Hu2.
    assert (y <> u) as Hyu by (intros ->; apply Hy2, elem_of_app; by right).
    assert (u ∉ b) as Hub by (intros H; by apply (Hb2 u)).
    destruct (round_store st y b u n nu Hy Hnu Hyu Hyb Hub) as (Hfr & Hlu & Hmin).
    eapply runs_bind, runs_liftO; [apply rdn_at, lookup_insert_eq|].
    eapply runs_bind, runs_liftO; [by eapply cut_step|].
    eapply runs_bind, runs_liftO.
    { apply (free_single_at _ _ (set_firstAttr None n)); [|exact Hn].
      rewrite lookup_insert_ne by done. apply lookup_insert_eq. }
    eapply runs_mono; [apply (IH _ (rm_leaf y t)); [|done| |]|].
    + apply Hst; [|done]. intros l Hl Hlu'. apply Hfr; [|done|].
      * intros ->. apply Hy2, elem_of_app. by right.
      * intros H. by apply (Hb2 l).
    + left. by exists u.
    + rewrite Hperm in Hf. cbn in Hf. rewrite length_app in Hf. lia.
    + intros st' ->. by rewrite Hperm, Hmin.
Qed.

Lemma free_runs md st t par prev r :
  tree_at st par prev (Some r) t -> NoDup (locs t) ->
  runs md (ixmlNode_free st (Some r)) (fun st' => st' = minus st (locs t)).
Proof.
  intros Ht Hnd. unfold ixmlNode_free. destruct t as [|l a ks nx]; [done|].
  pose proof Ht as ([= <-] & n & Hl & _ & _ & _ & _ & Hk & _). rd_step.
  eapply free_loop_runs; [exact Ht|done| |].
  - destruct ks as [|k ka kk kn].
    + cbn in Hk. rewrite Hk. right. eauto.
    + destruct Hk as [-> _]. left. exists k. split; [done|].
      cbn. right. by left.
  - pose proof (tree_at_size _ _ _ _ _ Ht Hnd). lia.
Qed.

(** ** Properties *)

(** C20: [ixmlNode_free] returns, whatever the shape of the tree, and frees the
    node with everything below it and its following siblings, each block once:
    the nodes and their attributes are gone, and no other block is touched. *)
Theorem ixmlNode_free_correct md st t par prev r :
  tree_at st par prev (Some r) t -> NoDup (locs t) ->
  runs md (ixmlNode_free st (Some r)) (fun st' =>
    forall l, st' !! l = if decide (l ∈ locs t) then None else st !! l).
Proof.
  intros Ht Hnd. eapply runs_mono; [by eapply free_runs|]. intros st' -> l. apply minus_lookup.
Qed.

(** An example: a document [<a k="v"><b/>text</a>], and a detached element. *)
Definition ex_node (t : IXML_NODE_TYPE) (name : list Z) (par child prev next attr : ptr)
    : IXML_Node :=
  MkNode (DStr name) DNull t DNull DNull DNull 0 par child prev next attr (Some 1%positive)
    (match t with
     | eELEMENT_NODE => XElement (DStr name) | eATTRIBUTE_NODE => XAttr 1 (Some 2%positive)
     | _ => XNode
     end).
Definition ex_st : nodes := Eval vm_compute in list_to_map (prod_map (fun k => k) Some <$> [
  (1%positive, ex_node eDOCUMENT_NODE DOCUMENTNODENAME None (Some 2%positive) None None None);
  (2%positive, ex_node eELEMENT_NODE (cs "a") (Some 1%positive) (Some 3%positive) None None
     (Some 6%positive));
  (3%positive, ex_node eELEMENT_NODE (cs "b") (Some 2%positive) None None (Some 4%positive) None);
  (4%positive, ex_node eTEXT_NODE TEXTNODENAME (Some 2%positive) None (Some 3%positive) None None);
  (5%positive, ex_node eELEMENT_NODE (cs "c") None None None None None);
  (6%positive, ex_node eATTRIBUTE_NODE (cs "k") None None None None None)]).
Definition ex_kids : tree := Node 3%positive [] Leaf (Node 4%positive [] Leaf Leaf).
Definition ex_tree : tree :=
  Node 1%positive [] (Node 2%positive [6%positive] ex_kids Leaf) Leaf.
Definition ex_new : tree := Node 5%positive [] Leaf Leaf.

(** Check a concrete tree. *)
Ltac solve_node_ok :=
  split; [repeat (apply Forall_cons; split; [discriminate|]); apply Forall_nil|first [exact I|discriminate]].
Ltac solve_tree :=
  cbn [tree_at attrs_at ex_kids];
  repeat (split; [reflexivity|]);
  try (eexists; split; [reflexivity|]; split; [solve_node_ok|]; solve_tree);
  try (split; [solve_tree|]; solve_tree); try reflexivity.

Lemma ex_dom : dom_inv ex_st [ex_new; ex_tree].
Proof.
  split.
  - apply Forall_cons; split; [|apply Forall_cons; split; [|apply Forall_nil]];
      cbn [root_at ex_new ex_tree ex_kids]; solve_tree.
  - apply (bool_decide_unpack _). vm_compute. exact I.
Qed.

Lemma ixmlNode_free_correct_witness :
  runs Total (ixmlNode_free ex_st (Some 2%positive)) (fun st' =>
    forall l, st' !! l =
      if decide (l ∈ locs (Node 2%positive [6%positive] ex_kids Leaf)) then None
      else ex_st !! l).
Proof.
  apply (ixmlNode_free_correct Total ex_st (Node 2%positive [6%positive] ex_kids Leaf)
    (Some 1%positive) None).
  - solve_tree.
  - apply (bool_decide_unpack _). vm_compute. exact I.
Defined.
