(* ===== verification/IxmlDom.v ===== *)
(** Inserting, removing and finding nodes: the operations of
    [ixml/src/node.c] on the trees of [IxmlTree.v].

    A document is edited at one node: [edit x f t] applies [f] to the children
    of [x].  Each operation is shown to be such an edit, on the store and for
    every allocator, together with the error it returns otherwise. *)

From S2P Require Import Prelude CString FreeList IxmlNode IxmlTree.

(** ** Edits *)

Fixpoint kids_of (x : loc) (t : tree) : option tree :=
  match t with
  | Leaf => None
  | Node l _ ks nx =>
      if decide (l = x) then Some ks
      else match kids_of x ks with Some k => Some k | None => kids_of x nx end
  end.

Fixpoint edit (x : loc) (f : tree -> tree) (t : tree) : tree :=
  match t with
  | Leaf => Leaf
  | Node l a ks nx =>
      if decide (l = x) then Node l a (f ks) nx
      else match kids_of x ks with
           | Some _ => Node l a (edit x f ks) nx
           | None => Node l a ks (edit x f nx)
           end
  end.

(** A chain of siblings. *)
Fixpoint sibs (t : tree) : list loc :=
  match t with Leaf => [] | Node l _ _ nx => l :: sibs nx end.
Fixpoint chain_get (c : loc) (t : tree) : option tree :=
  match t with
  | Leaf => None
  | Node l a ks nx => if decide (l = c) then Some (Node l a ks Leaf) else chain_get c nx
  end.
Fixpoint chain_remove (c : loc) (t : tree) : tree :=
  match t with
  | Leaf => Leaf
  | Node l a ks nx => if decide (l = c) then nx else Node l a ks (chain_remove c nx)
  end.
Fixpoint chain_snoc (c t : tree) : tree :=
  match t with Leaf => c | Node l a ks nx => Node l a ks (chain_snoc c nx) end.
(** [c] before [r]. *)
Fixpoint chain_insert (c : tree) (r : loc) (t : tree) : tree :=
  match t with
  | Leaf => Leaf
  | Node l a ks nx =>
      if decide (l = r) then
        match c with Node cl ca ck _ => Node cl ca ck t | Leaf => t end
      else Node l a ks (chain_insert c r nx)
  end.
Fixpoint last_sib (t : tree) : option loc :=
  match t with
  | Leaf => None
  | Node l _ _ nx => match last_sib nx with Some z => Some z | None => Some l end
  end.

Lemma kids_of_In x t ks : kids_of x t = Some ks -> x ∈ nlocs t.
Proof.
  induction t as [|l a k IH1 nx IH2]; [done|]. cbn. destruct (decide (l = x)) as [->|_].
  - intros _. by left.
  - destruct (kids_of x k) eqn:E; intros H; right; apply elem_of_app.
    + left. apply IH1. congruence.
    + right. by apply IH2.
Qed.
Lemma kids_of_total x t : x ∈ nlocs t -> is_Some (kids_of x t).
Proof.
  induction t as [|l a k IH1 nx IH2]; cbn; [by intros ?%elem_of_nil|].
  rewrite elem_of_cons, elem_of_app. destruct (decide (l = x)) as [->|H]; [eauto|].
  intros [->|[H1|H1]]; [done|by destruct (IH1 H1) as [? ->]; eauto|].
  destruct (kids_of x k); eauto.
Qed.

Lemma edit_perm x f t ks :
  kids_of x t = Some ks ->
  locs (edit x f t) ≡ₚ locs (f ks) ++ locs (edit x (fun _ => Leaf) t).
Proof.
  induction t as [|l a k IH1 nx IH2]; [done|]. cbn. destruct (decide (l = x)) as [->|_].
  - intros [= ->]. cbn. solve_perm.
  - destruct (kids_of x k) eqn:E; intros H; cbn.
    + rewrite IH1 by congruence. solve_perm.
    + rewrite IH2 by done. solve_perm.
Qed.
Lemma edit_same x t : edit x (fun ks => ks) t = t.
Proof.
  induction t as [|l a k IH1 nx IH2]; [done|]. cbn. destruct (decide (l = x)); [done|].
  destruct (kids_of x k); by rewrite ?IH1, ?IH2.
Qed.
Lemma kids_of_perm x t ks :
  kids_of x t = Some ks -> locs t ≡ₚ locs ks ++ locs (edit x (fun _ => Leaf) t).
Proof. intros H. rewrite <- (edit_same x t) at 1. by apply (edit_perm x (fun k => k)). Qed.

Lemma edit_rest_In x t ks : kids_of x t = Some ks -> x ∈ locs (edit x (fun _ => Leaf) t).
Proof.
  induction t as [|l a k IH1 nx IH2]; [done|]. cbn. destruct (decide (l = x)) as [->|_].
  - intros _. by left.
  - destruct (kids_of x k) eqn:E; intros H; cbn; right; rewrite !elem_of_app.
    + right. left. apply IH1. congruence.
    + right. right. by apply IH2.
Qed.

(** What an edit of the children of [x] needs of the new store. *)
Lemma focus st x t ks par prev p :
  tree_at st par prev p t -> NoDup (locs t) -> kids_of x t = Some ks ->
  exists n, st !! x = Some (Some n) /\ node_ok n /\
    tree_at st (Some x) None (n_firstChild n) ks /\
    forall st' p' f, st' !! x = Some (Some (set_firstChild p' n)) ->
      (forall l, l ∈ locs (edit x (fun _ => Leaf) t) -> l <> x -> st' !! l = st !! l) ->
      tree_at st' (Some x) None p' (f ks) -> tree_at st' par prev p (edit x f t).
Proof.
  revert par prev p. induction t as [|l a k IH1 nx IH2]; [done|].
  intros par prev p Ht Hnd Hx.
  pose proof (locs_node_NoDup _ _ _ _ Hnd) as (H1 & H2 & H3 & H5 & H6 & H7 & H7' & H8 & _).
  destruct Ht as (-> & n & Hl & Hn & Hpar & Hprev & Ha & Hk & Hnx).
  cbn in Hx |- *. destruct (decide (l = x)) as [->|Hlx].
  - injection Hx as ->. exists n. do 3 (split; [done|]). intros st' p' f Hst' Hf Hks.
    apply (node_at_frame st st' x a (f ks) nx _ _ n (set_firstChild p' n)); try done.
    + intros y Hy. apply Hf; [in_locs|congruence].
    + apply (tree_at_frame st); [done|]. intros y Hy. apply Hf; [in_locs|congruence].
  - destruct (kids_of x k) as [k'|] eqn:E.
    + injection Hx as ->. destruct (IH1 _ _ _ Hk H5 eq_refl) as (m & Hm & Hmo & Hmk & Hst).
      pose proof (nlocs_locs _ _ (kids_of_In _ _ _ E)) as Hxk.
      exists m. do 3 (split; [done|]). intros st' p' f Hst' Hf Hks.
      apply (node_at_frame st st' l a _ nx _ _ n n); try done.
      * rewrite Hf; [done|in_locs|done].
      * intros y Hy. apply Hf; [in_locs|]. intros ->. by apply (H7 x).
      * apply (Hst st' p'); [done| |done]. intros y Hy Hyx. apply Hf; [in_locs|done].
      * apply (tree_at_frame st); [done|]. intros y Hy. apply Hf; [in_locs|].
        intros ->. by apply (H8 x).
    + destruct (IH2 _ _ _ Hnx H6 Hx) as (m & Hm & Hmo & Hmk & Hst).
      pose proof (nlocs_locs _ _ (kids_of_In _ _ _ Hx)) as Hxn.
      exists m. do 3 (split; [done|]). intros st' p' f Hst' Hf Hks.
      apply (node_at_frame st st' l a k _ _ _ n n); try done.
      * rewrite Hf; [done|in_locs|done].
      * intros y Hy. apply Hf; [in_locs|]. intros ->. by apply (H7' x).
      * apply (tree_at_frame st); [done|]. intros y Hy. apply Hf; [in_locs|].
        intros ->. by apply (H8 x).
      * apply (Hst st' p'); [done| |done]. intros y Hy Hyx. apply Hf; [in_locs|done].
Qed.

Lemma root_focus st x t ks :
  root_at st t -> NoDup (locs t) -> kids_of x t = Some ks ->
  exists n, st !! x = Some (Some n) /\ node_ok n /\
    tree_at st (Some x) None (n_firstChild n) ks /\
    forall st' p' f, st' !! x = Some (Some (set_firstChild p' n)) ->
      (forall l, l ∈ locs (edit x (fun _ => Leaf) t) -> l <> x -> st' !! l = st !! l) ->
      tree_at st' (Some x) None p' (f ks) -> root_at st' (edit x f t).
Proof.
  destruct t as [|l a k [|]]; try done. intros Ht Hnd Hx.
  destruct (focus _ _ _ _ _ _ _ Ht Hnd Hx) as (n & Hn & Ho & Hk & Hst).
  exists n. do 3 (split; [done|]). intros st' p' f H1 H2 H3. specialize (Hst st' p' f H1 H2 H3).
  revert Hst Hx. clear. cbn. destruct (decide (l = x)); [done|]. by destruct (kids_of x k).
Qed.

(** ** Ancestors *)

Lemma is_ancestor_runs md st t fuel par prev p x n :
  tree_at st par prev p t -> (length (nlocs t) < fuel)%nat -> st !! x = Some (Some n) ->
  runs md (is_ancestor fuel st p (Some x)) (fun b =>
    b = match n_parentNode n with Some l => bool_decide (l ∈ nlocs t) | None => false end).
Proof.
  intros Ht Hf Hx. revert fuel par prev p Ht Hf.
  induction t as [|l a ks IH1 nx IH2]; intros fuel par prev p Ht Hf.
  - cbn in Ht. subst p. destruct fuel; [cbn in Hf; lia|]. cbn. mstep.
    destruct (n_parentNode n); [|done]. by rewrite bool_decide_false by apply not_elem_of_nil.
  - destruct Ht as (-> & m & Hl & _ & _ & _ & _ & Hk & Hn).
    destruct fuel as [|fuel]; [cbn in Hf; lia|]. cbn [is_ancestor].
    cbn in Hf. rewrite length_app in Hf. rd_step. case_bool_decide as E.
    + mstep. rewrite E. by rewrite bool_decide_true by by left.
    + rd_step. mstep. eapply runs_mono; [apply (IH1 fuel _ _ _ Hk); lia|].
      intros b ->. destruct (n_parentNode n) as [q|] eqn:Eq.
      * assert (q <> l) as Hql by congruence.
        destruct (decide (q ∈ nlocs ks)) as [Hq|Hq].
        -- rewrite (bool_decide_true (q ∈ nlocs ks)) by done. mstep.
           rewrite bool_decide_true; [done|]. in_locs.
        -- rewrite (bool_decide_false (q ∈ nlocs ks)) by done.
           eapply runs_mono; [apply (IH2 fuel _ _ _ Hn); lia|]. intros b ->.
           apply bool_decide_ext. cbn. rewrite elem_of_cons, elem_of_app. tauto.
      * eapply runs_mono; [apply (IH2 fuel _ _ _ Hn); lia|]. by intros b ->.
Qed.

(** ** Sibling chains *)

Lemma wrn_alter st l n f :
  st !! l = Some (Some n) -> wrn st (Some l) f = Some (alter (fmap f) l st).
Proof.
  intros H. rewrite (wrn_at _ _ _ _ H). f_equal. apply map_eq. intros i.
  rewrite lookup_insert, lookup_alter. case_decide as E; [subst|done]. by rewrite H.
Qed.

Lemma sibs_locs t l : l ∈ sibs t -> l ∈ locs t.
Proof.
  induction t as [|x a ks _ nx IH]; cbn; [by intros ?%elem_of_nil|].
  rewrite !elem_of_cons, !elem_of_app. intuition.
Qed.
Lemma chain_get_In c t C : chain_get c t = Some C -> c ∈ sibs t.
Proof.
  induction t as [|x a ks _ nx IH]; [done|]. cbn.
  destruct (decide (x = c)) as [->|_]; intros H; [by left|right; auto].
Qed.
Lemma chain_get_total c t : c ∈ sibs t -> exists a ks, chain_get c t = Some (Node c a ks Leaf).
Proof.
  induction t as [|x a ks _ nx IH]; cbn; [by intros ?%elem_of_nil|].
  destruct (decide (x = c)) as [->|H]; [eauto|]. intros [->|H1]%elem_of_cons; [done|auto].
Qed.

Lemma chain_perm c t C :
  chain_get c t = Some C -> locs t ≡ₚ locs C ++ locs (chain_remove c t).
Proof.
  induction t as [|x a ks _ nx IH]; [done|]. cbn. destruct (decide (x = c)) as [->|_].
  - intros [= <-]. cbn. solve_perm.
  - intros H. cbn. rewrite (IH H). solve_perm.
Qed.
Lemma snoc_perm C t : locs (chain_snoc C t) ≡ₚ locs C ++ locs t.
Proof. induction t as [|x a ks _ nx IH]; cbn; [solve_perm|]. rewrite IH. solve_perm. Qed.
Lemma insert_perm c a k r t :
  r ∈ sibs t ->
  locs (chain_insert (Node c a k Leaf) r t) ≡ₚ locs (Node c a k Leaf) ++ locs t.
Proof.
  induction t as [|x b ks _ nx IH]; [by intros ?%elem_of_nil|]. cbn [sibs chain_insert].
  destruct (decide (x = r)) as [->|H].
  - intros _. cbn. solve_perm.
  - intros [->|Hr]%elem_of_cons; [done|]. cbn [locs]. rewrite (IH Hr). cbn [locs]. solve_perm.
Qed.

Lemma last_sib_runs md st t fuel par prev p q :
  tree_at st par prev p t -> (length (nlocs t) < fuel)%nat ->
  runs md (last_along n_nextSibling fuel st q p) (fun r =>
    r = match last_sib t with Some z => Some z | None => q end).
Proof.
  revert fuel par prev p q. induction t as [|l a ks _ nx IH]; intros fuel par prev p q Ht Hf.
  - cbn in Ht. subst p. destruct fuel; [cbn in Hf; lia|]. cbn. by mstep.
  - destruct Ht as (-> & n & Hl & _ & _ & _ & _ & _ & Hx).
    destruct fuel as [|fuel]; [cbn in Hf; lia|]. cbn [last_along]. rd_step.
    cbn in Hf. rewrite length_app in Hf.
    eapply runs_mono; [apply (IH fuel _ _ _ _ Hx); lia|].
    intros r ->. cbn. by destruct (last_sib nx).
Qed.

Lemma last_sib_In t z : last_sib t = Some z -> z ∈ sibs t.
Proof.
  induction t as [|l a ks _ nx IH]; [done|]. cbn. destruct (last_sib nx); intros [= ->].
  - right. auto.
  - by left.
Qed.

(** How the siblings change when [nc] is taken out, when [c] is put before the
    node [r] with fields [nr], and when [c] is put behind the last one. *)
Definition take_out (nc : IXML_Node) (l : loc) : IXML_Node -> IXML_Node :=
  if decide (n_prevSibling nc = Some l) then set_nextSibling (n_nextSibling nc)
  else if decide (n_nextSibling nc = Some l) then set_prevSibling (n_prevSibling nc)
  else fun n => n.
Definition put_before (c r : loc) (nr : IXML_Node) (l : loc) : IXML_Node -> IXML_Node :=
  if decide (n_prevSibling nr = Some l) then set_nextSibling (Some c)
  else if decide (l = r) then set_prevSibling (Some c) else fun n => n.
Definition put_last (c z l : loc) : IXML_Node -> IXML_Node :=
  if decide (l = z) then set_nextSibling (Some c) else fun n => n.

Lemma take_out_id nc l :
  n_prevSibling nc <> Some l -> n_nextSibling nc <> Some l -> take_out nc l = fun n => n.
Proof. intros H1 H2. unfold take_out. by rewrite !decide_False. Qed.

Lemma head_In st par prev p t c : tree_at st par prev p t -> p = Some c -> c ∈ sibs t.
Proof. destruct t as [|l a ks nx]; [by intros -> |]. intros [-> _] [= ->]. by left. Qed.

Definition live (st : nodes) (l : loc) : Prop := exists n, st !! l = Some (Some n).

(** A sibling in its chain: its neighbours are in the chain too. *)
Lemma sibling st t par prev p c :
  tree_at st par prev p t -> NoDup (locs t) -> c ∈ sibs t ->
  (forall q, prev = Some q -> q ∉ locs t) ->
  exists nc, st !! c = Some (Some nc) /\ n_parentNode nc = par /\
    (if decide (p = Some c) then n_prevSibling nc = prev
     else exists q, n_prevSibling nc = Some q /\ q <> c /\ q ∈ sibs t /\ live st q) /\
    (forall z, n_nextSibling nc = Some z ->
       z <> c /\ z ∈ sibs t /\ n_prevSibling nc <> Some z /\ live st z).
Proof.
  revert par prev p. induction t as [|l a ks _ nx IH]; [by intros ? ? ? ? ? ?%elem_of_nil|].
  intros par prev p Ht Hnd Hc Hprev.
  pose proof (locs_node_NoDup _ _ _ _ Hnd) as (H1 & H2 & H3 & _ & H6 & _).
  destruct Ht as (-> & n & Hl & Hn & Hpar & Hq & Ha & Hk & Hx).
  cbn [sibs] in *. apply elem_of_cons in Hc. destruct (decide (c = l)) as [->|Hcl].
  - exists n. split; [done|]. split; [done|]. rewrite decide_True by done. split; [done|].
    intros z Hz. pose proof Hx as Hx'. rewrite Hz in Hx'.
    pose proof (head_In _ _ _ _ _ z Hx' eq_refl) as Hzn. pose proof (sibs_locs _ _ Hzn) as Hzl.
    split; [congruence|]. split; [by right|]. split.
    + rewrite Hq. intros E. apply (Hprev z E). in_locs.
    + destruct nx as [|z' za zk zn]; [done|]. destruct Hx' as ([= ->] & nz & ? & _).
      by exists nz.
  - destruct Hc as [?|Hc]; [done|].
    destruct (IH _ _ _ Hx H6 Hc) as (nc & Hnc & Hp & Hpq & Hpz); [by intros q [= <-]|].
    exists nc. split; [done|]. split; [done|]. rewrite decide_False by congruence. split.
    + case_decide as E.
      * exists l. split; [done|]. split; [done|]. split; [by left|]. by exists n.
      * destruct Hpq as (q & Eq & Hqc & Hqn & Hqv). exists q. split; [done|].
        split; [done|]. split; [by right|done].
    + intros z E. destruct (Hpz z E) as (Hzc & Hzn & Hqz & Hlive).
      split; [done|]. split; [by right|done].
Qed.

(** [c] with its own subtree. *)
Lemma chain_get_at st t par prev p c C nc :
  tree_at st par prev p t -> chain_get c t = Some C -> st !! c = Some (Some nc) ->
  exists a ks, C = Node c a ks Leaf /\ node_ok nc /\ attrs_at st (n_firstAttr nc) a /\
    tree_at st (Some c) None (n_firstChild nc) ks.
Proof.
  revert par prev p. induction t as [|l a ks _ nx IH]; [done|].
  intros par prev p (-> & n & Hl & Hn & _ & _ & Ha & Hk & Hx) HC Hc. cbn in HC.
  destruct (decide (l = c)) as [->|_]; [|by eapply IH].
  injection HC as <-. exists a, ks. split; [done|]. by assert (nc = n) as -> by congruence.
Qed.

(** A node before a chain that changed. *)
Lemma chain_cons_at st st' l a ks nx nx' par prev p v :
  tree_at st par prev p (Node l a ks nx) ->
  (forall n, st !! l = Some (Some n) -> st' !! l = Some (Some (set_nextSibling (v n) n)) /\
     tree_at st' par (Some l) (v n) nx') ->
  (forall x, x ∈ a \/ x ∈ locs ks -> st' !! x = st !! x) ->
  tree_at st' par prev p (Node l a ks nx').
Proof.
  intros (-> & n & Hl & Hn & Hp & Hq & Ha & Hk & _) Hst Hf. destruct (Hst n Hl) as [Hl' Hx'].
  apply (node_at_frame st st' l a ks nx' _ _ n (set_nextSibling (v n) n)); try done.
  - intros x Hx. apply Hf. by left.
  - apply (tree_at_frame st); [done|]. intros x Hx. apply Hf. by right.
Qed.

Lemma set_next_same n : set_nextSibling (n_nextSibling n) n = n.
Proof. by destruct n. Qed.

(** Taking a sibling out of its chain. *)
Lemma take_out_at st st' t par prev p c nc :
  tree_at st par prev p t -> NoDup (locs t) -> c ∈ sibs t -> st !! c = Some (Some nc) ->
  (forall q, prev = Some q -> q ∉ locs t) ->
  (forall l, l ∈ locs t -> l <> c -> st' !! l = fmap (take_out nc l) <$> st !! l) ->
  tree_at st' par prev (if decide (p = Some c) then n_nextSibling nc else p) (chain_remove c t).
Proof.
  revert par prev p. induction t as [|l a ks _ nx IH]; [by intros ? ? ? ? ? ?%elem_of_nil|].
  intros par prev p Ht Hnd Hc Hnc Hprev Hst.
  pose proof (locs_node_NoDup _ _ _ _ Hnd) as (H1 & H2 & H3 & _ & H6 & H7 & H7' & H8 & _).
  pose proof Ht as (-> & n & Hl & Hn & Hpar & Hq & Ha & Hk & Hx).
  assert (forall x, x ∈ locs (Node l a ks nx) -> x <> c -> n_prevSibling nc <> Some x ->
    n_nextSibling nc <> Some x -> st' !! x = st !! x) as Hsame.
  { intros x Hxl Hxc E1 E2. rewrite (Hst x Hxl Hxc), take_out_id by done.
    by destruct (st !! x) as [[]|]. }
  cbn [chain_remove]. destruct (decide (l = c)) as [->|Hlc].
  - rewrite decide_True by done. assert (nc = n) as -> by congruence.
    destruct nx as [|z za zk zn]; [done|].
    pose proof Hx as (Ez & nz & Hz & Hzn & Hzp & Hzq & Hza & Hzk & Hzx). rewrite Ez in *.
    pose proof (locs_node_NoDup _ _ _ _ H6) as (Z1 & Z2 & Z3 & _).
    assert (z <> c) as Hzc by (intros ->; apply H3; by left).
    assert (forall x, x ∈ locs (Node z za zk zn) -> x <> z -> st' !! x = st !! x) as Hin.
    { intros x Hxl Hxz. apply Hsame; [in_locs|by intros ->| |congruence].
      rewrite Hq. intros E. apply (Hprev x E). in_locs. }
    apply (node_at_frame st st' z za zk zn _ _ nz (set_prevSibling prev nz)); try done.
    + rewrite Hst; [|cbn; in_locs|done]. rewrite Hz. unfold take_out.
      rewrite decide_False, decide_True by (first [done|rewrite Hq; intros E;
        apply (Hprev z E); cbn; in_locs]). cbn. by rewrite Hq.
    + intros x Hxa. apply Hin; [in_locs|congruence].
    + apply (tree_at_frame st); [done|]. intros x Hxa. apply Hin; [in_locs|congruence].
    + apply (tree_at_frame st); [done|]. intros x Hxa. apply Hin; [in_locs|congruence].
  - rewrite decide_False by congruence. apply elem_of_cons in Hc as [->|Hc]; [done|].
    destruct (sibling _ _ _ _ _ _ Hx H6 Hc) as (nc' & Hnc' & _ & Hpq & Hpz);
      [by intros q [= <-]|].
    assert (nc' = nc) as -> by congruence. clear Hnc'.
    assert (forall x, x ∉ locs nx -> n_nextSibling nc <> Some x /\
      (n_prevSibling nc = Some x -> x = l)) as Hout.
    { intros x Hxn. split.
      - intros E. destruct (Hpz x E) as (_ & Hz & _). by apply Hxn, sibs_locs.
      - case_decide; [congruence|]. destruct Hpq as (q & -> & _ & Hqs & _). intros [= ->].
        by apply sibs_locs in Hqs. }
    apply (chain_cons_at st st' l a ks nx _ _ _ _
      (fun n => if decide (n_nextSibling n = Some c) then n_nextSibling nc else n_nextSibling n)
      Ht).
    + intros n2 Hn2. assert (n2 = n) as -> by congruence. split.
      * rewrite Hst by (done || by left). rewrite Hl. unfold take_out.
        destruct (Hout l H3) as [Hol _].
        destruct (decide (n_nextSibling n = Some c)); [by rewrite decide_True|].
        destruct Hpq as (q & Eq & _ & Hqs & _). rewrite !decide_False; [|done|].
        -- by rewrite set_next_same.
        -- rewrite Eq. intros [= ->]. by apply H3, sibs_locs.
      * apply IH; try done; [by intros q [= <-]|]. intros x Hxl Hxc. apply Hst; [in_locs|done].
    + intros x Hxl. assert (x ∉ locs nx) as Hxn
        by (destruct Hxl; [by apply H7'|by apply H8]).
      destruct (Hout x Hxn) as [O1 O2]. apply Hsame; [in_locs| | |done].
      * intros ->. by apply Hxn, sibs_locs.
      * intros E. rewrite (O2 E) in Hxl. tauto.
Qed.

(** The node [c] in the store, ready to stand between siblings. *)
Definition node_between (st : nodes) (par prev next : ptr) (c : loc) (a : list loc) (ks : tree)
    : Prop :=
  exists n, st !! c = Some (Some n) /\ node_ok n /\ n_parentNode n = par /\
    n_prevSibling n = prev /\ n_nextSibling n = next /\ attrs_at st (n_firstAttr n) a /\
    tree_at st (Some c) None (n_firstChild n) ks.

Lemma node_between_at st par prev next c a ks nx :
  node_between st par prev next c a ks -> tree_at st par (Some c) next nx ->
  tree_at st par prev (Some c) (Node c a ks nx).
Proof.
  intros (n & Hc & Hn & Hp & Hq & <- & Ha & Hk) Hx. split; [done|]. by exists n.
Qed.

(** Putting a node before one of its new siblings. *)
Lemma put_before_at st st' t par prev p c ca ck r nr :
  tree_at st par prev p t -> NoDup (locs t) -> r ∈ sibs t -> st !! r = Some (Some nr) ->
  (forall q, prev = Some q -> q ∉ locs t) ->
  (forall l, l ∈ locs t -> st' !! l = fmap (put_before c r nr l) <$> st !! l) ->
  node_between st' par (n_prevSibling nr) (Some r) c ca ck ->
  tree_at st' par prev (if decide (p = Some r) then Some c else p)
    (chain_insert (Node c ca ck Leaf) r t).
Proof.
  revert par prev p. induction t as [|l a ks _ nx IH]; [by intros ? ? ? ? ? ?%elem_of_nil|].
  intros par prev p Ht Hnd Hr Hnr Hprev Hst Hc.
  pose proof (locs_node_NoDup _ _ _ _ Hnd) as (H1 & H2 & H3 & _ & H6 & H7 & H7' & H8 & _).
  pose proof Ht as (-> & n & Hl & Hn & Hpar & Hq & Ha & Hk & Hx).
  assert (forall x, x ∈ locs (Node l a ks nx) -> x <> r -> n_prevSibling nr <> Some x ->
    st' !! x = st !! x) as Hsame.
  { intros x Hxl Hxr E. rewrite (Hst x Hxl). unfold put_before. rewrite !decide_False by done.
    by destruct (st !! x) as [[]|]. }
  cbn [chain_insert]. destruct (decide (l = r)) as [->|Hlr].
  - rewrite decide_True by done. assert (nr = n) as -> by congruence.
    assert (forall x, x ∈ locs (Node r a ks nx) -> n_prevSibling n <> Some x) as Hpx.
    { intros x Hxl. rewrite Hq. intros E. by apply (Hprev x E). }
    rewrite Hq in Hc. apply (node_between_at _ _ _ (Some r)); [done|].
    apply (node_at_frame st st' r a ks nx _ _ n (set_prevSibling (Some c) n)); try done.
    + rewrite Hst by by left. rewrite Hl. unfold put_before.
      rewrite decide_False by (apply Hpx; by left). by rewrite decide_True.
    + intros x Hxa. apply Hsame; [in_locs|congruence|apply Hpx; in_locs].
    + apply (tree_at_frame st); [done|]. intros x Hxk.
      apply Hsame; [in_locs|congruence|apply Hpx; in_locs].
    + apply (tree_at_frame st); [done|]. intros x Hxk.
      apply Hsame; [in_locs|congruence|apply Hpx; in_locs].
  - rewrite decide_False by congruence. apply elem_of_cons in Hr as [->|Hr]; [done|].
    destruct (sibling _ _ _ _ _ _ Hx H6 Hr) as (nr' & Hnr' & _ & Hpq & _);
      [by intros q [= <-]|].
    assert (nr' = nr) as -> by congruence. clear Hnr'.
    assert (forall x, x ∉ locs nx -> n_prevSibling nr = Some x -> x = l) as Hout.
    { intros x Hxn. case_decide; [congruence|]. destruct Hpq as (q & -> & _ & Hqs & _).
      intros [= ->]. by apply sibs_locs in Hqs. }
    apply (chain_cons_at st st' l a ks nx _ _ _ _
      (fun n => if decide (n_nextSibling n = Some r) then Some c else n_nextSibling n) Ht).
    + intros n2 Hn2. assert (n2 = n) as -> by congruence. split.
      * rewrite Hst by by left. rewrite Hl. unfold put_before.
        destruct (decide (n_nextSibling n = Some r)); [by rewrite decide_True|].
        destruct Hpq as (q & Eq & _ & Hqs & _). rewrite !decide_False; [|done|].
        -- by rewrite set_next_same.
        -- rewrite Eq. intros [= ->]. by apply H3, sibs_locs.
      * apply IH; try done; [by intros q [= <-]|]. intros x Hxl. apply Hst. in_locs.
    + intros x Hxl. assert (x ∉ locs nx) as Hxn
        by (destruct Hxl; [by apply H7'|by apply H8]).
      apply Hsame; [in_locs| |].
      * intros ->. by apply Hxn, sibs_locs.
      * intros E. rewrite (Hout x Hxn E) in Hxl. tauto.
Qed.

(** Putting a node behind its last new sibling. *)
Lemma put_last_at st st' t par prev p c ca ck z :
  tree_at st par prev p t -> NoDup (locs t) -> last_sib t = Some z ->
  (forall l, l ∈ locs t -> st' !! l = fmap (put_last c z l) <$> st !! l) ->
  node_between st' par (Some z) None c ca ck ->
  tree_at st' par prev p (chain_snoc (Node c ca ck Leaf) t).
Proof.
  revert par prev p. induction t as [|l a ks _ nx IH]; [done|].
  intros par prev p Ht Hnd Hz Hst Hc.
  pose proof (locs_node_NoDup _ _ _ _ Hnd) as (H1 & H2 & H3 & _ & H6 & H7 & H7' & H8 & _).
  pose proof Ht as (-> & n & Hl & Hn & Hpar & Hq & Ha & Hk & Hx).
  assert (forall x, x ∈ locs (Node l a ks nx) -> x <> z -> st' !! x = st !! x) as Hsame.
  { intros x Hxl Hxz. rewrite (Hst x Hxl). unfold put_last. rewrite !decide_False by done.
    by destruct (st !! x) as [[]|]. }
  cbn [chain_snoc last_sib] in *. destruct nx as [|l2 a2 k2 n2].
  - injection Hz as ->. cbn [chain_snoc].
    apply (chain_cons_at st st' z a ks Leaf _ _ _ _ (fun _ => Some c) Ht).
    + intros n2 Hn2. assert (n2 = n) as -> by congruence. split.
      * rewrite Hst by by left. rewrite Hl. unfold put_last. by rewrite decide_True.
      * by apply (node_between_at _ _ _ None).
    + intros x Hxl. apply Hsame; [in_locs|]. intros ->. tauto.
  - destruct (last_sib (Node l2 a2 k2 n2)) as [z'|] eqn:E.
    2: { cbn in E. by destruct (last_sib n2). }
    injection Hz as ->. pose proof (sibs_locs _ _ (last_sib_In _ _ E)) as Hzn.
    apply (chain_cons_at st st' l a ks _ _ _ _ _ n_nextSibling Ht).
    + intros n3 Hn3. assert (n3 = n) as -> by congruence. split.
      * rewrite set_next_same, Hsame; [done|by left|]. by intros ->.
      * apply IH; try done. intros x Hxl. apply Hst. cbn. cbn in Hxl. in_locs.
    + intros x Hxl. apply Hsame; [in_locs|]. intros ->.
      destruct Hxl; [by apply (H7' z)|by apply (H8 z)].
Qed.

(** ** Updates of the store *)

(** The pointwise effect of one assignment. *)
Definition upd (f : IXML_Node -> IXML_Node) (p : ptr) (st : nodes) : nodes :=
  match p with Some l => alter (fmap f) l st | None => st end.

Lemma wrn_upd st p f : (exists l n, p = Some l /\ st !! l = Some (Some n)) -> wrn st p f = Some (upd f p st).
Proof. intros (l & n & -> & Hl). by apply (wrn_alter _ _ n). Qed.
Lemma upd_lookup f p st l :
  upd f p st !! l = (if decide (p = Some l) then fmap f <$> st !! l else st !! l).
Proof.
  destruct p as [k|]; cbn; [|done]. rewrite lookup_alter.
  destruct (decide (k = l)) as [->|H]; [by rewrite decide_True|].
  by rewrite decide_False by congruence.
Qed.
Lemma upd_live f p st l : live st l -> live (upd f p st) l.
Proof. intros [n Hn]. unfold live. rewrite upd_lookup, Hn. case_decide; eauto. Qed.
Lemma upd_other f p st l : p <> Some l -> upd f p st !! l = st !! l.
Proof. intros H. rewrite upd_lookup. by rewrite decide_False. Qed.
Lemma upd_here f st l n : st !! l = Some (Some n) -> upd f (Some l) st !! l = Some (Some (f n)).
Proof. intros H. rewrite upd_lookup, decide_True, H by done. done. Qed.

(** The node without its links. *)
Definition unlinked (n : IXML_Node) : IXML_Node :=
  set_parentNode None (set_firstChild None (set_prevSibling None (set_nextSibling None n))).
(** The operations change links only. *)
Definition data_kept (st st' : nodes) : Prop :=
  forall l, fmap unlinked <$> st' !! l = fmap unlinked <$> st !! l.

Lemma data_kept_refl st : data_kept st st.
Proof. done. Qed.
Lemma data_kept_trans st1 st2 st3 : data_kept st1 st2 -> data_kept st2 st3 -> data_kept st1 st3.
Proof. intros H1 H2 l. by rewrite H2. Qed.
Lemma data_kept_upd st f p :
  (forall n, unlinked (f n) = unlinked n) -> data_kept st (upd f p st).
Proof.
  intros H l. rewrite upd_lookup. case_decide; [|done].
  destruct (st !! l) as [[n|]|]; cbn; by rewrite ?H.
Qed.

Definition unlink_store (x c : loc) (nc : IXML_Node) (first : bool) (st : nodes) : nodes :=
  upd (fun c => set_parentNode None (set_prevSibling None (set_nextSibling None c))) (Some c)
    (upd (set_prevSibling (n_prevSibling nc)) (n_nextSibling nc)
      (upd (set_firstChild (n_nextSibling nc)) (if first then Some x else None)
        (upd (set_nextSibling (n_nextSibling nc)) (n_prevSibling nc) st))).

Lemma unlink_child_at st x n c nc :
  st !! x = Some (Some n) -> st !! c = Some (Some nc) -> x <> c ->
  (forall q, n_prevSibling nc = Some q -> q <> c /\ q <> x /\ live st q) ->
  (forall z, n_nextSibling nc = Some z -> z <> c /\ z <> x /\ live st z) ->
  unlink_child st (Some x) (Some c) =
    Some (unlink_store x c nc (bool_decide (n_firstChild n = Some c)) st).
Proof.
  intros Hx Hc Hxc Hq Hz. unfold unlink_child, unlink_store.
  set (st1 := upd (set_nextSibling (n_nextSibling nc)) (n_prevSibling nc) st).
  rewrite (rdn_at _ _ _ Hc). cbn [mbind option_bind].
  assert (match n_prevSibling nc with
    | Some q => wrn st (Some q) (set_nextSibling (n_nextSibling nc))
    | None => Some st end = Some st1) as ->.
  { unfold st1. destruct (n_prevSibling nc) as [q|] eqn:E; [|done].
    destruct (Hq q eq_refl) as (_ & _ & nq & Hnq). apply wrn_upd. eauto. }
  assert (st1 !! x = Some (Some n)) as Hx1.
  { unfold st1. rewrite upd_other; [done|]. intros E. by destruct (Hq x E) as (_ & ? & _). }
  assert (st1 !! c = Some (Some nc)) as Hc1.
  { unfold st1. rewrite upd_other; [done|]. intros E. by destruct (Hq c E) as (? & _). }
  cbn [mbind option_bind]. rewrite (rdn_at _ _ _ Hx1). cbn [mbind option_bind].
  rewrite (rdn_at _ _ _ Hc1). cbn [mbind option_bind].
  set (first := bool_decide (n_firstChild n = Some c)).
  set (st2 := upd (set_firstChild (n_nextSibling nc)) (if first then Some x else None) st1).
  assert ((if first then wrn st1 (Some x) (set_firstChild (n_nextSibling nc)) else Some st1)
    = Some st2) as ->.
  { unfold st2. destruct first; [|done]. apply wrn_upd. eauto. }
  assert (st2 !! c = Some (Some nc)) as Hc2.
  { unfold st2. rewrite upd_other; [done|]. destruct first; congruence. }
  cbn [mbind option_bind]. rewrite (rdn_at _ _ _ Hc2). cbn [mbind option_bind].
  set (st3 := upd (set_prevSibling (n_prevSibling nc)) (n_nextSibling nc) st2).
  assert (match n_nextSibling nc with
    | Some z => wrn st2 (Some z) (set_prevSibling (n_prevSibling nc))
    | None => Some st2 end = Some st3) as ->.
  { unfold st3. destruct (n_nextSibling nc) as [z|] eqn:E; [|done].
    destruct (Hz z eq_refl) as (_ & _ & Hl). unfold st2, st1.
    destruct (upd_live (set_firstChild (Some z)) (if first then Some x else None) _ z
      (upd_live (set_nextSibling (Some z)) (n_prevSibling nc) _ z Hl)) as [nz Hnz].
    apply wrn_upd. eauto. }
  cbn [mbind option_bind]. apply wrn_upd. exists c, nc. split; [done|]. unfold st3.
  rewrite upd_other; [done|]. intros E. by destruct (Hz c E) as (? & _).
Qed.

Lemma root_at_frame st st' t :
  root_at st t -> (forall l, l ∈ locs t -> st' !! l = st !! l) -> root_at st' t.
Proof. destruct t as [|l a ks [|]]; [done| |done]. intros H Hf. by apply (tree_at_frame st). Qed.

#[global] Instance dom_inv_perm st : Proper (Permutation ==> iff) (dom_inv st).
Proof. intros ts1 ts2 H. unfold dom_inv. by rewrite H. Qed.

Lemma dom_inv_cons st t ts :
  dom_inv st (t :: ts) <->
  root_at st t /\ NoDup (locs t) /\ dom_inv st ts /\
  (forall l, l ∈ locs t -> l ∉ concat (locs <$> ts)).
Proof. unfold dom_inv. cbn. rewrite Forall_cons, NoDup_app. tauto. Qed.

Lemma dom_inv_frame st st' ts :
  dom_inv st ts -> (forall l, l ∈ concat (locs <$> ts) -> st' !! l = st !! l) -> dom_inv st' ts.
Proof.
  intros [Hr Hnd] Hf. split; [|done]. induction ts as [|t ts IH]; [done|].
  apply Forall_cons in Hr as [Hr1 Hr2]. cbn in Hnd. apply NoDup_app in Hnd as (_ & _ & Hnd).
  constructor.
  - apply (root_at_frame st); [done|]. intros l Hl. apply Hf. cbn. apply elem_of_app. by left.
  - apply IH; [done..|]. intros l Hl. apply Hf. cbn. apply elem_of_app. by right.
Qed.

Lemma kids_apart x t ks :
  NoDup (locs t) -> kids_of x t = Some ks ->
  NoDup (locs ks) /\ (x ∉ locs ks) /\
  (forall l, l ∈ locs ks -> l ∉ locs (edit x (fun _ => Leaf) t)).
Proof.
  intros Hnd Hx. pose proof (edit_rest_In _ _ _ Hx) as Hr.
  rewrite (kids_of_perm _ _ _ Hx), NoDup_app in Hnd. destruct Hnd as (H1 & H2 & _).
  split; [done|]. split; [|done]. intros H. by apply (H2 x).
Qed.

(** What is below one sibling is apart from the other siblings. *)
Lemma chain_apart c ks a kc l :
  NoDup (locs ks) -> chain_get c ks = Some (Node c a kc Leaf) -> l ∈ a \/ l ∈ locs kc ->
  l ∈ locs ks /\ l <> c /\ forall s, s ∈ sibs ks -> s <> c -> l <> s.
Proof.
  intros Hnd HC Hl. pose proof (chain_perm _ _ _ HC) as Hp. rewrite Hp in Hnd.
  apply NoDup_app in Hnd as (Hn1 & Hn2 & _). destruct (locs_node_NoDup _ _ _ _ Hn1) as (N1 & N2 & _).
  split; [rewrite Hp; cbn; in_locs|]. split; [destruct Hl; congruence|].
  intros s Hs Hsc ->. apply (Hn2 s); [cbn; in_locs|]. clear -Hs Hsc.
  induction ks as [|y b k _ nx IH]; [done|]. cbn in *. apply elem_of_cons in Hs as [->|Hs].
  - rewrite decide_False by done. by left.
  - case_decide; [by apply sibs_locs|]. specialize (IH Hs). in_locs.
Qed.

(** The effect of [unlink_child] on the children [ks] of [x]. *)
Lemma unlink_kids st x n ks c C nc :
  st !! x = Some (Some n) -> tree_at st (Some x) None (n_firstChild n) ks ->
  NoDup (locs ks) -> (x ∉ locs ks) -> chain_get c ks = Some C -> st !! c = Some (Some nc) ->
  let first := bool_decide (n_firstChild n = Some c) in
  let st' := unlink_store x c nc first st in
  unlink_child st (Some x) (Some c) = Some st' /\
  (exists p', st' !! x = Some (Some (set_firstChild p' n)) /\
     tree_at st' (Some x) None p' (chain_remove c ks)) /\
  root_at st' C /\ (forall l, l <> x -> l ∉ locs ks -> st' !! l = st !! l) /\
  data_kept st st'.
Proof.
  intros Hx Hk Hnd Hxk HC Hc first st'. pose proof (chain_get_In _ _ _ HC) as Hcs.
  pose proof (sibs_locs _ _ Hcs) as Hcl.
  assert (x <> c) as Hxc by (by intros ->).
  destruct (sibling _ _ _ _ _ _ Hk Hnd Hcs) as (nc' & Hnc' & Hpar & Hpq & Hpz); [done|].
  assert (nc' = nc) as -> by congruence. clear Hnc'.
  assert (forall q, n_prevSibling nc = Some q -> q <> c /\ q ∈ sibs ks /\ live st q) as Hq.
  { intros q E. case_decide; [congruence|]. destruct Hpq as (q' & Eq & ? & ? & ?).
    assert (q' = q) as -> by congruence. done. }
  assert (forall l, l ∉ locs ks -> n_prevSibling nc <> Some l /\ n_nextSibling nc <> Some l)
    as Hout.
  { intros l Hl. split; intros E.
    - destruct (Hq l E) as (_ & H & _). by apply Hl, sibs_locs.
    - destruct (Hpz l E) as (_ & H & _). by apply Hl, sibs_locs. }
  assert (first = true <-> n_firstChild n = Some c) as Hfirst by apply bool_decide_eq_true.
  split; [|split; [|split; [|split]]].
  - apply unlink_child_at; try done.
    + intros q E. destruct (Hq q E) as (? & Hqs & ?). split; [done|]. split; [|done].
      intros ->. by apply Hxk, sibs_locs.
    + intros z E. destruct (Hpz z E) as (? & Hzs & _ & ?). split; [done|]. split; [|done].
      intros ->. by apply Hxk, sibs_locs.
  - destruct (Hout x Hxk) as [O1 O2].
    exists (if decide (n_firstChild n = Some c) then n_nextSibling nc else n_firstChild n). split.
    + unfold st', unlink_store. rewrite upd_other by congruence. rewrite upd_other by done.
      rewrite upd_lookup, upd_other, Hx by done. unfold first.
      case_bool_decide as E; [by rewrite !decide_True|].
      rewrite !decide_False by done. by destruct n.
    + apply (take_out_at st); try done. intros l Hl Hlc. unfold st', unlink_store, take_out.
      rewrite upd_other by congruence. rewrite !upd_lookup.
      rewrite (decide_False (P := (if first then Some x else None) = Some l)).
      2: { destruct first; [|done]. intros [= ->]. done. }
      destruct (decide (n_prevSibling nc = Some l)) as [E|E].
      * rewrite decide_False; [done|]. intros E2. destruct (Hpz l E2) as (_ & _ & H & _). done.
      * destruct (decide (n_nextSibling nc = Some l)); [done|]. by destruct (st !! l) as [[]|].
  - destruct (chain_get_at _ _ _ _ _ _ _ _ Hk HC Hc) as (a & kc & -> & Hok & Ha & Hkc).
    assert (forall l, l ∈ a \/ l ∈ locs kc -> l <> c /\ l <> x /\ n_prevSibling nc <> Some l /\
      n_nextSibling nc <> Some l) as Hin.
    { intros l Hl. destruct (chain_apart _ _ _ _ _ Hnd HC Hl) as (Hlk & Hlc & Hls).
      split; [done|]. split; [by intros ->|]. split; intros E.
      - destruct (Hq l E) as (? & Hs & _). by apply (Hls l).
      - destruct (Hpz l E) as (? & Hs & _). by apply (Hls l). }
    assert (forall l, l ∈ a \/ l ∈ locs kc -> st' !! l = st !! l) as Hsame.
    { intros l Hl. destruct (Hin l Hl) as (I1 & I2 & I3 & I4). unfold st', unlink_store.
      rewrite !upd_other; [done|done|by destruct first; congruence|done|congruence]. }
    cbn [root_at]. apply (node_between_at _ _ _ None); [|done].
    exists (set_parentNode None (set_prevSibling None (set_nextSibling None nc))).
    split; [|split; [done|]].
    + apply (upd_here (fun c => set_parentNode None (set_prevSibling None
        (set_nextSibling None c))) _ _ nc). rewrite !upd_other; [done| |by destruct first; congruence|].
      * intros E. by destruct (Hq c E).
      * intros E. by destruct (Hpz c E).
    + split; [done|]. split; [done|]. split; [done|]. split.
      * apply (attrs_at_frame st); [done|]. intros l Hl. apply Hsame. by left.
      * apply (tree_at_frame st); [done|]. intros l Hl. apply Hsame. by right.
  - intros l Hlx Hlk. destruct (Hout l Hlk) as [O1 O2]. unfold st', unlink_store.
    rewrite !upd_other; [done|done|by destruct first; congruence|done|congruence].
  - unfold st', unlink_store.
    do 4 (eapply data_kept_trans; [|apply data_kept_upd; by intros []]). apply data_kept_refl.
Qed.

(** An edit of the children of [x] in one of the documents. *)
Lemma edit_inv st st' t ts x n p' f ks :
  dom_inv st (t :: ts) -> kids_of x t = Some ks -> st !! x = Some (Some n) ->
  st' !! x = Some (Some (set_firstChild p' n)) ->
  (forall l, l ∈ locs (edit x (fun _ => Leaf) t) -> l <> x -> st' !! l = st !! l) ->
  tree_at st' (Some x) None p' (f ks) -> root_at st' (edit x f t).
Proof.
  intros Hd Hx Hn Hx' Hf Hk. apply dom_inv_cons in Hd as (Hr & Hnd & _).
  destruct (root_focus _ _ _ _ Hr Hnd Hx) as (n' & Hn' & _ & _ & Hst).
  apply (Hst st' p'); try done. by assert (n' = n) as -> by congruence.
Qed.

(** [x] with its children, in a document. *)
Lemma dom_node st t ts x ks :
  dom_inv st (t :: ts) -> kids_of x t = Some ks ->
  exists n, st !! x = Some (Some n) /\ tree_at st (Some x) None (n_firstChild n) ks /\
    NoDup (locs ks) /\ (x ∉ locs ks) /\
    (forall l, l ∈ locs ks -> l ∉ locs (edit x (fun _ => Leaf) t)) /\
    (forall l, l ∈ locs ks \/ l = x -> l ∉ concat (locs <$> ts)) /\
    (length (locs t) <= size st)%nat.
Proof.
  intros Hd Hx. apply dom_inv_cons in Hd as (Hr & Hnd & _ & Hts).
  destruct (root_focus _ _ _ _ Hr Hnd Hx) as (n & Hn & _ & Hk & _).
  destruct (kids_apart _ _ _ Hnd Hx) as (K1 & K2 & K3).
  exists n. do 5 (split; [done|]). split.
  - intros l Hl. apply Hts. rewrite (kids_of_perm _ _ _ Hx), elem_of_app.
    destruct Hl as [Hl| ->]; [by left|right; by eapply edit_rest_In].
  - destruct t as [|l a k [|]]; [done| |done]. by eapply tree_at_size.
Qed.

Lemma unlink_inv st t ts x ks c C :
  dom_inv st (t :: ts) -> kids_of x t = Some ks -> chain_get c ks = Some C ->
  exists nc st', st !! c = Some (Some nc) /\ n_parentNode nc = Some x /\
    unlink_child st (Some x) (Some c) = Some st' /\
    dom_inv st' (C :: edit x (chain_remove c) t :: ts) /\ data_kept st st'.
Proof.
  intros Hd Hx HC.
  destruct (dom_node _ _ _ _ _ Hd Hx) as (n & Hn & Hk & K1 & K2 & K3 & K4 & _).
  destruct (sibling _ _ _ _ _ _ Hk K1 (chain_get_In _ _ _ HC)) as (nc & Hc & Hp & _ & _); [done|].
  destruct (unlink_kids st x n ks c C nc Hn Hk K1 K2 HC Hc)
    as (Hu & (p' & Hx' & Hk') & HrC & Hout & Hkept).
  set (st' := unlink_store _ _ _ _ _) in *. exists nc, st'. do 3 (split; [done|]).
  split; [|done]. pose proof Hd as Hd2.
  apply dom_inv_cons in Hd2 as (_ & Hnd & Hts & Hap).
  assert (locs t ≡ₚ locs C ++ locs (edit x (chain_remove c) t)) as Hperm.
  { rewrite (kids_of_perm _ _ _ Hx), (chain_perm _ _ _ HC).
    rewrite (edit_perm x (chain_remove c) _ _ Hx). solve_perm. }
  split.
  - constructor; [done|]. constructor.
    + apply (edit_inv st st' t ts x n p' _ ks Hd Hx Hn Hx'); [|done].
      intros l Hl Hlx. apply Hout; [done|]. intros H. by apply (K3 l).
    + apply (dom_inv_frame st); [done|]. intros l Hl. apply Hout.
      * intros ->. apply (K4 x); [by right|done].
      * intros H. apply (K4 l); [by left|done].
  - cbn. rewrite app_assoc, <- Hperm. apply (proj2 Hd).
Qed.

Lemma chain_get_root c t C : chain_get c t = Some C -> exists a k, C = Node c a k Leaf.
Proof.
  induction t as [|l a k _ nx IH]; [done|]. cbn. case_decide; [|done].
  intros [= <-]. subst. eauto.
Qed.

Lemma isParent_runs md st x c nc (Q : bool -> Prop) :
  st !! c = Some (Some nc) -> Q (bool_decide (n_parentNode nc = Some x)) ->
  runs md (ixmlNode_isParent st (Some x) (Some c)) Q.
Proof.
  intros Hc HQ. unfold ixmlNode_isParent. apply runs_bind, runs_assert_true; [done|].
  rd_step. by mstep.
Qed.

Lemma removeChild_runs md st t ts x ks c C returnNode :
  dom_inv st (t :: ts) -> kids_of x t = Some ks -> chain_get c ks = Some C ->
  runs md (ixmlNode_removeChild st (Some x) (Some c) returnNode) (fun '(rc, r, st') =>
    rc = IXML_SUCCESS /\
    if returnNode : bool
    then r = Some c /\ dom_inv st' (C :: edit x (chain_remove c) t :: ts) /\ data_kept st st'
    else r = None /\ dom_inv st' (edit x (chain_remove c) t :: ts) /\
         data_kept (minus st (locs C)) st').
Proof.
  intros Hd Hx HC. destruct (unlink_inv _ _ _ _ _ _ _ Hd Hx HC)
    as (nc & st' & Hc & Hp & Hu & Hd' & Hkept).
  unfold ixmlNode_removeChild. mstep. eapply isParent_runs; [done|].
  rewrite bool_decide_true by done. cbn [negb].
  eapply runs_bind, runs_liftO; [done|]. destruct returnNode; [by mstep|].
  apply dom_inv_cons in Hd' as (HrC & HndC & Hd' & Hap).
  mstep. destruct (chain_get_root _ _ _ HC) as (a & k & ->). eapply runs_mono.
  - by apply (free_runs md st' (Node c a k Leaf) None None c).
  - intros st2 ->. mstep. do 2 (split; [done|]). split.
    + apply (dom_inv_frame st'); [done|]. intros l Hl. apply minus_out. intros H.
      by apply (Hap l).
    + intros l. rewrite !minus_lookup. case_decide; [done|]. apply Hkept.
Qed.

Lemma remove_not_child md st x c n nc returnNode :
  st !! x = Some (Some n) -> st !! c = Some (Some nc) -> n_parentNode nc <> Some x ->
  runs md (ixmlNode_removeChild st (Some x) (Some c) returnNode) (fun '(rc, r, st') =>
    rc = IXML_NOT_FOUND_ERR /\ r = None /\ st' = st).
Proof.
  intros Hx Hc Hp. unfold ixmlNode_removeChild. mstep. eapply isParent_runs; [done|].
  rewrite bool_decide_false by done. cbn [negb]. by mstep.
Qed.

(** ** Linking a detached node *)

Lemma upd_size f p st : size (upd f p st) = size st.
Proof.
  destruct p as [l|]; [|done]. cbn. rewrite <- !(size_dom (D := gset loc)).
  by rewrite dom_alter_L.
Qed.

(** A detached node [c], with the parts of it that a new place leaves alone. *)
Lemma detached st c a k :
  root_at st (Node c a k Leaf) -> exists nc, st !! c = Some (Some nc) /\ node_ok nc /\
    n_parentNode nc = None /\ n_prevSibling nc = None /\ n_nextSibling nc = None /\
    attrs_at st (n_firstAttr nc) a /\ tree_at st (Some c) None (n_firstChild nc) k.
Proof.
  intros (_ & nc & Hc & Ho & Hp & Hq & Ha & Hk & Hx). exists nc. done.
Qed.

Lemma between_frame st st' c a k nc nc' par prev next :
  st !! c = Some (Some nc) -> st' !! c = Some (Some nc') -> node_ok nc' ->
  n_parentNode nc' = par -> n_prevSibling nc' = prev -> n_nextSibling nc' = next ->
  n_firstAttr nc' = n_firstAttr nc -> n_firstChild nc' = n_firstChild nc ->
  attrs_at st (n_firstAttr nc) a -> tree_at st (Some c) None (n_firstChild nc) k ->
  (forall l, l ∈ a \/ l ∈ locs k -> st' !! l = st !! l) ->
  node_between st' par prev next c a k.
Proof.
  intros Hc Hc' Ho Hp Hq Hn Hfa Hfc Ha Hk Hf. exists nc'. do 5 (split; [done|]).
  rewrite Hfa, Hfc. split; [apply (attrs_at_frame st)|apply (tree_at_frame st)]; auto.
Qed.

(** What is linked is apart from the document it is linked into. *)
Lemma link_apart st c a k t ts x ks :
  dom_inv st (Node c a k Leaf :: t :: ts) -> kids_of x t = Some ks ->
  x <> c /\ (c ∉ locs ks) /\
  (forall l, l ∈ a \/ l ∈ locs k -> l <> c /\ l <> x /\ (l ∉ locs ks)) /\
  (forall l, l ∈ locs (edit x (fun _ => Leaf) t) -> l <> c /\ (l ∉ locs ks)) /\
  (forall l, l ∈ concat (locs <$> ts) -> l <> c /\ l <> x /\ (l ∉ locs ks)) /\
  dom_inv st (t :: ts) /\ root_at st (Node c a k Leaf).
Proof.
  intros Hd Hx. apply dom_inv_cons in Hd as (Hr & Hnd & Hd & Hap).
  destruct (dom_node _ _ _ _ _ Hd Hx) as (n & _ & _ & _ & _ & K3 & K4 & _).
  destruct (locs_node_NoDup _ _ _ _ Hnd) as (N1 & N2 & _).
  pose proof (kids_of_perm _ _ _ Hx) as Hperm. pose proof (edit_rest_In _ _ _ Hx) as Hxr.
  assert (forall l, l ∈ locs (Node c a k Leaf) -> l <> x /\ (l ∉ locs ks) /\
    (l ∉ locs (edit x (fun _ => Leaf) t)) /\ (l ∉ concat (locs <$> ts))) as Hout.
  { intros l Hl. specialize (Hap l Hl). cbn in Hap. rewrite elem_of_app, Hperm, elem_of_app in Hap.
    split; [intros ->; tauto|]. tauto. }
  destruct (Hout c) as (C1 & C2 & C3 & C4); [by left|].
  split; [done|]. split; [done|]. split; [|split; [|split; [|done]]].
  - intros l Hl. split; [destruct Hl; congruence|]. destruct (Hout l) as (? & ? & _); [in_locs|done].
  - intros l Hl. split; [congruence|]. intros H. by apply (K3 l).
  - intros l Hl. split; [congruence|]. split.
    + intros ->. apply (K4 x); [by right|done].
    + intros H. apply (K4 l); [by left|done].
Qed.

Lemma link_perm st c a k t ts x f ks :
  dom_inv st (Node c a k Leaf :: t :: ts) -> kids_of x t = Some ks ->
  locs (f ks) ≡ₚ locs (Node c a k Leaf) ++ locs ks ->
  NoDup (concat (locs <$> edit x f t :: ts)).
Proof.
  intros [_ Hnd] Hx Hp. cbn in *.
  rewrite (edit_perm x f t ks Hx), Hp. rewrite (kids_of_perm _ _ _ Hx) in Hnd.
  cbn. by rewrite <- !app_assoc in *.
Qed.

(** The stores [link_last] makes: the owner and parent of the new node, and the
    link from the parent or from the last child [z]. *)
Definition adopt (x : loc) (od : ptr) (n : IXML_Node) : IXML_Node :=
  set_ownerDocument od (set_parentNode (Some x) n).
Definition after_store (c z : loc) (st : nodes) : nodes :=
  upd (set_prevSibling (Some z)) (Some c) (upd (set_nextSibling (Some c)) (Some z) st).

Lemma adopt_kept x od c st :
  data_kept (upd (set_ownerDocument od) (Some c) st) (upd (adopt x od) (Some c) st).
Proof. intros l. rewrite !upd_lookup. case_decide; [|done]. by destruct (st !! l) as [[]|]. Qed.

Section Link_last.
Context (st : nodes) (c : loc) (a : list loc) (k t : tree) (ts : list tree) (x : loc) (ks : tree).
Context (n nc : IXML_Node) (od : ptr).
Context (Hd : dom_inv st (Node c a k Leaf :: t :: ts)) (Hx : kids_of x t = Some ks).
Context (Hn : st !! x = Some (Some n)) (Hc : st !! c = Some (Some nc)).
Local Abbreviation st1 := (upd (adopt x od) (Some c) st).
Local Abbreviation linked := (chain_snoc (Node c a k Leaf)).

Lemma link_edited st' p' :
  st' !! x = Some (Some (set_firstChild p' n)) ->
  (forall l, l <> x -> l <> c -> (l ∉ locs ks) -> st' !! l = st !! l) ->
  tree_at st' (Some x) None p' (linked ks) ->
  dom_inv st' (edit x linked t :: ts).
Proof.
  intros Hx' Hf Hk'. destruct (link_apart _ _ _ _ _ _ _ _ Hd Hx) as (_ & _ & _ & Hrest & Hts & Hd1 & _).
  split.
  - constructor.
    + apply (edit_inv st st' t ts x n p' _ ks Hd1 Hx Hn Hx'); [|done]. intros l Hl Hlx.
      destruct (Hrest l Hl). by apply Hf.
    + apply (dom_inv_frame st); [|intros l Hl; destruct (Hts l Hl) as (? & ? & ?); by apply Hf].
      apply dom_inv_cons in Hd1. tauto.
  - apply (link_perm st c a k t ts x _ ks Hd Hx). apply snoc_perm.
Qed.

Lemma link_first_dom :
  ks = Leaf -> dom_inv (upd (set_firstChild (Some c)) (Some x) st1) (edit x linked t :: ts).
Proof.
  intros Hks. destruct (link_apart _ _ _ _ _ _ _ _ Hd Hx) as (Hxc & Hck & Hsub & _ & _ & _ & Hrc).
  destruct (detached _ _ _ _ Hrc) as (nc' & Hc' & Ho & Hp & Hq & Hnx & Ha & Hkc).
  assert (nc' = nc) as -> by congruence.
  apply (link_edited _ (Some c)).
  - apply upd_here. by rewrite upd_other by congruence.
  - intros l Hlx Hlc _. by rewrite !upd_other by congruence.
  - subst ks. cbn [chain_snoc]. apply (node_between_at _ _ _ None); [|done].
    apply (between_frame st _ c a k nc (adopt x od nc)); try done.
    + rewrite upd_other by congruence. by apply upd_here.
    + intros l Hl. destruct (Hsub l Hl) as (? & ? & _). by rewrite !upd_other by congruence.
Qed.

Lemma link_after_dom l0 z :
  n_firstChild n = Some l0 -> tree_at st (Some x) None (Some l0) ks -> NoDup (locs ks) -> (x ∉ locs ks) ->
  last_sib ks = Some z -> dom_inv (after_store c z st1) (edit x linked t :: ts).
Proof.
  intros E Hk K1 K2 Hz. destruct (link_apart _ _ _ _ _ _ _ _ Hd Hx) as (Hxc & Hck & Hsub & _ & _ & _ & Hrc).
  destruct (detached _ _ _ _ Hrc) as (nc' & Hc' & Ho & Hp & Hq & Hnx & Ha & Hkc).
  assert (nc' = nc) as -> by congruence. pose proof (sibs_locs _ _ (last_sib_In _ _ Hz)) as Hzl.
  assert (z <> c) as Hzc by by intros ->. assert (z <> x) as Hzx by by intros ->.
  assert (forall l, l <> c -> l <> z -> after_store c z st1 !! l = st !! l) as Hsame.
  { intros l H1 H2. unfold after_store. by rewrite !upd_other by congruence. }
  apply (link_edited _ (Some l0)).
  - rewrite Hsame by congruence. rewrite Hn. do 2 f_equal. rewrite <- E. by destruct n.
  - intros l H1 H2 H3. apply Hsame; [done|]. by intros ->.
  - apply (put_last_at st _ _ _ _ _ _ _ _ z Hk K1 Hz).
    + intros l Hl. unfold put_last, after_store. case_decide as Elz.
      * subst l. rewrite upd_other by congruence. rewrite upd_lookup, decide_True by done.
        by rewrite upd_other by congruence.
      * fold (after_store c z st1). rewrite Hsame; [by destruct (st !! l) as [[]|]| |done]. by intros ->.
    + apply (between_frame st _ c a k nc (set_prevSibling (Some z) (adopt x od nc))); try done.
      * unfold after_store. apply upd_here. rewrite upd_other by congruence. by apply upd_here.
      * intros l Hl. destruct (Hsub l Hl) as (? & ? & H3). apply Hsame; [done|]. by intros ->.
Qed.
End Link_last.

Lemma link_last_runs md st c a k t ts x ks n :
  dom_inv st (Node c a k Leaf :: t :: ts) -> kids_of x t = Some ks -> st !! x = Some (Some n) ->
  runs md (link_last st (Some x) (Some c)) (fun st' =>
    dom_inv st' (edit x (chain_snoc (Node c a k Leaf)) t :: ts) /\
    data_kept (upd (set_ownerDocument (n_ownerDocument n)) (Some c) st) st').
Proof.
  intros Hd Hx Hn.
  destruct (link_apart _ _ _ _ _ _ _ _ Hd Hx) as (Hxc & Hck & _ & _ & _ & Hd1 & Hrc).
  destruct (dom_node _ _ _ _ _ Hd1 Hx) as (n' & Hn' & Hk & K1 & K2 & _ & _ & Ksz).
  assert (n' = n) as -> by congruence. clear Hn'.
  destruct (detached _ _ _ _ Hrc) as (nc & Hc & _).
  unfold link_last. rd_step. pose proof (adopt_kept x (n_ownerDocument n) c st) as Hkept.
  eapply runs_bind, runs_liftO; [by apply (wrn_alter _ _ nc)|].
  change (alter _ c st) with (upd (adopt x (n_ownerDocument n)) (Some c) st).
  set (st1 := upd (adopt x (n_ownerDocument n)) (Some c) st) in *.
  assert (forall l, l <> c -> st1 !! l = st !! l) as Hst1 by (intros l Hl; apply upd_other; congruence).
  assert (st1 !! x = Some (Some n)) as Hx1 by (by rewrite Hst1).
  rd_step. destruct ks as [|l0 a0 k0 n0].
  - cbn in Hk. rewrite Hk. eapply runs_liftO; [by apply (wrn_alter _ _ n)|].
    change (alter _ x st1) with (upd (set_firstChild (Some c)) (Some x) st1).
    split; [by eapply link_first_dom|by eapply data_kept_trans, data_kept_upd; [exact Hkept|intros []]].
  - pose proof Hk as (E & f & Hl0 & _ & _ & _ & _ & _ & Hnx0). rewrite E in *.
    assert (l0 <> c) as Hl0c by (intros ->; apply Hck; by left). rewrite <- (Hst1 l0 Hl0c) in Hl0. rd_step.
    assert (tree_at st1 (Some x) (Some l0) (n_nextSibling f) n0) as Hn0.
    { apply (tree_at_frame st); [done|]. intros l Hl. apply Hst1. intros ->. apply Hck. in_locs. }
    mstep. eapply runs_mono.
    { apply (last_sib_runs md st1 n0 _ _ _ _ (Some l0) Hn0). unfold st1. rewrite upd_size.
      pose proof (length_nlocs n0). pose proof (Permutation_length (kids_of_perm _ _ _ Hx)) as Hlen.
      rewrite length_app in Hlen. cbn in Hlen. rewrite !length_app in Hlen. lia. }
    intros r Hr. assert (exists z, r = Some z /\ last_sib (Node l0 a0 k0 n0) = Some z) as (z & -> & Hz).
    { rewrite Hr. cbn. destruct (last_sib n0); by eexists. }
    pose proof (last_sib_In _ _ Hz) as Hzs. assert (z <> c) as Hzc by (intros ->; by apply Hck, sibs_locs).
    destruct (sibling _ _ _ _ _ _ Hk K1 Hzs) as (nz & Hnz & _); [done|]. rewrite <- (Hst1 z Hzc) in Hnz.
    eapply runs_bind, runs_liftO; [by apply (wrn_alter _ _ nz)|].
    eapply runs_liftO; [apply (wrn_alter _ _ (adopt x (n_ownerDocument n) nc))|].
    { change (alter _ z st1) with (upd (set_nextSibling (Some c)) (Some z) st1).
      rewrite upd_other by congruence. by apply upd_here. }
    change (alter _ c _) with (after_store c z st1).
    split; [by eapply (link_after_dom st)|].
    eapply data_kept_trans; [|by apply data_kept_upd; intros []].
    eapply data_kept_trans; [exact Hkept|by apply data_kept_upd; intros []].
Qed.

Definition when_prev (nr : IXML_Node) (c : loc) : ptr :=
  match n_prevSibling nr with Some _ => Some c | None => None end.
Definition between_store (x c r : loc) (nr : IXML_Node) (st : nodes) : nodes :=
  upd (set_parentNode (Some x)) (Some c)
    (upd (set_firstChild (Some c)) (if decide (n_prevSibling nr = None) then Some x else None)
      (upd (set_prevSibling (Some c)) (Some r)
        (upd (set_prevSibling (n_prevSibling nr))
           (when_prev nr c)
          (upd (set_nextSibling (Some c)) (n_prevSibling nr)
            (upd (set_nextSibling (Some r)) (Some c) st))))).

Lemma link_before_at st x n c nc r nr :
  st !! x = Some (Some n) -> st !! c = Some (Some nc) -> st !! r = Some (Some nr) ->
  x <> c -> x <> r -> r <> c -> n_prevSibling nc = None ->
  (forall q, n_prevSibling nr = Some q -> q <> c /\ q <> r /\ live st q) ->
  link_before st (Some x) (Some c) (Some r) = Some (between_store x c r nr st).
Proof.
  intros Hx Hc Hr Hxc Hxr Hrc Hpc Hq. unfold link_before, between_store.
  rewrite (wrn_upd _ (Some c)) by eauto. cbn [mbind option_bind].
  set (st1 := upd (set_nextSibling (Some r)) (Some c) st).
  assert (st1 !! r = Some (Some nr)) as Hr1 by (unfold st1; rewrite upd_other by congruence; done).
  assert (st1 !! c = Some (Some (set_nextSibling (Some r) nc))) as Hc1 by by apply upd_here.
  rewrite (rdn_at _ _ _ Hr1). cbn [mbind option_bind].
  set (st2 := upd (set_prevSibling (n_prevSibling nr)) _ _).
  assert (match n_prevSibling nr with
    | Some q => st' ← wrn st1 (Some q) (set_nextSibling (Some c));
                wrn st' (Some c) (set_prevSibling (Some q))
    | None => Some st1 end = Some st2 /\
    st2 !! c = Some (Some (set_prevSibling (n_prevSibling nr) (set_nextSibling (Some r) nc))) /\
    live st2 r /\ (forall l, live st l -> live st2 l)) as (-> & Hc2 & [nr2 Hr2] & Hlive).
  { unfold st2, when_prev. destruct (n_prevSibling nr) as [q|] eqn:E.
    - destruct (Hq q eq_refl) as (Hqc & Hqr & Hql).
      destruct (upd_live (set_nextSibling (Some r)) (Some c) _ _ Hql) as [nq Hnq].
      rewrite (wrn_upd _ (Some q)) by eauto. cbn [mbind option_bind].
      set (st1' := upd (set_nextSibling (Some c)) (Some q) st1).
      assert (st1' !! c = Some (Some (set_nextSibling (Some r) nc))) as Hc1'
        by (unfold st1'; rewrite upd_other by congruence; done).
      rewrite (wrn_upd _ (Some c)) by eauto. split; [done|]. split; [by apply upd_here|].
      split; [|intros l Hl]; do 3 apply upd_live; [by exists nr|done].
    - split; [done|]. split; [cbn [upd]; rewrite Hc1; destruct nc; cbn in Hpc; by subst|].
      split; [by exists nr|]. intros l Hl. exact (upd_live _ _ _ _ Hl). }
  cbn [mbind option_bind]. rewrite (wrn_upd _ (Some r)) by eauto. cbn [mbind option_bind].
  set (st3 := upd (set_prevSibling (Some c)) (Some r) st2).
  assert (st3 !! c = Some (Some (set_prevSibling (n_prevSibling nr)
    (set_nextSibling (Some r) nc)))) as Hc3 by (unfold st3; rewrite upd_other by congruence; done).
  rewrite (rdn_at _ _ _ Hc3). cbn [mbind option_bind n_prevSibling set_prevSibling].
  destruct (Hlive x) as [nx2 Hx2]; [by exists n|].
  destruct (upd_live (set_prevSibling (Some c)) (Some r) st2 x) as [nx3 Hx3]; [by exists nx2|].
  fold st3 in Hx3. case_bool_decide as E.
  - rewrite (wrn_upd _ (Some x)) by eauto. cbn [mbind option_bind].
    rewrite decide_True by done. apply wrn_upd. exists c. eexists. split; [done|].
    rewrite upd_other by congruence. exact Hc3.
  - rewrite decide_False by done. cbn [mbind option_bind]. by rewrite (wrn_upd _ (Some c)) by eauto.
Qed.

Lemma link_before_runs st c a k t ts x ks r :
  dom_inv st (Node c a k Leaf :: t :: ts) -> kids_of x t = Some ks -> r ∈ sibs ks ->
  exists st', link_before st (Some x) (Some c) (Some r) = Some st' /\
    dom_inv st' (edit x (chain_insert (Node c a k Leaf) r) t :: ts) /\ data_kept st st'.
Proof.
  intros Hd Hx Hrs.
  destruct (link_apart _ _ _ _ _ _ _ _ Hd Hx) as (Hxc & Hck & Hsub & Hrest & Hts & Hd1 & Hrc).
  destruct (dom_node _ _ _ _ _ Hd1 Hx) as (n & Hn & Hk & K1 & K2 & K3 & K4 & Ksz).
  destruct (detached _ _ _ _ Hrc) as (nc & Hc & Ho & Hp & Hq & Hnx & Ha & Hkc).
  destruct (sibling _ _ _ _ _ _ Hk K1 Hrs) as (nr & Hr & Hpr & Hpq & _); [done|].
  pose proof (sibs_locs _ _ Hrs) as Hrl.
  assert (r <> c) as Hrc' by (by intros ->). assert (x <> r) as Hxr by (by intros ->).
  assert (forall q, n_prevSibling nr = Some q -> q <> r /\ q ∈ locs ks /\ live st q) as Hpv.
  { intros q E. case_decide; [congruence|]. destruct Hpq as (q' & Eq & ? & ?%sibs_locs & ?).
    by assert (q' = q) as -> by congruence. }
  assert (n_prevSibling nr = None <-> n_firstChild n = Some r) as Hfirst.
  { case_decide as E; [done|]. destruct Hpq as (q & -> & _). by split. }
  exists (between_store x c r nr st). split; [|split].
  { apply (link_before_at _ _ n _ nc); try done. intros q E. destruct (Hpv q E) as (? & Hql & ?).
    split; [by intros ->|done]. }
  2: { unfold between_store.
       do 6 (eapply data_kept_trans; [|apply data_kept_upd; by intros []]). apply data_kept_refl. }
  set (st' := between_store x c r nr st).
  assert (forall l, (l ∉ locs ks) -> l <> c -> l <> x -> st' !! l = st !! l) as Hsame.
  { intros l H1 H2 H3. unfold st', between_store.
    rewrite !upd_other; first [done|congruence|destruct (decide (n_prevSibling nr = None)); congruence|idtac].
    - intros E. by destruct (Hpv l E) as (_ & ? & _).
    - unfold when_prev. destruct (n_prevSibling nr); congruence. }
  split.
  2: { apply (link_perm st c a k t ts x _ ks Hd Hx). by apply insert_perm. }
  constructor.
  - apply (edit_inv st st' t ts x n
      (if decide (n_firstChild n = Some r) then Some c else n_firstChild n) _ ks Hd1 Hx Hn).
    + unfold st', between_store. rewrite upd_other by congruence. rewrite upd_lookup.
      rewrite (upd_other _ (Some r)) by congruence.
      rewrite (upd_other _ (when_prev nr c))
        by (unfold when_prev; destruct (n_prevSibling nr); congruence).
      rewrite upd_other by (intros E; by destruct (Hpv x E) as (_ & ? & _)).
      rewrite upd_other, Hn by congruence. 
      destruct (decide (n_firstChild n = Some r)) as [E|E].
      * rewrite (decide_True (P := n_prevSibling nr = None)) by tauto. by rewrite decide_True.
      * rewrite (decide_False (P := n_prevSibling nr = None)) by tauto.
        rewrite decide_False by done. by destruct n.
    + intros l Hl Hlx. destruct (Hrest l Hl). by apply Hsame.
    + apply (put_before_at st st' ks _ _ _ c a k r nr Hk K1 Hrs Hr); [done| |].
      * intros l Hl. assert (l <> c) as Hlc by (by intros ->).
        assert (l <> x) as Hlx by (by intros ->). unfold st', between_store, put_before.
        rewrite upd_other by congruence. rewrite upd_other by (destruct (decide (n_prevSibling nr = None)); congruence).
        rewrite upd_lookup.
        rewrite (upd_other _ (when_prev nr c))
        by (unfold when_prev; destruct (n_prevSibling nr); congruence).
        rewrite upd_lookup, upd_other by congruence.
        destruct (decide (n_prevSibling nr = Some l)) as [E|E].
        -- rewrite decide_False; [done|]. intros [= ->]. by destruct (Hpv l E).
        -- destruct (decide (l = r)) as [->|Hlr]; [by rewrite decide_True|].
           rewrite decide_False by congruence. by destruct (st !! l) as [[]|].
      * apply (between_frame st _ c a k nc (set_parentNode (Some x) (set_prevSibling
          (n_prevSibling nr) (set_nextSibling (Some r) nc)))); try done.
        -- unfold st', between_store. apply upd_here.
           rewrite upd_other by (destruct (decide (n_prevSibling nr = None)); congruence). rewrite upd_other by congruence.
           rewrite upd_lookup. rewrite upd_other.
           2: { intros E. by destruct (Hpv c E) as (_ & ? & _). }
           rewrite (upd_here _ _ _ nc) by done.
           unfold when_prev. destruct (n_prevSibling nr) eqn:E; [by rewrite decide_True|].
           rewrite decide_False by done. destruct nc; cbn in Hq; by subst.
        -- intros l Hl. destruct (Hsub l Hl) as (? & ? & ?). by apply Hsame.
  - apply (dom_inv_frame st).
    + apply dom_inv_cons in Hd1. tauto.
    + intros l Hl. destruct (Hts l Hl) as (? & ? & ?). by apply Hsame.
Qed.

(** ** The operations *)

Lemma parent_at st t par prev p x n :
  tree_at st par prev p t -> x ∈ nlocs t -> st !! x = Some (Some n) ->
  n_parentNode n = par \/ exists q, n_parentNode n = Some q /\ q ∈ nlocs t.
Proof.
  revert par prev p. induction t as [|l a ks IH1 nx IH2]; [by intros ? ? ? ? ?%elem_of_nil|].
  intros par prev p (-> & m & Hl & _ & Hp & _ & _ & Hk & Hx) Hin Hn. cbn in Hin |- *.
  rewrite elem_of_cons, elem_of_app in Hin. destruct Hin as [->|[Hin|Hin]].
  - left. congruence.
  - right. destruct (IH1 _ _ _ Hk Hin Hn) as [E|(q & E & Hq)]; [exists l|exists q]; in_locs.
  - destruct (IH2 _ _ _ Hx Hin Hn) as [E|(q & E & Hq)]; [by left|right; exists q]. in_locs.
Qed.

(** The parent of [x] is not below [x]. *)
Lemma parent_above st t ts x ks n q :
  dom_inv st (t :: ts) -> kids_of x t = Some ks -> st !! x = Some (Some n) ->
  n_parentNode n = Some q -> q ∈ locs (edit x (fun _ => Leaf) t).
Proof.
  intros Hd Hx Hn Hq. pose proof (edit_rest_In _ _ _ Hx) as Hxr.
  set (st' := upd (set_firstChild None) (Some x) st).
  assert (st' !! x = Some (Some (set_firstChild None n))) as Hx' by by apply upd_here.
  assert (root_at st' (edit x (fun _ => Leaf) t)) as Hr.
  { apply (edit_inv st st' t ts x n None _ ks Hd Hx Hn Hx'); [|done].
    intros l _ Hl. apply upd_other. congruence. }
  assert (x ∈ nlocs (edit x (fun _ => Leaf) t)) as Hxn.
  { revert Hx. clear. revert ks. induction t as [|l a k IH1 nx IH2]; [done|]. intros ks. cbn.
    destruct (decide (l = x)) as [->|_]; [intros _; by left|].
    destruct (kids_of x k) eqn:E; intros H; cbn; right; apply elem_of_app;
      [left; by eapply IH1|right; by eapply IH2]. }
  destruct (edit x _ t) as [|l a k [|]]; [done| |done].
  destruct (parent_at _ _ _ _ _ _ _ Hr Hxn Hx') as [E|(q' & E & Hq')]; [cbn in E; congruence|].
  cbn in E. apply nlocs_locs. by assert (q' = q) as -> by congruence.
Qed.

(** The result of [ixmlNode_isAncestor] for a node of some tree. *)
Lemma isAncestor_runs md st t par prev c x n :
  tree_at st par prev (Some c) t -> NoDup (locs t) -> st !! x = Some (Some n) ->
  runs md (ixmlNode_isAncestor st (Some c) (Some x)) (fun b =>
    b = match n_parentNode n with Some l => bool_decide (l ∈ nlocs t) | None => false end).
Proof.
  intros Ht Hnd Hx. eapply is_ancestor_runs; [done| |done]. by eapply locs_fuel.
Qed.

(** [C] is the node [c] with what is below it: a detached node, or a child of
    the node [x] with children [ks]. *)
Definition at_hand (st : nodes) (c : loc) (C t : tree) (ts : list tree) (ks : tree) : Prop :=
  (exists a k, C = Node c a k Leaf) /\
  (dom_inv st (C :: t :: ts) \/ (dom_inv st (t :: ts) /\ chain_get c ks = Some C)).

Lemma at_hand_dom st c C t ts ks : at_hand st c C t ts ks -> dom_inv st (t :: ts).
Proof. intros [_ [Hd|[Hd _]]]; [|done]. apply dom_inv_cons in Hd. tauto. Qed.

Lemma sibs_nlocs t : sibs t ⊆ nlocs t.
Proof.
  induction t as [|l a ks _ nx IH]; [done|]. cbn. intros y Hy. apply elem_of_cons in Hy as [->|Hy].
  - by left.
  - right. apply elem_of_app. right. by apply IH.
Qed.

Lemma at_hand_parent st c C t ts x ks nc :
  at_hand st c C t ts ks -> kids_of x t = Some ks -> st !! c = Some (Some nc) ->
  (dom_inv st (C :: t :: ts) /\ n_parentNode nc <> Some x) \/
  (chain_get c ks = Some C /\ n_parentNode nc = Some x).
Proof.
  intros [(a & k & ->) [Hd|[Hd HC]]] Hx Hc.
  - left. split; [done|]. apply dom_inv_cons in Hd as (Hr & _).
    destruct (detached _ _ _ _ Hr) as (nc' & Hc' & _ & Hp & _). congruence.
  - right. split; [done|]. destruct (unlink_inv _ _ _ _ _ _ _ Hd Hx HC) as (nc' & _ & Hc' & Hp & _).
    congruence.
Qed.

Lemma no_ancestor md st c C t ts x ks n :
  at_hand st c C t ts ks -> kids_of x t = Some ks -> st !! x = Some (Some n) ->
  runs md (ixmlNode_isAncestor st (Some c) (Some x)) (fun b => b = false).
Proof.
  intros Hat Hx Hn. pose proof (at_hand_dom _ _ _ _ _ _ Hat) as Hd.
  pose proof (fun q => parent_above _ _ _ _ _ _ q Hd Hx Hn) as Hab.
  destruct Hat as [(a & k & ->) [HdC|[_ HC]]].
  - pose proof HdC as HdC2. apply dom_inv_cons in HdC2 as (Hr & Hnd & _ & Hap).
    eapply runs_mono; [by eapply isAncestor_runs|]. intros b ->.
    destruct (n_parentNode n) as [q|] eqn:E; [|done]. apply bool_decide_false. intros Hq.
    apply (Hap q (nlocs_locs _ _ Hq)). cbn. apply elem_of_app. left.
    rewrite (kids_of_perm _ _ _ Hx). apply elem_of_app. right. by apply Hab.
  - destruct (dom_node _ _ _ _ _ Hd Hx) as (n' & Hn' & Hk & K1 & _ & K3 & _).
    pose proof (sibs_nlocs _ _ (chain_get_In _ _ _ HC)) as Hcn.
    destruct (subtree_node _ _ Hcn) as (a' & ks' & nx' & Hsub).
    destruct (tree_at_subtree _ _ _ _ _ _ Hk Hsub) as (par & prev & p' & Ht).
    pose proof Ht as [-> _]. pose proof (subtree_locs _ _ Hsub) as Hincl.
    eapply runs_mono; [eapply (is_ancestor_runs md); [exact Ht| |exact Hn]|].
    + pose proof (subtree_size _ _ Hsub). pose proof (length_nlocs ks).
      pose proof (tree_at_size _ _ _ _ _ Hk K1). lia.
    + intros b ->. destruct (n_parentNode n) as [q|] eqn:E; [|done]. apply bool_decide_false.
      intros Hq. apply (K3 q); [by apply Hincl, nlocs_locs|by apply Hab].
Qed.

Lemma kids_of_edit x f t ks : kids_of x t = Some ks -> kids_of x (edit x f t) = Some (f ks).
Proof.
  induction t as [|l a k IH1 nx IH2]; [done|]. cbn. destruct (decide (l = x)) as [->|H] eqn:E0.
  - intros [= ->]. cbn. by rewrite E0.
  - destruct (kids_of x k) eqn:E; intros H2; cbn; rewrite E0.
    + rewrite IH1 by congruence. done.
    + rewrite E. by apply IH2.
Qed.
Lemma edit_edit x f g t : edit x g (edit x f t) = edit x (fun ks => g (f ks)) t.
Proof.
  induction t as [|l a k IH1 nx IH2]; [done|]. cbn. destruct (decide (l = x)) as [->|H] eqn:E0.
  - cbn. by rewrite E0.
  - destruct (kids_of x k) eqn:E; cbn; rewrite E0.
    + rewrite (kids_of_edit _ _ _ _ E). by rewrite IH1.
    + rewrite E. by rewrite IH2.
Qed.
Lemma edit_ext x f g t ks : kids_of x t = Some ks -> f ks = g ks -> edit x f t = edit x g t.
Proof.
  induction t as [|l a k IH1 nx IH2]; [done|]. cbn. destruct (decide (l = x)) as [->|H].
  - intros [= ->] ->. done.
  - destruct (kids_of x k) eqn:E; intros H1 H2; [by rewrite IH1 by congruence|by rewrite IH2].
Qed.
Lemma chain_remove_out c t : c ∉ sibs t -> chain_remove c t = t.
Proof.
  induction t as [|l a ks _ nx IH]; [done|]. cbn. rewrite not_elem_of_cons. intros [H1 H2].
  rewrite decide_False by congruence. by rewrite IH.
Qed.

Lemma allow_runs md st x c n nc (Q : bool -> Prop) :
  st !! x = Some (Some n) -> st !! c = Some (Some nc) ->
  Q (allow_types (n_nodeType n) (n_nodeType nc)) ->
  runs md (ixmlNode_allowChildren st (Some x) (Some c)) Q.
Proof.
  intros Hx Hc HQ. unfold ixmlNode_allowChildren. apply runs_bind, runs_assert_true; [done|].
  rd_step. rd_step. by mstep.
Qed.

(** The state in which [c] is linked: taken from its old place when that is
    among the children of [x]. *)
Definition taken (st : nodes) (c : loc) (C t : tree) (ts : list tree) (x : loc) (st' : nodes)
    : Prop :=
  dom_inv st' (C :: edit x (chain_remove c) t :: ts) /\ data_kept st st'.

Lemma take_runs md st c C t ts x ks n nc (f : nodes -> M nodes) :
  at_hand st c C t ts ks -> kids_of x t = Some ks -> st !! x = Some (Some n) ->
  st !! c = Some (Some nc) ->
  (forall st', taken st c C t ts x st' -> runs md (f st') (taken st c C t ts x)) ->
  runs md (isp ← ixmlNode_isParent st (Some x) (Some c);
           if isp : bool then
             '(_, _, st') ← ixmlNode_removeChild st (Some x) (Some c) true; f st'
           else mret st) (taken st c C t ts x).
Proof.
  intros Hat Hx Hn Hc Hf. destruct (at_hand_parent _ _ _ _ _ _ _ _ Hat Hx Hc) as [[Hd Hp]|[HC Hp]].
  - mstep. eapply isParent_runs; [done|].
    rewrite bool_decide_false by done. mstep. split; [|apply data_kept_refl].
    rewrite (edit_ext x _ (fun ks => ks) t ks), edit_same; [done|done|].
    apply chain_remove_out. intros H%sibs_locs.
    destruct Hat as [(a & k & ->) _].
    destruct (link_apart _ _ _ _ _ _ _ _ Hd Hx) as (_ & Hck & _). done.
  - mstep. eapply isParent_runs; [done|]. rewrite bool_decide_true by done.
    mstep. eapply runs_mono.
    + eapply (removeChild_runs md st t ts x ks c C true); [by eapply at_hand_dom|done|done].
    + intros [[rc r] st'] (_ & _ & Hd & Hk). by apply Hf.
Qed.

Lemma taken_node st c C t ts x st' l n :
  taken st c C t ts x st' -> st !! l = Some (Some n) ->
  exists n', st' !! l = Some (Some n') /\ unlinked n' = unlinked n.
Proof.
  intros [_ Hk] Hn. specialize (Hk l). rewrite Hn in Hk.
  destruct (st' !! l) as [[n'|]|]; try done.
  exists n'. split; [done|]. by do 2 apply (inj Some) in Hk.
Qed.

Lemma unlinked_owner n n' : unlinked n' = unlinked n -> n_ownerDocument n' = n_ownerDocument n.
Proof. intros H. by apply (f_equal n_ownerDocument) in H. Qed.

Lemma data_kept_set st st' f l :
  data_kept st st' -> (forall n, unlinked (f n) = f (unlinked n)) ->
  data_kept (upd f (Some l) st) (upd f (Some l) st').
Proof.
  intros Hk Hf i. specialize (Hk i). rewrite !upd_lookup. case_decide; [|done].
  destruct (st !! i) as [[n|]|], (st' !! i) as [[n'|]|]; try done.
  do 2 apply (inj Some) in Hk. cbn. by rewrite !Hf, Hk.
Qed.

Definition wrong_document (n nc : IXML_Node) : bool :=
  bool_decide (n_ownerDocument nc <> None) &&
  bool_decide (n_ownerDocument n <> n_ownerDocument nc).

Lemma appendChild_runs md st c C t ts x ks n nc :
  at_hand st c C t ts ks -> kids_of x t = Some ks -> st !! x = Some (Some n) ->
  st !! c = Some (Some nc) ->
  runs md (ixmlNode_appendChild st (Some x) (Some c)) (fun '(rc, st') =>
    if wrong_document n nc then rc = IXML_WRONG_DOCUMENT_ERR /\ st' = st
    else if allow_types (n_nodeType n) (n_nodeType nc) then
      rc = IXML_SUCCESS /\
      dom_inv st' (edit x (fun ks => chain_snoc C (chain_remove c ks)) t :: ts) /\
      data_kept (upd (set_ownerDocument (n_ownerDocument n)) (Some c) st) st'
    else rc = IXML_HIERARCHY_REQUEST_ERR /\ st' = st).
Proof.
  intros Hat Hx Hn Hc. unfold ixmlNode_appendChild. rd_step. rd_step.
  fold (wrong_document n nc). destruct (wrong_document n nc); [by mstep|].
  mstep. eapply runs_mono; [by eapply no_ancestor|]. intros b ->.
  mstep. eapply allow_runs; [done|done|].
  destruct (allow_types _ _); cbn [negb]; [|by mstep].
  apply runs_bind_assoc. eapply runs_mono; [eapply (take_runs md st c C t ts x ks n nc mret); try done;
    intros; by mstep|].
  intros st1 Htk. pose proof Hat as [(a & k & ->) _].
  destruct (taken_node _ _ _ _ _ _ _ _ _ Htk Hn) as (n1 & Hn1 & Hu%unlinked_owner).
  destruct Htk as [Hd1 Hk1]. mstep.
  eapply runs_mono; [eapply (link_last_runs md st1 c a k _ ts x); [done|by apply kids_of_edit|done]|].
  intros st2 [Hd2 Hk2]. mstep. split; [done|]. rewrite edit_edit in Hd2. split; [done|].
  rewrite Hu in Hk2. eapply data_kept_trans; [|exact Hk2]. by apply data_kept_set.
Qed.

Lemma insertBefore_runs md st c C t ts x ks n nc r :
  at_hand st c C t ts ks -> kids_of x t = Some ks -> st !! x = Some (Some n) ->
  st !! c = Some (Some nc) -> r ∈ sibs ks -> r <> c ->
  runs md (ixmlNode_insertBefore st (Some x) (Some c) (Some r)) (fun '(rc, st') =>
    if allow_types (n_nodeType n) (n_nodeType nc) then
      if decide (n_ownerDocument n = n_ownerDocument nc) then
        rc = IXML_SUCCESS /\
        dom_inv st' (edit x (fun ks => chain_insert C r (chain_remove c ks)) t :: ts) /\
        data_kept st st'
      else rc = IXML_WRONG_DOCUMENT_ERR /\ st' = st
    else rc = IXML_HIERARCHY_REQUEST_ERR /\ st' = st).
Proof.
  intros Hat Hx Hn Hc Hrs Hrc. unfold ixmlNode_insertBefore.
  mstep. eapply allow_runs; [done|done|].
  destruct (allow_types _ _); cbn [negb]; [|by mstep].
  mstep. eapply runs_mono; [by eapply no_ancestor|]. intros b ->.
  rd_step. rd_step.
  destruct (decide (n_ownerDocument n = n_ownerDocument nc)) as [Ho|Ho].
  2: { rewrite bool_decide_true by done. by mstep. }
  rewrite bool_decide_false by tauto.
  pose proof (at_hand_dom _ _ _ _ _ _ Hat) as Hd.
  destruct (dom_node _ _ _ _ _ Hd Hx) as (n' & Hn' & Hk & K1 & _).
  destruct (sibling _ _ _ _ _ _ Hk K1 Hrs) as (nr & Hr & Hpr & _); [done|].
  mstep. eapply isParent_runs; [done|]. rewrite bool_decide_true by done. cbn [negb].
  apply runs_bind_assoc. eapply runs_mono.
  { eapply (take_runs md st c C t ts x ks n nc (fun st' => liftO (wrn st' (Some c)
      (fun c => set_prevSibling None (set_nextSibling None c))))); try done.
    intros st' [Hd' Hk']. pose proof Hd' as Hd2. pose proof Hat as [(a & k & ->) _].
    apply dom_inv_cons in Hd2 as (Hr' & _). destruct (detached _ _ _ _ Hr') as
      (nc' & Hc' & _ & _ & Hq & Hnx & _). eapply runs_liftO; [by apply wrn_at|].
    rewrite insert_id; [by split|]. rewrite Hc'. destruct nc'; cbn in Hq, Hnx. by subst. }
  intros st1 Htk. pose proof Hat as [(a & k & ->) _]. destruct Htk as [Hd1 Hk1].
  destruct (link_before_runs st1 c a k _ ts x _ r Hd1 (kids_of_edit _ _ _ _ Hx))
    as (st2 & Hl & Hd2 & Hk2).
  { clear -Hrs Hrc. induction ks as [|l a k _ nx IH]; [done|]. cbn in *.
    apply elem_of_cons in Hrs as [->|Hr].
    - rewrite decide_False by done. by left.
    - case_decide; [done|]. cbn. right. auto. }
  eapply runs_bind, runs_liftO; [done|]. mstep. rewrite edit_edit in Hd2.
  split; [done|]. split; [done|]. by eapply data_kept_trans.
Qed.

Lemma chain_get_insert c a k o t :
  o <> c -> o ∈ sibs t -> chain_get o (chain_insert (Node c a k Leaf) o t) = chain_get o t.
Proof.
  intros Hoc. induction t as [|l b ks _ nx IH]; [done|]. cbn. intros Ho.
  destruct (decide (l = o)) as [->|H].
  - cbn. rewrite decide_False by done. by rewrite decide_True.
  - cbn. rewrite decide_False by done. apply elem_of_cons in Ho as [->|Ho]; [done|auto].
Qed.
Lemma chain_get_remove c o t : o <> c -> chain_get o (chain_remove c t) = chain_get o t.
Proof.
  intros Hoc. induction t as [|l b ks _ nx IH]; [done|]. cbn.
  destruct (decide (l = c)) as [->|H].
  - by rewrite decide_False.
  - cbn. by rewrite IH.
Qed.

Lemma sibs_remove c o t : o <> c -> o ∈ sibs t -> o ∈ sibs (chain_remove c t).
Proof.
  intros Hoc. induction t as [|l b ks _ nx IH]; [done|]. cbn. intros Ho.
  apply elem_of_cons in Ho as [->|Ho].
  - rewrite decide_False by done. by left.
  - case_decide; [done|]. cbn. right. auto.
Qed.

Lemma replace_runs md st c C t ts x ks n nc o O :
  at_hand st c C t ts ks -> kids_of x t = Some ks -> st !! x = Some (Some n) ->
  st !! c = Some (Some nc) -> chain_get o ks = Some O -> o <> c ->
  runs md (ixmlNode_replaceChild st (Some x) (Some c) (Some o) true) (fun '(rc, r, st') =>
    if allow_types (n_nodeType n) (n_nodeType nc) then
      if decide (n_ownerDocument n = n_ownerDocument nc) then
        rc = IXML_SUCCESS /\ r = Some o /\
        dom_inv st' (O :: edit x (fun ks =>
          chain_remove o (chain_insert C o (chain_remove c ks))) t :: ts) /\
        data_kept st st'
      else rc = IXML_WRONG_DOCUMENT_ERR /\ r = None /\ st' = st
    else rc = IXML_HIERARCHY_REQUEST_ERR /\ r = None /\ st' = st).
Proof.
  intros Hat Hx Hn Hc HO Hoc. pose proof (chain_get_In _ _ _ HO) as Hos.
  unfold ixmlNode_replaceChild.
  mstep. eapply runs_mono; [by eapply no_ancestor|]. intros b ->.
  mstep. eapply allow_runs; [done|done|].
  destruct (allow_types _ _) eqn:Ea; cbn [negb]; [|by mstep].
  rd_step. rd_step.
  destruct (decide (n_ownerDocument n = n_ownerDocument nc)) as [Ho|Ho].
  2: { rewrite bool_decide_true by done. by mstep. }
  rewrite bool_decide_false by tauto.
  pose proof (at_hand_dom _ _ _ _ _ _ Hat) as Hd.
  destruct (dom_node _ _ _ _ _ Hd Hx) as (n' & Hn' & Hk & K1 & _).
  destruct (sibling _ _ _ _ _ _ Hk K1 Hos) as (no & Hno & Hpo & _); [done|].
  mstep. eapply isParent_runs; [done|]. rewrite bool_decide_true by done. cbn [negb].
  mstep. eapply runs_mono; [by eapply (insertBefore_runs md st c C t ts x ks n nc o)|].
  intros [rc st1]. rewrite Ea, decide_True by done. intros (-> & Hd1 & Hk1).
  cbn [negb Z.eqb IXML_SUCCESS].
  destruct Hat as [(a & k & ->) _].
  eapply runs_mono.
  { eapply (removeChild_runs md st1 _ ts x _ o O true Hd1 (kids_of_edit _ _ _ _ Hx)).
    rewrite chain_get_insert, chain_get_remove; [done|done|done|].
    by apply sibs_remove. }
  intros [[rc r] st2] (-> & -> & Hd2 & Hk2). rewrite edit_edit in Hd2.
  split; [done|]. split; [done|]. split; [done|]. by eapply data_kept_trans.
Qed.

(** ** Searching *)

Definition selected (st : nodes) (test : IXML_Node -> option bool) (l : loc) : bool :=
  match st !! l with
  | Some (Some n) => bool_decide (n_nodeType n = eELEMENT_NODE) && default false (test n)
  | _ => false
  end.
(** The test can be evaluated on every element: the strings it reads exist. *)
Definition testable (st : nodes) (test : IXML_Node -> option bool) (ls : list loc) : Prop :=
  forall l n, l ∈ ls -> st !! l = Some (Some n) -> n_nodeType n = eELEMENT_NODE ->
  is_Some (test n).


Lemma add_list_runs md (ls : list loc) x :
  runs md (ixmlNodeList_addToNodeList (Some <$> ls) (Some x)) (fun '(_, l) =>
    exists ms, l = Some <$> (ls ++ ms) /\ ms `sublist_of` [x] /\ (md = Lucky -> ms = [x])).
Proof.
  unfold ixmlNodeList_addToNodeList. apply runs_bind, runs_assert_true; [done|].
  assert (forall l : IXML_NodeList, (l = Some <$> ls) -> md <> Lucky ->
    exists ms, l = Some <$> (ls ++ ms) /\ ms `sublist_of` [x] /\ (md = Lucky -> ms = [x])) as Hno.
  { intros l -> Hmd. exists []. rewrite app_nil_r. by split; [|split; [apply sublist_nil_l|]]. }
  destruct ls as [|y ls]; cbn [fmap list_fmap].
  - mstep. mstep; cbn [negb]; mstep; [by exists [x]|by apply Hno].
  - mstep. mstep. cbn [negb]. mstep. mstep; mstep; [|by apply Hno].
    exists [x]. by rewrite fmap_app.
Qed.

Lemma add_match_runs md st test x ls :
  (exists n, st !! x = Some (Some n)) -> testable st test [x] ->
  runs md (add_match test st (Some x) (Some <$> ls)) (fun l => exists ms,
    l = Some <$> (ls ++ ms) /\ ms `sublist_of` (filter (selected st test) [x]) /\
    (md = Lucky -> ms = filter (selected st test) [x])).
Proof.
  intros [n Hn] Ht. unfold add_match. rd_step.
  assert (selected st test x = bool_decide (n_nodeType n = eELEMENT_NODE) && default false (test n))
    as Hs by (unfold selected; by rewrite Hn).
  assert (selected st test x = false -> exists ms : list loc, Some <$> ls = Some <$> (ls ++ ms) /\
    ms `sublist_of` (filter (selected st test) [x]) /\
    (md = Lucky -> ms = filter (selected st test) [x])) as Hno.
  { intros H. exists []. rewrite app_nil_r, filter_cons_False by (rewrite H; by intros []).
    split; [done|]. by split; [apply sublist_nil_l|]. }
  case_bool_decide as E; [|mstep; by apply Hno].
  destruct (Ht x n) as [b Hb]; [by left|done|done|]. rewrite Hb in Hs. cbn in Hs.
  eapply runs_bind, runs_liftO; [done|]. destruct b; [|mstep; by apply Hno].
  mstep. eapply runs_mono; [apply add_list_runs|]. intros [_ l] (ms & -> & H1 & H2).
  mstep. exists ms. rewrite filter_cons_True by (by rewrite Hs). done.
Qed.

Lemma get_elements_runs md st test t fuel par prev p ls :
  tree_at st par prev p t -> (length (nlocs t) < fuel)%nat -> testable st test (nlocs t) ->
  runs md (get_elements test fuel st p (Some <$> ls)) (fun l => exists ms,
    l = Some <$> (ls ++ ms) /\ ms `sublist_of` (filter (selected st test) (nlocs t)) /\
    (md = Lucky -> ms = filter (selected st test) (nlocs t))).
Proof.
  revert fuel par prev p ls. induction t as [|x a ks IH1 nx IH2]; intros fuel par prev p ls Ht Hf Htest.
  - cbn in Ht. subst p. destruct fuel; [cbn in Hf; lia|]. cbn. mstep. exists [].
    by rewrite app_nil_r.
  - destruct Ht as (-> & n & Hn & _ & _ & _ & _ & Hk & Hx).
    destruct fuel as [|fuel]; [cbn in Hf; lia|]. cbn in Hf. rewrite length_app in Hf.
    cbn [get_elements]. mstep. eapply runs_mono; [apply add_match_runs; [by exists n|]|].
    { intros l m Hl ? ?. apply list_elem_of_singleton in Hl. subst. apply (Htest x); [by left|done|done]. }
    intros l1 (m1 & -> & S1 & E1). rd_step. mstep.
    eapply runs_mono; [apply (IH1 fuel _ _ _ (ls ++ m1) Hk); [lia|]|].
    { intros l m Hl. apply Htest. cbn. in_locs. }
    intros l2 (m2 & -> & S2 & E2).
    eapply runs_mono; [apply (IH2 fuel _ _ _ _ Hx); [lia|]|].
    { intros l m Hl. apply Htest. cbn. in_locs. }
    intros l3 (m3 & -> & S3 & E3). exists (m1 ++ m2 ++ m3). rewrite !app_assoc.
    split; [done|]. cbn [nlocs]. change (x :: nlocs ks ++ nlocs nx) with ([x] ++ nlocs ks ++ nlocs nx).
    rewrite !filter_app. split.
    + rewrite <- app_assoc. by repeat apply sublist_app.
    + intros Hmd. by rewrite E1, E2, E3, <- app_assoc.
Qed.

Lemma insert_not_child md st c C t ts x ks n nc r nr :
  at_hand st c C t ts ks -> kids_of x t = Some ks -> st !! x = Some (Some n) ->
  st !! c = Some (Some nc) -> st !! r = Some (Some nr) -> n_parentNode nr <> Some x ->
  runs md (ixmlNode_insertBefore st (Some x) (Some c) (Some r)) (fun '(rc, st') =>
    st' = st /\ rc = if allow_types (n_nodeType n) (n_nodeType nc) then
      if decide (n_ownerDocument n = n_ownerDocument nc) then IXML_NOT_FOUND_ERR
      else IXML_WRONG_DOCUMENT_ERR else IXML_HIERARCHY_REQUEST_ERR).
Proof.
  intros Hat Hx Hn Hc Hr Hp. unfold ixmlNode_insertBefore.
  mstep. eapply allow_runs; [done|done|].
  destruct (allow_types _ _); cbn [negb]; [|by mstep].
  mstep. eapply runs_mono; [by eapply no_ancestor|]. intros b ->.
  rd_step. rd_step.
  destruct (decide (n_ownerDocument n = n_ownerDocument nc)) as [Ho|Ho].
  - rewrite bool_decide_false by tauto. mstep. eapply isParent_runs; [done|].
    rewrite bool_decide_false by done. by mstep.
  - rewrite bool_decide_true by done. by mstep.
Qed.

(** The node itself, and then the nodes below it. *)
Lemma elements_below md st t ts x ks test :
  dom_inv st (t :: ts) -> kids_of x t = Some ks -> testable st test (x :: nlocs ks) ->
  runs md (_ ← assertM (bool_decide (Some x <> None));
           l ← add_match test st (Some x) [];
           n ← liftO (rdn st (Some x));
           get_elements test (S (size st)) st (n_firstChild n) l) (fun l => exists ms,
    l = Some <$> ms /\ ms `sublist_of` filter (selected st test) (x :: nlocs ks) /\
    (md = Lucky -> ms = filter (selected st test) (x :: nlocs ks))).
Proof.
  intros Hd Hx Ht. destruct (dom_node _ _ _ _ _ Hd Hx) as (n & Hn & Hk & K1 & _).
  apply runs_bind, runs_assert_true; [done|]. mstep.
  eapply runs_mono; [apply (add_match_runs md st test x []); [by exists n|]|].
  { intros l m Hl. apply Ht. apply list_elem_of_singleton in Hl as ->. by left. }
  intros l1 (m1 & -> & S1 & E1). cbn [app] in *. rd_step.
  eapply runs_mono; [eapply (get_elements_runs md st test ks _ _ _ _ m1 Hk)|].
  { by eapply locs_fuel. }
  { intros l m Hl. apply Ht. by right. }
  intros l2 (m2 & -> & S2 & E2). exists (m1 ++ m2). split; [done|].
  change (x :: nlocs ks) with ([x] ++ nlocs ks). rewrite filter_app. split.
  - by apply sublist_app.
  - intros Hmd. by rewrite E1, E2.
Qed.

(** *** Names

    [is_named tag] and [is_named_ns uri local] say when an element has the name
    that is searched for; ["*"] stands for every name. *)

Definition reads (s : list Z) (d : DOMString) : Prop := exists v, d = DStr v /\ c_str v = c_str s.
Definition named_like (s : list Z) (d : DOMString) : Prop := c_str s = [$"*"] \/ reads s d.
Definition is_named (st : nodes) (tag : list Z) (l : loc) : Prop :=
  exists n, st !! l = Some (Some n) /\ n_nodeType n = eELEMENT_NODE /\ named_like tag (n_nodeName n).
Definition is_named_ns (st : nodes) (uri local : list Z) (l : loc) : Prop :=
  exists n, st !! l = Some (Some n) /\ n_nodeType n = eELEMENT_NODE /\
    n_localName n <> DNull /\ n_namespaceURI n <> DNull /\
    named_like uri (n_namespaceURI n) /\ named_like local (n_localName n).

#[global] Instance reads_dec s d : Decision (reads s d).
Proof.
  destruct d as [|v|]; [right; by intros (? & ? & _)| |right; by intros (? & ? & _)].
  destruct (decide (c_str v = c_str s)); [left; by exists v|right; by intros (? & [= <-] & ?)].
Defined.
#[global] Instance named_like_dec s d : Decision (named_like s d).
Proof. unfold named_like. apply _. Defined.
#[global] Instance is_named_dec st tag l : Decision (is_named st tag l).
Proof.
  unfold is_named. destruct (st !! l) as [[n|]|]; [|right; by intros (? & ? & _)..].
  destruct (decide (n_nodeType n = eELEMENT_NODE /\ named_like tag (n_nodeName n))) as [?|Hn];
    [left; by exists n|right; intros (? & [= <-] & ?); by apply Hn].
Defined.
#[global] Instance is_named_ns_dec st uri local l : Decision (is_named_ns st uri local l).
Proof.
  unfold is_named_ns. destruct (st !! l) as [[n|]|]; [|right; by intros (? & ? & _)..].
  destruct (decide (n_nodeType n = eELEMENT_NODE /\ n_localName n <> DNull /\ n_namespaceURI n <> DNull /\
    named_like uri (n_namespaceURI n) /\ named_like local (n_localName n))) as [?|Hn];
    [left; by exists n|right; intros (? & [= <-] & ?); by apply Hn].
Defined.

Lemma name_matches_spec s v : name_matches s (c_str v) = true <-> named_like s (DStr v).
Proof.
  unfold name_matches, strcmp_eq, named_like, reads. rewrite orb_true_iff, !bool_decide_eq_true.
  rewrite (c_str_id (c_str v)) by apply c_str_no_nul. change (c_str (cs "*")) with [$"*"]. split.
  - intros [E|E]; [right; by exists v|by left].
  - intros [E|(v' & [= <-] & E)]; [by right|by left].
Qed.

Lemma selected_tag st tag l n s :
  st !! l = Some (Some n) -> (n_nodeType n = eELEMENT_NODE -> n_nodeName n = DStr s) ->
  selected st (tag_test tag) l <-> is_named st tag l.
Proof.
  intros Hn Hs. unfold selected, is_named, tag_test. rewrite Hn. split.
  - intros [Ht%bool_decide_unpack H]%andb_prop_elim. exists n. split; [done|]. split; [done|].
    rewrite (Hs Ht) in *. apply name_matches_spec. cbn in H. by destruct (name_matches _ _).
  - intros (? & [= <-] & Ht & H). rewrite (Hs Ht) in *. apply name_matches_spec in H.
    rewrite bool_decide_true by done. cbn. by rewrite H.
Qed.
Lemma selected_ns st uri local l n :
  st !! l = Some (Some n) -> node_ok n ->
  selected st (ns_test uri local) l <-> is_named_ns st uri local l.
Proof.
  intros Hn [Hok _]. unfold selected, is_named_ns, ns_test. rewrite Hn. apply Forall_forall with (x := n_localName n) in Hok as Hl.
  2:{ by do 4 right; left. }
  apply Forall_forall with (x := n_namespaceURI n) in Hok as Hu; [|by do 2 right; left].
  assert (forall a b d e : list Z, Is_true (name_matches a (c_str d) && name_matches b (c_str e)) <->
    named_like a (DStr d) /\ named_like b (DStr e)) as Hm.
  { intros. rewrite <- !name_matches_spec, Is_true_true. apply andb_true_iff. }
  split.
  - intros [Ht%bool_decide_unpack H]%andb_prop_elim. exists n. split; [done|]. split; [done|].
    destruct (n_localName n) as [|v|], (n_namespaceURI n) as [|u|]; try done. cbn in H. by apply Hm in H.
  - intros (? & [= <-] & Ht & Hl0 & Hu0 & Hlu). rewrite bool_decide_true by done.
    destruct (n_localName n) as [|v|], (n_namespaceURI n) as [|u|]; try done. cbn. by apply Hm.
Qed.

Lemma filter_same {A} (P Q : A -> Prop) `{!forall x, Decision (P x)} `{!forall x, Decision (Q x)} (l : list A) :
  (forall x, x ∈ l -> P x <-> Q x) -> filter P l = filter Q l.
Proof.
  induction l as [|x l IH]; intros Hpq; [done|].
  assert (filter P l = filter Q l) as E by (apply IH; intros y Hy; apply Hpq; by right).
  pose proof (Hpq x ltac:(by left)) as [H1 H2]. destruct (decide (P x)) as [Hp|Hp].
  - rewrite !filter_cons_True, E by auto. done.
  - rewrite !filter_cons_False, E by auto. done.
Qed.

(** Every node of a document is in order. *)
Lemma node_in st t ts x :
  dom_inv st (t :: ts) -> x ∈ nlocs t -> exists n, st !! x = Some (Some n) /\ node_ok n.
Proof.
  intros Hd Hx. apply dom_inv_cons in Hd as (Hr & Hnd & _). destruct (kids_of_total _ _ Hx) as [ks E].
  destruct (root_focus _ _ _ _ Hr Hnd E) as (n & ? & ? & _). by exists n.
Qed.
Lemma kids_nlocs x t ks y : kids_of x t = Some ks -> y ∈ x :: nlocs ks -> y ∈ nlocs t.
Proof.
  revert ks y. induction t as [|l a k IH1 nx IH2]; intros ks y; cbn; [done|].
  destruct (decide (l = x)) as [->|]; [intros [= <-] [->|Hy]%elem_of_cons;
    [by left|right; apply elem_of_app; by left]|].
  destruct (kids_of x k) as [k'|] eqn:E; [intros [= <-] Hy; right; apply elem_of_app; left; by eapply IH1|].
  intros H Hy. right. apply elem_of_app. right. by eapply IH2.
Qed.

(** The elements of a name. *)
Lemma tag_below md st t ts x ks tag :
  dom_inv st (t :: ts) -> kids_of x t = Some ks ->
  (forall l n, l ∈ x :: nlocs ks -> st !! l = Some (Some n) -> n_nodeType n = eELEMENT_NODE ->
     exists s, n_nodeName n = DStr s) ->
  runs md (ixmlNode_getElementsByTagName st (Some x) tag []) (fun l => exists ms,
    l = Some <$> ms /\ ms `sublist_of` filter (is_named st tag) (x :: nlocs ks) /\
    (md = Lucky -> ms = filter (is_named st tag) (x :: nlocs ks))).
Proof.
  intros Hd Hx Hnames.
  replace (filter (is_named st tag) (x :: nlocs ks)) with (filter (selected st (tag_test tag)) (x :: nlocs ks));
    [|apply filter_same].
  - eapply elements_below; [done..|]. intros l n Hl Hn Ht. destruct (Hnames l n Hl Hn Ht) as [s E].
    unfold tag_test. rewrite E. by eexists.
  - intros l Hl. destruct (node_in _ _ _ l Hd) as (n & Hn & _); [by eapply kids_nlocs|].
    destruct (decide (n_nodeType n = eELEMENT_NODE)) as [Ht|Ht].
    + destruct (Hnames l n Hl Hn Ht) as [s E]. by eapply selected_tag.
    + by eapply (selected_tag _ _ _ _ []).
Qed.
Lemma ns_below md st t ts x ks uri local :
  dom_inv st (t :: ts) -> kids_of x t = Some ks ->
  runs md (ixmlNode_getElementsByTagNameNS st (Some x) uri local []) (fun l => exists ms,
    l = Some <$> ms /\ ms `sublist_of` filter (is_named_ns st uri local) (x :: nlocs ks) /\
    (md = Lucky -> ms = filter (is_named_ns st uri local) (x :: nlocs ks))).
Proof.
  intros Hd Hx. replace (filter (is_named_ns st uri local) (x :: nlocs ks))
    with (filter (selected st (ns_test uri local)) (x :: nlocs ks)); [|apply filter_same].
  - eapply elements_below; [done..|]. intros l n Hl Hn _.
    destruct (node_in _ _ _ l Hd) as (n' & Hn' & Hok & _); [by eapply kids_nlocs|].
    assert (n' = n) as -> by congruence. unfold ns_test.
    apply Forall_forall with (x := n_localName n) in Hok as H1; [|by do 4 right; left].
    apply Forall_forall with (x := n_namespaceURI n) in Hok as H2; [|by do 2 right; left].
    destruct (n_localName n), (n_namespaceURI n); try done; by eexists.
  - intros l Hl. destruct (node_in _ _ _ l Hd) as (n & Hn & Hok); [by eapply kids_nlocs|].
    by eapply selected_ns.
Qed.

(** Below an ancestor, nothing can be put. *)
Lemma ancestor_found md st par prev c a kc nx x n :
  tree_at st par prev (Some c) (Node c a kc nx) -> NoDup (locs (Node c a kc nx)) ->
  x ∈ nlocs kc -> st !! x = Some (Some n) ->
  runs md (ixmlNode_isAncestor st (Some c) (Some x)) (fun b => b = true).
Proof.
  intros Ht Hnd Hx Hn. eapply runs_mono; [by eapply isAncestor_runs|]. intros b ->.
  destruct Ht as (_ & m & _ & _ & _ & _ & _ & Hk & _).
  destruct (parent_at _ _ _ _ _ _ _ Hk Hx Hn) as [-> |(q & -> & Hq)]; apply bool_decide_true.
  - by left.
  - cbn. in_locs.
Qed.

(** Every node has its subtree in the store. *)
Lemma subtree_at st par prev p t c kc :
  tree_at st par prev p t -> NoDup (locs t) -> kids_of c t = Some kc ->
  exists par' prev' a nx, tree_at st par' prev' (Some c) (Node c a kc nx) /\ NoDup (locs (Node c a kc nx)).
Proof.
  revert par prev p. induction t as [|l a k IH1 nx IH2]; intros par prev p Ht Hnd Hc; [done|].
  pose proof (locs_node_NoDup _ _ _ _ Hnd) as (_ & _ & _ & H5 & H6 & _). cbn [kids_of] in Hc.
  destruct (decide (l = c)) as [->|].
  - injection Hc as ->. pose proof Ht as [-> _]. by eexists _, _, _, _.
  - destruct Ht as (_ & m & _ & _ & _ & _ & _ & Hk & Hnx).
    destruct (kids_of c k) as [k'|]; [injection Hc as ->; by eapply IH1|by eapply IH2].
Qed.
Lemma insert_ancestor md st t ts x n z kz p :
  dom_inv st (t :: ts) -> st !! x = Some (Some n) -> kids_of z t = Some kz -> x ∈ nlocs kz ->
  runs md (ixmlNode_insertBefore st (Some x) (Some z) p) (fun '(rc, st') =>
    rc = IXML_HIERARCHY_REQUEST_ERR /\ st' = st).
Proof.
  intros Hd Hn Hz Hx. apply dom_inv_cons in Hd as (Hr & Hnd & _).
  assert (exists par prev a nx, tree_at st par prev (Some z) (Node z a kz nx) /\
    NoDup (locs (Node z a kz nx))) as (par & prev & a & nx & Ht & Hndz).
  { destruct t as [|l a k [|]]; [done| |done]. by eapply subtree_at. }
  pose proof Ht as (_ & nz & Hnz & _).
  unfold ixmlNode_insertBefore.
  mstep. eapply allow_runs; [done|done|]. destruct (allow_types _ _); cbn [negb]; [|by mstep].
  mstep. eapply runs_mono; [by eapply ancestor_found|]. intros b ->. by mstep.
Qed.

(** ** Properties *)

(** C21: [ixmlNode_appendChild] makes a detached node, or a child of the same
    parent, the last child: every link of the documents is right afterwards and
    no other data than the owner document of the node changes.  A node of
    another document or of a type that is not allowed is refused with the error
    code of the DOM, and nothing is changed then. *)
Theorem ixmlNode_appendChild_correct md st c C t ts x ks n nc :
  at_hand st c C t ts ks -> kids_of x t = Some ks -> st !! x = Some (Some n) ->
  st !! c = Some (Some nc) ->
  runs md (ixmlNode_appendChild st (Some x) (Some c)) (fun '(rc, st') =>
    if wrong_document n nc then rc = IXML_WRONG_DOCUMENT_ERR /\ st' = st
    else if allow_types (n_nodeType n) (n_nodeType nc) then
      rc = IXML_SUCCESS /\
      dom_inv st' (edit x (fun ks => chain_snoc C (chain_remove c ks)) t :: ts) /\
      data_kept (upd (set_ownerDocument (n_ownerDocument n)) (Some c) st) st'
    else rc = IXML_HIERARCHY_REQUEST_ERR /\ st' = st).
Proof. intros. by eapply appendChild_runs. Qed.

(** C22: [ixmlNode_insertBefore] puts a detached node, or a child of the same
    parent, before another child of the parent, and keeps every link and all
    data of the documents right.  It returns an error of the DOM and changes
    nothing when the type or the document of the node is not allowed, when the
    reference node is no child of the parent, and, for any node of the
    documents, when the node is an ancestor of the parent.  The reference node
    is not the node itself ([insertBefore_self]), and a child of another parent
    is not covered: it stays linked there ([insertBefore_steals]). *)
Theorem ixmlNode_insertBefore_correct md st c C t ts x ks n nc r nr :
  at_hand st c C t ts ks -> kids_of x t = Some ks -> st !! x = Some (Some n) ->
  st !! c = Some (Some nc) -> st !! r = Some (Some nr) -> r <> c ->
  (r ∈ sibs ks -> runs md (ixmlNode_insertBefore st (Some x) (Some c) (Some r)) (fun '(rc, st') =>
    if allow_types (n_nodeType n) (n_nodeType nc) then
      if decide (n_ownerDocument n = n_ownerDocument nc) then
        rc = IXML_SUCCESS /\
        dom_inv st' (edit x (fun ks => chain_insert C r (chain_remove c ks)) t :: ts) /\
        data_kept st st'
      else rc = IXML_WRONG_DOCUMENT_ERR /\ st' = st
    else rc = IXML_HIERARCHY_REQUEST_ERR /\ st' = st)) /\
  (n_parentNode nr <> Some x ->
   runs md (ixmlNode_insertBefore st (Some x) (Some c) (Some r)) (fun '(rc, st') =>
    st' = st /\ rc = if allow_types (n_nodeType n) (n_nodeType nc) then
      if decide (n_ownerDocument n = n_ownerDocument nc) then IXML_NOT_FOUND_ERR
      else IXML_WRONG_DOCUMENT_ERR else IXML_HIERARCHY_REQUEST_ERR)) /\
  (forall z kz p, kids_of z t = Some kz -> x ∈ nlocs kz ->
   runs md (ixmlNode_insertBefore st (Some x) (Some z) p) (fun '(rc, st') =>
     rc = IXML_HIERARCHY_REQUEST_ERR /\ st' = st)).
Proof.
  intros Hat Hx Hn Hc Hr Hrc. split; [|split].
  - intros Hrs. by eapply insertBefore_runs.
  - intros Hp. by eapply insert_not_child.
  - intros z kz p Hz Hxz. by eapply insert_ancestor; [by eapply at_hand_dom|..].
Qed.

(** [ixmlNode_replaceChild] puts the new node in the place of the old
    child, which is returned detached with all that is below it. *)
Theorem ixmlNode_replaceChild_correct md st c C t ts x ks n nc o O :
  at_hand st c C t ts ks -> kids_of x t = Some ks -> st !! x = Some (Some n) ->
  st !! c = Some (Some nc) -> chain_get o ks = Some O -> o <> c ->
  runs md (ixmlNode_replaceChild st (Some x) (Some c) (Some o) true) (fun '(rc, r, st') =>
    if allow_types (n_nodeType n) (n_nodeType nc) then
      if decide (n_ownerDocument n = n_ownerDocument nc) then
        rc = IXML_SUCCESS /\ r = Some o /\
        dom_inv st' (O :: edit x (fun ks =>
          chain_remove o (chain_insert C o (chain_remove c ks))) t :: ts) /\
        data_kept st st'
      else rc = IXML_WRONG_DOCUMENT_ERR /\ r = None /\ st' = st
    else rc = IXML_HIERARCHY_REQUEST_ERR /\ r = None /\ st' = st).
Proof. intros. by eapply replace_runs. Qed.

(** C23: [ixmlNode_removeChild] takes a child out of its parent: it is returned
    detached with all that is below it, or, when the caller does not ask for
    it, freed with all that is below it; the rest of the documents is
    unchanged, and so is the owner document of the child.  A node that is no child of the parent is refused. *)
Theorem ixmlNode_removeChild_correct md st t ts x ks c C returnNode :
  dom_inv st (t :: ts) -> kids_of x t = Some ks -> chain_get c ks = Some C ->
  runs md (ixmlNode_removeChild st (Some x) (Some c) returnNode) (fun '(rc, r, st') =>
    rc = IXML_SUCCESS /\
    if returnNode : bool
    then r = Some c /\ dom_inv st' (C :: edit x (chain_remove c) t :: ts) /\ data_kept st st'
    else r = None /\ dom_inv st' (edit x (chain_remove c) t :: ts) /\
         data_kept (minus st (locs C)) st') /\
  forall z nz, st !! z = Some (Some nz) -> n_parentNode nz <> Some x ->
    runs md (ixmlNode_removeChild st (Some x) (Some z) returnNode) (fun '(rc, r, st') =>
      rc = IXML_NOT_FOUND_ERR /\ r = None /\ st' = st).
Proof.
  intros Hd Hx HC. split; [by eapply removeChild_runs|]. intros z nz Hz Hp.
  destruct (dom_node _ _ _ _ _ Hd Hx) as (n & Hn & _). by eapply remove_not_child.
Qed.

(** [ixmlNode_isAncestor] tells whether the parent of the second node is
    the first node, is below it, or is a following sibling of the first node or
    below one; so it is true of every proper ancestor. *)
Theorem ixmlNode_isAncestor_correct md st par prev c a kc nx x n :
  tree_at st par prev (Some c) (Node c a kc nx) -> NoDup (locs (Node c a kc nx)) ->
  st !! x = Some (Some n) ->
  runs md (ixmlNode_isAncestor st (Some c) (Some x)) (fun b =>
    b = match n_parentNode n with
        | Some l => bool_decide (l ∈ nlocs (Node c a kc nx)) | None => false end) /\
  (x ∈ nlocs kc -> runs md (ixmlNode_isAncestor st (Some c) (Some x)) (fun b => b = true)).
Proof.
  intros Ht Hnd Hn. split; [by eapply isAncestor_runs|]. intros Hx. by eapply ancestor_found.
Qed.

(** C25: [ixmlNode_getElementsByTagName] and [ixmlNode_getElementsByTagNameNS]
    list, in document order, the elements among the node and what is below it
    whose name is the one that is searched for (their local name and namespace,
    where they have both); ["*"] stands for every name.  The node itself is
    listed too, and an element is left out when its list entry cannot be
    allocated, without any sign of it. *)
Theorem getElements_correct md st t ts x ks :
  dom_inv st (t :: ts) -> kids_of x t = Some ks ->
  ((forall l n, l ∈ x :: nlocs ks -> st !! l = Some (Some n) -> n_nodeType n = eELEMENT_NODE ->
     exists s, n_nodeName n = DStr s) ->
   forall tagname, runs md (ixmlNode_getElementsByTagName st (Some x) tagname []) (fun l => exists ms,
     l = Some <$> ms /\ ms `sublist_of` filter (is_named st tagname) (x :: nlocs ks) /\
     (md = Lucky -> ms = filter (is_named st tagname) (x :: nlocs ks)))) /\
  (forall namespaceURI localName,
   runs md (ixmlNode_getElementsByTagNameNS st (Some x) namespaceURI localName []) (fun l => exists ms,
     l = Some <$> ms /\
     ms `sublist_of` filter (is_named_ns st namespaceURI localName) (x :: nlocs ks) /\
     (md = Lucky -> ms = filter (is_named_ns st namespaceURI localName) (x :: nlocs ks)))).
Proof.
  intros Hd Hx. split.
  - intros Hnames tagname. by eapply tag_below.
  - intros uri local. by eapply ns_below.
Qed.

Lemma ex_at_hand : at_hand ex_st 5%positive ex_new ex_tree [] ex_kids.
Proof. split; [by eexists _, _|]. left. apply ex_dom. Qed.
Lemma ex_dom_tree : dom_inv ex_st [ex_tree].
Proof. apply (at_hand_dom _ _ _ _ _ _ ex_at_hand). Qed.

Lemma ixmlNode_appendChild_correct_witness :
  runs Total (ixmlNode_appendChild ex_st (Some 2%positive) (Some 5%positive)) (fun '(rc, st') =>
    rc = IXML_SUCCESS /\
    dom_inv st' [Node 1%positive [] (Node 2%positive [6%positive]
      (Node 3%positive [] Leaf (Node 4%positive [] Leaf ex_new)) Leaf) Leaf] /\
    data_kept (upd (set_ownerDocument (Some 1%positive)) (Some 5%positive) ex_st) st').
Proof.
  apply (ixmlNode_appendChild_correct Total ex_st 5%positive ex_new ex_tree [] 2%positive ex_kids
    (ex_node eELEMENT_NODE (cs "a") (Some 1%positive) (Some 3%positive) None None
      (Some 6%positive))
    (ex_node eELEMENT_NODE (cs "c") None None None None None));
    [apply ex_at_hand|reflexivity..].
Defined.

Lemma ixmlNode_insertBefore_correct_witness :
  runs Total (ixmlNode_insertBefore ex_st (Some 2%positive) (Some 5%positive) (Some 4%positive))
    (fun '(rc, st') => rc = IXML_SUCCESS /\
    dom_inv st' [Node 1%positive [] (Node 2%positive [6%positive]
      (Node 3%positive [] Leaf (Node 5%positive [] Leaf (Node 4%positive [] Leaf Leaf))) Leaf)
      Leaf] /\ data_kept ex_st st').
Proof.
  refine (proj1 (ixmlNode_insertBefore_correct Total ex_st 5%positive ex_new ex_tree [] 2%positive ex_kids
    (ex_node eELEMENT_NODE (cs "a") (Some 1%positive) (Some 3%positive) None None
      (Some 6%positive))
    (ex_node eELEMENT_NODE (cs "c") None None None None None) 4%positive
    (ex_node eTEXT_NODE TEXTNODENAME (Some 2%positive) None (Some 3%positive) None None)
    ex_at_hand eq_refl eq_refl eq_refl eq_refl _) _); [discriminate|right; by left].
Defined.

Lemma ixmlNode_replaceChild_correct_witness :
  runs Total (ixmlNode_replaceChild ex_st (Some 2%positive) (Some 5%positive) (Some 3%positive)
    true) (fun '(rc, r, st') => rc = IXML_SUCCESS /\ r = Some 3%positive /\
    dom_inv st' [Node 3%positive [] Leaf Leaf; Node 1%positive [] (Node 2%positive [6%positive]
      (Node 5%positive [] Leaf (Node 4%positive [] Leaf Leaf)) Leaf) Leaf] /\
    data_kept ex_st st').
Proof.
  apply (ixmlNode_replaceChild_correct Total ex_st 5%positive ex_new ex_tree [] 2%positive ex_kids
    (ex_node eELEMENT_NODE (cs "a") (Some 1%positive) (Some 3%positive) None None
      (Some 6%positive))
    (ex_node eELEMENT_NODE (cs "c") None None None None None) 3%positive
    (Node 3%positive [] Leaf Leaf));
    [apply ex_at_hand|reflexivity..|discriminate].
Defined.

Lemma ixmlNode_removeChild_correct_witness :
  runs Total (ixmlNode_removeChild ex_st (Some 1%positive) (Some 2%positive) false)
    (fun '(rc, r, st') => rc = IXML_SUCCESS /\ r = None /\
    dom_inv st' [Node 1%positive [] Leaf Leaf] /\
    data_kept (minus ex_st (locs (Node 2%positive [6%positive] ex_kids Leaf))) st').
Proof.
  apply (ixmlNode_removeChild_correct Total ex_st ex_tree [] 1%positive
    (Node 2%positive [6%positive] ex_kids Leaf) 2%positive
    (Node 2%positive [6%positive] ex_kids Leaf) false); [apply ex_dom_tree|reflexivity..].
Defined.

Lemma ixmlNode_isAncestor_correct_witness :
  runs Total (ixmlNode_isAncestor ex_st (Some 2%positive) (Some 4%positive)) (fun b => b = true).
Proof.
  eapply (ixmlNode_isAncestor_correct Total ex_st (Some 1%positive) None 2%positive [6%positive]
    ex_kids Leaf 4%positive).
  - solve_tree.
  - apply (bool_decide_unpack _). vm_compute. exact I.
  - reflexivity.
  - right. by left.
Defined.

Lemma getElements_correct_witness :
  runs Lucky (ixmlNode_getElementsByTagName ex_st (Some 1%positive) (cs "b") [])
    (fun l => l = [Some 3%positive]).
Proof.
  eapply runs_mono.
  - refine (proj1 (getElements_correct Lucky ex_st ex_tree [] 1%positive
      (Node 2%positive [6%positive] ex_kids Leaf) ex_dom_tree eq_refl) _ (cs "b")).
    intros l n Hl Hn _. cbn [nlocs ex_kids app] in Hl.
    repeat (apply elem_of_cons in Hl as [->|Hl]; [injection Hn as <-; eexists; reflexivity|]).
    by apply elem_of_nil in Hl.
  - intros l (ms & -> & _ & E). rewrite (E eq_refl). vm_compute. reflexivity.
Defined.

(** ** What is outside these theorems

    The preconditions of the theorems are needed: a node inserted below itself,
    before itself, or before [NULL], or cloned when memory runs out, breaks the
    documents, stops at an assertion or is freed twice. *)

Definition after {A} (f : nodes -> A) (m : M (Z * nodes)) : option (Z * A) :=
  match m [] with Ret (rc, st) _ => Some (rc, f st) | _ => None end.

(** The element becomes its own parent and its own child. *)
Fact appendChild_self :
  after (fun st => (fun n => (n_parentNode n, n_firstChild n)) <$> rdn st (Some 5%positive))
    (ixmlNode_appendChild ex_st (Some 5%positive) (Some 5%positive)) =
  Some (IXML_SUCCESS, Some (Some 5%positive, Some 5%positive)).
Proof. vm_compute. reflexivity. Qed.

(** The node becomes its own sibling, and the parent loses it. *)
Fact insertBefore_self :
  after (fun st => (n_nextSibling <$> rdn st (Some 3%positive),
                    n_firstChild <$> rdn st (Some 2%positive)))
    (ixmlNode_insertBefore ex_st (Some 2%positive) (Some 3%positive) (Some 3%positive)) =
  Some (IXML_SUCCESS, (Some (Some 3%positive), Some (Some 4%positive))).
Proof. vm_compute. reflexivity. Qed.

(** A node that is a child of another parent stays linked there: it is the
    first child of both. *)
Fact insertBefore_steals :
  after (fun st => (n_firstChild <$> rdn st (Some 1%positive), n_firstChild <$> rdn st (Some 2%positive)))
    (ixmlNode_insertBefore ex_st (Some 1%positive) (Some 3%positive) (Some 2%positive)) =
  Some (IXML_SUCCESS, (Some (Some 3%positive), Some (Some 3%positive))).
Proof. vm_compute. reflexivity. Qed.

(** [NULL] as the reference node stops at the assertion of [ixmlNode_isParent]. *)
Fact insertBefore_null :
  ixmlNode_insertBefore ex_st (Some 2%positive) (Some 5%positive) None [] = Abort Asserted.
Proof. vm_compute. reflexivity. Qed.

(** A node that is a child of another parent stays linked there. *)
Fact appendChild_steals :
  after (fun st => (n_nextSibling <$> rdn st (Some 3%positive),
                    n_parentNode <$> rdn st (Some 4%positive)))
    (ixmlNode_appendChild ex_st (Some 5%positive) (Some 4%positive)) =
  Some (IXML_SUCCESS, (Some (Some 4%positive), Some (Some 5%positive))).
Proof. vm_compute. reflexivity. Qed.

(** A node without children is its own last child. *)
Fact getLastChild_self :
  ixmlNode_getLastChild ex_st (Some 5%positive) [] = Ret (Some 5%positive) [].
Proof. vm_compute. reflexivity. Qed.

(** When the local name of a copy cannot be allocated the name is freed twice. *)
Fact cloneNode_double_free :
  ixmlNode_cloneNode ex_st (Some 4%positive) true [true; true; false] = UB.
Proof. vm_compute. reflexivity. Qed.

(** The copy of [<a><b/>text<c/></a>] ends at the text. *)
Fact cloneNode_loses_siblings :
  after (fun st => match ixmlNode_cloneNode st (Some 2%positive) true [] with
                   | Ret (r, st) _ =>
                       a ← rdn st r; b ← rdn st (n_firstChild a);
                       n_nextSibling <$> rdn st (n_nextSibling b)
                   | _ => None
                   end)
    (ixmlNode_appendChild ex_st (Some 2%positive) (Some 5%positive)) = Some (IXML_SUCCESS, Some None).
Proof. vm_compute. reflexivity. Qed.
