(* ===== verification/IxmlDocument.v ===== *)
(** Documents, elements and attributes: [ixml/src/document.c],
    [ixml/src/element.c], [ixml/src/attr.c] and [ixml/src/namedNodeMap.c].

    A string argument is a [DOMString], so that it can be [NULL].  A pointer
    argument the result is stored through is the flag [rtAttr] (whether it is
    given); what is stored is part of the result, [None] when nothing is.  The
    debug output of the error paths is left out. *)

From S2P Require Import Prelude CString FreeList XmlChars IxmlNode.

Implicit Types (st : nodes) (doc element newAttr : ptr) (name value : DOMString).

Definition nonnull (d : DOMString) : bool := negb (is_null d).
Definition IXML_INVALID_ITEM_NUMBER : Z := 107.

(** ** Creation: [document.c] *)

(** [malloc] of a node followed by its [_init] function. *)
Definition alloc_node (x : IXML_ext) st : M (ptr * nodes) :=
  '(p, st) ← malloc_node st;
  match p with
  | None => mret (None, st)
  | Some _ => st ← liftO (init_node x st p); mret (p, st)
  end.

(** Store a copy of [v] in a field of a new node; when there is no memory for
    it the node is freed. *)
Definition store_copy (set : DOMString -> IXML_Node -> IXML_Node) st node (v : list Z)
    : M (bool * nodes) :=
  d ← strdup v;
  st ← liftO (wrn st node (set d));
  if is_null d then st ← ixmlNode_free st node; mret (false, st) else mret (true, st).

Definition no_memory st : M (Z * ptr * nodes) := mret (IXML_INSUFFICIENT_MEMORY, None, st).

Definition set_tagName (d : DOMString) (n : IXML_Node) : IXML_Node := set_ext (XElement d) n.

Definition ixmlDocument_createElementEx st doc (tagName : DOMString) : M (Z * ptr * nodes) :=
  if bool_decide (doc = None) || is_null tagName
  then mret (IXML_INVALID_PARAMETER, None, st)
  else
  '(newElement, st) ← alloc_node (XElement DNull) st;
  if bool_decide (newElement = None) then no_memory st
  else
  tag ← liftO (str_of tagName);
  '(ok, st) ← store_copy set_tagName st newElement tag;
  if negb ok then no_memory st
  else
  st ← liftO (wrn st newElement (set_nodeType eELEMENT_NODE));
  d ← strdup tag;
  st ← liftO (wrn st newElement (set_nodeName d));
  if is_null d then
    (* free(newElement->tagName) *)
    st ← liftO (wrn st newElement (set_tagName DFreed));
    st ← ixmlElement_free st newElement;
    no_memory st
  else
    st ← liftO (wrn st newElement (set_ownerDocument doc));
    mret (IXML_SUCCESS, newElement, st).

Definition ixmlDocument_createElement st doc (tagName : DOMString) : M (ptr * nodes) :=
  '(ret, newElement, st) ← ixmlDocument_createElementEx st doc tagName;
  mret (if ret =? IXML_SUCCESS then newElement else None, st).

Definition ixmlDocument_createDocumentEx st : M (Z * ptr * nodes) :=
  '(doc, st) ← alloc_node XNode st;
  if bool_decide (doc = None) then no_memory st
  else
  '(ok, st) ← store_copy set_nodeName st doc DOCUMENTNODENAME;
  if negb ok then no_memory st
  else
    st ← liftO (wrn st doc (fun n =>
           set_ownerDocument doc (set_nodeType eDOCUMENT_NODE n)));
    mret (IXML_SUCCESS, doc, st).
Definition ixmlDocument_createDocument st : M (ptr * nodes) :=
  '(_, doc, st) ← ixmlDocument_createDocumentEx st; mret (doc, st).

Definition ixmlDocument_createTextNodeEx st doc (data : DOMString) : M (Z * ptr * nodes) :=
  if bool_decide (doc = None) || is_null data
  then mret (IXML_INVALID_PARAMETER, None, st)
  else
  '(returnNode, st) ← alloc_node XNode st;
  if bool_decide (returnNode = None) then no_memory st
  else
  '(ok, st) ← store_copy set_nodeName st returnNode TEXTNODENAME;
  if negb ok then no_memory st
  else
  v ← liftO (str_of data);
  '(ok, st) ← store_copy set_nodeValue st returnNode v;
  if negb ok then no_memory st
  else
    st ← liftO (wrn st returnNode (fun n =>
           set_ownerDocument doc (set_nodeType eTEXT_NODE n)));
    mret (IXML_SUCCESS, returnNode, st).
Definition ixmlDocument_createTextNode st doc (data : DOMString) : M (ptr * nodes) :=
  '(_, node, st) ← ixmlDocument_createTextNodeEx st doc data; mret (node, st).

(** The block is freed before it was initialised when an argument is [NULL]. *)
Definition ixmlDocument_createAttributeEx st doc name : M (Z * ptr * nodes) :=
  '(attrNode, st) ← malloc_node st;
  if bool_decide (attrNode = None) then no_memory st
  else
  if bool_decide (doc = None) || is_null name then
    st ← ixmlAttr_free st attrNode;
    mret (IXML_INVALID_PARAMETER, None, st)
  else
  st ← liftO (init_node (XAttr 0 None) st attrNode);
  st ← liftO (wrn st attrNode (set_nodeType eATTRIBUTE_NODE));
  v ← liftO (str_of name);
  '(ok, st) ← store_copy set_nodeName st attrNode v;
  if negb ok then no_memory st
  else
    st ← liftO (wrn st attrNode (set_ownerDocument doc));
    mret (IXML_SUCCESS, attrNode, st).
Definition ixmlDocument_createAttribute st doc name : M (ptr * nodes) :=
  '(rc, attrNode, st) ← ixmlDocument_createAttributeEx st doc name;
  mret (if rc =? IXML_SUCCESS then attrNode else None, st).

(** The namespace and the qualified name of a new node. *)
Definition ixmlDocument_createAttributeNSEx st doc (namespaceURI qualifiedName : DOMString)
    : M (Z * ptr * nodes) :=
  if bool_decide (doc = None) || is_null namespaceURI || is_null qualifiedName
  then mret (IXML_INVALID_PARAMETER, None, st)
  else
  '(errCode, attrNode, st) ← ixmlDocument_createAttributeEx st doc qualifiedName;
  if negb (errCode =? IXML_SUCCESS) then mret (errCode, attrNode, st)
  else
  uri ← liftO (str_of namespaceURI);
  '(ok, st) ← store_copy set_namespaceURI st attrNode uri;
  if negb ok then no_memory st
  else
  '(errCode, st) ← ixmlNode_setNodeName st attrNode qualifiedName;
  if negb (errCode =? IXML_SUCCESS) then
    st ← ixmlAttr_free st attrNode; mret (errCode, None, st)
  else mret (IXML_SUCCESS, attrNode, st).
Definition ixmlDocument_createAttributeNS st doc (namespaceURI qualifiedName : DOMString)
    : M (ptr * nodes) :=
  '(_, attrNode, st) ← ixmlDocument_createAttributeNSEx st doc namespaceURI qualifiedName;
  mret (attrNode, st).

Definition ixmlDocument_createCDATASectionEx st doc (data : DOMString) : M (Z * ptr * nodes) :=
  if bool_decide (doc = None) || is_null data
  then mret (IXML_INVALID_PARAMETER, None, st)
  else
  '(cDSectionNode, st) ← alloc_node XNode st;
  if bool_decide (cDSectionNode = None) then no_memory st
  else
  st ← liftO (wrn st cDSectionNode (set_nodeType eCDATA_SECTION_NODE));
  '(ok, st) ← store_copy set_nodeName st cDSectionNode CDATANODENAME;
  if negb ok then no_memory st
  else
  v ← liftO (str_of data);
  '(ok, st) ← store_copy set_nodeValue st cDSectionNode v;
  if negb ok then no_memory st
  else
    st ← liftO (wrn st cDSectionNode (set_ownerDocument doc));
    mret (IXML_SUCCESS, cDSectionNode, st).
Definition ixmlDocument_createCDATASection st doc (data : DOMString) : M (ptr * nodes) :=
  '(_, node, st) ← ixmlDocument_createCDATASectionEx st doc data; mret (node, st).

Definition ixmlDocument_createElementNSEx st doc (namespaceURI qualifiedName : DOMString)
    : M (Z * ptr * nodes) :=
  if bool_decide (doc = None) || is_null namespaceURI || is_null qualifiedName
  then mret (IXML_INVALID_PARAMETER, None, st)
  else
  '(ret, newElement, st) ← ixmlDocument_createElementEx st doc qualifiedName;
  if negb (ret =? IXML_SUCCESS) then mret (ret, newElement, st)
  else
  uri ← liftO (str_of namespaceURI);
  '(ok, st) ← store_copy set_namespaceURI st newElement uri;
  if negb ok then no_memory st
  else
  '(ret, st) ← ixmlNode_setNodeName st newElement qualifiedName;
  if negb (ret =? IXML_SUCCESS) then
    st ← ixmlElement_free st newElement; no_memory st
  else
    st ← liftO (wrn st newElement (set_nodeValue DNull));
    mret (IXML_SUCCESS, newElement, st).
Definition ixmlDocument_createElementNS st doc (namespaceURI qualifiedName : DOMString)
    : M (ptr * nodes) :=
  '(_, newElement, st) ← ixmlDocument_createElementNSEx st doc namespaceURI qualifiedName;
  mret (newElement, st).

(** ** Import and search: [document.c] *)

Fixpoint set_owner (fuel : nat) st doc (nodeptr : ptr) : M nodes :=
  match fuel with
  | O => running
  | S fuel' =>
      match nodeptr with
      | None => mret st
      | Some _ =>
          st ← liftO (wrn st nodeptr (set_ownerDocument doc));
          n ← liftO (rdn st nodeptr);
          st ← set_owner fuel' st doc (n_firstChild n);
          n ← liftO (rdn st nodeptr);
          set_owner fuel' st doc (n_nextSibling n)
      end
  end.
Definition ixmlDocument_setOwnerDocument st doc (nodeptr : ptr) : M nodes :=
  set_owner (S (size st)) st doc nodeptr.

Definition ixmlDocument_importNode st doc (importNode : ptr) (deep : bool)
    : M (Z * ptr * nodes) :=
  if bool_decide (doc = None) || bool_decide (importNode = None)
  then mret (IXML_INVALID_PARAMETER, None, st)
  else
  nodeType ← liftO (ixmlNode_getNodeType st importNode);
  if bool_decide (nodeType = eDOCUMENT_NODE) then mret (IXML_NOT_SUPPORTED_ERR, None, st)
  else
  '(newNode, st) ← ixmlNode_cloneNode st importNode deep;
  if bool_decide (newNode = None) then mret (IXML_FAILED, None, st)
  else
    st ← ixmlDocument_setOwnerDocument st doc newNode;
    mret (IXML_SUCCESS, newNode, st).

Definition ixmlDocument_getElementsByTagName st doc (tagName : DOMString) : M IXML_NodeList :=
  if bool_decide (doc = None) || is_null tagName then mret []
  else t ← liftO (str_of tagName); ixmlNode_getElementsByTagName st doc t [].
Definition ixmlDocument_getElementsByTagNameNS st doc (namespaceURI localName : DOMString)
    : M IXML_NodeList :=
  if bool_decide (doc = None) || is_null namespaceURI || is_null localName then mret []
  else
    u ← liftO (str_of namespaceURI); l ← liftO (str_of localName);
    ixmlNode_getElementsByTagNameNS st doc u l [].

Fixpoint element_by_id (fuel : nat) st (nodeptr : ptr) (tagName : list Z) : M ptr :=
  match fuel with
  | O => running
  | S fuel' =>
      match nodeptr with
      | None => mret None
      | Some _ =>
          n ← liftO (rdn st nodeptr);
          let descend :=
            rtElement ← element_by_id fuel' st (n_firstChild n) tagName;
            if bool_decide (rtElement = None)
            then element_by_id fuel' st (n_nextSibling n) tagName
            else mret rtElement in
          match n_nodeType n with
          | eELEMENT_NODE =>
              if is_null (n_nodeName n) then mret None
              else
                nm ← liftO (str_of (n_nodeName n));
                if strcmp_eq tagName nm then mret nodeptr else descend
          | _ => descend
          end
      end
  end.
Definition ixmlDocument_getElementById st doc (tagName : DOMString) : M ptr :=
  if bool_decide (doc = None) || is_null tagName then mret None
  else t ← liftO (str_of tagName); element_by_id (S (size st)) st doc t.

(** ** Attributes: [element.c] *)

Definition ixmlElement_init st element : option nodes :=
  match element with None => Some st | Some _ => init_node (XElement DNull) st element end.
Definition ixmlAttr_init st (attr : ptr) : option nodes :=
  match attr with None => Some st | Some _ => init_node (XAttr 0 None) st attr end.

Definition ixmlElement_getTagName st element : option DOMString :=
  match element with
  | None => Some DNull
  | Some _ =>
      n ← rdn st element;
      match n_ext n with XElement tagName => Some tagName | _ => None end
  end.

(** The loop over the attributes: the first that passes the test. *)
Fixpoint find_attr (test : IXML_Node -> option bool) (fuel : nat) st (attrNode : ptr) : M ptr :=
  match fuel with
  | O => running
  | S fuel' =>
      match attrNode with
      | None => mret None
      | Some _ =>
          n ← liftO (rdn st attrNode);
          b ← liftO (test n);
          if b : bool then mret attrNode else find_attr test fuel' st (n_nextSibling n)
      end
  end.
Definition attr_where (test : IXML_Node -> option bool) st element : M ptr :=
  n ← liftO (rdn st element); find_attr test (S (size st)) st (n_firstAttr n).

(** [strcmp(attrNode->nodeName, name) == 0]. *)
Definition named (name : list Z) (n : IXML_Node) : option bool :=
  a ← str_of (n_nodeName n); Some (strcmp_eq a name).
(** The same on the local name and, when these agree, the namespace. *)
Definition named_NS (namespaceURI localName : list Z) (n : IXML_Node) : option bool :=
  l ← str_of (n_localName n);
  if strcmp_eq l localName then
    u ← str_of (n_namespaceURI n); Some (strcmp_eq u namespaceURI)
  else Some false.

(** The value of the attribute found. *)
Definition value_of st (attrNode : ptr) : M DOMString :=
  match attrNode with
  | None => mret DNull
  | Some _ => n ← liftO (rdn st attrNode); mret (n_nodeValue n)
  end.

Definition ixmlElement_getAttribute st element name : M DOMString :=
  if bool_decide (element = None) || is_null name then mret DNull
  else
    nm ← liftO (str_of name);
    attrNode ← attr_where (named nm) st element;
    value_of st attrNode.
Definition ixmlElement_getAttributeNS st element (namespaceURI localName : DOMString)
    : M DOMString :=
  if bool_decide (element = None) || is_null namespaceURI || is_null localName then mret DNull
  else
    u ← liftO (str_of namespaceURI); l ← liftO (str_of localName);
    attrNode ← attr_where (named_NS u l) st element;
    value_of st attrNode.

Definition ixmlElement_getAttributeNode st element name : M ptr :=
  if bool_decide (element = None) || is_null name then mret None
  else nm ← liftO (str_of name); attr_where (named nm) st element.
Definition ixmlElement_getAttributeNodeNS st element (namespaceURI localName : DOMString)
    : M ptr :=
  if bool_decide (element = None) || is_null namespaceURI || is_null localName then mret None
  else
    u ← liftO (str_of namespaceURI); l ← liftO (str_of localName);
    attr_where (named_NS u l) st element.

Definition ixmlElement_hasAttribute st element name : M bool :=
  attr ← ixmlElement_getAttributeNode st element name; mret (bool_decide (attr <> None)).
Definition ixmlElement_hasAttributeNS st element (namespaceURI localName : DOMString) : M bool :=
  attr ← ixmlElement_getAttributeNodeNS st element namespaceURI localName;
  mret (bool_decide (attr <> None)).

(** The value of the attribute found is freed. *)
Definition clear_value st (attrNode : ptr) : M nodes :=
  match attrNode with
  | None => mret st
  | Some _ =>
      n ← liftO (rdn st attrNode);
      _ ← liftO (free_str (n_nodeValue n));
      liftO (wrn st attrNode (set_nodeValue DNull))
  end.
Definition ixmlElement_removeAttribute st element name : M (Z * nodes) :=
  if bool_decide (element = None) || is_null name then mret (IXML_INVALID_PARAMETER, st)
  else
    nm ← liftO (str_of name);
    attrNode ← attr_where (named nm) st element;
    st ← clear_value st attrNode;
    mret (IXML_SUCCESS, st).
Definition ixmlElement_removeAttributeNS st element (namespaceURI localName : DOMString)
    : M (Z * nodes) :=
  if bool_decide (element = None) || is_null namespaceURI || is_null localName
  then mret (IXML_INVALID_PARAMETER, st)
  else
    u ← liftO (str_of namespaceURI); l ← liftO (str_of localName);
    attrNode ← attr_where (named_NS u l) st element;
    st ← clear_value st attrNode;
    mret (IXML_SUCCESS, st).

(** The element takes [node] in the place of its attribute [attrNode]; the
    links of [node] itself are not set. *)
Definition relink_attr st element (attrNode node : ptr) : option nodes :=
  a ← rdn st attrNode;
  st ← match n_prevSibling a with
       | Some preSib => wrn st (Some preSib) (set_nextSibling node)
       | None => Some st
       end;
  st ← match n_nextSibling a with
       | Some nextSib => wrn st (Some nextSib) (set_prevSibling node)
       | None => Some st
       end;
  e ← rdn st element;
  if bool_decide (n_firstAttr e = attrNode) then wrn st element (set_firstAttr node) else Some st.

(** [node] becomes the first attribute of an element without attributes. *)
Definition first_attr st element (node : ptr) : option nodes :=
  st ← wrn st element (set_firstAttr node);
  wrn st node (fun n => set_nextSibling None (set_prevSibling None n)).

Definition owner_of (n : IXML_Node) : option ptr :=
  match n_ext n with XAttr _ ownerElement => Some ownerElement | _ => None end.
Definition set_ownerElement (element : ptr) (n : IXML_Node) : IXML_Node :=
  match n_ext n with XAttr s _ => set_ext (XAttr s element) n | _ => n end.

Definition ixmlElement_setAttributeNode st element newAttr (rtAttr : bool)
    : M (Z * option ptr * nodes) :=
  if bool_decide (element = None) || bool_decide (newAttr = None)
  then mret (IXML_INVALID_PARAMETER, None, st)
  else
  a ← liftO (rdn st newAttr);
  e ← liftO (rdn st element);
  if bool_decide (n_ownerDocument a <> n_ownerDocument e)
  then mret (IXML_WRONG_DOCUMENT_ERR, None, st)
  else
  ownerElement ← liftO (owner_of a);
  if bool_decide (ownerElement <> None) then mret (IXML_INUSE_ATTRIBUTE_ERR, None, st)
  else
  st ← liftO (wrn st newAttr (set_ownerElement element));
  attrNode ← attr_where (fun n =>
      x ← str_of (n_nodeName n); y ← str_of (n_nodeName a); Some (strcmp_eq x y)) st element;
  match attrNode with
  | Some _ =>
      st ← liftO (relink_attr st element attrNode newAttr);
      if rtAttr then mret (IXML_SUCCESS, Some attrNode, st)
      else st ← ixmlAttr_free st attrNode; mret (IXML_SUCCESS, None, st)
  | None =>
      e ← liftO (rdn st element);
      st ← match n_firstAttr e with
           | Some _ =>
               f ← liftO (rdn st (n_firstAttr e));
               prevAttr ← last_along n_nextSibling (S (size st)) st (n_firstAttr e)
                            (n_nextSibling f);
               st ← liftO (wrn st prevAttr (set_nextSibling newAttr));
               liftO (wrn st newAttr (set_prevSibling prevAttr))
           | None => liftO (first_attr st element newAttr)
           end;
      mret (IXML_SUCCESS, if rtAttr then Some None else None, st)
  end.

Definition ixmlElement_setAttributeNodeNS st element newAttr (rtAttr : bool)
    : M (Z * option ptr * nodes) :=
  if bool_decide (element = None) || bool_decide (newAttr = None)
  then mret (IXML_INVALID_PARAMETER, None, st)
  else
  a ← liftO (rdn st newAttr);
  e ← liftO (rdn st element);
  if bool_decide (n_ownerDocument a <> n_ownerDocument e)
  then mret (IXML_WRONG_DOCUMENT_ERR, None, st)
  else
  ownerElement ← liftO (owner_of a);
  if bool_decide (ownerElement <> None) && bool_decide (ownerElement <> element)
  then mret (IXML_INUSE_ATTRIBUTE_ERR, None, st)
  else
  st ← liftO (wrn st newAttr (set_ownerElement element));
  attrNode ← attr_where (fun n =>
      x ← str_of (n_localName n); y ← str_of (n_localName a);
      if strcmp_eq x y then
        x ← str_of (n_namespaceURI n); y ← str_of (n_namespaceURI a); Some (strcmp_eq x y)
      else Some false) st element;
  match attrNode with
  | Some _ =>
      st ← liftO (relink_attr st element attrNode newAttr);
      (* stored through the pointer without testing it *)
      if rtAttr then mret (IXML_SUCCESS, Some attrNode, st) else undefined
  | None =>
      e ← liftO (rdn st element);
      st ← match n_firstAttr e with
           | Some _ =>
               f ← liftO (rdn st (n_firstAttr e));
               prevAttr ← last_along n_nextSibling (S (size st)) st (n_firstAttr e)
                            (n_nextSibling f);
               liftO (wrn st prevAttr (set_nextSibling newAttr))
           | None => liftO (first_attr st element newAttr)
           end;
      mret (IXML_SUCCESS, if rtAttr then Some None else None, st)
  end.

(** [value] replaces the value of the attribute. *)
Definition replace_value st (attrNode : ptr) (value : list Z) : M (bool * nodes) :=
  n ← liftO (rdn st attrNode);
  _ ← liftO (free_str (n_nodeValue n));
  d ← strdup value;
  st ← liftO (wrn st attrNode (set_nodeValue d));
  mret (nonnull d, st).

Definition ixmlElement_setAttribute st element name value : M (Z * nodes) :=
  if bool_decide (element = None) || is_null name || is_null value
  then mret (IXML_INVALID_PARAMETER, st)
  else
  nm ← liftO (str_of name);
  v ← liftO (str_of value);
  valid ← liftO (Parser_isValidXmlName nm);
  if negb valid then mret (IXML_INVALID_CHARACTER_ERR, st)
  else
  attrNode ← attr_where (named nm) st element;
  match attrNode with
  | None =>
      e ← liftO (rdn st element);
      '(errCode, newAttrNode, st) ←
        ixmlDocument_createAttributeEx st (n_ownerDocument e) name;
      if negb (errCode =? IXML_SUCCESS) then mret (errCode, st)
      else
      '(ok, st) ← store_copy set_nodeValue st newAttrNode v;
      if negb ok then mret (IXML_INSUFFICIENT_MEMORY, st)
      else
      '(errCode, _, st) ← ixmlElement_setAttributeNode st element newAttrNode false;
      if negb (errCode =? IXML_SUCCESS) then
        st ← ixmlAttr_free st newAttrNode; mret (errCode, st)
      else mret (IXML_SUCCESS, st)
  | Some _ =>
      '(ok, st) ← replace_value st attrNode v;
      mret (if ok : bool then IXML_SUCCESS else IXML_INSUFFICIENT_MEMORY, st)
  end.

Definition XML_NS : list Z := Eval vm_compute in cs "http://www.w3.org/XML/1998/namespace".
Definition XMLNS_NS : list Z := Eval vm_compute in cs "http://www.w3.org/2000/xmlns/".

(** The names that the namespaces of the DOM specification reserve. *)
Definition bad_namespace (prefix : DOMString) (namespaceURI qualifiedName : list Z) : option bool :=
  b ← (if nonnull prefix then
         p ← str_of prefix;
         Some (strcmp_eq p (cs "xml") && negb (strcmp_eq namespaceURI XML_NS))
       else Some false);
  Some (b || (strcmp_eq qualifiedName (cs "xmlns") && negb (strcmp_eq namespaceURI XMLNS_NS))).

(** The prefix and the value of the attribute found are replaced. *)
Definition replace_NS st (attrNode : ptr) (prefix : DOMString) (value : list Z) : M (Z * nodes) :=
  n ← liftO (rdn st attrNode);
  _ ← liftO (free_str (n_prefix n));
  d ← (if nonnull prefix then strdup_of prefix else mret DNull);
  st ← liftO (wrn st attrNode (set_prefix d));
  if nonnull prefix && is_null d then mret (IXML_INSUFFICIENT_MEMORY, st)
  else
  '(ok, st) ← replace_value st attrNode value;
  if ok : bool then mret (IXML_SUCCESS, st)
  else
    n ← liftO (rdn st attrNode);
    _ ← liftO (free_str (n_prefix n));
    st ← liftO (wrn st attrNode (fun n =>
           set_prefix (if is_null (n_prefix n) then DNull else DFreed) n));
    mret (IXML_INSUFFICIENT_MEMORY, st).

(** A new attribute with a namespace. *)
Definition add_NS st element (namespaceURI qualifiedName : DOMString) (value : list Z)
    : M (Z * nodes) :=
  e ← liftO (rdn st element);
  '(rc, newAttr, st) ←
    ixmlDocument_createAttributeNSEx st (n_ownerDocument e) namespaceURI qualifiedName;
  if negb (rc =? IXML_SUCCESS) then mret (rc, st)
  else
  '(ok, st) ← store_copy set_nodeValue st newAttr value;
  if negb ok then mret (IXML_INSUFFICIENT_MEMORY, st)
  else
  '(rc, _, st) ← ixmlElement_setAttributeNodeNS st element newAttr true;
  if negb (rc =? IXML_SUCCESS) then
    st ← ixmlAttr_free st newAttr; mret (IXML_FAILED, st)
  else mret (IXML_SUCCESS, st).

Definition ixmlElement_setAttributeNS st element (namespaceURI qualifiedName value : DOMString)
    : M (Z * nodes) :=
  if bool_decide (element = None) || is_null namespaceURI || is_null qualifiedName
     || is_null value
  then mret (IXML_INVALID_PARAMETER, st)
  else
  u ← liftO (str_of namespaceURI);
  q ← liftO (str_of qualifiedName);
  v ← liftO (str_of value);
  valid ← liftO (Parser_isValidXmlName q);
  if negb valid then mret (IXML_INVALID_CHARACTER_ERR, st)
  else
  d ← strdup q;
  if is_null d then mret (IXML_INSUFFICIENT_MEMORY, st)
  else
  '(rc, newAttrNode) ← Parser_setNodePrefixAndLocalName (set_nodeName d (zero_node XNode));
  '(rc, st) ←
    (if negb (rc =? IXML_SUCCESS) then mret (rc, st)
     else
       bad ← liftO (bad_namespace (n_prefix newAttrNode) u q);
       if bad : bool then mret (IXML_NAMESPACE_ERR, st)
       else
         l ← liftO (str_of (n_localName newAttrNode));
         attrNode ← attr_where (named_NS u l) st element;
         match attrNode with
         | Some _ => replace_NS st attrNode (n_prefix newAttrNode) v
         | None => add_NS st element namespaceURI qualifiedName v
         end);
  _ ← liftO (Parser_freeNodeContent newAttrNode);
  mret (rc, st).

Fixpoint find_same (fuel : nat) st (attrNode oldAttr : ptr) : M ptr :=
  match fuel with
  | O => running
  | S fuel' =>
      match attrNode with
      | None => mret None
      | Some _ =>
          b ← ixmlNode_compare st attrNode oldAttr;
          if b : bool then mret attrNode
          else n ← liftO (rdn st attrNode); find_same fuel' st (n_nextSibling n) oldAttr
      end
  end.
Definition ixmlElement_findAttributeNode st element (oldAttr : ptr) : M ptr :=
  _ ← assertM (bool_decide (element <> None) && bool_decide (oldAttr <> None));
  n ← liftO (rdn st element);
  find_same (S (size st)) st (n_firstAttr n) oldAttr.

(** The links of an attribute that leaves its element. *)
Definition unlink_attr st element (attrNode : ptr) : option nodes :=
  a ← rdn st attrNode;
  st ← match n_prevSibling a with
       | Some preSib => wrn st (Some preSib) (set_nextSibling (n_nextSibling a))
       | None => Some st
       end;
  st ← match n_nextSibling a with
       | Some nextSib => wrn st (Some nextSib) (set_prevSibling (n_prevSibling a))
       | None => Some st
       end;
  e ← rdn st element;
  st ← (if bool_decide (n_firstAttr e = attrNode)
        then wrn st element (set_firstAttr (n_nextSibling a)) else Some st);
  wrn st attrNode (fun n =>
    set_nextSibling None (set_prevSibling None (set_parentNode None n))).

Definition ixmlElement_removeAttributeNode st element (oldAttr : ptr) (rtAttr : bool)
    : M (Z * option ptr * nodes) :=
  if bool_decide (element = None) || bool_decide (oldAttr = None)
  then mret (IXML_INVALID_PARAMETER, None, st)
  else
  attrNode ← ixmlElement_findAttributeNode st element oldAttr;
  match attrNode with
  | Some _ =>
      st ← liftO (unlink_attr st element attrNode);
      if rtAttr then mret (IXML_SUCCESS, Some attrNode, st) else undefined
  | None => mret (IXML_NOT_FOUND_ERR, None, st)
  end.

Definition ixmlElement_getElementsByTagName st element (tagName : DOMString) : M IXML_NodeList :=
  if bool_decide (element = None) || is_null tagName then mret []
  else t ← liftO (str_of tagName); ixmlNode_getElementsByTagName st element t [].
Definition ixmlElement_getElementsByTagNameNS st element (namespaceURI localName : DOMString)
    : M IXML_NodeList :=
  if bool_decide (element = None) || is_null namespaceURI || is_null localName then mret []
  else
    u ← liftO (str_of namespaceURI); l ← liftO (str_of localName);
    ixmlNode_getElementsByTagNameNS st element u l [].

(** ** Named node maps: [namedNodeMap.c]

    A map is the list of its items.  [getItemNumber], [item] and [getLength]
    follow the [nextSibling] links of the first item, not the map. *)

Definition nodeItem (nnMap : IXML_NodeList) : ptr := mjoin (head nnMap).

Fixpoint item_number (fuel : nat) st (tempNode : ptr) (name : list Z) (returnItemNo : Z) : M Z :=
  match fuel with
  | O => running
  | S fuel' =>
      match tempNode with
      | None => mret IXML_INVALID_ITEM_NUMBER
      | Some _ =>
          n ← liftO (rdn st tempNode);
          b ← liftO (named name n);
          if b : bool then mret returnItemNo
          else item_number fuel' st (n_nextSibling n) name (to_size (returnItemNo + 1))
      end
  end.
Definition ixmlNamedNodeMap_getItemNumber st (nnMap : IXML_NodeList) name : M Z :=
  _ ← assertM (bool_decide (nnMap <> []) && nonnull name);
  nm ← liftO (str_of name);
  item_number (S (size st)) st (nodeItem nnMap) nm 0.

Fixpoint count_siblings (fuel : nat) st (tempNode : ptr) (length : Z) : M Z :=
  match fuel with
  | O => running
  | S fuel' =>
      match tempNode with
      | None => mret length
      | Some _ =>
          n ← liftO (rdn st tempNode);
          count_siblings fuel' st (n_nextSibling n) (to_size (length + 1))
      end
  end.
Definition ixmlNamedNodeMap_getLength st (nnMap : IXML_NodeList) : M Z :=
  match nnMap with
  | [] => mret 0
  | _ => count_siblings (S (size st)) st (nodeItem nnMap) 0
  end.

(** [i] is an [unsigned int]. *)
Fixpoint skip_siblings (fuel : nat) st (tempNode : ptr) (i index : Z) : M ptr :=
  match fuel with
  | O => running
  | S fuel' =>
      match tempNode with
      | Some _ =>
          if i <? index then
            n ← liftO (rdn st tempNode);
            skip_siblings fuel' st (n_nextSibling n) (to_uint (i + 1)) index
          else mret tempNode
      | None => mret None
      end
  end.
Definition ixmlNamedNodeMap_item st (nnMap : IXML_NodeList) (index : Z) : M ptr :=
  match nnMap with
  | [] => mret None
  | _ =>
      length ← ixmlNamedNodeMap_getLength st nnMap;
      if to_size (length - 1) <? index then mret None
      else skip_siblings (S (size st)) st (nodeItem nnMap) 0 index
  end.

Definition ixmlNamedNodeMap_getNamedItem st (nnMap : IXML_NodeList) name : M ptr :=
  if bool_decide (nnMap = []) || is_null name then mret None
  else
    index ← ixmlNamedNodeMap_getItemNumber st nnMap name;
    if index =? IXML_INVALID_ITEM_NUMBER then mret None
    else ixmlNamedNodeMap_item st nnMap index.
