(* ===== verification/XmlParser.v ===== *)
(** The XML parser: [ixml/src/ixmlparser.c] with [ixml/src/ixmlmembuf.c].

    A pointer into the text is the list of the characters from it to the
    terminating NUL; a pointer behind the NUL, or reading there, is undefined.
    The node the parser fills before it builds the document ([newNode]) is a
    local variable, so a value here; the document itself lives in the store.
    The stack of the open elements and the lists of namespaces are owned by the
    parser and are lists.  [g_error_char] is the global of that name. *)

From S2P Require Import Prelude CString MemBuffer FreeList XmlChars IxmlNode IxmlDocument.

Definition IXML_INDEX_SIZE_ERR : Z := 1.
Definition IXML_NO_SUCH_FILE : Z := 101.
Definition IXML_FILE_DONE : Z := 104.

(** ** Data *)

Record IXML_NamespaceURI := MkNs { ns_nsURI : DOMString; ns_prefix : DOMString }.

Record IXML_ElementStack := MkElem {
  es_element : DOMString;
  es_prefix : DOMString;
  es_namespaceUri : DOMString;
  es_pNsURI : list IXML_NamespaceURI
}.

Inductive PARSER_STATE := eELEMENT | eATTRIBUTE | eCONTENT.
#[global] Instance PARSER_STATE_eq_dec : EqDecision PARSER_STATE.
Proof. solve_decision. Defined.

Abbreviation text := (list Z).

Record Parser := MkParser {
  px_dataBuffer : option text;
  px_curPtr : text;
  px_savePtr : option text;
  px_lastElem : membuffer;
  px_tokenBuf : membuffer;
  px_pNeedPrefixNode : ptr;
  px_pCurElement : list IXML_ElementStack;
  px_currentNodePtr : ptr;
  px_state : PARSER_STATE;
  px_bHasTopLevel : bool
}.

Definition set_curPtr (v : text) (p : Parser) : Parser :=
  MkParser (px_dataBuffer p) v (px_savePtr p) (px_lastElem p) (px_tokenBuf p)
    (px_pNeedPrefixNode p) (px_pCurElement p) (px_currentNodePtr p) (px_state p)
    (px_bHasTopLevel p).
Definition set_savePtr (v : option text) (p : Parser) : Parser :=
  MkParser (px_dataBuffer p) (px_curPtr p) v (px_lastElem p) (px_tokenBuf p)
    (px_pNeedPrefixNode p) (px_pCurElement p) (px_currentNodePtr p) (px_state p)
    (px_bHasTopLevel p).
Definition set_lastElem (v : membuffer) (p : Parser) : Parser :=
  MkParser (px_dataBuffer p) (px_curPtr p) (px_savePtr p) v (px_tokenBuf p)
    (px_pNeedPrefixNode p) (px_pCurElement p) (px_currentNodePtr p) (px_state p)
    (px_bHasTopLevel p).
Definition set_tokenBuf (v : membuffer) (p : Parser) : Parser :=
  MkParser (px_dataBuffer p) (px_curPtr p) (px_savePtr p) (px_lastElem p) v
    (px_pNeedPrefixNode p) (px_pCurElement p) (px_currentNodePtr p) (px_state p)
    (px_bHasTopLevel p).
Definition set_pNeedPrefixNode (v : ptr) (p : Parser) : Parser :=
  MkParser (px_dataBuffer p) (px_curPtr p) (px_savePtr p) (px_lastElem p) (px_tokenBuf p)
    v (px_pCurElement p) (px_currentNodePtr p) (px_state p) (px_bHasTopLevel p).
Definition set_pCurElement (v : list IXML_ElementStack) (p : Parser) : Parser :=
  MkParser (px_dataBuffer p) (px_curPtr p) (px_savePtr p) (px_lastElem p) (px_tokenBuf p)
    (px_pNeedPrefixNode p) v (px_currentNodePtr p) (px_state p) (px_bHasTopLevel p).
Definition set_currentNodePtr (v : ptr) (p : Parser) : Parser :=
  MkParser (px_dataBuffer p) (px_curPtr p) (px_savePtr p) (px_lastElem p) (px_tokenBuf p)
    (px_pNeedPrefixNode p) (px_pCurElement p) v (px_state p) (px_bHasTopLevel p).
Definition set_state (v : PARSER_STATE) (p : Parser) : Parser :=
  MkParser (px_dataBuffer p) (px_curPtr p) (px_savePtr p) (px_lastElem p) (px_tokenBuf p)
    (px_pNeedPrefixNode p) (px_pCurElement p) (px_currentNodePtr p) v (px_bHasTopLevel p).
Definition set_bHasTopLevel (v : bool) (p : Parser) : Parser :=
  MkParser (px_dataBuffer p) (px_curPtr p) (px_savePtr p) (px_lastElem p) (px_tokenBuf p)
    (px_pNeedPrefixNode p) (px_pCurElement p) (px_currentNodePtr p) (px_state p) v.
Definition set_dataBuffer (v : option text) (p : Parser) : Parser :=
  MkParser v (px_curPtr p) (px_savePtr p) (px_lastElem p) (px_tokenBuf p)
    (px_pNeedPrefixNode p) (px_pCurElement p) (px_currentNodePtr p) (px_state p)
    (px_bHasTopLevel p).

Definition set_namespaceUri (v : DOMString) (e : IXML_ElementStack) : IXML_ElementStack :=
  MkElem (es_element e) (es_prefix e) v (es_pNsURI e).
Definition set_pNsURI (v : list IXML_NamespaceURI) (e : IXML_ElementStack) : IXML_ElementStack :=
  MkElem (es_element e) (es_prefix e) (es_namespaceUri e) v.

(** ** Literals *)

Definition WHITESPACE : text := Eval vm_compute in [10; 9; 13; 32].
Definition COMPLETETAG : text := Eval vm_compute in cs "/>".
Definition ENDTAG : text := Eval vm_compute in cs "</".
Definition XMLDECL : text := Eval vm_compute in cs "<?xml ".
Definition XMLDECL2 : text := Eval vm_compute in cs "<?xml?".
Definition BEGIN_COMMENT : text := Eval vm_compute in cs "<!--".
Definition END_COMMENT : text := Eval vm_compute in cs "-->".
Definition BEGIN_PI : text := Eval vm_compute in cs "<?".
Definition END_PI : text := Eval vm_compute in cs "?>".
Definition BEGIN_DOCTYPE : text := Eval vm_compute in cs "<!DOCTYPE".
Definition CDSTART : text := Eval vm_compute in cs "<![CDATA[".
Definition CDEND : text := Eval vm_compute in cs "]]>".
(** ["\xef\xbb\xbf"]. *)
Definition UTF8_BOM : text := Eval vm_compute in schar <$> [0xef; 0xbb; 0xbf].

(** [strncmp(s, key, strlen(key)) == 0]. *)
Definition starts_with (s key : text) : bool := strncmp s key (strlen key) =? 0.
(** The pointer [n] characters further. *)
Definition adv (n : Z) (s : text) : option text :=
  if (0 <=? n) && (n <=? zlen s) then Some (zdrop n s) else None.

(** ** Skipping *)

(** What follows the next occurrence of [c]: [strchr(s, c) + 1]. *)
Fixpoint behind_char (c : Z) (s : text) : option text :=
  match s with
  | [] => None
  | x :: s' => if x =? c then Some s' else behind_char c s'
  end.

Fixpoint skip_doctype (fuel : nat) (pCur : text) (num : Z) : option (Z * option text) :=
  match fuel with
  | O => None
  | S fuel' =>
      match pCur with
      | c :: pCur' =>
          if num =? 0 then Some (IXML_SUCCESS, Some pCur)
          else if c =? $"<" then skip_doctype fuel' pCur' (num + 1)
          else if c =? $">" then skip_doctype fuel' pCur' (num - 1)
          else if c =? DQUOTE then
            match behind_char DQUOTE pCur' with
            | None => Some (IXML_SYNTAX_ERR, None)
            | Some pNext => skip_doctype fuel' pNext num
            end
          else skip_doctype fuel' pCur' num
      | [] => Some (if num =? 0 then (IXML_SUCCESS, Some []) else (IXML_SYNTAX_ERR, None))
      end
  end.
(** The code, and the pointer when it succeeds. *)
Definition Parser_skipDocType (pstr : text) : option (Z * text) :=
  '(rc, r) ← skip_doctype (S (length pstr)) pstr 1; Some (rc, default pstr r).

Fixpoint Parser_skipString (pstrSrc strSkipKey : text) : Z * text :=
  match pstrSrc with
  | [] => (IXML_SYNTAX_ERR, [])
  | _ :: s' =>
      if starts_with pstrSrc strSkipKey then (IXML_SUCCESS, zdrop (strlen strSkipKey) pstrSrc)
      else Parser_skipString s' strSkipKey
  end.

Definition Parser_skipBom (p : Parser) : Parser :=
  if starts_with (px_curPtr p) UTF8_BOM then set_curPtr (zdrop (strlen UTF8_BOM) (px_curPtr p)) p
  else p.

Fixpoint skip_white (s : text) : text :=
  match s with
  | c :: s' => if negb (c =? 0) && strchr WHITESPACE c then skip_white s' else s
  | [] => s
  end.
Definition Parser_skipWhiteSpaces (p : Parser) : Parser :=
  set_curPtr (skip_white (px_curPtr p)) p.

Definition Parser_skipXMLDecl (p : Parser) : Z * Parser :=
  let '(rc, s) := Parser_skipString (px_curPtr p) END_PI in
  (rc, Parser_skipWhiteSpaces (set_curPtr s p)).

Definition Parser_skipComment (pstrSrc : text) : Z * text :=
  match strstr pstrSrc END_COMMENT with
  | Some k =>
      if negb (k =? 0) && negb (rd pstrSrc (k - 1) =? $"-")
      then (IXML_SUCCESS, zdrop (k + strlen END_COMMENT) pstrSrc)
      else (IXML_SYNTAX_ERR, pstrSrc)
  | None => (IXML_SYNTAX_ERR, pstrSrc)
  end.

(** One pass of [Parser_skipMisc]: the code, whether it is done, the pointer. *)
Definition skip_one (s : text) : Z * bool * text :=
  if starts_with_case s BEGIN_COMMENT then
    let '(rc, s') := Parser_skipComment s in (rc, false, s')
  else if starts_with_case s XMLDECL || starts_with_case s XMLDECL2 then
    (IXML_SYNTAX_ERR, false, s)
  else if starts_with_case s BEGIN_PI then
    let '(rc, s') := Parser_skipString s END_PI in (rc, false, s')
  else (IXML_SUCCESS, true, s).
Fixpoint skip_misc (fuel : nat) (s : text) : option (Z * text) :=
  match fuel with
  | O => None
  | S fuel' =>
      let '(rc, done, s') := skip_one s in
      let s' := skip_white s' in
      if negb done && (rc =? IXML_SUCCESS) then skip_misc fuel' s' else Some (rc, s')
  end.
Definition Parser_skipMisc (p : Parser) : option (Z * Parser) :=
  '(rc, s) ← skip_misc (S (length (px_curPtr p))) (px_curPtr p); Some (rc, set_curPtr s p).

Definition Parser_skipProlog (p : Parser) : option (Z * Parser) :=
  let p := Parser_skipWhiteSpaces (Parser_skipBom p) in
  let '(rc, p) := if starts_with (px_curPtr p) XMLDECL then Parser_skipXMLDecl p
                  else (IXML_SUCCESS, p) in
  if negb (rc =? IXML_SUCCESS) then Some (rc, p)
  else
  '(rc, p) ← Parser_skipMisc p;
  '(rc, p) ← (if (rc =? IXML_SUCCESS) && starts_with (px_curPtr p) BEGIN_DOCTYPE then
                s ← adv 1 (px_curPtr p);
                '(rc, s) ← Parser_skipDocType s; Some (rc, set_curPtr s p)
              else Some (rc, p));
  if rc =? IXML_SUCCESS then Parser_skipMisc p else Some (rc, p).

(** ** Token buffers: [ixmlmembuf.c]

    [ixml_membuf_set_size] and [ixml_membuf_insert] are the functions of
    [membuffer.c] with other error codes and another [size_inc]. *)

Section Membuf.
Context (junk : Z).

Definition MEMBUF_SIZE_INC : Z := 20.
Definition ixml_membuf_init : membuffer := membuffer_initialize (Membuffer None 0 0 MEMBUF_SIZE_INC).
Definition ixml_membuf_destroy (m : membuffer) : membuffer := ixml_membuf_init.

Definition ixml_membuf_set_size (m : membuffer) (new_length : Z) : M (Z * membuffer) :=
  '(rc, m) ← membuffer_set_size junk m new_length;
  mret (if rc =? UPNP_E_OUTOF_MEMORY then IXML_INSUFFICIENT_MEMORY else rc, m).

Definition ixml_membuf_assign (m : membuffer) (buf : option text) (buf_len : Z)
    : M (Z * membuffer) :=
  match buf with
  | None => mret (IXML_SUCCESS, ixml_membuf_destroy m)
  | Some data =>
      '(return_code, m) ← ixml_membuf_set_size m buf_len;
      if negb (return_code =? 0) then mret (return_code, m)
      else
        m ← with_block m (fun b => d ← mem_slice data 0 buf_len; mem_write b 0 d);
        m ← with_block m (fun b => mem_write b buf_len [0]);
        mret (IXML_SUCCESS, set_length m buf_len)
  end.
Definition ixml_membuf_assign_str (m : membuffer) (c_str : text) : M (Z * membuffer) :=
  ixml_membuf_assign m (Some c_str) (strlen c_str).

Definition ixml_membuf_insert (m : membuffer) (buf : option text) (buf_len index : Z)
    : M (Z * membuffer) :=
  '(rc, m) ← membuffer_insert junk m buf buf_len index;
  mret (if rc =? UPNP_E_OUTOF_BOUNDS then IXML_INDEX_SIZE_ERR
        else if rc =? UPNP_E_OUTOF_MEMORY then IXML_INSUFFICIENT_MEMORY else rc, m).
Definition ixml_membuf_append (m : membuffer) (c : Z) : M (Z * membuffer) :=
  ixml_membuf_insert m (Some [c]) 1 (mb_length m).
Definition ixml_membuf_append_str (m : membuffer) (c_str : text) : M (Z * membuffer) :=
  ixml_membuf_insert m (Some c_str) (strlen c_str) (mb_length m).

(** The string a pointer to the buffer stands for: a NUL must end it. *)
Definition block_str (b : option (list Z)) : option text :=
  b ← b; if existsb (Z.eqb 0) b then Some (c_str b) else None.

(** ** Tokens *)

Context (g_error_char : Z).
Implicit Types (p : Parser) (st : nodes) (node : IXML_Node).

Definition cur_token p : option text := block_str (mb_buf (px_tokenBuf p)).
Definition Parser_clearTokenBuf p : Parser :=
  set_tokenBuf (ixml_membuf_destroy (px_tokenBuf p)) p.
Definition Parser_setLastElem p (s : text) : M (Z * Parser) :=
  '(rc, m) ← ixml_membuf_assign_str (px_lastElem p) s; mret (rc, set_lastElem m p).
Definition Parser_appendTokBufChar p (c : Z) : M (Z * Parser) :=
  '(rc, m) ← ixml_membuf_append (px_tokenBuf p) c; mret (rc, set_tokenBuf m p).
Definition Parser_appendTokBufStr p (s : text) : M (Z * Parser) :=
  '(rc, m) ← ixml_membuf_append_str (px_tokenBuf p) s; mret (rc, set_tokenBuf m p).

(** [n] is [pend - psrc]. *)
Fixpoint copy_loop_tok (fuel : nat) p (psrc : text) (n : Z) : M (Z * Parser) :=
  match fuel with
  | O => running
  | S fuel' =>
      if 0 <? n then
        '(c, cl) ← liftO (Parser_getChar g_error_char psrc);
        if c <=? 0 then mret (IXML_FAILED, p)
        else if cl =? 1 then
          '(_, p) ← Parser_appendTokBufChar p (schar c);
          psrc ← liftO (adv 1 psrc);
          copy_loop_tok fuel' p psrc (n - 1)
        else
          let '(i, uch) := Parser_intToUTF8 c in
          if i =? 0 then mret (IXML_FAILED, p)
          else
            '(_, p) ← Parser_appendTokBufStr p uch;
            psrc ← liftO (adv cl psrc);
            copy_loop_tok fuel' p psrc (n - cl)
      else mret (if n <? 0 then IXML_FAILED else IXML_SUCCESS, p)
  end.
Definition Parser_copyToken p (src : text) (len : Z) : M (Z * Parser) :=
  if len <=? 0 then mret (IXML_FAILED, p) else copy_loop_tok (S (length src)) p src len.

(** The length of a name: [iIndex] characters were read, [s] follows. *)
Fixpoint name_length (fuel : nat) (s : text) (iIndex : Z) : option Z :=
  match fuel with
  | O => None
  | S fuel' =>
      '(c, tlen) ← Parser_UTF8ToInt g_error_char s;
      b ← Parser_isNameChar c true;
      if b : bool then s ← adv tlen s; name_length fuel' s (iIndex + tlen) else Some iIndex
  end.

(** The length of the token at the pointer; [None] for an error. *)
Definition token_length (s : text) : option (option Z) :=
  let c := rd s 0 in
  if c =? DQUOTE then Some (Some 1)
  else if c =? $"'" then Some (Some 1)
  else if c =? $"<" then
    s' ← adv 1 s;
    '(temp, _) ← Parser_UTF8ToInt g_error_char s';
    if temp =? $"/" then Some (Some 2)
    else b ← Parser_isNameChar temp false; Some (if b : bool then Some 1 else None)
  else if c =? $"=" then Some (Some 1)
  else if c =? $"/" then
    c1 ← rdt s 1; Some (Some (if c1 =? $">" then 2 else 0))
  else if c =? $">" then Some (Some 1)
  else
    '(c, tlen) ← Parser_UTF8ToInt g_error_char s;
    b ← Parser_isNameChar c false;
    if b : bool then
      s' ← adv tlen s; n ← name_length (S (length s)) s' tlen; Some (Some n)
    else Some None.

Definition Parser_getNextToken p : M (Z * Parser) :=
  let p := Parser_clearTokenBuf p in
  match px_curPtr p with
  | [] => mret (0, p)
  | _ =>
      '(rc, p) ← liftO (Parser_skipMisc p);
      if negb (rc =? IXML_SUCCESS) then mret (0, p)
      else
      let s := px_curPtr p in
      tl ← liftO (token_length s);
      match tl with
      | None => mret (0, p)
      | Some tokenLength =>
          let p := if (rd s 0 =? $"/") && (tokenLength =? 2) then set_savePtr (Some s) p
                   else p in
          '(rc, p) ← Parser_copyToken p s tokenLength;
          if negb (rc =? IXML_SUCCESS) then mret (0, p)
          else
            s' ← liftO (adv tokenLength s);
            mret (tokenLength, set_curPtr s' p)
      end
  end.

(** [safe_strdup] asserts that its argument is not [NULL]. *)
Definition safe_strdup (d : DOMString) : M DOMString :=
  _ ← assertM (nonnull d); strdup_of d.

(** ** Tags and contents *)

Definition restore p : option Parser := s ← px_savePtr p; Some (set_curPtr s p).

Definition Parser_processSTag p node : M (Z * Parser * IXML_Node) :=
  '(n, p) ← Parser_getNextToken p;
  if n =? 0 then mret (IXML_SYNTAX_ERR, p, node)
  else
  match mb_buf (px_tokenBuf p) with
  | None => mret (IXML_SYNTAX_ERR, p, node)
  | Some _ =>
      pCurToken ← liftO (cur_token p);
      d ← strdup pCurToken;
      let node := set_nodeName d node in
      if is_null d then mret (IXML_INSUFFICIENT_MEMORY, p, node)
      else
      '(rc, p) ← Parser_setLastElem p (c_str pCurToken);
      if negb (rc =? IXML_SUCCESS) then mret (IXML_FAILED, p, node)
      else
      '(rc, node) ← Parser_setNodePrefixAndLocalName node;
      if negb (rc =? IXML_SUCCESS) then mret (IXML_FAILED, p, node)
      else
      let node := set_nodeType eELEMENT_NODE (set_nodeValue DNull node) in
      let p := set_savePtr (Some (px_curPtr p)) p in
      '(n, p) ← Parser_getNextToken p;
      if n =? 0 then mret (IXML_SYNTAX_ERR, p, node)
      else
      pCurToken ← liftO (cur_token p);
      if strcmp_eq pCurToken COMPLETETAG then
        p ← liftO (restore (set_state eELEMENT p)); mret (IXML_SUCCESS, p, node)
      else if strcmp_eq pCurToken (cs ">") then
        mret (IXML_SUCCESS, set_state eCONTENT p, node)
      else
        p ← liftO (restore (set_state eATTRIBUTE p)); mret (IXML_SUCCESS, p, node)
  end.

Definition Parser_skipPI (pSrc : text) : Z * text :=
  if starts_with_case pSrc XMLDECL || starts_with_case pSrc XMLDECL2
  then (IXML_SYNTAX_ERR, pSrc)
  else if starts_with_case pSrc BEGIN_PI then
    match strstr pSrc END_PI with
    | Some k =>
        if negb (k =? 0) then (IXML_SUCCESS, zdrop (k + strlen BEGIN_PI) pSrc)
        else (IXML_SYNTAX_ERR, pSrc)
    | None => (IXML_SYNTAX_ERR, pSrc)
    end
  else (IXML_SUCCESS, pSrc).

(** The loop over the contents of a CDATA section: how far it goes.  A
    character is the value of a [char], so one above 127 is negative. *)
Fixpoint cdata_end (pEnd : text) (n : Z) : Z :=
  match pEnd with
  | [] => n
  | c :: pEnd' =>
      if Parser_isXmlChar c then
        if starts_with pEnd CDEND then n else cdata_end pEnd' (n + 1)
      else n
  end.
Definition Parser_processCDSect (pSrc : text) node : M (Z * text * IXML_Node) :=
  pCDataStart ← liftO (adv (strlen CDSTART) pSrc);
  let n := cdata_end pCDataStart 0 in
  let pEnd := zdrop n pCDataStart in
  if (0 <? n) && negb (bool_decide (pEnd = [])) then
    ok ← malloc_ok;
    if negb ok then mret (IXML_INSUFFICIENT_MEMORY, pSrc, set_nodeValue DNull node)
    else
    let node := set_nodeValue (DStr (ztake n pCDataStart)) node in
    d ← strdup CDATANODENAME;
    let node := set_nodeName d node in
    if is_null d then mret (IXML_INSUFFICIENT_MEMORY, pSrc, node)
    else
      s ← liftO (adv (strlen CDEND) pEnd);
      mret (IXML_SUCCESS, s, set_nodeType eCDATA_SECTION_NODE node)
  else mret (IXML_SYNTAX_ERR, pSrc, node).

(** The length of the text up to the next tag, and whether ["]]>"] ends it. *)
Fixpoint content_end (pEndContent : text) (n : Z) : Z * bool :=
  match pEndContent with
  | [] => (n, false)
  | c :: s' =>
      if starts_with pEndContent CDEND then (n, true)
      else if c =? $"<" then (n, false)
      else content_end s' (n + 1)
  end.

(** The text node from the pointer on. *)
Definition process_text p node : M (Z * Parser * IXML_Node) :=
  let '(tokenLength, bad) := content_end (px_curPtr p) 0 in
  if bad then mret (IXML_SYNTAX_ERR, p, node)
  else
  let p := Parser_clearTokenBuf p in
  '(rc, p) ← Parser_copyToken p (px_curPtr p) tokenLength;
  if negb (rc =? IXML_SUCCESS) then mret (IXML_SYNTAX_ERR, p, node)
  else
  match mb_buf (px_tokenBuf p) with
  | None => mret (IXML_SYNTAX_ERR, p, node)
  | Some _ =>
      pCurToken ← liftO (cur_token p);
      d ← strdup pCurToken;
      let node := set_nodeValue d node in
      if is_null d then mret (IXML_INSUFFICIENT_MEMORY, p, node)
      else
      d ← strdup TEXTNODENAME;
      let node := set_nodeName d node in
      if is_null d then mret (IXML_SYNTAX_ERR, p, node)
      else
        s ← liftO (adv tokenLength (px_curPtr p));
        mret (IXML_SUCCESS, set_curPtr s p, set_nodeType eTEXT_NODE node)
  end.

Definition Parser_processContent p node : M (Z * Parser * IXML_Node) :=
  let p := Parser_skipWhiteSpaces (set_savePtr (Some (px_curPtr p)) p) in
  match px_curPtr p with
  | [] => mret (IXML_SUCCESS, p, node)
  | c :: _ =>
      let pEndContent := px_curPtr p in
      if c =? $"<" then
        if starts_with pEndContent CDSTART then
          '(rc, s, node) ← Parser_processCDSect pEndContent node;
          if rc =? IXML_SUCCESS then mret (IXML_SUCCESS, set_curPtr s p, node)
          else mret (IXML_SYNTAX_ERR, p, node)
        else if starts_with pEndContent BEGIN_COMMENT then
          let '(rc, s) := Parser_skipComment pEndContent in
          mret (if rc =? IXML_SUCCESS then (IXML_SUCCESS, set_curPtr s p, node)
                else (IXML_SYNTAX_ERR, p, node))
        else if starts_with pEndContent BEGIN_PI then
          let '(rc, s) := Parser_skipPI pEndContent in
          mret (if rc =? IXML_SUCCESS then (IXML_SUCCESS, set_curPtr s p, node)
                else (IXML_SYNTAX_ERR, p, node))
        else mret (IXML_SUCCESS, set_state eELEMENT p, node)
      else
        p ← liftO (restore p);
        process_text p node
  end.

Definition Parser_processETag p node : M (Z * Parser * IXML_Node * bool) :=
  '(n, p) ← Parser_getNextToken p;
  if n =? 0 then mret (IXML_SYNTAX_ERR, p, node, false)
  else
  match mb_buf (px_tokenBuf p) with
  | None => mret (IXML_SYNTAX_ERR, p, node, false)
  | Some _ =>
      pCurToken ← liftO (cur_token p);
      d ← strdup pCurToken;
      let node := set_nodeName d node in
      if is_null d then mret (IXML_INSUFFICIENT_MEMORY, p, node, false)
      else
      let node := set_nodeType eELEMENT_NODE (set_nodeValue DNull node) in
      '(n, p) ← Parser_getNextToken (Parser_skipWhiteSpaces p);
      if n =? 0 then mret (IXML_SYNTAX_ERR, p, node, false)
      else
      match mb_buf (px_tokenBuf p) with
      | None => mret (IXML_SYNTAX_ERR, p, node, false)
      | Some _ =>
          pCurToken ← liftO (cur_token p);
          if strcmp_eq pCurToken (cs ">") then mret (IXML_SUCCESS, p, node, true)
          else mret (IXML_SYNTAX_ERR, p, node, false)
      end
  end.

(** ** Namespaces *)

(** [strcmp] of two string fields; undefined on [NULL]. *)
Definition strcmp_same (a b : DOMString) : option bool :=
  x ← str_of a; y ← str_of b; Some (strcmp_eq x y).

(** The namespace a prefix has in a list of definitions. *)
Fixpoint lookup_ns (l : list IXML_NamespaceURI) (prefix : DOMString) : option (option DOMString) :=
  match l with
  | [] => Some None
  | ns :: l' =>
      b ← strcmp_same (ns_prefix ns) prefix;
      if b : bool then Some (Some (ns_nsURI ns)) else lookup_ns l' prefix
  end.
Definition Parser_getNameSpace p (prefix : DOMString) : option DOMString :=
  pCur ← head (px_pCurElement p);
  same ← strcmp_same (es_prefix pCur) prefix;
  if same : bool then Some (es_namespaceUri pCur)
  else r ← lookup_ns (es_pNsURI pCur) prefix; Some (default DNull r).

Definition Parser_addNamespace p st : M (Z * Parser * nodes) :=
  pNode ← liftO (rdn st (px_pNeedPrefixNode p));
  pCur ← liftO (head (px_pCurElement p));
  if is_null (n_prefix pNode) then
    same ← liftO (strcmp_same (n_nodeName pNode) (es_element pCur));
    if negb same then mret (IXML_FAILED, p, st)
    else if nonnull (es_namespaceUri pCur) then
      _ ← assertM (is_null (n_namespaceURI pNode));
      d ← safe_strdup (es_namespaceUri pCur);
      st ← liftO (wrn st (px_pNeedPrefixNode p) (set_namespaceURI d));
      if is_null d then mret (IXML_INSUFFICIENT_MEMORY, p, st)
      else mret (IXML_SUCCESS, set_pNeedPrefixNode None p, st)
    else mret (IXML_SUCCESS, set_pNeedPrefixNode None p, st)
  else
    bad ← liftO (
      if is_null (es_prefix pCur) then Some true
      else
        same ← strcmp_same (n_nodeName pNode) (es_element pCur);
        if same : bool then Some false
        else same ← strcmp_same (n_prefix pNode) (es_prefix pCur); Some (negb same));
    if bad : bool then mret (IXML_FAILED, p, st)
    else
      namespaceUri ← liftO (Parser_getNameSpace p (es_prefix pCur));
      if nonnull namespaceUri then
        d ← safe_strdup namespaceUri;
        st ← liftO (wrn st (px_pNeedPrefixNode p) (set_namespaceURI d));
        if is_null d then mret (IXML_INSUFFICIENT_MEMORY, p, st)
        else mret (IXML_SUCCESS, set_pNeedPrefixNode None p, st)
      else mret (IXML_SUCCESS, p, st).

(** Replace the element on top of the stack. *)
Definition set_top (e : IXML_ElementStack) p : Parser :=
  set_pCurElement (e :: tail (px_pCurElement p)) p.

(** The definition of [prefix] in the list: its position. *)
Fixpoint find_ns (l : list IXML_NamespaceURI) (prefix : DOMString) (i : nat)
    : option (option nat) :=
  match l with
  | [] => Some None
  | ns :: l' =>
      b ← (if nonnull (ns_prefix ns) then strcmp_same (ns_prefix ns) prefix else Some false);
      if b : bool then Some (Some i) else find_ns l' prefix (S i)
  end.

(** The namespace of the element itself. *)
Definition own_namespace p (pCur : IXML_ElementStack) node : M (Z * Parser) :=
  _ ← liftO (free_str (es_namespaceUri pCur));
  d ← safe_strdup (n_nodeValue node);
  mret (if is_null d then IXML_INSUFFICIENT_MEMORY else IXML_SUCCESS,
        set_top (set_namespaceUri d pCur) p).

(** A definition for the prefix [localName] of the node. *)
Definition define_ns p (pCur : IXML_ElementStack) node : M (Z * Parser) :=
  found ← liftO (find_ns (es_pNsURI pCur) (n_localName node) 0);
  match found with
  | None =>
      ok ← malloc_ok;
      if negb ok then mret (IXML_INSUFFICIENT_MEMORY, p)
      else
      pre ← safe_strdup (n_localName node);
      if is_null pre then mret (IXML_INSUFFICIENT_MEMORY, p)
      else
      uri ← safe_strdup (n_nodeValue node);
      if is_null uri then mret (IXML_INSUFFICIENT_MEMORY, p)
      else
        mret (IXML_SUCCESS,
              set_top (set_pNsURI (es_pNsURI pCur ++ [MkNs uri pre]) pCur) p)
  | Some i =>
      ns ← liftO (es_pNsURI pCur !! i);
      _ ← liftO (free_str (ns_nsURI ns));
      uri ← safe_strdup (n_nodeValue node);
      mret (if is_null uri then IXML_INSUFFICIENT_MEMORY else IXML_SUCCESS,
            set_top (set_pNsURI (<[i := MkNs uri (ns_prefix ns)]> (es_pNsURI pCur)) pCur) p)
  end.

Definition Parser_xmlNamespace p st node : M (Z * Parser * nodes * IXML_Node) :=
  _ ← assertM (nonnull (n_nodeName node));
  name ← liftO (str_of (n_nodeName node));
  '(ret, p, node) ←
    (if strcmp_eq name (cs "xmlns") then
       pCur ← liftO (head (px_pCurElement p));
       '(ret, p) ← own_namespace p pCur node; mret (ret, p, node)
     else if starts_with name (cs "xmlns:") then
       '(ret, node) ← Parser_setNodePrefixAndLocalName node;
       if negb (ret =? IXML_SUCCESS) then mret (ret, p, node)
       else
       _ ← assertM (nonnull (n_localName node));
       match px_pCurElement p with
       | [] => mret (IXML_FAILED, p, node)
       | pCur :: _ =>
           own ← liftO (if nonnull (es_prefix pCur)
                        then strcmp_same (es_prefix pCur) (n_localName node) else Some false);
           '(ret, p) ← (if own : bool then own_namespace p pCur node else define_ns p pCur node);
           mret (ret, p, node)
       end
     else mret (IXML_SUCCESS, p, node));
  if (ret =? IXML_SUCCESS) && bool_decide (px_pNeedPrefixNode p <> None) then
    '(ret, p, st) ← Parser_addNamespace p st; mret (ret, p, st, node)
  else mret (ret, p, st, node).

(** ** Attributes *)

(** [strstr(s, key)] for a quote: what is before it. *)
Definition until_key (s key : text) : option text :=
  match strstr s key with Some k => Some (ztake k s) | None => None end.

(** The value of the attribute, from behind its opening quote. *)
Definition attribute_value p (pCurToken : text) node : M (Z * Parser * IXML_Node) :=
  match until_key (px_curPtr p) pCurToken with
  | None => mret (IXML_SYNTAX_ERR, p, node)
  | Some value =>
      if existsb (Z.eqb $"<") value then mret (IXML_SYNTAX_ERR, p, node)
      else
      let p := Parser_clearTokenBuf p in
      '(rc, p) ← (if negb (zlen value =? 0) then Parser_copyToken p (px_curPtr p) (zlen value)
                  else mret (IXML_SUCCESS, p));
      if negb (rc =? IXML_SUCCESS) then mret (IXML_SYNTAX_ERR, p, node)
      else
      s ← liftO (adv (zlen value + 1) (px_curPtr p));
      let p := set_curPtr s p in
      match mb_buf (px_tokenBuf p) with
      | Some _ =>
          v ← liftO (cur_token p);
          d ← strdup v;
          let node := set_nodeValue d node in
          mret (if is_null d then IXML_INSUFFICIENT_MEMORY else IXML_SUCCESS, p, node)
      | None =>
          (* malloc(sizeof(char)) is written through without a test *)
          ok ← malloc_ok;
          if ok : bool then mret (IXML_SUCCESS, p, set_nodeValue (DStr []) node) else undefined
      end
  end.

(** What follows an attribute. *)
Definition after_attribute p : M (Z * Parser) :=
  let p := set_savePtr (Some (px_curPtr p)) p in
  '(n, p) ← Parser_getNextToken p;
  if n =? 0 then mret (IXML_SYNTAX_ERR, p)
  else
    pCurToken ← liftO (cur_token p);
    if strcmp_eq pCurToken (cs "<") then mret (IXML_FAILED, p)
    else if negb (strcmp_eq pCurToken (cs ">")) then
      p ← liftO (restore p); mret (IXML_SUCCESS, p)
    else mret (IXML_SUCCESS, set_state eCONTENT p).

Definition Parser_processAttribute p st node : M (Z * Parser * nodes * IXML_Node) :=
  match mb_buf (px_tokenBuf p) with
  | None => mret (IXML_SYNTAX_ERR, p, st, node)
  | Some _ =>
      pCurToken ← liftO (cur_token p);
      '(c, _) ← liftO (Parser_UTF8ToInt g_error_char pCurToken);
      b ← liftO (Parser_isNameChar c false);
      if negb b then mret (IXML_SYNTAX_ERR, p, st, node)
      else
      d ← strdup pCurToken;
      let node := set_nodeName d node in
      if is_null d then mret (IXML_INSUFFICIENT_MEMORY, p, st, node)
      else
      '(n, p) ← Parser_getNextToken p;
      if n =? 0 then mret (IXML_SYNTAX_ERR, p, st, node)
      else
      pCurToken ← liftO (cur_token p);
      if negb (rd pCurToken 0 =? $"=") then mret (IXML_SYNTAX_ERR, p, st, node)
      else
      '(n, p) ← Parser_getNextToken p;
      if n =? 0 then mret (IXML_SYNTAX_ERR, p, st, node)
      else
      pCurToken ← liftO (cur_token p);
      if negb (rd pCurToken 0 =? DQUOTE) && negb (rd pCurToken 0 =? $"'")
      then mret (IXML_SYNTAX_ERR, p, st, node)
      else
      '(ret, p, node) ← attribute_value p pCurToken node;
      if negb (ret =? IXML_SUCCESS) then mret (ret, p, st, node)
      else
      let node := set_nodeType eATTRIBUTE_NODE node in
      '(ret, p, st, node) ← Parser_xmlNamespace p st node;
      if negb (ret =? IXML_SUCCESS) then mret (ret, p, st, node)
      else
      '(ret, p) ← after_attribute p;
      mret (ret, p, st, node)
  end.

(** ** The next node *)

(** A token when no content is expected. *)
Definition process_tag p st node : M (Z * Parser * nodes * IXML_Node * bool) :=
  pCurToken ← liftO (cur_token p);
  if rd pCurToken 0 =? $">" then mret (IXML_SUCCESS, p, st, node, false)
  else if strcmp_eq pCurToken ENDTAG then
    '(ret, p, node, bETag) ← Parser_processETag p node; mret (ret, p, st, node, bETag)
  else if rd pCurToken 0 =? $"<" then
    '(ret, p, node) ← Parser_processSTag p node; mret (ret, p, st, node, false)
  else if strcmp_eq pCurToken COMPLETETAG then
    match mb_buf (px_lastElem p) with
    | None => mret (IXML_SYNTAX_ERR, p, st, node, false)
    | Some _ =>
        lastElement ← liftO (block_str (mb_buf (px_lastElem p)));
        d ← strdup lastElement;
        let node := set_nodeName d node in
        if is_null d then mret (IXML_INSUFFICIENT_MEMORY, p, st, node, false)
        else mret (IXML_SUCCESS, p, st, set_nodeType eELEMENT_NODE node, true)
    end
  else if bool_decide (px_pCurElement p <> []) then
    match px_state p with
    | eATTRIBUTE =>
        '(ret, p, st, node) ← Parser_processAttribute p st node;
        mret (if ret =? IXML_SUCCESS then IXML_SUCCESS else IXML_SYNTAX_ERR, p, st, node, false)
    | _ => mret (IXML_SYNTAX_ERR, p, st, node, false)
    end
  else mret (IXML_SYNTAX_ERR, p, st, node, false).

(** The code, and the new value of [*bETag]. *)
Definition Parser_getNextNode p st node : M (Z * Parser * nodes * IXML_Node * bool) :=
  match px_curPtr p with
  | [] => mret (IXML_FILE_DONE, p, st, node, true)
  | _ =>
      match px_state p with
      | eCONTENT =>
          '(ret, p, node) ← Parser_processContent p node; mret (ret, p, st, node, false)
      | _ =>
          '(tokenLen, p) ← Parser_getNextToken (Parser_skipWhiteSpaces p);
          if (tokenLen =? 0) && bool_decide (px_pCurElement p = [])
             && bool_decide (px_curPtr p = [])
          then mret (IXML_SUCCESS, p, st, node, false)
          else if mb_length (px_tokenBuf p) =? 0 then mret (IXML_SYNTAX_ERR, p, st, node, false)
          else process_tag p st node
      end
  end.

(** ** Building the document *)

(** Whether the prefix of the element is defined, and its namespace. *)
Fixpoint prefix_defined (stack : list IXML_ElementStack) (prefix : DOMString)
    : option (option DOMString) :=
  match stack with
  | [] => Some None
  | pCur :: stack' =>
      own ← (if nonnull (es_prefix pCur) then strcmp_same (es_prefix pCur) prefix
             else Some false);
      if own : bool then Some (Some (es_namespaceUri pCur))
      else
        r ← lookup_ns (es_pNsURI pCur) prefix;
        match r with Some u => Some (Some u) | None => prefix_defined stack' prefix end
  end.
Definition Parser_ElementPrefixDefined p node : option (option DOMString) :=
  prefix_defined (px_pCurElement p) (n_prefix node).

(** The default namespace in force. *)
Fixpoint default_namespace (stack : list IXML_ElementStack) : option DOMString :=
  match stack with
  | [] => None
  | pCur :: stack' =>
      if is_null (es_prefix pCur) && nonnull (es_namespaceUri pCur)
      then Some (es_namespaceUri pCur) else default_namespace stack'
  end.
Definition Parser_hasDefaultNamespace p : option DOMString := default_namespace (px_pCurElement p).

Definition Parser_setElementNamespace st (newElement : ptr) (nsURI : DOMString) : M (Z * nodes) :=
  match newElement with
  | None => mret (IXML_SUCCESS, st)
  | Some _ =>
      n ← liftO (rdn st newElement);
      if nonnull (n_namespaceURI n) then mret (IXML_SYNTAX_ERR, st)
      else
        d ← safe_strdup nsURI;
        st ← liftO (wrn st newElement (set_namespaceURI d));
        mret (if is_null d then IXML_INSUFFICIENT_MEMORY else IXML_SUCCESS, st)
  end.

Definition isDuplicateAttribute p st node : M bool :=
  name ← liftO (rdn st (px_currentNodePtr p));
  attr ← find_attr (fun n => strcmp_same (n_nodeName n) (n_nodeName node))
           (S (size st)) st (n_firstAttr name);
  mret (bool_decide (attr <> None)).

Definition Parser_processAttributeName (rootDoc : ptr) p st node : M (Z * nodes) :=
  dup ← isDuplicateAttribute p st node;
  if dup : bool then mret (IXML_SYNTAX_ERR, st)
  else
  '(rc, attr, st) ← ixmlDocument_createAttributeEx st rootDoc (n_nodeName node);
  if negb (rc =? IXML_SUCCESS) then mret (rc, st)
  else
  '(rc, st) ← ixmlNode_setNodeProperties st attr node;
  if negb (rc =? IXML_SUCCESS) then st ← ixmlAttr_free st attr; mret (rc, st)
  else
  '(rc, _, st) ← ixmlElement_setAttributeNode st (px_currentNodePtr p) attr false;
  if negb (rc =? IXML_SUCCESS) then st ← ixmlAttr_free st attr; mret (rc, st)
  else mret (rc, st).

(** A copy of a string that may be [NULL], and whether there was memory. *)
Definition strdup_opt (d : DOMString) : M (bool * DOMString) :=
  if is_null d then mret (true, DNull) else d ← safe_strdup d; mret (nonnull d, d).

Definition Parser_pushElement p st (newElement : ptr) : M (Z * Parser) :=
  _ ← assertM (bool_decide (newElement <> None));
  ok ← malloc_ok;
  if negb ok then mret (IXML_INSUFFICIENT_MEMORY, p)
  else
  n ← liftO (rdn st newElement);
  element ← safe_strdup (n_nodeName n);
  if is_null element then mret (IXML_INSUFFICIENT_MEMORY, p)
  else
  '(ok, prefix) ← strdup_opt (n_prefix n);
  if negb ok then mret (IXML_INSUFFICIENT_MEMORY, p)
  else
  '(ok, namespaceUri) ← strdup_opt (n_namespaceURI n);
  if negb ok then mret (IXML_INSUFFICIENT_MEMORY, p)
  else
    mret (IXML_SUCCESS,
          set_pCurElement (MkElem element prefix namespaceUri [] :: px_pCurElement p) p).

Definition isTopLevelElement p : bool := bool_decide (px_pCurElement p = []).

(** The namespace of a new element, or the wait for its definition. *)
Definition element_namespace p st (newElement : ptr) node : M (Parser * nodes) :=
  if nonnull (n_prefix node) then
    def ← liftO (Parser_ElementPrefixDefined p node);
    match def with
    | None => mret (set_pNeedPrefixNode newElement p, st)
    | Some nsURI => '(_, st) ← Parser_setElementNamespace st newElement nsURI; mret (p, st)
    end
  else
    match Parser_hasDefaultNamespace p with
    | Some nsURI => '(_, st) ← Parser_setElementNamespace st newElement nsURI; mret (p, st)
    | None =>
        mret (match px_state p with
              | eATTRIBUTE => set_pNeedPrefixNode newElement p
              | _ => p
              end, st)
    end.

Definition Parser_processElementName (rootDoc : ptr) p st node : M (Z * Parser * nodes) :=
  if px_bHasTopLevel p && isTopLevelElement p then mret (IXML_SYNTAX_ERR, p, st)
  else
  let p := set_savePtr (Some (px_curPtr p)) (set_bHasTopLevel true p) in
  '(rc, newElement, st) ← ixmlDocument_createElementEx st rootDoc (n_nodeName node);
  if negb (rc =? IXML_SUCCESS) then mret (rc, p, st)
  else
  '(rc, st) ← ixmlNode_setNodeProperties st newElement node;
  if negb (rc =? IXML_SUCCESS) then st ← ixmlElement_free st newElement; mret (rc, p, st)
  else
  '(p, st) ← element_namespace p st newElement node;
  '(rc, st) ← ixmlNode_appendChild st (px_currentNodePtr p) newElement;
  if negb (rc =? IXML_SUCCESS) then st ← ixmlElement_free st newElement; mret (rc, p, st)
  else
  '(rc, p) ← Parser_pushElement (set_currentNodePtr newElement p) st newElement;
  mret (rc, p, st).

Definition Parser_isValidEndElement p node : M bool :=
  match px_pCurElement p with
  | [] => mret false
  | pCur :: _ =>
      _ ← assertM (nonnull (es_element pCur) && nonnull (n_nodeName node));
      liftO (strcmp_same (es_element pCur) (n_nodeName node))
  end.

(** Frees an element of the stack with its namespaces. *)
Definition Parser_freeElementStackItem (e : IXML_ElementStack) : option unit :=
  _ ← free_str (es_element e); _ ← free_str (es_namespaceUri e); free_str (es_prefix e).
Definition Parser_freeNsURI (ns : IXML_NamespaceURI) : option unit :=
  _ ← free_str (ns_nsURI ns); free_str (ns_prefix ns).
Fixpoint free_all {A} (f : A -> option unit) (l : list A) : option unit :=
  match l with [] => Some tt | x :: l' => _ ← f x; free_all f l' end.
Definition free_element (e : IXML_ElementStack) : option unit :=
  _ ← Parser_freeElementStackItem e; free_all Parser_freeNsURI (es_pNsURI e).

Definition Parser_popElement p : option Parser :=
  match px_pCurElement p with
  | [] => Some p
  | pCur :: rest => _ ← free_element pCur; Some (set_pCurElement rest p)
  end.

Definition Parser_eTagVerification p st node : M (Z * Parser) :=
  _ ← assertM (nonnull (n_nodeName node) && bool_decide (px_currentNodePtr p <> None));
  '(ok, p) ←
    match n_nodeType node with
    | eELEMENT_NODE =>
        valid ← Parser_isValidEndElement p node;
        if valid : bool then p ← liftO (Parser_popElement p); mret (true, p)
        else mret (false, p)
    | _ => mret (true, p)
    end;
  if negb ok then mret (IXML_SYNTAX_ERR, p)
  else
  cur ← liftO (rdn st (px_currentNodePtr p));
  same ← liftO (strcmp_same (n_nodeName node) (n_nodeName cur));
  if same : bool then mret (IXML_SUCCESS, set_currentNodePtr (n_parentNode cur) p)
  else mret (IXML_SYNTAX_ERR, p).

(** A text or CDATA node that was created is appended. *)
Definition append_created p (created : M (Z * ptr * nodes)) : M (Z * nodes) :=
  '(rc, tempNode, st) ← created;
  if negb (rc =? IXML_SUCCESS) then mret (rc, st)
  else ixmlNode_appendChild st (px_currentNodePtr p) tempNode.

(** The body of the loop behind [Parser_getNextNode]. *)
Definition build_node (gRootDoc : ptr) p st node (bETag : bool) : M (Z * Parser * nodes) :=
  if bETag then
    '(rc, p) ← Parser_eTagVerification p st node;
    if rc =? IXML_SUCCESS then mret (rc, set_state eCONTENT p, st) else mret (rc, p, st)
  else
    match n_nodeType node with
    | eELEMENT_NODE => Parser_processElementName gRootDoc p st node
    | eTEXT_NODE =>
        '(rc, st) ← append_created p
                      (ixmlDocument_createTextNodeEx st gRootDoc (n_nodeValue node));
        mret (rc, p, st)
    | eCDATA_SECTION_NODE =>
        '(rc, st) ← append_created p
                      (ixmlDocument_createCDATASectionEx st gRootDoc (n_nodeValue node));
        mret (rc, p, st)
    | eATTRIBUTE_NODE =>
        '(rc, st) ← Parser_processAttributeName gRootDoc p st node; mret (rc, p, st)
    | _ => mret (IXML_SUCCESS, p, st)
    end.

(** One pass of the loop: the code it ends with, [None] when it goes on. *)
Definition parse_pass (gRootDoc : ptr) p st : M (option Z * Parser * nodes) :=
  '(ret, p, st, node, bETag) ← Parser_getNextNode p st (zero_node XNode);
  if ret =? IXML_SUCCESS then
    '(rc, p, st) ← build_node gRootDoc p st node bETag;
    _ ← liftO (Parser_freeNodeContent node);
    mret (if rc =? IXML_SUCCESS then None else Some rc, p, st)
  else
    _ ← (if bETag then mret tt else liftO (Parser_freeNodeContent node));
    mret (Some (if bETag then IXML_SUCCESS else IXML_FAILED), p, st).

Fixpoint parse_nodes (fuel : nat) (gRootDoc : ptr) p st : M (Z * Parser * nodes) :=
  match fuel with
  | O => running
  | S fuel' =>
      '(stop, p, st) ← parse_pass gRootDoc p st;
      match stop with
      | Some rc => mret (rc, p, st)
      | None => parse_nodes fuel' gRootDoc p st
      end
  end.

Definition Parser_free p : option unit := free_all free_element (px_pCurElement p).

(** Each pass reads a character or changes to the state [eELEMENT]. *)
Definition parse_fuel p : nat := 2 * length (px_curPtr p) + 2.

Definition Parser_parseDocument p st : M (Z * ptr * nodes) :=
  '(rc, gRootDoc, st) ← ixmlDocument_createDocumentEx st;
  let error rc p st :=
    st ← ixmlDocument_free st gRootDoc;
    _ ← liftO (Parser_free p);
    mret (rc, None, st) in
  if negb (rc =? IXML_SUCCESS) then error rc p st
  else
  let p := set_currentNodePtr gRootDoc p in
  '(rc, p) ← liftO (Parser_skipProlog p);
  if negb (rc =? IXML_SUCCESS) then error rc p st
  else
  '(rc, p, st) ← parse_nodes (parse_fuel p) gRootDoc p st;
  if negb (rc =? IXML_SUCCESS) then error rc p st
  else if bool_decide (px_pCurElement p <> []) then error IXML_SYNTAX_ERR p st
  else
    _ ← liftO (Parser_free p);
    mret (rc, gRootDoc, st).

(** ** Loading *)

Definition Parser_init : M (option Parser) :=
  ok ← malloc_ok;
  mret (if ok : bool then
          Some (MkParser None [] None ixml_membuf_init ixml_membuf_init None [] None eELEMENT false)
        else None).

(** The text comes from a buffer, or from a file that may not exist. *)
Inductive xml_source :=
| FromBuffer (xmlBuffer : DOMString)
| FromFile (contents : option (list Z)).

Definition Parser_readFileOrBuffer p (src : xml_source) : M (Z * Parser) :=
  match src with
  | FromFile None => mret (IXML_NO_SUCH_FILE, p)
  | FromFile (Some contents) =>
      if zlen contents <=? 0 then mret (IXML_SYNTAX_ERR, p)
      else
        ok ← malloc_ok;
        if ok : bool then mret (IXML_SUCCESS, set_dataBuffer (Some (c_str contents)) p)
        else mret (IXML_INSUFFICIENT_MEMORY, p)
  | FromBuffer xmlBuffer =>
      d ← safe_strdup xmlBuffer;
      match d with
      | DStr s => mret (IXML_SUCCESS, set_dataBuffer (Some s) p)
      | _ => mret (IXML_INSUFFICIENT_MEMORY, p)
      end
  end.

Definition Parser_LoadDocument st (src : xml_source) : M (Z * ptr * nodes) :=
  xmlParser ← Parser_init;
  match xmlParser with
  | None => mret (IXML_INSUFFICIENT_MEMORY, None, st)
  | Some p =>
      '(rc, p) ← Parser_readFileOrBuffer p src;
      if negb (rc =? IXML_SUCCESS) then
        _ ← liftO (Parser_free p); mret (rc, None, st)
      else
        dataBuffer ← liftO (px_dataBuffer p);
        Parser_parseDocument (set_curPtr dataBuffer p) st
  end.

Definition ixmlParseBufferEx st (buffer : DOMString) : M (Z * ptr * nodes) :=
  if is_null buffer then mret (IXML_INVALID_PARAMETER, None, st)
  else
    s ← liftO (str_of buffer);
    match s with
    | [] => mret (IXML_INVALID_PARAMETER, None, st)
    | _ => Parser_LoadDocument st (FromBuffer buffer)
    end.
Definition ixmlParseBuffer st (buffer : DOMString) : M (ptr * nodes) :=
  '(_, doc, st) ← ixmlParseBufferEx st buffer; mret (doc, st).
Definition ixmlLoadDocumentEx st (contents : option (list Z)) : M (Z * ptr * nodes) :=
  Parser_LoadDocument st (FromFile contents).
Definition ixmlLoadDocument st (contents : option (list Z)) : M (ptr * nodes) :=
  '(_, doc, st) ← ixmlLoadDocumentEx st contents; mret (doc, st).

End Membuf.
