(* ===== verification/XmlPrint.v ===== *)
(** Printing a document: [ixml/src/ixml.c].

    The text is built in a token buffer, whose functions are in [XmlParser.v];
    the codes they return are not looked at, so that text is lost silently when
    there is no memory. *)

From S2P Require Import Prelude CString MemBuffer FreeList XmlChars IxmlNode IxmlDocument XmlParser.

Section Print.
Context (junk : Z).
Implicit Types (st : nodes) (buf : membuffer) (nodeptr : ptr).

(** [ixml_membuf_append_str] of a literal and of a string field. *)
Definition put (s : text) buf : M membuffer :=
  '(_, buf) ← ixml_membuf_append_str junk buf s; mret buf.
Definition put_str (d : DOMString) buf : M membuffer := s ← liftO (str_of d); put s buf.

Definition escape_char (c : Z) : text :=
  if c =? $"<" then LT
  else if c =? $">" then GT
  else if c =? $"&" then AMP
  else if c =? $"'" then APOS
  else if c =? DQUOTE then QUOT
  else [c].

(** A character without an escape is appended alone. *)
Fixpoint put_escaped (p : text) buf : M membuffer :=
  match p with
  | [] => mret buf
  | c :: p' =>
      buf ← (if bool_decide (escape_char c = [c]) then
               '(_, buf) ← ixml_membuf_append junk buf c; mret buf
             else put (escape_char c) buf);
      put_escaped p' buf
  end.
Definition copy_with_escape (d : DOMString) buf : M membuffer :=
  match d with
  | DNull => mret buf
  | _ => p ← liftO (str_of d); put_escaped p buf
  end.

Definition lit (s : string) : text := cs s.
(** The end of a line, ["\r\n"]. *)
Definition CRLF : text := [13; 10].

(** [ixmlNode_getNodeType(p) == t], for a pointer that may be [NULL]. *)
Definition is_type st nodeptr (t : IXML_NODE_TYPE) : option bool :=
  match nodeptr with
  | None => Some false
  | Some _ => n ← rdn st nodeptr; Some (bool_decide (n_nodeType n = t))
  end.

(** [name="value"]. *)
Definition put_attr (n : IXML_Node) buf : M membuffer :=
  buf ← put_str (n_nodeName n) buf;
  buf ← put [ $"="; DQUOTE] buf;
  buf ← copy_with_escape (n_nodeValue n) buf;
  put [DQUOTE] buf.

Fixpoint print_tree (fuel : nat) st nodeptr buf : M membuffer :=
  match fuel with
  | O => running
  | S fuel' =>
      match nodeptr with
      | None => mret buf
      | Some _ =>
          n ← liftO (rdn st nodeptr);
          match n_nodeType n with
          | eTEXT_NODE => copy_with_escape (n_nodeValue n) buf
          | eCDATA_SECTION_NODE =>
              buf ← put CDSTART buf;
              buf ← put_str (n_nodeValue n) buf;
              put CDEND buf
          | ePROCESSING_INSTRUCTION_NODE =>
              buf ← put BEGIN_PI buf;
              buf ← put_str (n_nodeName n) buf;
              buf ← put (lit " ") buf;
              buf ← copy_with_escape (n_nodeValue n) buf;
              put (END_PI ++ [10]) buf
          | eDOCUMENT_NODE => print_tree fuel' st (n_firstChild n) buf
          | eATTRIBUTE_NODE =>
              buf ← put_attr n buf;
              match n_nextSibling n with
              | Some _ => buf ← put (lit " ") buf; print_tree fuel' st (n_nextSibling n) buf
              | None => mret buf
              end
          | eELEMENT_NODE =>
              buf ← put (lit "<") buf;
              buf ← put_str (n_nodeName n) buf;
              buf ← match n_firstAttr n with
                    | Some _ => buf ← put (lit " ") buf; print_tree fuel' st (n_firstAttr n) buf
                    | None => mret buf
                    end;
              elem ← liftO (is_type st (n_firstChild n) eELEMENT_NODE);
              buf ← put (lit ">" ++ if elem : bool then CRLF else []) buf;
              buf ← print_tree fuel' st (n_firstChild n) buf;
              buf ← put ENDTAG buf;
              buf ← put_str (n_nodeName n) buf;
              txt ← liftO (is_type st (n_nextSibling n) eTEXT_NODE);
              buf ← put (lit ">" ++ if txt : bool then [] else CRLF) buf;
              print_tree fuel' st (n_nextSibling n) buf
          | _ => mret buf
          end
      end
  end.
Definition ixmlPrintDomTreeRecursive st nodeptr buf : M membuffer :=
  print_tree (S (size st)) st nodeptr buf.

(** The element [n] without its siblings; [kids] and [stop] say what follows
    the start tag and the end tag. *)
Definition put_element st (n : IXML_Node) (kids stop : text) buf : M membuffer :=
  buf ← put (lit "<") buf;
  buf ← put_str (n_nodeName n) buf;
  buf ← match n_firstAttr n with
        | Some _ =>
            buf ← put (lit " ") buf; ixmlPrintDomTreeRecursive st (n_firstAttr n) buf
        | None => mret buf
        end;
  buf ← put (lit ">" ++ kids) buf;
  buf ← ixmlPrintDomTreeRecursive st (n_firstChild n) buf;
  buf ← put ENDTAG buf;
  buf ← put_str (n_nodeName n) buf;
  put (lit ">" ++ stop) buf.

Definition ixmlPrintDomTree st nodeptr buf : M membuffer :=
  match nodeptr with
  | None => mret buf
  | Some _ =>
      n ← liftO (rdn st nodeptr);
      match n_nodeType n with
      | eTEXT_NODE | eCDATA_SECTION_NODE | ePROCESSING_INSTRUCTION_NODE | eDOCUMENT_NODE =>
          ixmlPrintDomTreeRecursive st nodeptr buf
      | eATTRIBUTE_NODE => put_attr n buf
      | eELEMENT_NODE =>
          elem ← liftO (is_type st (n_firstChild n) eELEMENT_NODE);
          put_element st n (if elem : bool then CRLF else []) CRLF buf
      | _ => mret buf
      end
  end.

Definition ixmlDomTreetoString st nodeptr buf : M membuffer :=
  match nodeptr with
  | None => mret buf
  | Some _ =>
      n ← liftO (rdn st nodeptr);
      match n_nodeType n with
      | eTEXT_NODE | eCDATA_SECTION_NODE | ePROCESSING_INSTRUCTION_NODE | eDOCUMENT_NODE =>
          ixmlPrintDomTreeRecursive st nodeptr buf
      | eATTRIBUTE_NODE => put_attr n buf
      | eELEMENT_NODE => put_element st n [] [] buf
      | _ => mret buf
      end
  end.

(** ["<?xml version=\"1.0\"?>\r\n"]. *)
Definition XML_HEADER : text :=
  Eval vm_compute in cs "<?xml version=" ++ [DQUOTE] ++ cs "1.0" ++ [DQUOTE] ++ cs "?>" ++ CRLF.

(** The result is the string in the buffer, [NULL] when nothing was stored. *)
Definition printed (header : text) (print : membuffer -> M membuffer) : M DOMString :=
  buf ← (match header with [] => mret ixml_membuf_init | _ => put header ixml_membuf_init end);
  buf ← print buf;
  match mb_buf buf with
  | None => mret DNull
  | Some _ => s ← liftO (block_str (mb_buf buf)); mret (DStr s)
  end.

Definition ixmlPrintDocument st (doc : ptr) : M DOMString :=
  match doc with
  | None => mret DNull
  | Some _ => printed XML_HEADER (ixmlPrintDomTree st doc)
  end.
Definition ixmlPrintNode st (node : ptr) : M DOMString :=
  match node with
  | None => mret DNull
  | Some _ => printed [] (ixmlPrintDomTree st node)
  end.
Definition ixmlDocumenttoString st (doc : ptr) : M DOMString :=
  match doc with
  | None => mret DNull
  | Some _ => printed XML_HEADER (ixmlDomTreetoString st doc)
  end.
Definition ixmlNodetoString st (node : ptr) : M DOMString :=
  match node with
  | None => mret DNull
  | Some _ => printed [] (ixmlDomTreetoString st node)
  end.

Definition ixmlCloneDOMString (src : DOMString) : M DOMString :=
  match src with DNull => mret DNull | _ => strdup_of src end.
Definition ixmlFreeDOMString (buf : DOMString) : option DOMString :=
  _ ← free_str buf; Some (match buf with DNull => DNull | _ => DFreed end).

End Print.
