(* ===== verification/IxmlBuild.v ===== *)
(** Building a document from new nodes: what creating a node, appending it and
    giving it attributes do to the trees of [IxmlTree.v], when there is memory.
    The parser builds its documents this way. *)

From S2P Require Import Prelude CString FreeList XmlChars IxmlNode IxmlTree IxmlDom IxmlDocument.

(** A string without a NUL, as every [DOMString] points to. *)
Definition cstring (s : list Z) : Prop := Forall (fun c => c <> 0) s.

(** ** Creation *)

Lemma wrn_insert st c n f : wrn (<[c := Some n]> st) (Some c) f = Some (<[c := Some (f n)]> st).
Proof. unfold wrn. cbn. rewrite lookup_insert_eq. cbn. by rewrite insert_insert_eq. Qed.
Lemma rdn_insert st c n : rdn (<[c := Some n]> st) (Some c) = Some n.
Proof. unfold rdn. cbn. by rewrite lookup_insert_eq. Qed.

Lemma is_null_str s : is_null (DStr s) = false.
Proof. done. Qed.

Section Lucky.
Implicit Types (st : nodes) (c doc : loc) (n : IXML_Node).

Lemma strdup_lucky s (Q : DOMString -> Prop) :
  cstring s -> Q (DStr s) -> runs Lucky (strdup s) Q.
Proof.
  intros Hs HQ. unfold strdup. mstep. mstep; [|done]. mstep. by rewrite c_str_id.
Qed.
Lemma strdup_of_lucky s (Q : DOMString -> Prop) :
  cstring s -> Q (DStr s) -> runs Lucky (strdup_of (DStr s)) Q.
Proof.
  intros Hs HQ. unfold strdup_of. mstep. eapply runs_liftO; [done|].
  rewrite c_str_id by done. by apply strdup_lucky.
Qed.

Lemma malloc_node_lucky st (Q : ptr * nodes -> Prop) :
  (forall c, st !! c = None -> Q (Some c, <[c := None]> st)) -> runs Lucky (malloc_node st) Q.
Proof.
  intros HQ. unfold malloc_node. mstep. mstep; [|done]. mstep. apply HQ.
  apply not_elem_of_dom, is_fresh.
Qed.
Lemma init_node_fresh x st c : init_node x (<[c := None]> st) (Some c) = Some (<[c := Some (zero_node x)]> st).
Proof. unfold init_node. cbn. rewrite lookup_insert_eq. cbn. by rewrite insert_insert_eq. Qed.
Lemma alloc_node_lucky x st (Q : ptr * nodes -> Prop) :
  (forall c, st !! c = None -> Q (Some c, <[c := Some (zero_node x)]> st)) ->
  runs Lucky (alloc_node x st) Q.
Proof.
  intros HQ. unfold alloc_node. mstep. apply malloc_node_lucky. intros c Hc.
  mstep. eapply runs_liftO; [apply init_node_fresh|]. mstep. by apply HQ.
Qed.
Lemma store_copy_lucky set st c n v (Q : bool * nodes -> Prop) :
  cstring v -> Q (true, <[c := Some (set (DStr v) n)]> st) ->
  runs Lucky (store_copy set (<[c := Some n]> st) (Some c) v) Q.
Proof.
  intros Hv HQ. unfold store_copy. mstep. apply strdup_lucky; [done|].
  mstep. eapply runs_liftO; [apply wrn_insert|]. rewrite is_null_str. by mstep.
Qed.

(** A step of a construction: a write to the node under construction. *)
Ltac wr_new := mstep; eapply runs_liftO; [apply wrn_insert|].
Ltac copy_new := mstep; apply store_copy_lucky; [done|]; cbn [negb].
Ltac str_new := mstep; eapply runs_liftO; [done|]; rewrite ?c_str_id by done.

Definition new_element doc (name : list Z) : IXML_Node :=
  MkNode (DStr name) DNull eELEMENT_NODE DNull DNull DNull 0 None None None None None
    (Some doc) (XElement (DStr name)).
Lemma createElement_lucky st doc name (Q : Z * ptr * nodes -> Prop) :
  cstring name ->
  (forall c, st !! c = None ->
     Q (IXML_SUCCESS, Some c, <[c := Some (new_element doc name)]> st)) ->
  runs Lucky (ixmlDocument_createElementEx st (Some doc) (DStr name)) Q.
Proof.
  intros Hn HQ. unfold ixmlDocument_createElementEx. rewrite !bool_decide_false by done.
  rewrite ?is_null_str. cbn [orb]. mstep. apply alloc_node_lucky. intros c Hc.
  rewrite bool_decide_false by done. str_new. copy_new. wr_new. mstep.
  apply strdup_lucky; [done|]. wr_new. rewrite is_null_str. wr_new. mstep. by apply HQ.
Qed.

Definition new_leaf doc (t : IXML_NODE_TYPE) (name v : list Z) : IXML_Node :=
  MkNode (DStr name) (DStr v) t DNull DNull DNull 0 None None None None None (Some doc) XNode.
Lemma createTextNode_lucky st doc v (Q : Z * ptr * nodes -> Prop) :
  cstring v ->
  (forall c, st !! c = None ->
     Q (IXML_SUCCESS, Some c, <[c := Some (new_leaf doc eTEXT_NODE TEXTNODENAME v)]> st)) ->
  runs Lucky (ixmlDocument_createTextNodeEx st (Some doc) (DStr v)) Q.
Proof.
  intros Hv HQ. unfold ixmlDocument_createTextNodeEx. rewrite !bool_decide_false by done.
  rewrite ?is_null_str. cbn [orb]. mstep. apply alloc_node_lucky. intros c Hc.
  rewrite bool_decide_false by done. mstep.
  apply store_copy_lucky; [by repeat constructor|]. cbn [negb]. str_new. copy_new. wr_new.
  mstep. by apply HQ.
Qed.
Lemma createCDATASection_lucky st doc v (Q : Z * ptr * nodes -> Prop) :
  cstring v ->
  (forall c, st !! c = None ->
     Q (IXML_SUCCESS, Some c, <[c := Some (new_leaf doc eCDATA_SECTION_NODE CDATANODENAME v)]> st)) ->
  runs Lucky (ixmlDocument_createCDATASectionEx st (Some doc) (DStr v)) Q.
Proof.
  intros Hv HQ. unfold ixmlDocument_createCDATASectionEx. rewrite !bool_decide_false by done.
  rewrite ?is_null_str. cbn [orb]. mstep. apply alloc_node_lucky. intros c Hc.
  rewrite bool_decide_false by done. wr_new. mstep.
  apply store_copy_lucky; [by repeat constructor|]. cbn [negb]. str_new. copy_new. wr_new.
  mstep. by apply HQ.
Qed.

Definition new_attr doc (name : list Z) : IXML_Node :=
  MkNode (DStr name) DNull eATTRIBUTE_NODE DNull DNull DNull 0 None None None None None
    (Some doc) (XAttr 0 None).
Lemma createAttribute_lucky st doc name (Q : Z * ptr * nodes -> Prop) :
  cstring name ->
  (forall c, st !! c = None -> Q (IXML_SUCCESS, Some c, <[c := Some (new_attr doc name)]> st)) ->
  runs Lucky (ixmlDocument_createAttributeEx st (Some doc) (DStr name)) Q.
Proof.
  intros Hn HQ. unfold ixmlDocument_createAttributeEx. mstep.
  apply malloc_node_lucky. intros c Hc. rewrite !bool_decide_false by done. rewrite ?is_null_str. cbn [orb].
  mstep. eapply runs_liftO; [apply init_node_fresh|]. wr_new. str_new. copy_new. wr_new.
  mstep. by apply HQ.
Qed.

Definition new_document doc : IXML_Node :=
  MkNode (DStr DOCUMENTNODENAME) DNull eDOCUMENT_NODE DNull DNull DNull 0 None None None None
    None (Some doc) XNode.
Lemma createDocument_lucky st (Q : Z * ptr * nodes -> Prop) :
  (forall c, st !! c = None -> Q (IXML_SUCCESS, Some c, <[c := Some (new_document c)]> st)) ->
  runs Lucky (ixmlDocument_createDocumentEx st) Q.
Proof.
  intros HQ. unfold ixmlDocument_createDocumentEx. mstep. apply alloc_node_lucky. intros c Hc.
  rewrite bool_decide_false by done. mstep.
  apply store_copy_lucky; [by repeat constructor|]. cbn [negb]. wr_new. mstep. by apply HQ.
Qed.

(** *** Copying the properties *)

(** A field of a string that may be [NULL]. *)
Definition dcstring (d : DOMString) : Prop :=
  match d with DNull => True | DStr s => cstring s | DFreed => False end.

Lemma replace_str_lucky f set st c n v (Q : Z * nodes -> Prop) :
  f n <> DFreed -> dcstring v -> (forall d d', set d (set d' n) = set d n) ->
  Q (IXML_SUCCESS, <[c := Some (set v n)]> st) ->
  runs Lucky (replace_str f set (<[c := Some n]> st) (Some c) v) Q.
Proof.
  intros Hf Hv Hset HQ. unfold replace_str. mstep.
  eapply runs_liftO; [apply rdn_insert|]. mstep.
  apply (runs_liftO _ _ tt); [by destruct (f n)|]. wr_new. destruct v as [|s|]; [by mstep| |done].
  mstep. apply strdup_of_lucky; [done|]. wr_new. rewrite Hset, is_null_str. by mstep.
Qed.

Definition with_properties (src n : IXML_Node) : IXML_Node :=
  set_nodeType (n_nodeType src) (set_prefix (n_prefix src)
    (set_localName (n_localName src) (set_nodeValue (n_nodeValue src) n))).
Lemma setNodeProperties_lucky st c n src (Q : Z * nodes -> Prop) :
  Forall (fun d => d <> DFreed) [n_nodeValue n; n_localName n; n_prefix n] ->
  dcstring (n_nodeValue src) -> dcstring (n_localName src) -> dcstring (n_prefix src) ->
  Q (IXML_SUCCESS, <[c := Some (with_properties src n)]> st) ->
  runs Lucky (ixmlNode_setNodeProperties (<[c := Some n]> st) (Some c) src) Q.
Proof.
  intros Hf Hv Hl Hp HQ. apply Forall_cons in Hf as [F1 Hf]. apply Forall_cons in Hf as [F2 Hf].
  apply Forall_inv in Hf. unfold ixmlNode_setNodeProperties. mstep.
  apply runs_assert_true; [done|]. mstep. unfold ixmlNode_setNodeValue.
  apply replace_str_lucky; [done..|]. cbn [negb Z.eqb IXML_SUCCESS].
  mstep. unfold ixmlNode_setLocalName. mstep. apply runs_assert_true; [done|].
  apply replace_str_lucky; [done..|]. cbn [negb Z.eqb IXML_SUCCESS].
  mstep. unfold ixmlNode_setPrefix. apply replace_str_lucky; [done..|].
  cbn [negb Z.eqb IXML_SUCCESS]. wr_new. by mstep.
Qed.
End Lucky.

(** ** Trees that grow *)

Lemma snoc_snoc r c t : chain_snoc r (chain_snoc c t) = chain_snoc (chain_snoc r c) t.
Proof. induction t as [|l a k _ nx IH]; [done|]. cbn. by rewrite IH. Qed.

Lemma kids_of_out c t : c ∉ locs t -> kids_of c t = None.
Proof.
  intros H. destruct (kids_of c t) eqn:E; [|done].
  by destruct H; apply nlocs_locs; eapply kids_of_In.
Qed.

(** The last child [c] of a chain. *)
Lemma kids_of_last c a k t : c ∉ locs t -> kids_of c (chain_snoc (Node c a k Leaf) t) = Some k.
Proof.
  induction t as [|l b ks _ nx IH]; cbn; [by rewrite decide_True|].
  rewrite not_elem_of_cons, !not_elem_of_app. intros (H1 & _ & H3 & H4).
  by rewrite decide_False, kids_of_out, IH by done.
Qed.
Lemma edit_last c g a k t :
  c ∉ locs t -> edit c g (chain_snoc (Node c a k Leaf) t) = chain_snoc (Node c a (g k) Leaf) t.
Proof.
  induction t as [|l b ks _ nx IH]; cbn; [by rewrite decide_True|].
  rewrite not_elem_of_cons, !not_elem_of_app. intros (H1 & _ & H3 & H4).
  by rewrite decide_False, kids_of_out, IH by done.
Qed.

(** The node that was appended to the children of [x]. *)
Lemma kids_of_new x t K c a k :
  kids_of x t = Some K -> c ∉ locs t ->
  kids_of c (edit x (chain_snoc (Node c a k Leaf)) t) = Some k.
Proof.
  induction t as [|l b ks IH1 nx IH2]; [done|]. cbn [kids_of edit locs].
  rewrite not_elem_of_cons, !not_elem_of_app. intros Hx (H1 & _ & H3 & H4).
  destruct (decide (l = x)) as [->|Hl]; cbn [kids_of].
  - by rewrite decide_False, kids_of_last by done.
  - destruct (kids_of x ks) eqn:E; cbn [kids_of]; rewrite decide_False by done.
    + by rewrite IH1.
    + by rewrite kids_of_out, IH2 by done.
Qed.
Lemma edit_new x t K c a k g :
  kids_of x t = Some K -> c ∉ locs t ->
  edit c g (edit x (chain_snoc (Node c a k Leaf)) t) = edit x (chain_snoc (Node c a (g k) Leaf)) t.
Proof.
  induction t as [|l b ks IH1 nx IH2]; [done|]. cbn [kids_of edit locs].
  rewrite not_elem_of_cons, !not_elem_of_app. intros Hx (H1 & _ & H3 & H4).
  destruct (decide (l = x)) as [->|Hl]; cbn [edit].
  - by rewrite decide_False, kids_of_last, edit_last by done.
  - destruct (kids_of x ks) eqn:E; cbn [edit]; rewrite decide_False by done.
    + rewrite (kids_of_new _ _ _ _ _ _ E) by done. by rewrite IH1.
    + by rewrite kids_of_out, IH2 by done.
Qed.

Lemma dom_inv_live st ts l : dom_inv st ts -> l ∈ concat (locs <$> ts) -> is_Some (st !! l).
Proof.
  intros [Hr _] Hl. induction Hr as [|t ts Ht _ IH]; [by apply elem_of_nil in Hl|].
  cbn in Hl. apply elem_of_app in Hl as [Hl|Hl]; [|auto].
  destruct t as [|r a k [|]]; [done| |done]. by eapply tree_at_live.
Qed.
Lemma dom_inv_fresh st ts c : dom_inv st ts -> st !! c = None -> c ∉ concat (locs <$> ts).
Proof. intros Hd Hc Hin. destruct (dom_inv_live _ _ _ Hd Hin) as [? E]. by rewrite Hc in E. Qed.

(** Nodes keep their data. *)
Definition kept (st st' : nodes) (l : loc) : Prop :=
  forall n, st !! l = Some (Some n) -> exists n', st' !! l = Some (Some n') /\ unlinked n' = unlinked n.
Lemma kept_refl st l : kept st st l.
Proof. intros n Hn. eauto. Qed.
Lemma kept_trans st1 st2 st3 l : kept st1 st2 l -> kept st2 st3 l -> kept st1 st3 l.
Proof. intros H1 H2 n Hn. destruct (H1 n Hn) as (n' & Hn' & <-). by apply H2. Qed.
Lemma kept_insert st c n l : st !! c = None -> kept st (<[c := n]> st) l.
Proof.
  intros Hc m Hm. exists m. split; [|done]. rewrite lookup_insert_ne; [done|].
  intros ->. by rewrite Hc in Hm.
Qed.
Lemma data_kept_kept st st' l : data_kept st st' -> kept st st' l.
Proof.
  intros H n Hn. specialize (H l). rewrite Hn in H. destruct (st' !! l) as [[n'|]|]; try done.
  exists n'. split; [done|]. by do 2 apply (inj Some) in H.
Qed.

(** A node without relatives, of the document [doc]. *)
Definition single (doc : loc) (n : IXML_Node) : Prop :=
  node_ok n /\ unlinked n = n /\ n_firstAttr n = None /\ n_ownerDocument n = Some doc.

Lemma single_root st doc c n : st !! c = Some (Some n) -> single doc n -> root_at st (Node c [] Leaf Leaf).
Proof.
  intros Hc (Ho & Hu & Ha & _). split; [done|]. exists n.
  do 2 (split; [done|]). cbn. rewrite Ha, <- Hu. done.
Qed.

Lemma append_new_runs md st T ts x K nx c n doc :
  dom_inv st (T :: ts) -> kids_of x T = Some K -> st !! x = Some (Some nx) ->
  n_ownerDocument nx = Some doc -> st !! c = None -> single doc n ->
  allow_types (n_nodeType nx) (n_nodeType n) = true ->
  runs md (ixmlNode_appendChild (<[c := Some n]> st) (Some x) (Some c)) (fun '(rc, st') =>
    rc = IXML_SUCCESS /\ dom_inv st' (edit x (chain_snoc (Node c [] Leaf Leaf)) T :: ts) /\
    (exists n', st' !! c = Some (Some n') /\ unlinked n' = n) /\ forall l, kept st st' l).
Proof.
  intros Hd Hx Hnx Hox Hc Hs Hal. pose proof (dom_inv_fresh _ _ _ Hd Hc) as Hfr.
  assert (x <> c) as Hxc by (intros ->; by rewrite Hc in Hnx).
  assert (dom_inv (<[c := Some n]> st) (Node c [] Leaf Leaf :: T :: ts)) as Hd'.
  { apply dom_inv_cons. split; [eapply single_root; [apply lookup_insert_eq|done]|].
    split; [by apply NoDup_singleton|]. split.
    - apply (dom_inv_frame st); [done|]. intros l Hl. rewrite lookup_insert_ne; [done|].
      by intros ->.
    - intros l ->%list_elem_of_singleton. done. }
  destruct Hs as (Ho & Hu & Ha & Hod).
  eapply runs_mono; [apply (appendChild_runs md _ c (Node c [] Leaf Leaf) T ts x K nx n)|].
  - split; [by exists [], Leaf|by left].
  - done.
  - by rewrite lookup_insert_ne.
  - apply lookup_insert_eq.
  - intros [rc st']. unfold wrong_document. rewrite Hox, Hod, Hal.
    rewrite (bool_decide_false (Some doc <> Some doc)) by congruence. rewrite andb_false_r.
    intros (-> & Hd2 & Hk). split; [done|].
    rewrite (edit_ext x _ (chain_snoc (Node c [] Leaf Leaf)) T K Hx) in Hd2.
    2: { f_equal. apply chain_remove_out. intros H%sibs_locs. apply Hfr. cbn.
         rewrite elem_of_app, (kids_of_perm _ _ _ Hx), elem_of_app. tauto. }
    split; [done|]. split.
    + destruct (data_kept_kept _ _ c Hk (set_ownerDocument (Some doc) n)) as (n' & Hn' & Hun).
      { by apply upd_here, lookup_insert_eq. }
      exists n'. split; [done|]. rewrite Hun, <- Hod, <- Hu. done.
    + intros l. eapply kept_trans; [by apply (kept_insert _ c (Some n))|].
      intros m Hm. destruct (decide (l = c)) as [->|Hl].
      * rewrite lookup_insert_eq in Hm. injection Hm as <-.
        destruct (data_kept_kept _ _ c Hk (set_ownerDocument (Some doc) n)) as (n' & Hn' & Hun).
        { by apply upd_here, lookup_insert_eq. }
        exists n'. split; [done|]. rewrite Hun, <- Hod. done.
      * apply (data_kept_kept _ _ l Hk). by rewrite upd_other by congruence.
Qed.

(** ** Attributes *)

(** The names of the attributes of an element. *)
Definition attr_names (st : nodes) (a : list loc) (names : list (list Z)) : Prop :=
  Forall2 (fun l nm => exists n, st !! l = Some (Some n) /\ n_nodeName n = DStr nm) a names.

Lemma find_attr_runs md st test a : forall fuel p,
  attrs_at st p a -> (length a < fuel)%nat ->
  (forall l n, l ∈ a -> st !! l = Some (Some n) -> test n = Some false) ->
  runs md (find_attr test fuel st p) (fun r => r = None).
Proof.
  induction a as [|l a IH]; intros [|fuel] p Ha Hf Ht; try (cbn in Hf; lia).
  - cbn in Ha. subst p. cbn. by mstep.
  - destruct Ha as (-> & n & Hn & _ & Ha). cbn [find_attr]. rd_step. mstep.
    eapply runs_liftO; [by apply (Ht l); [left|]|]. apply IH; [done|cbn in Hf; lia|].
    intros l' n' Hl'. apply Ht. by right.
Qed.

Lemma attr_names_test st a names nm l n :
  attr_names st a names -> Forall cstring names -> cstring nm -> nm ∉ names ->
  l ∈ a -> st !! l = Some (Some n) ->
  exists v, n_nodeName n = DStr v /\ cstring v /\ strcmp_eq v nm = false /\ strcmp_eq nm v = false.
Proof.
  intros Hn Hc Hnm Hni Hl Hst. apply list_elem_of_lookup_1 in Hl as [i Hi].
  destruct (Forall2_lookup_l _ _ _ _ _ Hn Hi) as (v & Hv & n' & Hn' & Hnv).
  assert (n' = n) as -> by congruence. exists v. split; [done|].
  pose proof (Forall_lookup_1 _ _ _ _ Hc Hv) as Hcv. split; [done|].
  apply list_elem_of_lookup_2 in Hv. unfold strcmp_eq. rewrite !c_str_id by done.
  split; apply bool_decide_false; congruence.
Qed.

Lemma last_attr_runs md st a fuel p q :
  attrs_at st p a -> (length a < fuel)%nat ->
  runs md (last_along n_nextSibling fuel st q p) (fun r =>
    r = match last a with Some z => Some z | None => q end).
Proof.
  revert fuel p q. induction a as [|l a IH]; intros [|fuel] p q Ha Hf; try (cbn in Hf; lia).
  - cbn in Ha. subst p. cbn. by mstep.
  - destruct Ha as (-> & n & Hn & _ & Ha). cbn [last_along]. rd_step.
    eapply runs_mono; [apply IH; [exact Ha|cbn in Hf; lia]|]. intros r ->.
    destruct a as [|l' a]; [done|]. change (last (l :: l' :: a)) with (last (l' :: a)).
    by destruct (last (l' :: a)) eqn:E; [|apply last_None in E].
Qed.

Lemma attrs_snoc st st' p a z b nb :
  attrs_at st p a -> last a = Some z -> NoDup a ->
  (forall l, l ∈ a -> l <> z -> st' !! l = st !! l) ->
  st' !! z = fmap (set_nextSibling (Some b)) <$> st !! z ->
  st' !! b = Some (Some nb) -> node_ok nb -> n_nextSibling nb = None ->
  attrs_at st' p (a ++ [b]).
Proof.
  intros Ha Hz Hnd Hf Hz' Hb Hob Hnb. revert p Ha. induction a as [|l a IH]; [done|].
  intros p (-> & n & Hn & Ho & Ha). apply NoDup_cons in Hnd as [Hl Hnd]. cbn.
  split; [done|]. destruct a as [|l' a].
  - injection Hz as ->. rewrite Hn in Hz'. exists (set_nextSibling (Some b) n).
    split; [done|]. split; [exact Ho|]. split; [done|]. by exists nb.
  - change (last (l :: l' :: a)) with (last (l' :: a)) in Hz.
    assert (l <> z) as Hlz.
    { intros ->. apply Hl. apply list_elem_of_lookup_2 with (length (l' :: a) - 1)%nat.
      by rewrite last_lookup in Hz; rewrite <- Hz; f_equal; cbn; lia. }
    exists n. rewrite Hf by (done || by left). split; [done|]. split; [done|].
    apply IH; [done..| |exact Ha]. intros k Hk. apply Hf. by right.
Qed.

(** The attributes of the last child change. *)
Lemma last_child_at st st' K par prev p c a a' k n n' :
  tree_at st par prev p (chain_snoc (Node c a k Leaf) K) ->
  st !! c = Some (Some n) -> st' !! c = Some (Some n') -> node_ok n' ->
  (n_parentNode n', n_prevSibling n', n_nextSibling n', n_firstChild n') =
    (n_parentNode n, n_prevSibling n, n_nextSibling n, n_firstChild n) ->
  attrs_at st' (n_firstAttr n') a' ->
  (forall l, l ∈ locs K \/ l ∈ locs k -> st' !! l = st !! l) ->
  tree_at st' par prev p (chain_snoc (Node c a' k Leaf) K).
Proof.
  intros Ht Hn Hn' Ho [= E1 E2 E3 E4] Ha' Hf. revert par prev p Ht.
  induction K as [|l b ks _ nx IH]; intros par prev p Ht; cbn [chain_snoc] in *.
  - destruct Ht as (-> & m & Hm & _ & Hpar & Hprev & _ & Hk & Hx).
    assert (m = n) as -> by congruence. split; [done|]. exists n'.
    split; [done|]. split; [done|]. rewrite E1, E2, E3, E4. split; [done|]. split; [done|].
    split; [done|]. split; [|done]. apply (tree_at_frame st); [done|]. auto.
  - destruct Ht as (-> & m & Hm & Hom & Hpar & Hprev & Hb & Hk & Hx). split; [done|].
    exists m. rewrite Hf by (left; by left). do 4 (split; [done|]).
    split; [apply (attrs_at_frame st); [done|]; intros; apply Hf; left; in_locs|].
    split; [apply (tree_at_frame st); [done|]; intros; apply Hf; left; in_locs|].
    apply IH; [|done]. intros y Hy. apply Hf. in_locs.
Qed.

Lemma last_child_ok st K par prev p c a k n :
  tree_at st par prev p (chain_snoc (Node c a k Leaf) K) -> st !! c = Some (Some n) ->
  node_ok n /\ attrs_at st (n_firstAttr n) a.
Proof.
  intros Ht Hn. destruct (tree_at_subtree st (Node c a k Leaf) _ _ _ _ Ht)
    as (q1 & q2 & q3 & _ & m & Hm & Ho & _ & _ & Ha & _).
  { clear. induction K; cbn; [constructor|by constructor]. }
  by assert (m = n) as -> by congruence.
Qed.

Lemma attr_nodup T ts x K c a b :
  kids_of x T = Some K ->
  NoDup (concat (locs <$> edit x (chain_snoc (Node c a Leaf Leaf)) T :: ts)) ->
  b ∉ concat (locs <$> edit x (chain_snoc (Node c a Leaf Leaf)) T :: ts) ->
  NoDup (concat (locs <$> edit x (chain_snoc (Node c (a ++ [b]) Leaf Leaf)) T :: ts)).
Proof.
  intros Hx. cbn [fmap list_fmap concat].
  rewrite (edit_perm x (chain_snoc (Node c a Leaf Leaf)) T K Hx).
  rewrite (edit_perm x (chain_snoc (Node c (a ++ [b]) Leaf Leaf)) T K Hx), !snoc_perm.
  assert (forall A, (locs (Node c (a ++ [b]) Leaf Leaf) ++ A) ≡ₚ
    b :: locs (Node c a Leaf Leaf) ++ A) as Hp.
  { intros A. cbn. rewrite !app_nil_r, <- app_assoc. cbn. rewrite Permutation_swap. f_equiv. by rewrite Permutation_middle. }
  rewrite <- !app_assoc, Hp. intros Hnd Hb. by constructor.
Qed.

Lemma attr_dom st st' T ts x K c a n n' b :
  dom_inv st (edit x (chain_snoc (Node c a Leaf Leaf)) T :: ts) -> kids_of x T = Some K ->
  st !! c = Some (Some n) -> st !! b = None ->
  st' !! c = Some (Some n') -> n' = n \/ n' = set_firstAttr (Some b) n ->
  attrs_at st' (n_firstAttr n') (a ++ [b]) ->
  (forall l, l ∉ c :: b :: a -> st' !! l = st !! l) ->
  dom_inv st' (edit x (chain_snoc (Node c (a ++ [b]) Leaf Leaf)) T :: ts).
Proof.
  intros Hd Hx Hn Hb Hn' Hnn Ha Hf. set (C := Node c a Leaf Leaf) in *.
  set (C' := Node c (a ++ [b]) Leaf Leaf) in *. pose proof (dom_inv_fresh _ _ _ Hd Hb) as Hbf.
  pose proof (kids_of_edit x (chain_snoc C) _ _ Hx) as Hx1.
  destruct (dom_node _ _ _ _ _ Hd Hx1) as (nx & Hnx & Hk & K1 & K2 & K3 & K4 & _).
  assert (forall l, l ∈ c :: a -> l ∈ locs (chain_snoc C K)) as Hin.
  { intros l Hl. rewrite snoc_perm, elem_of_app. left. cbn. rewrite app_nil_r. exact Hl. }
  assert (forall l, l ∈ locs K -> l ∉ c :: a) as HK.
  { intros l Hl Hl'. rewrite snoc_perm, NoDup_app in K1. destruct K1 as (_ & K1 & _).
    apply (K1 l); [|done]. cbn. by rewrite app_nil_r. }
  assert (forall l, l ∈ concat (locs <$> edit x (chain_snoc C) T :: ts) -> l <> b) as Hlb
    by (intros l Hl ->; done).
  assert (locs (edit x (chain_snoc C) T) ≡ₚ locs (chain_snoc C K) ++
    locs (edit x (fun _ => Leaf) (edit x (chain_snoc C) T))) as Hp by (by apply kids_of_perm).
  assert (edit x (chain_snoc C') T = edit x (fun _ => chain_snoc C' K) (edit x (chain_snoc C) T))
    as ET by (rewrite edit_edit; by apply (edit_ext x _ _ T K)).
  pose proof Hd as Hd2. apply dom_inv_cons in Hd2 as (_ & _ & Hts & Hap).
  split.
  - constructor.
    + rewrite ET. apply (edit_inv st st' _ ts x nx (n_firstChild nx) _ _ Hd Hx1 Hnx).
      * rewrite Hf, Hnx; [by destruct nx|]. rewrite !not_elem_of_cons.
        split; [intros ->; by apply K2, Hin; left|]. split.
        -- intros ->. by rewrite Hb in Hnx.
        -- intros H. apply K2, Hin. by right.
      * intros l Hl Hlx. apply Hf. rewrite !not_elem_of_cons.
        assert (l ∉ c :: a) as Hl' by (intros H; by apply (K3 l (Hin l H))).
        rewrite not_elem_of_cons in Hl'. split; [tauto|]. split; [|tauto]. apply Hlb. cbn.
        rewrite elem_of_app, Hp, elem_of_app. tauto.
      * destruct (last_child_ok _ _ _ _ _ _ _ _ _ Hk Hn) as [Ho _].
        apply (last_child_at st _ _ _ _ _ _ a _ _ n n'); try done;
          [by destruct Hnn as [->| ->]..|].
        intros l [Hl|Hl]; [|by apply elem_of_nil in Hl]. apply Hf. specialize (HK l Hl).
        rewrite not_elem_of_cons in *. rewrite not_elem_of_cons. split; [tauto|].
        split; [|tauto]. apply Hlb. cbn. rewrite elem_of_app, Hp, elem_of_app, snoc_perm, elem_of_app.
        tauto.
    + apply (dom_inv_frame st st' ts Hts). intros l Hl. apply Hf.
      assert (l ∉ c :: a) as Hl'.
      { intros H. apply (Hap l); [|done]. rewrite Hp, elem_of_app. left. by apply Hin. }
      rewrite not_elem_of_cons in Hl'. rewrite !not_elem_of_cons. split; [tauto|].
      split; [|tauto]. apply Hlb. cbn. rewrite elem_of_app. by right.
  - eapply attr_nodup; [done|apply (proj2 Hd)|done].
Qed.

(** The store after [b] was made the last attribute of [c]. *)
Definition attr_linked st c a n b nb st' : Prop :=
  (exists n', st' !! c = Some (Some n') /\ (n' = n \/ n' = set_firstAttr (Some b) n) /\
     attrs_at st' (n_firstAttr n') (a ++ [b])) /\
  (exists nb', st' !! b = Some (Some nb') /\ unlinked nb' = unlinked nb) /\
  (forall l, l ∉ c :: b :: a -> st' !! l = st !! l) /\ (forall l, l ∈ a -> kept st st' l).

Lemma attr_linked_kept st c a n b nb st' l :
  attr_linked st c a n b nb st' -> st !! b = None -> l <> c -> kept st st' l.
Proof.
  intros (_ & _ & Hf & Hk) Hb Hl. destruct (decide (l ∈ a)) as [H|H]; [by apply Hk|].
  destruct (decide (l = b)) as [->|Hlb]; [intros m Hm; by rewrite Hb in Hm|].
  intros m Hm. exists m. split; [|done]. rewrite Hf; [done|].
  by rewrite !not_elem_of_cons.
Qed.

Lemma first_attr_linked st c n b nb :
  c <> b -> node_ok nb -> st !! c = Some (Some n) ->
  exists st', first_attr (<[b := Some nb]> st) (Some c) (Some b) = Some st' /\
    attr_linked st c [] n b nb st'.
Proof.
  intros Hcb Ho Hn. unfold first_attr. rewrite (wrn_at _ c n) by (by rewrite lookup_insert_ne).
  cbn [mbind option_bind]. rewrite (wrn_at _ b nb).
  2: { rewrite lookup_insert_ne by done. apply lookup_insert_eq. }
  eexists. split; [done|]. split; [|split; [|split]].
  - exists (set_firstAttr (Some b) n). rewrite lookup_insert_ne, lookup_insert_eq by done.
    split; [done|]. split; [by right|]. cbn. split; [done|]. eexists. rewrite lookup_insert_eq. done.
  - eexists. by rewrite lookup_insert_eq.
  - intros l Hl. rewrite !not_elem_of_cons in Hl. by rewrite !lookup_insert_ne by naive_solver.
  - intros l Hl. by apply elem_of_nil in Hl.
Qed.

Lemma last_attr_linked st c a n b nb z :
  c <> b -> c ∉ a -> b ∉ a -> NoDup a -> node_ok nb -> n_nextSibling nb = None ->
  st !! c = Some (Some n) -> attrs_at st (n_firstAttr n) a -> last a = Some z ->
  exists st1 st', wrn (<[b := Some nb]> st) (Some z) (set_nextSibling (Some b)) = Some st1 /\
    wrn st1 (Some b) (set_prevSibling (Some z)) = Some st' /\ attr_linked st c a n b nb st'.
Proof.
  intros Hcb Hca Hba Hnd Ho Hnx Hn Ha Hz.
  assert (z ∈ a) as Hza by (rewrite last_lookup in Hz; by eapply list_elem_of_lookup_2).
  assert (exists nz, st !! z = Some (Some nz)) as [nz Hnz].
  { clear -Ha Hza. revert Ha. generalize (n_firstAttr n).
    induction a as [|l a IH]; [by apply elem_of_nil in Hza|]. intros p (-> & m & Hm & _ & Ha).
    apply elem_of_cons in Hza as [->|H]; eauto. }
  assert (z <> b) as Hzb by (by intros ->).
  assert (c <> z) as Hcz by (by intros ->).
  do 2 eexists. split; [apply (wrn_at _ z nz); by rewrite lookup_insert_ne|].
  split; [apply (wrn_at _ b nb); rewrite lookup_insert_ne by done; apply lookup_insert_eq|].
  split; [|split; [|split]].
  - exists n. rewrite !lookup_insert_ne by done. split; [done|]. split; [by left|].
    apply (attrs_snoc st _ _ _ z _ (set_prevSibling (Some z) nb)); try done.
    + intros l Hl Hlz. rewrite !lookup_insert_ne; [done|by intros ->|congruence|by intros ->].
    + rewrite lookup_insert_ne, lookup_insert_eq, Hnz by done. done.
    + apply lookup_insert_eq.
  - eexists. by rewrite lookup_insert_eq.
  - intros l Hl. rewrite !not_elem_of_cons in Hl.
    rewrite !lookup_insert_ne; [done|naive_solver..].
  - intros l Hl m Hm. rewrite lookup_insert_ne by (by intros ->).
    destruct (decide (z = l)) as [->|Hzl].
    + rewrite lookup_insert_eq. eexists. split; [done|]. by assert (m = nz) as -> by congruence.
    + rewrite !lookup_insert_ne by (done || by intros ->). eauto.
Qed.

Lemma setAttributeNode_lucky st T ts x K c a n b nb doc nm names :
  dom_inv st (edit x (chain_snoc (Node c a Leaf Leaf)) T :: ts) -> kids_of x T = Some K ->
  st !! c = Some (Some n) -> n_ownerDocument n = Some doc -> st !! b = None ->
  node_ok nb -> n_ownerDocument nb = Some doc -> n_ext nb = XAttr 0 None ->
  n_nodeType nb = eATTRIBUTE_NODE -> n_nextSibling nb = None -> n_nodeName nb = DStr nm ->
  cstring nm -> attr_names st a names -> Forall cstring names -> nm ∉ names ->
  runs Lucky (ixmlElement_setAttributeNode (<[b := Some nb]> st) (Some c) (Some b) false)
    (fun '(rc, _, st') => rc = IXML_SUCCESS /\
       dom_inv st' (edit x (chain_snoc (Node c (a ++ [b]) Leaf Leaf)) T :: ts) /\
       (exists p, st' !! c = Some (Some (set_firstAttr p n))) /\
       (exists nb', st' !! b = Some (Some nb') /\
          unlinked nb' = unlinked (set_ownerElement (Some c) nb)) /\
       forall l, l <> c -> kept st st' l).
Proof.
  intros Hd Hx Hn Hon Hb Hob Hodb Hext Hty Hnx Hnm Hcnm Hnames Hcn Hni.
  pose proof (kids_of_edit x (chain_snoc (Node c a Leaf Leaf)) _ _ Hx) as Hx1.
  destruct (dom_node _ _ _ _ _ Hd Hx1) as (m & Hm & Hk & K1 & _).
  destruct (last_child_ok _ _ _ _ _ _ _ _ _ Hk Hn) as [Ho Ha].
  assert (NoDup (c :: a)) as Hnd.
  { rewrite snoc_perm in K1. cbn in K1. rewrite app_nil_r in K1.
    by apply (NoDup_app (c :: a)) in K1 as (? & _). }
  apply NoDup_cons in Hnd as [Hca Hnd].
  assert (c <> b) as Hcb by (intros ->; by rewrite Hb in Hn).
  assert (b ∉ a) as Hba.
  { intros H. destruct (attrs_at_live _ _ _ _ Ha H) as [? E]. by rewrite Hb in E. }
  set (nb1 := set_ownerElement (Some c) nb).
  assert (node_ok nb1 /\ n_nextSibling nb1 = None) as [Hob1 Hnx1].
  { unfold nb1, set_ownerElement. rewrite Hext. split; [|done]. destruct Hob as [H1 H2].
    split; [done|]. cbn. by rewrite Hty. }
  assert (forall q, attrs_at st q a -> attrs_at (<[b := Some nb1]> st) q a) as Ha1.
  { intros q Hq. apply (attrs_at_frame st); [done|]. intros l Hl. rewrite lookup_insert_ne; [done|].
    by intros ->. }
  unfold ixmlElement_setAttributeNode. rewrite !bool_decide_false by done. cbn [orb].
  mstep. eapply runs_liftO; [apply rdn_insert|].
  mstep. eapply runs_liftO; [apply (rdn_at _ _ n); by rewrite lookup_insert_ne|].
  rewrite Hodb, Hon, bool_decide_false by (intros H; by apply H).
  mstep. eapply runs_liftO; [unfold owner_of; by rewrite Hext|]. rewrite bool_decide_false by (intros H; by apply H).
  mstep. eapply runs_liftO; [apply wrn_insert|]. fold nb1. mstep. unfold attr_where.
  mstep. eapply runs_liftO; [apply (rdn_at _ _ n); by rewrite lookup_insert_ne|].
  pose proof (attrs_at_size _ _ _ (Ha1 _ Ha) Hnd).
  eapply runs_mono; [apply (find_attr_runs _ _ _ a); [by apply Ha1|lia|]|].
  { intros l k Hl Hlk. rewrite lookup_insert_ne in Hlk by (by intros ->).
    destruct (attr_names_test _ _ _ _ _ _ Hnames Hcn Hcnm Hni Hl Hlk) as (v & Hv & Hcv & Hf & _).
    rewrite Hv, Hnm. cbn. by rewrite (c_str_id v), (c_str_id nm), Hf by done. }
  intros r ->. mstep. eapply runs_liftO; [apply (rdn_at _ _ n); by rewrite lookup_insert_ne|].
  assert (forall st', attr_linked st c a n b nb1 st' ->
    IXML_SUCCESS = IXML_SUCCESS /\
    dom_inv st' (edit x (chain_snoc (Node c (a ++ [b]) Leaf Leaf)) T :: ts) /\
    (exists p, st' !! c = Some (Some (set_firstAttr p n))) /\
    (exists nb', st' !! b = Some (Some nb') /\ unlinked nb' = unlinked nb1) /\
    forall l, l <> c -> kept st st' l) as Hpost.
  { intros st' Hl. split; [done|]. pose proof Hl as ((n' & Hn' & En & Ha') & Hb' & Hf & _).
    split; [by eapply attr_dom|]. split.
    - destruct En as [->| ->]; [|by eauto]. exists (n_firstAttr n). rewrite Hn'. by destruct n.
    - split; [done|]. intros l Hlc. by eapply attr_linked_kept. }
  mstep. destruct a as [|l0 a].
  - cbn in Ha. rewrite Ha.
    destruct (first_attr_linked st c n b nb1) as (st' & Hst' & Hl); [done..|].
    eapply runs_liftO; [exact Hst'|]. mstep. by apply Hpost.
  - pose proof Ha as (Hfa & f0 & Hf0 & _ & Ha0). rewrite Hfa.
    assert (l0 <> b) as Hl0 by (intros ->; apply Hba; by left).
    mstep. eapply runs_liftO; [apply (rdn_at _ _ f0); by rewrite lookup_insert_ne|].
    mstep. apply NoDup_cons in Hnd as Hnd0. destruct Hnd0 as [_ Hnd0].
    eapply runs_mono; [apply (last_attr_runs _ _ a)|].
    + apply (attrs_at_frame st); [done|]. intros l Hl. rewrite lookup_insert_ne; [done|].
      intros ->. apply Hba. by right.
    + cbn in *. lia.
    + intros r ->. destruct (last (l0 :: a)) as [z|] eqn:Ez; [|by apply last_None in Ez].
      assert (match last a with Some z => Some z | None => Some l0 end = Some z) as ->.
      { rewrite <- Ez. destruct a as [|l1 a]; [done|].
        change (last (l0 :: l1 :: a)) with (last (l1 :: a)).
        by destruct (last (l1 :: a)) eqn:E; [|apply last_None in E]. }
      destruct (last_attr_linked st c (l0 :: a) n b nb1 z) as (st1 & st' & H1 & H2 & Hl); [done..|].
      mstep. eapply runs_liftO; [exact H1|]. eapply runs_liftO; [exact H2|]. mstep.
      by apply Hpost.
Qed.
