(* ===== verification/XmlText.v ===== *)
(** The token buffer of the XML parser and the coding of text: what the
    functions of [XmlParser.v] that read characters do on well-formed text. *)

From S2P Require Import Prelude CString MemBuffer FreeList XmlChars IxmlNode IxmlDocument XmlParser XmlPrint.

(** ** Token buffers *)

(** The buffer holds the string [s]; it has a block unless the string is empty. *)
Record buf_holds (m : membuffer) (s : text) : Prop := {
  bh_wf : mb_wf m;
  bh_inc : mb_size_inc m = MEMBUF_SIZE_INC;
  bh_contents : contents m = s;
  bh_chars : Forall (fun c => c <> 0) s;
  bh_block : match mb_buf m with None => s = [] | Some _ => s <> [] /\ terminated m end
}.

Lemma init_holds : buf_holds ixml_membuf_init [].
Proof. split; [|done..]. split; cbn; try done; unfold MB_MAX, INT_MAX; lia. Qed.

Lemma holds_length m s : buf_holds m s -> mb_length m = zlen s.
Proof. intros [Hw _ <- _ _]. by rewrite zlen_contents. Qed.

Lemma no_nul_strlen s : Forall (fun c => c <> 0) s -> strlen s = zlen s.
Proof. intros H. unfold strlen. by rewrite c_str_id. Qed.

Lemma c_str_until s t : Forall (fun c => c <> 0) s -> rd t 0 = 0 -> c_str (s ++ t) = s.
Proof.
  intros Hs Ht. induction Hs as [|c s Hc _ IH]; cbn.
  - destruct t as [|x t]; [done|]. rewrite rd_cons_0 in Ht. cbn [app c_str]. by subst x.
  - destruct (Z.eqb_spec c 0); [done|]. by rewrite IH.
Qed.

Lemma holds_str m s b : buf_holds m s -> mb_buf m = Some b -> block_str (Some b) = Some s.
Proof.
  intros Hh Hb. pose proof (holds_length _ _ Hh) as Hlen.
  destruct Hh as [Hw _ Hc Hs Hblk]. rewrite Hb in Hblk. destruct Hblk as (Hne & b' & Hb' & Hnul).
  assert (b' = b) as -> by congruence. unfold contents in Hc. rewrite Hb in Hc. cbn in Hc.
  pose proof (wf_block _ Hw) as Hblk. rewrite Hb in Hblk.
  pose proof (wf_capacity _ Hw). pose proof (wf_length _ Hw).
  assert (zdrop (mb_length m) b = 0 :: zdrop (mb_length m + 1) b) as Hd.
  { rewrite (zdrop_rd b (mb_length m)) by lia. by rewrite Hnul. }
  assert (b = s ++ 0 :: zdrop (mb_length m + 1) b) as Eb.
  { rewrite <- Hd, <- Hc. by rewrite ztake_zdrop. }
  unfold block_str. cbn [mbind option_bind]. rewrite Eb.
  rewrite existsb_app. cbn. rewrite orb_true_r. by rewrite c_str_until.
Qed.
Lemma holds_token p s :
  buf_holds (px_tokenBuf p) s -> s <> [] -> cur_token p = Some s /\ is_Some (mb_buf (px_tokenBuf p)).
Proof.
  intros Hh Hs. unfold cur_token. pose proof (bh_block _ _ Hh) as Hb.
  destruct (mb_buf (px_tokenBuf p)) as [b|] eqn:E; [|done]. split; [by eapply holds_str|done].
Qed.

Section Buffers.
Context (junk : Z).

Lemma insert_holds m s d :
  buf_holds m s -> d <> [] -> Forall (fun c => c <> 0) d -> zlen s + zlen d <= MB_MAX ->
  runs Lucky (ixml_membuf_insert junk m (Some d) (zlen d) (mb_length m))
    (fun '(rc, m') => rc = 0 /\ buf_holds m' (s ++ d)).
Proof.
  intros Hh Hd Hd0 Hmax. pose proof (holds_length _ _ Hh) as Hlen. destruct Hh as [Hw Hi Hc Hs Hb].
  unfold ixml_membuf_insert. mstep.
  pose proof (wf_length _ Hw). pose proof (zlen_contents _ Hw) as Hzc.
  eapply runs_mono; [apply (insert_runs junk Lucky m d (mb_length m)); [done|lia|done|lia]|].
  intros [r m'] [(-> & Ht & Hw' & Hc' & Hi')|(? & _)]; [|done]. mstep. split; [done|].
  rewrite ztake_all, zdrop_all, app_nil_r in Hc' by lia. split; try done.
  - by rewrite Hi'.
  - by rewrite Hc', Hc.
  - by apply Forall_app.
  - destruct Ht as (b & Hb' & Hn). rewrite Hb'. split; [by destruct s|by exists b].
Qed.

Lemma append_str_holds m s d :
  buf_holds m s -> d <> [] -> Forall (fun c => c <> 0) d -> zlen s + zlen d <= MB_MAX ->
  runs Lucky (ixml_membuf_append_str junk m d) (fun '(rc, m') => rc = 0 /\ buf_holds m' (s ++ d)).
Proof. intros. unfold ixml_membuf_append_str. rewrite no_nul_strlen by done. by apply insert_holds. Qed.
Lemma append_char_holds m s c :
  buf_holds m s -> c <> 0 -> zlen s + 1 <= MB_MAX ->
  runs Lucky (ixml_membuf_append junk m c) (fun '(rc, m') => rc = 0 /\ buf_holds m' (s ++ [c])).
Proof. intros. apply (insert_holds m s [c]); try done. by constructor. Qed.

Lemma assign_holds m s d :
  buf_holds m s -> d <> [] -> Forall (fun c => c <> 0) d -> zlen d <= MB_MAX ->
  runs Lucky (ixml_membuf_assign_str junk m d) (fun '(rc, m') => rc = 0 /\ buf_holds m' d).
Proof.
  intros Hh Hd Hd0 Hmax. pose proof Hh as [Hw Hi Hc Hs Hb].
  assert (0 < zlen d) by (destruct d; [done|rewrite zlen_cons; pose proof (zlen_nonneg d); lia]).
  pose proof (assign_runs junk Lucky m d (zlen d) Hw ltac:(lia) Hmax) as Ha.
  unfold ixml_membuf_assign_str, ixml_membuf_assign. rewrite no_nul_strlen by done.
  unfold membuffer_assign in Ha. intros o Ho. specialize (Ha o Ho).
  unfold ixml_membuf_set_size, mbind, M_bind in *.
  destruct (membuffer_set_size junk m (zlen d) o) as [[r m1] o1|[]| |]; [|done..].
  cbn [mret M_ret].
  destruct (Z.eqb_spec r 0) as [->|Hr].
  2: { cbn in Ha. destruct Ha as [[(-> & _)|(? & _)] _]; done. }
  cbn [negb Z.eqb UPNP_E_OUTOF_MEMORY] in *. rewrite (proj2 (Z.eqb_neq (zlen d) 0)) in Ha by lia.
  cbn [negb] in Ha.
  destruct (with_block m1 _ o1) as [m2 o2|[]| |]; [|done..].
  destruct (with_block m2 _ o2) as [m3 o3|[]| |]; [|done..].
  cbn in Ha |- *. destruct Ha as [[(_ & (Hw' & Hc' & Hi') & Ht)|(? & _)] Ho']; [|done].
  split; [|done]. split; [done|]. rewrite ztake_all in Hc' by lia.
  specialize (Ht ltac:(lia)). split; try done; [by rewrite Hi'|].
  destruct Ht as (b & Hb' & Hn). rewrite Hb'. split; [done|by exists b].
Qed.

End Buffers.

(** ** Characters *)

(** A character as the text has it, alone and escaped. *)
Definition enc (c : Z) : text := (Parser_intToUTF8 c).2.
Definition esc (c : Z) : text :=
  if bool_decide (escape_char c = [c]) then enc c else escape_char c.
Definition encode (cs : list Z) : text := concat (enc <$> cs).
Definition escape (cs : list Z) : text := concat (esc <$> cs).

Definition xml_char (c : Z) : Prop := Parser_isXmlChar c = true.

Lemma xml_char_range c : xml_char c -> 9 <= c <= 0x10FFFF.
Proof. unfold xml_char, Parser_isXmlChar. rewrite !orb_true_iff, !andb_true_iff. lia. Qed.

Lemma enc_ascii c : 0 <= c <= 127 -> enc c = [c].
Proof.
  intros H. unfold enc, Parser_intToUTF8. rewrite (proj2 (Z.ltb_ge _ _)), (proj2 (Z.leb_le _ _)) by lia.
  cbn. f_equal. unfold schar. apply wrapS_small; lia.
Qed.

Definition neg_test (mark : Z) (y : Z) : bool := schar (Z.lor mark y) <? 0.
Lemma tail_neg c sh : tail6 c sh < 0.
Proof.
  apply Z.ltb_lt. apply (check_below 64 (neg_test 0x80)); [vm_compute; reflexivity|apply land_63].
Qed.
Lemma lead_neg mark n c sh :
  forallb (neg_test mark) (Z.of_nat <$> seq 0 n) = true -> 0 <= Z.shiftr c sh < Z.of_nat n ->
  lead_byte mark c sh < 0.
Proof. intros Hf Hc. apply Z.ltb_lt. by apply (check_below n (neg_test mark)). Qed.

(** A character above 127: its bytes are negative. *)
Lemma enc_neg c : 127 < c <= 0x10FFFF ->
  Forall (fun b => b < 0) (enc c) /\ enc c <> [] /\ (Parser_intToUTF8 c).1 = zlen (enc c)
  /\ 2 <= zlen (enc c) <= 4.
Proof.
  intros Hc. unfold enc, Parser_intToUTF8.
  rewrite (proj2 (Z.ltb_ge _ _)), (proj2 (Z.leb_gt _ _)) by lia.
  destruct (Z.leb_spec c 0x07FF); [|destruct (Z.leb_spec c 0xFFFF);
    [|rewrite (proj2 (Z.leb_le c 0x1FFFFF)) by lia]]; cbn [fst snd];
    (split; [|split; [done|split; [done|split; done]]]); repeat constructor; try apply tail_neg.
  - apply (lead_neg _ 32); [vm_compute; reflexivity|].
    apply (shiftr_below c 6 5); lia.
  - apply (lead_neg _ 16); [vm_compute; reflexivity|]. apply (shiftr_below c 12 4); lia.
  - apply (lead_neg _ 8); [vm_compute; reflexivity|]. apply (shiftr_below c 18 3); lia.
Qed.

Lemma enc_spec c : xml_char c ->
  enc c <> [] /\ Forall (fun b => b <> 0) (enc c) /\ (Parser_intToUTF8 c).1 = zlen (enc c) /\
  zlen (enc c) <= zlen (esc c) /\ 1 <= zlen (enc c).
Proof.
  intros H%xml_char_range. destruct (decide (c <= 127)).
  - assert (enc c = [c]) as E by (apply enc_ascii; lia). rewrite E.
    split; [done|]. split; [constructor; [lia|done]|]. split; [|split].
    + unfold Parser_intToUTF8. by rewrite (proj2 (Z.ltb_ge _ _)), (proj2 (Z.leb_le _ _)) by lia.
    + unfold esc, escape_char. rewrite E. repeat case_match; done.
    + done.
  - destruct (enc_neg c) as (Hn & Hne & Hl & H2); [lia|]. split; [done|].
    split; [eapply Forall_impl; [exact Hn|]; cbn; lia|]. split; [done|]. split; [|lia].
    unfold esc, escape_char. repeat (rewrite (proj2 (Z.eqb_neq c _)) by (unfold DQUOTE; lia)).
    by rewrite bool_decide_true.
Qed.

Lemma rdt_app_cons c s t : rdt ((c :: s) ++ t) 0 = Some c.
Proof. rewrite rdt_Some; [done|]. pose proof (zlen_nonneg (s ++ t)). cbn [app]. rewrite zlen_cons. lia. Qed.

Lemma getChar_enc g c t :
  xml_char c -> c <> $"&" -> Parser_getChar g (enc c ++ t) = Some (c, zlen (enc c)).
Proof.
  intros Hc Ha. pose proof (xml_char_range c Hc) as Hr. unfold Parser_getChar.
  destruct (decide (c <= 127)) as [H|H].
  - rewrite enc_ascii by lia. rewrite rdt_app_cons. cbn [mbind option_bind].
    rewrite (proj2 (Z.eqb_neq _ _)) by done. cbn [negb].
    rewrite (proj2 (Z.ltb_lt _ _)) by lia. by rewrite Hc.
  - destruct (enc_neg c) as (Hn & Hne & Hl & _); [lia|].
    pose proof (utf8_read g c t ltac:(lia)) as Hu. fold (enc c) in Hu. rewrite Hl in Hu.
    destruct (enc c) as [|b s] eqn:E; [done|]. rewrite rdt_app_cons. cbn [mbind option_bind].
    apply Forall_cons in Hn as [Hb _].
    rewrite (proj2 (Z.eqb_neq _ _)) by lia. cbn [negb].
    rewrite (proj2 (Z.ltb_ge _ _)) by lia. cbn [andb]. rewrite Hu. cbn [mbind option_bind].
    by rewrite Hc.
Qed.

Lemma getChar_esc g c t :
  xml_char c -> Parser_getChar g (esc c ++ t) = Some (c, zlen (esc c)).
Proof.
  intros Hc. unfold esc, escape_char. destruct (Z.eqb_spec c $"<") as [->|]; [done|].
  destruct (Z.eqb_spec c $">") as [->|]; [done|].
  destruct (Z.eqb_spec c $"&") as [->|]; [done|].
  destruct (Z.eqb_spec c $"'") as [->|]; [done|].
  destruct (Z.eqb_spec c DQUOTE) as [->|]; [done|].
  rewrite bool_decide_true by done. by apply getChar_enc.
Qed.

(** *** Character references *)

(** The value of a list of digits. *)
Definition numeral (base : Z) (ds : list Z) : Z := fold_left (fun n d => n * base + d) ds 0.
(** The character [b] is the digit [d]. *)
Definition dec_digit (d b : Z) : Prop := 0 <= d <= 9 /\ b = $"0" + d.
Definition hex_digit (d b : Z) : Prop :=
  dec_digit d b \/ (10 <= d <= 15 /\ (b = $"A" + (d - 10) \/ b = $"a" + (d - 10))).

Definition dec_reference (c : Z) (w : text) : Prop :=
  exists ds bs, w = cs "&#" ++ bs ++ [ $";"] /\ ds <> [] /\ Forall2 dec_digit ds bs /\ c = numeral 10 ds.
Definition hex_reference (c : Z) (w : text) : Prop :=
  exists x ds bs, x ∈ [ $"x"; $"X"] /\ w = cs "&#" ++ [x] ++ bs ++ [ $";"] /\ ds <> [] /\
    Forall2 hex_digit ds bs /\ c = numeral 16 ds.

Lemma hex_digit_cases d b : hex_digit d b ->
  strchr HEX_NUMBERS b = true /\ hex_value b = d /\ 0 <= d.
Proof.
  intros H. assert (d = 0 \/ d = 1 \/ d = 2 \/ d = 3 \/ d = 4 \/ d = 5 \/ d = 6 \/ d = 7 \/ d = 8 \/
    d = 9 \/ d = 10 \/ d = 11 \/ d = 12 \/ d = 13 \/ d = 14 \/ d = 15) as Hd
    by (destruct H as [[? _]|[? _]]; lia).
  destruct_or! Hd; subst d; destruct H as [[? ->]|[? [->| ->]]]; done || lia.
Qed.
Lemma dec_digit_cases d b : dec_digit d b ->
  strchr DEC_NUMBERS b = true /\ b - $"0" = d /\ 0 <= d.
Proof.
  intros [H ->]. assert (d = 0 \/ d = 1 \/ d = 2 \/ d = 3 \/ d = 4 \/ d = 5 \/ d = 6 \/ d = 7 \/ d = 8 \/
    d = 9) as Hd by lia.
  by destruct_or! Hd; subst d.
Qed.

Lemma numeral_from base ds : forall n, 1 <= base -> 0 <= n -> Forall (fun d => 0 <= d) ds ->
  n <= fold_left (fun n d => n * base + d) ds n.
Proof.
  induction ds as [|d ds IH]; cbn; intros n Hb Hn Hd; [lia|]. apply Forall_cons in Hd as [H Hd].
  pose proof (IH (n * base + d) Hb ltac:(nia) Hd). nia.
Qed.

(** The loop reads the digits up to the semicolon. *)
Lemma number_loop_numeral D base value (digit : Z -> Z -> Prop) t :
  1 <= base -> strchr D ($";") = false ->
  (forall d b, digit d b -> strchr D b = true /\ value b = d /\ 0 <= d) ->
  forall ds bs n sum, Forall2 digit ds bs -> 0 <= sum ->
  fold_left (fun n d => n * base + d) ds sum <= INT_MAX ->
  number_loop D base value (bs ++ $";" :: t) n sum =
    Some (fold_left (fun n d => n * base + d) ds sum, n + zlen bs, $";" :: t).
Proof.
  intros Hbase Hend Hdig ds bs n sum H. revert n sum.
  induction H as [|d b ds bs Hd Hds IH]; intros n sum Hs Hmax; cbn [app number_loop].
  - by rewrite Hend, Z.add_0_r.
  - destruct (Hdig d b Hd) as (-> & -> & H0). cbn [fold_left] in Hmax.
    assert (Forall (fun d => 0 <= d) ds) as Hp.
    { clear -Hds Hdig. induction Hds as [|d b ds bs H _ IH]; constructor; [apply (Hdig d b H)|done]. }
    pose proof (numeral_from base ds (sum * base + d) Hbase ltac:(nia) Hp).
    unfold as_int at 1. rewrite (proj2 (Z.leb_le _ _)), (proj2 (Z.leb_le _ _)) by (unfold INT_MAX in *; nia).
    cbn [andb mbind option_bind]. rewrite IH by (done || nia). rewrite zlen_cons.
    by replace (n + 1 + zlen bs) with (n + (1 + zlen bs)) by lia.
Qed.

(** What [Parser_getChar] makes of a reference. *)
Lemma reference_read g c D base value (digit : Z -> Z -> Prop) key ds bs t :
  xml_char c -> 1 <= base -> strchr D ($";") = false ->
  (forall d b, digit d b -> strchr D b = true /\ value b = d /\ 0 <= d) ->
  Forall2 digit ds bs -> c = numeral base ds -> zlen key = strlen key ->
  forall k, zlen k = zlen key ->
  numeric_entity g (k ++ bs ++ $";" :: t) key D base value = Some (c, zlen k + zlen bs + 1).
Proof.
  intros Hc Hb Hend Hdig Hds Hn Hk k Hk'. pose proof (xml_char_range c Hc). unfold numeric_entity.
  rewrite zdrop_app_exact by lia.
  rewrite (number_loop_numeral D base value digit t Hb Hend Hdig ds bs)
    by (done || fold (numeral base ds); rewrite <- Hn; unfold INT_MAX; lia).
  fold (numeral base ds). rewrite <- Hn. cbn [mbind option_bind]. cbv beta iota.
  change (rd ($";" :: t) 0) with ($";"). rewrite Z.eqb_refl, Hc. cbn [negb orb]. by rewrite <- Hk, Hk'.
Qed.

(** The text of a reference is none of the named entities. *)
Lemma getChar_hash g s :
  Parser_getChar g ($"&" :: $"#" :: s) =
    let src := $"&" :: $"#" :: s in
    if starts_with_case src ESC_HEX then numeric_entity g src ESC_HEX HEX_NUMBERS 16 hex_value
    else if starts_with_case src ESC_DEC then
      numeric_entity g src ESC_DEC DEC_NUMBERS 10 (fun c => c - $"0")
    else Some (fail_entity g).
Proof. reflexivity. Qed.

Lemma getChar_dec g c w t :
  xml_char c -> dec_reference c w -> Parser_getChar g (w ++ t) = Some (c, zlen w).
Proof.
  intros Hc (ds & bs & -> & Hne & Hd & Hv). rewrite <- !app_assoc.
  destruct Hd as [|d b ds bs Hb Hd]; [done|].
  change (cs "&#" ++ (b :: bs) ++ [ $";"] ++ t) with ($"&" :: $"#" :: b :: bs ++ $";" :: t).
  rewrite getChar_hash. cbv zeta.
  assert (forall s, starts_with_case ($"&" :: $"#" :: b :: s) ESC_HEX = false /\
    starts_with_case ($"&" :: $"#" :: b :: s) ESC_DEC = true) as Hs.
  { intros s. destruct Hb as [Hb ->]. split; [|done].
    assert (d = 0 \/ d = 1 \/ d = 2 \/ d = 3 \/ d = 4 \/ d = 5 \/ d = 6 \/ d = 7 \/ d = 8 \/
      d = 9) as Hx by lia.
    by destruct_or! Hx; subst d. }
  destruct (Hs (bs ++ $";" :: t)) as [-> ->].
  pose proof (reference_read g c DEC_NUMBERS 10 (fun c => c - $"0") dec_digit ESC_DEC (d :: ds)
    (b :: bs) t Hc ltac:(lia) eq_refl dec_digit_cases ltac:(by constructor) Hv eq_refl ESC_DEC eq_refl) as H. cbn [app ESC_DEC] in H. rewrite H.
  f_equal. f_equal. change (cs "&#") with ESC_DEC. rewrite !zlen_app. change (zlen [ $";"]) with 1. lia.
Qed.

Lemma getChar_hex g c w t :
  xml_char c -> hex_reference c w -> Parser_getChar g (w ++ t) = Some (c, zlen w).
Proof.
  intros Hc (x & ds & bs & Hx & -> & Hne & Hd & Hv). rewrite <- !app_assoc.
  change (cs "&#" ++ [x] ++ bs ++ [ $";"] ++ t) with ($"&" :: $"#" :: x :: bs ++ $";" :: t).
  rewrite getChar_hash. cbv zeta.
  assert (starts_with_case ($"&" :: $"#" :: x :: bs ++ $";" :: t) ESC_HEX = true) as ->
    by (by apply elem_of_cons in Hx as [->|Hx]; [|apply list_elem_of_singleton in Hx as ->]).
  pose proof (reference_read g c HEX_NUMBERS 16 hex_value hex_digit ESC_HEX ds bs t Hc ltac:(lia)
    eq_refl hex_digit_cases Hd Hv eq_refl [ $"&"; $"#"; x] eq_refl) as H. cbn [app] in H. rewrite H.
  f_equal. f_equal. change (cs "&#" ++ [x] ++ bs ++ [ $";"]) with ([ $"&"; $"#"; x] ++ bs ++ [ $";"]).
  rewrite !zlen_app. change (zlen [ $";"]) with 1. lia.
Qed.

(** The forms in which a character may stand in the text: as it is, as one of
    the five named entities, or as a numeric reference. *)
Definition written (c : Z) (w : text) : Prop :=
  w = esc c \/ (w = enc c /\ c <> $"&") \/ dec_reference c w \/ hex_reference c w.

Lemma getChar_written g c w t :
  xml_char c -> written c w -> Parser_getChar g (w ++ t) = Some (c, zlen w).
Proof.
  intros Hc [->|[[-> Ha]|[Hw|Hw]]];
    [by apply getChar_esc|by apply getChar_enc|by apply getChar_dec|by apply getChar_hex].
Qed.
Lemma written_length c w : xml_char c -> written c w ->
  zlen (enc c) <= zlen w /\ 1 <= zlen w /\ (zlen w = 1 -> enc c = [schar c]).
Proof.
  intros Hc Hw. destruct (enc_spec c Hc) as (_ & _ & _ & Hle & H1).
  pose proof (xml_char_range _ Hc).
  assert (zlen (enc c) <= 4) as H4.
  { destruct (decide (c <= 127)); [by rewrite enc_ascii by lia|]. destruct (enc_neg c); lia. }
  assert (zlen (enc c) <= zlen w) as Hl.
  { destruct Hw as [->|[[-> _]|[(ds & bs & -> & Hne & Hd & _)|(x & ds & bs & _ & -> & Hne & Hd & _)]]];
      [done..| |]; (destruct Hd as [|d b ds bs _ _]; [done|]);
      rewrite !zlen_app, !zlen_cons, zlen_nil; pose proof (zlen_nonneg bs);
      change (zlen (cs "&#")) with 2; lia. }
  split; [done|]. split; [lia|]. intros E. destruct (decide (c <= 127)); [|destruct (enc_neg c); lia].
  rewrite enc_ascii by lia. f_equal. symmetry. unfold schar. apply wrapS_small; lia.
Qed.

(** Reading text puts its characters into the token buffer. *)
Lemma copy_runs junk g cs ws : Forall2 written cs ws -> forall fuel p t s,
  Forall xml_char cs -> (length cs < fuel)%nat ->
  buf_holds (px_tokenBuf p) s -> zlen s + zlen (encode cs) <= MB_MAX ->
  runs Lucky (copy_loop_tok junk g fuel p (concat ws ++ t) (zlen (concat ws)))
    (fun '(rc, p') => rc = IXML_SUCCESS /\
       exists m, p' = set_tokenBuf m p /\ buf_holds m (s ++ encode cs)).
Proof.
  induction 1 as [|c w cs ws Hw _ IH]; intros [|fuel] p t s Hcs Hf Hb Hmax;
    try (cbn in Hf; lia).
  { apply (runs_ret Lucky (IXML_SUCCESS, p)). split; [done|]. exists (px_tokenBuf p).
    cbn. rewrite app_nil_r. by destruct p. }
  apply Forall_cons in Hcs as [Hc Hcs]. destruct (written_length c w Hc Hw) as (_ & H1 & Hone).
  destruct (enc_spec c Hc) as (Hne & H0 & Hl & _ & H1'). pose proof (xml_char_range c Hc).
  unfold encode in *. cbn [fmap list_fmap concat] in *. rewrite <- !app_assoc.
  rewrite zlen_app in *. set (E := concat ws) in *. set (X := concat (enc <$> cs)) in *.
  pose proof (zlen_nonneg E). pose proof (zlen_nonneg X). pose proof (zlen_nonneg t).
  cbn [copy_loop_tok]. rewrite (proj2 (Z.ltb_lt 0 _)) by lia.
  mstep. eapply runs_liftO; [by apply getChar_written|]. cbv beta iota.
  rewrite (proj2 (Z.leb_gt c 0)) by lia.
  assert (adv (zlen w) (w ++ E ++ t) = Some (E ++ t)) as Hadv.
  { unfold adv. rewrite !zlen_app, (proj2 (Z.leb_le 0 _)), (proj2 (Z.leb_le _ _)) by lia.
    by rewrite zdrop_app_exact. }
  assert (forall p1, (exists m, p1 = set_tokenBuf m p /\ buf_holds m (s ++ enc c)) ->
    runs Lucky (copy_loop_tok junk g fuel p1 (E ++ t) (zlen E))
      (fun '(rc, p') => rc = IXML_SUCCESS /\
         exists m, p' = set_tokenBuf m p /\ buf_holds m (s ++ enc c ++ X))) as Hrec.
  { intros p1 (m & -> & Hm). eapply runs_mono.
    - apply (IH fuel (set_tokenBuf m p) t (s ++ enc c)); try done; [cbn in Hf; lia|].
      rewrite zlen_app. fold X. lia.
    - intros [rc p'] (-> & m' & -> & Hm'). split; [done|]. exists m'. split; [by destruct p|].
      by rewrite <- app_assoc in Hm'. }
  destruct (Z.eqb_spec (zlen w) 1) as [E1|E1].
  - mstep. unfold Parser_appendTokBufChar. mstep. rewrite (Hone E1) in *.
    eapply runs_mono; [apply append_char_holds; [done| |]|].
    + by apply Forall_inv in H0.
    + change (zlen [schar c]) with 1 in *. lia.
    + intros [rc m] (-> & Hm). mstep. mstep. rewrite E1 in Hadv |- *.
      eapply runs_liftO; [exact Hadv|]. replace (1 + zlen E - 1) with (zlen E) by lia.
      apply Hrec. eauto.
  - destruct (Parser_intToUTF8 c) as [i uch] eqn:Ei. cbn [fst] in Hl.
    assert (enc c = uch) as Eu by (unfold enc; by rewrite Ei).
    rewrite (proj2 (Z.eqb_neq i 0)) by lia. mstep. unfold Parser_appendTokBufStr. mstep.
    rewrite <- Eu. eapply runs_mono; [apply append_str_holds; [done|done|done|lia]|].
    intros [rc m] (-> & Hm). mstep. mstep. eapply runs_liftO; [exact Hadv|].
    replace (zlen w + zlen E - zlen w) with (zlen E) by lia. apply Hrec. eauto.
Qed.
Lemma written_esc cs : Forall2 written cs (esc <$> cs).
Proof. induction cs; constructor; [by left|done]. Qed.
Lemma written_enc cs : Forall (fun c => c <> $"&") cs -> Forall2 written cs (enc <$> cs).
Proof. induction 1; constructor; [by right; left|done]. Qed.

(** ** Names *)

(** The ASCII ranges of the tables. *)
Definition ascii_name_ranges : list (Z * Z) :=
  [(45, 45); (46, 46); (48, 57); (58, 58); (65, 90); (95, 95); (97, 122)].
Definition range_ok (r : Z * Z) : bool :=
  bool_decide (r ∈ ascii_name_ranges) || ((0x80 <=? r.1) && (r.2 <=? 0xD7FF)).

Lemma name_char_ok b c : name_char b c = true ->
  xml_char c /\ 45 <= c /\ (128 <= c \/ existsb (in_range c) ascii_name_ranges = true).
Proof.
  intros H. assert (existsb (in_range c) (Letter ++ NameChar) = true) as Hin.
  { rewrite existsb_app. unfold name_char, in_table in H.
    destruct (existsb _ Letter); [done|]. destruct b; [exact H|done]. }
  apply existsb_exists in Hin as ([l h] & Hin & Hr).
  assert (forallb range_ok (Letter ++ NameChar) = true) as Hall by (vm_compute; reflexivity).
  rewrite forallb_forall in Hall. specialize (Hall _ Hin). unfold range_ok in Hall.
  unfold in_range in Hr. cbn [fst snd] in *.
  apply orb_prop in Hall as [Ha%bool_decide_eq_true|Ha].
  - assert (existsb (in_range c) ascii_name_ranges = true) as He.
    { apply existsb_exists. exists (l, h). by split; [apply list_elem_of_In|]. }
    split; [|split; [|by right]];
      (unfold ascii_name_ranges in Ha; rewrite !elem_of_cons, elem_of_nil in Ha;
       unfold xml_char, Parser_isXmlChar;
       destruct Ha as [E|[E|[E|[E|[E|[E|[E|[]]]]]]]]; injection E as -> ->; lia).
  - unfold xml_char, Parser_isXmlChar. split; [lia|]. split; [lia|]. left. lia.
Qed.

(** A character the tokenizer gives a meaning. *)
Definition delimiters : list Z := [9; 10; 13; 32; 33; 34; 38; 39; 47; 60; 61; 62; 63].
(** A concrete character is one of them. *)
Ltac delimiter := apply (bool_decide_unpack _); vm_compute; exact I.
Lemma delimiter_no_name b d : d ∈ delimiters -> name_char b d = false.
Proof.
  intros Hd. destruct b; unfold delimiters in Hd; rewrite !elem_of_cons, elem_of_nil in Hd;
    repeat (destruct Hd as [->|Hd]; [vm_compute; reflexivity|]); done.
Qed.
Lemma name_char_plain b c : name_char b c = true -> xml_char c /\ esc c = enc c /\ c ∉ delimiters.
Proof.
  intros H. pose proof (name_char_ok _ _ H) as (Hx & _ & _). split; [done|].
  assert (c ∉ delimiters) as Hd.
  { intros Hd. by rewrite (delimiter_no_name b c Hd) in H. }
  split; [|done]. unfold esc, escape_char.
  repeat (rewrite (proj2 (Z.eqb_neq c _)) by (intros ->; apply Hd; delimiter)).
  by rewrite bool_decide_true.
Qed.

(** The name of an element or attribute: its characters. *)
Definition name_ok (cs : list Z) : Prop :=
  match cs with [] => False | c :: _ => name_char false c = true end /\
  Forall (fun c => name_char true c = true) cs.

Lemma name_plain cs : Forall (fun c => name_char true c = true) cs ->
  Forall xml_char cs /\ Forall (fun c => c <> $"&") cs.
Proof.
  intros H. split; (eapply Forall_impl; [exact H|]); intros c Hc;
    destruct (name_char_plain _ _ Hc) as (Hx & _ & Hd); [done|].
  intros ->. apply Hd. delimiter.
Qed.

(** ** Tokens *)

Definition white (s : text) : Prop := Forall (fun c => c ∈ [10; 9; 13; 32]) s.
(** The text does not start with a blank. *)
Definition solid (s : text) : Prop :=
  match s with [] => True | c :: _ => c ∉ [10; 9; 13; 32] end.
(** No comment or instruction starts here. *)
Definition plain (s : text) : Prop :=
  match s with
  | 60 :: d :: _ => d <> 33 /\ d <> 63
  | _ => True
  end.

Lemma is_white c : c ∈ [10; 9; 13; 32] <-> negb (c =? 0) && strchr WHITESPACE c = true.
Proof.
  unfold strchr. change (c_str WHITESPACE) with [10; 9; 13; 32]. rewrite !elem_of_cons, elem_of_nil.
  cbn [existsb]. destruct (Z.eqb_spec c 0); cbn; lia.
Qed.
Lemma skip_white_app ws s : white ws -> solid s -> skip_white (ws ++ s) = s.
Proof.
  intros Hw Hs. induction Hw as [|c ws Hc _ IH]; cbn [app].
  - destruct s as [|c s]; [done|]. cbn in Hs |- *. rewrite is_white in Hs.
    by destruct (negb (c =? 0) && strchr WHITESPACE c).
  - cbn [skip_white]. apply is_white in Hc. by rewrite Hc.
Qed.

Definition byte (c : Z) : Prop := -128 <= c <= 127.
Lemma uchar_byte_inj x y : byte x -> byte y -> uchar x = uchar y -> x = y.
Proof.
  unfold byte, uchar, wrapU. intros Hx Hy H. change (2 ^ 8) with 256 in H.
  pose proof (Z.mod_eq x 256 ltac:(lia)). pose proof (Z.mod_eq y 256 ltac:(lia)). lia.
Qed.
Lemma tolower_byte c k : byte c -> 0 < k < 65 ->
  byte (tolower c) /\ tolower k = k /\ (tolower c = k -> c = k).
Proof.
  unfold byte, tolower, isupper. intros Hc Hk. rewrite (proj2 (Z.leb_gt 65 k)) by lia. cbn [andb].
  destruct ((65 <=? c) && (c <=? 90)) eqn:E; (split; [lia|]; split; [done|lia]).
Qed.

Lemma case_mismatch c s k key : byte c -> 0 < k < 65 -> c <> k ->
  starts_with_case (c :: s) (k :: key) = false.
Proof.
  intros Hc Hk Hne. destruct (tolower_byte c k Hc Hk) as (Hb & Ek & Hi).
  unfold starts_with_case, strncasecmp, strncmp, strlen. cbn [c_str].
  rewrite (proj2 (Z.eqb_neq k 0)) by lia.
  replace (Z.to_nat (zlen (k :: c_str key))) with (S (length (c_str key)))
    by (unfold zlen; cbn; lia).
  cbn [strncmp_nat fmap list_fmap head default from_option id]. rewrite Ek.
  rewrite (proj2 (Z.eqb_neq (tolower c) k)) by auto.
  apply Z.eqb_neq. intros E. apply Hne, Hi, uchar_byte_inj; [done|unfold byte; lia|lia].
Qed.
Lemma case_next c d s k key : byte d -> 0 < c < 65 -> 0 < k < 65 -> d <> k ->
  starts_with_case (c :: d :: s) (c :: k :: key) = false.
Proof.
  intros Hd Hc Hk Hne. destruct (tolower_byte d k Hd Hk) as (Hb & Ek & Hi).
  unfold starts_with_case, strncasecmp, strncmp, strlen. cbn [c_str].
  rewrite (proj2 (Z.eqb_neq c 0)), (proj2 (Z.eqb_neq k 0)) by lia.
  replace (Z.to_nat (zlen (c :: k :: c_str key))) with (S (S (length (c_str key))))
    by (unfold zlen; cbn; lia).
  cbn [strncmp_nat fmap list_fmap head default from_option id tail]. rewrite Z.eqb_refl.
  rewrite (proj2 (Z.eqb_neq (tolower c) 0)) by (unfold tolower; destruct (isupper c); lia).
  rewrite Ek, (proj2 (Z.eqb_neq (tolower d) k)) by auto.
  apply Z.eqb_neq. intros E. apply Hne, Hi, uchar_byte_inj; [done|unfold byte; lia|lia].
Qed.

Lemma skip_one_plain s : plain s -> Forall byte (take 2 s) ->
  skip_one s = (IXML_SUCCESS, true, s).
Proof.
  intros Hp Hb. unfold skip_one, BEGIN_COMMENT, XMLDECL, XMLDECL2, BEGIN_PI. destruct s as [|c [|d s]]; [done| |].
  - cbn in Hb. apply Forall_inv in Hb. destruct (decide (c = 60)) as [->|Hc]; [done|].
    by rewrite !case_mismatch.
  - cbn in Hb. apply Forall_cons in Hb as [Hc Hd%Forall_inv].
    destruct (decide (c = 60)) as [->|Hne]; [|by rewrite !case_mismatch].
    destruct Hp. by rewrite !case_next.
Qed.

Lemma skip_misc_plain n s : plain s -> Forall byte (take 2 s) -> (0 < n)%nat ->
  skip_misc n s = Some (IXML_SUCCESS, skip_white s).
Proof. intros Hp Hb Hn. destruct n as [|n]; [lia|]. cbn [skip_misc]. by rewrite skip_one_plain. Qed.

Lemma enc_byte c : 0 <= c <= 0x10FFFF -> Forall byte (enc c).
Proof.
  intros Hc. assert (forall b, byte (schar b)) as Hs.
  { intros b. unfold byte, schar, wrapS. pose proof (Z.mod_pos_bound (b + 2 ^ (8 - 1)) (2 ^ 8)).
    change (2 ^ (8 - 1)) with 128 in *. change (2 ^ 8) with 256 in *. lia. }
  unfold enc, Parser_intToUTF8. repeat case_match; cbn [snd]; repeat constructor; apply Hs.
Qed.
Lemma encode_byte cs : Forall xml_char cs -> Forall byte (encode cs).
Proof.
  unfold encode. induction 1 as [|c cs Hc _ IH]; [constructor|]. cbn. apply Forall_app.
  split; [|done]. apply enc_byte. apply xml_char_range in Hc. lia.
Qed.

Lemma encode_length cs : Forall xml_char cs -> (length cs <= length (encode cs))%nat.
Proof.
  unfold encode. induction 1 as [|c cs Hc _ IH]; [done|]. cbn. rewrite length_app.
  destruct (enc_spec c Hc) as (_ & _ & _ & _ & H). unfold zlen in H. lia.
Qed.
Lemma encode_nonnul cs : Forall xml_char cs -> Forall (fun c => c <> 0) (encode cs).
Proof.
  unfold encode. induction 1 as [|c cs Hc _ IH]; [constructor|]. cbn. apply Forall_app.
  split; [|done]. by destruct (enc_spec c Hc) as (_ & ? & _).
Qed.
Lemma encode_nonempty cs : Forall xml_char cs -> cs <> [] -> encode cs <> [].
Proof.
  intros H Hne E. pose proof (encode_length _ H) as Hl. rewrite E in Hl.
  destruct cs; [done|cbn in Hl; lia].
Qed.
Lemma encode_app a b : encode (a ++ b) = encode a ++ encode b.
Proof. unfold encode. by rewrite fmap_app, concat_app. Qed.

(** A text that starts with the characters [cs], which make up a token. *)
Record token_at (g : Z) (cs : list Z) (rest : text) : Prop := {
  ta_chars : Forall xml_char cs;
  ta_plain : Forall (fun c => c <> $"&") cs;
  ta_some : cs <> [];
  ta_length : token_length g (encode cs ++ rest) = Some (Some (zlen (encode cs)));
  ta_solid : solid (encode cs ++ rest);
  ta_markup : plain (encode cs ++ rest)
}.

Lemma plain_white ws s : white ws -> plain s -> plain (ws ++ s).
Proof.
  intros Hw Hs. destruct Hw as [|c ws Hc _]; [done|]. cbn. destruct (decide (c = 60)) as [->|H].
  - rewrite !elem_of_cons, elem_of_nil in Hc. lia.
  - unfold plain. repeat (case_match; try done); congruence.
Qed.

Lemma adv_app a b n : zlen a = n -> adv n (a ++ b) = Some b.
Proof.
  intros <-. unfold adv. pose proof (zlen_nonneg a). pose proof (zlen_nonneg b).
  rewrite zlen_app, (proj2 (Z.leb_le 0 _)), (proj2 (Z.leb_le _ _)) by lia.
  by rewrite zdrop_app_exact.
Qed.

(** Reading a token.  The pointer is saved when the token is ["/>"]. *)
Lemma next_token junk g p ws cs rest :
  px_curPtr p = ws ++ encode cs ++ rest -> white ws ->
  Forall byte (take 2 (ws ++ encode cs ++ rest)) -> zlen (encode cs) <= MB_MAX ->
  token_at g cs rest ->
  runs Lucky (Parser_getNextToken junk g p) (fun '(n, p') =>
    n = zlen (encode cs) /\ exists m sp, buf_holds m (encode cs) /\
    (sp = px_savePtr p \/ sp = Some (encode cs ++ rest)) /\
    p' = set_curPtr rest (set_tokenBuf m (set_savePtr sp p))).
Proof.
  intros Hp Hws Hby Hm [Hx He Hne Hl Hs Hpl]. unfold Parser_getNextToken.
  pose proof (encode_nonempty _ Hx Hne) as Hne'.
  cbn [px_curPtr Parser_clearTokenBuf set_tokenBuf].
  destruct (px_curPtr p) as [|c0 s0] eqn:Ep.
  { exfalso. symmetry in Hp. apply app_eq_nil in Hp as [_ Hp].
    by apply app_eq_nil in Hp as [? _]. }
  unfold Parser_skipMisc. cbn [px_curPtr Parser_clearTokenBuf set_tokenBuf]. rewrite Ep, Hp.
  rewrite skip_misc_plain, skip_white_app by (done || lia || by apply plain_white).
  cbn [mbind option_bind].
  mstep. eapply runs_liftO; [done|]. cbn [negb Z.eqb IXML_SUCCESS px_curPtr set_curPtr].
  mstep. eapply runs_liftO; [exact Hl|]. cbv beta iota.
  set (q := if (_ =? _) && _ then _ else _).
  assert (exists sp, (sp = px_savePtr p \/ sp = Some (encode cs ++ rest)) /\
    q = set_curPtr (encode cs ++ rest) (set_tokenBuf ixml_membuf_init (set_savePtr sp p)))
    as (sp & Hsp & Eq).
  { unfold q. destruct (_ && _).
    - exists (Some (encode cs ++ rest)). split; [by right|]. by destruct p.
    - exists (px_savePtr p). split; [by left|]. by destruct p. }
  mstep. pose proof (encode_length _ Hx) as Hcl.
  assert (0 < zlen (encode cs)) by (destruct (encode cs); [done|rewrite zlen_cons;
    pose proof (zlen_nonneg l); lia]).
  unfold Parser_copyToken. rewrite (proj2 (Z.leb_gt _ _)) by lia.
  eapply runs_mono.
  - apply (copy_runs junk g cs _ (written_enc cs He)); [done| | |].
    + rewrite length_app. lia.
    + rewrite Eq. apply init_holds.
    + change (zlen (@nil Z)) with 0. lia.
  - intros [rc p'] (-> & m & -> & Hm'). cbn [negb Z.eqb IXML_SUCCESS].
    mstep. eapply runs_liftO; [by apply adv_app|]. mstep. split; [done|]. exists m, sp.
    split; [exact Hm'|]. split; [done|]. rewrite Eq. by destruct p.
Qed.

Lemma encode_cons c cs : encode (c :: cs) = enc c ++ encode cs.
Proof. done. Qed.
Lemma rd_head c t s : rd ((c :: s) ++ t) 0 = c.
Proof. done. Qed.

(** The first byte of a character that is no delimiter. *)
Lemma enc_head b c : name_char b c = true ->
  exists h s, enc c = h :: s /\ byte h /\ h <> 0 /\ h ∉ delimiters.
Proof.
  intros H. destruct (name_char_plain _ _ H) as (Hx & _ & Hd).
  pose proof (xml_char_range _ Hx) as Hr. pose proof (enc_byte c ltac:(lia)) as Hb.
  destruct (enc_spec c Hx) as (Hne & H0 & _).
  destruct (enc c) as [|h s] eqn:E; [done|]. exists h, s. split; [done|].
  split; [by apply Forall_inv in Hb|]. split; [by apply Forall_inv in H0|].
  destruct (decide (c <= 127)) as [Hc|Hc].
  - rewrite enc_ascii in E by lia. by injection E as <- _.
  - destruct (enc_neg c) as (Hn & _); [lia|]. rewrite E in Hn. apply Forall_inv in Hn.
    unfold delimiters. rewrite !elem_of_cons, elem_of_nil. lia.
Qed.

Section TokenAt.
Context (g : Z).

Lemma utf8_enc c t : xml_char c -> Parser_UTF8ToInt g (enc c ++ t) = Some (c, zlen (enc c)).
Proof.
  intros H. pose proof (xml_char_range _ H). destruct (enc_spec c H) as (_ & _ & <- & _).
  apply utf8_read. lia.
Qed.
Lemma utf8_ascii c t : 0 <= c <= 127 -> Parser_UTF8ToInt g (c :: t) = Some (c, 1).
Proof.
  intros H. pose proof (utf8_read g c t ltac:(lia)) as Hu. fold (enc c) in Hu.
  rewrite enc_ascii in Hu by lia. cbn [app] in Hu. rewrite Hu. do 2 f_equal.
  unfold Parser_intToUTF8. by rewrite (proj2 (Z.ltb_ge c 0)), (proj2 (Z.leb_le c 127)) by lia.
Qed.

Lemma delimiter_ascii d : d ∈ delimiters -> 0 <= d <= 127.
Proof. unfold delimiters. rewrite !elem_of_cons, elem_of_nil. lia. Qed.

Lemma name_length_runs cs d r : forall fuel n,
  Forall (fun c => name_char true c = true) cs -> d ∈ delimiters -> (length cs < fuel)%nat ->
  name_length g fuel (encode cs ++ d :: r) n = Some (n + zlen (encode cs)).
Proof.
  induction cs as [|c cs IH]; intros [|fuel] n Hcs Hd Hf; try (cbn in Hf; lia).
  - cbn [encode fmap list_fmap concat app name_length].
    rewrite utf8_ascii by (by apply delimiter_ascii). cbn [mbind option_bind].
    rewrite is_name_char. cbn [mbind option_bind]. rewrite (delimiter_no_name _ _ Hd).
    change (zlen (@nil Z)) with 0. f_equal. lia.
  - apply Forall_cons in Hcs as [Hc Hcs]. destruct (name_char_plain _ _ Hc) as (Hx & _ & _).
    rewrite encode_cons, <- app_assoc. cbn [name_length].
    rewrite utf8_enc by done. cbn [mbind option_bind]. rewrite is_name_char, Hc.
    cbn [mbind option_bind]. rewrite adv_app by done. cbn [mbind option_bind].
    rewrite IH by (done || (cbn in Hf; lia)). rewrite zlen_app. f_equal. lia.
Qed.

Lemma solid_head h s : h ∉ delimiters -> solid (h :: s).
Proof.
  intros H Hw. apply H. rewrite !elem_of_cons, elem_of_nil in Hw.
  unfold delimiters. rewrite !elem_of_cons. tauto.
Qed.
Lemma plain_head h s : h <> 60 -> plain (h :: s).
Proof. intros H. unfold plain. repeat (case_match; try done); congruence. Qed.

Lemma name_token cs d r : name_ok cs -> d ∈ delimiters -> token_at g cs (d :: r).
Proof.
  intros [Hc Hcs] Hd. destruct (name_plain _ Hcs) as [Hx He]. destruct cs as [|c cs]; [done|].
  destruct (enc_head _ _ Hc) as (h & s & Eh & Hb & H0 & Hh).
  assert (forall k, k ∈ delimiters -> (h =? k) = false) as Hk
    by (intros k Hk; apply Z.eqb_neq; by intros ->).
  assert (encode (c :: cs) ++ d :: r = h :: (s ++ encode cs) ++ d :: r) as E
    by (by rewrite encode_cons, Eh).
  split; [done|done|done| |by rewrite E; apply solid_head|].
  - unfold token_length. rewrite E, rd_cons_0, <- E.
    rewrite !Hk by delimiter.
    apply Forall_cons in Hcs as [_ Hcs]. apply Forall_inv in Hx.
    rewrite encode_cons, <- app_assoc. rewrite utf8_enc by done. cbn [mbind option_bind].
    rewrite is_name_char, Hc. cbn [mbind option_bind]. rewrite adv_app by done.
    cbn [mbind option_bind]. rewrite (name_length_runs cs d r); [|done..|].
    + cbn [mbind option_bind]. by rewrite zlen_app.
    + destruct (name_plain _ Hcs) as [Hx' _]. pose proof (encode_length _ Hx').
      rewrite !length_app. lia.
  - rewrite E. apply plain_head. intros ->. apply Hh. delimiter.
Qed.

(** A token of ASCII characters. *)
Lemma ascii_token cs rest :
  Forall (fun c => 32 < c <= 127 /\ c <> $"&") cs -> cs <> [] ->
  token_length g (cs ++ rest) = Some (Some (zlen cs)) -> plain (cs ++ rest) ->
  token_at g cs rest.
Proof.
  intros Hcs Hne Hl Hp. assert (encode cs = cs) as E.
  { clear -Hcs. induction Hcs as [|c cs [Hc _] _ IH]; [done|].
    rewrite encode_cons, enc_ascii by lia. cbn. by rewrite IH. }
  split; rewrite ?E; try done.
  - eapply Forall_impl; [exact Hcs|]. intros c [Hc _]. unfold xml_char, Parser_isXmlChar. lia.
  - eapply Forall_impl; [exact Hcs|]. by intros c [_ ?].
  - destruct cs as [|c cs]; [done|]. apply Forall_inv in Hcs as [Hc _]. cbn.
    rewrite !elem_of_cons, elem_of_nil. lia.
Qed.
Lemma char_token c rest : c ∈ [DQUOTE; $"'"; $"="; $">"] -> token_at g [c] rest.
Proof.
  unfold DQUOTE. rewrite !elem_of_cons, elem_of_nil. intros Hc. apply ascii_token.
  - constructor; [lia|constructor].
  - done.
  - by destruct Hc as [->|[->|[->|[->|[]]]]].
  - apply plain_head. lia.
Qed.
Lemma start_token c t : name_char false c = true -> token_at g [ $"<"] (enc c ++ t).
Proof.
  intros Hc. destruct (name_char_plain _ _ Hc) as (Hx & _ & Hd). apply ascii_token.
  - by repeat constructor.
  - done.
  - unfold token_length. cbn [app]. rewrite rd_cons_0. change (60 =? DQUOTE) with false.
    cbn [Z.eqb Pos.eqb]. change (60 :: enc c ++ t) with ([60] ++ enc c ++ t).
    rewrite (adv_app [60]) by done. cbn [mbind option_bind].
    rewrite utf8_enc by done. cbn [mbind option_bind].
    rewrite (proj2 (Z.eqb_neq c 47)) by (intros ->; apply Hd; delimiter).
    by rewrite is_name_char, Hc.
  - destruct (enc_head _ _ Hc) as (h & s & -> & _ & _ & Hh). cbn. split; intros ->; apply Hh; delimiter.
Qed.
Lemma end_token t : token_at g [ $"<"; $"/"] t.
Proof.
  apply ascii_token; [by repeat constructor|done| |done].
  unfold token_length. cbn [app]. rewrite rd_cons_0. change (60 =? DQUOTE) with false.
  cbn [Z.eqb Pos.eqb]. change (60 :: 47 :: t) with ([60] ++ 47 :: t).
  rewrite (adv_app [60]) by done. cbn [mbind option_bind]. by rewrite utf8_ascii by lia.
Qed.
Lemma empty_token t : token_at g [ $"/"; $">"] t.
Proof.
  apply ascii_token; [by repeat constructor|done| |done].
  unfold token_length. cbn [app]. rewrite rd_cons_0.
  change (47 =? DQUOTE) with false. cbn [Z.eqb Pos.eqb].
  rewrite rdt_Some; [done|]. rewrite !zlen_cons. pose proof (zlen_nonneg t). lia.
Qed.
End TokenAt.

(** ** Comparing texts *)

Definition ascii (s : text) : Prop := Forall (fun c => 0 < c <= 127) s.

Lemma ascii_cstring s : ascii s -> Forall (fun c => c <> 0) s.
Proof. intros H. eapply Forall_impl; [exact H|]. cbn. lia. Qed.

(** Keys of [strncmp]: any characters but NUL. *)
Definition key_chars (s : text) : Prop := Forall (fun c => c <> 0 /\ byte c) s.
Lemma ascii_key s : ascii s -> key_chars s.
Proof. intros H. eapply Forall_impl; [exact H|]. cbn. unfold byte. lia. Qed.

Lemma strncmp_prefix key : forall s, key_chars key -> Forall byte s ->
  (strncmp_nat (length key) s key =? 0) = true <-> exists r, s = key ++ r.
Proof.
  induction key as [|k key IH]; intros s Hk Hs; cbn [strncmp_nat length].
  { split; [by exists s|done]. }
  apply Forall_cons in Hk as [[Hk0 Hkb] Hk]. cbn [head default from_option id tail].
  destruct s as [|c s]; cbn [head default from_option id tail].
  - rewrite (proj2 (Z.eqb_neq 0 k)) by lia. split; [|by intros [r ?]].
    intros H%Z.eqb_eq. assert (0 = k); [|lia]. apply uchar_byte_inj; [unfold byte; lia|done|lia].
  - apply Forall_cons in Hs as [Hc Hs]. destruct (Z.eqb_spec c k) as [->|Hne].
    + rewrite (proj2 (Z.eqb_neq k 0)) by lia. rewrite IH by done. split.
      * intros [r ->]. by exists r.
      * intros [r [= ->]]. by exists r.
    + split; [|by intros [r [= -> _]]]. intros H%Z.eqb_eq. destruct Hne.
      apply uchar_byte_inj; [done..|lia].
Qed.
Lemma starts_with_key s key : key_chars key -> Forall byte s ->
  starts_with s key = true <-> exists r, s = key ++ r.
Proof.
  intros Hk Hs. unfold starts_with, strncmp, strlen.
  rewrite c_str_id by (eapply Forall_impl; [exact Hk|]; by intros c [? _]).
  unfold zlen. rewrite Nat2Z.id. by apply strncmp_prefix.
Qed.
Lemma starts_with_spec s key : ascii key -> Forall byte s ->
  starts_with s key = true <-> exists r, s = key ++ r.
Proof. intros Hk. apply starts_with_key. by apply ascii_key. Qed.
Lemma starts_with_false s key : ascii key -> Forall byte s ->
  (forall r, s <> key ++ r) -> starts_with s key = false.
Proof.
  intros Hk Hs H. destruct (starts_with s key) eqn:E; [|done].
  apply starts_with_spec in E as [r ->]; [by destruct (H r)|done..].
Qed.
Lemma starts_with_true s key r : ascii key -> Forall byte s -> s = key ++ r ->
  starts_with s key = true.
Proof. intros Hk Hs ->. apply starts_with_spec; [done..|by exists r]. Qed.

(** The ASCII characters a text starts with stand for themselves. *)
Lemma enc_head_ascii c k s r : xml_char c -> 0 < k <= 127 -> enc c ++ s = k :: r -> c = k /\ s = r.
Proof.
  intros Hc Hk E. pose proof (xml_char_range _ Hc). destruct (decide (c <= 127)).
  - rewrite enc_ascii in E by lia. by injection E as -> ->.
  - destruct (enc_neg c) as (Hn & Hne & _); [lia|]. destruct (enc c) as [|h t]; [done|].
    injection E as -> _. apply Forall_inv in Hn. lia.
Qed.
Lemma encode_prefix key : forall v r, ascii key -> Forall xml_char v ->
  encode v = key ++ r -> exists v', v = key ++ v' /\ r = encode v'.
Proof.
  induction key as [|k key IH]; intros v r Hk Hv E; [by exists v|].
  apply Forall_cons in Hk as [Hk0 Hk]. destruct v as [|c v]; [done|].
  apply Forall_cons in Hv as [Hc Hv]. rewrite encode_cons in E.
  apply enc_head_ascii in E as [-> E]; [|done..].
  destruct (IH _ _ Hk Hv E) as (v' & -> & ->). by exists v'.
Qed.

Lemma encode_inj v : forall w, Forall xml_char v -> Forall xml_char w ->
  encode v = encode w -> v = w.
Proof.
  induction v as [|c v IH]; intros w Hv Hw E.
  - destruct w as [|d w]; [done|]. symmetry in E. by apply encode_nonempty in E.
  - destruct w as [|d w]; [by apply encode_nonempty in E|].
    apply Forall_cons in Hv as [Hc Hv], Hw as [Hd Hw]. rewrite !encode_cons in E.
    assert (c = d) as ->.
    { pose proof (utf8_enc 0 c (encode v) Hc) as H1. rewrite E, utf8_enc in H1 by done. congruence. }
    f_equal. apply IH; [done..|]. by apply app_inv_head in E.
Qed.

Lemma encode_ascii v : Forall (fun c => 0 <= c <= 127) v -> encode v = v.
Proof.
  induction 1 as [|c v Hc _ IH]; [done|]. by rewrite encode_cons, enc_ascii, IH by done.
Qed.

(** ** Finding the end of a piece of text *)

Lemma find_sub_at key a r i :
  (forall a1 a2, a = a1 ++ a2 -> a2 <> [] -> is_prefix key (a2 ++ key ++ r) = false) ->
  find_sub key (a ++ key ++ r) i = Some (i + zlen a).
Proof.
  revert i. induction a as [|c a IH]; intros i Ha.
  - cbn [app]. assert (is_prefix key (key ++ r) = true) as Hp
      by (apply is_prefix_spec; by exists r).
    destruct key as [|k key]; cbn [find_sub app] in *; rewrite ?Hp;
      (destruct r; cbn; f_equal; change (zlen (@nil Z)) with 0; lia).
  - pose proof (Ha [] (c :: a) eq_refl ltac:(done)) as Hn. cbn [app find_sub] in *.
    rewrite Hn. rewrite IH.
    + rewrite zlen_cons. f_equal. lia.
    + intros a1 a2 -> H. by apply (Ha (c :: a1) a2).
Qed.

Lemma strstr_char s q r : Forall (fun c => c <> 0) (s ++ q :: r) -> q ∉ s ->
  strstr (s ++ q :: r) [q] = Some (zlen s).
Proof.
  intros Hs Hq. unfold strstr. apply Forall_app in Hs as Hs'. destruct Hs' as [_ Hqr].
  apply Forall_inv in Hqr. rewrite !c_str_id by (done || by repeat constructor).
  apply (find_sub_at [q] s r 0). intros a1 a2 -> Hne. destruct a2 as [|c a2]; [done|]. cbn.
  rewrite (proj2 (Z.eqb_neq q c)); [done|]. intros ->. apply Hq, elem_of_app. right. by left.
Qed.

(** [q] occurs in [s]. *)
Definition infix (q s : text) : Prop := exists a b, s = a ++ q ++ b.
Lemma infix_suffix q a b : infix q b -> infix q (a ++ b).
Proof. intros (x & y & ->). exists (a ++ x), y. by rewrite <- app_assoc. Qed.

(** What follows [a] does not complete a ["]]>"] that starts in [a]. *)
Lemma no_cdend a f r :
  ~ infix CDEND a -> a <> [] -> rd f 0 <> $">" -> (rd f 0 = $"]" -> rd f 1 <> $">") ->
  a ++ f <> CDEND ++ r.
Proof.
  unfold CDEND. intros Hi Ha H0 H1 E. destruct a as [|x [|y [|z a]]]; [done|..];
    cbn [app] in E.
  - injection E as -> E. rewrite E in H0, H1. by apply H1.
  - injection E as -> -> E. by rewrite E in H0.
  - injection E as -> -> -> E. apply Hi. by exists [], a.
Qed.
Lemma no_end_pi a r r' : ~ infix END_PI a -> a <> [] -> a ++ END_PI ++ r <> END_PI ++ r'.
Proof.
  unfold END_PI. intros Hi Ha E. destruct a as [|x [|y a]]; [done|..]; cbn [app] in E.
  - by injection E as -> E.
  - injection E as -> -> E. apply Hi. by exists [], a.
Qed.

(** ["?>"] behind a character. *)
Lemma end_pi_cons c s : infix END_PI (c :: s) -> c = $"?" \/ infix END_PI s.
Proof.
  intros ([|x a] & b & E); [injection E as -> _; by left|]. injection E as _ ->. right. by exists a, b.
Qed.
Lemma end_pi_decl d : ~ infix END_PI d -> ~ infix END_PI (XMLDECL ++ d).
Proof.
  unfold XMLDECL. cbn [app]. intros Hd H. apply Hd.
  apply end_pi_cons in H as [?|([|x [|y a]] & b & E)]; [done|unfold END_PI in E; cbn in E..].
  - by injection E.
  - by injection E.
  - injection E as _ _ E. assert (infix END_PI (109 :: 108 :: 32 :: d)) as H by (by exists a, b).
    do 3 (apply end_pi_cons in H as [?|H]; [done|]). done.
Qed.

Lemma cdata_end_runs v r : forall n,
  Forall (fun c => xml_char c /\ c <= 127) v -> ~ infix CDEND v -> Forall byte r ->
  cdata_end (v ++ CDEND ++ r) n = n + zlen v.
Proof.
  induction v as [|c v IH]; intros n Hv Hi Hr.
  - cbn [app]. change (cdata_end (CDEND ++ r) n) with
      (if starts_with (CDEND ++ r) CDEND then n else cdata_end (tail (CDEND ++ r)) (n + 1)).
    rewrite (starts_with_true _ _ r); [change (zlen (@nil Z)) with 0; lia|by repeat constructor| |done].
    apply Forall_app. split; [by repeat constructor|done].
  - apply Forall_cons in Hv as [[Hc Hc'] Hv]. cbn [app cdata_end]. unfold xml_char in Hc.
    rewrite Hc, starts_with_false.
    + rewrite IH; [rewrite zlen_cons; lia|done| |done]. intros H. by apply Hi, (infix_suffix _ [c]).
    + by repeat constructor.
    + pose proof (xml_char_range _ Hc). constructor; [unfold byte; lia|].
      apply Forall_app. split; [|apply Forall_app; split; [by repeat constructor|done]].
      eapply Forall_impl; [exact Hv|]. intros d [Hd%xml_char_range ?]. unfold byte. lia.
    + intros r'. apply (no_cdend (c :: v)); done.
Qed.

Lemma content_end_runs raw r : forall n,
  $"<" ∉ raw -> ~ infix CDEND raw -> Forall byte (raw ++ $"<" :: r) ->
  content_end (raw ++ $"<" :: r) n = (n + zlen raw, false).
Proof.
  induction raw as [|c raw IH]; intros n Hlt Hi Hb.
  - cbn [app content_end]. rewrite starts_with_false; [|by repeat constructor|done|by intros ? [=]].
    cbn. f_equal. change (zlen (@nil Z)) with 0. lia.
  - apply not_elem_of_cons in Hlt as [Hc Hlt]. cbn [app content_end]. rewrite starts_with_false;
      [|by repeat constructor|done|].
    + rewrite (proj2 (Z.eqb_neq c _)) by congruence. rewrite IH; [rewrite zlen_cons; f_equal; lia|done| |].
      * intros H. by apply Hi, (infix_suffix _ [c]).
      * by apply Forall_cons in Hb as [_ Hb].
    + intros r'. apply (no_cdend (c :: raw) (60 :: r)); done.
Qed.

Lemma skipString_runs d r : ~ infix END_PI d -> Forall byte (d ++ END_PI ++ r) ->
  Parser_skipString (d ++ END_PI ++ r) END_PI = (IXML_SUCCESS, r).
Proof.
  intros Hi Hb. induction d as [|c d IH].
  - cbn [app] in *. unfold Parser_skipString. change (END_PI ++ r) with (63 :: 62 :: r) at 1.
    cbv beta iota. rewrite (starts_with_true _ _ r); [done|by repeat constructor|exact Hb|done].
  - cbn [app Parser_skipString]. rewrite starts_with_false; [|by repeat constructor|done|].
    + apply IH; [|by apply Forall_cons in Hb as [_ Hb]]. intros H. by apply Hi, (infix_suffix _ [c]).
    + intros r'. apply (no_end_pi (c :: d)); done.
Qed.
