(* ===== verification/XmlDocs.v ===== *)
(** Documents as data, and their texts: the specification of the XML parser and
    of the printer.

    A [forest] is a list of sibling nodes with what is below them; names, values
    and text are lists of characters (code points).  [spells f s] says that the
    text [s] is a way to write the forest [f]; [same_data st t f] that the nodes
    of the tree [t] in the store [st] carry the data of [f]. *)

From S2P Require Import Prelude CString MemBuffer FreeList XmlChars IxmlNode IxmlTree IxmlDom IxmlDocument IxmlBuild XmlParser XmlPrint XmlText.

Inductive forest :=
| FNil
| FElem (name : list Z) (attrs : list (list Z * list Z)) (kids rest : forest)
| FText (v : list Z) (rest : forest)
| FCData (v : list Z) (rest : forest).

(** ** Texts *)

(** Characters, each escaped or alone ("&" only escaped). *)
Definition spells_chars (v : list Z) (s : text) : Prop :=
  Forall xml_char v /\ exists ws, Forall2 written v ws /\ s = concat ws.

(** Names without namespaces. *)
Definition elem_name (nm : list Z) : Prop := name_ok nm /\ ($":" ∉ nm).
Definition attr_name (nm : list Z) : Prop :=
  name_ok nm /\ nm <> cs "xmlns" /\ ~ exists r, nm = cs "xmlns:" ++ r.

Inductive spells_attrs : list (list Z * list Z) -> text -> Prop :=
| sa_nil : spells_attrs [] []
| sa_cons w1 nm w2 w3 q v raw attrs s :
    white w1 -> w1 <> [] -> attr_name nm -> white w2 -> white w3 ->
    q ∈ [DQUOTE; $"'"] -> spells_chars v raw -> q ∉ raw -> $"<" ∉ raw ->
    spells_attrs attrs s ->
    spells_attrs ((nm, v) :: attrs)
      (w1 ++ encode nm ++ w2 ++ [ $"="] ++ w3 ++ [q] ++ raw ++ [q] ++ s).

(** What may follow a text node: markup, or the end. *)
Definition markup (s : text) : Prop := match s with [] => True | c :: _ => c = $"<" end.

Inductive spells : forest -> text -> Prop :=
| sp_nil w : white w -> spells FNil w
| sp_elem w name attrs kids rest sa w1 sk w2 sr :
    white w -> elem_name name -> NoDup attrs.*1 -> spells_attrs attrs sa -> white w1 ->
    spells kids sk -> white w2 -> spells rest sr ->
    spells (FElem name attrs kids rest)
      (w ++ [ $"<"] ++ encode name ++ sa ++ w1 ++ [ $">"] ++ sk ++
       ENDTAG ++ encode name ++ w2 ++ [ $">"] ++ sr)
| sp_empty w name attrs rest sa w1 sr :
    white w -> elem_name name -> NoDup attrs.*1 -> spells_attrs attrs sa -> white w1 ->
    spells rest sr ->
    spells (FElem name attrs FNil rest)
      (w ++ [ $"<"] ++ encode name ++ sa ++ w1 ++ COMPLETETAG ++ sr)
| sp_text v raw rest sr :
    spells_chars v raw -> $"<" ∉ raw -> ~ infix CDEND raw -> ~ white raw ->
    spells rest sr -> markup sr -> spells (FText v rest) (raw ++ sr)
| sp_cdata w v rest sr :
    white w -> v <> [] -> Forall (fun c => xml_char c /\ c <= 127) v -> ~ infix CDEND v ->
    spells rest sr -> spells (FCData v rest) (w ++ CDSTART ++ v ++ CDEND ++ sr).

(** The text of a document: a byte order mark and an XML declaration may come
    first. *)
Definition is_decl (s : text) : Prop :=
  s = [] \/ exists d, s = XMLDECL ++ d ++ END_PI /\ ~ infix END_PI d.
Definition spells_document (f : forest) (s : text) : Prop :=
  exists bom decl s', (bom = [] \/ bom = UTF8_BOM) /\ is_decl decl /\ spells f s' /\
    s = bom ++ decl ++ s'.

(** ** Data *)

Definition attr_data (st : nodes) (l : loc) (a : list Z * list Z) : Prop :=
  exists n, st !! l = Some (Some n) /\ n_nodeType n = eATTRIBUTE_NODE /\
    n_nodeName n = DStr (encode a.1) /\ n_nodeValue n = DStr (encode a.2).
Definition elem_data (st : nodes) (l : loc) (name : list Z) : Prop :=
  exists n, st !! l = Some (Some n) /\ n_nodeType n = eELEMENT_NODE /\
    n_nodeName n = DStr (encode name).
Definition leaf_data (st : nodes) (l : loc) (t : IXML_NODE_TYPE) (v : list Z) : Prop :=
  exists n, st !! l = Some (Some n) /\ n_nodeType n = t /\ n_nodeValue n = DStr (encode v).

Fixpoint same_data (st : nodes) (t : tree) (f : forest) : Prop :=
  match f, t with
  | FNil, Leaf => True
  | FElem name attrs kids rest, Node l a ks nx =>
      elem_data st l name /\ Forall2 (attr_data st) a attrs /\
      same_data st ks kids /\ same_data st nx rest
  | FText v rest, Node l [] Leaf nx => leaf_data st l eTEXT_NODE v /\ same_data st nx rest
  | FCData v rest, Node l [] Leaf nx =>
      leaf_data st l eCDATA_SECTION_NODE v /\ same_data st nx rest
  | _, _ => False
  end.

Lemma attr_data_kept st st' l a : kept st st' l -> attr_data st l a -> attr_data st' l a.
Proof.
  intros Hk (n & Hn & H1 & H2 & H3). destruct (Hk n Hn) as (n' & Hn' & E). exists n'.
  split; [done|]. pose proof (f_equal n_nodeType E). pose proof (f_equal n_nodeName E).
  pose proof (f_equal n_nodeValue E). cbn in *. by split_and!; congruence.
Qed.
Lemma elem_data_kept st st' l a : kept st st' l -> elem_data st l a -> elem_data st' l a.
Proof.
  intros Hk (n & Hn & H1 & H2). destruct (Hk n Hn) as (n' & Hn' & E). exists n'.
  split; [done|]. pose proof (f_equal n_nodeType E). pose proof (f_equal n_nodeName E).
  cbn in *. by split_and!; congruence.
Qed.
Lemma leaf_data_kept st st' l t a : kept st st' l -> leaf_data st l t a -> leaf_data st' l t a.
Proof.
  intros Hk (n & Hn & H1 & H2). destruct (Hk n Hn) as (n' & Hn' & E). exists n'.
  split; [done|]. pose proof (f_equal n_nodeType E). pose proof (f_equal n_nodeValue E).
  cbn in *. by split_and!; congruence.
Qed.

Lemma same_data_kept st st' f : forall t,
  (forall l, l ∈ locs t -> kept st st' l) -> same_data st t f -> same_data st' t f.
Proof.
  induction f as [|nm at' kids IHk rest IHr|v rest IH|v rest IH]; intros [|l a ks nx] Hk; try done;
    cbn [same_data].
  - intros (He & Ha & Hks & Hr). split; [eapply elem_data_kept; [|done]; apply Hk; by left|].
    split; [|split; [apply IHk; [|done]; intros; apply Hk; in_locs|
      apply IHr; [|done]; intros; apply Hk; in_locs]].
    assert (forall l, l ∈ a -> kept st st' l) as Hka by (intros; apply Hk; in_locs).
    clear -Ha Hka. induction Ha as [|k x a xs H _ IH]; constructor.
    + eapply attr_data_kept; [|done]. apply Hka. by left.
    + apply IH. intros. apply Hka. by right.
  - destruct a, ks; try done. intros [H1 H2]. split; [eapply leaf_data_kept; [|done]; apply Hk; by left|].
    apply IH; [|done]. intros; apply Hk; in_locs.
  - destruct a, ks; try done. intros [H1 H2]. split; [eapply leaf_data_kept; [|done]; apply Hk; by left|].
    apply IH; [|done]. intros; apply Hk; in_locs.
Qed.
