(* ===== verification/XmlParse.v ===== *)
(** The parser builds the document its text spells.

    Each pass of the loop of [Parser_parseDocument] is followed on a text that
    [spells] a forest: which token it reads, which node it makes of it, and what
    that does to the tree of the document and to the stack of the open
    elements. *)

From S2P Require Import Prelude CString MemBuffer FreeList XmlChars IxmlNode IxmlTree IxmlDom IxmlDocument IxmlBuild XmlParser XmlPrint XmlText XmlDocs.

(** A text the parser may hold. *)
Definition good_text (s : text) : Prop :=
  Forall byte s /\ Forall (fun c => c <> 0) s /\ zlen s <= MB_MAX.

Lemma good_app a b : good_text (a ++ b) -> good_text a /\ good_text b.
Proof.
  intros (H1 & H2 & H3). apply Forall_app in H1 as [? ?]. apply Forall_app in H2 as [? ?].
  rewrite zlen_app in H3. pose proof (zlen_nonneg a). pose proof (zlen_nonneg b).
  split; (split; [done|split; [done|lia]]).
Qed.
Lemma good_tail a b : good_text (a ++ b) -> good_text b.
Proof. apply good_app. Qed.
Lemma good_head a b : good_text (a ++ b) -> good_text a.
Proof. apply good_app. Qed.

(** An open element: no namespaces are defined. *)
Definition frame (name : list Z) : IXML_ElementStack := MkElem (DStr (encode name)) DNull DNull [].

(** The state of the parser between two passes: the text [txt] is left, the
    elements [stack] are open, [x] is the node that takes children. *)
Record parser_is (p : Parser) (txt : text) (s : PARSER_STATE) (stack : list (list Z)) (x : loc)
    (need : ptr) (last : text) (top : bool) : Prop := {
  pi_text : px_curPtr p = txt;
  pi_good : good_text txt;
  pi_state : px_state p = s;
  pi_stack : px_pCurElement p = frame <$> stack;
  pi_node : px_currentNodePtr p = Some x;
  pi_need : px_pNeedPrefixNode p = need;
  pi_last : buf_holds (px_lastElem p) last;
  pi_top : px_bHasTopLevel p = top
}.

Section Parse.
Context (junk g : Z).
Implicit Types (p : Parser) (st : nodes).

Lemma parser_at p txt s stack x need last top txt' m sp :
  parser_is p txt s stack x need last top -> good_text txt' ->
  parser_is (set_curPtr txt' (set_tokenBuf m (set_savePtr sp p))) txt' s stack x need last top.
Proof. intros [] Hg. by split. Qed.

(** A token after blanks. *)
Lemma token_runs p ws tok rest s stack x need last top :
  parser_is p (ws ++ encode tok ++ rest) s stack x need last top -> white ws ->
  token_at g tok rest ->
  runs Lucky (Parser_getNextToken junk g p) (fun '(n, p') =>
    n = zlen (encode tok) /\ buf_holds (px_tokenBuf p') (encode tok) /\
    (px_savePtr p' = px_savePtr p \/ px_savePtr p' = Some (encode tok ++ rest)) /\
    parser_is p' rest s stack x need last top).
Proof.
  intros Hp Hw Ht. pose proof (pi_good _ _ _ _ _ _ _ _ Hp) as Hg.
  eapply runs_mono; [apply (next_token junk g p ws tok rest); [apply Hp|done| | |done]|].
  - destruct Hg as [Hb _]. by apply Forall_take.
  - apply good_tail, good_head in Hg. apply Hg.
  - intros [n p'] (-> & m & sp & Hm & Hsp & ->). split; [done|]. split; [by destruct p|].
    split; [by destruct p|]. apply (parser_at _ _ _ _ _ _ _ _ _ _ _ Hp).
    by do 2 apply good_tail in Hg.
Qed.

Lemma token_positive tok rest : token_at g tok rest -> (zlen (encode tok) =? 0) = false.
Proof.
  intros [Hx _ Hne _ _ _]. pose proof (encode_nonempty _ Hx Hne).
  destruct (encode tok) as [|c e]; [done|]. rewrite zlen_cons.
  pose proof (zlen_nonneg e). apply Z.eqb_neq. lia.
Qed.
Lemma token_cstring tok rest : token_at g tok rest -> cstring (encode tok).
Proof. intros [Hx _ _ _ _ _]. by apply encode_nonnul. Qed.

(** The token the buffer holds. *)
Lemma cur_token_holds p tok rest :
  buf_holds (px_tokenBuf p) (encode tok) -> token_at g tok rest ->
  cur_token p = Some (encode tok) /\ exists b, mb_buf (px_tokenBuf p) = Some b.
Proof.
  intros Hh Ht. apply holds_token; [done|]. apply encode_nonempty; apply Ht.
Qed.

(** Comparing a token with an ASCII literal. *)
Lemma token_eq tok key rest :
  token_at g tok rest -> ascii key -> strcmp_eq (encode tok) key = bool_decide (tok = key).
Proof.
  intros Ht Hk. unfold strcmp_eq. rewrite !c_str_id by
    first [by apply ascii_cstring|by eapply token_cstring].
  apply bool_decide_ext. pose proof (ta_chars _ _ _ Ht) as Hx. split.
  - intros E. destruct (encode_prefix key tok [] Hk Hx) as (v & -> & Ev); [by rewrite app_nil_r|].
    destruct v as [|c v]; [by rewrite app_nil_r|]. apply Forall_app in Hx as [_ Hx].
    by symmetry in Ev; apply encode_nonempty in Ev.
  - intros ->. apply encode_ascii. eapply Forall_impl; [exact Hk|]. cbn. lia.
Qed.

(** ** Start tags *)

Lemma encode_avoids k v : 0 < k <= 127 -> Forall xml_char v -> k ∉ v -> k ∉ encode v.
Proof.
  intros Hk Hv. induction Hv as [|c v Hc _ IH]; [done|]. rewrite encode_cons, not_elem_of_cons.
  intros [Hkc Hkv]. rewrite not_elem_of_app. split; [|by apply IH]. intros Hin.
  pose proof (xml_char_range _ Hc). destruct (decide (c <= 127)).
  - rewrite enc_ascii in Hin by lia. apply list_elem_of_singleton in Hin. lia.
  - destruct (enc_neg c) as (Hn & _); [lia|]. rewrite Forall_forall in Hn.
    specialize (Hn k Hin). lia.
Qed.
Lemma split_colon_None s : $":" ∉ s -> split_colon s = None.
Proof.
  induction s as [|c s IH]; [done|]. rewrite not_elem_of_cons. intros [Hc Hs]. cbn.
  rewrite (proj2 (Z.eqb_neq c _)) by congruence. by rewrite (IH Hs).
Qed.

Lemma elem_name_facts name : elem_name name ->
  Forall xml_char name /\ cstring (encode name) /\ encode name <> [] /\
  split_colon (encode name) = None.
Proof.
  intros [[Hc Hn] Hcol]. destruct (name_plain _ Hn) as [Hx _]. split; [done|].
  split; [by apply encode_nonnul|]. split; [apply encode_nonempty; [done|by destruct name]|].
  by apply split_colon_None, encode_avoids.
Qed.

(** The node a start tag yields. *)
Definition stag_node (name : list Z) : IXML_Node :=
  set_nodeType eELEMENT_NODE (set_nodeValue DNull (set_localName (DStr (encode name))
    (set_prefix DNull (set_nodeName (DStr (encode name)) (zero_node XNode))))).

Lemma setPrefix_lucky n name (Q : Z * IXML_Node -> Prop) :
  elem_name name -> n_nodeName n = DStr (encode name) ->
  Q (IXML_SUCCESS, set_localName (DStr (encode name)) (set_prefix DNull n)) ->
  runs Lucky (Parser_setNodePrefixAndLocalName n) Q.
Proof.
  intros Hn En HQ. destruct (elem_name_facts _ Hn) as (_ & Hcs & _ & Hsp).
  unfold Parser_setNodePrefixAndLocalName. mstep. eapply runs_liftO; [by rewrite En|].
  rewrite c_str_id, Hsp by done. mstep. apply strdup_lucky; [done|]. by mstep.
Qed.

Lemma setLastElem_lucky p txt s stack x need last top e :
  parser_is p txt s stack x need last top -> cstring e -> e <> [] -> zlen e <= MB_MAX ->
  runs Lucky (Parser_setLastElem junk p e) (fun '(rc, p') =>
    rc = IXML_SUCCESS /\ parser_is p' txt s stack x need e top /\ px_tokenBuf p' = px_tokenBuf p /\
    px_savePtr p' = px_savePtr p).
Proof.
  intros Hp Hc Hne Hm. unfold Parser_setLastElem. mstep.
  eapply runs_mono; [eapply assign_holds; [apply Hp|done..]|]. intros [rc m] (-> & Hm').
  mstep. split; [done|]. by destruct Hp.
Qed.

Definition after_name (tok : list Z) : PARSER_STATE :=
  if bool_decide (tok = COMPLETETAG) then eELEMENT
  else if bool_decide (tok = [ $">"]) then eCONTENT else eATTRIBUTE.
Definition after_name_text (tok rest w : text) : text :=
  if bool_decide (tok = [ $">"]) then rest else w ++ encode tok ++ rest.

Lemma parser_restore p txt s stack x need last top s' txt' :
  parser_is p txt s stack x need last top -> px_savePtr p = Some txt' -> good_text txt' ->
  exists p', restore (set_state s' p) = Some p' /\ parser_is p' txt' s' stack x need last top.
Proof.
  intros [] Hs Hg. unfold restore. cbn. rewrite Hs. cbn. eexists. split; [done|]. by split.
Qed.
Lemma parser_state p txt s stack x need last top s' :
  parser_is p txt s stack x need last top -> parser_is (set_state s' p) txt s' stack x need last top.
Proof. intros []. by split. Qed.
Lemma parser_save p txt s stack x need last top sp :
  parser_is p txt s stack x need last top ->
  parser_is (set_savePtr sp p) txt s stack x need last top.
Proof. intros []. by split. Qed.

(** What is left of the blanks [w] when a token was read and put back. *)
Definition left_of (w w' : text) : Prop := white w' /\ (length w' <= length w)%nat.

(** The text saved before a token was read. *)
Lemma saved_text w tok rest sp txt' :
  white w -> txt' = Some (w ++ encode tok ++ rest) ->
  sp = txt' \/ sp = Some (encode tok ++ rest) ->
  exists w', left_of w w' /\ sp = Some (w' ++ encode tok ++ rest) /\
    (good_text (w ++ encode tok ++ rest) -> good_text (w' ++ encode tok ++ rest)).
Proof.
  intros Hw -> [->| ->]; [by exists w|]. exists []. split; [by split; [constructor|cbn; lia]|].
  split; [done|].
  by apply good_tail.
Qed.

Lemma processSTag_runs p name w tok rest d r s stack x need last top :
  parser_is p (encode name ++ w ++ encode tok ++ rest) s stack x need last top ->
  elem_name name -> white w -> token_at g tok rest ->
  w ++ encode tok ++ rest = d :: r -> d ∈ delimiters ->
  runs Lucky (Parser_processSTag junk g p (zero_node XNode)) (fun '(rc, p', node) =>
    rc = IXML_SUCCESS /\ node = stag_node name /\ exists w', left_of w w' /\
    parser_is p' (after_name_text tok rest w') (after_name tok) stack x need (encode name) top).
Proof.
  intros Hp Hn Hw Ht Ed Hd. destruct (elem_name_facts _ Hn) as (Hx & Hcs & Hne & _).
  pose proof (pi_good _ _ _ _ _ _ _ _ Hp) as Hg. unfold Parser_processSTag. rewrite Ed in Hp.
  pose proof (name_token g name d r (proj1 Hn) Hd) as Hnt. mstep.
  eapply runs_mono; [apply (token_runs p [] name _ _ _ _ _ _ _ Hp); [constructor|done]|].
  intros [n p1] (-> & Hb & _ & Hp1). rewrite (token_positive _ _ Hnt).
  destruct (cur_token_holds _ _ _ Hb Hnt) as (Hcur & b & ->). mstep.
  eapply runs_liftO; [exact Hcur|]. mstep. apply strdup_lucky; [done|]. rewrite is_null_str.
  mstep. rewrite c_str_id by done.
  eapply runs_mono; [eapply setLastElem_lucky; [exact Hp1|done|done|by apply good_head in Hg as (_ & _ & ?)]|].
  intros [rc p2] (-> & Hp2 & _ & _). cbn [negb Z.eqb IXML_SUCCESS]. mstep.
  apply (setPrefix_lucky _ name); [done|done|]. cbn [negb Z.eqb IXML_SUCCESS]. mstep.
  rewrite <- Ed in Hp2. pose proof (pi_good _ _ _ _ _ _ _ _ Hp2) as Hg2.
  eapply runs_mono; [apply (token_runs _ w tok rest _ _ _ _ _ _ (parser_save _ _ _ _ _ _ _ _ _ Hp2)); done|].
  intros [n p3] (-> & Hb3 & Hsv & Hp3). rewrite (token_positive _ _ Ht). mstep.
  destruct (cur_token_holds _ _ _ Hb3 Ht) as (Hcur3 & _).
  eapply runs_liftO; [exact Hcur3|].
  rewrite !(token_eq _ _ _ Ht) by (by repeat constructor).
  destruct (saved_text w tok rest (px_savePtr p3) _ Hw eq_refl) as (w' & Hw' & Hsv' & Hg').
  { cbn [px_savePtr set_savePtr] in Hsv. rewrite <- (pi_text _ _ _ _ _ _ _ _ Hp2). exact Hsv. }
  unfold after_name, after_name_text. change (cs ">") with [ $">"].
  pose proof (fun s' => parser_restore _ _ _ _ _ _ _ _ s' _ Hp3 Hsv' (Hg' Hg2)) as Hr.
  destruct (bool_decide_reflect (tok = COMPLETETAG)) as [E|]; [rewrite bool_decide_false by (by rewrite E)|
    destruct (bool_decide_reflect (tok = [ $">"]))].
  - destruct (Hr eELEMENT) as (p4 & Hr4 & Hp4). mstep. eapply runs_liftO; [exact Hr4|].
    mstep. by eauto.
  - mstep. split; [done|]. split; [done|]. exists w'. split; [done|]. by eapply parser_state.
  - destruct (Hr eATTRIBUTE) as (p4 & Hr4 & Hp4). mstep. eapply runs_liftO; [exact Hr4|].
    mstep. by eauto.
Qed.

(** ** End tags *)

Definition etag_node (name : list Z) : IXML_Node :=
  set_nodeType eELEMENT_NODE (set_nodeValue DNull (set_nodeName (DStr (encode name)) (zero_node XNode))).

Lemma white_head w d s : white w -> d ∈ delimiters -> exists d' r, w ++ d :: s = d' :: r /\ d' ∈ delimiters.
Proof.
  intros Hw Hd. destruct Hw as [|c w Hc _]; [by exists d, s|]. exists c, (w ++ d :: s).
  split; [done|]. rewrite !elem_of_cons, elem_of_nil in Hc.
  by destruct Hc as [->|[->|[->|[->|[]]]]]; delimiter.
Qed.

Lemma parser_skip_white p txt s stack x need last top w :
  parser_is p (w ++ txt) s stack x need last top -> white w -> solid txt ->
  parser_is (Parser_skipWhiteSpaces p) txt s stack x need last top.
Proof.
  intros [] Hw Hs. split; try done; cbn.
  - by rewrite pi_text0, skip_white_app.
  - by apply good_tail in pi_good0.
Qed.

Lemma processETag_runs p name w rest s stack x need last top :
  parser_is p (encode name ++ w ++ $">" :: rest) s stack x need last top ->
  elem_name name -> white w ->
  runs Lucky (Parser_processETag junk g p (zero_node XNode)) (fun '(rc, p', node, bETag) =>
    rc = IXML_SUCCESS /\ node = etag_node name /\ bETag = true /\
    parser_is p' rest s stack x need last top).
Proof.
  intros Hp Hn Hw. destruct (elem_name_facts _ Hn) as (Hx & Hcs & Hne & _).
  destruct (white_head w ($">") rest Hw) as (d & r & Ed & Hd); [delimiter|].
  unfold Parser_processETag. rewrite Ed in Hp.
  pose proof (name_token g name d r (proj1 Hn) Hd) as Hnt. mstep.
  eapply runs_mono; [apply (token_runs p [] name _ _ _ _ _ _ _ Hp); [constructor|done]|].
  intros [n p1] (-> & Hb & _ & Hp1). rewrite (token_positive _ _ Hnt).
  destruct (cur_token_holds _ _ _ Hb Hnt) as (Hcur & b & ->). mstep.
  eapply runs_liftO; [exact Hcur|]. mstep. apply strdup_lucky; [done|]. rewrite is_null_str.
  rewrite <- Ed in Hp1.
  pose proof (char_token g ($">") rest ltac:(apply (bool_decide_unpack _); vm_compute; exact I)) as Ht.
  mstep. eapply runs_mono.
  { apply (token_runs _ [] [ $">"] rest s stack x need last top); [|constructor|done].
    eapply parser_skip_white; [exact Hp1|done|apply Ht]. }
  intros [n p2] (-> & Hb2 & _ & Hp2). rewrite (token_positive _ _ Ht).
  destruct (cur_token_holds _ _ _ Hb2 Ht) as (Hcur2 & b2 & ->). mstep.
  eapply runs_liftO; [exact Hcur2|]. by mstep.
Qed.

(** ** Character data *)

Lemma spells_length v raw : spells_chars v raw -> (length v <= length raw)%nat /\
  zlen (encode v) <= zlen raw.
Proof.
  intros [Hv (ws & Hw & ->)]. induction Hw as [|c w v ws Hcw _ IH]; [done|].
  apply Forall_cons in Hv as [Hc Hv]. destruct (IH Hv) as [H1 H2].
  destruct (written_length c w Hc Hcw) as (? & Hl & _).
  cbn [concat]. rewrite encode_cons, !zlen_app, length_app. cbn [length].
  unfold zlen in *. lia.
Qed.

Lemma copy_text p txt v raw rest :
  spells_chars v raw -> raw <> [] -> txt = raw ++ rest -> zlen raw <= MB_MAX ->
  runs Lucky (Parser_copyToken junk g (Parser_clearTokenBuf p) txt (zlen raw))
    (fun '(rc, p') => rc = IXML_SUCCESS /\
       exists m, p' = set_tokenBuf m p /\ buf_holds m (encode v)).
Proof.
  intros Hv Hne -> Hm. destruct (spells_length _ _ Hv) as [Hl Hz].
  destruct Hv as [Hx (ws & Hw & ->)]. unfold Parser_copyToken.
  assert (0 < zlen (concat ws)).
  { destruct (concat ws); [done|]. rewrite zlen_cons. pose proof (zlen_nonneg l). lia. }
  rewrite (proj2 (Z.leb_gt _ _)) by lia. eapply runs_mono.
  - apply (copy_runs junk g v ws Hw); [done| |apply init_holds|].
    + rewrite length_app. lia.
    + change (zlen (@nil Z)) with 0. lia.
  - intros [rc p'] (-> & m & -> & Hm'). split; [done|]. exists m. split; [by destruct p|done].
Qed.

Lemma spells_chars_nil v : spells_chars v [] -> v = [].
Proof. intros H%spells_length. destruct v; [done|]. cbn in H. lia. Qed.
Lemma spells_chars_encode v raw : spells_chars v raw -> raw <> [] -> encode v <> [].
Proof.
  intros [Hv (ws & Hw & ->)] Hne. apply encode_nonempty; [done|]. intros ->.
  by apply Forall2_nil_inv_l in Hw as ->.
Qed.

(** ** Attributes *)

Lemma attribute_value_runs p q v raw rest s stack x need last top n :
  parser_is p (raw ++ q :: rest) s stack x need last top ->
  q ∈ [DQUOTE; $"'"] -> spells_chars v raw -> q ∉ raw -> $"<" ∉ raw ->
  runs Lucky (attribute_value junk g p [q] n) (fun '(rc, p', node) =>
    rc = IXML_SUCCESS /\ node = set_nodeValue (DStr (encode v)) n /\
    parser_is p' rest s stack x need last top).
Proof.
  intros Hp Hq Hv Hqr Hlt. pose proof (pi_good _ _ _ _ _ _ _ _ Hp) as Hg.
  unfold attribute_value, until_key. rewrite (pi_text _ _ _ _ _ _ _ _ Hp).
  rewrite strstr_char by (done || apply Hg). rewrite ztake_app_exact by done.
  destruct (existsb (Z.eqb $"<") raw) eqn:Ee.
  { apply existsb_exists in Ee as (c & Hc & <-%Z.eqb_eq). by apply list_elem_of_In in Hc. }
  assert (good_text rest) as Hgr by (apply (good_tail [q]); by apply good_tail in Hg).
  assert (adv (zlen raw + 1) (raw ++ q :: rest) = Some rest) as Hadv.
  { change (q :: rest) with ([q] ++ rest). rewrite app_assoc. apply adv_app.
    by rewrite zlen_app. }
  assert (forall m, px_tokenBuf (set_tokenBuf m p) = m) as Htb by done.
  destruct raw as [|c0 raw0] eqn:Er.
  - apply spells_chars_nil in Hv as ->. change (zlen (@nil Z) =? 0) with true. cbn [negb].
    mstep. mstep. cbn [negb Z.eqb IXML_SUCCESS]. mstep. eapply runs_liftO.
    { cbn [px_curPtr Parser_clearTokenBuf set_tokenBuf]. rewrite (pi_text _ _ _ _ _ _ _ _ Hp).
      exact Hadv. }
    cbn [mb_buf px_tokenBuf set_curPtr Parser_clearTokenBuf set_tokenBuf ixml_membuf_destroy
      ixml_membuf_init membuffer_initialize]. mstep. mstep; [|done]. mstep.
    split; [done|]. split; [done|].
    by apply (parser_at _ _ _ _ _ _ _ _ rest _ (px_savePtr p) Hp).
  - rewrite <- Er in *. assert (raw <> []) as Hne by (by rewrite Er).
    rewrite (proj2 (Z.eqb_neq (zlen raw) 0)).
    2: { rewrite Er, zlen_cons. pose proof (zlen_nonneg raw0). lia. }
    cbn [negb]. cbn [px_curPtr Parser_clearTokenBuf set_tokenBuf].
    rewrite (pi_text _ _ _ _ _ _ _ _ Hp). mstep.
    eapply runs_mono; [eapply (copy_text p); [done|done|done|]|].
    { apply good_head in Hg. apply Hg. }
    intros [rc p'] (-> & m & -> & Hm). cbn [negb Z.eqb IXML_SUCCESS]. mstep.
    cbn [px_curPtr set_tokenBuf]. rewrite (pi_text _ _ _ _ _ _ _ _ Hp).
    eapply runs_liftO; [exact Hadv|].
    destruct (holds_token (set_curPtr rest (set_tokenBuf m p)) (encode v)) as [Hcur [b ->]];
      [done|by eapply spells_chars_encode|].
    mstep. eapply runs_liftO; [exact Hcur|]. mstep. apply strdup_lucky.
    { apply encode_nonnul. apply Hv. }
    mstep. split; [done|]. split; [done|].
    by apply (parser_at _ _ _ _ _ _ _ _ rest m (px_savePtr p) Hp).
Qed.

(** The element that waits for its namespace: the one whose attributes are read. *)
Definition waits (st : nodes) (need : ptr) (stack : list (list Z)) : Prop :=
  need = None \/ exists c nc name rest, need = Some c /\ st !! c = Some (Some nc) /\
    n_prefix nc = DNull /\ n_nodeName nc = DStr (encode name) /\ stack = name :: rest /\
    elem_name name.

Lemma addNamespace_runs p txt s stack x need last top st :
  parser_is p txt s stack x need last top -> waits st need stack -> need <> None ->
  runs Lucky (Parser_addNamespace p st) (fun '(rc, p', st') =>
    rc = IXML_SUCCESS /\ st' = st /\ parser_is p' txt s stack x None last top).
Proof.
  intros Hp [->|(c & nc & name & rest & -> & Hc & Hpre & Hnm & -> & Hen)] Hne; [done|].
  destruct (elem_name_facts _ Hen) as (_ & Hcs & _). unfold Parser_addNamespace.
  rewrite (pi_need _ _ _ _ _ _ _ _ Hp). rd_step. mstep.
  eapply runs_liftO; [by rewrite (pi_stack _ _ _ _ _ _ _ _ Hp)|].
  rewrite Hpre. change (is_null DNull) with true. cbn [frame es_element es_namespaceUri]. mstep.
  eapply runs_liftO.
  { unfold strcmp_same. rewrite Hnm. cbn [str_of mbind option_bind]. done. }
  unfold strcmp_eq. rewrite bool_decide_true by done. cbn [negb].
  change (nonnull DNull) with false. cbv iota. mstep. split; [done|]. split; [done|].
  by destruct Hp.
Qed.

Lemma xmlns_name nm : attr_name nm ->
  Forall xml_char nm /\ cstring (encode nm) /\ strcmp_eq (encode nm) (cs "xmlns") = false /\
  starts_with (encode nm) (cs "xmlns:") = false.
Proof.
  intros [[_ Hn] [Hx1 Hx2]]. destruct (name_plain _ Hn) as [Hx _]. split; [done|].
  assert (cstring (encode nm)) as Hc by (by apply encode_nonnul). split; [done|]. split.
  - unfold strcmp_eq. rewrite !c_str_id by first [done|by repeat constructor].
    apply bool_decide_false. intros E. apply Hx1.
    destruct (encode_prefix (cs "xmlns") nm []) as (v & -> & Ev);
      [by repeat constructor|done|by rewrite app_nil_r|].
    destruct v; [by rewrite app_nil_r|]. apply Forall_app in Hx as [_ Hx].
    by symmetry in Ev; apply encode_nonempty in Ev.
  - apply starts_with_false; [by repeat constructor|by apply encode_byte|]. intros r E.
    destruct (encode_prefix (cs "xmlns:") nm r) as (v & -> & _); [by repeat constructor|done..|].
    apply Hx2. by exists v.
Qed.

Lemma xmlNamespace_runs p txt s stack x need last top st n nm :
  parser_is p txt s stack x need last top -> waits st need stack ->
  n_nodeName n = DStr (encode nm) -> attr_name nm ->
  runs Lucky (Parser_xmlNamespace p st n) (fun '(rc, p', st', node) =>
    rc = IXML_SUCCESS /\ st' = st /\ node = n /\ parser_is p' txt s stack x None last top).
Proof.
  intros Hp Hw Hnm Hn. destruct (xmlns_name _ Hn) as (_ & Hcs & H1 & H2).
  unfold Parser_xmlNamespace. rewrite Hnm. mstep. apply runs_assert_true; [done|]. mstep.
  eapply runs_liftO; [done|]. rewrite c_str_id, H1, H2 by done. mstep. mstep.
  cbn [Z.eqb IXML_SUCCESS andb]. rewrite (pi_need _ _ _ _ _ _ _ _ Hp).
  destruct need as [c|]; cbn [bool_decide].
  - rewrite bool_decide_true by done. mstep.
    eapply runs_mono; [by eapply addNamespace_runs|]. intros [[rc p'] st'] (-> & -> & Hp').
    by mstep.
  - rewrite bool_decide_false by (intros H; by apply H). by mstep.
Qed.

Lemma after_attribute_runs p w tok rest stack x need last top :
  parser_is p (w ++ encode tok ++ rest) eATTRIBUTE stack x need last top -> white w ->
  token_at g tok rest -> tok <> [ $"<"] ->
  runs Lucky (after_attribute junk g p) (fun '(rc, p') =>
    rc = IXML_SUCCESS /\ exists w', left_of w w' /\
    parser_is p' (after_name_text tok rest w')
      (if bool_decide (tok = [ $">"]) then eCONTENT else eATTRIBUTE) stack x need last top).
Proof.
  intros Hp Hw Ht Hlt. pose proof (pi_good _ _ _ _ _ _ _ _ Hp) as Hg. unfold after_attribute.
  mstep. eapply runs_mono;
    [apply (token_runs _ w tok rest _ _ _ _ _ _ (parser_save _ _ _ _ _ _ _ _ _ Hp)); done|].
  intros [n p1] (-> & Hb & Hsv & Hp1). rewrite (token_positive _ _ Ht).
  destruct (cur_token_holds _ _ _ Hb Ht) as [Hcur _]. mstep. eapply runs_liftO; [exact Hcur|].
  change (cs "<") with [ $"<"]. change (cs ">") with [ $">"].
  rewrite !(token_eq _ _ _ Ht) by (by repeat constructor). rewrite bool_decide_false by done.
  destruct (saved_text w tok rest (px_savePtr p1) _ Hw eq_refl) as (w' & Hw' & Hsv' & Hg').
  { cbn [px_savePtr set_savePtr] in Hsv. rewrite <- (pi_text _ _ _ _ _ _ _ _ Hp). exact Hsv. }
  unfold after_name_text. destruct (bool_decide_reflect (tok = [ $">"])); cbn [negb].
  - mstep. split; [done|]. exists w'. split; [done|]. by eapply parser_state.
  - destruct (parser_restore _ _ _ _ _ _ _ _ eATTRIBUTE _ Hp1 Hsv' (Hg' Hg)) as (p2 & Hr & Hp2).
    mstep. eapply runs_liftO.
    { replace p1 with (set_state eATTRIBUTE p1); [exact Hr|].
      pose proof (pi_state _ _ _ _ _ _ _ _ Hp1) as Es. destruct p1. cbn in Es. by subst. }
    mstep. by eauto.
Qed.

(** Reading a token of one character. *)
Lemma char_runs p w q rest s stack x need last top :
  parser_is p (w ++ q :: rest) s stack x need last top -> white w ->
  q ∈ [DQUOTE; $"'"; $"="; $">"] ->
  runs Lucky (Parser_getNextToken junk g p) (fun '(n, p') =>
    (n =? 0) = false /\ cur_token p' = Some [q] /\ (exists b, mb_buf (px_tokenBuf p') = Some b) /\
    parser_is p' rest s stack x need last top).
Proof.
  intros Hp Hw Hq. pose proof (char_token g q rest Hq) as Ht.
  assert (encode [q] = [q]) as E.
  { apply encode_ascii. unfold DQUOTE in Hq. rewrite !elem_of_cons, elem_of_nil in Hq.
    repeat constructor; lia. }
  eapply runs_mono; [apply (token_runs p w [q] rest s stack x need last top);
    [by rewrite E|done..]|].
  intros [n p'] (-> & Hb & _ & Hp'). split; [by eapply token_positive|].
  destruct (cur_token_holds _ _ _ Hb Ht) as (Hcur & Hbuf). rewrite E in Hcur. done.
Qed.

Definition attr_node (nm v : list Z) : IXML_Node :=
  set_nodeType eATTRIBUTE_NODE (set_nodeValue (DStr (encode v))
    (set_nodeName (DStr (encode nm)) (zero_node XNode))).

Lemma processAttribute_runs p st nm w2 w3 q v raw w tok rest stack x need last top :
  parser_is p (w2 ++ [ $"="] ++ w3 ++ [q] ++ raw ++ [q] ++ w ++ encode tok ++ rest)
    eATTRIBUTE stack x need last top ->
  buf_holds (px_tokenBuf p) (encode nm) -> attr_name nm -> white w2 -> white w3 ->
  q ∈ [DQUOTE; $"'"] -> spells_chars v raw -> q ∉ raw -> $"<" ∉ raw -> white w ->
  token_at g tok rest -> tok <> [ $"<"] -> waits st need stack ->
  runs Lucky (Parser_processAttribute junk g p st (zero_node XNode)) (fun '(rc, p', st', node) =>
    rc = IXML_SUCCESS /\ st' = st /\ node = attr_node nm v /\ exists w', left_of w w' /\
    parser_is p' (after_name_text tok rest w')
      (if bool_decide (tok = [ $">"]) then eCONTENT else eATTRIBUTE) stack x None last top).
Proof.
  intros Hp Hb Hn Hw2 Hw3 Hq Hv Hqr Hlt Hw Ht Htl Hwt. pose proof Hn as [[Hn1 Hn2] _].
  destruct nm as [|c nm]; [done|]. destruct (name_plain _ Hn2) as [Hx _].
  unfold Parser_processAttribute.
  destruct (holds_token _ _ Hb) as [Hcur [b ->]]; [by apply encode_nonempty|].
  mstep. eapply runs_liftO; [exact Hcur|]. mstep.
  eapply runs_liftO; [rewrite encode_cons; apply utf8_enc; by apply Forall_inv in Hx|]. cbv beta iota. mstep.
  eapply runs_liftO; [by rewrite is_name_char|]. rewrite Hn1. cbn [negb]. mstep.
  apply strdup_lucky; [by apply encode_nonnul|]. rewrite is_null_str. mstep.
  eapply runs_mono; [apply (char_runs p w2 ($"=") _ _ _ _ _ _ _ Hp); [done|delimiter]|].
  intros [n p1] (-> & Hcur1 & _ & Hp1). mstep. eapply runs_liftO; [exact Hcur1|].
  rewrite rd_cons_0. cbn [Z.eqb Pos.eqb negb]. mstep.
  eapply runs_mono; [apply (char_runs p1 w3 q _ _ _ _ _ _ _ Hp1); [done|]|].
  { rewrite !elem_of_cons, elem_of_nil in *. tauto. }
  intros [n2 p2] (-> & Hcur2 & _ & Hp2). mstep. eapply runs_liftO; [exact Hcur2|].
  rewrite rd_cons_0. assert (negb (q =? DQUOTE) && negb (q =? $"'") = false) as ->.
  { rewrite !elem_of_cons, elem_of_nil in Hq. destruct Hq as [->|[->|[]]]; [|rewrite andb_false_r]; done. }
  mstep. eapply runs_mono; [eapply attribute_value_runs; [exact Hp2|done..]|].
  intros [[rc p3] node] (-> & -> & Hp3). cbn [negb Z.eqb IXML_SUCCESS]. mstep.
  eapply runs_mono; [eapply xmlNamespace_runs; [exact Hp3|done|reflexivity|done]|].
  intros [[[rc p4] st'] node] (-> & -> & -> & Hp4). cbn [negb Z.eqb IXML_SUCCESS]. mstep.
  eapply runs_mono; [eapply after_attribute_runs; [exact Hp4|done..]|].
  intros [rc p5] (-> & w' & Hw' & Hp5). mstep. do 3 (split; [done|]). by exists w'.
Qed.

(** ** Content *)

Lemma starts_with_head s key c d r : ascii key -> Forall byte s -> s = c :: d :: r ->
  key !! 1%nat <> Some d -> (1 < length key)%nat -> starts_with s key = false.
Proof.
  intros Hk Hs -> Hd Hl. apply starts_with_false; [done..|]. intros r' E. apply Hd.
  destruct key as [|k [|k2 key]]; [cbn in Hl; lia..|]. cbn in E. by injection E as _ ->.
Qed.

Lemma skip_white_solid s : solid (skip_white s).
Proof.
  induction s as [|c s IH]; [done|]. cbn. destruct (negb (c =? 0) && strchr WHITESPACE c) eqn:E; [done|].
  cbn. rewrite is_white, E. done.
Qed.

Lemma content_tag_runs p w d r stack x need last top :
  parser_is p (w ++ $"<" :: d :: r) eCONTENT stack x need last top -> white w ->
  d <> $"!" -> d <> $"?" ->
  runs Lucky (Parser_processContent junk g p (zero_node XNode)) (fun '(rc, p', node) =>
    rc = IXML_SUCCESS /\ node = zero_node XNode /\
    parser_is p' ($"<" :: d :: r) eELEMENT stack x need last top).
Proof.
  intros Hp Hw H1 H2. unfold Parser_processContent.
  set (p0 := Parser_skipWhiteSpaces _).
  assert (parser_is p0 ($"<" :: d :: r) eCONTENT stack x need last top) as Hp0.
  { apply (parser_skip_white _ _ _ _ _ _ _ _ w); [by apply parser_save|done|].
    cbn. rewrite !elem_of_cons, elem_of_nil. lia. }
  pose proof (pi_good _ _ _ _ _ _ _ _ Hp0) as (Hb & _). rewrite (pi_text _ _ _ _ _ _ _ _ Hp0).
  cbn [Z.eqb Pos.eqb].
  rewrite !(starts_with_head _ _ ($"<") d r) by
    (done || by repeat constructor || by intros [=] || by cbn; lia).
  mstep. split; [done|]. split; [done|]. by eapply parser_state.
Qed.

Lemma content_end_of_text p w stack x need last top :
  parser_is p w eCONTENT stack x need last top -> white w ->
  runs Lucky (Parser_processContent junk g p (zero_node XNode)) (fun '(rc, p', node) =>
    rc = IXML_SUCCESS /\ node = zero_node XNode /\
    parser_is p' [] eCONTENT stack x need last top).
Proof.
  intros Hp Hw. unfold Parser_processContent. set (p0 := Parser_skipWhiteSpaces _).
  assert (parser_is p0 [] eCONTENT stack x need last top) as Hp0.
  { apply (parser_skip_white _ _ _ _ _ _ _ _ w); [|done|done]. rewrite app_nil_r.
    by apply parser_save. }
  rewrite (pi_text _ _ _ _ _ _ _ _ Hp0). by mstep.
Qed.

(** A node of character data. *)
Definition data_node (t : IXML_NODE_TYPE) (name v : list Z) : IXML_Node :=
  set_nodeType t (set_nodeName (DStr name) (set_nodeValue (DStr (encode v)) (zero_node XNode))).

Lemma process_text_runs p v raw r s stack x need last top :
  parser_is p (raw ++ $"<" :: r) s stack x need last top ->
  spells_chars v raw -> raw <> [] -> $"<" ∉ raw -> ~ infix CDEND raw ->
  runs Lucky (process_text junk g p (zero_node XNode)) (fun '(rc, p', node) =>
    rc = IXML_SUCCESS /\ node = data_node eTEXT_NODE TEXTNODENAME v /\
    parser_is p' ($"<" :: r) s stack x need last top).
Proof.
  intros Hp Hv Hne Hlt Hcd. pose proof (pi_good _ _ _ _ _ _ _ _ Hp) as Hg. unfold process_text.
  rewrite (pi_text _ _ _ _ _ _ _ _ Hp), content_end_runs by (done || apply Hg).
  rewrite Z.add_0_l. cbn [px_curPtr Parser_clearTokenBuf set_tokenBuf].
  rewrite (pi_text _ _ _ _ _ _ _ _ Hp). mstep.
  eapply runs_mono; [eapply (copy_text p); [done|done|done|]|].
  { apply good_head in Hg. apply Hg. }
  intros [rc p'] (-> & m & -> & Hm). cbn [negb Z.eqb IXML_SUCCESS].
  destruct (holds_token (set_tokenBuf m p) (encode v)) as [Hcur [b ->]];
    [done|by eapply spells_chars_encode|].
  mstep. eapply runs_liftO; [exact Hcur|]. mstep.
  apply strdup_lucky; [apply encode_nonnul; apply Hv|]. rewrite is_null_str. mstep.
  apply strdup_lucky; [by repeat constructor|]. rewrite is_null_str. mstep.
  cbn [px_curPtr set_tokenBuf]. rewrite (pi_text _ _ _ _ _ _ _ _ Hp).
  eapply runs_liftO; [by apply adv_app|]. mstep. split; [done|]. split; [done|].
  apply (parser_at _ _ _ _ _ _ _ _ ($"<" :: r) m (px_savePtr p) Hp). by apply good_tail in Hg.
Qed.

Lemma skip_white_text raw r : $"<" ∉ raw -> ~ white raw ->
  exists c s, skip_white (raw ++ r) = c :: s /\ c <> $"<".
Proof.
  induction raw as [|c raw IH]; intros Hlt Hw; [by destruct Hw; constructor|].
  apply not_elem_of_cons in Hlt as [Hc Hlt]. cbn [app skip_white].
  destruct (negb (c =? 0) && strchr WHITESPACE c) eqn:E; [|by exists c, (raw ++ r)].
  apply IH; [done|]. intros H. apply Hw. constructor; [by apply is_white|done].
Qed.

Lemma content_text_runs p v raw r stack x need last top :
  parser_is p (raw ++ $"<" :: r) eCONTENT stack x need last top ->
  spells_chars v raw -> ~ white raw -> $"<" ∉ raw -> ~ infix CDEND raw ->
  runs Lucky (Parser_processContent junk g p (zero_node XNode)) (fun '(rc, p', node) =>
    rc = IXML_SUCCESS /\ node = data_node eTEXT_NODE TEXTNODENAME v /\
    parser_is p' ($"<" :: r) eCONTENT stack x need last top).
Proof.
  intros Hp Hv Hw Hlt Hcd. unfold Parser_processContent.
  destruct (skip_white_text raw ($"<" :: r) Hlt Hw) as (c & s & Es & Hc).
  cbn [px_curPtr Parser_skipWhiteSpaces set_curPtr set_savePtr].
  rewrite (pi_text _ _ _ _ _ _ _ _ Hp), Es. rewrite (proj2 (Z.eqb_neq c _)) by done.
  mstep. eapply runs_liftO; [done|].
  eapply runs_mono; [eapply (process_text_runs _ v raw r eCONTENT stack x need last top)|].
  - destruct Hp. split; try done.
  - done.
  - intros ->. apply Hw. constructor.
  - done.
  - done.
  - intros [[rc p'] node] H. exact H.
Qed.

Lemma content_cdata_runs p w v r stack x need last top :
  parser_is p (w ++ CDSTART ++ v ++ CDEND ++ r) eCONTENT stack x need last top -> white w ->
  v <> [] -> Forall (fun c => xml_char c /\ c <= 127) v -> ~ infix CDEND v ->
  runs Lucky (Parser_processContent junk g p (zero_node XNode)) (fun '(rc, p', node) =>
    rc = IXML_SUCCESS /\ node = data_node eCDATA_SECTION_NODE CDATANODENAME v /\
    parser_is p' r eCONTENT stack x need last top).
Proof.
  intros Hp Hw Hne Hv Hcd. unfold Parser_processContent. set (p0 := Parser_skipWhiteSpaces _).
  assert (parser_is p0 (CDSTART ++ v ++ CDEND ++ r) eCONTENT stack x need last top) as Hp0.
  { apply (parser_skip_white _ _ _ _ _ _ _ _ w); [by apply parser_save|done|].
    cbn. rewrite !elem_of_cons, elem_of_nil. lia. }
  pose proof (pi_good _ _ _ _ _ _ _ _ Hp0) as Hg. rewrite (pi_text _ _ _ _ _ _ _ _ Hp0).
  assert (good_text r) as Hgr by (by do 3 apply good_tail in Hg).
  assert (encode v = v) as Ev.
  { apply encode_ascii. eapply Forall_impl; [exact Hv|]. intros c [Hc%xml_char_range ?]. lia. }
  change (CDSTART ++ v ++ CDEND ++ r) with ($"<" :: tail (CDSTART ++ v ++ CDEND ++ r)) at 1.
  cbv beta iota. cbn [Z.eqb Pos.eqb].
  change ($"<" :: tail (CDSTART ++ v ++ CDEND ++ r)) with (CDSTART ++ v ++ CDEND ++ r).
  rewrite (starts_with_true _ CDSTART _) by first [by repeat constructor|apply Hg|done].
  unfold Parser_processCDSect. mstep. mstep. eapply runs_liftO; [by apply adv_app|].
  rewrite cdata_end_runs, Z.add_0_l, zdrop_app_exact, ztake_app_exact by
    first [done|apply good_tail, good_tail, good_tail in Hg; apply Hg].
  assert (0 < zlen v) by (destruct v; [done|rewrite zlen_cons; pose proof (zlen_nonneg v); lia]).
  rewrite (proj2 (Z.ltb_lt 0 _)) by lia. rewrite bool_decide_false by done. cbn [negb andb].
  mstep. mstep; [|done]. cbn [negb]. mstep. apply strdup_lucky; [by repeat constructor|].
  rewrite is_null_str. mstep. eapply runs_liftO; [by apply adv_app|]. mstep.
  cbn [Z.eqb IXML_SUCCESS]. mstep. split; [done|]. split; [unfold data_node; by rewrite Ev|].
  destruct Hp0. by split.
Qed.

(** ** The next node *)

Lemma next_node_runs p st w tok rest s stack x need last top
    (Q : Z * Parser * nodes * IXML_Node * bool -> Prop) :
  parser_is p (w ++ encode tok ++ rest) s stack x need last top -> s <> eCONTENT -> white w ->
  token_at g tok rest ->
  (forall p', buf_holds (px_tokenBuf p') (encode tok) ->
     parser_is p' rest s stack x need last top ->
     runs Lucky (process_tag junk g p' st (zero_node XNode)) Q) ->
  runs Lucky (Parser_getNextNode junk g p st (zero_node XNode)) Q.
Proof.
  intros Hp Hs Hw Ht HQ. unfold Parser_getNextNode. rewrite (pi_text _ _ _ _ _ _ _ _ Hp).
  destruct (w ++ encode tok ++ rest) as [|c0 s0] eqn:E.
  { apply app_eq_nil in E as [_ E]. apply app_eq_nil in E as [E _].
    apply encode_nonempty in E; [done|apply Ht..]. }
  rewrite <- E in Hp. clear c0 s0 E. rewrite (pi_state _ _ _ _ _ _ _ _ Hp).
  assert (runs Lucky ('(tokenLen, p) ← Parser_getNextToken junk g (Parser_skipWhiteSpaces p);
    if (tokenLen =? 0) && bool_decide (px_pCurElement p = []) && bool_decide (px_curPtr p = [])
    then mret (IXML_SUCCESS, p, st, zero_node XNode, false)
    else if mb_length (px_tokenBuf p) =? 0
         then mret (IXML_SYNTAX_ERR, p, st, zero_node XNode, false)
         else process_tag junk g p st (zero_node XNode)) Q) as H; [|by destruct s].
  mstep. eapply runs_mono.
  { apply (token_runs _ [] tok rest s stack x need last top); [|constructor|done].
    eapply parser_skip_white; [exact Hp|done|apply Ht]. }
  intros [n p'] (-> & Hb & _ & Hp'). rewrite (holds_length _ _ Hb).
  rewrite (token_positive _ _ Ht). cbn [andb]. by apply HQ.
Qed.

Lemma next_stag_runs p st w name w1 tok rest d r s stack x need last top :
  parser_is p (w ++ [ $"<"] ++ encode name ++ w1 ++ encode tok ++ rest) s stack x need last top ->
  s <> eCONTENT -> white w -> elem_name name -> white w1 -> token_at g tok rest ->
  w1 ++ encode tok ++ rest = d :: r -> d ∈ delimiters ->
  runs Lucky (Parser_getNextNode junk g p st (zero_node XNode))
    (fun '(rc, p', st', node, bETag) =>
       rc = IXML_SUCCESS /\ st' = st /\ node = stag_node name /\ bETag = false /\
       exists w', left_of w1 w' /\ parser_is p' (after_name_text tok rest w') (after_name tok) stack x
         need (encode name) top).
Proof.
  intros Hp Hs Hw Hn Hw1 Ht Ed Hd. pose proof Hn as [[Hn1 _] _]. destruct name as [|c name]; [done|].
  assert (token_at g [ $"<"] (encode (c :: name) ++ w1 ++ encode tok ++ rest)) as Hlt.
  { rewrite encode_cons, <- app_assoc. by apply start_token. }
  eapply (next_node_runs p st w [ $"<"]); [exact Hp|done..|]. intros p1 Hb Hp1.
  destruct (cur_token_holds _ _ _ Hb Hlt) as [Hcur _]. unfold process_tag. mstep.
  eapply runs_liftO; [exact Hcur|]. rewrite (token_eq _ _ _ Hlt) by (by repeat constructor).
  change (encode [ $"<"]) with [ $"<"]. rewrite rd_cons_0.
  change (bool_decide ([ $"<"] = ENDTAG)) with false. cbn [Z.eqb Pos.eqb]. mstep.
  eapply runs_mono; [eapply processSTag_runs; [exact Hp1|done..]|].
  intros [[rc p2] node] (-> & -> & w' & Hw' & Hp2). mstep. do 4 (split; [done|]). by exists w'.
Qed.

Lemma next_etag_runs p st w name w2 rest s stack x need last top :
  parser_is p (w ++ ENDTAG ++ encode name ++ w2 ++ $">" :: rest) s stack x need last top ->
  s <> eCONTENT -> white w -> elem_name name -> white w2 ->
  runs Lucky (Parser_getNextNode junk g p st (zero_node XNode))
    (fun '(rc, p', st', node, bETag) =>
       rc = IXML_SUCCESS /\ st' = st /\ node = etag_node name /\ bETag = true /\
       parser_is p' rest s stack x need last top).
Proof.
  intros Hp Hs Hw Hn Hw2.
  pose proof (end_token g (encode name ++ w2 ++ $">" :: rest)) as Ht.
  eapply (next_node_runs p st w ENDTAG); [exact Hp|done..|]. intros p1 Hb Hp1.
  destruct (cur_token_holds _ _ _ Hb Ht) as [Hcur _]. unfold process_tag. mstep.
  eapply runs_liftO; [exact Hcur|]. rewrite (token_eq _ _ _ Ht) by (by repeat constructor).
  change (encode ENDTAG) with [60; 47]. rewrite rd_cons_0.
  change (bool_decide ([60; 47] = ENDTAG)) with true. cbn [Z.eqb Pos.eqb]. mstep.
  eapply runs_mono; [eapply processETag_runs; [exact Hp1|done..]|].
  intros [[[rc p2] node] b] (-> & -> & -> & Hp2). by mstep.
Qed.

Definition empty_node (name : list Z) : IXML_Node :=
  set_nodeType eELEMENT_NODE (set_nodeName (DStr (encode name)) (zero_node XNode)).
Lemma next_empty_runs p st w name rest s stack x need top :
  parser_is p (w ++ COMPLETETAG ++ rest) s stack x need (encode name) top ->
  s <> eCONTENT -> white w -> elem_name name ->
  runs Lucky (Parser_getNextNode junk g p st (zero_node XNode))
    (fun '(rc, p', st', node, bETag) =>
       rc = IXML_SUCCESS /\ st' = st /\ node = empty_node name /\ bETag = true /\
       parser_is p' rest s stack x need (encode name) top).
Proof.
  intros Hp Hs Hw Hn. destruct (elem_name_facts _ Hn) as (_ & Hcs & Hne & _).
  pose proof (empty_token g rest) as Ht.
  eapply (next_node_runs p st w COMPLETETAG); [exact Hp|done..|]. intros p1 Hb Hp1.
  destruct (cur_token_holds _ _ _ Hb Ht) as [Hcur _]. unfold process_tag. mstep.
  eapply runs_liftO; [exact Hcur|]. rewrite !(token_eq _ _ _ Ht) by (by repeat constructor).
  change (encode COMPLETETAG) with [47; 62]. rewrite rd_cons_0.
  change (bool_decide ([47; 62] = ENDTAG)) with false.
  change (bool_decide ([47; 62] = COMPLETETAG)) with true. cbn [Z.eqb Pos.eqb].
  pose proof (pi_last _ _ _ _ _ _ _ _ Hp1) as Hl. pose proof (bh_block _ _ Hl) as Hbl.
  destruct (mb_buf (px_lastElem p1)) as [b|] eqn:E; [|done]. mstep.
  eapply runs_liftO; [by eapply holds_str|]. mstep. apply strdup_lucky; [done|].
  rewrite is_null_str. by mstep.
Qed.

Lemma next_attr_runs p st w1 nm w2 w3 q v raw w tok rest stack x need last top :
  parser_is p (w1 ++ encode nm ++ w2 ++ [ $"="] ++ w3 ++ [q] ++ raw ++ [q] ++ w ++
    encode tok ++ rest) eATTRIBUTE stack x need last top ->
  white w1 -> attr_name nm -> white w2 -> white w3 -> q ∈ [DQUOTE; $"'"] ->
  spells_chars v raw -> q ∉ raw -> $"<" ∉ raw -> white w -> token_at g tok rest ->
  tok <> [ $"<"] -> waits st need stack -> stack <> [] ->
  runs Lucky (Parser_getNextNode junk g p st (zero_node XNode))
    (fun '(rc, p', st', node, bETag) =>
       rc = IXML_SUCCESS /\ st' = st /\ node = attr_node nm v /\ bETag = false /\
       exists w', left_of w w' /\ parser_is p' (after_name_text tok rest w')
         (if bool_decide (tok = [ $">"]) then eCONTENT else eATTRIBUTE) stack x None last top).
Proof.
  intros Hp Hw1 Hn Hw2 Hw3 Hq Hv Hqr Hlt Hw Ht Htl Hwt Hst. pose proof Hn as [[Hn1 Hn2] _].
  destruct (white_head w2 ($"=") (w3 ++ [q] ++ raw ++ [q] ++ w ++ encode tok ++ rest) Hw2)
    as (d & r & Ed & Hd); [delimiter|].
  pose proof (name_token g nm d r (proj1 Hn) Hd) as Hnt. rewrite <- Ed in Hnt.
  eapply (next_node_runs p st w1 nm); [exact Hp|done..|]. intros p1 Hb Hp1.
  destruct (cur_token_holds _ _ _ Hb Hnt) as [Hcur _]. unfold process_tag. mstep.
  eapply runs_liftO; [exact Hcur|]. rewrite !(token_eq _ _ _ Hnt) by (by repeat constructor).
  destruct nm as [|c nm]; [done|].
  destruct (enc_head _ _ Hn1) as (h & t & Eh & _ & _ & Hh). rewrite encode_cons, Eh.
  cbn [app]. rewrite rd_cons_0.
  assert (forall k, k ∈ delimiters -> (h =? k) = false) as Hk
    by (intros k Hk; apply Z.eqb_neq; by intros ->).
  rewrite !Hk by delimiter.
  assert (forall key, head key = Some ($"<") \/ head key = Some ($"/") ->
    bool_decide (c :: nm = key) = false) as Hkey.
  { intros key Hkey. apply bool_decide_false. intros <-. destruct (name_char_plain _ _ Hn1) as (_ & _ & Hcd).
    cbn in Hkey. apply Hcd. destruct Hkey as [[= ->]|[= ->]]; delimiter. }
  rewrite !Hkey by first [by left|by right].
  rewrite bool_decide_true, (pi_state _ _ _ _ _ _ _ _ Hp1) by
    (rewrite (pi_stack _ _ _ _ _ _ _ _ Hp1); by destruct stack).
  mstep. eapply runs_mono; [eapply processAttribute_runs; [exact Hp1|exact Hb|done..]|].
  intros [[[rc p2] st'] node] (-> & -> & -> & w' & Hw' & Hp2). cbn [Z.eqb IXML_SUCCESS]. mstep.
  do 4 (split; [done|]). by exists w'.
Qed.

(** ** Building the document *)

(** The document [doc] is under construction: [x], of type [ty], has the
    children [K] in its tree [T]. *)
Record building (st : nodes) (doc : loc) (T : tree) (ts : list tree) (x : loc) (K : tree)
    (ty : IXML_NODE_TYPE) : Prop := {
  bu_dom : dom_inv st (T :: ts);
  bu_kids : kids_of x T = Some K;
  bu_node : exists nx, st !! x = Some (Some nx) /\ n_ownerDocument nx = Some doc /\
    n_nodeType nx = ty
}.

Lemma building_fresh st doc T ts x K ty c :
  building st doc T ts x K ty -> st !! c = None -> c ∉ locs T.
Proof.
  intros [Hd _ _] Hc Hin. apply (dom_inv_fresh _ _ _ Hd Hc). cbn. apply elem_of_app. by left.
Qed.

Lemma building_append st st' doc T ts x K ty C :
  building st doc T ts x K ty -> dom_inv st' (edit x (chain_snoc C) T :: ts) -> kept st st' x ->
  building st' doc (edit x (chain_snoc C) T) ts x (chain_snoc C K) ty.
Proof.
  intros [Hd Hx (nx & Hnx & Ho & Ht)] Hd' Hk. split; [done|by apply (kids_of_edit x (chain_snoc C))|].
  destruct (Hk nx Hnx) as (n' & Hn' & E). exists n'. split; [done|].
  pose proof (f_equal n_ownerDocument E). pose proof (f_equal n_nodeType E). cbn in *.
  split; congruence.
Qed.

(** A node of character data is appended. *)
Lemma append_leaf_runs p st doc T ts x K ty v created t name txt s stack need last top :
  parser_is p txt s stack x need last top -> building st doc T ts x K ty -> ty = eELEMENT_NODE ->
  (forall Q : Z * ptr * nodes -> Prop,
     (forall c, st !! c = None ->
        Q (IXML_SUCCESS, Some c, <[c := Some (new_leaf doc t name v)]> st)) ->
     runs Lucky created Q) ->
  t = eTEXT_NODE \/ t = eCDATA_SECTION_NODE ->
  runs Lucky (append_created p created) (fun '(rc, st') =>
    rc = IXML_SUCCESS /\ exists c, st !! c = None /\
    building st' doc (edit x (chain_snoc (Node c [] Leaf Leaf)) T) ts x
      (chain_snoc (Node c [] Leaf Leaf) K) ty /\
    (exists n, st' !! c = Some (Some n) /\ n_nodeType n = t /\ n_nodeValue n = DStr v) /\
    forall l, kept st st' l).
Proof.
  intros Hp Hb -> Hcr Ht. pose proof Hb as [Hd Hx (nx & Hnx & Ho & Hty)]. unfold append_created.
  mstep. apply Hcr. intros c Hc. cbn [negb Z.eqb IXML_SUCCESS].
  rewrite (pi_node _ _ _ _ _ _ _ _ Hp).
  eapply runs_mono; [apply (append_new_runs Lucky st T ts x K nx c _ doc); try done|].
  - by destruct Ht as [->| ->]; (split; [split; [by repeat constructor|done]|]).
  - rewrite Hty. by destruct Ht as [->| ->].
  - intros [rc st'] (-> & Hd' & (n' & Hn' & E) & Hk). split; [done|]. exists c. split; [done|].
    split; [by eapply building_append|]. split; [|done]. exists n'. split; [done|].
    pose proof (f_equal n_nodeType E). pose proof (f_equal n_nodeValue E). done.
Qed.

(** The stack defines no namespace. *)
Lemma no_default_namespace p txt s stack x need last top :
  parser_is p txt s stack x need last top -> Parser_hasDefaultNamespace p = None.
Proof.
  intros Hp. unfold Parser_hasDefaultNamespace. rewrite (pi_stack _ _ _ _ _ _ _ _ Hp).
  clear Hp. induction stack as [|nm stack IH]; [done|exact IH].
Qed.

Lemma element_node_facts doc name :
  let n := with_properties (stag_node name) (new_element doc (encode name)) in
  single doc n /\ n_nodeType n = eELEMENT_NODE /\ n_nodeName n = DStr (encode name) /\
  n_prefix n = DNull /\ n_namespaceURI n = DNull.
Proof.
  intros n. split; [|split_and!; reflexivity].
  split; [split; [repeat (apply Forall_cons; split; [discriminate|]); constructor|discriminate]|].
  cbv -[encode]. split_and!; reflexivity.
Qed.

Lemma processElementName_runs p st doc T ts x K ty name txt s stack last top :
  parser_is p txt s stack x None last top -> building st doc T ts x K ty ->
  allow_types ty eELEMENT_NODE = true -> elem_name name -> top = false \/ stack <> [] ->
  runs Lucky (Parser_processElementName (Some doc) p st (stag_node name))
    (fun '(rc, p', st') => rc = IXML_SUCCESS /\ exists c, st !! c = None /\
       parser_is p' txt s (name :: stack) c
         (match s with eATTRIBUTE => Some c | _ => None end) last true /\
       building st' doc (edit x (chain_snoc (Node c [] Leaf Leaf)) T) ts c Leaf eELEMENT_NODE /\
       (exists n, st' !! c = Some (Some n) /\ n_nodeName n = DStr (encode name) /\
          n_prefix n = DNull) /\
       forall l, kept st st' l).
Proof.
  intros Hp Hb Hal Hn Htop. pose proof Hb as [Hd Hx (nx & Hnx & Ho & Hty)].
  destruct (elem_name_facts _ Hn) as (_ & Hcs & _). unfold Parser_processElementName.
  assert (px_bHasTopLevel p && isTopLevelElement p = false) as ->.
  { unfold isTopLevelElement. rewrite (pi_top _ _ _ _ _ _ _ _ Hp), (pi_stack _ _ _ _ _ _ _ _ Hp).
    destruct Htop as [->|Hst]; [done|]. rewrite andb_false_iff. right.
    apply bool_decide_false. by destruct stack. }
  set (p1 := set_savePtr _ _).
  assert (parser_is p1 txt s stack x None last true) as Hp1 by (by destruct Hp).
  mstep. apply createElement_lucky; [done|]. intros c Hc. cbn [negb Z.eqb IXML_SUCCESS].
  mstep. apply setNodeProperties_lucky; [by repeat constructor|done..|].
  cbn [negb Z.eqb IXML_SUCCESS]. destruct (element_node_facts doc name) as (Hsn & F1 & F2 & F3 & F4).
  set (n := with_properties _ _) in *. clearbody n.
  mstep. unfold element_namespace. change (nonnull (n_prefix (stag_node name))) with false.
  cbv iota. rewrite (no_default_namespace _ _ _ _ _ _ _ _ Hp1).
  rewrite (pi_state _ _ _ _ _ _ _ _ Hp1). apply (runs_ret Lucky (_, _)).
  set (p2 := match s with eATTRIBUTE => _ | _ => _ end).
  assert (parser_is p2 txt s stack x (match s with eATTRIBUTE => Some c | _ => None end) last true)
    as Hp2 by (by destruct Hp1, s).
  rewrite (pi_node _ _ _ _ _ _ _ _ Hp2). mstep.
  eapply runs_mono; [apply (append_new_runs Lucky st T ts x K nx c n doc); try assumption;
    by rewrite Hty, F1|].
  intros [rc st'] (-> & Hd' & (n' & Hn' & E) & Hk). cbn [negb Z.eqb IXML_SUCCESS].
  assert (n_nodeType n' = eELEMENT_NODE /\ n_nodeName n' = DStr (encode name) /\
    n_prefix n' = DNull /\ n_namespaceURI n' = DNull /\ n_ownerDocument n' = Some doc)
    as (E1 & E2 & E3 & E4 & E5).
  { rewrite <- E in F1, F2, F3, F4. destruct Hsn as (_ & _ & _ & F5). by rewrite <- E in F5. }
  mstep. unfold Parser_pushElement. mstep. apply runs_assert_true; [done|].
  mstep. mstep; [|done]. cbn [negb]. rd_step. rewrite E2. mstep.
  unfold safe_strdup at 1. mstep. apply runs_assert_true; [done|].
  apply strdup_of_lucky; [done|]. rewrite is_null_str, E3, E4. unfold strdup_opt.
  change (is_null DNull) with true.
  mstep. mstep. cbn [negb]. mstep. mstep. cbn [negb]. mstep. mstep.
  split; [done|]. exists c. split; [done|]. split; [|split; [|split; [by exists n'|done]]].
  - destruct Hp2. split; try done. cbn. by rewrite pi_stack0.
  - split; [done| |by exists n'].
    apply (kids_of_new x T K); [done|by eapply building_fresh].
Qed.

Lemma eTagVerification_runs p st node name txt s stack c nc px need last top :
  parser_is p txt s (name :: stack) c need last top -> elem_name name ->
  n_nodeType node = eELEMENT_NODE -> n_nodeName node = DStr (encode name) ->
  st !! c = Some (Some nc) -> n_nodeName nc = DStr (encode name) -> n_parentNode nc = Some px ->
  runs Lucky (Parser_eTagVerification p st node) (fun '(rc, p') =>
    rc = IXML_SUCCESS /\ parser_is p' txt s stack px need last top).
Proof.
  intros Hp Hn Ht Hnm Hc Hncm Hpar. unfold Parser_eTagVerification. rewrite Hnm, Ht.
  mstep. apply runs_assert_true.
  { rewrite (pi_node _ _ _ _ _ _ _ _ Hp). by rewrite (bool_decide_true (Some c <> None)). }
  mstep. mstep. unfold Parser_isValidEndElement. rewrite (pi_stack _ _ _ _ _ _ _ _ Hp).
  cbn [fmap list_fmap]. rewrite Hnm. mstep. apply runs_assert_true; [done|].
  eapply runs_liftO; [reflexivity|]. unfold strcmp_eq. rewrite bool_decide_true by done.
  mstep. unfold Parser_popElement. rewrite (pi_stack _ _ _ _ _ _ _ _ Hp).
  eapply runs_liftO; [reflexivity|]. mstep. cbn [negb].
  assert (parser_is (set_pCurElement (frame <$> stack) p) txt s stack c need last top) as Hp'
    by (by destruct Hp).
  fold (fmap frame stack). cbn [px_currentNodePtr set_pCurElement].
  rewrite (pi_node _ _ _ _ _ _ _ _ Hp). rd_step. mstep.
  eapply runs_liftO; [unfold strcmp_same; rewrite Hncm; reflexivity|].
  unfold strcmp_eq. rewrite bool_decide_true by done. mstep. split; [done|].
  rewrite Hpar. by destruct Hp'.
Qed.

Lemma attr_node_facts doc nm v :
  let n := with_properties (attr_node nm v) (new_attr doc (encode nm)) in
  node_ok n /\ n_ownerDocument n = Some doc /\ n_ext n = XAttr 0 None /\
  n_nodeType n = eATTRIBUTE_NODE /\ n_nextSibling n = None /\ n_nodeName n = DStr (encode nm) /\
  n_nodeValue n = DStr (encode v).
Proof.
  intros n. split; [|split_and!; reflexivity].
  split; [repeat (apply Forall_cons; split; [discriminate|]); constructor|exact I].
Qed.

Lemma processAttributeName_runs p st doc T ts x K c a n nm v names txt s stack need last top :
  parser_is p txt s stack c need last top ->
  dom_inv st (edit x (chain_snoc (Node c a Leaf Leaf)) T :: ts) -> kids_of x T = Some K ->
  st !! c = Some (Some n) -> n_ownerDocument n = Some doc -> attr_name nm -> Forall xml_char v ->
  attr_names st a (encode <$> names) -> Forall attr_name names -> nm ∉ names ->
  runs Lucky (Parser_processAttributeName (Some doc) p st (attr_node nm v))
    (fun '(rc, st') => rc = IXML_SUCCESS /\ exists b, st !! b = None /\
       dom_inv st' (edit x (chain_snoc (Node c (a ++ [b]) Leaf Leaf)) T :: ts) /\
       (exists q, st' !! c = Some (Some (set_firstAttr q n))) /\ attr_data st' b (nm, v) /\
       forall l, l <> c -> kept st st' l).
Proof.
  intros Hp Hd Hx Hn Ho Hnm Hv Hnames Hall Hni.
  destruct (xmlns_name _ Hnm) as (Hxn & Hcs & _).
  assert (Forall cstring (encode <$> names)) as Hcn.
  { apply Forall_fmap. eapply Forall_impl; [exact Hall|]. intros k Hk. destruct (xmlns_name _ Hk) as (_ & H & _). exact H. }
  assert (encode nm ∉ encode <$> names) as Hne.
  { intros Hin. apply list_elem_of_fmap in Hin as (k & E & Hk). rewrite Forall_forall in Hall.
    destruct (xmlns_name _ (Hall _ Hk)) as (Hxk & _). apply encode_inj in E; [|done..]. by subst. }
  pose proof (kids_of_edit x (chain_snoc (Node c a Leaf Leaf)) _ _ Hx) as Hx1.
  destruct (dom_node _ _ _ _ _ Hd Hx1) as (m & Hm & Hk & K1 & _).
  destruct (last_child_ok _ _ _ _ _ _ _ _ _ Hk Hn) as [_ Ha].
  assert (NoDup a) as Hnd.
  { rewrite snoc_perm in K1. cbn in K1. rewrite app_nil_r in K1.
    apply (NoDup_app (c :: a)) in K1 as (K1 & _). by apply NoDup_cons in K1 as [_ ?]. }
  unfold Parser_processAttributeName. mstep. unfold isDuplicateAttribute.
  rewrite (pi_node _ _ _ _ _ _ _ _ Hp). rd_step. mstep.
  eapply runs_mono; [apply (find_attr_runs _ _ _ a); [done|pose proof (attrs_at_size _ _ _ Ha Hnd); lia|]|].
  { intros l k Hl Hlk.
    destruct (attr_names_test _ _ _ _ _ _ Hnames Hcn Hcs Hne Hl Hlk) as (u & Hu & Hcu & Hf & _).
    unfold strcmp_same. rewrite Hu. cbn. by rewrite (c_str_id u), (c_str_id (encode nm)), Hf by done. }
  intros r ->. mstep. rewrite bool_decide_false by (intros H; by apply H).
  mstep. apply createAttribute_lucky; [done|]. intros b Hb. cbn [negb Z.eqb IXML_SUCCESS].
  mstep. apply setNodeProperties_lucky; [by repeat constructor|by apply encode_nonnul|done..|].
  cbn [negb Z.eqb IXML_SUCCESS].
  destruct (attr_node_facts doc nm v) as (F1 & F2 & F3 & F4 & F5 & F6 & F7).
  set (nb := with_properties _ _) in *. clearbody nb. mstep.
  eapply runs_mono; [by eapply (setAttributeNode_lucky st T ts x K c a n b nb doc)|].
  intros [[rc q] st'] (-> & Hd' & Hc' & (nb' & Hnb' & E) & Hk'). cbn [negb Z.eqb IXML_SUCCESS].
  mstep. split; [done|]. exists b. split; [done|]. split; [done|]. split; [done|]. split; [|done].
  exists nb'. split; [done|]. unfold set_ownerElement in E. rewrite F3 in E.
  pose proof (f_equal n_nodeType E) as E1. pose proof (f_equal n_nodeName E) as E2.
  pose proof (f_equal n_nodeValue E) as E3. cbn in E1, E2, E3. by rewrite E1, E2, E3.
Qed.

(** ** The loop *)

(** Each pass lowers this measure. *)
Definition mu p : nat :=
  2 * length (px_curPtr p) + (if bool_decide (px_state p = eCONTENT) then 1 else 0).
Lemma mu_is p txt s stack x need last top :
  parser_is p txt s stack x need last top ->
  mu p = (2 * length txt + (if bool_decide (s = eCONTENT) then 1 else 0))%nat.
Proof. intros []. unfold mu. by rewrite pi_text0, pi_state0. Qed.

Lemma mu_content p txt stack x need last top :
  parser_is p txt eCONTENT stack x need last top -> mu p = (2 * length txt + 1)%nat.
Proof. apply mu_is. Qed.
Lemma mu_tag p txt s stack x need last top :
  parser_is p txt s stack x need last top -> s <> eCONTENT -> mu p = (2 * length txt)%nat.
Proof. intros H Hs. rewrite (mu_is _ _ _ _ _ _ _ _ H), bool_decide_false by done. lia. Qed.
Lemma mu_le p txt s stack x need last top :
  parser_is p txt s stack x need last top -> (mu p <= 2 * length txt + 1)%nat.
Proof. intros H. rewrite (mu_is _ _ _ _ _ _ _ _ H). destruct (bool_decide _); lia. Qed.

(** The loop comes from [p] and [st] to a state in [Q]. *)
Definition leads (doc : loc) p st (Q : Parser -> nodes -> Prop) : Prop :=
  forall fuel R, (mu p < fuel)%nat ->
  (forall p' st' fuel', Q p' st' -> (mu p' < fuel')%nat ->
     runs Lucky (parse_nodes junk g fuel' (Some doc) p' st') R) ->
  runs Lucky (parse_nodes junk g fuel (Some doc) p st) R.

Lemma leads_now doc p st (Q : Parser -> nodes -> Prop) : Q p st -> leads doc p st Q.
Proof. intros HQ fuel R Hf HR. by apply HR. Qed.
Lemma leads_bind doc p st (P Q : Parser -> nodes -> Prop) :
  leads doc p st P -> (forall p' st', P p' st' -> leads doc p' st' Q) -> leads doc p st Q.
Proof.
  intros HP HQ fuel R Hf HR. apply HP; [done|]. intros p' st' fuel' H Hf'. by apply (HQ _ _ H).
Qed.
Lemma leads_pass doc p st (Q : Parser -> nodes -> Prop) :
  runs Lucky (Parser_getNextNode junk g p st (zero_node XNode))
    (fun '(ret, p1, st1, node, bETag) => ret = IXML_SUCCESS /\
       Parser_freeNodeContent node = Some tt /\
       runs Lucky (build_node (Some doc) p1 st1 node bETag) (fun '(rc, p', st') =>
         rc = IXML_SUCCESS /\ (mu p' < mu p)%nat /\ leads doc p' st' Q)) ->
  leads doc p st Q.
Proof.
  intros H [|fuel] R Hf HR; [lia|]. cbn [parse_nodes]. unfold parse_pass. mstep. mstep.
  eapply runs_mono; [exact H|]. intros [[[[ret p1] st1] node] bETag] (-> & Hfree & Hb).
  cbn [Z.eqb IXML_SUCCESS]. mstep. eapply runs_mono; [exact Hb|].
  intros [[rc p'] st'] (-> & Hmu & Hl). mstep. eapply runs_liftO; [exact Hfree|]. mstep.
  cbn [Z.eqb IXML_SUCCESS]. apply Hl; [lia|done].
Qed.

(** *** A pass over content *)

Lemma content_tag_lead doc p st w d r stack x need last top (Q : Parser -> nodes -> Prop) :
  parser_is p (w ++ $"<" :: d :: r) eCONTENT stack x need last top -> white w ->
  d <> $"!" -> d <> $"?" ->
  (forall p', parser_is p' ($"<" :: d :: r) eELEMENT stack x need last top -> leads doc p' st Q) ->
  leads doc p st Q.
Proof.
  intros Hp Hw H1 H2 HQ. apply leads_pass. unfold Parser_getNextNode.
  rewrite (pi_state _ _ _ _ _ _ _ _ Hp), (pi_text _ _ _ _ _ _ _ _ Hp).
  destruct (w ++ $"<" :: d :: r) as [|c0 s0] eqn:E; [by apply app_eq_nil in E as [_ ?]|].
  rewrite <- E in Hp. mstep. eapply runs_mono; [by eapply content_tag_runs|].
  intros [[rc p'] node] (-> & -> & Hp'). mstep. split; [done|]. split; [done|].
  apply (runs_ret Lucky (IXML_SUCCESS, p', st)). split; [done|]. split; [|by apply HQ].
  rewrite (mu_content _ _ _ _ _ _ _ Hp), (mu_tag _ _ _ _ _ _ _ _ Hp') by done.
  rewrite length_app. lia.
Qed.

(** A pass that appends a node of character data. *)
Lemma content_data_lead doc p st v t name txt rest stack x last T ts K
    (Q : Parser -> nodes -> Prop) :
  parser_is p txt eCONTENT stack x None last true -> (length rest < length txt)%nat ->
  building st doc T ts x K eELEMENT_NODE -> cstring (encode v) ->
  (t, name) = (eTEXT_NODE, TEXTNODENAME) \/ (t, name) = (eCDATA_SECTION_NODE, CDATANODENAME) ->
  runs Lucky (Parser_processContent junk g p (zero_node XNode)) (fun '(rc, p', node) =>
    rc = IXML_SUCCESS /\ node = data_node t name v /\
    parser_is p' rest eCONTENT stack x None last true) ->
  (forall p' st' c, parser_is p' rest eCONTENT stack x None last true -> st !! c = None ->
     building st' doc (edit x (chain_snoc (Node c [] Leaf Leaf)) T) ts x
       (chain_snoc (Node c [] Leaf Leaf) K) eELEMENT_NODE ->
     leaf_data st' c t v -> (forall l, kept st st' l) -> leads doc p' st' Q) ->
  leads doc p st Q.
Proof.
  intros Hp Hlen Hb Hv Ht Hrun HQ. apply leads_pass. unfold Parser_getNextNode.
  rewrite (pi_state _ _ _ _ _ _ _ _ Hp), (pi_text _ _ _ _ _ _ _ _ Hp).
  destruct txt as [|c0 s0]; [cbn in Hlen; lia|]. mstep.
  eapply runs_mono; [exact Hrun|]. intros [[rc p'] node] (-> & -> & Hp'). mstep. split; [done|].
  split; [done|].
  assert (runs Lucky (build_node (Some doc) p' st (data_node t name v) false)
    (fun '(rc, p'', st') => rc = IXML_SUCCESS /\ p'' = p' /\ exists c, st !! c = None /\
       building st' doc (edit x (chain_snoc (Node c [] Leaf Leaf)) T) ts x
         (chain_snoc (Node c [] Leaf Leaf) K) eELEMENT_NODE /\
       leaf_data st' c t v /\ forall l, kept st st' l)) as H.
  { assert (forall created, (forall Q0 : Z * ptr * nodes -> Prop, (forall c, st !! c = None ->
       Q0 (IXML_SUCCESS, Some c, <[c := Some (new_leaf doc t name (encode v))]> st)) ->
       runs Lucky created Q0) -> t = eTEXT_NODE \/ t = eCDATA_SECTION_NODE ->
     runs Lucky ('(rc, st') ← append_created p' created; mret (rc, p', st'))
       (fun '(rc, p'', st') => rc = IXML_SUCCESS /\ p'' = p' /\ exists c, st !! c = None /\
       building st' doc (edit x (chain_snoc (Node c [] Leaf Leaf)) T) ts x
         (chain_snoc (Node c [] Leaf Leaf) K) eELEMENT_NODE /\
       leaf_data st' c t v /\ forall l, kept st st' l)) as Hg.
    { intros created Hcr Htt. mstep. eapply runs_mono;
        [eapply (append_leaf_runs p' st doc T ts x K eELEMENT_NODE (encode v)); try done|].
      intros [rc st'] (-> & c & Hc & Hb' & (n & Hn & E1 & E2) & Hk). mstep. split; [done|].
      split; [done|]. exists c. split; [done|]. split; [done|]. split; [|done]. by exists n. }
    unfold build_node. destruct Ht as [[= -> ->]|[= -> ->]]; cbn [data_node n_nodeType set_nodeType n_nodeValue set_nodeName set_nodeValue];
      (apply Hg; [|by auto]); intros Q0 HQ0;
      [by apply createTextNode_lucky|by apply createCDATASection_lucky]. }
  eapply runs_mono; [exact H|]. intros [[rc p''] st'] (-> & -> & c & Hc & Hb' & Hd & Hk).
  split; [done|]. split; [|by eapply HQ].
  rewrite (mu_content _ _ _ _ _ _ _ Hp), (mu_content _ _ _ _ _ _ _ Hp'). lia.
Qed.

(** *** The attributes of an element *)

(** Attributes without the blanks before the first. *)
Inductive attr_body : list (list Z * list Z) -> text -> Prop :=
| ab_last nm w2 w3 q v raw :
    attr_name nm -> white w2 -> white w3 -> q ∈ [DQUOTE; $"'"] -> spells_chars v raw ->
    q ∉ raw -> $"<" ∉ raw ->
    attr_body [(nm, v)] (encode nm ++ w2 ++ [ $"="] ++ w3 ++ [q] ++ raw ++ [q])
| ab_more nm w2 w3 q v raw w attrs body :
    attr_name nm -> white w2 -> white w3 -> q ∈ [DQUOTE; $"'"] -> spells_chars v raw ->
    q ∉ raw -> $"<" ∉ raw -> white w -> attr_body attrs body ->
    attr_body ((nm, v) :: attrs)
      (encode nm ++ w2 ++ [ $"="] ++ w3 ++ [q] ++ raw ++ [q] ++ w ++ body).

Lemma spells_attr_body attrs sa : spells_attrs attrs sa ->
  (attrs = [] /\ sa = []) \/
  exists w body, white w /\ w <> [] /\ sa = w ++ body /\ attr_body attrs body.
Proof.
  induction 1 as [|w1 nm w2 w3 q v raw attrs s Hw1 Hne Hn Hw2 Hw3 Hq Hv Hqr Hlt _ IH]; [by left|].
  right. destruct IH as [[-> ->]|(w & body & Hw & _ & -> & Hb)].
  - eexists w1, _. split; [done|]. split; [done|]. split; [done|]. by constructor.
  - eexists w1, _. split; [done|]. split; [done|]. split; [done|]. by constructor.
Qed.

(** The name an attribute starts with. *)
Lemma attr_body_name attrs body : attr_body attrs body ->
  exists nm r, attr_name nm /\ body = encode nm ++ r /\
    forall t, token_at g nm (r ++ t) /\ exists d r', encode nm ++ r ++ t = d :: r' /\ d ∉ delimiters.
Proof.
  assert (forall nm w2 r, attr_name nm -> white w2 -> forall t,
    token_at g nm ((w2 ++ [ $"="] ++ r) ++ t) /\
    exists d r', encode nm ++ (w2 ++ [ $"="] ++ r) ++ t = d :: r' /\ d ∉ delimiters) as H.
  { intros nm w2 r Hn Hw t. pose proof Hn as [[Hn1 _] _]. destruct nm as [|c nm]; [done|].
    destruct (enc_head _ _ Hn1) as (h & e & Eh & _ & _ & Hh).
    rewrite <- !app_assoc. destruct (white_head w2 ($"=") (r ++ t) Hw) as (d & r' & Ed & Hd);
      [delimiter|]. cbn [app] in Ed |- *. rewrite Ed. split; [by apply name_token; [apply Hn|]|].
    exists h. rewrite encode_cons, Eh. eexists. split; [reflexivity|done]. }
  destruct 1; do 2 eexists; (split; [eassumption|]); (split; [reflexivity|]); by apply H.
Qed.
Lemma attr_token_neq nm k : attr_name nm -> k ∈ delimiters -> nm <> [k].
Proof.
  intros [[Hn _] _] Hk ->. by destruct (name_char_plain _ _ Hn) as (_ & _ & H).
Qed.

(** The element [c], the last child of [x], has the attributes [atts] so far. *)
Record elem_open (st : nodes) (doc : loc) (T : tree) (ts : list tree) (x : loc) (K : tree)
    (c : loc) (a : list loc) (name : list Z) (atts : list (list Z * list Z)) : Prop := {
  eo_dom : dom_inv st (edit x (chain_snoc (Node c a Leaf Leaf)) T :: ts);
  eo_kids : kids_of x T = Some K;
  eo_fresh : c ∉ locs T;
  eo_node : exists n, st !! c = Some (Some n) /\ n_ownerDocument n = Some doc /\
    n_nodeType n = eELEMENT_NODE /\ n_nodeName n = DStr (encode name) /\ n_prefix n = DNull;
  eo_attrs : Forall2 (attr_data st) a atts;
  eo_names : Forall attr_name atts.*1
}.

Lemma elem_open_apart st doc T ts x K c a name atts :
  elem_open st doc T ts x K c a name atts -> c ∉ a.
Proof.
  intros [Hd Hx _ _ _ _].
  pose proof (kids_of_edit x (chain_snoc (Node c a Leaf Leaf)) _ _ Hx) as Hx1.
  destruct (dom_node _ _ _ _ _ Hd Hx1) as (m & Hm & Hk & K1 & _).
  rewrite snoc_perm in K1. cbn in K1. rewrite app_nil_r in K1.
  apply (NoDup_app (c :: a)) in K1 as (K1 & _). by apply NoDup_cons in K1 as [? _].
Qed.

Lemma elem_open_attr p st doc T ts x K c a name atts nm v txt s stack need last top :
  parser_is p txt s stack c need last top ->
  elem_open st doc T ts x K c a name atts -> attr_name nm -> Forall xml_char v ->
  nm ∉ atts.*1 ->
  runs Lucky (Parser_processAttributeName (Some doc) p st (attr_node nm v)) (fun '(rc, st') =>
    rc = IXML_SUCCESS /\ exists b,
      elem_open st' doc T ts x K c (a ++ [b]) name (atts ++ [(nm, v)]) /\
      forall l, l <> c -> kept st st' l).
Proof.
  intros Hp Ho Hn Hv Hni. pose proof (elem_open_apart _ _ _ _ _ _ _ _ _ _ Ho) as Hca.
  destruct Ho as [Hd Hx Hfr (n & Hc & Hon & Hty & Hnm & Hpre) Ha Hnames].
  eapply runs_mono; [eapply (processAttributeName_runs p st doc T ts x K c a n nm v atts.*1);
    try done|].
  - unfold attr_names. rewrite <- list_fmap_compose. clear -Ha.
    induction Ha as [|l at' a atts (k & Hk & _ & Hkn & _) _ IH]; constructor; [|done].
    by exists k.
  - intros [rc st'] (-> & b & Hb & Hd' & (q & Hc') & Hbd & Hk). split; [done|]. exists b.
    split; [|done]. split; try done.
    + eexists. split; [exact Hc'|]. done.
    + apply Forall2_app; [|by constructor]. clear -Ha Hca Hk.
      induction Ha as [|l at' a atts H _ IH]; [constructor|]. apply not_elem_of_cons in Hca as [H1 H2].
      constructor; [|by apply IH]. eapply attr_data_kept; [|done]. by apply Hk.
    + rewrite fmap_app. apply Forall_app. split; [done|]. by constructor.
Qed.

Lemma elem_waits st doc T ts x K c a name atts stack :
  elem_open st doc T ts x K c a name atts -> elem_name name ->
  waits st (Some c) (name :: stack).
Proof.
  intros [_ _ _ (n & Hc & _ & _ & Hnm & Hpre) _ _] Hn. right. exists c, n, name, stack. done.
Qed.

(** One attribute. *)
Lemma attr_lead doc p st T ts x K c a name atts nm w2 w3 q v raw w' w tok rest stack need last
    (Q : Parser -> nodes -> Prop) :
  parser_is p (w' ++ encode nm ++ w2 ++ [ $"="] ++ w3 ++ [q] ++ raw ++ [q] ++ w ++ encode tok ++ rest)
    eATTRIBUTE (name :: stack) c need last true ->
  elem_open st doc T ts x K c a name atts -> elem_name name -> need = None \/ need = Some c ->
  white w' -> attr_name nm -> white w2 -> white w3 -> q ∈ [DQUOTE; $"'"] -> spells_chars v raw ->
  q ∉ raw -> $"<" ∉ raw -> white w -> token_at g tok rest -> tok <> [ $"<"] -> nm ∉ atts.*1 ->
  (forall p' st' b w2, left_of w w2 ->
     parser_is p' (after_name_text tok rest w2)
       (if bool_decide (tok = [ $">"]) then eCONTENT else eATTRIBUTE) (name :: stack) c None last true ->
     elem_open st' doc T ts x K c (a ++ [b]) name (atts ++ [(nm, v)]) ->
     (forall l, l <> c -> kept st st' l) -> leads doc p' st' Q) ->
  leads doc p st Q.
Proof.
  intros Hp Ho Hen Hneed Hw' Hn Hw2 Hw3 Hq Hv Hqr Hlt Hw Ht Htl Hni HQ. apply leads_pass.
  assert (waits st need (name :: stack)) as Hwt.
  { destruct Hneed as [->| ->]; [by left|]. by eapply elem_waits. }
  eapply runs_mono; [by eapply next_attr_runs|].
  intros [[[[rc p1] st1] node] bE] (-> & -> & -> & -> & w4 & Hw4 & Hp1). split; [done|].
  split; [done|]. unfold build_node. cbn [attr_node n_nodeType set_nodeType]. mstep.
  eapply runs_mono; [eapply elem_open_attr; [exact Hp1|done|done|apply Hv|done]|].
  intros [rc st'] (-> & b & Ho' & Hk). mstep. split; [done|]. split; [|by eapply HQ].
  rewrite (mu_tag _ _ _ _ _ _ _ _ Hp) by done. pose proof (mu_le _ _ _ _ _ _ _ _ Hp1) as Hmu.
  assert (length (after_name_text tok rest w4) <= length (w4 ++ encode tok ++ rest))%nat as Hl.
  { unfold after_name_text. destruct (bool_decide _); rewrite !length_app; lia. }
  destruct Hw4 as [_ Hw4]. rewrite !length_app in *. cbn in *. lia.
Qed.

(** The end of a start tag. *)
Definition tag_end (tok : list Z) : Prop := tok = [ $">"] \/ tok = COMPLETETAG.
Lemma tag_end_token tok rest : tag_end tok -> token_at g tok rest.
Proof. intros [->| ->]; [apply char_token; delimiter|apply empty_token]. Qed.
Lemma tag_end_delimiter w tok rest : white w -> tag_end tok ->
  exists d r, w ++ encode tok ++ rest = d :: r /\ d ∈ delimiters.
Proof.
  intros Hw [->| ->].
  - apply (white_head w ($">") rest); [done|delimiter].
  - apply (white_head w ($"/") ($">" :: rest)); [done|delimiter].
Qed.

Lemma attrs_lead doc x T ts K c name stack last w tok rest (Q : Parser -> nodes -> Prop) attrs body :
  attr_body attrs body -> elem_name name -> white w -> tag_end tok ->
  forall p st a atts need w',
  parser_is p (w' ++ body ++ w ++ encode tok ++ rest) eATTRIBUTE (name :: stack) c need last true ->
  elem_open st doc T ts x K c a name atts -> need = None \/ need = Some c -> white w' ->
  NoDup (atts.*1 ++ attrs.*1) ->
  (forall p' st' a' w2, left_of w w2 ->
     parser_is p' (after_name_text tok rest w2)
       (if bool_decide (tok = [ $">"]) then eCONTENT else eATTRIBUTE) (name :: stack) c None last true ->
     elem_open st' doc T ts x K c a' name (atts ++ attrs) ->
     (forall l, l <> c -> kept st st' l) -> leads doc p' st' Q) ->
  leads doc p st Q.
Proof.
  intros Hb Hen Hw Hte. pose proof (tag_end_token tok rest Hte) as Ht.
  assert (tok <> [ $"<"]) as Htl by (by destruct Hte as [->| ->]).
  induction Hb as [nm w2 w3 q v raw Hn Hw2 Hw3 Hq Hv Hqr Hlt|
    nm w2 w3 q v raw wm attrs body Hn Hw2 Hw3 Hq Hv Hqr Hlt Hwm Hb IH];
    intros p st a atts need w' Hp Ho Hneed Hw' Hnd HQ; rewrite <- !app_assoc in Hp.
  - apply NoDup_app in Hnd as (_ & Hni & _).
    eapply attr_lead; [exact Hp|exact Ho|done..| |].
    + intros Hin. apply (Hni nm Hin). by left.
    + intros p' st' b w4 Hw4 Hp' Ho' Hk. by eapply HQ.
  - destruct (attr_body_name _ _ Hb) as (nm2 & r & Hn2 & -> & Hr).
    destruct (Hr (w ++ encode tok ++ rest)) as (Ht2 & _). rewrite <- !app_assoc in Hp.
    cbn [fmap list_fmap] in Hnd.
    eapply attr_lead; [exact Hp|exact Ho|done..|apply attr_token_neq; [done|delimiter]| |].
    + apply NoDup_app in Hnd as (_ & Hni & _). intros Hin. apply (Hni nm Hin). by left.
    + intros p' st' b w4 [Hw4 _] Hp' Ho' Hk. unfold after_name_text in Hp'.
      rewrite bool_decide_false in Hp' by (apply attr_token_neq; [done|delimiter]).
      eapply (IH p' st' _ _ None w4); [by rewrite <- app_assoc|exact Ho'|by left|done| |].
      * rewrite fmap_app, <- app_assoc. exact Hnd.
      * intros p2 st2 a2 w5 Hw5 Hp2 Ho2 Hk2. rewrite <- app_assoc in Ho2.
        eapply HQ; [exact Hw5|exact Hp2|exact Ho2|].
        intros l Hl. eapply kept_trans; [by apply Hk|by apply Hk2].
Qed.

Lemma building_open st doc T ts x K c name n :
  dom_inv st (edit x (chain_snoc (Node c [] Leaf Leaf)) T :: ts) -> kids_of x T = Some K ->
  c ∉ locs T -> st !! c = Some (Some n) -> n_ownerDocument n = Some doc ->
  n_nodeType n = eELEMENT_NODE -> n_nodeName n = DStr (encode name) -> n_prefix n = DNull ->
  elem_open st doc T ts x K c [] name [].
Proof. intros. split; try done; [by exists n|constructor..]. Qed.

(** A start tag with its attributes. *)
Lemma start_lead doc p st w name attrs sa w1 tok rest x T ts K ty s stack last top
    (Q : Parser -> nodes -> Prop) :
  parser_is p (w ++ [ $"<"] ++ encode name ++ sa ++ w1 ++ encode tok ++ rest) s stack x None last top ->
  s <> eCONTENT -> building st doc T ts x K ty -> allow_types ty eELEMENT_NODE = true ->
  top = false \/ stack <> [] -> white w -> elem_name name -> spells_attrs attrs sa ->
  NoDup attrs.*1 -> white w1 -> tag_end tok ->
  (forall p' st' c a w2 s', left_of w1 w2 ->
     parser_is p' (after_name_text tok rest w2) s' (name :: stack) c None (encode name) true ->
     (s' = eCONTENT <-> tok = [ $">"]) -> elem_open st' doc T ts x K c a name attrs ->
     (forall l, kept st st' l) -> leads doc p' st' Q) ->
  leads doc p st Q.
Proof.
  intros Hp Hs Hb Hal Htop Hw Hn Ha Hnd Hw1 Hte HQ.
  (* the start tag, up to the token [tk] *)
  assert (forall wt tk rt d r, parser_is p (w ++ [ $"<"] ++ encode name ++ wt ++ encode tk ++ rt)
      s stack x None last top -> white wt -> token_at g tk rt -> wt ++ encode tk ++ rt = d :: r ->
    d ∈ delimiters ->
    (forall p' st' c w2, left_of wt w2 ->
       parser_is p' (after_name_text tk rt w2) (after_name tk) (name :: stack) c
         (match after_name tk with eATTRIBUTE => Some c | _ => None end) (encode name) true ->
       elem_open st' doc T ts x K c [] name [] -> st !! c = None ->
       (forall l, kept st st' l) -> leads doc p' st' Q) ->
    leads doc p st Q) as Hstart.
  { intros wt tk rt d r Hp' Hwt Ht Ed Hd HQ'. apply leads_pass.
    eapply runs_mono; [by eapply next_stag_runs|].
    intros [[[[rc p1] st1] node] bE] (-> & -> & -> & -> & w2 & Hw2 & Hp1). split; [done|].
    split; [done|]. unfold build_node. cbn [stag_node n_nodeType set_nodeType].
    eapply runs_mono; [by eapply processElementName_runs|].
    intros [[rc p2] st2] (-> & c & Hc & Hp2 & [Hd2 _ (m & Hm & Hmo & Hmt)] & (n & Hn2 & Hnm & Hpre) & Hk).
    split; [done|]. assert (m = n) as -> by congruence. split.
    - rewrite (mu_tag _ _ _ _ _ _ _ _ Hp') by done. pose proof (mu_le _ _ _ _ _ _ _ _ Hp2) as Hmu.
      assert (length (after_name_text tk rt w2) <= length (w2 ++ encode tk ++ rt))%nat as Hl.
      { unfold after_name_text. destruct (bool_decide _); rewrite !length_app; lia. }
      destruct Hw2 as [_ Hw2]. rewrite !length_app in *. cbn in *. lia.
    - eapply HQ'; [done|exact Hp2| |done|done].
      eapply building_open; try done; [apply Hb|by eapply building_fresh]. }
  destruct (spells_attr_body _ _ Ha) as [[-> ->]|(wa & body & Hwa & Hwne & -> & Hab)].
  - destruct (tag_end_delimiter w1 tok rest Hw1 Hte) as (d & r & Ed & Hd).
    eapply (Hstart w1 tok rest); [done|done|by apply tag_end_token|done|done|].
    intros p' st' c w2 Hw2 Hp' Ho _ Hk.
    assert (after_name tok <> eATTRIBUTE /\ (after_name tok = eCONTENT <-> tok = [ $">"])) as [Hst Hst'].
    { destruct Hte as [->| ->]; by vm_compute. }
    eapply (HQ p' st' c [] w2); [done| |exact Hst'|done|done].
    by destruct (after_name tok).
  - destruct (attr_body_name _ _ Hab) as (nm & r & Hnm & -> & Hr).
    destruct (Hr (w1 ++ encode tok ++ rest)) as (Ht & _). rewrite <- !app_assoc in Hp.
    assert (after_name nm = eATTRIBUTE) as Han.
    { unfold after_name. rewrite !bool_decide_false; [done|apply attr_token_neq; [done|delimiter]|].
      intros ->. destruct Hnm as [[H _] _]. vm_compute in H. done. }
    destruct wa as [|d wa]; [done|]. apply Forall_cons in Hwa as Hd. destruct Hd as [Hd _].
    eapply (Hstart (d :: wa) nm); [exact Hp|done|exact Ht|reflexivity| |].
    { rewrite !elem_of_cons, elem_of_nil in Hd. by destruct Hd as [->|[->|[->|[->|[]]]]]; delimiter. }
    intros p' st' c w2 [Hw2 _] Hp' Ho Hc Hk. unfold after_name_text in Hp'. rewrite Han in Hp'.
    rewrite bool_decide_false in Hp' by (apply attr_token_neq; [done|delimiter]).
    eapply (attrs_lead doc x T ts K c name stack (encode name) w1 tok rest Q attrs (encode nm ++ r));
      [done..| |exact Ho|by right|done|done|]; [by rewrite <- app_assoc|].
    intros p2 st2 a2 w3 Hw3 Hp2 Ho2 Hk2. eapply HQ; [done|exact Hp2| |done|].
    + destruct (bool_decide_reflect (tok = [ $">"])); done.
    + intros l. destruct (decide (l = c)) as [->|Hl].
      * intros m Hm. by rewrite Hc in Hm.
      * eapply kept_trans; [by apply Hk|by apply Hk2].
Qed.

(** *** Elements *)

Lemma chain_snoc_Leaf t : chain_snoc Leaf t = t.
Proof. induction t as [|l a k _ nx IH]; [done|]. cbn. by rewrite IH. Qed.
Lemma edit_snoc_Leaf x T K : kids_of x T = Some K -> edit x (chain_snoc Leaf) T = T.
Proof.
  intros H. rewrite (edit_ext x _ (fun ks => ks) T K H) by apply chain_snoc_Leaf. apply edit_same.
Qed.

(** The end tag of the element [c], the last child of [x]. *)
Lemma etag_build gd p st T ts x K c a tk name n txt s stack need last top node :
  parser_is p txt s (name :: stack) c need last top -> elem_name name ->
  dom_inv st (edit x (chain_snoc (Node c a tk Leaf)) T :: ts) -> kids_of x T = Some K ->
  st !! c = Some (Some n) -> n_nodeName n = DStr (encode name) ->
  n_nodeType node = eELEMENT_NODE -> n_nodeName node = DStr (encode name) ->
  runs Lucky (build_node gd p st node true) (fun '(rc, p', st') =>
    rc = IXML_SUCCESS /\ st' = st /\ parser_is p' txt eCONTENT stack x need last top).
Proof.
  intros Hp Hn Hd Hx Hc Hnm Hty Hnn.
  pose proof (kids_of_edit x (chain_snoc (Node c a tk Leaf)) _ _ Hx) as Hx1.
  destruct (dom_node _ _ _ _ _ Hd Hx1) as (m & Hm & Hk & K1 & _).
  destruct (sibling st _ (Some x) None _ c Hk K1) as (nc & Hnc & Hpar & _); [|done|].
  { clear. induction K; cbn; [by left|by right]. }
  assert (nc = n) as -> by congruence. unfold build_node. mstep.
  eapply runs_mono; [by eapply eTagVerification_runs|]. intros [rc p'] (-> & Hp').
  cbn [Z.eqb IXML_SUCCESS]. mstep. split; [done|]. split; [done|]. by eapply parser_state.
Qed.

(** What [parses] says: the parser, in the content of the element [x], appends
    the forest [f] to its children. *)
Definition forest_done doc st T ts x K f st' : Prop :=
  exists tf, building st' doc (edit x (chain_snoc tf) T) ts x (chain_snoc tf K) eELEMENT_NODE /\
    same_data st' tf f /\ forall l, kept st st' l.
Definition parses (f : forest) (s : text) : Prop :=
  forall doc p st T ts x K stack last tail (Q : Parser -> nodes -> Prop),
  parser_is p (s ++ ENDTAG ++ tail) eCONTENT stack x None last true -> stack <> [] ->
  building st doc T ts x K eELEMENT_NODE ->
  (forall p' st' w last', white w ->
     parser_is p' (w ++ ENDTAG ++ tail) eCONTENT stack x None last' true ->
     forest_done doc st T ts x K f st' -> leads doc p' st' Q) ->
  leads doc p st Q.

(** An element was appended to the children of [x]. *)
Definition elem_done (st : nodes) T ts x name attrs kids st' : Prop :=
  exists c a tk, dom_inv st' (edit x (chain_snoc (Node c a tk Leaf)) T :: ts) /\
    elem_data st' c name /\ Forall2 (attr_data st') a attrs /\ same_data st' tk kids /\
    forall l, kept st st' l.

Lemma elem_open_building st doc T ts x K c a name atts :
  elem_open st doc T ts x K c a name atts ->
  building st doc (edit x (chain_snoc (Node c a Leaf Leaf)) T) ts c Leaf eELEMENT_NODE.
Proof.
  intros [Hd Hx Hfr (n & Hc & Ho & Hty & _) _ _]. split; [done|by eapply kids_of_new|by exists n].
Qed.
Lemma elem_open_data st doc T ts x K c a name atts :
  elem_open st doc T ts x K c a name atts -> elem_data st c name.
Proof. intros [_ _ _ (n & Hc & _ & Hty & Hnm & _) _ _]. by exists n. Qed.
Lemma attrs_data_kept st st' a atts :
  (forall l, kept st st' l) -> Forall2 (attr_data st) a atts -> Forall2 (attr_data st') a atts.
Proof. intros Hk. induction 1; constructor; [by eapply attr_data_kept|done]. Qed.

Lemma elem_lead doc p st w name attrs kids sa w1 sk w2 rest x T ts K ty stack s last top
    (Q : Parser -> nodes -> Prop) :
  parses kids sk ->
  parser_is p (w ++ [ $"<"] ++ encode name ++ sa ++ w1 ++ [ $">"] ++ sk ++ ENDTAG ++ encode name ++
    w2 ++ [ $">"] ++ rest) s stack x None last top ->
  s <> eCONTENT -> building st doc T ts x K ty -> allow_types ty eELEMENT_NODE = true ->
  top = false \/ stack <> [] -> white w -> elem_name name -> spells_attrs attrs sa ->
  NoDup attrs.*1 -> white w1 -> white w2 ->
  (forall p' st' last', parser_is p' rest eCONTENT stack x None last' true ->
     elem_done st T ts x name attrs kids st' -> leads doc p' st' Q) ->
  leads doc p st Q.
Proof.
  intros Hkids Hp Hs Hb Hal Htop Hw Hn Ha Hnd Hw1 Hw2 HQ.
  eapply (start_lead doc p st w name attrs sa w1 [ $">"]); [exact Hp|done..|by left|].
  intros p1 st1 c a w3 s' _ Hp1 Hs' Ho Hk1. unfold after_name_text in Hp1.
  rewrite bool_decide_true in Hp1 by done. rewrite (proj2 Hs' eq_refl) in Hp1.
  pose proof (elem_open_building _ _ _ _ _ _ _ _ _ _ Ho) as Hbc.
  eapply (Hkids doc p1 st1 _ ts c Leaf (name :: stack)); [exact Hp1|done|exact Hbc|].
  intros p2 st2 w4 last2 Hw4 Hp2 (tk & Hb2 & Hsame & Hk2).
  pose proof Ho as [_ Hx Hfr _ Hat _].
  rewrite (edit_new x T K) in Hb2 by done. change (chain_snoc tk Leaf) with tk in Hb2.
  eapply (content_tag_lead doc p2 st2 w4 ($"/")); [exact Hp2|done..|]. intros p3 Hp3.
  apply leads_pass. eapply runs_mono.
  { apply (next_etag_runs p3 st2 [] name w2 rest eELEMENT (name :: stack) c None last2 true);
      [exact Hp3|done|constructor|done..]. }
  intros [[[[rc p4] st4] node] bE] (-> & -> & -> & -> & Hp4). split; [done|]. split; [done|].
  pose proof (elem_data_kept _ _ _ _ (Hk2 c) (elem_open_data _ _ _ _ _ _ _ _ _ _ Ho)) as Hed.
  pose proof Hed as (n & Hcn & _ & Hnm).
  eapply runs_mono;
    [eapply (etag_build _ p4 st2 T ts x K c a); [exact Hp4|exact Hn|apply Hb2|done..]|].
  intros [[rc p5] st5] (-> & -> & Hp5). split; [done|]. split.
  - rewrite (mu_tag _ _ _ _ _ _ _ _ Hp3), (mu_content _ _ _ _ _ _ _ Hp5) by done.
    cbn. rewrite !length_app. cbn. lia.
  - eapply HQ; [exact Hp5|]. exists c, a, tk. split; [apply Hb2|]. split; [done|].
    split; [by eapply attrs_data_kept|]. split; [done|].
    intros l. eapply kept_trans; [by apply Hk1|by apply Hk2].
Qed.

Lemma empty_lead doc p st w name attrs sa w1 rest x T ts K ty stack s last top
    (Q : Parser -> nodes -> Prop) :
  parser_is p (w ++ [ $"<"] ++ encode name ++ sa ++ w1 ++ COMPLETETAG ++ rest) s stack x None last top ->
  s <> eCONTENT -> building st doc T ts x K ty -> allow_types ty eELEMENT_NODE = true ->
  top = false \/ stack <> [] -> white w -> elem_name name -> spells_attrs attrs sa ->
  NoDup attrs.*1 -> white w1 ->
  (forall p' st' last', parser_is p' rest eCONTENT stack x None last' true ->
     elem_done st T ts x name attrs FNil st' -> leads doc p' st' Q) ->
  leads doc p st Q.
Proof.
  intros Hp Hs Hb Hal Htop Hw Hn Ha Hnd Hw1 HQ.
  eapply (start_lead doc p st w name attrs sa w1 COMPLETETAG); [exact Hp|done..|by right|].
  intros p1 st1 c a w3 s' [Hw3 _] Hp1 Hs' Ho Hk1. unfold after_name_text in Hp1.
  change (bool_decide (COMPLETETAG = [ $">"])) with false in Hp1. cbv iota in Hp1.
  change (encode COMPLETETAG) with COMPLETETAG in Hp1.
  assert (s' <> eCONTENT) as Hs1 by (intros E; apply Hs' in E; done).
  pose proof Ho as [Hd Hx Hfr _ Hat _].
  apply leads_pass. eapply runs_mono; [by eapply next_empty_runs|].
  intros [[[[rc p4] st4] node] bE] (-> & -> & -> & -> & Hp4). split; [done|]. split; [done|].
  pose proof (elem_open_data _ _ _ _ _ _ _ _ _ _ Ho) as (n & Hcn & Hty & Hnm).
  eapply runs_mono;
    [eapply (etag_build _ p4 st1 T ts x K c a Leaf); [exact Hp4|exact Hn|done..]|].
  intros [[rc p5] st5] (-> & -> & Hp5). split; [done|]. split.
  - rewrite (mu_tag _ _ _ _ _ _ _ _ Hp1), (mu_content _ _ _ _ _ _ _ Hp5) by done.
    rewrite !length_app. cbn. lia.
  - eapply HQ; [exact Hp5|]. exists c, a, Leaf. split; [done|]. split; [by exists n|]. done.
Qed.

(** ** The parser reads what the text spells *)

Lemma forest_done_first doc st T ts x K C f g' st1 st2 tf :
  kids_of x T = Some K ->
  building st2 doc (edit x (chain_snoc tf) (edit x (chain_snoc C) T)) ts x
    (chain_snoc tf (chain_snoc C K)) eELEMENT_NODE ->
  same_data st2 (chain_snoc tf C) g' -> (forall l, kept st st1 l) -> (forall l, kept st1 st2 l) ->
  f = g' -> forest_done doc st T ts x K f st2.
Proof.
  intros Hx Hb Hs Hk1 Hk2 ->. exists (chain_snoc tf C). split.
  - rewrite edit_edit in Hb.
    rewrite (edit_ext x _ (chain_snoc (chain_snoc tf C)) T K Hx (snoc_snoc tf C K)) in Hb.
    by rewrite snoc_snoc in Hb.
  - split; [done|]. intros l. eapply kept_trans; [by apply Hk1|by apply Hk2].
Qed.

(** The element [C] of [elem_done]. *)
Definition elem_is (st : nodes) T ts x name attrs kids C st' : Prop :=
  exists c a tk, C = Node c a tk Leaf /\ dom_inv st' (edit x (chain_snoc C) T :: ts) /\
    elem_data st' c name /\ Forall2 (attr_data st') a attrs /\ same_data st' tk kids /\
    forall l, kept st st' l.
Lemma elem_done_is st T ts x name attrs kids st' :
  elem_done st T ts x name attrs kids st' ->
  exists C, elem_is st T ts x name attrs kids C st'.
Proof. intros (c & a & tk & H). exists (Node c a tk Leaf), c, a, tk. done. Qed.

Lemma elem_then_rest doc st T ts x K name attrs kids rest C st1 st2 :
  kids_of x T = Some K -> elem_is st T ts x name attrs kids C st1 ->
  forest_done doc st1 (edit x (chain_snoc C) T) ts x (chain_snoc C K) rest st2 ->
  forest_done doc st T ts x K (FElem name attrs kids rest) st2.
Proof.
  intros Hx (c & a & tk & -> & Hd & He & Ha & Hks & Hk) (tf & Hb2 & Hs2 & Hk2).
  eapply (forest_done_first doc st T ts x K (Node c a tk Leaf) _ _ st1 st2 tf); try done.
  cbn [chain_snoc same_data]. split; [by eapply elem_data_kept|].
  split; [by eapply attrs_data_kept|]. split; [|done].
  eapply same_data_kept; [|done]. intros; apply Hk2.
Qed.
Lemma leaf_then_rest doc st T ts x K t v f rest c st1 st2 :
  kids_of x T = Some K -> leaf_data st1 c t v -> (forall l, kept st st1 l) ->
  (t, f) = (eTEXT_NODE, FText v rest) \/ (t, f) = (eCDATA_SECTION_NODE, FCData v rest) ->
  forest_done doc st1 (edit x (chain_snoc (Node c [] Leaf Leaf)) T) ts x
    (chain_snoc (Node c [] Leaf Leaf) K) rest st2 ->
  forest_done doc st T ts x K f st2.
Proof.
  intros Hx Hl Hk Hf (tf & Hb2 & Hs2 & Hk2).
  eapply (forest_done_first doc st T ts x K (Node c [] Leaf Leaf) _ _ st1 st2 tf); try done.
  assert (leaf_data st2 c t v) by (by eapply leaf_data_kept).
  by destruct Hf as [[= -> ->]|[= -> ->]].
Qed.

Lemma good_markup w d r : good_text (w ++ d :: r) -> byte d.
Proof. intros [H _]. apply Forall_app in H as [_ H]. by apply Forall_inv in H. Qed.

(** The first byte of a name is no mark. *)
Lemma name_head name r : elem_name name ->
  exists d s, encode name ++ r = d :: s /\ d <> $"!" /\ d <> $"?".
Proof.
  intros [[Hn _] _]. destruct name as [|c name]; [done|].
  destruct (enc_head _ _ Hn) as (h & e & Eh & _ & _ & Hh). rewrite encode_cons, Eh.
  eexists h, _. split; [reflexivity|]. split; intros ->; apply Hh; delimiter.
Qed.

Lemma spells_parses f s : spells f s -> parses f s.
Proof.
  induction 1 as [w Hw|w name attrs kids rest sa w1 sk w2 sr Hw Hn Hnd Ha Hw1 _ IHk Hw2 _ IHr|
    w name attrs rest sa w1 sr Hw Hn Hnd Ha Hw1 _ IHr|
    v raw rest sr Hv Hlt Hcd Hwr _ IHr Hm|w v rest sr Hw Hne Hv Hcd _ IHr];
    intros doc p st T ts x K stack last tail Q Hp Hst Hb HQ; rewrite <- ?app_assoc in Hp.
  - eapply HQ; [done|exact Hp|]. exists Leaf. pose proof (bu_kids _ _ _ _ _ _ _ Hb) as Hx.
    rewrite (edit_snoc_Leaf _ _ _ Hx), chain_snoc_Leaf. split; [done|]. split; [done|]. intros; apply kept_refl.
  - destruct (name_head name (sa ++ w1 ++ [ $">"] ++ sk ++ ENDTAG ++ encode name ++ w2 ++ [ $">"] ++
      sr ++ ENDTAG ++ tail) Hn) as (d & r & Ed & Hd1 & Hd2).
    change ([ $"<"] ++ ?s) with ($"<" :: s) in Hp. rewrite Ed in Hp.
    eapply content_tag_lead; [exact Hp|done..|]. rewrite <- Ed. intros p1 Hp1.
    eapply (elem_lead doc p1 st [] name attrs kids sa w1 sk w2 (sr ++ ENDTAG ++ tail));
      [exact IHk|exact Hp1|done|exact Hb|done|by right|constructor|done..|].
    intros p2 st2 last2 Hp2 (C & He)%elem_done_is. pose proof He as (_ & _ & _ & _ & Hd & _ & _ & _ & Hk).
    eapply (IHr doc p2 st2); [exact Hp2|done|by eapply building_append|].
    intros p3 st3 w3 last3 Hw3 Hp3 Hf. eapply HQ; [exact Hw3|exact Hp3|].
    eapply elem_then_rest; [apply Hb|done|done].
  - destruct (name_head name (sa ++ w1 ++ COMPLETETAG ++ sr ++ ENDTAG ++ tail) Hn)
      as (d & r & Ed & Hd1 & Hd2).
    change ([ $"<"] ++ ?s) with ($"<" :: s) in Hp. rewrite Ed in Hp.
    eapply content_tag_lead; [exact Hp|done..|]. rewrite <- Ed. intros p1 Hp1.
    eapply (empty_lead doc p1 st [] name attrs sa w1 (sr ++ ENDTAG ++ tail));
      [exact Hp1|done|exact Hb|done|by right|constructor|done..|].
    intros p2 st2 last2 Hp2 (C & He)%elem_done_is. pose proof He as (_ & _ & _ & _ & Hd & _ & _ & _ & Hk).
    eapply (IHr doc p2 st2); [exact Hp2|done|by eapply building_append|].
    intros p3 st3 w3 last3 Hw3 Hp3 Hf. eapply HQ; [exact Hw3|exact Hp3|].
    eapply elem_then_rest; [apply Hb|done|done].
  - assert (exists r, sr ++ ENDTAG ++ tail = $"<" :: r) as [r Er].
    { destruct sr as [|c sr]; [by eexists|]. cbn in Hm. subst c. by eexists. }
    rewrite Er in Hp.
    eapply (content_data_lead doc p st v eTEXT_NODE TEXTNODENAME _ ($"<" :: r));
      [exact Hp| |exact Hb|apply encode_nonnul, Hv|by left|by apply (content_text_runs p v raw)|].
    { assert (raw <> []) by (intros ->; apply Hwr; constructor). rewrite length_app.
      destruct raw; [done|]. cbn. lia. }
    intros p1 st1 c Hp1 Hc Hb1 Hl Hk. rewrite <- Er in Hp1.
    eapply (IHr doc p1 st1); [exact Hp1|done|exact Hb1|].
    intros p3 st3 w3 last3 Hw3 Hp3 Hf. eapply HQ; [exact Hw3|exact Hp3|].
    eapply leaf_then_rest; [apply Hb|done|done|by left|done].
  - eapply (content_data_lead doc p st v eCDATA_SECTION_NODE CDATANODENAME _ (sr ++ ENDTAG ++ tail));
      [exact Hp| |exact Hb| |by right|by apply (content_cdata_runs p w v)|].
    { rewrite !length_app. cbn. lia. }
    { apply encode_nonnul. eapply Forall_impl; [exact Hv|]. by intros c [? _]. }
    intros p1 st1 c Hp1 Hc Hb1 Hl Hk.
    eapply (IHr doc p1 st1); [exact Hp1|done|exact Hb1|].
    intros p3 st3 w3 last3 Hw3 Hp3 Hf. eapply HQ; [exact Hw3|exact Hp3|].
    eapply leaf_then_rest; [apply Hb|done|done|by right|done].
Qed.

(** ** The whole document *)

(** The text of an element, without blanks in front. *)
Lemma spells_solid name attrs kids rest s : spells (FElem name attrs kids rest) s ->
  exists w d r, white w /\ s = w ++ $"<" :: d :: r /\ d <> $"!" /\ d <> $"?" /\
    spells (FElem name attrs kids rest) ($"<" :: d :: r).
Proof.
  inversion 1 as [|w nm at' k rs sa w1 sk w2 sr Hw Hn Hnd Ha Hw1 Hk Hw2 Hr|
    w nm ats rs sa w1 sr Hw Hn Hnd Ha Hw1 Hr| |]; subst.
  - destruct (name_head name (sa ++ w1 ++ [ $">"] ++ sk ++ ENDTAG ++ encode name ++ w2 ++ [ $">"] ++
      sr) Hn) as (d & r & Ed & Hd1 & Hd2).
    exists w, d, r. rewrite <- Ed. do 4 (split; [done|]).
    by apply (sp_elem [] name attrs kids rest sa w1 sk w2 sr); [constructor|..].
  - destruct (name_head name (sa ++ w1 ++ COMPLETETAG ++ sr) Hn) as (d & r & Ed & Hd1 & Hd2).
    exists w, d, r. rewrite <- Ed. do 4 (split; [done|]).
    by apply (sp_empty [] name attrs rest sa w1 sr); [constructor|..].
Qed.

(** Comparing with a key the text does not start with. *)
Lemma starts_with_first c s key : byte c -> Forall byte s -> key_chars key -> head key <> Some c ->
  key <> [] -> starts_with (c :: s) key = false.
Proof.
  intros Hc Hs Hk Hh Hne. destruct (starts_with (c :: s) key) eqn:E; [|done].
  apply starts_with_key in E as [r E]; [|done|by constructor]. destruct key; [done|].
  by injection E as ->.
Qed.

Lemma misc_runs d r n : Forall byte ($"<" :: d :: r) -> d <> $"!" -> d <> $"?" -> (0 < n)%nat ->
  skip_misc n ($"<" :: d :: r) = Some (IXML_SUCCESS, $"<" :: d :: r).
Proof.
  intros Hb H1 H2 Hn. rewrite skip_misc_plain; [|by split|by apply Forall_take|done]. done.
Qed.

(** [Parser_skipProlog] leaves the root element. *)
Lemma skip_bom_runs p bom s : px_curPtr p = bom ++ s -> bom = [] \/ bom = UTF8_BOM ->
  Forall byte (bom ++ s) -> (forall c, head s = Some c -> 0 <= c) ->
  px_curPtr (Parser_skipBom p) = s /\ exists q, Parser_skipBom p = set_curPtr q p.
Proof.
  intros Hp Hbom Hb Hs. unfold Parser_skipBom. rewrite Hp.
  assert (key_chars UTF8_BOM) as Hk.
  { unfold UTF8_BOM, key_chars, byte. repeat (constructor; [split; lia|]). constructor. }
  destruct (starts_with (bom ++ s) UTF8_BOM) eqn:E.
  - split; [|by eexists]. apply starts_with_key in E as [r E]; [|done..]. cbn [px_curPtr set_curPtr].
    destruct Hbom as [->| ->]; [|by rewrite zdrop_app_exact].
    cbn in E. specialize (Hs (-17)). rewrite E in Hs. cbn in Hs. specialize (Hs eq_refl). lia.
  - split; [|by exists (px_curPtr p); destruct p]. destruct Hbom as [->| ->]; [done|].
    exfalso. assert (starts_with (UTF8_BOM ++ s) UTF8_BOM = true) as E2; [|congruence].
    apply starts_with_key; [done..|]. by exists s.
Qed.

Lemma skip_decl_runs p decl w d r :
  px_curPtr p = decl ++ w ++ $"<" :: d :: r -> is_decl decl -> white w ->
  Forall byte (decl ++ w ++ $"<" :: d :: r) -> d <> $"?" ->
  exists q, (let p := Parser_skipWhiteSpaces p in
    if starts_with (px_curPtr p) XMLDECL then Parser_skipXMLDecl p else (IXML_SUCCESS, p))
    = (IXML_SUCCESS, set_curPtr q p) /\ q = $"<" :: d :: r.
Proof.
  intros Hp Hdecl Hw Hb Hd. exists ($"<" :: d :: r). split; [|done].
  assert (solid ($"<" :: d :: r)) as Hs by (cbn; rewrite !elem_of_cons, elem_of_nil; lia).
  destruct Hdecl as [->|(x & -> & Hx)]; cbn zeta.
  - unfold Parser_skipWhiteSpaces. cbn [px_curPtr set_curPtr]. rewrite Hp. cbn [app].
    rewrite skip_white_app by done. cbn [app] in Hb. apply Forall_app in Hb as [_ Hb].
    rewrite (starts_with_head _ _ ($"<") d r); [by destruct p|by repeat constructor|done|done| |cbn; lia].
    by intros [= <-].
  - assert (Parser_skipWhiteSpaces p = p) as ->.
    { unfold Parser_skipWhiteSpaces. rewrite Hp.
      assert (skip_white ((XMLDECL ++ x ++ END_PI) ++ w ++ $"<" :: d :: r) =
        (XMLDECL ++ x ++ END_PI) ++ w ++ $"<" :: d :: r) as -> by done.
      rewrite <- Hp. by destruct p. }
    rewrite Hp, <- app_assoc in *. rewrite (starts_with_true _ XMLDECL _) by
      first [by repeat constructor|exact Hb|reflexivity].
    unfold Parser_skipXMLDecl. rewrite Hp. rewrite <- !app_assoc.
    rewrite (app_assoc XMLDECL). rewrite <- !app_assoc in Hb. rewrite (app_assoc XMLDECL) in Hb.
    rewrite skipString_runs by (done || by apply end_pi_decl).
    unfold Parser_skipWhiteSpaces. cbn [px_curPtr set_curPtr]. rewrite skip_white_app by done.
    by destruct p.
Qed.

Lemma skipProlog_runs p bom decl w d r :
  px_curPtr p = bom ++ decl ++ w ++ $"<" :: d :: r -> bom = [] \/ bom = UTF8_BOM ->
  is_decl decl -> white w -> Forall byte (bom ++ decl ++ w ++ $"<" :: d :: r) ->
  d <> $"!" -> d <> $"?" ->
  Parser_skipProlog p = Some (IXML_SUCCESS, set_curPtr ($"<" :: d :: r) p).
Proof.
  intros Hp Hbom Hdecl Hw Hb H1 H2. unfold Parser_skipProlog.
  destruct (skip_bom_runs p bom (decl ++ w ++ $"<" :: d :: r)) as (Hp1 & q & Eq); [done..| |].
  { intros c Hc. destruct Hdecl as [->|(x & -> & _)]; [|by injection Hc as <-].
    destruct Hw as [|k w Hk _]; injection Hc as <-; [done|].
    rewrite !elem_of_cons, elem_of_nil in Hk. lia. }
  rewrite Eq in *. apply Forall_app in Hb as [_ Hb].
  destruct (skip_decl_runs (set_curPtr q p) decl w d r) as (q' & Hd & ->); [done..|].
  cbn zeta in Hd. rewrite Hd. cbn [negb Z.eqb IXML_SUCCESS].
  apply Forall_app in Hb as [_ Hb]. apply Forall_app in Hb as [_ Hb].
  unfold Parser_skipMisc. cbn [px_curPtr set_curPtr].
  rewrite misc_runs by (done || lia). cbn [mbind option_bind px_curPtr set_curPtr Z.eqb IXML_SUCCESS andb].
  rewrite (starts_with_head _ _ ($"<") d r); [|by repeat constructor|done|done|by intros [= <-]|cbn; lia].
  cbn [mbind option_bind px_curPtr set_curPtr Z.eqb IXML_SUCCESS andb].
  rewrite misc_runs by (done || lia). by destruct p.
Qed.

(** The end of the text. *)
Lemma end_runs doc p st fuel s stack x need last top :
  parser_is p [] s stack x need last top -> (0 < fuel)%nat ->
  runs Lucky (parse_nodes junk g fuel doc p st) (fun '(rc, p', st') =>
    rc = IXML_SUCCESS /\ p' = p /\ st' = st).
Proof.
  intros Hp Hf. destruct fuel as [|fuel]; [lia|]. cbn [parse_nodes]. unfold parse_pass, Parser_getNextNode.
  rewrite (pi_text _ _ _ _ _ _ _ _ Hp). mstep. mstep. mstep.
  change (IXML_FILE_DONE =? IXML_SUCCESS) with false. cbv iota. mstep. mstep. mstep. by mstep.
Qed.

(** The root element is read, and the blanks behind it. *)
Lemma root_lead doc p st name attrs kids s ts T K (Q : Parser -> nodes -> Prop) :
  spells (FElem name attrs kids FNil) s ->
  parser_is p s eELEMENT [] doc None [] false ->
  building st doc T ts doc K eDOCUMENT_NODE ->
  (forall p' st' last', parser_is p' [] eCONTENT [] doc None last' true ->
     elem_done st T ts doc name attrs kids st' -> Q p' st') ->
  leads doc p st Q.
Proof.
  intros Hs Hp Hb HQ.
  assert (forall p' st' last' sr, spells FNil sr -> parser_is p' sr eCONTENT [] doc None last' true ->
    elem_done st T ts doc name attrs kids st' -> leads doc p' st' Q) as Hend.
  { intros p' st' last' sr Hsr Hp' He. inversion Hsr as [w Hw| | | |]; subst w.
    destruct sr as [|c sr]; [apply leads_now; by eapply HQ|]. apply leads_pass.
    unfold Parser_getNextNode. rewrite (pi_state _ _ _ _ _ _ _ _ Hp'), (pi_text _ _ _ _ _ _ _ _ Hp').
    mstep. eapply runs_mono; [by eapply content_end_of_text|].
    intros [[rc p2] node] (-> & -> & Hp2). mstep. split; [done|]. split; [done|].
    apply (runs_ret Lucky (IXML_SUCCESS, p2, st')). split; [done|].
    split; [|apply leads_now; by eapply HQ].
    rewrite (mu_content _ _ _ _ _ _ _ Hp'), (mu_content _ _ _ _ _ _ _ Hp2). cbn. lia. }
  inversion Hs as [|w nm ats k rs sa w1 sk w2 sr Hw Hn Hnd Ha Hw1 Hk Hw2 Hr|
    w nm ats rs sa w1 sr Hw Hn Hnd Ha Hw1 Hr| |]; subst.
  - eapply (elem_lead doc p st w name attrs kids sa w1 sk w2 sr);
      [by apply spells_parses|exact Hp|done|exact Hb|done|by left|done..|].
    intros p' st' last' Hp' He. by eapply Hend.
  - eapply (empty_lead doc p st w name attrs sa w1 sr);
      [exact Hp|done|exact Hb|done|by left|done..|].
    intros p' st' last' Hp' He. by eapply Hend.
Qed.

Lemma new_document_building st doc ts :
  dom_inv st ts -> st !! doc = None ->
  building (<[doc := Some (new_document doc)]> st) doc (Node doc [] Leaf Leaf) ts doc Leaf
    eDOCUMENT_NODE.
Proof.
  intros Hd Hc. pose proof (dom_inv_fresh _ _ _ Hd Hc) as Hfr. split.
  - apply dom_inv_cons. split; [|split; [by apply NoDup_singleton|split]].
    + eapply single_root; [apply lookup_insert_eq|].
      split; [split; [repeat (apply Forall_cons; split; [discriminate|]); constructor|done]|done].
    + apply (dom_inv_frame st); [done|]. intros l Hl. rewrite lookup_insert_ne; [done|]. by intros ->.
    + by intros l ->%list_elem_of_singleton.
  - cbn. by rewrite decide_True.
  - eexists. by rewrite lookup_insert_eq.
Qed.

Lemma parseDocument_runs p st ts name attrs kids s :
  let f := FElem name attrs kids FNil in
  dom_inv st ts -> spells_document f s -> good_text s -> px_curPtr p = s ->
  px_state p = eELEMENT -> px_pCurElement p = [] -> px_pNeedPrefixNode p = None ->
  buf_holds (px_lastElem p) [] -> px_bHasTopLevel p = false ->
  runs Lucky (Parser_parseDocument junk g p st) (fun '(rc, d, st') =>
    rc = IXML_SUCCESS /\ exists doc t, d = Some doc /\ st !! doc = None /\
      dom_inv st' (Node doc [] t Leaf :: ts) /\ same_data st' t f /\ forall l, kept st st' l).
Proof.
  intros f Hd (bom & decl & s' & Hbom & Hdecl & Hs & ->) Hg Hp P1 P2 P3 P4 P5.
  destruct (spells_solid _ _ _ _ _ Hs) as (w & d & r & Hw & -> & H1 & H2 & Hs').
  unfold Parser_parseDocument. mstep. apply createDocument_lucky. intros doc Hdoc.
  cbn [negb Z.eqb IXML_SUCCESS]. mstep.
  eapply runs_liftO; [apply (skipProlog_runs _ bom decl w d r); try done; apply Hg|].
  cbn [negb Z.eqb IXML_SUCCESS]. set (p0 := set_curPtr _ _).
  assert (parser_is p0 ($"<" :: d :: r) eELEMENT [] doc None [] false) as Hp0.
  { split; try done. by do 3 apply good_tail in Hg. }
  pose proof (new_document_building st doc ts Hd Hdoc) as Hb. mstep.
  eapply (runs_mono _ _ (fun '(rc, p', st') => rc = IXML_SUCCESS /\ px_pCurElement p' = [] /\
    elem_done (<[doc := Some (new_document doc)]> st) (Node doc [] Leaf Leaf) ts doc name attrs kids st')).
  - apply (root_lead doc p0 _ name attrs kids _ ts (Node doc [] Leaf Leaf) Leaf
      (fun p' st' => (exists last', parser_is p' [] eCONTENT [] doc None last' true) /\
         elem_done (<[doc := Some (new_document doc)]> st) (Node doc [] Leaf Leaf) ts doc name attrs
           kids st') Hs' Hp0 Hb).
    + intros p' st' last' Hp' He. split; [by exists last'|done].
    + rewrite (mu_tag _ _ _ _ _ _ _ _ Hp0) by done. unfold parse_fuel.
      rewrite (pi_text _ _ _ _ _ _ _ _ Hp0). lia.
    + intros p' st' fuel' [[last' Hp'] He] Hf. eapply runs_mono; [eapply end_runs; [exact Hp'|lia]|].
      intros [[rc p2] st2] (-> & -> & ->). split; [done|]. split; [|done].
      by rewrite (pi_stack _ _ _ _ _ _ _ _ Hp').
  - intros [[rc p'] st'] (-> & Hst & (c & a & tk & Hd' & He & Ha & Hk & Hkept)).
    cbn [negb Z.eqb IXML_SUCCESS]. rewrite bool_decide_false by (intros H; by apply H).
    mstep. eapply runs_liftO; [unfold Parser_free; by rewrite Hst|]. mstep. split; [done|].
    exists doc, (Node c a tk Leaf). split; [done|]. split; [done|].
    cbn [edit] in Hd'. rewrite decide_True in Hd' by done. split; [done|]. split; [done|].
    intros l. eapply kept_trans; [by apply (kept_insert _ doc (Some (new_document doc)))|apply Hkept].
Qed.

Lemma parseBuffer_runs st ts name attrs kids s :
  let f := FElem name attrs kids FNil in
  dom_inv st ts -> spells_document f s -> good_text s ->
  runs Lucky (ixmlParseBufferEx junk g st (DStr s)) (fun '(rc, d, st') =>
    rc = IXML_SUCCESS /\ exists doc t, d = Some doc /\ st !! doc = None /\
      dom_inv st' (Node doc [] t Leaf :: ts) /\ same_data st' t f /\ forall l, kept st st' l).
Proof.
  intros f Hd Hs Hg. unfold ixmlParseBufferEx. rewrite is_null_str. mstep.
  eapply runs_liftO; [done|]. rewrite c_str_id by apply Hg.
  assert (s <> []) as Hne.
  { destruct Hs as (bom & decl & s' & _ & _ & Hs & ->).
    destruct (spells_solid _ _ _ _ _ Hs) as (w & d & r & _ & -> & _).
    intros E. apply app_eq_nil in E as [_ E]. apply app_eq_nil in E as [_ E].
    by apply app_eq_nil in E as [_ E]. }
  destruct s as [|c s]; [done|]. unfold Parser_LoadDocument, Parser_init. mstep. mstep.
  mstep; [|done]. mstep. mstep. unfold Parser_readFileOrBuffer, safe_strdup. mstep. mstep.
  apply runs_assert_true; [done|]. apply strdup_of_lucky; [apply Hg|]. mstep.
  cbn [negb Z.eqb IXML_SUCCESS]. mstep. eapply runs_liftO; [reflexivity|].
  by apply (parseDocument_runs _ st ts name attrs kids (c :: s)); [..|apply init_holds|].
Qed.
End Parse.
