(* ===== verification/XmlRound.v ===== *)
(** Printing a document and parsing it again.

    [render] is the text the printer writes for a forest.  The printer writes no
    sibling behind a character data node, so a forest survives the round trip
    when such nodes come last among their siblings; [printable] has this and the
    other conditions. *)

From S2P Require Import Prelude CString MemBuffer FreeList XmlChars IxmlNode IxmlTree IxmlDom IxmlDocument IxmlBuild XmlParser XmlPrint XmlText XmlDocs XmlParse.

(** ** The text of a forest *)

Fixpoint render_attrs (attrs : list (list Z * list Z)) : text :=
  match attrs with
  | [] => []
  | (nm, v) :: attrs' =>
      encode nm ++ [ $"="; DQUOTE] ++ escape v ++ [DQUOTE] ++
      match attrs' with [] => [] | _ => [ $" "] ++ render_attrs attrs' end
  end.

Definition starts_elem (f : forest) : bool := match f with FElem _ _ _ _ => true | _ => false end.
Definition starts_text (f : forest) : bool := match f with FText _ _ => true | _ => false end.

Fixpoint render (f : forest) : text :=
  match f with
  | FNil => []
  | FElem name attrs kids rest =>
      [ $"<"] ++ encode name ++
      match attrs with [] => [] | _ => [ $" "] ++ render_attrs attrs end ++
      ([ $">"] ++ if starts_elem kids then CRLF else []) ++ render kids ++
      ENDTAG ++ encode name ++ ([ $">"] ++ if starts_text rest then [] else CRLF) ++ render rest
  | FText v _ => escape v
  | FCData v _ => CDSTART ++ encode v ++ CDEND
  end.

(** ** What the printer needs *)

Definition value_ok (v : list Z) : Prop := Forall xml_char v.
Definition label_ok (v : list Z) : Prop := Forall xml_char v /\ v <> [].
Fixpoint chars_ok (f : forest) : Prop :=
  match f with
  | FNil => True
  | FElem name attrs kids rest =>
      label_ok name /\ Forall (fun a => label_ok a.1 /\ value_ok a.2) attrs /\
      chars_ok kids /\ chars_ok rest
  | FText v rest => value_ok v /\ chars_ok rest
  | FCData v rest => label_ok v /\ chars_ok rest
  end.

Section Print.
Context (junk : Z).
Implicit Types (st : nodes) (buf : membuffer).

Lemma put_runs d buf s :
  buf_holds buf s -> d <> [] -> cstring d -> zlen s + zlen d <= MB_MAX ->
  runs Lucky (put junk d buf) (fun buf' => buf_holds buf' (s ++ d)).
Proof.
  intros Hb Hne Hd Hm. unfold put. mstep. eapply runs_mono; [by apply append_str_holds|].
  intros [rc m] (_ & H). by mstep.
Qed.
Lemma put_str_runs d buf s :
  buf_holds buf s -> d <> [] -> cstring d -> zlen s + zlen d <= MB_MAX ->
  runs Lucky (put_str junk (DStr d) buf) (fun buf' => buf_holds buf' (s ++ d)).
Proof.
  intros Hb Hne Hd Hm. unfold put_str. mstep. eapply runs_liftO; [done|].
  rewrite c_str_id by done. by apply put_runs.
Qed.

Lemma put_escaped_runs p : forall buf s, cstring p ->
  buf_holds buf s -> zlen s + zlen (concat (escape_char <$> p)) <= MB_MAX ->
  runs Lucky (put_escaped junk p buf) (fun buf' => buf_holds buf' (s ++ concat (escape_char <$> p))).
Proof.
  induction p as [|c p IH]; intros buf s Hp Hb Hm; cbn [put_escaped fmap list_fmap concat].
  - mstep. by rewrite app_nil_r.
  - apply Forall_cons in Hp as [Hc Hp]. cbn [fmap list_fmap concat] in Hm. rewrite zlen_app in Hm.
    set (X := concat (escape_char <$> p)) in *. pose proof (zlen_nonneg X).
    assert (runs Lucky (if bool_decide (escape_char c = [c])
      then '(_, buf) ← ixml_membuf_append junk buf c; mret buf else put junk (escape_char c) buf)
      (fun buf' => buf_holds buf' (s ++ escape_char c))) as H1.
    { destruct (bool_decide_reflect (escape_char c = [c])) as [E|E].
      - rewrite E in *. change (zlen [c]) with 1 in Hm. mstep.
        eapply runs_mono; [apply append_char_holds; [done|done|lia]|]. intros [rc m] (_ & Hh). by mstep.
      - apply put_runs; [done| | |lia].
        + unfold escape_char. repeat case_match; done.
        + unfold escape_char. repeat case_match; repeat constructor; done. }
    mstep. eapply runs_mono; [exact H1|]. intros buf' Hb'.
    eapply runs_mono; [apply (IH buf' (s ++ escape_char c)); [done|done|rewrite zlen_app; fold X; lia]|].
    intros b. by rewrite <- app_assoc.
Qed.

(** Escaping works byte by byte. *)
Lemma escape_bytes v : value_ok v -> concat (escape_char <$> encode v) = escape v.
Proof.
  induction 1 as [|c v Hc _ IH]; [done|]. rewrite encode_cons, fmap_app, concat_app, IH.
  change (escape (c :: v)) with (esc c ++ escape v). f_equal. pose proof (xml_char_range _ Hc).
  destruct (decide (c <= 127)).
  - rewrite enc_ascii by lia. cbn. rewrite app_nil_r. unfold esc.
    destruct (bool_decide_reflect (escape_char c = [c])) as [E|E]; [by rewrite E, enc_ascii by lia|done].
  - destruct (enc_neg c) as (Hn & _); [lia|].
    assert (forall b, b < 0 \/ 127 < b -> escape_char b = [b]) as He.
    { intros b Hb. unfold escape_char, DQUOTE. repeat (rewrite (proj2 (Z.eqb_neq b _)) by lia). done. }
    unfold esc. rewrite bool_decide_true by (apply He; lia).
    induction Hn as [|b bs Hb _ IHb]; [done|]. cbn. rewrite He by lia. cbn. by rewrite IHb.
Qed.

Lemma copy_escape_runs v buf s :
  value_ok v -> buf_holds buf s -> zlen s + zlen (escape v) <= MB_MAX ->
  runs Lucky (copy_with_escape junk (DStr (encode v)) buf) (fun buf' => buf_holds buf' (s ++ escape v)).
Proof.
  intros Hv Hb Hm. unfold copy_with_escape. mstep. eapply runs_liftO; [done|].
  pose proof (encode_nonnul _ Hv). rewrite c_str_id by done. rewrite <- escape_bytes in * by done.
  by apply put_escaped_runs.
Qed.

Lemma label_cstring v : label_ok v -> cstring (encode v) /\ encode v <> [].
Proof. intros [Hv Hne]. split; [by apply encode_nonnul|by apply encode_nonempty]. Qed.

(** *** The printer *)

Lemma put_attr_runs n nm v buf s :
  n_nodeName n = DStr (encode nm) -> n_nodeValue n = DStr (encode v) -> label_ok nm -> value_ok v ->
  buf_holds buf s -> zlen s + zlen (encode nm ++ [ $"="; DQUOTE] ++ escape v ++ [DQUOTE]) <= MB_MAX ->
  runs Lucky (put_attr junk n buf) (fun buf' =>
    buf_holds buf' (s ++ encode nm ++ [ $"="; DQUOTE] ++ escape v ++ [DQUOTE])).
Proof.
  intros En Ev Hn Hv Hb Hm. destruct (label_cstring _ Hn) as [Hc Hne]. unfold put_attr.
  rewrite En, Ev. rewrite !zlen_app in Hm. change (zlen [ $"="; DQUOTE]) with 2 in Hm.
  change (zlen [DQUOTE]) with 1 in Hm.
  pose proof (zlen_nonneg (escape v)). pose proof (zlen_nonneg (encode nm)).
  mstep. eapply runs_mono; [apply (put_str_runs (encode nm) buf s); (done || lia)|]. intros b1 H1.
  mstep. eapply runs_mono; [apply (put_runs [ $"="; DQUOTE] b1 _ H1); [done|by repeat constructor|]|].
  { rewrite zlen_app. change (zlen [ $"="; DQUOTE]) with 2. lia. }
  intros b2 H2. mstep. eapply runs_mono; [apply (copy_escape_runs v b2 _ Hv H2)|].
  { rewrite !zlen_app. change (zlen [ $"="; DQUOTE]) with 2. lia. }
  intros b3 H3. eapply runs_mono; [apply (put_runs [DQUOTE] b3 _ H3); [done|by repeat constructor|]|].
  { rewrite !zlen_app. change (zlen [ $"="; DQUOTE]) with 2. change (zlen [DQUOTE]) with 1. lia. }
  intros b4. by rewrite <- !app_assoc.
Qed.

Lemma print_attrs st attrs : forall fuel a p buf s,
  attrs_at st p a -> Forall2 (attr_data st) a attrs -> attrs <> [] -> (length a < fuel)%nat ->
  Forall (fun x => label_ok x.1 /\ value_ok x.2) attrs ->
  buf_holds buf s -> zlen s + zlen (render_attrs attrs) <= MB_MAX ->
  runs Lucky (print_tree junk fuel st p buf) (fun buf' => buf_holds buf' (s ++ render_attrs attrs)).
Proof.
  induction attrs as [|[nm v] attrs IH]; [done|]. intros [|fuel] a p buf s Ha Hd _ Hf Hok Hb Hm;
    [lia|]. destruct a as [|l a]; [by inversion Hd|]. apply Forall2_cons in Hd as [Hl Hd].
  destruct Ha as (-> & n & Hn & _ & Ha). destruct Hl as (n' & Hn' & Et & Enm & Ev).
  assert (n' = n) as -> by congruence. apply Forall_cons in Hok as [[H1 H2] Hok].
  cbn [print_tree]. rd_step. rewrite Et. cbn [render_attrs fst snd] in *.
  rewrite (app_assoc _ [DQUOTE]), (app_assoc _ (escape v ++ [DQUOTE])),
    (app_assoc (encode nm)) in Hm |- *.
  set (A := encode nm ++ [ $"="; DQUOTE] ++ escape v ++ [DQUOTE]) in *.
  assert (0 <= zlen (match attrs with [] => [] | _ => [ $" "] ++ render_attrs attrs end)) as H0
    by apply zlen_nonneg.
  mstep. eapply runs_mono; [apply (put_attr_runs n nm v buf s); try done|].
  { fold A. rewrite zlen_app in Hm. lia. }
  fold A. intros b1 Hb1. destruct attrs as [|x attrs].
  - inversion Hd; subst. cbn in Ha. rewrite Ha. mstep. by rewrite app_nil_r.
  - destruct (n_nextSibling n) as [l2|] eqn:E2.
    2: { destruct a; [by inversion Hd|]. by destruct Ha. }
    rewrite <- E2 in *. rewrite !zlen_app in Hm. change (zlen [ $" "]) with 1 in Hm.
    pose proof (zlen_nonneg (render_attrs (x :: attrs))).
    mstep. eapply runs_mono; [apply (put_runs (lit " ") b1 _ Hb1); [done|by repeat constructor|]|].
    { rewrite zlen_app. change (zlen (lit " ")) with 1. lia. }
    intros b2 Hb2. eapply runs_mono; [apply (IH fuel a _ b2 ((s ++ A) ++ lit " ") Ha Hd); try done; [cbn in Hf; lia|]|].
    { rewrite !zlen_app. change (zlen (lit " ")) with 1. lia. }
    intros b3. change (lit " ") with [ $" "]. by rewrite <- !app_assoc.
Qed.

Lemma is_type_elem st par prev p t f :
  tree_at st par prev p t -> same_data st t f ->
  is_type st p eELEMENT_NODE = Some (starts_elem f) /\ is_type st p eTEXT_NODE = Some (starts_text f).
Proof.
  intros Ht Hd. destruct f as [|nm ats kids rest|v rest|v rest], t as [|l a ks nx]; try done.
  - cbn in Ht. by subst p.
  - destruct Ht as (-> & n & Hn & _). destruct Hd as ((n' & Hn' & Et & _) & _).
    assert (n' = n) as -> by congruence. unfold is_type. rewrite (rdn_at _ _ _ Hn). cbn. by rewrite Et.
  - destruct Ht as (-> & n & Hn & _). destruct a, ks; try done. destruct Hd as ((n' & Hn' & Et & _) & _).
    assert (n' = n) as -> by congruence. unfold is_type. rewrite (rdn_at _ _ _ Hn). cbn. by rewrite Et.
  - destruct Ht as (-> & n & Hn & _). destruct a, ks; try done. destruct Hd as ((n' & Hn' & Et & _) & _).
    assert (n' = n) as -> by congruence. unfold is_type. rewrite (rdn_at _ _ _ Hn). cbn. by rewrite Et.
Qed.

(** The start tag of an element. *)
Lemma print_start st n name a attrs fuel buf s :
  n_nodeName n = DStr (encode name) -> attrs_at st (n_firstAttr n) a ->
  Forall2 (attr_data st) a attrs -> label_ok name ->
  Forall (fun x => label_ok x.1 /\ value_ok x.2) attrs -> (length a < fuel)%nat ->
  buf_holds buf s ->
  zlen s + zlen ([ $"<"] ++ encode name ++ match attrs with [] => [] | _ => [ $" "] ++ render_attrs attrs end)
    <= MB_MAX ->
  runs Lucky (buf ← put junk (lit "<") buf;
      buf ← put_str junk (n_nodeName n) buf;
      match n_firstAttr n with
      | Some _ => buf ← put junk (lit " ") buf; print_tree junk fuel st (n_firstAttr n) buf
      | None => mret buf
      end)
    (fun buf' => buf_holds buf' (s ++ [ $"<"] ++ encode name ++
       match attrs with [] => [] | _ => [ $" "] ++ render_attrs attrs end)).
Proof.
  intros En Ha Hd Hn Hok Hf Hb Hm. destruct (label_cstring _ Hn) as [Hc Hne].
  set (X := match attrs with [] => [] | _ => _ end) in *. rewrite !zlen_app in Hm.
  change (zlen [ $"<"]) with 1 in Hm. pose proof (zlen_nonneg X). pose proof (zlen_nonneg (encode name)).
  mstep. eapply runs_mono; [apply (put_runs (lit "<") buf s Hb); [done|by repeat constructor|]|].
  { change (zlen (lit "<")) with 1. lia. }
  intros b1 Hb1. change (lit "<") with [ $"<"] in Hb1. rewrite En. mstep.
  eapply runs_mono; [apply (put_str_runs (encode name) b1 _ Hb1); try done|].
  { rewrite zlen_app. change (zlen [ $"<"]) with 1. lia. }
  intros b2 Hb2. destruct attrs as [|x attrs].
  - inversion Hd; subst. cbn in Ha. rewrite Ha. mstep. unfold X. rewrite app_nil_r.
    by rewrite <- app_assoc in Hb2.
  - destruct (n_firstAttr n) as [l2|] eqn:E2.
    2: { destruct a; [by inversion Hd|]. by destruct Ha. }
    unfold X in *. rewrite zlen_app in Hm. change (zlen [ $" "]) with 1 in Hm.
    pose proof (zlen_nonneg (render_attrs (x :: attrs))).
    mstep. eapply runs_mono; [apply (put_runs (lit " ") b2 _ Hb2); [done|by repeat constructor|]|].
    { rewrite !zlen_app. change (zlen (lit " ")) with 1. change (zlen [ $"<"]) with 1. lia. }
    intros b3 Hb3. eapply runs_mono; [apply (print_attrs st (x :: attrs) fuel a _ b3 (((s ++ [ $"<"]) ++ encode name) ++ lit " ") Ha Hd); try done|].
    { rewrite !zlen_app. change (zlen (lit " ")) with 1. change (zlen [ $"<"]) with 1. lia. }
    intros b4. change (lit " ") with [ $" "]. by rewrite <- !app_assoc.
Qed.

Lemma runs_bind3 {A B C D} md (m : M A) (k1 : A -> M B) (k2 : B -> M C) (h : C -> M D) Q :
  runs md (a ← m; b ← k1 a; k2 b) (fun c => runs md (h c) Q) ->
  runs md (a ← m; b ← k1 a; c ← k2 b; h c) Q.
Proof.
  intros H o Ho. specialize (H o Ho). unfold mbind, M_bind in *.
  destruct (m o) as [a o1|[]| |]; [|done..]. destruct (k1 a o1) as [b o2|[]| |]; [|done..].
  destruct (k2 b o2) as [c o3|[]| |]; [|done..]. destruct H as [H Ho']. exact (H o3 Ho').
Qed.

Lemma print_forest st f : forall fuel t par prev p buf s,
  tree_at st par prev p t -> same_data st t f -> chars_ok f -> (length (locs t) < fuel)%nat ->
  buf_holds buf s -> zlen s + zlen (render f) <= MB_MAX ->
  runs Lucky (print_tree junk fuel st p buf) (fun buf' => buf_holds buf' (s ++ render f)).
Proof.
  induction f as [|name attrs kids IHk rest IHr|v rest _|v rest _];
    intros [|fuel] t par prev p buf s Ht Hd Hok Hf Hb Hm; try lia.
  - destruct t; [|done]. cbn in Ht. subst p. cbn. mstep. by rewrite app_nil_r.
  - destruct t as [|l a ks nx]; [done|]. destruct Ht as (-> & n & Hn & _ & _ & _ & Ha & Hks & Hnx).
    destruct Hd as ((n' & Hn' & Ety & Enm) & Hda & Hdk & Hdr).
    assert (n' = n) as -> by congruence. destruct Hok as (Hname & Hat & Hokk & Hokr).
    destruct (label_cstring _ Hname) as [Hc Hne].
    cbn [locs length] in Hf. rewrite !length_app in Hf. cbn [render] in *.
    set (X := match attrs with [] => [] | _ => _ end) in *.
    set (G := [ $">"] ++ if starts_elem kids then CRLF else []) in *.
    set (E := [ $">"] ++ if starts_text rest then [] else CRLF) in *.
    assert (cstring G /\ G <> [] /\ cstring E /\ E <> []) as (HG & HG' & HE & HE').
    { unfold G, E. destruct (starts_elem kids), (starts_text rest); split_and!; try done; by repeat constructor. }
    rewrite !zlen_app in Hm.
    pose proof (zlen_nonneg X). pose proof (zlen_nonneg (encode name)). pose proof (zlen_nonneg G).
    pose proof (zlen_nonneg E). pose proof (zlen_nonneg (render kids)).
    pose proof (zlen_nonneg (render rest)). change (zlen [ $"<"]) with 1 in Hm.
    change (zlen ENDTAG) with 2 in Hm.
    destruct (is_type_elem _ _ _ _ _ _ Hks Hdk) as [Hte _].
    destruct (is_type_elem _ _ _ _ _ _ Hnx Hdr) as [_ Htt].
    cbn [print_tree]. rd_step. rewrite Ety. apply runs_bind3.
    eapply runs_mono; [apply (print_start st n name a attrs fuel buf s); try done; [lia|]|].
    { fold X. rewrite !zlen_app. change (zlen [ $"<"]) with 1. lia. }
    fold X. intros b1 Hb1. mstep. eapply runs_liftO; [exact Hte|]. mstep.
    eapply runs_mono; [apply (put_runs G b1 _ Hb1); [done|done|]|].
    { rewrite !zlen_app. change (zlen [ $"<"]) with 1. lia. }
    intros b2 Hb2. mstep. eapply runs_mono; [eapply (IHk fuel ks);
      [exact Hks|exact Hdk|exact Hokk|lia|exact Hb2|]|].
    { rewrite !zlen_app. change (zlen [ $"<"]) with 1. lia. }
    intros b3 Hb3. mstep. eapply runs_mono; [apply (put_runs ENDTAG b3 _ Hb3); [done|by repeat constructor|]|].
    { rewrite !zlen_app. change (zlen [ $"<"]) with 1. change (zlen ENDTAG) with 2. lia. }
    intros b4 Hb4. rewrite Enm. mstep.
    eapply runs_mono; [apply (put_str_runs (encode name) b4 _ Hb4); try done|].
    { rewrite !zlen_app. change (zlen [ $"<"]) with 1. change (zlen ENDTAG) with 2. lia. }
    intros b5 Hb5. mstep. eapply runs_liftO; [exact Htt|]. mstep.
    eapply runs_mono; [apply (put_runs E b5 _ Hb5); [done|done|]|].
    { rewrite !zlen_app. change (zlen [ $"<"]) with 1. change (zlen ENDTAG) with 2. lia. }
    intros b6 Hb6. eapply runs_mono; [eapply (IHr fuel nx);
      [exact Hnx|exact Hdr|exact Hokr|lia|exact Hb6|]|].
    { rewrite !zlen_app. change (zlen [ $"<"]) with 1. change (zlen ENDTAG) with 2. lia. }
    intros b7. by rewrite <- !app_assoc.
  - destruct t as [|l a ks nx]; [done|]. destruct a, ks; try done.
    destruct Ht as (-> & n & Hn & _). destruct Hd as [(n' & Hn' & Ety & Ev) _].
    assert (n' = n) as -> by congruence. cbn [print_tree]. rd_step. rewrite Ety, Ev.
    apply copy_escape_runs; [apply Hok|done|done].
  - destruct t as [|l a ks nx]; [done|]. destruct a, ks; try done.
    destruct Ht as (-> & n & Hn & _). destruct Hd as [(n' & Hn' & Ety & Ev) _].
    assert (n' = n) as -> by congruence. cbn [print_tree]. rd_step. rewrite Ety, Ev.
    destruct (label_cstring v) as [Hc Hne]; [apply Hok|]. cbn [render] in *. rewrite !zlen_app in Hm.
    change (zlen CDSTART) with 9 in Hm. change (zlen CDEND) with 3 in Hm.
    pose proof (zlen_nonneg (encode v)).
    mstep. eapply runs_mono; [apply (put_runs CDSTART buf s Hb); [done|by repeat constructor|]|].
    { change (zlen CDSTART) with 9. lia. }
    intros b1 Hb1. mstep. eapply runs_mono; [apply (put_str_runs (encode v) b1 _ Hb1); try done|].
    { rewrite zlen_app. change (zlen CDSTART) with 9. lia. }
    intros b2 Hb2. eapply runs_mono; [apply (put_runs CDEND b2 _ Hb2); [done|by repeat constructor|]|].
    { rewrite !zlen_app. change (zlen CDSTART) with 9. change (zlen CDEND) with 3. lia. }
    intros b3. by rewrite <- !app_assoc.
Qed.

(** A document in the store. *)
Definition document_at st (d : loc) (t : tree) (ts : list tree) : Prop :=
  dom_inv st (Node d [] t Leaf :: ts) /\
  exists n, st !! d = Some (Some n) /\ n_nodeType n = eDOCUMENT_NODE.

Lemma print_document_runs st d t ts f (pr : nodes -> ptr -> membuffer -> M membuffer) :
  document_at st d t ts -> same_data st t f -> chars_ok f ->
  zlen XML_HEADER + zlen (render f) <= MB_MAX ->
  (forall n, st !! d = Some (Some n) -> n_nodeType n = eDOCUMENT_NODE -> forall buf Q,
     runs Lucky (ixmlPrintDomTreeRecursive junk st (Some d) buf) Q ->
     runs Lucky (pr st (Some d) buf) Q) ->
  runs Lucky (printed junk XML_HEADER (pr st (Some d)))
    (fun s => s = DStr (XML_HEADER ++ render f)).
Proof.
  intros [Hd (n & Hn & Ety)] Hs Hok Hm Hpr. unfold printed.
  change (match XML_HEADER with [] => mret ixml_membuf_init | _ => put junk XML_HEADER ixml_membuf_init end)
    with (put junk XML_HEADER ixml_membuf_init).
  pose proof (zlen_nonneg (render f)). assert (zlen XML_HEADER = 23) as EH by done.
  mstep. eapply runs_mono; [apply (put_runs XML_HEADER _ [] init_holds); [done|by repeat constructor|]|].
  { change (zlen (@nil Z)) with 0. lia. }
  intros b1 Hb1. mstep. apply (Hpr n); [done..|].
  unfold ixmlPrintDomTreeRecursive. cbn [print_tree]. rd_step. rewrite Ety.
  apply dom_inv_cons in Hd as (Hr & Hnd & _). pose proof Hr as Hr'.
  destruct Hr as (_ & n' & Hn' & _ & _ & _ & _ & Hk & _).
  assert (n' = n) as -> by congruence.
  eapply runs_mono; [eapply (print_forest st f _ t);
    [exact Hk|exact Hs|exact Hok| |exact Hb1|]|].
  { pose proof (tree_at_size st None None (Some d) (Node d [] t Leaf) Hr' Hnd) as Hsz.
    cbn in Hsz. rewrite app_nil_r in Hsz. lia. }
  { cbn [app]. lia. }
  intros b2 Hb2. cbn beta in Hb2. cbn [app] in Hb2.
  assert (XML_HEADER ++ render f <> []) as Hne by done.
  pose proof (bh_block _ _ Hb2) as Hbl. destruct (mb_buf b2) as [b|] eqn:Eb; [|done].
  mstep. eapply runs_liftO; [by eapply holds_str|]. by mstep.
Qed.
End Print.

(** ** What survives *)

(** Well-formed, with the character data last among their siblings. *)
Fixpoint printable (f : forest) : Prop :=
  match f with
  | FNil => True
  | FElem name attrs kids rest =>
      elem_name name /\ NoDup attrs.*1 /\ Forall (fun a => attr_name a.1 /\ value_ok a.2) attrs /\
      printable kids /\ printable rest
  | FText v rest => value_ok v /\ ~ white v /\ rest = FNil
  | FCData v rest =>
      v <> [] /\ Forall (fun c => xml_char c /\ c <= 127) v /\ ~ infix CDEND v /\ rest = FNil
  end.

Lemma name_label nm : name_ok nm -> label_ok nm.
Proof. intros [H Hn]. split; [by apply name_plain|by destruct nm]. Qed.

Lemma printable_chars f : printable f -> chars_ok f.
Proof.
  induction f as [|nm ats kids IHk rest IHr|v rest _|v rest _]; cbn; [done|..].
  - intros (Hn & _ & Ha & Hk & Hr). split; [apply name_label, Hn|]. split; [|by auto].
    eapply Forall_impl; [exact Ha|]. intros [n v] [Hnm Hv]. split; [apply name_label, Hnm|done].
  - by intros (Hv & _ & ->).
  - intros (Hne & Hv & _ & ->). split; [|done]. split; [|done].
    eapply Forall_impl; [exact Hv|]. by intros c [? _].
Qed.

(** Escaped text contains no markup. *)
Lemma esc_clean c k : xml_char c -> k ∈ [ $"<"; $">"; DQUOTE] -> k ∉ esc c.
Proof.
  intros Hc Hk Hin. pose proof (xml_char_range _ Hc). unfold esc, escape_char, DQUOTE in *.
  rewrite !elem_of_cons, elem_of_nil in Hk.
  assert (forall e : text, Forall (fun x => x <> 60 /\ x <> 62 /\ x <> 34) e -> k ∉ e) as Hlit.
  { intros e He Hke. rewrite Forall_forall in He. specialize (He k Hke). lia. }
  destruct (Z.eqb_spec c $"<"); [rewrite bool_decide_false in Hin by done; revert Hin; apply Hlit; unfold LT, GT, AMP, APOS, QUOT; repeat (constructor; [lia|]); constructor|].
  destruct (Z.eqb_spec c $">"); [rewrite bool_decide_false in Hin by done; revert Hin; apply Hlit; unfold LT, GT, AMP, APOS, QUOT; repeat (constructor; [lia|]); constructor|].
  destruct (Z.eqb_spec c $"&"); [rewrite bool_decide_false in Hin by done; revert Hin; apply Hlit; unfold LT, GT, AMP, APOS, QUOT; repeat (constructor; [lia|]); constructor|].
  destruct (Z.eqb_spec c $"'"); [rewrite bool_decide_false in Hin by done; revert Hin; apply Hlit; unfold LT, GT, AMP, APOS, QUOT; repeat (constructor; [lia|]); constructor|].
  destruct (Z.eqb_spec c 34); [rewrite bool_decide_false in Hin by done; revert Hin; apply Hlit; unfold LT, GT, AMP, APOS, QUOT; repeat (constructor; [lia|]); constructor|].
  rewrite bool_decide_true in Hin by done. destruct (decide (c <= 127)).
  - rewrite enc_ascii in Hin by lia. apply list_elem_of_singleton in Hin. lia.
  - destruct (enc_neg c) as (Hn & _); [lia|]. rewrite Forall_forall in Hn. specialize (Hn k Hin). lia.
Qed.
Lemma escape_clean v k : value_ok v -> k ∈ [ $"<"; $">"; DQUOTE] -> k ∉ escape v.
Proof.
  intros Hv Hk. induction Hv as [|c v Hc _ IH]; [apply not_elem_of_nil|].
  change (escape (c :: v)) with (esc c ++ escape v). rewrite not_elem_of_app.
  split; [by apply esc_clean|done].
Qed.
Lemma escape_white v : value_ok v -> white (escape v) -> white v.
Proof.
  induction 1 as [|c v Hc Hv IH]; [done|]. change (escape (c :: v)) with (esc c ++ escape v).
  intros H. apply Forall_app in H as [He Hr]. constructor; [|by apply IH].
  pose proof (xml_char_range _ Hc). unfold esc in He.
  destruct (bool_decide_reflect (escape_char c = [c])) as [E|E].
  - destruct (decide (c <= 127)).
    + rewrite enc_ascii in He by lia. by apply Forall_inv in He.
    + destruct (enc_neg c) as (Hn & Hne & _); [lia|]. destruct (enc c) as [|b bs]; [done|].
      apply Forall_inv in Hn, He. rewrite !elem_of_cons, elem_of_nil in He. lia.
  - exfalso. unfold escape_char in *. repeat case_match; try done;
      apply Forall_inv in He; rewrite !elem_of_cons, elem_of_nil in He; lia.
Qed.

Lemma spells_escape v : value_ok v -> spells_chars v (escape v).
Proof. intros Hv. split; [done|]. exists (esc <$> v). split; [apply written_esc|done]. Qed.

Lemma render_attrs_spells attrs :
  Forall (fun a => attr_name a.1 /\ value_ok a.2) attrs ->
  spells_attrs attrs (match attrs with [] => [] | _ => [ $" "] ++ render_attrs attrs end).
Proof.
  induction 1 as [|[nm v] attrs [Hn Hv] _ IH]; [constructor|]. cbn [fst snd] in *.
  cbn [render_attrs].
  apply (sa_cons [ $" "] nm [] [] DQUOTE v (escape v) attrs _);
    first [done|by apply spells_escape|by constructor|
      apply escape_clean; [done|delimiter]|constructor; [delimiter|constructor]|delimiter].
Qed.

Lemma render_spells f : printable f ->
  (starts_text f = false -> forall w, white w -> spells f (w ++ render f)) /\
  (starts_text f = true -> spells f (render f)).
Proof.
  assert (white CRLF) as Hcr by (repeat constructor; delimiter).
  induction f as [|name attrs kids IHk rest IHr|v rest _|v rest _]; cbn [printable render starts_text].
  - intros _. split; [|done]. intros _ w Hw. rewrite app_nil_r. by constructor.
  - intros (Hn & Hnd & Ha & Hk & Hr). split; [|done]. intros _ w Hw.
    destruct (IHk Hk) as [K1 K2]. destruct (IHr Hr) as [R1 R2].
    set (X := match attrs with [] => [] | _ => _ end).
    assert (spells kids ((if starts_elem kids then CRLF else []) ++ render kids)) as HK.
    { destruct (starts_text kids) eqn:E; [destruct kids; try done; by apply K2|].
      apply K1; [done|]. by destruct (starts_elem kids); [|constructor]. }
    assert (spells rest ((if starts_text rest then [] else CRLF) ++ render rest)) as HR.
    { destruct (starts_text rest) eqn:E; [by apply R2|by apply R1]. }
    pose proof (sp_elem w name attrs kids rest X [] _ [] _ Hw Hn Hnd (render_attrs_spells _ Ha)
      ltac:(constructor) HK ltac:(constructor) HR) as H.
    rewrite <- !app_assoc in *. exact H.
  - intros (Hv & Hw & ->). split; [done|]. intros _. rewrite <- (app_nil_r (escape v)).
    apply sp_text; [by apply spells_escape| | | |apply sp_nil; constructor|done].
    + apply escape_clean; [done|delimiter].
    + intros (a & b & E). apply (escape_clean v ($">") Hv); [delimiter|]. rewrite E.
      rewrite !elem_of_app. right. left. unfold CDEND. rewrite !elem_of_cons. tauto.
    + intros H. by apply Hw, escape_white.
  - intros (Hne & Hv & Hcd & ->). split; [|done]. intros _ w Hw.
    rewrite (encode_ascii v) by (eapply Forall_impl; [exact Hv|]; intros c [Hc%xml_char_range ?]; lia).
    pose proof (sp_cdata w v FNil [] Hw Hne Hv Hcd (sp_nil [] (Forall_nil_2 _))) as H.
    by rewrite app_nil_r in H.
Qed.

(** The characters the printer writes. *)
Definition char_ok (c : Z) : Prop := byte c /\ c <> 0.
Lemma encode_char_ok v : value_ok v -> Forall char_ok (encode v).
Proof. intros Hv. apply Forall_and. split; [by apply encode_byte|by apply encode_nonnul]. Qed.
Lemma escape_char_ok v : value_ok v -> Forall char_ok (escape v).
Proof.
  induction 1 as [|c v Hc _ IH]; [constructor|]. change (escape (c :: v)) with (esc c ++ escape v).
  apply Forall_app. split; [|done]. pose proof (encode_char_ok [c] ltac:(by repeat constructor)) as He.
  unfold encode in He. cbn in He. rewrite app_nil_r in He. unfold esc. destruct (bool_decide _) eqn:E; [done|].
  apply bool_decide_eq_false in E. unfold escape_char in *. unfold char_ok, byte.
  repeat case_match; try done; repeat (constructor; [lia|]); constructor.
Qed.
Lemma render_attrs_char_ok attrs : Forall (fun a => attr_name a.1 /\ value_ok a.2) attrs ->
  Forall char_ok (render_attrs attrs).
Proof.
  assert (Forall char_ok [ $"="; DQUOTE] /\ Forall char_ok [DQUOTE] /\ Forall char_ok [ $" "]) as (H1 & H2 & H3).
  { unfold char_ok, byte, DQUOTE. split_and!; repeat (constructor; [lia|]); constructor. }
  induction 1 as [|[nm v] attrs [Hn Hv] _ IH]; [constructor|]. cbn [render_attrs fst snd] in *.
  rewrite !Forall_app. split; [apply encode_char_ok, name_label, Hn|]. split; [done|].
  split; [by apply escape_char_ok|]. split; [done|].
  destruct attrs; [constructor|]. by apply Forall_app.
Qed.
Lemma render_char_ok f : printable f -> Forall char_ok (render f).
Proof.
  assert (forall l : text, ascii l -> Forall char_ok l) as Hlit.
  { intros l Hl. eapply Forall_impl; [exact Hl|]. unfold char_ok, byte. intros c. cbn. lia. }
  induction f as [|name attrs kids IHk rest IHr|v rest _|v rest _]; cbn [printable render].
  - constructor.
  - intros (Hn & _ & Ha & Hk & Hr). rewrite !Forall_app.
    pose proof (encode_char_ok _ (proj1 (name_label _ (proj1 Hn)))) as He.
    split_and!; try done; try (apply Hlit; by repeat constructor); try by auto.
    + destruct attrs; [constructor|]. apply Forall_app.
      split; [apply Hlit; by repeat constructor|by apply render_attrs_char_ok].
    + destruct (starts_elem kids); [apply Hlit; by repeat constructor|constructor].
    + destruct (starts_text rest); [constructor|apply Hlit; by repeat constructor].
  - intros (Hv & _). by apply escape_char_ok.
  - intros (_ & Hv & _). rewrite !Forall_app. split_and!; try (apply Hlit; by repeat constructor).
    apply encode_char_ok. eapply Forall_impl; [exact Hv|]. by intros c [? _].
Qed.

Lemma header_document f : printable f -> (exists name attrs kids, f = FElem name attrs kids FNil) ->
  spells_document f (XML_HEADER ++ render f).
Proof.
  intros Hf (name & attrs & kids & ->). destruct (render_spells _ Hf) as [H _].
  set (d := cs "version=" ++ [DQUOTE] ++ cs "1.0" ++ [DQUOTE]).
  exists [], (XMLDECL ++ d ++ END_PI), (CRLF ++ render (FElem name attrs kids FNil)).
  split; [by left|]. split; [right; exists d; split; [done|]|split; [|done]].
  - intros (a & b & E). assert ($"?" ∈ d) as Hin.
    { rewrite E. unfold END_PI. rewrite !elem_of_app, !elem_of_cons. tauto. }
    revert Hin. apply (bool_decide_unpack _). vm_compute. exact I.
  - apply H; [done|]. repeat (constructor; [delimiter|]). constructor.
Qed.

Section Properties.
Context (junk g : Z).

(** C19: parsing a text that spells one element with what is below it, with an
    optional byte order mark and XML declaration, any blanks in the tags, single
    or double quotes, empty-element tags, and characters written as they are (in
    UTF-8), as one of the five named entities or as decimal or hexadecimal
    references, returns a new document whose nodes, attributes, text and CDATA
    sections are exactly what the text spells, linked as a tree, and leaves
    every other document as it was.  The texts are those without comments,
    processing instructions and a document type, without prefixes in element
    names and attributes that declare namespaces, with no attribute twice in an
    element, with CDATA sections of ASCII characters only, not empty and
    without the closing mark inside, and whose text between tags is not blank,
    unless it is to be ignored, and does not have the closing mark of a CDATA
    section.  Memory is available. *)
Theorem ixmlParseBufferEx_correct st ts name attrs kids s :
  let f := FElem name attrs kids FNil in
  dom_inv st ts -> spells_document f s -> good_text s ->
  runs Lucky (ixmlParseBufferEx junk g st (DStr s)) (fun '(rc, d, st') =>
    rc = IXML_SUCCESS /\ exists doc t, d = Some doc /\ st !! doc = None /\
      dom_inv st' (Node doc [] t Leaf :: ts) /\ same_data st' t f /\ forall l, kept st st' l).
Proof. apply parseBuffer_runs. Qed.

(** C24: [ixmlPrintDocument] writes the XML declaration and the text of the
    elements, attributes (escaped), text (escaped) and CDATA sections below the
    document, except for the siblings behind a text or CDATA node, which are
    left out; [ixmlDocumenttoString] writes the same. *)
Theorem ixmlPrintDocument_correct st d t ts f :
  document_at st d t ts -> same_data st t f -> chars_ok f ->
  zlen XML_HEADER + zlen (render f) <= MB_MAX ->
  runs Lucky (a ← ixmlPrintDocument junk st (Some d); b ← ixmlDocumenttoString junk st (Some d);
              mret (a, b))
    (fun '(a, b) => a = DStr (XML_HEADER ++ render f) /\ b = a).
Proof.
  intros Hd Hs Hok Hm. mstep.
  eapply runs_mono; [apply (print_document_runs junk st d t ts f (ixmlPrintDomTree junk)); try done|].
  { intros n Hn Ety buf Q HQ. unfold ixmlPrintDomTree. rd_step. by rewrite Ety. }
  intros s ->. mstep.
  eapply runs_mono; [apply (print_document_runs junk st d t ts f (ixmlDomTreetoString junk)); try done|].
  { intros n Hn Ety buf Q HQ. unfold ixmlDomTreetoString. rd_step. by rewrite Ety. }
  intros s ->. by mstep.
Qed.

(** C18: the round trip: printing a document with one element and parsing the
    text gives a new document with the same elements, attributes, text and CDATA
    sections; escaping, encoding and the line breaks the printer adds change
    nothing.  The conditions are that text and CDATA sections come last among
    their siblings (what follows them is not printed), that text is not blank
    (blank text is not read back), that CDATA sections are not empty, have ASCII
    characters only and no closing mark inside, that all characters are ones XML
    allows, that element names have no prefix, that no attribute declares a
    namespace or occurs twice in an element, that the text has at most [INT_MAX]
    bytes and that memory is available. *)
Theorem print_parse_roundtrip st d t ts name attrs kids :
  let f := FElem name attrs kids FNil in
  document_at st d t ts -> same_data st t f -> printable f ->
  zlen (XML_HEADER ++ render f) <= MB_MAX ->
  runs Lucky (text ← ixmlPrintDocument junk st (Some d); ixmlParseBufferEx junk g st text)
    (fun '(rc, d', st') => rc = IXML_SUCCESS /\ exists doc t', d' = Some doc /\
      dom_inv st' (Node doc [] t' Leaf :: Node d [] t Leaf :: ts) /\ same_data st' t' f /\
      forall l, kept st st' l).
Proof.
  intros f Hd Hs Hp Hm. pose proof Hd as [Hinv _]. mstep.
  eapply runs_mono; [apply (print_document_runs junk st d t ts f (ixmlPrintDomTree junk)); try done|].
  { by apply printable_chars. }
  { by rewrite <- zlen_app. }
  { intros n Hn Ety buf Q HQ. unfold ixmlPrintDomTree. rd_step. by rewrite Ety. }
  intros s ->. eapply runs_mono; [apply (parseBuffer_runs junk g st _ name attrs kids _ Hinv)|].
  - apply header_document; [done|by exists name, attrs, kids].
  - assert (Forall char_ok (XML_HEADER ++ render f)) as Hc.
    { apply Forall_app. split; [|by apply render_char_ok]. unfold char_ok, byte.
      repeat (constructor; [lia|]). constructor. }
    split; [|split; [|done]]; (eapply Forall_impl; [exact Hc|]); by intros c [? ?].
  - intros [[rc d'] st'] (-> & doc & t' & -> & _ & Hd' & Hs' & Hk). split; [done|].
    by exists doc, t'.
Qed.
End Properties.

(** An example: [<a k="1&lt;2"><b></b>x&amp;é</a>] as a document, and a text of
    it with blanks, single quotes, numeric references and an empty-element tag. *)
Definition rt_forest : forest :=
  FElem (cs "a") [(cs "k", cs "1<2")]
    (FElem (cs "b") [] FNil (FText [120; 38; 233] FNil)) FNil.
Definition rt_node (t : IXML_NODE_TYPE) (name : list Z) (v : DOMString)
    (par child prev next attr : ptr) : IXML_Node :=
  MkNode (DStr name) v t DNull DNull DNull 0 par child prev next attr (Some 1%positive)
    (match t with
     | eELEMENT_NODE => XElement (DStr name) | eATTRIBUTE_NODE => XAttr 1 (Some 2%positive)
     | _ => XNode
     end).
Definition rt_st : nodes := Eval vm_compute in list_to_map (prod_map (fun k => k) Some <$> [
  (1%positive, rt_node eDOCUMENT_NODE DOCUMENTNODENAME DNull None (Some 2%positive) None None None);
  (2%positive, rt_node eELEMENT_NODE (cs "a") DNull (Some 1%positive) (Some 4%positive) None None
     (Some 3%positive));
  (3%positive, rt_node eATTRIBUTE_NODE (cs "k") (DStr (cs "1<2")) None None None None None);
  (4%positive, rt_node eELEMENT_NODE (cs "b") DNull (Some 2%positive) None None (Some 5%positive) None);
  (5%positive, rt_node eTEXT_NODE TEXTNODENAME (DStr (encode [120; 38; 233])) (Some 2%positive) None
     (Some 4%positive) None None)]).
Definition rt_tree : tree :=
  Node 2%positive [3%positive]
    (Node 4%positive [] Leaf (Node 5%positive [] Leaf Leaf)) Leaf.

Lemma rt_document : document_at rt_st 1%positive rt_tree [].
Proof.
  split; [split|].
  - constructor; [cbn [root_at rt_tree]; solve_tree|constructor].
  - apply (bool_decide_unpack _). vm_compute. exact I.
  - eexists. split; [reflexivity|reflexivity].
Qed.
Lemma rt_data : same_data rt_st rt_tree rt_forest.
Proof.
  cbn [rt_tree rt_forest same_data].
  repeat (split || constructor); eexists; repeat (split; [reflexivity|]); reflexivity.
Qed.
(** Deciding the conditions on a concrete name. *)
Definition name_okb (nm : list Z) : bool :=
  match nm with [] => false | c :: _ => name_char false c end && forallb (name_char true) nm.
Lemma name_okb_ok nm : name_okb nm = true -> name_ok nm.
Proof.
  intros [H1 H2]%andb_prop. split; [by destruct nm|]. apply Forall_forall. intros c Hc.
  rewrite forallb_forall in H2. apply H2. by apply list_elem_of_In.
Qed.
Lemma rt_printable : printable rt_forest.
Proof.
  assert (forall c, name_okb [c] = true -> c <> $":" -> elem_name [c]) as Hn.
  { intros c H Hc. split; [by apply name_okb_ok|]. by intros <-%list_elem_of_singleton. }
  assert (attr_name (cs "k")) as Hk.
  { split; [apply name_okb_ok; vm_compute; reflexivity|]. split; [done|]. by intros [r [=]]. }
  split; [apply Hn; [vm_compute; reflexivity|done]|]. split; [apply NoDup_singleton|].
  split; [constructor; [split; [done|by repeat constructor]|constructor]|]. split; [|done].
  split; [apply Hn; [vm_compute; reflexivity|done]|]. split; [constructor|]. split; [constructor|].
  split; [done|]. split; [by repeat constructor|]. split; [|done].
  intros H%Forall_inv. rewrite !elem_of_cons, elem_of_nil in H. lia.
Qed.

Definition rt_text : text := Eval vm_compute in
  (UTF8_BOM ++ cs "<?xml version='1.0'?> " ++ [10] ++ cs "<a  k = '1&lt;2' > <b/>x&#38;&#xe9;</a >" ++ [10]).
Lemma rt_spells : spells_document rt_forest rt_text.
Proof.
  assert (forall c, name_okb [c] = true -> c <> $":" -> elem_name [c]) as Hn.
  { intros c H Hc. split; [by apply name_okb_ok|]. by intros <-%list_elem_of_singleton. }
  assert (attr_name (cs "k")) as Hk.
  { split; [apply name_okb_ok; vm_compute; reflexivity|]. split; [done|]. by intros [r [=]]. }
  assert (forall w, forallb (fun c => bool_decide (c ∈ [10; 9; 13; 32])) w = true -> white w) as Hw.
  { intros w H. apply Forall_forall. intros c Hc. rewrite forallb_forall in H.
    eapply bool_decide_eq_true_1. apply H. by apply list_elem_of_In. }
  exists UTF8_BOM, (XMLDECL ++ cs "version='1.0'" ++ END_PI), ([32; 10] ++ cs "<a  k = '1&lt;2' > <b/>x&#38;&#xe9;</a >" ++ [10]).
  split; [by right|]. split; [|split; [|vm_compute; reflexivity]].
  { right. eexists. split; [reflexivity|]. intros (a & b & E). assert ($"?" ∈ cs "version='1.0'") as Hin.
    { rewrite E. unfold END_PI. rewrite !elem_of_app, !elem_of_cons. tauto. }
    revert Hin. apply (bool_decide_unpack _). vm_compute. exact I. }
  apply (sp_elem [32; 10] (cs "a") [(cs "k", cs "1<2")] _ FNil (cs "  k = '1&lt;2'") (cs " ")
    (cs " <b/>x&#38;&#xe9;") (cs " ") [10]).
  - by apply Hw.
  - apply Hn; [vm_compute; reflexivity|done].
  - apply NoDup_singleton.
  - apply (sa_cons (cs "  ") (cs "k") (cs " ") (cs " ") ($"'") (cs "1<2") (cs "1&lt;2") [] []);
      first [done|by apply Hw|exact Hk|apply sa_nil|delimiter|
        split; [by repeat constructor|exists (esc <$> cs "1<2");
          split; [apply written_esc|vm_compute; reflexivity]]].
  - by apply Hw.
  - apply (sp_empty (cs " ") (cs "b") [] (FText [120; 38; 233] FNil) [] [] (cs "x&#38;&#xe9;"));
      [by apply Hw|apply Hn; [vm_compute; reflexivity|done]|constructor|constructor|constructor|].
    rewrite <- (app_nil_r (cs "x&#38;&#xe9;")).
    apply sp_text; [|delimiter| | |apply sp_nil; constructor|done].
    + split; [by repeat constructor|]. exists [cs "x"; cs "&#38;"; cs "&#xe9;"].
      split; [|vm_compute; reflexivity]. constructor; [by left|]. constructor; [|constructor; [|constructor]].
      * right. right. left. exists [3; 8], (cs "38"). split; [reflexivity|]. split; [done|].
        split; [|reflexivity]. repeat constructor; lia.
      * right. right. right. exists ($"x"), [14; 9], (cs "e9"). split; [by left|]. split; [reflexivity|].
        split; [done|]. split; [|reflexivity]. constructor; [right; split; [lia|right; reflexivity]|].
        constructor; [left; split; [lia|reflexivity]|constructor].
    + intros (a & b & E). assert ($">" ∈ cs "x&#38;&#xe9;") as Hin.
      { rewrite E. unfold CDEND. rewrite !elem_of_app, !elem_of_cons. tauto. }
      revert Hin. apply (bool_decide_unpack _). vm_compute. exact I.
    + intros H%Forall_inv. rewrite !elem_of_cons, elem_of_nil in H. vm_compute in H. lia.
  - by apply Hw.
  - apply sp_nil. by apply Hw.
Qed.

Lemma ixmlParseBufferEx_correct_witness :
  runs Lucky (ixmlParseBufferEx 0 0 rt_st (DStr rt_text)) (fun '(rc, d, st') =>
    rc = IXML_SUCCESS /\ exists doc t, d = Some doc /\ rt_st !! doc = None /\
      dom_inv st' (Node doc [] t Leaf :: [Node 1%positive [] rt_tree Leaf]) /\
      same_data st' t rt_forest /\ forall l, kept rt_st st' l).
Proof.
  apply (ixmlParseBufferEx_correct 0 0 rt_st [Node 1%positive [] rt_tree Leaf] (cs "a")
    [(cs "k", cs "1<2")] (FElem (cs "b") [] FNil (FText [120; 38; 233] FNil)) rt_text).
  - apply rt_document.
  - apply rt_spells.
  - split; [|split]; [| |vm_compute; discriminate];
      unfold rt_text, byte; repeat (constructor; [lia|]); constructor.
Defined.

Lemma ixmlPrintDocument_correct_witness :
  runs Lucky (a ← ixmlPrintDocument 0 rt_st (Some 1%positive);
              b ← ixmlDocumenttoString 0 rt_st (Some 1%positive); mret (a, b))
    (fun '(a, b) => a = DStr (XML_HEADER ++ render rt_forest) /\ b = a).
Proof.
  apply (ixmlPrintDocument_correct 0 rt_st 1%positive rt_tree [] rt_forest).
  - apply rt_document.
  - apply rt_data.
  - apply printable_chars, rt_printable.
  - vm_compute. discriminate.
Defined.

Lemma print_parse_roundtrip_witness :
  runs Lucky (text ← ixmlPrintDocument 0 rt_st (Some 1%positive); ixmlParseBufferEx 0 0 rt_st text)
    (fun '(rc, d', st') => rc = IXML_SUCCESS /\ exists doc t', d' = Some doc /\
      dom_inv st' (Node doc [] t' Leaf :: [Node 1%positive [] rt_tree Leaf]) /\
      same_data st' t' rt_forest /\ forall l, kept rt_st st' l).
Proof.
  apply (print_parse_roundtrip 0 0 rt_st 1%positive rt_tree [] (cs "a")
    [(cs "k", cs "1<2")] (FElem (cs "b") [] FNil (FText [120; 38; 233] FNil))).
  - apply rt_document.
  - apply rt_data.
  - apply rt_printable.
  - vm_compute. discriminate.
Defined.
