(* ===== verification/UpnpString.v ===== *)
(** Strings of the API: [upnp/src/api/UpnpString.c], and the request structure
    of [UpnpSubscriptionRequest.c] that is made of them.

    A string owns the block it points to, so the structure is its length and the
    bytes of the block.  [UpnpString_assign] compares the pointers first;
    [same] says whether they are equal. *)

From S2P Require Import Prelude CString.

Record UpnpString := MkUString { m_length : Z; m_string : list Z }.

Implicit Types (p q : UpnpString) (s : list Z).

(** [strdup] and [strndup]: a block with the characters and a NUL. *)
Definition strdup s : M (option (list Z)) :=
  ok ← malloc_ok; mret (if ok : bool then Some (c_str s ++ [0]) else None).
Definition strndup s (n : Z) : M (option (list Z)) :=
  ok ← malloc_ok; mret (if ok : bool then Some (ztake n (c_str s) ++ [0]) else None).

Definition UpnpString_new : M (option UpnpString) :=
  ok ← malloc_ok;
  if negb ok then mret None
  else
    ok ← malloc_ok;
    mret (if ok : bool then Some (MkUString 0 [0]) else None).

Definition UpnpString_get_Length p : Z := m_length p.
Definition UpnpString_get_String p : list Z := m_string p.

Definition UpnpString_dup p : M (option UpnpString) :=
  ok ← malloc_ok;
  if negb ok then mret None
  else
    s ← strdup (m_string p);
    mret (MkUString (m_length p) <$> s).

Definition UpnpString_set_Length (n : Z) p : option UpnpString :=
  if n <? m_length p then
    s ← mem_write (m_string p) n [0]; Some (MkUString n s)
  else Some p.

(** The new string replaces the old one only if it could be allocated. *)
Definition set_to (copy : option (list Z)) p : Z * UpnpString :=
  match copy with
  | Some q => (1, MkUString (strlen q) q)
  | None => (0, p)
  end.
Definition UpnpString_set_String s p : M (Z * UpnpString) :=
  copy ← strdup s; mret (set_to copy p).
Definition UpnpString_set_StringN s (n : Z) p : M (Z * UpnpString) :=
  copy ← strndup s n; mret (set_to copy p).

Definition UpnpString_assign (same : bool) q p : M UpnpString :=
  if same then mret p
  else '(_, p) ← UpnpString_set_String (UpnpString_get_String q) p; mret p.

Definition UpnpString_clear p : option UpnpString :=
  s ← mem_write (m_string p) 0 [0]; Some (MkUString 0 s).

Definition UpnpString_cmp p q : Z :=
  strncmp (c_str (UpnpString_get_String p)) (c_str (UpnpString_get_String q))
    (Z.max (zlen (m_string p)) (zlen (m_string q)) + 1).
Definition UpnpString_casecmp p q : Z :=
  strncasecmp (c_str (UpnpString_get_String p)) (c_str (UpnpString_get_String q))
    (Z.max (zlen (m_string p)) (zlen (m_string q)) + 1).

(** ** The request structure *)

(** A member whose allocation failed is [None]. *)
Record UpnpSubscriptionRequest := MkRequest {
  m_ServiceId : option UpnpString;
  m_UDN : option UpnpString;
  m_SID : option UpnpString
}.

Definition UpnpSubscriptionRequest_new : M (option UpnpSubscriptionRequest) :=
  ok ← malloc_ok;
  if negb ok then mret None
  else
    a ← UpnpString_new;
    b ← UpnpString_new;
    c ← UpnpString_new;
    mret (Some (MkRequest a b c)).

(** Each goes through the pointer to the structure and that to the member. *)
Definition strcpy_member s (member : option UpnpString) : M UpnpString :=
  p ← liftO member;
  '(_, p) ← UpnpString_set_String s p;
  mret p.
Definition UpnpSubscriptionRequest_strcpy_ServiceId s (r : option UpnpSubscriptionRequest)
    : M (option UpnpSubscriptionRequest) :=
  r ← liftO r; p ← strcpy_member s (m_ServiceId r);
  mret (Some (MkRequest (Some p) (m_UDN r) (m_SID r))).
Definition UpnpSubscriptionRequest_strcpy_UDN s (r : option UpnpSubscriptionRequest)
    : M (option UpnpSubscriptionRequest) :=
  r ← liftO r; p ← strcpy_member s (m_UDN r);
  mret (Some (MkRequest (m_ServiceId r) (Some p) (m_SID r))).
Definition UpnpSubscriptionRequest_strcpy_SID s (r : option UpnpSubscriptionRequest)
    : M (option UpnpSubscriptionRequest) :=
  r ← liftO r; p ← strcpy_member s (m_SID r);
  mret (Some (MkRequest (m_ServiceId r) (m_UDN r) (Some p))).

(** ** What the operations keep *)

(** The length is that of the string, which has its NUL in the block. *)
Definition ustring_ok p : Prop := m_length p = strlen (m_string p) /\ 0 ∈ m_string p.

(** The value of a string. *)
Definition ustring_is s p : Prop := ustring_ok p /\ c_str (m_string p) = s.

Lemma c_str_before_nul s : 0 ∈ s -> exists k, s = c_str s ++ 0 :: k.
Proof.
  induction s as [|c s IH]; [by intros ?%elem_of_nil|]. cbn.
  destruct (Z.eqb_spec c 0) as [->|Hne]; [by exists s|].
  intros [|Hin]%elem_of_cons; [done|]. destruct (IH Hin) as [k E]. exists k. cbn. by rewrite <- E.
Qed.

Lemma terminated s : Forall (fun c => c <> 0) s -> ustring_is s (MkUString (strlen (s ++ [0])) (s ++ [0])).
Proof.
  intros Hs. assert (c_str (s ++ [0]) = s) as E by (rewrite c_str_app by done; cbn; by rewrite app_nil_r).
  split; [|done]. split; [done|]. cbn. set_solver.
Qed.

Lemma ztake_no_nul n s : Forall (fun c => c <> 0) (ztake n (c_str s)).
Proof. apply Forall_take, c_str_no_nul. Qed.

Lemma set_string_runs md s p :
  runs md (UpnpString_set_String s p) (fun '(rc, p') =>
    (rc = 1 /\ ustring_is (c_str s) p') \/ (md <> Lucky /\ rc = 0 /\ p' = p)).
Proof.
  unfold UpnpString_set_String, strdup. mstep. mstep. mstep; intros; mstep; mstep; cbn.
  - left. split; [done|]. apply terminated, c_str_no_nul.
  - by right.
Qed.

(** Cutting a string at its [n]th character. *)
Lemma cut_string n p s :
  ustring_is s p -> 0 <= n < m_length p ->
  exists b, mem_write (m_string p) n [0] = Some b /\ ustring_is (ztake n s) (MkUString n b).
Proof.
  intros [[Hl H0] Hs] Hn. destruct (c_str_before_nul _ H0) as [k E].
  assert (zlen s = m_length p) as Hz by (rewrite Hl; unfold strlen; by rewrite Hs).
  rewrite Hs in E. unfold mem_write. change (zlen [0]) with 1.
  assert (n + 1 <= zlen (m_string p)) as Hfit
    by (rewrite E, zlen_app, zlen_cons; pose proof (zlen_nonneg k); lia).
  rewrite (proj2 (Z.leb_le 0 n)), (proj2 (Z.leb_le _ _)) by lia. cbn [andb].
  eexists. split; [done|].
  assert (ztake n (m_string p) = ztake n s) as Ht.
  { unfold ztake. rewrite E, take_app_le; [done|]. unfold zlen in Hz. lia. }
  rewrite Ht. assert (Forall (fun c => c <> 0) (ztake n s)) as Hno
    by (rewrite <- Hs; apply ztake_no_nul).
  assert (c_str (ztake n s ++ [0] ++ zdrop (n + 1) (m_string p)) = ztake n s) as Ec
    by (rewrite c_str_app by done; cbn; by rewrite app_nil_r).
  split; [|exact Ec]. split; [|cbn; set_solver]. cbn [m_length m_string]. unfold strlen. rewrite Ec.
  rewrite zlen_ztake by lia. done.
Qed.

(** What a string holds fits in its block. *)
Lemma ustring_fits s p : ustring_is s p -> zlen s <= zlen (m_string p).
Proof.
  intros [[_ H0] Hs]. destruct (c_str_before_nul _ H0) as [k E]. rewrite Hs in E.
  rewrite E, zlen_app. pose proof (zlen_nonneg (0 :: k)). lia.
Qed.

Lemma cmp_equal s t p q :
  ustring_is s p -> ustring_is t q -> chars s -> chars t ->
  (UpnpString_cmp p q = 0 <-> s = t) /\ (UpnpString_casecmp p q = 0 <-> lower s = lower t).
Proof.
  intros Hp Hq Hs Ht. pose proof (ustring_fits _ _ Hp) as Hf.
  destruct Hp as [_ Ep], Hq as [_ Eq].
  unfold UpnpString_cmp, UpnpString_casecmp, UpnpString_get_String, strncasecmp, strncmp. rewrite Ep, Eq.
  fold (lower s) (lower t). assert (length (lower s) = length s) as El by apply length_fmap.
  unfold zlen in *. split; (apply strncmp_whole; [try done; by apply lower_chars..|rewrite ?El; lia]).
Qed.

(** C32: Every operation on a string of the API keeps its length the length of
    what it holds and its terminator in the block, and returns without
    undefined behaviour: a new string is empty, setting makes it a copy of the
    argument, cut to [n] characters by [set_StringN], or leaves it as it was
    when memory is exhausted; [assign] makes it hold what the other string
    holds, which may be the string itself, or leaves it as it was when memory
    is exhausted; [dup] gives an equal one or none when memory is exhausted,
    [set_Length] cuts it to at most [n] characters and [clear] empties it.
    [get_Length] is the length of what it holds, [get_String] its text, and
    [cmp] and [casecmp] are 0 exactly for two equal strings, and for two that
    are equal when the case of letters is ignored. *)
Theorem UpnpString_correct md s n s' t p q (same : bool) :
  ustring_is s p -> ustring_is t q -> chars s -> chars t -> 0 <= n -> (same = true -> p = q) ->
  runs md UpnpString_new (fun r => match r with Some p => ustring_is [] p | None => md <> Lucky end) /\
  runs md (UpnpString_set_String s' p) (fun '(rc, p') =>
    (rc = 1 /\ ustring_is (c_str s') p') \/ (md <> Lucky /\ rc = 0 /\ p' = p)) /\
  runs md (UpnpString_set_StringN s' n p) (fun '(rc, p') =>
    (rc = 1 /\ ustring_is (ztake n (c_str s')) p') \/ (md <> Lucky /\ rc = 0 /\ p' = p)) /\
  runs md (UpnpString_assign same q p) (fun p' =>
    ustring_is t p' \/ (md <> Lucky /\ p' = p)) /\
  runs md (UpnpString_dup p) (fun r =>
    match r with Some p' => ustring_is s p' | None => md <> Lucky end) /\
  (exists p', UpnpString_set_Length n p = Some p' /\ ustring_is (ztake n s) p') /\
  (exists p', UpnpString_clear p = Some p' /\ ustring_is [] p') /\
  UpnpString_get_Length p = zlen s /\ c_str (UpnpString_get_String p) = s /\
  (UpnpString_cmp p q = 0 <-> s = t) /\ (UpnpString_casecmp p q = 0 <-> lower s = lower t).
Proof.
  intros Hp Hq Hcs Hct Hn Hsame. pose proof Hp as [[Hl H0] Hs].
  assert (zlen s = m_length p) as Hz by (rewrite Hl; unfold strlen; by rewrite Hs).
  split_and!; [| | | | | | |done|done|by apply cmp_equal..].
  - unfold UpnpString_new. mstep. mstep; cbn [negb]; [|by mstep]. mstep. mstep; intros; mstep; [|done].
    split; [split; [done|constructor]|done].
  - apply set_string_runs.
  - unfold UpnpString_set_StringN, strndup. mstep. mstep. mstep; intros; mstep; mstep; cbn.
    + left. split; [done|]. apply terminated, ztake_no_nul.
    + by right.
  - unfold UpnpString_assign. destruct same; [rewrite (Hsame eq_refl) in *; mstep; by left|].
    mstep. eapply runs_mono; [apply set_string_runs|]. intros [rc p'] [[_ H]|(? & _ & ->)]; mstep.
    + left. destruct Hq as [_ Eq]. unfold UpnpString_get_String in H. by rewrite Eq in H.
    + by right.
  - unfold UpnpString_dup, strdup. mstep. mstep; cbn [negb]; [|by mstep]. mstep. mstep. mstep; intros; mstep; mstep; cbn; [|done].
    rewrite Hs. destruct (terminated s) as [[E1 E2] E3]; [rewrite <- Hs; apply c_str_no_nul|].
    cbn in E3. split; [|done]. split; [|done]. cbn. rewrite Hl. unfold strlen. by rewrite E3, Hs.
  - unfold UpnpString_set_Length. destruct (Z.ltb_spec n (m_length p)) as [Hlt|Hge].
    + destruct (cut_string n p s Hp) as (b & -> & Hb); [lia|]. cbn. by eexists.
    + exists p. split; [done|]. rewrite ztake_all by lia. done.
  - destruct (c_str_before_nul _ H0) as [k E]. unfold UpnpString_clear, mem_write. change (zlen [0]) with 1.
    assert (1 <= zlen (m_string p)) as Hfit
      by (rewrite E, zlen_app, zlen_cons; pose proof (zlen_nonneg k); pose proof (zlen_nonneg (c_str (m_string p))); lia).
    rewrite (proj2 (Z.leb_le (0 + 1) _)) by lia. cbn. eexists. split; [done|].
    split; [|done]. split; [done|]. constructor.
Qed.

Lemma UpnpString_correct_witness :
  let p := MkUString 3 (cs "abc" ++ [0]) in
  let q := MkUString 3 (cs "aBc" ++ [0]) in
  ustring_is (cs "abc") p /\
  (exists p', UpnpString_set_Length 1 p = Some p' /\ ustring_is (cs "a") p') /\
  runs Total (UpnpString_assign false q p) (fun p' => ustring_is (cs "aBc") p' \/ (Total <> Lucky /\ p' = p)) /\
  UpnpString_casecmp p q = 0.
Proof.
  assert (ustring_is (cs "abc") (MkUString 3 (cs "abc" ++ [0]))) as Hp
    by (split; [split; [done|cbn; set_solver]|done]).
  assert (ustring_is (cs "aBc") (MkUString 3 (cs "aBc" ++ [0]))) as Hq
    by (split; [split; [done|cbn; set_solver]|done]).
  assert (chars (cs "abc") /\ chars (cs "aBc")) as [H1 H2]
    by (split; apply (bool_decide_unpack _); by vm_compute).
  destruct (UpnpString_correct Total (cs "abc") 1 [] (cs "aBc") (MkUString 3 (cs "abc" ++ [0]))
              (MkUString 3 (cs "aBc" ++ [0])) false Hp Hq H1 H2 ltac:(lia) ltac:(done))
    as (_ & _ & _ & Ha & _ & Hl & _ & _ & _ & _ & Hc).
  split_and!; [exact Hp|exact Hl|exact Ha|by apply Hc].
Defined.
