(* ===== verification/GenaQueue.v ===== *)
(** The queued events of a subscription: the [notify_thread_struct] of
    [upnp/src/inc/gena.h] and the functions of [upnp/src/gena/gena_device.c]
    that discard events.

    An event is posted to several subscribers at once: its texts are shared by
    one structure per subscriber and freed with the last of them, which
    [reference_count] counts.  [event_heap] holds the structures and the
    counters; the texts of a structure are readable as long as its counter is.
    A queue is the list of the [ThreadPoolJob]s in the [LinkedList] [outgoing]
    ([LinkedList] shows that the pointer structure implements the list). *)

From S2P Require Import Prelude CString FreeList ThreadPool.

(** ** Data *)

Record notify_thread_struct := MkNotify {
  nts_headers : list Z;
  nts_propertySet : list Z;
  nts_servId : list Z;
  nts_UDN : list Z;
  nts_sid : list Z;
  nts_ctime : Z;
  nts_reference_count : loc;
  nts_device_handle : Z
}.

Record event_heap := MkEH {
  eh_structs : gmap loc notify_thread_struct;
  eh_counts : gmap loc Z
}.

(** [job->arg], the address of a structure. *)
Definition job_arg (job : ThreadPoolJob) : ptr :=
  match j_arg job with Zpos p => Some p | _ => None end.

Definition STALE_JOBID : Z := INVALID_JOB_ID - 1.

Implicit Types (h : event_heap) (p rc : loc) (outgoing : list ThreadPoolJob).

(** ** Operations *)

(** A structure whose counter is gone is dangling. *)
Definition notification h p : option notify_thread_struct :=
  n ← eh_structs h !! p;
  match eh_counts h !! nts_reference_count n with Some _ => Some n | None => None end.

Definition free_notify_struct h p : option event_heap :=
  n ← eh_structs h !! p;
  let rc := nts_reference_count n in
  c ← eh_counts h !! rc;
  let c := to_int (c - 1) in
  Some (MkEH (delete p (eh_structs h))
    (if c =? 0 then delete rc (eh_counts h) else <[rc := c]> (eh_counts h))).

(** The loop of [freeSubscriptionQueuedEvents]; it leaves the list empty. *)
Fixpoint free_queued (first : bool) h outgoing : option event_heap :=
  match outgoing with
  | [] => Some h
  | job :: outgoing' =>
      h ← (if first then Some h else p ← job_arg job; free_notify_struct h p);
      free_queued false h outgoing'
  end.

Definition freeSubscriptionQueuedEvents h outgoing
    : option (event_heap * list ThreadPoolJob) :=
  if 0 <? zlen outgoing then h ← free_queued true h outgoing; Some (h, [])
  else Some (h, outgoing).

(** [maxLen] and [maxAge] are [g_UpnpSdkEQMaxLen] and [g_UpnpSdkEQMaxAge];
    [waiting] are the jobs behind the first. *)
Fixpoint discard_loop (maxLen maxAge now : Z) h (waiting : list ThreadPoolJob)
    : option (event_heap * list ThreadPoolJob) :=
  match waiting with
  | [] => Some (h, [])
  | job :: waiting' =>
      p ← job_arg job;
      ntsp ← eh_structs h !! p;
      if (maxLen <? 1 + zlen waiting) || (maxAge <? now - nts_ctime ntsp) then
        h ← free_notify_struct h p;
        discard_loop maxLen maxAge now h waiting'
      else Some (h, waiting)
  end.

Definition maybeDiscardEvents (maxLen maxAge now : Z) h outgoing
    : option (event_heap * list ThreadPoolJob) :=
  match outgoing with
  | [] => Some (h, [])
  | active :: waiting =>
      '(h, waiting) ← discard_loop maxLen maxAge now h waiting;
      Some (h, active :: waiting)
  end.

(** ** The counters *)

(** The number of structures that share the counter [rc]. *)
Definition refs h rc : Z :=
  Z.of_nat (size (filter (fun kv => nts_reference_count kv.2 = rc) (eh_structs h))).

(** Every counter counts the structures that name it and has at least one,
    except the counter [x] of an event that is being posted; every structure
    has its counter. *)
Definition eh_ok (x : ptr) h : Prop :=
  forall rc, match eh_counts h !! rc with
             | Some c => c = refs h rc /\ (0 < c \/ x = Some rc)
             | None => refs h rc = 0
             end.

(** No counter can overflow. *)
Definition eh_small h : Prop := Z.of_nat (size (eh_structs h)) <= INT_MAX.

Lemma refs_le h rc : 0 <= refs h rc <= Z.of_nat (size (eh_structs h)).
Proof.
  unfold refs. split; [lia|]. apply inj_le. apply map_subseteq_size, map_filter_subseteq.
Qed.

Lemma refs_insert h p n cs' rc :
  eh_structs h !! p = None ->
  refs (MkEH (<[p := n]> (eh_structs h)) cs') rc =
    refs h rc + (if decide (nts_reference_count n = rc) then 1 else 0).
Proof.
  intros Hp. unfold refs. cbn [eh_structs]. case_decide as E.
  - rewrite map_filter_insert_True by done.
    rewrite map_size_insert_None; [lia|]. apply map_lookup_filter_None. by left.
  - rewrite map_filter_insert_False by done. rewrite delete_id by done. lia.
Qed.

Lemma refs_delete h p n cs' rc :
  eh_structs h !! p = Some n ->
  refs (MkEH (delete p (eh_structs h)) cs') rc =
    refs h rc - (if decide (nts_reference_count n = rc) then 1 else 0).
Proof.
  intros Hp. unfold refs. cbn [eh_structs]. rewrite map_filter_delete. case_decide as E.
  - assert (filter (fun kv => nts_reference_count kv.2 = rc) (eh_structs h) !! p = Some n)
      as Hf by (by apply map_lookup_filter_Some).
    rewrite map_size_delete_Some by eauto.
    assert (size (filter (fun kv => nts_reference_count kv.2 = rc) (eh_structs h)) <> 0)%nat;
      [|lia].
    intros Hz%map_size_empty_inv. by rewrite Hz in Hf.
  - rewrite delete_id; [lia|]. apply map_lookup_filter_None. right. naive_solver.
Qed.

Lemma refs_pos h p n : eh_structs h !! p = Some n -> 0 < refs h (nts_reference_count n).
Proof.
  intros Hp. unfold refs.
  assert (filter (fun kv => nts_reference_count kv.2 = nts_reference_count n)
    (eh_structs h) !! p = Some n) as Hf by (by apply map_lookup_filter_Some).
  assert (size (filter (fun kv => nts_reference_count kv.2 = nts_reference_count n)
    (eh_structs h)) <> 0)%nat; [|lia].
  intros Hz%map_size_empty_inv. by rewrite Hz in Hf.
Qed.

Lemma counted x h p n :
  eh_ok x h -> eh_structs h !! p = Some n ->
  eh_counts h !! nts_reference_count n = Some (refs h (nts_reference_count n)).
Proof.
  intros Hok Hp. specialize (Hok (nts_reference_count n)). pose proof (refs_pos h p n Hp).
  destruct (eh_counts h !! nts_reference_count n) as [c|]; [|lia]. by destruct Hok as [-> _].
Qed.

(** ** Freeing and discarding queues *)

(** [h'] is [h] without the structures [ps]. *)
Definition dropped h (ps : list loc) (h' : event_heap) : Prop :=
  forall p, eh_structs h' !! p = if decide (p ∈ ps) then None else eh_structs h !! p.

(** [h'] is [h] after the structures [ps] were freed; a counter that counted
    nothing is still there. *)
Record frees (x : ptr) h (ps : list loc) (h' : event_heap) : Prop := {
  fr_ok : eh_ok x h';
  fr_small : eh_small h';
  fr_dropped : dropped h ps h';
  fr_zero : forall rc, eh_counts h !! rc = Some 0 -> eh_counts h' !! rc = Some 0
}.

(** The jobs carry the addresses [ps] of live structures, all different. *)
Record carries h outgoing (ps : list loc) : Prop := {
  ca_args : job_arg <$> outgoing = Some <$> ps;
  ca_nodup : NoDup ps;
  ca_live : Forall (fun p => is_Some (eh_structs h !! p)) ps
}.

Lemma dropped_nil h : dropped h [] h.
Proof. intros p. by rewrite decide_False by set_solver. Qed.

Lemma dropped_app h ps h1 qs h2 :
  dropped h ps h1 -> dropped h1 qs h2 -> dropped h (ps ++ qs) h2.
Proof.
  intros H1 H2 p. rewrite H2. repeat case_decide; try set_solver.
  all: rewrite H1; case_decide; set_solver.
Qed.

Lemma dropped_one h p h' :
  eh_structs h' = delete p (eh_structs h) -> dropped h [p] h'.
Proof.
  intros E q. rewrite E. destruct (decide (q = p)) as [->|].
  - rewrite lookup_delete_eq, decide_True; set_solver.
  - rewrite lookup_delete_ne, decide_False; set_solver.
Qed.

Lemma dropped_proper h ps qs h' :
  (forall p, p ∈ ps <-> p ∈ qs) -> dropped h ps h' -> dropped h qs h'.
Proof. intros Heq H p. rewrite H. repeat case_decide; naive_solver. Qed.

Lemma dropped_keeps h ps h' p :
  dropped h ps h' -> p ∉ ps -> eh_structs h' !! p = eh_structs h !! p.
Proof. intros H Hp. by rewrite H, decide_False. Qed.

Lemma carries_cons h job outgoing ps :
  carries h (job :: outgoing) ps ->
  exists p ps', ps = p :: ps' /\ job_arg job = Some p /\ p ∉ ps' /\
    is_Some (eh_structs h !! p) /\ carries h outgoing ps'.
Proof.
  intros [Ha Hn Hl]. destruct ps as [|p ps]; [done|]. cbn in Ha. simplify_eq.
  apply NoDup_cons in Hn as [? ?]. apply List.Forall_cons_iff in Hl as [? ?].
  by exists p, ps.
Qed.

Lemma carries_kept h h' outgoing ps :
  carries h outgoing ps ->
  (forall p, p ∈ ps -> eh_structs h' !! p = eh_structs h !! p) -> carries h' outgoing ps.
Proof.
  intros [Ha Hn Hl] Hk. split; [done..|]. rewrite Forall_forall in *.
  intros p Hp. rewrite Hk by done. by apply Hl.
Qed.

Lemma frees_nil x h : eh_ok x h -> eh_small h -> frees x h [] h.
Proof. intros. split; auto using dropped_nil. Qed.

Lemma frees_app x h ps h1 qs h2 :
  frees x h ps h1 -> frees x h1 qs h2 -> frees x h (ps ++ qs) h2.
Proof. intros [] []. split; eauto using dropped_app. Qed.

Lemma free_notify_struct_spec x h p n :
  eh_ok x h -> eh_small h -> eh_structs h !! p = Some n ->
  exists h', free_notify_struct h p = Some h' /\ frees x h [p] h'.
Proof.
  intros Hok Hsm Hp. pose proof (counted x h p n Hok Hp) as Hc. pose proof (refs_pos h p n Hp).
  unfold free_notify_struct. rewrite Hp. cbn. rewrite Hc. cbn.
  set (rc0 := nts_reference_count n) in *. pose proof (refs_le h rc0). unfold eh_small in Hsm.
  rewrite to_int_small by (unfold INT_MAX in *; lia).
  eexists; split; [done|]. split.
  - intros rc. rewrite (refs_delete h p n _ rc Hp). cbn [eh_counts]. specialize (Hok rc).
    fold rc0. destruct (decide (rc0 = rc)) as [<-|Hne].
    + destruct (Z.eqb_spec (refs h rc0 - 1) 0).
      * rewrite lookup_delete_eq. lia.
      * rewrite lookup_insert_eq. lia.
    + rewrite Z.sub_0_r.
      destruct (refs h rc0 - 1 =? 0); by rewrite ?lookup_delete_ne, ?lookup_insert_ne by done.
  - unfold eh_small in *. cbn. rewrite map_size_delete_Some by eauto. lia.
  - by apply dropped_one.
  - cbn. intros rc Hz. assert (rc0 <> rc) by (intros ->; rewrite Hc in Hz; simplify_eq; lia).
    destruct (refs h rc0 - 1 =? 0); by rewrite ?lookup_delete_ne, ?lookup_insert_ne by done.
Qed.

Lemma free_queued_spec x h outgoing ps :
  eh_ok x h -> eh_small h -> carries h outgoing ps ->
  exists h', free_queued false h outgoing = Some h' /\ frees x h ps h'.
Proof.
  revert h ps. induction outgoing as [|job l IH]; intros h ps Hok Hsm Hc.
  - destruct ps; [|by destruct Hc]. exists h. auto using frees_nil.
  - apply carries_cons in Hc as (p & ps' & -> & Hj & Hp & [n Hn] & Hc). cbn.
    rewrite Hj. cbn.
    destruct (free_notify_struct_spec x h p n Hok Hsm Hn) as (h1 & -> & Hf).
    cbn. destruct (IH h1 ps') as (h' & -> & Hf'); [by destruct Hf..| |].
    { eapply carries_kept; [done|]. intros q Hq. eapply dropped_keeps; [apply Hf|]. set_solver. }
    exists h'. split; [done|]. by apply (frees_app _ _ [p] h1).
Qed.

(** All but the first, whose structure belongs to the job in the pool. *)
Lemma freeSubscriptionQueuedEvents_spec x h outgoing ps :
  eh_ok x h -> eh_small h -> carries h (tail outgoing) ps ->
  exists h', freeSubscriptionQueuedEvents h outgoing = Some (h', []) /\ frees x h ps h'.
Proof.
  intros Hok Hsm Hc. unfold freeSubscriptionQueuedEvents. destruct outgoing as [|job l].
  - destruct ps; [|by destruct Hc]. exists h. auto using frees_nil.
  - replace (0 <? zlen (job :: l)) with true
      by (symmetry; apply Z.ltb_lt; pose proof (zlen_nonneg l); rewrite zlen_cons; lia).
    cbn. destruct (free_queued_spec x h l ps Hok Hsm Hc) as (h' & -> & ?). by exists h'.
Qed.

(** The waiting events that are discarded are the oldest ones; those that stay
    fit the limit and the first of them is young enough. *)
Lemma discard_loop_spec x maxLen maxAge now h waiting ps :
  eh_ok x h -> eh_small h -> carries h waiting ps ->
  exists h' gone kept ps1 ps2,
    discard_loop maxLen maxAge now h waiting = Some (h', kept) /\
    frees x h ps1 h' /\ waiting = gone ++ kept /\ ps = ps1 ++ ps2 /\
    length gone = length ps1 /\
    (kept <> [] -> 1 + zlen kept <= maxLen /\
      forall p n, head ps2 = Some p -> eh_structs h !! p = Some n ->
                  now - nts_ctime n <= maxAge).
Proof.
  revert h ps. induction waiting as [|job l IH]; intros h ps Hok Hsm Hc.
  - destruct ps; [|by destruct Hc]. exists h, [], [], [], [].
    split; [done|]. split; [by apply frees_nil|]. by split_and!.
  - pose proof Hc as Hc'. apply carries_cons in Hc' as (p & ps' & -> & Hj & Hp & [n Hn] & Hl).
    cbn [discard_loop]. rewrite Hj. cbn [mbind option_bind]. rewrite Hn. cbn [mbind option_bind].
    destruct ((maxLen <? 1 + zlen (job :: l)) || (maxAge <? now - nts_ctime n)) eqn:E; zbool.
    + destruct (free_notify_struct_spec x h p n Hok Hsm Hn) as (h1 & -> & Hf).
      cbn [mbind option_bind].
      assert (forall q, q ∈ ps' -> eh_structs h1 !! q = eh_structs h !! q) as Hk.
      { intros q Hq. eapply dropped_keeps; [apply Hf|]. set_solver. }
      destruct (IH h1 ps') as (h' & gone & kept & ps1 & ps2 & -> & Hf' & -> & -> & Hg & Hy);
        [by destruct Hf..|by eapply carries_kept|].
      exists h', (job :: gone), kept, (p :: ps1), ps2. split; [done|].
      split; [by apply (frees_app _ _ [p] h1)|]. split; [done|]. split; [done|].
      split; [cbn; congruence|].
      intros Hne. destruct (Hy Hne) as [? Hy']. split; [done|]. intros q m Hq Hm.
      apply (Hy' q m Hq). rewrite Hk; [done|]. destruct ps2; [done|]. set_solver.
    + exists h, [], (job :: l), [], (p :: ps').
      split; [done|]. split; [by apply frees_nil|]. do 3 (split; [done|]).
      intros _. split; [lia|]. intros q m [= <-] Hm. simplify_eq. lia.
Qed.
