(* ===== verification/ServiceTable.v ===== *)
(** Service tables: [upnp/src/genlib/service_table/service_table.c] and the
    structures of [upnp/src/inc/service_table.h].

    The linked lists of services and of subscriptions are lists, and a pointer
    into one is a position.  [time()] answers [now]; the structures of queued
    events are in the [event_heap] of [GenaQueue].  The XML functions read the
    node store of [IxmlNode]. *)

From S2P Require Import Prelude CString FreeList ThreadPool Uri IxmlNode IxmlDocument XmlPrint GenaQueue.

(** ** Data *)

Definition SID_SIZE : Z := 41.

Record subscription := MkSub {
  sub_sid : list Z;
  sub_ToSendEventKey : Z;
  sub_expireTime : Z;
  sub_active : Z;
  sub_DeliveryURLs : URL_list;
  sub_outgoing : list ThreadPoolJob
}.

Definition set_sub_key (v : Z) (s : subscription) : subscription :=
  MkSub (sub_sid s) v (sub_expireTime s) (sub_active s) (sub_DeliveryURLs s) (sub_outgoing s).
Definition set_sub_expireTime (v : Z) (s : subscription) : subscription :=
  MkSub (sub_sid s) (sub_ToSendEventKey s) v (sub_active s) (sub_DeliveryURLs s) (sub_outgoing s).
Definition set_sub_active (v : Z) (s : subscription) : subscription :=
  MkSub (sub_sid s) (sub_ToSendEventKey s) (sub_expireTime s) v (sub_DeliveryURLs s)
    (sub_outgoing s).
Definition set_sub_URLs (v : URL_list) (s : subscription) : subscription :=
  MkSub (sub_sid s) (sub_ToSendEventKey s) (sub_expireTime s) (sub_active s) v (sub_outgoing s).
Definition set_sub_outgoing (v : list ThreadPoolJob) (s : subscription) : subscription :=
  MkSub (sub_sid s) (sub_ToSendEventKey s) (sub_expireTime s) (sub_active s)
    (sub_DeliveryURLs s) v.

Record service_info := MkService {
  si_serviceType : DOMString;
  si_serviceId : DOMString;
  si_SCPDURL : option (list Z);
  si_controlURL : option (list Z);
  si_eventURL : option (list Z);
  si_UDN : DOMString;
  si_active : Z;
  si_TotalSubscriptions : Z;
  si_subscriptionList : list subscription
}.

Definition set_subs (total : Z) (subs : list subscription) (s : service_info) : service_info :=
  MkService (si_serviceType s) (si_serviceId s) (si_SCPDURL s) (si_controlURL s)
    (si_eventURL s) (si_UDN s) (si_active s) total subs.

(** [st_endServiceList] is the position of the last service. *)
Record service_table := MkTable {
  st_URLBase : DOMString;
  st_serviceList : list service_info;
  st_endServiceList : option nat
}.

Implicit Types (h : event_heap) (svc : service_info) (sub : subscription) (now : Z).

(** ** Subscriptions *)

(** [memcpy] of [SID_SIZE] bytes and a NUL.  [out_base] is the address of the
    copied URLs. *)
Definition copy_subscription sub (out_base : Z) : M (Z * subscription) :=
  '(return_code, urls) ← copy_URL_list (sub_DeliveryURLs sub) out_base;
  mret (return_code,
    MkSub (ztake SID_SIZE (c_str (sub_sid sub))) (sub_ToSendEventKey sub)
      (sub_expireTime sub) (sub_active sub) urls []).

Definition freeSubscription h sub : option (event_heap * subscription) :=
  let sub := set_sub_URLs (free_URL_list (sub_DeliveryURLs sub)) sub in
  '(h, outgoing) ← freeSubscriptionQueuedEvents h (sub_outgoing sub);
  Some (h, set_sub_outgoing outgoing sub).

Fixpoint freeSubscriptionList h (subs : list subscription) : option event_heap :=
  match subs with
  | [] => Some h
  | sub :: subs' => '(h, _) ← freeSubscription h sub; freeSubscriptionList h subs'
  end.

(** The loops that look for a SID: its position. *)
Fixpoint find_sid (sid : list Z) (subs : list subscription) : option nat :=
  match subs with
  | [] => None
  | finger :: subs' =>
      if strcmp_eq sid (sub_sid finger) then Some 0%nat else S <$> find_sid sid subs'
  end.

(** Unlinking and freeing the subscription at position [i]. *)
Definition remove_sub h (i : nat) svc : option (event_heap * service_info) :=
  sub ← si_subscriptionList svc !! i;
  h ← freeSubscriptionList h [sub];
  Some (h, set_subs (si_TotalSubscriptions svc - 1) (delete i (si_subscriptionList svc)) svc).

Definition RemoveSubscriptionSID h (sid : list Z) svc : option (event_heap * service_info) :=
  match find_sid sid (si_subscriptionList svc) with
  | Some i => remove_sub h i svc
  | None => Some (h, svc)
  end.

Definition expired now sub : bool :=
  negb (sub_expireTime sub =? 0) && (sub_expireTime sub <? now).

Definition GetSubscriptionSID now h (sid : list Z) svc
    : option (option nat * event_heap * service_info) :=
  match find_sid sid (si_subscriptionList svc) with
  | None => Some (None, h, svc)
  | Some i =>
      sub ← si_subscriptionList svc !! i;
      if expired now sub then '(h, svc) ← remove_sub h i svc; Some (None, h, svc)
      else Some (Some i, h, svc)
  end.

(** The loop of [GetNextSubscription] over the subscriptions behind the current
    one; [pos] is the position of the first of them. *)
Fixpoint next_loop now h (pos : nat) (rest : list subscription) (total : Z)
    : option (option nat * event_heap * list subscription * Z) :=
  match rest with
  | [] => Some (None, h, [], total)
  | sub :: rest' =>
      if expired now sub then
        h ← freeSubscriptionList h [sub];
        next_loop now h pos rest' (total - 1)
      else if negb (sub_active sub =? 0) then Some (Some pos, h, rest, total)
      else
        '(next, h, rest', total) ← next_loop now h (S pos) rest' total;
        Some (next, h, sub :: rest', total)
  end.

(** The list from position [pos] on is what follows the current element. *)
Definition next_from now h svc (pos : nat) : option (option nat * event_heap * service_info) :=
  let subs := si_subscriptionList svc in
  '(next, h, rest, total) ← next_loop now h pos (drop pos subs) (si_TotalSubscriptions svc);
  Some (next, h, set_subs total (take pos subs ++ rest) svc).

Definition GetNextSubscription now h svc (current : option nat)
    : option (option nat * event_heap * service_info) :=
  match current with
  | None => Some (None, h, svc)
  | Some i => next_from now h svc (S i)
  end.

(** The current element is the local [temp] in front of the list. *)
Definition GetFirstSubscription now h svc : option (option nat * event_heap * service_info) :=
  next_from now h svc 0.

(** ** Services *)

(** [strcmp(s, d) == 0]; [d] may not be [NULL]. *)
Definition strcmp_dom (s : list Z) (d : DOMString) : option bool :=
  t ← str_of d; Some (strcmp_eq s t).

Fixpoint find_service (f : service_info -> option bool) (l : list service_info)
    : option (option nat) :=
  match l with
  | [] => Some None
  | finger :: l' =>
      b ← f finger;
      if b : bool then Some (Some 0%nat)
      else r ← find_service f l'; Some (option_map S r)
  end.

Definition FindServiceId (table : option service_table) (serviceId UDN : list Z)
    : option (option nat) :=
  match table with
  | None => Some None
  | Some t =>
      find_service (fun finger =>
        b ← strcmp_dom serviceId (si_serviceId finger);
        if b : bool then strcmp_dom UDN (si_UDN finger) else Some false)
      (st_serviceList t)
  end.

Section Tables.
Context (getaddrinfo : list Z -> option (list sockaddr))
  (inet_pton : Z -> list Z -> option (list Z)) (gIF_INDEX : Z).

Let parse_uri := parse_uri getaddrinfo inet_pton gIF_INDEX 0.
Let resolve_rel_url := resolve_rel_url getaddrinfo inet_pton gIF_INDEX.

(** [!token_cmp] of the paths and queries of [in_] and of the URL of a service,
    if it has one. *)
Definition same_pathquery (path : list Z) (url_in : uri_type) (url : option (list Z))
    : option bool :=
  match url with
  | None => Some false
  | Some url =>
      '(rc, parsed) ← parse_uri url (strlen url);
      if rc =? HTTP_SUCCESS then
        let t := u_pathquery parsed in
        let t_in := u_pathquery url_in in
        Some (token_cmp (zdrop (tk_buff t) url) t (zdrop (tk_buff t_in) path) t_in =? 0)
      else Some false
  end.

Definition find_path (url : service_info -> option (list Z)) (table : option service_table)
    (path : option (list Z)) : option (option nat) :=
  match table, path with
  | Some table, Some path =>
      '(rc, parsed_url_in) ← parse_uri path (strlen path);
      if rc =? HTTP_SUCCESS then
        find_service (fun finger => same_pathquery path parsed_url_in (url finger))
          (st_serviceList table)
      else Some None
  | _, _ => Some None
  end.

Definition FindServiceEventURLPath := find_path si_eventURL.
Definition FindServiceControlURLPath := find_path si_controlURL.

Definition freeService h svc : option event_heap :=
  _ ← free_str (si_serviceType svc);
  _ ← free_str (si_serviceId svc);
  _ ← free_str (si_UDN svc);
  freeSubscriptionList h (si_subscriptionList svc).

Fixpoint freeServiceList h (l : list service_info) : option event_heap :=
  match l with
  | [] => Some h
  | head :: l' => h ← freeService h head; freeServiceList h l'
  end.

(** The pointer [URLBase] stays in the table. *)
Definition freeServiceTable h (table : service_table) : option (event_heap * service_table) :=
  base ← ixmlFreeDOMString (st_URLBase table);
  h ← freeServiceList h (st_serviceList table);
  Some (h, MkTable base [] None).

(** ** Services of a description *)

Definition getElementValue (st : nodes) (node : ptr) : M DOMString :=
  child ← liftO (ixmlNode_getFirstChild st node);
  type ← liftO (ixmlNode_getNodeType st child);
  if bool_decide (child <> None) && bool_decide (type = eTEXT_NODE) then
    temp ← liftO (ixmlNode_getNodeValue st child);
    ixmlCloneDOMString temp
  else mret DNull.

(** The loop over the children; [None] when there is no such element. *)
Fixpoint sub_element (fuel : nat) (st : nodes) (element_name : list Z) (child : ptr) : M ptr :=
  match fuel with
  | O => running
  | S fuel' =>
      match child with
      | None => mret None
      | Some _ =>
          type ← liftO (ixmlNode_getNodeType st child);
          found ← (if bool_decide (type = eELEMENT_NODE) then
                     NodeName ← liftO (ixmlNode_getNodeName st child);
                     name ← liftO (str_of NodeName);
                     mret (strcmp_eq name element_name)
                   else mret false);
          if found : bool then mret child
          else
            next ← liftO (ixmlNode_getNextSibling st child);
            sub_element fuel' st element_name next
      end
  end.

Definition getSubElement (element_name : list Z) (st : nodes) (node : ptr) : M ptr :=
  child ← liftO (ixmlNode_getFirstChild st node);
  sub_element (S (size st)) st element_name child.

(** [getSubElement] and [getElementValue]: a missing element has no value. *)
Definition sub_value (element_name : list Z) (st : nodes) (node : ptr) : M DOMString :=
  e ← getSubElement element_name st node;
  match e with None => mret DNull | Some _ => getElementValue st e end.

(** The value resolved against the base: the URL of a service. *)
Definition sub_url (element_name : list Z) (st : nodes) (node : ptr) (URLBase : DOMString)
    : M (option (list Z)) :=
  v ← sub_value element_name st node;
  match v with
  | DNull => mret None
  | _ =>
      tempDOMString ← liftO (str_of v);
      base ← match URLBase with
             | DNull => mret None
             | _ => liftO (Some <$> str_of URLBase)
             end;
      resolve_rel_url base (Some tempDOMString)
  end.

(** The body of the loop of [getServiceList]: the service and [fail]. *)
Definition service_of (st : nodes) (current_service UDN : ptr) (URLBase : DOMString)
    : M (service_info * bool) :=
  u ← getElementValue st UDN;
  t ← sub_value (cs "serviceType") st current_service;
  i ← sub_value (cs "serviceId") st current_service;
  scpd ← sub_url (cs "SCPDURL") st current_service URLBase;
  let fail := is_null u || is_null t || is_null i || bool_decide (scpd = None) in
  control ← sub_url (cs "controlURL") st current_service URLBase;
  let fail := if bool_decide (control = None) then false else fail in
  event ← sub_url (cs "eventSubURL") st current_service URLBase;
  let fail := if bool_decide (event = None) then false else fail in
  mret (MkService t i scpd control event u 1 0 [], fail).

(** The loop of [getServiceList]; [acc] are the services found so far.  [None]:
    an allocation failed and all of them were freed. *)
Fixpoint service_loop h (st : nodes) (UDN : ptr) (URLBase : DOMString)
    (serviceNodes : list ptr) (acc : list service_info)
    : M (option (list service_info) * event_heap) :=
  match serviceNodes with
  | [] => mret (Some acc, h)
  | current_service :: rest =>
      ok ← malloc_ok;
      if negb ok then h ← liftO (freeServiceList h acc); mret (None, h)
      else
        '(current, fail) ← service_of st current_service UDN URLBase;
        if fail : bool then
          h ← liftO (freeServiceList h [current]);
          service_loop h st UDN URLBase rest acc
        else service_loop h st UDN URLBase rest (acc ++ [current])
  end.

(** The list, and [*end] if it was written ([Some] of the position of the last
    service in the list). *)
Definition getServiceList h (st : nodes) (node : ptr) (URLBase : DOMString)
    : M (list service_info * option (option nat) * event_heap) :=
  UDN ← getSubElement (cs "UDN") st node;
  serviceList ← (if bool_decide (UDN = None) then mret None
                 else getSubElement (cs "serviceList") st node);
  if bool_decide (UDN = None) || bool_decide (serviceList = None) then
    mret ([], Some None, h)
  else
    serviceNodeList ← ixmlElement_getElementsByTagName st serviceList (DStr (cs "service"));
    '(l, h) ← service_loop h st UDN URLBase serviceNodeList [];
    match l with
    | None => mret ([], None, h)
    | Some l => mret (l, Some (if bool_decide (l = []) then None else Some (length l - 1)%nat), h)
    end.

(** The loop over the devices: [head] is the list so far, [end_] the position
    of its last service, [next_end] the variable of this name. *)
Fixpoint all_services_loop h (st : nodes) (URLBase : DOMString) (devices : list ptr)
    (head : list service_info) (end_ next_end : option nat)
    : M (list service_info * option nat * event_heap) :=
  match devices with
  | [] => mret (head, end_, h)
  | currentDevice :: devices' =>
      '(l, e, h) ← getServiceList h st currentDevice URLBase;
      if bool_decide (head = []) then
        all_services_loop h st URLBase devices' l (default end_ e) next_end
      else
        match end_ with
        | None => undefined
        | Some i =>
            let next_end := match e with
                            | Some e => (fun j => S i + j)%nat <$> e
                            | None => next_end
                            end in
            all_services_loop h st URLBase devices' (take (S i) head ++ l)
              (match next_end with Some _ => next_end | None => end_ end) next_end
        end
  end.

Definition getAllServiceList h (st : nodes) (node : ptr) (URLBase : DOMString)
    : M (list service_info * option nat * event_heap) :=
  deviceList ← ixmlElement_getElementsByTagName st node (DStr (cs "device"));
  all_services_loop h st URLBase deviceList [] None None.

Definition table_URLBase (st : nodes) (root : ptr) (DefaultURLBase : DOMString) : M DOMString :=
  URLBase ← getSubElement (cs "URLBase") st root;
  match URLBase with
  | Some _ => getElementValue st URLBase
  | None =>
      match DefaultURLBase with
      | DNull => ixmlCloneDOMString (DStr [])
      | _ => ixmlCloneDOMString DefaultURLBase
      end
  end.

Definition getServiceTable h (st : nodes) (node : ptr) (out : service_table)
    (DefaultURLBase : DOMString) : M (Z * service_table * event_heap) :=
  root ← getSubElement (cs "root") st node;
  match root with
  | None => mret (0, out, h)
  | Some _ =>
      base ← table_URLBase st root DefaultURLBase;
      '(l, e, h) ← getAllServiceList h st root base;
      mret (if bool_decide (l = []) then 0 else 1, MkTable base l e, h)
  end.

(** Without a last service the list cannot be extended. *)
Definition addServiceTable h (st : nodes) (node : ptr) (in_ : service_table)
    (DefaultURLBase : DOMString) : M (Z * service_table * event_heap) :=
  base ← liftO (match st_URLBase in_ with
                | DNull => Some DNull
                | b => _ ← free_str b; Some DNull
                end);
  let in_ := MkTable base (st_serviceList in_) (st_endServiceList in_) in
  root ← getSubElement (cs "root") st node;
  match root with
  | None => mret (0, in_, h)
  | Some _ =>
      base ← table_URLBase st root DefaultURLBase;
      '(l, e, h) ← getAllServiceList h st root base;
      match st_endServiceList in_ with
      | None => undefined
      | Some i =>
          let t := MkTable base (take (S i) (st_serviceList in_) ++ l) (Some i) in
          if bool_decide (l = []) then mret (0, t, h)
          else mret (1, MkTable base (st_serviceList t) ((fun j => S i + j)%nat <$> e), h)
      end
  end.
End Tables.
