(* ===== verification/Ssdp.v ===== *)
(** What an SSDP message says: [upnp/src/ssdp/ssdp_server.c], the names of
    devices and services, and the messages that are accepted.

    The arrays of an [SsdpEvent] are the strings they hold; the members that no
    code sets are left out.  The sockets of [create_ssdp_sock_v4] and its
    siblings are system calls only. *)

From S2P Require Import Prelude CString MemBuffer StrIntMap HttpTables Uri Scanner HttpMessage HttpParser.

Definition LINE_SIZE : Z := 180.
Definition NO_ERROR_FOUND : Z := 0.
Definition E_HTTP_SYNTEX : Z := -6.
Definition SSDP_IP : list Z := Eval vm_compute in cs "239.255.255.250".
Definition SSDP_IPV6_LINKLOCAL : list Z := Eval vm_compute in cs "FF02::C".
Definition SSDP_IPV6_SITELOCAL : list Z := Eval vm_compute in cs "FF05::C".
Definition SSDP_PORT : Z := 1900.

Inductive SsdpSearchType :=
| SSDP_SERROR | SSDP_ALL | SSDP_ROOTDEVICE | SSDP_DEVICEUDN | SSDP_DEVICETYPE | SSDP_SERVICE.
#[global] Instance SsdpSearchType_eq_dec : EqDecision SsdpSearchType.
Proof. solve_decision. Defined.

Record SsdpEvent := MkEvent {
  RequestType : SsdpSearchType;
  ErrCode : Z;
  UDN : list Z;
  DeviceType : list Z;
  ServiceType : list Z
}.
Implicit Types (Evt : SsdpEvent) (cmd : list Z).

Definition set_UDN (s : list Z) Evt : SsdpEvent :=
  MkEvent (RequestType Evt) (ErrCode Evt) s (DeviceType Evt) (ServiceType Evt).
Definition set_DeviceType (s : list Z) Evt : SsdpEvent :=
  MkEvent (RequestType Evt) (ErrCode Evt) (UDN Evt) s (ServiceType Evt).
Definition set_ServiceType (s : list Z) Evt : SsdpEvent :=
  MkEvent (RequestType Evt) (ErrCode Evt) (UDN Evt) (DeviceType Evt) s.
Definition set_request (t : SsdpSearchType) (code : Z) Evt : SsdpEvent :=
  MkEvent t code (UDN Evt) (DeviceType Evt) (ServiceType Evt).
(** [memset(Evt, 0, sizeof(SsdpEvent))]: 0 is [SSDP_ALL]. *)
Definition clear_event : SsdpEvent := MkEvent SSDP_ALL 0 [] [] [].

(** ** Unique service names *)

(** [strstr] from offset [i] of the string on, as an offset. *)
Definition strstr_at (s : list Z) (i : Z) (pat : list Z) : option Z :=
  Z.add i <$> strstr (zdrop i s) pat.
Definition occurs (s pat : list Z) : bool := bool_decide (is_Some (strstr s pat)).

(** [strncpy] of at most [n] bytes into an array that is then a string. *)
Definition copy_at (s : list Z) (i n : Z) : list Z :=
  ztake (Z.min n (LINE_SIZE - 1)) (zdrop i s).

(** The branch of ["uuid:schemas"]: the version at the end is the UDN, the text
    before it the type. *)
Definition schemas_name cmd Evt : Z * SsdpEvent :=
  match (p1 ← strstr cmd (cs ":device"); p2 ← strstr_at cmd (p1 + 1) (cs ":");
         strstr_at cmd (p2 + 1) (cs ":")) with
  | None => (-1, Evt)
  | Some ptr3 =>
      let id := zdrop (ptr3 + 1) cmd in
      if LINE_SIZE <=? strlen (cs "uuid:") + zlen id then (-1, Evt)
      else
        let Evt := set_UDN (cs "uuid:" ++ id) Evt in
        match strstr cmd (cs ":") with
        | None => (-1, Evt)
        | Some ptr1 =>
            let TempBuf := ztake (Z.min (ptr3 - ptr1) (LINE_SIZE - 4)) (zdrop ptr1 cmd) in
            if LINE_SIZE <=? strlen (cs "urn") + zlen TempBuf then (-1, Evt)
            else (0, set_DeviceType (cs "urn" ++ TempBuf) Evt)
        end
  end.

(** The four tests; each says whether it found something. *)
Definition find_uuid cmd Evt : bool * SsdpEvent :=
  match strstr cmd (cs "uuid") with
  | None => (false, Evt)
  | Some p =>
      let n := match strstr cmd (cs "::") with Some q => to_size (q - p) | None => zlen cmd end in
      (true, set_UDN (copy_at cmd p n) Evt)
  end.
Definition find_urn (kind : list Z) (set : list Z -> SsdpEvent -> SsdpEvent) cmd Evt
    : bool * SsdpEvent :=
  if occurs cmd (cs "urn:") && occurs cmd kind then
    match strstr cmd (cs "urn") with
    | Some p => (true, set (copy_at cmd p (zlen cmd)) Evt)
    | None => (false, Evt)
    end
  else (false, Evt).
Definition find_root cmd Evt : bool * SsdpEvent :=
  match strstr cmd (cs "::upnp:rootdevice") with
  | Some p => if p =? 0 then (false, Evt) else (true, set_UDN (copy_at cmd 0 p) Evt)
  | None => (false, Evt)
  end.

Definition unique_service_name cmd Evt : Z * SsdpEvent :=
  let cmd := c_str cmd in
  if occurs cmd (cs "uuid:schemas") then schemas_name cmd Evt
  else
    let '(f1, Evt) := find_uuid cmd Evt in
    let '(f2, Evt) := find_urn (cs ":service:") set_ServiceType cmd Evt in
    let '(f3, Evt) := find_urn (cs ":device:") set_DeviceType cmd Evt in
    let '(f4, Evt) := find_root cmd Evt in
    (if f1 || f2 || f3 || f4 then 0 else -1, Evt).

(** ** Search targets *)

Definition ssdp_request_type1 cmd : SsdpSearchType :=
  if occurs cmd (cs ":all") then SSDP_ALL
  else if occurs cmd (cs ":rootdevice") then SSDP_ROOTDEVICE
  else if occurs cmd (cs "uuid:") then SSDP_DEVICEUDN
  else if occurs cmd (cs "urn:") && occurs cmd (cs ":device:") then SSDP_DEVICETYPE
  else if occurs cmd (cs "urn:") && occurs cmd (cs ":service:") then SSDP_SERVICE
  else SSDP_SERROR.

Definition ssdp_request_type cmd : Z * SsdpEvent :=
  let '(_, Evt) := unique_service_name cmd clear_event in
  let t := ssdp_request_type1 cmd in
  if bool_decide (t = SSDP_SERROR) then (-1, set_request t E_HTTP_SYNTEX Evt)
  else (0, set_request t NO_ERROR_FOUND Evt).

(** ** Messages *)

Definition host_names : list (list Z) :=
  Eval vm_compute in [cs "239.255.255.250:1900"; cs "[FF02::C]:1900"; cs "[ff02::c]:1900";
                      cs "[FF05::C]:1900"; cs "[ff05::c]:1900"].

Definition valid_ssdp_msg (hmsg : http_message_t) : bool :=
  if negb (m_method hmsg =? HTTPMETHOD_NOTIFY) && negb (m_method hmsg =? HTTPMETHOD_MSEARCH)
     && negb (m_request_method hmsg =? HTTPMETHOD_MSEARCH)
  then false
  else if m_request_method hmsg =? HTTPMETHOD_MSEARCH then true
  else
    let path := u_pathquery (m_uri hmsg) in
    let buff := zdrop (tk_buff path) (default [] (m_urlbuf hmsg)) in
    match u_type (m_uri hmsg) with RELATIVE => true | ABSOLUTE => false end
    && (strncmp (cs "*") buff (tk_size path) =? 0)
    && match httpmsg_find_hdr hmsg HDR_HOST with
       | None => false
       | Some (_, hd) => existsb (fun h => memptr_cmp (value_ptr hd) h =? 0) host_names
       end.

Section Ssdp.
Context (junk : Z).
Context (getaddrinfo : list Z -> option (list sockaddr))
  (inet_pton : Z -> list Z -> option (list Z)) (gIF_INDEX : Z).

(** The result and the parser; the data of a refused message is released. *)
Definition start_event_handler (parser : http_parser_t) : M (Z * http_parser_t) :=
  '(status, parser) ← parser_parse junk getaddrinfo inet_pton gIF_INDEX parser;
  let failed := mret (-1, set_msg (httpmsg_destroy (p_msg parser)) parser) in
  let checked := if valid_ssdp_msg (p_msg parser) then mret (0, parser) else failed in
  match status with
  | PARSE_FAILURE =>
      if negb (m_method (p_msg parser) =? HTTPMETHOD_NOTIFY) || negb (p_valid_ssdp_notify_hack parser)
      then failed else checked
  | PARSE_SUCCESS => checked
  | _ => failed
  end.

(** The two handlers are [ssdp_handle_ctrlpt_msg], with timeout 0, and
    [ssdp_handle_device_request]; [A] is the state they work on. *)
Definition ssdp_event_handler_thread {A} (handle_ctrlpt_msg handle_device_request :
      http_message_t -> sockaddr -> A -> M A)
    (parser : http_parser_t) (dest_addr : sockaddr) (a : A) : M A :=
  '(rc, parser) ← start_event_handler parser;
  if negb (rc =? 0) then mret a
  else
    let hmsg := p_msg parser in
    if (m_method hmsg =? HTTPMETHOD_NOTIFY) || (m_request_method hmsg =? HTTPMETHOD_MSEARCH)
    then handle_ctrlpt_msg hmsg dest_addr a
    else handle_device_request hmsg dest_addr a.

Definition BUFSIZE : Z := 2500.

(** [reply] says whether the socket is one of the sockets that requests were
    sent on, [datagram] what [recvfrom] answers ([None] for an error).  The
    data of the job, if there is one, is what the thread gets. *)
Definition readFromSSDPSocket (reply : bool) (datagram : option (list Z * sockaddr))
    : M (Z * option (http_parser_t * sockaddr)) :=
  ok ← malloc_ok;
  data ←
    (if negb ok then mret None
     else
       let parser := if reply then parser_response_init HTTPMETHOD_MSEARCH else parser_request_init in
       '(rc, b) ← membuffer_set_size junk (m_msg_buf (p_msg parser)) BUFSIZE;
       mret (if rc =? 0 then Some (on_msg (set_msg_buf b) parser) else None));
  match datagram with
  | Some (d, from) =>
      let requestBuf := ztake (BUFSIZE - 1) d in
      let byteReceived := zlen requestBuf in
      if byteReceived <=? 0 then mret (-1, None)
      else
      match data with
      | None => mret (0, None)
      | Some parser =>
          let b := m_msg_buf (p_msg parser) in
          block ← liftO (buf ← mb_buf b; mem_write buf 0 (requestBuf ++ [0]));
          let b := Membuffer (Some block) (mb_length b + byteReceived) (mb_capacity b)
                     (mb_size_inc b) in
          mret (0, Some (on_msg (set_msg_buf b) parser, from))
      end
  | None => mret (-1, None)
  end.
End Ssdp.
