(* ===== verification/HandleTable.v ===== *)
(** The handle table of [upnp/src/api/upnpapi.c].

    A handle is an index into [HandleTable]; index 0 is not used.  A pointer to
    a [struct Handle_Info] is its handle.  The state of the API that the lookups
    read is the table and the two flags that say whether a device is registered
    for an address family. *)

From S2P Require Import Prelude CString FreeList Uri IxmlNode GenaQueue ServiceTable Ssdp.

Definition NUM_HANDLE : Z := 200.
Definition UPNP_E_INVALID_HANDLE : Z := -100.
Definition UPNP_E_OUTOF_HANDLE : Z := -102.

Inductive Upnp_Handle_Type := HND_INVALID | HND_CLIENT | HND_DEVICE.
#[global] Instance Upnp_Handle_Type_eq_dec : EqDecision Upnp_Handle_Type.
Proof. solve_decision. Defined.

(** A subscription of a control point. *)
Record GenlibClientSubscription := MkClientSub {
  cl_RenewEventId : Z;
  cl_SID : list Z;
  cl_ActualSID : list Z;
  cl_EventURL : list Z
}.

(** A search of a control point; [sa_searchTarget] is [None] for [NULL]. *)
Record SsdpSearchArg := MkSearchArg {
  sa_timeoutEventId : Z;
  sa_searchTarget : option (list Z);
  sa_cookie : Z;
  sa_requestType : SsdpSearchType
}.

(** [Callback] and [Cookie] are opaque addresses. *)
Record Handle_Info := MkHandle {
  hi_HType : Upnp_Handle_Type;
  hi_Callback : Z;
  hi_Cookie : Z;
  hi_aliasInstalled : Z;
  hi_DescURL : list Z;
  hi_LowerDescURL : list Z;
  hi_DescXML : list Z;
  hi_MaxAge : Z;
  hi_PowerState : Z;
  hi_SleepPeriod : Z;
  hi_RegistrationState : Z;
  hi_DescDocument : ptr;
  hi_DeviceList : IXML_NodeList;
  hi_ServiceList : IXML_NodeList;
  hi_ServiceTable : service_table;
  hi_MaxSubscriptions : Z;
  hi_MaxSubscriptionTimeOut : Z;
  hi_DeviceAf : Z;
  hi_ClientSubList : list GenlibClientSubscription;
  hi_SsdpSearchList : list SsdpSearchArg
}.

Definition set_ServiceTable (v : service_table) (i : Handle_Info) : Handle_Info :=
  MkHandle (hi_HType i) (hi_Callback i) (hi_Cookie i) (hi_aliasInstalled i) (hi_DescURL i)
    (hi_LowerDescURL i) (hi_DescXML i) (hi_MaxAge i) (hi_PowerState i) (hi_SleepPeriod i)
    (hi_RegistrationState i) (hi_DescDocument i) (hi_DeviceList i) (hi_ServiceList i) v
    (hi_MaxSubscriptions i) (hi_MaxSubscriptionTimeOut i) (hi_DeviceAf i) (hi_ClientSubList i)
    (hi_SsdpSearchList i).
Definition set_SsdpSearchList (v : list SsdpSearchArg) (i : Handle_Info) : Handle_Info :=
  MkHandle (hi_HType i) (hi_Callback i) (hi_Cookie i) (hi_aliasInstalled i) (hi_DescURL i)
    (hi_LowerDescURL i) (hi_DescXML i) (hi_MaxAge i) (hi_PowerState i) (hi_SleepPeriod i)
    (hi_RegistrationState i) (hi_DescDocument i) (hi_DeviceList i) (hi_ServiceList i)
    (hi_ServiceTable i) (hi_MaxSubscriptions i) (hi_MaxSubscriptionTimeOut i) (hi_DeviceAf i)
    (hi_ClientSubList i) v.

Record api := MkApi {
  HandleTable : gmap Z Handle_Info;
  UpnpSdkDeviceRegisteredV4 : Z;
  UpnpSdkDeviceregisteredV6 : Z
}.

Implicit Types (a : api) (hnd : Z).

Definition set_handle hnd (v : option Handle_Info) a : api :=
  MkApi (partial_alter (fun _ => v) hnd (HandleTable a)) (UpnpSdkDeviceRegisteredV4 a)
    (UpnpSdkDeviceregisteredV6 a).

(** ** Operations *)

(** The handles from [i] on, [n] of them. *)
Fixpoint free_handle_loop (n : nat) a (i : Z) : Z :=
  match n with
  | O => UPNP_E_OUTOF_HANDLE
  | S n' => match HandleTable a !! i with
            | Some _ => free_handle_loop n' a (i + 1)
            | None => i
            end
  end.
Definition GetFreeHandle a : Z := free_handle_loop (Z.to_nat (NUM_HANDLE - 1)) a 1.

Definition FreeHandle hnd a : Z * api :=
  if (hnd <? 1) || (NUM_HANDLE <=? hnd) then (UPNP_E_INVALID_HANDLE, a)
  else match HandleTable a !! hnd with
       | None => (UPNP_E_INVALID_HANDLE, a)
       | Some _ => (0, set_handle hnd None a)
       end.

(** The type, and [*HndInfo] if it was written. *)
Definition GetHandleInfo hnd a : Upnp_Handle_Type * option Handle_Info :=
  if (hnd <? 1) || (NUM_HANDLE <=? hnd) then (HND_INVALID, None)
  else match HandleTable a !! hnd with
       | None => (HND_INVALID, None)
       | Some info => (hi_HType info, Some info)
       end.

(** The loops over the handles from [i] on: the first one [ok] accepts. *)
Fixpoint handle_loop {A} (ok : Z -> Handle_Info -> option (option A)) (n : nat) a (i : Z)
    : option (option (Z * A)) :=
  match n with
  | O => Some None
  | S n' =>
      r ← match GetHandleInfo i a with
          | (_, Some info) => ok i info
          | _ => Some None
          end;
      match r with
      | Some x => Some (Some (i, x))
      | None => handle_loop ok n' a (i + 1)
      end
  end.

Definition is_type (t : Upnp_Handle_Type) (info : Handle_Info) : bool :=
  bool_decide (hi_HType info = t).

(** The type and [*client_handle_out]. *)
Definition GetClientHandleInfo a : option (Upnp_Handle_Type * Z) :=
  r ← handle_loop (fun _ info => Some (if is_type HND_CLIENT info then Some tt else None))
        (Z.to_nat (NUM_HANDLE - 1)) a 1;
  Some (match r with Some (i, _) => (HND_CLIENT, i) | None => (HND_INVALID, -1) end).

Definition none_registered (AddressFamily : Z) a : bool :=
  (AddressFamily =? AF_INET) && (UpnpSdkDeviceRegisteredV4 a =? 0)
  || (AddressFamily =? AF_INET6) && (UpnpSdkDeviceregisteredV6 a =? 0).

Definition GetDeviceHandleInfo (start AddressFamily : Z) a : option (Upnp_Handle_Type * Z) :=
  if none_registered AddressFamily a then Some (HND_INVALID, -1)
  else if (start <? 0) || (NUM_HANDLE - 1 <=? start) then Some (HND_INVALID, -1)
  else
    r ← handle_loop (fun _ info =>
            Some (if is_type HND_DEVICE info && (hi_DeviceAf info =? AddressFamily)
                  then Some tt else None))
          (Z.to_nat (NUM_HANDLE - (start + 1))) a (start + 1);
    Some (match r with Some (i, _) => (HND_DEVICE, i) | None => (HND_INVALID, -1) end).

Section Path.
Context (getaddrinfo : list Z -> option (list sockaddr))
  (inet_pton : Z -> list Z -> option (list Z)) (gIF_INDEX : Z).

(** The type, the handle and the service. *)
Definition GetDeviceHandleInfoForPath (path : option (list Z)) (AddressFamily : Z) a
    : option (Upnp_Handle_Type * Z * option nat) :=
  if none_registered AddressFamily a then Some (HND_INVALID, -1, None)
  else
    r ← handle_loop (fun _ info =>
            if is_type HND_DEVICE info && (hi_DeviceAf info =? AddressFamily) then
              s ← FindServiceControlURLPath getaddrinfo inet_pton gIF_INDEX
                    (Some (hi_ServiceTable info)) path;
              match s with
              | Some _ => Some s
              | None => FindServiceEventURLPath getaddrinfo inet_pton gIF_INDEX
                          (Some (hi_ServiceTable info)) path
              end
            else Some None)
          (Z.to_nat (NUM_HANDLE - 1)) a 1;
    Some (match r with
          | Some (i, s) => (HND_DEVICE, i, Some s)
          | None => (HND_INVALID, -1, None)
          end).
End Path.

(** ** Lookups *)

(** The loops find the first handle that is accepted. *)
Lemma handle_loop_spec {A} (ok : Z -> Handle_Info -> option (option A)) n a i :
  (forall j info, is_Some (ok j info)) -> 1 <= i -> i + Z.of_nat n <= NUM_HANDLE ->
  let accepted j := info ← HandleTable a !! j; mjoin (ok j info) in
  exists r, handle_loop ok n a i = Some r /\
    match r with
    | Some (j, x) => i <= j < i + Z.of_nat n /\ accepted j = Some x /\
                     forall k, i <= k < j -> accepted k = None
    | None => forall k, i <= k < i + Z.of_nat n -> accepted k = None
    end.
Proof.
  intros Hok. revert i. induction n as [|n IH]; intros i Hi Hn accepted; cbn [handle_loop].
  { exists None. split; [done|]. lia. }
  unfold GetHandleInfo. replace ((i <? 1) || (NUM_HANDLE <=? i)) with false
    by (symmetry; apply orb_false_iff; split; [apply Z.ltb_ge|apply Z.leb_gt]; lia).
  assert (exists r, match HandleTable a !! i with
                    | Some info => ok i info | None => Some None end = Some r /\ r = accepted i)
    as (r & Er & Ea).
  { unfold accepted. destruct (HandleTable a !! i) as [info|]; cbn; [|by eexists].
    destruct (Hok i info) as [[x|] ->]; by eexists. }
  replace (match match HandleTable a !! i with
                 | Some info => (hi_HType info, Some info)
                 | None => (HND_INVALID, None) end with
           | (_, Some info) => ok i info | (_, None) => Some None end) with (Some r)
    by (rewrite <- Er; by destruct (HandleTable a !! i)).
  cbn [mbind option_bind]. destruct r as [x|].
  - exists (Some (i, x)). split; [done|]. split; [lia|]. split; [done|]. lia.
  - destruct (IH (i + 1)) as (r & -> & Hr); [lia..|]. exists r. split; [done|].
    destruct r as [[j x]|].
    + destruct Hr as (? & ? & Hk). split; [lia|]. split; [done|]. intros k ?.
      destruct (decide (k = i)) as [->|]; [done|]. apply Hk. lia.
    + intros k ?. destruct (decide (k = i)) as [->|]; [done|]. apply Hr. lia.
Qed.

Lemma free_handle_loop_spec n a i :
  match free_handle_loop n a i with
  | r => (r = UPNP_E_OUTOF_HANDLE /\ forall k, i <= k < i + Z.of_nat n -> is_Some (HandleTable a !! k))
      \/ (i <= r < i + Z.of_nat n /\ HandleTable a !! r = None)
  end.
Proof.
  revert i. induction n as [|n IH]; intros i; cbn [free_handle_loop]; [left; split; [done|lia]|].
  destruct (HandleTable a !! i) eqn:E; [|right; split; [lia|done]].
  destruct (IH (i + 1)) as [[Hr Hk]|[Hr ?]]; [left|right].
  - split; [done|]. intros k ?. destruct (decide (k = i)) as [->|]; [by rewrite E|]. apply Hk. lia.
  - split; [lia|done].
Qed.

(** [GetFreeHandle] yields a handle that is not in use, or
    [UPNP_E_OUTOF_HANDLE] when all of them are; the entry stored under it is
    what [GetHandleInfo] then finds, until [FreeHandle] gives the handle back,
    and no other handle is affected. *)
Lemma handles_spec a info :
  let hnd := GetFreeHandle a in
  (hnd = UPNP_E_OUTOF_HANDLE /\
     forall k, 1 <= k < NUM_HANDLE -> is_Some (HandleTable a !! k)) \/
  (1 <= hnd < NUM_HANDLE /\ HandleTable a !! hnd = None /\
   let a' := set_handle hnd (Some info) a in
   GetHandleInfo hnd a' = (hi_HType info, Some info) /\
   (forall k, k <> hnd -> GetHandleInfo k a' = GetHandleInfo k a) /\
   FreeHandle hnd a' = (0, a)).
Proof.
  cbn zeta. unfold GetFreeHandle.
  destruct (free_handle_loop_spec (Z.to_nat (NUM_HANDLE - 1)) a 1) as [[Hr Hk]|[Hr Hn]].
  { left. split; [done|]. intros k ?. apply Hk. unfold NUM_HANDLE in *. lia. }
  set (hnd := free_handle_loop _ a 1) in *.
  assert (1 <= hnd < NUM_HANDLE) as Hb by (unfold NUM_HANDLE in *; lia).
  right. split; [done|]. split; [done|].
  assert ((hnd <? 1) || (NUM_HANDLE <=? hnd) = false) as Hf
    by (apply orb_false_iff; split; [apply Z.ltb_ge|apply Z.leb_gt]; lia).
  split_and!.
  - unfold GetHandleInfo, set_handle. rewrite Hf. cbn. by rewrite lookup_partial_alter_eq.
  - intros k Hk. unfold GetHandleInfo, set_handle. cbn. by rewrite lookup_partial_alter_ne.
  - unfold FreeHandle, set_handle. rewrite Hf. cbn. rewrite lookup_partial_alter_eq.
    f_equal. destruct a as [t v4 v6]; cbn in *. f_equal. apply map_eq. intros k.
    destruct (decide (k = hnd)) as [->|].
    + by rewrite lookup_partial_alter_eq.
    + by rewrite !lookup_partial_alter_ne.
Qed.
