(* ===== verification/SsdpDevice.v ===== *)
(** A device announces itself and answers searches:
    [upnp/src/ssdp/ssdp_device.c] and [AdvertiseAndReply] of
    [upnp/src/ssdp/ssdp_server.c].

    The network is what the system answers to the coming calls of [socket] and
    [sendto] (an exhausted list stands for success), the number of open sockets
    and the packets that were sent, with their destinations. *)

From S2P Require Import Prelude CString FreeList MemBuffer StrIntMap HttpTables Uri Scanner HttpMessage HttpParser Sock HttpMake IxmlNode IxmlDocument GenaQueue ServiceTable HandleTable Ssdp.

Definition INET6_ADDRSTRLEN : Z := 46.
Definition UPNP_E_OUTOF_SOCKET : Z := -202.
Definition UPNP_E_SOCKET_WRITE : Z := -201.
Definition UPNP_E_NETWORK_ERROR : Z := -200.
Definition NUM_SSDP_COPY : Z := 2.
Definition MX_FUDGE_FACTOR : Z := 10.
Definition X_USER_AGENT : list Z := Eval vm_compute in cs "redsonic".
(** The value of the header OPT; 34 is the quotation mark. *)
Definition OPT : list Z :=
  Eval vm_compute in [34] ++ cs "http://schemas.upnp.org/upnp/1/0/" ++ [34] ++ cs "; ns=01".

Inductive msg_type := MSGTYPE_SHUTDOWN | MSGTYPE_ADVERTISEMENT | MSGTYPE_REPLY.
#[global] Instance msg_type_eq_dec : EqDecision msg_type.
Proof. solve_decision. Defined.

Record udp := MkUdp {
  ud_socket : list bool;
  ud_sendto : list bool;
  ud_open : Z;
  ud_sent : list (sockaddr * list Z)
}.

(** UPnP Low Power. *)
Record low_power := MkPower { PowerState : Z; SleepPeriod : Z; RegistrationState : Z }.

Record SsdpSearchReply := MkReply {
  sr_MaxAge : Z;
  sr_handle : Z;
  sr_dest_addr : sockaddr;
  sr_event : SsdpEvent
}.

Implicit Types (u : udp) (ps : low_power).

(** ** Sockets *)

(** [socket]: whether there is one. *)
Definition open_socket u : bool * udp :=
  let ok := default true (head (ud_socket u)) in
  (ok, MkUdp (tail (ud_socket u)) (ud_sendto u) (if ok then ud_open u + 1 else ud_open u) (ud_sent u)).
Definition UpnpCloseSocket u : udp :=
  MkUdp (ud_socket u) (ud_sendto u) (ud_open u - 1) (ud_sent u).
Definition sendto (packet : list Z) (DestAddr : sockaddr) u : bool * udp :=
  let ok := default true (head (ud_sendto u)) in
  (ok, MkUdp (ud_socket u) (tail (ud_sendto u)) (ud_open u)
         (if ok then ud_sent u ++ [(DestAddr, c_str packet)] else ud_sent u)).

Fixpoint send_packets (DestAddr : sockaddr) (RqPacket : list (list Z)) u : Z * udp :=
  match RqPacket with
  | [] => (UPNP_E_SUCCESS, u)
  | packet :: RqPacket' =>
      let '(ok, u) := sendto packet DestAddr u in
      if ok : bool then send_packets DestAddr RqPacket' u else (UPNP_E_SOCKET_WRITE, u)
  end.

Section Device.
Context (junk : Z).
Context (getaddrinfo : list Z -> option (list sockaddr))
  (inet_pton : Z -> list Z -> option (list Z)) (gIF_INDEX : Z).
Context (sysname release UPNP_VERSION_STRING : list Z).
Context (gmtime : Z -> option tm) (now : Z) (codes : statcodes).
(** The address of the interface, the UUID of the SDK, and what an address on
    the stack holds before it is set. *)
Context (gIF_IPV4 gUpnpSdkNLSuuid stack : list Z).
Local Abbreviation make :=
  (http_MakeMessage junk sysname release UPNP_VERSION_STRING gmtime now codes).

Definition NewRequestHandler (DestAddr : sockaddr) (RqPacket : list (list Z)) u : Z * udp :=
  if (0 <? strlen gIF_IPV4) && negb (bool_decide (is_Some (inet_pton AF_INET gIF_IPV4)))
  then (UPNP_E_INVALID_PARAM, u)
  else
    let '(ok, u) := open_socket u in
    if negb ok then (UPNP_E_OUTOF_SOCKET, u)
    else
      let '(ret, u) :=
        if (ss_family DestAddr =? AF_INET) || (ss_family DestAddr =? AF_INET6)
        then send_packets DestAddr RqPacket u else (UPNP_E_NETWORK_ERROR, u) in
      (ret, UpnpCloseSocket u).

(** The text between the brackets; undefined when it does not fit into the
    [INET6_ADDRSTRLEN] bytes of [address]. *)
Definition extractIPv6address (url : list Z) : option (option (list Z)) :=
  let url := c_str url in
  let i := span (fun c => negb (c =? $"[")) url in
  if i =? zlen url then Some None
  else
    let rest := zdrop (i + 1) url in
    let j := span (fun c => negb (c =? $"]")) rest in
    if INET6_ADDRSTRLEN <? j then None
    else if j =? zlen rest then Some None
    else if INET6_ADDRSTRLEN <=? j then None
    else Some (Some (ztake j rest)).

(** [address] stays as it was when [inet_pton] refuses the text. *)
Definition isUrlV6UlaGua (descdocUrl : list Z) : option bool :=
  address ← extractIPv6address descdocUrl;
  Some (match address with
        | Some a => negb (is_linklocal (default stack (inet_pton AF_INET6 a)))
        | None => false
        end).

(** ** Packets *)

Definition lit (s : list Z) : arg := AStr (Some s).

Definition power_args ps : list arg :=
  [lit_arg "Powerstate: "; AInt (PowerState ps); lit_arg "SleepPeriod: "; AInt (SleepPeriod ps);
   lit_arg "RegistrationState: "; AInt (RegistrationState ps)].

(** The headers OPT and 01-NLS ([UPNP_HAVE_OPTSSDP] is on). *)
Definition opt_args : list arg :=
  [lit_arg "OPT: "; lit OPT; lit_arg "01-NLS: "; lit gUpnpSdkNLSuuid].

Definition reply_args (nt usn location : list Z) (duration : Z) : list arg :=
  [AInt HTTP_OK; lit_arg "CACHE-CONTROL: max-age="; AInt duration; lit_arg "EXT:";
   lit_arg "LOCATION: "; lit location] ++ opt_args ++
  [lit X_USER_AGENT; lit_arg "ST: "; lit nt; lit_arg "USN: "; lit usn].

Definition notify_args (host nts nt usn location : list Z) (duration : Z) : list arg :=
  [AInt HTTPMETHOD_NOTIFY; lit_arg "*"; ASize 1; lit_arg "HOST: "; lit host; lit_arg ":";
   AInt SSDP_PORT; lit_arg "CACHE-CONTROL: max-age="; AInt duration;
   lit_arg "LOCATION: "; lit location] ++ opt_args ++
  [lit_arg "NT: "; lit nt; lit_arg "NTS: "; lit nts; lit X_USER_AGENT; lit_arg "USN: "; lit usn].

Definition host_text (AddressFamily : Z) (location : list Z) : option (list Z) :=
  if AddressFamily =? AF_INET then Some SSDP_IP
  else
    ula ← isUrlV6UlaGua location;
    Some (cs "[" ++ (if ula : bool then SSDP_IPV6_SITELOCAL else SSDP_IPV6_LINKLOCAL) ++ cs "]").

(** The packet, [None] for [NULL]. *)
Definition CreateServicePacket (type : msg_type) (nt usn location : list Z)
    (duration AddressFamily : Z) ps : M (option (list Z)) :=
  let buf := Membuffer None 0 0 30 in
  '(ret_code, buf) ←
    (match type with
     | MSGTYPE_REPLY =>
         let args := reply_args nt usn location duration in
         if 0 <? PowerState ps
         then make buf 1 1 "RsdcDscsscsscsscSXcsscsscsdcsdcsdcc" (args ++ power_args ps)
         else make buf 1 1 "RsdcDscsscsscsscSXcsscsscc" args
     | _ =>
         let nts := match type with
                    | MSGTYPE_ADVERTISEMENT => cs "ssdp:alive"
                    | _ => cs "ssdp:byebye"
                    end in
         host ← liftO (host_text AddressFamily location);
         let args := notify_args host nts nt usn location duration in
         if 0 <? PowerState ps
         then make buf 1 1 "QsssdcsdcsscsscsscsscsscSXcsscsdcsdcsdcc" (args ++ power_args ps)
         else make buf 1 1 "QsssdcsdcsscsscsscsscsscSXcsscc" args
     end);
  mret (if negb (ret_code =? 0) then None else fst (membuffer_detach buf)).

(** [snprintf] into an array of [LINE_SIZE] bytes, or the error handler. *)
Definition line_text (s : list Z) : option (list Z) :=
  let '(rc, text) := snprintf LINE_SIZE s in
  if LINE_SIZE <=? rc then None else Some text.
Definition usn_text (Udn kind : list Z) : option (list Z) :=
  line_text (c_str Udn ++ cs "::" ++ c_str kind).
Definition ROOT : list Z := Eval vm_compute in cs "upnp:rootdevice".

(** The check of the messages, and [NewRequestHandler] when all are there. *)
Definition send_all (DestAddr : sockaddr) (msgs : list (option (list Z))) u : Z * udp :=
  match mapM (fun m => m) msgs with
  | None => (UPNP_E_OUTOF_MEMORY, u)
  | Some packets => NewRequestHandler DestAddr packets u
  end.

(** The multicast address; the array is zero before it is set. *)
Definition multicast_addr (AddressFamily : Z) (Location : list Z) : option sockaddr :=
  if AddressFamily =? AF_INET then
    Some (MkSockaddr AF_INET SSDP_PORT (default (sin_addr no_addr) (inet_pton AF_INET SSDP_IP)) 0)
  else if AddressFamily =? AF_INET6 then
    ula ← isUrlV6UlaGua Location;
    Some (MkSockaddr AF_INET6 SSDP_PORT
      (default (sin_addr no_addr)
         (inet_pton AF_INET6 (if ula : bool then SSDP_IPV6_SITELOCAL else SSDP_IPV6_LINKLOCAL)))
      gIF_INDEX)
  else Some no_addr.

(** ** Messages of a device *)

(** The messages that say that a device is there, or gone. *)
Definition device_messages (type : msg_type) (DevType : list Z) (RootDev : bool)
    (Udn Location : list Z) (Duration AddressFamily : Z) ps u : M (Z * udp) :=
  DestAddr ← liftO (multicast_addr AddressFamily Location);
  let packet nt usn := CreateServicePacket type nt usn Location Duration AddressFamily ps in
  match (if RootDev then usn_text Udn ROOT else Some []) with
  | None => mret (UPNP_E_OUTOF_MEMORY, u)
  | Some root_usn =>
      msg0 ← (if RootDev then packet ROOT root_usn else mret None);
      msg1 ← packet Udn Udn;
      match usn_text Udn DevType with
      | None => mret (UPNP_E_OUTOF_MEMORY, u)
      | Some Mil_Usn =>
          msg2 ← packet DevType Mil_Usn;
          mret (send_all DestAddr ((if RootDev then [msg0] else []) ++ [msg1; msg2]) u)
      end
  end.
Definition DeviceAdvertisement := device_messages MSGTYPE_ADVERTISEMENT.
Definition DeviceShutdown := device_messages MSGTYPE_SHUTDOWN.

Definition SendReply (DestAddr : sockaddr) (DevType : list Z) (RootDev : bool)
    (Udn Location : list Z) (Duration : Z) (ByType : bool) ps u : M (Z * udp) :=
  let packet nt usn :=
    msg ← CreateServicePacket MSGTYPE_REPLY nt usn Location Duration (ss_family DestAddr) ps;
    mret (send_all DestAddr [msg] u) in
  let failed := mret (UPNP_E_OUTOF_MEMORY, u) in
  if RootDev then
    match usn_text Udn ROOT with Some Mil_Usn => packet ROOT Mil_Usn | None => failed end
  else if negb ByType then packet Udn Udn
  else match usn_text Udn DevType with Some Mil_Usn => packet DevType Mil_Usn | None => failed end.

Definition DeviceReply (DestAddr : sockaddr) (DevType : list Z) (RootDev : bool)
    (Udn Location : list Z) (Duration : Z) ps u : M (Z * udp) :=
  let packet nt usn :=
    CreateServicePacket MSGTYPE_REPLY nt usn Location Duration (ss_family DestAddr) ps in
  let failed := mret (UPNP_E_OUTOF_MEMORY, u) in
  match (if RootDev then usn_text Udn ROOT else Some []) with
  | None => failed
  | Some root_usn =>
      szReq0 ← (if RootDev then packet ROOT root_usn else mret None);
      match line_text (c_str Udn) with
      | None => failed
      | Some udn =>
          szReq1 ← packet udn udn;
          match line_text (c_str DevType), usn_text Udn DevType with
          | Some Mil_Nt, Some Mil_Usn =>
              szReq2 ← packet Mil_Nt Mil_Usn;
              mret (send_all DestAddr ((if RootDev then [szReq0] else []) ++ [szReq1; szReq2]) u)
          | _, _ => failed
          end
      end
  end.

(** The messages that say that a service is there, or gone. *)
Definition service_message (type : msg_type) (Udn ServType Location : list Z)
    (Duration AddressFamily : Z) ps u : M (Z * udp) :=
  DestAddr ← liftO (multicast_addr AddressFamily Location);
  match usn_text Udn ServType with
  | None => mret (UPNP_E_OUTOF_MEMORY, u)
  | Some Mil_Usn =>
      msg ← CreateServicePacket type ServType Mil_Usn Location Duration AddressFamily ps;
      mret (send_all DestAddr [msg] u)
  end.
Definition ServiceAdvertisement := service_message MSGTYPE_ADVERTISEMENT.
Definition ServiceShutdown := service_message MSGTYPE_SHUTDOWN.

Definition ServiceReply (DestAddr : sockaddr) (ServType Udn Location : list Z) (Duration : Z) ps u
    : M (Z * udp) :=
  match usn_text Udn ServType with
  | None => mret (UPNP_E_OUTOF_MEMORY, u)
  | Some Mil_Usn =>
      msg ← CreateServicePacket MSGTYPE_REPLY ServType Mil_Usn Location Duration
              (ss_family DestAddr) ps;
      mret (send_all DestAddr [msg] u)
  end.

(** ** Announcing and answering: [AdvertiseAndReply] *)

(** The loops over the items of a node list, until there is none. *)
Fixpoint item_loop {S} (body : Z -> loc -> S -> M S) (fuel : nat) (list : IXML_NodeList) (i : Z)
    (s : S) : M S :=
  match fuel with
  | O => running
  | S fuel' =>
      match ixmlNodeList_item list i with
      | None => mret s
      | Some node => s ← body i node s; item_loop body fuel' list (i + 1) s
      end
  end.
Definition for_items {S} (body : Z -> loc -> S -> M S) (list : IXML_NodeList) (s : S) : M S :=
  item_loop body (Datatypes.S (length list)) list 0 s.

(** The text of the first element of that name, as far as it fits into an array
    of 100 characters. *)
Definition first_text (st : nodes) (element : ptr) (tagName : list Z) : M (option (list Z)) :=
  nodeList ← ixmlElement_getElementsByTagName st element (DStr tagName);
  match ixmlNodeList_item nodeList 0 with
  | None => mret None
  | Some node =>
      textNode ← liftO (ixmlNode_getFirstChild st (Some node));
      value ← liftO (ixmlNode_getNodeValue st textNode);
      match value with
      | DNull => mret None
      | _ => tmpStr ← liftO (str_of value); mret (Some (ztake 99 (c_str tmpStr)))
      end
  end.

(** Whether a device or service of type [have] answers a search for [want]:
    [Some true] with the description of the lower version. *)
Definition type_matches (want have : list Z) : option (option bool) :=
  let n := to_size (strlen want - 2) in
  if negb (strncasecmp want have (Z.min n (strlen want + 1)) =? 0) then Some None
  else
    tail_ ← strrchr (c_str want) ($":");
    let version := atoi (tail tail_) in
    last_ ← (if strlen have =? 0 then None else Some (zdrop (strlen have - 1) (c_str have)));
    let own := atoi last_ in
    Some (if version <? own then Some true else if version =? own then Some false else None).

(** The siblings from [node] on, up to the one that is named "serviceList". *)
Fixpoint service_list (fuel : nat) (st : nodes) (node : ptr) : M ptr :=
  match fuel with
  | O => running
  | S fuel' =>
      match node with
      | None => mret None
      | Some _ =>
          name ← liftO (ixmlNode_getNodeName st node);
          name ← liftO (str_of name);
          if strncmp name (cs "serviceList") 12 =? 0 then mret node
          else next ← liftO (ixmlNode_getNextSibling st node); service_list fuel' st next
      end
  end.

(** What the call is for. *)
Inductive purpose :=
| Advertise
| Shutdown
| Reply (SearchType : SsdpSearchType) (DestAddr : sockaddr)
    (DeviceType DeviceUDN ServiceType : list Z).

Section Announce.
Context (SInfo : Handle_Info) (p : purpose) (Exp : Z).
Let ps : low_power :=
  MkPower (hi_PowerState SInfo) (hi_SleepPeriod SInfo) (hi_RegistrationState SInfo).
Let sent (m : M (Z * udp)) : M udp := '(_, u) ← m; mret u.

(** What is sent for a device; [root] says that it is the first one. *)
Definition device_part (root : bool) (devType UDNstr : list Z) u : M udp :=
  match p with
  | Advertise =>
      sent (DeviceAdvertisement devType root UDNstr (hi_DescURL SInfo) Exp (hi_DeviceAf SInfo) ps u)
  | Shutdown =>
      sent (DeviceShutdown devType root UDNstr (hi_DescURL SInfo) Exp (hi_DeviceAf SInfo) ps u)
  | Reply SearchType DestAddr DeviceType DeviceUDN _ =>
      let reply type root url byType :=
        sent (SendReply DestAddr type root UDNstr url (hi_MaxAge SInfo) byType ps u) in
      match SearchType with
      | SSDP_ALL =>
          sent (DeviceReply DestAddr devType root UDNstr (hi_DescURL SInfo) (hi_MaxAge SInfo) ps u)
      | SSDP_ROOTDEVICE =>
          if root then reply devType true (hi_DescURL SInfo) false else mret u
      | SSDP_DEVICEUDN =>
          if negb (strlen DeviceUDN =? 0) && (strcasecmp DeviceUDN UDNstr =? 0)
          then reply devType false (hi_DescURL SInfo) false else mret u
      | SSDP_DEVICETYPE =>
          m ← liftO (type_matches DeviceType devType);
          match m with
          | Some true => reply DeviceType false (hi_LowerDescURL SInfo) true
          | Some false => reply DeviceType false (hi_DescURL SInfo) true
          | None => mret u
          end
      | _ => mret u
      end
  end.

(** What is sent for a service. *)
Definition service_part (UDNstr servType : list Z) u : M udp :=
  match p with
  | Advertise =>
      sent (ServiceAdvertisement UDNstr servType (hi_DescURL SInfo) Exp (hi_DeviceAf SInfo) ps u)
  | Shutdown =>
      sent (ServiceShutdown UDNstr servType (hi_DescURL SInfo) Exp (hi_DeviceAf SInfo) ps u)
  | Reply SearchType DestAddr _ _ ServiceType =>
      match SearchType with
      | SSDP_ALL =>
          sent (ServiceReply DestAddr servType UDNstr (hi_DescURL SInfo) (hi_MaxAge SInfo) ps u)
      | SSDP_SERVICE =>
          m ← liftO (type_matches ServiceType servType);
          let reply url :=
            sent (SendReply DestAddr ServiceType false UDNstr url (hi_MaxAge SInfo) true ps u) in
          match m with
          | Some true => reply (hi_LowerDescURL SInfo)
          | Some false => reply (hi_DescURL SInfo)
          | None => mret u
          end
      | _ => mret u
      end
  end.

(** The body of the loop over the services of a device. *)
Definition one_service (st : nodes) (UDNstr : list Z) (j : Z) (node : loc) u : M udp :=
  servType ← first_text st (Some node) (cs "serviceType");
  match servType with
  | None => mret u
  | Some servType => service_part UDNstr servType u
  end.

(** The body of the loop over the devices. *)
Definition one_device (st : nodes) (i : Z) (node : loc) u : M udp :=
  devType ← first_text st (Some node) (cs "deviceType");
  match devType with
  | None => mret u
  | Some devType =>
      UDNstr ← first_text st (Some node) (cs "UDN");
      match UDNstr with
      | None => mret u
      | Some UDNstr =>
          u ← device_part (i =? 0) devType UDNstr u;
          child ← liftO (ixmlNode_getFirstChild st (Some node));
          list ← service_list (S (size st)) st child;
          match list with
          | None => mret u
          | Some _ =>
              nodeList ← ixmlElement_getElementsByTagName st list (DStr (cs "service"));
              for_items (one_service st UDNstr) nodeList u
          end
      end
  end.

(** The loop over the copies. *)
Fixpoint copies (n : nat) (st : nodes) u : M udp :=
  match n with
  | O => mret u
  | S n' => u ← for_items (one_device st) (hi_DeviceList SInfo) u; copies n' st u
  end.
End Announce.

(** The lists of nodes that are read belong to the call. *)
Definition AdvertiseAndReply (p : purpose) (Hnd Exp : Z) (a : api) (st : nodes) u : M (Z * udp) :=
  match GetHandleInfo Hnd a with
  | (HND_DEVICE, Some SInfo) =>
      let n := match p with Reply _ _ _ _ _ => 1 | _ => NUM_SSDP_COPY end in
      u ← copies SInfo p Exp (Z.to_nat n) st u;
      mret (UPNP_E_SUCCESS, u)
  | _ => mret (UPNP_E_INVALID_HANDLE, u)
  end.

Definition advertiseAndReplyThread (arg : SsdpSearchReply) (a : api) (st : nodes) u : M (Z * udp) :=
  let event := sr_event arg in
  AdvertiseAndReply
    (Reply (RequestType event) (sr_dest_addr arg) (DeviceType event) (UDN event)
       (ServiceType event))
    (sr_handle arg) (sr_MaxAge arg) a st u.
End Device.

(** ** Searches: [ssdp_handle_device_request] *)

(** The thread that answers a search, and when: what is given to
    [TimerThreadSchedule]. *)
Definition scheduled : Type := list (Z * SsdpSearchReply).

(** The string a header value is while it is terminated. *)
Definition value_text (hdr_value : memptr) : list Z :=
  ztake (mp_length hdr_value) (mp_buf hdr_value).

Section Request.
(** What other threads do to the table while it is not locked. *)
Context (others : Z -> api -> api).
Context (dest_addr : sockaddr) (event : SsdpEvent).

(** The loop over the devices: [start] is the last one, [rands] are the answers
    of [rand]. *)
Fixpoint device_loop (fuel : nat) (start mx : Z) (rands : list Z) (jobs : scheduled) (a : api)
    : M scheduled :=
  match fuel with
  | O => running
  | S fuel' =>
      '(type, handle) ← liftO (GetDeviceHandleInfo start (ss_family dest_addr) a);
      if negb (bool_decide (type = HND_DEVICE)) then mret jobs
      else
        dev_info ← liftO (HandleTable a !! handle);
        ok ← malloc_ok;
        if negb ok then mret jobs
        else
          let threadArg := MkReply (hi_MaxAge dev_info) handle dest_addr event in
          let mx := if 2 <=? mx then mx - Z.max 1 (Z.quot mx MX_FUDGE_FACTOR) else mx in
          let mx := if mx <? 1 then 1 else mx in
          let replyTime := Z.rem (default 0 (head rands)) mx in
          device_loop fuel' handle mx (tail rands) (jobs ++ [(replyTime, threadArg)])
            (others handle a)
  end.
End Request.

(** 34 is the quotation mark. *)
Definition DISCOVER : list Z := Eval vm_compute in [34] ++ cs "ssdp:discover" ++ [34].

Definition ssdp_handle_device_request (others : Z -> api -> api) (rands : list Z)
    (hmsg : http_message_t) (dest_addr : sockaddr) (a : api) : M scheduled :=
  match httpmsg_find_hdr hmsg HDR_MAN with
  | None => mret []
  | Some (_, man) =>
  if negb (memptr_cmp (value_ptr man) DISCOVER =? 0) then mret []
  else
  match httpmsg_find_hdr hmsg HDR_MX with
  | None => mret []
  | Some (_, hd) =>
  mx ← liftO (raw_to_int (value_ptr hd) 10);
  if mx <? 0 then mret []
  else
  match httpmsg_find_hdr hmsg HDR_ST with
  | None => mret []
  | Some (_, hd) =>
      let '(ret_code, event) := ssdp_request_type (value_text (value_ptr hd)) in
      if ret_code =? -1 then mret []
      else device_loop others dest_addr event (Z.to_nat NUM_HANDLE) 0 mx rands [] a
  end
  end
  end.
