(* ===== verification/SsdpCtrlpt.v ===== *)
(** A control point searches and listens: [upnp/src/ssdp/ssdp_ctrlpt.c],
    [SSDPResultData.c] and the structure of [upnp/src/api/UpnpDiscovery.c].

    A member of a structure whose allocation failed is [None].  What leaves the
    module is recorded: the calls of the application, the jobs given to the
    receive pool, the timeouts that are scheduled and the requests that are
    sent. *)

From S2P Require Import Prelude CString FreeList MemBuffer StrIntMap HttpTables Uri Scanner HttpMessage HttpParser UpnpString GenaQueue ServiceTable HandleTable Ssdp.

Definition COMMAND_LEN : Z := 300.
Definition MIN_SEARCH_TIME : Z := 2.
Definition MAX_SEARCH_TIME : Z := 80.
Definition SSDP_COPIES : nat := 2.
Definition UPNP_E_BUFFER_TOO_SMALL : Z := -106.
Definition UPNP_E_INVALID_ARGUMENT : Z := -501.
Definition UPNP_E_INTERNAL_ERROR : Z := -911.
Definition UPNP_E_INVALID_PARAM : Z := -101.

(** ** Requests *)

(** The test of the space, [strcat], and the rest; the result is the code and
    the string in the array. *)
Definition add_text (size : Z) (buf s : list Z) (k : list Z -> option (Z * list Z))
    : option (Z * list Z) :=
  if size <=? zlen buf + strlen s then Some (UPNP_E_BUFFER_TOO_SMALL, buf)
  else buf ← strcat size buf (c_str s); k buf.

(** [snprintf] into [TempBuf], and the same. *)
Definition add_temp (size : Z) (buf s : list Z) (k : list Z -> option (Z * list Z))
    : option (Z * list Z) :=
  let '(rc, TempBuf) := snprintf COMMAND_LEN s in
  if COMMAND_LEN <=? rc then Some (UPNP_E_INTERNAL_ERROR, buf) else add_text size buf TempBuf k.

Definition line_end : list Z := [13; 10].
Definition COMMAND : list Z := Eval vm_compute in cs "M-SEARCH * HTTP/1.1" ++ line_end.
(** 34 is the quotation mark. *)
Definition MAN : list Z :=
  Eval vm_compute in cs "MAN: " ++ [34] ++ cs "ssdp:discover" ++ [34] ++ line_end.

Definition host_line (v6_host : list Z) (AddressFamily : Z) : option (list Z) :=
  if AddressFamily =? AF_INET then
    Some (cs "HOST: " ++ SSDP_IP ++ cs ":" ++ itoa SSDP_PORT ++ line_end)
  else if AddressFamily =? AF_INET6 then
    Some (cs "HOST: [" ++ v6_host ++ cs "]:" ++ itoa SSDP_PORT ++ line_end)
  else None.

(** Both functions, which differ in the address for IPv6.  The array holds
    [junk] until the command is copied. *)
Definition client_request (v6_host junk : list Z) (RqstBufSize Mx : Z)
    (SearchTarget : option (list Z)) (AddressFamily : Z) : option (Z * list Z) :=
  if RqstBufSize <=? strlen COMMAND then Some (UPNP_E_INTERNAL_ERROR, junk)
  else
    RqstBuf ← strcat RqstBufSize [] COMMAND;
    match host_line v6_host AddressFamily with
    | None => Some (UPNP_E_INVALID_ARGUMENT, RqstBuf)
    | Some host =>
        add_temp RqstBufSize RqstBuf host (fun RqstBuf =>
        add_text RqstBufSize RqstBuf MAN (fun RqstBuf =>
        (if 0 <? Mx then add_temp RqstBufSize RqstBuf (cs "MX: " ++ itoa Mx ++ line_end)
         else fun k => k RqstBuf) (fun RqstBuf =>
        (match SearchTarget with
         | Some st => add_temp RqstBufSize RqstBuf (cs "ST: " ++ c_str st ++ line_end)
         | None => fun k => k RqstBuf
         end) (fun RqstBuf =>
        add_text RqstBufSize RqstBuf line_end (fun RqstBuf => Some (UPNP_E_SUCCESS, RqstBuf))))))
    end.
Definition CreateClientRequestPacket := client_request SSDP_IPV6_LINKLOCAL.
Definition CreateClientRequestPacketUlaGua := client_request SSDP_IPV6_SITELOCAL.

(** ** Data *)

Record UpnpDiscovery := MkDiscovery {
  d_ErrCode : Z;
  d_Expires : Z;
  d_DeviceID : option UpnpString;
  d_DeviceType : option UpnpString;
  d_ServiceType : option UpnpString;
  d_ServiceVer : option UpnpString;
  d_Location : option UpnpString;
  d_Os : option UpnpString;
  d_Date : option UpnpString;
  d_Ext : option UpnpString;
  d_DestAddr : sockaddr
}.

Definition UpnpDiscovery_new : M (option UpnpDiscovery) :=
  ok ← malloc_ok;
  if negb ok then mret None
  else
    id_ ← UpnpString_new; dt ← UpnpString_new; st ← UpnpString_new; sv ← UpnpString_new;
    lo ← UpnpString_new; os ← UpnpString_new; da ← UpnpString_new; ex ← UpnpString_new;
    mret (Some (MkDiscovery 0 0 id_ dt st sv lo os da ex no_addr)).

Definition set_numbers (code expires : Z) (p : UpnpDiscovery) : UpnpDiscovery :=
  MkDiscovery code expires (d_DeviceID p) (d_DeviceType p) (d_ServiceType p) (d_ServiceVer p)
    (d_Location p) (d_Os p) (d_Date p) (d_Ext p) (d_DestAddr p).
Definition set_DestAddr (addr : sockaddr) (p : UpnpDiscovery) : UpnpDiscovery :=
  MkDiscovery (d_ErrCode p) (d_Expires p) (d_DeviceID p) (d_DeviceType p) (d_ServiceType p)
    (d_ServiceVer p) (d_Location p) (d_Os p) (d_Date p) (d_Ext p) addr.

(** The members that are strings. *)
Inductive text_member := DeviceID | Type_ | Service | ServiceVer | Location | Os | Date | Ext.
Definition get_member (m : text_member) (p : UpnpDiscovery) : option UpnpString :=
  match m with
  | DeviceID => d_DeviceID p | Type_ => d_DeviceType p | Service => d_ServiceType p
  | ServiceVer => d_ServiceVer p | Location => d_Location p | Os => d_Os p
  | Date => d_Date p | Ext => d_Ext p
  end.
Definition put_member (m : text_member) (s : option UpnpString) (p : UpnpDiscovery) : UpnpDiscovery :=
  let '(MkDiscovery c x i d t v l o a e addr) := p in
  match m with
  | DeviceID => MkDiscovery c x s d t v l o a e addr
  | Type_ => MkDiscovery c x i s t v l o a e addr
  | Service => MkDiscovery c x i d s v l o a e addr
  | ServiceVer => MkDiscovery c x i d t s l o a e addr
  | Location => MkDiscovery c x i d t v s o a e addr
  | Os => MkDiscovery c x i d t v l s a e addr
  | Date => MkDiscovery c x i d t v l o s e addr
  | Ext => MkDiscovery c x i d t v l o a s addr
  end.

(** [UpnpDiscovery_strcpy_*] and [UpnpDiscovery_strncpy_*]: the result and the
    structure. *)
Definition strcpy_text (m : text_member) (s : list Z) (p : UpnpDiscovery) : M (Z * UpnpDiscovery) :=
  q ← liftO (get_member m p);
  '(rc, q) ← UpnpString_set_String s q;
  mret (rc, put_member m (Some q) p).
Definition strncpy_text (m : text_member) (s : list Z) (n : Z) (p : UpnpDiscovery)
    : M (Z * UpnpDiscovery) :=
  q ← liftO (get_member m p);
  '(rc, q) ← UpnpString_set_StringN s n q;
  mret (rc, put_member m (Some q) p).

(** The members are set in this order until one cannot be. *)
Fixpoint assign_texts (l : list text_member) (q p : UpnpDiscovery) : M (bool * UpnpDiscovery) :=
  match l with
  | [] => mret (true, p)
  | m :: l' =>
      s ← liftO (get_member m q);
      '(ok, p) ← strcpy_text m (UpnpString_get_String s) p;
      if ok =? 0 then mret (false, p) else assign_texts l' q p
  end.
Definition UpnpDiscovery_assign (p q : UpnpDiscovery) : M (bool * UpnpDiscovery) :=
  '(ok, p) ← assign_texts [DeviceID; Type_; Service; ServiceVer; Location; Os; Date; Ext] q
               (set_numbers (d_ErrCode q) (d_Expires q) p);
  mret (ok, if ok : bool then set_DestAddr (d_DestAddr q) p else p).
Definition UpnpDiscovery_dup (q : UpnpDiscovery) : M (option UpnpDiscovery) :=
  p ← UpnpDiscovery_new;
  match p with
  | None => mret None
  | Some p => '(_, p) ← UpnpDiscovery_assign p q; mret (Some p)
  end.

Record SSDPResultData := MkResult {
  r_Param : option UpnpDiscovery;
  r_Cookie : Z;
  r_CtrlptCallback : Z
}.
Definition SSDPResultData_new : M (option SSDPResultData) :=
  ok ← malloc_ok;
  if negb ok then mret None
  else p ← UpnpDiscovery_new; mret (Some (MkResult p 0 0)).
Definition SSDPResultData_set_Param (s : UpnpDiscovery) (p : SSDPResultData) : M SSDPResultData :=
  q ← UpnpDiscovery_dup s;
  mret (match q with
        | Some _ => MkResult q (r_Cookie p) (r_CtrlptCallback p)
        | None => p
        end).

Inductive event_type :=
| UPNP_DISCOVERY_ADVERTISEMENT_ALIVE | UPNP_DISCOVERY_ADVERTISEMENT_BYEBYE
| UPNP_DISCOVERY_SEARCH_RESULT | UPNP_DISCOVERY_SEARCH_TIMEOUT.

(** A call of a [Upnp_FunPtr]. *)
Record callback_call := MkCall {
  c_fun : Z; c_event : event_type; c_param : option UpnpDiscovery; c_cookie : Z
}.

Record SsdpSearchExpArg := MkExpArg { e_handle : Z; e_timeoutEventId : Z }.

(** What was done, and whether the coming calls of [ThreadPoolAdd] succeed (an
    exhausted list stands for success). *)
Record ctrlpt := MkCtrlpt {
  cp_calls : list callback_call;
  cp_jobs : list SSDPResultData;
  cp_adds : list bool
}.
Implicit Types (cp : ctrlpt) (a : api).

Definition call (c : callback_call) cp : ctrlpt :=
  MkCtrlpt (cp_calls cp ++ [c]) (cp_jobs cp) (cp_adds cp).
Definition add_job (d : SSDPResultData) cp : ctrlpt :=
  MkCtrlpt (cp_calls cp)
    (if default true (head (cp_adds cp)) then cp_jobs cp ++ [d] else cp_jobs cp)
    (tail (cp_adds cp)).

(** ** Messages: [ssdp_handle_ctrlpt_msg] *)

(** The job: the application gets the result, which is then released. *)
Definition send_search_result (temp : SSDPResultData) cp : ctrlpt :=
  call (MkCall (r_CtrlptCallback temp) UPNP_DISCOVERY_SEARCH_RESULT (r_Param temp)
          (r_Cookie temp)) cp.

Definition header_ptr (hmsg : http_message_t) (id : Z) : option memptr :=
  (fun h => value_ptr h.2) <$> httpmsg_find_hdr hmsg id.

(** Whether a search is answered by a reply with this ST header. *)
Definition search_matched (searchArg : SsdpSearchArg) (event : SsdpEvent) (st : memptr)
    : option bool :=
  match sa_requestType searchArg with
  | SSDP_ALL => Some true
  | SSDP_ROOTDEVICE => Some (bool_decide (RequestType event = SSDP_ROOTDEVICE))
  | SSDP_DEVICEUDN =>
      target ← sa_searchTarget searchArg;
      Some (strncmp target (mp_buf st) (mp_length st) =? 0)
  | SSDP_DEVICETYPE | SSDP_SERVICE =>
      target ← sa_searchTarget searchArg;
      Some (strncmp target (mp_buf st) (Z.min (mp_length st) (strlen target)) =? 0)
  | SSDP_SERROR => Some false
  end.

(** A search that matches: the job for the application. *)
Definition schedule_result (param : UpnpDiscovery) (cookie callback : Z) cp : M ctrlpt :=
  threadData ← SSDPResultData_new;
  match threadData with
  | None => mret cp
  | Some d =>
      d ← SSDPResultData_set_Param param d;
      mret (add_job (MkResult (r_Param d) cookie callback) cp)
  end.

(** The loop over the searches of a handle. *)
Fixpoint searches_loop (param : UpnpDiscovery) (event : SsdpEvent) (st : memptr) (callback : Z)
    (l : list SsdpSearchArg) cp : M ctrlpt :=
  match l with
  | [] => mret cp
  | searchArg :: l' =>
      matched ← liftO (search_matched searchArg event st);
      cp ← (if matched : bool then schedule_result param (sa_cookie searchArg) callback cp
            else mret cp);
      searches_loop param event st callback l' cp
  end.

(** The loops over the handles from [handle] on; [others] is what other threads
    do to the table while it is not locked. *)
Fixpoint clients_loop (others : Z -> api -> api)
    (body : Handle_Info -> ctrlpt -> M ctrlpt) (fuel : nat) (handle : Z) a cp : M ctrlpt :=
  match fuel with
  | O => mret cp
  | S fuel' =>
      cp ← match GetHandleInfo handle a with
           | (HND_CLIENT, Some info) => body info cp
           | _ => mret cp
           end;
      clients_loop others body fuel' (handle + 1) (others handle a) cp
  end.
Definition for_clients others body (handle_start : Z) a cp : M ctrlpt :=
  clients_loop others body (Z.to_nat (NUM_HANDLE - handle_start)) handle_start a cp.

Definition call_client (event : event_type) (param : option UpnpDiscovery)
    (info : Handle_Info) cp : M ctrlpt :=
  mret (call (MkCall (hi_Callback info) event param (hi_Cookie info)) cp).

Section Ctrlpt.
Context (getaddrinfo : list Z -> option (list sockaddr))
  (inet_pton : Z -> list Z -> option (list Z)) (gIF_INDEX : Z).
Context (others : Z -> api -> api).

Definition max_age_fmt : list Z := Eval vm_compute in cs "%imax-age = %d%0".

(** The value of CACHE-CONTROL: [None] when it is refused. *)
Definition max_age (hmsg : http_message_t) : M (option Z) :=
  match header_ptr hmsg HDR_CACHE_CONTROL with
  | None => mret (Some (-1))
  | Some v =>
      '(ret, outs) ← matchstr getaddrinfo inet_pton gIF_INDEX (mp_buf v) (mp_length v) max_age_fmt;
      mret (match ret, outs with
            | PARSE_OK, Scanner.AInt expires :: _ => Some expires
            | PARSE_OK, _ => Some (-1)
            | _, _ => None
            end)
  end.

(** A header that is copied, if there is one. *)
Definition copy_header (copy : memptr -> UpnpDiscovery -> M (Z * UpnpDiscovery))
    (v : option memptr) (param : UpnpDiscovery) : M UpnpDiscovery :=
  match v with
  | None => mret param
  | Some v => '(_, param) ← copy v param; mret param
  end.
Definition copy_n (m : text_member) (v : memptr) : UpnpDiscovery -> M (Z * UpnpDiscovery) :=
  strncpy_text m (mp_buf v) (mp_length v).

(** DATE, the address, EXT, LOCATION and SERVER or USER-AGENT. *)
Definition copy_headers (hmsg : http_message_t) (dest_addr : sockaddr) (param : UpnpDiscovery)
    : M UpnpDiscovery :=
  param ← copy_header (fun v => strcpy_text Date (mp_buf v)) (header_ptr hmsg HDR_DATE) param;
  param ← copy_header (copy_n Ext) (header_ptr hmsg HDR_EXT) (set_DestAddr dest_addr param);
  param ← copy_header (copy_n Location) (header_ptr hmsg HDR_LOCATION) param;
  copy_header (copy_n Os)
    (match header_ptr hmsg HDR_SERVER with
     | Some v => Some v
     | None => header_ptr hmsg HDR_USER_AGENT
     end) param.

(** A header value while it is terminated. *)
Definition terminated_value (v : memptr) : list Z := ztake (mp_length v) (mp_buf v).

(** NT and USN: whether each was found, and the event. *)
Definition read_names (hmsg : http_message_t) : bool * bool * SsdpEvent :=
  let event := clear_event in
  let '(nt_found, event) :=
    match header_ptr hmsg HDR_NT with
    | None => (false, event)
    | Some v => let '(rc, event) := ssdp_request_type (terminated_value v) in (rc =? 0, event)
    end in
  let '(usn_found, event) :=
    match header_ptr hmsg HDR_USN with
    | None => (false, event)
    | Some v => let '(rc, event) := unique_service_name (terminated_value v) event in (rc =? 0, event)
    end in
  (nt_found, usn_found, event).

Definition copy_event_names (event : SsdpEvent) (param : UpnpDiscovery) : M UpnpDiscovery :=
  '(_, param) ← strcpy_text DeviceID (UDN event) param;
  '(_, param) ← strcpy_text Type_ (DeviceType event) param;
  '(_, param) ← strcpy_text Service (ServiceType event) param;
  mret param.

(** [UpnpString_get_Length(UpnpDiscovery_get_Location(param)) == 0]. *)
Definition no_location (param : UpnpDiscovery) : option bool :=
  s ← d_Location param; Some (UpnpString_get_Length s =? 0).

(** An advertisement: the event the application is told of. *)
Definition advert_event (hmsg : http_message_t) (nt_found usn_found : bool) (param : UpnpDiscovery)
    : option (option event_type) :=
  match header_ptr hmsg HDR_NTS with
  | None => Some None
  | Some nts =>
      if memptr_cmp nts (cs "ssdp:alive") =? 0 then
        if negb nt_found || negb usn_found then Some None
        else
          empty ← no_location param;
          Some (if empty || (d_Expires param <=? 0) then None
                else Some UPNP_DISCOVERY_ADVERTISEMENT_ALIVE)
      else if memptr_cmp nts (cs "ssdp:byebye") =? 0 then
        Some (if negb nt_found || negb usn_found then None
              else Some UPNP_DISCOVERY_ADVERTISEMENT_BYEBYE)
      else Some None
  end.

(** A reply: the event of its ST header and the header. *)
Definition reply_event (hmsg : http_message_t) (usn_found : bool) (param : UpnpDiscovery)
    : option (option (SsdpEvent * memptr)) :=
  let st_event :=
    v ← header_ptr hmsg HDR_ST;
    let '(rc, event) := ssdp_request_type (terminated_value v) in
    if rc =? 0 then Some (event, v) else None in
  if negb (m_status_code hmsg =? HTTP_OK) || (d_Expires param <=? 0) then Some None
  else
    empty ← no_location param;
    Some (if empty || negb usn_found then None else st_event).

(** The part behind the timeout: what the message says and whom it is told. *)
Definition handle_message (hmsg : http_message_t) (dest_addr : sockaddr) (handle_start : Z)
    a (param : UpnpDiscovery) cp : M ctrlpt :=
  expires ← max_age hmsg;
  match expires with
  | None => mret cp
  | Some expires =>
      param ← copy_headers hmsg dest_addr (set_numbers UPNP_E_SUCCESS expires param);
      let '(nt_found, usn_found, event) := read_names hmsg in
      param ← (if nt_found || usn_found then copy_event_names event param else mret param);
      if m_is_request hmsg then
        event_type ← liftO (advert_event hmsg nt_found usn_found param);
        match event_type with
        | None => mret cp
        | Some e => for_clients others (call_client e (Some param)) handle_start a cp
        end
      else
        reply ← liftO (reply_event hmsg usn_found param);
        match reply with
        | None => mret cp
        | Some (event, st) =>
            for_clients others (fun info cp =>
                searches_loop param event st (hi_Callback info) (hi_SsdpSearchList info) cp)
              handle_start a cp
        end
  end.

Definition ssdp_handle_ctrlpt_msg (hmsg : http_message_t) (dest_addr : sockaddr) (timeout : Z)
    a cp : M ctrlpt :=
  param ← UpnpDiscovery_new;
  '(type, handle_start) ← liftO (GetClientHandleInfo a);
  if negb (bool_decide (type = HND_CLIENT)) then mret cp
  else if negb (timeout =? 0) then
    for_clients others (call_client UPNP_DISCOVERY_SEARCH_TIMEOUT None) handle_start a cp
  else
    param ← liftO param;
    handle_message hmsg dest_addr handle_start a param cp.
End Ctrlpt.

(** ** Searches *)

(** The loop that looks for the search: the search and the list without it. *)
Fixpoint take_search (id : Z) (l : list SsdpSearchArg) : option (SsdpSearchArg * list SsdpSearchArg) :=
  match l with
  | [] => None
  | item :: l' =>
      if sa_timeoutEventId item =? id then Some (item, l')
      else '(x, l') ← take_search id l'; Some (x, item :: l')
  end.

Definition set_searches (hnd : Z) (l : list SsdpSearchArg) a : api :=
  match HandleTable a !! hnd with
  | Some info => set_handle hnd (Some (set_SsdpSearchList l info)) a
  | None => a
  end.

Definition searchExpired (arg : SsdpSearchExpArg) a cp : api * ctrlpt :=
  match GetHandleInfo (e_handle arg) a with
  | (HND_CLIENT, Some info) =>
      match take_search (e_timeoutEventId arg) (hi_SsdpSearchList info) with
      | None => (a, cp)
      | Some (item, l) =>
          (set_searches (e_handle arg) l a,
           call (MkCall (hi_Callback info) UPNP_DISCOVERY_SEARCH_TIMEOUT None (sa_cookie item)) cp)
      end
  | _ => (a, cp)
  end.

(** What the system answers to a search: whether the timer takes the timeout and
    the identifier it gets, whether the list takes the search, what [select]
    says ([None] for an error) of the two sockets. *)
Record search_answers := MkAnswers {
  an_schedule : option Z;
  an_list : bool;
  an_select : option (bool * bool)
}.

(** What a search leaves: the timeout with its delay, and the requests, each
    with its destination. *)
Record searching := MkSearching {
  se_timeouts : list (Z * SsdpSearchExpArg);
  se_sent : list (sockaddr * list Z)
}.

Section Search.
Context (junk : list Z).
Context (inet_pton : Z -> list Z -> option (list Z)) (gIF_INDEX : Z) (gIF_IPV4 : list Z).
(** Whether there are sockets for the two families, and what the memory of an
    identifier holds when the timer does not set it. *)
Context (gSsdpReqSocket4 gSsdpReqSocket6 : bool) (unset_id : Z).

Definition search_addr (family : Z) (host : list Z) : sockaddr :=
  MkSockaddr family SSDP_PORT (default (sin_addr no_addr) (inet_pton family host))
    (if family =? AF_INET6 then gIF_INDEX else 0).

(** The requests for the sockets that are ready. *)
Definition send_requests (ready4 ready6 : bool) (req4 req6 req6u : list Z)
    : list (sockaddr * list Z) :=
  (if gSsdpReqSocket6 && ready6 then
     replicate SSDP_COPIES (search_addr AF_INET6 SSDP_IPV6_SITELOCAL, req6u) ++
     replicate SSDP_COPIES (search_addr AF_INET6 SSDP_IPV6_LINKLOCAL, req6)
   else []) ++
  (if gSsdpReqSocket4 && ready4 then replicate SSDP_COPIES (search_addr AF_INET SSDP_IP, req4)
   else []).

Definition clamp_time (Mx : Z) : Z :=
  if Mx <? MIN_SEARCH_TIME then MIN_SEARCH_TIME
  else if MAX_SEARCH_TIME <? Mx then MAX_SEARCH_TIME else Mx.

(** The list of the handle and the timer: [HandleLock] to [HandleUnlock]. *)
Definition register_search (ans : search_answers) (Hnd timeTillRead : Z) (St : list Z)
    (Cookie : Z) (requestType : SsdpSearchType) (ctrlpt_info : Handle_Info) a
    : M (api * list (Z * SsdpSearchExpArg)) :=
  ok ← malloc_ok;
  _ ← liftO (if ok : bool then Some tt else None);
  target ← strdup St;
  ok ← malloc_ok;
  _ ← liftO (if ok : bool then Some tt else None);
  let id := default unset_id (an_schedule ans) in
  let newArg := MkSearchArg id target Cookie requestType in
  let a := if an_list ans then set_searches Hnd (hi_SsdpSearchList ctrlpt_info ++ [newArg]) a else a in
  mret (a, match an_schedule ans with
           | Some _ => [(timeTillRead, MkExpArg Hnd id)]
           | None => []
           end).

Definition SearchByTarget (ans : search_answers) (Hnd Mx : Z) (St : list Z) (Cookie : Z) a
    : M (Z * api * searching) :=
  let nothing := MkSearching [] [] in
  if (0 <? strlen gIF_IPV4) && negb (bool_decide (is_Some (inet_pton AF_INET gIF_IPV4)))
  then mret (UPNP_E_INVALID_PARAM, a, nothing)
  else
  let requestType := ssdp_request_type1 St in
  if bool_decide (requestType = SSDP_SERROR) then mret (UPNP_E_INVALID_PARAM, a, nothing)
  else
  let timeTillRead := clamp_time Mx in
  '(retVal, ReqBufv4) ← liftO (CreateClientRequestPacket junk BUFSIZE timeTillRead (Some St) AF_INET);
  if negb (retVal =? UPNP_E_SUCCESS) then mret (retVal, a, nothing)
  else
  '(retVal, ReqBufv6) ← liftO (CreateClientRequestPacket junk BUFSIZE timeTillRead (Some St) AF_INET6);
  if negb (retVal =? UPNP_E_SUCCESS) then mret (retVal, a, nothing)
  else
  '(retVal, ReqBufv6UlaGua) ←
    liftO (CreateClientRequestPacketUlaGua junk BUFSIZE timeTillRead (Some St) AF_INET6);
  if negb (retVal =? UPNP_E_SUCCESS) then mret (retVal, a, nothing)
  else
  match GetHandleInfo Hnd a with
  | (HND_CLIENT, Some ctrlpt_info) =>
      '(a, timeouts) ← register_search ans Hnd timeTillRead St Cookie requestType ctrlpt_info a;
      match an_select ans with
      | None => mret (UPNP_E_INTERNAL_ERROR, a, MkSearching timeouts [])
      | Some (ready4, ready6) =>
          mret (1, a, MkSearching timeouts
                        (send_requests ready4 ready6 ReqBufv4 ReqBufv6 ReqBufv6UlaGua))
      end
  | _ => mret (UPNP_E_INTERNAL_ERROR, a, nothing)
  end.
End Search.
