(* ===== verification/SsdpNames.v ===== *)
(** The names a device sends in its packets are the names the receiver finds:
    [usn_text] of [SsdpDevice] against [unique_service_name] and
    [ssdp_request_type] of [Ssdp]. *)

From S2P Require Import Prelude CString MemBuffer HttpTables Uri HttpMessage HttpMake Ssdp SsdpDevice.

(** ** Searching *)

Lemma find_sub_skip c pat a b i :
  Forall (fun x => x <> c) a -> find_sub (c :: pat) (a ++ b) i = find_sub (c :: pat) b (i + zlen a).
Proof.
  intros Ha. revert i. induction Ha as [|x a Hx Ha IH]; intros i.
  { cbn [app]. f_equal. unfold zlen. cbn. lia. }
  cbn [app find_sub is_prefix]. rewrite (proj2 (Z.eqb_neq c x)) by done. cbn [andb].
  rewrite IH, zlen_cons. f_equal. lia.
Qed.

(** The offset only shifts the result. *)
Lemma find_sub_shift s l i : find_sub s l i = Z.add i <$> find_sub s l 0.
Proof.
  revert i. induction l as [|x l IH]; intros i; cbn [find_sub].
  - destruct (is_prefix s []); cbn; [f_equal; lia|done].
  - destruct (is_prefix s (x :: l)); cbn; [f_equal; lia|].
    rewrite IH, (IH (0 + 1)). destruct (find_sub s l 0); cbn; [f_equal; lia|done].
Qed.

Lemma find_sub_none s l i j : find_sub s l i = None -> find_sub s l j = None.
Proof. rewrite (find_sub_shift s l i), (find_sub_shift s l j). by destruct (find_sub s l 0). Qed.

Lemma find_sub_longer p q l i : find_sub p l i = None -> find_sub (p ++ q) l i = None.
Proof.
  assert (forall l, is_prefix (p ++ q) l = true -> is_prefix p l = true) as Hp.
  { clear. induction p as [|x p IH]; intros l; [done|]. destruct l as [|y l]; [done|]. cbn.
    destruct (x =? y); [apply IH|done]. }
  revert i. induction l as [|y l IH]; intros i; cbn [find_sub];
    (destruct (is_prefix p _) eqn:E; [done|]);
    (destruct (is_prefix (p ++ q) _) eqn:E2; [by rewrite (Hp _ E2) in E|done || apply IH]).
Qed.

(** ** Names *)

Definition uuid_char (c : Z) : Prop := isxdigit c || (c =? $"-") = true.
(** A UDN: "uuid:" and a UUID. *)
Definition is_udn (U : list Z) : Prop :=
  exists x id, U = cs "uuid:" ++ x :: id /\ Forall uuid_char (x :: id).
(** A type of a device, or of a service ([kind] is ":device:" or ":service:",
    [other] the other one). *)
Definition is_type_name (kind other T : list Z) : Prop :=
  (exists r, T = cs "urn:" ++ r) /\ Forall (fun c => c <> 0) T /\
  occurs T kind = true /\ occurs T other = false /\ occurs T (cs "uuid:") = false /\
  occurs T (cs "::upnp:rootdevice") = false.

Lemma uuid_char_ne c d : uuid_char d -> c = 58 \/ c = 115 \/ c = 117 \/ c = 0 -> d <> c.
Proof. unfold uuid_char, isxdigit. intros H Hc ->. by destruct Hc as [->|[->|[->| ->]]]. Qed.
Lemma uuid_text c l : Forall uuid_char l -> c = 58 \/ c = 115 \/ c = 117 \/ c = 0 -> Forall (fun d => d <> c) l.
Proof. intros H Hc. eapply Forall_impl; [exact H|]. intros d Hd. by apply uuid_char_ne. Qed.

Lemma occurs_find s pat :
  Forall (fun c => c <> 0) s -> Forall (fun c => c <> 0) pat ->
  occurs s pat = bool_decide (is_Some (find_sub pat s 0)).
Proof. intros Hs Hp. unfold occurs, strstr. by rewrite !c_str_id. Qed.
Lemma occurs_none s pat i :
  Forall (fun c => c <> 0) s -> Forall (fun c => c <> 0) pat ->
  occurs s pat = false -> find_sub pat s i = None.
Proof.
  intros Hs Hp. rewrite occurs_find by done. intros H%bool_decide_eq_false.
  apply (find_sub_none _ _ 0). by apply eq_None_not_Some.
Qed.
Lemma occurs_some s pat i :
  Forall (fun c => c <> 0) s -> Forall (fun c => c <> 0) pat ->
  occurs s pat = true -> exists j, find_sub pat s i = Some j.
Proof.
  intros Hs Hp. rewrite occurs_find by done. intros [j H]%bool_decide_eq_true.
  rewrite find_sub_shift, H. by eexists.
Qed.

Lemma find_sub_miss s x l i :
  is_prefix s (x :: l) = false -> find_sub s (x :: l) i = find_sub s l (i + 1).
Proof. intros H. cbn [find_sub]. by rewrite H. Qed.
Lemma find_sub_hit s l i : is_prefix s l = true -> find_sub s l i = Some i.
Proof. intros H. destruct l; cbn [find_sub]; by rewrite H. Qed.

(** A pattern is looked for in a UDN and what follows it; it does not start in
    ["uuid:"] or the UUID. *)
Lemma find_behind_udn c pat x id b :
  Forall uuid_char (x :: id) -> c = 58 \/ c = 117 ->
  (forall i, 0 <= i <= 4 -> is_prefix (c :: pat) (zdrop i (cs "uuid:" ++ (x :: id) ++ b)) = false) ->
  find_sub (c :: pat) (cs "uuid:" ++ (x :: id) ++ b) 0 =
  find_sub (c :: pat) b (zlen (cs "uuid:" ++ x :: id)).
Proof.
  intros Hid Hc H. assert (c = 58 \/ c = 115 \/ c = 117 \/ c = 0) as Hc' by tauto.
  change (cs "uuid:") with [117; 117; 105; 100; 58] in *.
  pose proof (H 0 ltac:(lia)) as H0. pose proof (H 1 ltac:(lia)) as H1.
  pose proof (H 2 ltac:(lia)) as H2. pose proof (H 3 ltac:(lia)) as H3.
  pose proof (H 4 ltac:(lia)) as H4. clear H. unfold zdrop in *.
  change (Z.to_nat 0) with 0%nat in H0. change (Z.to_nat 1) with 1%nat in H1.
  change (Z.to_nat 2) with 2%nat in H2. change (Z.to_nat 3) with 3%nat in H3.
  change (Z.to_nat 4) with 4%nat in H4. cbn [drop app] in H0, H1, H2, H3, H4.
  cbn [app].
  do 5 (rewrite find_sub_miss by assumption).
  change (x :: id ++ b) with ((x :: id) ++ b).
  rewrite (find_sub_skip c pat (x :: id) b) by (by apply uuid_text).
  f_equal. cbn [app]. rewrite !zlen_cons. lia.
Qed.

(** What can follow a UDN. *)
Definition ends_udn (b : list Z) : Prop := b = [] \/ exists r, b = 58 :: r.

Lemma not_in_uuid p1 v p2 l b :
  Forall uuid_char l -> ends_udn b -> Forall (fun c => c <> 58) p1 -> ~ uuid_char v -> v <> 58 ->
  is_prefix (p1 ++ v :: p2) (l ++ b) = false.
Proof.
  intros Hl Hb Hp Hv Hv'. revert l Hl. induction Hp as [|c p1 Hc Hp IH]; intros l Hl.
  - destruct Hl as [|y l Hy Hl]; cbn [app is_prefix].
    + destruct Hb as [->|[r ->]]; [done|]. by rewrite (proj2 (Z.eqb_neq v 58)).
    + rewrite (proj2 (Z.eqb_neq v y)); [done|]. by intros ->.
  - destruct Hl as [|y l Hy Hl]; cbn [app is_prefix].
    + destruct Hb as [->|[r ->]]; [done|]. by rewrite (proj2 (Z.eqb_neq c 58)).
    + destruct (c =? y); [by apply IH|done].
Qed.
Lemma not_colon p x l b : uuid_char x -> is_prefix (58 :: p) (x :: l ++ b) = false.
Proof. intros Hx. cbn [is_prefix]. rewrite (proj2 (Z.eqb_neq 58 x)); [done|]. intros <-. by vm_compute in Hx. Qed.

Lemma is_prefix_cons c p l : is_prefix (c :: p) (c :: l) = is_prefix p l.
Proof. cbn. by rewrite Z.eqb_refl. Qed.

Section Udn.
Context (x : Z) (id b : list Z) (Hid : Forall uuid_char (x :: id)) (Hb : ends_udn b).
Let U : list Z := cs "uuid:" ++ x :: id.

Ltac offsets :=
  let i := fresh "i" in intros i ?;
  assert (i = 0 \/ i = 1 \/ i = 2 \/ i = 3 \/ i = 4) as [->|[->|[->|[->| ->]]]] by lia;
  unfold zdrop; try reflexivity;
  change (Z.to_nat 0) with 0%nat; change (Z.to_nat 4) with 4%nat;
  change (cs "uuid:") with [117; 117; 105; 100; 58]; cbn [drop app]; rewrite ?is_prefix_cons.
Ltac literals :=
  repeat match goal with |- context [cs ?s] =>
    let v := eval vm_compute in (cs s) in change (cs s) with v end.
Ltac behind := literals; unfold U; rewrite <- ?app_assoc; apply find_behind_udn; [exact Hid|auto|offsets].

Lemma find_schemas : find_sub (cs "uuid:schemas") (U ++ b) 0 = find_sub (cs "uuid:schemas") b (zlen U).
Proof. behind. apply (not_in_uuid [] 115 _ (x :: id)); auto. by vm_compute. Qed.
Lemma find_colons : find_sub (cs "::") (U ++ b) 0 = find_sub (cs "::") b (zlen U).
Proof. behind. apply not_colon. by inv Hid. Qed.
Lemma find_urn_colon : find_sub (cs "urn:") (U ++ b) 0 = find_sub (cs "urn:") b (zlen U).
Proof. behind. Qed.
Lemma find_urn_word : find_sub (cs "urn") (U ++ b) 0 = find_sub (cs "urn") b (zlen U).
Proof. behind. Qed.
Lemma find_service : find_sub (cs ":service:") (U ++ b) 0 = find_sub (cs ":service:") b (zlen U).
Proof. behind. apply (not_in_uuid [] 115 _ (x :: id)); auto. by vm_compute. Qed.
Lemma find_device : find_sub (cs ":device:") (U ++ b) 0 = find_sub (cs ":device:") b (zlen U).
Proof. behind. apply (not_in_uuid [100; 101] 118 _ (x :: id)); auto. by vm_compute. Qed.
Lemma find_all : find_sub (cs ":all") (U ++ b) 0 = find_sub (cs ":all") b (zlen U).
Proof. behind. apply (not_in_uuid [97] 108 _ (x :: id)); auto. by vm_compute. Qed.
Lemma find_rootdevice : find_sub (cs ":rootdevice") (U ++ b) 0 = find_sub (cs ":rootdevice") b (zlen U).
Proof. behind. apply (not_in_uuid [] 114 _ (x :: id)); auto. by vm_compute. Qed.
Lemma find_root_name :
  find_sub (cs "::upnp:rootdevice") (U ++ b) 0 = find_sub (cs "::upnp:rootdevice") b (zlen U).
Proof. behind. apply not_colon. by inv Hid. Qed.
End Udn.

(** ** What the receiver finds *)

Lemma line_text_some s text : line_text s = Some text -> text = s /\ zlen s < LINE_SIZE.
Proof.
  unfold line_text, snprintf. destruct (Z.leb_spec LINE_SIZE (zlen s)); [done|].
  intros [= <-]. split; [apply ztake_all; lia|lia].
Qed.

Lemma is_udn_no_nul U : is_udn U -> Forall (fun c => c <> 0) U.
Proof.
  intros (x & id & -> & Hid). apply Forall_app_2; [by repeat constructor|].
  apply uuid_text; auto.
Qed.

(** The UDN at the start is found. *)
Lemma find_uuid_udn U b Evt :
  is_udn U -> zlen U < LINE_SIZE -> Forall (fun c => c <> 0) b -> zlen b < LINE_SIZE ->
  b = [] \/ is_prefix (cs "::") b = true ->
  find_uuid (U ++ b) Evt = (true, set_UDN U Evt).
Proof.
  intros (x & id & -> & Hid) Hl Hb Hlb Hc. unfold find_uuid.
  assert (Forall (fun c => c <> 0) ((cs "uuid:" ++ x :: id) ++ b)) as Hno
    by (apply Forall_app_2; [apply is_udn_no_nul; by exists x, id|done]).
  assert (ends_udn b) as He.
  { destruct Hc as [->|Hp]; [by left|]. apply is_prefix_spec in Hp as [r ->]. right. by eexists. }
  unfold strstr. rewrite (c_str_id _ Hno).
  rewrite (find_sub_hit (c_str (cs "uuid"))) by reflexivity.
  change (c_str (cs "::")) with (cs "::"). rewrite find_colons by done.
  f_equal. f_equal. unfold copy_at. change (zdrop 0 ?l) with l.
  pose proof (zlen_nonneg (cs "uuid:" ++ x :: id)). destruct Hc as [->|Hp].
  - cbn [find_sub]. change (is_prefix (cs "::") []) with false. cbv iota. rewrite app_nil_r.
    apply ztake_all. unfold LINE_SIZE in *. lia.
  - rewrite find_sub_hit by done. rewrite Z.sub_0_r, to_size_small
      by (unfold SIZE_MAX, LINE_SIZE in *; lia).
    rewrite Z.min_l by (unfold LINE_SIZE in *; lia). apply ztake_app_exact; lia.
Qed.

(** The type behind the UDN is found; [find_urn] finds nothing in what has no
    ["urn:"]. *)
Lemma find_urn_type U T kind set Evt :
  is_udn U -> Forall (fun c => c <> 0) T -> (exists r, T = cs "urn:" ++ r) -> zlen T < LINE_SIZE ->
  kind = cs ":service:" \/ kind = cs ":device:" ->
  find_urn kind set (U ++ cs "::" ++ T) Evt =
  if occurs T kind then (true, set T Evt) else (false, Evt).
Proof.
  intros (x & id & -> & Hid) HT [r Hr] Hl Hk. set (U := cs "uuid:" ++ x :: id).
  assert (Forall (fun c => c <> 0) (cs "::" ++ T)) as Hb by (apply Forall_app_2; [by repeat constructor|done]).
  assert (Forall (fun c => c <> 0) (U ++ cs "::" ++ T)) as Hno
    by (apply Forall_app_2; [apply is_udn_no_nul; by exists x, id|done]).
  assert (ends_udn (cs "::" ++ T)) as He by (right; by eexists).
  assert (find_sub kind (U ++ cs "::" ++ T) 0 = find_sub kind T (zlen U + 2)) as Ek.
  { assert (find_sub kind (U ++ cs "::" ++ T) 0 = find_sub kind (cs "::" ++ T) (zlen U)) as ->
      by (unfold U; destruct Hk as [-> | ->]; [by apply find_service|by apply find_device]).
    rewrite Hr. destruct Hk as [-> | ->]; change (cs "::" ++ cs "urn:" ++ r) with
      (58 :: 58 :: cs "urn:" ++ r); rewrite !find_sub_miss by done; f_equal; lia. }
  assert (forall pat i, find_sub (117 :: 114 :: 110 :: pat) (cs "::" ++ T) i =
    find_sub (117 :: 114 :: 110 :: pat) T (i + 2)) as Hskip.
  { intros pat i. rewrite find_sub_skip by (repeat constructor; done). done. }
  assert (find_sub (cs "urn:") (U ++ cs "::" ++ T) 0 = Some (zlen U + 2)) as E1.
  { unfold U. rewrite find_urn_colon by done. change (cs "urn:") with [117; 114; 110; 58].
    rewrite Hskip, Hr. by apply find_sub_hit. }
  assert (find_sub (cs "urn") (U ++ cs "::" ++ T) 0 = Some (zlen U + 2)) as E2.
  { unfold U. rewrite find_urn_word by done. change (cs "urn") with [117; 114; 110].
    rewrite Hskip, Hr. by apply find_sub_hit. }
  assert (Forall (fun c => c <> 0) kind) as Hkn by (destruct Hk as [-> | ->]; by repeat constructor).
  unfold find_urn. rewrite !occurs_find by (done || by repeat constructor).
  rewrite Ek, (find_sub_shift kind T (zlen U + 2)), E1. cbn [andb].
  unfold strstr. rewrite (c_str_id _ Hno). change (c_str (cs "urn")) with (cs "urn"). rewrite E2.
  unfold copy_at. replace (zdrop (zlen U + 2) (U ++ cs "::" ++ T)) with T
    by (rewrite app_assoc, zdrop_app_exact; [done|]; by rewrite zlen_app).
  rewrite ztake_all; [by destruct (find_sub kind T 0)|].
  rewrite !zlen_app. change (zlen (cs "::")) with 2. pose proof (zlen_nonneg U).
  pose proof (zlen_nonneg T). unfold LINE_SIZE in *. lia.
Qed.

(** The name of a root device is no type. *)
Lemma find_urn_root U kind set Evt :
  is_udn U -> find_urn kind set (U ++ cs "::upnp:rootdevice") Evt = (false, Evt).
Proof.
  intros (x & id & -> & Hid). unfold find_urn.
  assert (occurs ((cs "uuid:" ++ x :: id) ++ cs "::upnp:rootdevice") (cs "urn:") = false) as ->; [|done].
  rewrite occurs_find.
  - rewrite find_urn_colon by (done || (right; by eexists)). by rewrite find_sub_shift.
  - apply Forall_app_2; [apply is_udn_no_nul; by exists x, id|by repeat constructor].
  - by repeat constructor.
Qed.
Lemma find_urn_udn U kind set Evt : is_udn U -> find_urn kind set U Evt = (false, Evt).
Proof.
  intros HU. pose proof HU as (x & id & -> & Hid). unfold find_urn.
  assert (occurs (cs "uuid:" ++ x :: id) (cs "urn:") = false) as ->; [|done].
  rewrite occurs_find by first [by apply is_udn_no_nul|by repeat constructor].
  rewrite <- (app_nil_r (cs "uuid:" ++ x :: id)). rewrite find_urn_colon by (done || by left).
  by rewrite find_sub_shift.
Qed.

Lemma find_root_type U T Evt :
  is_udn U -> Forall (fun c => c <> 0) T -> (exists r, T = cs "urn:" ++ r) ->
  occurs T (cs "::upnp:rootdevice") = false -> find_root (U ++ cs "::" ++ T) Evt = (false, Evt).
Proof.
  intros HU HT [r Hr] Ho. pose proof HU as (x & id & -> & Hid). unfold find_root, strstr.
  rewrite (c_str_id ((cs "uuid:" ++ x :: id) ++ cs "::" ++ T))
    by (apply Forall_app_2; [by apply is_udn_no_nul|apply Forall_app_2; [by repeat constructor|done]]).
  change (c_str (cs "::upnp:rootdevice")) with (cs "::upnp:rootdevice").
  rewrite find_root_name by (done || (right; by eexists)).
  rewrite Hr at 1. change (cs "::" ++ cs "urn:" ++ r) with (58 :: 58 :: cs "urn:" ++ r).
  rewrite !find_sub_miss by done. rewrite <- Hr. by rewrite occurs_none by (done || by repeat constructor).
Qed.
Lemma find_root_root U Evt :
  is_udn U -> zlen U < LINE_SIZE -> find_root (U ++ cs "::upnp:rootdevice") Evt = (true, set_UDN U Evt).
Proof.
  intros HU Hl. pose proof HU as (x & id & -> & Hid). unfold find_root, strstr.
  rewrite (c_str_id (_ ++ cs "::upnp:rootdevice"))
    by (apply Forall_app_2; [by apply is_udn_no_nul|by repeat constructor]).
  change (c_str (cs "::upnp:rootdevice")) with (cs "::upnp:rootdevice").
  rewrite find_root_name by (done || (right; by eexists)). rewrite find_sub_hit by done.
  rewrite (proj2 (Z.eqb_neq _ 0)) by (rewrite zlen_app, zlen_cons; pose proof (zlen_nonneg id);
    pose proof (zlen_nonneg (cs "uuid:")); lia).
  f_equal. f_equal. unfold copy_at. change (zdrop 0 ?l) with l. apply ztake_app_exact.
  unfold LINE_SIZE in *. lia.
Qed.
Lemma find_root_udn U Evt : is_udn U -> find_root U Evt = (false, Evt).
Proof.
  intros HU. pose proof HU as (x & id & -> & Hid). unfold find_root, strstr.
  rewrite (c_str_id (cs "uuid:" ++ x :: id)) by (by apply is_udn_no_nul).
  change (c_str (cs "::upnp:rootdevice")) with (cs "::upnp:rootdevice").
  rewrite <- (app_nil_r (cs "uuid:" ++ x :: id)). rewrite find_root_name by (done || by left).
  by rewrite find_sub_shift.
Qed.

(** None of the names is one with ["uuid:schemas"]. *)
Lemma no_schemas U b :
  is_udn U -> ends_udn b -> Forall (fun c => c <> 0) b ->
  find_sub (cs "uuid:schemas") b 0 = None -> occurs (U ++ b) (cs "uuid:schemas") = false.
Proof.
  intros HU He Hb Hn. rewrite occurs_find; [|apply Forall_app_2; [by apply is_udn_no_nul|done]|by repeat constructor].
  destruct HU as (x & id & -> & Hid). rewrite find_schemas by done.
  apply bool_decide_eq_false. by rewrite (find_sub_none _ _ _ (zlen (cs "uuid:" ++ x :: id)) Hn); intros [].
Qed.

(** [unique_service_name] of the names that devices compose. *)
Lemma name_of_udn U Evt :
  is_udn U -> zlen U < LINE_SIZE -> unique_service_name U Evt = (0, set_UDN U Evt).
Proof.
  intros HU Hl. unfold unique_service_name. rewrite (c_str_id U) by (by apply is_udn_no_nul).
  pose proof (no_schemas U [] HU (or_introl eq_refl) ltac:(done) eq_refl) as E1.
  pose proof (find_uuid_udn U [] Evt HU Hl ltac:(done) ltac:(done) (or_introl eq_refl)) as E2.
  rewrite app_nil_r in E1, E2. rewrite E1, E2. rewrite !find_urn_udn, find_root_udn by done. done.
Qed.
Lemma name_of_root U usn Evt :
  is_udn U -> usn_text U ROOT = Some usn -> unique_service_name usn Evt = (0, set_UDN U Evt).
Proof.
  intros HU Hu. pose proof (is_udn_no_nul _ HU) as Hno. unfold usn_text in Hu.
  rewrite (c_str_id U) in Hu by done. change (cs "::" ++ c_str ROOT) with (cs "::upnp:rootdevice") in Hu.
  apply line_text_some in Hu as [-> Hl]. rewrite zlen_app in Hl.
  pose proof (zlen_nonneg (cs "::upnp:rootdevice")). pose proof (zlen_nonneg U).
  unfold unique_service_name.
  rewrite c_str_id by (apply Forall_app_2; [done|by repeat constructor]).
  rewrite no_schemas by (done || (right; by eexists) || by repeat constructor).
  rewrite find_uuid_udn by (done || lia || (by right) || by repeat constructor).
  rewrite !find_urn_root, find_root_root by (done || lia). by destruct Evt.
Qed.
Lemma name_of_type U T kind other usn Evt :
  is_udn U -> is_type_name kind other T -> usn_text U T = Some usn ->
  kind = cs ":service:" /\ other = cs ":device:" \/ kind = cs ":device:" /\ other = cs ":service:" ->
  unique_service_name usn Evt =
  (0, if bool_decide (kind = cs ":service:") then set_ServiceType T (set_UDN U Evt)
      else set_DeviceType T (set_UDN U Evt)).
Proof.
  intros HU (Hr & HT & Hk & Ho & Hu & Hroot) Hn Hko. pose proof (is_udn_no_nul _ HU) as Hno.
  unfold usn_text in Hn. rewrite !c_str_id in Hn by done. apply line_text_some in Hn as [-> Hl].
  rewrite !zlen_app in Hl. change (zlen (cs "::")) with 2 in Hl.
  pose proof (zlen_nonneg T). pose proof (zlen_nonneg U).
  assert (Forall (fun c => c <> 0) (cs "::" ++ T)) as Hb by (apply Forall_app_2; [by repeat constructor|done]).
  unfold unique_service_name. rewrite c_str_id by (by apply Forall_app_2).
  assert (find_sub (cs "uuid:schemas") (cs "::" ++ T) 0 = None) as Hs.
  { change (cs "::" ++ T) with ([58; 58] ++ T). change (cs "uuid:schemas") with (cs "uuid:" ++ cs "schemas").
    apply find_sub_longer. change (cs "uuid:") with [117; 117; 105; 100; 58].
    rewrite find_sub_skip by (by repeat constructor).
    apply occurs_none; [done|by repeat constructor|done]. }
  rewrite no_schemas by (done || (right; by eexists)).
  rewrite find_uuid_udn by (done || (by right) || (rewrite zlen_app; change (zlen (cs "::")) with 2; lia) || lia).
  destruct Hko as [[-> ->]|[-> ->]];
    (rewrite find_urn_type by (done || lia || by left)); rewrite ?Hk, ?Ho;
    (rewrite find_urn_type by (done || lia || by right)); rewrite ?Hk, ?Ho;
    by rewrite find_root_type by done.
Qed.

(** [ssdp_request_type1] of the types that devices announce.  A type with
    [":all"] in it is taken for ["ssdp:all"], see [alloy]. *)
Lemma type_of_udn U : is_udn U -> ssdp_request_type1 U = SSDP_DEVICEUDN.
Proof.
  intros HU. pose proof (is_udn_no_nul _ HU) as Hno. unfold ssdp_request_type1.
  rewrite !occurs_find by (done || by repeat constructor).
  destruct HU as (x & id & -> & Hid). rewrite <- (app_nil_r (cs "uuid:" ++ x :: id)).
  rewrite find_all, find_rootdevice by (done || by left).
  rewrite !(find_sub_shift _ [] (zlen _)). by rewrite (find_sub_hit (cs "uuid:")).
Qed.
Lemma type_of_root : ssdp_request_type1 ROOT = SSDP_ROOTDEVICE.
Proof. by vm_compute. Qed.
Lemma type_of_type T kind other :
  is_type_name kind other T -> occurs T (cs ":all") = false -> occurs T (cs ":rootdevice") = false ->
  kind = cs ":service:" /\ other = cs ":device:" \/ kind = cs ":device:" /\ other = cs ":service:" ->
  ssdp_request_type1 T = if bool_decide (kind = cs ":service:") then SSDP_SERVICE else SSDP_DEVICETYPE.
Proof.
  intros ([r Hr] & HT & Hk & Ho & Hu & _) Ha Hrd Hko. unfold ssdp_request_type1. rewrite Ha, Hrd, Hu.
  replace (occurs T (cs "urn:")) with true.
  - by destruct Hko as [[-> ->]|[-> ->]]; rewrite ?Hk, ?Ho.
  - rewrite occurs_find by (done || by repeat constructor). rewrite Hr, find_sub_hit by done. done.
Qed.

(** C12: What a device puts into its packets is what the receiver reads out of
    them.  A UDN is "uuid:" and a UUID, shorter than 180 characters; the type of a
    device (service) begins with "urn:", has ":device:" (":service:") in it, and
    neither the other one nor "uuid:" nor "::upnp:rootdevice".  For these the
    unique service names the device composes ([UDN], [UDN::upnp:rootdevice] and
    [UDN::type], where the array holds them) are taken apart by
    [unique_service_name] into that UDN and that type.  As search targets the UDN
    and the root device are classified as what they are, and a type of a device
    or service is when it does not have ":all" or ":rootdevice" in it; with ":all"
    in it is not ([alloy]). *)
Theorem service_names_recovered U device service Evt :
  is_udn U -> zlen U < LINE_SIZE ->
  is_type_name (cs ":device:") (cs ":service:") device ->
  is_type_name (cs ":service:") (cs ":device:") service ->
  unique_service_name U Evt = (0, set_UDN U Evt) /\
  (forall usn, usn_text U ROOT = Some usn -> unique_service_name usn Evt = (0, set_UDN U Evt)) /\
  (forall usn, usn_text U device = Some usn ->
     unique_service_name usn Evt = (0, set_DeviceType device (set_UDN U Evt))) /\
  (forall usn, usn_text U service = Some usn ->
     unique_service_name usn Evt = (0, set_ServiceType service (set_UDN U Evt))) /\
  ssdp_request_type1 U = SSDP_DEVICEUDN /\ ssdp_request_type1 ROOT = SSDP_ROOTDEVICE /\
  (occurs device (cs ":all") = false -> occurs device (cs ":rootdevice") = false ->
     ssdp_request_type1 device = SSDP_DEVICETYPE) /\
  (occurs service (cs ":all") = false -> occurs service (cs ":rootdevice") = false ->
     ssdp_request_type1 service = SSDP_SERVICE).
Proof.
  intros HU Hl Hd Hs. split_and!.
  - by apply name_of_udn.
  - intros usn Hn. by apply name_of_root.
  - intros usn Hn. rewrite (name_of_type U device _ _ usn Evt HU Hd Hn) by (by right). done.
  - intros usn Hn. rewrite (name_of_type U service _ _ usn Evt HU Hs Hn) by (by left). done.
  - by apply type_of_udn.
  - apply type_of_root.
  - intros Ha Hr. rewrite (type_of_type device _ _ Hd Ha Hr) by (by right). done.
  - intros Ha Hr. rewrite (type_of_type service _ _ Hs Ha Hr) by (by left). done.
Qed.

Lemma service_names_recovered_witness :
  let U := cs "uuid:2fac1234-31f8-11b4-a222-08002b34c003" in
  unique_service_name (U ++ cs "::urn:schemas-upnp-org:device:tvdevice:1") clear_event =
  (0, set_DeviceType (cs "urn:schemas-upnp-org:device:tvdevice:1") (set_UDN U clear_event)).
Proof.
  cbv zeta. apply (service_names_recovered (cs "uuid:2fac1234-31f8-11b4-a222-08002b34c003")
    (cs "urn:schemas-upnp-org:device:tvdevice:1") (cs "urn:schemas-upnp-org:service:tvcontrol:1")
    clear_event).
  - exists ($"2"), (cs "fac1234-31f8-11b4-a222-08002b34c003").
    split; [by vm_compute|repeat (constructor; [by vm_compute|]); by vm_compute].
  - by vm_compute.
  - split; [exists (cs "schemas-upnp-org:device:tvdevice:1"); by vm_compute|].
    split; [repeat constructor; by vm_compute|by vm_compute].
  - split; [exists (cs "schemas-upnp-org:service:tvcontrol:1"); by vm_compute|].
    split; [repeat constructor; by vm_compute|by vm_compute].
  - by vm_compute.
Defined.

(** ** Where it does not hold *)

(** A type with [":all"] in it is taken for ["ssdp:all"]. *)
Fact alloy : ssdp_request_type1 (cs "urn:schemas-upnp-org:device:alloy:1") = SSDP_ALL /\
             ssdp_request_type1 (cs "urn:schemas-upnp-org:service:allow:1") = SSDP_ALL.
Proof. by vm_compute. Qed.

(** ["urn"] is looked for in the whole name, so the type of a device whose UDN
    holds it is not the one behind ["::"]. *)
Fact turnip :
  (unique_service_name (cs "uuid:turnip::urn:x:device:lamp:1") clear_event).2 =
  set_DeviceType (cs "urnip::urn:x:device:lamp:1") (set_UDN (cs "uuid:turnip") clear_event).
Proof. by vm_compute. Qed.
