(* ===== verification/SsdpSearch.v ===== *)
(** What a control point promises: the requests of [SsdpCtrlpt], and the life of
    a search. *)

From S2P Require Import Prelude CString FreeList MemBuffer StrIntMap HttpTables Uri Scanner HttpMessage HttpParser IxmlNode UpnpString GenaQueue ServiceTable HandleTable Ssdp SsdpCtrlpt.

(** ** Requests *)

(** The whole request. *)
Definition request_text (host : list Z) (Mx : Z) (SearchTarget : option (list Z)) : list Z :=
  COMMAND ++ host ++ MAN ++
  (if 0 <? Mx then cs "MX: " ++ itoa Mx ++ line_end else []) ++
  match SearchTarget with
  | Some st => cs "ST: " ++ c_str st ++ line_end
  | None => []
  end ++ line_end.

(** [r] is [buf] with [text], all of it if it fits (and [short] holds); what is
    in the array stays below [size]. *)
Definition extends (size : Z) (short : Prop) (buf text : list Z) (r : option (Z * list Z)) : Prop :=
  exists rc b, r = Some (rc, b) /\ zlen b < size /\ (rc = UPNP_E_SUCCESS -> b = buf ++ text) /\
    (short -> zlen buf + zlen text < size -> rc = UPNP_E_SUCCESS).

Lemma add_text_extends size short buf s text k :
  zlen buf < size -> Forall (fun c => c <> 0) s ->
  (zlen (buf ++ s) < size -> extends size short (buf ++ s) text (k (buf ++ s))) ->
  extends size short buf (s ++ text) (add_text size buf s k).
Proof.
  intros Hb Hs Hk. unfold add_text, strcat, strlen. rewrite c_str_id by done.
  destruct (Z.leb_spec size (zlen buf + zlen s)) as [Hle|Hlt].
  - eexists _, _. split; [done|]. split; [done|]. split; [done|]. intros _. rewrite zlen_app.
    pose proof (zlen_nonneg text). lia.
  - rewrite (proj2 (Z.leb_le _ _)) by lia. cbn [mbind option_bind].
    destruct Hk as (rc & b & -> & Hl & Ht & Hf); [by rewrite zlen_app; lia|].
    eexists _, _. split; [done|]. split; [done|]. split.
    + intros Hrc. rewrite (Ht Hrc). by rewrite <- app_assoc.
    + intros Hsh H. apply Hf; [done|]. rewrite zlen_app in *. lia.
Qed.

Lemma add_temp_extends size (short : Prop) buf s text k :
  zlen buf < size -> Forall (fun c => c <> 0) s -> (short -> zlen s < COMMAND_LEN) ->
  (zlen (buf ++ s) < size -> extends size short (buf ++ s) text (k (buf ++ s))) ->
  extends size short buf (s ++ text) (add_temp size buf s k).
Proof.
  intros Hb Hs Hsh Hk. unfold add_temp, snprintf.
  destruct (Z.leb_spec COMMAND_LEN (zlen s)) as [Hle|Hlt].
  - eexists _, _. split; [done|]. split; [done|]. split; [done|]. intros H%Hsh. lia.
  - rewrite ztake_all by lia. by apply add_text_extends.
Qed.

Lemma line_no_nul (a b : list Z) :
  Forall (fun c => c <> 0) a -> Forall (fun c => c <> 0) b ->
  Forall (fun c => c <> 0) (a ++ b ++ line_end).
Proof. intros. repeat apply Forall_app_2; [done..|by repeat constructor]. Qed.

(** The line of the host. *)
Lemma host_line_ok v6_host AddressFamily host :
  v6_host = SSDP_IPV6_LINKLOCAL \/ v6_host = SSDP_IPV6_SITELOCAL ->
  host_line v6_host AddressFamily = Some host ->
  Forall (fun c => c <> 0) host /\ zlen host < COMMAND_LEN.
Proof.
  unfold host_line. intros Hv6. repeat case_match; intros [= <-]; [|destruct Hv6 as [-> | ->]];
    (split; [|by vm_compute]);
    match goal with |- Forall _ ?l => let v := eval vm_compute in l in change l with v end;
    by repeat constructor.
Qed.

(** The end of a request, the search target and the time. *)
Lemma end_extends size short b :
  zlen b < size ->
  extends size short b line_end (add_text size b line_end (fun b => Some (UPNP_E_SUCCESS, b))).
Proof.
  intros Hb. rewrite <- (app_nil_r line_end) at 1.
  apply add_text_extends; [done|by repeat constructor|]. intros H3.
  eexists _, _. split; [done|]. split; [done|]. split; [by rewrite app_nil_r|done].
Qed.
Definition short (SearchTarget : option (list Z)) : Prop :=
  match SearchTarget with Some st => strlen st <= 293 | None => True end.
Lemma target_extends size SearchTarget b :
  zlen b < size ->
  extends size (short SearchTarget) b
    (match SearchTarget with Some st => cs "ST: " ++ c_str st ++ line_end | None => [] end ++ line_end)
    ((match SearchTarget with
      | Some st => add_temp size b (cs "ST: " ++ c_str st ++ line_end)
      | None => fun k => k b
      end) (fun b => add_text size b line_end (fun b => Some (UPNP_E_SUCCESS, b)))).
Proof.
  intros Hb. destruct SearchTarget as [st|]; [|by apply end_extends].
  apply add_temp_extends; [done| | |by apply end_extends].
  - apply line_no_nul; [by repeat constructor|apply c_str_no_nul].
  - unfold short. rewrite !zlen_app. change (zlen (cs "ST: ")) with 4. change (zlen line_end) with 2.
    unfold strlen, COMMAND_LEN. lia.
Qed.
Lemma mx_extends size Mx SearchTarget b :
  zlen b < size ->
  extends size (short SearchTarget) b
    ((if 0 <? Mx then cs "MX: " ++ itoa Mx ++ line_end else []) ++
     match SearchTarget with Some st => cs "ST: " ++ c_str st ++ line_end | None => [] end ++ line_end)
    ((if 0 <? Mx then add_temp size b (cs "MX: " ++ itoa Mx ++ line_end) else fun k => k b) (fun b =>
     (match SearchTarget with
      | Some st => add_temp size b (cs "ST: " ++ c_str st ++ line_end)
      | None => fun k => k b
      end) (fun b => add_text size b line_end (fun b => Some (UPNP_E_SUCCESS, b))))).
Proof.
  intros Hb. destruct (0 <? Mx); [|by apply target_extends].
  apply add_temp_extends; [done| | |by apply target_extends].
  - apply line_no_nul; [by repeat constructor|apply itoa_nonzero].
  - intros _. rewrite !zlen_app. change (zlen (cs "MX: ")) with 4. change (zlen line_end) with 2.
    pose proof (zlen_itoa Mx). unfold COMMAND_LEN. lia.
Qed.

Lemma client_request_spec v6_host junk size Mx SearchTarget AddressFamily :
  v6_host = SSDP_IPV6_LINKLOCAL \/ v6_host = SSDP_IPV6_SITELOCAL ->
  exists rc buf,
    client_request v6_host junk size Mx SearchTarget AddressFamily = Some (rc, buf) /\
    (zlen buf < size \/ (size <= zlen COMMAND /\ buf = junk /\ rc = UPNP_E_INTERNAL_ERROR)) /\
    match host_line v6_host AddressFamily with
    | None => rc <> UPNP_E_SUCCESS
    | Some host =>
        (rc = UPNP_E_SUCCESS -> buf = request_text host Mx SearchTarget) /\
        (zlen (request_text host Mx SearchTarget) < size ->
         short SearchTarget -> rc = UPNP_E_SUCCESS)
    end.
Proof.
  intros Hv6. unfold client_request. change (strlen COMMAND) with (zlen COMMAND).
  destruct (Z.leb_spec size (zlen COMMAND)) as [Hle|Hlt].
  { eexists _, _. split; [done|]. split; [by right|]. destruct (host_line _ _); [|done].
    split; [done|]. unfold request_text. rewrite zlen_app.
    match goal with |- _ + zlen ?x < _ -> _ => pose proof (zlen_nonneg x) end. lia. }
  assert (strcat size [] (c_str COMMAND) = Some COMMAND) as E.
  { unfold strcat. change (c_str COMMAND) with COMMAND. rewrite zlen_nil.
    by rewrite (proj2 (Z.leb_le _ _)) by lia. }
  change (strcat size [] COMMAND) with (strcat size [] (c_str COMMAND)). rewrite E.
  cbn [mbind option_bind].
  destruct (host_line v6_host AddressFamily) as [host|] eqn:Eh.
  2:{ eexists _, _. split; [done|]. split; [by left|done]. }
  destruct (host_line_ok _ _ _ Hv6 Eh) as [Hhn Hhl].
  enough (extends size (short SearchTarget) COMMAND (zdrop (zlen COMMAND) (request_text host Mx SearchTarget))
    (add_temp size COMMAND host (fun b => add_text size b MAN (fun b =>
      (if 0 <? Mx then add_temp size b (cs "MX: " ++ itoa Mx ++ line_end) else fun k => k b) (fun b =>
      (match SearchTarget with
       | Some st => add_temp size b (cs "ST: " ++ c_str st ++ line_end)
       | None => fun k => k b
       end) (fun b => add_text size b line_end (fun b => Some (UPNP_E_SUCCESS, b)))))))) as
    (rc & b & -> & Hb & Ht & Hf).
  { eexists _, _. split; [done|]. split; [by left|].
    unfold request_text in *. rewrite zdrop_app_exact in Ht, Hf by done. split; [done|].
    rewrite zlen_app. intros. by apply Hf. }
  unfold request_text. rewrite zdrop_app_exact by done.
  apply add_temp_extends; [done..|]. intros H1.
  apply add_text_extends; [done|by repeat constructor|]. intros H2. by apply mx_extends.
Qed.

(** C14: [CreateClientRequestPacket] (and its variant for the other IPv6 scope)
    never writes behind the array it is given, whatever its size, the search
    target and the time: what is in the array stays shorter than the array.
    When it reports success the array holds the whole request, and it does so
    whenever the request and its terminator fit and the line of the search
    target fits the temporary array. *)
Theorem CreateClientRequestPacket_correct v6_host junk size Mx SearchTarget AddressFamily :
  v6_host = SSDP_IPV6_LINKLOCAL \/ v6_host = SSDP_IPV6_SITELOCAL ->
  exists rc buf,
    client_request v6_host junk size Mx SearchTarget AddressFamily = Some (rc, buf) /\
    (zlen buf < size \/ (size <= zlen COMMAND /\ buf = junk /\ rc = UPNP_E_INTERNAL_ERROR)) /\
    match host_line v6_host AddressFamily with
    | None => rc <> UPNP_E_SUCCESS
    | Some host =>
        (rc = UPNP_E_SUCCESS -> buf = request_text host Mx SearchTarget) /\
        (zlen (request_text host Mx SearchTarget) < size ->
         short SearchTarget -> rc = UPNP_E_SUCCESS)
    end.
Proof. apply client_request_spec. Qed.

Lemma CreateClientRequestPacket_correct_witness :
  exists rc buf,
    client_request SSDP_IPV6_LINKLOCAL [] 100 5 (Some (cs "ssdp:all")) AF_INET = Some (rc, buf) /\
    (zlen buf < 100 \/ (100 <= zlen COMMAND /\ buf = [] /\ rc = UPNP_E_INTERNAL_ERROR)) /\
    match host_line SSDP_IPV6_LINKLOCAL AF_INET with
    | None => rc <> UPNP_E_SUCCESS
    | Some host =>
        (rc = UPNP_E_SUCCESS -> buf = request_text host 5 (Some (cs "ssdp:all"))) /\
        (zlen (request_text host 5 (Some (cs "ssdp:all"))) < 100 -> strlen (cs "ssdp:all") <= 293 ->
         rc = UPNP_E_SUCCESS)
    end.
Proof.
  apply (CreateClientRequestPacket_correct SSDP_IPV6_LINKLOCAL [] 100 5 (Some (cs "ssdp:all")) AF_INET).
  by left.
Defined.

(** ** The life of a search *)

(** The request that is sent, for the address of a family. *)
Definition search_request (v6_host : list Z) (AddressFamily Mx : Z) (St : list Z) : list Z :=
  default [] ((fun host => request_text host (clamp_time Mx) (Some St)) <$>
    host_line v6_host AddressFamily).

Lemma search_request_made v6_host junk AddressFamily Mx St :
  v6_host = SSDP_IPV6_LINKLOCAL \/ v6_host = SSDP_IPV6_SITELOCAL ->
  AddressFamily = AF_INET \/ AddressFamily = AF_INET6 -> strlen St <= 293 ->
  client_request v6_host junk BUFSIZE (clamp_time Mx) (Some St) AddressFamily =
  Some (UPNP_E_SUCCESS, search_request v6_host AddressFamily Mx St).
Proof.
  intros Hv6 Haf Hst. assert (exists host, host_line v6_host AddressFamily = Some host) as [host Eh]
    by (destruct Haf as [-> | ->]; by eexists).
  destruct (client_request_spec v6_host junk BUFSIZE (clamp_time Mx) (Some St) AddressFamily Hv6)
    as (rc & buf & -> & _ & H). unfold search_request. rewrite Eh in *. destruct H as [Ht Hf].
  destruct (host_line_ok _ _ _ Hv6 Eh) as [_ Hl].
  assert (rc = UPNP_E_SUCCESS) as ->; [|by rewrite Ht].
  apply Hf; [|done]. unfold request_text. pose proof (zlen_itoa (clamp_time Mx)) as Hi.
  assert (zlen (if 0 <? clamp_time Mx then cs "MX: " ++ itoa (clamp_time Mx) ++ line_end else []) <= 71) as Hmx.
  { destruct (0 <? clamp_time Mx); [|by vm_compute]. rewrite !zlen_app.
    change (zlen (cs "MX: ")) with 4. change (zlen line_end) with 2. lia. }
  remember (if 0 <? clamp_time Mx then _ else _) as mx eqn:Emx. clear Emx.
  rewrite !zlen_app. change (zlen COMMAND) with 21. change (zlen MAN) with 22.
  change (zlen (cs "ST: ")) with 4. change (zlen line_end) with 2.
  unfold strlen, COMMAND_LEN, BUFSIZE in *. lia.
Qed.

Lemma take_search_found id l1 x l2 :
  Forall (fun y => sa_timeoutEventId y <> id) l1 -> sa_timeoutEventId x = id ->
  take_search id (l1 ++ x :: l2) = Some (x, l1 ++ l2).
Proof.
  intros Hl Hx. induction Hl as [|y l1 Hy Hl IH]; cbn [app take_search].
  - by rewrite (proj2 (Z.eqb_eq _ _) Hx).
  - rewrite (proj2 (Z.eqb_neq _ _) Hy), IH. done.
Qed.
Lemma take_search_none id l :
  Forall (fun y => sa_timeoutEventId y <> id) l -> take_search id l = None.
Proof.
  induction 1 as [|y l Hy Hl IH]; cbn [take_search]; [done|]. by rewrite (proj2 (Z.eqb_neq _ _) Hy), IH.
Qed.

Lemma client_found hnd a info :
  GetHandleInfo hnd a = (HND_CLIENT, Some info) ->
  HandleTable a !! hnd = Some info /\ hi_HType info = HND_CLIENT /\
  (forall l, set_searches hnd l a = set_handle hnd (Some (set_SsdpSearchList l info)) a).
Proof.
  unfold GetHandleInfo, set_searches. case_match; [done|]. destruct (HandleTable a !! hnd); [|done].
  by intros [= ? <-].
Qed.
Lemma client_after hnd a info l :
  GetHandleInfo hnd a = (HND_CLIENT, Some info) ->
  GetHandleInfo hnd (set_searches hnd l a) = (HND_CLIENT, Some (set_SsdpSearchList l info)).
Proof.
  intros H. destruct (client_found _ _ _ H) as (Hi & Ht & ->). unfold GetHandleInfo in *.
  destruct (_ || _); [done|]. cbn. rewrite lookup_partial_alter_eq. cbn. by rewrite Ht.
Qed.

Lemma searchExpired_found id hnd a cp info l1 x l2 :
  GetHandleInfo hnd a = (HND_CLIENT, Some info) -> hi_SsdpSearchList info = l1 ++ x :: l2 ->
  Forall (fun y => sa_timeoutEventId y <> id) l1 -> sa_timeoutEventId x = id ->
  searchExpired (MkExpArg hnd id) a cp =
  (set_searches hnd (l1 ++ l2) a,
   call (MkCall (hi_Callback info) UPNP_DISCOVERY_SEARCH_TIMEOUT None (sa_cookie x)) cp).
Proof.
  intros Ha Hl H1 Hx. unfold searchExpired. cbn [e_handle e_timeoutEventId]. rewrite Ha, Hl.
  by rewrite take_search_found.
Qed.
Lemma searchExpired_none id hnd a cp info :
  GetHandleInfo hnd a = (HND_CLIENT, Some info) ->
  Forall (fun y => sa_timeoutEventId y <> id) (hi_SsdpSearchList info) ->
  searchExpired (MkExpArg hnd id) a cp = (a, cp).
Proof.
  intros Ha Hl. unfold searchExpired. cbn [e_handle e_timeoutEventId]. by rewrite Ha, take_search_none.
Qed.

Lemma register_runs unset_id id sel Hnd t St Cookie type info a :
  runs Lucky (register_search unset_id (MkAnswers (Some id) true sel) Hnd t St Cookie type info a)
    (fun '(a', timeouts) =>
       a' = set_searches Hnd (hi_SsdpSearchList info ++
              [MkSearchArg id (Some (c_str St ++ [0])) Cookie type]) a /\
       timeouts = [(t, MkExpArg Hnd id)]).
Proof.
  unfold register_search, strdup. mstep. mstep; [|done]. mstep. eapply runs_liftO; [done|].
  mstep. mstep. mstep; [|done]. mstep. mstep. mstep; [|done]. mstep. eapply runs_liftO; [done|]. by mstep.
Qed.

Lemma clamp_time_range Mx : MIN_SEARCH_TIME <= clamp_time Mx <= MAX_SEARCH_TIME.
Proof. unfold clamp_time, MIN_SEARCH_TIME, MAX_SEARCH_TIME. repeat case_match; zbool; lia. Qed.

(** *** What is sent

    The text of a search, and who gets it: written out, without the functions of
    the code. *)
Definition crlf (s : string) : list Z := cs s ++ [13; 10].
Definition m_search (group : string) (seconds : Z) (St : list Z) : list Z :=
  crlf "M-SEARCH * HTTP/1.1" ++ cs "HOST: " ++ cs group ++ crlf ":1900" ++
  cs "MAN: " ++ [34] ++ cs "ssdp:discover" ++ [34; 13; 10] ++
  cs "MX: " ++ itoa seconds ++ [13; 10] ++ cs "ST: " ++ c_str St ++ [13; 10; 13; 10].
(** The seconds: as asked for, but at least 2 and at most 80. *)
Definition seconds (Mx : Z) : Z := Z.max 2 (Z.min 80 Mx).

Lemma seconds_clamp Mx : clamp_time Mx = seconds Mx.
Proof. unfold clamp_time, seconds, MIN_SEARCH_TIME, MAX_SEARCH_TIME. repeat case_match; zbool; lia. Qed.
Lemma request_is_m_search host group Mx St :
  host = cs "HOST: " ++ cs group ++ crlf ":1900" ->
  request_text host (clamp_time Mx) (Some St) = m_search group (seconds Mx) St.
Proof.
  intros ->. unfold request_text, m_search. rewrite seconds_clamp.
  rewrite (proj2 (Z.ltb_lt 0 _)) by (unfold seconds; lia).
  change COMMAND with (crlf "M-SEARCH * HTTP/1.1").
  change MAN with (cs "MAN: " ++ [34] ++ cs "ssdp:discover" ++ [34; 13; 10]).
  unfold line_end. by rewrite <- !app_assoc.
Qed.
Lemma search_requests Mx St :
  search_request SSDP_IPV6_LINKLOCAL AF_INET Mx St = m_search "239.255.255.250" (seconds Mx) St /\
  search_request SSDP_IPV6_LINKLOCAL AF_INET6 Mx St = m_search "[FF02::C]" (seconds Mx) St /\
  search_request SSDP_IPV6_SITELOCAL AF_INET6 Mx St = m_search "[FF05::C]" (seconds Mx) St.
Proof. split; [|split]; unfold search_request; by apply request_is_m_search. Qed.

(** C13: A search by a control point.  For a search target that is recognised
    and at most 293 characters long, with memory and a timer,
    [SearchByTarget] sends the request, with the target and the seconds it asks
    for (at least 2, at most 80), twice to 239.255.255.250 when the IPv4 socket
    is ready, and twice to each of FF05::C and FF02::C when the IPv6 socket is,
    and nothing else; it asks the timer for a timeout after these seconds, and
    adds the search to the list of the handle under the identifier of the
    timeout.  Whatever happens to the list in between, as long
    as the search is in it, [searchExpired] with the argument of that timeout
    takes exactly this search out and calls the application once, with the
    cookie of the search; another call for the same timeout does nothing. *)
Theorem SearchByTarget_correct junk inet_pton gIF_INDEX gIF_IPV4 sock4 sock6 unset_id
    ready4 ready6 id Hnd Mx St Cookie a info ip4 site link :
  inet_pton AF_INET (cs "239.255.255.250") = Some ip4 ->
  inet_pton AF_INET6 (cs "FF05::C") = Some site -> inet_pton AF_INET6 (cs "FF02::C") = Some link ->
  strlen gIF_IPV4 <= 0 \/ is_Some (inet_pton AF_INET gIF_IPV4) ->
  ssdp_request_type1 St <> SSDP_SERROR -> strlen St <= 293 ->
  GetHandleInfo Hnd a = (HND_CLIENT, Some info) ->
  let newArg := MkSearchArg id (Some (c_str St ++ [0])) Cookie (ssdp_request_type1 St) in
  runs Lucky
    (SearchByTarget junk inet_pton gIF_INDEX gIF_IPV4 sock4 sock6 unset_id
       (MkAnswers (Some id) true (Some (ready4, ready6))) Hnd Mx St Cookie a)
    (fun '(rc, a', se) =>
       rc = 1 /\
       se_timeouts se = [(seconds Mx, MkExpArg Hnd id)] /\
       se_sent se =
         (if sock6 && ready6 then
            let to ip := MkSockaddr AF_INET6 1900 ip gIF_INDEX in
            let site_search := (to site, m_search "[FF05::C]" (seconds Mx) St) in
            let link_search := (to link, m_search "[FF02::C]" (seconds Mx) St) in
            [site_search; site_search; link_search; link_search]
          else []) ++
         (if sock4 && ready4 then
            let search := (MkSockaddr AF_INET 1900 ip4 0, m_search "239.255.255.250" (seconds Mx) St) in
            [search; search]
          else []) /\
       GetHandleInfo Hnd a' =
         (HND_CLIENT, Some (set_SsdpSearchList (hi_SsdpSearchList info ++ [newArg]) info))) /\
  (forall a2 info2 l1 l2 cp,
     GetHandleInfo Hnd a2 = (HND_CLIENT, Some info2) -> hi_SsdpSearchList info2 = l1 ++ newArg :: l2 ->
     Forall (fun y => sa_timeoutEventId y <> id) (l1 ++ l2) ->
     let a3 := set_searches Hnd (l1 ++ l2) a2 in
     searchExpired (MkExpArg Hnd id) a2 cp =
       (a3, call (MkCall (hi_Callback info2) UPNP_DISCOVERY_SEARCH_TIMEOUT None Cookie) cp) /\
     searchExpired (MkExpArg Hnd id) a3 cp = (a3, cp)).
Proof.
  intros H4 H5 H2 Hif Ht Hst Ha newArg. split.
  - unfold SearchByTarget.
    replace ((0 <? strlen gIF_IPV4) && negb (bool_decide (is_Some (inet_pton AF_INET gIF_IPV4)))) with false.
    2:{ symmetry. apply andb_false_iff. destruct Hif as [?|Hs]; [left; by apply Z.ltb_ge|right].
        by rewrite bool_decide_true. }
    rewrite (bool_decide_false _ Ht).
    unfold CreateClientRequestPacket, CreateClientRequestPacketUlaGua.
    rewrite !search_request_made by (done || auto).
    do 3 (mstep; eapply runs_liftO; [reflexivity|]; cbv beta iota;
          change (negb (UPNP_E_SUCCESS =? UPNP_E_SUCCESS)) with false; cbv iota).
    rewrite Ha. mstep. eapply runs_mono; [by apply register_runs|].
    intros [a' timeouts] [-> ->]. apply runs_ret. split; [done|].
    split; [by rewrite seconds_clamp|]. split; [|by apply client_after].
    destruct (search_requests Mx St) as (E4 & E6 & E6u). cbn [se_sent]. unfold send_requests, search_addr.
    change SSDP_IP with (cs "239.255.255.250"). change SSDP_IPV6_SITELOCAL with (cs "FF05::C") in *.
    change SSDP_IPV6_LINKLOCAL with (cs "FF02::C") in *. rewrite H4, H5, H2, E4, E6, E6u. reflexivity.
  - intros a2 info2 l1 l2 cp Ha2 Hl Hf a3. apply Forall_app in Hf as Hf'. destruct Hf' as [H1 _]. split.
    + by apply (searchExpired_found id Hnd a2 cp info2 l1 newArg l2).
    + eapply searchExpired_none; [by apply client_after|done].
Qed.

Definition ex_client (l : list SsdpSearchArg) : Handle_Info :=
  MkHandle HND_CLIENT 7 0 0 [] [] [] 0 0 0 0 None [] [] (MkTable DNull [] None) 0 0 2 [] l.
Definition ex_api (l : list SsdpSearchArg) : api := MkApi {[1 := ex_client l]} 0 0.

Definition ex_pton (family : Z) (text : list Z) : option (list Z) := Some text.
Lemma SearchByTarget_correct_witness :
  runs Lucky
    (SearchByTarget [] ex_pton 0 [] true false 0
       (MkAnswers (Some 5) true (Some (true, false))) 1 200 (cs "ssdp:all") 9 (ex_api []))
    (fun '(rc, _, se) => rc = 1 /\ se_timeouts se = [(80, MkExpArg 1 5)] /\
       let search := (MkSockaddr AF_INET 1900 (cs "239.255.255.250") 0,
                      m_search "239.255.255.250" 80 (cs "ssdp:all")) in
       se_sent se = [search; search]) /\
  (let x := MkSearchArg 5 (Some (cs "ssdp:all" ++ [0])) 9 SSDP_ALL in
   let a := ex_api [x] in
   searchExpired (MkExpArg 1 5) a (MkCtrlpt [] [] []) =
     (set_searches 1 [] a, MkCtrlpt [MkCall 7 UPNP_DISCOVERY_SEARCH_TIMEOUT None 9] [] [])).
Proof.
  destruct (SearchByTarget_correct [] ex_pton 0 [] true false 0 true false 5 1 200
    (cs "ssdp:all") 9 (ex_api []) (ex_client []) (cs "239.255.255.250") (cs "FF05::C") (cs "FF02::C")
    eq_refl eq_refl eq_refl) as [H1 H2].
  - left. by vm_compute.
  - by vm_compute.
  - by vm_compute.
  - reflexivity.
  - split.
    + eapply runs_mono; [exact H1|]. intros [[rc a'] se] (? & ? & ? & _). by split.
    + cbv zeta.
      apply (H2 (ex_api [MkSearchArg 5 (Some (cs "ssdp:all" ++ [0])) 9 SSDP_ALL])
        (ex_client [MkSearchArg 5 (Some (cs "ssdp:all" ++ [0])) 9 SSDP_ALL]) [] []
        (MkCtrlpt [] [] [])); [reflexivity..|constructor].
Defined.

(** ** What goes wrong *)

(** Without memory for the search the code writes through [NULL]. *)
Fact search_without_memory :
  match SearchByTarget [] (fun _ _ => None) 0 [] true false 0
    (MkAnswers (Some 5) true (Some (true, false))) 1 200 (cs "ssdp:all") 9 (ex_api []) [false] with
  | Ret _ _ => false
  | _ => true
  end = true.
Proof. by vm_compute. Qed.

(** The request is a message that is accepted, and its target is recognised. *)
Definition no_names (host : list Z) : option (list sockaddr) := None.
Definition search_received (St : list Z) : option (bool * Z * list Z) :=
  run (
    '(_, data) ← readFromSSDPSocket 0 false
      (Some (search_request SSDP_IPV6_LINKLOCAL AF_INET 3 St, no_addr));
    '(parser, _) ← liftO data;
    '(rc, parser) ← start_event_handler 0 no_names (fun _ _ => None) 0 parser;
    let hmsg := p_msg parser in
    hd ← liftO (header_ptr hmsg HDR_ST);
    mret (m_method hmsg =? HTTPMETHOD_MSEARCH, rc, terminated_value hd)).
Fact search_is_received :
  search_received (cs "urn:schemas-upnp-org:device:tvdevice:1") =
  Some (true, 0, cs "urn:schemas-upnp-org:device:tvdevice:1").
Proof. vm_compute. reflexivity. Qed.
