(* ===== verification/SsdpPackets.v ===== *)
(** The packets of [SsdpDevice]: the lines of a reply and of a notification, and
    that [CreateServicePacket] makes them and [NewRequestHandler] sends them. *)

From S2P Require Import Prelude CString FreeList MemBuffer StrIntMap HttpTables Uri Scanner HttpMessage HttpParser Sock HttpMake IxmlNode IxmlDocument GenaQueue ServiceTable HandleTable Ssdp SsdpDevice.

(** ** The texts *)

Section Packets.
Context (junk : Z).
Context (getaddrinfo : list Z -> option (list sockaddr))
  (inet_pton : Z -> list Z -> option (list Z)) (gIF_INDEX : Z).
Context (sysname release UPNP_VERSION_STRING : list Z).
Context (gmtime : Z -> option tm) (now : Z) (codes : statcodes).
Context (gIF_IPV4 gUpnpSdkNLSuuid stack : list Z).
(** The table of codes is as it was or initialised; the time has a date. *)
Context (Hcodes : gInitialized codes = true -> codes = init_tables).
Context (date : list Z) (Hdate : date_line gmtime now = Some date).

Definition int_ok (n : Z) : Prop := 0 <= n <= INT_MAX.
Definition power_ok (ps : low_power) : Prop :=
  0 < PowerState ps -> int_ok (PowerState ps) /\ int_ok (SleepPeriod ps) /\ int_ok (RegistrationState ps).

Definition power_lines (ps : low_power) : list Z :=
  if 0 <? PowerState ps then
    line (cs "Powerstate: " ++ itoa (PowerState ps)) ++ line (cs "SleepPeriod: " ++ itoa (SleepPeriod ps)) ++
    line (cs "RegistrationState: " ++ itoa (RegistrationState ps))
  else [].
Definition server_line : list Z :=
  cs "SERVER: " ++ product sysname release UPNP_VERSION_STRING.
Definition opt_lines : list Z :=
  line (cs "OPT: " ++ OPT) ++ line (cs "01-NLS: " ++ c_str gUpnpSdkNLSuuid).
Definition age_line (duration : Z) : list Z := line (cs "CACHE-CONTROL: max-age=" ++ itoa duration).

Definition reply_text (nt usn location : list Z) (duration : Z) (ps : low_power) : list Z :=
  line (cs "HTTP/1.1 200 OK") ++ age_line duration ++ date ++ line (cs "EXT:") ++
  line (cs "LOCATION: " ++ c_str location) ++ opt_lines ++ server_line ++
  line (cs "X-User-Agent: " ++ X_USER_AGENT) ++ line (cs "ST: " ++ c_str nt) ++
  line (cs "USN: " ++ c_str usn) ++ power_lines ps ++ EOL.

Definition notify_text (host nts nt usn location : list Z) (duration : Z) (ps : low_power) : list Z :=
  line (cs "NOTIFY * HTTP/1.1") ++ line (cs "HOST: " ++ c_str host ++ cs ":1900") ++
  age_line duration ++ line (cs "LOCATION: " ++ c_str location) ++ opt_lines ++
  line (cs "NT: " ++ c_str nt) ++ line (cs "NTS: " ++ c_str nts) ++ server_line ++
  line (cs "X-User-Agent: " ++ X_USER_AGENT) ++ line (cs "USN: " ++ c_str usn) ++
  power_lines ps ++ EOL.

Local Abbreviation char_text := (char_text sysname release UPNP_VERSION_STRING gmtime now 1 1).
Local Abbreviation message_text := (message_text sysname release UPNP_VERSION_STRING gmtime now 1 1).

Lemma message_cons c fmt args args' t u :
  char_text c args = Some (t, args') -> message_text fmt args' = Some u ->
  message_text (c :: fmt) args = Some (t ++ u).
Proof. intros Hc Hm. cbn [HttpMake.message_text]. rewrite Hc. cbn [mbind option_bind]. by rewrite Hm. Qed.

Lemma text_d n args : int_ok n -> char_text $"d" (AInt n :: args) = Some (itoa n, args).
Proof.
  intros Hn. unfold int_ok in Hn. unfold HttpMake.char_text. cbn [Z.eqb Pos.eqb].
  by rewrite (proj2 (Z.leb_le 0 n)), (proj2 (Z.leb_le n _)) by lia.
Qed.
Lemma text_D args : char_text $"D" args = Some (date, args).
Proof. unfold HttpMake.char_text. cbn [Z.eqb Pos.eqb]. by rewrite Hdate. Qed.
Lemma text_R args :
  char_text $"R" (AInt HTTP_OK :: args) = Some (line (cs "HTTP/1.1 200 OK"), args).
Proof. reflexivity. Qed.
Lemma text_Q args :
  char_text $"Q" (AInt HTTPMETHOD_NOTIFY :: lit_arg "*" :: ASize 1 :: args) =
  Some (line (cs "NOTIFY * HTTP/1.1"), args).
Proof. reflexivity. Qed.
Lemma text_s s args : char_text $"s" (AStr (Some s) :: args) = Some (c_str s, args).
Proof. reflexivity. Qed.
Lemma text_c args : char_text $"c" args = Some (EOL, args).
Proof. reflexivity. Qed.
Lemma text_X s args : char_text $"X" (AStr (Some s) :: args) = Some (cs "X-User-Agent: " ++ c_str s, args).
Proof. reflexivity. Qed.
Lemma text_S args : char_text $"S" args = Some (server_line, args).
Proof. reflexivity. Qed.

Lemma message_is fmt args t u : message_text fmt args = Some t -> t = u -> message_text fmt args = Some u.
Proof. by intros ? <-. Qed.

Ltac message :=
  unfold power_args, reply_args, notify_args, opt_args, lit, lit_arg; cbn [app];
  lazymatch goal with |- HttpMake.message_text _ _ _ _ _ _ _ (cs ?f) _ = _ =>
    let v := eval vm_compute in (cs f) in change (cs f) with v end;
  repeat (eapply message_cons;
    [lazymatch goal with |- HttpMake.char_text _ _ _ _ _ _ _ ?c _ = _ =>
       lazymatch c with
       | 115 => apply text_s | 99 => apply text_c | 100 => apply text_d; assumption
       | 68 => apply text_D | 83 => apply text_S | 88 => apply text_X | 82 => apply text_R
       | 81 => apply text_Q
       end end|]);
  reflexivity.

Ltac lines :=
  unfold age_line, opt_lines, line; rewrite <- ?app_assoc, ?app_nil_r;
  repeat match goal with |- context [c_str (cs ?x)] => change (c_str (cs x)) with (cs x) end;
  change (c_str OPT) with OPT; change (c_str X_USER_AGENT) with X_USER_AGENT;
  change (itoa SSDP_PORT) with (cs "1900"); reflexivity.

Lemma reply_message nt usn location duration ps :
  int_ok duration -> power_ok ps ->
  message_text
    (if 0 <? PowerState ps then cs "RsdcDscsscsscsscSXcsscsscsdcsdcsdcc" else cs "RsdcDscsscsscsscSXcsscsscc")
    (reply_args gUpnpSdkNLSuuid nt usn location duration ++
     if 0 <? PowerState ps then power_args ps else []) =
  Some (reply_text nt usn location duration ps).
Proof.
  intros Hd Hp. unfold power_ok in Hp. unfold reply_text, power_lines.
  destruct (Z.ltb_spec 0 (PowerState ps)) as [Hpos|_]; [destruct (Hp Hpos) as (? & ? & ?)|];
    (eapply message_is; [message|lines]).
Qed.

Lemma notify_message host nts nt usn location duration ps :
  int_ok duration -> power_ok ps ->
  message_text
    (if 0 <? PowerState ps then cs "QsssdcsdcsscsscsscsscsscSXcsscsdcsdcsdcc"
     else cs "QsssdcsdcsscsscsscsscsscSXcsscc")
    (notify_args gUpnpSdkNLSuuid host nts nt usn location duration ++
     if 0 <? PowerState ps then power_args ps else []) =
  Some (notify_text host nts nt usn location duration ps).
Proof.
  intros Hd Hp. unfold power_ok in Hp. unfold notify_text, power_lines.
  assert (int_ok SSDP_PORT) by done.
  destruct (Z.ltb_spec 0 (PowerState ps)) as [Hpos|_]; [destruct (Hp Hpos) as (? & ? & ?)|];
    (eapply message_is; [message|lines]).
Qed.

(** The multicast group of a URL: by address family, and for IPv6 by the scope of
    the address between the brackets; [None] where there is no address. *)
Definition bracketed (url : list Z) : option (list Z) :=
  '(i, _) ← list_find (eq $"[") (c_str url);
  let rest := drop (S i) (c_str url) in
  '(j, _) ← list_find (eq $"]") rest;
  Some (take j rest).
(** fe80::/10 *)
Definition link_local (a : list Z) : bool :=
  match a with x :: y :: _ => (x =? 254) && (128 <=? y) && (y <=? 191) | _ => false end.
Definition group_of (AddressFamily : Z) (location : list Z) : option (list Z) :=
  if decide (AddressFamily = AF_INET) then Some (cs "239.255.255.250")
  else if decide (AddressFamily = AF_INET6) then
    text ← bracketed location;
    if 46 <=? zlen text then None
    else
      a ← inet_pton AF_INET6 text;
      if forallb (fun x => (0 <=? x) && (x <=? 255)) a
      then Some (if link_local a then cs "FF02::C" else cs "FF05::C") else None
  else None.
Definition group_header (AddressFamily : Z) (location : list Z) : option (list Z) :=
  group ← group_of AddressFamily location;
  Some (if decide (AddressFamily = AF_INET6) then cs "[" ++ group ++ cs "]" else group).
Definition dest_of (AddressFamily : Z) (location : list Z) : option sockaddr :=
  group ← group_of AddressFamily location;
  ip ← inet_pton AddressFamily group;
  Some (MkSockaddr AddressFamily 1900 ip (if decide (AddressFamily = AF_INET6) then gIF_INDEX else 0)).

(** The packet of a type of message; [None] where the address does not fit. *)
Definition packet_text (type : msg_type) (nt usn location : list Z) (duration AddressFamily : Z)
    (ps : low_power) : option (list Z) :=
  match type with
  | MSGTYPE_REPLY => Some (reply_text nt usn location duration ps)
  | _ =>
      let nts := match type with MSGTYPE_ADVERTISEMENT => cs "ssdp:alive" | _ => cs "ssdp:byebye" end in
      host ← group_header AddressFamily location;
      Some (notify_text host nts nt usn location duration ps)
  end.

Ltac no_nul :=
  repeat match goal with
  | |- Forall _ (_ ++ _) => apply Forall_app_2
  | |- Forall _ (c_str _) => apply c_str_no_nul
  | |- Forall _ (itoa _) => apply itoa_nonzero
  | |- Forall _ (if _ then _ else _) => case_match
  | |- Forall _ date => by eapply date_line_no_nul
  | |- Forall _ (product _ _ _) => apply c_str_no_nul
  | |- Forall _ [] => constructor
  | |- Forall _ (line _) => unfold line
  | |- Forall _ (age_line _) => unfold age_line
  | |- Forall _ opt_lines => unfold opt_lines
  | |- Forall _ server_line => unfold server_line
  | |- Forall _ (power_lines _) => unfold power_lines
  | |- Forall _ (cs ?x) => let v := eval vm_compute in (cs x) in change (cs x) with v
  end; try (by repeat (apply List.Forall_cons; [discriminate|])).

Lemma packet_no_nul type nt usn location duration AddressFamily ps t :
  packet_text type nt usn location duration AddressFamily ps = Some t -> Forall (fun c => c <> 0) t.
Proof.
  destruct type; cbn [packet_text]; intros H; try (destruct (group_header _ _); [|done]; cbn [mbind option_bind] in H);
    apply (inj Some) in H as <-; unfold notify_text, reply_text; no_nul.
Qed.

(** The code finds the same group. *)
Lemma list_find_span c (l : list Z) i :
  fst <$> list_find (eq c) l = Some i -> span (fun x => negb (x =? c)) l = Z.of_nat i /\ (i < length l)%nat.
Proof.
  revert i. induction l as [|x l IH]; intros i; cbn [list_find span]; [done|].
  destruct (decide (c = x)) as [->|Hne].
  - intros [= <-]. rewrite Z.eqb_refl. cbn. lia.
  - rewrite (proj2 (Z.eqb_neq x c)) by done. cbn [negb]. destruct (list_find (eq c) l) as [[k y]|]; [|done].
    intros [= <-]. destruct (IH k eq_refl) as [-> ?]. cbn. lia.
Qed.
Lemma bracketed_extract url a :
  bracketed url = Some a -> zlen a < 46 -> extractIPv6address url = Some (Some a).
Proof.
  unfold bracketed, extractIPv6address. intros H Hl. apply bind_Some in H as ([i x] & Hi & H).
  apply bind_Some in H as ([j y] & Hj & H). apply (inj Some) in H as <-.
  destruct (list_find_span $"[" (c_str url) i) as [Ei Li]; [by rewrite Hi|].
  destruct (list_find_span $"]" (drop (S i) (c_str url)) j) as [Ej Lj]; [by rewrite Hj|].
  rewrite Ei, (proj2 (Z.eqb_neq _ _)) by (unfold zlen; lia).
  assert (zdrop (Z.of_nat i + 1) (c_str url) = drop (S i) (c_str url)) as ->
    by (unfold zdrop; f_equal; lia).
  assert (zlen (take j (drop (S i) (c_str url))) = Z.of_nat j) as Et
    by (unfold zlen; rewrite length_take_le by lia; done).
  rewrite Et in Hl. unfold INET6_ADDRSTRLEN. rewrite Ej.
  rewrite (proj2 (Z.ltb_ge _ _)), (proj2 (Z.eqb_neq _ _)), (proj2 (Z.leb_gt _ _)) by (unfold zlen; lia).
  unfold ztake. by rewrite Nat2Z.id.
Qed.
Lemma link_local_spec a :
  forallb (fun x => (0 <=? x) && (x <=? 255)) a = true -> is_linklocal a = link_local a.
Proof.
  intros Ha. unfold is_linklocal, link_local.
  assert (forall y, 0 <= y <= 255 -> (Z.land y 192 =? 128) = (128 <=? y) && (y <=? 191)) as Hland.
  { intros y Hy. assert (forallb (fun y => bool_decide ((Z.land y 192 =? 128) = (128 <=? y) && (y <=? 191)))
      (seqZ 0 256) = true) as Hall by (vm_compute; reflexivity).
    rewrite forallb_forall in Hall. apply (bool_decide_eq_true_1 _), Hall, list_elem_of_In, elem_of_seqZ. lia. }
  destruct a as [|x [|y a]]; cbn [forallb] in Ha; [done| |].
  - change (rd [x] 1) with 0. by rewrite andb_false_r.
  - change (rd (x :: y :: a) 0) with x. change (rd (x :: y :: a) 1) with y.
    rewrite Hland, andb_assoc; [done|]. zbool. lia.
Qed.
Lemma group_of_v6 location g :
  group_of AF_INET6 location = Some g ->
  exists ula, isUrlV6UlaGua inet_pton stack location = Some ula /\
    g = if ula : bool then SSDP_IPV6_SITELOCAL else SSDP_IPV6_LINKLOCAL.
Proof.
  unfold group_of. rewrite decide_False, decide_True by done. intros H.
  apply bind_Some in H as (text & Hb & H). destruct (Z.leb_spec 46 (zlen text)); [done|].
  apply bind_Some in H as (a & Ha & H). destruct (forallb _ a) eqn:Hf; [|done]. apply (inj Some) in H as <-.
  unfold isUrlV6UlaGua. rewrite (bracketed_extract _ _ Hb) by done. cbn [mbind option_bind].
  eexists. split; [done|]. rewrite Ha. change (default stack (Some a)) with a. rewrite link_local_spec by done. destruct (link_local a); reflexivity.
Qed.
Lemma host_of_text AddressFamily location h :
  group_header AddressFamily location = Some h -> host_text inet_pton stack AddressFamily location = Some h.
Proof.
  unfold group_header, host_text. intros H. apply bind_Some in H as (g & Hg & H). apply (inj Some) in H as <-.
  destruct (Z.eqb_spec AddressFamily AF_INET) as [->|Hne].
  - unfold group_of in Hg. rewrite decide_True in Hg by done. apply (inj Some) in Hg as <-. done.
  - destruct (decide (AddressFamily = AF_INET6)) as [->|Hn6].
    + destruct (group_of_v6 _ _ Hg) as (ula & -> & ->). done.
    + unfold group_of in Hg. by rewrite !decide_False in Hg.
Qed.
Lemma dest_of_multicast AddressFamily location d :
  dest_of AddressFamily location = Some d ->
  multicast_addr inet_pton gIF_INDEX stack AddressFamily location = Some d /\ ss_family d = AddressFamily /\
  (AddressFamily = AF_INET \/ AddressFamily = AF_INET6).
Proof.
  unfold dest_of, multicast_addr. intros H. apply bind_Some in H as (g & Hg & H).
  apply bind_Some in H as (ip & Hip & H). apply (inj Some) in H as <-.
  destruct (Z.eqb_spec AddressFamily AF_INET) as [->|Hne].
  - unfold group_of in Hg. rewrite decide_True in Hg by done. apply (inj Some) in Hg as <-.
    change (cs "239.255.255.250") with SSDP_IP in Hip. rewrite Hip. by split; [|split; [|left]].
  - destruct (decide (AddressFamily = AF_INET6)) as [->|Hn6].
    + destruct (group_of_v6 _ _ Hg) as (ula & -> & ->). cbn [Z.eqb Pos.eqb mbind option_bind AF_INET6].
      rewrite Hip. by split; [|split; [|right]].
    + unfold group_of in Hg. by rewrite !decide_False in Hg.
Qed.

(** The block of a packet that was made. *)
Lemma detached_text buf t :
  extended (Membuffer None 0 0 30) t buf -> t <> [] -> Forall (fun c => c <> 0) t ->
  exists b, fst (membuffer_detach buf) = Some b /\ c_str b = t.
Proof.
  intros [(Hw & Hc & _) Ht] Hne Hno. change (contents (Membuffer None 0 0 30)) with (@nil Z) in Hc.
  cbn [app] in Hc. pose proof (zlen_contents _ Hw) as Hl. rewrite Hc in Hl.
  assert (terminated buf) as (b & Hb & H0).
  { apply Ht; [by intros []|]. rewrite <- Hl. destruct t; [done|]. rewrite zlen_cons.
    pose proof (zlen_nonneg t). lia. }
  exists b. split; [exact Hb|]. unfold contents in Hc. rewrite Hb in Hc. change (default [] (Some b)) with b in Hc.
  destruct Hw as [Hlen Hcap _ Hblock]. rewrite Hb in Hblock.
  assert (zdrop (mb_length buf) b = rd b (mb_length buf) :: zdrop (mb_length buf + 1) b) as Ed
    by (apply zdrop_rd; lia).
  rewrite <- (ztake_zdrop (mb_length buf) b), Hc, Ed, H0. rewrite c_str_app by done. cbn.
  apply app_nil_r.
Qed.

(** [CreateServicePacket] makes the text, or nothing without memory. *)
Lemma CreateServicePacket_runs md type nt usn location duration AddressFamily ps t :
  packet_text type nt usn location duration AddressFamily ps = Some t ->
  int_ok duration -> power_ok ps -> zlen t <= MB_MAX ->
  runs md (CreateServicePacket junk inet_pton sysname release UPNP_VERSION_STRING gmtime now codes
             gUpnpSdkNLSuuid stack type nt usn location duration AddressFamily ps)
    (fun r => match r with Some p => c_str p = t | None => md <> Lucky end).
Proof.
  intros Ht Hd Hp Hl. pose proof (packet_no_nul _ _ _ _ _ _ _ _ Ht) as Hno.
  assert (t <> []) as Hne.
  { destruct type; cbn [packet_text] in Ht; try (destruct (group_header _ _); [|done]; cbn [mbind option_bind] in Ht);
      by apply (inj Some) in Ht as <-. }
  assert (fits (Membuffer None 0 0 30) t) as Hf.
  { split; [|done]. split; cbn; unfold MB_MAX, INT_MAX; lia || done. }
  assert (forall (m : M (Z * membuffer)), runs md m (message_ok md (Membuffer None 0 0 30) t) ->
    runs md ('(ret_code, buf) ← m;
             mret (if negb (ret_code =? 0) then None else fst (membuffer_detach buf)))
      (fun r => match r with Some p => c_str p = t | None => md <> Lucky end)) as Hend.
  { intros m Hm. mstep. eapply runs_mono; [exact Hm|].
    intros [rc b] [[Hr Hx]|(Hmd & Hr & _)]; cbn [fst snd] in *; subst rc; apply runs_ret; [|done].
    cbn [Z.eqb negb]. destruct (detached_text _ _ Hx Hne Hno) as (p & -> & Hp'). exact Hp'. }
  unfold CreateServicePacket. apply Hend. unfold http_MakeMessage.
  destruct type; cbn [packet_text] in Ht;
    try (destruct (group_header _ _) as [host|] eqn:Eh; [|done]; cbn [mbind option_bind] in Ht; mstep;
         eapply runs_liftO; [by apply host_of_text|]);
    apply (inj Some) in Ht as <-.
  1: pose proof (notify_message host (cs "ssdp:byebye") nt usn location duration ps Hd Hp) as Hm.
  2: pose proof (notify_message host (cs "ssdp:alive") nt usn location duration ps Hd Hp) as Hm.
  3: pose proof (reply_message nt usn location duration ps Hd Hp) as Hm.
  all: destruct (0 <? PowerState ps); rewrite ?app_nil_r in Hm; by apply message_makes.
Qed.

(** ** Sending *)

Context (Hif : strlen gIF_IPV4 <= 0 \/ is_Some (inet_pton AF_INET gIF_IPV4)).

Definition family_ok (family : Z) : Prop := family = AF_INET \/ family = AF_INET6.

(** Sockets are there and take what they are given. *)
Definition working (u : udp) : Prop := Forall (eq true) (ud_socket u) /\ Forall (eq true) (ud_sendto u).

(** After sending [l], from [u]: every socket is closed, and on a network that
    works, with memory, exactly [l] was sent. *)
Definition sent_ok (md : mode) (l : list (sockaddr * list Z)) (u u' : udp) : Prop :=
  ud_open u' = ud_open u /\
  (md = Lucky -> working u -> working u' /\ ud_sent u' = ud_sent u ++ l).

Lemma sent_nothing md u : sent_ok md [] u u.
Proof. split; [done|]. intros. by rewrite app_nil_r. Qed.
Lemma sent_app md l k u1 u2 u3 : sent_ok md l u1 u2 -> sent_ok md k u2 u3 -> sent_ok md (l ++ k) u1 u3.
Proof.
  intros [E1 H1] [E2 H2]. split; [congruence|]. intros Hmd Hw. destruct (H1 Hmd Hw) as [W2 S2].
  destruct (H2 Hmd W2) as [W3 S3]. split; [done|]. by rewrite S3, S2, app_assoc.
Qed.

Lemma head_true l : Forall (eq true) l -> default true (head l) = true /\ Forall (eq true) (tail l).
Proof. by destruct 1 as [|b l <- Hl]. Qed.

Lemma send_packets_ok DestAddr packets u :
  let '(rc, u') := send_packets DestAddr packets u in
  ud_open u' = ud_open u /\
  (working u -> working u' /\ ud_sent u' = ud_sent u ++ ((fun p => (DestAddr, c_str p)) <$> packets)).
Proof.
  revert u. induction packets as [|p packets IH]; intros u; cbn [send_packets].
  { split; [done|]. by rewrite app_nil_r. }
  unfold sendto. destruct (default true (head (ud_sendto u))) eqn:E.
  - set (u1 := MkUdp _ _ _ _). specialize (IH u1). destruct (send_packets DestAddr packets u1) as [rc u2].
    destruct IH as [IH1 IH2]. split; [done|]. intros [Hs Ht].
    destruct IH2 as [W S2]; [split; [done|by apply head_true]|]. split; [done|].
    rewrite S2. subst u1. cbn. by rewrite <- app_assoc.
  - split; [done|]. intros [_ Ht]. apply head_true in Ht as [H _]. congruence.
Qed.

Lemma handler_ok md DestAddr packets u :
  family_ok (ss_family DestAddr) ->
  sent_ok md ((fun p => (DestAddr, c_str p)) <$> packets) u
    (NewRequestHandler inet_pton gIF_IPV4 DestAddr packets u).2.
Proof.
  intros Hf. unfold NewRequestHandler.
  replace ((0 <? strlen gIF_IPV4) && negb (bool_decide (is_Some (inet_pton AF_INET gIF_IPV4)))) with false.
  2:{ symmetry. apply andb_false_iff. destruct Hif as [?|Hs]; [left; by apply Z.ltb_ge|right].
      by rewrite bool_decide_true. }
  unfold open_socket. replace ((ss_family DestAddr =? AF_INET) || (ss_family DestAddr =? AF_INET6)) with true
    by (by destruct Hf as [-> | ->]).
  destruct (default true (head (ud_socket u))) eqn:E; cbn [negb].
  - set (u1 := MkUdp _ _ _ _). pose proof (send_packets_ok DestAddr packets u1) as H.
    destruct (send_packets DestAddr packets u1) as [rc u2]. destruct H as [H1 H2].
    cbn [snd]. split; [cbn; rewrite H1; cbn; lia|]. intros _ [Hs Ht].
    destruct H2 as [W S2]; [split; [by apply head_true|done]|]. done.
  - cbn [snd]. split; [done|]. intros _ [Hs _]. apply head_true in Hs as [H _]. congruence.
Qed.

(** A message that was made of [t], or not for want of memory. *)
Definition msg_ok (md : mode) (m : option (list Z)) (t : list Z) : Prop :=
  match m with Some p => c_str p = t | None => md <> Lucky end.

Lemma send_all_ok md DestAddr msgs texts u :
  family_ok (ss_family DestAddr) -> Forall2 (msg_ok md) msgs texts ->
  sent_ok md (pair DestAddr <$> texts) u (send_all inet_pton gIF_IPV4 DestAddr msgs u).2.
Proof.
  intros Hf Hm. unfold send_all. destruct (mapM (fun m => m) msgs) as [packets|] eqn:E.
  - assert (pair DestAddr <$> texts = (fun p => (DestAddr, c_str p)) <$> packets) as ->.
    { apply mapM_Some_1 in E. revert texts Hm. induction E as [|m p msgs packets Hp E IH]; intros texts Hm.
      - by inv Hm.
      - inv Hm as [|? t ? texts' Ht Hm']. cbn. by rewrite (IH _ Hm'), <- Ht. }
    by apply handler_ok.
  - split; [done|]. intros -> _. exfalso. apply mapM_None_1, Exists_exists in E as (m & Hin & ->).
    apply list_elem_of_lookup in Hin as [i Hi]. destruct (Forall2_lookup_l _ _ _ _ _ Hm Hi) as (t & _ & Ht).
    by apply Ht.
Qed.

(** ** What is announced

    A name is the type in NT or ST and the unique service name.  [sends m l]:
    [m] sends [l]. *)

Definition name : Type := list Z * list Z.
Definition usn_of (udn kind : list Z) : list Z := c_str udn ++ cs "::" ++ c_str kind.
Definition device_names (root : bool) (udn type : list Z) : list name :=
  (if root then [(ROOT, usn_of udn ROOT)] else []) ++ [(udn, udn); (type, usn_of udn type)].

Definition sends (md : mode) (m : udp -> M (Z * udp)) (l : list (sockaddr * list Z)) : Prop :=
  forall u, runs md (m u) (fun r => sent_ok md l u r.2).

Section Group.
Context (md : mode) (type : msg_type) (location : list Z) (duration family : Z) (ps : low_power).
Context (Hd : int_ok duration) (Hp : power_ok ps).

(** The packet exists and fits, and so does the name. *)
Definition name_ok (n : name) : Prop :=
  exists t, packet_text type n.1 n.2 location duration family ps = Some t /\ zlen t <= MB_MAX /\
    zlen n.1 < LINE_SIZE /\ zlen n.2 < LINE_SIZE.
Definition text_of (n : name) : list Z :=
  default [] (packet_text type n.1 n.2 location duration family ps).

Local Abbreviation packet nt usn :=
  (CreateServicePacket junk inet_pton sysname release UPNP_VERSION_STRING gmtime now codes
     gUpnpSdkNLSuuid stack type nt usn location duration family ps).

Lemma packet_runs nt usn :
  name_ok (nt, usn) -> runs md (packet nt usn) (fun m => msg_ok md m (text_of (nt, usn))).
Proof.
  intros (t & Ht & Hl & _). unfold text_of. rewrite Ht. eapply runs_mono; [by apply CreateServicePacket_runs|].
  by intros [p|].
Qed.

Lemma line_text_fits s : zlen s < LINE_SIZE -> line_text s = Some s.
Proof.
  intros H. unfold line_text, snprintf. rewrite (proj2 (Z.leb_gt _ _)) by done. by rewrite ztake_all by lia.
Qed.
Lemma usn_text_fits udn kind : zlen (usn_of udn kind) < LINE_SIZE -> usn_text udn kind = Some (usn_of udn kind).
Proof. apply line_text_fits. Qed.
End Group.

Section Messages.
Context (md : mode) (location : list Z) (duration family : Z) (ps : low_power).
Context (Hd : int_ok duration) (Hp : power_ok ps).
Local Abbreviation dm := (device_messages junk inet_pton gIF_INDEX sysname release UPNP_VERSION_STRING
  gmtime now codes gIF_IPV4 gUpnpSdkNLSuuid stack).

Lemma device_messages_sends type DevType root Udn dest :
  multicast_addr inet_pton gIF_INDEX stack family location = Some dest -> family_ok (ss_family dest) ->
  Forall (name_ok type location duration family ps) (device_names root Udn DevType) ->
  sends md (dm type DevType root Udn location duration family ps)
    (pair dest <$> (text_of type location duration family ps <$> device_names root Udn DevType)).
Proof.
  intros Hdest Hf Hn u. unfold device_messages. mstep. eapply runs_liftO; [exact Hdest|].
  unfold device_names in *. apply Forall_app in Hn as [Hr Hn].
  apply Forall_cons in Hn as [H1 Hn]. apply Forall_cons in Hn as [H2 _].
  assert (usn_text Udn DevType = Some (usn_of Udn DevType)) as E2
    by (apply usn_text_fits; by destruct H2 as (? & _ & _ & _ & ?)).
  destruct root.
  - apply Forall_cons in Hr as [H0 _].
    rewrite usn_text_fits by (by destruct H0 as (? & _ & _ & _ & ?)).
    mstep. eapply runs_mono; [by apply packet_runs|]. intros m0 Hm0.
    mstep. eapply runs_mono; [by apply packet_runs|]. intros m1 Hm1. rewrite E2.
    mstep. eapply runs_mono; [by apply packet_runs|]. intros m2 Hm2.
    apply runs_ret. apply send_all_ok; [done|]. by repeat constructor.
  - mstep. apply runs_ret.
    mstep. eapply runs_mono; [by apply packet_runs|]. intros m1 Hm1. rewrite E2.
    mstep. eapply runs_mono; [by apply packet_runs|]. intros m2 Hm2.
    apply runs_ret. apply send_all_ok; [done|]. by repeat constructor.
Qed.

Lemma service_message_sends type Udn ServType dest :
  multicast_addr inet_pton gIF_INDEX stack family location = Some dest -> family_ok (ss_family dest) ->
  name_ok type location duration family ps (ServType, usn_of Udn ServType) ->
  sends md (service_message junk inet_pton gIF_INDEX sysname release UPNP_VERSION_STRING gmtime now codes
      gIF_IPV4 gUpnpSdkNLSuuid stack type Udn ServType location duration family ps)
    [(dest, text_of type location duration family ps (ServType, usn_of Udn ServType))].
Proof.
  intros Hdest Hf Hn u. unfold service_message. mstep. eapply runs_liftO; [exact Hdest|].
  rewrite usn_text_fits by (by destruct Hn as (? & _ & _ & _ & ?)).
  mstep. eapply runs_mono; [by apply packet_runs|]. intros m Hm.
  apply runs_ret. apply (send_all_ok md dest [m] [text_of type location duration family ps (ServType, usn_of Udn ServType)]); [done|].
  by repeat constructor.
Qed.
End Messages.

Section Replies.
Context (md : mode) (DestAddr : sockaddr) (location : list Z) (duration : Z) (ps : low_power).
Context (Hd : int_ok duration) (Hp : power_ok ps) (Hf : family_ok (ss_family DestAddr)).
Local Abbreviation ok := (name_ok MSGTYPE_REPLY location duration (ss_family DestAddr) ps).
Local Abbreviation text := (text_of MSGTYPE_REPLY location duration (ss_family DestAddr) ps).
Local Abbreviation reply f := (f junk inet_pton sysname release UPNP_VERSION_STRING
  gmtime now codes gIF_IPV4 gUpnpSdkNLSuuid stack).

Lemma one_packet nt usn u :
  ok (nt, usn) ->
  runs md
    (msg ← CreateServicePacket junk inet_pton sysname release UPNP_VERSION_STRING gmtime now codes
             gUpnpSdkNLSuuid stack MSGTYPE_REPLY nt usn location duration (ss_family DestAddr) ps; mret (send_all inet_pton gIF_IPV4 DestAddr [msg] u))
    (fun r => sent_ok md [(DestAddr, text (nt, usn))] u r.2).
Proof.
  intros Hn. mstep. eapply runs_mono; [by apply packet_runs|]. intros m Hm. apply runs_ret.
  apply (send_all_ok md DestAddr [m] [text (nt, usn)]); [done|]. by repeat constructor.
Qed.

(** The name that is sent for a root device, by UDN or by type. *)
Definition reply_name (root byType : bool) (Udn DevType : list Z) : name :=
  if root then (ROOT, usn_of Udn ROOT)
  else if byType then (DevType, usn_of Udn DevType) else (Udn, Udn).

Lemma SendReply_sends DevType root Udn byType :
  ok (reply_name root byType Udn DevType) ->
  sends md (reply SendReply DestAddr DevType root Udn location duration byType ps)
    [(DestAddr, text (reply_name root byType Udn DevType))].
Proof.
  intros Hn u. unfold SendReply, reply_name in *.
  destruct root; [|destruct byType; cbn [negb]];
    (try rewrite usn_text_fits by (by destruct Hn as (? & _ & _ & _ & ?))); by apply one_packet.
Qed.

Lemma ServiceReply_sends ServType Udn :
  ok (ServType, usn_of Udn ServType) ->
  sends md (reply ServiceReply DestAddr ServType Udn location duration ps)
    [(DestAddr, text (ServType, usn_of Udn ServType))].
Proof.
  intros Hn u. unfold ServiceReply. rewrite usn_text_fits by (by destruct Hn as (? & _ & _ & _ & ?)).
  by apply one_packet.
Qed.

Lemma DeviceReply_sends DevType root Udn :
  c_str Udn = Udn -> c_str DevType = DevType -> Forall ok (device_names root Udn DevType) ->
  sends md (reply DeviceReply DestAddr DevType root Udn location duration ps)
    (pair DestAddr <$> (text <$> device_names root Udn DevType)).
Proof.
  intros Hu Ht Hn u. unfold DeviceReply. rewrite Hu, Ht. unfold device_names in *.
  apply Forall_app in Hn as [Hr Hn].
  apply Forall_cons in Hn as [H1 Hn]. apply Forall_cons in Hn as [H2 _].
  assert (usn_text Udn DevType = Some (usn_of Udn DevType)) as E2
    by (apply usn_text_fits; by destruct H2 as (? & _ & _ & _ & ?)).
  assert (line_text Udn = Some Udn) as E1 by (apply line_text_fits; by destruct H1 as (? & _ & _ & ? & _)).
  assert (line_text DevType = Some DevType) as E3
    by (apply line_text_fits; by destruct H2 as (? & _ & _ & ? & _)).
  destruct root.
  - apply Forall_cons in Hr as [H0 _].
    rewrite usn_text_fits by (by destruct H0 as (? & _ & _ & _ & ?)). rewrite E1, E2, E3.
    mstep. eapply runs_mono; [by apply packet_runs|]. intros m0 Hm0.
    mstep. eapply runs_mono; [by apply packet_runs|]. intros m1 Hm1.
    mstep. eapply runs_mono; [by apply packet_runs|]. intros m2 Hm2.
    apply runs_ret. apply send_all_ok; [done|]. by repeat constructor.
  - rewrite E1, E2, E3. mstep. apply runs_ret.
    mstep. eapply runs_mono; [by apply packet_runs|]. intros m1 Hm1.
    mstep. eapply runs_mono; [by apply packet_runs|]. intros m2 Hm2.
    apply runs_ret. apply send_all_ok; [done|]. by repeat constructor.
Qed.
End Replies.
End Packets.
