(* ===== verification/SsdpDescription.v ===== *)
(** What [AdvertiseAndReply] reads in a description: the types and UDNs of its
    devices and the types of their services, as functions of the document tree,
    and that the loops of [SsdpDevice] find them.

    Every allocation succeeds: a node list that cannot be extended leaves a
    device or a service out. *)

From S2P Require Import Prelude CString FreeList IxmlNode IxmlTree IxmlDom IxmlDocument SsdpDevice.

Record device := MkDevice { dv_type : list Z; dv_udn : list Z; dv_services : list (list Z) }.

Section Description.
Context (st : nodes) (t : tree) (ts : list tree) (Hdom : dom_inv st (t :: ts)).
Context (Hnames : forall l n, l ∈ nlocs t -> st !! l = Some (Some n) -> exists s, n_nodeName n = DStr s).

(** ** The description *)

(** The nodes below [x], and those of a name with [x] itself. *)
Definition below (x : loc) : tree := default Leaf (kids_of x t).
Definition elements (x : loc) (tag : list Z) : list loc :=
  filter (is_named st tag) (x :: nlocs (below x)).

(** The value of the first child. *)
Definition node_text (x : loc) : option (list Z) :=
  n ← rdn st (Some x);
  c ← rdn st (n_firstChild n);
  s ← str_of (n_nodeValue c);
  Some (ztake 99 s).
Definition text_below (x : loc) (tag : list Z) : option (list Z) :=
  y ← head (elements x tag); node_text y.

Definition is_service_list (x : loc) : bool :=
  match rdn st (Some x) with
  | Some n => match str_of (n_nodeName n) with
              | Some name => strncmp name (cs "serviceList") 12 =? 0
              | None => false
              end
  | None => false
  end.
Definition services_of (x : loc) : list (list Z) :=
  match list_find is_service_list (sibs (below x)) with
  | Some (_, y) => omap (fun z => text_below z (cs "serviceType")) (elements y (cs "service"))
  | None => []
  end.
Definition device_of (x : loc) : option device :=
  ty ← text_below x (cs "deviceType");
  u ← text_below x (cs "UDN");
  Some (MkDevice ty u (services_of x)).

(** ** Reading it *)

Lemma below_spec x : x ∈ nlocs t -> kids_of x t = Some (below x).
Proof. intros Hx. destruct (kids_of_total _ _ Hx) as [ks E]. unfold below. by rewrite E. Qed.
Lemma below_In x y : x ∈ nlocs t -> y ∈ nlocs (below x) -> y ∈ nlocs t.
Proof. intros Hx%below_spec Hy. eapply kids_nlocs; [exact Hx|by right]. Qed.

Lemma node_at x : x ∈ nlocs t ->
  exists n, st !! x = Some (Some n) /\ rdn st (Some x) = Some n /\
    tree_at st (Some x) None (n_firstChild n) (below x) /\ (length (locs (below x)) <= size st)%nat.
Proof.
  intros Hx%below_spec. destruct (dom_node _ _ _ _ _ Hdom Hx) as (n & Hn & Hk & Hnd & _).
  exists n. split; [done|]. split; [unfold rdn; cbn; by rewrite Hn|]. split; [done|]. by eapply tree_at_size.
Qed.

Lemma elements_runs x tag :
  x ∈ nlocs t ->
  runs Lucky (ixmlElement_getElementsByTagName st (Some x) (DStr tag))
    (fun l => l = Some <$> elements x (c_str tag)).
Proof.
  intros Hx. unfold ixmlElement_getElementsByTagName. rewrite bool_decide_false by done.
  change (is_null (DStr tag)) with false. cbn [orb]. mstep. eapply runs_liftO; [reflexivity|].
  eapply runs_mono.
  - eapply (tag_below Lucky st t ts x (below x) (c_str tag) Hdom); [by apply below_spec|].
    intros l n Hl Hn _. apply (Hnames l n); [|done].
    apply elem_of_cons in Hl as [->|Hl]; [done|]. by eapply below_In.
  - intros l (ms & -> & _ & E). by rewrite E.
Qed.

Lemma elements_In x tag y : x ∈ nlocs t -> y ∈ elements x tag -> y ∈ nlocs t.
Proof.
  intros Hx Hy. unfold elements in Hy. apply list_elem_of_filter in Hy as [_ Hy].
  apply elem_of_cons in Hy as [->|Hy]; [done|]. by eapply below_In.
Qed.

Lemma item_is (ms : list loc) i : 0 <= i -> ixmlNodeList_item (Some <$> ms) i = ms !! Z.to_nat i.
Proof.
  intros Hi. unfold ixmlNodeList_item. destruct ms as [|m ms]; [done|].
  change (Some <$> m :: ms) with (Some m :: (Some <$> ms)). cbv iota.
  change (Some m :: (Some <$> ms)) with (Some <$> m :: ms).
  assert (ixmlNodeList_length (Some <$> m :: ms) = Z.of_nat (length (m :: ms))) as ->
    by (unfold ixmlNodeList_length, zlen; by rewrite length_fmap).
  destruct (Z.ltb_spec (Z.of_nat (length (m :: ms)) - 1) i).
  - symmetry. apply lookup_ge_None. lia.
  - rewrite list_lookup_fmap. by destruct ((m :: ms) !! Z.to_nat i).
Qed.

(** The text of the first element of a name. *)
Lemma first_text_runs x tag :
  x ∈ nlocs t -> c_str tag = tag ->
  runs Lucky (first_text st (Some x) tag) (fun r => r = text_below x tag).
Proof.
  intros Hx Hc. unfold first_text. mstep. eapply runs_mono; [by apply elements_runs|].
  intros l ->. rewrite Hc, item_is by done. unfold text_below. change (Z.to_nat 0) with 0%nat.
  destruct (elements x tag) as [|y ms] eqn:E; [by apply runs_ret|]. change ((y :: ms) !! 0%nat) with (Some y). cbv iota.
  assert (y ∈ nlocs t) as Hy by (apply (elements_In x tag); [done|]; rewrite E; by left).
  destruct (node_at y Hy) as (n & _ & Hn & Hk & _). cbn [head mbind option_bind]. unfold node_text.
  unfold ixmlNode_getFirstChild, ixmlNode_getNodeValue, get. rewrite Hn. cbn [mbind option_bind fmap option_fmap option_map].
  mstep. eapply runs_liftO; [reflexivity|]. destruct (below y) as [|c a ks nx] eqn:Eb; cbn [tree_at] in Hk.
  - rewrite Hk. mstep. eapply runs_liftO; [reflexivity|]. by apply runs_ret.
  - destruct Hk as (Ec & nc & Hnc & (Hok & _) & _). rewrite Ec.
    assert (rdn st (Some c) = Some nc) as Er by (unfold rdn; cbn; by rewrite Hnc).
    rewrite Er. cbn [mbind option_bind fmap option_fmap option_map]. mstep. eapply runs_liftO; [reflexivity|].
    apply Forall_cons in Hok as [_ Hok]. apply Forall_cons in Hok as [Hv _].
    destruct (n_nodeValue nc) as [|s|]; [by apply runs_ret| |done]. mstep. eapply runs_liftO; [reflexivity|]. mstep.
    cbn [str_of mbind option_bind]. by rewrite (c_str_id (c_str s)) by apply c_str_no_nul.
Qed.

(** Siblings are among the nodes. *)
Lemma sibs_length (ks : tree) : (length (sibs ks) <= length (locs ks))%nat.
Proof. induction ks as [|l a k _ nx IH]; cbn; [done|]. rewrite !length_app. lia. Qed.

(** The list of services among siblings. *)
Lemma service_list_runs md par prev p ks fuel :
  tree_at st par prev p ks -> (length (sibs ks) < fuel)%nat -> nlocs ks ⊆ nlocs t ->
  runs md (service_list fuel st p) (fun r => r = snd <$> list_find is_service_list (sibs ks)).
Proof.
  revert par prev p ks. induction fuel as [|fuel IH]; intros par prev p ks Ht Hf Hs; [lia|].
  cbn [service_list]. destruct ks as [|l a k nx]; cbn [tree_at] in Ht; [subst p; by mstep|].
  destruct Ht as (-> & n & Hn & _ & _ & _ & _ & _ & Hx). cbn [sibs nlocs] in *.
  assert (rdn st (Some l) = Some n) as Er by (unfold rdn; cbn; by rewrite Hn).
  destruct (Hnames l n) as [s Es]; [apply Hs; by left|done|].
  unfold ixmlNode_getNodeName, ixmlNode_getNextSibling, get. rewrite Er. cbn [fmap option_fmap option_map].
  mstep. eapply runs_liftO; [reflexivity|]. rewrite Es. mstep. eapply runs_liftO; [reflexivity|].
  assert (is_service_list l = (strncmp (c_str s) (cs "serviceList") 12 =? 0)) as El
    by (unfold is_service_list; by rewrite Er, Es).
  cbn [list_find]. destruct (decide (is_service_list l)) as [Hl|Hl]; rewrite El in Hl;
    destruct (strncmp (c_str s) (cs "serviceList") 12 =? 0); try done.
  mstep. eapply runs_liftO; [reflexivity|].
  eapply runs_mono; [apply (IH _ _ _ nx Hx); [cbn in Hf; lia|set_solver]|].
  intros r ->. by destruct (list_find is_service_list (sibs nx)) as [[]|].
Qed.
End Description.
