(* ===== verification/SsdpAnswer.v ===== *)
(** What a device promises: when it answers a search, and what it announces;
    the definitions are those of [SsdpDevice]. *)

From Stdlib Require Import Sorting.Sorted.
From S2P Require Import Prelude CString FreeList MemBuffer StrIntMap HttpTables Uri Scanner HttpMessage HttpParser Sock HttpMake IxmlNode IxmlDocument IxmlTree IxmlDom GenaQueue ServiceTable HandleTable Ssdp SsdpDevice SsdpNames SsdpPackets SsdpDescription.

(** ** Which devices answer *)

Definition answers (family : Z) (a : api) (h : Z) : Prop :=
  exists info, HandleTable a !! h = Some info /\ hi_HType info = HND_DEVICE /\ hi_DeviceAf info = family.
#[local] Instance answers_dec family a h : Decision (answers family a h).
Proof.
  destruct (HandleTable a !! h) as [info|] eqn:E.
  - destruct (decide (hi_HType info = HND_DEVICE /\ hi_DeviceAf info = family)) as [[? ?]|Hn].
    + left. by exists info.
    + right. intros (i & Hi & ? & ?). rewrite E in Hi. injection Hi as <-. by apply Hn.
  - right. intros (i & Hi & _). congruence.
Defined.

(** The handles behind [start] whose devices are of the family, in order. *)
Definition devices_from (family start : Z) (a : api) : list Z :=
  filter (answers family a) (seqZ (start + 1) (NUM_HANDLE - 1 - start)).

(** The flag that says that there are devices of the family; families without a
    flag need none. *)
Definition flagged (family : Z) (a : api) : Prop :=
  (family = AF_INET -> UpnpSdkDeviceRegisteredV4 a <> 0) /\
  (family = AF_INET6 -> UpnpSdkDeviceregisteredV6 a <> 0).
Lemma flagged_spec family a : flagged family a <-> none_registered family a = false.
Proof.
  unfold flagged, none_registered, AF_INET, AF_INET6.
  destruct (Z.eqb_spec family 2), (Z.eqb_spec family 10), (Z.eqb_spec (UpnpSdkDeviceRegisteredV4 a) 0),
    (Z.eqb_spec (UpnpSdkDeviceregisteredV6 a) 0); cbn; split; intros H; try done; try lia; destruct H; tauto.
Qed.

Lemma filter_none {A} (P : A -> Prop) `{!forall x, Decision (P x)} (l : list A) :
  Forall (fun x => ~ P x) l -> filter P l = [].
Proof. induction 1 as [|x l Hx _ IH]; [done|]. by rewrite filter_cons_False. Qed.

(** The first handle of a range that answers. *)
Lemma first_answer family a start h :
  start < h < NUM_HANDLE -> answers family a h ->
  (forall k, start + 1 <= k < h -> ~ answers family a k) ->
  filter (answers family a) (seqZ (start + 1) (NUM_HANDLE - 1 - start)) =
  h :: filter (answers family a) (seqZ (h + 1) (NUM_HANDLE - 1 - h)).
Proof.
  intros Hh Ha Hk.
  replace (NUM_HANDLE - 1 - start) with ((h - (start + 1)) + (NUM_HANDLE - h)) by lia.
  rewrite seqZ_app, filter_app, filter_none by
    (lia || (apply Forall_forall; intros k Hki%elem_of_seqZ; apply Hk; lia)).
  replace (start + 1 + (h - (start + 1))) with h by lia. cbn [app].
  rewrite seqZ_cons, filter_cons_True by (done || lia). do 2 f_equal. f_equal; lia.
Qed.

Lemma answers_accepted family a j :
  answers family a j <->
  exists x, (info ← HandleTable a !! j;
    mjoin (Some (if is_type HND_DEVICE info && (hi_DeviceAf info =? family) then Some tt else None)))
    = Some x.
Proof.
  unfold answers, is_type. split.
  - intros (info & -> & Ht & Hf). cbn. rewrite bool_decide_true by done.
    rewrite (proj2 (Z.eqb_eq _ _) Hf). by eexists.
  - intros [x Hx]. destruct (HandleTable a !! j) as [info|]; cbn in Hx; [|done]. exists info.
    split; [done|]. destruct (bool_decide_reflect (hi_HType info = HND_DEVICE)); [|done].
    by destruct (Z.eqb_spec (hi_DeviceAf info) family).
Qed.

Lemma next_device family start a :
  0 <= start ->
  exists type h, GetDeviceHandleInfo start family a = Some (type, h) /\
  ((type = HND_INVALID /\ (flagged family a -> devices_from family start a = [])) \/
   (type = HND_DEVICE /\ flagged family a /\ start < h < NUM_HANDLE /\ answers family a h /\
    devices_from family start a = h :: devices_from family h a)).
Proof.
  intros Hs. unfold GetDeviceHandleInfo, devices_from.
  destruct (none_registered family a) eqn:En; [|apply flagged_spec in En].
  { eexists _, _. split; [done|]. left. split; [done|]. intros Hf%flagged_spec. congruence. }
  destruct (Z.ltb_spec start 0); [lia|]. cbn [orb].
  destruct (Z.leb_spec (NUM_HANDLE - 1) start) as [Hle|Hlt].
  { eexists _, _. split; [done|]. left. split; [done|].
    rewrite (seqZ_nil (start + 1)) by lia. done. }
  destruct (handle_loop_spec (fun _ info =>
      Some (if is_type HND_DEVICE info && (hi_DeviceAf info =? family) then Some tt else None))
    (Z.to_nat (NUM_HANDLE - (start + 1))) a (start + 1)) as (r & -> & Hr);
    [intros; by eexists|lia|unfold NUM_HANDLE in *; lia|].
  cbn [mbind option_bind]. destruct r as [[h x]|]; eexists _, _; (split; [done|]); [right|left].
  - destruct Hr as (Hh & Hx & Hk). split; [done|]. split; [done|]. split; [unfold NUM_HANDLE in *; lia|].
    assert (answers family a h) as Ha by (apply answers_accepted; by eexists).
    split; [done|]. apply first_answer; [unfold NUM_HANDLE in *; lia|done|].
    intros k Hki [y Hy]%answers_accepted. by rewrite Hk in Hy by lia.
  - split; [done|]. intros _. apply filter_none, Forall_forall. intros k Hki%elem_of_seqZ [y Hy]%answers_accepted.
    rewrite Hr in Hy by (unfold NUM_HANDLE in *; lia). done.
Qed.

(** ** When they answer *)

Definition handles_of (jobs : scheduled) : list Z := (fun j => sr_handle j.2) <$> jobs.

(** What is right about each thread: the delay is below the time of the search,
    and the thread gets its event and its sender. *)
Definition job_ok (mx : Z) (event : SsdpEvent) (dest_addr : sockaddr) (j : Z * SsdpSearchReply) : Prop :=
  0 <= j.1 < Z.max 1 mx /\ sr_event j.2 = event /\ sr_dest_addr j.2 = dest_addr.
Definition age_of (a : api) (j : Z * SsdpSearchReply) : Prop :=
  exists info, HandleTable a !! sr_handle j.2 = Some info /\ sr_MaxAge j.2 = hi_MaxAge info.

Lemma job_ok_le mx mx' event dest_addr j :
  Z.max 1 mx <= Z.max 1 mx' -> job_ok mx event dest_addr j -> job_ok mx' event dest_addr j.
Proof. intros Hle (? & ? & ?). split; [lia|done]. Qed.

(** The time that is left for the next device. *)
Definition reduced (mx : Z) : Z :=
  let mx := if 2 <=? mx then mx - Z.max 1 (Z.quot mx MX_FUDGE_FACTOR) else mx in
  if mx <? 1 then 1 else mx.
Lemma reduced_range mx : 1 <= reduced mx <= Z.max 1 mx.
Proof.
  unfold reduced, MX_FUDGE_FACTOR. destruct (Z.leb_spec 2 mx); case_match; zbool; [lia| |lia|lia].
  pose proof (Z.quot_pos mx 10). lia.
Qed.

Lemma device_loop_runs md others dest_addr event fuel start mx rands jobs a :
  0 <= start < NUM_HANDLE -> NUM_HANDLE - start <= Z.of_nat fuel -> Forall (Z.le 0) rands ->
  runs md (device_loop others dest_addr event fuel start mx rands jobs a) (fun js => exists new,
    js = jobs ++ new /\ Forall (job_ok mx event dest_addr) new /\
    StronglySorted Z.lt (start :: handles_of new) /\ Forall (fun h => h < NUM_HANDLE) (handles_of new) /\
    (~ flagged (ss_family dest_addr) a -> new = []) /\
    (md = Lucky -> (forall h a, others h a = a) -> flagged (ss_family dest_addr) a ->
     handles_of new = devices_from (ss_family dest_addr) start a /\ Forall (age_of a) new)).
Proof.
  revert start mx rands jobs a. induction fuel as [|fuel IH]; intros start mx rands jobs a Hs Hf Hr.
  { lia. }
  cbn [device_loop].
  destruct (next_device (ss_family dest_addr) start a) as (type & h & -> & Hn); [lia|].
  mstep. eapply runs_liftO; [done|]. cbv beta iota.
  destruct Hn as [[-> Hnone]|(-> & Hfl & Hh & (info & Hi & _) & Hnext)].
  { apply runs_ret. exists []. rewrite app_nil_r. split; [done|]. split; [constructor|].
    split; [repeat constructor|]. split; [constructor|]. split; [done|]. intros _ _ Hf'. by rewrite Hnone. }
  rewrite bool_decide_true by done. cbn [negb]. mstep. eapply runs_liftO; [exact Hi|].
  mstep. mstep; cbn [negb].
  2:{ apply runs_ret. exists []. rewrite app_nil_r. split; [done|]. split; [constructor|].
      split; [repeat constructor|]. split; [constructor|]. by split. }
  fold (reduced mx). pose proof (reduced_range mx) as Hred.
  eapply runs_mono; [apply IH; [lia|lia|destruct Hr; by constructor || done]|].
  intros js (new & -> & Hok & Hsort & Hlt & _ & Hl).
  exists ((Z.rem (default 0 (head rands)) (reduced mx), MkReply (hi_MaxAge info) h dest_addr event) :: new).
  rewrite <- app_assoc. split; [done|].
  match goal with |- context [handles_of (?x :: new)] =>
    change (handles_of (x :: new)) with (h :: handles_of new) end.
  assert (0 <= default 0 (head rands)) as Hr0 by (by destruct Hr).
  split; [constructor|].
  - split; [|done]. cbn [fst]. pose proof (Z.rem_bound_pos (default 0 (head rands)) (reduced mx)). lia.
  - eapply Forall_impl; [exact Hok|]. intros j. apply job_ok_le. lia.
  - split; [constructor; [done|constructor; [lia|]]|].
    { apply StronglySorted_inv in Hsort as [_ Hall]. eapply Forall_impl; [exact Hall|]. cbn. lia. }
    split; [by constructor; [lia|]|]. split; [done|]. intros Hmd Ho _. rewrite Ho in Hl.
    destruct (Hl Hmd Ho Hfl) as [E Hag].
    split; [by rewrite E, Hnext|]. constructor; [by exists info|done].
Qed.

(** A valid request for a search: the headers MAN, MX and ST. *)
Definition valid_search (hmsg : http_message_t) (mx : Z) (event : SsdpEvent) : Prop :=
  (exists i man, httpmsg_find_hdr hmsg HDR_MAN = Some (i, man) /\
     memptr_cmp (value_ptr man) DISCOVER = 0) /\
  (exists i h, httpmsg_find_hdr hmsg HDR_MX = Some (i, h) /\
     raw_to_int (value_ptr h) 10 = Some mx /\ 0 <= mx) /\
  (exists i h, httpmsg_find_hdr hmsg HDR_ST = Some (i, h) /\
     ssdp_request_type (value_text (value_ptr h)) = (0, event)).

(** C11: A device answers a search in time.  For a request with the headers MAN,
    MX and ST, [ssdp_handle_device_request] returns, whatever other threads do
    to the handle table while it is not locked, and has scheduled at most one
    thread for each handle, in increasing order; each thread starts before the
    seconds of MX are over and gets the event of ST and the sender.  When the
    global flag of the address family of the sender says that there are no
    devices, none is scheduled; when it says that there are, no allocation fails
    and the table stays as it is, these are exactly the devices of that family
    in the table, each with its own maximum age. *)
Theorem ssdp_handle_device_request_correct md others rands hmsg dest_addr a mx event :
  valid_search hmsg mx event -> Forall (Z.le 0) rands ->
  runs md (ssdp_handle_device_request others rands hmsg dest_addr a) (fun jobs =>
    Forall (job_ok mx event dest_addr) jobs /\
    StronglySorted Z.lt (0 :: handles_of jobs) /\ Forall (fun h => h < NUM_HANDLE) (handles_of jobs) /\
    (~ flagged (ss_family dest_addr) a -> jobs = []) /\
    (md = Lucky -> (forall h a, others h a = a) -> flagged (ss_family dest_addr) a ->
     handles_of jobs = devices_from (ss_family dest_addr) 0 a /\ Forall (age_of a) jobs)).
Proof.
  intros ((i & man & Hman & Hd) & (j & hm & Hmx & Hn & Hp) & (k & hs & Hst & Ht)) Hr.
  unfold ssdp_handle_device_request. rewrite Hman, Hd, Hmx, Hst. cbn [Z.eqb negb].
  mstep. eapply runs_liftO; [exact Hn|]. rewrite (proj2 (Z.ltb_ge _ _)) by done. rewrite Ht.
  change (0 =? -1) with false. cbv iota.
  eapply runs_mono; [apply device_loop_runs; [done|done|exact Hr]|].
  intros js (new & -> & H). exact H.
Qed.

Definition ex_header (id : Z) (value : list Z) : http_header_t :=
  Header id (Membuffer (Some (value ++ [0])) (zlen value) (zlen value) 5) membuffer_init.
Definition ex_search : http_message_t :=
  set_headers [ex_header HDR_MAN DISCOVER; ex_header HDR_MX (cs "3"); ex_header HDR_ST (cs "ssdp:all")]
    (httpmsg_init cleared_message).
Definition ex_device : Handle_Info :=
  MkHandle HND_DEVICE 0 0 0 [] [] [] 1800 0 0 0 None [] [] (MkTable DNull [] None) 0 0 AF_INET [] [].
Definition ex_devices : api := MkApi {[1 := ex_device; 3 := ex_device]} 1 0.

Lemma ssdp_handle_device_request_correct_witness :
  devices_from AF_INET 0 ex_devices = [1; 3] /\
  runs Lucky (ssdp_handle_device_request (fun _ a => a) [7; 7] ex_search
      (MkSockaddr AF_INET 1900 [] 0) ex_devices)
    (fun jobs => handles_of jobs = [1; 3] /\ Forall (fun j => 0 <= j.1 < 3) jobs).
Proof.
  assert (devices_from AF_INET 0 ex_devices = [1; 3]) as E by (vm_compute; reflexivity).
  split; [exact E|]. eapply runs_mono.
  - apply (ssdp_handle_device_request_correct Lucky (fun _ a => a) [7; 7] ex_search
      (MkSockaddr AF_INET 1900 [] 0) ex_devices 3 (set_request SSDP_ALL 0 clear_event)).
    + split; [|split]; (eexists _, _; split; [vm_compute; reflexivity|by vm_compute]).
    + by repeat constructor.
  - intros jobs (Hok & _ & _ & _ & Hl). destruct (Hl eq_refl) as [Hh _]; [done|by split|].
    split; [rewrite Hh; exact E|]. eapply Forall_impl; [exact Hok|]. intros j (H & _). exact H.
Defined.

(** ** Versions *)

(** What a search for a type looks for names a version. *)
Definition searchable (want : list Z) : Prop :=
  strlen want < LINE_SIZE /\ exists r, c_str want = cs "urn" ++ r /\ $":" ∈ r.

Lemma strrchr_some s c : c ∈ s -> is_Some (strrchr s c).
Proof.
  induction s as [|x s IH]; [by intros ?%elem_of_nil|]. intros [->|H]%elem_of_cons; cbn.
  - destruct (strrchr s x); [by eexists|]. rewrite Z.eqb_refl. by eexists.
  - destruct (IH H) as [y ->]. by eexists.
Qed.

(** So it can be compared with every type. *)
Lemma type_matches_defined want have :
  searchable want -> c_str have = have -> is_Some (type_matches want have).
Proof.
  intros (Hlw & r & Hw & Hr) Hh. unfold type_matches.
  assert (3 <= strlen want) as Hl.
  { unfold strlen. rewrite Hw, zlen_app. change (zlen (cs "urn")) with 3. pose proof (zlen_nonneg r). lia. }
  destruct (negb _) eqn:E; [by eexists|]. apply negb_false_iff in E.
  destruct (strrchr_some (c_str want) ($":")) as [t ->]; [rewrite Hw; apply elem_of_app; by right|].
  cbn [mbind option_bind]. destruct (Z.eqb_spec (strlen have) 0) as [H0|H0].
  - exfalso. unfold strlen in H0. rewrite Hh in H0.
    assert (have = []) as -> by (destruct have; [done|]; rewrite zlen_cons in H0; pose proof (zlen_nonneg have); lia).
    rewrite to_size_small in E by (unfold SIZE_MAX, LINE_SIZE in *; lia).
    destruct want as [|x want]; cbn [c_str] in Hw; [done|].
    destruct (Z.eqb_spec x 0); [done|]. change (cs "urn" ++ r) with (117 :: 114 :: 110 :: r) in Hw.
    injection Hw as -> Hw. unfold strncasecmp, strncmp in E.
    destruct (Z.to_nat (Z.min (strlen (117 :: want) - 2) (strlen (117 :: want) + 1))) as [|m] eqn:En;
      [exfalso; lia|].
    cbn in E. done.
  - cbn [mbind option_bind]. by eexists.
Qed.

Lemma find_sub_some s l i j :
  find_sub s l i = Some j -> i <= j /\ is_prefix s (zdrop (j - i) l) = true /\
  forall k, 0 <= k < j - i -> is_prefix s (zdrop k l) = false.
Proof.
  revert i. induction l as [|x l IH]; intros i; cbn [find_sub].
  - destruct (is_prefix s []) eqn:E; [|done]. intros [= <-]. rewrite Z.sub_diag. split; [lia|].
    split; [done|lia].
  - destruct (is_prefix s (x :: l)) eqn:E.
    { intros [= <-]. rewrite Z.sub_diag. split; [lia|]. split; [done|lia]. }
    intros (Hj & Hp & Hk)%IH. split; [lia|].
    assert (forall k, 0 < k -> zdrop k (x :: l) = zdrop (k - 1) l) as Hd.
    { intros k Hk0. unfold zdrop. replace (Z.to_nat k) with (S (Z.to_nat (k - 1))) by lia. done. }
    split; [rewrite Hd by lia; by replace (j - i - 1) with (j - (i + 1)) by lia|].
    intros k Hk'. destruct (decide (k = 0)) as [->|]; [done|]. rewrite Hd by lia. apply Hk. lia.
Qed.

Lemma zlen_zdrop_le p (l : list Z) : zlen (zdrop p l) <= zlen l.
Proof. unfold zlen, zdrop. rewrite length_drop. lia. Qed.

(** A type that is found in a search target is its rest from ["urn"] on. *)
Lemma found_type cmd kind set Evt :
  zlen cmd < LINE_SIZE -> Forall (fun c => c <> 0) cmd -> occurs cmd (cs "urn:") = true ->
  occurs cmd kind = true ->
  exists want, find_urn kind set cmd Evt = (true, set want Evt) /\ searchable want.
Proof.
  intros Hl Hno Ho Hkind. unfold find_urn. rewrite Ho, Hkind. cbn [andb].
  apply bool_decide_eq_true in Ho as [q Hq]. unfold strstr in *. rewrite (c_str_id _ Hno) in *.
  change (c_str (cs "urn")) with (cs "urn"). change (c_str (cs "urn:")) with (cs "urn" ++ cs ":") in Hq.
  destruct (find_sub (cs "urn") cmd 0) as [p|] eqn:Ep;
    [|by rewrite (find_sub_longer _ _ _ _ Ep) in Hq]. eexists. split; [done|].
  apply find_sub_some in Ep as (H0 & Hp & Hk). apply find_sub_some in Hq as (Hq0 & Hq & _).
  rewrite Z.sub_0_r in *. apply is_prefix_spec in Hq as [r Hq]. apply is_prefix_spec in Hp as [r' Hp].
  assert (p <= q) as Hpq.
  { destruct (Z.le_gt_cases p q) as [|Hlt]; [done|]. assert (is_prefix (cs "urn") (zdrop q cmd) = true) as E
      by (apply is_prefix_spec; exists (cs ":" ++ r); by rewrite Hq, <- app_assoc).
    rewrite Hk in E by lia. done. }
  assert (copy_at cmd p (zlen cmd) = zdrop p cmd) as ->.
  { unfold copy_at. apply ztake_all. pose proof (zlen_zdrop_le p cmd). unfold LINE_SIZE in *. lia. }
  assert (Forall (fun c => c <> 0) (zdrop p cmd)) as Hno' by (by apply Forall_drop).
  assert (zdrop q cmd = zdrop (q - p) (zdrop p cmd)) as Eq
    by (unfold zdrop; rewrite drop_drop; f_equal; lia).
  unfold searchable, strlen. rewrite (c_str_id _ Hno'). split; [pose proof (zlen_zdrop_le p cmd); lia|].
  exists r'. split; [done|].
  assert ($":" ∈ cs "urn" ++ r') as Hin.
  { rewrite <- Hp. apply (subseteq_drop (Z.to_nat (q - p))). fold (zdrop (q - p) (zdrop p cmd)).
    rewrite <- Eq, Hq. set_solver. }
  apply elem_of_app in Hin as [Hin|Hin]; [|done]. exfalso. revert Hin.
  apply (bool_decide_unpack _). by vm_compute.
Qed.

Lemma occurs_c_str cmd pat : occurs (c_str cmd) pat = occurs cmd pat.
Proof. unfold occurs, strstr. by rewrite (c_str_id (c_str cmd)) by apply c_str_no_nul. Qed.

(** The other tests change the UDN only. *)
Lemma find_uuid_shape c e : exists f u, find_uuid c e = (f, set_UDN u e).
Proof.
  unfold find_uuid. destruct (strstr c (cs "uuid")); [by eexists _, _|].
  exists false, (UDN e). by destruct e.
Qed.
Lemma find_root_shape c e : exists f u, find_root c e = (f, set_UDN u e).
Proof.
  unfold find_root. destruct (strstr c (cs "::upnp:rootdevice")) as [z|];
    [destruct (z =? 0)|]; try (by eexists _, _); exists false, (UDN e); by destruct e.
Qed.
Lemma find_urn_shape kind set c e :
  find_urn kind set c e = (false, e) \/ exists w, find_urn kind set c e = (true, set w e).
Proof.
  unfold find_urn. destruct (_ && _); [|by left]. destruct (strstr c (cs "urn")); [|by left].
  right. by eexists.
Qed.
Lemma find_urn_absent kind set c e : occurs c kind = false -> find_urn kind set c e = (false, e).
Proof. intros H. unfold find_urn. by rewrite H, andb_false_r. Qed.

Section Found.
Context (cmd : list Z) (Evt : SsdpEvent) (Hl : zlen cmd < LINE_SIZE).
Context (Hu : occurs cmd (cs "uuid:") = false) (Hurn : occurs cmd (cs "urn:") = true).
Let c : list Z := c_str cmd.

Lemma no_uuid_schemas : occurs c (cs "uuid:schemas") = false.
Proof.
  assert (find_sub (cs "uuid:") c 0 = None) as Hn.
  { apply occurs_none; [apply c_str_no_nul|by repeat constructor|]. unfold c. by rewrite occurs_c_str. }
  rewrite occurs_find by (apply c_str_no_nul || by repeat constructor). apply bool_decide_eq_false.
  change (cs "uuid:schemas") with (cs "uuid:" ++ cs "schemas").
  rewrite find_sub_longer by done. by intros [].
Qed.
Lemma target_short : zlen c < LINE_SIZE.
Proof. unfold c. pose proof (zlen_c_str cmd). unfold strlen in *. lia. Qed.

Lemma device_type_found :
  occurs cmd (cs ":device:") = true -> searchable (DeviceType (unique_service_name cmd Evt).2).
Proof.
  intros Hk. unfold unique_service_name. fold c. rewrite no_uuid_schemas.
  destruct (find_uuid_shape c Evt) as (f1 & u1 & ->).
  assert (exists e2, exists f2, find_urn (cs ":service:") set_ServiceType c (set_UDN u1 Evt) = (f2, e2))
    as (e2 & f2 & ->) by (by eexists _, _; apply surjective_pairing).
  destruct (found_type c (cs ":device:") set_DeviceType e2) as (want & -> & Hw);
    [apply target_short|apply c_str_no_nul|by unfold c; rewrite occurs_c_str..|].
  destruct (find_root_shape c (set_DeviceType want e2)) as (f4 & u4 & ->). exact Hw.
Qed.
Lemma service_type_found :
  occurs cmd (cs ":device:") = false -> occurs cmd (cs ":service:") = true ->
  searchable (ServiceType (unique_service_name cmd Evt).2).
Proof.
  intros Hd Hk. unfold unique_service_name. fold c. rewrite no_uuid_schemas.
  destruct (find_uuid_shape c Evt) as (f1 & u1 & ->).
  destruct (found_type c (cs ":service:") set_ServiceType (set_UDN u1 Evt)) as (want & -> & Hw);
    [apply target_short|apply c_str_no_nul|by unfold c; rewrite occurs_c_str..|].
  rewrite find_urn_absent by (by unfold c; rewrite occurs_c_str).
  destruct (find_root_shape c (set_ServiceType want (set_UDN u1 Evt))) as (f4 & u4 & ->). exact Hw.
Qed.
End Found.

(** The types in the event of a search that is short enough. *)
Lemma event_searchable cmd event :
  ssdp_request_type cmd = (0, event) -> zlen cmd < LINE_SIZE ->
  (RequestType event = SSDP_DEVICETYPE -> searchable (DeviceType event)) /\
  (RequestType event = SSDP_SERVICE -> searchable (ServiceType event)).
Proof.
  unfold ssdp_request_type. intros H Hl. pose proof (device_type_found cmd clear_event Hl) as H1.
  pose proof (service_type_found cmd clear_event Hl) as H2.
  destruct (unique_service_name cmd clear_event) as [rc Evt]. case_bool_decide; [done|].
  injection H as <-. cbn [set_request RequestType DeviceType ServiceType snd] in *.
  unfold ssdp_request_type1 in *.
  destruct (occurs cmd (cs ":all")), (occurs cmd (cs ":rootdevice")), (occurs cmd (cs "uuid:")); try done.
  destruct (occurs cmd (cs "urn:")), (occurs cmd (cs ":device:")); cbn [andb] in *; try done.
  - split; [|done]. intros _. by apply H1.
  - destruct (occurs cmd (cs ":service:")); [|done]. split; [done|]. intros _. by apply H2.
Qed.
