(* ===== verification/SsdpAnnounce.v ===== *)
(** What [AdvertiseAndReply] sends: for every device of the description and its
    services, the packets that announce it or answer the search. *)

From S2P Require Import Prelude CString FreeList MemBuffer StrIntMap HttpTables Uri HttpMake IxmlNode IxmlTree IxmlDom IxmlDocument GenaQueue ServiceTable HandleTable Ssdp SsdpDevice SsdpPackets SsdpDescription SsdpAnswer.

(** ** Types and versions

    A type is a name, a colon and a version of one digit.  [answer_to want have]
    says what a device or service of type [have] gives to a search for [want]:
    [None] nothing, [Some true] the description of the lower version. *)

Definition kind_version (type : list Z) : option (list Z * Z) :=
  match rev type with
  | d :: c :: k =>
      if decide (c = $":" /\ 48 <= d <= 57 /\ chars type /\ zlen type < LINE_SIZE)
      then Some (rev k, d - 48) else None
  | _ => None
  end.
Definition well_typed (type : list Z) : Prop := is_Some (kind_version type).
Definition answer_to (want have : list Z) : option bool :=
  match kind_version want, kind_version have with
  | Some (kind, v), Some (_, w) =>
      if decide (lower kind `prefix_of` lower have)
      then if decide (v < w) then Some true else if decide (v = w) then Some false else None
      else None
  | _, _ => None
  end.

Lemma kind_version_spec type k v :
  kind_version type = Some (k, v) ->
  type = k ++ [$":"; 48 + v] /\ 0 <= v <= 9 /\ chars type /\ zlen type < LINE_SIZE.
Proof.
  unfold kind_version. destruct (rev type) as [|d [|c k']] eqn:E; [done..|].
  destruct (decide _) as [(-> & Hd & Hc & Hl)|]; [|done]. intros [= <- <-].
  split; [|split; [lia|done]]. rewrite <- (rev_involutive type), E. cbn [rev].
  rewrite <- app_assoc. do 3 f_equal. f_equal. lia.
Qed.
Lemma strrchr_last k c d : d <> c -> strrchr (k ++ [c; d]) c = Some [c; d].
Proof.
  intros Hd. induction k as [|x k IH]; cbn; [|by rewrite IH].
  rewrite (proj2 (Z.eqb_neq d c)) by done. by rewrite Z.eqb_refl.
Qed.
Lemma atoi_digit v : 0 <= v <= 9 -> atoi [48 + v] = v.
Proof.
  intros Hv. assert (forallb (fun v => atoi [48 + v] =? v) (seqZ 0 10) = true) as H by (vm_compute; reflexivity).
  rewrite forallb_forall in H. apply Z.eqb_eq, H, list_elem_of_In, elem_of_seqZ. lia.
Qed.
Lemma chars_string s : chars s -> c_str s = s.
Proof. intros H. apply c_str_id. eapply Forall_impl; [exact H|]. cbn. tauto. Qed.

Lemma type_matches_answer want have :
  well_typed want -> well_typed have -> type_matches want have = Some (answer_to want have).
Proof.
  intros [[k v] Ew] [[k' w] Eh]. unfold answer_to. rewrite Ew, Eh.
  apply kind_version_spec in Ew as (Ew & Hv & Hwc & Hwl).
  apply kind_version_spec in Eh as (Eh & Hw & Hhc & Hhl). unfold type_matches, strlen.
  rewrite (chars_string want), (chars_string have) by done.
  assert (zlen want = zlen k + 2) as Elw by (rewrite Ew, zlen_app; done).
  assert (zlen have = zlen k' + 2) as Elh by (rewrite Eh, zlen_app; done).
  pose proof (zlen_nonneg k). pose proof (zlen_nonneg k').
  rewrite to_size_small by (unfold SIZE_MAX, LINE_SIZE in *; lia). rewrite Z.min_l by lia.
  replace (zlen want - 2) with (zlen k) by lia.
  pose proof (strncasecmp_app k [$":"; 48 + v] have) as Hcmp. rewrite <- Ew in Hcmp.
  specialize (Hcmp Hwc Hhc). destruct (decide _) as [Hp|Hp].
  - rewrite (proj2 Hcmp Hp). cbn [Z.eqb negb]. rewrite Ew, strrchr_last by (change $":" with 58; lia).
    cbn [mbind option_bind tail]. rewrite atoi_digit by done.
    rewrite (proj2 (Z.eqb_neq (zlen have) 0)) by lia. cbn [mbind option_bind].
    assert (zdrop (zlen have - 1) have = [48 + w]) as ->.
    { rewrite Elh, Eh. replace (k' ++ [$":"; 48 + w]) with ((k' ++ [$":"]) ++ [48 + w]) by (by rewrite <- app_assoc).
      apply zdrop_app_exact. rewrite zlen_app. change (zlen [$":"]) with 1. lia. }
    rewrite atoi_digit by done. destruct (Z.ltb_spec v w), (Z.eqb_spec v w); repeat case_decide; done || lia.
  - destruct (Z.eqb_spec (strncasecmp want have (zlen k)) 0) as [E|E]; [by apply Hcmp in E|done].
Qed.

(** The name need not be the whole name. *)
Fact lightbulb :
  type_matches (cs "urn:x:device:light:1") (cs "urn:x:device:lightbulb:1") = Some (Some false) /\
  type_matches (cs "urn:x:device:light:1") (cs "urn:x:device:light:10") = Some None.
Proof. by vm_compute. Qed.

Section Answers.
Context (inet_pton : Z -> list Z -> option (list Z)) (gIF_INDEX : Z).
Context (sysname release UPNP_VERSION_STRING gUpnpSdkNLSuuid date : list Z).
Context (SInfo : Handle_Info) (p : purpose) (Exp : Z).

Definition powers : low_power :=
  MkPower (hi_PowerState SInfo) (hi_SleepPeriod SInfo) (hi_RegistrationState SInfo).

(** ** The answers

    An answer is a name and the URL that goes with it. *)

Definition typed_answer (udn want have : list Z) : list (name * list Z) :=
  match answer_to want have with
  | Some low => [((want, usn_of udn want), if low then hi_LowerDescURL SInfo else hi_DescURL SInfo)]
  | None => []
  end.

Definition device_answers (root : bool) (udn type : list Z) : list (name * list Z) :=
  let all := (fun n => (n, hi_DescURL SInfo)) <$> device_names root udn type in
  match p with
  | Advertise | Shutdown => all
  | Reply SearchType _ DeviceType DeviceUDN _ =>
      match SearchType with
      | SSDP_ALL => all
      | SSDP_ROOTDEVICE => if root then [((ROOT, usn_of udn ROOT), hi_DescURL SInfo)] else []
      | SSDP_DEVICEUDN =>
          if decide (DeviceUDN <> [] /\ lower DeviceUDN = lower udn)
          then [((udn, udn), hi_DescURL SInfo)] else []
      | SSDP_DEVICETYPE => typed_answer udn DeviceType type
      | _ => []
      end
  end.
Definition service_answers (udn type : list Z) : list (name * list Z) :=
  let all := [((type, usn_of udn type), hi_DescURL SInfo)] in
  match p with
  | Advertise | Shutdown => all
  | Reply SearchType _ _ _ ServiceType =>
      match SearchType with
      | SSDP_ALL => all
      | SSDP_SERVICE => typed_answer udn ServiceType type
      | _ => []
      end
  end.
Definition answers_of (root : bool) (d : device) : list (name * list Z) :=
  device_answers root (dv_udn d) (dv_type d) ++ concat (service_answers (dv_udn d) <$> dv_services d).
(** Those of the devices in the list, the first of which is the root. *)
Fixpoint all_answers (root : bool) (l : list (option device)) : list (name * list Z) :=
  match l with
  | [] => []
  | d :: l' => match d with Some d => answers_of root d | None => [] end ++ all_answers false l'
  end.

(** ** Their packets *)

Definition p_type : msg_type :=
  match p with
  | Advertise => MSGTYPE_ADVERTISEMENT | Shutdown => MSGTYPE_SHUTDOWN
  | Reply _ _ _ _ _ => MSGTYPE_REPLY
  end.
Definition p_duration : Z := match p with Reply _ _ _ _ _ => hi_MaxAge SInfo | _ => Exp end.
Definition p_family : Z :=
  match p with Reply _ addr _ _ _ => ss_family addr | _ => hi_DeviceAf SInfo end.
Definition p_dest : option sockaddr :=
  match p with
  | Reply _ addr _ _ _ => Some addr
  | _ => dest_of inet_pton gIF_INDEX (hi_DeviceAf SInfo) (hi_DescURL SInfo)
  end.

Definition answer_ok (n : name * list Z) : Prop :=
  name_ok inet_pton sysname release UPNP_VERSION_STRING gUpnpSdkNLSuuid date
    p_type n.2 p_duration p_family powers n.1.
Definition packet_of (dest : sockaddr) (n : name * list Z) : sockaddr * list Z :=
  (dest, text_of inet_pton sysname release UPNP_VERSION_STRING gUpnpSdkNLSuuid date
           p_type n.2 p_duration p_family powers n.1).

(** The types that are compared, and the UDN, are in order. *)
Definition types_ok (l : list (option device)) : Prop :=
  match p with
  | Reply SSDP_DEVICETYPE _ want _ _ =>
      well_typed want /\ forall d, Some d ∈ l -> well_typed (dv_type d)
  | Reply SSDP_SERVICE _ _ _ want =>
      well_typed want /\ forall d, Some d ∈ l -> Forall well_typed (dv_services d)
  | Reply SSDP_DEVICEUDN _ _ DeviceUDN _ => chars DeviceUDN /\ forall d, Some d ∈ l -> chars (dv_udn d)
  | _ => True
  end.

Lemma types_ok_one l d : types_ok l -> Some d ∈ l -> types_ok [Some d].
Proof.
  unfold types_ok. intros H Hd. destruct p as [| |[] ? ? ? ?]; try done; destruct H as [Hw Hall];
    (split; [done|]); intros d' [= ->]%list_elem_of_singleton; by apply Hall.
Qed.
End Answers.

(** ** What is sent *)

Section Announce.
Context (junk : Z).
Context (inet_pton : Z -> list Z -> option (list Z)) (gIF_INDEX : Z).
Context (sysname release UPNP_VERSION_STRING : list Z).
Context (gmtime : Z -> option tm) (now : Z) (codes : statcodes).
Context (gIF_IPV4 gUpnpSdkNLSuuid stack : list Z).
Context (Hcodes : gInitialized codes = true -> codes = init_tables).
Context (date : list Z) (Hdate : date_line gmtime now = Some date).
Context (Hif : strlen gIF_IPV4 <= 0 \/ is_Some (inet_pton AF_INET gIF_IPV4)).
Context (SInfo : Handle_Info) (p : purpose) (Exp : Z).
Context (dest : sockaddr) (Hdest : p_dest inet_pton gIF_INDEX SInfo p = Some dest)
  (Hfam : family_ok (ss_family dest)).
Context (Hdur : int_ok (p_duration SInfo p Exp)) (Hpow : power_ok (powers SInfo)).
Local Abbreviation ok := (answer_ok inet_pton sysname release UPNP_VERSION_STRING gUpnpSdkNLSuuid
  date SInfo p Exp).
Local Abbreviation packet := (packet_of inet_pton sysname release UPNP_VERSION_STRING gUpnpSdkNLSuuid
  date SInfo p Exp dest).

Local Abbreviation dev f := (f junk inet_pton gIF_INDEX sysname release UPNP_VERSION_STRING gmtime now
  codes gIF_IPV4 gUpnpSdkNLSuuid stack).

(** [m] sends [l]. *)
Definition sending (m : udp -> M udp) (l : list (sockaddr * list Z)) : Prop :=
  forall u, runs Lucky (m u) (sent_ok Lucky l u).

Lemma sending_nil : sending (fun u => mret u) [].
Proof. intros u. apply runs_ret, sent_nothing. Qed.
Lemma sending_app m1 m2 l1 l2 :
  sending m1 l1 -> sending m2 l2 -> sending (fun u => u ← m1 u; m2 u) (l1 ++ l2).
Proof.
  intros H1 H2 u. mstep. eapply runs_mono; [apply H1|]. intros u1 S1.
  eapply runs_mono; [apply H2|]. intros u2 S2. by eapply sent_app.
Qed.
Lemma sending_sends m l : sends Lucky m l -> sending (fun u => '(_, u) ← m u; mret u) l.
Proof. intros H u. mstep. eapply runs_mono; [apply H|]. intros [rc u'] Hu. by apply runs_ret. Qed.

(** The reply for a type that matches, under the description that goes with it. *)
Lemma typed_sends udn want have addr :
  well_typed want -> well_typed have -> p_type p = MSGTYPE_REPLY ->
  p_duration SInfo p Exp = hi_MaxAge SInfo -> p_family SInfo p = ss_family addr -> addr = dest ->
  Forall ok (typed_answer SInfo udn want have) ->
  sending (fun u =>
      m ← liftO (type_matches want have);
      match m with
      | Some true =>
          '(_, u) ← SendReply junk inet_pton sysname release UPNP_VERSION_STRING gmtime now codes gIF_IPV4
             gUpnpSdkNLSuuid stack addr want false udn (hi_LowerDescURL SInfo) (hi_MaxAge SInfo) true
             (powers SInfo) u;
          mret u
      | Some false =>
          '(_, u) ← SendReply junk inet_pton sysname release UPNP_VERSION_STRING gmtime now codes gIF_IPV4
             gUpnpSdkNLSuuid stack addr want false udn (hi_DescURL SInfo) (hi_MaxAge SInfo) true
             (powers SInfo) u;
          mret u
      | None => mret u
      end)
    (packet <$> typed_answer SInfo udn want have).
Proof.
  intros Hw Hh Ht Hdu Hfa -> Hok u. unfold typed_answer in *. mstep.
  eapply runs_liftO; [by apply type_matches_answer|]. destruct (answer_to want have) as [[]|].
  all: try (apply sending_nil).
  all: apply Forall_cons in Hok as [Hok _]; unfold answer_ok in Hok; cbn [fst snd] in Hok;
    cbn [fmap list_fmap]; unfold packet_of; cbn [fst snd]; rewrite Ht, Hdu, Hfa in *;
    apply (sending_sends (fun u => SendReply _ _ _ _ _ _ _ _ _ _ _ _ _ _ _ _ _ _ _ u)).
  - eapply (SendReply_sends _ _ _ _ _ _ _ _ _ _ _ Hcodes date Hdate Hif Lucky dest
      (hi_LowerDescURL SInfo) (hi_MaxAge SInfo) (powers SInfo) Hdur Hpow Hfam want false udn true Hok).
  - eapply (SendReply_sends _ _ _ _ _ _ _ _ _ _ _ Hcodes date Hdate Hif Lucky dest
      (hi_DescURL SInfo) (hi_MaxAge SInfo) (powers SInfo) Hdur Hpow Hfam want false udn true Hok).
Qed.

(** The announcements of a device and of a service. *)
Lemma device_messages_packets type root udn ty :
  p_type p = type -> type <> MSGTYPE_REPLY ->
  Forall ok ((fun n => (n, hi_DescURL SInfo)) <$> device_names root udn ty) ->
  sending (fun u => '(_, u) ← dev device_messages type ty root udn (hi_DescURL SInfo) Exp
                                (hi_DeviceAf SInfo) (powers SInfo) u; mret u)
    (packet <$> ((fun n => (n, hi_DescURL SInfo)) <$> device_names root udn ty)).
Proof.
  intros Et Hne Hok. rewrite Forall_fmap in Hok. rewrite <- list_fmap_compose. apply sending_sends.
  pose proof (device_messages_sends junk inet_pton gIF_INDEX sysname release UPNP_VERSION_STRING gmtime now
    codes gIF_IPV4 gUpnpSdkNLSuuid stack Hcodes date Hdate Hif Lucky (hi_DescURL SInfo) Exp
    (hi_DeviceAf SInfo) (powers SInfo)) as H.
  destruct p; cbn in *; try done; subst type;
    destruct (dest_of_multicast inet_pton gIF_INDEX stack _ _ _ Hdest) as [Hd _];
    (specialize (H Hdur Hpow _ ty root udn dest Hd Hfam Hok); by rewrite <- list_fmap_compose in H).
Qed.
Lemma service_message_packets type udn ty :
  p_type p = type -> type <> MSGTYPE_REPLY -> Forall ok [((ty, usn_of udn ty), hi_DescURL SInfo)] ->
  sending (fun u => '(_, u) ← dev service_message type udn ty (hi_DescURL SInfo) Exp
                                (hi_DeviceAf SInfo) (powers SInfo) u; mret u)
    (packet <$> [((ty, usn_of udn ty), hi_DescURL SInfo)]).
Proof.
  intros Et Hne Hok. apply Forall_cons in Hok as [Hok _]. apply sending_sends.
  pose proof (service_message_sends junk inet_pton gIF_INDEX sysname release UPNP_VERSION_STRING gmtime now
    codes gIF_IPV4 gUpnpSdkNLSuuid stack Hcodes date Hdate Hif Lucky (hi_DescURL SInfo) Exp
    (hi_DeviceAf SInfo) (powers SInfo)) as H.
  destruct p; cbn in *; try done; subst type;
    destruct (dest_of_multicast inet_pton gIF_INDEX stack _ _ _ Hdest) as [Hd _];
    exact (H Hdur Hpow _ udn ty dest Hd Hfam Hok).
Qed.

(** One reply with [SendReply]. *)
Lemma reply_packets SearchType addr dt du sv root byType udn type :
  p = Reply SearchType addr dt du sv ->
  Forall ok [(reply_name root byType udn type, hi_DescURL SInfo)] ->
  sending (fun u =>
      '(_, u) ← SendReply junk inet_pton sysname release UPNP_VERSION_STRING gmtime now codes gIF_IPV4
        gUpnpSdkNLSuuid stack addr type root udn (hi_DescURL SInfo) (hi_MaxAge SInfo) byType (powers SInfo) u;
      mret u)
    (packet <$> [(reply_name root byType udn type, hi_DescURL SInfo)]).
Proof.
  intros Ep Hok. apply Forall_cons in Hok as [Hok _].
  apply (sending_sends (fun u => SendReply _ _ _ _ _ _ _ _ _ _ _ _ _ _ _ _ _ _ _ u)).
  pose proof (SendReply_sends junk inet_pton sysname release UPNP_VERSION_STRING gmtime now codes gIF_IPV4
    gUpnpSdkNLSuuid stack Hcodes date Hdate Hif Lucky addr
    (hi_DescURL SInfo) (hi_MaxAge SInfo) (powers SInfo)) as H.
  subst p. cbn in *. injection Hdest as ->. exact (H Hdur Hpow Hfam type root udn byType Hok).
Qed.

End Announce.

Section Parts.
Context (junk : Z).
Context (inet_pton : Z -> list Z -> option (list Z)) (gIF_INDEX : Z).
Context (sysname release UPNP_VERSION_STRING : list Z).
Context (gmtime : Z -> option tm) (now : Z) (codes : statcodes).
Context (gIF_IPV4 gUpnpSdkNLSuuid stack : list Z).
Context (Hcodes : gInitialized codes = true -> codes = init_tables).
Context (date : list Z) (Hdate : date_line gmtime now = Some date).
Context (Hif : strlen gIF_IPV4 <= 0 \/ is_Some (inet_pton AF_INET gIF_IPV4)).
Context (SInfo : Handle_Info) (p : purpose) (Exp : Z).
Context (dest : sockaddr) (Hdest : p_dest inet_pton gIF_INDEX SInfo p = Some dest)
  (Hfam : family_ok (ss_family dest)).
Context (Hdur : int_ok (p_duration SInfo p Exp)) (Hpow : power_ok (powers SInfo)).
Local Abbreviation ok := (answer_ok inet_pton sysname release UPNP_VERSION_STRING gUpnpSdkNLSuuid
  date SInfo p Exp).
Local Abbreviation packet := (packet_of inet_pton sysname release UPNP_VERSION_STRING gUpnpSdkNLSuuid
  date SInfo p Exp dest).

Local Abbreviation dev f := (f junk inet_pton gIF_INDEX sysname release UPNP_VERSION_STRING gmtime now
  codes gIF_IPV4 gUpnpSdkNLSuuid stack).

Lemma device_part_sends root d :
  types_ok p [Some d] -> c_str (dv_udn d) = dv_udn d -> c_str (dv_type d) = dv_type d ->
  Forall ok (device_answers SInfo p root (dv_udn d) (dv_type d)) ->
  sending (dev device_part SInfo p Exp root (dv_type d) (dv_udn d))
    (packet <$> device_answers SInfo p root (dv_udn d) (dv_type d)).
Proof.
  destruct d as [type udn svs]. cbn [dv_type dv_udn]. intros Hty Hu Ht Hok.
  destruct p as [| |SearchType addr dt du sv] eqn:Ep.
  - by eapply device_messages_packets.
  - by eapply device_messages_packets.
  - pose proof Hdest as Hd. cbn in Hd. injection Hd as Hd. cbn [device_answers] in *. destruct SearchType.
    + apply sending_nil.
    + rewrite Forall_fmap in Hok. rewrite <- list_fmap_compose. apply sending_sends.
      rewrite Hd in Hok |- *. pose proof (DeviceReply_sends junk inet_pton sysname release UPNP_VERSION_STRING gmtime now codes
        gIF_IPV4 gUpnpSdkNLSuuid stack Hcodes date Hdate Hif Lucky dest (hi_DescURL SInfo)
        (hi_MaxAge SInfo) (powers SInfo) Hdur Hpow Hfam type root udn Hu Ht Hok) as H.
      by rewrite <- list_fmap_compose in H.
    + destruct root; [|apply sending_nil].
      eapply (reply_packets) with (root := true) (byType := false) (udn := udn) (type := type); done.
    + destruct Hty as [Hdu Hdv]. specialize (Hdv _ ltac:(by left)). cbn [dv_udn] in Hdv. unfold device_part.
      assert (negb (strlen du =? 0) && (strcasecmp du udn =? 0) = bool_decide (du <> [] /\ lower du = lower udn)) as ->.
      { apply eq_iff_eq_true. rewrite bool_decide_eq_true, andb_true_iff, negb_true_iff, Z.eqb_neq, Z.eqb_eq.
        rewrite strcasecmp_equal by done. unfold strlen. rewrite chars_string by done.
        destruct du as [|c du]; [by rewrite zlen_nil; naive_solver|]. rewrite zlen_cons. pose proof (zlen_nonneg du).
        split; intros [_ ?]; (split; [done || lia|done]). }
      destruct (decide (du <> [] /\ lower du = lower udn)) as [Hm|Hm].
      * rewrite bool_decide_true by done.
        eapply (reply_packets) with (root := false) (byType := false) (udn := udn) (type := type); done.
      * rewrite bool_decide_false by done. apply sending_nil.
    + destruct Hty as [Hw Hh]. eapply typed_sends; try done. apply (Hh (MkDevice type udn svs)). by left.
    + apply sending_nil.
Qed.

Lemma service_part_sends d type :
  types_ok p [Some d] -> type ∈ dv_services d -> c_str type = type ->
  Forall ok (service_answers SInfo p (dv_udn d) type) ->
  sending (dev service_part SInfo p Exp (dv_udn d) type) (packet <$> service_answers SInfo p (dv_udn d) type).
Proof.
  destruct d as [dty udn svs]. cbn [dv_services dv_udn]. intros Hty Hin Ht Hok.
  destruct p as [| |SearchType addr dt du sv] eqn:Ep.
  - by eapply service_message_packets.
  - by eapply service_message_packets.
  - pose proof Hdest as Hd. cbn in Hd. injection Hd as Hd.
    cbn [service_answers] in *. destruct SearchType; try apply sending_nil.
    + apply Forall_cons in Hok as [Hok _].
      apply (sending_sends (fun u => ServiceReply _ _ _ _ _ _ _ _ _ _ _ _ _ _ _ _ _ u)).
      subst addr. exact (ServiceReply_sends _ _ _ _ _ _ _ _ _ _ _ Hcodes date Hdate Hif Lucky dest
        (hi_DescURL SInfo) (hi_MaxAge SInfo) (powers SInfo) Hdur Hpow Hfam type udn Hok).
    + destruct Hty as [Hw Hh]. specialize (Hh _ ltac:(by left)). cbn [dv_services] in Hh.
      rewrite Forall_forall in Hh. eapply typed_sends; try done. by apply Hh.
Qed.

(** ** The loops *)

(** A loop over the items of a list of nodes: from the item at [i] on. *)
Fixpoint looped {A} (L : Z -> loc -> list A) (i : Z) (ms : list loc) : list A :=
  match ms with [] => [] | x :: ms' => L i x ++ looped L (i + 1) ms' end.

Lemma item_loop_sends (body : Z -> loc -> udp -> M udp) L (ms1 ms2 : list loc) fuel :
  (length ms2 < fuel)%nat ->
  (forall j x, 0 <= j -> (ms1 ++ ms2) !! Z.to_nat j = Some x -> sending (body j x) (L j x)) ->
  sending (item_loop body fuel (Some <$> ms1 ++ ms2) (zlen ms1)) (looped L (zlen ms1) ms2).
Proof.
  revert ms1 fuel. induction ms2 as [|x ms2 IH]; intros ms1 [|fuel] Hf Hb; cbn [length] in Hf; try lia;
    intros u; cbn [item_loop]; rewrite item_is by apply zlen_nonneg; unfold zlen; rewrite Nat2Z.id.
  - rewrite app_nil_r, lookup_ge_None_2 by done. apply sending_nil.
  - rewrite list_lookup_middle by done. revert u.
    apply (sending_app _ (fun u => item_loop _ _ _ _ u)); [apply Hb; [lia|by rewrite Nat2Z.id, list_lookup_middle]|].
    replace (ms1 ++ x :: ms2) with ((ms1 ++ [x]) ++ ms2) by (rewrite <- app_assoc; reflexivity).
    replace (Z.of_nat (length ms1) + 1) with (zlen (ms1 ++ [x])) by (unfold zlen; rewrite length_app; cbn; lia).
    apply IH; [lia|]. intros j y Hj Hy. rewrite <- app_assoc in Hy. by apply Hb.
Qed.
Lemma for_items_sends (body : Z -> loc -> udp -> M udp) L (ms : list loc) :
  (forall j x, 0 <= j -> ms !! Z.to_nat j = Some x -> sending (body j x) (L j x)) ->
  sending (for_items body (Some <$> ms)) (looped L 0 ms).
Proof.
  intros Hb. apply (item_loop_sends body L [] ms); [|done]. rewrite length_fmap. lia.
Qed.

Section Loops.
Context (st : nodes) (t : tree) (ts : list tree) (Hdom : dom_inv st (t :: ts)).
Context (Hnames : forall l n, l ∈ nlocs t -> st !! l = Some (Some n) -> exists s, n_nodeName n = DStr s).

(** A text is a string. *)
Lemma text_below_string x tag s : text_below st t x tag = Some s -> c_str s = s.
Proof.
  unfold text_below, node_text. intros H. apply bind_Some in H as (y & _ & H).
  apply bind_Some in H as (n & _ & H). apply bind_Some in H as (c & _ & H).
  apply bind_Some in H as (v & Hv & H). apply (inj Some) in H as <-. apply c_str_id.
  apply Forall_take. destruct (n_nodeValue c); try done. injection Hv as <-. apply c_str_no_nul.
Qed.

(** One service, if it has a type. *)
Definition service_packets (udn : list Z) (x : loc) : list (sockaddr * list Z) :=
  match text_below st t x (cs "serviceType") with
  | Some ty => packet <$> service_answers SInfo p udn ty
  | None => []
  end.
Lemma one_service_sends d j x :
  types_ok p [Some d] -> x ∈ nlocs t ->
  (forall ty, text_below st t x (cs "serviceType") = Some ty ->
     ty ∈ dv_services d /\ Forall ok (service_answers SInfo p (dv_udn d) ty)) ->
  sending (dev one_service SInfo p Exp st (dv_udn d) j x) (service_packets (dv_udn d) x).
Proof.
  intros Hty Hx Hok u. unfold one_service, service_packets. mstep.
  eapply runs_mono; [by eapply first_text_runs|]. intros r ->.
  destruct (text_below st t x (cs "serviceType")) as [ty|] eqn:E; [|apply sending_nil].
  destruct (Hok ty eq_refl) as [Hin Ha]. apply service_part_sends; [done|done|by eapply text_below_string|done].
Qed.

Lemma looped_services udn (ms : list loc) i :
  looped (fun _ => service_packets udn) i ms =
  packet <$> concat (service_answers SInfo p udn <$> omap (fun z => text_below st t z (cs "serviceType")) ms).
Proof.
  revert i. induction ms as [|x ms IH]; intros i; [done|]. cbn [looped omap list_omap].
  rewrite IH. unfold service_packets. destruct (text_below st t x (cs "serviceType")) as [ty|]; [|done].
  rewrite fmap_cons. cbn [concat]. by rewrite fmap_app.
Qed.

(** The services of a device. *)
Lemma services_sends d x :
  let udn := dv_udn d in
  types_ok p [Some d] -> dv_services d = services_of st t x -> x ∈ nlocs t ->
  Forall ok (concat (service_answers SInfo p udn <$> services_of st t x)) ->
  sending (fun u =>
      child ← liftO (ixmlNode_getFirstChild st (Some x));
      list ← service_list (S (size st)) st child;
      match list with
      | None => mret u
      | Some _ =>
          nodeList ← ixmlElement_getElementsByTagName st list (DStr (cs "service"));
          for_items (dev one_service SInfo p Exp st udn) nodeList u
      end)
    (packet <$> concat (service_answers SInfo p udn <$> services_of st t x)).
Proof.
  intros udn Hty Hsv Hx Hok u. destruct (node_at st t ts Hdom x Hx) as (n & _ & Hn & Hk & Hsz).
  unfold ixmlNode_getFirstChild, get. rewrite Hn. cbn [fmap option_fmap option_map].
  mstep. eapply runs_liftO; [reflexivity|].
  mstep. eapply runs_mono.
  { eapply service_list_runs; [exact Hdom|exact Hnames|exact Hk| |].
    - pose proof (sibs_length (below t x)). lia.
    - intros y. by apply below_In. }
  intros r ->. unfold services_of in *.
  destruct (list_find _ (sibs (below t x))) as [[k y]|] eqn:Ef; [|apply sending_nil].
  assert (y ∈ nlocs t) as Hy.
  { apply list_find_Some in Ef as (Hl & _). apply (below_In t x); [done|].
    apply sibs_nlocs. by eapply list_elem_of_lookup_2. }
  cbn [snd fmap option_fmap option_map]. mstep. eapply runs_mono; [by eapply elements_runs|].
  intros l ->. change (c_str (cs "service")) with (cs "service").
  rewrite <- (looped_services udn _ 0). apply for_items_sends. intros j z _ Hz%list_elem_of_lookup_2.
  apply one_service_sends; [done|by eapply elements_In|]. intros ty Hz2.
  match goal with |- _ ∈ dv_services d /\ _ => rewrite Hsv end.
  rewrite List.Forall_concat, Forall_forall in Hok.
  match type of Hok with forall l, l ∈ _ <$> ?svs -> _ => assert (ty ∈ svs) as Hin
    by (apply list_elem_of_omap; by exists z) end.
  split; [exact Hin|]. by apply Hok, list_elem_of_fmap_2.
Qed.

(** A device of the list. *)
Definition device_packets (i : Z) (x : loc) : list (sockaddr * list Z) :=
  match device_of st t x with
  | Some d => packet <$> answers_of SInfo p (i =? 0) d
  | None => []
  end.
Lemma one_device_sends i x :
  x ∈ nlocs t ->
  (forall d, device_of st t x = Some d -> types_ok p [Some d] /\ Forall ok (answers_of SInfo p (i =? 0) d)) ->
  sending (dev one_device SInfo p Exp st i x) (device_packets i x).
Proof.
  intros Hx Hok u. unfold one_device, device_packets, device_of in *. mstep.
  eapply runs_mono; [by eapply first_text_runs|]. intros r ->.
  destruct (text_below st t x (cs "deviceType")) as [ty|] eqn:Et; [|apply sending_nil].
  mstep. eapply runs_mono; [by eapply first_text_runs|]. intros r ->.
  destruct (text_below st t x (cs "UDN")) as [udn|] eqn:Eu; [|apply sending_nil].
  cbn [mbind option_bind] in Hok |- *. set (d := MkDevice ty udn (services_of st t x)) in *.
  destruct (Hok d eq_refl) as [Hty Ho].
  unfold answers_of in *. apply Forall_app in Ho as [Hd Hs].
  rewrite fmap_app. revert u. apply text_below_string in Et, Eu.
  apply (sending_app (fun u => dev device_part SInfo p Exp (i =? 0) ty udn u)).
  - by apply (device_part_sends (i =? 0) d).
  - by apply (services_sends d x).
Qed.

Lemma looped_devices (xs : list loc) i :
  0 <= i -> looped device_packets i xs =
  packet <$> all_answers SInfo p (i =? 0) (device_of st t <$> xs).
Proof.
  revert i. induction xs as [|x xs IH]; intros i Hi; [done|]. cbn [looped fmap list_fmap all_answers].
  rewrite IH, fmap_app by lia. rewrite (proj2 (Z.eqb_neq (i + 1) 0)) by lia.
  unfold device_packets. by destruct (device_of st t x).
Qed.
Lemma answers_In (xs : list loc) root i x d :
  xs !! i = Some x -> device_of st t x = Some d ->
  forall n, n ∈ answers_of SInfo p (root && (Z.of_nat i =? 0)) d ->
  n ∈ all_answers SInfo p root (device_of st t <$> xs).
Proof.
  revert root i. induction xs as [|y xs IH]; intros root i Hi Hd n Hn; [done|].
  cbn [fmap list_fmap all_answers]. apply elem_of_app. destruct i as [|i].
  - left. injection Hi as ->. rewrite Hd. by rewrite andb_true_r in Hn.
  - right. apply (IH false i); [done..|]. rewrite (proj2 (Z.eqb_neq _ _)), andb_false_r in Hn by lia. done.
Qed.

(** The devices, and the copies. *)
Context (xs : list loc) (Hlist : hi_DeviceList SInfo = Some <$> xs) (Hxs : xs ⊆ nlocs t).
Context (Htypes : types_ok p (device_of st t <$> xs)).
Context (Hok : Forall ok (all_answers SInfo p true (device_of st t <$> xs))).

Lemma devices_sends :
  sending (for_items (dev one_device SInfo p Exp st) (hi_DeviceList SInfo))
    (packet <$> all_answers SInfo p true (device_of st t <$> xs)).
Proof.
  rewrite Hlist. pose proof (looped_devices xs 0 ltac:(done)) as E. change (0 =? 0) with true in E.
  rewrite <- E. apply for_items_sends. intros j x Hj Hx.
  apply one_device_sends; [by apply Hxs, (list_elem_of_lookup_2 _ (Z.to_nat j))|]. intros d Hd.
  split; [eapply types_ok_one; [exact Htypes|]; rewrite <- Hd; by apply list_elem_of_fmap_2, (list_elem_of_lookup_2 _ (Z.to_nat j))|].
  apply Forall_forall. intros n Hn. rewrite Forall_forall in Hok. apply Hok.
  apply (answers_In xs true (Z.to_nat j) x d Hx Hd). by rewrite Z2Nat.id.
Qed.
Lemma copies_sends n :
  sending (dev copies SInfo p Exp n st)
    (concat (repeat (packet <$> all_answers SInfo p true (device_of st t <$> xs)) n)).
Proof.
  induction n as [|n IH]; intros u; cbn [copies repeat concat]; [apply sending_nil|]. revert u.
  apply (sending_app (for_items (dev one_device SInfo p Exp st) (hi_DeviceList SInfo))); [|exact IH].
  apply devices_sends.
Qed.
End Loops.

(** ** What [AdvertiseAndReply] promises *)

(** Announcements are sent twice. *)
Definition n_copies : nat := match p with Reply _ _ _ _ _ => 1 | _ => 2 end.

End Parts.

(** ** An example: a service of version 2, and a search for version 1 *)

Definition ad_elem (name : list Z) (par child prev next : ptr) : IXML_Node :=
  MkNode (DStr name) DNull eELEMENT_NODE DNull DNull DNull 0 par child prev next None None (XElement (DStr name)).
Definition ad_text (value : list Z) (par : ptr) : IXML_Node :=
  MkNode (DStr TEXTNODENAME) (DStr value) eTEXT_NODE DNull DNull DNull 0 par None None None None None XNode.
Definition ad_st : nodes := Eval vm_compute in list_to_map (prod_map (fun k => k) Some <$> [
  (1%positive, ad_elem (cs "device") None (Some 2%positive) None None);
  (2%positive, ad_elem (cs "deviceType") (Some 1%positive) (Some 3%positive) None (Some 4%positive));
  (3%positive, ad_text (cs "urn:a:device:c:1") (Some 2%positive));
  (4%positive, ad_elem (cs "UDN") (Some 1%positive) (Some 5%positive) (Some 2%positive) (Some 6%positive));
  (5%positive, ad_text (cs "uuid:d") (Some 4%positive));
  (6%positive, ad_elem (cs "serviceList") (Some 1%positive) (Some 7%positive) (Some 4%positive) None);
  (7%positive, ad_elem (cs "service") (Some 6%positive) (Some 8%positive) None None);
  (8%positive, ad_elem (cs "serviceType") (Some 7%positive) (Some 9%positive) None None);
  (9%positive, ad_text (cs "urn:a:service:b:2") (Some 8%positive))]).
Definition ad_tree : tree :=
  Node 1%positive []
    (Node 2%positive [] (Node 3%positive [] Leaf Leaf)
      (Node 4%positive [] (Node 5%positive [] Leaf Leaf)
        (Node 6%positive []
          (Node 7%positive [] (Node 8%positive [] (Node 9%positive [] Leaf Leaf) Leaf) Leaf) Leaf))) Leaf.
Lemma ad_dom : dom_inv ad_st [ad_tree].
Proof.
  split.
  - apply Forall_cons; split; [|apply Forall_nil]; cbn [root_at ad_tree]; solve_tree.
  - apply (bool_decide_unpack _). vm_compute. exact I.
Qed.

Definition ad_addr : sockaddr := MkSockaddr AF_INET 1900 [10; 0; 0; 1] 0.
Definition ad_search : purpose := Reply SSDP_SERVICE ad_addr [] [] (cs "urn:a:service:b:1").
Definition ad_info : Handle_Info :=
  MkHandle HND_DEVICE 0 0 0 (cs "http://a/d.xml") (cs "http://a/l.xml") [] 1800 0 0 0 None
    (Some <$> [1%positive]) [] (MkTable DNull [] None) 0 0 AF_INET [] [].
Definition ad_api : api := MkApi {[1 := ad_info]} 1 0.
Definition ad_answer : name * list Z :=
  ((cs "urn:a:service:b:1", cs "uuid:d::urn:a:service:b:1"), cs "http://a/l.xml").
Definition ad_udp : udp := MkUdp [] [] 0 [].
Definition ad_date : list Z := Eval vm_compute in default [] (date_line (fun _ => Some ex_tm) 0).
Local Abbreviation ad_packet :=
  (packet_of (fun _ _ => Some []) [] [] [] [] ad_date ad_info ad_search 0 ad_addr).

Lemma ad_answers :
  all_answers ad_info ad_search true (device_of ad_st ad_tree <$> [1%positive]) = [ad_answer].
Proof. vm_compute. reflexivity. Qed.
Lemma ad_names l n :
  l ∈ nlocs ad_tree -> ad_st !! l = Some (Some n) -> exists s, n_nodeName n = DStr s.
Proof.
  intros Hl. repeat (apply elem_of_cons in Hl as [->|Hl]; [intros [= <-]; by eexists|]).
  by apply elem_of_nil in Hl.
Qed.

