(* ===== verification/Gena.v ===== *)
(** Eventing of a device: [upnp/src/gena/gena_device.c], the posting of events
    and the threads that send them.

    Each subscription has a queue of events, of which only the first is in the
    thread pool: the thread that sent it puts the next one there.  The state
    [gena] is what the functions share: the handle table, the structures of the
    queued events, the pool, the answers of the coming calls of [time] and
    whether the table is locked.  A thread is cut at the lock: [notify_start]
    and [notify_finish] are the two critical sections of [genaNotifyThread], and
    [genaNotify], between them, works on a copy of the subscription. *)

From S2P Require Import Prelude CString FreeList LinkedList ThreadPool MemBuffer Uri IxmlNode XmlPrint HttpMake GenaQueue ServiceTable HandleTable.

Definition GENA_SUCCESS : Z := 0.
Definition GENA_E_BAD_HANDLE : Z := UPNP_E_INVALID_HANDLE.
Definition GENA_E_BAD_SERVICE : Z := -111.
Definition GENA_E_BAD_SID : Z := -109.
Definition GENA_E_NOTIFY_UNACCEPTED : Z := -303.
Definition GENA_E_NOTIFY_UNACCEPTED_REMOVE_SUB : Z := -9.
Definition MAX_CONTENT_LENGTH : Z := 20.

(** The functions the jobs name. *)
Definition genaNotifyThread_ref : Z := 1.
Definition free_notify_struct_ref : Z := 2.

(** ** The pool, as eventing uses it *)

(** [sp_args] are the arguments of the queued jobs that run
    [genaNotifyThread]. *)
Class SendPool (P : Type) := {
  sp_add : P -> ThreadPoolJob -> M (Z * P);
  sp_args : P -> list Z;
  sp_ok : P -> Prop
}.

(** A job is queued, or refused with an error. *)
Class SendPoolLaws (P : Type) `{SendPool P} : Prop := {
  sp_add_law md p job :
    sp_ok p -> j_func job = genaNotifyThread_ref ->
    runs md (sp_add p job) (fun '(rc, p') =>
      sp_ok p' /\ sp_args p' ≡ₚ (if rc =? 0 then j_arg job :: sp_args p else sp_args p))
}.

(** ** Texts *)

Definition XML_PROPERTYSET_HEADER : list Z :=
  Eval vm_compute in
    cs "<e:propertyset xmlns:e=" ++ [34] ++ cs "urn:schemas-upnp-org:event-1-0" ++ [34] ++
    cs ">" ++ [10].
Definition property_open : list Z := Eval vm_compute in cs "<e:property>" ++ [10].
Definition property_close : list Z := Eval vm_compute in cs "</e:property>" ++ [10].
Definition propertyset_close : list Z := Eval vm_compute in cs "</e:propertyset>" ++ [10; 10].

Definition property_text (name value : list Z) : list Z :=
  cs "<" ++ c_str name ++ cs ">" ++ c_str value ++ cs "</" ++ c_str name ++ cs ">" ++ [10]
    ++ property_close.

(** The first loop, over the names and values. *)
Definition property_size (names_values : list (list Z * list Z)) : Z :=
  foldl (fun size nv => size + zlen (property_open ++ property_close) +
           (2 * strlen nv.1 + strlen nv.2 + 6))
    (zlen XML_PROPERTYSET_HEADER + zlen propertyset_close) names_values.

Fixpoint property_loop (cap : Z) (names_values : list (list Z * list Z)) (buffer : list Z)
    : option (list Z) :=
  match names_values with
  | [] => Some buffer
  | (name, value) :: l =>
      buffer ← strcat cap buffer property_open;
      buffer ← strcat cap buffer (property_text name value);
      property_loop cap l buffer
  end.

Definition GeneratePropertySet (names_values : list (list Z * list Z)) : M (Z * DOMString) :=
  let size := property_size names_values in
  ok ← malloc_ok;
  if negb ok then mret (UPNP_E_OUTOF_MEMORY, DNull)
  else
    buffer ← liftO (strcat (size + 1) [] XML_PROPERTYSET_HEADER);
    buffer ← liftO (property_loop (size + 1) names_values buffer);
    buffer ← liftO (strcat (size + 1) buffer propertyset_close);
    out ← ixmlCloneDOMString (DStr buffer);
    mret (0, out).

Definition HEADER_LINE_1 : list Z :=
  Eval vm_compute in
    cs "CONTENT-TYPE: text/xml; charset=" ++ [34] ++ cs "utf-8" ++ [34; 13; 10].
Definition HEADER_LINE_2A : list Z := Eval vm_compute in cs "CONTENT-LENGTH: ".
Definition HEADER_LINE_2B : list Z := [13; 10].
Definition HEADER_LINE_3 : list Z := Eval vm_compute in cs "NT: upnp:event" ++ [13; 10].
Definition HEADER_LINE_4 : list Z := Eval vm_compute in cs "NTS: upnp:propchange" ++ [13; 10].

Definition AllocGenaHeaders (propertySet : DOMString) : M (option (list Z)) :=
  let headers_size := zlen HEADER_LINE_1 + zlen HEADER_LINE_2A + MAX_CONTENT_LENGTH +
                      zlen HEADER_LINE_2B + zlen HEADER_LINE_3 + zlen HEADER_LINE_4 + 1 in
  ok ← malloc_ok;
  if negb ok then mret None
  else
    s ← liftO (str_of propertySet);
    let '(_, headers) := snprintf headers_size
      (HEADER_LINE_1 ++ HEADER_LINE_2A ++ itoa (strlen s + 2) ++ HEADER_LINE_2B ++
       HEADER_LINE_3 ++ HEADER_LINE_4) in
    mret (Some headers).

(** ** State *)

Record gena (P : Type) := MkGena {
  g_api : api;
  g_heap : event_heap;
  g_pool : P;
  g_clock : list Z;
  g_locked : bool
}.
Arguments MkGena {P}.
Arguments g_api {P} _.
Arguments g_heap {P} _.
Arguments g_pool {P} _.
Arguments g_clock {P} _.
Arguments g_locked {P} _.

Section Gena.
Context {P : Type} `{SendPool P}.
(** [g_UpnpSdkEQMaxLen] and [g_UpnpSdkEQMaxAge]. *)
Context (EQMaxLen EQMaxAge : Z).
Implicit Types (g : gena P) (svc : service_info) (sub : subscription).

Definition set_api (v : api) g : gena P :=
  MkGena v (g_heap g) (g_pool g) (g_clock g) (g_locked g).
Definition set_heap (v : event_heap) g : gena P :=
  MkGena (g_api g) v (g_pool g) (g_clock g) (g_locked g).
Definition set_pool (v : P) g : gena P :=
  MkGena (g_api g) (g_heap g) v (g_clock g) (g_locked g).
Definition set_gclock (v : list Z) g : gena P :=
  MkGena (g_api g) (g_heap g) (g_pool g) v (g_locked g).
Definition set_locked (v : bool) g : gena P :=
  MkGena (g_api g) (g_heap g) (g_pool g) (g_clock g) v.

(** Waiting for a lock that is never released does not return; releasing a
    lock that is not held is undefined. *)
Definition HandleLock g : M (gena P) := if g_locked g then running else mret (set_locked true g).
Definition HandleUnlock g : option (gena P) :=
  if g_locked g then Some (set_locked false g) else None.

Definition time g : Z * gena P :=
  (default 0 (head (g_clock g)), set_gclock (tail (g_clock g)) g).

(** The service at position [i] of the table of handle [hnd], a place the code
    has a pointer to. *)
Definition service g (hnd : Z) (i : nat) : option service_info :=
  info ← HandleTable (g_api g) !! hnd; st_serviceList (hi_ServiceTable info) !! i.
Definition put_service (hnd : Z) (i : nat) svc g : gena P :=
  match HandleTable (g_api g) !! hnd with
  | None => g
  | Some info =>
      let t := hi_ServiceTable info in
      set_api (set_handle hnd (Some (set_ServiceTable
        (MkTable (st_URLBase t) (<[i := svc]> (st_serviceList t)) (st_endServiceList t)) info))
        (g_api g)) g
  end.
Definition put_sub (hnd : Z) (i k : nat) sub g : option (gena P) :=
  svc ← service g hnd i;
  Some (put_service hnd i
    (set_subs (si_TotalSubscriptions svc) (<[k := sub]> (si_subscriptionList svc)) svc) g).

(** The functions of [service_table.c] on a service of the state.  [time] is
    called only for a subscription that was found. *)
Definition get_sub (hnd : Z) (i : nat) (sid : list Z) g : option (option nat * gena P) :=
  svc ← service g hnd i;
  let '(now, g) := match find_sid sid (si_subscriptionList svc) with
                   | Some _ => time g
                   | None => (0, g)
                   end in
  '(k, h, svc) ← GetSubscriptionSID now (g_heap g) sid svc;
  Some (k, put_service hnd i svc (set_heap h g)).
Definition remove_sid (hnd : Z) (i : nat) (sid : list Z) g : option (gena P) :=
  svc ← service g hnd i;
  '(h, svc) ← RemoveSubscriptionSID (g_heap g) sid svc;
  Some (put_service hnd i svc (set_heap h g)).
Definition first_sub (hnd : Z) (i : nat) g : option (option nat * gena P) :=
  svc ← service g hnd i;
  let '(now, g) := time g in
  '(k, h, svc) ← GetFirstSubscription now (g_heap g) svc;
  Some (k, put_service hnd i svc (set_heap h g)).
Definition next_sub (hnd : Z) (i k : nat) g : option (option nat * gena P) :=
  svc ← service g hnd i;
  let '(now, g) := time g in
  '(k, h, svc) ← GetNextSubscription now (g_heap g) svc (Some k);
  Some (k, put_service hnd i svc (set_heap h g)).

(** [sub->next = service->subscriptionList; service->subscriptionList = sub;
    service->TotalSubscriptions++]. *)
Definition add_sub (hnd : Z) (i : nat) sub g : option (gena P) :=
  svc ← service g hnd i;
  Some (put_service hnd i
    (set_subs (si_TotalSubscriptions svc + 1) (sub :: si_subscriptionList svc) svc) g).
(** [sub->expireTime = expire] for the subscription at [k]. *)
Definition set_expire (hnd : Z) (i k : nat) (expire : Z) g : option (gena P) :=
  svc ← service g hnd i;
  sub ← si_subscriptionList svc !! k;
  put_sub hnd i k (set_sub_expireTime expire sub) g.

Definition free_notify (p : loc) g : option (gena P) :=
  h ← free_notify_struct (g_heap g) p; Some (set_heap h g).

(** ** Unregistering *)

Definition genaUnregisterDevice (device_handle : Z) g : M (Z * gena P) :=
  g ← HandleLock g;
  '(ret, g) ←
    match GetHandleInfo device_handle (g_api g) with
    | (HND_DEVICE, Some info) =>
        '(h, t) ← liftO (freeServiceTable (g_heap g) (hi_ServiceTable info));
        mret (UPNP_E_SUCCESS,
          set_heap h (set_api (set_handle device_handle (Some (set_ServiceTable t info))
                                 (g_api g)) g))
    | _ => mret (GENA_E_BAD_HANDLE, g)
    end;
  g ← liftO (HandleUnlock g);
  mret (ret, g).

(** ** Sending an event *)

(** [free_notify_struct(in); HandleUnlock(); return]. *)
Definition drop_event (arg : loc) g : option (gena P) :=
  g ← free_notify arg g; HandleUnlock g.

(** [GetHandleInfo], [FindServiceId] and the test of [active]: the place of the
    service an event belongs to. *)
Definition event_service (arg : loc) g : option (option nat) :=
  in_ ← eh_structs (g_heap g) !! arg;
  match GetHandleInfo (nts_device_handle in_) (g_api g) with
  | (HND_DEVICE, Some info) =>
      n ← notification (g_heap g) arg;
      i ← FindServiceId (Some (hi_ServiceTable info)) (nts_servId n) (nts_UDN n);
      match i with
      | Some i =>
          svc ← service g (nts_device_handle n) i;
          Some (if si_active svc =? 0 then None else Some i)
      | None => Some None
      end
  | _ => Some None
  end.

(** The copy of the subscription and the event to send to it, or [None] when
    the thread has ended. *)
Definition notify_start (arg : loc) g : M (option subscription * gena P) :=
  g ← HandleLock g;
  i ← liftO (event_service arg g);
  in_ ← liftO (eh_structs (g_heap g) !! arg);
  match i with
  | None => g ← liftO (drop_event arg g); mret (None, g)
  | Some i =>
      '(k, g) ← liftO (get_sub (nts_device_handle in_) i (nts_sid in_) g);
      match k with
      | None => g ← liftO (drop_event arg g); mret (None, g)
      | Some k =>
          svc ← liftO (service g (nts_device_handle in_) i);
          sub ← liftO (si_subscriptionList svc !! k);
          '(rc, sub_copy) ← copy_subscription sub 0;
          if negb (rc =? HTTP_SUCCESS) then
            g ← liftO (drop_event arg g); mret (None, g)
          else
            g ← liftO (HandleUnlock g);
            mret (Some sub_copy, g)
      end
  end.

(** [int] increment with the wrap to 1 the code asks for. *)
Definition next_key (key : Z) : Z :=
  let key := to_int (key + 1) in if key <? 0 then 1 else key.

(** The head of the queue is removed and the next event is put in the pool. *)
Definition advance_queue sub (pool : P) : M (subscription * P) :=
  match tail (sub_outgoing sub) with
  | [] => mret (set_sub_outgoing [] sub, pool)
  | job :: waiting =>
      _ ← assertM (negb (j_jobId job =? STALE_JOBID));
      '(_, pool) ← sp_add pool job;
      let job := MkJob (j_func job) (j_arg job) (j_free_func job) (j_requestTime job)
                   (j_priority job) STALE_JOBID in
      mret (set_sub_outgoing (job :: waiting) sub, pool)
  end.

Definition notify_finish (return_code : Z) (arg : loc) g : M (gena P) :=
  g ← HandleLock g;
  i ← liftO (event_service arg g);
  in_ ← liftO (eh_structs (g_heap g) !! arg);
  match i with
  | None => liftO (drop_event arg g)
  | Some i =>
      let hnd := nts_device_handle in_ in
      '(k, g) ← liftO (get_sub hnd i (nts_sid in_) g);
      match k with
      | None => liftO (drop_event arg g)
      | Some k =>
          svc ← liftO (service g hnd i);
          sub ← liftO (si_subscriptionList svc !! k);
          let sub := set_sub_key (next_key (sub_ToSendEventKey sub)) sub in
          '(sub, pool) ← advance_queue sub (g_pool g);
          g ← liftO (put_sub hnd i k sub (set_pool pool g));
          g ← liftO (if return_code =? GENA_E_NOTIFY_UNACCEPTED_REMOVE_SUB
                     then remove_sid hnd i (nts_sid in_) g else Some g);
          liftO (drop_event arg g)
      end
  end.

(** ** Posting an event *)

(** [TPJobInit], [TPJobSetFreeFunction] and [TPJobSetPriority] on a job that
    [memset] has cleared. *)
Definition event_job (arg : loc) : ThreadPoolJob :=
  let job := Some (MkJob 0 0 0 (MkTimeval 0 0) 0 0) in
  let job := snd (TPJobInit job genaNotifyThread_ref (Zpos arg)) in
  let job := snd (TPJobSetFreeFunction job free_notify_struct_ref) in
  let job := snd (TPJobSetPriority job MED_PRIORITY) in
  default (MkJob 0 0 0 (MkTimeval 0 0) 0 0) job.

Definition mark_stale (job : ThreadPoolJob) : ThreadPoolJob :=
  MkJob (j_func job) (j_arg job) (j_free_func job) (j_requestTime job) (j_priority job)
    STALE_JOBID.

Definition add_ref (rc : loc) (h : event_heap) : option event_heap :=
  c ← eh_counts h !! rc; Some (MkEH (eh_structs h) (<[rc := to_int (c + 1)]> (eh_counts h))).

(** [malloc] of a structure and the assignments to its fields. *)
Definition new_notify (n : notify_thread_struct) (h : event_heap) : loc * event_heap :=
  let p := fresh (dom (eh_structs h)) in
  (p, MkEH (<[p := n]> (eh_structs h)) (eh_counts h)).

(** What one posting shares between its structures. *)
Record posting := MkPosting {
  po_headers : list Z;
  po_propertySet : list Z;
  po_servId : list Z;
  po_UDN : list Z;
  po_count : loc;
  po_device_handle : Z
}.

Definition notify_of (po : posting) (sid : list Z) (ctime : Z) : notify_thread_struct :=
  MkNotify (po_headers po) (po_propertySet po) (po_servId po) (po_UDN po)
    (ztake 43 (c_str sid)) ctime (po_count po) (po_device_handle po).

(** The status of [ThreadPoolAdd] as it is returned. *)
Definition pool_status (ret : Z) : Z := if ret =? EOUTOFMEM then UPNP_E_OUTOF_MEMORY else ret.

(** The body of the loop of [genaNotifyAllCommon] for the subscription at [k]:
    [Some ret] when the loop is left. *)
Definition post_event (po : posting) (hnd : Z) (i k : nat) g : M (option Z * gena P) :=
  svc ← liftO (service g hnd i);
  sub ← liftO (si_subscriptionList svc !! k);
  ok ← malloc_ok;
  if negb ok then mret (Some UPNP_E_OUTOF_MEMORY, g)
  else
    h ← liftO (add_ref (po_count po) (g_heap g));
    let '(ctime, g) := time g in
    let '(p, h) := new_notify (notify_of po (sub_sid sub) ctime) h in
    let '(now, g) := time g in
    '(h, outgoing) ← liftO (maybeDiscardEvents EQMaxLen EQMaxAge now h (sub_outgoing sub));
    let put h outgoing g := put_sub hnd i k (set_sub_outgoing outgoing sub) (set_heap h g) in
    ok ← malloc_ok;
    if negb ok then
      g ← liftO (put (MkEH (delete p (eh_structs h)) (eh_counts h)) outgoing g);
      mret (Some UPNP_E_OUTOF_MEMORY, g)
    else
      let job := event_job p in
      node ← malloc_ok;
      let outgoing := if node : bool then outgoing ++ [job] else outgoing in
      if zlen outgoing =? 1 then
        '(ret, pool) ← sp_add (g_pool g) job;
        if negb (ret =? 0) then
          g ← liftO (put h outgoing (set_pool pool g)); mret (Some (pool_status ret), g)
        else
          let outgoing := if node : bool then [mark_stale job] else outgoing in
          g ← liftO (put h outgoing (set_pool pool g)); mret (None, g)
      else g ← liftO (put h outgoing g); mret (None, g).

(** [while (finger)]. *)
Fixpoint post_loop (fuel : nat) (po : posting) (hnd : Z) (i : nat) (finger : option nat) g
    : M (Z * gena P) :=
  match fuel with
  | O => running
  | S fuel' =>
      match finger with
      | None => mret (GENA_SUCCESS, g)
      | Some k =>
          '(ret, g) ← post_event po hnd i k g;
          match ret with
          | Some ret => mret (ret, g)
          | None =>
              '(finger, g) ← liftO (next_sub hnd i k g);
              post_loop fuel' po hnd i finger g
          end
      end
  end.

(** [ExitFunction]: the texts and the counter are freed if nothing refers to
    them, and the lock is released. *)
Definition post_exit (ret : Z) (rc : ptr) g : M (Z * gena P) :=
  g ← liftO (match rc with
             | None => Some g
             | Some rc =>
                 c ← eh_counts (g_heap g) !! rc;
                 Some (if c =? 0 then set_heap (MkEH (eh_structs (g_heap g))
                                                  (delete rc (eh_counts (g_heap g)))) g
                       else g)
             end);
  g ← liftO (HandleUnlock g);
  mret (ret, g).

Definition new_count (h : event_heap) : loc * event_heap :=
  let rc := fresh (dom (eh_counts h)) in
  (rc, MkEH (eh_structs h) (<[rc := 0]> (eh_counts h))).

Definition genaNotifyAllCommon (device_handle : Z) (UDN servId : list Z) (propertySet : DOMString) g
    : M (Z * gena P) :=
  ok ← malloc_ok;
  if negb ok then post_exit UPNP_E_OUTOF_MEMORY None g
  else
    let '(rc, h) := new_count (g_heap g) in
    let g := set_heap h g in
    ok ← malloc_ok;
    if negb ok then post_exit UPNP_E_OUTOF_MEMORY (Some rc) g
    else
    ok ← malloc_ok;
    if negb ok then post_exit UPNP_E_OUTOF_MEMORY (Some rc) g
    else
    headers ← AllocGenaHeaders propertySet;
    match headers with
    | None => post_exit UPNP_E_OUTOF_MEMORY (Some rc) g
    | Some headers =>
        text ← liftO (str_of propertySet);
        g ← HandleLock g;
        match GetHandleInfo device_handle (g_api g) with
        | (HND_DEVICE, Some info) =>
            i ← liftO (FindServiceId (Some (hi_ServiceTable info)) servId UDN);
            match i with
            | Some i =>
                svc ← liftO (service g device_handle i);
                '(finger, g) ← liftO (first_sub device_handle i g);
                '(ret, g) ← post_loop (S (length (si_subscriptionList svc)))
                  (MkPosting headers text (c_str servId) (c_str UDN) rc device_handle)
                  device_handle i finger g;
                post_exit ret (Some rc) g
            | None => post_exit GENA_E_BAD_SERVICE (Some rc) g
            end
        | _ => post_exit GENA_E_BAD_HANDLE (Some rc) g
        end
    end.

Definition genaNotifyAll (device_handle : Z) (UDN servId : list Z)
    (vars : list (list Z * list Z)) g : M (Z * gena P) :=
  '(ret, propertySet) ← GeneratePropertySet vars;
  if negb (ret =? 0) then mret (ret, g)
  else genaNotifyAllCommon device_handle UDN servId propertySet g.

(** The error exit of [genaInitNotifyCommon] frees what was allocated: the
    structure [p] and the counter, with the texts, as far as they exist. *)
Definition init_exit (ret : Z) (p rc : ptr) g : M (Z * gena P) :=
  g ← liftO (if ret =? GENA_SUCCESS then Some g
             else
               structs ← match p with
                         | None => Some (eh_structs (g_heap g))
                         | Some p =>
                             _ ← eh_structs (g_heap g) !! p;
                             Some (delete p (eh_structs (g_heap g)))
                         end;
               counts ← match rc with
                        | None => Some (eh_counts (g_heap g))
                        | Some rc =>
                            _ ← eh_counts (g_heap g) !! rc;
                            Some (delete rc (eh_counts (g_heap g)))
                        end;
               Some (set_heap (MkEH structs counts) g));
  g ← liftO (HandleUnlock g);
  mret (ret, g).

Definition genaInitNotifyCommon (device_handle : Z) (UDN servId : list Z)
    (propertySet : DOMString) (sid : list Z) g : M (Z * gena P) :=
  ok ← malloc_ok;
  if negb ok then init_exit UPNP_E_OUTOF_MEMORY None None g
  else
  ok ← malloc_ok;
  if negb ok then init_exit UPNP_E_OUTOF_MEMORY None None g
  else
    let '(rc, h) := new_count (g_heap g) in
    let g := set_heap h g in
    ok ← malloc_ok;
    if negb ok then init_exit UPNP_E_OUTOF_MEMORY None (Some rc) g
    else
    ok ← malloc_ok;
    if negb ok then init_exit UPNP_E_OUTOF_MEMORY None (Some rc) g
    else
    g ← HandleLock g;
    match GetHandleInfo device_handle (g_api g) with
    | (HND_DEVICE, Some info) =>
        i ← liftO (FindServiceId (Some (hi_ServiceTable info)) servId UDN);
        match i with
        | None => init_exit GENA_E_BAD_SERVICE None (Some rc) g
        | Some i =>
            '(k, g) ← liftO (get_sub device_handle i sid g);
            match k with
            | None => init_exit GENA_E_BAD_SID None (Some rc) g
            | Some k =>
                svc ← liftO (service g device_handle i);
                sub ← liftO (si_subscriptionList svc !! k);
                if negb (sub_active sub =? 0) then init_exit GENA_E_BAD_SID None (Some rc) g
                else
                  let sub := set_sub_active 1 sub in
                  g ← liftO (put_sub device_handle i k sub g);
                  headers ← AllocGenaHeaders propertySet;
                  match headers with
                  | None => init_exit UPNP_E_OUTOF_MEMORY None (Some rc) g
                  | Some headers =>
                      text ← liftO (str_of propertySet);
                      ok ← malloc_ok;
                      if negb ok then init_exit UPNP_E_OUTOF_MEMORY None (Some rc) g
                      else
                        h ← liftO (add_ref rc (g_heap g));
                        let '(ctime, g) := time g in
                        let po := MkPosting headers text (c_str servId) (c_str UDN) rc
                                    device_handle in
                        let '(p, h) := new_notify (notify_of po sid ctime) h in
                        let g := set_heap h g in
                        let job := event_job p in
                        '(ret, pool) ← sp_add (g_pool g) job;
                        let g := set_pool pool g in
                        if negb (ret =? 0) then init_exit (pool_status ret) (Some p) (Some rc) g
                        else
                          node ← malloc_ok;
                          if node : bool then
                            let outgoing := sub_outgoing sub ++ [mark_stale job] in
                            g ← liftO (put_sub device_handle i k
                                         (set_sub_outgoing outgoing sub) g);
                            init_exit GENA_SUCCESS (Some p) (Some rc) g
                          else init_exit UPNP_E_OUTOF_MEMORY (Some p) (Some rc) g
                  end
            end
        end
    | _ => init_exit GENA_E_BAD_HANDLE None (Some rc) g
    end.

Definition genaInitNotify (device_handle : Z) (UDN servId : list Z)
    (vars : list (list Z * list Z)) (sid : list Z) g : M (Z * gena P) :=
  if bool_decide (vars = []) then mret (GENA_SUCCESS, g)
  else
    '(ret, propertySet) ← GeneratePropertySet vars;
    if negb (ret =? 0) then mret (ret, g)
    else genaInitNotifyCommon device_handle UDN servId propertySet sid g.
End Gena.
