(* ===== verification/GenaInv.v ===== *)
(** The invariant of eventing: which events are live, who owns them, and which
    of them are in the pool. *)

From S2P Require Import Prelude CString FreeList ThreadPool Uri IxmlNode GenaQueue ServiceTable HandleTable Gena.

(** The structures of the queued events of a subscription, and those behind the
    first. *)
Definition args (sub : subscription) : list loc := omap job_arg (sub_outgoing sub).
Definition waits (sub : subscription) : list loc := tail (args sub).

Implicit Types (h : event_heap) (sub : subscription) (subs : list subscription)
  (busy lost : list loc) (x : ptr).

(** A subscription identifier fits its array. *)
Definition sid_ok (sid : list Z) : Prop := c_str sid = sid /\ zlen sid <= SID_SIZE.

Record sub_ok h sub : Prop := {
  so_args : job_arg <$> sub_outgoing sub = Some <$> args sub;
  so_sid : sid_ok (sub_sid sub);
  so_jobs : Forall (fun j => j_jobId j <> STALE_JOBID /\ j_func j = genaNotifyThread_ref)
              (tail (sub_outgoing sub));
  so_events : Forall (fun p => exists n, eh_structs h !! p = Some n /\
                                nts_sid n = sub_sid sub) (waits sub);
  so_active : sub_active sub = 0 -> sub_outgoing sub = []
}.

(** [busy] are the events in the pool or being sent, [lost] those nobody will
    send: every structure is one of these or waits in one queue.  A subscription
    for which an event is busy has this event at the head of its queue. *)
Record qinv x busy lost subs h : Prop := {
  q_ok : eh_ok x h;
  q_small : eh_small h;
  q_owned : (map_to_list (eh_structs h)).*1 ≡ₚ busy ++ lost ++ (subs ≫= waits);
  q_sids : NoDup (sub_sid <$> subs);
  q_subs : Forall (sub_ok h) subs;
  q_events : forall p n, eh_structs h !! p = Some n -> sid_ok (nts_sid n);
  q_heads : forall p n sub, p ∈ busy -> eh_structs h !! p = Some n -> sub ∈ subs ->
              sub_sid sub = nts_sid n -> head (args sub) = Some p
}.

#[export] Instance qinv_proper x :
  Proper ((≡ₚ) ==> (≡ₚ) ==> (≡ₚ) ==> eq ==> iff) (qinv x).
Proof.
  assert (forall b b' l l' s s' h, b ≡ₚ b' -> l ≡ₚ l' -> s ≡ₚ s' ->
    qinv x b l s h -> qinv x b' l' s' h) as Himp.
  { intros b b' l l' s s' h Hb Hl Hs [? ? Ho Hn Hf He Hh].
    split; [done|done|..].
    - by rewrite Ho, Hb, Hl, Hs.
    - by rewrite <- Hs.
    - by rewrite <- Hs.
    - done.
    - intros p n sub Hp. rewrite <- Hs, <- Hb in *. by apply Hh. }
  intros b b' Hb l l' Hl s s' Hs h h' <-. split; apply Himp; by symmetry || done.
Qed.

Lemma waits_live x busy lost subs h :
  qinv x busy lost subs h ->
  forall p, p ∈ busy ++ lost ++ (subs ≫= waits) <-> is_Some (eh_structs h !! p).
Proof.
  intros Hq p. rewrite <- (q_owned _ _ _ _ _ Hq). rewrite list_elem_of_fmap. split.
  - intros ([q n] & -> & Hn%elem_of_map_to_list). by exists n.
  - intros [n Hn]. exists (p, n). split; [done|]. by apply elem_of_map_to_list.
Qed.

Lemma owned_nodup x busy lost subs h :
  qinv x busy lost subs h -> NoDup (busy ++ lost ++ (subs ≫= waits)).
Proof. intros Hq. rewrite <- (q_owned _ _ _ _ _ Hq). apply NoDup_fst_map_to_list. Qed.

(** Freeing events that someone owned, for whatever reason. *)
Lemma qinv_frees x busy lost subs h ps h' busy' lost' subs' :
  qinv x busy lost subs h -> frees x h ps h' ->
  busy ++ lost ++ (subs ≫= waits) ≡ₚ ps ++ busy' ++ lost' ++ (subs' ≫= waits) ->
  busy' ⊆ busy -> NoDup (sub_sid <$> subs') ->
  (forall s', s' ∈ subs' -> sub_ok h s' /\
     exists s, s ∈ subs /\ sub_sid s = sub_sid s' /\ head (args s') = head (args s)) ->
  qinv x busy' lost' subs' h'.
Proof.
  intros Hq [Hok Hsm Hd _] Hperm Hbusy Hsids Hs.
  pose proof (owned_nodup _ _ _ _ _ Hq) as Hnd. rewrite Hperm in Hnd.
  apply NoDup_app in Hnd as (_ & Hdis & Hnd).
  split; [done|done| |done|..].
  - apply NoDup_Permutation; [apply NoDup_fst_map_to_list|done|]. intros p.
    pose proof (waits_live _ _ _ _ _ Hq p) as Hl. rewrite Hperm, elem_of_app in Hl.
    transitivity (is_Some (eh_structs h' !! p)).
    + rewrite list_elem_of_fmap. split.
      * intros ([q n] & -> & Hn%elem_of_map_to_list). by exists n.
      * intros [n Hn]. exists (p, n). split; [done|]. by apply elem_of_map_to_list.
    + rewrite Hd. case_decide as Hp; [|rewrite <- Hl; tauto].
      split; [by intros []|]. intros Hp'. by destruct (Hdis p).
  - apply Forall_forall. intros s' Hin. destruct (Hs s' Hin) as [[Ha Hi Hj He Hac] _].
    split; [done..| |done]. rewrite Forall_forall in *. intros p Hp.
    rewrite (dropped_keeps h ps h' p Hd); [by apply He|]. intros Hin'.
    apply (Hdis p Hin'). rewrite !elem_of_app. right. right. apply list_elem_of_bind.
    by exists s'.
  - intros p n Hn. apply (q_events _ _ _ _ _ Hq p). rewrite Hd in Hn. by case_decide.
  - intros p n s' Hp Hn Hin Hsid. destruct (Hs s' Hin) as [_ (s & Hin' & Hsid' & ->)].
    apply (q_heads _ _ _ _ _ Hq p n s); [by apply Hbusy| |done|congruence].
    rewrite Hd in Hn. by case_decide.
Qed.

(** The event a thread has dealt with is freed. *)
Lemma qinv_free_busy x p busy lost subs h :
  qinv x (p :: busy) lost subs h ->
  exists h', free_notify_struct h p = Some h' /\ frees x h [p] h' /\ qinv x busy lost subs h'.
Proof.
  intros Hq. destruct (proj1 (waits_live _ _ _ _ _ Hq p)) as [n Hn]; [set_solver|].
  destruct (free_notify_struct_spec x h p n) as (h' & ? & Hf); [by apply Hq..|done|].
  exists h'. split; [done|]. split; [done|].
  eapply qinv_frees; [done|done|done|set_solver|apply Hq|].
  intros s' Hin. split; [|by exists s'].
  pose proof (q_subs _ _ _ _ _ Hq) as Hs. rewrite Forall_forall in Hs. by apply Hs.
Qed.

Lemma args_cons sub job l :
  sub_outgoing sub = job :: l -> forall h, sub_ok h sub ->
  exists p, job_arg job = Some p /\ args sub = p :: omap job_arg l.
Proof.
  intros E h [Ha _ _ _ _]. unfold args in *. rewrite E in *. cbn in *.
  destruct (job_arg job) as [p|]; [by exists p|]. by destruct (omap job_arg l).
Qed.

(** The waiting events of a subscription can all be freed. *)
Lemma waits_carried x busy lost sub subs h :
  qinv x busy lost (sub :: subs) h -> carries h (tail (sub_outgoing sub)) (waits sub).
Proof.
  intros Hq. pose proof (q_subs _ _ _ _ _ Hq) as [Hs _]%List.Forall_cons_iff.
  split.
  - destruct (sub_outgoing sub) as [|job l] eqn:E; [by unfold waits, args; rewrite E|].
    destruct (args_cons sub job l E h Hs) as (p & Hj & Ha). destruct Hs as [Hargs _ _ _ _].
    unfold waits. rewrite E, Ha in *. cbn in *. by simplify_eq.
  - pose proof (owned_nodup _ _ _ _ _ Hq) as Hnd. cbn in Hnd.
    apply NoDup_app in Hnd as (_ & _ & Hnd). apply NoDup_app in Hnd as (_ & _ & Hnd).
    by apply NoDup_app in Hnd as (? & _ & _).
  - apply Forall_forall. intros p Hp. apply (waits_live _ _ _ _ _ Hq).
    rewrite !elem_of_app. right. right. cbn. apply elem_of_app. by left.
Qed.

Lemma head_some {A} (l : list A) a : head l = Some a -> l = a :: tail l.
Proof. destruct l; [done|]. cbn. intros [= ->]. done. Qed.

Lemma qinv_remove x busy lost sub subs h :
  qinv x busy lost (sub :: subs) h ->
  exists h', freeSubscriptionList h [sub] = Some h' /\ frees x h (waits sub) h' /\
    qinv x busy lost subs h'.
Proof.
  intros Hq. destruct (freeSubscriptionQueuedEvents_spec x h (sub_outgoing sub) (waits sub))
    as (h' & E & Hf); [by apply Hq..|by eapply waits_carried|].
  exists h'. cbn. unfold freeSubscription. cbn. rewrite E. cbn.
  split; [done|]. split; [done|].
  pose proof (q_sids _ _ _ _ _ Hq) as [_ Hnd]%NoDup_cons.
  eapply qinv_frees; [done|done| |done|done|].
  - cbn. solve_perm.
  - intros s' Hin. pose proof (q_subs _ _ _ _ _ Hq) as Hs. rewrite Forall_forall in Hs.
    split; [apply Hs; set_solver|]. exists s'. split; [set_solver|done].
Qed.

(** ** Changes of ownership *)

Lemma q_sub_ok x busy lost sub subs h : qinv x busy lost (sub :: subs) h -> sub_ok h sub.
Proof. intros Hq. by pose proof (q_subs _ _ _ _ _ Hq) as [? _]%List.Forall_cons_iff. Qed.

(** Only the ownership of the events of one subscription changes. *)
Lemma qinv_move x busy lost sub subs h busy' lost' sub' :
  qinv x busy lost (sub :: subs) h ->
  busy ++ lost ++ waits sub ≡ₚ busy' ++ lost' ++ waits sub' ->
  sub_sid sub' = sub_sid sub -> sub_ok h sub' ->
  (forall p n, p ∈ busy' -> eh_structs h !! p = Some n ->
     (nts_sid n = sub_sid sub -> head (args sub') = Some p) /\
     (nts_sid n <> sub_sid sub -> p ∈ busy)) ->
  qinv x busy' lost' (sub' :: subs) h.
Proof.
  intros Hq Hperm Hsid Hok' Hh.
  assert (NoDup (sub_sid <$> sub :: subs)) as Hnd by apply Hq.
  pose proof (q_subs _ _ _ _ _ Hq) as [_ Hf]%List.Forall_cons_iff.
  split; [apply Hq..| |by cbn; rewrite Hsid|by constructor|apply Hq|].
  - rewrite (q_owned _ _ _ _ _ Hq). cbn. rewrite !app_assoc. apply Permutation_app_tail.
    by rewrite <- !app_assoc.
  - intros p n s Hp Hn Hin Hs. destruct (Hh p n Hp Hn) as [Heq Hne].
    apply elem_of_cons in Hin as [->|Hin]; [apply Heq; congruence|].
    apply NoDup_cons in Hnd as [Hni _].
    assert (sub_sid s <> sub_sid sub) as Hd.
    { intros E. apply Hni. rewrite <- E. apply list_elem_of_fmap. by exists s. }
    apply (q_heads _ _ _ _ _ Hq p n s); [apply Hne; congruence|done|set_solver|done].
Qed.

(** An event nobody will send is freed. *)
Lemma qinv_free_lost x p busy lost subs h :
  qinv x busy (p :: lost) subs h ->
  exists h', free_notify_struct h p = Some h' /\ frees x h [p] h' /\ qinv x busy lost subs h'.
Proof.
  intros Hq. destruct (proj1 (waits_live _ _ _ _ _ Hq p)) as [n Hn]; [set_solver|].
  destruct (free_notify_struct_spec x h p n) as (h' & ? & Hf); [by apply Hq..|done|].
  exists h'. split; [done|]. split; [done|].
  eapply qinv_frees; [done|done|cbn; solve_perm|done|apply Hq|].
  intros s' Hin. split; [|by exists s'].
  pose proof (q_subs _ _ _ _ _ Hq) as Hs. rewrite Forall_forall in Hs. by apply Hs.
Qed.

(** A subscription whose fields other than the queue change. *)
Lemma qinv_same_queue x busy lost sub sub' subs h :
  qinv x busy lost (sub :: subs) h ->
  sub_sid sub' = sub_sid sub -> sub_outgoing sub' = sub_outgoing sub ->
  (sub_active sub' = 0 -> sub_active sub = 0) ->
  qinv x busy lost (sub' :: subs) h.
Proof.
  intros Hq Hs Ho Hact. pose proof (q_sub_ok _ _ _ _ _ _ Hq) as [Ha Hi Hj He Hac].
  assert (args sub' = args sub) as Hargs by (unfold args; by rewrite Ho).
  assert (waits sub' = waits sub) as Hw by (unfold waits; by rewrite Hargs).
  eapply qinv_move; [done|by rewrite Hw|done| |].
  - split; rewrite ?Ho, ?Hargs, ?Hw, ?Hs; auto.
  - intros p n Hp Hn. split; [|done]. intros E. rewrite Hargs.
    apply (q_heads _ _ _ _ _ Hq p n sub); [done..|set_solver|done].
Qed.

(** ** The head of a queue *)

Lemma sub_ok_tail h sub job l sub' :
  sub_ok h sub -> sub_outgoing sub = job :: l -> sub_sid sub' = sub_sid sub ->
  sub_active sub' = sub_active sub ->
  (omap job_arg (sub_outgoing sub') = omap job_arg l) ->
  (job_arg <$> sub_outgoing sub' = job_arg <$> l) ->
  tail (sub_outgoing sub') = tail l ->
  sub_ok h sub' /\ args sub' = waits sub.
Proof.
  intros Hok E Hs Hact Ho Hm Ht. destruct (args_cons sub job l E h Hok) as (p & Hj & Ha).
  destruct Hok as [Hargs Hi Hjobs Hev Hac]. unfold waits in Hev. rewrite Ha in *. rewrite E in *.
  assert (args sub' = omap job_arg l) as Ha' by done.
  split; [|unfold waits; by rewrite Ha', Ha].
  cbn in Hargs, Hjobs, Hev. simplify_eq. split.
  - by rewrite Hm, Ha'.
  - by rewrite Hs.
  - rewrite Ht. destruct l as [|j' l']; [done|]. by apply List.Forall_cons_iff in Hjobs as [? ?].
  - unfold waits. rewrite Ha', Hs. destruct (omap job_arg l); [done|].
    by apply List.Forall_cons_iff in Hev as [? ?].
  - rewrite Hact. intros Hz. by specialize (Hac Hz).
Qed.

(** The head is taken off: it is nobody's, and the next event, if there is one,
    is busy when the pool took it and lost otherwise. *)
Lemma qinv_pop x arg busy lost sub subs h (accepted : bool) sub' :
  qinv x (arg :: busy) lost (sub :: subs) h -> head (args sub) = Some arg ->
  sub_sid sub' = sub_sid sub -> sub_active sub' = sub_active sub ->
  omap job_arg (sub_outgoing sub') = omap job_arg (tail (sub_outgoing sub)) ->
  job_arg <$> sub_outgoing sub' = job_arg <$> tail (sub_outgoing sub) ->
  tail (sub_outgoing sub') = tail (tail (sub_outgoing sub)) ->
  args sub' = waits sub /\
  qinv x ((if accepted then option_list (head (waits sub)) else []) ++ busy)
    ((if accepted then [] else option_list (head (waits sub))) ++ arg :: lost)
    (sub' :: subs) h.
Proof.
  intros Hq Hhd Hs Hact Ho Hm Ht. pose proof (q_sub_ok _ _ _ _ _ _ Hq) as Hok.
  destruct (sub_outgoing sub) as [|job l] eqn:E; [by unfold args in Hhd; rewrite E in Hhd|].
  destruct (sub_ok_tail h sub job l sub' Hok E Hs Hact Ho Hm Ht) as [Hok' Ha'].
  split; [done|].
  assert (waits sub' = tail (waits sub)) as Hw by (unfold waits at 1; by rewrite Ha').
  pose proof (owned_nodup _ _ _ _ _ Hq) as Hnd.
  eapply qinv_move; [done| |done|done|].
  - rewrite Hw. destruct (waits sub) as [|q ws]; destruct accepted; cbn; solve_perm.
  - intros p n Hp Hn. rewrite Ha'. split.
    + intros Hsid. apply elem_of_app in Hp as [Hp|Hp].
      * destruct accepted; [|set_solver]. destruct (waits sub); cbn in *; set_solver.
      * exfalso. assert (head (args sub) = Some p) as Hh.
        { apply (q_heads _ _ _ _ _ Hq p n sub); [set_solver|done|set_solver|done]. }
        assert (p = arg) as -> by congruence. cbn in Hnd. apply NoDup_cons in Hnd as [Hni _].
        set_solver.
    + intros Hsid. apply elem_of_app in Hp as [Hp|Hp]; [|set_solver]. exfalso.
      destruct accepted; [|set_solver]. destruct Hok as [_ _ _ Hev _].
      destruct (waits sub) as [|q ws] eqn:Ew; [cbn in Hp; set_solver|].
      cbn in Hp. apply list_elem_of_singleton in Hp as ->.
      rewrite Forall_forall in Hev. destruct (Hev q) as (m & Hm' & ?); [set_solver|]. congruence.
Qed.

(** ** The functions of the service table *)

Lemma find_sid_spec sid subs :
  match find_sid sid subs with
  | Some i => exists s, subs !! i = Some s /\ c_str sid = c_str (sub_sid s)
  | None => Forall (fun s => c_str sid <> c_str (sub_sid s)) subs
  end.
Proof.
  induction subs as [|s subs IH]; cbn; [done|]. unfold strcmp_eq.
  case_bool_decide as E; [by exists s|].
  destruct (find_sid sid subs) as [i|]; cbn; [done|]. by constructor.
Qed.

Lemma remove_sub_spec x busy lost svc others h i sub :
  qinv x busy lost (si_subscriptionList svc ++ others) h ->
  si_subscriptionList svc !! i = Some sub ->
  exists h', remove_sub h i svc =
      Some (h', set_subs (si_TotalSubscriptions svc - 1) (delete i (si_subscriptionList svc)) svc) /\
    frees x h (waits sub) h' /\
    qinv x busy lost (delete i (si_subscriptionList svc) ++ others) h'.
Proof.
  intros Hq Hi. rewrite (delete_Permutation _ _ _ Hi) in Hq.
  destruct (qinv_remove _ _ _ _ _ _ Hq) as (h' & E & ?).
  exists h'. split; [|done]. unfold remove_sub. rewrite Hi. cbn [mbind option_bind]. by rewrite E.
Qed.

Lemma RemoveSubscriptionSID_spec x busy lost svc others h sid :
  qinv x busy lost (si_subscriptionList svc ++ others) h ->
  exists h' svc', RemoveSubscriptionSID h sid svc = Some (h', svc') /\
    qinv x busy lost (si_subscriptionList svc' ++ others) h' /\
    match find_sid sid (si_subscriptionList svc) with
    | Some i => svc' = set_subs (si_TotalSubscriptions svc - 1)
                         (delete i (si_subscriptionList svc)) svc
    | None => svc' = svc /\ h' = h
    end.
Proof.
  intros Hq. unfold RemoveSubscriptionSID. pose proof (find_sid_spec sid (si_subscriptionList svc)).
  destruct (find_sid sid (si_subscriptionList svc)) as [i|]; [|by exists h, svc].
  destruct H as (s & Hi & _).
  destruct (remove_sub_spec _ _ _ _ _ _ _ _ Hq Hi) as (h' & -> & _ & ?).
  by eexists h', _.
Qed.

Lemma GetSubscriptionSID_spec x busy lost svc others h sid now :
  qinv x busy lost (si_subscriptionList svc ++ others) h ->
  exists k h' svc', GetSubscriptionSID now h sid svc = Some (k, h', svc') /\
    qinv x busy lost (si_subscriptionList svc' ++ others) h' /\
    match k with
    | Some i => h' = h /\ svc' = svc /\ find_sid sid (si_subscriptionList svc) = Some i /\
        exists s, si_subscriptionList svc !! i = Some s /\ c_str sid = c_str (sub_sid s) /\
                  expired now s = false
    | None =>
        match find_sid sid (si_subscriptionList svc) with
        | Some i => (exists s, si_subscriptionList svc !! i = Some s /\ expired now s = true /\
                               frees x h (waits s) h') /\
            svc' = set_subs (si_TotalSubscriptions svc - 1)
                     (delete i (si_subscriptionList svc)) svc
        | None => svc' = svc /\ h' = h
        end
    end.
Proof.
  intros Hq. unfold GetSubscriptionSID. pose proof (find_sid_spec sid (si_subscriptionList svc)).
  destruct (find_sid sid (si_subscriptionList svc)) as [i|]; [|by exists None, h, svc].
  destruct H as (s & Hi & Hs). rewrite Hi. cbn [mbind option_bind].
  destruct (expired now s) eqn:E.
  - destruct (remove_sub_spec _ _ _ _ _ _ _ _ Hq Hi) as (h' & -> & Hf & ?). cbn [mbind option_bind].
    eexists None, h', _. split; [done|]. split; [done|]. split; [|done]. by exists s.
  - exists (Some i), h, svc. split; [done|]. split; [done|]. do 3 (split; [done|]). by exists s.
Qed.

(** What the loop over the following subscriptions leaves: the expired ones
    among the [skipped] are gone. *)
Record next_found now (pos : nat) (rest : list subscription) (total : Z)
    (next : option nat) (rest' : list subscription) (total' : Z)
    (skipped found : list subscription) : Prop := {
  nf_rest : rest = skipped ++ found;
  nf_rest' : rest' = filter (fun s => expired now s = false) skipped ++ found;
  nf_skipped : Forall (fun s => expired now s = true \/ sub_active s = 0) skipped;
  nf_total : total' - zlen rest' = total - zlen rest;
  nf_next : next = match found with
                   | [] => None
                   | _ => Some (pos + length (filter (fun s => expired now s = false) skipped))%nat
                   end;
  nf_found : forall s, head found = Some s -> expired now s = false /\ sub_active s <> 0
}.

Lemma next_loop_spec x busy lost now pre others rest h pos total :
  qinv x busy lost (pre ++ rest ++ others) h ->
  exists next h' rest' total' skipped found ps,
    next_loop now h pos rest total = Some (next, h', rest', total') /\
    qinv x busy lost (pre ++ rest' ++ others) h' /\
    frees x h ps h' /\ (forall p, p ∈ ps -> p ∈ rest ≫= waits) /\
    next_found now pos rest total next rest' total' skipped found.
Proof.
  revert pre h pos total. induction rest as [|s rest IH]; intros pre h pos total Hq; cbn [next_loop].
  { exists None, h, [], total, [], [], []. split; [done|]. split; [done|].
    split; [apply frees_nil; apply Hq|]. split; [set_solver|]. by split. }
  destruct (expired now s) eqn:E.
  - assert (pre ++ (s :: rest) ++ others ≡ₚ s :: pre ++ rest ++ others) as Hp by (cbn; solve_perm).
    rewrite Hp in Hq. destruct (qinv_remove _ _ _ _ _ _ Hq) as (h1 & -> & Hf & Hq1).
    cbn [mbind option_bind].
    destruct (IH pre h1 pos (total - 1) Hq1)
      as (next & h' & rest' & total' & sk & fd & ps & -> & Hq' & Hf' & Hps & [-> -> Hs Ht Hn Hfd]).
    exists next, h', (filter (fun s => expired now s = false) sk ++ fd), total', (s :: sk), fd, (waits s ++ ps).
    split; [done|]. split; [done|]. split; [by apply (frees_app _ _ _ h1)|].
    split; [cbn; set_solver|].
    assert (filter (fun s => expired now s = false) (s :: sk) =
            filter (fun s => expired now s = false) sk) as Hfl
      by (rewrite filter_cons_False; [done|congruence]).
    split; [done|by rewrite Hfl| | |by rewrite Hfl|done].
    + constructor; [by left|done].
    + change ((s :: sk) ++ fd) with (s :: sk ++ fd). rewrite zlen_cons. lia.
  - destruct (negb (sub_active s =? 0)) eqn:Ea; zbool.
    + exists (Some pos), h, (s :: rest), total, [], (s :: rest), [].
      split; [done|]. split; [done|]. split; [apply frees_nil; apply Hq|].
      split; [set_solver|]. split; try done; [cbn; f_equal; lia|].
      intros s' [= <-]. done.
    + assert (pre ++ (s :: rest) ++ others = (pre ++ [s]) ++ rest ++ others) as Hp
        by (by rewrite <- !app_assoc).
      rewrite Hp in Hq.
      destruct (IH (pre ++ [s]) h (S pos) total Hq)
        as (next & h' & rest' & total' & sk & fd & ps & -> & Hq' & Hf' & Hps & [-> -> Hs Ht Hn Hfd]).
      cbn [mbind option_bind].
      assert (filter (fun s => expired now s = false) (s :: sk) =
              s :: filter (fun s => expired now s = false) sk) as Hfl
        by (by rewrite filter_cons_True).
      eexists next, h', _, total', (s :: sk), fd, ps.
      split; [done|]. split; [clear -Hq'; rewrite <- !app_assoc in Hq'; cbn [app]; by rewrite <- ?app_assoc|]. split; [done|].
      split; [cbn; set_solver|].
      split; [done|by rewrite Hfl| | |rewrite Hfl, Hn; destruct fd; [done|f_equal; cbn; lia]|done].
      * constructor; [by right|done].
      * change ((s :: sk) ++ fd) with (s :: sk ++ fd). rewrite !zlen_cons. lia.
Qed.

(** ** Posting *)

Definition with_queue (l : list ThreadPoolJob) sub : subscription := set_sub_outgoing l sub.

(** A new structure, counted and owned by nobody yet. *)
Lemma qinv_new x busy lost subs h n :
  qinv x busy lost subs h -> sid_ok (nts_sid n) -> is_Some (eh_counts h !! nts_reference_count n) ->
  Z.of_nat (size (eh_structs h)) < INT_MAX ->
  exists h1 p h2, add_ref (nts_reference_count n) h = Some h1 /\ new_notify n h1 = (p, h2) /\
    eh_structs h !! p = None /\ eh_structs h2 = <[p := n]> (eh_structs h) /\
    qinv x busy (p :: lost) subs h2.
Proof.
  intros Hq Hsidn [c Hc] Hsz. unfold add_ref. rewrite Hc. cbn [mbind option_bind].
  set (h1 := MkEH _ _). set (p := fresh (dom (eh_structs h))).
  assert (eh_structs h !! p = None) as Hp by apply not_elem_of_dom, is_fresh.
  exists h1, p, (MkEH (<[p := n]> (eh_structs h)) (eh_counts h1)).
  split; [done|]. split; [done|]. split; [done|]. split; [done|].
  pose proof (q_ok _ _ _ _ _ Hq) as Hok. pose proof (Hok (nts_reference_count n)) as Hrc.
  rewrite Hc in Hrc. destruct Hrc as [Hrefs Hx].
  pose proof (refs_le h (nts_reference_count n)) as Hle.
  assert (forall q m s, q ∈ args s -> eh_structs h !! q = Some m ->
    (<[p := n]> (eh_structs h)) !! q = Some m) as Hkeep.
  { intros q m s _ Hm. rewrite lookup_insert_ne; [done|]. intros <-. congruence. }
  split.
  - intros rc. specialize (Hok rc). rewrite refs_insert by done. cbn [eh_counts h1].
    destruct (decide (nts_reference_count n = rc)) as [<-|Hne].
    + rewrite lookup_insert_eq, to_int_small by (unfold INT_MAX in *; lia). lia.
    + rewrite lookup_insert_ne by done. by rewrite Z.add_0_r.
  - unfold eh_small. cbn. rewrite map_size_insert_None by done. lia.
  - cbn. rewrite map_to_list_insert by done. cbn. rewrite (q_owned _ _ _ _ _ Hq). solve_perm.
  - apply Hq.
  - pose proof (q_subs _ _ _ _ _ Hq) as Hs. eapply Forall_impl; [exact Hs|].
    intros s [Ha Hi Hj He Hac]. split; [done..| |done]. eapply Forall_impl; [exact He|].
    intros q (m & Hm & ?). exists m. split; [|done]. cbn. rewrite lookup_insert_ne; [done|].
    intros <-. congruence.
  - cbn. intros q m [[<- <-]|[_ Hm]]%lookup_insert_Some; [done|].
    by apply (q_events _ _ _ _ _ Hq q).
  - cbn. intros q m s Hin Hm. rewrite lookup_insert_ne in Hm.
    + by apply (q_heads _ _ _ _ _ Hq).
    + intros <-. assert (is_Some (eh_structs h !! p)) as [? ?]; [|congruence].
      apply (waits_live _ _ _ _ _ Hq). set_solver.
Qed.

Lemma omap_somes (l : list ThreadPoolJob) ps : job_arg <$> l = Some <$> ps -> omap job_arg l = ps.
Proof.
  revert ps. induction l as [|j l IH]; intros [|p ps]; try done. cbn. intros [= -> E].
  f_equal. by apply IH.
Qed.

(** Old events are dropped from the queue, the first one never. *)
Lemma maybeDiscardEvents_spec x busy lost sub subs h maxLen maxAge now :
  qinv x busy lost (sub :: subs) h ->
  exists h' l ps, maybeDiscardEvents maxLen maxAge now h (sub_outgoing sub) = Some (h', l) /\
    frees x h ps h' /\ (forall p, p ∈ ps -> p ∈ waits sub) /\
    qinv x busy lost (with_queue l sub :: subs) h' /\
    head l = head (sub_outgoing sub) /\ zlen l <= Z.max 1 maxLen /\
    exists gone, tail (sub_outgoing sub) = gone ++ tail l.
Proof.
  intros Hq. unfold maybeDiscardEvents. pose proof (q_sub_ok _ _ _ _ _ _ Hq) as Hok.
  destruct (sub_outgoing sub) as [|job w] eqn:E.
  { exists h, [], []. split; [done|]. split; [apply frees_nil; apply Hq|]. split; [set_solver|].
    split; [by apply (qinv_same_queue _ _ _ sub); auto|]. split; [done|]. split; [rewrite zlen_nil; lia|]. by exists []. }
  pose proof (waits_carried _ _ _ _ _ _ Hq) as Hc. rewrite E in Hc. cbn [tail] in Hc.
  destruct (discard_loop_spec x maxLen maxAge now h w (waits sub))
    as (h' & gone & kept & ps1 & ps2 & Hd & Hf & -> & Hw & Hlen & Hk); [by apply Hq..|done|].
  rewrite Hd. cbn [mbind option_bind]. exists h', (job :: kept), ps1.
  destruct (args_cons sub job _ E h Hok) as (p & Hj & Ha).
  destruct Hc as [Hca _ _]. rewrite fmap_app, Hw, fmap_app in Hca.
  apply app_inj_1 in Hca as [Hg Hkk]; [|by rewrite !length_fmap].
  assert (args (with_queue (job :: kept) sub) = p :: ps2) as Ha'.
  { unfold args. cbn. rewrite Hj. f_equal. by apply omap_somes. }
  split; [done|]. split; [done|]. split; [rewrite Hw; set_solver|].
  split; [|split; [done|split; [|by exists gone]]].
  - eapply qinv_frees; [done|done| |done|apply Hq|].
    + cbn. assert (waits (with_queue (job :: kept) sub) = ps2) as -> by (unfold waits; by rewrite Ha').
      rewrite Hw. solve_perm.
    + intros s' [->|Hin]%elem_of_cons.
      * split; [|exists sub; rewrite Ha, Ha'; split; [set_solver|done]].
        destruct Hok as [Hargs Hi Hjobs Hev Hac]. split.
        -- rewrite Ha'. cbn. by rewrite Hj, Hkk.
        -- done.
        -- rewrite E in Hjobs. cbn in *. by apply Forall_app in Hjobs as [_ ?].
        -- unfold waits. rewrite Ha'. rewrite Hw in Hev. by apply Forall_app in Hev as [_ ?].
        -- cbn. intros Hz. specialize (Hac Hz). congruence.
      * pose proof (q_subs _ _ _ _ _ Hq) as Hs. rewrite Forall_forall in Hs.
        split; [apply Hs; set_solver|]. exists s'. split; [set_solver|done].
  - destruct kept; [rewrite zlen_cons, zlen_nil; lia|]. destruct Hk as [Hk _]; [done|].
    rewrite zlen_cons. lia.
Qed.

Lemma event_job_spec p :
  job_arg (event_job p) = Some p /\ j_jobId (event_job p) <> STALE_JOBID /\
  j_func (event_job p) = genaNotifyThread_ref /\ j_arg (event_job p) = Zpos p.
Proof. by split_and!. Qed.

(** The new event waits behind the others. *)
Lemma qinv_push_waiting x busy lost sub subs h p n :
  qinv x busy (p :: lost) (sub :: subs) h -> eh_structs h !! p = Some n ->
  nts_sid n = sub_sid sub -> sub_outgoing sub <> [] ->
  qinv x busy lost (with_queue (sub_outgoing sub ++ [event_job p]) sub :: subs) h.
Proof.
  intros Hq Hp Hsid Hne. pose proof (q_sub_ok _ _ _ _ _ _ Hq) as Hok.
  destruct (sub_outgoing sub) as [|job l] eqn:E; [done|].
  destruct (args_cons sub job l E h Hok) as (a & Hj & Ha).
  assert (args (with_queue ((job :: l) ++ [event_job p]) sub) = a :: omap job_arg l ++ [p]) as Ha'.
  { unfold args. cbn [with_queue set_sub_outgoing sub_outgoing app omap list_omap]. rewrite Hj.
    f_equal. by rewrite omap_app. }
  assert (waits sub = omap job_arg l) as Hw by (unfold waits; by rewrite Ha).
  destruct Hok as [Hargs Hi Hjobs Hev Hac]. rewrite E, Ha in Hargs. rewrite E in Hjobs. cbn in Hargs, Hjobs.
  eapply qinv_move; [done| |done| |].
  - unfold waits at 2. rewrite Ha', Hw. cbn. solve_perm.
  - split.
    + rewrite Ha'. cbn. rewrite !fmap_app. cbn. rewrite Hj. simplify_eq. by f_equal; f_equal.
    + done.
    + cbn. apply Forall_app. split; [done|]. by repeat constructor.
    + unfold waits. rewrite Ha'. cbn. apply Forall_app. split; [by rewrite <- Hw|].
      repeat constructor. by exists n.
    + cbn. intros Hz. specialize (Hac Hz). congruence.
  - intros q m Hin Hm. split; [|done]. intros Hs. rewrite Ha'. cbn.
    pose proof (q_heads _ _ _ _ _ Hq q m sub Hin Hm ltac:(set_solver) (eq_sym Hs)) as Hh.
    by rewrite Ha in Hh.
Qed.

(** The new event is the first: it is in the pool if the pool took it. *)
Lemma qinv_push_first x busy lost sub subs h p n (accepted : bool) job :
  qinv x busy (p :: lost) (sub :: subs) h -> eh_structs h !! p = Some n ->
  nts_sid n = sub_sid sub -> sub_outgoing sub = [] -> job_arg job = Some p ->
  sub_active sub <> 0 ->
  qinv x ((if accepted then [p] else []) ++ busy) ((if accepted then [] else [p]) ++ lost)
    (with_queue [job] sub :: subs) h.
Proof.
  intros Hq Hp Hsid E Hj Hact. pose proof (q_sub_ok _ _ _ _ _ _ Hq) as [Hargs Hi Hjobs Hev Hac].
  assert (args (with_queue [job] sub) = [p]) as Ha' by (unfold args; cbn; by rewrite Hj).
  assert (args sub = []) as Ha by (unfold args; by rewrite E).
  assert (waits sub = []) as Hw by (unfold waits; by rewrite Ha).
  eapply qinv_move; [done| |done| |].
  - unfold waits at 2. rewrite Ha', Hw. destruct accepted; cbn; solve_perm.
  - split; [rewrite Ha'; cbn; by rewrite Hj|done|constructor| |done].
    unfold waits. rewrite Ha'. constructor.
  - intros q m Hin Hm. rewrite Ha'. cbn. split.
    + intros Hs. apply elem_of_app in Hin as [Hin|Hin]; [destruct accepted; set_solver|].
      exfalso. pose proof (q_heads _ _ _ _ _ Hq q m sub Hin Hm ltac:(set_solver) (eq_sym Hs)) as Hh.
      by rewrite Ha in Hh.
    + intros Hs. apply elem_of_app in Hin as [Hin|Hin]; [|done].
      destruct accepted; [|set_solver]. apply list_elem_of_singleton in Hin as ->. congruence.
Qed.
