(* ===== verification/GenaState.v ===== *)
(** The state of eventing as a whole: the subscriptions of all services, the
    places events belong to, and the rules for reading and updating them under
    the lock. *)

From S2P Require Import Prelude CString FreeList ThreadPool MemBuffer Uri IxmlNode GenaQueue ServiceTable HandleTable Gena GenaInv.

Lemma delete_insert_same {A} (l : list A) i y : delete i (<[i := y]> l) = delete i l.
Proof. revert i. induction l as [|z l IH]; intros [|i]; [done..|]. cbn. f_equal. apply IH. Qed.

Section State.
Context {P : Type} `{SendPool P}.
Implicit Types (g : gena P) (svc : service_info) (sub : subscription) (hnd : Z)
  (busy lost : list loc) (x : ptr).

Definition services g : list service_info :=
  map_to_list (HandleTable (g_api g)) ≫= (fun kv => st_serviceList (hi_ServiceTable kv.2)).
Definition all_subs g : list subscription := services g ≫= si_subscriptionList.

(** What eventing never changes of a handle and of a service. *)
Definition service_key svc : DOMString * DOMString * Z :=
  (si_serviceId svc, si_UDN svc, si_active svc).
Definition handle_key (info : Handle_Info) :=
  (hi_HType info, service_key <$> st_serviceList (hi_ServiceTable info)).
Definition static g := handle_key <$> HandleTable (g_api g).

(** The strings the lookups compare are there, and the service is active, as
    [getServiceList] makes it. *)
Definition service_wf svc : Prop :=
  is_Some (str_of (si_serviceId svc)) /\ is_Some (str_of (si_UDN svc)) /\ si_active svc <> 0.

Record same_frame g g' : Prop := {
  sf_static : static g' = static g;
  sf_pool : g_pool g' = g_pool g;
  sf_locked : g_locked g' = g_locked g
}.

#[export] Instance same_frame_preorder : PreOrder same_frame.
Proof. split; [by split|]. intros g1 g2 g3 [] []. split; congruence. Qed.

Lemma service_info_at g hnd i svc :
  service g hnd i = Some svc ->
  exists info, HandleTable (g_api g) !! hnd = Some info /\
    st_serviceList (hi_ServiceTable info) !! i = Some svc.
Proof.
  unfold service. destruct (HandleTable (g_api g) !! hnd) as [info|]; [|done].
  intros Hs. by exists info.
Qed.

Lemma services_split g hnd i svc :
  service g hnd i = Some svc ->
  exists rest, services g ≡ₚ svc :: rest /\
    (forall svc', services (put_service hnd i svc' g) ≡ₚ svc' :: rest) /\
    (forall svc', service (put_service hnd i svc' g) hnd i = Some svc').
Proof.
  intros (info & Hinfo & Hi)%service_info_at.
  pose proof (map_to_list_delete _ _ _ Hinfo) as Hp.
  set (l := st_serviceList (hi_ServiceTable info)) in *.
  exists (delete i l ++ (map_to_list (delete hnd (HandleTable (g_api g)))
            ≫= (fun kv => st_serviceList (hi_ServiceTable kv.2)))).
  split_and!.
  - unfold services. rewrite <- Hp. cbn. fold l. rewrite (delete_Permutation l i svc Hi) at 1. done.
  - intros svc'. unfold services, put_service. rewrite Hinfo. cbn.
    change (partial_alter ?f hnd ?m) with (<[hnd := set_ServiceTable
      (MkTable (st_URLBase (hi_ServiceTable info)) (<[i := svc']> l)
        (st_endServiceList (hi_ServiceTable info))) info]> m).
    rewrite <- insert_delete_eq, map_to_list_insert by apply lookup_delete_eq. cbn.
    apply lookup_lt_Some in Hi as Hlt.
    rewrite (delete_Permutation (<[i := svc']> l) i svc') by (by apply list_lookup_insert_eq).
    cbn. apply Permutation_skip. apply Permutation_app_tail. by rewrite delete_insert_same.
  - intros svc'. unfold service, put_service. rewrite Hinfo. cbn.
    rewrite lookup_partial_alter_eq. cbn. apply list_lookup_insert_eq. by eapply lookup_lt_Some.
Qed.

Lemma all_subs_split g hnd i svc :
  service g hnd i = Some svc ->
  exists rest, all_subs g ≡ₚ si_subscriptionList svc ++ rest /\
    (forall svc', all_subs (put_service hnd i svc' g) ≡ₚ si_subscriptionList svc' ++ rest).
Proof.
  intros (rest & Hs & Hs' & _)%services_split. exists (rest ≫= si_subscriptionList).
  unfold all_subs. split; [by rewrite Hs|]. intros svc'. by rewrite Hs'.
Qed.

Lemma put_service_static g hnd i svc svc' :
  service g hnd i = Some svc -> service_key svc' = service_key svc ->
  static (put_service hnd i svc' g) = static g.
Proof.
  intros (info & Hinfo & Hi)%service_info_at Hk. unfold static, put_service. rewrite Hinfo. cbn.
  apply map_eq. intros k. rewrite !lookup_fmap. destruct (decide (k = hnd)) as [->|].
  - rewrite lookup_partial_alter_eq, Hinfo. cbn. unfold handle_key. cbn. do 2 f_equal.
    rewrite list_fmap_insert, Hk. apply list_insert_id. by rewrite list_lookup_fmap, Hi.
  - by rewrite lookup_partial_alter_ne.
Qed.

Lemma put_service_frame g hnd i svc svc' :
  service g hnd i = Some svc -> service_key svc' = service_key svc ->
  same_frame g (put_service hnd i svc' g).
Proof.
  intros Hs Hk. split; [by eapply put_service_static|..];
    unfold put_service; by destruct (HandleTable (g_api g) !! hnd).
Qed.

Lemma put_service_heap g hnd i svc : g_heap (put_service hnd i svc g) = g_heap g.
Proof. unfold put_service. by destruct (HandleTable (g_api g) !! hnd). Qed.
Lemma put_service_pool g hnd i svc : g_pool (put_service hnd i svc g) = g_pool g.
Proof. unfold put_service. by destruct (HandleTable (g_api g) !! hnd). Qed.
Lemma put_service_locked g hnd i svc : g_locked (put_service hnd i svc g) = g_locked g.
Proof. unfold put_service. by destruct (HandleTable (g_api g) !! hnd). Qed.

(** ** Finding the service *)

Lemma static_handle g hnd :
  static g !! hnd = handle_key <$> HandleTable (g_api g) !! hnd.
Proof. apply lookup_fmap. Qed.

(** The lookup depends on the unchanging part only. *)
Definition find_key (serviceId UDN : list Z) : list (DOMString * DOMString * Z) -> option (option nat) :=
  fix find l :=
    match l with
    | [] => Some None
    | k :: l' =>
        b ← (b ← strcmp_dom serviceId k.1.1; if b : bool then strcmp_dom UDN k.1.2 else Some false);
        if b : bool then Some (Some 0%nat) else r ← find l'; Some (option_map S r)
    end.

Lemma FindServiceId_key t serviceId UDN :
  FindServiceId (Some t) serviceId UDN = find_key serviceId UDN (service_key <$> st_serviceList t).
Proof.
  unfold FindServiceId. induction (st_serviceList t) as [|svc l IH]; [done|].
  cbn [find_service fmap list_fmap find_key service_key fst snd].
  destruct (strcmp_dom serviceId (si_serviceId svc)) as [[]|]; cbn; [|by rewrite IH|done].
  destruct (strcmp_dom UDN (si_UDN svc)) as [[]|]; cbn; [done|by rewrite IH|done].
Qed.

Lemma FindServiceId_spec t serviceId UDN :
  Forall service_wf (st_serviceList t) ->
  exists r, FindServiceId (Some t) serviceId UDN = Some r /\
    forall i, r = Some i -> is_Some (st_serviceList t !! i).
Proof.
  unfold FindServiceId. induction 1 as [|svc l ([a Ha] & [b Hb] & _) _ (r & E & Hr)];
    [by exists None|]. cbn [find_service].
  assert (strcmp_dom serviceId (si_serviceId svc) = Some (strcmp_eq serviceId a)) as ->
    by (unfold strcmp_dom; by rewrite Ha).
  assert (strcmp_dom UDN (si_UDN svc) = Some (strcmp_eq UDN b)) as ->
    by (unfold strcmp_dom; by rewrite Hb).
  cbn [mbind option_bind].
  destruct (strcmp_eq serviceId a && strcmp_eq UDN b) eqn:Eb.
  - apply andb_true_iff in Eb as [-> ->]. exists (Some 0%nat). split; [done|].
    intros i [= <-]. by eexists.
  - assert ((if strcmp_eq serviceId a then Some (strcmp_eq UDN b) else Some false) = Some false)
      as -> by (by destruct (strcmp_eq serviceId a); [cbn in Eb; rewrite Eb|]).
    rewrite E. cbn. exists (option_map S r). split; [done|].
    destruct r as [j|]; [|done]. intros i [= <-]. by apply Hr.
Qed.

Definition wf g : Prop := Forall service_wf (services g).

Lemma wf_handle g hnd info :
  wf g -> HandleTable (g_api g) !! hnd = Some info ->
  Forall service_wf (st_serviceList (hi_ServiceTable info)).
Proof.
  unfold wf, services. rewrite !Forall_forall. intros Hw Hi svc Hs. apply Hw.
  apply list_elem_of_bind. exists (hnd, info). split; [done|]. by apply elem_of_map_to_list.
Qed.

Lemma wf_put g hnd i svc svc' :
  wf g -> service g hnd i = Some svc -> service_key svc' = service_key svc ->
  wf (put_service hnd i svc' g).
Proof.
  intros Hw (rest & Hs & Hs' & _)%services_split Hk. unfold wf in *. rewrite Hs'.
  rewrite Hs in Hw. apply List.Forall_cons_iff in Hw as [Hw ?]. constructor; [|done].
  unfold service_wf, service_key in *. injection Hk as Ha Hb Hc. by rewrite Ha, Hb, Hc.
Qed.

Lemma GetHandleInfo_some hnd (a : api) t info :
  GetHandleInfo hnd a = (t, Some info) ->
  HandleTable a !! hnd = Some info /\ hi_HType info = t.
Proof.
  unfold GetHandleInfo. destruct (_ || _); [done|].
  destruct (HandleTable a !! hnd) as [i|]; [|done]. intros [= ? ?]. by subst.
Qed.

Lemma service_put_ne g hnd i hnd' i' svc :
  (hnd', i') <> (hnd, i) -> service (put_service hnd i svc g) hnd' i' = service g hnd' i'.
Proof.
  intros Hne. unfold service, put_service.
  destruct (HandleTable (g_api g) !! hnd) as [info|] eqn:E; [|done]. cbn.
  destruct (decide (hnd' = hnd)) as [->|].
  - rewrite lookup_partial_alter_eq, E. cbn. rewrite list_lookup_insert_ne; [done|]. congruence.
  - by rewrite lookup_partial_alter_ne.
Qed.

Lemma in_all_subs g hnd i svc sub :
  service g hnd i = Some svc -> sub ∈ si_subscriptionList svc -> sub ∈ all_subs g.
Proof.
  intros (rest & Hp & _)%all_subs_split Hin. rewrite Hp. set_solver.
Qed.

(** A subscription elsewhere is among the others. *)
Lemma elsewhere g hnd i svc rest hnd' i' svc' sub :
  service g hnd i = Some svc ->
  (forall v, all_subs (put_service hnd i v g) ≡ₚ si_subscriptionList v ++ rest) ->
  (hnd', i') <> (hnd, i) -> service g hnd' i' = Some svc' -> sub ∈ si_subscriptionList svc' ->
  sub ∈ rest.
Proof.
  intros Hs Hrest Hne Hs' Hin.
  pose proof (Hrest (set_subs 0 [] svc)) as Hp. cbn in Hp. rewrite <- Hp.
  eapply in_all_subs; [|done]. by rewrite service_put_ne.
Qed.

(** ** The invariant of the state *)

(** The event [n] belongs to the service at position [i] of [hnd]. *)
Definition event_home g (n : notify_thread_struct) hnd (i : nat) : Prop :=
  nts_device_handle n = hnd /\
  exists info, GetHandleInfo hnd (g_api g) = (HND_DEVICE, Some info) /\
    FindServiceId (Some (hi_ServiceTable info)) (nts_servId n) (nts_UDN n) = Some (Some i) /\
    forall svc, service g hnd i = Some svc -> si_active svc <> 0.

(** The queue of [sub] is served, unless its head was lost: the head is busy,
    and the thread that sends an event finds the way back. *)
Record sub_good g busy (dead : list (list Z)) (h : event_heap) hnd (i : nat) sub : Prop := {
  sg_head : sub_outgoing sub <> [] -> sub_sid sub ∈ dead \/
    exists p n, head (args sub) = Some p /\ p ∈ busy /\ eh_structs h !! p = Some n /\
                nts_sid n = sub_sid sub;
  sg_home : forall p n, p ∈ args sub -> eh_structs h !! p = Some n -> nts_sid n = sub_sid sub ->
              event_home g n hnd i
}.

Record ginv x busy lost (dead : list (list Z)) g : Prop := {
  gi_q : qinv x busy lost (all_subs g) (g_heap g);
  gi_wf : wf g;
  gi_good : forall hnd i svc sub, service g hnd i = Some svc -> sub ∈ si_subscriptionList svc ->
              sub_good g busy dead (g_heap g) hnd i sub
}.

(** What the invariant reads: everything but the pool, the clock and the lock. *)
Definition same_data g g' : Prop := g_api g' = g_api g /\ g_heap g' = g_heap g.

Lemma ginv_data x busy lost dead g g' :
  same_data g g' -> ginv x busy lost dead g -> ginv x busy lost dead g'.
Proof.
  intros [Ha Hh] [Hq Hw Hg]. split.
  - rewrite Hh. unfold all_subs, services. by rewrite Ha.
  - unfold wf, services. by rewrite Ha.
  - intros hnd i svc sub. unfold service. rewrite Ha, Hh. intros Hs Hin.
    destruct (Hg hnd i svc sub Hs Hin) as [G1 G2]. split; [done|].
    intros p n Hp Hn Hsid. unfold event_home, service. rewrite Ha. by apply (G2 p n).
Qed.

Lemma ginv_perm x busy busy' lost lost' dead g :
  busy ≡ₚ busy' -> lost ≡ₚ lost' -> ginv x busy lost dead g -> ginv x busy' lost' dead g.
Proof.
  intros Hb Hl [Hq Hw Hg]. split; [by rewrite <- Hb, <- Hl|done|].
  intros hnd i svc sub Hs Hin. destruct (Hg hnd i svc sub Hs Hin) as [G1 G2]. split; [|done].
  intros Hne. destruct (G1 Hne) as [|(p & n & ? & ? & ?)]; [by left|right].
  exists p, n. by rewrite <- Hb.
Qed.

Lemma handle_key_lookup g g' hnd info :
  static g' = static g -> HandleTable (g_api g) !! hnd = Some info ->
  exists info', HandleTable (g_api g') !! hnd = Some info' /\ handle_key info' = handle_key info.
Proof.
  intros Hst Hi. pose proof (static_handle g hnd) as H1. rewrite Hi, <- Hst, static_handle in H1.
  destruct (HandleTable (g_api g') !! hnd) as [info'|]; [|done]. exists info'. cbn in H1.
  split; [done|congruence].
Qed.

Lemma service_key_at g g' hnd i svc' :
  static g' = static g -> service g' hnd i = Some svc' ->
  exists svc, service g hnd i = Some svc /\ service_key svc = service_key svc'.
Proof.
  intros Hst (info' & Hi' & Hs')%service_info_at.
  destruct (handle_key_lookup g' g hnd info' (eq_sym Hst) Hi') as (info & Hi & Hk).
  unfold handle_key in Hk. injection Hk as _ Hk. unfold service. rewrite Hi. cbn.
  assert ((service_key <$> st_serviceList (hi_ServiceTable info)) !! i = Some (service_key svc')) as E
    by (rewrite Hk, list_lookup_fmap, Hs'; done).
  rewrite list_lookup_fmap in E.
  destruct (st_serviceList (hi_ServiceTable info) !! i) as [svc|]; [|done]. cbn in E.
  exists svc. split; [done|congruence].
Qed.

Lemma event_home_static g g' n hnd i :
  static g' = static g -> event_home g n hnd i -> event_home g' n hnd i.
Proof.
  intros Hst [Hd (info & Hi & Hf & Ha)]. split; [done|].
  apply GetHandleInfo_some in Hi as Hi'. destruct Hi' as [Hl Ht].
  destruct (handle_key_lookup g g' hnd info Hst Hl) as (info' & Hl' & Hk).
  injection Hk as Hk1 Hk2. exists info'. split_and!.
  - unfold GetHandleInfo in *. destruct (_ || _); [done|]. rewrite Hl'. by rewrite Hk1, Ht.
  - by rewrite FindServiceId_key, Hk2, <- FindServiceId_key.
  - intros svc' (svc & Hs & Hkey)%(service_key_at g g' hnd i svc' Hst).
    specialize (Ha svc Hs). unfold service_key in Hkey. congruence.
Qed.

Lemma sub_good_other g g' busy busy' dead dead' h h' hnd i sub :
  sub_good g busy dead h hnd i sub -> static g' = static g -> dead ⊆ dead' ->
  (forall p n, eh_structs h' !! p = Some n -> nts_sid n = sub_sid sub -> eh_structs h !! p = Some n) ->
  (forall p n, p ∈ busy -> eh_structs h !! p = Some n -> nts_sid n = sub_sid sub ->
     p ∈ busy' /\ eh_structs h' !! p = Some n) ->
  sub_good g' busy' dead' h' hnd i sub.
Proof.
  intros [G1 G2] Hst Hdead H1 H2. split.
  - intros Hne. destruct (G1 Hne) as [?|(p & n & ? & ? & ? & ?)]; [left; set_solver|right].
    destruct (H2 p n) as [? ?]; [done..|]. by exists p, n.
  - intros p n Hp Hn Hs. apply (event_home_static g g' n hnd i Hst). apply (G2 p n); auto.
Qed.

(** The rule for updates of one service: [E] are the identifiers of the
    subscriptions the update is about. *)
Lemma ginv_update_at (E : list Z -> Prop) x busy lost dead g hnd i svc svc' x' busy' lost' dead' g' :
  ginv x busy lost dead g -> service g hnd i = Some svc -> service_key svc' = service_key svc ->
  g_api g' = g_api (put_service hnd i svc' g) ->
  (forall sid, E sid -> exists s, s ∈ si_subscriptionList svc /\ sub_sid s = sid) ->
  (forall rest, all_subs g ≡ₚ si_subscriptionList svc ++ rest ->
     qinv x busy lost (si_subscriptionList svc ++ rest) (g_heap g) ->
     qinv x' busy' lost' (si_subscriptionList svc' ++ rest) (g_heap g')) ->
  (forall p n, eh_structs (g_heap g') !! p = Some n -> ~ E (nts_sid n) ->
     eh_structs (g_heap g) !! p = Some n) ->
  (forall p n, p ∈ busy -> eh_structs (g_heap g) !! p = Some n -> ~ E (nts_sid n) ->
     p ∈ busy' /\ eh_structs (g_heap g') !! p = Some n) ->
  dead ⊆ dead' ->
  (forall s, s ∈ si_subscriptionList svc' ->
     (s ∈ si_subscriptionList svc /\ ~ E (sub_sid s)) \/
     sub_good g' busy' dead' (g_heap g') hnd i s) ->
  ginv x' busy' lost' dead' g'.
Proof.
  intros [Hq Hw Hg] Hs Hk Hapi HE Hqq H1 H2 Hdead Hsubs.
  destruct (all_subs_split g hnd i svc Hs) as (rest & Hall & Hall').
  assert (all_subs g' = all_subs (put_service hnd i svc' g)) as Ea
    by (unfold all_subs, services; by rewrite Hapi).
  assert (static g' = static g) as Hst.
  { unfold static. rewrite Hapi. by apply (put_service_static g hnd i svc). }
  rewrite Hall in Hq.
  assert (forall s, s ∈ rest -> ~ E (sub_sid s)) as Hrest.
  { intros s Hin (s' & Hin' & Heq)%HE. pose proof (q_sids _ _ _ _ _ Hq) as Hnd.
    rewrite fmap_app in Hnd. apply NoDup_app in Hnd as (_ & Hd & _).
    apply (Hd (sub_sid s)); apply list_elem_of_fmap; [by exists s'|by exists s]. }
  split.
  - rewrite Ea, Hall'. by apply Hqq.
  - unfold wf, services. rewrite Hapi. by apply (wf_put g hnd i svc svc').
  - intros hnd' i' svc2 sub Hs2 Hin.
    assert (service (put_service hnd i svc' g) hnd' i' = Some svc2) as Hs2'
      by (revert Hs2; unfold service; by rewrite Hapi).
    destruct (decide ((hnd', i') = (hnd, i))) as [[= -> ->]|Hne].
    + destruct (services_split g hnd i svc Hs) as (_ & _ & _ & Hput).
      rewrite Hput in Hs2'. simplify_eq.
      destruct (Hsubs sub Hin) as [[Hold HnE]|]; [|done].
      eapply sub_good_other; [by eapply Hg|done|done|..].
      * intros p n Hn Hsid. apply H1; [done|congruence].
      * intros p n Hp Hn Hsid. apply H2; [done..|congruence].
    + rewrite service_put_ne in Hs2' by done.
      assert (~ E (sub_sid sub))
        by exact (Hrest _ (elsewhere g hnd i svc rest hnd' i' svc2 sub Hs Hall' Hne Hs2' Hin)).
      eapply sub_good_other; [by eapply Hg|done|done|..].
      * intros p n Hn Hsid. apply H1; [done|congruence].
      * intros p n Hp Hn Hsid. apply H2; [done..|congruence].
Qed.

(** The same, when it does not matter which the other subscriptions are. *)
Lemma ginv_update (E : list Z -> Prop) x busy lost dead g hnd i svc svc' x' busy' lost' dead' g' :
  ginv x busy lost dead g -> service g hnd i = Some svc -> service_key svc' = service_key svc ->
  g_api g' = g_api (put_service hnd i svc' g) ->
  (forall sid, E sid -> exists s, s ∈ si_subscriptionList svc /\ sub_sid s = sid) ->
  (forall rest, qinv x busy lost (si_subscriptionList svc ++ rest) (g_heap g) ->
     qinv x' busy' lost' (si_subscriptionList svc' ++ rest) (g_heap g')) ->
  (forall p n, eh_structs (g_heap g') !! p = Some n -> ~ E (nts_sid n) ->
     eh_structs (g_heap g) !! p = Some n) ->
  (forall p n, p ∈ busy -> eh_structs (g_heap g) !! p = Some n -> ~ E (nts_sid n) ->
     p ∈ busy' /\ eh_structs (g_heap g') !! p = Some n) ->
  dead ⊆ dead' ->
  (forall s, s ∈ si_subscriptionList svc' ->
     (s ∈ si_subscriptionList svc /\ ~ E (sub_sid s)) \/
     sub_good g' busy' dead' (g_heap g') hnd i s) ->
  ginv x' busy' lost' dead' g'.
Proof.
  intros Hg Hs Hk Ha HE Hq H1 H2 Hd Hsub. eapply (ginv_update_at E); try done. auto.
Qed.
End State.
