(* ===== verification/GenaSteps.v ===== *)
(** The critical sections of eventing keep the invariant: sending. *)

From S2P Require Import Prelude CString FreeList ThreadPool MemBuffer Uri IxmlNode GenaQueue ServiceTable HandleTable Gena GenaInv GenaState.

Lemma runs_and {A} md (m : M A) (Q R : A -> Prop) :
  runs md m Q -> runs md m R -> runs md m (fun a => Q a /\ R a).
Proof.
  intros HQ HR o Ho. specialize (HQ o Ho). specialize (HR o Ho).
  destruct (m o) as [a o'|[]| |]; [|done..]. tauto.
Qed.

Section Steps.
Context {P : Type} `{SendPool P} `{!SendPoolLaws P} (EQMaxLen EQMaxAge : Z).
Implicit Types (g : gena P) (svc : service_info) (sub : subscription) (hnd : Z)
  (busy lost : list loc) (x : ptr) (h : event_heap) (arg : loc).

Lemma frees_back x h ps h' p n :
  frees x h ps h' -> eh_structs h' !! p = Some n -> eh_structs h !! p = Some n.
Proof. intros Hf. rewrite (fr_dropped _ _ _ _ Hf). by case_decide. Qed.

Lemma busy_kept x x' h ps h' busy lost subs p n :
  frees x h ps h' -> qinv x' busy lost subs h' -> p ∈ busy -> eh_structs h !! p = Some n ->
  eh_structs h' !! p = Some n.
Proof.
  intros Hf Hq Hp Hn. destruct (proj1 (waits_live _ _ _ _ _ Hq p)) as [m Hm]; [set_solver|].
  pose proof (frees_back _ _ _ _ _ _ Hf Hm). congruence.
Qed.

(** Updates that only free events and drop subscriptions. *)
Lemma ginv_frees x busy lost dead g hnd i svc svc' ps g' :
  ginv x busy lost dead g -> service g hnd i = Some svc -> service_key svc' = service_key svc ->
  g_api g' = g_api (put_service hnd i svc' g) -> frees x (g_heap g) ps (g_heap g') ->
  (forall rest, qinv x busy lost (si_subscriptionList svc ++ rest) (g_heap g) ->
     qinv x busy lost (si_subscriptionList svc' ++ rest) (g_heap g')) ->
  (forall s, s ∈ si_subscriptionList svc' -> s ∈ si_subscriptionList svc) ->
  ginv x busy lost dead g'.
Proof.
  intros Hg Hs Hk Hapi Hf Hq Hsub.
  destruct (all_subs_split g hnd i svc Hs) as (rest & Hall & _).
  pose proof (gi_q _ _ _ _ _ Hg) as Hq0. rewrite Hall in Hq0.
  eapply (ginv_update (fun _ => False)); [exact Hg|exact Hs|exact Hk|exact Hapi|..]; intros; try done.
  - by apply Hq.
  - by eapply frees_back.
  - split; [done|]. eapply (busy_kept _ x); [done|by apply Hq|done|done].
  - left. split; [by apply Hsub|tauto].
Qed.

Lemma set_subs_key svc n l : service_key (set_subs n l svc) = service_key svc.
Proof. done. Qed.

Lemma set_subs_id svc : set_subs (si_TotalSubscriptions svc) (si_subscriptionList svc) svc = svc.
Proof. by destruct svc. Qed.

Lemma put_service_id g hnd i svc : service g hnd i = Some svc -> put_service hnd i svc g = g.
Proof.
  intros (info & Hi & Hs)%service_info_at. unfold put_service. rewrite Hi.
  rewrite list_insert_id by done. unfold set_api, set_handle.
  destruct g as [a h pl c l], a as [t v4 v6], info; cbn in *.
  destruct hi_ServiceTable as [b sl e]; cbn in *. do 2 f_equal. exact (insert_id t hnd _ Hi).
Qed.

Lemma put_set_heap hnd i svc h g :
  put_service hnd i svc (set_heap h g) = set_heap h (put_service hnd i svc g).
Proof. unfold put_service. cbn. by destruct (HandleTable (g_api g) !! hnd). Qed.
Lemma put_set_clock hnd i svc c g :
  put_service hnd i svc (set_gclock c g) = set_gclock c (put_service hnd i svc g).
Proof. unfold put_service. cbn. by destruct (HandleTable (g_api g) !! hnd). Qed.

Lemma frame_data g g' : g_api g' = g_api g -> g_pool g' = g_pool g -> g_locked g' = g_locked g ->
  same_frame g g'.
Proof. intros Ha Hp Hl. split; [|done|done]. unfold static. by rewrite Ha. Qed.

(** ** Looking up a subscription *)

Lemma get_sub_spec x busy lost dead g hnd i svc sid :
  ginv x busy lost dead g -> service g hnd i = Some svc ->
  exists k g', get_sub hnd i sid g = Some (k, g') /\ ginv x busy lost dead g' /\
    same_frame g g' /\
    match k with
    | Some k => exists c sub, g' = set_gclock c g /\ si_subscriptionList svc !! k = Some sub /\
                  c_str sid = c_str (sub_sid sub)
    | None => forall svc' s, service g' hnd i = Some svc' -> s ∈ si_subscriptionList svc' ->
                sub_sid s <> sid
    end /\
    ((forall s, s ∈ si_subscriptionList svc -> sub_expireTime s = 0) ->
     exists c, g' = set_gclock c g) /\
    (forall p n, eh_structs (g_heap g') !! p = Some n -> eh_structs (g_heap g) !! p = Some n) /\
    (forall rc, eh_counts (g_heap g) !! rc = Some 0 -> eh_counts (g_heap g') !! rc = Some 0).
Proof.
  intros Hg Hs. pose proof (gi_q _ _ _ _ _ Hg) as Hq.
  destruct (all_subs_split g hnd i svc Hs) as (rest & Hall & _). rewrite Hall in Hq.
  unfold get_sub. rewrite Hs. cbn [mbind option_bind].
  set (tm := match find_sid sid (si_subscriptionList svc) with Some _ => time g | None => (0, g) end).
  assert (exists c, tm.2 = set_gclock c g) as [c Hc].
  { unfold tm. destruct (find_sid sid _); [by eexists|]. exists (g_clock g). by destruct g. }
  destruct tm as [now g0] eqn:Etm. cbn in Hc. subst g0. cbn [g_heap set_gclock].
  destruct (GetSubscriptionSID_spec x busy lost svc rest (g_heap g) sid now Hq)
    as (k & h' & svc' & E & Hq' & Hk). rewrite E. cbn [mbind option_bind].
  exists k. eexists. split; [done|].
  pose proof (find_sid_spec sid (si_subscriptionList svc)) as Hfind.
  assert (same_frame g (put_service hnd i svc' (set_heap h' (set_gclock c g)))) as Hframe.
  { assert (service_key svc' = service_key svc) as Hkey.
    { destruct k; [naive_solver|]. destruct (find_sid sid (si_subscriptionList svc)); naive_solver. }
    rewrite put_set_heap, put_set_clock.
    destruct (put_service_frame g hnd i svc svc' Hs Hkey). by split. }
  destruct k as [k|].
  - destruct Hk as (-> & -> & _ & s & Hi & Hsid & _).
    assert (put_service hnd i svc (set_heap (g_heap g) (set_gclock c g)) = set_gclock c g) as Eg.
    { rewrite put_set_heap, put_set_clock, (put_service_id g hnd i svc Hs). by destruct g. }
    rewrite Eg in *. split; [by apply (ginv_data _ _ _ _ g)|]. split; [done|].
    split; [by exists c, s|]. split; [|by split]. intros _. by exists c.
  - destruct (find_sid sid (si_subscriptionList svc)) as [j|] eqn:Ef.
    + destruct Hk as [(s & Hj & Hexp & Hf) ->].
      split; [|split; [done|]].
      * eapply ginv_frees; [done|done|apply set_subs_key|by rewrite put_set_heap, put_set_clock| | |].
        -- by rewrite put_set_heap.
        -- intros rest' Hq2. rewrite put_set_heap. cbn.
           destruct (remove_sub_spec _ _ _ _ _ _ _ _ Hq2 Hj) as (h2 & E2 & _ & Hq3).
           unfold GetSubscriptionSID in E. rewrite Ef, Hj in E. cbn [mbind option_bind] in E.
           rewrite Hexp, E2 in E. cbn in E. by simplify_eq.
        -- cbn. intros s' Hin. rewrite (delete_Permutation _ _ _ Hj). set_solver.
      * split.
        -- intros svc2 s' Hs2 Hin. rewrite put_set_heap, put_set_clock in Hs2.
           change (service (set_heap h' (set_gclock c ?g0)) hnd i) with (service g0 hnd i) in Hs2.
           destruct (services_split g hnd i svc Hs) as (_ & _ & _ & Hput). rewrite Hput in Hs2.
           simplify_eq. cbn in Hin.
           pose proof (q_sids _ _ _ _ _ Hq) as Hnd. rewrite fmap_app in Hnd.
           apply NoDup_app in Hnd as [Hnd _]. rewrite (delete_Permutation _ _ _ Hj) in Hnd.
           cbn in Hnd. apply NoDup_cons in Hnd as [Hni _]. intros <-. apply Hni.
           pose proof (q_subs _ _ _ _ _ Hq) as Hok. rewrite Forall_forall in Hok.
           destruct Hfind as (s2 & Hj2 & Hsid). assert (s2 = s) as -> by congruence.
           assert (sub_sid s = sub_sid s') as ->; [|apply list_elem_of_fmap; by exists s'].
           destruct (Hok s) as [_ [Hc1 _] _ _ _];
             [apply elem_of_app; left; by eapply list_elem_of_lookup_2|].
           destruct (Hok s') as [_ [Hc2 _] _ _ _]; [|congruence].
           apply elem_of_app. left. rewrite (delete_Permutation _ _ _ Hj). set_solver.
        -- split; [|rewrite put_set_heap; split;
             [intros p n; apply (frees_back _ _ _ _ _ _ Hf)|apply Hf]].
           intros Hexp0. exfalso. unfold expired in Hexp.
           rewrite (Hexp0 s) in Hexp by (by eapply list_elem_of_lookup_2). done.
    + destruct Hk as [-> ->].
      assert (put_service hnd i svc (set_heap (g_heap g) (set_gclock c g)) = set_gclock c g) as Eg.
      { rewrite put_set_heap, put_set_clock, (put_service_id g hnd i svc Hs). by destruct g. }
      rewrite Eg in *. split; [by apply (ginv_data _ _ _ _ g)|]. split; [done|].
      split; [|split; [intros _; by exists c|by split]]. intros svc2 s Hs2 Hin <-.
      change (service (set_gclock c g) hnd i) with (service g hnd i) in Hs2. simplify_eq.
      rewrite Forall_forall in Hfind. by apply (Hfind s Hin).
Qed.

(** ** The place of an event *)

Lemma event_service_spec x busy lost dead g arg n :
  ginv x busy lost dead g -> eh_structs (g_heap g) !! arg = Some n ->
  exists r, event_service arg g = Some r /\
    (forall i, r = Some i -> is_Some (service g (nts_device_handle n) i)) /\
    (forall hnd i, event_home g n hnd i -> r = Some i /\ hnd = nts_device_handle n).
Proof.
  intros Hg Hn. unfold event_service. rewrite Hn. cbn [mbind option_bind].
  destruct (GetHandleInfo (nts_device_handle n) (g_api g)) as [t [info|]] eqn:E.
  2:{ exists None. split; [by destruct t|]. split; [done|].
      intros hnd i [<- (info & Hi & _)]. congruence. }
  destruct (decide (t = HND_DEVICE)) as [->|Ht].
  2:{ exists None. split; [by destruct t|]. split; [done|].
      intros hnd i [<- (info' & Hi & _)]. congruence. }
  assert (notification (g_heap g) arg = Some n) as ->.
  { unfold notification. rewrite Hn. cbn [mbind option_bind].
    by rewrite (counted x _ arg n (q_ok _ _ _ _ _ (gi_q _ _ _ _ _ Hg)) Hn). }
  cbn [mbind option_bind]. apply GetHandleInfo_some in E as Hinfo. destruct Hinfo as [Hinfo _].
  destruct (FindServiceId_spec (hi_ServiceTable info) (nts_servId n) (nts_UDN n))
    as (r & Er & Hr); [by eapply wf_handle; [apply Hg|]|].
  rewrite Er. cbn [mbind option_bind]. destruct r as [i|].
  - destruct (Hr i eq_refl) as [svc Hsvc].
    assert (service g (nts_device_handle n) i = Some svc) as Hs
      by (unfold service; by rewrite Hinfo).
    rewrite Hs. cbn [mbind option_bind].
    eexists. split; [done|]. split.
    + intros j. destruct (si_active svc =? 0); [done|]. intros [= <-]. by eexists.
    + intros hnd j [<- (info' & Hi & Hf & Ha)]. assert (info' = info) as -> by congruence.
      assert (j = i) as -> by congruence. specialize (Ha svc Hs).
      by destruct (Z.eqb_spec (si_active svc) 0).
  - exists None. split; [done|]. split; [done|]. intros hnd j [<- (info' & Hi & Hf & _)].
    congruence.
Qed.

(** A busy event is the head of the queue of its subscription, wherever that
    is. *)
Lemma busy_sub x busy lost dead g arg n hnd i svc sub :
  ginv x busy lost dead g -> arg ∈ busy -> eh_structs (g_heap g) !! arg = Some n ->
  service g hnd i = Some svc -> sub ∈ si_subscriptionList svc -> sub_sid sub = nts_sid n ->
  head (args sub) = Some arg /\ event_home g n hnd i.
Proof.
  intros Hg Hin Hn Hs Hsub Hsid.
  assert (head (args sub) = Some arg) as Hh.
  { eapply (q_heads _ _ _ _ _ (gi_q _ _ _ _ _ Hg)); [done..| |done]. by eapply in_all_subs. }
  split; [done|]. eapply (sg_home _ _ _ _ _ _ _ (gi_good _ _ _ _ _ Hg hnd i svc sub Hs Hsub));
    [|done|done]. rewrite (head_some _ _ Hh). set_solver.
Qed.

(** No subscription has this identifier, or its queue is given up. *)
Definition orphan g (dead : list (list Z)) (sid : list Z) : Prop :=
  sid ∈ dead \/
  forall hnd i svc sub, service g hnd i = Some svc -> sub ∈ si_subscriptionList svc ->
    sub_sid sub <> sid.

(** The structures of [g'] are some of those of [g], without [arg]. *)
Definition fewer arg g g' : Prop :=
  forall p n, eh_structs (g_heap g') !! p = Some n -> eh_structs (g_heap g) !! p = Some n /\ p <> arg.

(** The rule for [drop_event]: of a busy event whose queue is gone, or of an
    event that is nobody's. *)
Lemma drop_event_spec x arg n busy lost dead g (was_busy : bool) :
  ginv x (if was_busy then arg :: busy else busy) (if was_busy then lost else arg :: lost) dead g ->
  g_locked g = true -> eh_structs (g_heap g) !! arg = Some n ->
  (was_busy = true -> orphan g dead (nts_sid n)) ->
  exists g', drop_event arg g = Some g' /\ ginv x busy lost dead g' /\
    g_api g' = g_api g /\ g_pool g' = g_pool g /\ g_locked g' = false /\ fewer arg g g'.
Proof.
  intros [Hq Hw Hg] Hl Hn Ho.
  assert (exists h', free_notify_struct (g_heap g) arg = Some h' /\ frees x (g_heap g) [arg] h' /\
    qinv x busy lost (all_subs g) h') as (h' & E & Hf & Hq').
  { destruct was_busy; [by apply qinv_free_busy|by apply qinv_free_lost]. }
  exists (set_locked false (set_heap h' g)). unfold drop_event, free_notify. rewrite E.
  cbn [mbind option_bind]. unfold HandleUnlock. cbn [g_locked set_heap]. rewrite Hl.
  split; [done|]. split; [|do 3 (split; [done|]); intros p m; cbn; rewrite (fr_dropped _ _ _ _ Hf);
    case_decide; [done|set_solver]]. split; [done|done|].
  intros hnd i svc sub Hs Hin. change (service g hnd i = Some svc) in Hs.
  specialize (Hg hnd i svc sub Hs Hin). cbn [g_heap set_heap set_locked].
  destruct (decide (sub_sid sub ∈ dead)) as [Hd|Hd].
  - destruct Hg as [_ G2]. split; [by left|]. intros p m Hp Hm Hsid.
    apply (G2 p m); [done| |done]. by eapply frees_back.
  - eapply sub_good_other; [exact Hg|done|done|..].
    + intros p m Hm _. by eapply frees_back.
    + intros p m Hp Hm Hsid.
      assert (p ∈ busy) as Hb.
      { destruct was_busy; [|done]. apply elem_of_cons in Hp as [->|]; [|done].
        simplify_eq. destruct (Ho eq_refl) as [|Hno]; [congruence|].
        by destruct (Hno hnd i svc sub). }
      split; [done|]. by eapply busy_kept.
Qed.

(** Identifiers are compared as strings. *)
Lemma same_sid x busy lost dead g hnd i svc sub p n :
  ginv x busy lost dead g -> service g hnd i = Some svc -> sub ∈ si_subscriptionList svc ->
  eh_structs (g_heap g) !! p = Some n -> c_str (nts_sid n) = c_str (sub_sid sub) ->
  sub_sid sub = nts_sid n.
Proof.
  intros Hg Hs Hin Hn Hc. pose proof (gi_q _ _ _ _ _ Hg) as Hq.
  destruct (q_events _ _ _ _ _ Hq p n Hn) as [<- _].
  pose proof (q_subs _ _ _ _ _ Hq) as Hok. rewrite Forall_forall in Hok.
  destruct (Hok sub) as [_ [<- _] _ _ _]; [by eapply in_all_subs|done].
Qed.

(** ** Sending: the first section *)

Lemma mem_lookup_fresh x arg busy lost dead g :
  ginv x (arg :: busy) lost dead g -> exists n, eh_structs (g_heap g) !! arg = Some n.
Proof. intros Hg. apply (waits_live _ _ _ _ _ (gi_q _ _ _ _ _ Hg)). set_solver. Qed.

(** What a section leaves of the state. *)
Definition released g g' : Prop :=
  static g' = static g /\ g_pool g' = g_pool g /\ g_locked g' = false.

Lemma copy_subscription_runs md sub base :
  runs md (copy_subscription sub base) (fun '(rc, copy) =>
    (rc = HTTP_SUCCESS \/ md <> Lucky) /\ sub_sid copy = ztake SID_SIZE (c_str (sub_sid sub)) /\
    sub_ToSendEventKey copy = sub_ToSendEventKey sub).
Proof.
  unfold copy_subscription, copy_URL_list. mstep. mstep. mstep.
  all: mstep; mstep; intros; cbn [negb orb]; repeat mstep; cbn; auto.
Qed.

(** After the first section: the event is being sent, or it is freed. *)
Definition started md arg busy lost dead g (r : option subscription) (g' : gena P) : Prop :=
  released g g' /\
  match r with
  | Some copy => ginv None (arg :: busy) lost dead g' /\ g_heap g' = g_heap g
  | None => fewer arg g g' /\
      exists dead', ginv None busy lost dead' g' /\ dead ⊆ dead' /\ (md = Lucky -> dead' = dead)
  end.

Lemma ginv_dead x busy lost dead dead' g :
  dead ⊆ dead' -> ginv x busy lost dead g -> ginv x busy lost dead' g.
Proof.
  intros Hd [Hq Hw Hg]. split; [done|done|].
  intros hnd i svc s Hs Hin. destruct (Hg hnd i svc s Hs Hin) as [G1 G2].
  split; [|done]. intros Hne. destruct (G1 Hne) as [?|?]; [left; set_solver|by right].
Qed.

Lemma start_drops md arg n busy lost dead dead' g g2 :
  ginv None (arg :: busy) lost dead' g2 -> g_locked g2 = true ->
  static g2 = static g -> g_pool g2 = g_pool g ->
  eh_structs (g_heap g2) !! arg = Some n -> orphan g2 dead' (nts_sid n) ->
  dead ⊆ dead' -> (md = Lucky -> dead' = dead) ->
  (forall p m, eh_structs (g_heap g2) !! p = Some m -> eh_structs (g_heap g) !! p = Some m) ->
  runs md (g ← liftO (drop_event arg g2); mret (None, g))
    (fun '(r, g') => started md arg busy lost dead g r g').
Proof.
  intros Hg2 Hl2 Hst Hpool Hn2 Ho Hsub Hmd Hback.
  destruct (drop_event_spec None arg n busy lost dead' g2 true Hg2 Hl2 Hn2)
    as (g3 & E & Hg3 & Ha & Hp & Hl3 & Hfew); [done|].
  mstep. eapply runs_liftO; [exact E|]. mstep.
  split; [|split; [intros p m Hm; destruct (Hfew p m Hm); split; auto|by exists dead']].
  split_and!; [unfold static in *; by rewrite Ha|congruence|done].
Qed.

(** A subscription that was looked for at the home of its event and not found
    is nowhere. *)
Lemma not_found_nowhere x arg n busy lost dead g i r :
  ginv x (arg :: busy) lost dead g -> eh_structs (g_heap g) !! arg = Some n ->
  (forall hnd i, event_home g n hnd i -> r = Some i /\ hnd = nts_device_handle n) ->
  (r = Some i -> forall svc s, service g (nts_device_handle n) i = Some svc ->
     s ∈ si_subscriptionList svc -> sub_sid s <> nts_sid n) ->
  (r = None \/ r = Some i) -> forall hnd j svc sub, service g hnd j = Some svc ->
    sub ∈ si_subscriptionList svc -> sub_sid sub <> nts_sid n.
Proof.
  intros Hg Hn Hhome Hnf Hr. intros hnd j svc sub Hs Hin Hsid.
  destruct (busy_sub _ _ _ _ g arg n hnd j svc sub Hg) as [_ Hh]; [set_solver|done..|].
  destruct (Hhome _ _ Hh) as [-> ->]. destruct Hr as [|Hr]; [done|]. injection Hr as ->.
  by apply (Hnf eq_refl svc sub).
Qed.

Lemma not_found_orphan x arg n busy lost dead g i r :
  ginv x (arg :: busy) lost dead g -> eh_structs (g_heap g) !! arg = Some n ->
  (forall hnd i, event_home g n hnd i -> r = Some i /\ hnd = nts_device_handle n) ->
  (r = Some i -> forall svc s, service g (nts_device_handle n) i = Some svc ->
     s ∈ si_subscriptionList svc -> sub_sid s <> nts_sid n) ->
  (r = None \/ r = Some i) -> orphan g dead (nts_sid n).
Proof. intros. right. by eapply not_found_nowhere. Qed.

Lemma notify_start_runs md arg busy lost dead g :
  ginv None (arg :: busy) lost dead g -> g_locked g = false ->
  runs md (notify_start arg g) (fun '(r, g') => started md arg busy lost dead g r g').
Proof.
  intros Hg Hl. unfold notify_start, HandleLock. rewrite Hl. mstep. mstep.
  destruct (mem_lookup_fresh _ _ _ _ _ _ Hg) as [n Hn].
  set (g1 := set_locked true g).
  assert (ginv None (arg :: busy) lost dead g1) as Hg1 by (by apply (ginv_data _ _ _ _ g)).
  destruct (event_service_spec _ _ _ _ g1 arg n Hg1 Hn) as (r & Er & Hsome & Hhome).
  mstep. eapply runs_liftO; [exact Er|]. mstep. eapply runs_liftO; [exact Hn|].
  destruct r as [i|].
  2:{ apply (start_drops md arg n busy lost dead dead g g1); try done.
      by eapply (not_found_orphan _ _ _ _ _ _ _ 0 None); eauto. }
  destruct (Hsome i eq_refl) as [svc Hs].
  destruct (get_sub_spec _ _ _ _ g1 _ i svc (nts_sid n) Hg1 Hs)
    as (k & g2 & E & Hg2 & [Hst Hp Hl2] & Hk & _ & Hback & _).
  mstep. eapply runs_liftO; [exact E|]. destruct k as [k|].
  - destruct Hk as (c & sub & -> & Hsub & Hsid).
    mstep. eapply runs_liftO; [exact Hs|]. mstep. eapply runs_liftO; [exact Hsub|].
    mstep. eapply runs_mono; [apply copy_subscription_runs|].
    intros [rc copy] (Hrc & Hcs & _). destruct (negb (rc =? HTTP_SUCCESS)) eqn:Eb; zbool.
    + apply (start_drops md arg n busy lost dead (nts_sid n :: dead)); try done.
      * eapply ginv_dead; [|done]. set_solver.
      * left. set_solver.
      * set_solver.
      * tauto.
    + unfold HandleUnlock. cbn [g_locked set_gclock g1 set_locked].
      mstep. eapply runs_liftO; [done|]. mstep. split; [done|].
      split; [by apply (ginv_data _ _ _ _ (set_gclock c g1))|done].
  - destruct (mem_lookup_fresh _ _ _ _ _ _ Hg2) as [m Hm].
    assert (m = n) as -> by (apply Hback in Hm; cbn in Hm; congruence).
    apply (start_drops md arg n busy lost dead dead g g2); try done.
    eapply (not_found_orphan _ _ _ _ _ _ _ i (Some i)); [done|done| |by intros _ svc' s; apply Hk|by right].
    intros hnd j Hh. apply Hhome. eapply event_home_static; [|done]. done.
Qed.

(** ** Sending: the second section *)

(** The jobs of the pool carry the addresses [queued]. *)
Definition pool_holds (pool : P) (queued : list loc) : Prop :=
  sp_ok pool /\ sp_args pool ≡ₚ Zpos <$> queued.

(** The pool refuses no job. *)
Definition always_room md : Prop :=
  forall pool job, sp_ok pool -> j_func job = genaNotifyThread_ref ->
    runs md (sp_add pool job) (fun r => r.1 = 0).

Lemma add_job_runs md pool queued job p :
  pool_holds pool queued -> j_func job = genaNotifyThread_ref -> job_arg job = Some p ->
  runs md (sp_add pool job) (fun '(rc, pool') =>
    exists accepted : bool, accepted = (rc =? 0) /\ (always_room md -> accepted = true) /\
      pool_holds pool' ((if accepted then [p] else []) ++ queued)).
Proof.
  intros [Hok Hq] Hf Hj.
  assert (j_arg job = Zpos p) as Ha.
  { unfold job_arg in Hj. destruct (j_arg job); simplify_eq. done. }
  assert (runs md (sp_add pool job) (fun r => always_room md -> r.1 = 0)) as Hroom.
  { pose proof (sp_add_law md pool job Hok Hf) as Hl. intros o Ho. specialize (Hl o Ho).
    destruct (sp_add pool job o) as [r o'|[]| |] eqn:E; [|done..]. destruct Hl as [_ Hgood].
    split; [|done]. intros Hr. pose proof (Hr pool job Hok Hf o Ho) as H2. rewrite E in H2. apply H2. }
  eapply runs_mono; [apply runs_and; [by apply (sp_add_law md pool job)|exact Hroom]|].
  intros [rc pool'] [[Hok' Hp] Hr]. exists (rc =? 0). split; [done|]. split.
  - intros Hroom'. apply Z.eqb_eq. by apply Hr.
  - split; [done|]. rewrite Hp. destruct (rc =? 0); cbn; by rewrite ?Ha, Hq.
Qed.

Lemma advance_queue_runs md h sub pool queued :
  sub_ok h sub -> sub_outgoing sub <> [] -> pool_holds pool queued ->
  runs md (advance_queue sub pool) (fun '(sub', pool') => exists accepted : bool,
    (always_room md -> accepted = true \/ waits sub = []) /\
    pool_holds pool' ((if accepted then option_list (head (waits sub)) else []) ++ queued) /\
    sub_sid sub' = sub_sid sub /\ sub_active sub' = sub_active sub /\
    omap job_arg (sub_outgoing sub') = omap job_arg (tail (sub_outgoing sub)) /\
    job_arg <$> sub_outgoing sub' = job_arg <$> tail (sub_outgoing sub) /\
    tail (sub_outgoing sub') = tail (tail (sub_outgoing sub)) /\
    sub_ToSendEventKey sub' = sub_ToSendEventKey sub /\
    sub_expireTime sub' = sub_expireTime sub).
Proof.
  intros Hok Hne Hpool. unfold advance_queue.
  destruct (sub_outgoing sub) as [|j0 l] eqn:E; [done|]. cbn [tail].
  destruct (args_cons sub j0 l E h Hok) as (p0 & Hj0 & Ha).
  assert (waits sub = omap job_arg l) as Hw by (unfold waits; by rewrite Ha).
  destruct l as [|job l].
  - mstep. exists false. cbn. rewrite Hw. split; [by right|]. split; [done|]. by split_and!.
  - destruct Hok as [Hargs _ Hjobs _ _]. rewrite E in *. cbn in Hjobs.
    apply List.Forall_cons_iff in Hjobs as [[Hns Hf] _].
    rewrite Ha in Hargs. cbn in Hargs.
    destruct (job_arg job) as [q|] eqn:Ej; [|destruct (omap job_arg l); simplify_eq].
    mstep. apply runs_assert_true; [by apply negb_true_iff, Z.eqb_neq|].
    mstep. eapply runs_mono; [by apply (add_job_runs md pool queued job q)|].
    intros [rc pool'] (acc & _ & Hr & Hp). mstep. exists acc. rewrite Hw. cbn. rewrite Ej. cbn.
    split; [by left; auto|]. split; [done|]. split; [done|]. split; [done|].
    assert (job_arg (MkJob (j_func job) (j_arg job) (j_free_func job) (j_requestTime job)
      (j_priority job) STALE_JOBID) = Some q) as Em by done.
    by rewrite Em.
Qed.

Lemma remove_sid_spec x busy lost dead g hnd i svc sid :
  ginv x busy lost dead g -> service g hnd i = Some svc ->
  exists g', remove_sid hnd i sid g = Some g' /\ ginv x busy lost dead g' /\ same_frame g g' /\
    (forall p n, p ∈ lost -> eh_structs (g_heap g) !! p = Some n -> eh_structs (g_heap g') !! p = Some n) /\
    (forall p n, eh_structs (g_heap g') !! p = Some n -> eh_structs (g_heap g) !! p = Some n).
Proof.
  intros Hg Hs. pose proof (gi_q _ _ _ _ _ Hg) as Hq.
  destruct (all_subs_split g hnd i svc Hs) as (rest & Hall & _). rewrite Hall in Hq.
  unfold remove_sid. rewrite Hs. cbn [mbind option_bind].
  unfold RemoveSubscriptionSID. pose proof (find_sid_spec sid (si_subscriptionList svc)) as Hfind.
  destruct (find_sid sid (si_subscriptionList svc)) as [j|] eqn:Ef.
  - destruct Hfind as (s & Hj & _).
    destruct (remove_sub_spec _ _ _ _ _ _ _ _ Hq Hj) as (h' & E & Hf & Hq'). rewrite E.
    cbn [mbind option_bind]. eexists. split; [done|].
    assert (ginv x busy lost dead (put_service hnd i
      (set_subs (si_TotalSubscriptions svc - 1) (delete j (si_subscriptionList svc)) svc)
      (set_heap h' g))) as Hg'.
    { eapply ginv_frees; [done|done|apply set_subs_key|by rewrite put_set_heap| | |].
      - by rewrite put_set_heap.
      - intros rest' Hq2. rewrite put_set_heap. cbn.
        destruct (remove_sub_spec _ _ _ _ _ _ _ _ Hq2 Hj) as (h2 & E2 & _ & Hq3).
        by assert (h2 = h') as -> by congruence.
      - cbn. intros s' Hin. rewrite (delete_Permutation _ _ _ Hj). set_solver. }
    split; [done|]. split.
    + rewrite put_set_heap. by destruct (put_service_frame g hnd i svc
        (set_subs (si_TotalSubscriptions svc - 1) (delete j (si_subscriptionList svc)) svc) Hs).
    + split; [|by intros p n; rewrite put_set_heap; apply (frees_back _ _ _ _ _ _ Hf)].
      intros p n Hp Hn. rewrite put_set_heap. cbn.
      destruct (proj1 (waits_live _ _ _ _ _ Hq' p)) as [m Hm]; [set_solver|].
      pose proof (frees_back _ _ _ _ _ _ Hf Hm). congruence.
  - cbn [mbind option_bind].
    assert (put_service hnd i svc (set_heap (g_heap g) g) = g) as Eg.
    { rewrite put_set_heap, (put_service_id g hnd i svc Hs). by destruct g. }
    exists g. by rewrite Eg.
Qed.

(** The sender of the event at the head of a queue moves the queue on. *)
Lemma put_popped_spec arg n running queued queued' lost dead g hnd i k svc sub sub' pool'
    (accepted : bool) :
  ginv None (arg :: running ++ queued) lost dead g ->
  eh_structs (g_heap g) !! arg = Some n -> service g hnd i = Some svc ->
  si_subscriptionList svc !! k = Some sub -> sub_sid sub = nts_sid n ->
  queued' = (if accepted then option_list (head (waits sub)) else []) ++ queued ->
  sub_sid sub' = sub_sid sub -> sub_active sub' = sub_active sub ->
  omap job_arg (sub_outgoing sub') = omap job_arg (tail (sub_outgoing sub)) ->
  job_arg <$> sub_outgoing sub' = job_arg <$> tail (sub_outgoing sub) ->
  tail (sub_outgoing sub') = tail (tail (sub_outgoing sub)) ->
  exists g', put_sub hnd i k sub' (set_pool pool' g) = Some g' /\
    ginv None (running ++ queued')
      (arg :: (if accepted then [] else option_list (head (waits sub))) ++ lost)
      (if accepted then dead else if decide (waits sub = []) then dead else nts_sid n :: dead) g' /\
    static g' = static g /\ g_pool g' = pool' /\ g_locked g' = g_locked g /\
    g_heap g' = g_heap g /\ is_Some (service g' hnd i).
Proof.
  intros Hg Hn Hs Hk Hsid -> Hs' Hact Ho Hm Ht.
  pose proof (list_elem_of_lookup_2 _ _ _ Hk) as Hin.
  destruct (busy_sub _ _ _ _ g arg n hnd i svc sub Hg) as [Hhd Hhome]; [set_solver|done..|].
  unfold put_sub. change (service (set_pool pool' g) hnd i) with (service g hnd i). rewrite Hs.
  cbn [mbind option_bind]. eexists. split; [done|].
  set (svc' := set_subs _ _ svc).
  assert (g_heap (put_service hnd i svc' (set_pool pool' g)) = g_heap g) as Eh
    by (by rewrite put_service_heap).
  assert (g_api (put_service hnd i svc' (set_pool pool' g)) = g_api (put_service hnd i svc' g)) as Ea
    by (unfold put_service; cbn; by destruct (HandleTable (g_api g) !! hnd)).
  apply lookup_lt_Some in Hk as Hlt.
  assert (si_subscriptionList svc ≡ₚ sub :: delete k (si_subscriptionList svc)) as Hp1
    by by apply delete_Permutation.
  assert (si_subscriptionList svc' ≡ₚ sub' :: delete k (si_subscriptionList svc)) as Hp2.
  { cbn. rewrite (delete_Permutation (<[k:=sub']> _) k sub') by (by apply list_lookup_insert_eq).
    by rewrite delete_insert_same. }
  pose proof (gi_q _ _ _ _ _ Hg) as Hq. destruct (all_subs_split g hnd i svc Hs) as (rest & Hall & _).
  rewrite Hall, Hp1 in Hq. cbn in Hq.
  destruct (qinv_pop _ _ _ _ _ _ _ accepted sub' Hq Hhd Hs' Hact Ho Hm Ht) as [Ha' Hq'].
  pose proof (q_sids _ _ _ _ _ Hq) as Hnd. cbn in Hnd. apply NoDup_cons in Hnd as [Hni _].
  assert (static (put_service hnd i svc' (set_pool pool' g)) = static g) as Hst.
  { unfold static. rewrite Ea. by apply (put_service_static g hnd i svc). }
  split; [|split_and!; [done| |by rewrite put_service_locked|done|]].
  - eapply (ginv_update (fun sid => sid = nts_sid n) _ _ _ _ _ _ _ svc svc'); [exact Hg|exact Hs|apply set_subs_key|exact Ea|..].
    + intros sid ->. by exists sub.
    + intros rest' Hq2. rewrite Eh, Hp2. rewrite Hp1 in Hq2. cbn in Hq2 |- *.
      destruct (qinv_pop _ _ _ _ _ _ _ accepted sub' Hq2 Hhd Hs' Hact Ho Hm Ht) as [_ Hq3].
      refine (proj1 (qinv_proper _ _ _ _ _ _ _ _ _ _ _ _ _) Hq3); [|by destruct accepted; cbn; solve_perm|done|done].
      destruct accepted; solve_perm.
    + rewrite Eh. done.
    + rewrite Eh. intros p m Hp Hm' Hne. split; [|done].
      apply elem_of_cons in Hp as [->|Hp]; [congruence|]. set_solver.
    + destruct accepted; [done|]. case_decide; set_solver.
    + intros s Hins. rewrite Hp2 in Hins. apply elem_of_cons in Hins as [->|Hins].
      * right. destruct (gi_good _ _ _ _ _ Hg hnd i svc sub Hs Hin) as [_ G2]. split.
        -- intros Hne. pose proof (q_sub_ok _ _ _ _ _ _ Hq) as [_ _ _ Hev _].
           destruct (waits sub) as [|q ws] eqn:Ew.
           { exfalso. pose proof (so_args _ _ (q_sub_ok _ _ _ _ _ _ Hq')) as Hargs.
             rewrite Ha' in Hargs. by destruct (sub_outgoing sub'). }
           destruct accepted; [right|left; rewrite decide_False, Hs', Hsid by done; constructor].
           rewrite Forall_forall in Hev. destruct (Hev q) as (m & ? & ?); [constructor|].
           exists q, m. rewrite Ha', Eh. split; [done|]. split; [cbn; set_solver|]. split; [done|congruence].
        -- intros p m Hp Hm' Hsm. rewrite Eh in Hm'. eapply event_home_static; [|apply (G2 p m)].
           ++ done.
           ++ rewrite Ha' in Hp. unfold waits in Hp. rewrite (head_some _ _ Hhd). set_solver.
           ++ done.
           ++ congruence.
      * left. split; [rewrite Hp1; set_solver|]. intros E. apply Hni. rewrite Hsid, <- E.
        apply list_elem_of_fmap. exists s. split; [done|]. set_solver.
  - by rewrite put_service_pool.
  - destruct (services_split g hnd i svc Hs) as (_ & _ & _ & Hput).
    unfold service. rewrite Ea. fold (service (put_service hnd i svc' g) hnd i). rewrite Hput. by eexists.
Qed.

(** After the second section the event is freed; the next one of its queue is
    in the pool, if the pool took it. *)
Definition finished md running lost (dead : list (list Z)) g g' : Prop :=
  static g' = static g /\ g_locked g' = false /\
  exists queued' lost' dead',
    pool_holds (g_pool g') queued' /\ ginv None (running ++ queued') lost' dead' g' /\
    dead ⊆ dead' /\ (always_room md -> lost' = lost /\ dead' = dead).

Lemma finish_drops md arg n running queued lost dead g g2 :
  ginv None (arg :: running ++ queued) lost dead g2 -> pool_holds (g_pool g2) queued ->
  g_locked g2 = true -> static g2 = static g ->
  eh_structs (g_heap g2) !! arg = Some n -> orphan g2 dead (nts_sid n) ->
  runs md (liftO (drop_event arg g2)) (fun g' => finished md running lost dead g g' /\ fewer arg g2 g').
Proof.
  intros Hg2 Hpool Hl2 Hst Hn2 Ho.
  destruct (drop_event_spec None arg n (running ++ queued) lost dead g2 true Hg2 Hl2 Hn2)
    as (g3 & E & Hg3 & Ha & Hp & Hl3 & Hfew); [done|].
  eapply runs_liftO; [exact E|]. split; [|done].
  split; [unfold static in *; by rewrite Ha|]. split; [done|].
  exists queued, lost, dead. rewrite Hp. by split_and!.
Qed.

(** The subscription is still there. *)
Lemma finish_advances md rc arg n running queued lost dead g g2 hnd i k svc sub :
  ginv None (arg :: running ++ queued) lost dead g2 -> pool_holds (g_pool g2) queued ->
  g_locked g2 = true -> static g2 = static g -> eh_structs (g_heap g2) !! arg = Some n ->
  service g2 hnd i = Some svc -> si_subscriptionList svc !! k = Some sub ->
  c_str (nts_sid n) = c_str (sub_sid sub) ->
  runs md
    (let sub := set_sub_key (next_key (sub_ToSendEventKey sub)) sub in
     '(sub, pool) ← advance_queue sub (g_pool g2);
     g ← liftO (put_sub hnd i k sub (set_pool pool g2));
     g ← liftO (if rc =? GENA_E_NOTIFY_UNACCEPTED_REMOVE_SUB
                then remove_sid hnd i (nts_sid n) g else Some g);
     liftO (drop_event arg g)) (fun g' => finished md running lost dead g g' /\ fewer arg g2 g').
Proof.
  intros Hg Hpool Hl Hst Hn Hs Hk Hcs. cbv zeta.
  pose proof (list_elem_of_lookup_2 _ _ _ Hk) as Hin.
  assert (sub_sid sub = nts_sid n) as Hsid by by apply (same_sid None (arg :: running ++ queued) lost dead g2 hnd i svc sub arg n).
  destruct (busy_sub _ _ _ _ g2 arg n hnd i svc sub Hg) as [Hhd _]; [set_solver|done..|].
  set (sub1 := set_sub_key _ sub).
  assert (sub_outgoing sub1 <> []) as Hne.
  { intros Ee. unfold args in Hhd. cbn in Ee. by rewrite Ee in Hhd. }
  pose proof (gi_q _ _ _ _ _ Hg) as Hq. destruct (all_subs_split g2 hnd i svc Hs) as (rest & Hall & _).
  rewrite Hall, (delete_Permutation _ _ _ Hk) in Hq. cbn in Hq.
  pose proof (q_sub_ok _ _ _ _ _ _ (qinv_same_queue _ _ _ sub sub1 _ _ Hq eq_refl eq_refl (fun H => H))) as Hok.
  mstep. eapply runs_mono; [by apply (advance_queue_runs md (g_heap g2) sub1 (g_pool g2) queued)|].
  intros [sub' pool'] (acc & Hroom & Hpool' & Hs' & Hact & Ho & Hm & Ht & _).
  destruct (put_popped_spec arg n running queued _ lost dead g2 hnd i k svc sub sub' pool' acc
    Hg Hn Hs Hk Hsid eq_refl Hs' Hact Ho Hm Ht)
    as (g3 & E3 & Hg3 & Hst3 & Hp3 & Hl3 & Hh3 & [svc3 Hs3]).
  mstep. eapply runs_liftO; [exact E3|].
  assert (exists g4, (if rc =? GENA_E_NOTIFY_UNACCEPTED_REMOVE_SUB
      then remove_sid hnd i (nts_sid n) g3 else Some g3) = Some g4 /\
    ginv None (running ++ (if acc then option_list (head (waits sub)) else []) ++ queued)
      (arg :: (if acc then [] else option_list (head (waits sub))) ++ lost)
      (if acc then dead else if decide (waits sub = []) then dead else nts_sid n :: dead) g4 /\
    same_frame g3 g4 /\ eh_structs (g_heap g4) !! arg = Some n /\
    forall p m, eh_structs (g_heap g4) !! p = Some m -> eh_structs (g_heap g2) !! p = Some m)
    as (g4 & E4 & Hg4 & [Hst4 Hp4 Hl4] & Hn4 & Hb4).
  { rewrite <- Hh3 in Hn |- *. destruct (rc =? _); [|by exists g3].
    destruct (remove_sid_spec _ _ _ _ _ hnd i svc3 (nts_sid n) Hg3 Hs3)
      as (g4 & ? & ? & ? & Hkeep & Hb). exists g4. do 3 (split; [done|]).
    split; [apply Hkeep; [constructor|done]|done]. }
  mstep. eapply runs_liftO; [exact E4|].
  destruct (drop_event_spec None arg n _ _ _ g4 false Hg4) as (g5 & E5 & Hg5 & Ha5 & Hp5 & Hl5 & Hf5);
    [congruence|done|done|].
  eapply runs_liftO; [exact E5|].
  split; [|intros p m Hpm; destruct (Hf5 p m Hpm); split; auto].
  split; [unfold static in *; rewrite Ha5; congruence|].
  split; [done|]. do 3 eexists. rewrite Hp5, Hp4, Hp3. split; [exact Hpool'|]. split; [exact Hg5|].
  split; [destruct acc; [done|case_decide; set_solver]|]. intros [->|Hw]%Hroom; [done|].
  change (waits sub1) with (waits sub) in Hw. rewrite Hw. by destruct acc.
Qed.

Lemma notify_finish_runs md rc arg running queued lost dead g :
  ginv None (arg :: running ++ queued) lost dead g -> pool_holds (g_pool g) queued ->
  g_locked g = false ->
  runs md (notify_finish rc arg g) (fun g' => finished md running lost dead g g' /\ fewer arg g g').
Proof.
  intros Hg Hpool Hl. unfold notify_finish, HandleLock. rewrite Hl. mstep. mstep.
  destruct (mem_lookup_fresh _ _ _ _ _ _ Hg) as [n Hn].
  set (g1 := set_locked true g).
  assert (ginv None (arg :: running ++ queued) lost dead g1) as Hg1
    by (by apply (ginv_data _ _ _ _ g)).
  destruct (event_service_spec _ _ _ _ g1 arg n Hg1 Hn) as (r & Er & Hsome & Hhome).
  mstep. eapply runs_liftO; [exact Er|]. mstep. eapply runs_liftO; [exact Hn|].
  destruct r as [i|].
  2:{ apply (finish_drops md arg n running queued lost dead g g1); try done.
      by eapply (not_found_orphan _ _ _ _ _ _ _ 0 None); eauto. }
  destruct (Hsome i eq_refl) as [svc Hs].
  destruct (get_sub_spec _ _ _ _ g1 _ i svc (nts_sid n) Hg1 Hs)
    as (k & g2 & E & Hg2 & [Hst Hp Hl2] & Hk & _ & Hback & _).
  mstep. eapply runs_liftO; [exact E|]. destruct k as [k|].
  - destruct Hk as (c & sub & -> & Hsub & Hsid).
    mstep. eapply runs_liftO; [exact Hs|]. mstep. eapply runs_liftO; [exact Hsub|].
    by apply (finish_advances md rc arg n running queued lost dead g (set_gclock c g1) _ i k svc sub).
  - destruct (mem_lookup_fresh _ _ _ _ _ _ Hg2) as [m Hm].
    assert (m = n) as -> by (apply Hback in Hm; cbn in Hm; congruence).
    apply (runs_mono md _ (fun g' => finished md running lost dead g g' /\ fewer arg g2 g')).
    2:{ intros g' [? Hfew]. split; [done|]. intros p m' Hm'.
        destruct (Hfew p m' Hm'). split; [by apply Hback|done]. }
    apply (finish_drops md arg n running queued); try done; [by rewrite Hp|].
    eapply (not_found_orphan _ _ _ _ _ _ _ i (Some i)); [done|done| |by intros _ svc' s; apply Hk|by right].
    intros hnd j Hh. apply Hhome. eapply event_home_static; [|done]. done.
Qed.
End Steps.
