(* ===== verification/GenaTexts.v ===== *)
(** The texts of an event: they fit their buffers exactly. *)

From S2P Require Import Prelude CString FreeList LinkedList ThreadPool MemBuffer Uri IxmlNode XmlPrint GenaQueue ServiceTable HandleTable Gena.

(** ** The property set *)

(** The element of one variable. *)
Definition property_element (nv : list Z * list Z) : list Z :=
  property_open ++ property_text nv.1 nv.2.
Definition property_set_text (vars : list (list Z * list Z)) : list Z :=
  XML_PROPERTYSET_HEADER ++ (vars ≫= property_element) ++ propertyset_close.

Definition no_nul (l : list Z) : Prop := Forall (fun c => c <> 0) l.

Lemma strcat_ok cap b s : zlen b + zlen s + 1 <= cap -> strcat cap b s = Some (b ++ s).
Proof. intros Hle. unfold strcat. by rewrite (proj2 (Z.leb_le _ _) Hle). Qed.

Lemma zlen_property_text n v :
  zlen (property_text n v) = 2 * strlen n + strlen v + 6 + zlen property_close.
Proof.
  unfold property_text, strlen. rewrite !zlen_app.
  change (zlen (cs "<")) with 1. change (zlen (cs ">")) with 1. change (zlen (cs "</")) with 2.
  change (zlen [10]) with 1. lia.
Qed.

Lemma property_size_app vars a :
  foldl (fun size nv => size + zlen (property_open ++ property_close) +
           (2 * strlen nv.1 + strlen nv.2 + 6)) a vars = a + zlen (vars ≫= property_element).
Proof.
  revert a. induction vars as [|[n v] vars IH]; intros a; cbn [foldl mbind list_bind].
  { rewrite zlen_nil. lia. }
  rewrite IH, zlen_app. unfold property_element at 2. cbn [fst snd].
  rewrite !zlen_app, zlen_property_text. lia.
Qed.

Lemma property_loop_spec cap vars b :
  zlen b + zlen (vars ≫= property_element) + 1 <= cap ->
  property_loop cap vars b = Some (b ++ (vars ≫= property_element)).
Proof.
  revert b. induction vars as [|[n v] vars IH]; intros b Hle; cbn [property_loop mbind list_bind].
  { by rewrite app_nil_r. }
  cbn [mbind list_bind] in Hle. rewrite zlen_app in Hle. unfold property_element at 1 in Hle.
  cbn [fst snd] in Hle. rewrite zlen_app in Hle. pose proof (zlen_nonneg (vars ≫= property_element)).
  pose proof (zlen_nonneg (property_text n v)).
  rewrite strcat_ok by (unfold mbind, list_bind in *; lia). cbn [mbind option_bind].
  rewrite strcat_ok by (rewrite zlen_app; unfold mbind, list_bind in *; lia). cbn [mbind option_bind].
  rewrite IH by (rewrite !zlen_app; unfold mbind, list_bind in *; lia).
  unfold property_element at 2. cbn [fst snd]. by rewrite <- !app_assoc.
Qed.

Lemma no_nul_app a b : no_nul (a ++ b) <-> no_nul a /\ no_nul b.
Proof. apply Forall_app. Qed.

Lemma no_nul_literal (l : list Z) : forallb (fun c => negb (c =? 0)) l = true -> no_nul l.
Proof.
  rewrite forallb_forall. intros E. apply Forall_forall. intros c Hc%list_elem_of_In%E. by zbool.
Qed.

Lemma property_set_no_nul vars : no_nul (property_set_text vars).
Proof.
  unfold property_set_text. rewrite !no_nul_app.
  split; [by apply no_nul_literal|]. split; [|by apply no_nul_literal].
  induction vars as [|[n v] vars IH]; cbn [mbind list_bind]; [constructor|].
  apply no_nul_app. split; [|done]. unfold property_element, property_text. cbn [fst snd].
  rewrite !no_nul_app. split_and!; try (by apply no_nul_literal); apply c_str_no_nul.
Qed.

(** The size that is computed is the size of the text: the buffer is filled to
    its last byte and never overrun. *)
Lemma GeneratePropertySet_runs md vars :
  runs md (GeneratePropertySet vars) (fun '(rc, out) =>
    (rc = 0 /\ out = DStr (property_set_text vars)) \/
    (md <> Lucky /\ out = DNull /\ (rc = 0 \/ rc = UPNP_E_OUTOF_MEMORY))).
Proof.
  unfold GeneratePropertySet. mstep. mstep; cbn [negb]; [|mstep; right; auto].
  set (size := property_size vars).
  assert (size = zlen XML_PROPERTYSET_HEADER + zlen (vars ≫= property_element)
                 + zlen propertyset_close) as Hsz
    by (unfold size, property_size; rewrite property_size_app; lia).
  pose proof (zlen_nonneg (vars ≫= property_element)). pose proof (zlen_nonneg propertyset_close).
  mstep. eapply runs_liftO; [apply strcat_ok; rewrite zlen_nil; lia|]. cbn [app].
  mstep. eapply runs_liftO; [apply property_loop_spec; lia|].
  mstep. eapply runs_liftO; [apply strcat_ok; rewrite !zlen_app; lia|].
  unfold ixmlCloneDOMString, strdup_of. mstep. mstep.
  rewrite <- app_assoc. fold (property_set_text vars).
  eapply runs_liftO; [done|]. rewrite (c_str_id _ (property_set_no_nul vars)).
  unfold IxmlNode.strdup. mstep. mstep; mstep; mstep.
  - left. split; [done|]. f_equal. apply c_str_id, property_set_no_nul.
  - right. auto.
Qed.

(** ** The headers *)

Definition gena_headers (propertySet : list Z) : list Z :=
  HEADER_LINE_1 ++ HEADER_LINE_2A ++ itoa (strlen propertySet + 2) ++ HEADER_LINE_2B ++
  HEADER_LINE_3 ++ HEADER_LINE_4.

Lemma AllocGenaHeaders_runs md s :
  runs md (AllocGenaHeaders (DStr s)) (fun r => is_Some r \/ md <> Lucky).
Proof.
  unfold AllocGenaHeaders. mstep. mstep; cbn [negb]; [|mstep; by right].
  mstep. eapply runs_liftO; [done|]. unfold snprintf. cbv beta iota. mstep. left. by eexists.
Qed.
