(* ===== verification/GenaPost.v ===== *)
(** The critical sections of eventing keep the invariant: posting. *)

From S2P Require Import Prelude CString FreeList LinkedList ThreadPool MemBuffer Uri IxmlNode XmlPrint GenaQueue ServiceTable HandleTable Gena GenaInv GenaState GenaSteps GenaTexts.

Section Post.
Context {P : Type} `{SendPool P} `{!SendPoolLaws P} (EQMaxLen EQMaxAge : Z).
Implicit Types (g : gena P) (svc : service_info) (sub : subscription) (hnd : Z)
  (busy lost running queued : list loc) (x : ptr) (h : event_heap) (po : posting).

(** The structures of the events that are being sent stay as they are. *)
Definition unmoved running g g' : Prop :=
  forall p n, p ∈ running -> eh_structs (g_heap g) !! p = Some n -> eh_structs (g_heap g') !! p = Some n.

Lemma unmoved_trans running g1 g2 g3 :
  unmoved running g1 g2 -> unmoved running g2 g3 -> unmoved running g1 g3.
Proof. intros H1 H2 p n Hp Hn. by apply H2, H1. Qed.

(** Busy structures are live, so they stay if only others come. *)
Lemma unmoved_new p x running queued lost dead g g' :
  (forall q m, eh_structs (g_heap g') !! q = Some m -> q <> p -> eh_structs (g_heap g) !! q = Some m) ->
  eh_structs (g_heap g) !! p = None -> ginv x (running ++ queued) lost dead g' ->
  unmoved running g g'.
Proof.
  intros Hback Hp Hg q n Hq Hn.
  destruct (proj1 (waits_live _ _ _ _ _ (gi_q _ _ _ _ _ Hg) q)) as [m Hm]; [set_solver|].
  assert (q <> p) by congruence. rewrite Hm. f_equal. pose proof (Hback q m Hm). naive_solver.
Qed.

Lemma unmoved_back x running queued lost dead g g' :
  (forall q m, eh_structs (g_heap g') !! q = Some m -> eh_structs (g_heap g) !! q = Some m) ->
  ginv x (running ++ queued) lost dead g' -> unmoved running g g'.
Proof.
  intros Hback Hg q n Hq Hn.
  destruct (proj1 (waits_live _ _ _ _ _ (gi_q _ _ _ _ _ Hg) q)) as [m Hm]; [set_solver|].
  rewrite Hm. f_equal. pose proof (Hback q m Hm). congruence.
Qed.

(** What a posting leaves. *)
Definition posted running lost (dead : list (list Z)) g g' : Prop :=
  finished Lucky running lost dead g g' /\ unmoved running g g'.

(** ** Going through the subscriptions *)

(** What [GetFirstSubscription] and [GetNextSubscription] leave. *)
Record moved_on hnd (i pos : nat) svc g (k : option nat) g' : Prop := {
  mo_frame : same_frame g g';
  mo_back : forall p n, eh_structs (g_heap g') !! p = Some n -> eh_structs (g_heap g) !! p = Some n;
  mo_kept : forall p n, eh_structs (g_heap g) !! p = Some n ->
              p ∉ drop pos (si_subscriptionList svc) ≫= waits ->
              eh_structs (g_heap g') !! p = Some n;
  mo_zero : forall rc, eh_counts (g_heap g) !! rc = Some 0 -> eh_counts (g_heap g') !! rc = Some 0;
  mo_subs : exists svc' rest', service g' hnd i = Some svc' /\
              si_subscriptionList svc' = take pos (si_subscriptionList svc) ++ rest' /\
              (forall s, s ∈ rest' -> s ∈ drop pos (si_subscriptionList svc)) /\
              (length (si_subscriptionList svc') <= length (si_subscriptionList svc))%nat /\
              (forall k', k = Some k' -> (pos <= k')%nat /\ exists sub,
                 si_subscriptionList svc' !! k' = Some sub /\ sub_active sub <> 0)
}.

Lemma next_from_runs x busy lost dead g hnd i pos svc now h0 g0 :
  ginv x busy lost dead g -> service g hnd i = Some svc ->
  (pos <= length (si_subscriptionList svc))%nat ->
  g_api g0 = g_api g -> g_heap g0 = g_heap g -> g_pool g0 = g_pool g -> g_locked g0 = g_locked g ->
  h0 = g_heap g0 ->
  exists k g', ('(k, h, svc) ← next_from now h0 svc pos;
                Some (k, put_service hnd i svc (set_heap h g0))) = Some (k, g') /\
    ginv x busy lost dead g' /\ moved_on hnd i pos svc g k g'.
Proof.
  intros Hg Hs Hpos Ea Eh Ep El ->. rewrite Eh.
  set (subs := si_subscriptionList svc). set (pre := take pos subs).
  assert (forall rest, qinv x busy lost (subs ++ rest) (g_heap g) ->
    qinv x busy lost (pre ++ drop pos subs ++ rest) (g_heap g)) as Hsplit.
  { intros rest. unfold pre. by rewrite (app_assoc (take pos subs)), take_drop. }
  destruct (all_subs_split g hnd i svc Hs) as (rest & Hall & _).
  pose proof (gi_q _ _ _ _ _ Hg) as Hq. rewrite Hall in Hq. apply Hsplit in Hq as Hq1.
  destruct (next_loop_spec x busy lost now pre rest (drop pos subs) (g_heap g) pos
    (si_TotalSubscriptions svc) Hq1)
    as (k & h' & rest' & total' & sk & fd & ps & E & Hq' & Hf & Hps & Hnf).
  unfold next_from. fold subs. rewrite E. cbn [mbind option_bind].
  eexists k, _. split; [done|]. rewrite put_set_heap.
  set (svc' := set_subs _ _ svc).
  assert (put_service hnd i svc' g0 = MkGena (g_api (put_service hnd i svc' g)) (g_heap g) (g_pool g)
    (g_clock g0) (g_locked g)) as Eput.
  { destruct g0; cbn in Ea, Eh, Ep, El; subst. unfold put_service. cbn.
    by destruct (HandleTable (g_api g) !! hnd). }
  rewrite Eput. destruct Hnf as [Hr Hr' Hsk Ht Hn Hfd].
  assert (ginv x busy lost dead (set_heap h' (MkGena (g_api (put_service hnd i svc' g)) (g_heap g)
    (g_pool g) (g_clock g0) (g_locked g)))) as Hg'.
  { eapply (ginv_frees x busy lost dead g hnd i svc svc' ps); [done|done|apply set_subs_key|done|done| |].
    - intros rest2 Hq2. cbn. apply Hsplit in Hq2.
      destruct (next_loop_spec x busy lost now pre rest2 (drop pos subs) (g_heap g) pos
        (si_TotalSubscriptions svc) Hq2) as (k2 & h2 & r2 & t2 & ? & ? & ? & E2 & Hq3 & _).
      rewrite E in E2. simplify_eq. by rewrite <- app_assoc.
    - cbn. intros s Hin. rewrite <- (take_drop pos (si_subscriptionList svc)).
      fold subs. rewrite Hr. rewrite Hr' in Hin. rewrite !elem_of_app, list_elem_of_filter in *. naive_solver. }
  split; [done|]. split.
  - destruct (put_service_frame g hnd i svc svc' Hs) as [? _ _]; [apply set_subs_key|]. by split.
  - cbn. intros p n. by eapply frees_back.
  - cbn. intros p n Hp Hni. rewrite (fr_dropped _ _ _ _ Hf), decide_False; [done|]. auto.
  - cbn. apply Hf.
  - exists svc', rest'. split.
    { destruct (services_split g hnd i svc Hs) as (_ & _ & _ & Hput). exact (Hput svc'). }
    split; [done|].
    assert (length rest' <= length (drop pos subs))%nat as Hlen.
    { rewrite Hr, Hr', !length_app. pose proof (length_filter (fun s => expired now s = false) sk). lia. }
    split; [|split].
    + fold subs. rewrite Hr, Hr'. intros s. rewrite !elem_of_app, list_elem_of_filter. naive_solver.
    + cbn. fold subs. rewrite length_app. unfold pre. rewrite length_take.
      rewrite length_drop in Hlen. fold subs in Hpos. lia.
    + intros k' ->. destruct fd as [|s fd]; [done|]. simplify_eq. split; [lia|].
      exists s. destruct (Hfd s eq_refl). split; [|done]. cbn. unfold pre.
      rewrite lookup_app_r; rewrite length_take; fold subs in Hpos; [|lia].
      replace (pos + _ - _)%nat with (length (filter (fun s => expired now s = false) sk)) by lia.
      by apply list_lookup_middle.
Qed.

Lemma next_sub_spec x busy lost dead g hnd i k svc :
  ginv x busy lost dead g -> service g hnd i = Some svc ->
  (S k <= length (si_subscriptionList svc))%nat ->
  exists k' g', next_sub hnd i k g = Some (k', g') /\ ginv x busy lost dead g' /\
    moved_on hnd i (S k) svc g k' g'.
Proof.
  intros Hg Hs Hk. unfold next_sub. rewrite Hs. cbn [mbind option_bind time GetNextSubscription].
  by apply next_from_runs.
Qed.

Lemma first_sub_spec x busy lost dead g hnd i svc :
  ginv x busy lost dead g -> service g hnd i = Some svc ->
  exists k' g', first_sub hnd i g = Some (k', g') /\ ginv x busy lost dead g' /\
    moved_on hnd i 0 svc g k' g'.
Proof.
  intros Hg Hs. unfold first_sub. rewrite Hs. cbn [mbind option_bind time].
  apply next_from_runs; try done. lia.
Qed.

(** ** Posting to one subscription *)

(** The counter of the posting is there: it counts nothing yet, or an event
    that no subscription from position [pos] on is waiting for. *)
Definition alive (rc : loc) hnd (i pos : nat) g : Prop :=
  eh_counts (g_heap g) !! rc = Some 0 \/
  exists p n, eh_structs (g_heap g) !! p = Some n /\ nts_reference_count n = rc /\
    forall svc, service g hnd i = Some svc -> p ∉ drop pos (si_subscriptionList svc) ≫= waits.

Lemma alive_counted rc hnd i pos x busy lost dead g :
  alive rc hnd i pos g -> ginv x busy lost dead g -> is_Some (eh_counts (g_heap g) !! rc).
Proof.
  intros [->|(p & n & Hp & <- & _)] Hg; [by eexists|].
  rewrite (counted x _ p n (q_ok _ _ _ _ _ (gi_q _ _ _ _ _ Hg)) Hp). by eexists.
Qed.

Lemma alive_moved rc hnd i pos svc g k g' k' :
  alive rc hnd i pos g -> service g hnd i = Some svc -> moved_on hnd i pos svc g k g' ->
  (pos <= k')%nat -> alive rc hnd i k' g'.
Proof.
  intros Ha Hs Hm Hk. destruct Ha as [Hz|(p & n & Hp & Hrc & Hni)].
  { left. by apply (mo_zero _ _ _ _ _ _ _ Hm). }
  right. exists p, n. split; [by apply (mo_kept _ _ _ _ _ _ _ Hm); [|apply Hni]|].
  split; [done|]. intros svc2 Hs2 Hin. apply (Hni svc Hs).
  destruct (mo_subs _ _ _ _ _ _ _ Hm) as (svc' & rest' & Hs' & Hsubs & Hrest & _).
  simplify_eq. apply list_elem_of_bind in Hin as (s & Hp' & Hin). apply list_elem_of_bind.
  exists s. split; [done|]. apply Hrest.
  assert (s ∈ drop pos (si_subscriptionList svc2)) as Hin'.
  { replace k' with (pos + (k' - pos))%nat in Hin by lia. rewrite <- drop_drop in Hin.
    rewrite <- (take_drop (k' - pos) (drop pos _)). set_solver. }
  rewrite Hsubs in Hin'. rewrite drop_app in Hin'. apply elem_of_app in Hin' as [Hin'|Hin'].
  - rewrite drop_ge in Hin'; [set_solver|]. rewrite length_take. lia.
  - rewrite <- (take_drop (pos - length (take pos (si_subscriptionList svc))) rest'). set_solver.
Qed.

(** What is fixed while an event is posted to the subscriptions of a service. *)
Definition posting_ok po hnd (i : nat) g : Prop :=
  po_device_handle po = hnd /\ forall sid t, event_home g (notify_of po sid t) hnd i.

(** The state between two subscriptions. *)
Definition post_inv md po hnd (i pos : nat) running lost dead g0 g : Prop :=
  same_frame (set_pool (g_pool g) g0) g /\ alive (po_count po) hnd i pos g /\
  unmoved running g0 g /\
  exists queued lost' dead', pool_holds (g_pool g) queued /\
    ginv (Some (po_count po)) (running ++ queued) lost' dead' g /\ dead ⊆ dead' /\
    (always_room md -> lost' = lost /\ dead' = dead).

Lemma notify_of_sid po sid t : sid_ok sid -> nts_sid (notify_of po sid t) = sid.
Proof.
  intros [Hc Hl]. cbn. rewrite Hc. apply ztake_all. unfold SID_SIZE in Hl. lia.
Qed.

Lemma put_sub_spec g hnd i k sub svc h pool :
  service g hnd i = Some svc ->
  exists g', put_sub hnd i k sub (set_heap h (set_pool pool g)) = Some g' /\
    g_api g' = g_api (put_service hnd i (set_subs (si_TotalSubscriptions svc)
                       (<[k:=sub]> (si_subscriptionList svc)) svc) g) /\
    g_heap g' = h /\ g_pool g' = pool /\ g_locked g' = g_locked g /\
    service g' hnd i = Some (set_subs (si_TotalSubscriptions svc)
                       (<[k:=sub]> (si_subscriptionList svc)) svc).
Proof.
  intros Hs. unfold put_sub.
  change (service (set_heap h (set_pool pool g)) hnd i) with (service g hnd i). rewrite Hs.
  cbn [mbind option_bind]. eexists. split; [done|].
  set (svc' := set_subs _ _ _).
  assert (g_api (put_service hnd i svc' (set_heap h (set_pool pool g)))
          = g_api (put_service hnd i svc' g)) as Ea
    by (unfold put_service; cbn; by destruct (HandleTable (g_api g) !! hnd)).
  split; [done|]. rewrite put_service_heap, put_service_pool, put_service_locked.
  do 3 (split; [done|]).
  destruct (services_split g hnd i svc Hs) as (_ & _ & _ & Hput).
  unfold service. rewrite Ea. exact (Hput svc').
Qed.

(** The heap part of a posting: the new structure, then the old events that
    are dropped. *)
Record prepared x busy lost sub h n (p : loc) (h2 : event_heap) (l : list ThreadPoolJob)
    (h3 : event_heap) : Prop := {
  pr_new : eh_structs h2 = <[p := n]> (eh_structs h);
  pr_fresh : eh_structs h !! p = None;
  pr_head : head l = head (sub_outgoing sub);
  pr_len : zlen l <= Z.max 1 EQMaxLen;
  pr_back : forall q m, eh_structs h3 !! q = Some m -> eh_structs h2 !! q = Some m;
  pr_kept : forall q m, eh_structs h2 !! q = Some m -> nts_sid m <> sub_sid sub ->
              eh_structs h3 !! q = Some m;
  pr_live : eh_structs h3 !! p = Some n;
  pr_args : forall q, q ∈ args (with_queue l sub) -> q ∈ args sub;
  pr_qinv : forall R, qinv x busy lost (sub :: R) h ->
              qinv x busy (p :: lost) (with_queue l sub :: R) h3
}.

Lemma prepare_spec x busy lost sub R h n now :
  qinv x busy lost (sub :: R) h -> is_Some (eh_counts h !! nts_reference_count n) ->
  sid_ok (nts_sid n) -> Z.of_nat (size (eh_structs h)) < INT_MAX ->
  exists h1 p h2 l h3, add_ref (nts_reference_count n) h = Some h1 /\ new_notify n h1 = (p, h2) /\
    maybeDiscardEvents EQMaxLen EQMaxAge now h2 (sub_outgoing sub) = Some (h3, l) /\
    (size (eh_structs h3) <= S (size (eh_structs h)))%nat /\
    prepared x busy lost sub h n p h2 l h3.
Proof.
  intros Hq Hc Hsid Hsz.
  destruct (qinv_new x busy lost (sub :: R) h n Hq Hsid Hc Hsz)
    as (h1 & p & h2 & E1 & E2 & Hfr & Hnew & Hq2).
  destruct (maybeDiscardEvents_spec x busy (p :: lost) sub R h2 EQMaxLen EQMaxAge now Hq2)
    as (h3 & l & ps & E3 & Hf & Hps & Hq3 & Hh & Hl & gone & Hgone).
  exists h1, p, h2, l, h3. do 3 (split; [done|]).
  pose proof (q_sub_ok _ _ _ _ _ _ Hq2) as Hok.
  assert (forall q m, q ∈ ps -> eh_structs h2 !! q = Some m -> nts_sid m = sub_sid sub) as Hown.
  { intros q m Hq' Hm. destruct Hok as [_ _ _ He _]. rewrite Forall_forall in He.
    destruct (He q (Hps q Hq')) as (m' & ? & ?). congruence. }
  split.
  { assert (S (size (eh_structs h)) = size (eh_structs h2)) as ->
      by (rewrite Hnew; by rewrite map_size_insert_None).
    apply map_subseteq_size. apply map_subseteq_spec. intros q m. by eapply frees_back. }
  split; try done.
  - intros q m. by eapply frees_back.
  - intros q m Hm Hne. rewrite (fr_dropped _ _ _ _ Hf), decide_False; [done|].
    intros Hin. by apply Hne, (Hown q).
  - rewrite (fr_dropped _ _ _ _ Hf), decide_False; [by rewrite Hnew, lookup_insert_eq|].
    intros Hin%Hps. pose proof (owned_nodup _ _ _ _ _ Hq2) as Hnd.
    apply NoDup_app in Hnd as (_ & _ & Hnd). apply NoDup_app in Hnd as (_ & Hd & _).
    apply (Hd p); [constructor|]. cbn. set_solver.
  - intros q. destruct (sub_outgoing sub) as [|j0 w] eqn:E.
    { destruct l as [|j l]; [unfold args; cbn; set_solver|]. cbn in Hh. by simplify_eq. }
    destruct l as [|j l]; [unfold args; cbn; set_solver|]. cbn in Hh. simplify_eq.
    unfold args. rewrite E. cbn in Hgone |- *. subst w. rewrite omap_app.
    destruct (job_arg j0); set_solver.
  - intros R' HR'. destruct (qinv_new x busy lost (sub :: R') h n HR' Hsid Hc Hsz)
      as (h1' & p' & h2' & E1' & E2' & _ & _ & Hq2').
    rewrite E1 in E1'. simplify_eq. rewrite E2 in E2'. simplify_eq.
    destruct (maybeDiscardEvents_spec x busy (p' :: lost) sub R' h2' EQMaxLen EQMaxAge now Hq2')
      as (h3' & l' & ? & E3' & _ & _ & Hq3' & _). rewrite E3 in E3'. by simplify_eq.
Qed.

(** The end of a posting: the changed subscription is stored. *)
Lemma put_posted x busy busy' lost lost' dead dead' g hnd i k svc sub sub' h3 pool :
  ginv x busy lost dead g -> service g hnd i = Some svc ->
  si_subscriptionList svc !! k = Some sub ->
  (forall R, qinv x busy lost (sub :: R) (g_heap g) ->
     qinv x busy' lost' (sub' :: R) h3) ->
  (forall q m, eh_structs h3 !! q = Some m -> nts_sid m <> sub_sid sub ->
     eh_structs (g_heap g) !! q = Some m) ->
  (forall q m, q ∈ busy -> eh_structs (g_heap g) !! q = Some m -> nts_sid m <> sub_sid sub ->
     q ∈ busy' /\ eh_structs h3 !! q = Some m) ->
  dead ⊆ dead' -> sub_sid sub' = sub_sid sub ->
  (sub_outgoing sub' = [] \/ sub_sid sub ∈ dead' \/ exists p n, head (args sub') = Some p /\
     p ∈ busy' /\ eh_structs h3 !! p = Some n /\ nts_sid n = sub_sid sub) ->
  (forall p n, p ∈ args sub' -> eh_structs h3 !! p = Some n ->
     nts_sid n = sub_sid sub -> event_home g n hnd i) ->
  exists g', put_sub hnd i k sub' (set_heap h3 (set_pool pool g)) = Some g' /\
    ginv x busy' lost' dead' g' /\ same_frame (set_pool pool g) g' /\ g_heap g' = h3 /\
    service g' hnd i = Some (set_subs (si_TotalSubscriptions svc)
                       (<[k:=sub']> (si_subscriptionList svc)) svc).
Proof.
  intros Hg Hs Hk Hqq H1 H2 Hd Hsid' Hhead Hhome.
  destruct (put_sub_spec g hnd i k sub' svc h3 pool Hs)
    as (g' & E & Ha & Hh & Hp & Hl & Hs'). exists g'. split; [done|].
  pose proof (list_elem_of_lookup_2 _ _ _ Hk) as Hin. apply lookup_lt_Some in Hk as Hlt.
  set (svc' := set_subs _ _ svc) in *.
  assert (si_subscriptionList svc ≡ₚ sub :: delete k (si_subscriptionList svc)) as Hp1
    by by apply delete_Permutation.
  assert (si_subscriptionList svc' ≡ₚ sub' :: delete k (si_subscriptionList svc)) as Hp2.
  { cbn. rewrite (delete_Permutation (<[k:=_]> _) k sub')
      by (by apply list_lookup_insert_eq). by rewrite delete_insert_same. }
  assert (static g' = static g) as Hst.
  { unfold static. rewrite Ha. by apply (put_service_static g hnd i svc). }
  destruct (all_subs_split g hnd i svc Hs) as (rest & Hall & _).
  pose proof (q_sids _ _ _ _ _ (gi_q _ _ _ _ _ Hg)) as Hnd. rewrite Hall, Hp1 in Hnd.
  cbn in Hnd. apply NoDup_cons in Hnd as [Hni _].
  split; [|by split_and!].
  eapply (ginv_update (fun sid => sid = sub_sid sub) _ _ _ _ _ _ _ svc svc');
    [exact Hg|exact Hs|apply set_subs_key|exact Ha|..].
  - intros sid ->. by exists sub.
  - intros R HR. rewrite Hh, Hp2. rewrite Hp1 in HR. by apply Hqq.
  - rewrite Hh. intros q m Hm Hne. by apply H1.
  - rewrite Hh. intros q m Hq Hm Hne. by apply H2.
  - done.
  - intros s Hins. rewrite Hp2 in Hins. apply elem_of_cons in Hins as [->|Hins].
    + right. rewrite Hh. split; rewrite ?Hsid'.
      * intros Hne. by destruct Hhead.
      * intros p n Hp' Hn Hsid. eapply event_home_static; [done|]. by apply (Hhome p n).
    + left. split; [rewrite Hp1; set_solver|]. intros E'. apply Hni. rewrite <- E'.
      apply list_elem_of_fmap. exists s. split; [done|]. set_solver.
Qed.

Lemma home_of_new po hnd i g0 g p n sub l h3 :
  posting_ok po hnd i g0 -> static g = static g0 ->
  (forall q, q ∈ args (with_queue l sub) -> q = p \/ q ∈ args sub) ->
  (exists t sid, n = notify_of po sid t) -> eh_structs h3 !! p = Some n ->
  (forall q m, eh_structs h3 !! q = Some m -> q <> p -> eh_structs (g_heap g) !! q = Some m) ->
  (forall q m, q ∈ args sub -> eh_structs (g_heap g) !! q = Some m -> nts_sid m = sub_sid sub ->
     event_home g m hnd i) ->
  forall q m, q ∈ args (with_queue l sub) -> eh_structs h3 !! q = Some m ->
    nts_sid m = sub_sid sub -> event_home g m hnd i.
Proof.
  intros [_ Hpo] Hst Hargs (t & sid & ->) Hp Hback Hold q m Hq Hm Hsid.
  destruct (decide (q = p)) as [->|Hne].
  - simplify_eq. eapply event_home_static; [done|apply Hpo].
  - destruct (Hargs q Hq) as [|Hq']; [done|]. apply (Hold q m); auto.
Qed.

Lemma push_args l job p sub :
  job_arg job = Some p ->
  forall q, q ∈ args (with_queue (l ++ [job]) sub) -> q = p \/ q ∈ args (with_queue l sub).
Proof.
  intros Hj q. unfold args. cbn. rewrite omap_app, elem_of_app. cbn. rewrite Hj.
  rewrite list_elem_of_singleton. tauto.
Qed.

Lemma args_head l sub job p :
  head l = Some job -> job_arg job = Some p -> head (args (with_queue l sub)) = Some p.
Proof. destruct l as [|j l]; [done|]. intros [= ->] Hj. unfold args. cbn. by rewrite Hj. Qed.

(** What [post_event] does after [prepared]: the new job goes to the end of the
    queue [l], and to the pool if it is alone there. *)
Lemma store_event po hnd i k running queued lost dead g g0 svc sub p h2 l h3 n t
    (accepted : bool) pool job :
  posting_ok po hnd i g0 -> static g = static g0 ->
  ginv (Some (po_count po)) (running ++ queued) lost dead g ->
  service g hnd i = Some svc -> si_subscriptionList svc !! k = Some sub ->
  n = notify_of po (sub_sid sub) t -> sid_ok (sub_sid sub) ->
  prepared (Some (po_count po)) (running ++ queued) lost sub (g_heap g) n p h2 l h3 ->
  job_arg job = Some p -> (l <> [] -> job = event_job p) -> sub_active sub <> 0 ->
  exists g', put_sub hnd i k (with_queue (l ++ [job]) sub) (set_heap h3 (set_pool pool g)) = Some g' /\
    ginv (Some (po_count po))
      (running ++ (if decide (l = []) then if accepted then [p] else [] else []) ++ queued)
      ((if decide (l = []) then if accepted then [] else [p] else []) ++ lost)
      (if decide (l = []) then if accepted then dead else sub_sid sub :: dead else dead) g' /\
    same_frame (set_pool pool g) g' /\ g_heap g' = h3 /\
    (exists svc', service g' hnd i = Some svc' /\
       length (si_subscriptionList svc') = length (si_subscriptionList svc)) /\
    alive (po_count po) hnd i (S k) g'.
Proof.
  intros Hpo Hst Hg Hs Hk -> Hsid [Hnew Hfr Hh _ Hback Hkept Hlive Hargs Hqq] Hj Hjob Hact.
  set (n := notify_of po (sub_sid sub) t) in *.
  assert (nts_sid n = sub_sid sub) as Hn by by apply notify_of_sid.
  pose proof (list_elem_of_lookup_2 _ _ _ Hk) as Hin.
  destruct (gi_good _ _ _ _ _ Hg hnd i svc sub Hs Hin) as [G1 G2].
  assert (forall q m, eh_structs h3 !! q = Some m -> q <> p -> eh_structs (g_heap g) !! q = Some m)
    as Hback'.
  { intros q m Hm%Hback Hne. rewrite Hnew in Hm. by rewrite lookup_insert_ne in Hm by done. }
  assert (forall q m, q ∈ running ++ queued -> eh_structs (g_heap g) !! q = Some m ->
    nts_sid m <> sub_sid sub -> eh_structs h3 !! q = Some m) as Hkept'.
  { intros q m _ Hm Hne. apply Hkept; [|done]. rewrite Hnew, lookup_insert_ne; [done|].
    intros <-. congruence. }
  set (busy' := running ++ (if decide (l = []) then if accepted then [p] else [] else []) ++ queued).
  set (lost' := (if decide (l = []) then if accepted then [] else [p] else []) ++ lost).
  set (dead' := if decide (l = []) then if accepted then dead else sub_sid sub :: dead else dead).
  assert (forall R, qinv (Some (po_count po)) (running ++ queued) lost (sub :: R) (g_heap g) ->
    qinv (Some (po_count po)) busy' lost' (with_queue (l ++ [job]) sub :: R) h3) as HR.
  { intros R HR%Hqq. unfold busy', lost'. destruct (decide (l = [])) as [->|Hne].
    - pose proof (qinv_push_first _ _ _ (with_queue [] sub) R h3 p n accepted job HR Hlive Hn
        eq_refl Hj Hact) as H2.
      refine (proj1 (qinv_proper _ _ _ _ _ _ _ _ _ _ _ _ _) H2); try done.
      destruct accepted; solve_perm.
    - rewrite (Hjob Hne). by apply (qinv_push_waiting _ _ _ (with_queue l sub) R h3 p n). }
  edestruct (put_posted (Some (po_count po)) (running ++ queued) busy' lost lost' dead dead' g hnd i k svc
    sub (with_queue (l ++ [job]) sub) h3 pool Hg Hs Hk HR) as (g' & E & Hg' & Hf & Hh' & Hs').
  - intros q m Hm Hne. apply Hback'; [done|]. intros ->. congruence.
  - intros q m Hq Hm Hne. split; [|by apply Hkept']. unfold busy'. set_solver.
  - unfold dead'. repeat case_match; set_solver.
  - done.
  - right. unfold busy', dead'. destruct (decide (l = [])) as [->|Hne].
    + destruct accepted; [right|left; set_solver]. exists p, n.
      split; [by apply (args_head _ _ job)|]. split; [set_solver|]. done.
    + assert (sub_outgoing sub <> []) as Hne'.
      { intros E. rewrite E in Hh. by destruct l. }
      destruct (G1 Hne') as [Hd|(q & m & Hq & Hb & Hm & Hs2)]; [by left|right].
      assert (head (args (with_queue (l ++ [job]) sub)) = Some q) as Hhd.
      { destruct l as [|j0 w]; [done|]. cbn in Hh. symmetry in Hh.
        destruct (sub_outgoing sub) as [|j1 w1] eqn:E; [done|]. cbn in Hh. simplify_eq.
        pose proof (q_subs _ _ _ _ _ (gi_q _ _ _ _ _ Hg)) as Hok. rewrite Forall_forall in Hok.
        destruct (args_cons sub j0 w1 E (g_heap g)) as (q' & Hj0 & Ha);
          [by eapply Hok, in_all_subs|].
        rewrite Ha in Hq. cbn in Hq. simplify_eq. by apply (args_head _ _ j0). }
      exists q, m. split; [done|]. split; [set_solver|]. split; [|done].
      destruct (all_subs_split g hnd i svc Hs) as (rest & Hall & _).
      pose proof (gi_q _ _ _ _ _ Hg) as Hq0. rewrite Hall, (delete_Permutation _ _ _ Hk) in Hq0.
      destruct (proj1 (waits_live _ _ _ _ _ (Hqq _ Hq0) q)) as [m' Hm']; [set_solver|].
      assert (q <> p) by congruence. pose proof (Hback' q m' Hm'). naive_solver.
  - eapply (home_of_new po hnd i g0 g p n); [done|done| |by eauto|done|done|done].
    intros q Hq. destruct (push_args l job p sub Hj q Hq) as [->|Hq']; [by left|right; auto].
  - exists g'. split; [done|]. split; [done|]. split; [done|]. split; [done|].
    split; [eexists; split; [exact Hs'|]; cbn; by rewrite length_insert|].
    right. exists p, n. rewrite Hh'. split; [done|]. split; [done|].
    intros svc2 Hs2 Hin2. rewrite Hs' in Hs2. simplify_eq. cbn in Hin2.
    rewrite drop_insert_lt in Hin2 by lia. apply list_elem_of_bind in Hin2 as (s & Hp & Hins).
    destruct (proj1 (waits_live _ _ _ _ _ (gi_q _ _ _ _ _ Hg) p)) as [m Hm]; [|congruence].
    rewrite !elem_of_app. right. right. apply list_elem_of_bind. exists s. split; [done|].
    eapply in_all_subs; [done|]. rewrite <- (take_drop (S k) (si_subscriptionList svc)). set_solver.
Qed.

Definition struct_count g : Z := Z.of_nat (size (eh_structs (g_heap g))).

Lemma post_inv_stored po hnd i k running queued' lost lost' lost2 dead dead' dead2 g0 g g' pool :
  same_frame (set_pool (g_pool g) g0) g -> same_frame (set_pool pool g) g' ->
  unmoved running g0 g -> unmoved running g g' -> pool_holds pool queued' -> dead ⊆ dead' -> dead' ⊆ dead2 ->
  ginv (Some (po_count po)) (running ++ queued') lost2 dead2 g' ->
  alive (po_count po) hnd i (S k) g' ->
  (always_room Lucky -> lost' = lost /\ dead' = dead) ->
  (always_room Lucky -> lost2 = lost' /\ dead2 = dead') ->
  post_inv Lucky po hnd i (S k) running lost dead g0 g'.
Proof.
  intros [S1 _ L1] [S2 P2 L2] U1 U2 Hp Hd1 Hd2 Hg' Ha R1 R2. split; [|split; [done|split]].
  - split; [exact (eq_trans S2 S1)|done|exact (eq_trans L2 L1)].
  - by eapply unmoved_trans.
  - exists queued', lost2, dead2. rewrite P2. split_and!; [done|done|set_solver|].
    intros Hr. destruct (R1 Hr), (R2 Hr). split; congruence.
Qed.

(** The clock is no part of what is stored. *)
Lemma put_sub_clock hnd i k sub l h pool clk g svc :
  service g hnd i = Some svc ->
  put_sub hnd i k (set_sub_outgoing l sub) (set_heap h (set_pool pool (set_gclock clk g))) =
  option_map (set_gclock clk) (put_sub hnd i k (with_queue l sub) (set_heap h (set_pool pool g))).
Proof.
  intros Hs. unfold put_sub.
  change (service (set_heap h (set_pool pool (set_gclock clk g))) hnd i) with (service g hnd i).
  change (service (set_heap h (set_pool pool g)) hnd i) with (service g hnd i). rewrite Hs. cbn.
  f_equal. unfold put_service. cbn. by destruct (HandleTable (g_api g) !! hnd).
Qed.

(** The event is stored, and waits in the pool when the queue was empty and the
    pool [accepted] it. *)
Lemma store_posted po hnd i k running queued lost lost1 dead dead1 g0 g svc sub p h2 l h3 n t clk
    (accepted : bool) pool queued' job :
  posting_ok po hnd i g0 -> static g = static g0 ->
  same_frame (set_pool (g_pool g) g0) g -> unmoved running g0 g ->
  ginv (Some (po_count po)) (running ++ queued) lost1 dead1 g -> dead ⊆ dead1 ->
  (always_room Lucky -> lost1 = lost /\ dead1 = dead) ->
  service g hnd i = Some svc -> si_subscriptionList svc !! k = Some sub ->
  n = notify_of po (sub_sid sub) t -> sid_ok (sub_sid sub) -> sub_active sub <> 0 ->
  prepared (Some (po_count po)) (running ++ queued) lost1 sub (g_heap g) n p h2 l h3 ->
  (size (eh_structs h3) <= S (size (eh_structs (g_heap g))))%nat ->
  job_arg job = Some p -> (l <> [] -> job = event_job p) -> pool_holds pool queued' ->
  queued' = (if decide (l = []) then if accepted then [p] else [] else []) ++ queued ->
  (always_room Lucky -> l <> [] \/ accepted = true) ->
  exists g', put_sub hnd i k (set_sub_outgoing (l ++ [job]) sub)
      (set_heap h3 (set_pool pool (set_gclock clk g))) = Some g' /\
    post_inv Lucky po hnd i (S k) running lost dead g0 g' /\
    struct_count g' <= struct_count g + 1 /\
    (exists svc', service g' hnd i = Some svc' /\
       length (si_subscriptionList svc') = length (si_subscriptionList svc)).
Proof.
  intros Hpo Hst Hframe Hum Hg Hd Hr Hs Hk En Hsid Hact Hprep Hsize Hj Hje Hph -> Hroom.
  rewrite (put_sub_clock _ _ _ _ _ _ _ _ _ _ Hs).
  destruct (store_event po hnd i k running queued lost1 dead1 g g0 svc sub p h2 l h3 n t
    accepted pool job Hpo Hst Hg Hs Hk En Hsid Hprep Hj Hje Hact)
    as (g' & E & Hg' & Hf & Hh & Hsvc & Hal).
  rewrite E. cbn. exists (set_gclock clk g'). split; [done|].
  split; [|split; [unfold struct_count; cbn; rewrite Hh; lia|done]].
  eapply (post_inv_stored po hnd i k running); [exact Hframe| |exact Hum| |exact Hph|exact Hd| | | |exact Hr|].
  - destruct Hf. by split.
  - eapply (unmoved_new p); [|apply Hprep|eapply (ginv_data _ _ _ _ g'); [done|exact Hg']].
    cbn. rewrite Hh. intros q m Hm%(pr_back _ _ _ _ _ _ _ _ _ _ Hprep) Hne.
    rewrite (pr_new _ _ _ _ _ _ _ _ _ _ Hprep) in Hm. by rewrite lookup_insert_ne in Hm by done.
  - instantiate (1 := (if decide (l = []) then if accepted then dead1 else sub_sid sub :: dead1 else dead1)).
    repeat case_match; set_solver.
  - eapply (ginv_data _ _ _ _ g'); [done|exact Hg'].
  - destruct Hal as [?|?]; [by left|by right].
  - intros [Hl| ->]%Hroom; [by rewrite !decide_False|]. by destruct (decide (l = [])).
Qed.

Lemma post_event_runs po hnd i k running lost dead g0 g svc sub :
  posting_ok po hnd i g0 -> service g hnd i = Some svc ->
  si_subscriptionList svc !! k = Some sub -> sub_active sub <> 0 ->
  post_inv Lucky po hnd i k running lost dead g0 g -> struct_count g < INT_MAX ->
  runs Lucky (post_event EQMaxLen EQMaxAge po hnd i k g) (fun '(ret, g') =>
    post_inv Lucky po hnd i (S k) running lost dead g0 g' /\
    (always_room Lucky -> ret = None) /\ struct_count g' <= struct_count g + 1 /\
    (exists svc', service g' hnd i = Some svc' /\
       length (si_subscriptionList svc') = length (si_subscriptionList svc))).
Proof.
  intros Hpo Hs Hk Hact (Hframe & Halive & Hum & queued & lost1 & dead1 & Hpool & Hg & Hd & Hr) Hsz.
  pose proof (list_elem_of_lookup_2 _ _ _ Hk) as Hin.
  assert (sid_ok (sub_sid sub)) as Hsid.
  { pose proof (q_subs _ _ _ _ _ (gi_q _ _ _ _ _ Hg)) as Hok. rewrite Forall_forall in Hok.
    destruct (Hok sub); [by eapply in_all_subs|done]. }
  assert (static g = static g0) as Hst by by destruct Hframe.
  unfold post_event. mstep. eapply runs_liftO; [exact Hs|]. mstep. eapply runs_liftO; [exact Hk|].
  mstep. mstep; [|done]. cbn [negb].
  set (ctime := default 0 (head (g_clock g))). set (now := default 0 (head (tail (g_clock g)))).
  set (n := notify_of po (sub_sid sub) ctime).
  destruct (all_subs_split g hnd i svc Hs) as (rest & Hall & _).
  pose proof (gi_q _ _ _ _ _ Hg) as Hq. rewrite Hall, (delete_Permutation _ _ _ Hk) in Hq.
  destruct (prepare_spec (Some (po_count po)) (running ++ queued) lost1 sub _ (g_heap g) n now Hq)
    as (h1 & p & h2 & l & h3 & E1 & E2 & E3 & Hsize & Hprep).
  { by apply (alive_counted _ _ _ _ _ _ _ _ _ Halive Hg). }
  { unfold n. by rewrite notify_of_sid. }
  { exact Hsz. }
  mstep. eapply runs_liftO; [exact E1|]. cbn [time].
  fold ctime n. rewrite E2. cbn [time g_clock set_gclock]. fold now.
  mstep. eapply runs_liftO; [exact E3|].
  cbv beta iota. mstep. mstep; [|done]. cbn [negb]. mstep. mstep; [|done].
  change (set_gclock ?c1 (set_gclock ?c2 g)) with (set_gclock c1 g).
  set (clk := tail (tail (g_clock g))).
  pose proof (fun accepted pool queued' job => store_posted po hnd i k running queued lost lost1 dead dead1
    g0 g svc sub p h2 l h3 n ctime clk accepted pool queued' job Hpo Hst Hframe Hum Hg Hd Hr Hs Hk eq_refl
    Hsid Hact Hprep Hsize) as Hstore.
  destruct (event_job_spec p) as (Hj & _ & Hf & _).
  destruct (decide (l = [])) as [El|Hne].
  - replace (zlen (l ++ [event_job p]) =? 1) with true by (by rewrite El).
    mstep. eapply runs_mono; [by apply (add_job_runs Lucky _ queued _ p Hpool Hf Hj)|].
    intros [rc pool'] (acc & -> & Hroom & Hph).
    destruct (rc =? 0) eqn:Erc; cbn [negb].
    + destruct (Hstore true pool' (p :: queued) (mark_stale (event_job p))) as (g' & E & ? & ? & ?);
        [done|done|done|done|by right|].
      mstep. rewrite El in E. eapply runs_liftO; [exact E|]. mstep. by split_and!.
    + destruct (Hstore false pool' queued (event_job p)) as (g' & E & ? & ? & ?);
        [done|done|done|done|intros Hr'; by apply Hroom in Hr'|].
      mstep. eapply runs_liftO; [exact E|]. mstep. split; [done|].
      split; [intros Hr'; by apply Hroom in Hr'|]. by split.
  - replace (zlen (l ++ [event_job p]) =? 1) with false
      by (symmetry; apply Z.eqb_neq; destruct l; [done|]; rewrite zlen_app, !zlen_cons, zlen_nil;
          pose proof (zlen_nonneg l); lia).
    destruct (Hstore true (g_pool g) queued (event_job p)) as (g' & E & ? & ? & ?);
      [done|done|done|done|by left|].
    mstep. eapply runs_liftO; [exact E|]. mstep. by split_and!.
Qed.

Lemma alive_mono rc hnd i pos pos' g :
  alive rc hnd i pos g -> (pos <= pos')%nat -> alive rc hnd i pos' g.
Proof.
  intros [?|(p & n & Hp & Hrc & Hni)] Hle; [by left|right]. exists p, n.
  split; [done|]. split; [done|]. intros svc Hs Hin. apply (Hni svc Hs).
  replace pos' with (pos + (pos' - pos))%nat in Hin by lia. rewrite <- drop_drop in Hin.
  apply list_elem_of_bind in Hin as (s & Hp' & Hin). apply list_elem_of_bind. exists s.
  split; [done|]. rewrite <- (take_drop (pos' - pos) (drop pos _)). set_solver.
Qed.

Lemma post_inv_moved po hnd i pos k' running lost dead g0 g g' svc k
    (Hm : moved_on hnd i pos svc g k g') :
  service g hnd i = Some svc -> post_inv Lucky po hnd i pos running lost dead g0 g ->
  (forall queued lost' dead', ginv (Some (po_count po)) (running ++ queued) lost' dead' g ->
     ginv (Some (po_count po)) (running ++ queued) lost' dead' g') ->
  (pos <= k')%nat -> post_inv Lucky po hnd i k' running lost dead g0 g'.
Proof.
  intros Hs (Hf & Ha & Hu & queued & lost' & dead' & Hp & Hg & Hd & Hr) Himp Hle.
  destruct (mo_frame _ _ _ _ _ _ _ Hm) as [S2 P2 L2]. destruct Hf as [S1 _ L1].
  split; [split; [exact (eq_trans S2 S1)|done|exact (eq_trans L2 L1)]|].
  split; [by eapply alive_moved|]. split.
  { eapply unmoved_trans; [exact Hu|].
    eapply unmoved_back; [exact (mo_back _ _ _ _ _ _ _ Hm)|by apply Himp]. }
  exists queued, lost', dead'. rewrite P2. auto.
Qed.

Lemma post_loop_runs fuel po hnd i finger running lost dead g0 g svc :
  posting_ok po hnd i g0 -> service g hnd i = Some svc ->
  (exists k, post_inv Lucky po hnd i k running lost dead g0 g /\
     (finger = None \/ finger = Some k /\
        (exists sub, si_subscriptionList svc !! k = Some sub /\ sub_active sub <> 0) /\
        (length (si_subscriptionList svc) - k < fuel)%nat /\
        struct_count g + Z.of_nat (length (si_subscriptionList svc) - k) <= INT_MAX)) ->
  (0 < fuel)%nat ->
  runs Lucky (post_loop EQMaxLen EQMaxAge fuel po hnd i finger g) (fun '(ret, g') =>
    (exists k, post_inv Lucky po hnd i k running lost dead g0 g') /\
    (always_room Lucky -> ret = GENA_SUCCESS)).
Proof.
  intros Hpo. revert finger g svc. induction fuel as [|fuel IH]; intros finger g svc Hs; [lia|].
  intros (k & Hinv & Hfin) _. cbn [post_loop]. destruct finger as [k0|].
  2:{ mstep. split; [by exists k|done]. }
  destruct Hfin as [|([= ->] & (sub & Hsub & Hact) & Hfuel & Hsz)]; [done|].
  apply lookup_lt_Some in Hsub as Hk.
  mstep. eapply runs_mono; [apply (post_event_runs po hnd i k running lost dead g0 g svc sub);
    [done..|lia]|].
  intros [ret g1] (Hinv1 & Hret & Hsz1 & svc1 & Hs1 & Hlen1). destruct ret as [ret|].
  { mstep. split; [by exists (S k)|]. intros Hr. by apply Hret in Hr. }
  pose proof Hinv1 as (_ & _ & _ & queued1 & lost1 & dead1 & _ & Hg1 & _).
  destruct (next_sub_spec _ _ _ _ g1 hnd i k svc1 Hg1 Hs1) as (k' & g2 & E & _ & Hm); [lia|].
  mstep. eapply runs_liftO; [exact E|].
  destruct (mo_subs _ _ _ _ _ _ _ Hm) as (svc2 & rest & Hs2 & Hsubs2 & _ & Hlen2 & Hk').
  assert (struct_count g2 <= struct_count g1) as Hsz2.
  { unfold struct_count. apply inj_le, map_subseteq_size, map_subseteq_spec.
    apply (mo_back _ _ _ _ _ _ _ Hm). }
  apply (IH k' g2 svc2 Hs2); [|lia]. exists (default (S k) k').
  assert (forall k2, (S k <= k2)%nat -> post_inv Lucky po hnd i k2 running lost dead g0 g2) as Hinv2.
  { intros k2 Hle. eapply (post_inv_moved po hnd i (S k) k2); [exact Hm|exact Hs1|exact Hinv1| |done].
    intros q l d Hgq. destruct (next_sub_spec _ _ _ _ g1 hnd i k svc1 Hgq Hs1) as (? & ? & E2 & Hg2 & _);
      [lia|]. rewrite E in E2. by simplify_eq. }
  destruct k' as [k'|]; cbn; [|split; [by apply Hinv2|by left]].
  destruct (Hk' k' eq_refl) as [Hle (s & Hs' & Hact')]. apply lookup_lt_Some in Hs' as Hlt.
  split; [by apply Hinv2|]. right. split; [done|]. split; [by exists s|]. lia.
Qed.

(** ** The counter of the posting *)

Lemma qinv_counts x x' busy lost subs h h' :
  qinv x busy lost subs h -> eh_structs h' = eh_structs h -> eh_ok x' h' ->
  qinv x' busy lost subs h'.
Proof.
  intros [Hok Hsm Ho Hn Hs He Hh] E Hok'. split; rewrite ?E; try done.
  - unfold eh_small in *. by rewrite E.
  - eapply Forall_impl; [exact Hs|]. intros s [? ? ? Hev]. split; rewrite ?E; done.
Qed.

Lemma ginv_counts x x' busy lost dead g g' :
  ginv x busy lost dead g -> g_api g' = g_api g ->
  eh_structs (g_heap g') = eh_structs (g_heap g) -> eh_ok x' (g_heap g') ->
  ginv x' busy lost dead g'.
Proof.
  intros [Hq Hw Hg] Ha Hh Hok. split.
  - unfold all_subs, services. rewrite Ha. by eapply qinv_counts.
  - unfold wf, services. by rewrite Ha.
  - intros hnd i svc sub. unfold service. rewrite Ha. intros Hs Hin.
    destruct (Hg hnd i svc sub Hs Hin) as [G1 G2]. split; rewrite ?Hh; [done|].
    intros p n Hp Hn Hsid. unfold event_home, service. rewrite Ha. by apply (G2 p n).
Qed.

Lemma refs_counts h cs' rc : refs (MkEH (eh_structs h) cs') rc = refs h rc.
Proof. done. Qed.

Lemma new_count_spec busy lost dead g :
  ginv None busy lost dead g ->
  exists rc h, new_count (g_heap g) = (rc, h) /\ eh_structs h = eh_structs (g_heap g) /\
    eh_counts (g_heap g) !! rc = None /\ eh_counts h !! rc = Some 0 /\
    ginv (Some rc) busy lost dead (set_heap h g).
Proof.
  intros Hg. set (rc := fresh (dom (eh_counts (g_heap g)))).
  assert (eh_counts (g_heap g) !! rc = None) as Hrc by apply not_elem_of_dom, is_fresh.
  exists rc, (MkEH (eh_structs (g_heap g)) (<[rc := 0]> (eh_counts (g_heap g)))).
  split; [done|]. split; [done|]. split; [done|]. split; [apply lookup_insert_eq|].
  eapply ginv_counts; [exact Hg|done|done|]. pose proof (q_ok _ _ _ _ _ (gi_q _ _ _ _ _ Hg)) as Hok.
  intros rc'. specialize (Hok rc'). cbn. rewrite refs_counts.
  destruct (decide (rc' = rc)) as [->|].
  - rewrite lookup_insert_eq. rewrite Hrc in Hok. split; [done|by right].
  - rewrite lookup_insert_ne by done. destruct (eh_counts (g_heap g) !! rc'); [|done].
    destruct Hok as [? [?|?]]; [|done]. auto.
Qed.

(** Releasing the counter if nothing refers to it. *)
Lemma settle_counts rc busy lost dead g c :
  ginv (Some rc) busy lost dead g -> eh_counts (g_heap g) !! rc = Some c ->
  ginv None busy lost dead
    (if c =? 0 then set_heap (MkEH (eh_structs (g_heap g)) (delete rc (eh_counts (g_heap g)))) g else g).
Proof.
  intros Hg Hc. pose proof (q_ok _ _ _ _ _ (gi_q _ _ _ _ _ Hg)) as Hok.
  destruct (Z.eqb_spec c 0) as [->|Hne].
  - eapply ginv_counts; [exact Hg|done|done|]. intros rc'. specialize (Hok rc'). cbn.
    rewrite refs_counts. destruct (decide (rc' = rc)) as [->|].
    + rewrite lookup_delete_eq. rewrite Hc in Hok. destruct Hok as [<- _]. done.
    + rewrite lookup_delete_ne by done. destruct (eh_counts (g_heap g) !! rc'); [|done].
      destruct Hok as [? [?|[= ->]]]; [auto|done].
  - eapply ginv_counts; [exact Hg|done|done|]. intros rc'. specialize (Hok rc').
    destruct (eh_counts (g_heap g) !! rc') as [c'|] eqn:E; [|done].
    destruct Hok as [Hr [?|[= ->]]]; [by auto|]. simplify_eq. split; [done|]. left.
    pose proof (refs_le (g_heap g) rc'). lia.
Qed.

(** ** Posting to all subscriptions *)

Lemma runs_post_exit ret rc running lost dead g0 g lost' dead' queued :
  ginv (Some rc) (running ++ queued) lost' dead' g -> pool_holds (g_pool g) queued ->
  is_Some (eh_counts (g_heap g) !! rc) -> static g = static g0 -> g_locked g = true ->
  unmoved running g0 g -> dead ⊆ dead' -> (always_room Lucky -> lost' = lost /\ dead' = dead) ->
  runs Lucky (post_exit ret (Some rc) g)
    (fun '(_, g') => posted running lost dead g0 g').
Proof.
  intros Hg Hp [c Hc] Hst Hl Hu Hd Hr. unfold post_exit. mstep.
  eapply runs_liftO; [rewrite Hc; done|].
  pose proof (settle_counts _ _ _ _ _ _ Hg Hc) as Hg'. set (g1 := if c =? 0 then _ else g) in *.
  assert (g_locked g1 = true /\ static g1 = static g /\ g_pool g1 = g_pool g) as (Hl1 & Hst1 & Hp1)
    by (unfold g1; by destruct (c =? 0)).
  unfold HandleUnlock. rewrite Hl1. mstep. eapply runs_liftO; [done|]. mstep.
  split; [|intros q m Hq Hm; cbn; unfold g1; destruct (c =? 0); exact (Hu q m Hq Hm)].
  split; [by rewrite <- Hst, <- Hst1|]. split; [done|]. exists queued, lost', dead'. cbn.
  rewrite Hp1. split; [done|]. split; [by apply (ginv_data _ _ _ _ g1)|]. done.
Qed.

Lemma home_of_posting g hnd info i po :
  wf g -> GetHandleInfo hnd (g_api g) = (HND_DEVICE, Some info) ->
  FindServiceId (Some (hi_ServiceTable info)) (po_servId po) (po_UDN po) = Some (Some i) ->
  po_device_handle po = hnd -> posting_ok po hnd i g.
Proof.
  intros Hw Hi Hf Hd. split; [done|]. intros sid t. split; [done|].
  exists info. split; [done|]. split; [done|]. intros svc (info' & Hi' & Hs)%service_info_at.
  apply GetHandleInfo_some in Hi as [Hi _]. assert (info' = info) as -> by congruence.
  pose proof (wf_handle _ _ _ Hw Hi') as Hall. rewrite Forall_forall in Hall.
  by destruct (Hall svc) as (_ & _ & ?); [by eapply list_elem_of_lookup_2|].
Qed.

Lemma c_str_idem l : c_str (c_str l) = c_str l.
Proof. apply c_str_id, c_str_no_nul. Qed.

Lemma FindServiceId_c_str t a b : FindServiceId t (c_str a) (c_str b) = FindServiceId t a b.
Proof.
  destruct t as [t|]; [|done]. rewrite !FindServiceId_key.
  induction (service_key <$> st_serviceList t) as [|k l IH]; cbn; [done|].
  assert (forall s d, strcmp_dom (c_str s) d = strcmp_dom s d) as Es.
  { intros s d. unfold strcmp_dom, strcmp_eq. by rewrite c_str_idem. }
  rewrite !Es, IH. done.
Qed.

Lemma subs_bound g hnd i svc :
  service g hnd i = Some svc -> (length (si_subscriptionList svc) <= length (all_subs g))%nat.
Proof.
  intros (rest & Hp & _)%all_subs_split. rewrite Hp, length_app. lia.
Qed.

Lemma genaNotifyAllCommon_runs hnd UDN servId s running queued lost dead g :
  ginv None (running ++ queued) lost dead g -> pool_holds (g_pool g) queued ->
  g_locked g = false -> struct_count g + Z.of_nat (length (all_subs g)) <= INT_MAX ->
  runs Lucky (genaNotifyAllCommon EQMaxLen EQMaxAge hnd UDN servId (DStr s) g)
    (fun '(_, g') => posted running lost dead g g').
Proof.
  intros Hg Hp Hl Hsz. unfold genaNotifyAllCommon. mstep. mstep; [cbn [negb]|done].
  destruct (new_count_spec _ _ _ _ Hg) as (rc & h & -> & Hh & Hnone & Hzero & Hg1).
  cbv beta iota. mstep. mstep; [cbn [negb]|done]. mstep. mstep; [cbn [negb]|done].
  mstep. eapply runs_mono; [apply AllocGenaHeaders_runs|]. intros r [[headers ->]|]; [|done].
  mstep. eapply runs_liftO; [done|]. unfold HandleLock. cbn [g_locked set_heap]. rewrite Hl.
  mstep. mstep. set (g1 := set_locked true (set_heap h g)).
  assert (ginv (Some rc) (running ++ queued) lost dead g1) as Hg2
    by (by apply (ginv_data _ _ _ _ (set_heap h g))).
  assert (forall ret, runs Lucky (post_exit ret (Some rc) g1)
    (fun '(_, g') => posted running lost dead g g')) as Hexit.
  { intros ret. eapply (runs_post_exit _ _ running lost dead g g1 lost dead queued); try done;
      by intros q m _; cbn; rewrite Hh. }
  destruct (GetHandleInfo hnd (g_api g1)) as [t [info|]] eqn:Ei; [|by destruct t].
  destruct t; [apply Hexit|apply Hexit|].
  apply GetHandleInfo_some in Ei as Hi. destruct Hi as [Hi _].
  destruct (FindServiceId_spec (hi_ServiceTable info) servId UDN) as (r & Er & Hr);
    [eapply wf_handle; [apply Hg2|exact Hi]|].
  mstep. eapply runs_liftO; [exact Er|]. destruct r as [i|]; [|apply Hexit].
  destruct (Hr i eq_refl) as [svc Hsvc].
  assert (service g1 hnd i = Some svc) as Hs by (unfold service; by rewrite Hi).
  mstep. eapply runs_liftO; [exact Hs|].
  destruct (first_sub_spec _ _ _ _ g1 hnd i svc Hg2 Hs) as (k & g2 & E2 & _ & Hm).
  mstep. eapply runs_liftO; [exact E2|].
  set (po := MkPosting _ _ _ _ _ _).
  assert (posting_ok po hnd i g1) as Hpo.
  { eapply home_of_posting; [apply Hg2|exact Ei| |done].
    change (po_servId po) with (c_str servId). change (po_UDN po) with (c_str UDN).
    by rewrite FindServiceId_c_str. }
  assert (post_inv Lucky po hnd i 0 running lost dead g1 g1) as Hinv.
  { split; [by split|]. split; [by left|]. split; [by intros ? ? _|]. exists queued, lost, dead. by split_and!. }
  destruct (mo_subs _ _ _ _ _ _ _ Hm) as (svc2 & rest & Hs2 & _ & _ & Hlen & Hk).
  mstep. eapply runs_mono; [apply (post_loop_runs _ po hnd i k running lost dead g1 g2 svc2); [done|done| |lia]|].
  - exists (default 0%nat k). split.
    + eapply (post_inv_moved po hnd i 0); [exact Hm|exact Hs|exact Hinv| |lia].
      intros q l d Hgq. destruct (first_sub_spec _ _ _ _ g1 hnd i svc Hgq Hs) as (? & ? & E3 & Hg3 & _).
      rewrite E2 in E3. by simplify_eq.
    + destruct k as [k|]; [right; cbn|by left]. split; [done|].
      destruct (Hk k eq_refl) as [_ (s' & Hs' & Hact')]. split; [by exists s'|]. apply lookup_lt_Some in Hs' as Hlt.
      pose proof (subs_bound g hnd i svc) as Hb. specialize (Hb Hs).
      assert (struct_count g2 <= struct_count g) as Hc.
      { unfold struct_count. rewrite <- Hh. apply inj_le, map_subseteq_size, map_subseteq_spec.
        apply (mo_back _ _ _ _ _ _ _ Hm). }
      lia.
  - intros [ret g3] [(k3 & [S3 _ L3] & Hal & Hu & queued' & lost' & dead' & Hp' & Hg3 & Hd & Hr3) _].
    eapply (runs_post_exit ret rc running lost dead g g3 lost' dead' queued'); try done.
    + by apply (alive_counted _ _ _ _ _ _ _ _ _ Hal Hg3).
    + intros q m Hq Hm2. apply Hu; [done|]. cbn. by rewrite Hh.
Qed.

Lemma genaNotifyAll_runs hnd UDN servId vars running queued lost dead g :
  ginv None (running ++ queued) lost dead g -> pool_holds (g_pool g) queued ->
  g_locked g = false -> struct_count g + Z.of_nat (length (all_subs g)) <= INT_MAX ->
  runs Lucky (genaNotifyAll EQMaxLen EQMaxAge hnd UDN servId vars g)
    (fun '(_, g') => posted running lost dead g g').
Proof.
  intros Hg Hp Hl Hsz. unfold genaNotifyAll. mstep.
  eapply runs_mono; [apply GeneratePropertySet_runs|].
  intros [rc out] [[-> ->]|[? _]]; [cbn [Z.eqb negb]|done]. by eapply genaNotifyAllCommon_runs.
Qed.

(** ** Posting the first event of a subscription *)

Lemma put_active x busy lost dead g hnd i k svc sub :
  ginv x busy lost dead g -> service g hnd i = Some svc ->
  si_subscriptionList svc !! k = Some sub -> sub_active sub = 0 ->
  exists g', put_sub hnd i k (set_sub_active 1 sub) g = Some g' /\ ginv x busy lost dead g' /\
    same_frame g g' /\ g_heap g' = g_heap g /\
    exists svc', service g' hnd i = Some svc' /\
      si_subscriptionList svc' !! k = Some (set_sub_active 1 sub).
Proof.
  intros Hg Hs Hk Hz. apply lookup_lt_Some in Hk as Hlt.
  pose proof (list_elem_of_lookup_2 _ _ _ Hk) as Hin.
  destruct (gi_good _ _ _ _ _ Hg hnd i svc sub Hs Hin) as [G1 G2].
  pose proof (q_subs _ _ _ _ _ (gi_q _ _ _ _ _ Hg)) as Hok. rewrite Forall_forall in Hok.
  assert (sub_outgoing sub = []) as Ho by (destruct (Hok sub); [by eapply in_all_subs|auto]).
  destruct (put_posted x busy busy lost lost dead dead g hnd i k svc sub (set_sub_active 1 sub)
    (g_heap g) (g_pool g) Hg Hs Hk) as (g' & E & Hg' & Hf & Hh & Hs'); try done.
  - intros R HR. by apply (qinv_same_queue _ _ _ sub).
  - by left.
  - exists g'. split; [by destruct g|]. split; [done|]. split; [by destruct g|]. split; [done|].
    eexists. split; [exact Hs'|]. cbn. by apply list_lookup_insert_eq.
Qed.

Lemma release_finished running lost dead g0 g lost' dead' queued :
  ginv None (running ++ queued) lost' dead' g -> pool_holds (g_pool g) queued ->
  static g = static g0 -> g_locked g = true -> unmoved running g0 g -> dead ⊆ dead' ->
  (always_room Lucky -> lost' = lost /\ dead' = dead) ->
  exists g', HandleUnlock g = Some g' /\ posted running lost dead g0 g'.
Proof.
  intros Hg Hp Hst Hl Hu Hd Hr. unfold HandleUnlock. rewrite Hl. eexists. split; [done|].
  split; [|done]. split; [done|]. split; [done|]. exists queued, lost', dead'. split; [done|].
  split; [by apply (ginv_data _ _ _ _ g)|done].
Qed.

Lemma init_fails ret rc running queued lost dead g0 g :
  ginv (Some rc) (running ++ queued) lost dead g -> eh_counts (g_heap g) !! rc = Some 0 ->
  pool_holds (g_pool g) queued -> static g = static g0 -> g_locked g = true ->
  unmoved running g0 g -> ret <> 0 ->
  runs Lucky (init_exit ret None (Some rc) g) (fun '(_, g') => posted running lost dead g0 g').
Proof.
  intros Hg Hc Hp Hst Hl Hu Hret. unfold init_exit.
  replace (ret =? GENA_SUCCESS) with false by (symmetry; by apply Z.eqb_neq).
  mstep. eapply runs_liftO; [cbn; rewrite Hc; done|].
  pose proof (settle_counts _ _ _ _ _ _ Hg Hc) as Hg'. cbn [Z.eqb] in Hg'.
  set (g1 := set_heap _ g) in *.
  destruct (release_finished running lost dead g0 g1 lost dead queued) as (g2 & E & ?); try done.
  mstep. eapply runs_liftO; [exact E|]. by mstep.
Qed.

(** The failed posting frees its structure and its counter by itself. *)
Lemma init_refused ret p n rc running queued lost dead g0 g :
  ginv (Some rc) (running ++ queued) (p :: lost) dead g ->
  eh_structs (g_heap g) !! p = Some n -> nts_reference_count n = rc ->
  eh_counts (g_heap g) !! rc = Some 1 ->
  pool_holds (g_pool g) queued -> static g = static g0 -> g_locked g = true ->
  unmoved running g0 g -> ret <> 0 ->
  runs Lucky (init_exit ret (Some p) (Some rc) g)
    (fun '(_, g') => posted running lost dead g0 g').
Proof.
  intros Hg Hn Hrc Hc Hp Hst Hl Hu Hret. unfold init_exit.
  replace (ret =? GENA_SUCCESS) with false by (symmetry; by apply Z.eqb_neq).
  destruct (drop_event_spec (Some rc) p n (running ++ queued) lost dead g false Hg Hl Hn)
    as (g1 & E & Hg1 & Ha & Hp1 & Hl1 & Hfew); [done|].
  assert (unmoved running g0 g1) as Hu1.
  { eapply unmoved_trans; [exact Hu|]. eapply unmoved_back; [|exact Hg1]. intros q m Hm. by apply Hfew. }
  unfold drop_event, free_notify, free_notify_struct in E. rewrite Hn in E.
  cbn [mbind option_bind] in E. rewrite Hrc, Hc in E. cbn [mbind option_bind] in E.
  change (to_int (1 - 1) =? 0) with true in E. unfold HandleUnlock in E. cbn in E. rewrite Hl in E. simplify_eq.
  mstep. eapply runs_liftO; [cbn; rewrite Hn; cbn; rewrite Hc; done|].
  mstep. unfold HandleUnlock. cbn [g_locked set_heap]. rewrite Hl.
  eapply runs_liftO; [done|]. mstep. split; [|exact Hu1]. split; [done|]. split; [done|].
  exists queued, lost, dead. split; [done|]. split; [|done].
  eapply ginv_counts; [exact Hg1|done|done|].
  pose proof (q_ok _ _ _ _ _ (gi_q _ _ _ _ _ Hg1)) as Hok. intros rc'. specialize (Hok rc').
  cbn in *. destruct (decide (rc' = nts_reference_count n)) as [->|Hne].
  - rewrite lookup_delete_eq in Hok |- *. exact Hok.
  - rewrite lookup_delete_ne in Hok |- * by done. destruct (eh_counts (g_heap g) !! rc'); [|done].
    destruct Hok as [? [?|Hx]]; [by auto|congruence].
Qed.

(** A first event for the subscription is a new structure with the one reference. *)
Lemma init_new rc busy lost g n p h R :
  sid_ok (nts_sid n) -> nts_reference_count n = rc -> eh_counts (g_heap g) !! rc = Some 0 ->
  (h1 ← add_ref rc (g_heap g); Some (new_notify n h1)) = Some (p, h) -> struct_count g < INT_MAX ->
  qinv (Some rc) busy lost R (g_heap g) ->
  eh_structs (g_heap g) !! p = None /\ eh_structs h = <[p := n]> (eh_structs (g_heap g)) /\
  eh_counts h !! rc = Some 1 /\ qinv (Some rc) busy (p :: lost) R h.
Proof.
  intros Hsid Hnrc Hc Enew Hsz HR. destruct (qinv_new _ _ _ _ _ n HR) as (h1 & p' & h2 & E1 & E2 & ? & ? & ?).
  - done.
  - rewrite Hnrc. by eexists.
  - exact Hsz.
  - rewrite Hnrc in E1. rewrite E1 in Enew. cbn [mbind option_bind] in Enew. rewrite E2 in Enew.
    simplify_eq. do 2 (split; [done|]). split; [|done].
    unfold add_ref in E1. rewrite Hc in E1. cbn in E1. unfold new_notify in E2.
    simplify_eq. cbn. by rewrite lookup_insert_eq.
Qed.

(** The subscription was found and is not active yet. *)
Lemma init_posts po rc hnd i k svc sub running queued lost dead g0 g n p h :
  posting_ok po hnd i g0 -> po_count po = rc -> n = notify_of po (sub_sid sub) (nts_ctime n) ->
  ginv (Some rc) (running ++ queued) lost dead g -> eh_counts (g_heap g) !! rc = Some 0 ->
  service g hnd i = Some svc -> si_subscriptionList svc !! k = Some sub ->
  sub_outgoing sub = [] -> sub_active sub <> 0 ->
  pool_holds (g_pool g) queued -> static g = static g0 -> g_locked g = true -> unmoved running g0 g ->
  (h1 ← add_ref rc (g_heap g); Some (new_notify n h1)) = Some (p, h) ->
  struct_count g < INT_MAX ->
  runs Lucky
    ('(ret, pool) ← sp_add (g_pool (set_heap h g)) (event_job p);
     let g := set_pool pool (set_heap h g) in
     if negb (ret =? 0) then init_exit (pool_status ret) (Some p) (Some rc) g
     else
       node ← malloc_ok;
       if node : bool then
         let outgoing := sub_outgoing sub ++ [mark_stale (event_job p)] in
         g ← liftO (put_sub hnd i k (set_sub_outgoing outgoing sub) g);
         init_exit GENA_SUCCESS (Some p) (Some rc) g
       else init_exit UPNP_E_OUTOF_MEMORY (Some p) (Some rc) g)
    (fun '(_, g') => posted running lost dead g0 g').
Proof.
  intros Hpo Hrc En Hg Hc Hs Hk Ho Hact Hp Hst Hl Hu Enew Hsz.
  pose proof (list_elem_of_lookup_2 _ _ _ Hk) as Hin.
  pose proof (q_subs _ _ _ _ _ (gi_q _ _ _ _ _ Hg)) as Hok. rewrite Forall_forall in Hok.
  assert (sid_ok (sub_sid sub)) as Hsid by (destruct (Hok sub); [by eapply in_all_subs|done]).
  assert (nts_reference_count n = rc) as Hnrc by (rewrite En; done).
  assert (nts_sid n = sub_sid sub) as Hns by (rewrite En; by apply notify_of_sid).
  assert (sid_ok (nts_sid n)) as Hnsid by by rewrite Hns.
  pose proof (fun R => init_new rc (running ++ queued) lost g n p h R Hnsid Hnrc Hc Enew Hsz) as Hnew.
  pose proof (gi_q _ _ _ _ _ Hg) as Hq. destruct (Hnew _ Hq) as (Hfr & Hh & Hc1 & Hqn).
  assert (forall q m, eh_structs h !! q = Some m -> nts_sid m <> sub_sid sub ->
    eh_structs (g_heap g) !! q = Some m) as Hback.
  { intros q m Hm Hne. rewrite Hh in Hm. apply lookup_insert_Some in Hm as [[<- <-]|[_ ?]]; [|done].
    congruence. }
  assert (forall q m, eh_structs (g_heap g) !! q = Some m -> eh_structs h !! q = Some m) as Hkept.
  { intros q m Hm. rewrite Hh, lookup_insert_ne; [done|]. intros <-. congruence. }
  destruct (event_job_spec p) as (Hj & _ & Hf & _).
  mstep. eapply runs_mono; [by apply (add_job_runs Lucky _ queued _ p Hp Hf Hj)|].
  intros [ret pool'] (acc & -> & Hroom & Hph). destruct (ret =? 0) eqn:Er; cbn [negb].
  - mstep. mstep; [|done]. rewrite Ho. cbn [app].
    destruct (put_posted (Some rc) (running ++ queued) (running ++ [p] ++ queued) lost lost dead dead g hnd i k
      svc sub (with_queue [mark_stale (event_job p)] sub) h pool' Hg Hs Hk)
      as (g' & E & Hg' & [Hst' Hp' Hl'] & Hh' & Hs'); try done.
    + intros R HR. destruct (Hnew _ HR) as (_ & Hh2 & _ & HR2).
      assert (eh_structs h !! p = Some n) as Hpn by (by rewrite Hh2, lookup_insert_eq).
      pose proof (qinv_push_first _ _ _ _ _ _ _ _ true (mark_stale (event_job p)) HR2 Hpn Hns Ho
        eq_refl Hact) as H2.
      refine (proj1 (qinv_proper _ _ _ _ _ _ _ _ _ _ _ _ _) H2); try done. solve_perm.
    + intros q m Hq' Hm _. split; [set_solver|by apply Hkept].
    + right. right. exists p, n. split; [done|]. split; [set_solver|].
      split; [by rewrite Hh, lookup_insert_eq|done].
    + intros q m [->|Hq']%elem_of_cons Hm _; [|by apply elem_of_nil in Hq'].
      rewrite Hh, lookup_insert_eq in Hm. simplify_eq.
      eapply event_home_static; [exact Hst|]. rewrite En. apply Hpo.
    + mstep. eapply runs_liftO; [exact E|]. unfold init_exit. cbn [Z.eqb GENA_SUCCESS].
      mstep. eapply runs_liftO; [done|].
      pose proof (settle_counts _ _ _ _ _ 1 Hg') as Hset. rewrite Hh' in Hset. specialize (Hset Hc1).
      cbn [Z.eqb] in Hset.
      destruct (release_finished running lost dead g0 g' lost dead ([p] ++ queued)) as (g2 & E2 & ?);
        [done|by rewrite Hp'|by rewrite Hst'|by rewrite Hl'| |done|done|].
      { intros q m Hq' Hm. rewrite Hh'. by apply Hkept, Hu. }
      mstep. eapply runs_liftO; [exact E2|]. by mstep.
  - eapply (init_refused _ p n rc running queued lost dead g0); try done.
    + apply (ginv_update (fun sid => sid = sub_sid sub) (Some rc) (running ++ queued) lost dead g hnd i
        svc svc); [done|done|done| |by intros sid ->; exists sub| | | |done|].
      * by rewrite (put_service_id g hnd i svc Hs).
      * intros R HR. by apply Hnew.
      * intros q m Hm Hne. by apply Hback.
      * intros q m Hq' Hm _. split; [done|by apply Hkept].
      * intros s Hins. destruct (decide (sub_sid s = sub_sid sub)) as [Es|Es]; [right|by left].
        assert (sub_outgoing s = []) as Ho'.
        { destruct (all_subs_split g hnd i svc Hs) as (rest & Hall & _).
          pose proof (q_sids _ _ _ _ _ Hq) as Hnd. rewrite Hall, (delete_Permutation _ _ _ Hk) in Hnd.
          rewrite (delete_Permutation _ _ _ Hk) in Hins. apply elem_of_cons in Hins as [->|Hins]; [done|].
          cbn in Hnd. apply NoDup_cons in Hnd as [Hni _]. destruct Hni. rewrite <- Es.
          apply list_elem_of_fmap. exists s. split; [done|]. set_solver. }
        split; [done|]. intros q m Hq'. unfold args in Hq'. rewrite Ho' in Hq'. by apply elem_of_nil in Hq'.
    + cbn. by rewrite Hh, lookup_insert_eq.
    + intros q m Hq' Hm. by apply Hkept, Hu.
    + unfold pool_status. destruct (ret =? EOUTOFMEM); [done|]. by zbool.
Qed.

Lemma genaInitNotifyCommon_runs hnd UDN servId s sid running queued lost dead g :
  ginv None (running ++ queued) lost dead g -> pool_holds (g_pool g) queued ->
  g_locked g = false -> struct_count g < INT_MAX -> sid_ok sid ->
  runs Lucky (genaInitNotifyCommon hnd UDN servId (DStr s) sid g)
    (fun '(_, g') => posted running lost dead g g').
Proof.
  intros Hg Hp Hl Hsz Hsid. unfold genaInitNotifyCommon.
  mstep. mstep; [cbn [negb]|done]. mstep. mstep; [cbn [negb]|done].
  destruct (new_count_spec _ _ _ _ Hg) as (rc & h & -> & Hh & Hnone & Hzero & Hg1).
  cbv beta iota. mstep. mstep; [cbn [negb]|done]. mstep. mstep; [cbn [negb]|done].
  unfold HandleLock. cbn [g_locked set_heap]. rewrite Hl. mstep. mstep.
  set (g1 := set_locked true (set_heap h g)).
  assert (ginv (Some rc) (running ++ queued) lost dead g1) as Hg2
    by (by apply (ginv_data _ _ _ _ (set_heap h g))).
  assert (unmoved running g g1) as Hu1 by (intros q m _; cbn; by rewrite Hh).
  destruct (GetHandleInfo hnd (g_api g1)) as [t [info|]] eqn:Ei;
    [|by destruct t; eapply (init_fails _ rc running queued lost dead g)].
  destruct t; [by eapply (init_fails _ rc running queued lost dead g)..|].
  apply GetHandleInfo_some in Ei as Hi. destruct Hi as [Hi _].
  destruct (FindServiceId_spec (hi_ServiceTable info) servId UDN) as (r & Er & Hr);
    [eapply wf_handle; [apply Hg2|exact Hi]|].
  mstep. eapply runs_liftO; [exact Er|].
  destruct r as [i|]; [|by eapply (init_fails _ rc running queued lost dead g)].
  destruct (Hr i eq_refl) as [svc Hsvc].
  assert (service g1 hnd i = Some svc) as Hs by (unfold service; by rewrite Hi).
  destruct (get_sub_spec _ _ _ _ g1 hnd i svc sid Hg2 Hs)
    as (k & g2 & E & Hg3 & [Hst Hp2 Hl2] & Hk & _ & Hback & Hz2).
  mstep. eapply runs_liftO; [exact E|].
  assert (pool_holds (g_pool g2) queued) as Hph by (by rewrite Hp2).
  assert (unmoved running g g2) as Hu2
    by (eapply unmoved_trans; [exact Hu1|eapply unmoved_back; [exact Hback|exact Hg3]]).
  destruct k as [k|]; [|by eapply (init_fails _ rc running queued lost dead g); auto].
  destruct Hk as (c & sub & -> & Hsub & Hcs). cbn in Hz2.
  mstep. eapply runs_liftO; [exact Hs|]. mstep. eapply runs_liftO; [exact Hsub|].
  destruct (negb (sub_active sub =? 0)) eqn:Ea; zbool;
    [by eapply (init_fails _ rc running queued lost dead g); auto|].
  destruct (put_active _ _ _ _ (set_gclock c g1) hnd i k svc sub Hg3 Hs Hsub Ea)
    as (g3 & E3 & Hg4 & [Hst3 Hp3 Hl3] & Hh3 & svc3 & Hs3 & Hk3).
  mstep. eapply runs_liftO; [exact E3|].
  mstep. eapply runs_mono; [apply AllocGenaHeaders_runs|]. intros r [[headers ->]|]; [|done].
  mstep. eapply runs_liftO; [done|]. mstep. mstep; [cbn [negb]|done].
  assert (eh_counts (g_heap g3) !! rc = Some 0) as Hc3 by (rewrite Hh3; exact Hzero).
  mstep. unfold add_ref. rewrite Hc3. eapply runs_liftO; [done|]. cbn [time].
  set (po := MkPosting _ _ _ _ _ _). set (g4 := set_gclock (tail (g_clock g3)) g3).
  assert (sub_sid sub = sid) as Hsame.
  { pose proof (q_subs _ _ _ _ _ (gi_q _ _ _ _ _ Hg3)) as Hok. rewrite Forall_forall in Hok.
    destruct (Hok sub) as [_ [Hc' _] _ _ _];
      [eapply in_all_subs; [exact Hs|by eapply list_elem_of_lookup_2]|].
    destruct Hsid as [Hc2 _]. congruence. }
  destruct (new_notify _ _) as [p h4] eqn:Enew.
  eapply (init_posts po rc hnd i k svc3 (set_sub_active 1 sub) running queued lost dead g g4
    (notify_of po sid (default 0 (head (g_clock g3)))) p h4); try done.
  - eapply home_of_posting; [by apply (gi_wf _ _ _ _ _ Hg)|exact Ei| |done].
    change (po_servId po) with (c_str servId). change (po_UDN po) with (c_str UDN).
    by rewrite FindServiceId_c_str.
  - cbn. by rewrite Hsame.
  - by apply (ginv_data _ _ _ _ g3).
  - pose proof (q_subs _ _ _ _ _ (gi_q _ _ _ _ _ Hg3)) as Hok. rewrite Forall_forall in Hok.
    destruct (Hok sub); [|by auto]. eapply in_all_subs; [exact Hs|by eapply list_elem_of_lookup_2].
  - cbn. by rewrite Hp3, Hp2.
  - intros q m Hq Hm. cbn. rewrite Hh3. by apply Hu1.
  - unfold add_ref. change (g_heap g4) with (g_heap g3). rewrite Hc3. cbn [mbind option_bind].
    by f_equal.
  - unfold struct_count in *. cbn. rewrite Hh3. cbn. by rewrite Hh.
Qed.

Lemma genaInitNotify_runs hnd UDN servId vars sid running queued lost dead g :
  ginv None (running ++ queued) lost dead g -> pool_holds (g_pool g) queued ->
  g_locked g = false -> struct_count g < INT_MAX -> sid_ok sid ->
  runs Lucky (genaInitNotify hnd UDN servId vars sid g)
    (fun '(_, g') => posted running lost dead g g').
Proof.
  intros Hg Hp Hl Hsz Hsid. unfold genaInitNotify. case_bool_decide.
  - mstep. split; [|by intros ? ? _]. split; [done|]. split; [done|]. by exists queued, lost, dead.
  - mstep. eapply runs_mono; [apply GeneratePropertySet_runs|].
    intros [rc out] [[-> ->]|[? _]]; [cbn [Z.eqb negb]|done]. by eapply genaInitNotifyCommon_runs.
Qed.
End Post.
