(* ===== verification/GenaSystem.v ===== *)
(** The eventing of a device as a system of threads: the application posts
    events, the network threads add, renew and remove subscriptions, and the
    threads of the send pool deliver, in any interleaving of their critical
    sections. *)

From S2P Require Import Prelude CString FreeList LinkedList ThreadPool MemBuffer Uri IxmlNode XmlPrint GenaQueue ServiceTable HandleTable Gena GenaInv GenaState GenaSteps GenaTexts GenaPost.

(** The threads of the pool take queued jobs, and do so while there are any. *)
Class PoolWorkers (P : Type) `{SendPool P} := {
  sp_takes : P -> Z -> P -> Prop;
  sp_takes_law p a p' : sp_ok p -> sp_takes p a p' -> sp_ok p' /\ sp_args p ≡ₚ a :: sp_args p';
  sp_serves p : sp_ok p -> sp_args p <> [] -> exists a p', sp_takes p a p'
}.

Section System.
Context {P : Type} `{SendPool P} `{!SendPoolLaws P} (EQMaxLen EQMaxAge : Z).
Implicit Types (g : gena P) (svc : service_info) (sub : subscription) (hnd : Z)
  (lost sending queued : list loc) (dead : list (list Z)).

(** ** The subscriptions of a service *)

Lemma put_same_queue x busy lost dead g hnd i k svc sub sub' :
  ginv x busy lost dead g -> service g hnd i = Some svc ->
  si_subscriptionList svc !! k = Some sub -> sub_sid sub' = sub_sid sub ->
  sub_outgoing sub' = sub_outgoing sub -> (sub_active sub' = 0 -> sub_active sub = 0) ->
  exists g', put_sub hnd i k sub' g = Some g' /\ ginv x busy lost dead g' /\ same_frame g g' /\
    g_heap g' = g_heap g.
Proof.
  intros Hg Hs Hk Hsid Ho Hact.
  pose proof (list_elem_of_lookup_2 _ _ _ Hk) as Hin.
  destruct (gi_good _ _ _ _ _ Hg hnd i svc sub Hs Hin) as [G1 G2].
  assert (args sub' = args sub) as Ha by (unfold args; by rewrite Ho).
  destruct (put_posted x busy busy lost lost dead dead g hnd i k svc sub sub'
    (g_heap g) (g_pool g) Hg Hs Hk) as (g' & E & Hg' & Hf & Hh & Hs'); try done.
  - intros R HR. by apply (qinv_same_queue _ _ _ sub).
  - destruct (decide (sub_outgoing sub' = [])); [by left|right]. rewrite Ha. apply G1. by rewrite <- Ho.
  - by rewrite Ha.
  - exists g'. split; [by destruct g|]. split; [done|]. split; [by destruct g|done].
Qed.

Lemma add_sub_spec x busy lost dead g hnd i svc sub :
  ginv x busy lost dead g -> service g hnd i = Some svc ->
  sid_ok (sub_sid sub) -> sub_outgoing sub = [] ->
  (forall s, s ∈ all_subs g -> sub_sid s <> sub_sid sub) ->
  (forall p n, eh_structs (g_heap g) !! p = Some n -> nts_sid n <> sub_sid sub) ->
  exists g', add_sub hnd i sub g = Some g' /\ ginv x busy lost dead g' /\ same_frame g g' /\
    g_heap g' = g_heap g.
Proof.
  intros Hg Hs Hsid Ho Hfresh Hev. unfold add_sub. rewrite Hs. cbn [mbind option_bind].
  eexists. split; [done|]. set (svc' := set_subs _ _ svc).
  split; [|split; [by apply (put_service_frame g hnd i svc)|by rewrite put_service_heap]].
  assert (args sub = []) as Ha by (unfold args; by rewrite Ho).
  eapply (ginv_update_at (fun _ => False) _ _ _ _ _ _ _ svc svc'); [done|done|done|done|done| | | |done|].
  - intros R Hall HR. rewrite put_service_heap. cbn.
    split; [apply HR|apply HR| | | |apply HR|].
    + cbn. unfold waits at 1. rewrite Ha. apply HR.
    + cbn. apply NoDup_cons. split; [|apply HR].
      intros (s & E & Hin)%list_elem_of_fmap. apply (Hfresh s); [by rewrite Hall|done].
    + constructor; [|apply HR]. split; rewrite ?Ho; try done; [by rewrite Ha|].
      unfold waits. rewrite Ha. constructor.
    + intros p n s Hp Hn [->|Hin]%elem_of_cons Hs'; [by destruct (Hev p n Hn)|].
      by apply (q_heads _ _ _ _ _ HR p n s).
  - by rewrite put_service_heap.
  - by rewrite put_service_heap.
  - cbn. intros s [->|Hin]%elem_of_cons; [right|left; auto].
    split; [done|]. intros p n Hp. rewrite Ha in Hp. by apply elem_of_nil in Hp.
Qed.

(** ** Unregistering *)

Lemma free_subs_spec x busy lost subs rest h :
  qinv x busy lost (subs ++ rest) h ->
  exists h', freeSubscriptionList h subs = Some h' /\ qinv x busy lost rest h' /\
    forall p n, eh_structs h' !! p = Some n -> eh_structs h !! p = Some n.
Proof.
  revert h. induction subs as [|sub subs IH]; intros h Hq; [by exists h|].
  destruct (qinv_remove _ _ _ _ _ _ Hq) as (h1 & E & Hf & Hq1). cbn in E |- *.
  destruct (freeSubscription h sub) as [[h1' s']|]; [|done]. cbn in *. simplify_eq.
  destruct (IH h1 Hq1) as (h2 & E2 & Hq2 & Hb). exists h2. split; [done|]. split; [done|].
  intros p n Hn. eapply frees_back; eauto.
Qed.

(** The strings of a table were not freed. *)
Definition table_live (t : service_table) : Prop :=
  is_Some (ixmlFreeDOMString (st_URLBase t)) /\
  Forall (fun svc => is_Some (free_str (si_serviceType svc)) /\
    is_Some (free_str (si_serviceId svc)) /\ is_Some (free_str (si_UDN svc)))
    (st_serviceList t).

Lemma free_services_spec x busy lost l rest h :
  Forall (fun svc => is_Some (free_str (si_serviceType svc)) /\
    is_Some (free_str (si_serviceId svc)) /\ is_Some (free_str (si_UDN svc))) l ->
  qinv x busy lost ((l ≫= si_subscriptionList) ++ rest) h ->
  exists h', freeServiceList h l = Some h' /\ qinv x busy lost rest h' /\
    forall p n, eh_structs h' !! p = Some n -> eh_structs h !! p = Some n.
Proof.
  intros Hl. revert h. induction Hl as [|svc l ([a Ha] & [b Hb] & [c Hc]) _ IH];
    intros h Hq; [by exists h|]. cbn in Hq. rewrite <- app_assoc in Hq.
  destruct (free_subs_spec _ _ _ _ _ _ Hq) as (h1 & E1 & Hq1 & Hb1).
  destruct (IH h1 Hq1) as (h2 & E2 & Hq2 & Hb2). exists h2. cbn. unfold freeService.
  rewrite Ha, Hb, Hc. cbn. rewrite E1. cbn. split; [done|]. split; [done|].
  intros p n Hn. apply Hb1, (Hb2 p n Hn).
Qed.

Lemma event_home_elsewhere g g' n hnd i hnd' :
  hnd' <> hnd -> (forall k, k <> hnd -> HandleTable (g_api g') !! k = HandleTable (g_api g) !! k) ->
  event_home g n hnd' i -> event_home g' n hnd' i.
Proof.
  intros Hne Heq [Hd (info & Hi & Hf & Ha)]. split; [done|]. exists info.
  unfold GetHandleInfo, service in *. by rewrite Heq.
Qed.

(** Unregistering a device frees its subscriptions and the events that wait in
    their queues; the events being sent find their subscription gone. *)
Lemma genaUnregisterDevice_runs md hnd busy lost dead g info :
  ginv None busy lost dead g -> g_locked g = false ->
  GetHandleInfo hnd (g_api g) = (HND_DEVICE, Some info) -> table_live (hi_ServiceTable info) ->
  runs md (genaUnregisterDevice hnd g) (fun '(ret, g') =>
    ret = UPNP_E_SUCCESS /\ ginv None busy lost dead g' /\ g_pool g' = g_pool g /\
    g_locked g' = false /\
    forall p n, eh_structs (g_heap g') !! p = Some n -> eh_structs (g_heap g) !! p = Some n).
Proof.
  intros [Hq Hw Hg] Hl Hi [[base Hb] Hlive]. unfold genaUnregisterDevice, HandleLock. rewrite Hl.
  mstep. mstep. cbn [g_api set_locked]. rewrite Hi. apply GetHandleInfo_some in Hi as [Hi _].
  pose proof (map_to_list_delete _ _ _ Hi) as Hp.
  set (t' := MkTable base [] None).
  set (g1 := fun h => set_heap h (set_api (set_handle hnd (Some (set_ServiceTable t' info)) (g_api g))
    (set_locked true g))).
  assert (forall k, k <> hnd -> forall h, HandleTable (g_api (g1 h)) !! k = HandleTable (g_api g) !! k)
    as Hother by (intros k Hk h; cbn; by rewrite lookup_partial_alter_ne).
  set (rest := map_to_list (delete hnd (HandleTable (g_api g)))
    ≫= (fun kv => st_serviceList (hi_ServiceTable kv.2))).
  assert (services g ≡ₚ st_serviceList (hi_ServiceTable info) ++ rest) as Es
    by (unfold services; by rewrite <- Hp).
  assert (forall h, services (g1 h) ≡ₚ rest) as Es'.
  { intros h. unfold services. cbn.
    change (partial_alter ?f hnd ?m) with (<[hnd := set_ServiceTable t' info]> m).
    rewrite <- insert_delete_eq, map_to_list_insert by apply lookup_delete_eq. done. }
  assert (all_subs g ≡ₚ (st_serviceList (hi_ServiceTable info) ≫= si_subscriptionList)
    ++ (rest ≫= si_subscriptionList)) as Ea by (unfold all_subs; by rewrite Es, bind_app).
  rewrite Ea in Hq. destruct (free_services_spec _ _ _ _ _ _ Hlive Hq) as (h' & E & Hq' & Hback).
  mstep. mstep. eapply (runs_liftO _ _ (h', t')).
  { unfold freeServiceTable. rewrite Hb. cbn. by rewrite E. }
  cbv beta iota. mstep. cbv beta iota. mstep. eapply runs_liftO; [done|]. mstep. split; [done|].
  split; [|by split_and!]. fold (g1 h').
  apply (ginv_data _ _ _ _ (g1 h')); [done|]. split.
  - unfold all_subs. by rewrite Es'.
  - unfold wf in *. rewrite Es'. rewrite Es in Hw. by apply Forall_app in Hw as [_ ?].
  - intros hnd' i svc sub Hs Hin. destruct (decide (hnd' = hnd)) as [->|Hne].
    { exfalso. unfold service in Hs. cbn in Hs. rewrite lookup_partial_alter_eq in Hs.
      cbn in Hs. by destruct i. }
    assert (service g hnd' i = Some svc) as Hs0
      by (unfold service in *; by rewrite <- (Hother _ Hne h')).
    assert (sub ∈ rest ≫= si_subscriptionList) as Hrest.
    { rewrite <- (Es' h'). apply list_elem_of_bind. exists svc. split; [done|].
      apply list_elem_of_bind. apply service_info_at in Hs as (inf & Hinf & Hs).
      exists (hnd', inf). split; [by eapply list_elem_of_lookup_2|]. by apply elem_of_map_to_list. }
    destruct (Hg hnd' i svc sub Hs0 Hin) as [G1 G2]. split.
    + intros Hne'. destruct (G1 Hne') as [|(p & n & ? & Hp' & Hn & Hsid)]; [by left|right].
      exists p, n. do 2 (split; [done|]). split; [|done].
      destruct (proj1 (waits_live _ _ _ _ _ Hq' p)) as [m Hm]; [set_solver|].
      change (eh_structs h' !! p = Some n). rewrite Hm. f_equal.
      apply Hback in Hm. congruence.
    + intros p n Hp' Hn Hsid. eapply (event_home_elsewhere g); [exact Hne|intros k Hk; by apply Hother|].
      apply (G2 p n); [done| |done]. by apply Hback.
Qed.

(** ** Configurations and steps

    [md] says whether allocations may fail in the threads of the pool. *)

Context (md : mode).

(** [sending] are the events that a thread works on between its two critical
    sections. *)
Record config := MkConfig { sending : list loc; shared : gena P }.

Definition sys_inv lost dead (c : config) : Prop :=
  g_locked (shared c) = false /\
  exists queued, pool_holds (g_pool (shared c)) queued /\
    ginv None (sending c ++ queued) lost dead (shared c).

(** What the sections may lose, when the pool refuses jobs or a subscription
    cannot be copied. *)
Definition sys_next lost dead (c : config) : Prop :=
  exists lost' dead', sys_inv lost' dead' c /\ dead ⊆ dead' /\
    (md = Lucky -> always_room Lucky -> lost' = lost /\ dead' = dead).

Definition fresh_sub sub g : Prop :=
  sid_ok (sub_sid sub) /\ sub_outgoing sub = [] /\
  (forall s, s ∈ all_subs g -> sub_sid s <> sub_sid sub) /\
  (forall p n, eh_structs (g_heap g) !! p = Some n -> nts_sid n <> sub_sid sub).

(** No counter can overflow while an event is posted. *)
Definition room g : Prop := struct_count g + Z.of_nat (length (all_subs g)) <= INT_MAX.

(** The steps of the threads of the pool, whatever the allocator, the pool and
    the subscriber answer, with the copy of the subscription to which an event
    is sent next. *)
Inductive worker_moves `{!PoolWorkers P} : config -> option subscription -> config -> Prop :=
| move_start s g arg pool r g' :
    sp_takes (g_pool g) (Zpos arg) pool ->
    may md (notify_start arg (set_pool pool g)) (r, g') ->
    worker_moves (MkConfig s g) r (MkConfig (match r with Some _ => arg :: s | None => s end) g')
| move_finish s1 arg s2 g rc g' :
    may md (notify_finish rc arg g) g' ->
    worker_moves (MkConfig (s1 ++ arg :: s2) g) None (MkConfig (s1 ++ s2) g').

(** The steps of the application and of the threads that serve the network.
    Those that post events are the ones in which no allocation fails and no
    counter overflows: without memory they may release a lock they do not hold,
    free an event that is in the pool or put two events of a subscription there.
    A device is unregistered when its table was not released before. *)
Inductive client_moves : config -> config -> Prop :=
| move_notify s g hnd UDN servId vars ret g' :
    room g -> run (genaNotifyAll EQMaxLen EQMaxAge hnd UDN servId vars g) = Some (ret, g') ->
    client_moves (MkConfig s g) (MkConfig s g')
| move_init s g hnd UDN servId vars sid ret g' :
    struct_count g < INT_MAX -> sid_ok sid ->
    run (genaInitNotify hnd UDN servId vars sid g) = Some (ret, g') ->
    client_moves (MkConfig s g) (MkConfig s g')
| move_subscribe s g hnd i sub g' :
    fresh_sub sub g -> add_sub hnd i sub g = Some g' ->
    client_moves (MkConfig s g) (MkConfig s g')
| move_lookup s g hnd i sid k g' :
    get_sub hnd i sid g = Some (k, g') -> client_moves (MkConfig s g) (MkConfig s g')
| move_expire s g hnd i k expire g' :
    set_expire hnd i k expire g = Some g' -> client_moves (MkConfig s g) (MkConfig s g')
| move_unsubscribe s g hnd i sid g' :
    remove_sid hnd i sid g = Some g' ->
    client_moves (MkConfig s g) (MkConfig s g')
| move_unregister s g hnd info ret g' :
    GetHandleInfo hnd (g_api g) = (HND_DEVICE, Some info) -> table_live (hi_ServiceTable info) ->
    run (genaUnregisterDevice hnd g) = Some (ret, g') ->
    client_moves (MkConfig s g) (MkConfig s g')
| move_clock s g c :
    client_moves (MkConfig s g) (MkConfig s (set_gclock c g)).

Lemma sys_same lost dead c : sys_inv lost dead c -> sys_next lost dead c.
Proof. intros Hc. by exists lost, dead. Qed.

Lemma lucky_run {A} (m : M A) Q a : runs Lucky m Q -> run m = Some a -> Q a.
Proof. intros (b & E & HQ)%runs_run Ha. by assert (b = a) as <- by congruence. Qed.

Lemma finished_next s lost dead g g' :
  finished md s lost dead g g' -> sys_next lost dead (MkConfig s g').
Proof.
  intros (_ & Hl & queued & lost' & dead' & Hp & Hg & Hd & Hr). exists lost', dead'.
  split; [split; [done|by exists queued]|]. split; [done|]. intros -> Hroom. by apply Hr.
Qed.
Lemma finished_lucky s lost dead g g' :
  finished Lucky s lost dead g g' -> sys_next lost dead (MkConfig s g').
Proof.
  intros (_ & Hl & queued & lost' & dead' & Hp & Hg & Hd & Hr). exists lost', dead'.
  split; [split; [done|by exists queued]|done].
Qed.

(** A job that a thread takes is one of the queued events. *)
Lemma taken `{!PoolWorkers P} g arg pool lost dead s :
  sys_inv lost dead (MkConfig s g) -> sp_takes (g_pool g) (Zpos arg) pool ->
  exists queued, pool_holds pool queued /\
    ginv None (arg :: s ++ queued) lost dead (set_pool pool g).
Proof.
  intros [_ (queued & [Hok Hargs] & Hg)] Ht.
  destruct (sp_takes_law (g_pool g) (Zpos arg) pool Hok Ht) as [Hok' Hp].
  cbn [shared sending] in *. rewrite Hargs in Hp.
  assert (Zpos arg ∈ Zpos <$> queued) as (q & [= <-] & Hin)%list_elem_of_fmap
    by (rewrite Hp; constructor).
  apply elem_of_Permutation in Hin as [rest Hrest].
  exists rest. split.
  - split; [done|]. rewrite Hrest in Hp. cbn in Hp. by apply (inj (cons _)) in Hp.
  - apply (ginv_data _ _ _ _ g); [done|]. eapply ginv_perm; [|done|exact Hg]. rewrite Hrest. solve_perm.
Qed.

Lemma worker_moves_inv `{!PoolWorkers P} lost dead c r c' :
  sys_inv lost dead c -> worker_moves c r c' -> sys_next lost dead c'.
Proof.
  intros Hc Hm. destruct Hm as [s g arg pool r g' Ht E|s1 arg s2 g rc g' E].
  - destruct (taken _ _ _ _ _ _ Hc Ht) as (queued & Hp & Hg). destruct Hc as [Hl _].
    pose proof (runs_may _ _ _ _ (notify_start_runs md arg (s ++ queued) lost dead _ Hg Hl) E)
      as [(_ & Ep & Hl') Hr]. cbn in Ep.
    destruct r as [copy|].
    + apply sys_same. split; [done|]. exists queued. cbn. rewrite Ep. by destruct Hr.
    + destruct Hr as (_ & dead' & Hg' & Hd & Ed). exists lost, dead'.
      split; [|split; [done|intros Hmd _; split; [done|by apply Ed]]].
      split; [done|]. exists queued. cbn. by rewrite Ep.
  - destruct Hc as [Hl (queued & Hp & Hg)]. cbn in *.
    eapply finished_next. refine (proj1 (runs_may _ _ _ _ (notify_finish_runs md rc arg (s1 ++ s2)
      queued lost dead g _ Hp Hl) E)).
    eapply ginv_perm; [|done|exact Hg]. solve_perm.
Qed.

Lemma posted_next s lost dead g g' :
  posted s lost dead g g' ->
  sys_next lost dead (MkConfig s g') /\ unmoved s g g'.
Proof. intros [? ?]. split; [by eapply finished_lucky|done]. Qed.

Lemma client_moves_inv lost dead c c' :
  sys_inv lost dead c -> client_moves c c' ->
  sys_next lost dead c' /\ sending c' = sending c /\ unmoved (sending c) (shared c) (shared c').
Proof.
  intros Hc Hm. enough (sys_next lost dead c' /\ unmoved (sending c) (shared c) (shared c')) as [? ?]
    by (split; [done|split; [by destruct Hm|done]]). revert Hc Hm.
  intros [Hl (queued & Hp & Hg)] Hm. destruct Hm as [s g hnd UDN servId vars ret g' Hroom E
    |s g hnd UDN servId vars sid ret g' Hsz Hsid E|s g hnd i sub g' [Hsid [Ho [Hf1 Hf2]]] E
    |s g hnd i sid k g' E1|s g hnd i k expire g' E2|s g hnd i sid g' E|s g hnd info ret g' Hi Hlive E|s g c];
    cbn in *.
  - eapply posted_next. exact (lucky_run _ _ _ (genaNotifyAll_runs EQMaxLen EQMaxAge hnd UDN servId
      vars s queued lost dead g Hg Hp Hl Hroom) E).
  - eapply posted_next. exact (lucky_run _ _ _ (genaInitNotify_runs hnd UDN servId
      vars sid s queued lost dead g Hg Hp Hl Hsz Hsid) E).
  - unfold add_sub in E. destruct (service g hnd i) as [svc|] eqn:Hs; [|done].
    destruct (add_sub_spec None (s ++ queued) lost dead g hnd i svc sub Hg Hs Hsid Ho Hf1 Hf2)
      as (g2 & E2 & Hg2 & [_ Hp2 Hl2] & Hh2).
    unfold add_sub in E2. rewrite Hs in E2. assert (g2 = g') as -> by congruence.
    split; [apply sys_same|intros q m _; by rewrite Hh2]. split; [cbn; congruence|]. exists queued. cbn. by rewrite Hp2.
  - unfold get_sub in E1. destruct (service g hnd i) as [svc|] eqn:Hs; [|done].
    destruct (get_sub_spec None (s ++ queued) lost dead g hnd i svc sid Hg Hs)
      as (k2 & g2 & E3 & Hg2 & [_ Hp2 Hl2] & _ & _ & Hb & _). unfold get_sub in E3. rewrite Hs in E3.
    cbn [mbind option_bind] in E1, E3. rewrite E1 in E3. injection E3 as <- <-.
    split; [apply sys_same|by eapply unmoved_back]. split; [cbn; congruence|].
    exists queued. cbn. by rewrite Hp2.
  - unfold set_expire in E2. destruct (service g hnd i) as [svc|] eqn:Hs; [|done].
    cbn [mbind option_bind] in E2. destruct (si_subscriptionList svc !! k) as [sub|] eqn:Hsub; [|done].
    cbn [mbind option_bind] in E2.
    destruct (put_same_queue None (s ++ queued) lost dead g hnd i k svc sub
      (set_sub_expireTime expire sub) Hg Hs Hsub) as (g3 & E3 & Hg3 & [_ Hp3 Hl3] & Hh3); [done..|].
    assert (g3 = g') as -> by congruence. split; [apply sys_same|intros q m _; by rewrite Hh3].
    split; [cbn in *; congruence|]. exists queued. cbn in *. by rewrite Hp3.
  - unfold remove_sid in E. destruct (service g hnd i) as [svc|] eqn:Hs; [|done].
    destruct (remove_sid_spec None (s ++ queued) lost dead g hnd i svc sid Hg Hs)
      as (g2 & E2 & Hg2 & [_ Hp2 Hl2] & _ & Hb). unfold remove_sid in E2. rewrite Hs in E2.
    assert (g2 = g') as -> by congruence.
    split; [apply sys_same|by eapply unmoved_back]. split; [cbn; congruence|]. exists queued. cbn.
    by rewrite Hp2.
  - pose proof (lucky_run _ _ _ (genaUnregisterDevice_runs Lucky hnd (s ++ queued)
      lost dead g info Hg Hl Hi Hlive) E) as (_ & Hg' & Hp' & Hl' & Hb).
    split; [apply sys_same|by eapply unmoved_back]. split; [done|]. exists queued. cbn. by rewrite Hp'.
  - split; [apply sys_same|by intros q m _]. split; [done|]. exists queued. split; [done|].
    by apply (ginv_data _ _ _ _ g).
Qed.

Section Served.
Context `{!PoolWorkers P}.

Definition moves (c c' : config) : Prop := (exists r, worker_moves c r c') \/ client_moves c c'.

Lemma sys_next_trans lost dead lost1 dead1 c :
  sys_next lost1 dead1 c -> dead ⊆ dead1 ->
  (md = Lucky -> always_room Lucky -> lost1 = lost /\ dead1 = dead) ->
  sys_next lost dead c.
Proof.
  intros (lost2 & dead2 & Hc & Hd & Hr) Hd1 Hr1. exists lost2, dead2. split; [done|].
  split; [set_solver|]. intros Hmd H0. destruct (Hr Hmd H0) as [-> ->]. by apply Hr1.
Qed.

Lemma moves_inv lost dead c c' :
  sys_inv lost dead c -> rtc moves c c' -> sys_next lost dead c'.
Proof.
  intros Hc Hm. revert lost dead Hc.
  induction Hm as [c|c c1 c' [[r Hm]|Hm] _ IH]; intros lost dead Hc; [by apply sys_same|..].
  - destruct (worker_moves_inv _ _ _ _ _ Hc Hm) as (lost1 & dead1 & Hc1 & ? & ?).
    by eapply sys_next_trans; [apply IH|..].
  - destruct (client_moves_inv _ _ _ _ Hc Hm) as [(lost1 & dead1 & Hc1 & ? & ?) _].
    by eapply sys_next_trans; [apply IH|..].
Qed.

(** ** Draining *)

(** [Q] will hold, whatever the threads of the pool do next, as long as one of
    them moves. *)
Inductive eventually (Q : config -> Prop) : config -> Prop :=
| ev_now c : Q c -> eventually Q c
| ev_step c r c' : worker_moves c r c' ->
    (forall r c', worker_moves c r c' -> eventually Q c') -> eventually Q c.

Definition struct_of (c : config) : gmap loc notify_thread_struct := eh_structs (g_heap (shared c)).

(** Nothing is queued, and all memory of events was freed. *)
Definition drained (c : config) : Prop :=
  sending c = [] /\ sp_args (g_pool (shared c)) = [] /\
  eh_structs (g_heap (shared c)) = ∅ /\ eh_counts (g_heap (shared c)) = ∅ /\
  forall sub, sub ∈ all_subs (shared c) -> sub_outgoing sub = [].

Lemma all_subs_at g sub :
  sub ∈ all_subs g -> exists hnd i svc, service g hnd i = Some svc /\ sub ∈ si_subscriptionList svc.
Proof.
  unfold all_subs, services. intros (svc & Hin & Hs)%list_elem_of_bind.
  apply list_elem_of_bind in Hs as ([hnd info] & Hs & Hi%elem_of_map_to_list). cbn in Hs.
  apply list_elem_of_lookup_1 in Hs as [i Hs]. exists hnd, i, svc. split; [|done].
  unfold service. by rewrite Hi.
Qed.

Lemma args_nil sub h : sub_ok h sub -> args sub = [] -> sub_outgoing sub = [].
Proof.
  intros [Ha _ _ _ _] E. rewrite E in Ha. by destruct (sub_outgoing sub).
Qed.

(** With nothing busy there is nothing at all. *)
Lemma nothing_busy g :
  ginv None [] [] [] g ->
  eh_structs (g_heap g) = ∅ /\ eh_counts (g_heap g) = ∅ /\
  forall sub, sub ∈ all_subs g -> sub_outgoing sub = [].
Proof.
  intros [Hq _ Hg].
  assert (forall sub, sub ∈ all_subs g -> sub_outgoing sub = []) as Hsub.
  { intros sub (hnd & i & svc & Hs & Hin)%all_subs_at.
    destruct (Hg hnd i svc sub Hs Hin) as [G1 _].
    destruct (decide (sub_outgoing sub = [])) as [|Hne]; [done|].
    destruct (G1 Hne) as [Hin'|(p & n & _ & Hp & _)]; by apply elem_of_nil in Hp || apply elem_of_nil in Hin'. }
  assert (eh_structs (g_heap g) = ∅) as Hem.
  { apply map_to_list_empty_iff, fmap_nil_inv with (f := fst).
    apply Permutation_nil_r. rewrite (q_owned _ _ _ _ _ Hq). cbn.
    enough (all_subs g ≫= waits = []) as -> by done.
    clear Hq Hg. induction (all_subs g) as [|sub l IH]; [done|]. cbn. rewrite IH by (intros; apply Hsub; set_solver).
    unfold waits, args. rewrite Hsub by set_solver. done. }
  split; [done|]. split; [|done]. apply map_empty. intros rc.
  pose proof (q_ok _ _ _ _ _ Hq rc) as Hc. destruct (eh_counts (g_heap g) !! rc) as [c|]; [|done].
  exfalso. destruct Hc as [-> [Hc|]]; [|done]. unfold refs in Hc. rewrite Hem in Hc.
  by rewrite map_filter_empty, map_size_empty in Hc.
Qed.

Definition measure (c : config) : nat := 2 * size (struct_of c) - length (sending c).

Lemma sending_few lost dead c :
  sys_inv lost dead c -> (length (sending c) <= size (struct_of c))%nat.
Proof.
  intros [_ (queued & _ & Hg)]. pose proof (gi_q _ _ _ _ _ Hg) as Hq.
  pose proof (Permutation_length (q_owned _ _ _ _ _ Hq)) as E.
  rewrite length_fmap, length_map_to_list, !length_app in E. unfold struct_of. lia.
Qed.

Lemma fewer_size arg n g g' :
  eh_structs (g_heap g) !! arg = Some n -> fewer arg g g' ->
  (size (eh_structs (g_heap g')) < size (eh_structs (g_heap g)))%nat.
Proof.
  intros Hn Hf. apply map_subset_size. apply map_subset_alt. split.
  - apply map_subseteq_spec. intros p m Hm. by destruct (Hf p m Hm).
  - exists arg. split; [|by eexists]. destruct (eh_structs (g_heap g') !! arg) as [m|] eqn:E; [|done].
    by destruct (Hf arg m E).
Qed.

Lemma worker_moves_measure lost dead c r c' :
  sys_inv lost dead c -> worker_moves c r c' -> (measure c' < measure c)%nat.
Proof.
  intros Hc Hm. pose proof (worker_moves_inv _ _ _ _ _ Hc Hm) as (l' & d' & Hc' & _).
  pose proof (sending_few _ _ _ Hc) as B1. pose proof (sending_few _ _ _ Hc') as B2.
  destruct Hm as [s g arg pool r g' Ht E|s1 arg s2 g rc g' E].
  - destruct (taken _ _ _ _ _ _ Hc Ht) as (queued & Hp & Hg). destruct Hc as [Hl _].
    pose proof (runs_may _ _ _ _ (notify_start_runs md arg (s ++ queued) lost dead _ Hg Hl) E)
      as [_ Hr]. destruct (mem_lookup_fresh _ _ _ _ _ _ Hg) as [n Hn].
    unfold measure, struct_of in *. cbn [sending shared] in *. destruct r as [copy|].
    + destruct Hr as [_ Eh]. rewrite Eh in *. cbn in *. lia.
    + destruct Hr as [Hf _]. pose proof (fewer_size arg n _ _ Hn Hf). cbn in *. lia.
  - destruct Hc as [Hl (queued & Hp & Hg)]. cbn [sending shared] in *.
    assert (ginv None (arg :: (s1 ++ s2) ++ queued) lost dead g) as Hg'
      by (eapply ginv_perm; [|done|exact Hg]; solve_perm).
    destruct (mem_lookup_fresh _ _ _ _ _ _ Hg') as [n Hn].
    destruct (runs_may _ _ _ _ (notify_finish_runs md rc arg (s1 ++ s2)
      queued lost dead g Hg' Hp Hl) E) as [_ Hf].
    pose proof (fewer_size arg n _ _ Hn Hf).
    unfold measure, struct_of in *. cbn [sending shared] in *. rewrite !length_app in *. cbn in *. lia.
Qed.

(** As long as something is queued, a thread can move. *)
Lemma can_move c :
  sys_inv [] [] c -> drained c \/ exists r c', worker_moves c r c'.
Proof.
  intros [Hl (queued & Hp & Hg)]. destruct c as [s g]. cbn [sending shared] in *.
  destruct s as [|arg s].
  - destruct (decide (queued = [])) as [->|Hne].
    + left. destruct (nothing_busy g Hg) as (E1 & E2 & E3).
      destruct Hp as [_ Hargs]. split_and!; try done. by apply Permutation_nil_r in Hargs.
    + right. destruct Hp as [Hok Hargs].
      destruct (sp_serves (g_pool g) Hok) as (a & pool & Ht).
      { intros E. rewrite E in Hargs. apply Permutation_nil_l in Hargs. by destruct queued. }
      destruct (sp_takes_law _ _ _ Hok Ht) as [_ Ha].
      assert (a ∈ Zpos <$> queued) as (arg & -> & _)%list_elem_of_fmap by (rewrite <- Hargs, Ha; constructor).
      assert (sys_inv [] [] (MkConfig [] g)) as Hc by (split; [done|]; by exists queued).
      destruct (taken _ _ _ _ _ _ Hc Ht) as (queued' & _ & Hg').
      destruct (runs_run _ _ (notify_start_runs Lucky arg ([] ++ queued') [] [] (set_pool pool g) Hg' Hl))
        as ([r g'] & E & _).
      by do 2 eexists; eapply move_start, run_may.
  - right.
    destruct (runs_run _ _ (notify_finish_runs Lucky 0 arg s queued [] [] g Hg Hp Hl)) as (g' & E & _).
    do 2 eexists. by eapply (move_finish [] arg s g 0), run_may.
Qed.
End Served.
End System.
