(* ===== verification/GenaKeys.v ===== *)
(** The keys of the events: what the sections of eventing do to the identifiers
    and keys of the subscriptions, and the history of what was sent. *)

From S2P Require Import Prelude CString FreeList LinkedList ThreadPool MemBuffer Uri IxmlNode XmlPrint HttpMake GenaQueue ServiceTable HandleTable Gena GenaInv GenaState GenaSteps GenaTexts GenaPost GenaSystem.

Section Keys.
Context {P : Type} `{SendPool P} (EQMaxLen EQMaxAge : Z).
Implicit Types (g : gena P) (svc : service_info) (sub : subscription) (hnd : Z).

Definition tag sub : list Z * Z := (sub_sid sub, sub_ToSendEventKey sub).
Definition tags g : list (list Z * Z) := tag <$> all_subs g.

(** No subscription appears, and no key changes. *)
Definition kept g g' : Prop := forall t, t ∈ tags g' -> t ∈ tags g.

#[export] Instance kept_preorder : PreOrder kept.
Proof. split; [by intros g t|]. intros g1 g2 g3 H1 H2 t Ht. by apply H1, H2. Qed.

Lemma kept_api g g' : g_api g' = g_api g -> kept g g'.
Proof. intros E t. unfold tags, all_subs, services. by rewrite E. Qed.

Lemma tags_in g hnd i svc sub :
  service g hnd i = Some svc -> sub ∈ si_subscriptionList svc -> tag sub ∈ tags g.
Proof. intros Hs Hin. apply list_elem_of_fmap. exists sub. split; [done|]. by eapply in_all_subs. Qed.

Lemma kept_put g hnd i svc svc' :
  service g hnd i = Some svc ->
  (forall s, s ∈ si_subscriptionList svc' -> tag s ∈ tags g) -> kept g (put_service hnd i svc' g).
Proof.
  intros (rest & Hall & Hall')%all_subs_split Hsub t. unfold tags. rewrite Hall'.
  rewrite fmap_app, elem_of_app. intros [(s & -> & Hin)%list_elem_of_fmap|Hin]; [by apply Hsub|].
  rewrite Hall, fmap_app. set_solver.
Qed.

Lemma put_service_api hnd i svc g g' :
  g_api g' = g_api g -> g_api (put_service hnd i svc g') = g_api (put_service hnd i svc g).
Proof.
  intros E. unfold put_service. rewrite E. by destruct (HandleTable (g_api g) !! hnd).
Qed.

(** The same when other parts of the state changed as well. *)
Lemma kept_put_api g g1 hnd i svc svc' :
  service g hnd i = Some svc -> g_api g1 = g_api g ->
  (forall s, s ∈ si_subscriptionList svc' -> s ∈ si_subscriptionList svc) ->
  kept g (put_service hnd i svc' g1).
Proof.
  intros Hs Ha Hsub. etransitivity.
  - apply (kept_put g hnd i svc svc' Hs). intros s Hin. eapply tags_in; [exact Hs|by apply Hsub].
  - by apply kept_api, put_service_api.
Qed.

Lemma kept_put_sub g hnd i k sub g' :
  put_sub hnd i k sub g = Some g' -> tag sub ∈ tags g -> kept g g'.
Proof.
  unfold put_sub. destruct (service g hnd i) as [svc|] eqn:Hs; [|done]. cbn. intros [= <-] Hin.
  eapply kept_put; [exact Hs|]. cbn. intros s.
  intros (j & Hj)%list_elem_of_lookup_1. apply list_lookup_insert_Some in Hj as [(_ & <- & _)|[_ Hj]]; [done|].
  eapply tags_in; [exact Hs|]. by eapply list_elem_of_lookup_2.
Qed.

Lemma remove_sub_subs h i svc h' svc' :
  remove_sub h i svc = Some (h', svc') ->
  forall s, s ∈ si_subscriptionList svc' -> s ∈ si_subscriptionList svc.
Proof.
  unfold remove_sub. destruct (si_subscriptionList svc !! i) as [s0|] eqn:Hi; [|done].
  cbn [mbind option_bind]. destruct (freeSubscriptionList h [s0]); [|done]. cbn. intros [= _ <-] s. cbn.
  intros Hin. rewrite (delete_Permutation _ _ _ Hi). set_solver.
Qed.

Lemma time_api g now g' : time g = (now, g') -> g_api g' = g_api g.
Proof. by intros [= _ <-]. Qed.

Lemma kept_get_sub g hnd i sid k g' : get_sub hnd i sid g = Some (k, g') -> kept g g'.
Proof.
  unfold get_sub. destruct (service g hnd i) as [svc|] eqn:Hs; [|done]. cbn [mbind option_bind].
  assert (exists now g1, (match find_sid sid (si_subscriptionList svc) with
    | Some _ => time g | None => (0, g) end) = (now, g1) /\ g_api g1 = g_api g)
    as (now & g1 & -> & Ha) by (destruct (find_sid _ _); by do 2 eexists).
  unfold GetSubscriptionSID. destruct (find_sid sid (si_subscriptionList svc)) as [j|].
  2:{ cbn. intros [= <- <-]. by eapply kept_put_api. }
  destruct (si_subscriptionList svc !! j) as [s|]; [|done]. cbn [mbind option_bind].
  destruct (expired now s); cbn [mbind option_bind]; [|by intros [= <- <-]; eapply kept_put_api].
  destruct (remove_sub (g_heap g1) j svc) as [[h svc']|] eqn:E; [|done]. cbn. intros [= <- <-].
  eapply kept_put_api; [exact Hs|done|]. by eapply remove_sub_subs.
Qed.

Lemma kept_remove_sid g hnd i sid g' : remove_sid hnd i sid g = Some g' -> kept g g'.
Proof.
  unfold remove_sid, RemoveSubscriptionSID. destruct (service g hnd i) as [svc|] eqn:Hs; [|done].
  cbn [mbind option_bind]. destruct (find_sid sid (si_subscriptionList svc)) as [j|].
  2:{ cbn. intros [= <-]. by eapply kept_put_api. }
  destruct (remove_sub (g_heap g) j svc) as [[h svc']|] eqn:E; [|done]. cbn. intros [= <-].
  eapply kept_put_api; [exact Hs|done|]. by eapply remove_sub_subs.
Qed.

Lemma next_loop_subs now rest h pos total next h' rest' total' :
  next_loop now h pos rest total = Some (next, h', rest', total') -> forall s, s ∈ rest' -> s ∈ rest.
Proof.
  revert h pos total next h' rest' total'.
  induction rest as [|sub rest IH]; intros h pos total next h' rest' total'; cbn [next_loop].
  { intros [= _ _ <- _]. done. }
  destruct (expired now sub).
  - destruct (freeSubscriptionList h [sub]); [|done]. cbn [mbind option_bind].
    intros Hl s Hin. right. exact (IH _ _ _ _ _ _ _ Hl s Hin).
  - destruct (negb _); [by intros [= _ _ <- _]|].
    destruct (next_loop now h (S pos) rest total) as [[[[n2 h2] r2] t2]|] eqn:E; [|done].
    cbn. intros [= _ _ <- _] s [->|Hin]%elem_of_cons; [left|right]. exact (IH _ _ _ _ _ _ _ E _ Hin).
Qed.

Lemma next_from_subs now h svc pos next h' svc' :
  next_from now h svc pos = Some (next, h', svc') ->
  forall s, s ∈ si_subscriptionList svc' -> s ∈ si_subscriptionList svc.
Proof.
  unfold next_from. destruct (next_loop _ _ _ _ _) as [[[[n2 h2] r2] t2]|] eqn:E; [|done].
  cbn. intros [= _ _ <-] s. cbn. rewrite elem_of_app.
  rewrite <- (take_drop pos (si_subscriptionList svc)) at 2. rewrite elem_of_app.
  intros [?|Hin]; [by left|right]. exact (next_loop_subs _ _ _ _ _ _ _ _ _ E _ Hin).
Qed.

Lemma kept_next_sub g hnd i k k' g' : next_sub hnd i k g = Some (k', g') -> kept g g'.
Proof.
  unfold next_sub. destruct (service g hnd i) as [svc|] eqn:Hs; [|done]. cbn [mbind option_bind time].
  unfold GetNextSubscription. destruct (next_from _ _ _ _) as [[[n2 h2] svc']|] eqn:E; [|done].
  cbn. intros [= _ <-]. eapply kept_put_api; [exact Hs|done|]. by eapply next_from_subs.
Qed.

Lemma kept_first_sub g hnd i k' g' : first_sub hnd i g = Some (k', g') -> kept g g'.
Proof.
  unfold first_sub. destruct (service g hnd i) as [svc|] eqn:Hs; [|done]. cbn [mbind option_bind time].
  unfold GetFirstSubscription. destruct (next_from _ _ _ _) as [[[n2 h2] svc']|] eqn:E; [|done].
  cbn. intros [= _ <-]. eapply kept_put_api; [exact Hs|done|]. by eapply next_from_subs.
Qed.

(** ** The sections that post *)

Lemma tags_api g g' : g_api g' = g_api g -> tags g' = tags g.
Proof. intros E. unfold tags, all_subs, services. by rewrite E. Qed.

Lemma kept_lock g : returns (HandleLock g) (fun g' => g_api g' = g_api g).
Proof. unfold HandleLock. rstep; [rstep|by rstep]. Qed.

Lemma kept_unlock g g' : HandleUnlock g = Some g' -> g_api g' = g_api g.
Proof. unfold HandleUnlock. destruct (g_locked g); [|done]. by intros [= <-]. Qed.

Lemma kept_post_event po hnd i k g :
  returns (post_event EQMaxLen EQMaxAge po hnd i k g) (fun '(_, g') => kept g g').
Proof.
  unfold post_event. rstep. rstep. rename a into svc, H0 into Hs. rstep. rstep.
  rename a into sub, H0 into Hk.
  assert (forall l, tag (set_sub_outgoing l sub) ∈ tags g) as Ht.
  { intros l. change (tag (set_sub_outgoing l sub)) with (tag sub).
    eapply tags_in; [exact Hs|]. by eapply list_elem_of_lookup_2. }
  assert (forall g1 l g2, g_api g1 = g_api g -> put_sub hnd i k (set_sub_outgoing l sub) g1 = Some g2 ->
    kept g g2) as Hput.
  { intros g1 l g2 Ha E. transitivity g1; [by apply kept_api|]. eapply kept_put_sub; [exact E|].
    rewrite (tags_api g); [apply Ht|done]. }
  rstep. rstep; cbn [negb]; [|by rstep]. rstep. rstep. cbn [time]. 
  destruct (new_notify _ _) as [p h2]. cbn [time]. rstep. rstep. destruct a0 as [h3 outgoing].
  rstep. rstep; cbn [negb].
  2:{ rstep. rstep. rstep. eapply Hput; [|exact H2]. done. }
  rstep. apply returns_any. intros node. rstep.
  - rstep. apply returns_any. intros [ret pool]. rstep.
    + rstep. rstep. rstep. eapply Hput; [|exact H2]. done.
    + rstep. rstep. rstep. eapply Hput; [|exact H2]. done.
  - rstep. rstep. rstep. eapply Hput; [|exact H2]. done.
Qed.

Lemma kept_post_loop fuel po hnd i finger g :
  returns (post_loop EQMaxLen EQMaxAge fuel po hnd i finger g) (fun '(_, g') => kept g g').
Proof.
  revert finger g. induction fuel as [|fuel IH]; intros finger g; cbn [post_loop]; [by rstep|].
  destruct finger as [k|]; [|by rstep]. rstep.
  eapply returns_mono; [apply kept_post_event|]. intros [[ret|] g1] Hk1; [by rstep|].
  rstep. rstep. destruct a as [finger g2]. eapply returns_mono; [apply IH|].
  intros [ret g3] Hk3. etransitivity; [exact Hk1|]. etransitivity; [|exact Hk3].
  by eapply kept_next_sub.
Qed.

Lemma kept_post_exit ret rc g : returns (post_exit ret rc g) (fun '(_, g') => kept g g').
Proof.
  unfold post_exit. rstep. rstep. rstep. rstep. rstep. apply kept_api.
  rewrite (kept_unlock _ _ H1). destruct rc as [rc|]; [|by simplify_eq].
  destruct (eh_counts (g_heap g) !! rc) as [c|]; [|done]. cbn in H0.
  destruct (c =? 0); by simplify_eq.
Qed.

Lemma kept_init_exit ret p rc g : returns (init_exit ret p rc g) (fun '(_, g') => kept g g').
Proof.
  unfold init_exit. rstep. rstep. rstep. rstep. rstep. apply kept_api.
  rewrite (kept_unlock _ _ H1). destruct (ret =? GENA_SUCCESS); [by simplify_eq|].
  destruct (match p with None => _ | Some p => _ end); [|done]. cbn in H0.
  destruct (match rc with None => _ | Some rc => _ end); [|done]. cbn in H0. by simplify_eq.
Qed.

Lemma kept_then g g1 (m : M (Z * gena P)) :
  kept g g1 -> returns m (fun '(_, g') => kept g1 g') -> returns m (fun '(_, g') => kept g g').
Proof. intros Hk Hm. eapply returns_mono; [exact Hm|]. intros [r g2] H2. by transitivity g1. Qed.

Lemma kept_NotifyAllCommon hnd UDN servId s g :
  returns (genaNotifyAllCommon EQMaxLen EQMaxAge hnd UDN servId s g) (fun '(_, g') => kept g g').
Proof.
  assert (forall g1 ret rc, g_api g1 = g_api g ->
    returns (post_exit ret rc g1) (fun '(_, g') => kept g g')) as Hexit.
  { intros g1 ret rc Ha. eapply kept_then; [|apply kept_post_exit]. by apply kept_api. }
  unfold genaNotifyAllCommon. rstep. rstep; cbn [negb]; [|by apply Hexit].
  destruct (new_count (g_heap g)) as [rc h]. cbv beta iota zeta.
  rstep. rstep; cbn [negb]; [|by apply Hexit]. rstep. rstep; cbn [negb]; [|by apply Hexit].
  rstep. apply returns_any. intros [headers|]; [|by apply Hexit].
  rstep. rstep. rstep. eapply returns_mono; [apply kept_lock|]. intros g1 Ha1. cbn [g_api set_heap] in Ha1.
  destruct (GetHandleInfo hnd (g_api g1)) as [t [info|]]; [|destruct t; by apply Hexit].
  destruct t; [by apply Hexit..|]. rstep. rstep. destruct a0 as [i|]; [|by apply Hexit].
  rstep. rstep. rstep. rstep. destruct a1 as [finger g2].
  pose proof (kept_first_sub _ _ _ _ _ H3) as Hk2.
  assert (kept g g1) as Hk1 by (by apply kept_api).
  rstep. eapply returns_mono; [apply kept_post_loop|]. intros [ret g3] Hk3.
  eapply kept_then; [|apply kept_post_exit]. etransitivity; [exact Hk1|]. by transitivity g2.
Qed.

Lemma kept_NotifyAll hnd UDN servId vars g :
  returns (genaNotifyAll EQMaxLen EQMaxAge hnd UDN servId vars g) (fun '(_, g') => kept g g').
Proof.
  unfold genaNotifyAll. rstep. apply returns_any. intros [ret s].
  rstep; [by rstep|apply kept_NotifyAllCommon].
Qed.

Lemma kept_InitNotifyCommon hnd UDN servId s sid g :
  returns (genaInitNotifyCommon hnd UDN servId s sid g) (fun '(_, g') => kept g g').
Proof.
  assert (forall g1 ret p rc, kept g g1 ->
    returns (init_exit ret p rc g1) (fun '(_, g') => kept g g')) as Hexit.
  { intros g1 ret p rc Ha. eapply kept_then; [exact Ha|apply kept_init_exit]. }
  unfold genaInitNotifyCommon. rstep. rstep; cbn [negb]; [|by apply Hexit].
  rstep. rstep; cbn [negb]; [|by apply Hexit].
  destruct (new_count (g_heap g)) as [rc h]. cbv beta iota zeta.
  rstep. rstep; cbn [negb]; [|by apply Hexit, kept_api]. rstep. rstep; cbn [negb]; [|by apply Hexit, kept_api].
  rstep. eapply returns_mono; [apply kept_lock|]. intros g1 Ha1. cbn [g_api set_heap] in Ha1.
  assert (kept g g1) as Hk1 by (by apply kept_api).
  destruct (GetHandleInfo hnd (g_api g1)) as [t [info|]]; [|destruct t; by apply Hexit].
  destruct t; [by apply Hexit..|]. rstep. rstep. destruct a as [i|]; [|by apply Hexit].
  rstep. rstep. destruct a as [k g2]. pose proof (kept_get_sub _ _ _ _ _ _ H1) as Hk2.
  assert (kept g g2) as Hk02 by (by transitivity g1).
  destruct k as [k|]; [|by apply Hexit]. rstep. rstep. rename a into svc, H2 into Hs.
  rstep. rstep. rename a into sub, H2 into Hk. rstep; [by apply Hexit|].
  assert (tag sub ∈ tags g) as Ht.
  { apply Hk02. eapply tags_in; [exact Hs|]. by eapply list_elem_of_lookup_2. }
  rstep. rstep. rename a into g3, H2 into E3.
  assert (kept g g3) as Hk3.
  { etransitivity; [exact Hk02|]. eapply kept_put_sub; [exact E3|]. change (tag (set_sub_active 1 sub)) with (tag sub).
    eapply tags_in; [exact Hs|]. by eapply list_elem_of_lookup_2. }
  rstep. apply returns_any. intros [headers|]; [|by apply Hexit].
  rstep. rstep. rstep. rstep; cbn [negb]; [|by apply Hexit]. rstep. rstep. cbn [time].
  destruct (new_notify _ _) as [p h4]. cbv beta iota zeta.
  rstep. apply returns_any. intros [ret pool]. cbv beta iota zeta.
  rstep; [apply Hexit; etransitivity; [exact Hk3|by apply kept_api]|].
  rstep. rstep; [|apply Hexit; etransitivity; [exact Hk3|by apply kept_api]].
  rstep. rstep. rename a1 into g5, H4 into E5. apply Hexit.
  assert (tag sub ∈ tags g3) as Ht3.
  { unfold put_sub in E3. rewrite Hs in E3. cbn in E3. injection E3 as <-.
    destruct (all_subs_split g2 hnd i svc Hs) as (rest & _ & Hall'). unfold tags. rewrite Hall'. cbn.
    rewrite fmap_app. apply elem_of_app. left. apply list_elem_of_fmap. exists (set_sub_active 1 sub).
    split; [done|]. apply (list_elem_of_lookup_2 _ k). apply list_lookup_insert_eq. by eapply lookup_lt_Some. }
  intros t Hin. eapply Hk3. refine (kept_put_sub _ _ _ _ _ _ E5 _ t Hin). exact Ht3.
Qed.

Lemma kept_InitNotify hnd UDN servId vars sid g :
  returns (genaInitNotify hnd UDN servId vars sid g) (fun '(_, g') => kept g g').
Proof.
  unfold genaInitNotify. rstep; [by rstep|]. rstep. apply returns_any. intros [ret s].
  rstep; [by rstep|apply kept_InitNotifyCommon].
Qed.
End Keys.

(** ** Sending *)

Section Sending.
Context {P : Type} `{SendPool P} `{!SendPoolLaws P}.
Implicit Types (g : gena P) (svc : service_info) (sub : subscription) (hnd : Z).

Lemma returns_runs {A} (m : M A) Q : runs Safe m Q -> returns m Q.
Proof. intros Hr o a o' E. specialize (Hr o I). rewrite E in Hr. apply Hr. Qed.

Lemma sid_of x busy lost dead g hnd i svc sub :
  ginv x busy lost dead g -> service g hnd i = Some svc -> sub ∈ si_subscriptionList svc ->
  sid_ok (sub_sid sub).
Proof.
  intros Hg Hs Hin. pose proof (q_subs _ _ _ _ _ (gi_q _ _ _ _ _ Hg)) as Hok.
  rewrite Forall_forall in Hok. destruct (Hok sub); [by eapply in_all_subs|done].
Qed.

(** The copy that is sent to has the identifier of the event, and the key of
    the subscription. *)
Lemma notify_start_copy arg busy lost dead g :
  ginv None (arg :: busy) lost dead g -> g_locked g = false ->
  returns (notify_start arg g) (fun '(r, g') => kept g g' /\
    forall copy, r = Some copy -> exists n, eh_structs (g_heap g) !! arg = Some n /\
      sub_sid copy = nts_sid n /\ tag copy ∈ tags g).
Proof.
  intros Hg Hl. unfold notify_start, HandleLock. rewrite Hl. rstep. rstep.
  set (g1 := set_locked true g).
  assert (ginv None (arg :: busy) lost dead g1) as Hg1 by (by apply (ginv_data _ _ _ _ g)).
  assert (kept g g1) as Hk1 by (by apply kept_api).
  assert (forall g2 g3, kept g g2 -> drop_event arg g2 = Some g3 -> kept g g3) as Hdrop.
  { intros g2 g3 Hk E. etransitivity; [exact Hk|]. apply kept_api. unfold drop_event, free_notify in E.
    destruct (free_notify_struct (g_heap g2) arg); [|done]. cbn [mbind option_bind] in E.
    by apply kept_unlock in E. }
  assert (forall g2, kept g g2 -> returns (g ← liftO (drop_event arg g2); mret (None, g))
    (fun '(r, g') => kept g g' /\ forall copy, r = Some copy -> exists n,
      eh_structs (g_heap g) !! arg = Some n /\ sub_sid copy = nts_sid n /\ tag copy ∈ tags g)) as Hd.
  { intros g2 Hk. rstep. rstep. rstep. split; [by eapply Hdrop|done]. }
  rstep. rstep. rstep. rstep. rename a0 into n, H1 into Hn. destruct a as [i|]; [|by apply Hd].
  rstep. rstep. destruct a as [k g2]. pose proof (kept_get_sub _ _ _ _ _ _ H1) as Hk2.
  assert (kept g g2) as Hk02 by (by transitivity g1).
  destruct k as [k|]; [|by apply Hd]. rstep. rstep. rename a into svc, H2 into Hs.
  rstep. rstep. rename a into sub, H2 into Hk.
  assert (exists c, g2 = set_gclock c g1 /\ c_str (nts_sid n) = c_str (sub_sid sub)) as (c & -> & Hcs).
  { unfold get_sub in H1. destruct (service g1 (nts_device_handle n) i) as [svc1|] eqn:Hs1; [|done].
    destruct (get_sub_spec None (arg :: busy) lost dead g1 _ i svc1 (nts_sid n) Hg1 Hs1)
      as (k2 & g3 & E3 & _ & _ & Hk3 & _). unfold get_sub in E3. rewrite Hs1 in E3.
    rewrite H1 in E3. injection E3 as <- <-. destruct Hk3 as (c & sub' & -> & Hsub' & Hc).
    exists c. split; [done|]. change (service (set_gclock c g1) ?a ?b) with (service g1 a b) in Hs.
    by assert (sub' = sub) as -> by congruence. }
  pose proof (list_elem_of_lookup_2 _ _ _ Hk) as Hin.
  assert (sub_sid sub = nts_sid n) as Hsid.
  { apply (same_sid None (arg :: busy) lost dead g1 (nts_device_handle n) i svc sub arg n); done. }
  rstep. eapply returns_mono; [apply returns_runs, copy_subscription_runs|].
  intros [rc copy] (_ & Hcsid & Hckey). rstep; [by apply Hd|].
  rstep. rstep. rename a into g4, H2 into E4. rstep. split.
  { etransitivity; [exact Hk02|]. apply kept_api. by apply kept_unlock in E4. }
  intros copy' [= <-]. exists n. split; [done|].
  assert (sub_sid copy = sub_sid sub) as Hcc.
  { rewrite Hcsid. destruct (sid_of _ _ _ _ _ _ _ _ _ Hg1 Hs Hin) as [-> Hlen].
    apply ztake_all. unfold SID_SIZE in *. lia. }
  split; [congruence|]. assert (tag copy = tag sub) as -> by (unfold tag; congruence).
  apply Hk02. by eapply tags_in.
Qed.

(** The key of the subscription the event was sent to moves on, the others
    stay. *)
Definition key_moves (sid : list Z) g g' : Prop :=
  forall t, t ∈ tags g' -> (t.1 <> sid /\ t ∈ tags g) \/
    (t.1 = sid /\ exists k, t.2 = next_key k /\ (sid, k) ∈ tags g).

Lemma key_moves_gone sid g g' :
  kept g g' -> (forall t, t ∈ tags g' -> t.1 <> sid) -> key_moves sid g g'.
Proof. intros Hk Hn t Ht. left. split; [by apply Hn|by apply Hk]. Qed.

Lemma put_key x busy lost dead g hnd i k svc sub sub' pool g' :
  ginv x busy lost dead g -> service g hnd i = Some svc -> si_subscriptionList svc !! k = Some sub ->
  sub_sid sub' = sub_sid sub -> sub_ToSendEventKey sub' = next_key (sub_ToSendEventKey sub) ->
  put_sub hnd i k sub' (set_pool pool g) = Some g' -> key_moves (sub_sid sub) g g'.
Proof.
  intros Hg Hs Hk Hsid Hkey E t Ht. unfold put_sub in E.
  change (service (set_pool pool g) hnd i) with (service g hnd i) in E. rewrite Hs in E.
  cbn in E. injection E as <-.
  destruct (all_subs_split g hnd i svc Hs) as (rest & Hall & Hall').
  rewrite (tags_api (put_service hnd i (set_subs (si_TotalSubscriptions svc)
    (<[k:=sub']> (si_subscriptionList svc)) svc) g)) in Ht by (by apply put_service_api).
  unfold tags in Ht. rewrite Hall' in Ht. cbn in Ht.
  apply lookup_lt_Some in Hk as Hlt.
  rewrite (delete_Permutation (<[k:=_]> _) k sub') in Ht by (by apply list_lookup_insert_eq).
  rewrite delete_insert_same in Ht.
  assert (tags g ≡ₚ tag sub :: (tag <$> delete k (si_subscriptionList svc) ++ rest)) as Htags
    by exact (fmap_Permutation tag _ _ (Permutation_trans Hall
         (Permutation_app_tail rest (delete_Permutation _ _ _ Hk)))).
  pose proof (q_sids _ _ _ _ _ (gi_q _ _ _ _ _ Hg)) as Hnd.
  rewrite Hall, (delete_Permutation _ _ _ Hk) in Hnd. cbn in Hnd, Ht.
  apply NoDup_cons in Hnd as [Hni _]. apply elem_of_cons in Ht as [->|Ht].
  - right. cbn. split; [done|]. exists (sub_ToSendEventKey sub). split; [done|].
    rewrite Htags. by left.
  - left. rewrite Htags. split; [|by right]. intros Et. apply Hni. rewrite <- Et.
    apply list_elem_of_fmap in Ht as (s & -> & Hin). apply list_elem_of_fmap. by exists s.
Qed.

Lemma advance_tag sub pool :
  returns (advance_queue sub pool) (fun '(sub', _) => tag sub' = tag sub).
Proof.
  unfold advance_queue. destruct (tail (sub_outgoing sub)); [by rstep|].
  rstep. apply returns_any. intros _. rstep. apply returns_any. intros [rc p]. by rstep.
Qed.

Lemma notify_finish_keys rc arg busy lost dead g n :
  ginv None (arg :: busy) lost dead g -> g_locked g = false ->
  eh_structs (g_heap g) !! arg = Some n ->
  returns (notify_finish rc arg g) (fun g' => key_moves (nts_sid n) g g').
Proof.
  intros Hg Hl Hn. unfold notify_finish, HandleLock. rewrite Hl. rstep. rstep.
  set (g1 := set_locked true g).
  assert (ginv None (arg :: busy) lost dead g1) as Hg1 by (by apply (ginv_data _ _ _ _ g)).
  assert (kept g g1) as Hk1 by (by apply kept_api).
  assert (forall g2 g3, drop_event arg g2 = Some g3 -> tags g3 = tags g2) as Hdrop.
  { intros g2 g3 E. apply tags_api. unfold drop_event, free_notify in E.
    destruct (free_notify_struct (g_heap g2) arg); [|done]. cbn [mbind option_bind] in E.
    by apply kept_unlock in E. }
  assert (forall g2, kept g g2 -> (forall hnd j svc sub, service g2 hnd j = Some svc ->
      sub ∈ si_subscriptionList svc -> sub_sid sub <> nts_sid n) ->
    returns (liftO (drop_event arg g2)) (fun g' => key_moves (nts_sid n) g g')) as Hd.
  { intros g2 Hk Hno. rstep. rename select (drop_event arg g2 = Some _) into Ed.
    apply key_moves_gone; intros t; rewrite (Hdrop _ _ Ed); [apply Hk|].
    intros (sub & -> & (hnd & j & svc & Hs & Hin)%all_subs_at)%list_elem_of_fmap. by eapply Hno. }
  destruct (event_service_spec _ _ _ _ g1 arg n Hg1 Hn) as (r & Er & Hsome & Hhome).
  rewrite Er. rstep. rstep. simplify_eq. rstep. rstep. change (g_heap g1) with (g_heap g) in *. simplify_eq.
  destruct a as [i|].
  2:{ apply Hd; [done|]. by eapply (not_found_nowhere _ _ _ _ _ _ _ 0 None); eauto. }
  destruct (Hsome i eq_refl) as [svc Hs].
  destruct (get_sub_spec _ _ _ _ g1 _ i svc (nts_sid n) Hg1 Hs)
    as (k & g2 & E & Hg2 & [Hst Hp Hl2] & Hk & _ & Hback & _).
  pose proof (kept_get_sub _ _ _ _ _ _ E) as Hk2. rewrite E. rstep. rstep. simplify_eq.
  destruct k as [k|].
  - destruct Hk as (c & sub & -> & Hsub & Hcs).
    pose proof (list_elem_of_lookup_2 _ _ _ Hsub) as Hin.
    assert (sub_sid sub = nts_sid n) as Hsid.
    { apply (same_sid None (arg :: busy) lost dead g1 (nts_device_handle n) i svc sub arg n); done. }
    rstep. rstep. change (service (set_gclock c g1) ?a ?b) with (service g1 a b) in *. simplify_eq.
    rstep. rstep. simplify_eq.
    rename select subscription into sub0. rstep. eapply returns_mono; [apply advance_tag|].
    intros [sub' pool'] Ht. unfold tag in Ht. cbn [sub_sid sub_ToSendEventKey set_sub_key] in Ht.
    injection Ht as Hs' Hkey'. rstep. rstep. rename select (put_sub _ _ _ _ _ = Some _) into E3.
    rename a into g3. rstep. rstep. rename a into g4.
    match goal with E : (if _ =? _ then _ else _) = Some g4 |- _ => rename E into E4 end. rstep. rename select (drop_event _ _ = Some _) into E5.
    assert (key_moves (sub_sid sub0) (set_gclock c g1) g3) as Hmv by (eapply put_key; [exact Hg2|done..]).
    rewrite <- Hsid. intros t Ht. rewrite (Hdrop _ _ E5) in Ht.
    assert (kept g3 g4) as Hk4.
    { destruct (rc =? _); [by eapply kept_remove_sid|by simplify_eq]. }
    exact (Hmv t (Hk4 t Ht)).
  - apply Hd; [by transitivity g1|].
    eapply (not_found_nowhere _ _ _ _ _ _ _ i (Some i)); [done| | |by intros _ svc' s; apply Hk|by right].
    + destruct (mem_lookup_fresh _ _ _ _ _ _ Hg2) as [m Hm]. rewrite Hm. apply Hback in Hm. cbn in Hm. congruence.
    + intros hnd j Hh. apply Hhome. eapply event_home_static; [|done]. done.
Qed.
End Sending.

(** ** The history of what is sent *)

Section History.
Context {P : Type} `{SendPool P} `{!SendPoolLaws P} `{!PoolWorkers P} (EQMaxLen EQMaxAge : Z) (md : mode).
Implicit Types (g : gena P) (svc : service_info) (sub : subscription) (hnd : Z)
  (c : config (P := P)).

Lemma kept_unregister hnd g :
  returns (genaUnregisterDevice hnd g) (fun '(_, g') => kept g g').
Proof.
  assert (forall (ret : Z) g1 g2, kept g g1 -> HandleUnlock g1 = Some g2 ->
    returns (mret (ret, g2)) (fun '(_, g') => kept g g')) as Hend.
  { intros ret g1 g2 Hk E. rstep. etransitivity; [exact Hk|]. apply kept_api. by apply kept_unlock. }
  unfold genaUnregisterDevice. rstep. eapply returns_mono; [apply kept_lock|]. intros g1 Ha.
  assert (kept g g1) as Hk1 by (by apply kept_api). rstep.
  destruct (GetHandleInfo hnd (g_api g1)) as [[] [info|]] eqn:Ei;
    try (rstep; rstep; rstep; by eapply Hend).
  rstep. rstep. destruct a as [h t]. rstep. rstep. rstep. eapply Hend; [|done].
  etransitivity; [exact Hk1|]. apply GetHandleInfo_some in Ei as [Hi _].
  assert (st_serviceList t = []) as Ht.
  { rename select (freeServiceTable _ _ = Some _) into E. unfold freeServiceTable in E.
    destruct (ixmlFreeDOMString _) as [b|]; [|done]. cbn in E.
    destruct (freeServiceList _ _) as [h'|]; [|done]. cbn in E. by simplify_eq. }
  intros q Hq. apply list_elem_of_fmap in Hq as (sub & -> & Hin). apply list_elem_of_fmap.
  exists sub. split; [done|]. unfold all_subs, services in *. cbn in Hin.
  change (partial_alter ?f hnd ?m) with (<[hnd := set_ServiceTable t info]> m) in Hin.
  rewrite <- insert_delete_eq, map_to_list_insert in Hin by apply lookup_delete_eq.
  cbn in Hin. rewrite Ht in Hin. cbn in Hin. rewrite <- (map_to_list_delete _ _ _ Hi). cbn.
  rewrite bind_app. apply elem_of_app. by right.
Qed.

(** A step of a client brings no key but that of a new subscription. *)
Lemma client_tags c c' :
  client_moves EQMaxLen EQMaxAge c c' -> forall t, t ∈ tags (shared c') ->
  t ∈ tags (shared c) \/ t.1 ∉ (tags (shared c)).*1.
Proof.
  intros Hm t. assert (kept (shared c) (shared c') ->
    t ∈ tags (shared c') -> t ∈ tags (shared c) \/ t.1 ∉ (tags (shared c)).*1) as Hkept
    by (intros Hk Ht; left; by apply Hk).
  destruct Hm as [s g hnd UDN servId vars ret g' Hroom E
    |s g hnd UDN servId vars sid ret g' Hsz Hsid E|s g hnd i sub g' [Hsid [Ho [Hf1 Hf2]]] E
    |s g hnd i sid k g' E1|s g hnd i k expire g' E2|s g hnd i sid g' E|s g hnd info ret g' Hi Hlive E|s g clk];
    cbn [shared] in *.
  - apply Hkept. exact (returns_run _ _ _ (kept_NotifyAll _ _ _ _ _ _ _) E).
  - apply Hkept. exact (returns_run _ _ _ (kept_InitNotify _ _ _ _ _ _) E).
  - unfold add_sub in E. destruct (service g hnd i) as [svc|] eqn:Hs; [|done].
    cbn in E. injection E as <-. destruct (all_subs_split g hnd i svc Hs) as (rest & Hall & Hall').
    unfold tags. rewrite Hall'. cbn. intros [->|Ht]%elem_of_cons.
    + right. intros (u & E & (s' & -> & Hin)%list_elem_of_fmap)%list_elem_of_fmap.
      by apply (Hf1 s').
    + left. by rewrite Hall.
  - apply Hkept. by eapply kept_get_sub.
  - apply Hkept. unfold set_expire in E2. destruct (service g hnd i) as [svc|] eqn:Hs; [|done].
    cbn [mbind option_bind] in E2. destruct (si_subscriptionList svc !! k) as [sub|] eqn:Hk; [|done].
    eapply kept_put_sub; [exact E2|]. change (tag (set_sub_expireTime expire sub)) with (tag sub).
    eapply tags_in; [exact Hs|]. by eapply list_elem_of_lookup_2.
  - apply Hkept. by eapply kept_remove_sid.
  - apply Hkept. exact (returns_run _ _ _ (kept_unregister _ _) E).
  - by apply Hkept, kept_api.
Qed.

(** The configurations that are reached from one without subscriptions by the
    moves of [GenaSystem] (the threads of the pool with any allocator, the
    others when no allocation fails), with the identifier and the key of every
    event a thread set out to send.  No
    identifier is used twice, and the first key of a subscription is 0. *)
Inductive history : list (list Z * Z) -> config (P := P) -> Prop :=
| hist_nil c : sys_inv [] [] c -> sending c = [] -> all_subs (shared c) = [] -> history [] c
| hist_worker L c r c' :
    history L c -> worker_moves md c r c' -> history (L ++ option_list (tag <$> r)) c'
| hist_client L c c' :
    history L c -> client_moves EQMaxLen EQMaxAge c c' ->
    (forall t, t ∈ tags (shared c') -> t.1 ∉ (tags (shared c)).*1 -> t.1 ∉ L.*1 /\ t.2 = 0) ->
    history L c'.

(** The keys sent to a subscriber, and the ones the protocol asks for: 0, and
    then the positive integers of 32 bits over and over. *)
Definition sent (sid : list Z) (L : list (list Z * Z)) : list Z :=
  snd <$> filter (fun t => t.1 = sid) L.
Definition key_at (n : nat) : Z :=
  if (n =? 0)%nat then 0 else 1 + (Z.of_nat n - 1) mod INT_MAX.
Definition keys_upto (n : nat) : list Z := key_at <$> seq 0 n.

Lemma next_key_at n : next_key (key_at n) = key_at (S n).
Proof.
  unfold next_key, key_at. destruct n as [|n]; [done|]. cbn [Nat.eqb].
  replace (Z.of_nat (S (S n)) - 1) with (Z.of_nat n + 1) by lia.
  replace (Z.of_nat (S n) - 1) with (Z.of_nat n) by lia.
  set (m := Z.of_nat n). pose proof (Z.mod_pos_bound m INT_MAX ltac:(done)) as Hb.
  rewrite (Z.add_mod m 1) by done. change (1 mod INT_MAX) with 1.
  destruct (decide (m mod INT_MAX + 1 = INT_MAX)) as [E|E].
  - rewrite E, Z.mod_same by done. replace (1 + m mod INT_MAX + 1) with (INT_MAX + 1) by lia. done.
  - rewrite (Z.mod_small (m mod INT_MAX + 1)) by lia.
    rewrite to_int_small by lia. rewrite (proj2 (Z.ltb_ge _ 0)) by lia. lia.
Qed.

Lemma keys_upto_S n : keys_upto (S n) = keys_upto n ++ [key_at n].
Proof. unfold keys_upto. by rewrite seq_S, fmap_app. Qed.

Definition in_flight c (sid : list Z) : Prop :=
  exists arg n, arg ∈ sending c /\ struct_of c !! arg = Some n /\ nts_sid n = sid.

(** How the key of a subscription and what was sent to it fit together. *)
Definition in_step L c (t : list Z * Z) : Prop :=
  (in_flight c t.1 /\ exists n, sent t.1 L = keys_upto (S n) /\ t.2 = key_at n) \/
  (~ in_flight c t.1 /\ exists n, sent t.1 L = keys_upto n /\ t.2 = key_at n).

Lemma in_step_same L c c' t :
  in_step L c t -> (in_flight c t.1 <-> in_flight c' t.1) -> in_step L c' t.
Proof. intros [[]|[]] E; [left|right]; by rewrite <- E. Qed.

Lemma sent_other (t : list Z * Z) L u : u.1 <> t.1 -> sent t.1 (L ++ [u]) = sent t.1 L.
Proof.
  intros Hne. unfold sent. rewrite filter_app, filter_cons_False by done. cbn. by rewrite app_nil_r.
Qed.
Lemma sent_same (t : list Z * Z) L : sent t.1 (L ++ [t]) = sent t.1 L ++ [t.2].
Proof. unfold sent. rewrite filter_app, filter_cons_True by done. by rewrite fmap_app. Qed.
Lemma sent_none sid (L : list (list Z * Z)) : sid ∉ L.*1 -> sent sid L = [].
Proof.
  intros Hn. unfold sent. induction L as [|u L IH]; [done|]. cbn in Hn.
  apply not_elem_of_cons in Hn as [Hne Hn]. rewrite filter_cons_False by done. by apply IH.
Qed.

Lemma tag_unique x busy lost dead g t u :
  ginv x busy lost dead g -> t ∈ tags g -> u ∈ tags g -> t.1 = u.1 -> t = u.
Proof.
  intros Hg (s1 & -> & [i Hi]%list_elem_of_lookup_1)%list_elem_of_fmap
    (s2 & -> & [j Hj]%list_elem_of_lookup_1)%list_elem_of_fmap E. cbn in E.
  assert (i = j) as ->.
  { eapply (NoDup_lookup _ i j); [exact (q_sids _ _ _ _ _ (gi_q _ _ _ _ _ Hg))|..].
    - by rewrite list_lookup_fmap, Hi.
    - by rewrite list_lookup_fmap, Hj, E. }
  congruence.
Qed.

(** Two busy events of one subscription are the same. *)
Lemma one_busy x busy lost dead g p q n m t :
  ginv x busy lost dead g -> p ∈ busy -> q ∈ busy -> eh_structs (g_heap g) !! p = Some n ->
  eh_structs (g_heap g) !! q = Some m -> nts_sid n = t.1 -> nts_sid m = t.1 -> t ∈ tags g -> p = q.
Proof.
  intros Hg Hp Hq Hn Hm En Em (sub & -> & Hin)%list_elem_of_fmap.
  pose proof (q_heads _ _ _ _ _ (gi_q _ _ _ _ _ Hg)) as Hh. cbn in En, Em.
  assert (head (args sub) = Some p) by (by apply (Hh p n sub)).
  assert (head (args sub) = Some q) by (by apply (Hh q m sub)). congruence.
Qed.

Lemma in_flight_unmoved c c' sid :
  sending c' = sending c -> unmoved (sending c) (shared c) (shared c') ->
  (forall p, p ∈ sending c -> is_Some (struct_of c !! p)) -> in_flight c sid <-> in_flight c' sid.
Proof.
  intros Es Hu Hlive. unfold in_flight. rewrite Es. split.
  - intros (p & n & Hp & Hn & <-). exists p, n. split; [done|]. split; [by apply Hu|done].
  - intros (p & n & Hp & Hn & <-). destruct (Hlive p Hp) as [m Hm]. exists p, m.
    split; [done|]. split; [done|]. pose proof (Hu p m Hp Hm) as Hm'. unfold struct_of in Hn. congruence.
Qed.

Lemma sending_live lost dead c :
  sys_inv lost dead c -> forall p, p ∈ sending c -> is_Some (struct_of c !! p).
Proof.
  intros [_ (queued & _ & Hg)] p Hp. apply (waits_live _ _ _ _ _ (gi_q _ _ _ _ _ Hg)). set_solver.
Qed.

(** *** The steps *)

Definition hist_inv L c : Prop :=
  (exists lost dead, sys_inv lost dead c) /\ (forall t, t ∈ tags (shared c) -> in_step L c t) /\
  (forall sid, in_flight c sid -> sid ∈ L.*1).

(** An event is taken out of the pool and sent. *)
Lemma start_sends L s g arg pool copy g' lost dead :
  sys_inv lost dead (MkConfig s g) -> (forall t, t ∈ tags g -> in_step L (MkConfig s g) t) ->
  sp_takes (g_pool g) (Zpos arg) pool ->
  may md (notify_start arg (set_pool pool g)) (Some copy, g') ->
  (forall t, t ∈ tags g' -> in_step (L ++ [tag copy]) (MkConfig (arg :: s) g') t) /\
  (forall sid, in_flight (MkConfig (arg :: s) g') sid -> sid = sub_sid copy \/ in_flight (MkConfig s g) sid).
Proof.
  intros Hc Hin Ht E. destruct (taken _ _ _ _ _ _ Hc Ht) as (queued & Hp & Hg).
  destruct Hc as [Hl _]. cbn in Hl.
  pose proof (runs_may _ _ _ _ (notify_start_runs md arg (s ++ queued) lost dead _ Hg Hl) E)
    as [_ [Hg' Eh]].
  destruct (returns_may _ _ _ _ (notify_start_copy arg (s ++ queued) lost dead _ Hg Hl) E)
    as [Hk Hcp]. destruct (Hcp copy eq_refl) as (n & Hn & Hsid & Hcopy). cbn [g_heap set_pool] in *.
  assert (tags (set_pool pool g) = tags g) as Etg by (by apply tags_api).
  split.
  2:{ intros sid (q & m & [->|Hq]%elem_of_cons & Hm & <-); unfold struct_of in Hm; cbn in Hm;
        rewrite Eh in Hm; [left; congruence|right; by exists q, m]. }
  intros t Htag. specialize (Hk t Htag). rewrite Etg in Hk, Hcopy.
  destruct (decide (t.1 = nts_sid n)) as [Es|Es].
  - assert (t = tag copy) as ->.
    { eapply (tag_unique _ _ _ _ _ _ _ Hg); [by rewrite Etg|by rewrite Etg|]. cbn. congruence. }
    left. split.
    { exists arg, n. cbn. split; [by left|]. split; [unfold struct_of; cbn; by rewrite Eh|]. done. }
    destruct (Hin _ Hk) as [[(q & m & Hq & Hm & Em) _]|[_ (k & Hs & Ek)]].
    + exfalso. cbn in Hq. assert (arg = q) as ->.
      { refine (one_busy None (arg :: s ++ queued) lost dead (set_pool pool g) arg q n m (tag copy) Hg _ _ Hn Hm _ Em _);
          [by left|set_solver|done|by rewrite Etg]. }
      pose proof (owned_nodup _ _ _ _ _ (gi_q _ _ _ _ _ Hg)) as Hnd. cbn in Hnd.
      apply NoDup_cons in Hnd as [Hni _]. apply Hni. set_solver.
    + exists k. rewrite sent_same, Hs, keys_upto_S. by rewrite Ek.
  - assert (in_flight (MkConfig s g) t.1 <-> in_flight (MkConfig (arg :: s) g') t.1) as Hfl.
    { unfold in_flight, struct_of. cbn [sending shared]. rewrite Eh. split.
      - intros (q & m & Hq & Hm). exists q, m. split; [by right|done].
      - intros (q & m & [->|Hq]%elem_of_cons & Hm & Em); [congruence|by exists q, m]. }
    destruct (Hin _ Hk) as [[Hf Hs]|[Hf Hs]]; [left|right]; rewrite <- Hfl;
      (split; [done|]); rewrite sent_other by (cbn; congruence); done.
Qed.

(** The next key counts as soon as the event was dealt with. *)
Lemma finish_steps L s1 arg s2 g rc g' lost dead :
  sys_inv lost dead (MkConfig (s1 ++ arg :: s2) g) ->
  (forall t, t ∈ tags g -> in_step L (MkConfig (s1 ++ arg :: s2) g) t) ->
  may md (notify_finish rc arg g) g' ->
  (forall t, t ∈ tags g' -> in_step L (MkConfig (s1 ++ s2) g') t) /\
  (forall sid, in_flight (MkConfig (s1 ++ s2) g') sid -> in_flight (MkConfig (s1 ++ arg :: s2) g) sid).
Proof.
  intros [Hl (queued & Hp & Hg)] Hin E. cbn [sending shared] in *.
  assert (ginv None (arg :: (s1 ++ s2) ++ queued) lost dead g) as Hg1
    by (eapply ginv_perm; [|done|exact Hg]; solve_perm).
  destruct (mem_lookup_fresh _ _ _ _ _ _ Hg1) as [n Hn].
  destruct (runs_may _ _ _ _ (notify_finish_runs md rc arg (s1 ++ s2) queued lost dead g Hg1 Hp Hl) E)
    as [(_ & _ & queued' & lost' & dead' & _ & Hg' & _) Hfew].
  assert (forall sid, in_flight (MkConfig (s1 ++ s2) g') sid ->
    in_flight (MkConfig (s1 ++ arg :: s2) g) sid) as Hback.
  { intros sid (q & m & Hq & Hm & Em). exists q, m. cbn in Hq. split; [cbn; set_solver|].
    split; [by apply Hfew|done]. }
  split; [|exact Hback]. intros t Htag.
  pose proof (returns_may _ _ _ _ (notify_finish_keys rc arg _ lost dead g n Hg1 Hl Hn) E t Htag) as Hk.
  assert (unmoved (s1 ++ s2) g g') as Hu
    by (eapply unmoved_back; [|exact Hg']; intros q m Hm; by apply Hfew).
  assert (arg ∉ s1 ++ s2) as Hni.
  { pose proof (owned_nodup _ _ _ _ _ (gi_q _ _ _ _ _ Hg1)) as Hnd. cbn in Hnd.
    apply NoDup_cons in Hnd as [Hni _]. set_solver. }
  assert (forall sid, sid <> nts_sid n ->
    in_flight (MkConfig (s1 ++ arg :: s2) g) sid <-> in_flight (MkConfig (s1 ++ s2) g') sid) as Hfl.
  { intros sid Hne. split; [|apply Hback].
    intros (q & m & Hq & Hm & Em). unfold struct_of in Hm. cbn in Hq, Hm.
    assert (q <> arg) by congruence. assert (q ∈ s1 ++ s2) by set_solver.
    exists q, m. split; [done|]. split; [by apply Hu|done]. }
  destruct Hk as [[Hne Hk]|[Es (k & Ek & Hk)]].
  { eapply in_step_same; [|by apply Hfl]. destruct (Hin t Hk) as [?|?]; [by left|by right]. }
  right. destruct t as [sid key]. cbn [fst snd] in *. subst sid key. split.
  - intros (q & m & Hq & Hm & Em). cbn [sending] in Hq. apply Hfew in Hm as [Hm Hne].
    apply Hne. symmetry.
    refine (one_busy None (arg :: (s1 ++ s2) ++ queued) lost dead g arg q n m (nts_sid n, k) Hg1 _ _ Hn Hm _ Em Hk);
      [by left|set_solver|done].
  - destruct (Hin _ Hk) as [[_ (j & Hs & Ej)]|[Hf _]].
    + exists (S j). cbn [fst snd] in *. split; [done|]. by rewrite Ej, next_key_at.
    + exfalso. apply Hf. exists arg, n. split; [set_solver|done].
Qed.

Lemma history_inv L c : history L c -> hist_inv L c.
Proof.
  induction 1 as [c Hc Hs Hno|L c r c' _ [(lost & dead & Hc) [IH IL]] Hm
    |L c c' _ [(lost & dead & Hc) [IH IL]] Hm Hnew].
  - split; [by do 2 eexists|]. unfold tags. rewrite Hno. split.
    + intros t Ht. by apply elem_of_nil in Ht.
    + intros sid (p & n & Hp & _). rewrite Hs in Hp. by apply elem_of_nil in Hp.
  - destruct (worker_moves_inv _ _ _ _ _ _ Hc Hm) as (l' & d' & Hc' & _).
    split; [by do 2 eexists|]. destruct Hm as [s g arg pool [copy|] g' Ht E|s1 arg s2 g rc g' E].
    + destruct (start_sends L s g arg pool copy g' lost dead Hc IH Ht E) as [H1 H2].
      split; [exact H1|]. intros sid Hf. cbn. rewrite fmap_app, elem_of_app. cbn.
      destruct (H2 sid Hf) as [->|]; [right; by left|left; by apply IL].
    + cbn [option_list fmap option_fmap option_map]. rewrite app_nil_r.
      destruct (taken _ _ _ _ _ _ Hc Ht) as (queued & Hp & Hg). destruct Hc as [Hl _]. cbn in Hl.
      pose proof (runs_may _ _ _ _ (notify_start_runs md arg (s ++ queued) lost dead _ Hg Hl) E)
        as [_ (Hfew & _)].
      destruct (returns_may _ _ _ _ (notify_start_copy arg (s ++ queued) lost dead _ Hg Hl) E) as [Hk _].
      assert (forall sid, in_flight (MkConfig s g) sid <-> in_flight (MkConfig s g') sid) as Hfl.
      { intros sid. apply in_flight_unmoved; [done| |].
        * destruct Hc' as [_ (q' & _ & Hg')]. eapply unmoved_back; [|exact Hg'].
          intros q m Hm. exact (proj1 (Hfew q m Hm)).
        * intros q Hq. apply (waits_live _ _ _ _ _ (gi_q _ _ _ _ _ Hg)). cbn in Hq. set_solver. }
      split; [|intros sid; rewrite <- Hfl; apply IL].
      intros t Htag. eapply in_step_same; [apply IH|by apply Hfl].
      specialize (Hk t Htag). by rewrite (tags_api g) in Hk by done.
    + cbn [option_list fmap option_fmap option_map]. rewrite app_nil_r.
      destruct (finish_steps L s1 arg s2 g rc g' lost dead Hc IH E) as [H1 H2]. split; [exact H1|].
      intros sid Hf. by apply IL, H2.
  - destruct (client_moves_inv _ _ md _ _ _ _ Hc Hm) as ((l' & d' & Hc' & _) & Es & Hu).
    split; [by do 2 eexists|].
    assert (forall sid, in_flight c sid <-> in_flight c' sid) as Hfl
      by (intros sid; apply in_flight_unmoved; [done..|by eapply sending_live]).
    split; [|intros sid; rewrite <- Hfl; apply IL]. intros t Ht.
    destruct (decide (t.1 ∈ (tags (shared c)).*1)) as [Hold|Hn].
    + eapply in_step_same; [|apply Hfl]. apply IH. by destruct (client_tags _ _ Hm t Ht).
    + destruct (Hnew t Ht Hn) as [HL Hz]. right. split; [|exists 0%nat; split; [by apply sent_none|done]].
      intros Hf%Hfl%IL. done.
Qed.
End History.
