(* ===== verification/GenaProps.v ===== *)
(** What eventing guarantees: the theorems about the system of [GenaSystem], and
    a concrete pool and device on which they are evaluated. *)

From S2P Require Import Prelude CString FreeList LinkedList ThreadPool MemBuffer Uri IxmlNode XmlPrint HttpMake GenaQueue ServiceTable HandleTable Gena GenaInv GenaState GenaSteps GenaTexts GenaPost GenaSystem GenaKeys.

(** ** A pool *)

(** A pool that takes every job and hands them out in order. *)
Definition job_list : Type := list ThreadPoolJob.

#[export] Instance list_pool : SendPool job_list := {|
  sp_add p job := mret (0, p ++ [job]);
  sp_args p := j_arg <$> p;
  sp_ok _ := True
|}.

#[export] Instance list_pool_laws : SendPoolLaws job_list.
Proof.
  split. intros md p job _ _. cbn [sp_add list_pool]. mstep. split; [done|]. cbn.
  rewrite fmap_app. cbn. solve_perm.
Qed.

#[export, refine] Instance list_pool_workers : PoolWorkers job_list := {|
  sp_takes p a p' := exists job, p = job :: p' /\ j_arg job = a
|}.
Proof.
  - intros p a p' _ (job & -> & <-). by split.
  - intros [|job p] _ Hne; [done|]. by exists (j_arg job), p, job.
Defined.

Lemma list_pool_room md : always_room (P := job_list) md.
Proof. intros p job _ _. cbn [sp_add list_pool]. by mstep. Qed.

(** ** States at rest *)

Lemma idle_inv {P} `{SendPool P} (g : gena P) :
  g_locked g = false -> sp_ok (g_pool g) -> sp_args (g_pool g) = [] -> g_heap g = MkEH ∅ ∅ ->
  wf g -> NoDup (sub_sid <$> all_subs g) ->
  Forall (fun s => sid_ok (sub_sid s) /\ sub_outgoing s = []) (all_subs g) ->
  sys_inv [] [] (MkConfig [] g).
Proof.
  intros Hl Hok Ha Hh Hw Hnd Hs. split; [done|]. exists []. cbn [shared sending app]. split; [split; [done|by rewrite Ha]|].
  rewrite Forall_forall in Hs.
  assert (all_subs g ≫= waits = []) as Hwaits.
  { clear Hnd. induction (all_subs g) as [|s l IH]; [done|]. cbn. unfold waits at 1, args.
    destruct (Hs s) as [_ ->]; [set_solver|]. apply IH. intros s' Hin. apply Hs. set_solver. }
  split; [|done|].
  - rewrite Hh. split; cbn [eh_structs].
    + intros rc. cbn [eh_counts]. by rewrite lookup_empty.
    + unfold eh_small. cbn [eh_structs]. rewrite map_size_empty. done.
    + rewrite Hwaits, map_to_list_empty. done.
    + done.
    + apply Forall_forall. intros s Hin. destruct (Hs s Hin) as [Hsid Ho].
      split; unfold waits, args; rewrite ?Ho; try done; constructor.
    + intros p n Hn. by rewrite lookup_empty in Hn.
    + intros p n s Hp. by apply elem_of_nil in Hp.
  - intros hnd i svc sub Hsvc Hin. destruct (Hs sub) as [_ Ho]; [by eapply in_all_subs|].
    split; [by rewrite Ho|]. intros p n Hp. unfold args in Hp. rewrite Ho in Hp.
    by apply elem_of_nil in Hp.
Qed.

(** ** The properties *)

(** A section that leaves the pool and the lock alone. *)
Lemma same_sys {P} `{SendPool P} lost dead s queued (g g' : gena P) :
  g_locked g = false -> pool_holds (g_pool g) queued -> same_frame g g' ->
  ginv None (s ++ queued) lost dead g' -> sys_inv lost dead (MkConfig s g').
Proof.
  intros Hl Hp [_ Ep El] Hg. split; [cbn; congruence|]. exists queued. cbn. by rewrite Ep.
Qed.

Section Properties.
Context {P : Type} `{SendPool P} `{!SendPoolLaws P} `{!PoolWorkers P} (EQMaxLen EQMaxAge : Z).
Implicit Types (g : gena P) (c : config (P := P)).

(** C2: In whatever order the application, the network and the threads of the
    pool run their critical sections, the state keeps its invariant, under these
    conditions: the sections that post events find memory for what they
    allocate (for the threads of the pool allocations may fail, and the pool may
    refuse any job), no counter overflows, the identifier of a new subscription
    is a new one, and a device is unregistered only while its service table was
    not yet released.  The invariant: the lock is free between sections; every
    structure of an event has exactly one owner (the pool, the thread that sends
    it, the queue of one subscription, or nobody when the pool refused its job)
    and every counter counts its structures, so that no event is freed twice or
    used after it was freed; the queue of a subscription is not empty only if
    its first event is in the pool or being sent, except for the subscriptions
    whose queue stands still because the pool refused a job or a thread could
    not copy them.  None is lost when the pool takes every job and all
    allocations succeed. *)
Theorem eventing_invariant md lost dead c c' :
  sys_inv lost dead c -> rtc (moves EQMaxLen EQMaxAge md) c c' -> sys_next md lost dead c'.
Proof. apply moves_inv. Qed.

(** C3: In a state with the invariant these sections return without undefined
    behaviour, in particular without a use after free, a double free or an
    unlock of a free lock, and keep the invariant: posting events, when all
    allocations succeed and no counter overflows; both sections of a sending
    thread, even when allocations fail and whatever the network answered; the
    changes that the handlers of requests make to the subscriptions of a service
    while they hold the lock, that is adding a new one, looking one up (which
    removes it when it has expired), renewing and removing; and unregistering a
    device whose service table has not been released before. *)
Theorem eventing_safe md lost dead s g :
  sys_inv lost dead (MkConfig s g) ->
  (forall hnd UDN servId vars, room g ->
     runs Lucky (genaNotifyAll EQMaxLen EQMaxAge hnd UDN servId vars g)
       (fun '(_, g') => sys_next Lucky lost dead (MkConfig s g'))) /\
  (forall hnd UDN servId vars sid, struct_count g < INT_MAX -> sid_ok sid ->
     runs Lucky (genaInitNotify hnd UDN servId vars sid g)
       (fun '(_, g') => sys_next Lucky lost dead (MkConfig s g'))) /\
  (forall arg pool, sp_takes (g_pool g) (Zpos arg) pool ->
     runs md (notify_start arg (set_pool pool g)) (fun '(r, g') => exists dead', dead ⊆ dead' /\
       sys_inv lost dead' (MkConfig (match r with Some _ => arg :: s | None => s end) g'))) /\
  (forall arg s' rc, s ≡ₚ arg :: s' ->
     runs md (notify_finish rc arg g) (fun g' => exists lost' dead', dead ⊆ dead' /\
       sys_inv lost' dead' (MkConfig s' g'))) /\
  (forall hnd i svc sub, service g hnd i = Some svc -> fresh_sub sub g ->
     exists g', add_sub hnd i sub g = Some g' /\ sys_inv lost dead (MkConfig s g')) /\
  (forall hnd i svc sid, service g hnd i = Some svc ->
     exists k g', get_sub hnd i sid g = Some (k, g') /\ sys_inv lost dead (MkConfig s g') /\
       forall j, k = Some j -> exists sub, si_subscriptionList svc !! j = Some sub /\
         c_str (sub_sid sub) = c_str sid /\ service g' hnd i = Some svc) /\
  (forall hnd i svc k expire, service g hnd i = Some svc -> is_Some (si_subscriptionList svc !! k) ->
     exists g', set_expire hnd i k expire g = Some g' /\ sys_inv lost dead (MkConfig s g')) /\
  (forall hnd i svc sid, service g hnd i = Some svc ->
     exists g', remove_sid hnd i sid g = Some g' /\ sys_inv lost dead (MkConfig s g')) /\
  (forall hnd info, GetHandleInfo hnd (g_api g) = (HND_DEVICE, Some info) ->
     table_live (hi_ServiceTable info) ->
     runs md (genaUnregisterDevice hnd g) (fun '(rc, g') => rc = UPNP_E_SUCCESS /\
       sys_inv lost dead (MkConfig s g'))).
Proof.
  intros Hc. pose proof Hc as [Hl (queued & Hp & Hg)]. cbn [shared sending] in *. split_and!.
  - intros hnd UDN servId vars Hroom. eapply runs_mono; [by eapply genaNotifyAll_runs|].
    intros [rc g'] [Hf _]. by eapply finished_lucky.
  - intros hnd UDN servId vars sid Hsz Hsid. eapply runs_mono; [by eapply genaInitNotify_runs|].
    intros [rc g'] [Hf _]. by eapply finished_lucky.
  - intros arg pool Ht. destruct (taken _ _ _ _ _ _ Hc Ht) as (queued' & Hp' & Hg').
    eapply runs_mono; [by eapply (notify_start_runs md arg)|].
    intros [r g'] [(_ & Ep & Hl') Hr]. cbn in Ep. destruct r as [copy|].
    + exists dead. split; [done|]. split; [done|]. exists queued'. cbn. rewrite Ep. by destruct Hr.
    + destruct Hr as (_ & dead' & Hg2 & Hd & _). exists dead'. split; [done|]. split; [done|].
      exists queued'. cbn. by rewrite Ep.
  - intros arg s' rc Hs. eapply runs_mono; [eapply (notify_finish_runs md rc arg s' queued lost dead g);
      [|done..]|].
    + eapply ginv_perm; [|done|exact Hg]. by rewrite Hs.
    + intros g' [(_ & Hl' & queued' & lost' & dead' & Hp' & Hg' & Hd & _) _].
      exists lost', dead'. split; [done|]. split; [done|by exists queued'].
  - intros hnd i svc sub Hs (Hsid & Ho & Hf1 & Hf2).
    destruct (add_sub_spec _ _ _ _ g hnd i svc sub Hg Hs Hsid Ho Hf1 Hf2) as (g' & E & Hg' & Hf & _).
    exists g'. split; [done|]. by eapply same_sys.
  - intros hnd i svc sid Hs.
    destruct (get_sub_spec _ _ _ _ g hnd i svc sid Hg Hs) as (k & g' & E & Hg' & Hf & Hk & _).
    exists k, g'. split; [done|]. split; [by eapply same_sys|]. intros j ->.
    destruct Hk as (clk & sub & -> & Hsub & Hc'). by exists sub.
  - intros hnd i svc k expire Hs [sub Hk]. unfold set_expire. rewrite Hs. cbn [mbind option_bind].
    rewrite Hk. cbn [mbind option_bind].
    destruct (put_same_queue _ _ _ _ g hnd i k svc sub (set_sub_expireTime expire sub) Hg Hs Hk)
      as (g' & E & Hg' & Hf & _); [done..|]. exists g'. split; [done|]. by eapply same_sys.
  - intros hnd i svc sid Hs.
    destruct (remove_sid_spec _ _ _ _ g hnd i svc sid Hg Hs) as (g' & E & Hg' & Hf & _).
    exists g'. split; [done|]. by eapply same_sys.
  - intros hnd info Hi Hlive.
    eapply runs_mono; [by eapply (genaUnregisterDevice_runs md hnd (s ++ queued) lost dead g info)|].
    intros [rc g'] (-> & Hg' & Hp' & Hl' & _). split; [done|]. split; [done|].
    exists queued. cbn. by rewrite Hp'.
Qed.

(** C4: Every event that was posted is dealt with: if the pool takes every job
    and all allocations of its threads succeed, then from every state with the invariant the threads of the pool come, by
    any sequence of their sections and whatever the subscribers answer, to a
    state where no event is queued or being sent, every queue is empty and all
    memory of events was freed; they are never stuck before. *)
Theorem events_drained c :
  always_room (P := P) Lucky -> sys_inv [] [] c -> eventually Lucky drained c.
Proof.
  intros Hroom. remember (measure c) as n eqn:En. revert c En.
  induction (lt_wf n) as [n _ IH]. intros c -> Hc.
  destruct (can_move Lucky c Hc) as [Hd|(r & c' & Hm)]; [by apply ev_now|].
  apply (ev_step _ _ c r c' Hm). intros r2 c2 Hm2.
  destruct (worker_moves_inv _ _ _ _ _ _ Hc Hm2) as (lost & dead & Hc2 & _ & Heq).
  destruct (Heq eq_refl Hroom) as [-> ->].
  exact (IH (measure c2) (worker_moves_measure _ _ _ _ _ _ Hc Hm2) c2 eq_refl Hc2).
Qed.

(** C5: The events of a subscription are sent one after the other and with the
    keys the protocol asks for, in every history of a device in which the
    sections that post events find memory for what they allocate and the other
    conditions of C2 hold (allocations of the threads of the pool may fail, and
    the pool may refuse jobs): the keys sent so
    far to a subscriber are 0, 1, 2, ... without a gap or a repetition (1
    following the largest [int]); while one of its events is being sent the key
    of the subscription is that of this event, and otherwise it is the next
    one. *)
Theorem event_keys md L c sub :
  history EQMaxLen EQMaxAge md L c -> sub ∈ all_subs (shared c) ->
  exists n, sub_ToSendEventKey sub = key_at n /\
    ((in_flight c (sub_sid sub) /\ sent (sub_sid sub) L = keys_upto (S n)) \/
     (~ in_flight c (sub_sid sub) /\ sent (sub_sid sub) L = keys_upto n)).
Proof.
  intros [_ [Hin _]]%history_inv Hsub.
  destruct (Hin (tag sub)) as [[Hf (n & Hs & Hk)]|[Hf (n & Hs & Hk)]]; [by apply list_elem_of_fmap; exists sub|..];
    exists n; auto.
Qed.
End Properties.

(** ** A device with one subscription *)

Definition no_urls : URL_list := MkURLs 0 [] 0 [].
Definition a_sub : subscription := MkSub (cs "uuid:1") 0 0 1 no_urls [].
Definition a_service (subs : list subscription) : service_info :=
  MkService (DStr (cs "type")) (DStr (cs "s")) None None None (DStr (cs "u")) 1 (zlen subs) subs.
Definition a_handle (subs : list subscription) : Handle_Info :=
  MkHandle HND_DEVICE 0 0 0 [] [] [] 0 0 0 0 None [] [] (MkTable DNull [a_service subs] (Some 0%nat))
    (-1) (-1) 2 [] [].
Definition a_state (subs : list subscription) : gena job_list :=
  MkGena (MkApi {[1 := a_handle subs]} 1 0) (MkEH ∅ ∅) [] [] false.
Definition some_vars : list (list Z * list Z) := [(cs "Status", cs "1")].

Definition posted_once : gena job_list :=
  match run (genaNotifyAll 100 30 1 (cs "u") (cs "s") some_vars (a_state [a_sub])) with
  | Some (_, g) => g
  | None => a_state []
  end.

Lemma a_state_wf subs : wf (a_state subs).
Proof. by repeat constructor; try by eexists. Qed.

Lemma a_state_inv : sys_inv [] [] (MkConfig [] (a_state [a_sub])).
Proof.
  apply idle_inv; try done; [apply a_state_wf|apply NoDup_singleton|].
  by repeat constructor.
Qed.

Lemma a_state_posts :
  client_moves 100 30 (MkConfig [] (a_state [a_sub])) (MkConfig [] posted_once).
Proof.
  apply (move_notify 100 30 [] (a_state [a_sub]) 1 (cs "u") (cs "s") some_vars 0); [done|].
  vm_compute. reflexivity.
Qed.

Lemma eventing_invariant_witness :
  sys_next Total [] [] (MkConfig [] posted_once) /\ sp_args (g_pool posted_once) = [1].
Proof.
  split; [|vm_compute; reflexivity].
  apply (eventing_invariant 100 30 Total [] [] _ _ a_state_inv), rtc_once. right. exact a_state_posts.
Defined.

(** Why posting needs memory: when [ListAddTail] fails while an event of the
    subscription is in the pool, a second one is put there. *)
Lemma two_events_at_once :
  let '(rc, g) :=
    match genaNotifyAll 100 30 1 (cs "u") (cs "s") some_vars posted_once (replicate 8 true ++ [false]) with
    | Ret r _ => r
    | _ => (1, a_state [])
    end in
  rc = 0 /\ sp_args (g_pool g) = [1; 2] /\
  nts_sid <$> eh_structs (g_heap g) = {[1%positive := cs "uuid:1"; 2%positive := cs "uuid:1"]}.
Proof. vm_compute. by split_and!. Qed.

(** And when it fails for the first event of a subscription, the thread that
    takes the event from the pool finds it freed. *)
Lemma first_event_freed :
  (let '(_, g) := default (0, a_state [])
     (match genaInitNotify 1 (cs "u") (cs "s") some_vars (cs "uuid:1")
        (a_state [set_sub_active 0 a_sub]) (replicate 8 true ++ [false]) with
      | Ret r _ => Some r
      | _ => None
      end) in
   sp_args (g_pool g) = [1] /\ notify_start 1 (set_pool [] g) [] = UB).
Proof. vm_compute. split; reflexivity. Qed.

#[local] Opaque posted_once.

Lemma eventing_safe_witness :
  runs Total (notify_start 1 (set_pool [] posted_once)) (fun '(r, g') => exists dead', [] ⊆ dead' /\
    sys_inv [] dead' (MkConfig (match r with Some _ => [1%positive] | None => [] end) g')).
Proof.
  assert (sys_inv [] [] (MkConfig [] posted_once)) as Hc.
  { destruct (moves_inv 100 30 Lucky [] [] _ _ a_state_inv (rtc_once _ _ (or_intror a_state_posts)))
      as (lost & dead & Hc & _ & Heq).
    by destruct (Heq eq_refl (list_pool_room Lucky)) as [-> ->]. }
  pose proof (proj1 (proj2 (proj2 (eventing_safe 100 30 Total [] [] [] posted_once Hc)))
    1%positive []) as Hs. apply Hs. exists (event_job 1).
  split; vm_compute; reflexivity.
Defined.

Lemma events_drained_witness : eventually Lucky drained (MkConfig [] posted_once).
Proof.
  apply (events_drained (MkConfig [] posted_once) (list_pool_room Lucky)).
  destruct (moves_inv 100 30 Lucky [] [] _ _ a_state_inv (rtc_once _ _ (or_intror a_state_posts)))
    as (lost & dead & Hc & _ & Heq).
  by destruct (Heq eq_refl (list_pool_room Lucky)) as [-> ->].
Defined.

(** A subscriber comes, an event is posted and a thread starts to send it. *)
Lemma subscribed_history : history 100 30 Total [] (MkConfig [] (a_state [a_sub])).
Proof.
  apply (hist_client 100 30 Total [] (MkConfig [] (a_state []))).
  - apply hist_nil; [|done|done]. assert (all_subs (a_state []) = []) as E by (vm_compute; reflexivity).
    apply idle_inv; rewrite ?E; try done; [apply a_state_wf|constructor].
  - apply (move_subscribe 100 30 [] (a_state []) 1 0 a_sub); [|vm_compute; reflexivity].
    split; [done|]. split; [done|]. split; [intros s Hs; by apply elem_of_nil in Hs|].
    intros p n Hn. cbn in Hn. by rewrite lookup_empty in Hn.
  - intros t Ht _. vm_compute in Ht. apply list_elem_of_singleton in Ht as ->. split; [|done].
    by intros ?%elem_of_nil.
Qed.

Definition sent_once : gena job_list :=
  match run (notify_start 1 (set_pool [] posted_once)) with Some (_, g) => g | None => a_state [] end.

#[local] Opaque sent_once.

Lemma event_keys_witness :
  exists n, 0 = key_at n /\
    ((in_flight (MkConfig [1%positive] sent_once) (cs "uuid:1") /\
        sent (cs "uuid:1") [(cs "uuid:1", 0)] = keys_upto (S n)) \/
     (~ in_flight (MkConfig [1%positive] sent_once) (cs "uuid:1") /\
        sent (cs "uuid:1") [(cs "uuid:1", 0)] = keys_upto n)).
Proof.
  destruct (all_subs sent_once) as [|sub l] eqn:E; [vm_compute in E; discriminate|].
  assert (sub_sid sub = cs "uuid:1" /\ sub_ToSendEventKey sub = 0) as [Hs Hk].
  { vm_compute in E. injection E as <- _. by split. }
  assert (history 100 30 Total [(cs "uuid:1", 0)] (MkConfig [1%positive] sent_once)) as Hh.
  { refine (hist_worker 100 30 Total [] (MkConfig [] posted_once) (Some (set_sub_outgoing [] a_sub)) _ _ _).
    - refine (hist_client 100 30 Total [] _ _ subscribed_history a_state_posts _).
      intros t Ht Hn. destruct Hn. vm_compute in Ht. apply list_elem_of_singleton in Ht as ->.
      by left.
    - apply (move_start Total [] posted_once 1 [] (Some (set_sub_outgoing [] a_sub)) sent_once).
      + exists (event_job 1). split; vm_compute; reflexivity.
      + apply run_may. vm_compute. reflexivity. }
  assert (sub ∈ all_subs (shared (MkConfig [1%positive] sent_once))) as Hin
    by (cbn [shared]; rewrite E; left).
  pose proof (event_keys 100 30 Total _ _ sub Hh Hin) as Hres.
  rewrite Hs, Hk in Hres. exact Hres.
Defined.
