(* ===== verification/GenaRequests.v ===== *)
(** The messages of eventing: the rest of [upnp/src/gena/gena_device.c] and
    [upnp/src/gena/gena_callback2.c].

    [genaNotify] sends one event to the delivery URLs of a subscription, and
    [genaNotifyThread] is the thread of the pool that calls it between its two
    sections; the other threads run in between ([others]).  The handlers of
    subscriptions work on the state [gena] and the connection of the request.
    A delivery URL is an offset into the text of its list. *)

From S2P Require Import Prelude CString FreeList LinkedList ThreadPool MemBuffer StrIntMap HttpTables Uri Scanner HttpMessage HttpParser Sock HttpMake HttpIO IxmlNode XmlPrint UpnpString GenaQueue ServiceTable HandleTable Gena.

Definition UPNP_TIMEOUT : Z := 30.
Definition DEFAULT_TIMEOUT : Z := 1801.
Definition GENA_NOTIFICATION_SENDING_TIMEOUT : Z := HTTP_DEFAULT_TIMEOUT.
Definition GENA_NOTIFICATION_ANSWERING_TIMEOUT : Z := HTTP_DEFAULT_TIMEOUT.
Definition HTTP_NOT_FOUND : Z := 404.
Definition HTTP_PRECONDITION_FAILED : Z := 412.
Definition HTTP_NOT_IMPLEMENTED : Z := 501.
Definition X_USER_AGENT : list Z := Eval vm_compute in cs "redsonic".
Definition SID_TYPE_SIZE : Z := 44.

(** The address of the device on its interfaces, as text: [gIF_IPV4],
    [gIF_IPV4_NETMASK], [gIF_IPV6], [gIF_IPV6_ULA_GUA] and the two prefix
    lengths. *)
Record interface := MkInterface {
  gIF_IPV4 : list Z;
  gIF_IPV4_NETMASK : list Z;
  gIF_IPV6 : list Z;
  gIF_IPV6_PREFIX_LENGTH : Z;
  gIF_IPV6_ULA_GUA : list Z;
  gIF_IPV6_ULA_GUA_PREFIX_LENGTH : Z
}.

Section Requests.
Context (junk : Z).
Context (getaddrinfo : list Z -> option (list sockaddr))
  (inet_pton : Z -> list Z -> option (list Z)) (gIF_INDEX : Z).
Context (sysname release UPNP_VERSION_STRING : list Z).
Context (gmtime : Z -> option tm) (now : Z) (codes : statcodes).
Context (g_maxContentLength : Z).
Context (files : list Z -> option (list Z)) {V : Type} (vd_open : list Z -> option V)
  (vd_seek : V -> Z -> Z * V) (vd_read : V -> Z -> Z * list Z * V) (virtual_fuel : nat).
Context (gIF : interface).
Context {P : Type} `{SendPool P}.
Implicit Types (g : gena P) (nt : net) (sub : subscription) (request : http_message_t).

Local Abbreviation make := (http_MakeMessage junk sysname release UPNP_VERSION_STRING gmtime now codes).
Local Abbreviation send := (http_SendMessage files vd_open vd_seek vd_read virtual_fuel).
Local Abbreviation recv_msg := (http_RecvMessage junk getaddrinfo inet_pton gIF_INDEX g_maxContentLength).
Local Abbreviation respond := (http_SendStatusResponse junk sysname release UPNP_VERSION_STRING gmtime now codes
  files vd_open vd_seek vd_read virtual_fuel).
Local Abbreviation parse := (parse_uri getaddrinfo inet_pton gIF_INDEX).
Local Abbreviation device_for_path := (GetDeviceHandleInfoForPath getaddrinfo inet_pton gIF_INDEX).
Local Abbreviation match_str := (matchstr getaddrinfo inet_pton gIF_INDEX).

(** ** Sending an event *)

(** A fixed URL as text and tokens: the literal path stands behind the text. *)
Definition fixed_text (text : list Z) (f : fixed) : list Z * uri_type :=
  match fx_path f with
  | None => (text, fx_url f)
  | Some lit => (text ++ lit, set_pathquery (MkToken (zlen text) (zlen lit)) (fx_url f))
  end.

(** [e] opens the connection; [response] is what the memory of the parser held.
    The connection is part of the result. *)
Definition notify_send_and_recv (e : opening) (text : list Z) (destination_url : uri_type)
    (mid_msg : membuffer) (propertySet : list Z) (response : http_parser_t)
    : M (Z * http_parser_t * net) :=
  let '(conn_fd, url) := http_Connect e text destination_url in
  if conn_fd <? 0 then mret (UPNP_E_SOCKET_CONNECT, response, op_net e)
  else
  let '(ret_code, _) := sock_init conn_fd in
  if negb (ret_code =? 0) then mret (ret_code, response, op_net e)
  else
  let '(url_text, url) := fixed_text text url in
  '(rc, start_msg) ← make membuffer_init 1 1 "qs"
    [HttpMake.AInt HTTPMETHOD_NOTIFY; HttpMake.AUri url_text url; HttpMake.AStr (mb_buf mid_msg)];
  if negb (rc =? 0) then mret (UPNP_E_OUTOF_MEMORY, response, op_net e)
  else
  '(ret_code, _, nt) ← send (op_net e) GENA_NOTIFICATION_SENDING_TIMEOUT (cs "bbb")
    [HttpMake.AStr (mb_buf start_msg); ASize (mb_length start_msg);
     HttpMake.AStr (Some propertySet); ASize (strlen propertySet);
     HttpMake.AStr (Some EOL); ASize 2];
  if negb (ret_code =? 0) then mret (ret_code, response, nt)
  else
  '(ret_code, response, _, _, nt) ←
    recv_msg nt response HTTPMETHOD_NOTIFY GENA_NOTIFICATION_ANSWERING_TIMEOUT;
  mret (ret_code, response, nt).

(** The loop over the URLs, until one goes through; [es] opens the connection
    to each of them.  The connections are the last component. *)
Fixpoint notify_urls (es : list opening) (text : list Z) (urls : list uri_type)
    (mid_msg : membuffer) (propertySet : list Z) (return_code : Z) (response : http_parser_t)
    : M (Z * http_parser_t * list net) :=
  match urls, es with
  | url :: urls', e :: es' =>
      '(return_code, response, nt) ←
        notify_send_and_recv e text url mid_msg propertySet response;
      if return_code =? UPNP_E_SUCCESS then mret (return_code, response, [nt])
      else
        '(return_code, response, nts) ←
          notify_urls es' text urls' mid_msg propertySet return_code response;
        mret (return_code, response, nt :: nts)
  | _, _ => mret (return_code, response, [])
  end.

Definition notify_status (return_code status_code : Z) : Z :=
  if return_code =? UPNP_E_SUCCESS then
    if status_code =? HTTP_OK then GENA_SUCCESS
    else if status_code =? HTTP_PRECONDITION_FAILED then GENA_E_NOTIFY_UNACCEPTED_REMOVE_SUB
    else GENA_E_NOTIFY_UNACCEPTED
  else return_code.

Definition genaNotify (es : list opening) (headers propertySet : list Z) sub : M (Z * list net) :=
  '(rc, mid_msg) ← make membuffer_init 1 1 "ssscsdcc"
    [HttpMake.AStr (Some headers); lit_arg "SID: "; HttpMake.AStr (Some (sub_sid sub));
     lit_arg "SEQ: "; HttpMake.AInt (sub_ToSendEventKey sub)];
  if negb (rc =? 0) then mret (UPNP_E_OUTOF_MEMORY, [])
  else
    let urls := sub_DeliveryURLs sub in
    '(return_code, response, nts) ← notify_urls es (ul_URLs urls)
      (ztake (ul_size urls) (ul_parsedURLs urls)) mid_msg propertySet (-1) parser_init;
    mret (notify_status return_code (m_status_code (p_msg response)), nts).

Definition genaNotifyThread (es : list opening) (others : gena P -> gena P) (arg : loc) g
    : M (gena P * list net) :=
  '(r, g) ← notify_start arg g;
  match r with
  | None => mret (g, [])
  | Some sub_copy =>
      n ← liftO (notification (g_heap g) arg);
      '(return_code, nts) ← genaNotify es (nts_headers n) (nts_propertySet n) sub_copy;
      g ← notify_finish return_code arg (others g);
      mret (g, nts)
  end.

(** ** Events given as a document *)

Section Documents.
Context (EQMaxLen EQMaxAge : Z) (st : nodes).

Definition genaInitNotifyExt (device_handle : Z) (UDN servId : list Z) (PropSet : ptr)
    (sid : list Z) g : M (Z * gena P) :=
  match PropSet with
  | None => mret (GENA_SUCCESS, g)
  | Some _ =>
      propertySet ← ixmlPrintNode junk st PropSet;
      match propertySet with
      | DNull => mret (UPNP_E_INVALID_PARAM, g)
      | _ => genaInitNotifyCommon device_handle UDN servId propertySet sid g
      end
  end.

Definition genaNotifyAllExt (device_handle : Z) (UDN servId : list Z) (PropSet : ptr) g
    : M (Z * gena P) :=
  propertySet ← ixmlPrintNode junk st PropSet;
  match propertySet with
  | DNull => mret (UPNP_E_INVALID_PARAM, g)
  | _ => genaNotifyAllCommon EQMaxLen EQMaxAge device_handle UDN servId propertySet g
  end.
End Documents.

(** ** Answers *)

Definition error_respond nt (error_code : Z) request : M net :=
  let '(major, minor) := http_CalcResponseVersion (m_major_version request) (m_minor_version request) in
  '(_, nt) ← respond nt error_code major minor;
  mret nt.

Definition respond_ok nt (time_out : Z) sub request : M (Z * net) :=
  let '(major, minor) := http_CalcResponseVersion (m_major_version request) (m_minor_version request) in
  let '(rc, timeout_str) :=
    if 0 <=? time_out then snprintf 100 (cs "TIMEOUT: Second-" ++ itoa time_out)
    else (0, cs "TIMEOUT: Second-infinite") in
  if 100 <=? rc then
    nt ← error_respond nt HTTP_INTERNAL_SERVER_ERROR request; mret (UPNP_E_OUTOF_MEMORY, nt)
  else
  let response := Membuffer (mb_buf membuffer_init) (mb_length membuffer_init)
                    (mb_capacity membuffer_init) 30 in
  '(rc, response) ← make response major minor "RDSNXcsscscc"
    [HttpMake.AInt HTTP_OK; AOff 0; HttpMake.AStr (Some X_USER_AGENT); lit_arg "SID: ";
     HttpMake.AStr (Some (sub_sid sub)); HttpMake.AStr (Some timeout_str)];
  if negb (rc =? 0) then
    nt ← error_respond nt HTTP_INTERNAL_SERVER_ERROR request; mret (UPNP_E_OUTOF_MEMORY, nt)
  else
    '(return_code, _, nt) ← send nt UPNP_TIMEOUT (cs "b")
      [HttpMake.AStr (mb_buf response); ASize (mb_length response)];
    mret (return_code, nt).

(** ** The delivery URLs *)

(** One pass over the text: the parsed URLs behind each ['<'], until [limit] of
    them were found, or [None] when the resolver is out of memory. *)
Fixpoint url_scan (fuel : nat) (text : list Z) (size i : Z) (limit : option Z)
    : option (option (list uri_type)) :=
  match fuel with
  | O => None
  | S fuel' =>
      if i <? size then
        if (rd text i =? $"<") && (i + 1 <? size) then
          '(return_code, temp) ← parse (i + 1) (zdrop (i + 1) text) (size - i + 1);
          if (return_code =? HTTP_SUCCESS) && negb (tk_size (hp_text (u_hostport temp)) =? 0) then
            if bool_decide (limit = Some 1) then Some (Some [temp])
            else
              rest ← url_scan fuel' text size (i + 1) (Z.pred <$> limit);
              Some (option_map (cons temp) rest)
          else if return_code =? UPNP_E_OUTOF_MEMORY then Some None
          else url_scan fuel' text size (i + 1) limit
        else url_scan fuel' text size (i + 1) limit
      else Some (Some [])
  end.

(** [url_list] is the value of the header, a string; the copy is a block of its
    own with a NUL behind it.  The bytes behind that NUL are indeterminate, or
    not in the block. *)
Definition create_url_list (url_list : memptr) : M (Z * URL_list) :=
  let size := mp_length url_list in
  let nothing := MkURLs 0 [] 0 [] in
  let text := ztake size (mp_buf url_list) in
  first ← liftO (url_scan (S (Z.to_nat size)) text size 0 None);
  match first with
  | None => mret (UPNP_E_OUTOF_MEMORY, nothing)
  | Some found =>
      if 0 <? zlen found then
        ok1 ← malloc_ok;
        ok2 ← malloc_ok;
        if negb ok1 || negb ok2 then mret (UPNP_E_OUTOF_MEMORY, nothing)
        else
          second ← liftO (url_scan (S (Z.to_nat size)) text size 0 (Some (zlen found)));
          match second with
          | None => mret (UPNP_E_OUTOF_MEMORY, nothing)
          | Some parsed => mret (to_int (zlen found), MkURLs (zlen found) text 0 parsed)
          end
      else mret (0, nothing)
  end.

Definition masked (a mask : list Z) : list Z := zip_with Z.land a mask.

Definition gena_validate_delivery_urls (foreign : sockaddr) (urls : URL_list) : Z :=
  let addrs := (fun u => sin_addr (hp_IPaddress (u_hostport u))) <$>
                 ztake (ul_size urls) (ul_parsedURLs urls) in
  if ss_family foreign =? AF_INET then
    match inet_pton AF_INET (gIF_IPV4 gIF) with
    | None => -1
    | Some addr4 =>
        match inet_pton AF_INET (gIF_IPV4_NETMASK gIF) with
        | None => -1
        | Some netmask =>
            if forallb (fun a => bool_decide (masked (ztake 4 a) netmask = masked addr4 netmask)) addrs
            then 0 else -1
        end
    end
  else if ss_family foreign =? AF_INET6 then
    match inet_pton AF_INET6 (gIF_IPV6 gIF) with
    | None => -1
    | Some lla =>
        match inet_pton AF_INET6 (gIF_IPV6_ULA_GUA gIF) with
        | None => -1
        | Some ula_gua =>
            if forallb (fun a =>
                 let '(own, if_prefix) :=
                   if is_linklocal a then (lla, gIF_IPV6_PREFIX_LENGTH gIF)
                   else (ula_gua, gIF_IPV6_ULA_GUA_PREFIX_LENGTH gIF) in
                 memcmp a own (if_prefix / 8) =? 0) addrs
            then 0 else -1
        end
    end
  else 0.

(** ** Requests *)

Definition header request (id : Z) : option memptr :=
  '(_, h) ← httpmsg_find_hdr request id; Some (value_ptr h).

(** The path and query of the request. *)
Definition request_path request : list Z :=
  zdrop (tk_buff (u_pathquery (m_uri request))) (default [] (m_urlbuf request)).
Definition path_size request : Z := tk_size (u_pathquery (m_uri request)).

(** The time the subscriber asks for, and the bound of the device on it. *)
Definition requested_timeout request (MaxSubscriptionTimeOut : Z) : M Z :=
  time_out ← match header request HDR_TIMEOUT with
             | None => mret 1801
             | Some timeout_hdr =>
                 '(status, outs) ← match_str (mp_buf timeout_hdr) (mp_length timeout_hdr)
                   (cs "%iSecond-%d%0");
                 match decide (status = PARSE_OK), outs with
                 | left _, Scanner.AInt n :: _ => mret n
                 | _, _ =>
                     mret (if memptr_cmp_nocase timeout_hdr (cs "Second-infinite") =? 0 then -1
                           else DEFAULT_TIMEOUT)
                 end
             end;
  mret (if negb (MaxSubscriptionTimeOut =? -1) then
          if (time_out =? -1) || (MaxSubscriptionTimeOut <? time_out)
          then MaxSubscriptionTimeOut else time_out
        else time_out).

(** A handler that stops while it holds the lock. *)
Definition locked_error nt (code : Z) request g : M (gena P * net) :=
  nt ← error_respond nt code request;
  g ← liftO (HandleUnlock g);
  mret (g, nt).

(** The call of the application: the service, the device and the SID. *)
Definition no_call : option UpnpSubscriptionRequest := None.

(** A new subscription. *)
Definition new_sub : subscription := MkSub [] 0 0 0 (MkURLs 0 [] 0 []) [].

(** From the check of the callbacks on, for the service at [i] of [hnd]; [sid]
    is the text of the new UUID.  The request structure is given to the
    application after the lock was released. *)
Definition accept_subscription (foreign : sockaddr) nt request (request_struct : option UpnpSubscriptionRequest)
    (hnd : Z) (i : nat) (info : Handle_Info) (temp_sid : list Z) g
    : M (gena P * net * option UpnpSubscriptionRequest) :=
  let stop nt code := ('(g, nt) ← locked_error nt code request g; mret (g, nt, no_call)) in
  match header request HDR_CALLBACK with
  | None => stop nt HTTP_PRECONDITION_FAILED
  | Some callback_hdr =>
      '(return_code, urls) ← create_url_list callback_hdr;
      if return_code =? 0 then stop nt HTTP_PRECONDITION_FAILED
      else if return_code =? UPNP_E_OUTOF_MEMORY then stop nt HTTP_INTERNAL_SERVER_ERROR
      else if negb (gena_validate_delivery_urls foreign urls =? 0) then stop nt HTTP_PRECONDITION_FAILED
      else
      time_out ← requested_timeout request (hi_MaxSubscriptionTimeOut info);
      let '(expire, g) := if 0 <=? time_out then
                            let '(t, g) := Gena.time g in (t + time_out, g)
                          else (0, g) in
      let '(rc, sid) := snprintf SID_TYPE_SIZE (cs "uuid:" ++ c_str temp_sid) in
      let sub := MkSub sid 0 expire 0 urls [] in
      '(sent, nt) ← (if SID_TYPE_SIZE <=? rc then mret (UPNP_E_OUTOF_MEMORY, nt)
                     else respond_ok nt time_out sub request);
      if (SID_TYPE_SIZE <=? rc) || negb (sent =? UPNP_E_SUCCESS) then
        g ← liftO (HandleUnlock g); mret (g, nt, no_call)
      else
        g ← liftO (add_sub hnd i sub g);
        svc ← liftO (service g hnd i);
        id ← liftO (str_of (si_serviceId svc));
        udn ← liftO (str_of (si_UDN svc));
        request_struct ← UpnpSubscriptionRequest_strcpy_ServiceId id request_struct;
        request_struct ← UpnpSubscriptionRequest_strcpy_UDN udn request_struct;
        request_struct ← UpnpSubscriptionRequest_strcpy_SID sid request_struct;
        g ← liftO (HandleUnlock g);
        mret (g, nt, request_struct)
  end.

Definition gena_process_subscription_request (foreign : sockaddr) nt request (temp_sid : list Z) g
    : M (gena P * net * option UpnpSubscriptionRequest) :=
  request_struct ← UpnpSubscriptionRequest_new;
  let refuse code := (nt ← error_respond nt code request; mret (g, nt, no_call)) in
  match header request HDR_NT with
  | None => refuse HTTP_BAD_REQUEST
  | Some nt_hdr =>
      if negb (memptr_cmp_nocase nt_hdr (cs "upnp:event") =? 0) then refuse HTTP_PRECONDITION_FAILED
      else if bool_decide (header request HDR_SID <> None) then refuse HTTP_BAD_REQUEST
      else
      event_url_path ← str_alloc junk (request_path request) (path_size request);
      match event_url_path with
      | None => refuse HTTP_INTERNAL_SERVER_ERROR
      | Some path =>
          g ← HandleLock g;
          let stop code := ('(g, nt) ← locked_error nt code request g; mret (g, nt, no_call)) in
          '(type, hnd, svc) ← liftO (device_for_path (Some path) (ss_family foreign) (g_api g));
          if negb (bool_decide (type = HND_DEVICE)) then stop HTTP_INTERNAL_SERVER_ERROR
          else
          match svc with
          | None => stop HTTP_NOT_FOUND
          | Some i =>
              svc ← liftO (service g hnd i);
              info ← liftO (HandleTable (g_api g) !! hnd);
              if si_active svc =? 0 then stop HTTP_NOT_FOUND
              else if negb (hi_MaxSubscriptions info =? -1)
                      && (hi_MaxSubscriptions info <=? si_TotalSubscriptions svc)
              then stop HTTP_INTERNAL_SERVER_ERROR
              else
              ok ← malloc_ok;
              if negb ok then stop HTTP_INTERNAL_SERVER_ERROR
              else accept_subscription foreign nt request request_struct hnd i info temp_sid g
          end
      end
  end.

(** The SID of a request and the lookup of its service, as the two other
    handlers do it. *)
Definition with_service (foreign : sockaddr) nt request g
    (k : list Z -> Z -> nat -> gena P -> M (gena P * net)) : M (gena P * net) :=
  let refuse code := (nt ← error_respond nt code request; mret (g, nt)) in
  if bool_decide (header request HDR_CALLBACK <> None) || bool_decide (header request HDR_NT <> None)
  then refuse HTTP_BAD_REQUEST
  else
  match header request HDR_SID with
  | None => refuse HTTP_PRECONDITION_FAILED
  | Some temp_hdr =>
      if SID_SIZE <? mp_length temp_hdr then refuse HTTP_PRECONDITION_FAILED
      else
      let sid := ztake (mp_length temp_hdr) (mp_buf temp_hdr) in
      '(rc, event_url_path) ← membuffer_append junk membuffer_init (Some (request_path request))
        (path_size request);
      if negb (rc =? 0) then refuse HTTP_INTERNAL_SERVER_ERROR
      else
      g ← HandleLock g;
      '(type, hnd, svc) ← liftO (device_for_path (mb_buf event_url_path) (ss_family foreign) (g_api g));
      match decide (type = HND_DEVICE), svc with
      | left _, Some i =>
          svc ← liftO (service g hnd i);
          if si_active svc =? 0 then locked_error nt HTTP_PRECONDITION_FAILED request g
          else k sid hnd i g
      | _, _ => locked_error nt HTTP_PRECONDITION_FAILED request g
      end
  end.

Definition gena_process_subscription_renewal_request (foreign : sockaddr) nt request g
    : M (gena P * net) :=
  with_service foreign nt request g (fun sid hnd i g =>
    '(k, g) ← liftO (get_sub hnd i sid g);
    match k with
    | None => locked_error nt HTTP_PRECONDITION_FAILED request g
    | Some k =>
        svc ← liftO (service g hnd i);
        sub ← liftO (si_subscriptionList svc !! k);
        info ← liftO (HandleTable (g_api g) !! hnd);
        if negb (hi_MaxSubscriptions info =? -1)
           && (hi_MaxSubscriptions info <? si_TotalSubscriptions svc)
        then
          nt ← error_respond nt HTTP_INTERNAL_SERVER_ERROR request;
          g ← liftO (remove_sid hnd i (sub_sid sub) g);
          g ← liftO (HandleUnlock g);
          mret (g, nt)
        else
        time_out ← requested_timeout request (hi_MaxSubscriptionTimeOut info);
        let '(expire, g) := if time_out =? -1 then (0, g)
                            else let '(t, g) := Gena.time g in (t + time_out, g) in
        g ← liftO (set_expire hnd i k expire g);
        '(sent, nt) ← respond_ok nt time_out (set_sub_expireTime expire sub) request;
        g ← liftO (if negb (sent =? UPNP_E_SUCCESS) then remove_sid hnd i (sub_sid sub) g else Some g);
        g ← liftO (HandleUnlock g);
        mret (g, nt)
    end).

Definition gena_process_unsubscribe_request (foreign : sockaddr) nt request g : M (gena P * net) :=
  with_service foreign nt request g (fun sid hnd i g =>
    '(k, g) ← liftO (get_sub hnd i sid g);
    match k with
    | None => locked_error nt HTTP_PRECONDITION_FAILED request g
    | Some _ =>
        g ← liftO (remove_sid hnd i sid g);
        nt ← error_respond nt HTTP_OK request;
        g ← liftO (HandleUnlock g);
        mret (g, nt)
    end).

(** [genaCallback] of a device; events for a control point are left to
    [notification]. *)
Definition genaCallback (notification : M (gena P * net)) (foreign : sockaddr) nt request
    (temp_sid : list Z) g : M (gena P * net * option UpnpSubscriptionRequest) :=
  if HttpMessage.m_method request =? HTTPMETHOD_SUBSCRIBE then
    if bool_decide (header request HDR_NT = None) then
      '(g, nt) ← gena_process_subscription_renewal_request foreign nt request g; mret (g, nt, no_call)
    else gena_process_subscription_request foreign nt request temp_sid g
  else if HttpMessage.m_method request =? HTTPMETHOD_UNSUBSCRIBE then
    '(g, nt) ← gena_process_unsubscribe_request foreign nt request g; mret (g, nt, no_call)
  else if HttpMessage.m_method request =? HTTPMETHOD_NOTIFY then
    '(g, nt) ← notification; mret (g, nt, no_call)
  else nt ← error_respond nt HTTP_NOT_IMPLEMENTED request; mret (g, nt, no_call).
End Requests.
