(* ===== verification/WebServer.v ===== *)
(** The web server, what a request asks for:
    [upnp/src/genlib/net/http/webserver.c] up to [CheckOtherHTTPHeaders], and
    the virtual directories of [upnp/src/api/upnpapi.c].

    The table of content types, the document that is served under an alias, the
    virtual directories, and the headers of a request that change the answer.
    An alias is three blocks (name, document and counter) that all copies of the
    structure share; they are freed together, and the counter in [counts]
    stands for them. *)

From S2P Require Import Prelude CString FreeList MemBuffer StrIntMap HttpTables Uri HttpMessage HttpMake IxmlNode XmlPrint UpnpString.

Definition HTTP_BAD_REQUEST : Z := 400.
Definition HTTP_FORBIDDEN : Z := 403.
Definition HTTP_NOT_FOUND : Z := 404.
Definition HTTP_NOT_ACCEPTABLE : Z := 406.
Definition HTTP_REQUEST_RANGE_NOT_SATISFIABLE : Z := 416.
Definition HTTP_INTERNAL_SERVER_ERROR : Z := 500.
Definition HTTP_PARTIAL_CONTENT : Z := 206.
Definition UPNP_E_FINISH : Z := -116.
Definition NAME_SIZE : Z := 256.
Definition LINE_SIZE : Z := 180.

(** ** Content types *)

Record document_type_t := MkDocType {
  file_ext : list Z;
  content_type : option (list Z);
  content_subtype : list Z
}.

Definition gMediaTypes : list (option (list Z)) :=
  [None; Some (cs "audio"); Some (cs "video"); Some (cs "image"); Some (cs "application");
   Some (cs "text")].
Definition NUM_MEDIA_TYPES : Z := 70.
Definition APPLICATION_INDEX : nat := 4.

(** An extension, the index of the type as a character, and the subtype. *)
Definition media_entry (e : string * Z * string) : list Z :=
  let '(ext, ty, subtype) := e in cs ext ++ [0; ty] ++ cs subtype ++ [0].

Definition gEncodedMediaTypes : list Z :=
  Eval vm_compute in
  (([("aif", 1, "aiff"); ("aifc", 1, "aiff"); ("aiff", 1, "aiff"); ("asf", 2, "x-ms-asf");
     ("asx", 2, "x-ms-asf"); ("au", 1, "basic"); ("avi", 2, "msvideo"); ("bmp", 3, "bmp");
     ("css", 5, "css"); ("dcr", 4, "x-director"); ("dib", 3, "bmp"); ("dir", 4, "x-director");
     ("dxr", 4, "x-director"); ("gif", 3, "gif"); ("hta", 5, "hta"); ("htm", 5, "html");
     ("html", 5, "html"); ("jar", 4, "java-archive"); ("jfif", 3, "pjpeg"); ("jpe", 3, "jpeg");
     ("jpeg", 3, "jpeg"); ("jpg", 3, "jpeg"); ("js", 4, "x-javascript"); ("kar", 1, "midi");
     ("m3u", 1, "mpegurl"); ("mid", 1, "midi"); ("midi", 1, "midi"); ("mov", 2, "quicktime");
     ("mp2v", 2, "x-mpeg2"); ("mp3", 1, "mpeg"); ("mpe", 2, "mpeg"); ("mpeg", 2, "mpeg");
     ("mpg", 2, "mpeg"); ("mpv", 2, "mpeg"); ("mpv2", 2, "x-mpeg2"); ("pdf", 4, "pdf");
     ("pjp", 3, "jpeg"); ("pjpeg", 3, "jpeg"); ("plg", 5, "html"); ("pls", 1, "scpls");
     ("png", 3, "png"); ("qt", 2, "quicktime"); ("ram", 1, "x-pn-realaudio"); ("rmi", 1, "mid");
     ("rmm", 1, "x-pn-realaudio"); ("rtf", 4, "rtf"); ("shtml", 5, "html"); ("smf", 1, "midi");
     ("snd", 1, "basic"); ("spl", 4, "futuresplash"); ("ssm", 4, "streamingmedia");
     ("swf", 4, "x-shockwave-flash"); ("tar", 4, "tar"); ("tcl", 4, "x-tcl");
     ("text", 5, "plain"); ("tif", 3, "tiff"); ("tiff", 3, "tiff"); ("txt", 5, "plain");
     ("ulw", 1, "basic"); ("wav", 1, "wav"); ("wax", 1, "x-ms-wax"); ("wm", 2, "x-ms-wm");
     ("wma", 1, "x-ms-wma"); ("wmv", 2, "x-ms-wmv"); ("wvx", 2, "x-ms-wvx");
     ("xbm", 3, "x-xbitmap"); ("xml", 5, "xml"); ("xsl", 5, "xml"); ("z", 4, "x-compress");
     ("zip", 4, "zip")]%string ≫= media_entry) ++ [0; 0]).

(** The loop of [media_list_init]; the strings are those the pointers point
    to. *)
Fixpoint media_loop (fuel : nat) (s : list Z) : option (list document_type_t) :=
  match fuel with
  | O => None
  | S fuel' =>
      c ← s !! 0%nat;
      if c =? 0 then Some []
      else
        let file_ext := c_str s in
        let s := zdrop (strlen s + 1) s in
        i ← s !! 0%nat;
        type ← gMediaTypes !! Z.to_nat i;
        let s := zdrop 1 s in
        rest ← media_loop fuel' (zdrop (strlen s + 1) s);
        Some (MkDocType file_ext type (c_str s) :: rest)
  end.

Definition media_list_init : M (list document_type_t) :=
  l ← liftO (media_loop (length gEncodedMediaTypes) gEncodedMediaTypes);
  _ ← liftO (if zlen l <=? NUM_MEDIA_TYPES then Some tt else None);
  _ ← assertM (zlen l =? NUM_MEDIA_TYPES);
  mret l.

(** The table once the server is enabled. *)
Definition gMediaTypeList : list document_type_t :=
  Eval vm_compute in default [] (run media_list_init).

(** The binary search of [StrIntMap], by [strcasecmp]. *)
Definition search_extension (extension : list Z) : option (option document_type_t) :=
  i ← search_loop (S (Z.to_nat NUM_MEDIA_TYPES)) (strcasecmp extension)
        ((fun d => StrInt (file_ext d) 0) <$> gMediaTypeList) 0 (NUM_MEDIA_TYPES - 1);
  Some (if i =? -1 then None else gMediaTypeList !! Z.to_nat i).

(** ** What is known of a file *)

Record UpnpExtraHeaders := MkExtra {
  xh_name : option UpnpString;
  xh_value : option UpnpString;
  xh_resp : DOMString
}.
Record UpnpFileInfo := MkInfo {
  m_FileLength : Z;
  m_LastModified : Z;
  m_IsDirectory : bool;
  m_IsReadable : bool;
  m_ContentType : DOMString;
  m_ExtraHeadersList : list UpnpExtraHeaders;
  m_CtrlPtIPAddr : sockaddr;
  m_Os : option UpnpString
}.
Implicit Types (info : UpnpFileInfo) (instr : SendInstruction).

Definition UpnpFileInfo_new : M (option UpnpFileInfo) :=
  ok ← malloc_ok;
  if negb ok then mret None
  else os ← UpnpString_new; mret (Some (MkInfo 0 0 false false DNull [] no_addr os)).

Definition UpnpFileInfo_set_FileLength (n : Z) info : UpnpFileInfo :=
  MkInfo n (m_LastModified info) (m_IsDirectory info) (m_IsReadable info) (m_ContentType info)
    (m_ExtraHeadersList info) (m_CtrlPtIPAddr info) (m_Os info).
Definition UpnpFileInfo_set_LastModified (n : Z) info : UpnpFileInfo :=
  MkInfo (m_FileLength info) n (m_IsDirectory info) (m_IsReadable info) (m_ContentType info)
    (m_ExtraHeadersList info) (m_CtrlPtIPAddr info) (m_Os info).
Definition UpnpFileInfo_set_IsDirectory (n : bool) info : UpnpFileInfo :=
  MkInfo (m_FileLength info) (m_LastModified info) n (m_IsReadable info) (m_ContentType info)
    (m_ExtraHeadersList info) (m_CtrlPtIPAddr info) (m_Os info).
Definition UpnpFileInfo_set_IsReadable (n : bool) info : UpnpFileInfo :=
  MkInfo (m_FileLength info) (m_LastModified info) (m_IsDirectory info) n (m_ContentType info)
    (m_ExtraHeadersList info) (m_CtrlPtIPAddr info) (m_Os info).
Definition UpnpFileInfo_set_CtrlPtIPAddr (a : sockaddr) info : UpnpFileInfo :=
  MkInfo (m_FileLength info) (m_LastModified info) (m_IsDirectory info) (m_IsReadable info)
    (m_ContentType info) (m_ExtraHeadersList info) a (m_Os info).
Definition set_ExtraHeadersList (l : list UpnpExtraHeaders) info : UpnpFileInfo :=
  MkInfo (m_FileLength info) (m_LastModified info) (m_IsDirectory info) (m_IsReadable info)
    (m_ContentType info) l (m_CtrlPtIPAddr info) (m_Os info).

(** A string that cannot be cloned, [NULL] among them, leaves the old one. *)
Definition UpnpFileInfo_set_ContentType (s : DOMString) info : M UpnpFileInfo :=
  q ← ixmlCloneDOMString s;
  match q with
  | DNull => mret info
  | _ =>
      _ ← liftO (free_str (m_ContentType info));
      mret (MkInfo (m_FileLength info) (m_LastModified info) (m_IsDirectory info)
              (m_IsReadable info) q (m_ExtraHeadersList info) (m_CtrlPtIPAddr info) (m_Os info))
  end.

Definition strncpy_member (s : list Z) (n : Z) (member : option UpnpString) : M UpnpString :=
  p ← liftO member;
  '(_, p) ← UpnpString_set_StringN s n p;
  mret p.
Definition UpnpFileInfo_strncpy_Os (s : list Z) (n : Z) info : M UpnpFileInfo :=
  os ← strncpy_member s n (m_Os info);
  mret (MkInfo (m_FileLength info) (m_LastModified info) (m_IsDirectory info) (m_IsReadable info)
          (m_ContentType info) (m_ExtraHeadersList info) (m_CtrlPtIPAddr info) (Some os)).

(** The type and subtype of a file name: by its extension, if it is in the
    table. *)
Definition get_content_type (filename : list Z) info : M (Z * UpnpFileInfo) :=
  info ← UpnpFileInfo_set_ContentType DNull info;
  found ← liftO (match strrchr (c_str filename) ($".") with
                 | Some extension => search_extension (zdrop 1 extension)
                 | None => Some None
                 end);
  let '(type, subtype) := match found with
                          | Some d => (content_type d, content_subtype d)
                          | None => (mjoin (gMediaTypes !! APPLICATION_INDEX), cs "octet-stream")
                          end in
  type ← liftO type;
  let length := strlen type + 1 + strlen subtype + 1 in
  ok ← malloc_ok;
  if negb ok then mret (UPNP_E_OUTOF_MEMORY, info)
  else
    let '(rc, temp) := snprintf length (type ++ cs "/" ++ subtype) in
    if length <=? rc then mret (UPNP_E_OUTOF_MEMORY, info)
    else
      info ← UpnpFileInfo_set_ContentType (DStr temp) info;
      mret (if is_null (m_ContentType info) then UPNP_E_OUTOF_MEMORY else 0, info).

(** ** The document under an alias *)

Record xml_alias_t := MkAlias {
  al_name : membuffer;
  al_doc : membuffer;
  al_last_modified : Z;
  al_ct : ptr
}.
Record aliases := MkAliases {
  gAliasDoc : xml_alias_t;
  counts : gmap loc Z
}.

Definition glob_alias_init (st : aliases) : aliases :=
  MkAliases (MkAlias membuffer_init membuffer_init 0 None) (counts st).

Definition is_valid_alias (alias : xml_alias_t) : bool :=
  bool_decide (mb_buf (al_doc alias) <> None).

(** The counter of an alias: none when its blocks were freed. *)
Definition alias_count (alias : xml_alias_t) (st : aliases) : option (loc * Z) :=
  p ← al_ct alias; n ← counts st !! p; Some (p, n).

Definition alias_grab (st : aliases) : M (xml_alias_t * aliases) :=
  _ ← assertM (is_valid_alias (gAliasDoc st));
  let alias := gAliasDoc st in
  '(p, n) ← liftO (alias_count alias st);
  mret (alias, MkAliases (gAliasDoc st) (<[p := to_int (n + 1)]> (counts st))).

(** The structure that [alias] points to, and the counters. *)
Definition alias_release (alias : xml_alias_t) (st : aliases) : M (xml_alias_t * aliases) :=
  if negb (is_valid_alias alias) then mret (alias, st)
  else
    '(p, n) ← liftO (alias_count alias st);
    _ ← assertM (0 <? n);
    if n - 1 <=? 0 then
      mret (MkAlias (membuffer_destroy (al_name alias)) (membuffer_destroy (al_doc alias))
              (al_last_modified alias) (al_ct alias),
            MkAliases (gAliasDoc st) (delete p (counts st)))
    else mret (alias, MkAliases (gAliasDoc st) (<[p := n - 1]> (counts st))).

(** Releasing the one in the module variable. *)
Definition release_global (st : aliases) : M aliases :=
  '(alias, st) ← alias_release (gAliasDoc st) st;
  mret (MkAliases alias (counts st)).

Section WebServer.
Context (junk : Z).

Definition web_server_set_alias (alias_name : option (list Z)) (alias_content : option (list Z))
    (alias_content_length last_modified : Z) (st : aliases) : M (Z * aliases) :=
  st ← release_global st;
  match alias_name with
  | None => mret (0, st)
  | Some name =>
      _ ← assertM (bool_decide (alias_content <> None));
      content ← liftO alias_content;
      '(ret_code, nm) ← (if negb (rd name 0 =? $"/")
                         then membuffer_assign_str junk membuffer_init (cs "/")
                         else mret (0, membuffer_init));
      if negb (ret_code =? 0) then mret (UPNP_E_OUTOF_MEMORY, st)
      else
      '(ret_code, nm) ← membuffer_append_str junk nm name;
      if negb (ret_code =? 0) then mret (UPNP_E_OUTOF_MEMORY, st)
      else
      ok ← malloc_ok;
      if negb ok then mret (UPNP_E_OUTOF_MEMORY, st)
      else
        let ct := fresh (dom (counts st)) in
        let doc := membuffer_attach membuffer_init content alias_content_length in
        mret (0, MkAliases (MkAlias nm doc last_modified (Some ct)) (<[ct := 1]> (counts st)))
  end.

(** ** The root directory and the virtual directories *)

Definition web_server_set_root_dir (gDocumentRootDir : membuffer) (root_dir : list Z)
    : M (Z * membuffer) :=
  '(ret, dir) ← membuffer_assign_str junk gDocumentRootDir root_dir;
  if negb (ret =? 0) then mret (ret, dir)
  else if 0 <? mb_length dir then
    let index := mb_length dir - 1 in
    buf ← liftO (mb_buf dir);
    c ← liftO (peek buf index);
    if c =? $"/" then dir ← membuffer_delete junk dir index 1; mret (0, dir)
    else mret (0, dir)
  else mret (0, dir).

(** [dirName] is a string in a block of [NAME_SIZE] bytes. *)
Record virtualDirList := MkDir { dirName : list Z; vd_cookie : Z }.

(** The name, with a slash in front. *)
Definition virtual_name (newDirName : list Z) : option (list Z) :=
  if negb (rd newDirName 0 =? $"/") then
    if NAME_SIZE - 2 <? strlen newDirName then None else Some (cs "/" ++ c_str newDirName)
  else if NAME_SIZE - 1 <? strlen newDirName then None else Some (c_str newDirName).

Fixpoint replace_cookie (dir : list Z) (cookie : Z) (l : list virtualDirList)
    : option (Z * list virtualDirList) :=
  match l with
  | [] => None
  | d :: l' =>
      if strcmp_eq (dirName d) dir then Some (vd_cookie d, MkDir (dirName d) cookie :: l')
      else '(old, l') ← replace_cookie dir cookie l'; Some (old, d :: l')
  end.

(** The result, [*oldcookie] and the list. *)
Definition UpnpAddVirtualDir (UpnpSdkInit : bool) (newDirName : option (list Z)) (cookie : Z)
    (l : list virtualDirList) : M (Z * Z * list virtualDirList) :=
  if negb UpnpSdkInit then mret (UPNP_E_FINISH, 0, l)
  else
  match newDirName with
  | None => mret (UPNP_E_INVALID_PARAM, 0, l)
  | Some name =>
      if strlen name =? 0 then mret (UPNP_E_INVALID_PARAM, 0, l)
      else
      match virtual_name name with
      | None => mret (UPNP_E_INVALID_PARAM, 0, l)
      | Some dir =>
          match replace_cookie dir cookie l with
          | Some (old, l) => mret (UPNP_E_SUCCESS, old, l)
          | None =>
              ok ← malloc_ok;
              if negb ok then mret (UPNP_E_OUTOF_MEMORY, 0, l)
              else mret (UPNP_E_SUCCESS, 0, l ++ [MkDir dir cookie])
          end
      end
  end.

Fixpoint remove_dir (dir : list Z) (l : list virtualDirList) : option (list virtualDirList) :=
  match l with
  | [] => None
  | d :: l' => if strcmp_eq (dirName d) dir then Some l' else cons d <$> remove_dir dir l'
  end.

Definition UpnpRemoveVirtualDir (UpnpSdkInit : bool) (dir : option (list Z))
    (l : list virtualDirList) : Z * list virtualDirList :=
  if negb UpnpSdkInit then (UPNP_E_FINISH, l)
  else
  match dir with
  | None => (UPNP_E_INVALID_PARAM, l)
  | Some dir => match remove_dir dir l with
                | Some l' => (UPNP_E_SUCCESS, l')
                | None => (UPNP_E_INVALID_PARAM, l)
                end
  end.

Definition UpnpRemoveAllVirtualDirs (UpnpSdkInit : bool) (l : list virtualDirList)
    : list virtualDirList :=
  if negb UpnpSdkInit then l else [].

(** The cookie of the first directory the path is in. *)
Fixpoint isFileInVirtualDir (filePath : list Z) (l : list virtualDirList) : option Z :=
  match l with
  | [] => None
  | d :: l' =>
      let webDirLen := strlen (dirName d) in
      let inside := strncmp (c_str (dirName d)) filePath webDirLen =? 0 in
      let next := rd filePath webDirLen in
      if negb (webDirLen =? 0) && inside &&
         ((rd (dirName d) (webDirLen - 1) =? $"/")
          || ((next =? $"/") || (next =? 0) || (next =? $"?")))
      then Some (vd_cookie d)
      else isFileInVirtualDir filePath l'
  end.
End WebServer.

(** ** Lemmas *)

Lemma gMediaTypeList_list : run media_list_init = Some gMediaTypeList.
Proof. by vm_compute. Qed.

Definition media_names : list str_int_entry := (fun d => StrInt (file_ext d) 0) <$> gMediaTypeList.

(** The first entry whose extension is [ext], without regard to case. *)
Definition media_type (ext : list Z) : option document_type_t :=
  head (filter (fun d => key false ext = key false (file_ext d)) gMediaTypeList).

Lemma linear_find_filter ext (l : list document_type_t) i j :
  0 <= i -> linear_find false ext ((fun d => StrInt (file_ext d) 0) <$> l) i = j ->
  (j = -1 /\ head (filter (fun d => key false ext = key false (file_ext d)) l) = None) \/
  (i <= j /\ l !! Z.to_nat (j - i) = head (filter (fun d => key false ext = key false (file_ext d)) l)).
Proof.
  revert i. induction l as [|d l IH]; intros i Hi; [by left|].
  cbn [fmap list_fmap linear_find name]. rewrite filter_cons.
  destruct (decide (key false ext = key false (file_ext d))) as [E|E].
  - intros <-. right. rewrite Z.sub_diag. split; [lia|done].
  - intros Hj. destruct (IH (i + 1) ltac:(lia) Hj) as [?|[Hij <-]]; [by left|right]. split; [lia|].
    replace (j - i) with (1 + (j - (i + 1))) by lia. by rewrite Z2Nat.inj_add by lia.
Qed.

Lemma search_found ext : text ext -> search_extension ext = Some (media_type ext).
Proof.
  intros Ht. unfold search_extension. fold media_names.
  change NUM_MEDIA_TYPES with (zlen media_names).
  rewrite (search_sorted _ ext media_names false) by (done || intros; by apply strcasecmp_key).
  cbn [mbind option_bind]. f_equal.
  destruct (linear_find_filter ext gMediaTypeList 0 _ ltac:(lia) eq_refl) as [[E H]|[Hj H]];
    fold media_names in *; fold (media_type ext) in H.
  - by rewrite E, H.
  - rewrite Z.sub_0_r in H. rewrite (proj2 (Z.eqb_neq _ (-1))) by lia. done.
Qed.

Lemma strrchr_absent c s : c ∉ s -> strrchr s c = None.
Proof.
  induction s as [|x s IH]; [done|]. intros [Hx Hs]%not_elem_of_cons. cbn. rewrite IH by done.
  by rewrite (proj2 (Z.eqb_neq x c)).
Qed.
Lemma strrchr_final c base s : c ∉ s -> strrchr (base ++ c :: s) c = Some (c :: s).
Proof.
  intros Hs. induction base as [|x base IH]; cbn.
  - by rewrite strrchr_absent, Z.eqb_refl.
  - by rewrite IH.
Qed.

(** The entry of a file name: that of what follows its last dot. *)
Definition type_of_name (name : list Z) (d : option document_type_t) : Prop :=
  (exists base ext, name = base ++ cs "." ++ ext /\ $"." ∉ ext /\ d = media_type ext) \/
  ($"." ∉ name /\ d = None).
Definition type_text (d : option document_type_t) : list Z :=
  match d with
  | Some d => default [] (content_type d) ++ cs "/" ++ content_subtype d
  | None => cs "application/octet-stream"
  end.
Definition with_type (t : list Z) info : UpnpFileInfo :=
  MkInfo (m_FileLength info) (m_LastModified info) (m_IsDirectory info)
    (m_IsReadable info) (DStr t) (m_ExtraHeadersList info) (m_CtrlPtIPAddr info) (m_Os info).

Lemma type_found name d :
  text name -> type_of_name name d ->
  match strrchr (c_str name) ($".") with
  | Some extension => search_extension (zdrop 1 extension)
  | None => Some None
  end = Some d.
Proof.
  intros Ht H. rewrite c_str_id by (eapply Forall_impl; [exact Ht|]; cbn; tauto).
  destruct H as [(base & ext & -> & He & ->)|[H ->]].
  - change (cs "." ++ ext) with ($"." :: ext). rewrite strrchr_final by done.
    change (zdrop 1 ($"." :: ext)) with ext. apply search_found.
    by apply Forall_app in Ht as [_ Ht]; apply Forall_app in Ht as [_ Ht].
  - by rewrite strrchr_absent.
Qed.

Lemma table_types :
  Forall (fun d => exists t, content_type d = Some t /\
            Forall (fun c => c <> 0) (t ++ cs "/" ++ content_subtype d)) gMediaTypeList.
Proof.
  assert (forallb (fun d => match content_type d with
                            | Some t => forallb (fun c => negb (c =? 0)) (t ++ cs "/" ++ content_subtype d)
                            | None => false end) gMediaTypeList = true) as H by by vm_compute.
  apply Forall_forall. intros d Hd%list_elem_of_In. pose proof (proj1 (forallb_forall _ _) H d Hd) as E.
  cbn beta in E. destruct (content_type d) as [t|]; [|done]. exists t. split; [done|].
  apply Forall_forall. intros c Hc%list_elem_of_In.
  pose proof (proj1 (forallb_forall _ _) E c Hc) as Ec. by apply negb_true_iff, Z.eqb_neq in Ec.
Qed.

Lemma set_type_runs md t info :
  Forall (fun c => c <> 0) t -> m_ContentType info <> DFreed ->
  runs md (UpnpFileInfo_set_ContentType (DStr t) info) (fun i =>
    i = with_type t info \/ (md <> Lucky /\ i = info)).
Proof.
  intros Ht Hf. unfold UpnpFileInfo_set_ContentType, ixmlCloneDOMString, strdup_of.
  unfold IxmlNode.strdup.
  mstep. mstep. eapply runs_liftO; [done|]. mstep. mstep; intros; mstep.
  - mstep. eapply runs_liftO; [by destruct (m_ContentType info)|]. mstep. left. by rewrite !(c_str_id t Ht).
  - mstep. by right.
Qed.

Lemma type_runs md type subtype t info :
  Forall (fun c => c <> 0) (type ++ cs "/" ++ subtype) -> m_ContentType info <> DFreed ->
  type ++ cs "/" ++ subtype = t ->
  runs md
    (let length := strlen type + 1 + strlen subtype + 1 in
     ok ← malloc_ok;
     if negb ok then mret (UPNP_E_OUTOF_MEMORY, info)
     else
       let '(rc, temp) := snprintf length t in
       if length <=? rc then mret (UPNP_E_OUTOF_MEMORY, info)
       else
         info ← UpnpFileInfo_set_ContentType (DStr temp) info;
         mret (if is_null (m_ContentType info) then UPNP_E_OUTOF_MEMORY else 0, info))
    (fun '(rc, i) => (rc = 0 /\ i = with_type t info) \/
       (md <> Lucky /\ i = info /\ (rc = UPNP_E_OUTOF_MEMORY \/ m_ContentType info <> DNull))).
Proof.
  intros Ht Hf <-. cbn zeta. unfold strlen.
  pose proof (proj1 (Forall_app _ _ _) Ht) as [H1 H2]. pose proof (proj1 (Forall_app _ _ _) H2) as [_ H3].
  rewrite !c_str_id by done. assert (zlen (type ++ cs "/" ++ subtype) = zlen type + 1 + zlen subtype) as El
    by (rewrite !zlen_app; done || (change (zlen (cs "/")) with 1; lia)).
  mstep. mstep; intros; cbn [negb]; [|mstep; right; by auto].
  unfold snprintf. rewrite El, (proj2 (Z.leb_gt _ _)) by lia. rewrite ztake_all by lia.
  mstep. eapply runs_mono; [by apply set_type_runs|]. intros i [->|[Hm ->]]; mstep; [by left|right].
  split_and!; [done..|]. unfold is_null. destruct (m_ContentType info); [by left|by right|done].
Qed.

(** C36: The content type of a file name is that of the entry of the table
    for what follows the last dot of the name, in upper or lower case, and
    application/octet-stream when the name has no dot or the table no such
    entry: the binary search finds every extension of the decoded table and
    answers that there is none for every other.  The type is stored in the
    information of the file; only when memory is exhausted is it not, and then
    the information stays as it was, with the out-of-memory error if it had no
    type before. *)
Theorem search_extension_correct md name d info :
  text name -> type_of_name name d -> m_ContentType info <> DFreed ->
  run media_list_init = Some gMediaTypeList /\
  (forall ext, text ext -> search_extension ext = Some (media_type ext)) /\
  runs md (get_content_type name info) (fun '(rc, info') =>
    (rc = 0 /\ info' = with_type (type_text d) info) \/
    (md <> Lucky /\ info' = info /\ (rc = UPNP_E_OUTOF_MEMORY \/ m_ContentType info <> DNull))).
Proof.
  intros Ht Hd Hf. split_and!; [by vm_compute|apply search_found|].
  unfold get_content_type. mstep. unfold UpnpFileInfo_set_ContentType at 1. cbn [ixmlCloneDOMString].
  mstep. mstep. mstep. mstep. eapply runs_liftO; [by apply type_found|].
  destruct d as [d|]; cbn [type_text].
  - assert (d ∈ gMediaTypeList) as Hin.
    { destruct Hd as [(base & ext & _ & _ & E)|[_ E]]; [|done]. unfold media_type in E.
      assert (d ∈ filter (fun d => key false ext = key false (file_ext d)) gMediaTypeList) as H
        by (destruct (filter _ _); [done|]; injection E as <-; by left).
      by apply list_elem_of_filter in H as [_ H]. }
    destruct (proj1 (Forall_forall _ _) table_types d Hin) as (t & E & Hno). rewrite E. cbn [default from_option].
    mstep. eapply runs_liftO; [done|]. by apply type_runs.
  - mstep. eapply runs_liftO; [reflexivity|]. apply type_runs; [|done..].
    apply (bool_decide_unpack _). by vm_compute.
Qed.

Lemma search_extension_correct_witness :
  search_extension (cs "JPeg") = Some (Some (MkDocType (cs "jpeg") (Some (cs "image")) (cs "jpeg"))) /\
  let info := MkInfo 0 0 false false DNull [] no_addr None in
  runs Lucky (get_content_type (cs "a.b/c.JPeg") info) (fun '(rc, info') =>
    (rc = 0 /\ info' = with_type (cs "image/jpeg") info) \/
    (Lucky <> Lucky /\ info' = info /\ (rc = UPNP_E_OUTOF_MEMORY \/ m_ContentType info <> DNull))).
Proof.
  assert (text (cs "a.b/c.JPeg")) as Ht by by apply textb_text.
  destruct (search_extension_correct Lucky (cs "a.b/c.JPeg") (media_type (cs "JPeg"))
              (MkInfo 0 0 false false DNull [] no_addr None)) as (_ & Hs & Hg).
  - exact Ht.
  - left. exists (cs "a.b/c"), (cs "JPeg"). split_and!; [done| |done].
    apply (bool_decide_unpack _). by vm_compute.
  - done.
  - split; [apply Hs; by apply textb_text|exact Hg].
Defined.

(** A document that is being sent keeps the alias alive when it is taken away;
    the module variable then still looks valid, and after the document was
    sent the next request reads blocks that were freed. *)
Definition aliases_used (st : aliases) : M unit :=
  '(_, st) ← web_server_set_alias 0 (Some (cs "d.xml")) (Some (cs "<a/>")) 4 0 st;
  '(sent, st) ← alias_grab st;
  '(_, st) ← web_server_set_alias 0 None None 0 0 st;
  '(_, st) ← alias_release sent st;
  '(_, st) ← alias_grab st;
  mret tt.
Lemma alias_use_after_free :
  aliases_used (MkAliases (MkAlias membuffer_init membuffer_init 0 None) ∅) [] = UB.
Proof. by vm_compute. Qed.
