(* ===== verification/WebRange.v ===== *)
(** The headers of a request that change the answer:
    [upnp/src/genlib/net/http/webserver.c] from [StrStr] to [ExtraHTTPHeaders].

    A pointer into a string is the string from there on. *)

From S2P Require Import Prelude CString FreeList MemBuffer StrIntMap HttpTables Uri HttpMessage HttpMake IxmlNode XmlPrint UpnpString WebServer.

Implicit Types (instr : SendInstruction).

(** ** Strings *)

Definition ToUpperCase (s : list Z) : list Z := toupper <$> c_str s.

(** The string from the first occurrence of [s2] on; none as well when a copy
    cannot be allocated. *)
Definition StrStr (s1 s2 : list Z) : M (option (list Z)) :=
  ok ← malloc_ok;
  if negb ok then mret None
  else
    ok ← malloc_ok;
    if negb ok then mret None
    else mret ((fun i => zdrop i s1) <$> strstr (ToUpperCase s1) (ToUpperCase s2)).

(** The token, and [*Src] afterwards. *)
Definition StrTok (Src : option (list Z)) (Del : list Z)
    : option (list Z) * option (list Z) :=
  match Src with
  | None => (None, None)
  | Some src =>
      match strstr src Del with
      | Some i => (Some (ztake i src), Some (zdrop (i + strlen Del) src))
      | None => (Some src, None)
      end
  end.

(** The loop that looks for a digit in front of the ['-']. *)
Fixpoint Is_Suffix_byte_Range (Tok : list Z) : bool :=
  match Tok with
  | [] => true
  | c :: Tok' => if c =? $"-" then true else if isdigit c then false
                 else Is_Suffix_byte_Range Tok'
  end.

(** [sscanf] of two integers into [F] and [L]. *)
Definition scan_range (Tok : list Z) : Z * Z :=
  match scan_ld Tok with
  | None => (-1, -1)
  | Some (F, rest) => match scan_ld rest with
                      | None => (F, -1)
                      | Some (L, _) => (F, L)
                      end
  end.

(** The first and the last byte; [None] for the result -1. *)
Definition GetNextRange (SrcRangeStr : option (list Z)) : option (Z * Z) :=
  let '(tok, _) := StrTok SrcRangeStr (cs ",") in
  Tok ← tok;
  Ptr ← strstr Tok (cs "-");
  let Tok := c_str Tok in
  let '(F, L) := scan_range (ztake Ptr Tok ++ cs " " ++ zdrop (Ptr + 1) Tok) in
  Some (if ((F =? -1) || (L =? -1)) && Is_Suffix_byte_Range Tok then (L, F) else (F, L)).

(** ** Ranges *)

Definition set_IsRangeActive (b : bool) instr : SendInstruction :=
  MkInstr (IsVirtualFile instr) (IsChunkActive instr) b (IsTrailers instr) (RangeHeader instr)
    (AcceptLanguageHeader instr) (RangeOffset instr) (ReadSendSize instr) (RecvWriteSize instr).
Definition set_range (header : list Z) (offset size : Z) instr : SendInstruction :=
  MkInstr (IsVirtualFile instr) (IsChunkActive instr) (IsRangeActive instr) (IsTrailers instr)
    header (AcceptLanguageHeader instr) offset size (RecvWriteSize instr).
Definition set_ReadSendSize (n : Z) instr : SendInstruction :=
  set_range (RangeHeader instr) (RangeOffset instr) n instr.

Definition range_text (first last total : Z) : list Z :=
  cs "CONTENT-RANGE: bytes " ++ itoa first ++ cs "-" ++ itoa last ++ cs "/" ++ itoa total ++ EOL.

(** [RangeOffset], [ReadSendSize] and [RangeHeader]; a header that does not fit
    its 200 bytes is an error. *)
Definition store_range (offset size first last total : Z) instr : Z * SendInstruction :=
  let '(rc, header) := snprintf 200 (range_text first last total) in
  let instr := set_range header offset size instr in
  (if 200 <=? rc then HTTP_INTERNAL_SERVER_ERROR else HTTP_OK, instr).

Definition select_range (FirstByte LastByte FileLength : Z) instr : Z * SendInstruction :=
  if FileLength <? FirstByte then (HTTP_REQUEST_RANGE_NOT_SATISFIABLE, instr)
  else if (0 <=? FirstByte) && (0 <=? LastByte) && (FirstByte <=? LastByte) then
    let LastByte := if FileLength <=? LastByte then FileLength - 1 else LastByte in
    store_range FirstByte (LastByte - FirstByte + 1) FirstByte LastByte FileLength instr
  else if (0 <=? FirstByte) && (LastByte =? -1) && (FirstByte <? FileLength) then
    store_range FirstByte (FileLength - FirstByte) FirstByte (FileLength - 1) FileLength instr
  else if (FirstByte =? -1) && (0 <? LastByte) then
    if FileLength <=? LastByte then
      store_range 0 FileLength 0 (FileLength - 1) FileLength instr
    else
      store_range (FileLength - LastByte) LastByte (FileLength - LastByte) (FileLength - 1)
        FileLength instr
  else (HTTP_REQUEST_RANGE_NOT_SATISFIABLE, instr).

Definition CreateHTTPRangeResponseHeader (ByteRangeSpecifier : option (list Z)) (FileLength : Z)
    instr : M (Z * SendInstruction) :=
  let instr := set_ReadSendSize FileLength (set_IsRangeActive true instr) in
  match ByteRangeSpecifier with
  | None => mret (HTTP_BAD_REQUEST, instr)
  | Some spec =>
      ok ← malloc_ok;
      if negb ok then mret (HTTP_INTERNAL_SERVER_ERROR, instr)
      else
        let RangeInput := c_str spec in
        bytes ← StrStr RangeInput (cs "bytes");
        p ← match bytes with Some _ => StrStr RangeInput (cs "=") | None => mret None end;
        match p with
        | None => mret (HTTP_BAD_REQUEST, set_IsRangeActive false instr)
        | Some p =>
            let Ptr := zdrop 1 p in
            if FileLength <? 0 then
              mret (if bool_decide (Ptr = cs "0-") then (HTTP_OK, set_IsRangeActive false instr)
                    else (HTTP_REQUEST_RANGE_NOT_SATISFIABLE, instr))
            else
            match GetNextRange (Some Ptr) with
            | Some (FirstByte, LastByte) => mret (select_range FirstByte LastByte FileLength instr)
            | None => mret (HTTP_REQUEST_RANGE_NOT_SATISFIABLE, instr)
            end
        end
  end.

(** ** The other headers *)

Definition set_chunked instr : SendInstruction :=
  MkInstr (IsVirtualFile instr) true (IsRangeActive instr) (IsTrailers instr) (RangeHeader instr)
    (AcceptLanguageHeader instr) (RangeOffset instr) (ReadSendSize instr) (RecvWriteSize instr).
Definition set_trailers instr : SendInstruction :=
  MkInstr (IsVirtualFile instr) (IsChunkActive instr) (IsRangeActive instr) true (RangeHeader instr)
    (AcceptLanguageHeader instr) (RangeOffset instr) (ReadSendSize instr) (RecvWriteSize instr).
Definition set_RecvWriteSize (n : Z) instr : SendInstruction :=
  MkInstr (IsVirtualFile instr) (IsChunkActive instr) (IsRangeActive instr) (IsTrailers instr)
    (RangeHeader instr) (AcceptLanguageHeader instr) (RangeOffset instr) (ReadSendSize instr) n.
Definition set_language (s : list Z) instr : SendInstruction :=
  MkInstr (IsVirtualFile instr) (IsChunkActive instr) (IsRangeActive instr) (IsTrailers instr)
    (RangeHeader instr) s (RangeOffset instr) (ReadSendSize instr) (RecvWriteSize instr).
Definition set_virtual instr : SendInstruction :=
  MkInstr true (IsChunkActive instr) (IsRangeActive instr) (IsTrailers instr)
    (RangeHeader instr) (AcceptLanguageHeader instr) (RangeOffset instr) (ReadSendSize instr)
    (RecvWriteSize instr).

(** The entry of the table a header has, and the copy of its value. *)
Definition header_index (header : http_header_t) : option Z :=
  map_str_to_int (mp_buf (h_name header)) (mp_length (h_name header)) Http_Header_Names
    NUM_HTTP_HEADER_NAMES false.
Definition header_text (header : http_header_t) : option (list Z) :=
  mem_slice (default [] (mb_buf (h_value header))) 0 (mb_length (h_value header)).

(** [switch (Http_Header_Names[index].id)]; [TmpBuf] is the value. *)
Definition other_header (id : Z) (TmpBuf : list Z) (FileSize : Z) instr : M (Z * SendInstruction) :=
  if id =? HDR_TE then
    let instr := set_chunked instr in
    if strlen (cs "gzip") <? strlen TmpBuf then
      found ← StrStr (c_str TmpBuf) (cs "trailers");
      mret (HTTP_OK, match found with Some _ => set_trailers instr | None => instr end)
    else mret (HTTP_OK, instr)
  else if id =? HDR_CONTENT_LENGTH then
    mret (HTTP_OK, set_RecvWriteSize (atoi (c_str TmpBuf)) instr)
  else if id =? HDR_RANGE then CreateHTTPRangeResponseHeader (Some TmpBuf) FileSize instr
  else if id =? HDR_ACCEPT_LANGUAGE then mret (HTTP_OK, set_language (ztake 199 TmpBuf) instr)
  else mret (HTTP_OK, instr).

(** The loop over the headers; [TmpBufSize] is the size of the block for the
    values. *)
Fixpoint other_headers (headers : list http_header_t) (TmpBufSize FileSize RetCode : Z) instr
    : M (Z * SendInstruction) :=
  match headers with
  | [] => mret (RetCode, instr)
  | header :: headers' =>
      index ← liftO (header_index header);
      let length := mb_length (h_value header) in
      ok ← (if TmpBufSize <=? length then malloc_ok else mret true);
      let TmpBufSize := if TmpBufSize <=? length then length + 1 else TmpBufSize in
      if negb ok then mret (HTTP_INTERNAL_SERVER_ERROR, instr)
      else
        TmpBuf ← liftO (header_text header);
        if 0 <=? index then
          entry ← liftO (Http_Header_Names !! Z.to_nat index);
          '(rc, instr) ← other_header (id entry) TmpBuf FileSize instr;
          if id entry =? HDR_RANGE then
            if negb (rc =? HTTP_OK) then mret (rc, instr)
            else other_headers headers' TmpBufSize FileSize rc instr
          else other_headers headers' TmpBufSize FileSize RetCode instr
        else other_headers headers' TmpBufSize FileSize RetCode instr
  end.

Definition CheckOtherHTTPHeaders (Req : http_message_t) instr (FileSize : Z)
    : M (Z * SendInstruction) :=
  ok ← malloc_ok;
  if negb ok then mret (HTTP_INTERNAL_SERVER_ERROR, instr)
  else other_headers (m_headers Req) LINE_SIZE FileSize HTTP_OK instr.

(** ** Headers the server does not know *)

Fixpoint FreeExtraHTTPHeaders (extraHeadersList : list UpnpExtraHeaders) : option unit :=
  match extraHeadersList with
  | [] => Some tt
  | extra :: l => _ ← free_str (xh_resp extra); FreeExtraHTTPHeaders l
  end.

Definition UpnpExtraHeaders_new : M (option UpnpExtraHeaders) :=
  ok ← malloc_ok;
  if negb ok then mret None
  else
    a ← UpnpString_new;
    b ← UpnpString_new;
    mret (Some (MkExtra a b DNull)).

Fixpoint extra_headers (headers : list http_header_t) (l : list UpnpExtraHeaders)
    : M (Z * list UpnpExtraHeaders) :=
  match headers with
  | [] => mret (HTTP_OK, l)
  | header :: headers' =>
      index ← liftO (header_index header);
      if index <? 0 then
        extra ← UpnpExtraHeaders_new;
        match extra with
        | None => _ ← liftO (FreeExtraHTTPHeaders l); mret (HTTP_INTERNAL_SERVER_ERROR, [])
        | Some extra =>
            name ← strncpy_member (mp_buf (h_name header)) (mp_length (h_name header)) (xh_name extra);
            value ← strncpy_member (default [] (mb_buf (h_value header)))
                      (mb_length (h_value header)) (xh_value extra);
            extra_headers headers' (l ++ [MkExtra (Some name) (Some value) (xh_resp extra)])
        end
      else extra_headers headers' l
  end.

Definition ExtraHTTPHeaders (Req : http_message_t) (extraHeadersList : list UpnpExtraHeaders)
    : M (Z * list UpnpExtraHeaders) :=
  extra_headers (m_headers Req) extraHeadersList.

(** ** Lemmas *)

Lemma zlen_itoa_long n : - LONG_MAX <= n <= LONG_MAX -> zlen (itoa n) <= 20.
Proof.
  intros H. unfold itoa, utoa.
  assert (forall m, 0 <= m <= LONG_MAX -> zlen (digits_from 64 10 m []) <= 19) as Hd.
  { intros m Hm. pose proof (zlen_digits_small 64 10 19 m [] eq_refl) as Hz.
    change (zlen (@nil Z)) with 0 in Hz. apply Hz; [|lia]. unfold LONG_MAX in Hm.
    change (10 ^ Z.of_nat 19) with 10000000000000000000. lia. }
  destruct (Z.ltb_spec n 0) as [Hn|Hn].
  - rewrite zlen_cons. specialize (Hd (- n)). lia.
  - specialize (Hd n). lia.
Qed.

Lemma store_range_ok offset size first last total instr :
  - LONG_MAX <= first <= LONG_MAX -> - LONG_MAX <= last <= LONG_MAX -> - LONG_MAX <= total <= LONG_MAX ->
  store_range offset size first last total instr
  = (HTTP_OK, set_range (range_text first last total) offset size instr).
Proof.
  intros H1 H2 H3. unfold store_range, snprintf.
  pose proof (zlen_itoa_long first H1). pose proof (zlen_itoa_long last H2).
  pose proof (zlen_itoa_long total H3).
  assert (zlen (range_text first last total) <= 90) as Hz.
  { unfold range_text. rewrite !zlen_app. change (zlen (cs "CONTENT-RANGE: bytes ")) with 21.
    change (zlen (cs "-")) with 1. change (zlen (cs "/")) with 1. change (zlen EOL) with 2. lia. }
  rewrite (proj2 (Z.leb_gt 200 _)) by lia. by rewrite ztake_all by lia.
Qed.

(** What is sent lies in the document, and the header says so. *)
Record range_ok (n : Z) instr (i : SendInstruction) : Prop := {
  ro_active : IsRangeActive i = true;
  ro_offset : 0 <= RangeOffset i;
  ro_size : 0 <= ReadSendSize i;
  ro_end : RangeOffset i + ReadSendSize i <= n;
  ro_header : RangeHeader i
              = range_text (RangeOffset i) (RangeOffset i + ReadSendSize i - 1) n;
  ro_rest : i = set_range (RangeHeader i) (RangeOffset i) (ReadSendSize i)
                  (set_IsRangeActive true instr)
}.

Lemma range_ok_intro n offset size last instr :
  0 <= n <= LONG_MAX -> 0 <= offset -> 0 <= size -> offset + size <= n -> last = offset + size - 1 ->
  exists i, store_range offset size offset last n (set_ReadSendSize n (set_IsRangeActive true instr))
    = (HTTP_OK, i) /\ range_ok n instr i /\ RangeOffset i = offset /\ ReadSendSize i = size.
Proof.
  intros Hn Ho Hs He ->. eexists. split; [apply store_range_ok; unfold LONG_MAX in *; lia|].
  split; [|done]. by constructor.
Qed.

(** The requested interval of a document of [n] bytes: offset and size. *)
Definition select (n first last : Z) : option (Z * Z) :=
  if (0 <=? first) && (first <=? n) && (0 <=? last) && (first <=? last)
  then Some (first, Z.min last (n - 1) - first + 1)
  else if (0 <=? first) && (first <? n) && (last =? -1) then Some (first, n - first)
  else if (first =? -1) && (0 <? last) then Some (n - Z.min n last, Z.min n last)
  else None.

Lemma select_range_spec n first last instr :
  0 <= n <= LONG_MAX ->
  let r := select_range first last n (set_ReadSendSize n (set_IsRangeActive true instr)) in
  match select n first last with
  | Some (o, s) => r.1 = HTTP_OK /\ range_ok n instr r.2 /\ RangeOffset r.2 = o /\ ReadSendSize r.2 = s
  | None => r.1 = HTTP_REQUEST_RANGE_NOT_SATISFIABLE
  end.
Proof.
  intros Hn. unfold select_range, select.
  assert (forall o s l (o' s' : Z), 0 <= o -> 0 <= s -> o + s <= n -> l = o + s - 1 -> o = o' -> s = s' ->
    let r := store_range o s o l n (set_ReadSendSize n (set_IsRangeActive true instr)) in
    r.1 = HTTP_OK /\ range_ok n instr r.2 /\ RangeOffset r.2 = o' /\ ReadSendSize r.2 = s') as Hst.
  { intros o s l o' s' Ho Hs He Hl <- <-.
    by destruct (range_ok_intro n o s l instr Hn Ho Hs He Hl) as (i & -> & ? & ? & ?). }
  destruct (Z.ltb_spec n first).
  { rewrite (proj2 (Z.leb_gt first n)), (proj2 (Z.ltb_ge first n)), !andb_false_r by lia.
    cbn [andb]. by rewrite (proj2 (Z.eqb_neq first (-1))) by lia. }
  rewrite (proj2 (Z.leb_le first n)) by lia. rewrite andb_true_r.
  destruct ((0 <=? first) && (0 <=? last) && (first <=? last)) eqn:E1.
  { apply andb_true_iff in E1 as [[? ?]%andb_true_iff ?]. zbool.
    destruct (Z.leb_spec n last); [rewrite Z.min_r by lia|rewrite Z.min_l by lia]; apply Hst; lia. }
  destruct ((0 <=? first) && (last =? -1) && (first <? n)) eqn:E2.
  { apply andb_true_iff in E2 as [[? ?]%andb_true_iff ?]. zbool.
    replace ((0 <=? first) && (first <? n) && (last =? -1)) with true
      by (symmetry; rewrite !andb_true_iff; zbool; repeat split; lia). apply Hst; lia. }
  replace ((0 <=? first) && (first <? n) && (last =? -1)) with false
    by (rewrite <- E2, <- !andb_assoc; f_equal; apply andb_comm).
  destruct ((first =? -1) && (0 <? last)) eqn:E3; [|done].
  apply andb_true_iff in E3 as [? ?]. zbool.
  destruct (Z.leb_spec n last); [rewrite Z.min_l by lia|rewrite Z.min_r by lia]; apply Hst; lia.
Qed.

(** A range as a client writes it. *)
Definition request_range (a b : option Z) : list Z :=
  cs "bytes=" ++ from_option itoa [] a ++ cs "-" ++ from_option itoa [] b.

Definition position (a : option Z) : Prop := match a with Some n => 0 <= n <= LONG_MAX | None => True end.

Lemma from_itoa a : position a -> from_option itoa [] a = from_option (utoa 10) [] a.
Proof. destruct a as [n|]; cbn; [|done]. intros Hn. unfold itoa. by rewrite (proj2 (Z.ltb_ge n 0)) by lia. Qed.

Lemma position_digits a : position a -> Forall (fun c => isdigit c = true) (from_option itoa [] a).
Proof. intros H. rewrite from_itoa by done. destruct a as [n|]; cbn; [apply utoa_digits|done]. Qed.

Lemma isdigit_range c : isdigit c = true -> 48 <= c <= 57.
Proof. unfold isdigit. intros [? ?]%andb_true_iff. zbool. lia. Qed.

Lemma digits_not (c : Z) l : Forall (fun x => isdigit x = true) l -> isdigit c = false -> Forall (fun x => x <> c) l.
Proof. intros H Hc. eapply Forall_impl; [exact H|]. cbn. congruence. Qed.

Lemma scan_number n k : 0 <= n <= LONG_MAX -> scan_ld (utoa 10 n ++ 32 :: k) = Some (n, 32 :: k).
Proof. intros Hn. exact (scan_ld_utoa [] n (32 :: k) Hn (List.Forall_nil _) (conj eq_refl eq_refl)). Qed.
Lemma scan_last_number n : 0 <= n <= LONG_MAX -> scan_ld (32 :: utoa 10 n) = Some (n, []).
Proof.
  intros Hn. pose proof (scan_ld_utoa [32] n [] Hn ltac:(by repeat constructor) I) as E.
  by rewrite app_nil_r in E.
Qed.

(** Reading the two numbers behind the ["="]. *)
Lemma scan_range_spec a b :
  position a -> position b ->
  scan_range (from_option itoa [] a ++ 32 :: from_option itoa [] b)
  = match a, b with
    | Some a, Some b => (a, b)
    | Some a, None => (a, -1)
    | None, Some b => (b, -1)
    | None, None => (-1, -1)
    end.
Proof.
  intros Ha Hb. rewrite !from_itoa by done. unfold scan_range.
  destruct a as [a|], b as [b|]; cbn [from_option app]; cbn in Ha, Hb.
  - by rewrite scan_number, scan_last_number.
  - by rewrite scan_number.
  - by rewrite scan_last_number.
  - done.
Qed.

Lemma suffix_spec a b :
  position a -> Is_Suffix_byte_Range (from_option itoa [] a ++ 45 :: b) = bool_decide (a = None).
Proof.
  intros Ha. pose proof (position_digits a Ha) as Hd. destruct a as [a|]; [|done].
  cbn [from_option] in *. pose proof (zlen_itoa a) as Hz. destruct (itoa a) as [|d ds]; [by destruct Hz|].
  apply Forall_cons_1 in Hd as [Hd _]. cbn [app Is_Suffix_byte_Range]. rewrite Hd.
  apply isdigit_range in Hd. by rewrite (proj2 (Z.eqb_neq d 45)) by lia.
Qed.

Lemma GetNextRange_spec a b :
  position a -> position b ->
  GetNextRange (Some (from_option itoa [] a ++ 45 :: from_option itoa [] b))
  = Some (default (-1) a, default (-1) b).
Proof.
  intros Ha Hb. pose proof (position_digits a Ha) as Hda. pose proof (position_digits b Hb) as Hdb.
  set (t := from_option itoa [] a ++ 45 :: from_option itoa [] b).
  assert (Forall (fun x => x <> 0) t) as H0.
  { unfold t. apply Forall_app. split; [by apply digits_not|].
    constructor; [done|by apply digits_not]. }
  unfold GetNextRange, StrTok, strstr. rewrite (c_str_id t H0).
  change (c_str (cs ",")) with [44]. rewrite find_char_none.
  2:{ unfold t. apply Forall_app. split; [by apply digits_not|].
      constructor; [done|by apply digits_not]. }
  cbn [mbind option_bind]. rewrite (c_str_id t H0). change (c_str (cs "-")) with [45].
  assert (find_sub [45] t 0 = Some (zlen (from_option itoa [] a))) as ->
    by (unfold t; by rewrite find_char by (by apply digits_not)).
  cbn [mbind option_bind].
  assert (ztake (zlen (from_option itoa [] a)) t ++ cs " " ++ zdrop (zlen (from_option itoa [] a) + 1) t
    = from_option itoa [] a ++ 32 :: from_option itoa [] b) as ->.
  { unfold t. rewrite ztake_app_exact by done.
    rewrite <- (zdrop_zdrop 1) by (try apply zlen_nonneg; lia). by rewrite zdrop_app_exact by done. }
  rewrite scan_range_spec by done.
  unfold t. rewrite suffix_spec by done.
  destruct a as [a|], b as [b|]; cbn in *; try done.
  - rewrite (proj2 (Z.eqb_neq a (-1))), (proj2 (Z.eqb_neq b (-1))) by lia. done.
  - by rewrite andb_false_r.
  - by rewrite orb_true_r.
Qed.

Lemma StrStr_runs md s1 s2 :
  runs md (StrStr s1 s2) (fun r =>
    r = (fun i => zdrop i s1) <$> strstr (ToUpperCase s1) (ToUpperCase s2) \/ (md <> Lucky /\ r = None)).
Proof.
  unfold StrStr. mstep. mstep; cbn [negb]; [|by mstep; right].
  mstep. mstep; cbn [negb]; mstep; [by left|by right].
Qed.

(** Every answer: a range that is accepted lies in the document. *)
Lemma create_range_runs md spec n instr :
  0 <= n <= LONG_MAX ->
  runs md (CreateHTTPRangeResponseHeader (Some spec) n instr) (fun '(rc, i) =>
    (rc = HTTP_OK /\ range_ok n instr i) \/
    rc ∈ [HTTP_BAD_REQUEST; HTTP_INTERNAL_SERVER_ERROR; HTTP_REQUEST_RANGE_NOT_SATISFIABLE]).
Proof.
  intros Hn. unfold CreateHTTPRangeResponseHeader.
  mstep. mstep; cbn [negb]; [|mstep; right; set_solver].
  mstep. eapply runs_mono; [apply StrStr_runs|]. intros bytes _. mstep.
  assert (runs md (match bytes with Some _ => StrStr (c_str spec) (cs "=") | None => mret None end)
    (fun _ => True)) as Hp.
  { destruct bytes; [|by mstep]. eapply runs_mono; [apply StrStr_runs|done]. }
  eapply runs_mono; [exact Hp|]. intros [p|] _; [|mstep; right; set_solver].
  rewrite (proj2 (Z.ltb_ge n 0)) by lia.
  destruct (GetNextRange _) as [[F L]|]; [|mstep; right; set_solver]. mstep.
  pose proof (select_range_spec n F L instr Hn) as Hs. cbn zeta in Hs.
  destruct (select_range F L n _) as [rc i]. cbn [fst snd] in Hs.
  destruct (select n F L) as [[o s]|]; [left; naive_solver|right; set_solver].
Qed.

Lemma toupper_id c : islower c = false -> toupper c = c.
Proof. unfold toupper. by intros ->. Qed.

(** A request for one range is answered with the interval it asks for. *)
Lemma create_range_request a b n instr :
  0 <= n <= LONG_MAX -> position a -> position b ->
  runs Lucky (CreateHTTPRangeResponseHeader (Some (request_range a b)) n instr) (fun '(rc, i) =>
    match select n (default (-1) a) (default (-1) b) with
    | Some (o, s) => rc = HTTP_OK /\ RangeOffset i = o /\ ReadSendSize i = s
    | None => rc = HTTP_REQUEST_RANGE_NOT_SATISFIABLE
    end).
Proof.
  intros Hn Ha Hb. pose proof (position_digits a Ha) as Hda. pose proof (position_digits b Hb) as Hdb.
  set (t := from_option itoa [] a ++ 45 :: from_option itoa [] b).
  assert (Forall (fun c => isdigit c = true \/ c = 45) t) as Ht.
  { unfold t. apply Forall_app. split; [|constructor; [by right|]];
      (eapply Forall_impl; [eassumption|]; by left). }
  assert (ToUpperCase (cs "bytes=" ++ t) = cs "BYTES=" ++ t) as Hu.
  { unfold ToUpperCase. rewrite c_str_id.
    2:{ apply Forall_app. split; [by repeat constructor|]. eapply Forall_impl; [exact Ht|].
        intros c [Hc%isdigit_range| ->]; lia. }
    rewrite fmap_app. f_equal. clear - Ht. induction Ht as [|c t Hc _ IH]; [done|]. cbn. f_equal; [|exact IH].
    apply toupper_id. unfold islower. apply andb_false_iff. rewrite !Z.leb_gt.
    destruct Hc as [Hc%isdigit_range| ->]; lia. }
  assert (c_str (cs "BYTES=" ++ t) = cs "BYTES=" ++ t) as Hc.
  { apply c_str_id. apply Forall_app. split; [by repeat constructor|]. eapply Forall_impl; [exact Ht|].
    intros c [Hc%isdigit_range| ->]; lia. }
  assert (c_str (cs "bytes=" ++ t) = cs "bytes=" ++ t) as Hc2.
  { apply c_str_id. apply Forall_app. split; [by repeat constructor|]. eapply Forall_impl; [exact Ht|].
    intros c [Hc2%isdigit_range| ->]; lia. }
  change (request_range a b) with (cs "bytes=" ++ t). unfold CreateHTTPRangeResponseHeader.
  rewrite Hc2. mstep. mstep; cbn [negb]; [|done].
  mstep. eapply runs_mono; [apply StrStr_runs|]. intros bytes [->|[? _]]; [|done].
  rewrite Hu. unfold strstr at 1. rewrite Hc.
  change (find_sub (c_str (ToUpperCase (cs "bytes"))) (cs "BYTES=" ++ t) 0) with (Some 0).
  cbn [fmap option_fmap option_map].
  mstep. eapply runs_mono; [apply StrStr_runs|]. intros p [->|[? _]]; [|done].
  rewrite Hu. unfold strstr at 1. rewrite Hc.
  change (find_sub (c_str (ToUpperCase (cs "="))) (cs "BYTES=" ++ t) 0) with (Some 5).
  cbn [fmap option_fmap option_map]. rewrite (proj2 (Z.ltb_ge n 0)) by lia.
  change (zdrop 1 (zdrop 5 (cs "bytes=" ++ t))) with t. unfold t. rewrite GetNextRange_spec by done.
  mstep. pose proof (select_range_spec n (default (-1) a) (default (-1) b) instr Hn) as Hs. cbn zeta in Hs.
  destruct (select_range _ _ n _) as [rc i]. cbn [fst snd] in Hs.
  destruct (select n _ _) as [[o s]|]; naive_solver.
Qed.

(** ** The range of an answer *)

(** RFC 7233, section 2.1: the first byte and the number of bytes that
    ["a-b"], ["a-"] and ["-k"] ask for in a document of [n] bytes. *)
Definition wanted (n : Z) (a b : option Z) : option (Z * Z) :=
  match a, b with
  | Some a, Some b => if (a <? n) && (a <=? b) then Some (a, Z.min b (n - 1) - a + 1) else None
  | Some a, None => if a <? n then Some (a, n - a) else None
  | None, Some k => if 0 <? k then Some (n - Z.min n k, Z.min n k) else None
  | None, None => None
  end.

Lemma select_wanted n a b :
  position a -> position b -> a <> Some n -> 0 <= n ->
  select n (default (-1) a) (default (-1) b) = wanted n a b.
Proof.
  unfold select, wanted. intros Ha Hb Hne Hn.
  destruct a as [a|], b as [b|]; cbn in *; try done.
  - assert (a <> n) by congruence. rewrite (proj2 (Z.leb_le 0 a)), (proj2 (Z.leb_le 0 b)) by lia.
    rewrite (proj2 (Z.eqb_neq b (-1))), (proj2 (Z.eqb_neq a (-1))), andb_true_r by lia.
    rewrite !andb_false_r. cbn [andb].
    destruct (Z.leb_spec a n), (Z.ltb_spec a n), (Z.leb_spec a b); cbn; done || lia.
  - rewrite (proj2 (Z.leb_le 0 a)), (proj2 (Z.eqb_neq a (-1))) by lia.
    rewrite !andb_false_r, andb_true_r. cbn. by destruct (a <? n).
Qed.

(** C9: Whatever the [Range] header of a request says, the answer to it is an
    error, or an interval that lies in the document and that the
    [Content-Range] header of the answer states; nothing else of the
    instruction is changed.  A single range in one of the three forms of RFC
    7233 is answered with the bytes it asks for, or refused as not
    satisfiable when there are none; only a first position just behind the
    document ([a = n]) is outside the statement. *)
Theorem CreateHTTPRangeResponseHeader_correct n instr :
  0 <= n <= LONG_MAX ->
  (forall md spec, runs md (CreateHTTPRangeResponseHeader (Some spec) n instr) (fun '(rc, i) =>
     (rc = HTTP_OK /\ range_ok n instr i) \/
     rc ∈ [HTTP_BAD_REQUEST; HTTP_INTERNAL_SERVER_ERROR; HTTP_REQUEST_RANGE_NOT_SATISFIABLE])) /\
  (forall a b, position a -> position b -> a <> Some n ->
     runs Lucky (CreateHTTPRangeResponseHeader (Some (request_range a b)) n instr) (fun '(rc, i) =>
       match wanted n a b with
       | Some (offset, size) => rc = HTTP_OK /\ RangeOffset i = offset /\ ReadSendSize i = size
       | None => rc = HTTP_REQUEST_RANGE_NOT_SATISFIABLE
       end)).
Proof.
  intros Hn. split; [intros; by apply create_range_runs|].
  intros a b Ha Hb Hne. rewrite <- select_wanted by (done || lia). by apply create_range_request.
Qed.

Definition no_instr : SendInstruction := MkInstr false false false false [] [] 0 0 0.

Lemma CreateHTTPRangeResponseHeader_correct_witness :
  runs Lucky (CreateHTTPRangeResponseHeader (Some (cs "bytes=-5")) 12 no_instr) (fun '(rc, i) =>
    rc = HTTP_OK /\ RangeOffset i = 7 /\ ReadSendSize i = 5).
Proof.
  apply (proj2 (CreateHTTPRangeResponseHeader_correct 12 no_instr ltac:(unfold LONG_MAX; lia)) None (Some 5));
    [exact I|cbn; unfold LONG_MAX; lia|done].
Defined.

(** A range that starts just behind the document is answered with no bytes
    and a header whose last position is before the first. *)
Lemma range_at_end :
  option_map (fun '(rc, i) => (rc, ReadSendSize i, RangeHeader i))
    (run (CreateHTTPRangeResponseHeader (Some (cs "bytes=12-20")) 12 no_instr))
  = Some (HTTP_OK, 0, cs "CONTENT-RANGE: bytes 12-11/12" ++ EOL).
Proof. reflexivity. Qed.
