(* ===== verification/WebRequest.v ===== *)
(** The web server, answering a request:
    [upnp/src/genlib/net/http/webserver.c] from [get_file_info] and
    [process_request] to [web_server_callback].

    [process_request] goes through stages on what is known of the request so
    far; a stage ends with [HTTP_OK], or with the code of the error handler.
    A file of a virtual directory is a value of [V], the cookies it was opened
    with included; the callbacks are set. *)

From S2P Require Import Prelude CString FreeList MemBuffer StrIntMap HttpTables Uri Scanner HttpMessage HttpParser Sock HttpMake HttpIO IxmlNode XmlPrint UpnpString WebServer WebRange.

Definition X_USER_AGENT : list Z := Eval vm_compute in cs "redsonic".
Definition HTTP_SERVICE_UNAVAILABLE : Z := 503.
Definition UPNP_READ : Z := 0.
Definition UPNP_WRITE : Z := 1.

Inductive resp_type := RESP_FILEDOC | RESP_XMLDOC | RESP_HEADERS | RESP_WEBDOC | RESP_POST.

(** What [fstat] tells of a file; [Other] for neither of the kinds. *)
Inductive file_kind := Directory | Regular | Other.
#[global] Instance file_kind_eq_dec : EqDecision file_kind.
Proof. solve_decision. Defined.
#[global] Instance resp_type_eq_dec : EqDecision resp_type.
Proof. solve_decision. Defined.
Record stat := MkStat { st_kind : file_kind; st_size : Z; st_mtime : Z }.

(** ** The state of the server *)

Record webserver := MkWeb {
  bWebServerState : bool;
  gDocumentRootDir : membuffer;
  w_aliases : aliases;
  pVirtualDirList : list virtualDirList
}.

(** [mutex_ok] is the answer of [ithread_mutex_init]; the table of content
    types is that of [media_list_init]. *)
Definition web_server_init (mutex_ok : bool) (w : webserver) : M (Z * webserver) :=
  if bWebServerState w then mret (UPNP_E_SUCCESS, w)
  else
    _ ← media_list_init;
    mret (if mutex_ok then UPNP_E_SUCCESS else UPNP_E_OUTOF_MEMORY,
          MkWeb mutex_ok membuffer_init (glob_alias_init (w_aliases w)) []).

Definition web_server_destroy (w : webserver) : M webserver :=
  if bWebServerState w then
    st ← release_global (w_aliases w);
    mret (MkWeb false (membuffer_destroy (gDocumentRootDir w)) (glob_alias_init st)
            (pVirtualDirList w))
  else mret w.

(** ** A request that is being processed *)

(** [finfo], [filename], [RespInstr] and its cookies. *)
Record processing := MkProc {
  pc_finfo : UpnpFileInfo;
  pc_filename : membuffer;
  pc_instr : SendInstruction;
  pc_Cookie : Z;
  pc_RequestCookie : Z
}.
Implicit Types (p : processing) (req : http_message_t) (info : UpnpFileInfo).

Definition set_finfo (v : UpnpFileInfo) p : processing :=
  MkProc v (pc_filename p) (pc_instr p) (pc_Cookie p) (pc_RequestCookie p).
Definition set_filename (v : membuffer) p : processing :=
  MkProc (pc_finfo p) v (pc_instr p) (pc_Cookie p) (pc_RequestCookie p).
Definition set_instr (v : SendInstruction) p : processing :=
  MkProc (pc_finfo p) (pc_filename p) v (pc_Cookie p) (pc_RequestCookie p).
Definition set_Cookie (v : Z) p : processing :=
  MkProc (pc_finfo p) (pc_filename p) (pc_instr p) v (pc_RequestCookie p).
Definition set_RequestCookie (v : Z) p : processing :=
  MkProc (pc_finfo p) (pc_filename p) (pc_instr p) (pc_Cookie p) v.

(** The next stage, or the error handler. *)
Definition and_then (m : M (Z * processing)) (k : processing -> M (Z * processing))
    : M (Z * processing) :=
  '(code, p) ← m;
  if code =? HTTP_OK then k p else mret (code, p).

(** A [char *] that is read. *)
Definition str_arg (d : DOMString) : option (option (list Z)) :=
  match d with DNull => Some None | DStr s => Some (Some s) | DFreed => None end.

Definition no_instr : SendInstruction := MkInstr false false false false [] [] 0 0 0.

(** What [process_request] answers: the result, the kind of answer, the
    headers, the document that was grabbed, and the request. *)
Record processed := MkProcessed {
  ps_code : Z;
  ps_rtype : resp_type;
  ps_headers : membuffer;
  ps_alias : option xml_alias_t;
  ps_request : processing
}.

Section WebRequest.
Context (junk : Z).
Context (getaddrinfo : list Z -> option (list sockaddr))
  (inet_pton : Z -> list Z -> option (list Z)) (gIF_INDEX : Z).
Context (sysname release UPNP_VERSION_STRING : list Z).
Context (gmtime : Z -> option tm) (now : Z) (codes : statcodes).
(** The contents of the file of a name; what the system tells of it ([None]:
    it cannot be opened, [Some None]: [fstat] fails). *)
Context (files : list Z -> option (list Z)) (file_stat : list Z -> option (option stat)).
(** The callbacks of the virtual directories: [get_info] gets the cookies, and
    answers the result, the information and the cookie of the request. *)
Context {V : Type} (vd_get_info : list Z -> UpnpFileInfo -> Z -> Z -> Z * UpnpFileInfo * Z)
  (vd_open : list Z -> Z -> Z -> Z -> option V) (vd_seek : V -> Z -> Z * V)
  (vd_read : V -> Z -> Z * list Z * V) (vd_write : V -> list Z -> Z * V) (virtual_fuel : nat).

Local Abbreviation make := (http_MakeMessage junk sysname release UPNP_VERSION_STRING gmtime now codes).
Local Abbreviation parse_entity := (parser_parse_entity junk getaddrinfo inet_pton gIF_INDEX).

(** ** Files *)

(** The date of the file is computed for a message that is printed when
    debugging is on; a time without a date has no text. *)
Definition get_file_info (filename : list Z) info : M (Z * UpnpFileInfo) :=
  info ← UpnpFileInfo_set_ContentType DNull info;
  match file_stat (c_str filename) with
  | None => mret (-1, UpnpFileInfo_set_IsReadable false info)
  | Some s =>
      let info := UpnpFileInfo_set_IsReadable true info in
      match s with
      | None | Some (MkStat Other _ _) => mret (-1, info)
      | Some (MkStat kind size mtime) =>
          let info := UpnpFileInfo_set_IsDirectory (bool_decide (kind = Directory)) info in
          let info := UpnpFileInfo_set_LastModified mtime (UpnpFileInfo_set_FileLength size info) in
          '(rc, info) ← get_content_type filename info;
          _ ← liftO (gmtime (m_LastModified info));
          mret (rc, info)
      end
  end.

Definition local_info p : M (Z * processing) :=
  name ← liftO (mb_buf (pc_filename p));
  '(rc, info) ← get_file_info name (pc_finfo p);
  mret (rc, set_finfo info p).
Definition virtual_info p : M (Z * processing) :=
  name ← liftO (mb_buf (pc_filename p));
  let '(rc, info, cookie) :=
    vd_get_info (c_str name) (pc_finfo p) (pc_Cookie p) (pc_RequestCookie p) in
  mret (rc, set_RequestCookie cookie (set_finfo info p)).

Definition append_index p : M (Z * processing) :=
  buf ← liftO (mb_buf (pc_filename p));
  c ← liftO (peek buf (mb_length (pc_filename p) - 1));
  '(rc, f) ← membuffer_append_str junk (pc_filename p)
    (if c =? $"/" then cs "index.html" else cs "/index.html");
  mret (if rc =? 0 then HTTP_OK else HTTP_INTERNAL_SERVER_ERROR, set_filename f p).

(** The information on a file, or on [index.html] of a directory. *)
Definition file_or_index (get : processing -> M (Z * processing)) p : M (Z * processing) :=
  '(rc, p) ← get p;
  if negb (rc =? 0) then mret (HTTP_NOT_FOUND, p)
  else
  and_then
    (if m_IsDirectory (pc_finfo p) then
       and_then (append_index p) (fun p =>
         '(rc, p) ← get p;
         mret (if negb (rc =? 0) || m_IsDirectory (pc_finfo p) then HTTP_NOT_FOUND else HTTP_OK, p))
     else mret (HTTP_OK, p))
    (fun p => mret (if m_IsReadable (pc_finfo p) then HTTP_OK else HTTP_FORBIDDEN, p)).

(** ** The document that is asked for *)

Definition get_alias (request_file : list Z) (alias : xml_alias_t) info
    : M (bool * UpnpFileInfo) :=
  name ← liftO (mb_buf (al_name alias));
  if strcmp_eq name request_file then
    let info := UpnpFileInfo_set_FileLength (mb_length (al_doc alias)) info in
    let info := UpnpFileInfo_set_IsReadable true (UpnpFileInfo_set_IsDirectory false info) in
    mret (true, UpnpFileInfo_set_LastModified (al_last_modified alias) info)
  else mret (false, info).

(** The path, decoded and without dot segments; [inl] is the error. *)
Definition request_document req : M (Z + list Z) :=
  let pathquery := u_pathquery (m_uri req) in
  let size := tk_size pathquery in
  ok ← malloc_ok;
  if negb ok then mret (inl HTTP_INTERNAL_SERVER_ERROR)
  else
    doc ← liftO (mem_slice (default [] (m_urlbuf req)) (tk_buff pathquery) size);
    '(_, doc, _) ← liftO (remove_escaped_chars (doc ++ [0]) size);
    '(code, path) ← remove_dots (ztake size doc) size;
    let request_doc := path ++ zdrop size doc in
    if negb (code =? 0) then mret (inl HTTP_FORBIDDEN)
    else if negb (rd request_doc 0 =? $"/") then mret (inl HTTP_BAD_REQUEST)
    else mret (inr request_doc).

(** Who serves the document. *)
Inductive served := ByVirtualDir | ByAlias | ByFile.

(** The result, who serves it, the document that was grabbed, and the
    aliases. *)
Definition find_document (request_doc : list Z) (w : webserver) p
    : M (Z * served * option xml_alias_t * aliases * processing) :=
  let st := w_aliases w in
  match isFileInVirtualDir request_doc (pVirtualDirList w) with
  | Some cookie =>
      let p := set_Cookie cookie (set_instr (set_virtual (pc_instr p)) p) in
      '(rc, f) ← membuffer_assign_str junk (pc_filename p) request_doc;
      mret (if rc =? 0 then HTTP_OK else HTTP_INTERNAL_SERVER_ERROR, ByVirtualDir, None, st,
            set_filename f p)
  | None =>
      if is_valid_alias (gAliasDoc st) then
        '(alias, st) ← alias_grab st;
        '(using_alias, info) ← get_alias request_doc alias (pc_finfo p);
        if using_alias : bool then
          info ← UpnpFileInfo_set_ContentType
                   (DStr (cs "text/xml; charset=" ++ [34] ++ cs "utf-8" ++ [34])) info;
          mret (if is_null (m_ContentType info) then HTTP_INTERNAL_SERVER_ERROR else HTTP_OK,
                ByAlias, Some alias, st, set_finfo info p)
        else mret (HTTP_OK, ByFile, Some alias, st, set_finfo info p)
      else mret (HTTP_OK, ByFile, None, st, p)
  end.

(** ** Files of virtual directories and of the root directory *)

Definition virtual_file req (foreign_sockaddr : sockaddr) p : M (Z * processing) :=
  if m_method req =? HTTPMETHOD_POST then mret (HTTP_OK, p)
  else
    '(code, l) ← ExtraHTTPHeaders req (m_ExtraHeadersList (pc_finfo p));
    let info := set_ExtraHeadersList l (pc_finfo p) in
    if negb (code =? HTTP_OK) then mret (code, set_finfo info p)
    else
    let info := UpnpFileInfo_set_CtrlPtIPAddr foreign_sockaddr info in
    info ← match httpmsg_find_hdr req HDR_USER_AGENT with
           | Some (_, hd) =>
               UpnpFileInfo_strncpy_Os (mp_buf (value_ptr hd)) (mp_length (value_ptr hd)) info
           | None => mret info
           end;
    file_or_index virtual_info (set_finfo info p).

(** [while (filename->length > 0 && ...)]. *)
Fixpoint trim_slashes (fuel : nat) (filename : membuffer) : M membuffer :=
  match fuel with
  | O => running
  | S fuel' =>
      if mb_length filename <=? 0 then mret filename
      else
      buf ← liftO (mb_buf filename);
      c ← liftO (peek buf (mb_length filename - 1));
      if c =? $"/" then
        f ← membuffer_delete junk filename (mb_length filename - 1) 1;
        trim_slashes fuel' f
      else mret filename
  end.

Definition local_file req (request_doc : list Z) (w : webserver) p : M (Z * processing) :=
  if mb_length (gDocumentRootDir w) =? 0 then mret (HTTP_INTERNAL_SERVER_ERROR, p)
  else
    root ← liftO (mb_buf (gDocumentRootDir w));
    '(rc, f) ← membuffer_assign_str junk (pc_filename p) root;
    '(rc, f) ← (if rc =? 0 then membuffer_append_str junk f request_doc else mret (rc, f));
    if negb (rc =? 0) then mret (HTTP_INTERNAL_SERVER_ERROR, set_filename f p)
    else
    f ← trim_slashes (S (Z.to_nat (mb_length f))) f;
    let p := set_filename f p in
    if m_method req =? HTTPMETHOD_POST then mret (HTTP_OK, p) else file_or_index local_info p.

(** ** The headers of the answer *)

(** Whether the answer is sent in chunks. *)
Definition check_chunked (how : served) (resp_major resp_minor : Z) p : Z * processing :=
  match how with
  | ByVirtualDir =>
      if m_FileLength (pc_finfo p) =? UPNP_USING_CHUNKED then
        if (resp_major =? 1) && (resp_minor =? 1) then (HTTP_OK, set_instr (set_chunked (pc_instr p)) p)
        else (HTTP_NOT_ACCEPTABLE, p)
      else (HTTP_OK, p)
  | _ => (HTTP_OK, p)
  end.

(** The headers that all answers end with. *)
Definition last_headers p (extra : list (option (list Z))) : list arg :=
  [lit_arg "LAST-MODIFIED: "; ATime (Some (m_LastModified (pc_finfo p)));
   AStr (Some X_USER_AGENT); AExtra (Some extra)].

Definition make_headers (resp_major resp_minor : Z) p : M (Z * membuffer) :=
  let instr := pc_instr p in
  extra ← liftO (mapM (fun e => str_arg (xh_resp e)) (m_ExtraHeadersList (pc_finfo p)));
  type ← liftO (str_arg (m_ContentType (pc_finfo p)));
  let rest := last_headers p extra in
  let headers := make membuffer_init resp_major resp_minor in
  if IsRangeActive instr && IsChunkActive instr then
    headers "RTGKLDstcSXcECc"
      ([AInt HTTP_PARTIAL_CONTENT; AStr type; AInstr instr; AInstr instr] ++ rest)
  else if IsRangeActive instr then
    headers "RNTGLDstcSXcECc"
      ([AInt HTTP_PARTIAL_CONTENT; AOff (ReadSendSize instr); AStr type; AInstr instr; AInstr instr]
       ++ rest)
  else if IsChunkActive instr then
    headers "RKTLDstcSXcECc" ([AInt HTTP_OK; AStr type; AInstr instr] ++ rest)
  else if 0 <=? ReadSendSize instr then
    headers "RNTLDstcSXcECc"
      ([AInt HTTP_OK; AOff (ReadSendSize instr); AStr type; AInstr instr] ++ rest)
  else headers "RTLDstcSXcECc" ([AInt HTTP_OK; AStr type; AInstr instr] ++ rest).

Definition response_type req (how : served) : resp_type :=
  if m_method req =? HTTPMETHOD_HEAD then RESP_HEADERS
  else match how with ByAlias => RESP_XMLDOC | ByVirtualDir => RESP_WEBDOC | ByFile => RESP_FILEDOC end.

(** From the information on the document to the headers: the result, the kind
    of answer and the headers. *)
Definition answer_request req (how : served) p : M (Z * resp_type * membuffer * processing) :=
  let rtype := RESP_FILEDOC in
  let length := m_FileLength (pc_finfo p) in
  let '(resp_major, resp_minor) :=
    http_CalcResponseVersion (m_major_version req) (m_minor_version req) in
  '(code, instr) ← CheckOtherHTTPHeaders req (set_ReadSendSize length (pc_instr p)) length;
  let p := set_instr instr p in
  if negb (code =? HTTP_OK) then mret (code, rtype, membuffer_init, p)
  else if m_method req =? HTTPMETHOD_POST then mret (HTTP_OK, RESP_POST, membuffer_init, p)
  else
  let '(code, p) := check_chunked how resp_major resp_minor p in
  if negb (code =? HTTP_OK) then mret (code, rtype, membuffer_init, p)
  else
  '(rc, headers) ← make_headers resp_major resp_minor p;
  if negb (rc =? 0) then mret (HTTP_INTERNAL_SERVER_ERROR, rtype, headers, p)
  else
    let headers :=
      if m_method req =? HTTPMETHOD_SIMPLEGET then membuffer_destroy headers else headers in
    mret (HTTP_OK, response_type req how, headers, p).

(** ** [process_request] *)

(** The error handler, which all requests end with. *)
Definition finish_request (code : Z) (rtype : resp_type) (headers : membuffer)
    (alias : option xml_alias_t) (st : aliases) p : M (processed * aliases) :=
  _ ← liftO (FreeExtraHTTPHeaders (m_ExtraHeadersList (pc_finfo p)));
  _ ← liftO (free_str (m_ContentType (pc_finfo p)));
  match alias with
  | Some a =>
      if negb (code =? HTTP_OK) then
        '(a, st) ← alias_release a st;
        mret (MkProcessed code rtype headers (Some a) p, st)
      else mret (MkProcessed code rtype headers alias p, st)
  | None => mret (MkProcessed code rtype headers None p, st)
  end.

Definition process_request (foreign_sockaddr : sockaddr) req (w : webserver)
    : M (processed * aliases) :=
  let st := w_aliases w in
  _ ← assertM ((m_method req =? HTTPMETHOD_GET) || (m_method req =? HTTPMETHOD_HEAD)
               || (m_method req =? HTTPMETHOD_POST) || (m_method req =? HTTPMETHOD_SIMPLEGET));
  finfo ← UpnpFileInfo_new;
  finfo ← liftO finfo;
  let p := MkProc finfo membuffer_init no_instr 0 0 in
  doc ← request_document req;
  match doc with
  | inl code => finish_request code RESP_FILEDOC membuffer_init None st p
  | inr request_doc =>
      '(code, how, alias, st, p) ← find_document request_doc w p;
      '(code, p) ← and_then (mret (code, p)) (fun p =>
        match how with
        | ByVirtualDir => virtual_file req foreign_sockaddr p
        | ByAlias => mret (HTTP_OK, p)
        | ByFile => local_file req request_doc w p
        end);
      if negb (code =? HTTP_OK) then finish_request code RESP_FILEDOC membuffer_init alias st p
      else
        '(code, rtype, headers, p) ← answer_request req how p;
        finish_request code rtype headers alias st p
  end.

(** ** Receiving a document *)

(** A position, and what a parse of the entity means ([HttpIO]). *)
Definition post_needs_more (parser : http_parser_t) (entity_offset Data_Buf_Size : Z) : bool :=
  (entity_length parser <? entity_offset + Data_Buf_Size)
  && negb (bool_decide (p_position parser = POS_COMPLETE)).

(** The inner loop; [inl] is the code to return. *)
Fixpoint post_read_loop (fuel : nat) (nt : net) (parser : http_parser_t)
    (entity_offset Data_Buf_Size Timeout : Z) (ok_on_close : bool)
    : M ((Z + bool) * http_parser_t * Z * net) :=
  match fuel with
  | O => running
  | S fuel' =>
      if negb (post_needs_more parser entity_offset Data_Buf_Size) then
        mret (inr ok_on_close, parser, Timeout, nt)
      else
      let '(num_read, Buf, Timeout, nt) := sock_read nt 1024 Timeout in
      if 0 <? num_read then
        '(rc, b) ← membuffer_append junk (m_msg_buf (p_msg parser)) (Some Buf) num_read;
        let parser := on_msg (set_msg_buf b) parser in
        if negb (rc =? 0) then
          mret (inl HTTP_INTERNAL_SERVER_ERROR, set_error HTTP_INTERNAL_SERVER_ERROR parser,
                Timeout, nt)
        else
          '(status, parser) ← parse_entity parser;
          match entity_status status ok_on_close with
          | None => mret (inl HTTP_BAD_REQUEST, parser, Timeout, nt)
          | Some ok_on_close =>
              post_read_loop fuel' nt parser entity_offset Data_Buf_Size Timeout ok_on_close
          end
      else if num_read =? 0 then
        if ok_on_close then
          post_read_loop fuel' nt (set_position POS_COMPLETE parser) entity_offset Data_Buf_Size
            Timeout ok_on_close
        else mret (inl HTTP_BAD_REQUEST, set_error HTTP_BAD_REQUEST parser, Timeout, nt)
      else mret (inl HTTP_SERVICE_UNAVAILABLE, parser, Timeout, nt)
  end.

(** The outer loop: [status] is that of the last parse. *)
Fixpoint recv_post_loop (fuel : nat) (nt : net) (parser : http_parser_t) (Fp : V)
    (entity_offset Data_Buf_Size Timeout : Z) (status : parse_status_t) (ok_on_close : bool)
    : M (Z * http_parser_t * V * net) :=
  match fuel with
  | O => running
  | S fuel' =>
      '(status, parser) ←
        (if bool_decide (p_position parser = POS_COMPLETE) then mret (status, parser)
         else parse_entity parser);
      match entity_status status ok_on_close with
      | None => mret (HTTP_BAD_REQUEST, parser, Fp, nt)
      | Some ok_on_close =>
          '(r, parser, Timeout, nt) ←
            post_read_loop (2 + recv_fuel nt) nt parser entity_offset Data_Buf_Size Timeout ok_on_close;
          match r with
          | inl code => mret (code, parser, Fp, nt)
          | inr ok_on_close =>
              let size := if entity_length parser <? entity_offset + Data_Buf_Size
                          then to_size (entity_length parser - entity_offset) else Data_Buf_Size in
              block ← liftO (mb_buf (m_msg_buf (p_msg parser)));
              _ ← liftO (if size <=? 1024 then Some tt else None);
              d ← liftO (mem_slice block (p_entity_start_position parser + entity_offset) size);
              let entity_offset := entity_offset + size in
              let '(n, Fp) := vd_write Fp d in
              if n <? 0 then mret (HTTP_INTERNAL_SERVER_ERROR, parser, Fp, nt)
              else if negb (bool_decide (p_position parser = POS_COMPLETE))
                      || negb (entity_offset =? entity_length parser)
              then recv_post_loop fuel' nt parser Fp entity_offset size Timeout status ok_on_close
              else mret (HTTP_OK, parser, Fp, nt)
          end
      end
  end.

(** Every pass takes 1024 bytes of the entity or is the last one. *)
Definition post_fuel (parser : http_parser_t) (nt : net) : nat :=
  S (S (Z.to_nat (msg_length parser) + recv_fuel nt)).

(** The result, the parser, the file that was written ([None]: none was opened)
    and the connection.  Local files are not written without
    [UPNP_ENABLE_POST_WRITE]. *)
Definition http_RecvPostMessage (parser : http_parser_t) (nt : net) (filename : list Z) p
    : M (Z * http_parser_t * option V * net) :=
  if IsVirtualFile (pc_instr p) then
    match vd_open (c_str filename) UPNP_WRITE (pc_Cookie p) (pc_RequestCookie p) with
    | None => mret (HTTP_INTERNAL_SERVER_ERROR, parser, None, nt)
    | Some Fp =>
        let parser := set_position POS_ENTITY parser in
        '(rc, parser, Fp, nt) ←
          recv_post_loop (post_fuel parser nt) nt parser Fp 0 1024 (-1) PARSE_OK false;
        mret (rc, parser, Some Fp, nt)
    end
  else mret (HTTP_NOT_FOUND, parser, None, nt).

(** ** [web_server_callback] *)

(** The aliases, the parser, the file of a [POST], and the connection. *)
Definition web_result : Type := aliases * http_parser_t * option V * net.

Definition web_server_callback (parser : http_parser_t) req (info : SOCKINFO) (w : webserver)
    (nt : net) : M web_result :=
  '(r, st) ← process_request (so_foreign_sockaddr info) req w;
  let p := ps_request r in
  let open name := vd_open name UPNP_READ (pc_Cookie p) (pc_RequestCookie p) in
  let send fmt args := http_SendMessage files open vd_seek vd_read virtual_fuel nt (-1) (cs fmt) args in
  let headers := [AStr (mb_buf (ps_headers r)); ASize (mb_length (ps_headers r))] in
  if negb (ps_code r =? HTTP_OK) then
    '(_, nt) ← http_SendStatusResponse junk sysname release UPNP_VERSION_STRING gmtime now codes
      files open vd_seek vd_read virtual_fuel nt (ps_code r) (m_major_version req)
      (m_minor_version req);
    mret (st, parser, None, nt)
  else
  match ps_rtype r with
  | RESP_FILEDOC | RESP_WEBDOC =>
      '(_, _, nt) ← send "Ibf"%string
        (AInstr (pc_instr p) :: headers ++ [AStr (mb_buf (pc_filename p))]);
      mret (st, parser, None, nt)
  | RESP_XMLDOC =>
      xmldoc ← liftO (ps_alias r);
      '(_, _, nt) ← send "Ibb"%string
        (AInstr (pc_instr p) :: headers
         ++ [AStr (mb_buf (al_doc xmldoc)); ASize (mb_length (al_doc xmldoc))]);
      '(_, st) ← alias_release xmldoc st;
      mret (st, parser, None, nt)
  | RESP_HEADERS =>
      '(_, _, nt) ← send "b"%string headers; mret (st, parser, None, nt)
  | RESP_POST =>
      filename ← liftO (mb_buf (pc_filename p));
      '(ret, parser, Fp, nt) ← http_RecvPostMessage parser nt filename p;
      '(_, headers) ← make (ps_headers r) 1 1 "RTLSXcCc"
        [AInt ret; lit_arg "text/html"; AInstr (pc_instr p); AStr (Some X_USER_AGENT)];
      '(_, _, nt) ← http_SendMessage files open vd_seek vd_read virtual_fuel nt (-1) (cs "b")
        [AStr (mb_buf headers); ASize (mb_length headers)];
      mret (st, parser, Fp, nt)
  end.
End WebRequest.
