(* ===== verification/WebPath.v ===== *)
(** Which file the web server opens for a request: the path of
    [request_document] has no dot segments left, so what is added to the root
    directory does not lead out of it.  The document that is announced exists,
    and what is sent of it lies inside. *)

From S2P Require Import Prelude CString FreeList MemBuffer StrIntMap HttpTables Uri Scanner HttpMessage HttpParser Sock HttpMake HttpIO IxmlNode XmlPrint UpnpString WebServer WebRange WebRequest.

(** ** Dot segments of any path *)

Definition segments_ok (st : list (list Z)) : Prop :=
  Forall dot_free st /\ Forall (Forall no_slash) st.

Lemma segments_ok_take n st : segments_ok st -> segments_ok (take n st).
Proof. intros [? ?]. split; by apply Forall_take. Qed.
Lemma segments_ok_snoc st s :
  segments_ok st -> dot_free s -> Forall no_slash s -> segments_ok (st ++ [s]).
Proof. intros [? ?] ? ?. split; apply Forall_app; split; auto. Qed.

(** Every text is the segments behind its first slash and what is before. *)
Lemma split_slashes l : exists pre segs,
  l = pre ++ join segs /\ Forall no_slash pre /\ Forall (Forall no_slash) segs.
Proof.
  induction l as [|c l (pre & segs & -> & Hp & Hs)].
  - by exists [], [].
  - destruct (decide (c = $"/")) as [->|Hc].
    + exists [], (pre :: segs). split; [done|]. split; [done|]. by constructor.
    + exists (c :: pre), segs. split; [done|]. split; [by constructor|done].
Qed.

Lemma drop_last_pre pre st :
  Forall no_slash pre -> Forall (Forall no_slash) st ->
  exists pre', drop_last (pre ++ join st) = pre' ++ join (take (length st - 1) st) /\
    Forall no_slash pre'.
Proof.
  intros Hp Hst. destruct st as [|s st _] using rev_ind.
  - exists []. split; [|done]. cbn. rewrite app_nil_r. by rewrite drop_last_no_slash.
  - exists pre. split; [|done]. apply Forall_app in Hst as [_ [Hs _]%Forall_cons_1].
    rewrite length_app, take_app_le by (simpl; lia). simpl. rewrite Nat.add_sub, firstn_all, join_app.
    change (join [s]) with ($"/" :: s ++ []). rewrite app_nil_r, app_assoc. by apply drop_last_app.
Qed.

(** The output is a relative part and segments without dots. *)
Definition out_ok (out : list Z) : Prop :=
  exists pre st, out = pre ++ join st /\ Forall no_slash pre /\ segments_ok st.

Lemma rds_loop_ok segs f out :
  Forall (Forall no_slash) segs -> out_ok out -> out_ok (rds_loop f out (join segs)).
Proof.
  intros Hsegs. revert f out. induction Hsegs as [|s segs Hs Hsegs IH]; intros f out Hout.
  { by destruct f. }
  destruct f as [|f]; [done|]. change (join (s :: segs)) with (47 :: s ++ join segs). cbn [rds_loop].
  assert (forall o, out_ok o -> out_ok (rds_loop f o [47])) as Hlast.
  { intros o (pre & st & -> & Hp & Hst). destruct f as [|f]; [by exists pre, st|]. cbn [rds_loop].
    rewrite (rds_step_segment _ [] [] ltac:(constructor) ltac:(by split)).
    assert (out_ok ((pre ++ join st) ++ [47])) as H.
    { exists pre, (st ++ [[]]). rewrite join_app, app_assoc. split; [done|]. split; [done|].
      by apply segments_ok_snoc. }
    by destruct f. }
  destruct (decide (s = cs ".")) as [->|Hd1].
  - destruct segs as [|s2 segs]; [by apply Hlast|by apply IH].
  - destruct (decide (s = cs "..")) as [->|Hd2].
    + assert (rds_step out (47 :: cs ".." ++ join segs)
        = (drop_last out, match segs with [] => [47] | _ => join segs end)) as -> by by destruct segs.
      assert (out_ok (drop_last out)) as Hd.
      { destruct Hout as (pre & st & -> & Hp & Hst).
        destruct (drop_last_pre pre st Hp (proj2 Hst)) as (pre' & -> & Hp').
        exists pre', (take (length st - 1) st). split; [done|]. split; [done|].
        by apply segments_ok_take. }
      destruct segs as [|s2 segs]; [by apply Hlast|by apply IH].
    + rewrite rds_step_segment by done. apply IH.
      destruct Hout as (pre & st & -> & Hp & Hst). exists pre, (st ++ [s]).
      rewrite join_app, <- app_assoc. split; [|split; [done|by apply segments_ok_snoc]].
      do 2 f_equal. unfold join. simpl. by rewrite app_nil_r.
Qed.

Lemma rds_start_ok f pre segs :
  Forall no_slash pre -> Forall (Forall no_slash) segs -> out_ok (rds_loop f [] (pre ++ join segs)).
Proof.
  revert pre segs. induction f as [|f IH]; intros pre segs Hp Hs; [by exists [], []|].
  destruct pre as [|c pre].
  { apply rds_loop_ok; [done|]. by exists [], []. }
  cbn [app rds_loop].
  assert (forall q, Forall no_slash q -> Forall (Forall no_slash) segs ->
    is_prefix (q ++ [47]) ((c :: pre) ++ join segs) = true ->
    exists s segs', segs = s :: segs' /\ c :: pre = q) as Hq.
  { intros q Hq _ [k Hk]%is_prefix_spec. rewrite <- app_assoc in Hk.
    destruct (no_slash_split (c :: pre) q (join segs) (47 :: k) Hp Hq (join_head _) ltac:(eauto) Hk)
      as [-> E]. destruct segs as [|s segs]; [done|]. by exists s, segs. }
  assert (forall s segs', segs = s :: segs' -> out_ok (rds_loop f [] (s ++ join segs'))) as Hrest.
  { intros s segs' ->. apply Forall_cons_1 in Hs as [Hs1 Hs2]. by apply IH. }
  assert (c <> 47) as Hc by (apply Forall_cons_1 in Hp as [Hp _]; exact Hp).
  unfold rds_step. cbn [app] in Hq.
  destruct (is_prefix (cs "./") (c :: pre ++ join segs)) eqn:E1.
  { destruct (Hq (cs ".") ltac:(by repeat constructor) Hs E1) as (s & segs' & -> & [= -> ->]). by eapply Hrest. }
  destruct (is_prefix (cs "../") (c :: pre ++ join segs)) eqn:E2.
  { destruct (Hq (cs "..") ltac:(by repeat constructor) Hs E2) as (s & segs' & -> & [= -> ->]). by eapply Hrest. }
  assert (forall q l, is_prefix (47 :: q) (c :: l) = false) as Hno.
  { intros q l. change (is_prefix (47 :: q) (c :: l)) with ((47 =? c) && is_prefix q l).
    by rewrite (proj2 (Z.eqb_neq 47 c)) by done. }
  change (cs "/./") with (47 :: cs "./"). change (cs "/../") with (47 :: cs "../"). rewrite !Hno.
  rewrite !bool_decide_false by (intros [=]; done).
  destruct (_ || _).
  { destruct f; by exists [], []. }
  unfold first_segment. rewrite (proj2 (Z.eqb_neq c 47)) by done.
  change (c :: pre ++ join segs) with ((c :: pre) ++ join segs).
  rewrite (until_slash_join (c :: pre)) by done. apply rds_loop_ok; [done|].
  exists (c :: pre), []. by rewrite app_nil_r.
Qed.

(** A path that is absolute after the dot segments were removed. *)
Lemma remove_dot_segments_ok p :
  match remove_dot_segments p with
  | 47 :: _ => exists st, remove_dot_segments p = join st /\ segments_ok st
  | _ => True
  end.
Proof.
  destruct (split_slashes p) as (pre & segs & E & Hp & Hs).
  unfold remove_dot_segments. destruct (rds_start_ok (length p) pre segs Hp Hs) as (q & st & H & Hq & Hst).
  rewrite <- E in H. rewrite H. destruct q as [|c q].
  - cbn [app]. destruct st as [|s st]; [done|]. by exists (s :: st).
  - apply Forall_cons_1 in Hq as [Hc _]. unfold no_slash in Hc. cbn [app].
    repeat (destruct c as [|c|c]; try done).
Qed.

(** ** The document of a request *)

Lemma schar_is_char x : is_char (schar x).
Proof. unfold is_char, schar, wrapS. change (2 ^ 8) with 256. change (2 ^ (8 - 1)) with 128.
  Z.to_euclidean_division_equations. lia.
Qed.

Lemma decode_chars s : Forall is_char s -> Forall is_char (decode s).
Proof.
  remember (length s) as n eqn:Hn. assert (length s <= n)%nat as Hle by lia. clear Hn. revert s Hle.
  induction n as [|n IH]; intros [|c l] Hle Hs; try done; [simpl in Hle; lia|]. rewrite decode_cons.
  apply Forall_cons_1 in Hs as [Hc Hl].
  assert (Forall is_char (c :: decode l)) as H by (constructor; [done|apply IH; [simpl in *; lia|done]]).
  destruct l as [|c1 [|c2 l2]]; [done..|]. destruct (_ && _); [|done].
  apply Forall_cons_1 in Hl as [_ Hl]. apply Forall_cons_1 in Hl as [_ Hl].
  constructor; [apply schar_is_char|]. apply IH; [simpl in *; lia|done].
Qed.

(** The document a target asks for: its decoded path without dot segments, and
    the query. *)
Definition document_of (s : list Z) : list Z :=
  remove_dot_segments (path_of (decode s)) ++ c_str (tail_of (decode s)).

(** The query or fragment of a document name. *)
Definition query_ok (q : list Z) : Prop :=
  match q with [] => True | c :: _ => c = $"?" \/ c = $"#" end.

Lemma query_of t : tail_ok t -> query_ok (c_str t).
Proof.
  destruct t as [|c t]; cbn.
  - done.
  - unfold is_end_path. intros Hc. destruct (Z.eqb_spec c 0); [done|]. cbn.
    destruct (Z.eqb_spec c 63); [by left|]. destruct (Z.eqb_spec c 35); [by right|]. by subst.
Qed.

(** A name made of segments without dots, and a query. *)
Record document_name (doc : list Z) (st : list (list Z)) (q : list Z) : Prop := {
  dn_text : doc = join st ++ q;
  dn_some : st <> [];
  dn_segments : segments_ok st;
  dn_query : query_ok q;
  dn_chars : Forall (fun c => c <> 0) doc
}.

(** The path and query of a request are the characters [s] of its URL. *)
Definition request_target (req : http_message_t) (s : list Z) : Prop :=
  mem_slice (default [] (m_urlbuf req)) (tk_buff (u_pathquery (m_uri req)))
    (tk_size (u_pathquery (m_uri req))) = Some s /\
  Forall is_char s /\ zlen s <= SIZE_MAX.

Lemma removed_dots_name p t :
  Forall no_end (remove_dot_segments p) -> query_ok (c_str t) ->
  rd (remove_dot_segments p ++ c_str t) 0 = $"/" ->
  exists st, document_name (remove_dot_segments p ++ c_str t) st (c_str t).
Proof.
  intros Hn Hq H0. pose proof (remove_dot_segments_ok p) as Hs.
  destruct (remove_dot_segments p) as [|c out] eqn:Ep.
  - exfalso. destruct (c_str t) as [|c q]; [done|]. cbn [app] in H0. rewrite rd_cons_0 in H0. subst c.
    by destruct Hq.
  - cbn [app] in H0. rewrite rd_cons_0 in H0. subst c. destruct Hs as (st & Est & Hst).
    exists st. constructor; try done.
    + by rewrite Est.
    + by intros ->.
    + apply Forall_app. split; [by apply no_end_nonzero|apply c_str_no_nul].
Qed.

Lemma c_str_zeros t k : c_str (t ++ replicate k 0) = c_str t.
Proof. induction t as [|c t IH]; cbn; [by destruct k|]. destruct (c =? 0); [done|]. by rewrite IH. Qed.

Lemma request_document_runs md req s :
  request_target req s ->
  runs md (request_document req) (fun r =>
    match r with
    | inl code => code = HTTP_BAD_REQUEST \/ (md <> Lucky /\ code = HTTP_INTERNAL_SERVER_ERROR)
    | inr doc => c_str doc = document_of s /\ zlen doc = zlen s + 1 /\
                 exists st, document_name (document_of s) st (c_str (tail_of (decode s)))
    end).
Proof.
  intros (Hsl & Hc & Hmax). unfold request_document.
  assert (tk_size (u_pathquery (m_uri req)) = zlen s) as Hsize.
  { unfold mem_slice in Hsl. destruct (_ && _) eqn:E; [|done]. zbool. injection Hsl as <-.
    symmetry. apply zlen_zslice; lia. }
  rewrite Hsize in *. mstep. mstep; cbn [negb]; [|mstep; by right].
  mstep. eapply runs_liftO; [exact Hsl|].
  destruct (remove_escaped_chars_correct s [] Hmax) as (k & E & Hk).
  mstep. eapply runs_liftO; [exact E|]. cbv beta iota.
  set (p := path_of (decode s)). set (t := tail_of (decode s) ++ replicate k 0).
  assert (decode s ++ replicate k 0 = p ++ t) as Ed by (unfold p, t; by rewrite app_assoc, path_tail).
  replace (decode s ++ replicate k 0 ++ [0]) with ((p ++ t) ++ [0]) by (rewrite <- Ed; by rewrite <- app_assoc).
  assert (zlen (p ++ t) = zlen s) as Hd by (rewrite <- Ed, zlen_app, Hk; unfold zlen; by rewrite length_replicate).
  rewrite <- Hd, ztake_app_exact, zdrop_app_exact by done.
  assert (Forall is_char (p ++ t)) as Hdc.
  { rewrite <- Ed. apply Forall_app. split; [by apply decode_chars|]. by apply Forall_replicate. }
  assert (tail_ok t) as Ht.
  { pose proof (tail_of_ok (decode s)). unfold t. destruct (tail_of (decode s)); [by destruct k|done]. }
  destruct (remove_dots_spec p t (path_of_no_end _) Ht Hdc) as (b & Eb & Hz & (r & Hbr & Hr) & Hn).
  mstep. intros o Ho. rewrite Eb. split; [|done]. cbn [negb Z.eqb UPNP_E_SUCCESS]. clear o Ho.
  set (doc := b ++ [0]). destruct (Z.eqb_spec (rd doc 0) 47) as [H0|]; cbn [negb]; mstep; [|by left].
  assert (c_str doc = document_of s) as Edoc.
  { unfold doc, document_of. rewrite Hbr, <- !app_assoc, c_str_app by (by apply no_end_nonzero). f_equal.
    assert (c_str (t ++ r ++ [0]) = c_str t) as ->; [|by apply c_str_zeros].
    clear - Hr. induction t as [|c t IH]; cbn; [by destruct r as [|c r]; [|cbn in *; destruct (c =? 0)]|].
    destruct (c =? 0); [done|by rewrite IH]. }
  split; [done|]. split; [unfold doc; by rewrite zlen_app, Hz|].
  apply removed_dots_name; [done|apply (query_of (tail_of (decode s))), tail_of_ok|].
  fold (document_of s). rewrite <- Edoc. destruct doc as [|c l]; [done|]. rewrite rd_cons_0 in H0. subst c. done.
Qed.

(** ** File names *)

(** A buffer that holds a name. *)
Record holds_name (f : membuffer) (name : list Z) : Prop := {
  nm_wf : mb_wf f;
  nm_text : contents f = name;
  nm_nul : MemBuffer.terminated f;
  nm_chars : Forall (fun c => c <> 0) name
}.

Lemma named_length f name : holds_name f name -> mb_length f = zlen name.
Proof. intros [Hw <- _ _]. symmetry. by apply zlen_contents. Qed.

Lemma named_block f name : holds_name f name -> exists k, mb_buf f = Some (name ++ 0 :: k).
Proof.
  intros Hn. pose proof (named_length f name Hn) as Hl. destruct Hn as [Hw Hc (b & Hb & H0) _].
  exists (zdrop (zlen name + 1) b). rewrite Hb. f_equal.
  unfold contents in Hc. rewrite Hb, Hl in Hc. cbn [default] in Hc. rewrite Hl in H0.
  pose proof (zlen_nonneg name). destruct Hw as [_ Hcap _ Hbl]. rewrite Hb in Hbl.
  rewrite <- Hc at 1. rewrite <- (ztake_zdrop (zlen name) b) at 1. f_equal.
  rewrite zdrop_rd by lia. by rewrite H0.
Qed.

Lemma named_c_str f name : holds_name f name -> exists b, mb_buf f = Some b /\ c_str b = name.
Proof.
  intros Hn. destruct (named_block f name Hn) as [k Hb]. exists (name ++ 0 :: k). split; [done|].
  rewrite c_str_app by apply Hn. cbn. by rewrite app_nil_r.
Qed.

(** Without the slashes at the end. *)
Definition trims (name name' : list Z) : Prop :=
  exists k, name = name' ++ replicate k $"/" /\ last name' <> Some $"/".

Section Names.
Context (junk : Z).

Lemma assign_named md f s :
  mb_wf f -> c_str s <> [] -> zlen (c_str s) <= MB_MAX ->
  runs md (membuffer_assign_str junk f s) (fun '(rc, f') =>
    (rc = 0 /\ holds_name f' (c_str s)) \/ (md <> Lucky /\ rc = UPNP_E_OUTOF_MEMORY /\ f' = f)).
Proof.
  intros Hw Hne Hl. unfold membuffer_assign_str. pose proof (zlen_c_str s). pose proof (zlen_nonneg (c_str s)).
  eapply runs_mono; [apply assign_runs; [done|unfold strlen; lia|done]|].
  intros [rc f'] [(-> & (Hw' & Hc & _) & Ht)|H1]; [left|by right]. split; [done|].
  rewrite ztake_strlen in Hc. constructor; [done|done| |apply c_str_no_nul]. apply Ht. unfold strlen.
  destruct (c_str s); [done|]. rewrite zlen_cons. pose proof (zlen_nonneg l). lia.
Qed.

Lemma append_named md f name s :
  holds_name f name -> c_str s <> [] -> zlen name + zlen (c_str s) <= MB_MAX ->
  runs md (membuffer_append_str junk f s) (fun '(rc, f') =>
    (rc = 0 /\ holds_name f' (name ++ c_str s)) \/ (md <> Lucky /\ rc = UPNP_E_OUTOF_MEMORY /\ f' = f)).
Proof.
  intros Hn Hne Hl. pose proof (zlen_c_str s). pose proof (named_length f name Hn) as Hlen.
  assert (0 < strlen s) as Hs.
  { unfold strlen. destruct (c_str s); [done|]. rewrite zlen_cons. pose proof (zlen_nonneg l). lia. }
  change (membuffer_append_str junk f s) with (membuffer_append junk f (Some s) (strlen s)).
  eapply runs_mono; [apply append_prefix_runs; [apply Hn|unfold strlen in *; lia|unfold strlen in *; lia]|].
  intros [rc f'] [(-> & Ht & Hw' & Hc & _)|H1]; [left|by right]. split; [done|].
  rewrite ztake_strlen, (nm_text f name Hn) in Hc. constructor; [done|done|done|].
  apply Forall_app. split; [apply Hn|apply c_str_no_nul].
Qed.

Lemma trim_slashes_runs md fuel f name :
  md <> Total -> holds_name f name -> zlen name < Z.of_nat fuel ->
  runs md (trim_slashes junk fuel f) (fun f' => exists name', holds_name f' name' /\ trims name name').
Proof.
  intros Hmd. revert f name. induction fuel as [|fuel IH]; intros f name Hn Hf;
    [pose proof (zlen_nonneg name); lia|].
  cbn [trim_slashes]. pose proof (named_length f name Hn) as Hl.
  destruct (Z.leb_spec (mb_length f) 0) as [H0|H0].
  { mstep. exists name. split; [done|]. exists 0%nat. rewrite app_nil_r. split; [done|].
    rewrite Hl in H0. destruct name as [|c name]; [done|]. rewrite zlen_cons in H0.
    pose proof (zlen_nonneg name). lia. }
  destruct (named_block f name Hn) as [k Hb]. destruct name as [|c name _] using rev_ind;
    [change (zlen (@nil Z)) with 0 in Hl; lia|].
  assert (zlen (name ++ [c]) = zlen name + 1) as Hz by (by rewrite zlen_app).
  rewrite Hz in *. mstep. eapply runs_liftO; [exact Hb|]. mstep. eapply runs_liftO.
  { rewrite Hl, Z.add_simpl_r, <- app_assoc. by apply peek_app_at. }
  destruct (Z.eqb_spec c 47) as [->|Hc].
  - mstep. eapply runs_mono.
    + apply delete_runs; [done|apply Hn|lia|lia|]. pose proof (wf_length f (nm_wf _ _ Hn)).
      unfold SIZE_MAX, MB_MAX, INT_MAX in *. lia.
    + intros f' [(Hw & Hc & _) Ht].
      rewrite (nm_text _ _ Hn), Hl, Z.add_simpl_r, ztake_app_exact in Hc by done.
      rewrite zdrop_all, app_nil_r in Hc by lia.
      eapply runs_mono; [apply (IH f' name)|].
      * constructor; [done|done|apply Ht; lia|]. by destruct (Forall_app (fun c => c <> 0) name [47]) as [[? _] _]; [apply Hn|].
      * lia.
      * intros f2 (n2 & Hn2 & j & -> & Hj). exists n2. split; [done|]. exists (S j).
        rewrite <- app_assoc. split; [|done]. f_equal. by rewrite <- replicate_cons_app.
  - mstep. exists (name ++ [c]). split; [done|]. exists 0%nat. rewrite app_nil_r. split; [done|].
    rewrite last_snoc. congruence.
Qed.
End Names.

(** ** What is known of the file *)

Lemma set_ContentType_returns s info :
  returns (UpnpFileInfo_set_ContentType s info) (fun i =>
    exists ct, i = MkInfo (m_FileLength info) (m_LastModified info) (m_IsDirectory info)
      (m_IsReadable info) ct (m_ExtraHeadersList info) (m_CtrlPtIPAddr info) (m_Os info)).
Proof.
  assert (info = MkInfo (m_FileLength info) (m_LastModified info) (m_IsDirectory info)
      (m_IsReadable info) (m_ContentType info) (m_ExtraHeadersList info) (m_CtrlPtIPAddr info) (m_Os info))
    as E by by destruct info.
  unfold UpnpFileInfo_set_ContentType. rstep. apply returns_any. intros [|q|].
  - rstep. by exists (m_ContentType info).
  - do 3 rstep. by eexists.
  - do 3 rstep. by eexists.
Qed.

Lemma get_content_type_returns filename info :
  returns (get_content_type filename info) (fun '(_, i) =>
    exists ct, i = MkInfo (m_FileLength info) (m_LastModified info) (m_IsDirectory info)
      (m_IsReadable info) ct (m_ExtraHeadersList info) (m_CtrlPtIPAddr info) (m_Os info)).
Proof.
  unfold get_content_type. rstep. eapply returns_mono; [apply set_ContentType_returns|].
  intros i [ct ->]. do 2 rstep.
  match goal with |- context [match ?x with Some d => _ | None => _ end] => destruct x end.
  all: do 4 rstep; cbn [negb]; [|rstep; by eexists].
  all: destruct (snprintf _ _) as [rc temp]; rstep; [rstep; by eexists|].
  all: rstep; eapply returns_mono; [apply set_ContentType_returns|].
  all: intros i [ct2 ->]; rstep; by eexists.
Qed.

(** What is sent lies in a document of [n] bytes. *)
Definition sends_within (n : Z) (i : SendInstruction) : Prop :=
  0 <= RangeOffset i /\ 0 <= ReadSendSize i /\ RangeOffset i + ReadSendSize i <= n.

(** Whether a virtual file is sent is decided before the headers are looked at. *)
Definition same_source (i j : SendInstruction) : Prop := IsVirtualFile j = IsVirtualFile i.

Lemma other_header_returns n id TmpBuf instr :
  0 <= n <= LONG_MAX -> sends_within n instr ->
  returns (other_header id TmpBuf n instr) (fun '(rc, i) =>
    (rc = HTTP_OK -> sends_within n i /\ same_source instr i) /\ (id <> HDR_RANGE -> rc = HTTP_OK)).
Proof.
  intros Hn Hi. unfold other_header.
  destruct (id =? HDR_TE).
  { rstep; [|by rstep]. rstep. apply returns_any. intros [t|]; by rstep. }
  destruct (id =? HDR_CONTENT_LENGTH); [by rstep|].
  destruct (Z.eqb_spec id HDR_RANGE) as [->|Hid].
  - apply runs_returns. eapply runs_mono; [by apply create_range_runs|].
    intros [rc i] [(-> & [Ha Ho Hs He _ Hr])|Hrc]; (split; [|done]).
    + intros _. split; [by split|]. by rewrite Hr.
    + intros ->. set_solver.
  - destruct (id =? HDR_ACCEPT_LANGUAGE); by rstep.
Qed.

Lemma other_headers_returns n headers size rc0 instr :
  0 <= n <= LONG_MAX -> sends_within n instr ->
  returns (other_headers headers size n rc0 instr) (fun '(rc, i) =>
    rc = HTTP_OK -> sends_within n i /\ same_source instr i).
Proof.
  intros Hn. revert size rc0 instr. induction headers as [|h headers IH]; intros size rc0 instr Hi;
    cbn [other_headers]; [by rstep|].
  apply returns_bind, returns_liftO. intros index _. apply returns_bind, returns_any. intros ok.
  destruct ok; cbn [negb]; [|by rstep]. apply returns_bind, returns_liftO. intros TmpBuf _.
  rstep; [|by apply IH]. apply returns_bind, returns_liftO. intros entry _. rstep.
  eapply returns_mono; [by apply other_header_returns|]. intros [rc i] [H Hrc].
  destruct (Z.eqb_spec (id entry) HDR_RANGE) as [Hid|Hid].
  - destruct (Z.eqb_spec rc HTTP_OK) as [->|]; cbn [negb]; [|by rstep].
    destruct (H eq_refl) as [Hw Hs]. eapply returns_mono; [by apply IH|].
    intros [rc2 i2] H2 E. destruct (H2 E) as [? Hs2]. split; [done|]. unfold same_source in *. congruence.
  - destruct (H (Hrc Hid)) as [Hw Hs]. eapply returns_mono; [by apply IH|].
    intros [rc2 i2] H2 E. destruct (H2 E) as [? Hs2]. split; [done|]. unfold same_source in *. congruence.
Qed.

Section Serving.
Context (junk : Z).
Context (sysname release UPNP_VERSION_STRING : list Z).
Context (gmtime : Z -> option tm) (now : Z) (codes : statcodes).
Context (file_stat : list Z -> option (option stat)).
Context (vd_get_info : list Z -> UpnpFileInfo -> Z -> Z -> Z * UpnpFileInfo * Z).

Hypothesis size_ok : forall name k size mtime,
  file_stat name = Some (Some (MkStat k size mtime)) -> 0 <= size <= LONG_MAX.

(** What a successful [get_file_info] says. *)
Definition known_file (name : list Z) (info : UpnpFileInfo) : Prop :=
  exists kind mtime, file_stat name = Some (Some (MkStat kind (m_FileLength info) mtime)) /\
    m_IsDirectory info = bool_decide (kind = Directory) /\ kind <> Other.

Lemma get_file_info_returns filename info :
  returns (get_file_info gmtime file_stat filename info) (fun '(rc, i) =>
    rc = 0 -> known_file (c_str filename) i).
Proof.
  unfold get_file_info. rstep. eapply returns_mono; [apply set_ContentType_returns|].
  intros i [ct ->]. destruct (file_stat (c_str filename)) as [[[kind size mtime]|]|] eqn:E; [|by rstep..].
  destruct kind; [| |by rstep].
  all: rstep; eapply returns_mono; [apply get_content_type_returns|].
  all: intros [rc i] [ct2 ->]; do 3 rstep; intros _; eexists _, mtime; split; [exact E|].
  all: split; [|done]; symmetry.
  - by apply bool_decide_eq_true.
  - by apply bool_decide_eq_false.
Qed.

(** A file that is served: its name is the one asked for or its index. *)
Definition found_file (base : list Z) (p : processing) : Prop :=
  exists name mtime, (name = base \/ name = base ++ cs "/index.html") /\
    holds_name (pc_filename p) name /\
    file_stat name = Some (Some (MkStat Regular (m_FileLength (pc_finfo p)) mtime)).

Lemma local_info_returns p name :
  holds_name (pc_filename p) name ->
  returns (local_info gmtime file_stat p) (fun '(rc, p') =>
    (rc = 0 -> known_file name (pc_finfo p')) /\ pc_filename p' = pc_filename p /\
    pc_instr p' = pc_instr p).
Proof.
  intros Hn. destruct (named_c_str _ _ Hn) as (b & Hb & Hc). unfold local_info.
  apply returns_bind, returns_liftO. rewrite Hb. intros b2 [= <-]. rstep.
  eapply returns_mono; [apply get_file_info_returns|]. intros [rc i] Hk. rstep. by rewrite Hc in Hk.
Qed.

Lemma append_index_returns p name :
  holds_name (pc_filename p) name -> last name <> Some $"/" -> zlen name + 11 <= MB_MAX ->
  returns (append_index junk p) (fun '(code, p') =>
    (code = HTTP_OK -> holds_name (pc_filename p') (name ++ cs "/index.html")) /\
    pc_instr p' = pc_instr p).
Proof.
  intros Hn Hl Hmax. unfold append_index. pose proof (named_length _ _ Hn) as Hlen.
  apply returns_bind, returns_liftO. intros buf Hbuf.
  destruct (named_block _ _ Hn) as [k Hb]. rewrite Hb in Hbuf. injection Hbuf as <-.
  apply returns_bind, returns_liftO. intros c0 H0.
  assert (c0 <> 47) as Hne.
  { intros ->. destruct name as [|c name _] using rev_ind.
    - by rewrite Hlen in H0.
    - rewrite Hlen, <- app_assoc, zlen_app in H0. change (zlen [c]) with 1 in H0.
      rewrite Z.add_simpl_r in H0. cbn [app] in H0. rewrite peek_app_at in H0 by done.
      apply Hl. rewrite last_snoc. congruence. }
  rewrite (proj2 (Z.eqb_neq c0 47)) by done.
  rstep. apply runs_returns. eapply runs_mono; [apply (append_named junk Safe _ name (cs "/index.html")); [done|done|]|].
  { change (zlen (c_str (cs "/index.html"))) with 11. lia. }
  intros [rc f] [[-> Hf]|(_ & -> & ->)]; rstep; (split; [|done]); [intros _; exact Hf|done].
Qed.

Lemma and_then_returns m k Q :
  returns m (fun '(code, p) =>
    (code = HTTP_OK -> returns (k p) Q) /\ (code <> HTTP_OK -> Q (code, p))) ->
  returns (and_then m k) Q.
Proof.
  intros H. unfold and_then. rstep. eapply returns_mono; [exact H|]. intros [code p] [H1 H2].
  destruct (Z.eqb_spec code HTTP_OK); [auto|]. rstep. auto.
Qed.

Lemma file_or_index_returns p base :
  holds_name (pc_filename p) base -> last base <> Some $"/" -> zlen base + 11 <= MB_MAX ->
  returns (file_or_index junk (local_info gmtime file_stat) p) (fun '(code, p') =>
    code = HTTP_OK -> found_file base p' /\ pc_instr p' = pc_instr p).
Proof.
  intros Hn Hl Hmax. unfold file_or_index. rstep.
  eapply returns_mono; [by apply (local_info_returns p base)|]. intros [rc p1] (Hk & Hn1 & Hi1).
  destruct (Z.eqb_spec rc 0) as [->|]; cbn [negb]; [|by rstep].
  destruct (Hk eq_refl) as (kind & mtime & Hs & Hd & Ho).
  apply and_then_returns.
  eapply (returns_mono _ (fun '(code, p') =>
    code = HTTP_OK -> found_file base p' /\ pc_instr p' = pc_instr p)).
  - destruct (m_IsDirectory (pc_finfo p1)) eqn:Ed.
    2:{ rstep. intros _. split; [|done]. exists base, mtime. split; [by left|].
        split; [by rewrite Hn1|]. rewrite Hs.
        symmetry in Hd. apply bool_decide_eq_false in Hd. by destruct kind. }
    apply and_then_returns.
    eapply returns_mono; [apply (append_index_returns p1 base); [by rewrite Hn1|done|done]|].
    intros [code p2] [H2 Hp2]. split; [|done]. intros ->. specialize (H2 eq_refl). rstep.
    eapply returns_mono; [apply (local_info_returns p2 _ H2)|]. intros [rc p3] (Hk3 & Hn3 & Hi3). rstep.
    destruct (Z.eqb_spec rc 0) as [->|]; cbn [negb orb]; [|done].
    destruct (Hk3 eq_refl) as (kind3 & mtime3 & Hs3 & Hd3 & Ho3).
    destruct (m_IsDirectory (pc_finfo p3)); [done|]. intros _.
    split; [|congruence]. exists (base ++ cs "/index.html"), mtime3. split; [by right|].
    split; [by rewrite Hn3|]. rewrite Hs3.
    symmetry in Hd3. apply bool_decide_eq_false in Hd3. by destruct kind3.
  - intros [code p2] H2. split; [|done]. intros ->. specialize (H2 eq_refl).
    rstep. by destruct (m_IsReadable _).
Qed.

Lemma local_file_returns req request_doc w p root st q :
  pc_filename p = membuffer_init -> m_method req <> HTTPMETHOD_POST ->
  holds_name (gDocumentRootDir w) root -> document_name (c_str request_doc) st q ->
  zlen root + zlen (c_str request_doc) + 11 <= MB_MAX ->
  returns (local_file junk gmtime file_stat req request_doc w p) (fun '(code, p') =>
    code = HTTP_OK -> pc_instr p' = pc_instr p /\
      exists base, trims (root ++ join st ++ q) base /\ found_file base p').
Proof.
  intros Hp Hm Hroot Hdoc Hmax. unfold local_file. pose proof (named_length _ _ Hroot) as Hlr.
  destruct (Z.eqb_spec (mb_length (gDocumentRootDir w)) 0) as [|H0]; [by rstep|].
  destruct (named_c_str _ _ Hroot) as (rb & Hrb & Hrc).
  apply returns_bind, returns_liftO. rewrite Hrb. intros b [= <-]. rewrite Hp.
  pose proof (zlen_nonneg (c_str request_doc)).
  assert (mb_wf membuffer_init) as Hinit by (split; cbn; unfold MB_MAX, INT_MAX; lia || done).
  assert (root <> []) as Hne by by intros ->.
  apply returns_bind, runs_returns. eapply runs_mono;
    [apply (assign_named junk Safe _ rb Hinit); rewrite Hrc; [done|lia]|].
  intros [rc f] [[-> Hf]|(_ & -> & ->)].
  2:{ change (UPNP_E_OUTOF_MEMORY =? 0) with false. rstep. rstep.
      change (UPNP_E_OUTOF_MEMORY =? 0) with false. cbn [negb]. by rstep. }
  rewrite Hrc in Hf. cbn [Z.eqb]. 
  assert (c_str request_doc <> []) as Hdne.
  { rewrite (dn_text _ _ _ Hdoc). destruct st as [|s st']; [by destruct (dn_some _ _ _ Hdoc)|done]. }
  rstep. apply runs_returns.
  eapply runs_mono; [apply (append_named junk Safe _ root request_doc Hf Hdne); lia|].
  intros [rc f2] [[-> Hf2]|(_ & -> & ->)];
    [|change (UPNP_E_OUTOF_MEMORY =? 0) with false; cbn [negb]; by rstep]. cbn [negb Z.eqb]. rstep. apply runs_returns.
  pose proof (named_length _ _ Hf2) as Hl2. pose proof (zlen_nonneg (root ++ c_str request_doc)).
  eapply runs_mono; [apply (trim_slashes_runs junk Safe _ f2 _ ltac:(done) Hf2); lia|].
  intros f3 (base & Hf3 & Ht). rewrite (dn_text _ _ _ Hdoc) in Ht.
  rewrite (proj2 (Z.eqb_neq _ _)) by done.
  assert (zlen base <= zlen root + zlen (c_str request_doc)) as Hbl.
  { rewrite (dn_text _ _ _ Hdoc). destruct Ht as (k & E & _). apply (f_equal zlen) in E.
    rewrite !zlen_app in *. pose proof (zlen_nonneg (replicate k 47)). lia. }
  eapply returns_mono; [apply (file_or_index_returns _ base); [done| |lia]|].
  - by destruct Ht as (k & _ & ?).
  - intros [code p'] Hk E. destruct (Hk E) as [Hfound Hi]. split; [exact Hi|]. by exists base.
Qed.

Lemma find_document_returns request_doc w p :
  returns (find_document junk request_doc w p) (fun '(code, how, _, _, p') =>
    code = HTTP_OK -> how = ByFile -> pc_instr p' = pc_instr p /\ pc_filename p' = pc_filename p).
Proof.
  unfold find_document. destruct (isFileInVirtualDir _ _).
  { rstep. apply returns_any. intros [rc f]. by rstep. }
  destruct (is_valid_alias _); [|by rstep].
  rstep. apply returns_any. intros [alias st]. rstep. apply returns_any. intros [aliased info].
  destruct aliased; [|by rstep]. rstep. apply returns_any. intros info2. by rstep.
Qed.

(** What is answered with the contents of a file of the root directory. *)
Lemma answer_request_returns req how p :
  returns (answer_request junk sysname release UPNP_VERSION_STRING gmtime now codes req how p)
    (fun '(code, rtype, _, p') =>
       code = HTTP_OK -> rtype = RESP_FILEDOC ->
       how = ByFile /\ m_method req <> HTTPMETHOD_POST /\ m_method req <> HTTPMETHOD_HEAD /\
       pc_finfo p' = pc_finfo p /\ pc_filename p' = pc_filename p /\
       (0 <= m_FileLength (pc_finfo p) <= LONG_MAX -> RangeOffset (pc_instr p) = 0 ->
        sends_within (m_FileLength (pc_finfo p)) (pc_instr p') /\
        same_source (pc_instr p) (pc_instr p'))).
Proof.
  unfold answer_request. destruct (http_CalcResponseVersion _ _) as [major minor].
  set (n := m_FileLength (pc_finfo p)). set (instr := set_ReadSendSize n (pc_instr p)).
  rstep. eapply (returns_mono _ (fun '(rc, i) => 0 <= n <= LONG_MAX -> RangeOffset (pc_instr p) = 0 ->
    rc = HTTP_OK -> sends_within n i /\ same_source instr i)).
  { intros o [rc i] o' E Hn Ho.
    assert (returns (CheckOtherHTTPHeaders req instr n)
      (fun '(rc, i) => rc = HTTP_OK -> sends_within n i /\ same_source instr i)) as H;
      [clear o rc i o' E|exact (H o (rc, i) o' E)].
    unfold CheckOtherHTTPHeaders. rstep. apply returns_any. intros []; cbn [negb]; [|by rstep].
    apply other_headers_returns; [done|]. split; cbn; [lia|]. split; cbn; lia. }
  intros [rc i] Hi. destruct (Z.eqb_spec rc HTTP_OK) as [->|]; cbn [negb]; [|by rstep].
  destruct (Z.eqb_spec (m_method req) HTTPMETHOD_POST) as [|Hpost]; [by rstep|].
  assert (forall code p2, check_chunked how major minor (set_instr i p) = (code, p2) ->
    how = ByFile -> p2 = set_instr i p) as Hc.
  { intros code p2 E ->. cbn in E. by simplify_eq. }
  destruct (check_chunked _ _ _ _) as [code p2]. specialize (Hc _ _ eq_refl).
  destruct (Z.eqb_spec code HTTP_OK) as [->|]; cbn [negb]; [|by rstep].
  rstep. apply returns_any. intros [rc headers]. destruct (Z.eqb_spec rc 0) as [->|]; cbn [negb]; [|by rstep].
  rstep. intros _. unfold response_type.
  destruct (Z.eqb_spec (m_method req) HTTPMETHOD_HEAD) as [|Hhead]; [done|].
  destruct how; [done..|]. intros _. specialize (Hc eq_refl). subst p2. repeat (split; [done|]).
  intros Hn Ho. exact (Hi Hn Ho eq_refl).
Qed.

Lemma finish_request_returns code rtype headers alias st p :
  returns (finish_request code rtype headers alias st p) (fun '(r, _) =>
    ps_code r = code /\ ps_rtype r = rtype /\ ps_request r = p).
Proof.
  unfold finish_request. do 2 (apply returns_bind, returns_liftO; intros _ _).
  destruct alias as [a|]; [|by rstep]. rstep; [|by rstep].
  rstep. apply returns_any. intros [a2 st2]. by rstep.
Qed.
End Serving.


(** ** The file that is served *)

(** A segment [".."] in a name. *)
Definition at_end (b : list Z) : Prop := match b with [] => True | c :: _ => c = $"/" end.
Definition dotdot (name : list Z) : Prop := exists a b, name = a ++ cs "/.." ++ b /\ at_end b.

Lemma at_end_app b k : at_end b -> at_end (b ++ replicate k ($"/")).
Proof. destruct b; [by destruct k|done]. Qed.

(** Nothing of a segment is a slash. *)
Lemma segment_eq x y l r :
  Forall no_slash x -> Forall no_slash y -> at_end l -> at_end r -> x ++ l = y ++ r -> x = y.
Proof.
  revert y. induction x as [|c x IH]; intros [|d y] Hx Hy Hl Hr E; [done| | |].
  - apply Forall_cons_1 in Hy as [Hd _]. destruct l as [|c l]; cbn in *; [done|].
    injection E as -> _. by subst.
  - apply Forall_cons_1 in Hx as [Hc _]. destruct r as [|d r]; cbn in *; [done|].
    injection E as -> _. by subst.
  - apply Forall_cons_1 in Hx as [_ Hx]. apply Forall_cons_1 in Hy as [_ Hy]. injection E as -> E.
    f_equal. by apply IH.
Qed.
Lemma at_end_join st : at_end (join st).
Proof. by destruct st. Qed.

Lemma join_dotdot st : Forall (Forall no_slash) st -> dotdot (join st) -> cs ".." ∈ st.
Proof.
  intros Hs (a & b & E & Hb). revert a E. induction Hs as [|s st Hs _ IH]; intros a E.
  { by destruct a. }
  change (join (s :: st)) with ($"/" :: s ++ join st) in E. destruct a as [|c a].
  - change ([] ++ cs "/.." ++ b) with ($"/" :: cs ".." ++ b) in E. injection E as E.
    assert (s = cs "..") as ->; [|by left].
    eapply segment_eq; [exact Hs|by repeat constructor|apply at_end_join|exact Hb|exact E].
  - right. cbn [app] in E. injection E as _ E. clear -E Hs IH. revert a E.
    induction Hs as [|c s Hc _ IHs]; intros a E; [by apply (IH a)|].
    destruct a as [|d a]; cbn [app] in E.
    + injection E as -> _. by destruct Hc.
    + injection E as _ E. by apply (IHs a).
Qed.

Lemma dotdot_app x y : dotdot (x ++ $"/" :: y) -> dotdot x \/ dotdot ($"/" :: y).
Proof.
  intros (a & b & E & Hb).
  apply app_eq_inv in E as [(k & Ex & E)|(k & -> & E)]; [|right; by exists k, b].
  destruct k as [|c0 k]; [right; exists [], b; split; [exact (eq_sym E)|done]|].
  cbn in E. injection E as <- E. destruct k as [|c1 k]; cbn in E; [done|]. injection E as <- E.
  destruct k as [|c2 k]; cbn in E; [done|]. injection E as <- E.
  left. exists a, k. split; [by rewrite Ex|]. destruct k as [|c3 k]; [done|]. cbn in E. by subst b.
Qed.

(** What is behind the root directory [root] in [name]. *)
Definition below (root name : list Z) : Prop :=
  exists rest, name = root ++ rest /\ at_end rest /\ ~ dotdot rest.

Lemma below_root root st base name :
  segments_ok st -> last root <> Some ($"/") -> trims (root ++ join st) base ->
  name = base \/ name = base ++ cs "/index.html" -> below root name.
Proof.
  intros [Hd Hs] Hl (k & E & Hb) Hn.
  assert (exists rest, base = root ++ rest /\ join st = rest ++ replicate k ($"/")) as (rest & -> & Ej).
  { clear -E Hl. apply app_eq_inv in E as [(l & -> & E)|(l & -> & E)]; [|by exists l].
    destruct l as [|c l _] using rev_ind; [exists []; rewrite app_nil_r in *; by rewrite app_nil_r|].
    exfalso. apply Hl. rewrite app_assoc, last_snoc. f_equal.
    assert (c ∈ replicate k ($"/")) as Hc by (rewrite E; set_solver).
    by apply elem_of_replicate in Hc as [-> _]. }
  assert (~ cs ".." ∈ st) as Hnd.
  { intros Hin. rewrite Forall_forall in Hd. by destruct (Hd _ Hin). }
  assert (~ dotdot rest) as H1.
  { intros (a & b & -> & Hb'). apply Hnd, join_dotdot; [done|]. rewrite Ej.
    exists a, (b ++ replicate k ($"/")). split; [by rewrite <- !app_assoc|by apply at_end_app]. }
  assert (at_end rest) as H2.
  { pose proof (at_end_join st) as H. rewrite Ej in H. destruct rest; [done|exact H]. }
  destruct Hn as [->| ->]; [by exists rest|]. exists (rest ++ cs "/index.html").
  split; [by rewrite app_assoc|]. split; [by destruct rest|].
  change (cs "/index.html") with ($"/" :: cs "index.html"). intros [H|H]%dotdot_app; [done|].
  assert (join [cs "index.html"] = $"/" :: cs "index.html") as Ei by by vm_compute.
  rewrite <- Ei in H. apply join_dotdot in H; [|by repeat constructor].
  apply list_elem_of_singleton in H. by vm_compute in H.
Qed.

(** The answer to the target [s] is the contents of the regular file [name] of
    [size] bytes. *)
Record serves (file_stat : list Z -> option (option stat)) (root s : list Z) (r : processed)
    (name : list Z) (size : Z) : Prop := {
  (** the normalised path and the query of the target, behind the root directory *)
  sv_name : exists base, trims (root ++ document_of s) base /\
    (name = base \/ name = base ++ cs "/index.html");
  (** the path in segments without dots, and what follows a question mark or
      a hash in the decoded target, as it is *)
  sv_inside : exists st, document_name (document_of s) st (c_str (tail_of (decode s)));
  (** without those two characters the file is below the root directory *)
  sv_below : $"?" ∉ decode s -> $"#" ∉ decode s -> last root <> Some ($"/") -> below root name;
  (** the name that is opened is that of a local file *)
  sv_filename : holds_name (pc_filename (ps_request r)) name;
  sv_local : IsVirtualFile (pc_instr (ps_request r)) = false;
  sv_regular : exists mtime, file_stat name = Some (Some (MkStat Regular size mtime));
  (** and the bytes that are sent lie in it *)
  sv_within : sends_within size (pc_instr (ps_request r))
}.

Lemma no_tail s : $"?" ∉ s -> $"#" ∉ s -> c_str (tail_of s) = [].
Proof.
  intros H1 H2. pose proof (query_of _ (tail_of_ok s)) as H.
  destruct (tail_of s) as [|c t] eqn:E; [done|].
  assert (c ∈ s) as Hin.
  { unfold tail_of in E. rewrite <- (ztake_zdrop (span (fun c => negb (is_end_path c)) s) s), E. set_solver. }
  cbn in *. destruct (c =? 0); [done|]. by destruct H as [-> | ->].
Qed.

Section Theorems.
Context (junk : Z) (sysname release UPNP_VERSION_STRING : list Z).
Context (gmtime : Z -> option tm) (now : Z) (codes : statcodes).
Context (file_stat : list Z -> option (option stat)).
Context (vd_get_info : list Z -> UpnpFileInfo -> Z -> Z -> Z * UpnpFileInfo * Z).

Local Abbreviation process :=
  (process_request junk sysname release UPNP_VERSION_STRING gmtime now codes file_stat vd_get_info).

(** C8: A request is answered with the contents of a local file only if that
    is a regular file whose name is the root directory followed by the document
    of the request, without the slashes at its end, or [index.html] in the
    directory of that name.  The document is the path of the target, decoded and
    with its dot segments resolved, so that no segment of it is ["."] or [".."],
    followed by what the decoded target has from its first question mark or hash
    on, which is left as it is and may hold segments [".."].  So a target whose
    decoded characters include neither gets a file below the root directory:
    its name is the root directory, when that does not end in a slash, followed
    by segments of which none is [".."].  Whatever ranges the request asks for,
    the bytes sent lie in the file.  This holds for all requests, all virtual
    directories and aliases, and whatever the allocator answers. *)
Theorem process_request_file foreign_sockaddr req w s root :
  request_target req s ->
  holds_name (gDocumentRootDir w) root ->
  (forall name k size mtime,
     file_stat name = Some (Some (MkStat k size mtime)) -> 0 <= size <= LONG_MAX) ->
  zlen root + zlen s + 12 <= MB_MAX ->
  returns (process foreign_sockaddr req w) (fun '(r, _) =>
    ps_code r = HTTP_OK -> ps_rtype r = RESP_FILEDOC ->
    exists name size, serves file_stat root s r name size).
Proof.
  intros Htarget Hroot Hsize Hmax. unfold process_request.
  apply returns_bind, returns_any. intros _. apply returns_bind, returns_any. intros finfo.
  apply returns_bind, returns_liftO. intros info _.
  apply returns_bind, runs_returns. eapply runs_mono; [by apply request_document_runs|].
  intros [code|doc].
  { intros Hcode. eapply returns_mono; [apply finish_request_returns|]. intros [r st] (-> & _) E.
    destruct Hcode as [->|[_ ->]]; done. }
  intros (Hdoc & Hlen & st & Hname). set (q := c_str (tail_of (decode s))) in *.
  apply returns_bind. eapply returns_mono; [apply find_document_returns|].
  intros [[[[code how] alias] st2] p] Hp. apply returns_bind.
  eapply (returns_mono _ (fun '(code, p') =>
    code = HTTP_OK -> how = ByFile -> m_method req <> HTTPMETHOD_POST ->
    pc_instr p' = no_instr /\
    exists base, trims (root ++ document_of s) base /\ found_file file_stat base p')).
  { apply and_then_returns, returns_ret. split; [|done]. intros ->.
    destruct how; [by apply returns_any; intros []..|].
    destruct (Hp eq_refl eq_refl) as [Hi Hf].
    destruct (decide (m_method req = HTTPMETHOD_POST)); [by apply returns_any; intros []|].
    eapply returns_mono; [apply (local_file_returns junk gmtime file_stat req doc w p root st q)|].
    - done.
    - done.
    - done.
    - by rewrite Hdoc.
    - pose proof (zlen_c_str doc). lia.
    - intros [c p'] H E _ _. destruct (H E) as [Hi2 Hb]. split; [by rewrite Hi2, Hi|].
      by rewrite <- (dn_text _ _ _ Hname) in Hb. }
  intros [code2 p2] Hfile. destruct (Z.eqb_spec code2 HTTP_OK) as [->|Hc]; cbn [negb].
  2:{ eapply returns_mono; [apply finish_request_returns|]. by intros [r st3] (-> & _). }
  apply returns_bind. eapply returns_mono; [apply answer_request_returns|].
  intros [[[code3 rtype] headers] p3] Ha.
  eapply returns_mono; [apply finish_request_returns|]. intros [r st3] (-> & -> & Hr) -> ->.
  destruct (Ha eq_refl eq_refl) as (Hhow & Hpost & _ & Hfi & Hfn & Hs).
  destruct (Hfile eq_refl Hhow Hpost) as (Hi & base & Hb & name & mtime & Hnm & Hnamed & Hstat).
  destruct (Hs (Hsize _ _ _ _ Hstat)) as [Hw Hsame]; [by rewrite Hi|].
  exists name, (m_FileLength (pc_finfo p2)). constructor; rewrite ?Hr, ?Hfn.
  - by exists base.
  - by exists st.
  - intros H1 H2 Hl. pose proof (dn_text _ _ _ Hname) as Et. unfold q in Et.
    rewrite no_tail, app_nil_r in Et by done. rewrite Et in Hb.
    exact (below_root root st base name (dn_segments _ _ _ Hname) Hl Hb Hnm).
  - done.
  - rewrite Hsame. by rewrite Hi.
  - by exists mtime.
  - done.
Qed.
End Theorems.

(** ** A server and its requests *)

(** The message that the parser makes of the bytes of a request. *)
Definition parsed (s : list Z) : http_message_t :=
  match run (parser_append 0 (fun _ => None) (fun _ _ => None) 0 parser_request_init s (zlen s)) with
  | Some (_, p) => p_msg p
  | None => cleared_message
  end.
Definition ex_request : http_message_t :=
  Eval vm_compute in
    parsed (cs "GET /../a/../%62.txt HTTP/1.1" ++ EOL ++ cs "Range: bytes=1-3" ++ EOL ++ EOL).
Definition ex_head : http_message_t :=
  Eval vm_compute in parsed (cs "HEAD /d.xml HTTP/1.1" ++ EOL ++ EOL).

Definition ex_aliases : aliases :=
  MkAliases (MkAlias (Membuffer (Some (cs "/d.xml" ++ [0])) 6 6 5)
               (Membuffer (Some (cs "<a/>")) 4 4 5) 0 (Some 1%positive)) {[1%positive := 1]}.
Definition ex_server : webserver :=
  MkWeb true (Membuffer (Some (cs "/www" ++ [0])) 4 4 5) ex_aliases [].
Definition ex_stat (name : list Z) : option (option stat) :=
  if bool_decide (name = cs "/www/b.txt") then Some (Some (MkStat Regular 11 5)) else None.

Definition ex_process (req : http_message_t) : M (processed * aliases) :=
  process_request 0 (cs "L") (cs "6") (cs "1.14") (fun _ => Some ex_tm) 0 (Statcodes false [])
    ex_stat (fun _ i _ _ => (0, i, 0)) no_addr req ex_server.
Definition ex_answer : option (processed * aliases) := Eval vm_compute in run (ex_process ex_request).

Lemma process_request_file_witness :
  match ex_answer with
  | Some (r, _) => exists name size, serves ex_stat (cs "/www") (cs "/../a/../%62.txt") r name size
  | None => False
  end.
Proof.
  assert (returns (ex_process ex_request) (fun '(r, _) =>
    ps_code r = HTTP_OK -> ps_rtype r = RESP_FILEDOC ->
    exists name size, serves ex_stat (cs "/www") (cs "/../a/../%62.txt") r name size)) as H.
  { apply (process_request_file 0 (cs "L") (cs "6") (cs "1.14") (fun _ => Some ex_tm) 0
      (Statcodes false []) ex_stat (fun _ i _ _ => (0, i, 0)) no_addr ex_request ex_server).
    - split; [by vm_compute|]. split; [|by vm_compute].
      repeat (apply List.Forall_cons; [by split; vm_compute|]). apply List.Forall_nil.
    - constructor; [| |by eexists|by repeat constructor].
      + by split; cbn; unfold MB_MAX, INT_MAX; lia || done.
      + by vm_compute.
    - intros name k size mtime. unfold ex_stat. destruct (bool_decide _); [|done].
      intros [= _ <- _]. by vm_compute.
    - by vm_compute. }
  assert (run (ex_process ex_request) = ex_answer) as E by by vm_compute.
  exact (returns_run _ _ _ H E eq_refl eq_refl).
Defined.

(** A [HEAD] of the document under the alias grabs it and does not release it;
    so does every request that is answered with something else while there is
    an alias. *)
Lemma alias_not_released :
  match run (ex_process ex_head), run (ex_process ex_request) with
  | Some (r1, st1), Some (r2, st2) =>
      ps_rtype r1 = RESP_HEADERS /\ counts st1 !! 1%positive = Some 2 /\
      ps_rtype r2 = RESP_FILEDOC /\ counts st2 !! 1%positive = Some 2
  | _, _ => False
  end.
Proof. by vm_compute. Qed.

(** Behind an encoded question mark, dot segments reach the name that is
    opened. *)
Lemma query_escapes :
  let target := cs "/a%3F/../../etc/passwd" in
  let name := cs "/www/a?/../../etc/passwd" in
  let req := parsed (cs "GET " ++ target ++ cs " HTTP/1.1" ++ EOL ++ EOL) in
  cs "/www" ++ document_of target = name /\
  match run (process_request 0 (cs "L") (cs "6") (cs "1.14") (fun _ => Some ex_tm) 0 (Statcodes false [])
               (fun f => if bool_decide (f = name) then Some (Some (MkStat Regular 11 5)) else None)
               (fun _ i _ _ => (0, i, 0)) no_addr req ex_server) with
  | Some (r, _) => ps_code r = HTTP_OK /\ ps_rtype r = RESP_FILEDOC /\
      contents (pc_filename (ps_request r)) = name
  | None => False
  end.
Proof. by vm_compute. Qed.
